(* ===== verification/_CoqProject ===== *)
-Q . S2P
Prelude.v
Reciprocal.v
Blake2b.v
Blake2Generator.v
Instruction.v
Superscalar.v
SuperscalarProofs.v
Memory.v
LineReader.v
MemPool.v
Keccak.v
Cvt.v
BlobReader.v
BlockTemplate.v
MerkleProofs.v
TemplateProofs.v
WalletAddress.v
WalletProofs.v
SoftAes.v
AesHash.v
Float64.v
Config.v
Algorithm.v
Job.v
Json.v
Url.v
Client.v
Nonce.v
WorkerJob.v
Mining.v
ClientProofs.v
ClientSafety.v
Bytecode.v
BytecodeProofs.v
BytecodeSpec.v
Dataset.v
DatasetProofs.v
VM.v
VMProofs.v
VMDeterminism.v
RandomXHash.v
CpuWorker.v
Uint.v
UintProofs.v
Target.v
Header.v
Pow.v
PowProofs.v
Bridge.v
BridgeProofs.v
BridgeClient.v
Ghostdag.v
GhostdagProofs.v
GhostdagGrowth.v
Reachability.v
ReachabilityTree.v
ReachabilityOps.v
ReachabilityReindex.v
ReachabilityRoot.v
ReachabilityProofs.v
ReachabilityDelete.v
ReachabilityTrace.v
ReachabilityService.v
HeaderProcessor.v
HeaderPipeline.v
Tx.v
TxProofs.v
Coinbase.v
CoinbaseProofs.v
