(* ===== verification/Prelude.v ===== *)
(** * Verification of the miner, the stratum bridge and the consensus core of Lapis Monetae

    The system has three programs.  A CPU miner, a fork of xmrig, is under
    src/tools/xmrig-lmt/xmrig-fork/src, and paths below without src/ are relative to
    it.  A pool or daemon sends work: the bytes of a connection are cut into lines, the
    client answers the messages in them, a block template is parsed into a hashing
    blob, and a job with a target is made from it.  Workers take the job over, reserve
    ranges of nonces from shared counters, hash the blob with each nonce by RandomX,
    and report the nonces whose hash is below the target.  A bridge,
    src/tools/xmrig-lmt/bridge, is the pool of that miner: it fetches templates from a
    node, sends them as jobs and makes blocks from shares.  The node is a Rust program
    of many crates under src/, of which the consensus core is modelled: large integers
    and targets, headers, transactions and Merkle roots, the check of the proof of
    work, the GHOSTDAG order of blocks, the reachability index, the processing of
    headers, and coinbase transactions.

    The development translates the parts with logic of their own into functions and
    states.  Fallible code is in the monad [result]: [Ok] is a return, [Fault] an access
    outside of an array, a division by zero, a panic or another undefined operation, and
    [OutOfFuel] a loop that the model stops.  Machine words are integers with the
    wrap-around written out ([u8], [u16], [u32], [u64]), or with the panic of code that is
    compiled with overflow checks ([checked]), as the node is; memory is a list of bytes
    with checked loads and stores (Memory.v).

    ** Files

    RandomX (crypto/randomx):
    - Reciprocal.v: reciprocal.c, the portable products of instructions_portable.cpp.
    - Blake2b.v: blake2/blake2b.c, streaming, keyed, one-shot and variable-length.
    - Blake2Generator.v: blake2_generator.cpp, with the interface [ByteSource].
    - Instruction.v: instruction.hpp, the vector operations of intrin_portable.h.
    - Superscalar.v, SuperscalarProofs.v: superscalar.cpp, generator and executor.
    - Memory.v: blake2/endian.h on buffers.
    - SoftAes.v: soft_aes.cpp; the class [AesRounds] is the interface of the AES
      rounds, [AesLaws] its contract (FIPS 197).
    - AesHash.v: aes_hash.cpp.
    - Float64.v: IEEE 754 double precision under the four rounding modes.
    - Config.v: the configurations of randomx.cpp and randomx.h.
    - Bytecode.v, BytecodeProofs.v, BytecodeSpec.v: bytecode_machine.cpp, compiler and
      interpreter, its safety and termination, and the instruction set as a
      specification.
    - Dataset.v, DatasetProofs.v: dataset.cpp and the division between threads of
      crypto/rx/RxDataset.cpp, with its wrapper for vector code; the class
      [DatasetReader] is the interface of the two ways to read the dataset.
    - VM.v, VMProofs.v, VMDeterminism.v, RandomXHash.v: virtual_machine.cpp,
      vm_interpreted.cpp and the hash functions of randomx.cpp.

    Pool side (base):
    - LineReader.v, MemPool.v: net/tools/LineReader.cpp and MemPool.h.
    - Keccak.v: crypto/keccak.cpp and sha3.cpp.
    - Cvt.v: the hexadecimal conversions of tools/Cvt.cpp.
    - BlobReader.v, BlockTemplate.v, MerkleProofs.v, TemplateProofs.v:
      tools/cryptonote/BlobReader.h and BlockTemplate.cpp.
    - WalletAddress.v, WalletProofs.v: tools/cryptonote/WalletAddress.cpp, umul128.h.
    - Algorithm.v: crypto/Algorithm.cpp and crypto/rx/RxAlgo.cpp.
    - Job.v: net/stratum/Job.cpp.
    - Json.v: the accessors of io/json/Json.cpp and JsonRequest.cpp on JSON values.
    - Url.v: net/stratum/Url.cpp and ProxyUrl.h.
    - Client.v, ClientProofs.v, ClientSafety.v: net/stratum/Client.cpp and BaseClient.cpp,
      all handlers of a connection as functions on the state of the client, with what
      they write, report and free as outputs.  A null socket that is handed to the loop,
      a null listener that is called and an owner's call of a deleted client are faults.

    Workers:
    - Nonce.v: crypto/common/Nonce.cpp, the shared counters.
    - WorkerJob.v: backend/common/WorkerJob.h.
    - Mining.v: any number of workers on one job as a step relation, whose
      transitions are the atomic operations of Nonce.cpp and WorkerJob.h.
    - CpuWorker.v: the inner loop of backend/cpu/CpuWorker.cpp.

    Node and bridge (src):
    - Uint.v, UintProofs.v, Target.v: math/src/uint.rs, the integers of [construct_uint]
      as lists of words, and the compact form of targets in math/src/lib.rs.
    - Header.v: consensus/core/src/header.rs and hashing/header.rs.
    - Pow.v, PowProofs.v: consensus/pow/src and crypto/hashes/src/pow_hashers.rs.
    - Bridge.v, BridgeProofs.v: tools/xmrig-lmt/bridge/src/main.rs, a connection as a
      transition system; BridgeClient.v: bridge and client of the miner together.
    - Ghostdag.v, GhostdagProofs.v, GhostdagGrowth.v: consensus/src/processes/ghostdag and
      model/stores/ghostdag.rs; the last shows that later blocks change no result.
    - Reachability.v: consensus/src/processes/reachability, intervals, tree, reindexing
      and queries, on the store in memory of model/stores/reachability.rs, a map from
      blocks to interval, parent, children, covering set and height.
      ReachabilityTree.v has the invariant of that store, ReachabilityOps.v,
      ReachabilityReindex.v, ReachabilityRoot.v, ReachabilityProofs.v and
      ReachabilityDelete.v that insertion, reindexing, the moves of the reindex root and
      deletion keep it, ReachabilityTrace.v what follows for every history, and
      ReachabilityService.v the queries and iterators of model/services/reachability.rs.
    - HeaderProcessor.v: consensus/src/pipeline/header_processor and
      consensus/src/processes/block_depth.rs, the stores of the node as a record and
      validation and commit of a header as functions on it.
      HeaderPipeline.v: validation and commits of any headers, interleaved, as a
      transition system.
    - Tx.v, TxProofs.v: consensus/core/src/tx.rs, hashing/tx.rs and crypto/merkle.
    - Coinbase.v, CoinbaseProofs.v: consensus/src/processes/coinbase.rs.

    ** What is proved

    - Hashing: [randomx_calculate_hash] returns for every input (calculate_hash_total),
      depends on the input only, is the same in light and fast mode and for every
      implementation of the AES rounds, and the pipelined interface of the miner
      gives the same hashes.  Below it: all programs run to completion, the bytecode
      implements the instruction set, superscalar programs are well formed, the
      dataset does not depend on how its items are divided between threads, the
      fused AES pass is the two passes, the software AES is FIPS 197, BLAKE2b is RFC
      7693 in every way to feed it, and the reciprocal is exact.
    - Mining: in every interleaving of workers no nonce is hashed twice and the bits a
      pool fixes stay (nonces_unique); the code of one worker is a run of that
      relation (nextRound_is_run); and the mining loop, with all of this together,
      submits exactly the nonce, hash and signature of the blobs whose hash is
      below the target and stops exactly when the job is outdated, cannot be done or has
      no nonces left (worker_reports_correct).
    - Work: parsing a block template inverts its serialisation for every coin (up to
      what follows a game update of Townforge, which the parser does not read), the
      Merkle tree and branch are those of CryptoNote, Keccak and SHA-3 are the sponge
      constructions, hexadecimal and wallet addresses are decoded to what was encoded,
      jobs take exactly the blobs and targets that they should, names and numbers of
      algorithms agree, lines do not depend on the pieces of a stream, and network
      buffers never overlap.
    - Client: no history of events faults if the messages of the pool are polite, the
      loop reports connections for open sockets only, and a removed client is not called
      (client_never_faults); conditions are needed (hostile_pool_faults); a share is
      sent and reported once; a notification of the LMT protocol becomes the job it
      describes.
    - Bridge: jobs are numbered without repetition and each block that is submitted
      answers a share of its own for the last job (bridge_trace_correct); a template of
      the node reaches the workers of the miner as the job it is (job_reaches_miner).
    - Node: the arithmetic of large integers is exact with exact overflow flags of sums,
      differences and products with a word; what is hashed of headers and transactions
      determines them, and a Merkle root its list of transactions, up to collisions of
      the hash function that the computations run into; the stored hash states are
      cSHAKE256 and the check of a header accepts exactly the proofs of work below the
      target; in every DAG that grows from the genesis block GHOSTDAG returns the greedy
      colouring, and every blue set is a k-cluster; coinbase transactions pay exactly
      what the merged blocks earned, and the schedule stays below the supply.
    - Reachability: the store stays well formed (store_well_formed), no operation on it
      fails but a hint for the reindex root, which goes where it should after all others
      (reachability_never_fails), and its intervals and covering sets answer
      exactly for the DAG (reachability_correct, chain_iterators_correct).
    - Headers: reachability, GHOSTDAG and header processing put together.  Whatever
      headers arrive, in whatever interleaving, the node neither panics nor meets data
      that are missing (headers_never_crash), and its stores describe the DAG of the
      headers that it accepted (headers_correct).  The service discharges here what
      GHOSTDAG asks of it.
    - Deviations: range_check_exact, extra_loop_diverges, wallet_not_unique,
      setTarget_correct, setBlob_stale_flag, chukwav2_alias, randomx_sizes_agree,
      lmt_session_dead, hostile_pool_faults, reconnect_leaks, share_nonce_swapped and
      mul_overflow_missed show where the code does not do what it should, and
      emission_bounded where a comment and a test do not say what the code does.

    ** Bounds

    Loops that are not structural take fuel, and the theorems about them include that
    it is enough: a random program needs at most three times its length in steps
    (bytecode_runs_to_completion), superscalar generation 1285 slot rounds besides
    the redraw loops of the source, which have no bound of their own and end with
    the generator that the theorem asks for, a varint eleven rounds, the tree of a
    template 64 levels, the extra field as many tags as bytes (extra_loop_diverges is
    the exception), [Nonce::next] the mask divided by the reservation plus two
    (next_returns), the reader of lines one round per byte, the matrix of the proof of
    work as many draws as it takes to find one of full rank, which is an argument, and
    the searches of GHOSTDAG as many rounds as there are parents and blocks
    (ghostdag_correct).  The reachability index takes 2^23 blocks and hints, so that the
    slack of the reindex root cannot use up the 64 bits of the intervals, and its loops
    three rounds more than there were of them ([within]); header processing takes
    2^22 headers, each of which is a block and a hint, and the number of parents, twice
    the number of headers and ten as fuel ([within_headers]).

    ** Hypotheses

    Machines and buffers have the sizes the program allocates ([vm_ok], [cache_ok],
    [worker_wf]), and jobs have their nonce inside of the blob ([minable]).  The memory
    that Argon2 fills, the signatures that workers make from random numbers, the hash
    functions besides RandomX, the buffers of an allocation, the event loop, sockets and
    parser of JSON texts of the client, and the gRPC client of the bridge are arguments.
    The node is the release build, with overflow checks and without debug assertions.
    In it, BLAKE2b with a key, the Keccak permutation and the RandomX package are
    arguments.  GHOSTDAG relies on the reachability service to answer whether a stored
    block is in the past of another ([oracle_ok]), on parents of which none is in the
    past of another ([parents_ok]), and on a total work below 2^192 ([bounded]);
    HeaderPipeline.v proves all three for the headers that pass validation.  The power
    function of the platform, by which intervals are split, is an argument of which
    nothing is asked.  Header processing takes the check of the proof of work, the block
    windows with difficulty and median time, the parents of higher levels and the pruning
    point before the fork as arguments, and asks that DAA scores do not decrease along the
    chain, that difficulties are of positive and bounded work ([services_ok]), and that
    the parameters of the network are in range ([params_ok]).  The validation of a header
    is one step there, between the commits of others, and a commit writes the stores
    that later validations read: the relations of the levels above 0, the second
    relations store of reachability and the blocks outside of the DAA window are left
    out.  The listener of the client is a function that answers and does not call back.

    ** Not modelled

    The machine-code compilers of RandomX (they need a semantics of the target), Argon2
    (vendored), the hash functions of other algorithms (mostly third-party code in vector
    intrinsics), GPU back ends, allocation of memory and threads, other protocol clients
    and strategies, HTTP, TLS, DNS, configuration, logging and the API of the miner.  Of
    the node: stores on RocksDB and their staging, the block windows, the headers that a
    pruning proof makes trusted, the pipelines of bodies and of the virtual state, pruning,
    scripts and signatures, networking, RPC and wallet. *)
From stdpp Require Import base option list list_numbers numbers gmap.
From Stdlib Require Import ZArith Lia.
Open Scope Z_scope.

(** ** Results of fallible code *)

(** [Ok a] is a normal return, [Fault] an access outside an array or a branch
    the source marks [UNREACHABLE], [OutOfFuel] a loop the model stopped. *)
Inductive result (A : Type) : Type :=
| Ok (a : A)
| Fault
| OutOfFuel.
Arguments Ok {A} a.
Arguments Fault {A}.
Arguments OutOfFuel {A}.

#[global] Instance result_ret : MRet result := fun A a => Ok a.
#[global] Instance result_bind : MBind result := fun A B f m =>
  match m with Ok a => f a | Fault => Fault | OutOfFuel => OutOfFuel end.

(** [safe m Q]: [m] does not fault, and what it returns satisfies [Q]. *)
Definition safe {A} (m : result A) (Q : A -> Prop) : Prop :=
  match m with Ok a => Q a | Fault => False | OutOfFuel => True end.

(** [returns m Q]: [m] returns, neither faulting nor out of fuel, in [Q]. *)
Definition returns {A} (m : result A) (Q : A -> Prop) : Prop :=
  match m with Ok a => Q a | Fault => False | OutOfFuel => False end.

(** Both at once: [F] says whether running out of fuel is acceptable, so that
    [wp True] is [safe] and [wp False] is [returns]. *)
Definition wp (F : Prop) {A} (m : result A) (Q : A -> Prop) : Prop :=
  match m with Ok a => Q a | Fault => False | OutOfFuel => F end.

(** An assertion of the source: a check whose failure is a fault. *)
Definition assert_ (b : bool) : result unit := if b then Ok tt else Fault.

(** Array accesses [a[i]] and [a[i] = x] with the bound written out. *)
Definition aget {A} (l : list A) (i : Z) : result A :=
  if i <? 0 then Fault
  else match l !! Z.to_nat i with Some x => Ok x | None => Fault end.
Definition aset {A} (l : list A) (i : Z) (x : A) : result (list A) :=
  if (0 <=? i) && (i <? Z.of_nat (length l)) then Ok (<[Z.to_nat i := x]> l) else Fault.

(** ** Machine words *)

Definition u8 (x : Z) : Z := Z.land x 0xFF.
Definition u16 (x : Z) : Z := Z.land x 0xFFFF.
Definition u32 (x : Z) : Z := Z.land x 0xFFFFFFFF.
Definition u64 (x : Z) : Z := Z.land x 0xFFFFFFFFFFFFFFFF.

Definition is_u8 (x : Z) : Prop := 0 <= x < 2 ^ 8.
Definition is_u32 (x : Z) : Prop := 0 <= x < 2 ^ 32.
Definition is_u64 (x : Z) : Prop := 0 <= x < 2 ^ 64.

Definition add64 (a b : Z) : Z := u64 (a + b).
Definition sub64 (a b : Z) : Z := u64 (a - b).
Definition mul64 (a b : Z) : Z := u64 (a * b).
Definition shl64 (a n : Z) : Z := u64 (Z.shiftl a n).
Definition not64 (a : Z) : Z := u64 (Z.lnot a).

(** The two's complement reading of a 32-bit and of a 64-bit word. *)
Definition s32 (x : Z) : Z := if x <? 2 ^ 31 then x else x - 2 ^ 32.
Definition s64 (x : Z) : Z := if x <? 2 ^ 63 then x else x - 2 ^ 64.

(** ** Bytes *)

(** [load_le] and [store_le n] are the little-endian reads and writes of
    crypto/randomx/blake2/endian.h, on a list of bytes. *)
Definition load_le (bs : list Z) : Z := little_endian_to_Z 8 bs.
Definition store_le (n : Z) (x : Z) : list Z := Z_to_little_endian n 8 x.

Create HintDb word.
Create HintDb res.

Section Words.

Lemma u8_mod x : u8 x = x mod 2 ^ 8.
Proof. apply (Z.land_ones x 8). lia. Qed.
Lemma u16_mod x : u16 x = x mod 2 ^ 16.
Proof. apply (Z.land_ones x 16). lia. Qed.
Lemma u32_mod x : u32 x = x mod 2 ^ 32.
Proof. apply (Z.land_ones x 32). lia. Qed.
Lemma u64_mod x : u64 x = x mod 2 ^ 64.
Proof. apply (Z.land_ones x 64). lia. Qed.

Lemma u8_range x : is_u8 (u8 x).
Proof. rewrite u8_mod. apply Z.mod_pos_bound. lia. Qed.
Lemma u32_range x : is_u32 (u32 x).
Proof. rewrite u32_mod. apply Z.mod_pos_bound. lia. Qed.
Lemma u64_range x : is_u64 (u64 x).
Proof. rewrite u64_mod. apply Z.mod_pos_bound. lia. Qed.

Lemma u8_id x : is_u8 x -> u8 x = x.
Proof. rewrite u8_mod. apply Z.mod_small. Qed.
Lemma u32_id x : is_u32 x -> u32 x = x.
Proof. rewrite u32_mod. apply Z.mod_small. Qed.
Lemma u64_id x : is_u64 x -> u64 x = x.
Proof. rewrite u64_mod. apply Z.mod_small. Qed.

(** Bounds of the bitwise operations on non-negative words. *)
Lemma bits_bound n x : 0 <= n -> 0 <= x ->
  (x < 2 ^ n <-> forall i, n <= i -> Z.testbit x i = false).
Proof.
  intros Hn Hx. split.
  - intros Hlt i Hi. destruct (Z.eq_dec x 0) as [->|]; [apply Z.bits_0|].
    apply Z.bits_above_log2; [lia|]. apply Z.log2_lt_pow2; [lia|].
    eapply Z.lt_le_trans; [exact Hlt|]. apply Z.pow_le_mono_r; lia.
  - intros H. destruct (Z.eq_dec x 0) as [->|Hne]; [apply Z.pow_pos_nonneg; lia|].
    apply Z.log2_lt_pow2; [lia|]. destruct (Z.lt_ge_cases (Z.log2 x) n) as [|Hge]; [done|].
    specialize (H _ Hge). rewrite Z.bit_log2 in H; [done|lia].
Qed.

Lemma lxor_bound n a b : 0 <= n -> 0 <= a < 2 ^ n -> 0 <= b < 2 ^ n -> 0 <= Z.lxor a b < 2 ^ n.
Proof.
  intros Hn [Ha Ha'] [Hb Hb']. assert (0 <= Z.lxor a b) by (apply Z.lxor_nonneg; lia).
  split; [done|]. apply bits_bound; [done..|]. intros i Hi.
  rewrite Z.lxor_spec, (proj1 (bits_bound n a Hn Ha)), (proj1 (bits_bound n b Hn Hb)) by done.
  done.
Qed.

Lemma lor_bound n a b : 0 <= n -> 0 <= a < 2 ^ n -> 0 <= b < 2 ^ n -> 0 <= Z.lor a b < 2 ^ n.
Proof.
  intros Hn [Ha Ha'] [Hb Hb']. assert (0 <= Z.lor a b) by (apply Z.lor_nonneg; lia).
  split; [done|]. apply bits_bound; [done..|]. intros i Hi.
  rewrite Z.lor_spec, (proj1 (bits_bound n a Hn Ha)), (proj1 (bits_bound n b Hn Hb)) by done.
  done.
Qed.

Lemma land_le_r a b : 0 <= b -> 0 <= Z.land a b <= b.
Proof.
  intros Hb. assert (0 <= Z.land a b) by (apply Z.land_nonneg; lia). split; [done|].
  apply Z.ldiff_le; [done|]. apply Z.bits_inj'. intros i Hi.
  rewrite Z.ldiff_spec, Z.land_spec, Z.bits_0. by destruct (Z.testbit a i), (Z.testbit b i).
Qed.

Lemma shiftr_bound n a k : 0 <= n -> 0 <= k -> 0 <= a < 2 ^ n -> 0 <= Z.shiftr a k < 2 ^ n.
Proof.
  intros Hn Hk [Ha Ha']. rewrite Z.shiftr_div_pow2 by done.
  pose proof (Z.pow_pos_nonneg 2 k ltac:(lia) Hk). split; [apply Z.div_pos; lia|].
  apply Z.div_lt_upper_bound; [lia|]. nia.
Qed.

(** Disjoint bit fields add up. *)
Lemma lor_shiftl_add n a b : 0 <= n -> 0 <= a < 2 ^ n -> Z.lor a (Z.shiftl b n) = a + 2 ^ n * b.
Proof.
  intros Hn Ha.
  assert (Z.land a (Z.shiftl b n) = 0) as Hd.
  { apply Z.bits_inj'. intros i Hi. rewrite Z.land_spec, Z.bits_0.
    destruct (Z.lt_ge_cases i n).
    - rewrite Z.shiftl_spec_low by done. apply andb_false_r.
    - by rewrite (proj1 (bits_bound n a Hn (proj1 Ha)) (proj2 Ha)). }
  pose proof (Z.add_lor_land a (Z.shiftl b n)) as H.
  rewrite Hd, Z.shiftl_mul_pow2 in * by done. lia.
Qed.

Lemma s64_range x : is_u64 x -> - 2 ^ 63 <= s64 x < 2 ^ 63.
Proof. unfold is_u64, s64. case_match; lia. Qed.

Lemma u64_s64 x : is_u64 x -> u64 (s64 x) = x.
Proof.
  intros Hx. rewrite u64_mod. unfold s64, is_u64 in *. case_match.
  - apply Z.mod_small. lia.
  - rewrite <- (Z.mod_small x (2 ^ 64)) at 2 by lia.
    apply Z.cong_iff_ex. exists (-1). lia.
Qed.

End Words.

#[export] Hint Resolve u8_range u32_range u64_range : word.

(** A word built by a wrapping or bitwise operation is a 64-bit word. *)
Section Word64.

Lemma add64_range a b : is_u64 (add64 a b).
Proof. apply u64_range. Qed.
Lemma sub64_range a b : is_u64 (sub64 a b).
Proof. apply u64_range. Qed.
Lemma mul64_range a b : is_u64 (mul64 a b).
Proof. apply u64_range. Qed.
Lemma lxor64_range a b : is_u64 a -> is_u64 b -> is_u64 (Z.lxor a b).
Proof. apply lxor_bound. lia. Qed.
Lemma lor64_range a b : is_u64 a -> is_u64 b -> is_u64 (Z.lor a b).
Proof. apply lor_bound. lia. Qed.
Lemma shr64_range a k : is_u64 a -> 0 <= k -> is_u64 (Z.shiftr a k).
Proof. intros. apply shiftr_bound; [lia..|done]. Qed.

End Word64.

#[export] Hint Resolve add64_range sub64_range mul64_range lxor64_range lor64_range
  shr64_range : word.

(** ** The result monad *)

Section Results.
Context {A B : Type}.

Lemma safe_bind (m : result A) (f : A -> result B) (Q : B -> Prop) :
  safe m (fun a => safe (f a) Q) -> safe (m ≫= f) Q.
Proof. by destruct m. Qed.

Lemma returns_bind (m : result A) (f : A -> result B) (Q : B -> Prop) :
  returns m (fun a => returns (f a) Q) -> returns (m ≫= f) Q.
Proof. by destruct m. Qed.

Lemma wp_bind F (m : result A) (f : A -> result B) (Q : B -> Prop) :
  wp F m (fun a => wp F (f a) Q) -> wp F (m ≫= f) Q.
Proof. by destruct m. Qed.

Lemma wp_mono F (m : result A) (P Q : A -> Prop) :
  wp F m P -> (forall a, P a -> Q a) -> wp F m Q.
Proof. destruct m; simpl; auto. Qed.

Lemma wp_returns F (m : result A) (Q : A -> Prop) : returns m Q -> wp F m Q.
Proof. by destruct m. Qed.

Lemma wp_use F (m : result A) (f : A -> result B) (P : A -> Prop) (Q : B -> Prop) :
  wp F m P -> (forall a, P a -> wp F (f a) Q) -> wp F (m ≫= f) Q.
Proof. intros H Hf. apply wp_bind. eapply wp_mono; eauto. Qed.

Lemma wp_use_returns F (m : result A) (f : A -> result B) (P : A -> Prop) (Q : B -> Prop) :
  returns m P -> (forall a, P a -> wp F (f a) Q) -> wp F (m ≫= f) Q.
Proof. intros H. apply wp_use. by apply wp_returns. Qed.

Lemma safe_mono (m : result A) (P Q : A -> Prop) :
  safe m P -> (forall a, P a -> Q a) -> safe m Q.
Proof. destruct m; simpl; auto. Qed.

Lemma returns_mono (m : result A) (P Q : A -> Prop) :
  returns m P -> (forall a, P a -> Q a) -> returns m Q.
Proof. destruct m; simpl; auto. Qed.

Lemma returns_use (m : result A) (f : A -> result B) (P : A -> Prop) (Q : B -> Prop) :
  returns m P -> (forall a, P a -> returns (f a) Q) -> returns (m ≫= f) Q.
Proof. intros H Hf. apply returns_bind. eapply returns_mono; eauto. Qed.

Lemma returns_safe (m : result A) (Q : A -> Prop) : returns m Q -> safe m Q.
Proof. by destruct m. Qed.

Lemma returns_iff (m : result A) (Q : A -> Prop) :
  returns m Q <-> exists a, m = Ok a /\ Q a.
Proof.
  split; [destruct m as [a| |]; [by exists a|done|done]|]. by intros (a & -> & HQ).
Qed.

Lemma safe_and (m : result A) (P Q : A -> Prop) :
  safe m P -> safe m Q -> safe m (fun a => P a /\ Q a).
Proof. by destruct m. Qed.

Lemma bind_Ok (m : result A) (f : A -> result B) b :
  m ≫= f = Ok b <-> exists a, m = Ok a /\ f a = Ok b.
Proof.
  split; [destruct m as [a| |]; [by exists a|done|done]|]. by intros (a & -> & Hf).
Qed.

Lemma ok_bind (a : A) (f : A -> result B) : Ok a ≫= f = f a.
Proof. reflexivity. Qed.

Lemma aget_returns (l : list A) i (Q : A -> Prop) :
  0 <= i < Z.of_nat (length l) -> Forall Q l -> returns (aget l i) Q.
Proof.
  intros Hi HQ. unfold aget. rewrite (proj2 (Z.ltb_ge _ _)) by lia.
  destruct (lookup_lt_is_Some_2 l (Z.to_nat i)) as [x Hx]; [lia|].
  rewrite Hx. simpl. eapply Forall_lookup_1; eauto.
Qed.

Lemma aget_total (l : list A) i : 0 <= i < Z.of_nat (length l) ->
  exists x, aget l i = Ok x /\ l !! Z.to_nat i = Some x.
Proof.
  intros Hi. unfold aget. rewrite (proj2 (Z.ltb_ge _ _)) by lia.
  destruct (lookup_lt_is_Some_2 l (Z.to_nat i)) as [x Hx]; [lia|].
  rewrite Hx. eauto.
Qed.

Lemma aset_ok (l : list A) i x : 0 <= i < Z.of_nat (length l) ->
  aset l i x = Ok (<[Z.to_nat i := x]> l).
Proof. intros. unfold aset. by rewrite (proj2 (Z.leb_le _ _)), (proj2 (Z.ltb_lt _ _)) by lia. Qed.

Lemma aset_returns (l : list A) i x (Q : A -> Prop) :
  0 <= i < Z.of_nat (length l) -> Forall Q l -> Q x ->
  returns (aset l i x) (fun l' => length l' = length l /\ Forall Q l').
Proof.
  intros Hi HQ Hx. unfold aset.
  rewrite (proj2 (Z.leb_le _ _)), (proj2 (Z.ltb_lt _ _)) by lia. simpl.
  split; [apply length_insert|]. by apply Forall_insert.
Qed.

End Results.

Lemma mapM_ok {A B} (f : A -> result B) (g : A -> B) l : Forall (fun x => f x = Ok (g x)) l -> mapM f l = Ok (g <$> l).
Proof. induction 1 as [|x l Hx Hl IH]; [done|]. cbn [mapM]. rewrite Hx, ok_bind, IH. done. Qed.

(** Integer arithmetic that panics when the result does not fit, as in code that is
    compiled with overflow checks *)
Definition checked (w : Z) (x : Z) : result Z := if (0 <=? x) && (x <? 2 ^ w) then Ok x else Fault.

Lemma checked_ok w x : 0 <= x < 2 ^ w -> checked w x = Ok x.
Proof. intros [H1 H2]. unfold checked. rewrite (proj2 (Z.leb_le _ _) H1), (proj2 (Z.ltb_lt _ _) H2). done. Qed.

Lemma checked_inv w x y : checked w x = Ok y -> y = x /\ 0 <= x < 2 ^ w.
Proof.
  unfold checked. destruct (Z.leb_spec 0 x), (Z.ltb_spec x (2 ^ w)); intros E; try done. injection E as <-. done.
Qed.

#[export] Hint Resolve returns_safe : res.

(** Split a computation in the result monad along its binds. *)
Ltac res_step :=
  match goal with
  | |- safe (_ ≫= _) _ => apply safe_bind
  | |- returns (_ ≫= _) _ => apply returns_bind
  | |- safe (Ok _) _ => simpl
  | |- returns (Ok _) _ => simpl
  | |- safe (mret _) _ => simpl
  | |- returns (mret _) _ => simpl
  end.

(** Invert an equation [m = Ok a] along the binds of [m]. *)
Ltac inv_ok :=
  repeat match goal with
  | H : (_ ≫= _) = Ok _ |- _ =>
      apply bind_Ok in H; let a := fresh "a" in let Ha := fresh "Ha" in
      destruct H as (a & Ha & H)
  | H : Ok _ = Ok _ |- _ => injection H as H; try subst
  | H : Fault = Ok _ |- _ => discriminate H
  | H : OutOfFuel = Ok _ |- _ => discriminate H
  end.

(** Membership of an element in a list given by its elements. *)
Ltac in_list := first [constructor 1 | constructor 2; in_list].

(** ** Little-endian bytes *)

Section Bytes.

Lemma load_le_bound bs : Forall is_u8 bs -> 0 <= load_le bs < 2 ^ (8 * Z.of_nat (length bs)).
Proof.
  intros H. unfold load_le.
  pose proof (little_endian_to_Z_bound 8 bs ltac:(lia)) as Hb.
  rewrite Z.mul_comm. apply Hb. eapply Forall_impl; [exact H|]. unfold is_u8. simpl. lia.
Qed.

Lemma load_store_le n x : 0 <= n -> load_le (store_le n x) = x mod 2 ^ (n * 8).
Proof. intros. apply little_endian_to_Z_to_little_endian; lia. Qed.

Lemma length_store_le n x : 0 <= n -> length (store_le n x) = Z.to_nat n.
Proof. intros. apply Nat2Z.inj. unfold store_le. rewrite length_Z_to_little_endian; lia. Qed.

Lemma store_le_bytes n x : 0 <= n -> Forall is_u8 (store_le n x).
Proof.
  intros. apply Z_to_little_endian_bound; lia.
Qed.

Lemma store_load_le bs n : Z.to_nat n = length bs -> 0 <= n -> Forall is_u8 bs ->
  store_le n (load_le bs) = bs.
Proof.
  intros Hn Hn0 H. unfold store_le, load_le.
  apply Z_to_little_endian_to_Z; [lia|lia|]. eapply Forall_impl; [exact H|].
  unfold is_u8. simpl. lia.
Qed.

Lemma load_le_cons_add b bs : is_u8 b -> load_le (b :: bs) = b + 256 * load_le bs.
Proof.
  intros Hb. unfold is_u8 in Hb. change (load_le (b :: bs)) with (Z.lor b (Z.shiftl (load_le bs) 8)).
  by rewrite lor_shiftl_add by lia.
Qed.

Lemma load_le_app a b : Forall is_u8 a -> load_le (a ++ b) = load_le a + 2 ^ (8 * Z.of_nat (length a)) * load_le b.
Proof.
  induction 1 as [|x a Hx Ha IH].
  - change (load_le []) with 0. cbn [app length]. change (2 ^ (8 * Z.of_nat 0)) with 1. lia.
  - rewrite <- app_comm_cons, !load_le_cons_add, IH by done. cbn [length].
    replace (8 * Z.of_nat (S (length a))) with (8 + 8 * Z.of_nat (length a)) by lia.
    rewrite Z.pow_add_r by lia. change (2 ^ 8) with 256. lia.
Qed.

End Bytes.
