(* ===== verification/Reciprocal.v ===== *)
(** * Reciprocals and wide products (crypto/randomx/reciprocal.c,
    crypto/randomx/instructions_portable.cpp)

    [randomx_reciprocal] is the multiplier that replaces a division by a
    constant in the IMUL_RCP instruction; [mulh] and [smulh] are the high
    halves of the 64 x 64-bit products, in the [__int128] form and in the
    form for compilers without that type; [rotr64] and [rotl64] are the
    rotations.  All arithmetic is on 64-bit words and wraps as in C. *)
From stdpp Require Import base numbers.
From Stdlib Require Import ZArith Lia.
From S2P Require Import Prelude.
Open Scope Z_scope.

Module Reciprocal.

(** [for (bit = divisor; bit > 0; bit >>= 1) bsr++]; 64 rounds empty a word. *)
Fixpoint bsr_loop (fuel : nat) (bit bsr : Z) : Z :=
  match fuel with
  | O => bsr
  | S fuel => if bit >? 0 then bsr_loop fuel (Z.shiftr bit 1) (bsr + 1) else bsr
  end.

(** One round of the shift-and-subtract loop. *)
Definition rcp_step (divisor : Z) (qr : Z * Z) : Z * Z :=
  let '(quotient, remainder) := qr in
  if remainder >=? sub64 divisor remainder
  then (add64 (mul64 quotient 2) 1, sub64 (mul64 remainder 2) divisor)
  else (mul64 quotient 2, mul64 remainder 2).

Definition randomx_reciprocal (divisor : Z) : Z :=
  let p2exp63 := shl64 1 63 in
  let quotient := p2exp63 / divisor in
  let remainder := p2exp63 mod divisor in
  let bsr := bsr_loop 64 divisor 0 in
  fst (Nat.iter (Z.to_nat bsr) (rcp_step divisor) (quotient, remainder)).

(** [__builtin_clzll(x)] for a non-zero word: 63 minus the highest set bit. *)
Definition clzll (x : Z) : Z := 63 - Z.log2 x.

Definition randomx_reciprocal_fast (divisor : Z) : Z :=
  let q := shl64 1 63 / divisor in
  let r := (shl64 1 63) mod divisor in
  let shift := 64 - clzll divisor in
  add64 (shl64 q shift) (shl64 r shift / divisor).

(** [isZeroOrPowerOf2] of common.hpp. *)
Definition isZeroOrPowerOf2 (x : Z) : bool := Z.land x (sub64 x 1) =? 0.

(** ** Rotations and wide products *)

(** [(a >> b) | (a << (-b & 63))]: [b] is below 64 at every call. *)
Definition rotr64 (a b : Z) : Z := Z.lor (Z.shiftr a b) (shl64 a (Z.land (- b) 63)).
Definition rotl64 (a b : Z) : Z := Z.lor (shl64 a b) (Z.shiftr a (Z.land (- b) 63)).

(** The [__int128] forms. *)
Definition mulh (a b : Z) : Z := u64 (Z.shiftr (a * b) 64).
Definition smulh (a b : Z) : Z := u64 (Z.shiftr (s64 a * s64 b) 64).

Definition LO (x : Z) : Z := Z.land x 0xffffffff.
Definition HI (x : Z) : Z := Z.shiftr x 32.

Definition mulh_portable (a b : Z) : Z :=
  let ah := HI a in let al := LO a in
  let bh := HI b in let bl := LO b in
  let x00 := mul64 al bl in
  let x01 := mul64 al bh in
  let x10 := mul64 ah bl in
  let x11 := mul64 ah bh in
  let m1 := add64 (add64 (LO x10) (LO x01)) (HI x00) in
  let m2 := add64 (add64 (add64 (HI x10) (HI x01)) (LO x11)) (HI m1) in
  let m3 := add64 (HI x11) (HI m2) in
  add64 (shl64 m3 32) (LO m2).

(** [smulh] over the portable [mulh]; the operands are the signed readings
    of the two words. *)
Definition smulh_portable (a b : Z) : Z :=
  let hi := mulh_portable a b in
  let hi := if s64 a <? 0 then sub64 hi b else hi in
  if s64 b <? 0 then sub64 hi a else hi.

(** ** The reciprocal is the documented quotient *)

Section ReciprocalProofs.
Context (d : Z) (Hd : 0 < d < 2 ^ 64).

Lemma bsr_loop_log2 fuel bit bsr :
  0 <= bit < 2 ^ Z.of_nat fuel ->
  bsr_loop fuel bit bsr = bsr + (if bit =? 0 then 0 else Z.log2 bit + 1).
Proof using.
  revert bit bsr. induction fuel as [|fuel IH]; intros bit bsr Hb; simpl.
  - change (2 ^ Z.of_nat 0) with 1 in Hb. replace bit with 0 by lia. simpl. lia.
  - destruct (Z.gtb_spec bit 0) as [Hp|Hp].
    + rewrite Nat2Z.inj_succ, Z.pow_succ_r in Hb by lia.
      rewrite IH by (rewrite Z.shiftr_div_pow2 by lia; change (2 ^ 1) with 2;
        split; [apply Z.div_pos; lia | apply Z.div_lt_upper_bound; lia]).
      rewrite (proj2 (Z.eqb_neq bit 0)) by lia.
      destruct (Z.eqb_spec (Z.shiftr bit 1) 0) as [H0|H0].
      * rewrite Z.shiftr_div_pow2 in H0 by lia. change (2 ^ 1) with 2 in H0.
        assert (bit = 1) as -> by (Z.div_mod_to_equations; lia). simpl. lia.
      * rewrite Z.log2_shiftr by lia.
        assert (1 <= Z.log2 bit); [|lia].
        apply Z.log2_le_pow2; [lia|]. change (2 ^ 1) with 2.
        rewrite Z.shiftr_div_pow2 in H0 by lia. change (2 ^ 1) with 2 in H0.
        Z.div_mod_to_equations; lia.
    + replace bit with 0 by lia. simpl. lia.
Qed.

Lemma rcp_step_spec k q r :
  0 <= k -> q = 2 ^ k / d -> r = 2 ^ k mod d -> 2 ^ (k + 1) / d < 2 ^ 64 ->
  rcp_step d (q, r) = (2 ^ (k + 1) / d, 2 ^ (k + 1) mod d).
Proof using Hd.
  intros Hk -> -> Hfit. pose proof (Z.mod_pos_bound (2 ^ k) d ltac:(lia)) as Hr.
  pose proof (Z.div_mod (2 ^ k) d ltac:(lia)) as He.
  pose proof (Z.pow_nonneg 2 k ltac:(lia)) as Hp.
  assert (0 <= 2 ^ k / d) by (apply Z.div_pos; lia).
  rewrite Z.pow_add_r in Hfit |- * by lia. change (2 ^ 1) with 2 in *.
  set (q := 2 ^ k / d) in *. set (r := 2 ^ k mod d) in *. set (p := 2 ^ k) in *.
  unfold rcp_step, sub64, mul64, add64. rewrite !u64_mod.
  rewrite (Z.mod_small (d - r)) by lia.
  destruct (Z.geb_spec r (d - r)) as [Hc|Hc].
  - assert (Hq : p * 2 / d = 2 * q + 1).
    { symmetry. apply Z.div_unique with (r := 2 * r - d); lia. }
    assert (Hm : (p * 2) mod d = 2 * r - d).
    { symmetry. apply Z.mod_unique with (q := 2 * q + 1); lia. }
    rewrite Hq, Hm in *. f_equal.
    + rewrite (Z.mod_small (q * 2)), Z.mod_small by lia. lia.
    + rewrite Zminus_mod_idemp_l, Z.mod_small by lia. lia.
  - assert (Hq : p * 2 / d = 2 * q).
    { symmetry. apply Z.div_unique with (r := 2 * r); lia. }
    assert (Hm : (p * 2) mod d = 2 * r).
    { symmetry. apply Z.mod_unique with (q := 2 * q); lia. }
    rewrite Hq, Hm in *. f_equal; rewrite Z.mod_small by lia; lia.
Qed.

Lemma rcp_iter n :
  2 ^ (63 + Z.of_nat n) / d < 2 ^ 64 ->
  Nat.iter n (rcp_step d) (2 ^ 63 / d, 2 ^ 63 mod d)
  = (2 ^ (63 + Z.of_nat n) / d, 2 ^ (63 + Z.of_nat n) mod d).
Proof using Hd.
  induction n as [|n IH]; intros Hfit; simpl; [done|].
  rewrite Nat2Z.inj_succ in Hfit |- *.
  replace (63 + Z.succ (Z.of_nat n)) with (63 + Z.of_nat n + 1) in * by lia.
  rewrite IH.
  - apply rcp_step_spec; [lia|done|done|done].
  - eapply Z.le_lt_trans; [|exact Hfit]. apply Z.div_le_mono; [lia|].
    apply Z.pow_le_mono_r; lia.
Qed.

(** A divisor that is not a power of two lies strictly above its leading bit. *)
Lemma log2_strict : isZeroOrPowerOf2 d = false -> 2 ^ Z.log2 d < d.
Proof using Hd.
  intros Hnp. pose proof (Z.log2_spec d ltac:(lia)) as [Hl _].
  destruct (Z.eq_dec (2 ^ Z.log2 d) d) as [He|]; [|lia].
  exfalso. revert Hnp. unfold isZeroOrPowerOf2.
  assert (sub64 d 1 = Z.ones (Z.log2 d)) as ->.
  { unfold sub64. rewrite u64_mod, Z.mod_small, Z.ones_equiv by lia. lia. }
  rewrite Z.land_ones by apply Z.log2_nonneg. rewrite He, Z.mod_same by lia. done.
Qed.

End ReciprocalProofs.

(** C15: for every 64-bit divisor that is neither zero nor a power of two, the
    reciprocal is [2^x / divisor] for the largest [x] whose quotient fits in
    64 bits, as the comment above the function documents. *)
Theorem randomx_reciprocal_correct d :
  is_u64 d -> isZeroOrPowerOf2 d = false ->
  exists x, randomx_reciprocal d = 2 ^ x / d /\ 2 ^ x / d < 2 ^ 64
            /\ forall y, x < y -> 2 ^ 64 <= 2 ^ y / d.
Proof.
  intros Hd Hnp. assert (0 < d < 2 ^ 64) as Hd'.
  { unfold is_u64 in Hd. destruct (Z.eq_dec d 0) as [->|]; [done|lia]. }
  pose proof (log2_strict d Hd' Hnp) as Hs. pose proof (Z.log2_spec d ltac:(lia)) as [_ Hu].
  pose proof (Z.log2_nonneg d). pose proof (Z.pow_nonneg 2 (Z.log2 d) ltac:(lia)).
  exists (64 + Z.log2 d).
  assert (2 ^ (64 + Z.log2 d) / d < 2 ^ 64) as Hfit.
  { apply Z.div_lt_upper_bound; [lia|]. rewrite Z.pow_add_r by lia. nia. }
  split; [|split; [done|]].
  - unfold randomx_reciprocal. rewrite bsr_loop_log2 by (unfold is_u64 in Hd; simpl; lia).
    rewrite (proj2 (Z.eqb_neq d 0)) by lia.
    change (shl64 1 63) with (2 ^ 63). rewrite rcp_iter by
      (try lia; replace (63 + _) with (64 + Z.log2 d) by lia; done).
    simpl. do 2 f_equal. lia.
  - intros y Hy. apply Z.div_le_lower_bound; [lia|].
    transitivity (2 ^ (Z.succ (Z.log2 d)) * 2 ^ 64).
    + apply Z.mul_le_mono_nonneg_r; lia.
    + rewrite <- Z.pow_add_r by lia. apply Z.pow_le_mono_r; lia.
Qed.

Lemma randomx_reciprocal_correct_witness :
  is_u64 3 /\ isZeroOrPowerOf2 3 = false /\ randomx_reciprocal 3 = 12297829382473034410
  /\ exists x, randomx_reciprocal 3 = 2 ^ x / 3 /\ 2 ^ x / 3 < 2 ^ 64
               /\ forall y, x < y -> 2 ^ 64 <= 2 ^ y / 3.
Proof.
  split; [unfold is_u64; lia|]. split; [reflexivity|]. split; [reflexivity|].
  apply (randomx_reciprocal_correct 3); [unfold is_u64; lia|reflexivity].
Defined.

(** For every non-zero 32-bit divisor (the operand of IMUL_RCP) the
    shift-based [randomx_reciprocal_fast] computes the same word as the
    portable loop. *)
Theorem randomx_reciprocal_fast_correct d :
  0 < d < 2 ^ 32 -> isZeroOrPowerOf2 d = false ->
  randomx_reciprocal_fast d = randomx_reciprocal d.
Proof.
  intros Hd Hnp. assert (0 < d < 2 ^ 64) as Hd' by lia.
  pose proof (log2_strict d Hd' Hnp) as Hs. pose proof (Z.log2_spec d ltac:(lia)) as [_ Hu].
  pose proof (Z.log2_nonneg d) as Hl. pose proof (Z.pow_nonneg 2 (Z.log2 d) ltac:(lia)).
  assert (2 ^ (64 + Z.log2 d) / d < 2 ^ 64) as Hfit.
  { apply Z.div_lt_upper_bound; [lia|]. rewrite Z.pow_add_r by lia. nia. }
  assert (Z.log2 d < 32) by (apply Z.log2_lt_pow2; lia).
  unfold randomx_reciprocal. rewrite bsr_loop_log2 by (simpl; lia).
  rewrite (proj2 (Z.eqb_neq d 0)) by lia. change (shl64 1 63) with (2 ^ 63).
  rewrite rcp_iter by (try lia; replace (63 + _) with (64 + Z.log2 d) by lia; done).
  cbn [fst]. replace (63 + _) with (64 + Z.log2 d) by lia.
  unfold randomx_reciprocal_fast, clzll, shl64, add64.
  change (u64 (1 ≪ 63)) with (2 ^ 63).
  replace (64 - (63 - Z.log2 d)) with (Z.log2 d + 1) by lia.
  rewrite !Z.shiftl_mul_pow2, !u64_mod by lia.
  pose proof (Z.mod_pos_bound (2 ^ 63) d ltac:(lia)) as Hr.
  pose proof (Z.div_mod (2 ^ 63) d ltac:(lia)) as He.
  set (q := 2 ^ 63 / d) in *. set (r := 2 ^ 63 mod d) in *.
  assert (2 ^ (64 + Z.log2 d) = 2 ^ 63 * 2 ^ (Z.log2 d + 1)) as Hp.
  { rewrite <- Z.pow_add_r by lia. f_equal. lia. }
  assert (0 < 2 ^ (Z.log2 d + 1) <= 2 ^ 32) as Hsh.
  { split; [apply Z.pow_pos_nonneg; lia|]. apply Z.pow_le_mono_r; lia. }
  rewrite Hp in *. set (s := 2 ^ (Z.log2 d + 1)) in *.
  rewrite (Z.mod_small (r * s)) by nia.
  assert (2 ^ 63 * s / d = q * s + r * s / d) as Hdiv.
  { rewrite He at 1. replace ((d * q + r) * s) with (r * s + q * s * d) by lia.
    rewrite Z.div_add by lia. lia. }
  rewrite Hdiv in *.
  assert (0 <= q) by (apply Z.div_pos; lia).
  assert (0 <= r * s / d) by (apply Z.div_pos; nia).
  rewrite (Z.mod_small (q * s)) by nia. apply Z.mod_small. nia.
Qed.

Lemma randomx_reciprocal_fast_correct_witness :
  0 < 13 < 2 ^ 32 /\ isZeroOrPowerOf2 13 = false
  /\ randomx_reciprocal_fast 13 = randomx_reciprocal 13.
Proof.
  split; [lia|]. split; [reflexivity|].
  apply (randomx_reciprocal_fast_correct 13); [lia|reflexivity].
Defined.

(** ** The portable products *)

Section Products.

Lemma LO_mod x : LO x = x mod 2 ^ 32.
Proof. apply (Z.land_ones x 32). lia. Qed.
Lemma HI_div x : HI x = x / 2 ^ 32.
Proof. apply (Z.shiftr_div_pow2 x 32). lia. Qed.

Lemma mulh_div a b : is_u64 a -> is_u64 b -> mulh a b = a * b / 2 ^ 64.
Proof.
  unfold is_u64. intros Ha Hb. unfold mulh. rewrite Z.shiftr_div_pow2, u64_mod by lia.
  apply Z.mod_small. split; [apply Z.div_pos; nia|]. apply Z.div_lt_upper_bound; nia.
Qed.

(** The schoolbook product of two 64-bit words from 32-bit halves. *)
Lemma mulh_portable_div a b : is_u64 a -> is_u64 b -> mulh_portable a b = a * b / 2 ^ 64.
Proof.
  unfold is_u64. intros Ha Hb. unfold mulh_portable, mul64, add64, shl64.
  rewrite !LO_mod, !HI_div, !u64_mod.
  pose proof (Z.mod_pos_bound a (2 ^ 32) ltac:(lia)) as Hal.
  pose proof (Z.mod_pos_bound b (2 ^ 32) ltac:(lia)) as Hbl.
  pose proof (Z.div_mod a (2 ^ 32) ltac:(lia)) as Ea.
  pose proof (Z.div_mod b (2 ^ 32) ltac:(lia)) as Eb.
  assert (0 <= a / 2 ^ 32 < 2 ^ 32) as Hah.
  { split; [apply Z.div_pos; lia|apply Z.div_lt_upper_bound; lia]. }
  assert (0 <= b / 2 ^ 32 < 2 ^ 32) as Hbh.
  { split; [apply Z.div_pos; lia|apply Z.div_lt_upper_bound; lia]. }
  set (ah := a / 2 ^ 32) in *. set (al := a mod 2 ^ 32) in *.
  set (bh := b / 2 ^ 32) in *. set (bl := b mod 2 ^ 32) in *. clearbody ah al bh bl.
  assert (0 <= al * bl <= (2 ^ 32 - 1) * (2 ^ 32 - 1)) by nia.
  assert (0 <= al * bh <= (2 ^ 32 - 1) * (2 ^ 32 - 1)) by nia.
  assert (0 <= ah * bl <= (2 ^ 32 - 1) * (2 ^ 32 - 1)) by nia.
  assert (0 <= ah * bh <= (2 ^ 32 - 1) * (2 ^ 32 - 1)) by nia.
  assert (a * b = ah * bh * 2 ^ 64 + (al * bh + ah * bl) * 2 ^ 32 + al * bl) as -> by nia.
  set (x00 := al * bl) in *. set (x01 := al * bh) in *.
  set (x10 := ah * bl) in *. set (x11 := ah * bh) in *. clearbody x00 x01 x10 x11.
  clear Ea Eb Ha Hb Hal Hbl Hah Hbh ah al bh bl.
  rewrite (Z.mod_small x00 (2 ^ 64)), (Z.mod_small x01 (2 ^ 64)),
    (Z.mod_small x10 (2 ^ 64)), (Z.mod_small x11 (2 ^ 64)) by lia.
  rewrite Z.shiftl_mul_pow2 by lia. Z.div_mod_to_equations. lia.
Qed.

End Products.

(** The 32-bit schoolbook [mulh] used without [__int128] and the signed
    [smulh] derived from it return the high words of the unsigned and of the
    two's complement 128-bit products, on every pair of 64-bit words. *)
Theorem portable_products_correct a b : is_u64 a -> is_u64 b ->
  mulh_portable a b = mulh a b /\ smulh_portable a b = smulh a b.
Proof.
  intros Ha Hb. rewrite mulh_div by done. split; [by apply mulh_portable_div|].
  unfold smulh_portable, smulh, sub64. rewrite mulh_portable_div by done.
  rewrite Z.shiftr_div_pow2, !u64_mod by lia. unfold is_u64 in *. unfold s64.
  destruct (Z.ltb_spec a (2 ^ 63)) as [La|La], (Z.ltb_spec b (2 ^ 63)) as [Lb|Lb];
    repeat match goal with
    | |- context [?x <? 0] => destruct (Z.ltb_spec x 0); [try lia|try lia]
    end.
  - symmetry. apply Z.mod_small. split; [apply Z.div_pos; nia|apply Z.div_lt_upper_bound; nia].
  - f_equal. replace (a * (b - 2 ^ 64)) with (a * b + - a * 2 ^ 64) by lia.
    rewrite Z.div_add by lia. lia.
  - f_equal. replace ((a - 2 ^ 64) * b) with (a * b + - b * 2 ^ 64) by lia.
    rewrite Z.div_add by lia. lia.
  - replace ((a - 2 ^ 64) * (b - 2 ^ 64)) with (a * b + (2 ^ 64 - a - b) * 2 ^ 64) by lia.
    rewrite Z.div_add, Zminus_mod_idemp_l by lia. apply Z.cong_iff_ex. exists (-1). lia.
Qed.

Lemma portable_products_correct_witness :
  is_u64 0xF234567890ABCDEF /\ is_u64 0x8000000000000001
  /\ smulh_portable 0xF234567890ABCDEF 0x8000000000000001
     = smulh 0xF234567890ABCDEF 0x8000000000000001.
Proof.
  split; [unfold is_u64; lia|]. split; [unfold is_u64; lia|].
  apply (portable_products_correct 0xF234567890ABCDEF 0x8000000000000001); unfold is_u64; lia.
Defined.

(** ** Ranges of the word operations *)

Lemma rotr64_range a b : is_u64 a -> 0 <= b -> is_u64 (rotr64 a b).
Proof. intros. unfold rotr64, shl64. auto with word. Qed.

Lemma rotl64_range a b : is_u64 a -> is_u64 (rotl64 a b).
Proof.
  intros. unfold rotl64, shl64. apply lor64_range; [auto with word|].
  apply shr64_range; [done|]. apply Z.land_nonneg. lia.
Qed.

Lemma mulh_range a b : is_u64 (mulh a b).
Proof. apply u64_range. Qed.

Lemma smulh_range a b : is_u64 (smulh a b).
Proof. apply u64_range. Qed.

Lemma rcp_iter_range d n q r : is_u64 q -> is_u64 (fst (Nat.iter n (rcp_step d) (q, r))).
Proof.
  intros Hq. induction n as [|n IH]; [done|]. simpl.
  destruct (Nat.iter n (rcp_step d) (q, r)) as [q' r']. unfold rcp_step.
  case_match; simpl; auto with word.
Qed.

Lemma randomx_reciprocal_range d : 0 < d -> is_u64 (randomx_reciprocal d).
Proof.
  intros Hd. unfold randomx_reciprocal. apply rcp_iter_range.
  change (shl64 1 63) with (2 ^ 63). split; [apply Z.div_pos; lia|].
  apply Z.div_lt_upper_bound; lia.
Qed.

End Reciprocal.

#[export] Hint Resolve Reciprocal.rotr64_range Reciprocal.rotl64_range Reciprocal.mulh_range
  Reciprocal.smulh_range Reciprocal.randomx_reciprocal_range : word.
