(* ===== verification/Blake2b.v ===== *)
(** * BLAKE2b (crypto/randomx/blake2/blake2b.c, blake2.h, blake2-impl.h)

    The streaming hash: parameter block, [init], [init_key], [update],
    [final], the one-shot [rx_blake2b_default] and the variable-length
    [rxa2_blake2b_long].  A C buffer is a list of bytes and a pointer an
    [option] of one ([None] is NULL); every function returns its [int] status
    with the state it leaves behind, so that the error paths are visible.
    The state pointer itself is never NULL: every caller passes the address of
    a local [blake2b_state].
    The compression function is [rx_blake2b_compress_integer], the portable
    value of the [rx_blake2b_compress] pointer. *)
From stdpp Require Import base list list_numbers numbers.
From Stdlib Require Import ZArith Lia.
From S2P Require Import Prelude.
Open Scope Z_scope.

Module Blake2b.

Definition BLAKE2B_BLOCKBYTES : Z := 128.
Definition BLAKE2B_OUTBYTES : Z := 64.
Definition BLAKE2B_KEYBYTES : Z := 64.

Definition blake2b_IV : list Z :=
  [0x6a09e667f3bcc908; 0xbb67ae8584caa73b;
   0x3c6ef372fe94f82b; 0xa54ff53a5f1d36f1;
   0x510e527fade682d1; 0x9b05688c2b3e6c1f;
   0x1f83d9abfb41bd6b; 0x5be0cd19137e2179].

Definition blake2b_sigma : list (list nat) :=
  [[0; 1; 2; 3; 4; 5; 6; 7; 8; 9; 10; 11; 12; 13; 14; 15];
   [14; 10; 4; 8; 9; 15; 13; 6; 1; 12; 0; 2; 11; 7; 5; 3];
   [11; 8; 12; 0; 5; 2; 15; 13; 10; 14; 3; 6; 7; 1; 9; 4];
   [7; 9; 3; 1; 13; 12; 11; 14; 2; 6; 5; 10; 4; 0; 15; 8];
   [9; 0; 5; 7; 2; 4; 10; 15; 14; 1; 11; 12; 6; 8; 3; 13];
   [2; 12; 6; 10; 0; 11; 8; 3; 4; 13; 7; 5; 15; 14; 1; 9];
   [12; 5; 1; 15; 14; 13; 4; 10; 0; 7; 6; 3; 9; 2; 8; 11];
   [13; 11; 7; 14; 12; 1; 3; 9; 5; 0; 15; 4; 8; 6; 2; 10];
   [6; 15; 14; 9; 11; 3; 0; 8; 12; 2; 13; 7; 1; 4; 10; 5];
   [10; 2; 8; 4; 7; 6; 1; 5; 15; 11; 9; 14; 3; 12; 13; 0];
   [0; 1; 2; 3; 4; 5; 6; 7; 8; 9; 10; 11; 12; 13; 14; 15];
   [14; 10; 4; 8; 9; 15; 13; 6; 1; 12; 0; 2; 11; 7; 5; 3]]%nat.

(** [struct __blake2b_param], packed. *)
Record blake2b_param := mk_param {
  digest_length : Z; key_length : Z; fanout : Z; depth : Z;
  leaf_length : Z; node_offset : Z; node_depth : Z; inner_length : Z;
  reserved : list Z; salt : list Z; personal : list Z }.

(** The 64 bytes of the packed parameter block. *)
Definition param_bytes (P : blake2b_param) : list Z :=
  [digest_length P; key_length P; fanout P; depth P]
  ++ store_le 4 (leaf_length P) ++ store_le 8 (node_offset P)
  ++ [node_depth P; inner_length P] ++ reserved P ++ salt P ++ personal P.

(** [struct __blake2b_state]. *)
Record blake2b_state := mk_state {
  h : list Z; t0 : Z; t1 : Z; f0 : Z; f1 : Z;
  buf : list Z; buflen : Z; outlen : Z; last_node : Z }.

#[export] Instance blake2b_state_eq_dec : EqDecision blake2b_state.
Proof. solve_decision. Defined.

Definition set_h (St : blake2b_state) (x : list Z) : blake2b_state :=
  mk_state x (t0 St) (t1 St) (f0 St) (f1 St) (buf St) (buflen St) (outlen St) (last_node St).
Definition set_t (St : blake2b_state) (x0 x1 : Z) : blake2b_state :=
  mk_state (h St) x0 x1 (f0 St) (f1 St) (buf St) (buflen St) (outlen St) (last_node St).
Definition set_f (St : blake2b_state) (x0 x1 : Z) : blake2b_state :=
  mk_state (h St) (t0 St) (t1 St) x0 x1 (buf St) (buflen St) (outlen St) (last_node St).
Definition set_buf (St : blake2b_state) (b : list Z) (n : Z) : blake2b_state :=
  mk_state (h St) (t0 St) (t1 St) (f0 St) (f1 St) b n (outlen St) (last_node St).

(** [memcpy(&dst[off], src, n)]. *)
Definition memcpy (dst : list Z) (off : Z) (src : list Z) (n : Z) : list Z :=
  take (Z.to_nat off) dst ++ take (Z.to_nat n) src ++ drop (Z.to_nat (off + n)) dst.

(** [load64(&bs[off])]. *)
Definition load64 (bs : list Z) (off : Z) : Z := load_le (take 8 (drop (Z.to_nat off) bs)).

(** [rotr64] of blake2-impl.h, for the constant amounts of [G]. *)
Definition rotr64 (w c : Z) : Z := Z.lor (Z.shiftr w c) (shl64 w (64 - c)).

Definition blake2b_set_lastnode (St : blake2b_state) : blake2b_state :=
  set_f St (f0 St) (u64 (-1)).

Definition blake2b_set_lastblock (St : blake2b_state) : blake2b_state :=
  let St := if negb (last_node St =? 0) then blake2b_set_lastnode St else St in
  set_f St (u64 (-1)) (f1 St).

Definition blake2b_increment_counter (St : blake2b_state) (inc : Z) : blake2b_state :=
  let n0 := add64 (t0 St) inc in
  set_t St n0 (add64 (t1 St) (if n0 <? inc then 1 else 0)).

Definition blake2b_invalidate_state (St : blake2b_state) : blake2b_state :=
  blake2b_set_lastblock St.

(** [memset(S, 0, sizeof *S)] and the IV; the old state is overwritten. *)
Definition blake2b_init0 : blake2b_state :=
  mk_state blake2b_IV 0 0 0 0 (replicate 128 0) 0 0 0.

Definition rx_blake2b_init_param (P : blake2b_param) : Z * blake2b_state :=
  let St := blake2b_init0 in
  let p := param_bytes P in
  let St := set_h St (imap (fun i x => Z.lxor x (load64 p (8 * Z.of_nat i))) (h St)) in
  (0, mk_state (h St) (t0 St) (t1 St) (f0 St) (f1 St) (buf St) (buflen St)
        (digest_length P) (last_node St)).

Definition param_of (outlen keylen : Z) : blake2b_param :=
  mk_param (u8 outlen) (u8 keylen) 1 1 0 0 0 0
    (replicate 14 0) (replicate 16 0) (replicate 16 0).

Definition rx_blake2b_init (St : blake2b_state) (outlen : Z) : Z * blake2b_state :=
  if (outlen =? 0) || (outlen >? BLAKE2B_OUTBYTES)
  then (-1, blake2b_invalidate_state St)
  else rx_blake2b_init_param (param_of outlen 0).

(** ** Compression *)

(** The macro [G(r, i, a, b, c, d)] on the work vector [v]. *)
Definition G (m : list Z) (r i : nat) (a b c d : nat) (v : list Z) : list Z :=
  let x := m !!! ((blake2b_sigma !!! r) !!! (2 * i + 0)%nat) in
  let y := m !!! ((blake2b_sigma !!! r) !!! (2 * i + 1)%nat) in
  let v := <[a := add64 (add64 (v !!! a) (v !!! b)) x]> v in
  let v := <[d := rotr64 (Z.lxor (v !!! d) (v !!! a)) 32]> v in
  let v := <[c := add64 (v !!! c) (v !!! d)]> v in
  let v := <[b := rotr64 (Z.lxor (v !!! b) (v !!! c)) 24]> v in
  let v := <[a := add64 (add64 (v !!! a) (v !!! b)) y]> v in
  let v := <[d := rotr64 (Z.lxor (v !!! d) (v !!! a)) 16]> v in
  let v := <[c := add64 (v !!! c) (v !!! d)]> v in
  <[b := rotr64 (Z.lxor (v !!! b) (v !!! c)) 63]> v.

Definition ROUND (m : list Z) (r : nat) (v : list Z) : list Z :=
  let v := G m r 0 0 4 8 12 v in
  let v := G m r 1 1 5 9 13 v in
  let v := G m r 2 2 6 10 14 v in
  let v := G m r 3 3 7 11 15 v in
  let v := G m r 4 0 5 10 15 v in
  let v := G m r 5 1 6 11 12 v in
  let v := G m r 6 2 7 8 13 v in
  G m r 7 3 4 9 14 v.

Definition rx_blake2b_compress_integer (St : blake2b_state) (block : list Z) : blake2b_state :=
  let m := (fun i => load64 block (8 * Z.of_nat i)) <$> seq 0 16 in
  let v := h St ++ take 4 blake2b_IV ++
    [Z.lxor (blake2b_IV !!! 4%nat) (t0 St); Z.lxor (blake2b_IV !!! 5%nat) (t1 St);
     Z.lxor (blake2b_IV !!! 6%nat) (f0 St); Z.lxor (blake2b_IV !!! 7%nat) (f1 St)] in
  let v := foldl (fun v r => ROUND m r v) v (seq 0 12) in
  set_h St (imap (fun i x => Z.lxor (Z.lxor x (v !!! i)) (v !!! (i + 8)%nat)) (h St)).

(** ** The streaming interface *)

(** [while (inlen > BLAKE2B_BLOCKBYTES)]: one block per round. *)
Fixpoint update_loop (fuel : nat) (St : blake2b_state) (pin : list Z) (inlen : Z)
  : blake2b_state * list Z * Z :=
  match fuel with
  | O => (St, pin, inlen)
  | S fuel =>
      if inlen >? BLAKE2B_BLOCKBYTES then
        let St := blake2b_increment_counter St BLAKE2B_BLOCKBYTES in
        let St := rx_blake2b_compress_integer St (take 128 pin) in
        update_loop fuel St (drop 128 pin) (inlen - BLAKE2B_BLOCKBYTES)
      else (St, pin, inlen)
  end.

Definition rx_blake2b_update (St : blake2b_state) (inp : option (list Z)) (inlen : Z)
  : Z * blake2b_state :=
  if inlen =? 0 then (0, St)
  else match inp with
  | None => (-1, St)
  | Some pin =>
      if negb (f0 St =? 0) then (-1, St)
      else
        let '(St, pin, inlen) :=
          if buflen St + inlen >? BLAKE2B_BLOCKBYTES then
            let left := buflen St in
            let fill := BLAKE2B_BLOCKBYTES - left in
            let St := set_buf St (memcpy (buf St) left pin fill) (buflen St) in
            let St := blake2b_increment_counter St BLAKE2B_BLOCKBYTES in
            let St := rx_blake2b_compress_integer St (buf St) in
            let St := set_buf St (buf St) 0 in
            update_loop (length pin) St (drop (Z.to_nat fill) pin) (inlen - fill)
          else (St, pin, inlen) in
        (0, set_buf St (memcpy (buf St) (buflen St) pin inlen) (u32 (buflen St + inlen)))
  end.

(** [out] is the caller's buffer; the digest is copied over its first bytes. *)
Definition rx_blake2b_final (St : blake2b_state) (out : option (list Z)) (outlen_ : Z)
  : Z * blake2b_state * option (list Z) :=
  match out with
  | None => (-1, St, out)
  | Some o =>
      if outlen_ <? outlen St then (-1, St, out)
      else if negb (f0 St =? 0) then (-1, St, out)
      else
        let St := blake2b_increment_counter St (buflen St) in
        let St := blake2b_set_lastblock St in
        let St := set_buf St (memcpy (buf St) (buflen St)
                   (replicate (Z.to_nat (BLAKE2B_BLOCKBYTES - buflen St)) 0)
                   (BLAKE2B_BLOCKBYTES - buflen St)) (buflen St) in
        let St := rx_blake2b_compress_integer St (buf St) in
        let buffer := mjoin (store_le 8 <$> h St) in
        (0, St, Some (memcpy o 0 buffer (outlen St)))
  end.

(** The uninitialised [blake2b_state S] of a C frame is the argument [S0]. *)
Definition rx_blake2b_default (S0 : blake2b_state) (out : option (list Z)) (outlen : Z)
  (inp : option (list Z)) (inlen : Z) : Z * option (list Z) :=
  if (match inp with None => true | _ => false end) && (inlen >? 0) then (-1, out)
  else if (match out with None => true | _ => false end) || (outlen =? 0)
          || (outlen >? BLAKE2B_OUTBYTES) then (-1, out)
  else
    let '(r, St) := rx_blake2b_init S0 outlen in
    if r <? 0 then (-1, out)
    else
      let '(r, St) := rx_blake2b_update St inp inlen in
      if r <? 0 then (-1, out)
      else let '(r, _, out) := rx_blake2b_final St out outlen in (r, out).

Definition rx_blake2b_init_key (St : blake2b_state) (outlen : Z) (key : option (list Z))
  (keylen : Z) : Z * blake2b_state :=
  if (outlen =? 0) || (outlen >? BLAKE2B_OUTBYTES)
  then (-1, blake2b_invalidate_state St)
  else match key with
  | None => (-1, blake2b_invalidate_state St)
  | Some k =>
      if (keylen =? 0) || (keylen >? BLAKE2B_KEYBYTES)
      then (-1, blake2b_invalidate_state St)
      else
        let '(r, St) := rx_blake2b_init_param (param_of outlen keylen) in
        if r <? 0 then (-1, blake2b_invalidate_state St)
        else
          let block := memcpy (replicate 128 0) 0 k keylen in
          let '(_, St) := rx_blake2b_update St (Some block) BLAKE2B_BLOCKBYTES in
          (0, St)
  end.

(** [while (toproduce > BLAKE2B_OUTBYTES)] of [rxa2_blake2b_long]: [pos] is the
    advance of [out], [ob] is [out_buffer], [ib] the uninitialised
    [in_buffer] that the first [memcpy] overwrites. *)
Fixpoint long_loop (fuel : nat) (S0 : blake2b_state) (out : list Z) (pos : Z)
  (ob : list Z) (toproduce : Z) : Z * list Z * Z * list Z * Z :=
  match fuel with
  | O => (0, out, pos, ob, toproduce)
  | S fuel =>
      if toproduce >? BLAKE2B_OUTBYTES then
        let ib := ob in
        match rx_blake2b_default S0 (Some ob) BLAKE2B_OUTBYTES (Some ib) BLAKE2B_OUTBYTES with
        | (r, Some ob) =>
            if r <? 0 then (r, out, pos, ob, toproduce)
            else long_loop fuel S0 (memcpy out pos ob (BLAKE2B_OUTBYTES / 2))
                   (pos + BLAKE2B_OUTBYTES / 2) ob (u32 (toproduce - BLAKE2B_OUTBYTES / 2))
        | (r, None) => (r, out, pos, ob, toproduce)
        end
      else (0, out, pos, ob, toproduce)
  end.

(** The four [TRY]s both branches share: hash of the length and the input. *)
Definition long_first (S0 : blake2b_state) (out : list Z) (outlen : Z)
  (outlen_bytes : list Z) (inp : option (list Z)) (inlen : Z) : Z * list Z :=
  let '(r, St) := rx_blake2b_init S0 outlen in
  if r <? 0 then (r, out) else
  let '(r, St) := rx_blake2b_update St (Some outlen_bytes) 4 in
  if r <? 0 then (r, out) else
  let '(r, St) := rx_blake2b_update St inp inlen in
  if r <? 0 then (r, out) else
  match rx_blake2b_final St (Some out) outlen with
  | (r, _, Some out) => (r, out)
  | (r, _, None) => (r, out)
  end.

Definition rxa2_blake2b_long (S0 : blake2b_state) (out : list Z) (outlen : Z)
  (inp : option (list Z)) (inlen : Z) : Z * list Z :=
  if outlen >? 0xFFFFFFFF then (-1, out)
  else
    let outlen_bytes := store_le 4 (u32 outlen) in
    if outlen <=? BLAKE2B_OUTBYTES
    then long_first S0 out outlen outlen_bytes inp inlen
    else
      let '(r, ob) := long_first S0 (replicate 64 0) BLAKE2B_OUTBYTES outlen_bytes inp inlen in
      if r <? 0 then (r, out) else
      let out := memcpy out 0 ob (BLAKE2B_OUTBYTES / 2) in
      let toproduce := u32 (u32 outlen - BLAKE2B_OUTBYTES / 2) in
      let '(r, out, pos, ob, toproduce) :=
        long_loop (Z.to_nat toproduce) S0 out (BLAKE2B_OUTBYTES / 2) ob toproduce in
      if r <? 0 then (r, out) else
      let ib := ob in
      match rx_blake2b_default S0 (Some ob) toproduce (Some ib) BLAKE2B_OUTBYTES with
      | (r, Some ob) => if r <? 0 then (r, out) else (r, memcpy out pos ob toproduce)
      | (r, None) => (r, out)
      end.

(** ** The specification (RFC 7693)

    [RFC_SIGMA] has the ten permutations of section 2.7, used modulo ten. *)
Definition RFC_SIGMA (r : nat) : list nat := take 10 blake2b_sigma !!! (r mod 10)%nat.

(** The mixing function of section 3.1. *)
Definition RFC_G (v : list Z) (a b c d : nat) (x y : Z) : list Z :=
  let va := add64 (add64 (v !!! a) (v !!! b)) x in
  let vd := rotr64 (Z.lxor (v !!! d) va) 32 in
  let vc := add64 (v !!! c) vd in
  let vb := rotr64 (Z.lxor (v !!! b) vc) 24 in
  let va := add64 (add64 va vb) y in
  let vd := rotr64 (Z.lxor vd va) 16 in
  let vc := add64 vc vd in
  let vb := rotr64 (Z.lxor vb vc) 63 in
  <[b := vb]> (<[c := vc]> (<[d := vd]> (<[a := va]> v))).

(** The index quadruples of one round: four columns, then four diagonals. *)
Definition RFC_quads : list (nat * nat * nat * nat) :=
  [(0, 4, 8, 12); (1, 5, 9, 13); (2, 6, 10, 14); (3, 7, 11, 15);
   (0, 5, 10, 15); (1, 6, 11, 12); (2, 7, 8, 13); (3, 4, 9, 14)]%nat.

Definition RFC_round (m : list Z) (v : list Z) (r : nat) : list Z :=
  foldl (fun v '(i, (a, b, c, d)) =>
    RFC_G v a b c d (m !!! (RFC_SIGMA r !!! (2 * i)%nat)) (m !!! (RFC_SIGMA r !!! (2 * i + 1)%nat)))
    v (zip (seq 0 8) RFC_quads).

(** The compression function of section 3.2: chaining value, message block,
    byte counter and last-block flag. *)
Definition RFC_F (hv : list Z) (block : list Z) (t : Z) (last : bool) : list Z :=
  let m := (fun i => load64 block (8 * Z.of_nat i)) <$> seq 0 16 in
  let v := hv ++ blake2b_IV in
  let v := alter (fun x => Z.lxor x (u64 t)) 12%nat v in
  let v := alter (fun x => Z.lxor x (u64 (Z.shiftr t 64))) 13%nat v in
  let v := if last then alter (fun x => Z.lxor x (2 ^ 64 - 1)) 14%nat v else v in
  let v := foldl (RFC_round m) v (seq 0 12) in
  imap (fun i x => Z.lxor (Z.lxor x (v !!! i)) (v !!! (i + 8)%nat)) hv.

(** The blocks of a message but the last, which holds at least one byte
    unless the message is empty. *)
Fixpoint RFC_blocks (fuel : nat) (hv : list Z) (t : Z) (m : list Z) : list Z * Z * list Z :=
  match fuel with
  | O => (hv, t, m)
  | S fuel =>
      if (128 <? length m)%nat
      then RFC_blocks fuel (RFC_F hv (take 128 m) (t + 128) false) (t + 128) (drop 128 m)
      else (hv, t, m)
  end.

Definition RFC_pad (m : list Z) : list Z := m ++ replicate (128 - length m) 0.

(** [h[0] := h[0] ^ 0x01010000 ^ (kk << 8) ^ nn]. *)
Definition RFC_h0 (kk nn : Z) : list Z :=
  alter (fun x => Z.lxor x (Z.lxor 0x01010000 (Z.lxor (Z.shiftl kk 8) nn))) 0%nat blake2b_IV.

Definition RFC_finish (nn : Z) (st : list Z * Z * list Z) : list Z :=
  let '(hv, t, m) := st in
  take (Z.to_nat nn)
    (mjoin (store_le 8 <$> RFC_F hv (RFC_pad m) (t + Z.of_nat (length m)) true)).

(** BLAKE2b with an [nn]-byte digest; a non-empty [key] is the first block. *)
Definition RFC_blake2b (nn : Z) (key m : list Z) : list Z :=
  let m := match key with [] => m | _ => RFC_pad key ++ m end in
  RFC_finish nn (RFC_blocks (length m) (RFC_h0 (Z.of_nat (length key)) nn) 0 m).

(** The variable-length hash H' of RFC 9106, section 3.3. *)
Fixpoint H'_chain (r : nat) (v : list Z) (rest : Z) : list Z :=
  match r with
  | O => RFC_blake2b rest [] v
  | S r => let v := RFC_blake2b 64 [] v in take 32 v ++ H'_chain r v (rest - 32)
  end.
Definition RFC_H' (T : Z) (A : list Z) : list Z :=
  if T <=? 64 then RFC_blake2b T [] (store_le 4 T ++ A)
  else
    let v1 := RFC_blake2b 64 [] (store_le 4 T ++ A) in
    let r := Z.to_nat ((T + 31) / 32 - 2) in
    take 32 v1 ++ H'_chain (r - 1) v1 (T - 32).

(** ** The compression function implements the RFC's *)

Section Compression.

(** Half of the mixing function: add, rotate by [r1], add, rotate by [r2]. *)
Definition half (a b c d : nat) (x r1 r2 : Z) (v : list Z) : list Z :=
  let v := <[a := add64 (add64 (v !!! a) (v !!! b)) x]> v in
  let v := <[d := rotr64 (Z.lxor (v !!! d) (v !!! a)) r1]> v in
  let v := <[c := add64 (v !!! c) (v !!! d)]> v in
  <[b := rotr64 (Z.lxor (v !!! b) (v !!! c)) r2]> v.

Lemma half_eq a b c d x r1 r2 v :
  a <> b -> a <> c -> a <> d -> b <> c -> b <> d -> c <> d ->
  (a < length v)%nat -> (b < length v)%nat -> (c < length v)%nat -> (d < length v)%nat ->
  let va := add64 (add64 (v !!! a) (v !!! b)) x in
  let vd := rotr64 (Z.lxor (v !!! d) va) r1 in
  let vc := add64 (v !!! c) vd in
  half a b c d x r1 r2 v =
    <[b := rotr64 (Z.lxor (v !!! b) vc) r2]> (<[c := vc]> (<[d := vd]> (<[a := va]> v))).
Proof.
  intros. cbv zeta. unfold half.
  repeat first [rewrite list_lookup_total_insert_eq by (rewrite ?length_insert; done)
               |rewrite list_lookup_total_insert_ne by congruence].
  done.
Qed.

Lemma half_twice a b c d x y v :
  a <> b -> a <> c -> a <> d -> b <> c -> b <> d -> c <> d ->
  (a < length v)%nat -> (b < length v)%nat -> (c < length v)%nat -> (d < length v)%nat ->
  half a b c d y 16 63 (half a b c d x 32 24 v) = RFC_G v a b c d x y.
Proof.
  intros. rewrite (half_eq a b c d x 32 24 v) by done. cbv zeta. unfold RFC_G.
  set (va := add64 (add64 (v !!! a) (v !!! b)) x).
  set (vd := rotr64 (Z.lxor (v !!! d) va) 32). set (vc := add64 (v !!! c) vd).
  set (vb := rotr64 (Z.lxor (v !!! b) vc) 24).
  rewrite half_eq by (rewrite ?length_insert; done). cbv zeta.
  repeat first [rewrite list_lookup_total_insert_eq by (rewrite ?length_insert; done)
               |rewrite list_lookup_total_insert_ne by congruence].
  rewrite (list_insert_insert_ne _ a b), (list_insert_insert_ne _ a c),
    (list_insert_insert_ne _ a d), list_insert_insert_eq by congruence.
  rewrite (list_insert_insert_ne _ d b), (list_insert_insert_ne _ d c), list_insert_insert_eq by congruence.
  by rewrite (list_insert_insert_ne _ c b), !list_insert_insert_eq by congruence.
Qed.

Lemma G_RFC m r i a b c d v : length v = 16%nat -> (a, b, c, d) ∈ RFC_quads ->
  G m r i a b c d v =
  RFC_G v a b c d (m !!! ((blake2b_sigma !!! r) !!! (2 * i)%nat))
                  (m !!! ((blake2b_sigma !!! r) !!! (2 * i + 1)%nat)).
Proof.
  intros Hv Hq. rewrite <- half_twice;
    [unfold G, half; rewrite Nat.add_0_r; reflexivity|..];
    unfold RFC_quads in Hq; rewrite !elem_of_cons in Hq;
    rewrite elem_of_nil in Hq; destruct_or?; simplify_eq; lia.
Qed.

Lemma G_length m r i a b c d v : length (G m r i a b c d v) = length v.
Proof. unfold G. by rewrite !length_insert. Qed.

Lemma RFC_G_length v a b c d x y : length (RFC_G v a b c d x y) = length v.
Proof. unfold RFC_G. by rewrite !length_insert. Qed.

Lemma sigma_mod r : (r < 12)%nat -> blake2b_sigma !!! r = RFC_SIGMA r.
Proof. intros Hr. do 12 (destruct r as [|r]; [reflexivity|]). lia. Qed.

Lemma ROUND_RFC m r v : (r < 12)%nat -> length v = 16%nat ->
  ROUND m r v = RFC_round m v r /\ length (ROUND m r v) = 16%nat.
Proof.
  intros Hr Hv. assert (ROUND m r v = RFC_round m v r) as ->.
  - unfold ROUND, RFC_round, RFC_quads. simpl zip. cbn [foldl].
    rewrite <- (sigma_mod r Hr).
    rewrite !G_RFC; rewrite ?RFC_G_length, ?G_length; try done; apply list_elem_of_In; vm_compute; tauto.
  - split; [done|]. unfold RFC_round. generalize (zip (seq 0 8) RFC_quads) as l.
    intros l. revert v Hv. induction l as [|[? [[[??]?]?]] l IH]; intros v Hv; [done|].
    simpl. apply IH. by rewrite RFC_G_length.
Qed.

Lemma rounds_RFC m n v k : (k + n <= 12)%nat -> length v = 16%nat ->
  foldl (fun v r => ROUND m r v) v (seq k n) = foldl (RFC_round m) v (seq k n).
Proof.
  revert k v. induction n as [|n IH]; intros k v Hk Hv; [done|]. simpl.
  destruct (ROUND_RFC m k v ltac:(lia) Hv) as [E Hl]. rewrite <- E. apply IH; [lia|done].
Qed.

(** The chaining value after [rx_blake2b_compress_integer] is the RFC's [F]
    of the state's counter and finalisation flag. *)
Lemma compress_RFC St block t (last : bool) : length (h St) = 8%nat ->
  t0 St = u64 t -> t1 St = u64 (Z.shiftr t 64) ->
  f0 St = (if last then 2 ^ 64 - 1 else 0) -> f1 St = 0 ->
  rx_blake2b_compress_integer St block = set_h St (RFC_F (h St) block t last).
Proof.
  intros Hh E0 E1 F0 F1. unfold rx_blake2b_compress_integer, RFC_F.
  rewrite E0, E1, F0, F1. rewrite rounds_RFC; [|lia|].
  - assert (forall f (y : list Z), alter f 12%nat (h St ++ y) = h St ++ alter f 4%nat y /\
      alter f 13%nat (h St ++ y) = h St ++ alter f 5%nat y /\
      alter f 14%nat (h St ++ y) = h St ++ alter f 6%nat y) as Ha.
    { intros f y. rewrite !alter_app_r_alt, Hh by lia. done. }
    rewrite (proj1 (Ha _ _)), (proj1 (proj2 (Ha _ _))).
    destruct last; [rewrite (proj2 (proj2 (Ha _ _)))|]; reflexivity.
  - rewrite length_app, Hh. reflexivity.
Qed.

Lemma RFC_F_length hv block t last : length (RFC_F hv block t last) = length hv.
Proof. apply length_imap. Qed.

End Compression.

(** ** Streaming *)

Section Streaming.

(** [repr St nn (hv, t, m)]: the state is live, has absorbed blocks that left
    the chaining value [hv] and the byte count [t], and buffers the bytes [m]. *)
Definition repr (St : blake2b_state) (nn : Z) (st : list Z * Z * list Z) : Prop :=
  let '(hv, t, m) := st in
  h St = hv /\ length hv = 8%nat /\ 0 <= t /\ t0 St = u64 t /\ t1 St = u64 (Z.shiftr t 64) /\
  f0 St = 0 /\ f1 St = 0 /\ last_node St = 0 /\ outlen St = nn /\
  length (buf St) = 128%nat /\ (length m <= 128)%nat /\ buflen St = Z.of_nat (length m) /\
  take (length m) (buf St) = m.

Lemma counter_RFC St inc t : 0 <= inc < 2 ^ 64 -> 0 <= t ->
  t0 St = u64 t -> t1 St = u64 (Z.shiftr t 64) ->
  blake2b_increment_counter St inc = set_t St (u64 (t + inc)) (u64 (Z.shiftr (t + inc) 64)).
Proof.
  intros Hi Ht E0 E1. unfold blake2b_increment_counter, add64. rewrite E0, E1.
  rewrite !u64_mod, !Z.shiftr_div_pow2 by lia.
  assert (t = 2 ^ 64 * (t / 2 ^ 64) + t mod 2 ^ 64) as Et by (apply Z.div_mod; lia).
  pose proof (Z.mod_pos_bound t (2 ^ 64) ltac:(lia)) as Hr.
  set (q := t / 2 ^ 64) in *. set (r := t mod 2 ^ 64) in *.
  assert ((t + inc) mod 2 ^ 64 = (r + inc) mod 2 ^ 64) as ->.
  { rewrite Et. apply Z.cong_iff_ex. exists q. lia. }
  assert ((t + inc) / 2 ^ 64 = q + (r + inc) / 2 ^ 64) as ->.
  { rewrite <- Z.div_add_l by lia. f_equal. lia. }
  destruct (Z.lt_ge_cases (r + inc) (2 ^ 64)) as [Hc|Hc].
  - rewrite (Z.mod_small (r + inc)), (Z.div_small (r + inc)) by lia.
    rewrite (proj2 (Z.ltb_ge _ _)) by lia. by rewrite !Z.add_0_r, Z.mod_mod.
  - assert ((r + inc) mod 2 ^ 64 = r + inc - 2 ^ 64) as Em.
    { symmetry. apply (Z.mod_unique _ _ 1); lia. }
    assert ((r + inc) / 2 ^ 64 = 1) as ->. { symmetry. apply (Z.div_unique _ _ _ (r + inc - 2 ^ 64)); lia. }
    rewrite Em, (proj2 (Z.ltb_lt _ _)) by lia. f_equal. apply Zplus_mod_idemp_l.
Qed.

Lemma RFC_blocks_fuel f1 f2 hv t m : (length m <= f1)%nat -> (length m <= f2)%nat ->
  RFC_blocks f1 hv t m = RFC_blocks f2 hv t m.
Proof.
  revert f2 hv t m. induction f1 as [|f1 IH]; intros [|f2] hv t m H1 H2; simpl;
    destruct (Nat.ltb_spec 128 (length m)); try done; try lia.
  apply IH; rewrite length_drop; lia.
Qed.

(** Absorbing [x] after [m] is absorbing [m ++ x]. *)
Lemma RFC_blocks_app fuel hv t m x hv' t' m' : (length m <= fuel)%nat ->
  RFC_blocks fuel hv t m = (hv', t', m') ->
  RFC_blocks (length (m' ++ x)) hv' t' (m' ++ x) = RFC_blocks (length (m ++ x)) hv t (m ++ x).
Proof.
  revert hv t m. induction fuel as [|fuel IH]; intros hv t m Hf; simpl.
  { by intros [= -> -> ->]. }
  destruct (Nat.ltb_spec 128 (length m)) as [Hl|Hl]; [|by intros [= -> -> ->]].
  intros E. apply IH in E; [|rewrite length_drop; lia]. rewrite E. symmetry.
  assert (length (m ++ x) = S (length (m ++ x) - 1))%nat as -> by (rewrite length_app; lia).
  simpl. rewrite (proj2 (Nat.ltb_lt _ _)) by (rewrite length_app; lia).
  rewrite take_app_le, drop_app_le by lia.
  apply RFC_blocks_fuel; rewrite !length_app, !length_drop; lia.
Qed.

(** A block compressed by a live state: counter first, then the block. *)
Lemma repr_block St nn hv t m block b n : repr St nn (hv, t, m) -> length b = 128%nat -> n = 0 ->
  repr (set_buf (rx_blake2b_compress_integer (blake2b_increment_counter (set_buf St b (buflen St))
          BLAKE2B_BLOCKBYTES) block) b n)
    nn (RFC_F hv block (t + 128) false, t + 128, []).
Proof.
  intros (Eh & Hh & Ht & E0 & E1 & F0 & F1 & EL & EO & Hb & Hm & En & Et) Hb' ->.
  rewrite (counter_RFC _ _ t) by (unfold BLAKE2B_BLOCKBYTES; simpl; lia || done).
  rewrite (compress_RFC _ _ (t + 128) false); simpl; try done; [|by rewrite Eh].
  rewrite Eh, RFC_F_length. repeat split; try done; simpl; lia.
Qed.

Lemma set_buf_buf St : set_buf St (buf St) (buflen St) = St.
Proof. by destruct St. Qed.

Lemma compress_buf St block :
  buf (rx_blake2b_compress_integer St block) = buf St /\
  buflen (rx_blake2b_compress_integer St block) = buflen St.
Proof. done. Qed.

Lemma update_loop_repr fuel St nn hv t pin : (length pin <= fuel)%nat ->
  repr St nn (hv, t, []) ->
  exists St' pin' hv' t',
    update_loop fuel St pin (Z.of_nat (length pin)) = (St', pin', Z.of_nat (length pin')) /\
    RFC_blocks fuel hv t pin = (hv', t', pin') /\ (length pin' <= 128)%nat /\
    repr St' nn (hv', t', []).
Proof.
  revert St hv t pin. induction fuel as [|fuel IH]; intros St hv t pin Hf HR; simpl.
  { eexists _, _, _, _. split; [done|]. split; [done|]. split; [lia|done]. }
  unfold BLAKE2B_BLOCKBYTES at 1.
  destruct (Nat.ltb_spec 128 (length pin)) as [Hl|Hl].
  - rewrite Z.gtb_ltb, (proj2 (Z.ltb_lt _ _)) by lia.
    assert (Z.of_nat (length pin) - BLAKE2B_BLOCKBYTES = Z.of_nat (length (drop 128 pin))) as ->.
    { rewrite length_drop. unfold BLAKE2B_BLOCKBYTES. lia. }
    apply IH; [rewrite length_drop; lia|].
    pose proof HR as (_ & _ & _ & _ & _ & _ & _ & _ & _ & Hb & _ & En & _).
    pose proof (repr_block St nn hv t [] (take 128 pin) (buf St) 0 HR Hb eq_refl) as HB.
    rewrite set_buf_buf in HB. change (Z.of_nat (length (@nil Z))) with 0 in En. rewrite <- En in HB.
    exact HB.
  - rewrite Z.gtb_ltb, (proj2 (Z.ltb_ge _ _)) by lia.
    eexists _, _, _, _. split; [done|]. split; [done|]. split; [lia|done].
Qed.

(** Copying at most the free part of the buffer appends to what it holds. *)
Lemma memcpy_append b m x k : length b = 128%nat -> take (length m) b = m ->
  (k <= length x)%nat -> (length m + k <= 128)%nat ->
  let b' := memcpy b (Z.of_nat (length m)) x (Z.of_nat k) in
  length b' = 128%nat /\ take (length m + k) b' = m ++ take k x.
Proof.
  intros Hb Hm Hk Hl. unfold memcpy.
  replace (Z.to_nat (Z.of_nat (length m) + Z.of_nat k)) with (length m + k)%nat by lia.
  rewrite !Nat2Z.id, Hm. split.
  - rewrite !length_app, length_take, length_drop. lia.
  - rewrite app_assoc, take_app_length'; [done|]. rewrite length_app, length_take. lia.
Qed.

Lemma repr_append St nn hv t m x : repr St nn (hv, t, m) -> (length m + length x <= 128)%nat ->
  repr (set_buf St (memcpy (buf St) (buflen St) x (Z.of_nat (length x)))
          (u32 (buflen St + Z.of_nat (length x)))) nn (hv, t, m ++ x).
Proof.
  intros (Eh & Hh & Ht & E0 & E1 & F0 & F1 & EL & EO & Hb & Hm & En & Et) Hl.
  destruct (memcpy_append (buf St) m x (length x) Hb Et) as [Hb' Et']; [lia|lia|].
  rewrite firstn_all in Et'. rewrite <- En in Hb', Et'.
  rewrite <- (length_app m x) in Et'.
  repeat split; try done; simpl.
  - rewrite length_app. lia.
  - rewrite En, u32_id, length_app; [lia|]. unfold is_u32. lia.
Qed.

(** [rx_blake2b_update] succeeds on a live state and absorbs its input. *)
Lemma update_repr St nn hv t m x : repr St nn (hv, t, m) ->
  exists St', rx_blake2b_update St (Some x) (Z.of_nat (length x)) = (0, St') /\
    repr St' nn (RFC_blocks (length (m ++ x)) hv t (m ++ x)).
Proof.
  intros HR. pose proof HR as (Eh & Hh & Ht & E0 & E1 & F0 & F1 & EL & EO & Hb & Hm & En & Et).
  assert ((length (m ++ x) <= 128)%nat -> RFC_blocks (length (m ++ x)) hv t (m ++ x) = (hv, t, m ++ x))
    as Hsmall.
  { intros Hl. destruct (length (m ++ x)) as [|n] eqn:E; [done|]. simpl. rewrite E.
    by rewrite (proj2 (Nat.ltb_ge _ _)) by lia. }
  unfold rx_blake2b_update. destruct (Z.eqb_spec (Z.of_nat (length x)) 0) as [Hx|Hx].
  { destruct x; [|simpl in Hx; lia]. rewrite app_nil_r in *. rewrite Hsmall by done. eauto. }
  rewrite F0. simpl negb. cbv iota.
  destruct (Z.gtb_spec (buflen St + Z.of_nat (length x)) BLAKE2B_BLOCKBYTES) as [Hg|Hg];
    unfold BLAKE2B_BLOCKBYTES in Hg.
  2:{ eexists. split; [done|]. rewrite Hsmall by (rewrite length_app; lia).
      apply repr_append; [done|lia]. }
  set (fill := (128 - length m)%nat).
  assert (BLAKE2B_BLOCKBYTES - buflen St = Z.of_nat fill) as -> by (unfold BLAKE2B_BLOCKBYTES; lia).
  assert (Z.of_nat (length x) - Z.of_nat fill = Z.of_nat (length (drop fill x))) as ->
    by (rewrite length_drop; lia).
  rewrite Nat2Z.id.
  destruct (memcpy_append (buf St) m x fill Hb Et) as [Hb' Et']; [lia|lia|]. rewrite <- En in Hb', Et'.
  set (b := memcpy (buf St) (buflen St) x (Z.of_nat fill)) in *.
  pose proof (repr_block St nn hv t m b b 0 HR Hb' eq_refl) as HB.
  assert (b = take 128 (m ++ x)) as Eb.
  { replace (length m + fill)%nat with (length b) in Et' by lia.
    rewrite firstn_all in Et'. rewrite Et' at 1. rewrite take_app_ge by lia. done. }
  destruct (update_loop_repr (length x) _ nn _ _ (drop fill x) ltac:(rewrite length_drop; lia) HB)
    as (St' & pin' & hv' & t' & EU & ER & Hp & HR').
  simpl in EU |- *. rewrite EU.
  eexists. split; [done|].
  assert (RFC_blocks (length (m ++ x)) hv t (m ++ x) = (hv', t', pin')) as ->.
  { destruct (length (m ++ x)) as [|n] eqn:El; [rewrite length_app in El; lia|]. simpl.
    rewrite El, (proj2 (Nat.ltb_lt _ _)) by (rewrite length_app in El; lia).
    rewrite <- Eb, drop_app_ge by lia. rewrite <- ER. apply RFC_blocks_fuel;
    rewrite !length_drop; rewrite length_app in El; lia. }
  apply (repr_append St' nn hv' t' []); [done|simpl; lia].
Qed.

(** The parameter block sets the RFC's initial chaining value: checked on
    every digest and key length. *)
Lemma init_param_table :
  forallb (fun nn => forallb (fun kk =>
    bool_decide (rx_blake2b_init_param (param_of (Z.of_nat nn) (Z.of_nat kk)) =
      (0, mk_state (RFC_h0 (Z.of_nat kk) (Z.of_nat nn)) 0 0 0 0 (replicate 128 0) 0 (Z.of_nat nn) 0)))
    (seq 0 65)) (seq 0 65) = true.
Proof. vm_cast_no_check (eq_refl true). Qed.

Lemma init_param_repr nn kk : 0 <= nn <= 64 -> 0 <= kk <= 64 ->
  exists St, rx_blake2b_init_param (param_of nn kk) = (0, St) /\
    repr St nn (RFC_h0 kk nn, 0, []).
Proof.
  intros Hn Hk. pose proof init_param_table as HT. rewrite forallb_forall in HT.
  specialize (HT (Z.to_nat nn)). rewrite in_seq, forallb_forall in HT.
  specialize (HT ltac:(lia) (Z.to_nat kk)). rewrite in_seq in HT.
  specialize (HT ltac:(lia)). rewrite !Z2Nat.id in HT by lia.
  apply bool_decide_eq_true_1 in HT. eexists. split; [exact HT|].
  repeat split; simpl; done || lia.
Qed.

Lemma init_repr S0 nn : 0 < nn <= 64 ->
  exists St, rx_blake2b_init S0 nn = (0, St) /\ repr St nn (RFC_h0 0 nn, 0, []).
Proof.
  intros Hn. unfold rx_blake2b_init, BLAKE2B_OUTBYTES.
  rewrite (proj2 (Z.eqb_neq _ _)), Z.gtb_ltb, (proj2 (Z.ltb_ge _ _)) by lia.
  apply init_param_repr; lia.
Qed.

Lemma RFC_blocks_small fuel hv t m : (length m <= 128)%nat -> RFC_blocks fuel hv t m = (hv, t, m).
Proof.
  intros Hm. destruct fuel; [done|]. simpl. by rewrite (proj2 (Nat.ltb_ge _ _)) by lia.
Qed.

Lemma length_words (l : list Z) : length (mjoin (store_le 8 <$> l)) = (8 * length l)%nat.
Proof.
  induction l as [|x l IH]; [done|].
  change (mjoin (store_le 8 <$> x :: l)) with (store_le 8 x ++ mjoin (store_le 8 <$> l)).
  rewrite length_app, IH, length_store_le by lia. simpl. lia.
Qed.

(** [rx_blake2b_final] writes the digest over the first [nn] bytes and leaves
    a state that is marked final. *)
Lemma final_repr St nn st out ol : repr St nn st -> nn <= ol ->
  exists St', rx_blake2b_final St (Some out) ol =
      (0, St', Some (RFC_finish nn st ++ drop (Z.to_nat nn) out)) /\
    f0 St' = 2 ^ 64 - 1 /\ outlen St' = nn.
Proof.
  destruct st as [[hv t] m].
  intros (Eh & Hh & Ht & E0 & E1 & F0 & F1 & EL & EO & Hb & Hm & En & Et) Ho.
  unfold rx_blake2b_final. rewrite EO, (proj2 (Z.ltb_ge _ _)), F0 by lia. simpl negb. cbv iota.
  rewrite (counter_RFC _ _ t) by (lia || done).
  unfold blake2b_set_lastblock. change (last_node (set_t _ _ _)) with (last_node St).
  rewrite EL. simpl (negb _). cbv iota.
  assert (memcpy (buf St) (buflen St) (replicate (Z.to_nat (BLAKE2B_BLOCKBYTES - buflen St)) 0)
            (BLAKE2B_BLOCKBYTES - buflen St) = RFC_pad m) as Ep.
  { unfold memcpy, RFC_pad, BLAKE2B_BLOCKBYTES. rewrite En, Nat2Z.id, Et. f_equal.
    rewrite firstn_all2 by (rewrite length_replicate; lia).
    rewrite drop_ge, app_nil_r by lia. f_equal. lia. }
  erewrite (compress_RFC _ _ (t + buflen St) true) by (simpl; rewrite ?Eh; done).
  cbn [buf buflen set_f set_t set_buf set_h h outlen]. rewrite Ep, Eh, EO, En.
  eexists. split; [unfold memcpy; by rewrite Z.add_0_l|]. split; [done|exact EO].
Qed.

Lemma RFC_finish_length nn hv t m : 0 <= nn <= 64 -> length hv = 8%nat ->
  length (RFC_finish nn (hv, t, m)) = Z.to_nat nn.
Proof. intros. simpl. rewrite length_take, length_words, RFC_F_length. lia. Qed.

Lemma RFC_blocks_length fuel hv t m : length (RFC_blocks fuel hv t m).1.1 = length hv.
Proof.
  revert hv t m. induction fuel as [|fuel IH]; intros hv t m; simpl; [done|].
  case_match; [|done]. by rewrite IH, RFC_F_length.
Qed.

Lemma RFC_blake2b_length nn key m : 0 <= nn <= 64 -> length (RFC_blake2b nn key m) = Z.to_nat nn.
Proof.
  intros Hn. unfold RFC_blake2b. set (m' := match key with [] => m | _ => _ end).
  pose proof (RFC_blocks_length (length m') (RFC_h0 (Z.of_nat (length key)) nn) 0 m') as Hl.
  destruct (RFC_blocks _ _ _ _) as [[hv t] b]. apply RFC_finish_length; [done|].
  simpl in Hl. rewrite Hl. reflexivity.
Qed.

(** A sequence of updates with the given chunks. *)
Definition updates (St : blake2b_state) (chunks : list (list Z)) : Z * blake2b_state :=
  foldl (fun '(r, St) x =>
    if r <? 0 then (r, St) else rx_blake2b_update St (Some x) (Z.of_nat (length x)))
    (0, St) chunks.

Lemma updates_repr chunks St nn hv t m : repr St nn (hv, t, m) ->
  exists St', updates St chunks = (0, St') /\
    repr St' nn (RFC_blocks (length (m ++ mjoin chunks)) hv t (m ++ mjoin chunks)).
Proof.
  unfold updates. revert St hv t m. induction chunks as [|x chunks IH]; intros St hv t m HR; simpl.
  - eexists. split; [done|]. rewrite app_nil_r.
    destruct HR as (?&?&?&?&?&?&?&?&?&?&?&?&?). rewrite RFC_blocks_small by done.
    repeat split; done.
  - destruct (update_repr _ _ _ _ _ x HR) as (St1 & -> & HR1).
    destruct (RFC_blocks (length (m ++ x)) hv t (m ++ x)) as [[hv1 t1] m1] eqn:E.
    destruct (IH _ _ _ _ HR1) as (St2 & -> & HR2). eexists. split; [done|].
    rewrite (RFC_blocks_app _ hv t (m ++ x) (mjoin chunks) hv1 t1 m1) in HR2 by done.
    by rewrite <- app_assoc in HR2.
Qed.

End Streaming.

(** ** The contracts of the interface *)

(** C10: hashing a message in any pieces, with or without a key, gives the
    digest RFC 7693 assigns to the whole message. *)
Theorem blake2b_streaming_correct S0 out nn chunks : 0 < nn <= 64 -> nn <= Z.of_nat (length out) ->
  (exists St St' St'', rx_blake2b_init S0 nn = (0, St) /\ updates St chunks = (0, St') /\
     rx_blake2b_final St' (Some out) nn =
       (0, St'', Some (RFC_blake2b nn [] (mjoin chunks) ++ drop (Z.to_nat nn) out))) /\
  (forall key, (0 < length key <= 64)%nat ->
   exists St St' St'', rx_blake2b_init_key S0 nn (Some key) (Z.of_nat (length key)) = (0, St) /\
     updates St chunks = (0, St') /\
     rx_blake2b_final St' (Some out) nn =
       (0, St'', Some (RFC_blake2b nn key (mjoin chunks) ++ drop (Z.to_nat nn) out))).
Proof.
  intros Hn _. split.
  - destruct (init_repr S0 nn Hn) as (St & E & HR).
    destruct (updates_repr chunks _ _ _ _ _ HR) as (St' & E' & HR').
    destruct (final_repr _ _ _ out nn HR') as (St'' & E'' & _); [lia|]. eauto 6.
  - intros key Hk. unfold rx_blake2b_init_key, BLAKE2B_OUTBYTES, BLAKE2B_KEYBYTES.
    repeat (rewrite (proj2 (Z.eqb_neq _ _)), Z.gtb_ltb, (proj2 (Z.ltb_ge _ _)) by lia; cbn [orb]).
    destruct (init_param_repr nn (Z.of_nat (length key))) as (St & -> & HR); [lia..|].
    change (0 <? 0) with false. cbv iota.
    assert (memcpy (replicate 128 0) 0 key (Z.of_nat (length key)) = RFC_pad key) as ->.
    { unfold memcpy, RFC_pad. rewrite Z.add_0_l, Nat2Z.id, firstn_all, drop_replicate. done. }
    assert (length (RFC_pad key) = 128)%nat as Hl.
    { unfold RFC_pad. rewrite length_app, length_replicate. lia. }
    destruct (update_repr _ _ _ _ _ (RFC_pad key) HR) as (St1 & E1 & HR1).
    rewrite Hl in E1. change (Z.of_nat 128) with BLAKE2B_BLOCKBYTES in E1. rewrite E1.
    destruct (RFC_blocks _ _ _ _) as [[hv1 t1] m1] eqn:E in HR1.
    destruct (updates_repr chunks _ _ _ _ _ HR1) as (St' & E' & HR').
    rewrite (RFC_blocks_app _ _ _ _ (mjoin chunks) _ _ _ ltac:(done) E) in HR'.
    destruct (final_repr _ _ _ out nn HR') as (St'' & E'' & _); [lia|].
    exists St1, St', St''. split; [done|]. split; [done|].
    rewrite E''. destruct key; [simpl in Hk; lia|]. done.
Qed.

Lemma blake2b_streaming_correct_witness :
  let out := replicate 64 0 in let S0 := blake2b_init0 in
  (0 < 64 <= 64 /\ 64 <= Z.of_nat (length out)) /\
  (exists St St' St'', rx_blake2b_init S0 64 = (0, St) /\ updates St [[97]; []; [98; 99]] = (0, St') /\
     rx_blake2b_final St' (Some out) 64 =
       (0, St'', Some (RFC_blake2b 64 [] [97; 98; 99] ++ drop (Z.to_nat 64) out))).
Proof.
  split; [split; [lia|simpl; lia]|].
  apply (blake2b_streaming_correct blake2b_init0 (replicate 64 0) 64 [[97]; []; [98; 99]]);
    [lia|simpl; lia].
Defined.

Lemma default_ok S0 nn out m : 0 < nn <= 64 ->
  rx_blake2b_default S0 (Some out) nn (Some m) (Z.of_nat (length m)) =
    (0, Some (RFC_blake2b nn [] m ++ drop (Z.to_nat nn) out)).
Proof.
  intros Hn. unfold rx_blake2b_default, BLAKE2B_OUTBYTES. cbn [andb orb].
  rewrite (proj2 (Z.eqb_neq _ _)), Z.gtb_ltb, (proj2 (Z.ltb_ge _ _)) by lia. cbn [orb].
  destruct (init_repr S0 nn Hn) as (St & -> & HR). change (0 <? 0) with false. cbv iota.
  destruct (update_repr _ _ _ _ _ m HR) as (St' & -> & HR'). change (0 <? 0) with false. cbv iota.
  by destruct (final_repr _ _ _ out nn HR') as (St'' & -> & _); [lia|].
Qed.

(** The one-shot hash returns 0 with the RFC digest for every output
    length 1..64 (a NULL input of length 0 is the empty message), and -1 with
    the output untouched for every other output length, a NULL output or a
    NULL input of positive length. *)
Theorem rx_blake2b_default_spec S0 nn out m :
  (0 < nn <= 64 -> nn <= Z.of_nat (length out) ->
   rx_blake2b_default S0 (Some out) nn (Some m) (Z.of_nat (length m)) =
     (0, Some (RFC_blake2b nn [] m ++ drop (Z.to_nat nn) out)) /\
   rx_blake2b_default S0 (Some out) nn None 0 =
     (0, Some (RFC_blake2b nn [] [] ++ drop (Z.to_nat nn) out))) /\
  (forall inp inlen o, nn = 0 \/ 64 < nn \/ o = None \/ (inp = None /\ 0 < inlen) ->
   rx_blake2b_default S0 o nn inp inlen = (-1, o)).
Proof.
  split.
  - intros Hn _. split; [by apply default_ok|].
    rewrite <- (default_ok S0 nn out [] Hn). reflexivity.
  - intros inp inlen o Hbad. unfold rx_blake2b_default, BLAKE2B_OUTBYTES.
    destruct inp, o; cbn [andb orb]; try case_match; try done.
    all: destruct (Z.eqb_spec nn 0), (Z.gtb_spec nn 64); try done; exfalso.
    all: destruct Hbad as [?|[?|[?|[??]]]]; done || lia.
Qed.

Lemma rx_blake2b_default_spec_witness :
  0 < 32 <= 64 /\ 32 <= Z.of_nat (length (replicate 32 0)) /\
  rx_blake2b_default blake2b_init0 (Some (replicate 32 0)) 32 (Some [1; 2]) 2 =
     (0, Some (RFC_blake2b 32 [] [1; 2] ++ [])) /\
  rx_blake2b_default blake2b_init0 None 32 (Some [1; 2]) 2 = (-1, None).
Proof.
  split; [lia|]. split; [simpl; lia|]. split.
  - apply (rx_blake2b_default_spec blake2b_init0 32 (replicate 32 0) [1; 2]); [lia|simpl; lia].
  - apply (rx_blake2b_default_spec blake2b_init0 32 (replicate 32 0) [1; 2]). auto.
Defined.

(** A state is used once.  After a failed [init] or [init_key], and after
    [final], both [update] with data and [final] return -1 and change nothing. *)
Theorem blake2b_state_used_once S0 St :
  (exists ol, rx_blake2b_init S0 ol = (-1, St)) \/
  (exists ol key kl, rx_blake2b_init_key S0 ol key kl = (-1, St)) \/
  (exists St0 out ol out', rx_blake2b_final St0 out ol = (0, St, out')) ->
  forall x n out ol, 0 < n ->
    rx_blake2b_update St x n = (-1, St) /\ rx_blake2b_final St out ol = (-1, St, out).
Proof.
  intros Hst. assert (f0 St = u64 (-1)) as Hf.
  { destruct Hst as [[ol E]|[(ol & key & kl & E)|(St0 & out & ol & out' & E)]].
    - unfold rx_blake2b_init in E. case_match; [|discriminate E].
      by injection E as <-.
    - unfold rx_blake2b_init_key in E. repeat case_match; try discriminate E; by injection E as <-.
    - unfold rx_blake2b_final in E. repeat case_match; try discriminate E.
      exact (eq_sym (f_equal (fun p => f0 p.1.2) E)). }
  intros x n out ol Hn. unfold rx_blake2b_update, rx_blake2b_final. rewrite Hf.
  rewrite (proj2 (Z.eqb_neq n 0)) by lia. simpl negb. cbv iota.
  destruct x, out; try done; by case_match.
Qed.

Lemma blake2b_state_used_once_witness :
  let St := (rx_blake2b_init blake2b_init0 65).2 in
  rx_blake2b_init blake2b_init0 65 = (-1, St) /\
  rx_blake2b_update St (Some [1]) 1 = (-1, St).
Proof.
  split; [reflexivity|].
  apply (blake2b_state_used_once blake2b_init0 (rx_blake2b_init blake2b_init0 65).2
    ltac:(left; exists 65; reflexivity) (Some [1]) 1 None 64). lia.
Defined.

(** ** The variable-length hash *)

#[local] Arguments rx_blake2b_default : simpl never.
#[local] Arguments RFC_blake2b : simpl never.

Section Long.

Lemma long_first_ok S0 out nn lenb m : 0 < nn <= 64 -> length lenb = 4%nat ->
  long_first S0 out nn lenb (Some m) (Z.of_nat (length m)) =
    (0, RFC_blake2b nn [] (lenb ++ m) ++ drop (Z.to_nat nn) out).
Proof.
  intros Hn H4. unfold long_first.
  destruct (init_repr S0 nn Hn) as (St & -> & HR). change (0 <? 0) with false. cbv iota.
  destruct (update_repr _ _ _ _ _ lenb HR) as (St1 & E1 & HR1).
  rewrite H4 in E1. change (Z.of_nat 4) with 4 in E1. rewrite E1.
  change (0 <? 0) with false. cbv iota.
  destruct (RFC_blocks _ _ _ _) as [[hv1 t1] m1] eqn:E in HR1.
  destruct (update_repr _ _ _ _ _ m HR1) as (St2 & -> & HR2).
  change (0 <? 0) with false. cbv iota.
  rewrite (RFC_blocks_app _ _ _ _ m _ _ _ ltac:(done) E) in HR2.
  by destruct (final_repr _ _ _ out nn HR2) as (St3 & -> & _); [lia|].
Qed.

Lemma default_ok_64 S0 nn out v : 0 < nn <= 64 -> length v = 64%nat ->
  rx_blake2b_default S0 (Some out) nn (Some v) BLAKE2B_OUTBYTES =
    (0, Some (RFC_blake2b nn [] v ++ drop (Z.to_nat nn) out)).
Proof.
  intros Hn Hv. rewrite <- (default_ok S0) by done. rewrite Hv. reflexivity.
Qed.

Lemma memcpy_at out pos x n : 0 <= pos -> 0 <= n <= Z.of_nat (length x) ->
  pos + n <= Z.of_nat (length out) ->
  length (memcpy out pos x n) = length out /\
  take (Z.to_nat (pos + n)) (memcpy out pos x n) = take (Z.to_nat pos) out ++ take (Z.to_nat n) x.
Proof.
  intros Hp Hn Hl. unfold memcpy. split.
  - rewrite !length_app, !length_take, length_drop. lia.
  - rewrite app_assoc, take_app_length'; [done|]. rewrite length_app, !length_take. lia.
Qed.

(** The iterations of the loop that produces [tp] more bytes. *)
Definition chain_len (tp : Z) : nat := Z.to_nat ((tp + 31) / 32 - 2).

Lemma chain_len_step tp : 64 < tp -> chain_len tp = S (chain_len (tp - 32)).
Proof.
  intros H. unfold chain_len. replace (tp + 31) with (tp - 32 + 31 + 1 * 32) by lia.
  rewrite Z.div_add by lia.
  assert (2 <= (tp - 32 + 31) / 32) by (apply Z.div_le_lower_bound; lia). lia.
Qed.

Lemma chain_len_0 tp : tp <= 64 -> chain_len tp = 0%nat.
Proof.
  intros H. unfold chain_len. assert ((tp + 31) / 32 < 3) by (apply Z.div_lt_upper_bound; lia). lia.
Qed.

Lemma long_loop_ok fuel S0 out pos v tp : length v = 64%nat ->
  32 < tp < 2 ^ 32 -> tp <= Z.of_nat fuel -> 0 <= pos -> Z.of_nat (length out) = pos + tp ->
  exists out' pos' v' tp', long_loop fuel S0 out pos v tp = (0, out', pos', v', tp') /\
    length v' = 64%nat /\ 0 < tp' <= 64 /\ 0 <= pos' /\
    Z.of_nat (length out') = pos' + tp' /\ length out' = length out /\
    take (Z.to_nat pos') out' ++ RFC_blake2b tp' [] v' =
      take (Z.to_nat pos) out ++ H'_chain (chain_len tp) v tp.
Proof.
  revert out pos v tp. induction fuel as [|fuel IH]; intros out pos v tp Hv Htp Hf Hp Hl; [lia|].
  cbn [long_loop]. unfold BLAKE2B_OUTBYTES at 1. destruct (Z.gtb_spec tp 64) as [Hg|Hg].
  - rewrite default_ok_64 by (done || lia). unfold BLAKE2B_OUTBYTES. change (0 <? 0) with false. cbv iota.
    rewrite (drop_ge v), app_nil_r by lia. set (w := RFC_blake2b 64 [] v).
    assert (length w = 64)%nat as Hw by (apply (RFC_blake2b_length 64); lia).
    change (64 / 2) with 32. rewrite u32_id by (unfold is_u32; lia).
    destruct (memcpy_at out pos w 32) as [Hm1 Hm2]; [lia..|].
    destruct (IH (memcpy out pos w 32) (pos + 32) w (tp - 32))
      as (out' & pos' & v' & tp' & E & ? & ? & ? & ? & Hlen & E'); [done|lia..|].
    exists out', pos', v', tp'. rewrite E', Hm2, (chain_len_step tp) by lia. cbn [H'_chain].
    rewrite <- app_assoc. split_and!; try done; try lia.
  - exists out, pos, v, tp. rewrite chain_len_0 by lia. split_and!; done || lia.
Qed.

(** [rxa2_blake2b_long] fills its whole output with Argon2's
    variable-length hash H' (RFC 9106, section 3.3) for every output length
    up to 2^32 - 1, and refuses longer ones. *)
Theorem rxa2_blake2b_long_correct S0 out T m :
  (0 < T < 2 ^ 32 -> T = Z.of_nat (length out) ->
   rxa2_blake2b_long S0 out T (Some m) (Z.of_nat (length m)) = (0, RFC_H' T m)) /\
  (2 ^ 32 <= T -> forall inp inlen, rxa2_blake2b_long S0 out T inp inlen = (-1, out)).
Proof.
  split.
  2:{ intros HT inp inlen. unfold rxa2_blake2b_long.
      by rewrite Z.gtb_ltb, (proj2 (Z.ltb_lt _ _)) by lia. }
  intros HT Ho. unfold rxa2_blake2b_long, RFC_H'.
  rewrite Z.gtb_ltb, (proj2 (Z.ltb_ge _ _)), u32_id by (unfold is_u32; lia).
  assert (length (store_le 4 T) = 4%nat) as H4 by (apply length_store_le; lia).
  unfold BLAKE2B_OUTBYTES. change (64 / 2) with 32.
  destruct (Z.leb_spec T 64) as [Hs|Hs].
  - rewrite long_first_ok by (done || lia). by rewrite drop_ge, app_nil_r by lia.
  - rewrite long_first_ok by (done || lia). change (0 <? 0) with false. cbv iota.
    change (drop (Z.to_nat 64) (replicate 64 0)) with (@nil Z). rewrite app_nil_r.
    set (v1 := RFC_blake2b 64 [] (store_le 4 T ++ m)).
    assert (length v1 = 64)%nat as Hv by (apply (RFC_blake2b_length 64); lia).
    destruct (memcpy_at out 0 v1 32) as [Hm1 Hm2]; [lia..|]. rewrite Z.add_0_l in Hm2.
    rewrite u32_id by (unfold is_u32; lia).
    destruct (long_loop_ok (Z.to_nat (T - 32)) S0 (memcpy out 0 v1 32) 32 v1 (T - 32))
      as (out' & pos & v & tp & -> & Hv' & Htp & Hp & Hlen & Hlen' & E); [done|lia..|].
    change (0 <? 0) with false. cbv iota.
    pose proof (default_ok_64 S0 tp v v Htp Hv') as Ed. unfold BLAKE2B_OUTBYTES in Ed.
    rewrite Ed. change (0 <? 0) with false. cbv iota. f_equal.
    rewrite Hm2 in E. replace (Z.to_nat ((T + 31) / 32 - 2) - 1)%nat with (chain_len (T - 32)).
    + change (take (Z.to_nat 0) out) with (@nil Z) in E. rewrite app_nil_l in E.
      change (Z.to_nat 32) with 32%nat in E.
      rewrite <- E. unfold memcpy. rewrite (drop_ge out') by lia.
      rewrite app_nil_r. f_equal. rewrite take_app_length'; [done|].
      symmetry. apply (RFC_blake2b_length tp); lia.
    + unfold chain_len. replace (T + 31) with (T - 32 + 31 + 1 * 32) by lia.
      rewrite Z.div_add by lia. lia.
Qed.

Lemma rxa2_blake2b_long_correct_witness :
  (0 < 100 < 2 ^ 32 /\ 100 = Z.of_nat (length (replicate 100 0))) /\
  rxa2_blake2b_long blake2b_init0 (replicate 100 0) 100 (Some [1; 2; 3]) 3 = (0, RFC_H' 100 [1; 2; 3]) /\
  rxa2_blake2b_long blake2b_init0 [] (2 ^ 32) None 0 = (-1, []).
Proof.
  split; [split; [lia|reflexivity]|]. split.
  - apply (rxa2_blake2b_long_correct blake2b_init0 (replicate 100 0) 100 [1; 2; 3]); [lia|reflexivity].
  - apply (rxa2_blake2b_long_correct blake2b_init0 [] (2 ^ 32) []). lia.
Defined.

End Long.

(** The digest of the three bytes of abc, as printed in RFC 7693, appendix A. *)
Example blake2b_abc :
  take 8 (RFC_blake2b 64 [] [97; 98; 99]) = [0xBA; 0x80; 0xA5; 0x3F; 0x98; 0x1C; 0x4D; 0x0D].
Proof. reflexivity. Qed.

End Blake2b.
