(* ===== verification/Blake2Generator.v ===== *)
(** * The random source of the superscalar generator
      (crypto/randomx/blake2_generator.cpp)

    [ByteSource] is the interface [generateSuperscalar] draws from, with the
    laws it relies on; [Blake2Generator] is the implementation: a 64-byte
    buffer that is replaced by its own BLAKE2b hash when it runs out. *)
From stdpp Require Import base list numbers.
From Stdlib Require Import ZArith Lia.
From S2P Require Import Prelude Blake2b.
Open Scope Z_scope.

(** A source of random bytes and little-endian words. *)
Class ByteSource (Gen : Type) := {
  getByte : Gen -> result (Z * Gen);
  getUInt32 : Gen -> result (Z * Gen)
}.

(** [gen_ok] is an invariant of the source under which both reads return. *)
Class ByteSourceLaws (Gen : Type) `{ByteSource Gen} := {
  gen_ok : Gen -> Prop;
  getByte_ok g : gen_ok g -> returns (getByte g) (fun '(b, g') => is_u8 b /\ gen_ok g');
  getUInt32_ok g : gen_ok g -> returns (getUInt32 g) (fun '(w, g') => is_u32 w /\ gen_ok g')
}.

Module Blake2Generator.

Definition maxSeedSize : Z := 60.

Record Blake2Generator := mk_gen { data : list Z; dataIndex : Z }.

(** The C++ constructor; [seed] holds [seedSize] bytes. *)
Definition make (seed : list Z) (seedSize : Z) (nonce : Z) : Blake2Generator :=
  let d := replicate 64 0 in
  let d := Blake2b.memcpy d 0 seed (if seedSize >? maxSeedSize then maxSeedSize else seedSize) in
  let d := Blake2b.memcpy d maxSeedSize (store_le 4 (u32 nonce)) 4 in
  mk_gen d 64.

(** [rx_blake2b(data, 64, data, 64)]: the digest overwrites its own input. *)
Definition checkData (g : Blake2Generator) (bytesNeeded : Z) : Blake2Generator :=
  if dataIndex g + bytesNeeded >? 64
  then match Blake2b.rx_blake2b_default Blake2b.blake2b_init0 (Some (data g)) 64 (Some (data g)) 64 with
       | (_, Some d) => mk_gen d 0
       | (_, None) => mk_gen (data g) 0
       end
  else g.

Definition gen_getByte (g : Blake2Generator) : result (Z * Blake2Generator) :=
  let g := checkData g 1 in
  b ← aget (data g) (dataIndex g);
  mret (b, mk_gen (data g) (dataIndex g + 1)).

(** [load32] reads the four bytes at [dataIndex]; each is in the array. *)
Definition gen_getUInt32 (g : Blake2Generator) : result (Z * Blake2Generator) :=
  let g := checkData g 4 in
  let i := dataIndex g in
  b0 ← aget (data g) i; b1 ← aget (data g) (i + 1);
  b2 ← aget (data g) (i + 2); b3 ← aget (data g) (i + 3);
  mret (load_le [b0; b1; b2; b3], mk_gen (data g) (i + 4)).

#[global] Instance blake2_source : ByteSource Blake2Generator :=
  {| getByte := gen_getByte; getUInt32 := gen_getUInt32 |}.

(** ** The implementation meets the interface *)

(** The buffer is a block of 64 bytes and the index is in it or just past it. *)
Definition ok (g : Blake2Generator) : Prop :=
  length (data g) = 64%nat /\ Forall is_u8 (data g) /\ 0 <= dataIndex g <= 64.

Section Laws.

Definition rehash (d : list Z) : list Z := Blake2b.RFC_blake2b 64 [] d.

Lemma rehash_ok d : length (rehash d) = 64%nat /\ Forall is_u8 (rehash d).
Proof.
  split; [apply (Blake2b.RFC_blake2b_length 64); lia|].
  unfold rehash, Blake2b.RFC_blake2b. destruct (Blake2b.RFC_blocks _ _ _ _) as [[hv t] m].
  unfold Blake2b.RFC_finish. apply Forall_take, Forall_join, Forall_fmap, Forall_forall.
  intros x _. apply store_le_bytes. lia.
Qed.

Lemma checkData_eq g n : length (data g) = 64%nat ->
  checkData g n = if dataIndex g + n >? 64 then mk_gen (rehash (data g)) 0 else g.
Proof.
  intros Hl. unfold checkData. case_match; [|done].
  pose proof (Blake2b.default_ok_64 Blake2b.blake2b_init0 64 (data g) (data g) ltac:(lia) Hl) as E.
  unfold Blake2b.BLAKE2B_OUTBYTES in E. rewrite E.
  by rewrite drop_ge, app_nil_r by (rewrite Hl; simpl; lia).
Qed.

Lemma checkData_ok g n : ok g -> 0 <= n <= 64 ->
  ok (checkData g n) /\ dataIndex (checkData g n) + n <= 64.
Proof.
  intros (Hl & HB & Hi) Hn. rewrite checkData_eq by done.
  destruct (Z.gtb_spec (dataIndex g + n) 64).
  - destruct (rehash_ok (data g)). unfold ok. simpl. split_and!; done || lia.
  - unfold ok. split_and!; done || lia.
Qed.

Lemma gen_getByte_ok g : ok g ->
  returns (gen_getByte g) (fun '(b, g') => is_u8 b /\ ok g').
Proof.
  intros Hg. destruct (checkData_ok g 1 Hg) as [(Hl & HB & Hi) Hn]; [lia|].
  unfold gen_getByte. res_step. eapply returns_mono; [apply aget_returns; [lia|exact HB]|].
  intros b Hb. simpl. unfold ok. simpl. split_and!; done || lia.
Qed.

Lemma gen_getUInt32_ok g : ok g ->
  returns (gen_getUInt32 g) (fun '(w, g') => is_u32 w /\ ok g').
Proof.
  intros Hg. destruct (checkData_ok g 4 Hg) as [(Hl & HB & Hi) Hn]; [lia|].
  unfold gen_getUInt32.
  do 4 (res_step; eapply returns_mono; [apply aget_returns; [lia|exact HB]|]; intros ? ?).
  simpl. split.
  - match goal with |- is_u32 (load_le ?l) => apply (load_le_bound l) end. repeat (apply Forall_cons_2; [done|]); apply Forall_nil_2.
  - unfold ok. simpl. split_and!; done || lia.
Qed.

#[global] Instance blake2_source_laws : ByteSourceLaws Blake2Generator :=
  {| gen_ok := ok; getByte_ok := gen_getByte_ok; getUInt32_ok := gen_getUInt32_ok |}.

Lemma make_ok seed n nonce : Forall is_u8 seed -> n = Z.of_nat (length seed) -> ok (make seed n nonce).
Proof.
  intros HB ->. unfold make, maxSeedSize, ok. cbn [data dataIndex].
  set (k := if Z.of_nat (length seed) >? 60 then 60 else Z.of_nat (length seed)).
  assert (0 <= k <= 60 /\ k <= Z.of_nat (length seed)) as [Hk Hk'].
  { unfold k. destruct (Z.gtb_spec (Z.of_nat (length seed)) 60); lia. }
  destruct (Blake2b.memcpy_at (replicate 64 0) 0 seed k) as [Hl1 _]; [lia..|rewrite length_replicate; lia|].
  destruct (Blake2b.memcpy_at (Blake2b.memcpy (replicate 64 0) 0 seed k) 60
    (store_le 4 (u32 nonce)) 4) as [Hl2 _];
    [lia|rewrite length_store_le by lia; simpl; lia|rewrite Hl1; simpl; lia|].
  split_and!; [by rewrite Hl2, Hl1| |lia..].
  unfold Blake2b.memcpy. repeat (apply Forall_app; split); repeat (apply Forall_take || apply Forall_drop).
  all: repeat (apply Forall_app; split); repeat (apply Forall_take || apply Forall_drop); try done.
  all: try apply store_le_bytes; try lia; apply Forall_replicate; unfold is_u8; lia.
Qed.

End Laws.

(** [n] successive bytes of a generator. *)
Fixpoint read_bytes (n : nat) (g : Blake2Generator) : result (list Z) :=
  match n with
  | O => mret []
  | S n => '(b, g) ← gen_getByte g; bs ← read_bytes n g; mret (b :: bs)
  end.

(** The first [n] bytes of the hash chain from the block [d]. *)
Fixpoint chain (n : nat) (d : list Z) : list Z :=
  match n with O => [] | S n => let d := rehash d in d ++ chain n d end.

Lemma read_bytes_chain n k g : ok g -> (n <= Z.to_nat (64 - dataIndex g) + 64 * k)%nat ->
  read_bytes n g = Ok (take n (drop (Z.to_nat (dataIndex g)) (data g) ++ chain k (data g))).
Proof.
  revert k g. induction n as [|n IH]; intros k g Hg Hn; [done|].
  pose proof (gen_getByte_ok g Hg) as Hok. cbn [read_bytes].
  destruct (gen_getByte g) as [[b g']| |] eqn:E; [|done|done]. destruct Hok as [_ Hg'].
  unfold gen_getByte in E. destruct Hg as (Hl & HB & Hi). rewrite checkData_eq in E by done.
  cbn [mbind result_bind]. destruct (Z.gtb_spec (dataIndex g + 1) 64) as [Hc|Hc].
  - destruct k as [|k]; [lia|]. destruct (rehash_ok (data g)) as [Hr _].
    destruct (rehash (data g)) as [|x d] eqn:Ed; [done|].
    injection E as <- <-. rewrite (IH k); [|done|simpl; simpl in Hn; lia].
    cbn [mbind result_bind mret result_ret chain]. rewrite (drop_ge (data g)) by lia.
    cbn [app]. rewrite Ed. done.
  - apply bind_Ok in E as (x & Ex & E). injection E as <- <-.
    rewrite (IH k); [|done|simpl; lia]. simpl. f_equal.
    destruct (aget_total (data g) (dataIndex g)) as (y & Ey & Hy); [lia|].
    rewrite Ex in Ey. injection Ey as <-.
    rewrite (drop_S _ _ _ Hy). simpl. do 3 f_equal. f_equal. f_equal. lia.
Qed.

(** The bytes a fresh generator delivers are the iterated BLAKE2b hashes
    of its seed block: the seed cut to 60 bytes, padded with zeros and
    followed by the nonce. *)
Theorem blake2_generator_stream seed nonce n k : Forall is_u8 seed -> (n <= 64 * k)%nat ->
  let block := take 60 (seed ++ replicate 60 0) ++ store_le 4 (u32 nonce) in
  read_bytes n (make seed (Z.of_nat (length seed)) nonce) = Ok (take n (chain k block)).
Proof.
  intros HB Hn block. rewrite (read_bytes_chain n k); [|by apply make_ok|simpl; lia].
  assert (data (make seed (Z.of_nat (length seed)) nonce) = block) as E.
  { unfold make, maxSeedSize, block. cbn [data]. unfold Blake2b.memcpy.
    rewrite (take_ge (store_le 4 (u32 nonce))) by (rewrite length_store_le; simpl; lia).
    rewrite (drop_ge _ (Z.to_nat (60 + 4))), app_nil_r.
    - f_equal. destruct (Z.gtb_spec (Z.of_nat (length seed)) 60).
      + rewrite (take_app_le seed) by lia.
        change (take (Z.to_nat 0) (replicate 64 0)) with (@nil Z). rewrite app_nil_l.
        rewrite take_app_le by (rewrite length_take; lia). rewrite take_take. done.
      + rewrite Nat2Z.id, firstn_all. change (take (Z.to_nat 0) (replicate 64 0)) with (@nil Z).
        rewrite app_nil_l. rewrite !take_app_ge by lia. f_equal.
        rewrite Z.add_0_l, Nat2Z.id, drop_replicate, !take_replicate. f_equal. lia.
    - destruct (Z.gtb_spec (Z.of_nat (length seed)) 60); rewrite !length_app, !length_take,
        !length_drop, length_replicate; lia. }
  rewrite E. change (dataIndex (make _ _ _)) with 64. rewrite (drop_ge block); [done|].
  unfold block. rewrite length_app, length_take, length_app, length_replicate,
    length_store_le; lia.
Qed.

Lemma blake2_generator_stream_witness :
  Forall is_u8 [1; 2; 3] /\ (65 <= 64 * 2)%nat /\
  read_bytes 65 (make [1; 2; 3] 3 7) =
    Ok (take 65 (chain 2 (take 60 ([1; 2; 3] ++ replicate 60 0) ++ store_le 4 (u32 7)))).
Proof.
  assert (Forall is_u8 [1; 2; 3]) as H by (repeat constructor; unfold is_u8; lia).
  split; [exact H|]. split; [lia|]. apply (blake2_generator_stream [1; 2; 3] 7 65 2 H). lia.
Defined.

End Blake2Generator.
