(* ===== verification/Instruction.v ===== *)
(** * RandomX instructions (crypto/randomx/instruction.hpp)

    The 8-byte instruction shared by the superscalar programs and the
    virtual machine, its field accessors and its memory layout. *)
From stdpp Require Import base list numbers.
From Stdlib Require Import ZArith Lia.
From S2P Require Import Prelude.
Open Scope Z_scope.

Module Instruction.

Record Instruction := mk_instr { opcode : Z; dst : Z; src : Z; mod_ : Z; imm32 : Z }.

#[export] Instance instruction_eq_dec : EqDecision Instruction.
Proof. solve_decision. Defined.

Definition getImm32 (i : Instruction) : Z := imm32 i.
Definition setImm32 (i : Instruction) (val : Z) : Instruction :=
  mk_instr (opcode i) (dst i) (src i) (mod_ i) (u32 val).
Definition getModMem (i : Instruction) : Z := Z.land (mod_ i) 3.
Definition getModShift (i : Instruction) : Z := Z.land (Z.shiftr (mod_ i) 2) 3.
Definition getModCond (i : Instruction) : Z := Z.shiftr (mod_ i) 4.
Definition setMod (i : Instruction) (val : Z) : Instruction :=
  mk_instr (opcode i) (dst i) (src i) (u8 val) (imm32 i).

(** The memory layout of the struct: four bytes and a little-endian word. *)
Definition of_bytes (bs : list Z) : Instruction :=
  mk_instr (bs !!! 0%nat) (bs !!! 1%nat) (bs !!! 2%nat) (bs !!! 3%nat) (load_le (drop 4 bs)).

(** Every field is at its width. *)
Definition wf (i : Instruction) : Prop :=
  is_u8 (opcode i) /\ is_u8 (dst i) /\ is_u8 (src i) /\ is_u8 (mod_ i) /\ is_u32 (imm32 i).

Lemma of_bytes_wf bs : length bs = 8%nat -> Forall is_u8 bs -> wf (of_bytes bs).
Proof.
  intros Hl HB. do 8 (destruct bs as [|? bs]; [done|]). destruct bs; [|done].
  do 8 (apply Forall_cons_1 in HB as [? HB]).
  unfold wf, of_bytes. simpl. split_and!; try done.
  apply (load_le_bound [_; _; _; _]). repeat (apply Forall_cons_2; [done|]). apply Forall_nil_2.
Qed.

Lemma getModShift_range i : 0 <= getModShift i <= 3.
Proof. apply land_le_r. lia. Qed.
Lemma getModMem_range i : 0 <= getModMem i <= 3.
Proof. apply land_le_r. lia. Qed.
Lemma getModCond_range i : wf i -> 0 <= getModCond i < 16.
Proof.
  intros (_ & _ & _ & Hm & _). unfold getModCond, is_u8 in *.
  rewrite Z.shiftr_div_pow2 by lia. split; [apply Z.div_pos; lia|]. apply Z.div_lt_upper_bound; lia.
Qed.

(** [signExtend2sCompl] of intrin_portable.h: a 32-bit word read as signed
    and widened to 64 bits. *)
Definition signExtend2sCompl (x : Z) : Z := u64 (s32 x).

End Instruction.
