(* ===== verification/Superscalar.v ===== *)
(** * Superscalar programs (crypto/randomx/superscalar.cpp, superscalar.hpp,
      superscalar_program.hpp): the model

    [generateSuperscalar] simulates an out-of-order x86 front end to pick a
    program whose execution ports are saturated, and [executeSuperscalar]
    runs it on eight 64-bit registers.  Array accesses are bounds checked and
    the [UNREACHABLE] branches fault, so that safety is a theorem; the two
    rejection loops that redraw an immediate take the bound [fuel].  The
    generator is any [ByteSource]. *)
From stdpp Require Import base list numbers.
From Stdlib Require Import ZArith Lia.
From S2P Require Import Prelude Reciprocal Blake2Generator Instruction.
Open Scope Z_scope.

Module Superscalar.
Import Instruction.

(** ** Instruction types *)

Inductive SuperscalarInstructionType :=
| ISUB_R | IXOR_R | IADD_RS | IMUL_R | IROR_C | IADD_C7 | IXOR_C7 | IADD_C8 | IXOR_C8
| IADD_C9 | IXOR_C9 | IMULH_R | ISMULH_R | IMUL_RCP | INVALID.

#[export] Instance type_eq_dec : EqDecision SuperscalarInstructionType.
Proof. solve_decision. Defined.

(** [(int)type]. *)
Definition type_code (t : SuperscalarInstructionType) : Z :=
  match t with
  | ISUB_R => 0 | IXOR_R => 1 | IADD_RS => 2 | IMUL_R => 3 | IROR_C => 4 | IADD_C7 => 5
  | IXOR_C7 => 6 | IADD_C8 => 7 | IXOR_C8 => 8 | IADD_C9 => 9 | IXOR_C9 => 10
  | IMULH_R => 11 | ISMULH_R => 12 | IMUL_RCP => 13 | INVALID => -1
  end.

Definition eqt (a b : SuperscalarInstructionType) : bool := bool_decide (a = b).

Definition isMultiplication (t : SuperscalarInstructionType) : bool :=
  eqt t IMUL_R || eqt t IMULH_R || eqt t ISMULH_R || eqt t IMUL_RCP.

(** ** Execution ports and macro-operations *)

Definition P_Null : Z := 0.
Definition P0 : Z := 1.
Definition P1 : Z := 2.
Definition P5 : Z := 4.
Definition P01 : Z := Z.lor P0 P1.
Definition P05 : Z := Z.lor P0 P5.
Definition P015 : Z := Z.lor (Z.lor P0 P1) P5.

Record MacroOp := mk_mop {
  mop_size : Z; mop_latency : Z; uop1 : Z; uop2 : Z; dependent : bool }.

Definition isSimple (m : MacroOp) : bool := uop2 m =? P_Null.
Definition isEliminated (m : MacroOp) : bool := uop1 m =? P_Null.

Definition Add_rr := mk_mop 3 1 P015 P_Null false.
Definition Sub_rr := mk_mop 3 1 P015 P_Null false.
Definition Xor_rr := mk_mop 3 1 P015 P_Null false.
Definition Imul_r := mk_mop 3 4 P1 P5 false.
Definition Mul_r := mk_mop 3 4 P1 P5 false.
Definition Mov_rr := mk_mop 3 0 P_Null P_Null false.
Definition Lea_sib := mk_mop 4 1 P01 P_Null false.
Definition Imul_rr := mk_mop 4 3 P1 P_Null false.
Definition Ror_ri := mk_mop 4 1 P05 P_Null false.
Definition Add_ri := mk_mop 7 1 P015 P_Null false.
Definition Xor_ri := mk_mop 7 1 P015 P_Null false.
Definition Mov_ri64 := mk_mop 10 1 P015 P_Null false.

(** [MacroOp(parent, dependent)]. *)
Definition with_dependent (m : MacroOp) (d : bool) : MacroOp :=
  mk_mop (mop_size m) (mop_latency m) (uop1 m) (uop2 m) d.

Definition IMULH_R_ops_array : list MacroOp := [Mov_rr; Mul_r; Mov_rr].
Definition ISMULH_R_ops_array : list MacroOp := [Mov_rr; Imul_r; Mov_rr].
Definition IMUL_RCP_ops_array : list MacroOp := [Mov_ri64; with_dependent Imul_rr true].

(** ** Instruction descriptions *)

Record SuperscalarInstructionInfo := mk_info {
  info_type : SuperscalarInstructionType; ops : list MacroOp;
  info_latency : Z; resultOp : Z; dstOp : Z; srcOp : Z }.

Definition info_size (i : SuperscalarInstructionInfo) : Z := Z.of_nat (length (ops i)).

(** The three constructors of the class. *)
Definition info_none : SuperscalarInstructionInfo := mk_info INVALID [] 0 0 0 0.
Definition info_one (t : SuperscalarInstructionType) (op : MacroOp) (srcOp : Z) :=
  mk_info t [op] (mop_latency op) 0 0 srcOp.
Definition info_arr (t : SuperscalarInstructionType) (arr : list MacroOp) (resultOp dstOp srcOp : Z) :=
  mk_info t arr (foldl (fun l m => l + mop_latency m) 0 arr) resultOp dstOp srcOp.

Definition info_of (t : SuperscalarInstructionType) : SuperscalarInstructionInfo :=
  match t with
  | ISUB_R => info_one ISUB_R Sub_rr 0
  | IXOR_R => info_one IXOR_R Xor_rr 0
  | IADD_RS => info_one IADD_RS Lea_sib 0
  | IMUL_R => info_one IMUL_R Imul_rr 0
  | IROR_C => info_one IROR_C Ror_ri (-1)
  | IADD_C7 => info_one IADD_C7 Add_ri (-1)
  | IXOR_C7 => info_one IXOR_C7 Xor_ri (-1)
  | IADD_C8 => info_one IADD_C8 Add_ri (-1)
  | IXOR_C8 => info_one IXOR_C8 Xor_ri (-1)
  | IADD_C9 => info_one IADD_C9 Add_ri (-1)
  | IXOR_C9 => info_one IXOR_C9 Xor_ri (-1)
  | IMULH_R => info_arr IMULH_R IMULH_R_ops_array 1 0 1
  | ISMULH_R => info_arr ISMULH_R ISMULH_R_ops_array 1 0 1
  | IMUL_RCP => info_arr IMUL_RCP IMUL_RCP_ops_array 1 1 (-1)
  | INVALID => info_none
  end.

(** ** Decode buffers *)

Record DecoderBuffer := mk_buffer { buffer_index : Z; counts : list Z }.
Definition buffer_size (b : DecoderBuffer) : Z := Z.of_nat (length (counts b)).

Definition decodeBuffer484 := mk_buffer 0 [4; 8; 4].
Definition decodeBuffer7333 := mk_buffer 1 [7; 3; 3; 3].
Definition decodeBuffer3733 := mk_buffer 2 [3; 7; 3; 3].
Definition decodeBuffer493 := mk_buffer 3 [4; 9; 3].
Definition decodeBuffer4444 := mk_buffer 4 [4; 4; 4; 4].
Definition decodeBuffer3310 := mk_buffer 5 [3; 3; 10].
Definition decodeBuffers : list DecoderBuffer :=
  [decodeBuffer484; decodeBuffer7333; decodeBuffer3733; decodeBuffer493].

Definition slot_3 : list SuperscalarInstructionType := [ISUB_R; IXOR_R].
Definition slot_3L : list SuperscalarInstructionType := [ISUB_R; IXOR_R; IMULH_R; ISMULH_R].
Definition slot_4 : list SuperscalarInstructionType := [IROR_C; IADD_RS].
Definition slot_7 : list SuperscalarInstructionType := [IXOR_C7; IADD_C7].
Definition slot_8 : list SuperscalarInstructionType := [IXOR_C8; IADD_C8].
Definition slot_9 : list SuperscalarInstructionType := [IXOR_C9; IADD_C9].
Definition slot_10 : SuperscalarInstructionType := IMUL_RCP.

Definition RegisterNeedsDisplacement : Z := 5.

(** ** Registers and the instruction under construction *)

(** The field [value] of the class is written once and never read. *)
Record RegisterInfo := mk_ri { latency : Z; lastOpGroup : SuperscalarInstructionType; lastOpPar : Z }.
Definition ri_init : RegisterInfo := mk_ri 0 INVALID (-1).

Record SuperscalarInstruction := mk_si {
  info : SuperscalarInstructionInfo; si_src : Z; si_dst : Z; si_mod : Z; si_imm : Z;
  opGroup : SuperscalarInstructionType; opGroupPar : Z; canReuse : bool; groupParIsSource : bool }.

Definition Null : SuperscalarInstruction :=
  mk_si (info_of INVALID) (-1) (-1) 0 0 INVALID 0 false false.

Definition getType (c : SuperscalarInstruction) : SuperscalarInstructionType := info_type (info c).

Definition toInstr (c : SuperscalarInstruction) : Instruction :=
  mk_instr (u8 (type_code (getType c))) (u8 (si_dst c))
    (u8 (if si_src c >=? 0 then si_src c else si_dst c)) (u8 (si_mod c)) (u32 (si_imm c)).

Section Generator.
Context {Gen : Type} `{ByteSource Gen}.

Definition fetchNextDefault (gen : Gen) : result (DecoderBuffer * Gen) :=
  '(b, gen) ← getByte gen;
  d ← aget decodeBuffers (Z.land b 3);
  mret (d, gen).

Definition fetchNext (instrType : SuperscalarInstructionType) (cycle mulCount : Z) (gen : Gen)
  : result (DecoderBuffer * Gen) :=
  if eqt instrType IMULH_R || eqt instrType ISMULH_R then mret (decodeBuffer3310, gen)
  else if mulCount <? cycle + 1 then mret (decodeBuffer4444, gen)
  else if eqt instrType IMUL_RCP then
    '(b, gen) ← getByte gen;
    mret (if negb (Z.land b 1 =? 0) then decodeBuffer484 else decodeBuffer493, gen)
  else fetchNextDefault gen.

(** [do { imm32_ = gen.getByte() & 63; } while (imm32_ == 0);] *)
Fixpoint draw_rotation (fuel : nat) (gen : Gen) : result (Z * Gen) :=
  match fuel with
  | O => OutOfFuel
  | S fuel =>
      '(b, gen) ← getByte gen;
      let imm := Z.land b 63 in
      if imm =? 0 then draw_rotation fuel gen else mret (imm, gen)
  end.

(** [do { imm32_ = gen.getUInt32(); } while (isZeroOrPowerOf2(imm32_));] *)
Fixpoint draw_divisor (fuel : nat) (gen : Gen) : result (Z * Gen) :=
  match fuel with
  | O => OutOfFuel
  | S fuel =>
      '(imm, gen) ← getUInt32 gen;
      if Reciprocal.isZeroOrPowerOf2 imm then draw_divisor fuel gen else mret (imm, gen)
  end.

(** [reset] leaves [mod_], [imm32_], [opGroup_] and [opGroupPar_] alone; each
    case below overwrites what it sets and keeps the rest. *)
Definition create (fuel : nat) (c : SuperscalarInstruction) (t : SuperscalarInstructionType) (gen : Gen)
  : result (SuperscalarInstruction * Gen) :=
  let i := info_of t in
  let par := opGroupPar c in
  match t with
  | ISUB_R => mret (mk_si i (-1) (-1) 0 0 IADD_RS par false true, gen)
  | IXOR_R => mret (mk_si i (-1) (-1) 0 0 IXOR_R par false true, gen)
  | IADD_RS =>
      '(m, gen) ← getByte gen;
      mret (mk_si i (-1) (-1) m 0 IADD_RS par false true, gen)
  | IMUL_R => mret (mk_si i (-1) (-1) 0 0 IMUL_R par false true, gen)
  | IROR_C =>
      '(imm, gen) ← draw_rotation fuel gen;
      mret (mk_si i (-1) (-1) 0 imm IROR_C (-1) false false, gen)
  | IADD_C7 | IADD_C8 | IADD_C9 =>
      '(imm, gen) ← getUInt32 gen;
      mret (mk_si i (-1) (-1) 0 imm IADD_C7 (-1) false false, gen)
  | IXOR_C7 | IXOR_C8 | IXOR_C9 =>
      '(imm, gen) ← getUInt32 gen;
      mret (mk_si i (-1) (-1) 0 imm IXOR_C7 (-1) false false, gen)
  | IMULH_R =>
      '(p, gen) ← getUInt32 gen;
      mret (mk_si i (-1) (-1) 0 0 IMULH_R (s32 p) true false, gen)
  | ISMULH_R =>
      '(p, gen) ← getUInt32 gen;
      mret (mk_si i (-1) (-1) 0 0 ISMULH_R (s32 p) true false, gen)
  | IMUL_RCP =>
      '(imm, gen) ← draw_divisor fuel gen;
      mret (mk_si i (-1) (-1) 0 imm IMUL_RCP (-1) false false, gen)
  | INVALID =>
      mret (mk_si i (-1) (-1) (si_mod c) (si_imm c) (opGroup c) par false false, gen)
  end.

(** [create(slot[gen.getByte() & mask], gen)]. *)
Definition create_from (fuel : nat) (c : SuperscalarInstruction) (slot : list SuperscalarInstructionType)
  (mask : Z) (gen : Gen) : result (SuperscalarInstruction * Gen) :=
  '(b, gen) ← getByte gen;
  t ← aget slot (Z.land b mask);
  create fuel c t gen.

Definition createForSlot (fuel : nat) (c : SuperscalarInstruction) (gen : Gen)
  (slotSize fetchType : Z) (isLast isFirst : bool) : result (SuperscalarInstruction * Gen) :=
  match slotSize with
  | 3 => if isLast then create_from fuel c slot_3L 3 gen else create_from fuel c slot_3 1 gen
  | 4 => if (fetchType =? 4) && negb isLast then create fuel c IMUL_R gen
         else create_from fuel c slot_4 1 gen
  | 7 => create_from fuel c slot_7 1 gen
  | 8 => create_from fuel c slot_8 1 gen
  | 9 => create_from fuel c slot_9 1 gen
  | 10 => create fuel c slot_10 gen
  | _ => Fault
  end.

(** ** Operand selection *)

Definition selectRegister (availableRegisters : list Z) (gen : Gen) : result (option Z * Gen) :=
  let n := Z.of_nat (length availableRegisters) in
  if n =? 0 then mret (None, gen)
  else
    '(index, gen) ← (if n >? 1 then '(w, gen) ← getUInt32 gen; mret (w mod n, gen)
                     else mret (0, gen));
    reg ← aget availableRegisters index;
    mret (Some reg, gen).

Definition dst_available (c : SuperscalarInstruction) (cycle : Z) (allowChainedMul : bool)
  (i : Z) (ri : RegisterInfo) : bool :=
  (latency ri <=? cycle)
  && (canReuse c || negb (i =? si_src c))
  && (allowChainedMul || negb (eqt (opGroup c) IMUL_R) || negb (eqt (lastOpGroup ri) IMUL_R))
  && (negb (eqt (lastOpGroup ri) (opGroup c)) || negb (lastOpPar ri =? opGroupPar c))
  && (negb (eqt (getType c) IADD_RS) || negb (i =? RegisterNeedsDisplacement)).

(** The registers [i] with [p i registers[i]], in order. *)
Definition available (p : Z -> RegisterInfo -> bool) (registers : list RegisterInfo) : list Z :=
  mjoin (imap (fun i ri => if p (Z.of_nat i) ri then [Z.of_nat i] else []) registers).

Definition selectDestination (cycle : Z) (allowChainedMul : bool) (registers : list RegisterInfo)
  (c : SuperscalarInstruction) (gen : Gen) : result (bool * SuperscalarInstruction * Gen) :=
  '(r, gen) ← selectRegister (available (dst_available c cycle allowChainedMul) registers) gen;
  match r with
  | Some d =>
      mret (true, mk_si (info c) (si_src c) d (si_mod c) (si_imm c) (opGroup c) (opGroupPar c)
                    (canReuse c) (groupParIsSource c), gen)
  | None => mret (false, c, gen)
  end.

Definition set_src (c : SuperscalarInstruction) (s par : Z) : SuperscalarInstruction :=
  mk_si (info c) s (si_dst c) (si_mod c) (si_imm c) (opGroup c) par (canReuse c) (groupParIsSource c).

Definition selectSource (cycle : Z) (registers : list RegisterInfo) (c : SuperscalarInstruction)
  (gen : Gen) : result (bool * SuperscalarInstruction * Gen) :=
  let avail := available (fun _ ri => latency ri <=? cycle) registers in
  let special := match avail with
    | [a0; a1] => eqt (getType c) IADD_RS &&
        ((a0 =? RegisterNeedsDisplacement) || (a1 =? RegisterNeedsDisplacement))
    | _ => false
    end in
  if special
  then mret (true, set_src c RegisterNeedsDisplacement RegisterNeedsDisplacement, gen)
  else
    '(r, gen) ← selectRegister avail gen;
    match r with
    | Some s => mret (true, set_src c s (if groupParIsSource c then s else opGroupPar c), gen)
    | None => mret (false, c, gen)
    end.

(** ** Port scheduling *)

Definition RANDOMX_SUPERSCALAR_MAX_LATENCY : Z := 256.
Definition CYCLE_MAP_SIZE : Z := RANDOMX_SUPERSCALAR_MAX_LATENCY + 4.
Definition SuperscalarMaxSize : Z := 3 * RANDOMX_SUPERSCALAR_MAX_LATENCY + 2.
Definition LOOK_FORWARD_CYCLES : nat := 4.
Definition MAX_THROWAWAY_COUNT : Z := 256.

Definition PortMap : Type := list (list Z).

(** [portBusy[cycle][port] = uop] when [commit]. *)
Definition set_port (commit : bool) (pb : PortMap) (row : list Z) (cycle port uop : Z)
  : result PortMap :=
  if commit then row' ← aset row port uop; aset pb cycle row' else mret pb.

(** The loop body runs for [cycle < SuperscalarLatency + 4]; [n] bounds the
    rounds by what is left of that range. *)
Fixpoint scheduleUop_loop (n : nat) (commit : bool) (lat uop : Z) (pb : PortMap) (cycle : Z)
  : result (Z * PortMap) :=
  match n with
  | O => mret (-1, pb)
  | S n =>
      if negb (cycle <? lat + 4) then mret (-1, pb)
      else
        row ← aget pb cycle;
        b2 ← aget row 2;
        if negb (Z.land uop P5 =? 0) && (b2 =? 0) then
          pb ← set_port commit pb row cycle 2 uop; mret (cycle, pb)
        else
          b0 ← aget row 0;
          if negb (Z.land uop P0 =? 0) && (b0 =? 0) then
            pb ← set_port commit pb row cycle 0 uop; mret (cycle, pb)
          else
            b1 ← aget row 1;
            if negb (Z.land uop P1 =? 0) && (b1 =? 0) then
              pb ← set_port commit pb row cycle 1 uop; mret (cycle, pb)
            else scheduleUop_loop n commit lat uop pb (cycle + 1)
  end.

Definition scheduleUop (commit : bool) (lat uop : Z) (pb : PortMap) (cycle : Z)
  : result (Z * PortMap) :=
  scheduleUop_loop (Z.to_nat (lat + 4 - cycle)) commit lat uop pb cycle.

Fixpoint scheduleMop_loop (n : nat) (commit : bool) (lat : Z) (mop : MacroOp) (pb : PortMap) (cycle : Z)
  : result (Z * PortMap) :=
  match n with
  | O => mret (-1, pb)
  | S n =>
      if negb (cycle <? lat + 4) then mret (-1, pb)
      else
        '(cycle1, _) ← scheduleUop false lat (uop1 mop) pb cycle;
        '(cycle2, _) ← scheduleUop false lat (uop2 mop) pb cycle;
        if (cycle1 >=? 0) && (cycle1 =? cycle2) then
          if commit then
            '(_, pb) ← scheduleUop true lat (uop1 mop) pb cycle1;
            '(_, pb) ← scheduleUop true lat (uop2 mop) pb cycle2;
            mret (cycle1, pb)
          else mret (cycle1, pb)
        else scheduleMop_loop n commit lat mop pb (cycle + 1)
  end.

Definition scheduleMop (commit : bool) (lat : Z) (mop : MacroOp) (pb : PortMap) (cycle depCycle : Z)
  : result (Z * PortMap) :=
  let cycle := if dependent mop then (if cycle >? depCycle then cycle else depCycle) else cycle in
  if isEliminated mop then mret (cycle, pb)
  else if isSimple mop then scheduleUop commit lat (uop1 mop) pb cycle
  else scheduleMop_loop (Z.to_nat (lat + 4 - cycle)) commit lat mop pb cycle.

(** ** The generator *)

(** The locals of [generateSuperscalar] that its loops share, with the
    program buffer it writes. *)
Record gstate := mk_gs {
  portBusy : PortMap; registers : list RegisterInfo; current : SuperscalarInstruction;
  macroOpIndex : Z; codeSize : Z; macroOpCount : Z; cycle : Z; depCycle : Z; retireCycle : Z;
  portsSaturated : bool; programSize : Z; mulCount : Z; throwAwayCount : Z;
  programBuffer : list Instruction; gen : Gen }.

Definition set_current (s : gstate) (c : SuperscalarInstruction) (k : Z) (g : Gen) : gstate :=
  mk_gs (portBusy s) (registers s) c k (codeSize s) (macroOpCount s) (cycle s) (depCycle s)
    (retireCycle s) (portsSaturated s) (programSize s) (mulCount s) (throwAwayCount s)
    (programBuffer s) g.
Definition set_cycle (s : gstate) (n : Z) : gstate :=
  mk_gs (portBusy s) (registers s) (current s) (macroOpIndex s) (codeSize s) (macroOpCount s) n
    (depCycle s) (retireCycle s) (portsSaturated s) (programSize s) (mulCount s) (throwAwayCount s)
    (programBuffer s) (gen s).
Definition set_throwAway (s : gstate) (n : Z) : gstate :=
  mk_gs (portBusy s) (registers s) (current s) (macroOpIndex s) (codeSize s) (macroOpCount s)
    (cycle s) (depCycle s) (retireCycle s) (portsSaturated s) (programSize s) (mulCount s) n
    (programBuffer s) (gen s).
Definition set_saturated (s : gstate) (pb : PortMap) : gstate :=
  mk_gs pb (registers s) (current s) (macroOpIndex s) (codeSize s) (macroOpCount s)
    (cycle s) (depCycle s) (retireCycle s) true (programSize s) (mulCount s) (throwAwayCount s)
    (programBuffer s) (gen s).

(** How an iteration of the inner loop ends. *)
Inductive control := Next | Break.

(** [for (forward = 0; forward < n && !select(scheduleCycle); ++forward)
      { ++scheduleCycle; ++cycle; }]: whether an operand was found, and the
    cycles, instruction and generator after the loop. *)
Fixpoint look_forward (n : nat)
  (select : Z -> SuperscalarInstruction -> Gen -> result (bool * SuperscalarInstruction * Gen))
  (scheduleCycle cyc : Z) (c : SuperscalarInstruction) (g : Gen)
  : result (bool * Z * Z * SuperscalarInstruction * Gen) :=
  match n with
  | O => mret (false, scheduleCycle, cyc, c, g)
  | S n =>
      '(found, c, g) ← select scheduleCycle c g;
      if (found : bool) then mret (true, scheduleCycle, cyc, c, g)
      else look_forward n select (scheduleCycle + 1) (cyc + 1) c g
  end.

(** What follows [if (forward == LOOK_FORWARD_CYCLES)]: throw the instruction
    away, or abort the decode buffer once 256 were thrown away in a row. *)
Definition throw_away (s : gstate) : control * gstate :=
  if throwAwayCount s <? MAX_THROWAWAY_COUNT
  then (Next, set_throwAway (set_current s (current s) (info_size (info (current s))) (gen s))
                (throwAwayCount s + 1))
  else (Break, set_current s Null (macroOpIndex s) (gen s)).

(** The first part of an iteration: a fresh instruction for the slot once the
    current one has issued all of its macro-ops; [None] is the [break]. *)
Definition pick_instruction (fuel : nat) (lat : Z) (buf : DecoderBuffer) (s : gstate) (bufferIndex : Z)
  : result (option gstate) :=
  if macroOpIndex s >=? info_size (info (current s)) then
    if portsSaturated s || (programSize s >=? 3 * lat + 2) then mret None
    else
      slot ← aget (counts buf) bufferIndex;
      '(c, g) ← createForSlot fuel (current s) (gen s) slot (buffer_index buf)
                 (buffer_size buf =? bufferIndex + 1) (bufferIndex =? 0);
      mret (Some (set_current s c 0 g))
  else mret (Some s).

(** The search for one operand, when the macro-op at hand is the [op]-th one:
    [inl] is the end of the iteration, [inr] goes on. *)
Definition find_operand (op : Z)
  (select : Z -> SuperscalarInstruction -> Gen -> result (bool * SuperscalarInstruction * Gen))
  (s : gstate) (scheduleCycle : Z) : result ((control * gstate) + (gstate * Z)) :=
  if macroOpIndex s =? op then
    '(found, sc, cyc, c, g) ←
      look_forward LOOK_FORWARD_CYCLES select scheduleCycle (cycle s) (current s) (gen s);
    let s := set_cycle (set_current s c (macroOpIndex s) g) cyc in
    if (found : bool) then mret (inr (s, sc)) else mret (inl (throw_away s))
  else mret (inr (s, scheduleCycle)).

(** The write-back of the register that holds the instruction's result. *)
Definition retire (s : gstate) (depCycle' : Z) : result (list RegisterInfo * Z) :=
  if macroOpIndex s =? resultOp (info (current s)) then
    let dst := si_dst (current s) in
    regs ← aset (registers s) dst
             (mk_ri depCycle' (opGroup (current s)) (opGroupPar (current s)));
    mret (regs, depCycle')
  else mret (registers s, retireCycle s).

(** The last part of an iteration, after the operands are chosen: commit the
    macro-op to its ports, retire, and append a finished instruction. *)
Definition issue (lat : Z) (mop : MacroOp) (topCycle : Z) (s : gstate) (scheduleCycle : Z)
  (bufferIndex : Z) : result (control * gstate * Z) :=
  let s := set_throwAway s 0 in
  '(sc, pb) ← scheduleMop true lat mop (portBusy s) scheduleCycle scheduleCycle;
  if sc <? 0 then mret (Break, set_saturated s pb, bufferIndex)
  else
    let dep := sc + mop_latency mop in
    '(regs, rc) ← retire s dep;
    let k := macroOpIndex s + 1 in
    let s := mk_gs pb regs (current s) k (codeSize s + mop_size mop) (macroOpCount s + 1) topCycle
               dep rc (portsSaturated s || (sc >=? lat)) (programSize s) (mulCount s)
               (throwAwayCount s) (programBuffer s) (gen s) in
    if k >=? info_size (info (current s)) then
      buf ← aset (programBuffer s) (programSize s) (toInstr (current s));
      let m := if isMultiplication (getType (current s)) then 1 else 0 in
      mret (Next, mk_gs pb regs (current s) k (codeSize s) (macroOpCount s) (cycle s) dep
                    (retireCycle s) (portsSaturated s) (programSize s + 1) (mulCount s + m)
                    (throwAwayCount s) buf (gen s), bufferIndex + 1)
    else mret (Next, s, bufferIndex + 1).

(** One iteration of [while (bufferIndex < decodeBuffer->getSize())]. *)
Definition slot_step (fuel : nat) (lat : Z) (buf : DecoderBuffer) (s : gstate) (bufferIndex : Z)
  : result (control * gstate * Z) :=
  let topCycle := cycle s in
  picked ← pick_instruction fuel lat buf s bufferIndex;
  match picked with
  | None => mret (Break, s, bufferIndex)
  | Some s =>
      mop ← aget (ops (info (current s))) (macroOpIndex s);
      '(sc, _) ← scheduleMop false lat mop (portBusy s) (cycle s) (depCycle s);
      if sc <? 0 then mret (Break, set_saturated s (portBusy s), bufferIndex)
      else
        r ← find_operand (srcOp (info (current s)))
              (fun sc c g => selectSource sc (registers s) c g) s sc;
        match r with
        | inl (ctl, s) => mret (ctl, s, bufferIndex)
        | inr (s, sc) =>
            r ← find_operand (dstOp (info (current s)))
                  (fun sc c g => selectDestination sc (throwAwayCount s >? 0) (registers s) c g) s sc;
            match r with
            | inl (ctl, s) => mret (ctl, s, bufferIndex)
            | inr (s, sc) => issue lat mop topCycle s sc bufferIndex
            end
        end
  end.

(** The inner loop; [n] bounds its iterations. *)
Fixpoint slot_loop (n fuel : nat) (lat : Z) (buf : DecoderBuffer) (s : gstate) (bufferIndex : Z)
  : result gstate :=
  if bufferIndex <? buffer_size buf then
    match n with
    | O => OutOfFuel
    | S n =>
        '(ctl, s, bufferIndex) ← slot_step fuel lat buf s bufferIndex;
        match ctl with
        | Break => mret s
        | Next => slot_loop n fuel lat buf s bufferIndex
        end
    end
  else mret s.

(** A slot is filled after at most 257 iterations, and a buffer has at most
    four slots. *)
Definition slot_rounds : nat := 1285.

(** The outer loop from the cycle [decodeCycle]; [n] of the [SuperscalarLatency]
    cycles are left. *)
Fixpoint decode_loop (n fuel : nat) (lat : Z) (s : gstate) (decodeCycle : Z)
  : result (gstate * Z) :=
  match n with
  | O => mret (s, decodeCycle)
  | S n =>
      if (decodeCycle <? lat) && negb (portsSaturated s) && (programSize s <? 3 * lat + 2) then
        '(buf, g) ← fetchNext (getType (current s)) decodeCycle (mulCount s) (gen s);
        s ← slot_loop slot_rounds fuel lat buf (set_current s (current s) (macroOpIndex s) g) 0;
        decode_loop n fuel lat (set_cycle s (cycle s + 1)) (decodeCycle + 1)
      else mret (s, decodeCycle)
  end.

Definition gstate_init (buf : list Instruction) (g : Gen) : gstate :=
  mk_gs (replicate (Z.to_nat CYCLE_MAP_SIZE) [0; 0; 0]) (replicate 8 ri_init) Null
    0 0 0 0 0 0 false 0 0 0 buf g.

(** The statistic [ipc] (a [double] nothing reads back) is left out. *)
Record SuperscalarProgram := mk_prog {
  program : list Instruction; size : Z; addrReg : Z; prog_codeSize : Z; prog_macroOps : Z;
  decodeCycles : Z; cpuLatency : Z; asicLatency : Z; prog_mulCount : Z;
  cpuLatencies : list Z; asicLatencies : list Z }.

Definition asic_step (prog : list Instruction) (lats : list Z) (i : Z) : result (list Z) :=
  instr ← aget prog i;
  ld ← aget lats (dst instr);
  ls ← aget lats (src instr);
  let latDst := ld + 1 in
  let latSrc := if negb (dst instr =? src instr) then ls + 1 else 0 in
  aset lats (dst instr) (if latDst >? latSrc then latDst else latSrc).

(** [for (i = k; i < k + n; ++i)]. *)
Fixpoint asic_loop (n : nat) (prog : list Instruction) (lats : list Z) (k : Z) : result (list Z) :=
  match n with
  | O => mret lats
  | S n => lats ← asic_step prog lats k; asic_loop n prog lats (k + 1)
  end.

(** The register with the highest latency: the first one on ties, 0 if all
    are zero. *)
Definition address_register (lats : list Z) : Z * Z :=
  foldl (fun '(mx, reg) '(i, l) => if l >? mx then (l, Z.of_nat i) else (mx, reg))
    (0, 0) (imap (fun i l => (i, l)) lats).

Definition generateSuperscalar (fuel : nat) (lat : Z) (prog : SuperscalarProgram) (g : Gen)
  : result (SuperscalarProgram * Gen) :=
  '(s, dc) ← decode_loop (Z.to_nat lat) fuel lat (gstate_init (program prog) g) 0;
  lats ← asic_loop (Z.to_nat (programSize s)) (programBuffer s) (replicate 8 0) 0;
  let '(asicLatencyMax, addressReg) := address_register lats in
  mret (mk_prog (programBuffer s) (programSize s) addressReg (codeSize s) (macroOpCount s)
          dc (retireCycle s) asicLatencyMax (mulCount s) (latency <$> registers s) lats, gen s).

End Generator.

(** ** Execution *)

Definition type_of_code (c : Z) : SuperscalarInstructionType :=
  match c with
  | 0 => ISUB_R | 1 => IXOR_R | 2 => IADD_RS | 3 => IMUL_R | 4 => IROR_C | 5 => IADD_C7
  | 6 => IXOR_C7 | 7 => IADD_C8 | 8 => IXOR_C8 | 9 => IADD_C9 | 10 => IXOR_C9
  | 11 => IMULH_R | 12 => ISMULH_R | 13 => IMUL_RCP | _ => INVALID
  end.

Definition exec_instr (r : list Z) (instr : Instruction) : result (list Z) :=
  d ← aget r (dst instr);
  s ← aget r (src instr);
  match type_of_code (opcode instr) with
  | ISUB_R => aset r (dst instr) (sub64 d s)
  | IXOR_R => aset r (dst instr) (Z.lxor d s)
  | IADD_RS => aset r (dst instr) (add64 d (shl64 s (getModShift instr)))
  | IMUL_R => aset r (dst instr) (mul64 d s)
  | IROR_C => aset r (dst instr) (Reciprocal.rotr64 d (getImm32 instr))
  | IADD_C7 | IADD_C8 | IADD_C9 =>
      aset r (dst instr) (add64 d (signExtend2sCompl (getImm32 instr)))
  | IXOR_C7 | IXOR_C8 | IXOR_C9 =>
      aset r (dst instr) (Z.lxor d (signExtend2sCompl (getImm32 instr)))
  | IMULH_R => aset r (dst instr) (Reciprocal.mulh d s)
  | ISMULH_R => aset r (dst instr) (Reciprocal.smulh d s)
  | IMUL_RCP =>
      _ ← assert_ (negb (getImm32 instr =? 0));
      aset r (dst instr) (mul64 d (Reciprocal.randomx_reciprocal (getImm32 instr)))
  | INVALID => Fault
  end.

(** [for (j = k; j < k + n; ++j)]. *)
Fixpoint exec_loop (n : nat) (prog : list Instruction) (r : list Z) (k : Z) : result (list Z) :=
  match n with
  | O => mret r
  | S n => instr ← aget prog k; r ← exec_instr r instr; exec_loop n prog r (k + 1)
  end.

Definition executeSuperscalar (r : list Z) (prog : SuperscalarProgram) : result (list Z) :=
  exec_loop (Z.to_nat (size prog)) (program prog) r 0.

End Superscalar.
