(* ===== verification/SuperscalarProofs.v ===== *)
(** * Superscalar programs: correctness

    The generator never reads or writes outside an array and never reaches an
    [UNREACHABLE] branch; what it returns is a well-formed program within the
    size limit; it returns whenever the two rejection loops do; and a
    well-formed program always executes.  The proofs are against the
    [ByteSource] interface and cover both readings of the fuel at once with
    [wp]. *)
From Stdlib Require Import ZArith Lia.
From stdpp Require Import base numbers list.
From S2P Require Import Prelude Reciprocal Blake2b Blake2Generator Instruction Superscalar.
Open Scope Z_scope.

Module SuperscalarProofs.
Import Instruction Superscalar.

(** ** Well-formed instructions and programs *)

(** What the generator guarantees of an instruction of type [t]: operands are
    registers, register-register operations have distinct operands, r5 is
    never the target of IADD_RS, rotations are by 1..63 and divisors are not
    zero or powers of two. *)
Definition instr_ok (t : SuperscalarInstructionType) (i : Instruction) : Prop :=
  opcode i = type_code t /\ 0 <= dst i < 8 /\ 0 <= src i < 8 /\ is_u8 (mod_ i) /\ is_u32 (imm32 i) /\
  match t with
  | ISUB_R | IXOR_R | IMUL_R => src i <> dst i
  | IADD_RS => src i <> dst i /\ dst i <> RegisterNeedsDisplacement
  | IROR_C => src i = dst i /\ 1 <= imm32 i <= 63
  | IADD_C7 | IADD_C8 | IADD_C9 | IXOR_C7 | IXOR_C8 | IXOR_C9 => src i = dst i
  | IMULH_R | ISMULH_R => True
  | IMUL_RCP => src i = dst i /\ Reciprocal.isZeroOrPowerOf2 (imm32 i) = false
  | INVALID => False
  end.

Definition ss_wf (i : Instruction) : Prop := exists t, instr_ok t i.

Definition mul_count (l : list Instruction) : Z :=
  Z.of_nat (length (filter (fun i => isMultiplication (type_of_code (opcode i)) = true) l)).

(** A finished program: within the size limit of the latency [lat], all of
    its instructions well formed, its multiplications counted, and its
    address register one of highest latency. *)
Definition prog_wf (lat : Z) (p : SuperscalarProgram) : Prop :=
  0 <= size p <= 3 * lat + 2 /\ Z.of_nat (length (program p)) = SuperscalarMaxSize /\
  Forall ss_wf (take (Z.to_nat (size p)) (program p)) /\
  prog_mulCount p = mul_count (take (Z.to_nat (size p)) (program p)) /\
  length (asicLatencies p) = 8%nat /\ 0 <= addrReg p < 8 /\
  asicLatencies p !! Z.to_nat (addrReg p) = Some (asicLatency p) /\
  Forall (fun l => 0 <= l <= asicLatency p) (asicLatencies p).

(** ** The instruction under construction *)

(** What [create] fixes, by type. *)
Definition static (c : SuperscalarInstruction) : Prop :=
  info c = info_of (getType c) /\ is_u8 (si_mod c) /\ is_u32 (si_imm c) /\
  canReuse c = eqt (getType c) IMULH_R || eqt (getType c) ISMULH_R /\
  match getType c with
  | IROR_C => 1 <= si_imm c <= 63
  | IMUL_RCP => Reciprocal.isZeroOrPowerOf2 (si_imm c) = false
  | INVALID => False
  | _ => True
  end.

(** A source is chosen once its macro-op has been issued, and never for the
    instructions without one. *)
Definition src_ok (c : SuperscalarInstruction) (k : Z) : Prop :=
  (srcOp (info c) = -1 -> si_src c = -1) /\ (si_src c = -1 \/ 0 <= si_src c < 8) /\
  (0 <= srcOp (info c) < k -> 0 <= si_src c < 8).

(** Likewise the destination, with the conditions of [selectDestination]. *)
Definition dst_ok (c : SuperscalarInstruction) (k : Z) : Prop :=
  dstOp (info c) < k ->
  0 <= si_dst c < 8 /\ (canReuse c = true \/ si_dst c <> si_src c) /\
  (getType c = IADD_RS -> si_dst c <> RegisterNeedsDisplacement).

Definition cur_ok (c : SuperscalarInstruction) (k : Z) : Prop :=
  static c /\ src_ok c k /\ dst_ok c k.

Definition rows_ok (pb : PortMap) : Prop :=
  Z.of_nat (length pb) = CYCLE_MAP_SIZE /\ Forall (fun row => length row = 3%nat) pb.

Section Generator.
Context {Gen : Type} `{BS : ByteSource Gen} `{BL : !ByteSourceLaws Gen}.

(** The invariant of the generator's loops. *)
Record inv (lat : Z) (s : gstate) : Prop := {
  inv_ports : rows_ok (portBusy s);
  inv_regs : length (registers s) = 8%nat;
  inv_index : 0 <= macroOpIndex s;
  inv_cur : macroOpIndex s < info_size (info (current s)) ->
            cur_ok (current s) (macroOpIndex s) /\ programSize s < 3 * lat + 2;
  inv_cycles : 0 <= cycle s /\ 0 <= depCycle s;
  inv_size : 0 <= programSize s <= 3 * lat + 2;
  inv_throw : 0 <= throwAwayCount s <= MAX_THROWAWAY_COUNT;
  inv_buffer : Z.of_nat (length (programBuffer s)) = SuperscalarMaxSize;
  inv_prog : Forall ss_wf (take (Z.to_nat (programSize s)) (programBuffer s));
  inv_mul : mulCount s = mul_count (take (Z.to_nat (programSize s)) (programBuffer s));
  inv_gen : gen_ok (gen s) }.

(** ** Drawing from the generator *)

Definition slot_ok (c : Z) : Prop := c = 3 \/ c = 4 \/ c = 7 \/ c = 8 \/ c = 9 \/ c = 10.
Definition buffer_ok (b : DecoderBuffer) : Prop :=
  Forall slot_ok (counts b) /\ buffer_size b <= 4.

Lemma buffers_ok : Forall buffer_ok
  [decodeBuffer484; decodeBuffer7333; decodeBuffer3733; decodeBuffer493; decodeBuffer4444;
   decodeBuffer3310].
Proof.
  repeat (apply Forall_cons_2; [split; [|unfold buffer_size; simpl; lia];
    simpl; repeat (apply Forall_cons_2; [unfold slot_ok; lia|]); apply Forall_nil_2|]).
  apply Forall_nil_2.
Qed.

Lemma fetchNext_returns t c m g : gen_ok g ->
  returns (fetchNext t c m g) (fun '(b, g') => buffer_ok b /\ gen_ok g').
Proof.
  intros Hg. pose proof buffers_ok as HB.
  do 6 (apply Forall_cons_1 in HB as [? HB]). unfold fetchNext.
  case_match; [done|]. case_match; [done|]. case_match.
  - eapply returns_use; [by apply getByte_ok|]. intros [b g'] [_ Hg']. simpl. by case_match.
  - unfold fetchNextDefault. eapply returns_use; [by apply getByte_ok|]. intros [b g'] [_ Hg'].
    eapply returns_use; [apply (aget_returns _ _ buffer_ok)|done].
    + pose proof (land_le_r b 3 ltac:(lia)). simpl. lia.
    + unfold decodeBuffers. repeat (apply Forall_cons_2; [done|]). apply Forall_nil_2.
Qed.

(** ** Creating an instruction *)

(** A new instruction has chosen no operands. *)
Definition fresh (c : SuperscalarInstruction) : Prop :=
  static c /\ si_src c = -1 /\ si_dst c = -1.

Lemma fresh_cur_ok c : fresh c -> cur_ok c 0.
Proof.
  intros (Hs & Es & Ed). split_and!; [done| |].
  - split_and!; [done|by left|lia].
  - intros Hd. exfalso. destruct Hs as (Ei & _). rewrite Ei in Hd.
    destruct (getType c); simpl in Hd; lia.
Qed.

Section Fuel.
Context (F : Prop) (fuel : nat).

(** What the two rejection loops do within [fuel] draws: [F] tells whether
    they may also run out of it. *)
Hypothesis draw_rotation_wp : forall g, gen_ok g ->
  wp F (draw_rotation fuel g) (fun '(imm, g') => 1 <= imm <= 63 /\ gen_ok g').
Hypothesis draw_divisor_wp : forall g, gen_ok g ->
  wp F (draw_divisor fuel g)
    (fun '(imm, g') => is_u32 imm /\ Reciprocal.isZeroOrPowerOf2 imm = false /\ gen_ok g').

Lemma create_wp c t g : gen_ok g -> t <> INVALID ->
  wp F (create fuel c t g) (fun '(c', g') => fresh c' /\ getType c' = t /\ gen_ok g').
Proof.
  intros Hg Ht. unfold create.
  assert (is_u8 0 /\ is_u32 0) as [H8 H32] by (unfold is_u8, is_u32; lia).
  destruct t; try done;
    try (eapply wp_use_returns; [by first [apply getByte_ok | apply getUInt32_ok]|];
         intros [w g'] [Hw Hg']; split_and!; done);
    try (simpl; split_and!; done).
  - eapply wp_use; [by apply draw_rotation_wp|]. intros [imm g'] [Hi Hg'].
    unfold fresh, static; simpl. split_and!; try done; unfold is_u32; lia.
  - eapply wp_use; [by apply draw_divisor_wp|]. intros [imm g'] (Hi & Hp & Hg').
    unfold fresh, static; simpl. split_and!; done.
Qed.

Lemma create_from_wp c slot mask g : gen_ok g -> 0 <= mask -> Z.of_nat (length slot) = mask + 1 ->
  Forall (fun t => t <> INVALID) slot ->
  wp F (create_from fuel c slot mask g) (fun '(c', g') => fresh c' /\ gen_ok g').
Proof.
  intros Hg Hm Hl Hs. unfold create_from. eapply wp_use_returns; [by apply getByte_ok|].
  intros [b g'] [_ Hg']. eapply wp_use_returns; [apply aget_returns; [|exact Hs]|].
  - pose proof (land_le_r b mask Hm). lia.
  - intros t Ht. eapply wp_mono; [by apply create_wp|]. intros [c' g''] (? & _ & ?). done.
Qed.

Lemma createForSlot_wp c g slot ft isLast isFirst : gen_ok g -> slot_ok slot ->
  wp F (createForSlot fuel c g slot ft isLast isFirst) (fun '(c', g') => fresh c' /\ gen_ok g').
Proof.
  intros Hg Hs.
  assert (forall t, t <> INVALID -> wp F (create fuel c t g) (fun '(c', g') => fresh c' /\ gen_ok g'))
    as Hc.
  { intros t Ht. eapply wp_mono; [by apply create_wp|]. intros [c' g''] (? & _ & ?). done. }
  destruct Hs as [->|[->|[->|[->|[->| ->]]]]]; unfold createForSlot; cbv match;
    try destruct isLast; try destruct (ft =? 4); cbv match; cbn [andb negb];
    first [by apply Hc | apply create_from_wp; [done|lia|done|
      repeat (apply Forall_cons_2; [done|]); apply Forall_nil_2]].
Qed.

End Fuel.

(** ** Operand selection *)

Lemma available_spec p registers : length registers = 8%nat ->
  Forall (fun i => 0 <= i < 8 /\ exists ri, p i ri = true) (available p registers).
Proof.
  intros Hl. unfold available. apply Forall_join, Forall_lookup_2. intros i x Hx.
  rewrite list_lookup_imap in Hx. destruct (registers !! i) as [ri|] eqn:Ei; [|done].
  simpl in Hx. injection Hx as <-. apply lookup_lt_Some in Ei.
  destruct (p (Z.of_nat i) ri) eqn:Ep; [|apply Forall_nil_2].
  apply Forall_cons_2; [|apply Forall_nil_2]. split; [lia|eauto].
Qed.

Lemma selectRegister_returns (P : Z -> Prop) avail g : gen_ok g -> Forall P avail ->
  returns (selectRegister avail g)
    (fun '(r, g') => gen_ok g' /\ match r with Some x => P x | None => True end).
Proof.
  intros Hg HP. unfold selectRegister. set (n := Z.of_nat (length avail)).
  destruct (Z.eqb_spec n 0); [done|]. destruct (Z.gtb_spec n 1).
  - eapply returns_use with (P := fun '(index, g') => 0 <= index < n /\ gen_ok g').
    + eapply returns_use; [by apply getUInt32_ok|]. intros [w g'] [Hw Hg'].
      simpl. split; [apply Z.mod_pos_bound; lia|done].
    + intros [index g'] [Hi Hg']. eapply returns_use; [by apply aget_returns|]. done.
  - eapply returns_use with (P := fun '(index, g') => 0 <= index < n /\ gen_ok g').
    + simpl. split; [lia|done].
    + intros [index g'] [Hi Hg']. eapply returns_use; [by apply aget_returns|]. done.
Qed.

Lemma selectSource_returns cyc regs c g : length regs = 8%nat -> gen_ok g ->
  returns (selectSource cyc regs c g) (fun '(found, c', g') => gen_ok g' /\
    if found then exists s par, 0 <= s < 8 /\ c' = set_src c s par else c' = c).
Proof.
  intros Hl Hg. unfold selectSource. case_match.
  - simpl. split; [done|]. eexists _, _. split; [|done]. unfold RegisterNeedsDisplacement. lia.
  - eapply returns_use; [apply selectRegister_returns; [done|by apply available_spec]|].
    intros [[s|] g'] [Hg' Hs]; simpl; [|done]. split; [done|]. destruct Hs. eauto.
Qed.

Definition set_dst (c : SuperscalarInstruction) (d : Z) : SuperscalarInstruction :=
  mk_si (info c) (si_src c) d (si_mod c) (si_imm c) (opGroup c) (opGroupPar c)
    (canReuse c) (groupParIsSource c).

Lemma selectDestination_returns cyc allow regs c g : length regs = 8%nat -> gen_ok g ->
  returns (selectDestination cyc allow regs c g) (fun '(found, c', g') => gen_ok g' /\
    if found then exists d, c' = set_dst c d /\ 0 <= d < 8 /\
        (canReuse c = true \/ d <> si_src c) /\
        (getType c = IADD_RS -> d <> RegisterNeedsDisplacement)
    else c' = c).
Proof.
  intros Hl Hg. unfold selectDestination.
  eapply returns_use; [apply selectRegister_returns; [done|by apply available_spec]|].
  intros [[d|] g'] [Hg' Hs]; simpl; [|done]. split; [done|].
  destruct Hs as [Hd [ri Hp]]. exists d. split; [done|]. split; [done|].
  unfold dst_available in Hp. rewrite !andb_true_iff, !orb_true_iff, !negb_true_iff in Hp.
  destruct Hp as [[[[_ Hr] _] _] H5]. split.
  - destruct Hr as [Hr|Hr]; [by left|right]. by apply Z.eqb_neq in Hr.
  - intros Ht. destruct H5 as [H5|H5]; [|by apply Z.eqb_neq in H5].
    rewrite Ht in H5. by apply bool_decide_eq_false_1 in H5.
Qed.

(** A search that succeeds leaves what its [select] left, one that fails
    leaves the instruction as it was; cycles only grow. *)
Lemma look_forward_returns (R : SuperscalarInstruction -> Prop) n select sc cyc c g :
  (forall sc g, gen_ok g -> returns (select sc c g)
     (fun '(found, c', g') => gen_ok g' /\ if (found : bool) then R c' else c' = c)) ->
  gen_ok g ->
  returns (look_forward n select sc cyc c g) (fun '(found, sc', cyc', c', g') =>
    gen_ok g' /\ sc <= sc' /\ cyc <= cyc' /\ if (found : bool) then R c' else c' = c).
Proof.
  intros Hsel. revert sc cyc g. induction n as [|n IH]; intros sc cyc g Hg; simpl.
  { split_and!; done || lia. }
  eapply returns_use; [by apply Hsel|]. intros [[[] c'] g'] [Hg' HR].
  - simpl. split_and!; done || lia.
  - subst c'. eapply returns_mono; [by apply IH|].
    intros [[[[found sc'] cyc'] c'] g''] (? & ? & ? & ?). split_and!; done || lia.
Qed.

(** ** Scheduling *)

Section Ports.
Context (lat : Z).
Hypothesis lat_bound : lat <= RANDOMX_SUPERSCALAR_MAX_LATENCY.

Lemma set_port_returns commit pb row cyc port uop : rows_ok pb -> length row = 3%nat ->
  0 <= cyc < lat + 4 -> 0 <= port < 3 -> returns (set_port commit pb row cyc port uop) rows_ok.
Proof.
  intros [Hl HR] Hrow Hc Hp. unfold set_port. destruct commit; [|done].
  unfold CYCLE_MAP_SIZE in Hl.
  eapply returns_use; [apply (aset_returns row port uop (fun _ => True))|].
  - lia.
  - by apply Forall_true.
  - done.
  - intros row' [Hr' _]. eapply returns_mono; [apply aset_returns; [lia|exact HR|simpl; lia]|].
    intros pb' [Hl' HR']. split; [unfold CYCLE_MAP_SIZE; lia|done].
Qed.

Lemma scheduleUop_returns n commit uop pb cyc : rows_ok pb -> 0 <= cyc ->
  returns (scheduleUop_loop n commit lat uop pb cyc) (fun '(_, pb') => rows_ok pb').
Proof.
  intros Hpb. revert cyc. induction n as [|n IH]; intros cyc Hc; simpl; [done|].
  destruct (Z.ltb_spec cyc (lat + 4)) as [Hlt|Hge]; simpl negb; cbv match; [|done].
  eapply returns_use.
  { apply (aget_returns pb cyc); [|apply Hpb]. destruct Hpb as [Hl _].
    unfold CYCLE_MAP_SIZE in Hl. lia. }
  intros row Hrow. simpl in Hrow.
  assert (forall p, 0 <= p < 3 -> returns (aget row p) (fun _ => True)) as Hget.
  { intros p Hp. apply aget_returns; [lia|by apply Forall_true]. }
  assert (forall p, 0 <= p < 3 -> returns (pb ← set_port commit pb row cyc p uop; mret (cyc, pb))
            (fun '(_, pb') => rows_ok pb')) as Hset.
  { intros p Hp. eapply returns_use; [apply set_port_returns; done || lia|done]. }
  eapply returns_use; [apply Hget; lia|]. intros b2 _. case_match; [apply Hset; lia|].
  eapply returns_use; [apply Hget; lia|]. intros b0 _. case_match; [apply Hset; lia|].
  eapply returns_use; [apply Hget; lia|]. intros b1 _. case_match; [apply Hset; lia|].
  apply IH. lia.
Qed.

Lemma scheduleMop_loop_returns n commit mop pb cyc : rows_ok pb -> 0 <= cyc ->
  returns (scheduleMop_loop n commit lat mop pb cyc) (fun '(_, pb') => rows_ok pb').
Proof.
  intros Hpb. revert cyc. induction n as [|n IH]; intros cyc Hc; cbn [scheduleMop_loop]; [done|].
  destruct (Z.ltb_spec cyc (lat + 4)) as [Hlt|Hge]; simpl negb; cbv match; [|done].
  eapply returns_use; [by apply scheduleUop_returns|]. intros [c1 pb1] _.
  eapply returns_use; [by apply scheduleUop_returns|]. intros [c2 pb2] _.
  destruct (Z.geb_spec c1 0); simpl; [|by apply IH; lia].
  destruct (Z.eqb_spec c1 c2); [|by apply IH; lia]. destruct commit; [|done].
  eapply returns_use; [by apply scheduleUop_returns|]. intros [c3 pb3] H3.
  eapply returns_use; [apply scheduleUop_returns; [done|lia]|]. intros [c4 pb4] H4. done.
Qed.

Lemma scheduleMop_returns commit mop pb cyc dep : rows_ok pb -> 0 <= cyc -> 0 <= dep ->
  returns (scheduleMop commit lat mop pb cyc dep) (fun '(_, pb') => rows_ok pb').
Proof.
  intros Hpb Hc Hd. unfold scheduleMop.
  assert (0 <= if dependent mop then if cyc >? dep then cyc else dep else cyc) as Hc'.
  { by repeat case_match. }
  revert Hc'. generalize (if dependent mop then if cyc >? dep then cyc else dep else cyc) as c'.
  intros c' Hc'. destruct (isEliminated mop); [done|].
  destruct (isSimple mop); [by apply scheduleUop_returns|by apply scheduleMop_loop_returns].
Qed.

(** ** One iteration *)

Lemma cur_ok_mono c k k' : k <= k' -> cur_ok c k' -> cur_ok c k.
Proof.
  intros Hk (Hs & (H1 & H2 & H3) & Hd). split; [done|]. split.
  - split; [done|]. split; [done|]. intros ?. apply H3. lia.
  - intros ?. apply Hd. lia.
Qed.

Lemma u8_reg x : 0 <= x < 8 -> u8 x = x.
Proof. intros. apply u8_id. unfold is_u8. lia. Qed.

(** A finished instruction is well formed. *)
Lemma toInstr_ok c : cur_ok c (info_size (info c)) -> instr_ok (getType c) (toInstr c).
Proof.
  intros ((Ei & Hm & Himm & Hr & Ht) & (S1 & S2 & S3) & Hd).
  rewrite Ei in Hd, S1, S3. unfold dst_ok, instr_ok, toInstr in *. rewrite Ei in Hd. simpl in *.
  assert (dstOp (info_of (getType c)) < info_size (info_of (getType c))) as Hlt.
  { destruct (getType c); done || (unfold info_size; simpl; lia). }
  destruct (Hd Hlt) as (Hdst & Hne & H5). clear Hd Hlt.
  rewrite (u8_reg (si_dst c)), (u8_id (si_mod c)), (u32_id (si_imm c)) by done.
  assert (0 <= (if si_src c >=? 0 then si_src c else si_dst c) < 8) as Hsrc.
  { destruct (Z.geb_spec (si_src c) 0); lia. }
  rewrite (u8_reg _ Hsrc).
  destruct (getType c); try (destruct Ht; fail); simpl in S1, S3;
    try specialize (S3 ltac:(unfold info_size; simpl; lia)); try specialize (S1 eq_refl);
    (destruct Hne as [Hne|Hne]; [rewrite Hr in Hne; cbv in Hne; try discriminate Hne|]);
    destruct (Z.geb_spec (si_src c) 0); try lia;
    split_and!; try done; try lia; by apply H5.
Qed.

Lemma opcode_type t i : instr_ok t i -> type_of_code (opcode i) = t.
Proof. intros (-> & _ & _ & _ & _ & H). by destruct t. Qed.

Lemma mul_count_snoc l i : mul_count (l ++ [i]) =
  mul_count l + (if isMultiplication (type_of_code (opcode i)) then 1 else 0).
Proof.
  unfold mul_count. rewrite filter_app, length_app. rewrite filter_cons, filter_nil.
  case_decide as E; [rewrite E|apply not_true_is_false in E; rewrite E]; simpl; lia.
Qed.

Lemma take_insert_last {A} (l : list A) n x : (n < length l)%nat ->
  take (S n) (<[n := x]> l) = take n l ++ [x].
Proof.
  intros Hn. rewrite (take_S_r _ _ x); [|by apply list_lookup_insert_eq].
  by rewrite take_insert_ge by lia.
Qed.

Lemma ops_latency t mop : mop ∈ ops (info_of t) -> 0 <= mop_latency mop.
Proof.
  intros H. destruct t; simpl in H; repeat (apply elem_of_cons in H as [->|H]; [simpl; lia|]);
    by apply elem_of_nil in H.
Qed.

(** The state after the operand searches, apart from its instruction. *)
Lemma inv_set s c k g cyc : inv lat s -> gen_ok g -> 0 <= k -> 0 <= cyc ->
  (k < info_size (info c) -> cur_ok c k /\ programSize s < 3 * lat + 2) ->
  inv lat (set_cycle (set_current s c k g) cyc).
Proof. intros [] ? ? ? ?. split; simpl; try done. by destruct inv_cycles0. Qed.

Lemma inv_throw_away s : inv lat s ->
  let '(ctl, s') := throw_away s in inv lat s' /\
    (ctl = Next -> throwAwayCount s' = throwAwayCount s + 1 /\ throwAwayCount s < MAX_THROWAWAY_COUNT).
Proof.
  intros []. unfold throw_away. destruct (Z.ltb_spec (throwAwayCount s) MAX_THROWAWAY_COUNT); simpl.
  - split; [|done]. split; simpl; try done; try lia. unfold info_size. lia.
  - split; [|done]. split; simpl; try done. unfold info_size. simpl. lia.
Qed.

Lemma set_cycle_current_id (s : gstate (Gen := Gen)) :
  s = set_cycle (set_current s (current s) (macroOpIndex s) (gen s)) (cycle s).
Proof. by destruct s. Qed.

(** A search for an operand ends the iteration by throwing the instruction
    away, or goes on with only the instruction, the generator and the cycles
    changed. *)
Lemma find_operand_returns (R : SuperscalarInstruction -> Prop) op select s sc :
  inv lat s -> 0 <= sc ->
  (forall sc g, gen_ok g -> returns (select sc (current s) g)
     (fun '(found, c', g') => gen_ok g' /\ if (found : bool) then R c' else c' = current s)) ->
  returns (find_operand op select s sc) (fun r =>
    match r with
    | inl (ctl, s') => inv lat s' /\
        (ctl = Next -> throwAwayCount s' = throwAwayCount s + 1 /\
                       throwAwayCount s < MAX_THROWAWAY_COUNT)
    | inr (s', sc') => exists c g cyc, s' = set_cycle (set_current s c (macroOpIndex s) g) cyc /\
        gen_ok g /\ 0 <= cyc /\ 0 <= sc' /\
        (if macroOpIndex s =? op then R c else c = current s)
    end).
Proof.
  intros Hinv Hsc Hsel. unfold find_operand. destruct (macroOpIndex s =? op) eqn:Eop.
  2:{ simpl. exists (current s), (gen s), (cycle s). pose proof Hinv as [].
      split; [apply set_cycle_current_id|]. split_and!; done || apply inv_cycles0. }
  eapply returns_use; [apply (look_forward_returns R); [exact Hsel|apply Hinv]|].
  intros [[[[found sc'] cyc] c] g] (Hg & Hsc' & Hcyc & HR). pose proof Hinv as []. destruct found.
  - simpl. exists c, g, cyc. split; [done|]. split_and!; done || lia.
  - subst c. cbn [returns mret result_ret].
    assert (inv lat (set_cycle (set_current s (current s) (macroOpIndex s) g) cyc)) as Hs'.
    { apply inv_set; try done. lia. }
    by apply inv_throw_away in Hs'.
Qed.

(** The end of an iteration: committing the macro-op, retiring its result and
    appending the instruction when it is complete. *)
Lemma issue_returns s mop top sc b :
  inv lat s -> macroOpIndex s < info_size (info (current s)) ->
  cur_ok (current s) (macroOpIndex s + 1) -> mop ∈ ops (info (current s)) ->
  programSize s < 3 * lat + 2 -> 0 <= sc -> 0 <= top ->
  returns (issue lat mop top s sc b) (fun '(ctl, s', b') => inv lat s' /\
    (ctl = Next -> b' = b + 1 /\ throwAwayCount s' = 0)).
Proof.
  intros Hinv Hk Hc Hmop Hps Hsc Htop. unfold issue.
  assert (0 <= mop_latency mop) as Hlat.
  { destruct Hc as ((Ei & _) & _). rewrite Ei in Hmop. by eapply ops_latency. }
  eapply returns_use; [apply scheduleMop_returns; [apply Hinv|done|done]|].
  intros [sc' pb] Hpb. destruct (Z.ltb_spec sc' 0) as [Hn|Hn].
  { simpl. split; [|done]. destruct Hinv. by split. }
  eapply returns_use with (P := fun '(regs, rc) => length regs = 8%nat).
  { unfold retire. simpl. destruct (Z.eqb_spec (macroOpIndex s) (resultOp (info (current s)))) as [Er|Er];
      [|simpl; apply Hinv].
    eapply returns_use; [apply (aset_returns _ _ _ (fun _ => True))|].
    - destruct Hc as ((Ei & _ & _ & _ & Ht) & _ & Hd).
      assert (dstOp (info (current s)) < macroOpIndex s + 1) as Hd'.
      { rewrite Er, Ei. destruct (getType (current s)); simpl; done || lia. }
      destruct (Hd Hd') as [Hd1 _]. pose proof (inv_regs _ _ Hinv). lia.
    - by apply Forall_true.
    - done.
    - intros regs [Hl _]. simpl. pose proof (inv_regs _ _ Hinv). lia. }
  intros [regs rc] Hregs. cbn [macroOpIndex current set_throwAway programSize].
  destruct (Z.geb_spec (macroOpIndex s + 1) (info_size (info (current s)))) as [Hfin|Hfin].
  - assert (macroOpIndex s + 1 = info_size (info (current s))) as Ek by lia.
    rewrite Ek in Hc. pose proof (toInstr_ok _ Hc) as Hi. destruct Hinv.
    cbn [programBuffer set_throwAway].
    assert (0 <= programSize s < Z.of_nat (length (programBuffer s))) as Hps'.
    { rewrite inv_buffer0. unfold SuperscalarMaxSize in *. lia. }
    rewrite aset_ok by done. simpl. split; [|done].
    assert (Z.to_nat (programSize s + 1) = S (Z.to_nat (programSize s))) as En by lia.
    split; simpl; rewrite ?En, ?length_insert, ?take_insert_last by lia; try done; try lia.
    + apply Forall_app. split; [done|]. apply Forall_cons_2; [by eexists|apply Forall_nil_2].
    + by rewrite mul_count_snoc, (opcode_type _ _ Hi), <- inv_mul0.
  - simpl. split; [|done]. destruct Hinv. split; simpl; try done; lia.
Qed.

(** ** The loops *)

Section Loops.
Context (F : Prop) (fuel : nat).
Hypothesis draw_rotation_wp : forall g, gen_ok g ->
  wp F (draw_rotation fuel g) (fun '(imm, g') => 1 <= imm <= 63 /\ gen_ok g').
Hypothesis draw_divisor_wp : forall g, gen_ok g ->
  wp F (draw_divisor fuel g)
    (fun '(imm, g') => is_u32 imm /\ Reciprocal.isZeroOrPowerOf2 imm = false /\ gen_ok g').

Lemma fresh_size c : fresh c -> 0 < info_size (info c).
Proof.
  intros ((Ei & _ & _ & _ & Ht) & _). rewrite Ei. unfold info_size.
  destruct (getType c); simpl; done || lia.
Qed.

Lemma pick_wp buf s b : inv lat s -> buffer_ok buf -> 0 <= b < buffer_size buf ->
  wp F (pick_instruction fuel lat buf s b) (fun r =>
    match r with
    | None => True
    | Some s' => inv lat s' /\ macroOpIndex s' < info_size (info (current s')) /\
                 throwAwayCount s' = throwAwayCount s
    end).
Proof.
  intros Hinv [Hb _] Hi. unfold pick_instruction.
  destruct (Z.geb_spec (macroOpIndex s) (info_size (info (current s)))) as [Hge|Hlt]; [|by split].
  destruct (portsSaturated s || (programSize s >=? 3 * lat + 2)) eqn:Ep; [done|].
  apply orb_false_iff in Ep as [_ Ep]. rewrite Z.geb_leb in Ep. apply Z.leb_gt in Ep.
  eapply wp_use_returns; [apply aget_returns; [exact Hi|exact Hb]|]. intros slot Hslot.
  eapply wp_use; [apply createForSlot_wp; [done|done|apply Hinv|done]|]. intros [c g] [Hc Hg].
  simpl. split; [|by split; [apply fresh_size|]].
  destruct Hinv. split; simpl; try done. intros _. split; [by apply fresh_cur_ok|done].
Qed.

(** A found source completes [src_ok] for the current macro-op. *)
Lemma set_src_ok c k s par : cur_ok c k -> k = srcOp (info c) -> 0 <= k -> 0 <= s < 8 ->
  static (set_src c s par) /\ src_ok (set_src c s par) (k + 1) /\ dst_ok (set_src c s par) k.
Proof.
  intros ((Ei & Hs) & (S1 & S2 & S3) & Hd) Ek Hk Hsr. split; [by split|]. split.
  - split; simpl; [intros; exfalso; lia|]. split; [by right|done].
  - intros Hlt. simpl in *. destruct (Hd Hlt) as (Hd1 & Hd2 & Hd3). split; [done|]. split; [|done].
    left. destruct Hs as (_ & _ & -> & Ht). rewrite Ei in Ek, Hlt.
    destruct (getType c); simpl in *; done || lia.
Qed.

Lemma src_ok_skip c k : src_ok c k -> k <> srcOp (info c) -> src_ok c (k + 1).
Proof. intros (S1 & S2 & S3) Hk. split; [done|]. split; [done|]. intros ?. apply S3. lia. Qed.

Definition measure (buf : DecoderBuffer) (s : gstate (Gen := Gen)) (b : Z) : Z :=
  (buffer_size buf - b) * 257 + (MAX_THROWAWAY_COUNT - throwAwayCount s).

(** Every iteration keeps the invariant, and one that does not leave the loop
    lowers the measure: it fills a slot or throws an instruction away. *)
Lemma slot_step_wp buf s b : inv lat s -> buffer_ok buf -> 0 <= b < buffer_size buf ->
  wp F (slot_step fuel lat buf s b) (fun '(ctl, s', b') => inv lat s' /\
    (ctl = Next -> 0 <= b' <= buffer_size buf /\ measure buf s' b' < measure buf s b)).
Proof.
  intros Hinv Hbuf Hb. unfold slot_step.
  assert (0 <= cycle s) as Htop by apply Hinv.
  eapply wp_use; [by apply pick_wp|]. intros [s1|] H1; [|by split].
  destruct H1 as (Hinv1 & Hk & Hthrow). pose proof Hinv1 as [Hports Hregs Hidx Hcur Hcyc _ _ _ _ _ Hgen].
  destruct (Hcur Hk) as [Hc Hps].
  eapply wp_use_returns.
  { apply aget_returns; [|apply (Forall_forall (fun m => m ∈ ops (info (current s1)))); auto].
    unfold info_size in Hk. lia. }
  intros mop Hmop. eapply wp_use_returns; [apply scheduleMop_returns; [done|lia|lia]|].
  intros [sc ?] _. destruct (Z.ltb_spec sc 0) as [Hn|Hn].
  { simpl. split; [|done]. destruct Hinv1. by split. }
  eapply wp_use_returns.
  { apply (find_operand_returns (fun c' => exists sr par, 0 <= sr < 8 /\ c' = set_src (current s1) sr par));
      [done|lia|]. intros. by apply selectSource_returns. }
  intros [[ctl s2]|[s2 sc2]].
  { intros [Hinv2 Hm]. simpl. split; [done|]. intros Hn'. destruct (Hm Hn').
    unfold measure. lia. }
  intros (c2 & g2 & cyc2 & -> & Hg2 & Hcyc2 & Hsc2 & HR).
  assert (static c2 /\ src_ok c2 (macroOpIndex s1 + 1) /\ dst_ok c2 (macroOpIndex s1) /\
          info c2 = info (current s1)) as (Hst & Hsrc & Hdst & Einfo).
  { destruct (Z.eqb_spec (macroOpIndex s1) (srcOp (info (current s1)))) as [Ek|Ek].
    - destruct HR as (sr & par & Hsr & ->).
      destruct (set_src_ok _ _ sr par Hc Ek Hidx Hsr) as (? & ? & ?). done.
    - subst c2. destruct Hc as (? & ? & ?). split_and!; try done. by apply src_ok_skip. }
  set (s2 := set_cycle (set_current s1 c2 (macroOpIndex s1) g2) cyc2) in *.
  assert (inv lat s2) as Hinv2.
  { apply inv_set; try done. intros _. split; [|done]. split; [done|]. split; [|done].
    destruct Hsrc as (S1 & S2 & S3). split; [done|]. split; [done|]. intros ?. apply S3. lia. }
  eapply wp_use_returns.
  { apply (find_operand_returns (fun c' => exists d, c' = set_dst c2 d /\ 0 <= d < 8 /\
        (canReuse c2 = true \/ d <> si_src c2) /\
        (getType c2 = IADD_RS -> d <> RegisterNeedsDisplacement))); [done|lia|].
    intros. by apply selectDestination_returns. }
  intros [[ctl s3]|[s3 sc3]].
  { intros [Hinv3 Hm]. simpl. split; [done|]. intros Hn'. destruct (Hm Hn') as [E ?].
    unfold measure. rewrite E. simpl in *. lia. }
  intros (c3 & g3 & cyc3 & -> & Hg3 & Hcyc3 & Hsc3 & HR3).
  assert (cur_ok c3 (macroOpIndex s1 + 1) /\ info c3 = info (current s1)) as [Hc3 Einfo3].
  { simpl in HR3. destruct (Z.eqb_spec (macroOpIndex s1) (dstOp (info c2))) as [Ek|Ek].
    - destruct HR3 as (d & -> & Hd). split; [|done]. split; [done|]. split; [done|]. intros _. apply Hd.
    - subst c3. split; [|done]. split; [done|]. split; [done|]. intros ?. apply Hdst. lia. }
  assert (inv lat (set_cycle (set_current s2 c3 (macroOpIndex s2) g3) cyc3)) as Hinv3.
  { apply inv_set; try done. intros _. split; [|done]. eapply cur_ok_mono; [|exact Hc3]. simpl. lia. }
  apply wp_returns. eapply returns_mono.
  { apply issue_returns; simpl; try done; by rewrite Einfo3. }
  intros [[ctl s4] b4] [Hinv4 Hm]. split; [done|]. intros Hn'. destruct (Hm Hn') as [-> E].
  unfold measure. rewrite E, <- Hthrow. pose proof (inv_throw _ _ Hinv1) as Ht. unfold MAX_THROWAWAY_COUNT in *. lia.
Qed.

Lemma slot_loop_wp n buf s b : inv lat s -> buffer_ok buf -> 0 <= b <= buffer_size buf ->
  measure buf s b <= Z.of_nat n -> wp F (slot_loop n fuel lat buf s b) (inv lat).
Proof.
  revert s b. induction n as [|n IH]; intros s b Hinv Hbuf Hb Hm; cbn [slot_loop].
  - destruct (Z.ltb_spec b (buffer_size buf)); [|done].
    unfold measure in Hm. pose proof (inv_throw _ _ Hinv). lia.
  - destruct (Z.ltb_spec b (buffer_size buf)); [|done].
    eapply wp_use; [apply slot_step_wp; done || lia|].
    intros [[[] s'] b'] [Hinv' Hn]; [|done]. destruct (Hn eq_refl). apply IH; done || lia.
Qed.

Lemma decode_loop_wp n s dc : inv lat s ->
  wp F (decode_loop n fuel lat s dc) (fun '(s', _) => inv lat s').
Proof.
  revert s dc. induction n as [|n IH]; intros s dc Hinv; cbn [decode_loop]; [done|].
  case_match; [|done]. eapply wp_use_returns; [by apply fetchNext_returns; apply Hinv|].
  intros [buf g] [Hbuf Hg].
  assert (inv lat (set_current s (current s) (macroOpIndex s) g)) as Hinv' by (destruct Hinv; by split).
  eapply wp_use; [apply slot_loop_wp; [done|done|unfold buffer_size; lia|]|].
  - unfold measure, slot_rounds, MAX_THROWAWAY_COUNT. destruct Hbuf as [_ Hsz]. simpl.
    pose proof (inv_throw _ _ Hinv). lia.
  - intros s' Hs'. apply IH. destruct Hs'. split; try done. simpl. lia.
Qed.

End Loops.

End Ports.

(** ** The whole generator *)

Lemma draw_rotation_safe fuel g : gen_ok g ->
  safe (draw_rotation fuel g) (fun '(imm, g') => 1 <= imm <= 63 /\ gen_ok g').
Proof.
  revert g. induction fuel as [|fuel IH]; intros g Hg; cbn [draw_rotation]; [done|].
  apply (wp_use_returns True) with (1 := getByte_ok g Hg). intros [b g'] [_ Hg'].
  pose proof (land_le_r b 63 ltac:(lia)). destruct (Z.eqb_spec (Z.land b 63) 0); [by apply IH|].
  simpl. split; [lia|done].
Qed.

Lemma draw_divisor_safe fuel g : gen_ok g ->
  safe (draw_divisor fuel g)
    (fun '(imm, g') => is_u32 imm /\ Reciprocal.isZeroOrPowerOf2 imm = false /\ gen_ok g').
Proof.
  revert g. induction fuel as [|fuel IH]; intros g Hg; cbn [draw_divisor]; [done|].
  apply (wp_use_returns True) with (1 := getUInt32_ok g Hg). intros [w g'] [Hw Hg'].
  destruct (Reciprocal.isZeroOrPowerOf2 w) eqn:E; [by apply IH|done].
Qed.

Lemma asic_loop_returns n prog lats k : 0 <= k ->
  Forall ss_wf (take (Z.to_nat k + n) prog) -> (Z.to_nat k + n <= length prog)%nat ->
  length lats = 8%nat -> Forall (Z.le 0) lats ->
  returns (asic_loop n prog lats k) (fun l => length l = 8%nat /\ Forall (Z.le 0) l).
Proof.
  revert lats k. induction n as [|n IH]; intros lats k Hk Hwf Hn Hl Hpos; cbn [asic_loop]; [done|].
  assert (exists i, aget prog k = Ok i /\ ss_wf i) as (i & Ei & t & _ & Hd & Hs & _).
  { destruct (aget_total prog k) as (i & Ei & Hi); [lia|]. exists i. split; [done|].
    apply (Forall_lookup_1 _ _ (Z.to_nat k) _ Hwf). rewrite lookup_take_lt by lia. exact Hi. }
  eapply returns_use with (P := fun l => length l = 8%nat /\ Forall (Z.le 0) l).
  - unfold asic_step. rewrite Ei. cbn [mbind result_bind].
    eapply returns_use; [apply aget_returns; [|exact Hpos]; lia|]. intros ld Hld.
    eapply returns_use; [apply aget_returns; [|exact Hpos]; lia|]. intros ls Hls.
    eapply returns_mono; [apply aset_returns; [|exact Hpos|]; [lia|repeat case_match; lia]|].
    intros l [-> ?]. done.
  - intros l [Hl' Hpos']. apply IH; try done; try lia.
    by replace (Z.to_nat (k + 1) + n)%nat with (Z.to_nat k + S n)%nat by lia.
Qed.

Lemma address_register_spec lats : Forall (Z.le 0) lats ->
  let '(mx, reg) := address_register lats in
  0 <= mx /\ Forall (fun l => 0 <= l <= mx) lats /\
  (lats <> [] -> 0 <= reg < Z.of_nat (length lats) /\ lats !! Z.to_nat reg = Some mx) /\
  (lats = [] -> mx = 0 /\ reg = 0).
Proof.
  induction lats as [|x l IH] using rev_ind; intros Hpos.
  { simpl. split_and!; try done. }
  apply Forall_app in Hpos as [Hpos Hx]. specialize (IH Hpos).
  apply Forall_cons_1 in Hx as [Hx _].
  unfold address_register in *. rewrite imap_app, foldl_app. cbn [imap foldl].
  destruct (foldl _ _ _) as [mx reg]. destruct IH as (H0 & Hle & Hne & Hnil). simpl.
  rewrite length_app. simpl. destruct (Z.gtb_spec x mx) as [Hgt|Hgt].
  - split; [lia|]. split; [|split].
    + apply Forall_app. split; [|apply Forall_cons_2; [lia|apply Forall_nil_2]].
      eapply Forall_impl; [exact Hle|]. simpl. lia.
    + intros _. split; [lia|]. rewrite lookup_app_r by lia.
      by replace (Z.to_nat (Z.of_nat (length l + 0)) - length l)%nat with 0%nat by lia.
    + intros E. by apply app_nil in E as [_ E].
  - split; [done|]. split; [|split].
    + apply Forall_app. split; [done|apply Forall_cons_2; [lia|apply Forall_nil_2]].
    + intros _. destruct l as [|y l].
      * destruct (Hnil eq_refl) as [-> ->]. simpl. split; [lia|]. f_equal. lia.
      * destruct Hne as [Hr Hlk]; [done|]. split; [lia|]. by rewrite lookup_app_l by lia.
    + intros E. by apply app_nil in E as [_ E].
Qed.

Lemma inv_init lat buf g : 0 <= lat -> Z.of_nat (length buf) = SuperscalarMaxSize -> gen_ok g ->
  inv lat (gstate_init buf g).
Proof.
  intros Hlat Hbuf Hg. split; try done.
  - split; [reflexivity|]. by apply (Forall_replicate _ _ [0; 0; 0]).
  - simpl. lia.
Qed.

Lemma generate_wp F fuel lat prog g :
  (forall g, gen_ok g -> wp F (draw_rotation fuel g) (fun _ => True)) ->
  (forall g, gen_ok g -> wp F (draw_divisor fuel g) (fun _ => True)) ->
  0 <= lat <= RANDOMX_SUPERSCALAR_MAX_LATENCY ->
  Z.of_nat (length (program prog)) = SuperscalarMaxSize -> gen_ok g ->
  wp F (generateSuperscalar fuel lat prog g) (fun '(p, g') => prog_wf lat p /\ gen_ok g').
Proof.
  intros Hr Hd Hlat Hbuf Hg. unfold generateSuperscalar.
  eapply wp_use; [apply decode_loop_wp; [lia| | |apply inv_init; done || lia]|].
  - intros g' Hg'. specialize (Hr g' Hg'). pose proof (draw_rotation_safe fuel g' Hg') as Hs.
    by destruct (draw_rotation fuel g').
  - intros g' Hg'. specialize (Hd g' Hg'). pose proof (draw_divisor_safe fuel g' Hg') as Hs.
    by destruct (draw_divisor fuel g').
  - intros [s dc] Hinv. pose proof Hinv as [].
    assert (Z.to_nat (programSize s) <= length (programBuffer s))%nat as Hsz.
    { unfold SuperscalarMaxSize in *. lia. }
    eapply wp_use_returns; [apply asic_loop_returns; try done; by apply (Forall_replicate (Z.le 0) 8 0)|]. intros lats [Hl Hpos].
    pose proof (address_register_spec lats Hpos) as HA. destruct (address_register lats) as [mx reg].
    destruct HA as (H0 & Hle & Hne & _). destruct Hne as [Hreg Hlk]; [by destruct lats|].
    rewrite Hl in Hreg. simpl. by split_and!.
Qed.

(** C11: for every generator, fuel and latency up to the maximum, the
    superscalar generator stays inside its arrays, never reaches an
    [UNREACHABLE] branch, and any program it returns is well formed. *)
Theorem generateSuperscalar_safe fuel lat prog g :
  0 <= lat <= RANDOMX_SUPERSCALAR_MAX_LATENCY ->
  Z.of_nat (length (program prog)) = SuperscalarMaxSize -> gen_ok g ->
  safe (generateSuperscalar fuel lat prog g) (fun '(p, g') => prog_wf lat p /\ gen_ok g').
Proof.
  intros Hlat Hbuf Hg. apply (generate_wp True); try done; intros g' Hg'.
  - eapply safe_mono; [by apply draw_rotation_safe|done].
  - eapply safe_mono; [by apply draw_divisor_safe|done].
Qed.

(** The generator terminates: its bounded loops never run out of the
    rounds they are given, so it returns whenever the two loops that redraw a
    rotation or a divisor finish within [fuel] draws. *)
Theorem generateSuperscalar_terminates fuel lat prog g :
  (forall g', gen_ok g' -> returns (draw_rotation fuel g') (fun _ => True) /\
                           returns (draw_divisor fuel g') (fun _ => True)) ->
  0 <= lat <= RANDOMX_SUPERSCALAR_MAX_LATENCY ->
  Z.of_nat (length (program prog)) = SuperscalarMaxSize -> gen_ok g ->
  exists p g', generateSuperscalar fuel lat prog g = Ok (p, g') /\ prog_wf lat p.
Proof.
  intros Hdraw Hlat Hbuf Hg.
  pose proof (generate_wp False fuel lat prog g) as H.
  destruct (generateSuperscalar fuel lat prog g) as [[p g']| |].
  - exists p, g'. split; [done|]. apply H; try done; intros; by apply Hdraw.
  - exfalso. apply H; try done; intros; by apply Hdraw.
  - exfalso. apply H; try done; intros; by apply Hdraw.
Qed.

End Generator.

(** ** Instances of the hypotheses *)

(** An uninitialised program, and the generator of a key. *)
Definition blank : SuperscalarProgram :=
  mk_prog (replicate 770 (mk_instr 0 0 0 0 0)) 0 0 0 0 0 0 0 0 [] [].
Definition key_gen (key : list Z) : Blake2Generator.Blake2Generator :=
  Blake2Generator.make key (Z.of_nat (length key)) 0.

Lemma generateSuperscalar_safe_witness :
  gen_ok (key_gen [1; 2; 3]) /\
  safe (generateSuperscalar 64 170 blank (key_gen [1; 2; 3]))
    (fun '(p, g') => prog_wf 170 p /\ gen_ok g').
Proof.
  assert (gen_ok (key_gen [1; 2; 3])) as Hg.
  { apply Blake2Generator.make_ok; [|reflexivity]. repeat constructor; unfold is_u8; lia. }
  split; [exact Hg|]. apply (generateSuperscalar_safe 64 170 blank (key_gen [1; 2; 3]));
    [unfold RANDOMX_SUPERSCALAR_MAX_LATENCY; lia|reflexivity|exact Hg].
Defined.

(** A source of odd numbers, whose draws are never rejected. *)
Definition OddSource : Type := Z.
#[local] Instance odd_source : ByteSource OddSource :=
  {| getByte := fun n => Ok (u8 (2 * n + 1), n + 1);
     getUInt32 := fun n => Ok (2 * (n mod 1000) + 3, n + 1) |}.
#[local] Instance odd_source_laws : ByteSourceLaws OddSource.
Proof.
  refine {| gen_ok := fun n => 0 <= n |}.
  - intros n Hn. simpl. split; [apply u8_range|lia].
  - intros n Hn. simpl. pose proof (Z.mod_pos_bound n 1000 ltac:(lia)). unfold is_u32. split; lia.
Defined.

Lemma land_odd_pred a : Z.land (2 * a + 1) (2 * a) = 2 * a.
Proof.
  apply Z.bits_inj'. intros n Hn. rewrite Z.land_spec.
  destruct (Z.eq_dec n 0) as [->|]; [by rewrite Z.testbit_even_0, andb_false_r|].
  replace n with (Z.succ (n - 1)) by lia.
  rewrite Z.testbit_odd_succ, Z.testbit_even_succ by lia. apply andb_diag.
Qed.

Lemma odd_draws g : 0 <= g ->
  returns (draw_rotation (Gen := OddSource) 1 g) (fun _ => True) /\
  returns (draw_divisor (Gen := OddSource) 1 g) (fun _ => True).
Proof.
  intros Hg. split; simpl.
  - destruct (Z.eqb_spec (Z.land (u8 (2 * g + 1)) 63) 0) as [E|]; [|done].
    apply (f_equal (fun x => Z.testbit x 0)) in E. unfold u8 in E.
    by rewrite !Z.land_spec, Z.testbit_odd_0 in E.
  - pose proof (Z.mod_pos_bound g 1000 ltac:(lia)) as Hm. set (k := g mod 1000) in *.
    unfold Reciprocal.isZeroOrPowerOf2, sub64.
    rewrite u64_id by (unfold is_u64; lia).
    replace (2 * k + 3) with (2 * (k + 1) + 1) by lia.
    replace (2 * (k + 1) + 1 - 1) with (2 * (k + 1)) by lia. rewrite land_odd_pred.
    by rewrite (proj2 (Z.eqb_neq _ _)) by lia.
Qed.

Lemma generateSuperscalar_terminates_witness :
  exists p g', generateSuperscalar (Gen := OddSource) 1 170 blank 0 = Ok (p, g') /\ prog_wf 170 p.
Proof.
  apply (generateSuperscalar_terminates (Gen := OddSource) 1 170 blank 0).
  - intros g' Hg'. apply odd_draws. exact Hg'.
  - unfold RANDOMX_SUPERSCALAR_MAX_LATENCY. lia.
  - reflexivity.
  - simpl. lia.
Defined.

(** The bytes of an instruction in memory. *)
Definition instr_bytes (i : Instruction) : list Z :=
  [opcode i; dst i; src i; mod_ i] ++ store_le 4 (imm32 i).

(** The first program of the key [test key 000] of the RandomX test suite: its
    size and the first bytes of the BLAKE2b hash of its instructions. *)
Example superscalar_test_key_000 :
  match generateSuperscalar 64 170 blank
          (key_gen [0x74; 0x65; 0x73; 0x74; 0x20; 0x6b; 0x65; 0x79; 0x20; 0x30; 0x30; 0x30]) with
  | Ok (p, _) => Some (size p, addrReg p, take 8 (Blake2b.RFC_blake2b 32 []
                   (mjoin (instr_bytes <$> take (Z.to_nat (size p)) (program p)))))
  | _ => None
  end = Some (447, 4, [0xd3; 0xa4; 0xa6; 0x62; 0x37; 0x38; 0x75; 0x6f]).
Proof. vm_cast_no_check (eq_refl (Some (447, 4, [0xd3; 0xa4; 0xa6; 0x62; 0x37; 0x38; 0x75; 0x6f]))). Qed.

(** ** Execution *)

Section Execution.

Lemma exec_instr_returns r i : ss_wf i -> length r = 8%nat -> Forall is_u64 r ->
  returns (exec_instr r i) (fun r' => length r' = 8%nat /\ Forall is_u64 r').
Proof.
  intros [t Hi] Hl Hr. pose proof (opcode_type t i Hi) as Et.
  destruct Hi as (_ & Hd & Hs & _ & Himm & Ht). unfold exec_instr.
  eapply returns_use; [apply aget_returns; [|exact Hr]; lia|]. intros d Hdv.
  eapply returns_use; [apply aget_returns; [|exact Hr]; lia|]. intros s Hsv. rewrite Et.
  assert (forall x, is_u64 x -> returns (aset r (dst i) x)
    (fun r' => length r' = 8%nat /\ Forall is_u64 r')) as Hset.
  { intros x Hx. eapply returns_mono; [apply aset_returns; [|exact Hr|exact Hx]; lia|].
    intros r' [-> ?]. done. }
  assert (is_u64 (signExtend2sCompl (getImm32 i))) as Hsx by apply u64_range.
  destruct t; try (apply Hset; eauto with word; fail); [apply Hset| |done].
  - apply Reciprocal.rotr64_range; [done|]. unfold getImm32. lia.
  - destruct Ht as [_ Hp]. unfold getImm32.
    destruct (Z.eqb_spec (imm32 i) 0) as [E|E]; [by rewrite E in Hp|].
    simpl. apply Hset. apply mul64_range.
Qed.

Lemma executeSuperscalar_returns lat p r : prog_wf lat p -> lat <= RANDOMX_SUPERSCALAR_MAX_LATENCY ->
  length r = 8%nat -> Forall is_u64 r ->
  returns (executeSuperscalar r p) (fun r' => length r' = 8%nat /\ Forall is_u64 r').
Proof.
  intros (Hsz & Hlen & Hwf & _) Hlat Hl Hr. unfold executeSuperscalar.
  unfold SuperscalarMaxSize in Hlen.
  assert (forall n k r, 0 <= k -> k + Z.of_nat n = size p -> length r = 8%nat -> Forall is_u64 r ->
    returns (exec_loop n (program p) r k) (fun r' => length r' = 8%nat /\ Forall is_u64 r')) as Hloop.
  { clear r Hl Hr. induction n as [|n IH]; intros k r Hk Hn Hl Hr; cbn [exec_loop]; [done|].
    destruct (aget_total (program p) k) as (i & -> & Hi); [lia|]. cbn [mbind result_bind].
    eapply returns_use; [apply exec_instr_returns; [|done|done]|].
    - apply (Forall_lookup_1 _ _ (Z.to_nat k) _ Hwf). rewrite lookup_take_lt by lia. exact Hi.
    - intros r' [? ?]. apply IH; done || lia. }
  apply Hloop; done || lia.
Qed.

(** A well-formed program runs to its end on any eight 64-bit registers:
    every operand is a register, no opcode is unknown, no reciprocal of zero
    is taken, and the results are again eight 64-bit words. *)
Theorem executeSuperscalar_total lat p r : prog_wf lat p -> lat <= RANDOMX_SUPERSCALAR_MAX_LATENCY ->
  length r = 8%nat -> Forall is_u64 r ->
  returns (executeSuperscalar r p) (fun r' => length r' = 8%nat /\ Forall is_u64 r').
Proof. apply executeSuperscalar_returns. Qed.

Lemma executeSuperscalar_total_witness :
  exists p, prog_wf 170 p /\
    returns (executeSuperscalar [1; 2; 3; 4; 5; 6; 7; 8] p)
      (fun r' => length r' = 8%nat /\ Forall is_u64 r').
Proof.
  assert (prog_wf 170 (mk_prog (mk_instr 3 1 2 0 0 :: replicate 769 (mk_instr 0 0 0 0 0)) 1 1 0 0 0 0 1 1
            [] [0; 1; 0; 0; 0; 0; 0; 0])) as Hp.
  { unfold prog_wf; simpl size; simpl addrReg; simpl asicLatency; simpl asicLatencies.
    split_and!; try lia; try reflexivity.
    - apply Forall_cons_2; [|apply Forall_nil_2]. exists IMUL_R.
      unfold instr_ok, is_u8, is_u32; simpl. split_and!; lia.
    - repeat (apply Forall_cons_2; [lia|]). apply Forall_nil_2. }
  eexists. split; [exact Hp|].
  apply (executeSuperscalar_total 170 _ [1; 2; 3; 4; 5; 6; 7; 8] Hp).
  - unfold RANDOMX_SUPERSCALAR_MAX_LATENCY. lia.
  - reflexivity.
  - repeat (apply Forall_cons_2; [unfold is_u64; lia|]). apply Forall_nil_2.
Defined.

End Execution.

End SuperscalarProofs.
