(* ===== verification/Memory.v ===== *)
(** * Byte memory

    A buffer of the program is the list of its bytes; a load or a store that
    leaves the buffer is a [Fault].  [chunk] and [splice] are what they read
    and write inside it. *)
From Stdlib Require Import ZArith Lia.
From stdpp Require Import base numbers list.
From S2P Require Import Prelude.
Open Scope Z_scope.

Abbreviation mem := (list Z) (only parsing).
Definition msize (m : mem) : Z := Z.of_nat (length m).

Definition chunk (m : mem) (off n : Z) : list Z := take (Z.to_nat n) (drop (Z.to_nat off) m).
Definition splice (m : mem) (off : Z) (bs : list Z) : mem :=
  take (Z.to_nat off) m ++ bs ++ drop (Z.to_nat off + length bs) m.

Definition mload (m : mem) (off n : Z) : result (list Z) :=
  if (0 <=? off) && (0 <=? n) && (off + n <=? msize m) then Ok (chunk m off n) else Fault.
Definition mstore (m : mem) (off : Z) (bs : list Z) : result mem :=
  if (0 <=? off) && (off + Z.of_nat (length bs) <=? msize m) then Ok (splice m off bs) else Fault.

(** [load32], [load64] and [store64] of blake2/endian.h. *)
Definition mload32 (m : mem) (off : Z) : result Z := bs ← mload m off 4; mret (load_le bs).
Definition mload64 (m : mem) (off : Z) : result Z := bs ← mload m off 8; mret (load_le bs).
Definition mstore64 (m : mem) (off x : Z) : result mem := mstore m off (store_le 8 x).

Section Lemmas.

Lemma msize_app (a b : mem) : msize (a ++ b) = msize a + msize b.
Proof. unfold msize. rewrite length_app. lia. Qed.

Lemma mload_ok m off n : 0 <= off -> 0 <= n -> off + n <= msize m -> mload m off n = Ok (chunk m off n).
Proof. intros. unfold mload. by rewrite !(proj2 (Z.leb_le _ _)) by lia. Qed.

Lemma mstore_ok m off bs : 0 <= off -> off + Z.of_nat (length bs) <= msize m ->
  mstore m off bs = Ok (splice m off bs).
Proof. intros. unfold mstore. by rewrite !(proj2 (Z.leb_le _ _)) by lia. Qed.

Lemma length_chunk m off n : 0 <= off -> 0 <= n -> off + n <= msize m ->
  length (chunk m off n) = Z.to_nat n.
Proof. intros. unfold chunk, msize in *. rewrite length_take, length_drop. lia. Qed.

Lemma chunk_bytes m off n : Forall is_u8 m -> Forall is_u8 (chunk m off n).
Proof. intros. by apply Forall_take, Forall_drop. Qed.

Lemma msize_splice m off bs : 0 <= off -> off + Z.of_nat (length bs) <= msize m ->
  msize (splice m off bs) = msize m.
Proof.
  intros. unfold msize, splice in *. rewrite !length_app, length_take, length_drop. lia.
Qed.

Lemma splice_bytes m off bs : Forall is_u8 m -> Forall is_u8 bs -> Forall is_u8 (splice m off bs).
Proof.
  intros. unfold splice. repeat (apply Forall_app; split); [by apply Forall_take|done|by apply Forall_drop].
Qed.

(** A read beyond a write does not see it. *)
Lemma chunk_splice_after m off bs off' n : 0 <= off -> off + Z.of_nat (length bs) <= msize m ->
  off + Z.of_nat (length bs) <= off' -> chunk (splice m off bs) off' n = chunk m off' n.
Proof.
  intros H0 H1 H2. unfold chunk, splice, msize in *. f_equal.
  rewrite app_assoc, drop_app_ge by (rewrite length_app, length_take; lia).
  rewrite drop_drop, length_app, length_take. f_equal. lia.
Qed.

Lemma chunk_splice_before m off bs off' n : 0 <= off' -> 0 <= n -> off' + n <= off ->
  off <= msize m -> chunk (splice m off bs) off' n = chunk m off' n.
Proof.
  intros. unfold chunk, splice, msize in *.
  rewrite drop_app_le, take_app_le by (rewrite ?length_drop, length_take; lia).
  rewrite !take_drop_commute, take_take. do 2 f_equal. lia.
Qed.

Lemma chunk_splice_same m off bs : 0 <= off -> off <= msize m ->
  chunk (splice m off bs) off (Z.of_nat (length bs)) = bs.
Proof.
  intros. unfold chunk, splice, msize in *.
  rewrite drop_app_length' by (rewrite length_take; lia). by rewrite take_app_length' by lia.
Qed.

(** Two adjacent writes are one. *)
Lemma splice_splice m off bs bs' : 0 <= off -> off + Z.of_nat (length (bs ++ bs')) <= msize m ->
  splice (splice m off bs) (off + Z.of_nat (length bs)) bs' = splice m off (bs ++ bs').
Proof.
  intros H0 H1. rewrite length_app in H1. unfold splice, msize in *.
  rewrite (app_assoc (take _ m)).
  rewrite take_app_length' by (rewrite length_app, length_take; lia).
  rewrite drop_app_ge by (rewrite length_app, length_take; lia).
  rewrite drop_drop, <- !app_assoc, !length_app, length_take. do 4 f_equal. lia.
Qed.

Lemma mload_returns m off n : 0 <= off -> 0 <= n -> off + n <= msize m -> Forall is_u8 m ->
  returns (mload m off n) (fun bs => length bs = Z.to_nat n /\ Forall is_u8 bs).
Proof.
  intros. rewrite mload_ok by done. simpl. split; [by apply length_chunk|by apply chunk_bytes].
Qed.

Lemma mload64_returns m off : 0 <= off -> off + 8 <= msize m -> Forall is_u8 m ->
  returns (mload64 m off) is_u64.
Proof.
  intros. unfold mload64. eapply returns_use; [apply mload_returns; done || lia|].
  intros bs [Hl HB]. simpl. pose proof (load_le_bound bs HB) as Hb. rewrite Hl in Hb. exact Hb.
Qed.

Lemma mload32_returns m off : 0 <= off -> off + 4 <= msize m -> Forall is_u8 m ->
  returns (mload32 m off) is_u32.
Proof.
  intros. unfold mload32. eapply returns_use; [apply mload_returns; done || lia|].
  intros bs [Hl HB]. simpl. pose proof (load_le_bound bs HB) as Hb. rewrite Hl in Hb. exact Hb.
Qed.

Lemma mstore64_returns m off x : 0 <= off -> off + 8 <= msize m -> Forall is_u8 m ->
  returns (mstore64 m off x) (fun m' => msize m' = msize m /\ Forall is_u8 m').
Proof.
  intros. unfold mstore64. assert (length (store_le 8 x) = 8%nat) as Hl by (apply length_store_le; lia).
  rewrite mstore_ok by (rewrite ?Hl; lia). simpl. split.
  - apply msize_splice; [done|]. rewrite Hl. lia.
  - apply splice_bytes; [done|]. apply store_le_bytes. lia.
Qed.

End Lemmas.
