(* ===== verification/LineReader.v ===== *)
(** * Lines from a stream (base/net/tools/LineReader.h, LineReader.cpp)

    A pool connection delivers bytes in pieces of any size.  [LineReader] cuts them
    into lines: a line inside of a piece is passed on in place, a line that spans
    pieces is collected in a buffer of 64 KiB.  The theorem says that the cutting into
    pieces does not matter as long as no line is longer than the buffer. *)
From Stdlib Require Import ZArith Lia.
From stdpp Require Import base numbers list.
From S2P Require Import Prelude Memory.
Open Scope Z_scope.

Module LineReader.

Definition XMRIG_NET_BUFFER_CHUNK_SIZE : Z := 64 * 1024.

(** [m_buf] and [m_pos] *)
Record reader := mk_reader { m_buf : option mem; m_pos : Z }.
Definition initial : reader := mk_reader None 0.

(** What [onLine] gets: the memory that starts with the line, and its length. *)
Record line := mk_line { l_mem : mem; l_len : Z }.

(** [memchr(start, '\n', remaining)] as an index *)
Fixpoint memchr (l : list Z) : option nat :=
  match l with
  | [] => None
  | x :: l => if x =? 10 then Some O else S <$> memchr l
  end.

(** [NetBuffer::allocate] gives a buffer [fresh] with unknown bytes. *)
Definition add (r : reader) (fresh : mem) (data : list Z) : result reader :=
  if XMRIG_NET_BUFFER_CHUNK_SIZE <? msize data + m_pos r then mret r
  else
    let '(buf, pos) := match m_buf r with Some b => (b, m_pos r) | None => (fresh, 0) end in
    buf ← mstore buf pos data;
    mret (mk_reader (Some buf) (pos + msize data)).

Definition reset (r : reader) : reader := match m_buf r with Some _ => mk_reader None 0 | None => r end.

(** The loop of [getline]: the lines that end in [start], and what is left of it. *)
Fixpoint lines_loop (fuel : nat) (r : reader) (fresh : mem) (start : list Z) : result (reader * list Z * list line) :=
  match fuel with
  | O => OutOfFuel
  | S fuel =>
      match memchr start with
      | None => mret (r, start, [])
      | Some n =>
          let text := take n start ++ [0] in
          '(r, ev) ←
            (if negb (m_pos r =? 0) then
               r ← add r fresh text;
               match m_buf r with
               | Some buf => mret (mk_reader (m_buf r) 0, [mk_line buf (m_pos r - 1)])
               | None => Fault
               end
             else mret (r, if 1 <? msize text then [mk_line text (msize text - 1)] else []));
          '(r, rest, evs) ← lines_loop fuel r fresh (drop (S n) start);
          mret (r, rest, ev ++ evs)
      end
  end.

Definition getline (r : reader) (fresh : mem) (data : list Z) : result (reader * list line) :=
  '(r, rest, evs) ← lines_loop (S (length data)) r fresh data;
  if msize rest =? 0 then mret (reset r, evs)
  else r ← add r fresh rest; mret (r, evs).

Definition parse (r : reader) (fresh : mem) (data : list Z) : result (reader * list line) :=
  if msize data =? 0 then mret (r, []) else getline r fresh data.

(** A sequence of pieces, with the buffer that an allocation would give. *)
Fixpoint parse_all (r : reader) (l : list (mem * list Z)) : result (reader * list line) :=
  match l with
  | [] => mret (r, [])
  | (fresh, data) :: l =>
      '(r, evs) ← parse r fresh data;
      '(r, evs') ← parse_all r l;
      mret (r, evs ++ evs')
  end.

(** ** Specification *)

(** The lines of a stream and the unfinished one at its end. *)
Fixpoint split (p : list Z) (s : list Z) : list (list Z) * list Z :=
  match s with
  | [] => ([], p)
  | x :: s => if x =? 10 then let '(ls, r) := split [] s in (p :: ls, r) else split (p ++ [x]) s
  end.

Definition nonempty (l : list Z) : bool := match l with [] => false | _ => true end.

(** A line that is passed on: its text, which a zero byte ends. *)
Definition shows (t : list Z) (l : line) : Prop :=
  l_len l = msize t /\ take (length t) (l_mem l) = t /\ l_mem l !! length t = Some 0.

(** The reader holds the unfinished line [p]. *)
Definition holds (r : reader) (p : list Z) : Prop :=
  m_pos r = msize p /\ match m_buf r with
                       | Some b => msize b = XMRIG_NET_BUFFER_CHUNK_SIZE /\ take (length p) b = p
                       | None => p = []
                       end.

(** No line of the stream needs more than the buffer, with its end. *)
Definition fits (p s : list Z) : Prop :=
  Forall (fun l => msize l < XMRIG_NET_BUFFER_CHUNK_SIZE) (fst (split p s)) /\
  msize (snd (split p s)) <= XMRIG_NET_BUFFER_CHUNK_SIZE.

Lemma split_app p s1 s2 :
  split p (s1 ++ s2) = let '(ls, r) := split p s1 in let '(ls', r') := split r s2 in (ls ++ ls', r').
Proof.
  revert p. induction s1 as [|x s1 IH]; intros p; cbn [split app].
  - by destruct (split p s2).
  - destruct (x =? 10); [|apply IH]. rewrite IH. destruct (split [] s1) as [ls r]. by destruct (split r s2).
Qed.

Lemma memchr_split p s :
  match memchr s with
  | None => split p s = ([], p ++ s)
  | Some n => split p s = let '(ls, r) := split [] (drop (S n) s) in ((p ++ take n s) :: ls, r)
  end /\ match memchr s with None => True | Some n => (n < length s)%nat end.
Proof.
  revert p. induction s as [|x s IH]; intros p; cbn [memchr split].
  - by rewrite app_nil_r.
  - destruct (Z.eqb_spec x 10) as [->|Hx].
    + cbn [take drop]. rewrite app_nil_r. split; [done|]. cbn. lia.
    + destruct (IH (p ++ [x])) as [H Hn]. destruct (memchr s) as [n|]; cbn [fmap option_fmap option_map].
      * rewrite H. cbn [drop take]. destruct (split [] (drop (S n) s)). rewrite <- app_assoc. split; [done|]. cbn. lia.
      * rewrite H, <- app_assoc. done.
Qed.

(** Adding to the unfinished line. *)
Lemma add_holds r fresh p d : holds r p -> msize fresh = XMRIG_NET_BUFFER_CHUNK_SIZE ->
  msize p + msize d <= XMRIG_NET_BUFFER_CHUNK_SIZE ->
  exists b, add r fresh d = Ok (mk_reader (Some b) (msize p + msize d)) /\
    msize b = XMRIG_NET_BUFFER_CHUNK_SIZE /\ take (length (p ++ d)) b = p ++ d.
Proof.
  intros [Hp Hb] Hf Hs. unfold add. rewrite Hp, (proj2 (Z.ltb_ge _ _)) by lia.
  assert (exists b0, match m_buf r with Some b => (b, msize p) | None => (fresh, 0) end = (b0, msize p) /\
    msize b0 = XMRIG_NET_BUFFER_CHUNK_SIZE /\ take (length p) b0 = p) as (b0 & -> & Hb0 & Ht).
  { destruct (m_buf r) as [b|]; [by exists b|]. subst p. by exists fresh. }
  unfold msize in *. rewrite mstore_ok, ok_bind by (unfold msize; lia). exists (splice b0 (Z.of_nat (length p)) d).
  split; [done|]. split; [pose proof (msize_splice b0 (Z.of_nat (length p)) d) as Hms; unfold msize in Hms; rewrite Hms; lia|].
  unfold splice. rewrite Nat2Z.id, Ht, app_assoc. by rewrite take_app_length.
Qed.

Lemma shows_direct t : shows t (mk_line (t ++ [0]) (msize (t ++ [0]) - 1)).
Proof.
  unfold shows, msize. cbn. rewrite length_app. cbn. split; [lia|]. rewrite take_app_length. split; [done|].
  by rewrite lookup_app_r, Nat.sub_diag by lia.
Qed.

Lemma lines_loop_ok fuel : forall r fresh p s, (length s < fuel)%nat -> holds r p ->
  msize fresh = XMRIG_NET_BUFFER_CHUNK_SIZE -> Forall (fun l => msize l < XMRIG_NET_BUFFER_CHUNK_SIZE) (fst (split p s)) ->
  exists r' p' rest evs, lines_loop fuel r fresh s = Ok (r', rest, evs) /\ holds r' p' /\
    snd (split p s) = p' ++ rest /\ Forall2 shows (filter nonempty (fst (split p s))) evs /\ (p' = [] \/ p' = p /\ rest = s).
Proof.
  induction fuel as [|fuel IH]; intros r fresh p s Hl Hr Hf HF; [lia|]. cbn [lines_loop].
  destruct (memchr_split p s) as [Hs Hn]. destruct (memchr s) as [n|].
  2: { exists r, p, s, []. rewrite Hs. split; [done|]. split; [done|]. split; [done|]. split; [constructor|by right]. }
  rewrite Hs in HF |- *. destruct (split [] (drop (S n) s)) as [ls rst] eqn:E. cbn [fst snd] in *.
  apply Forall_cons in HF as [H1 HF]. set (text := take n s ++ [0]).
  assert (msize text = Z.of_nat n + 1) as Hlt by (unfold text, msize; rewrite length_app, length_take; cbn; lia).
  assert (exists r1 ev, (if negb (m_pos r =? 0) then
               r ← add r fresh text;
               match m_buf r with
               | Some buf => mret (mk_reader (m_buf r) 0, [mk_line buf (m_pos r - 1)])
               | None => Fault
               end
             else mret (r, if 1 <? msize text then [mk_line text (msize text - 1)] else [])) = Ok (r1, ev) /\
     holds r1 [] /\ Forall2 shows (filter nonempty [p ++ take n s]) ev) as (r1 & ev & -> & H1r & Hev).
  { pose proof Hr as [Hp Hb]. destruct (Z.eqb_spec (m_pos r) 0) as [E0|E0]; cbn [negb].
    - assert (p = []) as -> by (apply length_zero_iff_nil; unfold msize in Hp; lia). cbn [app] in *.
      exists r, (if 1 <? msize text then [mk_line text (msize text - 1)] else []). split; [done|]. split; [done|].
      destruct (Z.ltb_spec 1 (msize text)).
      + destruct (take n s) as [|x t] eqn:Et; [apply (f_equal length) in Et; rewrite length_take in Et; cbn in Et; lia|]. unfold text. constructor; [apply (shows_direct (x :: t))|constructor].
      + assert (n = O) as -> by lia. constructor.
    - destruct (add_holds r fresh p text Hr Hf) as (b & -> & Hbs & Hbt).
      { unfold msize in *. rewrite length_app, length_take in H1. lia. }
      rewrite ok_bind. cbn [m_buf m_pos]. eexists _, _. split; [done|]. split; [done|].
      destruct (p ++ take n s) as [|x t] eqn:Et; [apply app_nil in Et as [-> _]; by destruct E0|].
      assert (p ++ text = (x :: t) ++ [0]) as Ept by (unfold text; by rewrite app_assoc, Et). rewrite Ept in Hbt.
      constructor; [|constructor]. rewrite <- Et in *. split; [|split].
      + cbn [l_len]. unfold msize in *. rewrite length_app, length_take. lia.
      + cbn [l_mem]. transitivity (take (length (p ++ take n s)) (take (length ((p ++ take n s) ++ [0])) b)).
        * rewrite take_take. f_equal. rewrite (length_app (p ++ take n s)). lia.
        * rewrite Hbt. apply take_app_length.
      + cbn [l_mem]. assert (take (length ((p ++ take n s) ++ [0])) b !! length (p ++ take n s) = Some 0) as H0.
        { rewrite Hbt. by rewrite lookup_app_r, Nat.sub_diag by lia. }
        rewrite lookup_take_lt in H0; [done|]. rewrite (length_app _ [0]). cbn. lia. }
  rewrite ok_bind. destruct (IH r1 fresh [] (drop (S n) s)) as (r' & p' & rest & evs & -> & Hr' & Hsp & Hevs & Hrest);
    [rewrite length_drop; lia|done|done|by rewrite E|].
  rewrite E in *. cbn [fst snd] in *. rewrite ok_bind. exists r', p', rest, (ev ++ evs).
  split; [done|]. split; [done|]. split; [done|]. split; [|left; by destruct Hrest as [?|[? _]]].
  change ((p ++ take n s) :: ls) with ([p ++ take n s] ++ ls). rewrite filter_app. by apply Forall2_app.
Qed.

Lemma parse_ok r fresh p s : holds r p -> msize fresh = XMRIG_NET_BUFFER_CHUNK_SIZE -> fits p s ->
  exists r' evs, parse r fresh s = Ok (r', evs) /\ holds r' (snd (split p s)) /\ Forall2 shows (filter nonempty (fst (split p s))) evs.
Proof.
  intros Hr Hf [H1 H2]. unfold parse. destruct (Z.eqb_spec (msize s) 0) as [E0|E0].
  { destruct s; [|unfold msize in E0; cbn in E0; lia]. exists r, []. split; [done|]. split; [done|constructor]. }
  unfold getline. destruct (lines_loop_ok (S (length s)) r fresh p s ltac:(lia) Hr Hf H1) as (r' & p' & rest & evs & -> & Hr' & Hsp & Hevs & Hz).
  rewrite ok_bind. destruct (Z.eqb_spec (msize rest) 0) as [E1|E1].
  - destruct rest; [|unfold msize in E1; cbn in E1; lia]. assert (p' = []) as -> by (destruct Hz as [?|[_ <-]]; [done|by destruct E0]).
    rewrite Hsp. eexists _, _. split; [done|]. split; [|done]. destruct Hr' as [Hp' _].
    unfold reset. destruct (m_buf r') as [b|] eqn:Eb; [done|]. split; [done|by rewrite Eb].
  - rewrite Hsp in H2 |- *. destruct (add_holds r' fresh p' rest Hr' Hf) as (b & -> & Hb & Ht);
      [unfold msize in *; rewrite length_app in H2; lia|].
    rewrite ok_bind. eexists _, _. split; [done|]. split; [|done]. split; [cbn; unfold msize; rewrite length_app; lia|]. by split.
Qed.

Lemma fits_app p s1 s2 : fits p (s1 ++ s2) -> fits p s1 /\ fits (snd (split p s1)) s2.
Proof.
  unfold fits. rewrite split_app. destruct (split p s1) as [ls r]. cbn [fst snd]. destruct (split r s2) as [ls' r'] eqn:E. cbn [fst snd].
  rewrite Forall_app. intros [[H1 H2] H3]. split; [|by split]. split; [done|].
  assert (msize r <= msize (snd (split r s2)) \/ exists l, l ∈ fst (split r s2) /\ msize r <= msize l) as Hr.
  { clear. revert r. induction s2 as [|x s IH]; intros r; cbn [split]; [by left|]. destruct (x =? 10).
    - right. exists r. destruct (split [] s). cbn. split; [left|lia].
    - assert (msize r <= msize (r ++ [x])) by (unfold msize; rewrite length_app; lia).
      destruct (IH (r ++ [x])) as [H'|(l & Hl & H')]; [left; lia|right; exists l; split; [done|lia]]. }
  rewrite E in Hr. cbn [fst snd] in Hr. destruct Hr as [Hr|(l & Hl & Hr)]; [lia|].
  rewrite Forall_forall in H2. specialize (H2 l Hl). cbn beta in H2. lia.
Qed.

(** How the stream is cut into pieces does not matter: when no line is longer
    than the buffer, exactly the lines of the whole stream that are not empty are
    passed on, in order and each with a zero byte at its end, and the reader keeps
    the unfinished line. *)
Theorem lines_independent_of_pieces l : Forall (fun '(fresh, _) => msize fresh = XMRIG_NET_BUFFER_CHUNK_SIZE) l ->
  fits [] (concat (snd <$> l)) ->
  exists r evs, parse_all initial l = Ok (r, evs) /\ holds r (snd (split [] (concat (snd <$> l)))) /\
    Forall2 shows (filter nonempty (fst (split [] (concat (snd <$> l))))) evs.
Proof.
  assert (holds initial []) as H0 by done. revert H0. generalize initial. generalize ([] : list Z).
  induction l as [|[fresh s] l IH]; intros p r Hr HF Hfit; cbn [parse_all fmap list_fmap concat] in *.
  - exists r, []. split; [done|]. split; [done|constructor].
  - apply Forall_cons in HF as [Hf HF]. apply fits_app in Hfit as [Hf1 Hf2].
    destruct (parse_ok r fresh p s Hr Hf Hf1) as (r1 & ev & -> & Hr1 & Hev). rewrite ok_bind.
    destruct (IH _ r1 Hr1 HF Hf2) as (r2 & evs & -> & Hr2 & Hevs). rewrite ok_bind. cbn [snd] in *.
    exists r2, (ev ++ evs). split; [done|]. rewrite split_app. destruct (split p s) as [ls q]. cbn [fst snd] in *.
    destruct (split q _) as [ls' q']. cbn [fst snd] in *. split; [done|]. rewrite filter_app. by apply Forall2_app.
Qed.

Lemma lines_independent_of_pieces_witness :
  exists r evs, parse_all initial [(replicate (Z.to_nat 65536) 7, [123; 10; 65]); (replicate (Z.to_nat 65536) 8, [66; 10; 10; 67])] = Ok (r, evs) /\
    Forall2 shows [[123]; [65; 66]] evs.
Proof.
  assert (forall x, msize (replicate (Z.to_nat 65536) x) = XMRIG_NET_BUFFER_CHUNK_SIZE) as Hl.
  { intros x. unfold msize. rewrite length_replicate, Z2Nat.id by lia. reflexivity. }
  generalize (Hl 7), (Hl 8). generalize (replicate (Z.to_nat 65536) 7), (replicate (Z.to_nat 65536) 8). intros f g Hf Hg.
  destruct (lines_independent_of_pieces [(f, [123; 10; 65]); (g, [66; 10; 10; 67])]) as (r & evs & E & _ & H).
  - constructor; [exact Hf|]. constructor; [exact Hg|constructor].
  - split; [|cbn; unfold XMRIG_NET_BUFFER_CHUNK_SIZE, msize; cbn; lia].
    cbn. repeat constructor.
  - exists r, evs. split; [exact E|exact H].
Defined.

End LineReader.
