(* ===== verification/MemPool.v ===== *)
(** * The pool of network buffers (base/net/tools/MemPool.h, NetBuffer.cpp)

    Buffers of one size are cut from blocks of [INIT_SIZE] buffers.  The pool keeps
    the set of free buffer numbers and a map from the buffers in use to their
    numbers.  The theorem is what a client needs: a new buffer lies inside its block
    and overlaps no buffer in use, and what is free and what is in use add up to the
    memory of the pool. *)
From Stdlib Require Import ZArith Lia.
From stdpp Require Import base numbers gmap sorting.
From S2P Require Import Prelude.
Open Scope Z_scope.

Module MemPool.

Section Pool.
(** The template parameters. *)
Context (CHUNK_SIZE INIT_SIZE : Z).

(** A buffer: its block and its offset in the block. *)
Abbreviation ptr := (Z * Z)%type.

(** [m_used], [m_free] and the number of blocks in [m_data] *)
Record pool := mk_pool { m_used : gmap ptr Z; m_free : gset Z; m_blocks : Z }.
Definition empty_pool : pool := mk_pool ∅ ∅ 0.

Definition freeSize (p : pool) : Z := Z.of_nat (size (m_free p)) * CHUNK_SIZE.
Definition pool_size (p : pool) : Z := m_blocks p * CHUNK_SIZE * INIT_SIZE.

Definition resize (p : pool) : pool :=
  mk_pool (m_used p) (m_free p ∪ list_to_set ((fun i => m_blocks p * INIT_SIZE + i) <$> seqZ 0 INIT_SIZE)) (m_blocks p + 1).

(** [*m_free.begin()], the smallest number *)
Definition begin (s : gset Z) : option Z := head (merge_sort Z.le (elements s)).

Definition ptr_of (i : Z) : ptr := let r := i / INIT_SIZE in (r, (i - r * INIT_SIZE) * CHUNK_SIZE).

Definition allocate (p : pool) : result (ptr * pool) :=
  let p := if decide (m_free p = ∅) then resize p else p in
  match begin (m_free p) with
  | None => Fault
  | Some i => mret (ptr_of i, mk_pool (<[ptr_of i := i]> (m_used p)) (m_free p ∖ {[i]}) (m_blocks p))
  end.

(** [m_used[ptr]] is zero for a buffer that is not in use. *)
Definition deallocate (p : pool) (q : ptr) : pool :=
  mk_pool (delete q (m_used p)) (m_free p ∪ {[ default 0 (m_used p !! q) ]}) (m_blocks p).

(** ** Invariant *)

Context (Hchunk : 0 < CHUNK_SIZE) (Hinit : 0 < INIT_SIZE).

(** Every number below the capacity is free or belongs to the buffer in use with
    that number. *)
Record pool_ok (p : pool) : Prop := {
  po_blocks : 0 <= m_blocks p;
  po_used : forall q i, m_used p !! q = Some i -> q = ptr_of i /\ 0 <= i < m_blocks p * INIT_SIZE /\ i ∉ m_free p;
  po_free : forall i, i ∈ m_free p -> 0 <= i < m_blocks p * INIT_SIZE;
  po_all : forall i, 0 <= i < m_blocks p * INIT_SIZE -> i ∈ m_free p \/ m_used p !! ptr_of i = Some i }.

(** The memory of two buffers. *)
Definition disjoint_ptr (q q' : ptr) : Prop := fst q <> fst q' \/ snd q + CHUNK_SIZE <= snd q' \/ snd q' + CHUNK_SIZE <= snd q.

Lemma ptr_of_rem i : ptr_of i = (i / INIT_SIZE, (i mod INIT_SIZE) * CHUNK_SIZE).
Proof. unfold ptr_of. f_equal. f_equal. rewrite (Z.mod_eq i INIT_SIZE) by lia. lia. Qed.

Lemma ptr_of_disjoint i j : i <> j -> disjoint_ptr (ptr_of i) (ptr_of j).
Proof.
  intros Hij. rewrite !ptr_of_rem. unfold disjoint_ptr. cbn [fst snd].
  destruct (decide (i / INIT_SIZE = j / INIT_SIZE)) as [E|E]; [|by left]. right.
  pose proof (Z.div_mod i INIT_SIZE ltac:(lia)). pose proof (Z.div_mod j INIT_SIZE ltac:(lia)).
  assert (i mod INIT_SIZE <> j mod INIT_SIZE) as Hm by (intros Em; apply Hij; rewrite E in *; lia).
  assert (i mod INIT_SIZE + 1 <= j mod INIT_SIZE \/ j mod INIT_SIZE + 1 <= i mod INIT_SIZE) as [?|?] by lia; [left|right]; nia.
Qed.

Lemma ptr_of_inj i j : ptr_of i = ptr_of j -> i = j.
Proof.
  intros E. destruct (decide (i = j)) as [|H]; [done|]. apply ptr_of_disjoint in H. rewrite E in H.
  unfold disjoint_ptr in H. destruct H as [?|[?|?]]; [done|lia|lia].
Qed.

Lemma begin_elem s : s <> ∅ -> exists i, begin s = Some i /\ i ∈ s /\ forall j, j ∈ s -> i <= j.
Proof.
  intros Hs. unfold begin. pose proof (merge_sort_Permutation Z.le (elements s)) as Hp.
  pose proof (Sorted_merge_sort Z.le (elements s)) as Hso. apply Sorted_StronglySorted in Hso; [|intros x y z; lia].
  destruct (merge_sort Z.le (elements s)) as [|i l] eqn:E.
  - apply Permutation_nil_l in Hp. symmetry in Hp. apply elements_empty_inv in Hp. apply leibniz_equiv in Hp. done.
  - exists i. split; [done|]. split.
    + apply elem_of_elements. rewrite <- Hp. left.
    + intros j Hj. apply elem_of_elements in Hj. rewrite <- Hp in Hj. apply elem_of_cons in Hj as [->|Hj]; [lia|].
      inversion Hso as [|? ? _ HF]; subst. rewrite Forall_forall in HF. by apply HF.
Qed.

Lemma resize_ok p : pool_ok p -> pool_ok (resize p).
Proof.
  intros [H0 H1 H2 H3]. unfold resize. split; cbn [m_blocks m_used m_free].
  - lia.
  - intros q i E. destruct (H1 q i E) as (Hq & Hi & Hn). split; [done|]. split; [nia|]. rewrite elem_of_union, elem_of_list_to_set, list_elem_of_fmap.
    intros [?|(k & -> & Hk%elem_of_seqZ)]; [done|lia].
  - intros i. rewrite elem_of_union, elem_of_list_to_set, list_elem_of_fmap. intros [Hi|(k & -> & Hk%elem_of_seqZ)]; [specialize (H2 i Hi); nia|nia].
  - intros i Hi. destruct (decide (i < m_blocks p * INIT_SIZE)) as [Hlt|Hge].
    + destruct (H3 i ltac:(lia)) as [?|?]; [left; set_solver|by right].
    + left. apply elem_of_union. right. apply elem_of_list_to_set, list_elem_of_fmap. exists (i - m_blocks p * INIT_SIZE).
      split; [lia|]. apply elem_of_seqZ. nia.
Qed.

(** A buffer that [allocate] returns lies inside a block of the pool and overlaps
    none of the buffers in use, and the pool stays consistent; [deallocate] of a
    buffer in use makes it free again.  *)
Theorem allocate_fresh p : pool_ok p ->
  exists q p', allocate p = Ok (q, p') /\ pool_ok p' /\ m_used p !! q = None /\
    (0 <= fst q < m_blocks p' /\ 0 <= snd q /\ snd q + CHUNK_SIZE <= INIT_SIZE * CHUNK_SIZE) /\
    (forall q' i, m_used p !! q' = Some i -> disjoint_ptr q q' /\ m_used p' !! q' = Some i) /\
    pool_ok (deallocate p' q) /\ m_used (deallocate p' q) = m_used p.
Proof.
  intros Hp. unfold allocate. set (p1 := if decide (m_free p = ∅) then resize p else p).
  assert (pool_ok p1 /\ m_free p1 <> ∅ /\ m_used p1 = m_used p) as (Hp1 & Hne & Hu).
  { unfold p1. destruct (decide (m_free p = ∅)) as [E|E]; [|done]. split; [by apply resize_ok|]. split; [|done].
    intros E2. assert (m_blocks p * INIT_SIZE ∈ m_free (resize p)) as Hin; [|rewrite E2 in Hin; set_solver].
    cbn. apply elem_of_union. right. apply elem_of_list_to_set, list_elem_of_fmap. exists 0. split; [lia|]. apply elem_of_seqZ. lia. }
  destruct (begin_elem _ Hne) as (i & -> & Hi & _). destruct Hp1 as [H0 H1 H2 H3]. rewrite Hu in *. pose proof (H2 i Hi) as Hir.
  assert (m_used p !! ptr_of i = None) as Hnone.
  { destruct (m_used p !! ptr_of i) as [j|] eqn:E; [|done]. destruct (H1 _ _ E) as (Eq & _ & Hnf). apply ptr_of_inj in Eq. by subst j. }
  eexists _, _. split; [done|].
  assert (pool_ok (mk_pool (<[ptr_of i:=i]> (m_used p)) (m_free p1 ∖ {[i]}) (m_blocks p1))) as Hok.
  { split; cbn [m_blocks m_used m_free]; [done| |set_solver|].
    - intros q j. destruct (decide (q = ptr_of i)) as [->|Hq].
      + rewrite lookup_insert_eq. intros [= <-]. split; [done|]. split; [done|set_solver].
      + rewrite lookup_insert_ne by done. intros E. destruct (H1 _ _ E) as (? & ? & ?). split; [done|]. split; [done|set_solver].
    - intros j Hj. destruct (decide (j = i)) as [->|Hji]; [right; apply lookup_insert_eq|].
      destruct (H3 j Hj) as [?|E]; [left; set_solver|]. right. rewrite lookup_insert_ne; [done|]. intros E2. by apply ptr_of_inj in E2. }
  split; [done|]. split; [done|]. split; [|split].
  - rewrite ptr_of_rem. cbn [fst snd m_blocks]. pose proof (Z.mod_pos_bound i INIT_SIZE Hinit). split; [split|split].
    + apply Z.div_pos; lia.
    + apply Z.div_lt_upper_bound; lia.
    + nia.
    + nia.
  - intros q' j E. destruct (H1 _ _ E) as (-> & _ & Hnf). split; [apply ptr_of_disjoint; set_solver|].
    cbn [m_used]. rewrite lookup_insert_ne; [done|]. intros E2. apply ptr_of_inj in E2. set_solver.
  - assert (delete (ptr_of i) (<[ptr_of i:=i]> (m_used p)) = m_used p) as Hd by by rewrite delete_insert_id.
    unfold deallocate. cbn [m_used m_free m_blocks]. rewrite Hd, lookup_insert_eq. change (default 0 (Some i)) with i. split; [|done].
    assert (m_free p1 ∖ {[i]} ∪ {[i]} = m_free p1) as ->.
    { apply leibniz_equiv. intros x. destruct (decide (x = i)); set_solver. }
    by split.
Qed.

End Pool.

Lemma allocate_fresh_witness : exists q p', allocate 65536 4 empty_pool = Ok (q, p') /\ q = (0, 0) /\ pool_ok 65536 4 p'.
Proof.
  destruct (allocate_fresh 65536 4 ltac:(lia) ltac:(lia) empty_pool) as (q & p' & E & Hok & _).
  - split; cbn [empty_pool m_blocks m_used m_free].
    + lia.
    + intros q i. by rewrite lookup_empty.
    + set_solver.
    + lia.
  - exists q, p'. split; [exact E|]. split; [|exact Hok]. vm_compute in E. congruence.
Defined.

End MemPool.
