(* ===== verification/Keccak.v ===== *)
(** * Keccak and SHA-3 (base/crypto/keccak.cpp, base/crypto/sha3.cpp)

    The permutation [keccakf] as the unrolled code performs it, the one-shot
    sponge [keccak] over a byte buffer, and the streaming SHA-3 context with
    [sha3_Init], [sha3_SetFlags], [sha3_Update], [sha3_Finalize] and
    [sha3_HashBuffer].  The second half gives FIPS 202's definitions (the five
    step mappings on lanes [A[x,y]], the round constants by their LFSR, the
    rotation offsets by their walk, multi-rate padding and the sponge) and
    proves the code equal to them. *)
From Stdlib Require Import ZArith Lia.
From stdpp Require Import base numbers list.
From S2P Require Import Prelude Memory.
Open Scope Z_scope.

Module Keccak.

Definition KECCAK_ROUNDS : Z := 24.
Definition HASH_DATA_AREA : Z := 136.

Definition ROTL64 (x y : Z) : Z := Z.lor (shl64 x y) (Z.shiftr x (64 - y)).

Definition keccakf_rndc : list Z :=
  [0x0000000000000001; 0x0000000000008082; 0x800000000000808a;
   0x8000000080008000; 0x000000000000808b; 0x0000000080000001;
   0x8000000080008081; 0x8000000000008009; 0x000000000000008a;
   0x0000000000000088; 0x0000000080008009; 0x000000008000000a;
   0x000000008000808b; 0x800000000000008b; 0x8000000000008089;
   0x8000000000008003; 0x8000000000008002; 0x8000000000000080;
   0x000000000000800a; 0x800000008000000a; 0x8000000080008081;
   0x8000000000008080; 0x0000000080000001; 0x8000000080008008].

(** ** The permutation *)

(** [bc[i] = st[i] ^ st[i + 5] ^ st[i + 10] ^ st[i + 15] ^ st[i + 20]] *)
Definition theta_column (st : list Z) (i : nat) : Z :=
  Z.lxor (Z.lxor (Z.lxor (Z.lxor (st !!! i) (st !!! (i + 5)%nat)) (st !!! (i + 10)%nat))
    (st !!! (i + 15)%nat)) (st !!! (i + 20)%nat).
Definition theta_bc (st : list Z) : list Z := theta_column st <$> [0; 1; 2; 3; 4]%nat.

(** [st[i] ^= t] *)
Definition xor_at (t : Z) (st : list Z) (i : nat) : list Z := <[i := Z.lxor (st !!! i) t]> st.

(** The macro [X(i)]. *)
Definition theta_X (bc : list Z) (st : list Z) (i : nat) : list Z :=
  let t := Z.lxor (bc !!! ((i + 4) mod 5)%nat) (ROTL64 (bc !!! ((i + 1) mod 5)%nat) 1) in
  foldl (xor_at t) st [i; i + 5; i + 10; i + 15; i + 20]%nat.
Definition theta (st : list Z) : list Z := foldl (theta_X (theta_bc st)) st [0; 1; 2; 3; 4]%nat.

(** The assignments [st[dst] = ROTL64(st[src], n)], in order. *)
Definition rho_pi_moves : list (nat * nat * Z) :=
  [(1, 6, 44%Z); (6, 9, 20%Z); (9, 22, 61%Z); (22, 14, 39%Z); (14, 20, 18%Z); (20, 2, 62%Z);
   (2, 12, 43%Z); (12, 13, 25%Z); (13, 19, 8%Z); (19, 23, 56%Z); (23, 15, 41%Z); (15, 4, 27%Z);
   (4, 24, 14%Z); (24, 21, 2%Z); (21, 8, 55%Z); (8, 16, 45%Z); (16, 5, 36%Z); (5, 3, 28%Z);
   (3, 18, 21%Z); (18, 17, 15%Z); (17, 11, 10%Z); (11, 7, 6%Z); (7, 10, 3%Z)]%nat.
Definition rho_pi (st : list Z) : list Z :=
  let t := st !!! 1%nat in
  let st := foldl (fun st '(d, s, n) => <[d := ROTL64 (st !!! s) n]> st) st rho_pi_moves in
  <[10%nat := ROTL64 t 1]> st.

(** [a ^ (~b & c)] *)
Definition chi_lane (a b c : Z) : Z := Z.lxor a (Z.land (not64 b) c).

(** The rows [j = 0, 5, 10, 15]. *)
Definition chi_row (st : list Z) (j : nat) : list Z :=
  let bc0 := st !!! j in
  let bc1 := st !!! (j + 1)%nat in
  let st := <[j := chi_lane (st !!! j) (st !!! (j + 1)%nat) (st !!! (j + 2)%nat)]> st in
  let st := <[(j + 1)%nat := chi_lane (st !!! (j + 1)%nat) (st !!! (j + 2)%nat) (st !!! (j + 3)%nat)]> st in
  let st := <[(j + 2)%nat := chi_lane (st !!! (j + 2)%nat) (st !!! (j + 3)%nat) (st !!! (j + 4)%nat)]> st in
  let st := <[(j + 3)%nat := chi_lane (st !!! (j + 3)%nat) (st !!! (j + 4)%nat) bc0]> st in
  <[(j + 4)%nat := chi_lane (st !!! (j + 4)%nat) bc0 bc1]> st.
(** The row [j = 20], with all five lanes saved first. *)
Definition chi_last (st : list Z) : list Z :=
  let bc := (fun k => st !!! (20 + k)%nat) <$> [0; 1; 2; 3; 4]%nat in
  let b := fun k => bc !!! k in
  let st := <[20%nat := chi_lane (st !!! 20%nat) (b 1%nat) (b 2%nat)]> st in
  let st := <[21%nat := chi_lane (st !!! 21%nat) (b 2%nat) (b 3%nat)]> st in
  let st := <[22%nat := chi_lane (st !!! 22%nat) (b 3%nat) (b 4%nat)]> st in
  let st := <[23%nat := chi_lane (st !!! 23%nat) (b 4%nat) (b 0%nat)]> st in
  <[24%nat := chi_lane (st !!! 24%nat) (b 0%nat) (b 1%nat)]> st.
Definition chi (st : list Z) : list Z := chi_last (foldl chi_row st [0; 5; 10; 15]%nat).

Definition iota (st : list Z) (round : Z) : result (list Z) :=
  c ← aget keccakf_rndc round;
  mret (<[0%nat := Z.lxor (st !!! 0%nat) c]> st).

Definition keccak_round (st : list Z) (round : Z) : result (list Z) :=
  iota (chi (rho_pi (theta st))) round.

(** [for (int round = 0; round < rounds; ++round)] *)
Fixpoint rounds_from (n : nat) (round : Z) (st : list Z) : result (list Z) :=
  match n with
  | O => mret st
  | S n => st ← keccak_round st round; rounds_from n (round + 1) st
  end.
Definition keccakf (st : list Z) (rounds : Z) : result (list Z) := rounds_from (Z.to_nat rounds) 0 st.

(** ** The one-shot hash *)

(** [for (i = 0; i < n; i++) st[i] ^= ((uint64_t * )in)[i]] *)
Fixpoint xor_block (n : nat) (i : Z) (m : mem) (off : Z) (st : list Z) : result (list Z) :=
  match n with
  | O => mret st
  | S n =>
      x ← aget st i;
      w ← mload64 m (off + 8 * i);
      st ← aset st i (Z.lxor x w);
      xor_block n (i + 1) m off st
  end.

(** [for ( ; inlen >= rsiz; inlen -= rsiz, in += rsiz)] *)
Fixpoint absorb_loop (fuel : nat) (rsiz : Z) (m : mem) (off inlen : Z) (st : list Z)
    : result (list Z * Z * Z) :=
  match fuel with
  | O => OutOfFuel
  | S fuel =>
      if rsiz <=? inlen then
        st ← xor_block (Z.to_nat (rsiz / 8)) 0 m off st;
        st ← keccakf st KECCAK_ROUNDS;
        absorb_loop fuel rsiz m (off + rsiz) (inlen - rsiz) st
      else mret (st, off, inlen)
  end.

(** The last block in [temp], whose 144 bytes are uninitialised. *)
Definition pad_block (temp : mem) (rsiz : Z) (m : mem) (off inlen : Z) : result mem :=
  bs ← mload m off inlen;
  temp ← mstore temp 0 bs;
  temp ← aset temp inlen 1;
  let inlen := inlen + 1 in
  temp ← mstore temp inlen (replicate (Z.to_nat (rsiz - inlen)) 0);
  x ← aget temp (rsiz - 1);
  aset temp (rsiz - 1) (Z.lor x 0x80).

Definition state_bytes (st : list Z) : list Z := mjoin (store_le 8 <$> st).

(** [keccak(in, inlen, md, mdlen)]: the bytes written to [md]. *)
Definition keccak (temp : mem) (inp : mem) (inlen mdlen : Z) : result (list Z) :=
  let rsiz := if mdlen =? 200 then HASH_DATA_AREA else 200 - 2 * mdlen in
  let st := replicate 25 0 in
  '(st, off, inlen) ← absorb_loop (S (Z.to_nat inlen)) rsiz inp 0 inlen st;
  temp ← pad_block temp rsiz inp off inlen;
  st ← xor_block (Z.to_nat (rsiz / 8)) 0 temp 0 st;
  st ← keccakf st KECCAK_ROUNDS;
  mload (state_bytes st) 0 mdlen.

(** ** The streaming context *)

Record sha3_context := mk_sha3 {
  saved : Z; s : list Z; byteIndex : Z; wordIndex : Z; capacityWords : Z }.

Definition SHA3_USE_KECCAK_FLAG : Z := 0x80000000.
Definition SHA3_CW (x : Z) : Z := Z.land x (u32 (Z.lnot SHA3_USE_KECCAK_FLAG)).
Definition SHA3_KECCAK_SPONGE_WORDS : Z := 25.

(** The enumeration [SHA3_FLAGS], as the integers the code masks. *)
Definition SHA3_FLAGS_NONE : Z := 0.
Definition SHA3_FLAGS_KECCAK : Z := 1.
Inductive sha3_return_t := SHA3_RETURN_OK | SHA3_RETURN_BAD_PARAMS.

Definition sha3_Init (ctx : sha3_context) (bitSize : Z) : sha3_return_t * sha3_context :=
  if negb (bitSize =? 256) && negb (bitSize =? 384) && negb (bitSize =? 512)
  then (SHA3_RETURN_BAD_PARAMS, ctx)
  else (SHA3_RETURN_OK, mk_sha3 0 (replicate 25 0) 0 0 (2 * bitSize / (8 * 8))).

Definition sha3_SetFlags (ctx : sha3_context) (flags : Z) : Z * sha3_context :=
  let flags := Z.land flags SHA3_FLAGS_KECCAK in
  (flags, mk_sha3 (saved ctx) (s ctx) (byteIndex ctx) (wordIndex ctx)
    (Z.lor (capacityWords ctx) (if flags =? SHA3_FLAGS_KECCAK then SHA3_USE_KECCAK_FLAG else 0))).

(** [while (n--) ctx->saved |= ( *(buf++)) << ((ctx->byteIndex++) * 8)] *)
Fixpoint save_bytes (n : nat) (buf : list Z) (ctx : sha3_context) : result (list Z * sha3_context) :=
  match n with
  | O => mret (buf, ctx)
  | S n =>
      match buf with
      | [] => Fault
      | b :: buf =>
          save_bytes n buf
            (mk_sha3 (Z.lor (saved ctx) (shl64 b (byteIndex ctx * 8))) (s ctx) (byteIndex ctx + 1)
               (wordIndex ctx) (capacityWords ctx))
      end
  end.

(** [ctx->s[ctx->wordIndex] ^= t], and the permutation when the block is full. *)
Definition add_word (ctx : sha3_context) (t : Z) : result sha3_context :=
  x ← aget (s ctx) (wordIndex ctx);
  st ← aset (s ctx) (wordIndex ctx) (Z.lxor x t);
  let wordIndex := wordIndex ctx + 1 in
  if wordIndex =? SHA3_KECCAK_SPONGE_WORDS - SHA3_CW (capacityWords ctx) then
    st ← keccakf st KECCAK_ROUNDS;
    mret (mk_sha3 (saved ctx) st (byteIndex ctx) 0 (capacityWords ctx))
  else mret (mk_sha3 (saved ctx) st (byteIndex ctx) wordIndex (capacityWords ctx)).

(** The eight bytes of [t] at [buf]. *)
Definition word_of (buf : list Z) : Z :=
  foldr (fun i t => Z.lor (Z.shiftl (buf !!! i) (8 * Z.of_nat i)) t) 0 (seq 0 8).

Fixpoint full_words (n : nat) (buf : list Z) (ctx : sha3_context) : result (list Z * sha3_context) :=
  match n with
  | O => mret (buf, ctx)
  | S n =>
      w ← mload buf 0 8;
      ctx ← add_word ctx (word_of w);
      full_words n (drop 8 buf) ctx
  end.

(** [if (old_tail)]: the bytes that complete the saved word. *)
Definition complete_word (old_tail : Z) (buf : list Z) (len : Z) (ctx : sha3_context)
    : result (list Z * Z * sha3_context) :=
  if negb (old_tail =? 0) then
    let len := len - old_tail in
    '(buf, ctx) ← save_bytes (Z.to_nat old_tail) buf ctx;
    let t := saved ctx in
    ctx ← add_word (mk_sha3 0 (s ctx) 0 (wordIndex ctx) (capacityWords ctx)) t;
    mret (buf, len, ctx)
  else mret (buf, len, ctx).

(** [sha3_Update(ctx, buf, len)] on the [len] bytes of [buf]. *)
Definition sha3_Update (ctx : sha3_context) (buf : list Z) (len : Z) : result sha3_context :=
  let old_tail := Z.land (u32 (8 - byteIndex ctx)) 7 in
  if len <? old_tail then
    '(_, ctx) ← save_bytes (Z.to_nat len) buf ctx;
    mret ctx
  else
    '(buf, len, ctx) ← complete_word old_tail buf len ctx;
    let words := len / 8 in
    let tail := len - words * 8 in
    '(buf, ctx) ← full_words (Z.to_nat words) buf ctx;
    '(_, ctx) ← save_bytes (Z.to_nat tail) buf ctx;
    mret ctx.

(** The bytes of [ctx->s[i]] stored to [ctx->sb[i * 8 ..]]. *)
Definition out_bytes (w : Z) : list Z :=
  let t1 := u32 w in
  let t2 := u32 (Z.shiftr (Z.shiftr w 16) 16) in
  [u8 t1; u8 (Z.shiftr t1 8); u8 (Z.shiftr t1 16); u8 (Z.shiftr t1 24);
   u8 t2; u8 (Z.shiftr t2 8); u8 (Z.shiftr t2 16); u8 (Z.shiftr t2 24)].

Definition sha3_Finalize (ctx : sha3_context) : result (list Z) :=
  let t := if negb (Z.land (capacityWords ctx) SHA3_USE_KECCAK_FLAG =? 0)
           then shl64 1 (byteIndex ctx * 8)
           else shl64 (Z.lor 0x02 (Z.shiftl 1 2)) (byteIndex ctx * 8) in
  x ← aget (s ctx) (wordIndex ctx);
  st ← aset (s ctx) (wordIndex ctx) (Z.lxor x (Z.lxor (saved ctx) t));
  let last := SHA3_KECCAK_SPONGE_WORDS - SHA3_CW (capacityWords ctx) - 1 in
  y ← aget st last;
  st ← aset st last (Z.lxor y 0x8000000000000000);
  st ← keccakf st KECCAK_ROUNDS;
  mret (mjoin (out_bytes <$> st)).

(** [sha3_HashBuffer]: the status and the bytes written to [out]. *)
Definition sha3_HashBuffer (c : sha3_context) (bitSize flags : Z) (inp : list Z)
    (inBytes outBytes : Z) : result (sha3_return_t * list Z) :=
  match sha3_Init c bitSize with
  | (SHA3_RETURN_BAD_PARAMS, _) => mret (SHA3_RETURN_BAD_PARAMS, [])
  | (SHA3_RETURN_OK, c) =>
      let '(set, c) := sha3_SetFlags c flags in
      if negb (set =? flags) then mret (SHA3_RETURN_BAD_PARAMS, [])
      else
        c ← sha3_Update c inp inBytes;
        h ← sha3_Finalize c;
        let outBytes := if bitSize / 8 <? outBytes then bitSize / 8 else outBytes in
        out ← mload h 0 outBytes;
        mret (SHA3_RETURN_OK, out)
  end.

(** ** FIPS 202 *)

(** Section 3.1: the lane [A[x,y]] of a state; section 3.2: the step mappings. *)
Definition lane (A : list Z) (x y : nat) : Z := A !!! ((x mod 5) + 5 * (y mod 5))%nat.
Definition of_lanes (f : nat -> nat -> Z) : list Z :=
  (fun i => f (i mod 5)%nat (i / 5)%nat) <$> seq 0 25.

Definition fips_theta (A : list Z) : list Z :=
  let C x := foldl Z.lxor (lane A x 0) (lane A x <$> [1; 2; 3; 4]%nat) in
  let D x := Z.lxor (C (x + 4)%nat) (ROTL64 (C (x + 1)%nat) 1) in
  of_lanes (fun x y => Z.lxor (lane A x y) (D (x mod 5)%nat)).

(** The walk [(x,y) -> (y, 2x + 3y)] from [(1,0)] with offset [(t+1)(t+2)/2]. *)
Fixpoint rho_walk (n : nat) (t : nat) (x y : nat) : list (nat * nat * Z) :=
  match n with
  | O => []
  | S n => (x, y, Z.of_nat ((t + 1) * (t + 2) / 2) mod 64)
             :: rho_walk n (S t) y ((2 * x + 3 * y) mod 5)%nat
  end.
Definition rho_offset (x y : nat) : Z :=
  foldr (fun '(x', y', n) z => if (x' =? x)%nat && (y' =? y)%nat then n else z) 0 (rho_walk 24 0 1 0).
Definition fips_rho (A : list Z) : list Z := of_lanes (fun x y =>
  if (x =? 0)%nat && (y =? 0)%nat then lane A x y else ROTL64 (lane A x y) (rho_offset x y)).
Definition fips_pi (A : list Z) : list Z := of_lanes (fun x y => lane A (x + 3 * y) x).
Definition fips_chi (A : list Z) : list Z := of_lanes (fun x y =>
  Z.lxor (lane A x y) (Z.land (not64 (lane A (x + 1) y)) (lane A (x + 2) y))).

(** Algorithm 5: the bit [rc(t)] of the LFSR, on the 8-bit register [R]. *)
Fixpoint lfsr (n : nat) (R : list bool) : list bool :=
  match n with
  | O => R
  | S n =>
      let R := false :: R in
      let b := R !!! 8%nat in
      let R := <[0%nat := xorb (R !!! 0%nat) b]> R in
      let R := <[4%nat := xorb (R !!! 4%nat) b]> R in
      let R := <[5%nat := xorb (R !!! 5%nat) b]> R in
      let R := <[6%nat := xorb (R !!! 6%nat) b]> R in
      lfsr n (take 8 R)
  end.
Definition rc (t : nat) : bool :=
  lfsr (t mod 255) [true; false; false; false; false; false; false; false] !!! 0%nat.
Definition RC (ir : nat) : Z :=
  foldr (fun j z => if rc (j + 7 * ir) then Z.lor (Z.shiftl 1 (2 ^ Z.of_nat j - 1)) z else z) 0 (seq 0 7).
Definition fips_iota (A : list Z) (ir : nat) : list Z :=
  of_lanes (fun x y => if (x =? 0)%nat && (y =? 0)%nat then Z.lxor (lane A x y) (RC ir) else lane A x y).

Definition fips_Rnd (A : list Z) (ir : nat) : list Z :=
  fips_iota (fips_chi (fips_pi (fips_rho (fips_theta A)))) ir.
Definition fips_f (A : list Z) : list Z := foldl fips_Rnd A (seq 0 24).

(** Sections 4 and 5: multi-rate padding of a byte string with the domain
    [suffix], and the sponge with a rate of [r] words. *)
Definition pad (r : nat) (suffix : Z) (len : nat) : list Z :=
  let q := (8 * r - len mod (8 * r))%nat in
  if (q =? 1)%nat then [Z.lor suffix 0x80] else suffix :: replicate (q - 2) 0 ++ [0x80].

Fixpoint words (n : nat) (bs : list Z) : list Z :=
  match n with O => [] | S n => load_le (take 8 bs) :: words n (drop 8 bs) end.
Definition xor_words (A ws : list Z) : list Z :=
  zip_with Z.lxor (take (length ws) A) ws ++ drop (length ws) A.
Fixpoint fips_absorb (n : nat) (r : nat) (A : list Z) (P : list Z) : list Z :=
  match n with
  | O => A
  | S n => fips_absorb n r (fips_f (xor_words A (words r (take (8 * r) P)))) (drop (8 * r) P)
  end.
Definition sponge (r : nat) (suffix : Z) (msg : list Z) : list Z :=
  let P := msg ++ pad r suffix (length msg) in
  state_bytes (fips_absorb (length P / (8 * r)) r (replicate 25 0) P).

(** ** The permutation is FIPS 202's *)

(** A state of 25 lanes, lane by lane. *)
Lemma lanes_25 (st : list Z) : length st = 25%nat -> of_lanes (lane st) = st.
Proof. intros H. do 25 (destruct st as [|? st]; [done|]). by destruct st. Qed.

Ltac each_lane st :=
  do 25 (destruct st as [|? st]; [done|]); destruct st; [|done].

Lemma theta_fips st : length st = 25%nat -> theta st = fips_theta st.
Proof. intros H. each_lane st. reflexivity. Qed.

Lemma rho_pi_fips st : length st = 25%nat -> rho_pi st = fips_pi (fips_rho st).
Proof. intros H. each_lane st. reflexivity. Qed.

Lemma chi_fips st : length st = 25%nat -> chi st = fips_chi st.
Proof. intros H. each_lane st. reflexivity. Qed.

Lemma rndc_fips : keccakf_rndc = RC <$> seq 0 24.
Proof. vm_compute. reflexivity. Qed.

Lemma iota_fips st ir : length st = 25%nat -> (ir < 24)%nat -> iota st (Z.of_nat ir) = Ok (fips_iota st ir).
Proof.
  intros H Hir. unfold iota, aget. rewrite (proj2 (Z.ltb_ge _ _)), Nat2Z.id by lia.
  rewrite rndc_fips, list_lookup_fmap, lookup_seq_lt by done. cbn [fmap option_fmap option_map mbind result_bind].
  each_lane st. unfold fips_iota. change (0 + ir)%nat with ir. by generalize (RC ir).
Qed.

Lemma length_of_lanes f : length (of_lanes f) = 25%nat.
Proof. apply length_fmap. Qed.

Lemma keccak_round_fips st ir : length st = 25%nat -> (ir < 24)%nat ->
  keccak_round st (Z.of_nat ir) = Ok (fips_Rnd st ir).
Proof.
  intros H Hir. unfold keccak_round, fips_Rnd.
  rewrite theta_fips, rho_pi_fips, chi_fips, iota_fips by (done || apply length_of_lanes). done.
Qed.

Lemma rounds_fips n : forall st i, length st = 25%nat -> (i + n <= 24)%nat ->
  rounds_from n (Z.of_nat i) st = Ok (foldl fips_Rnd st (seq i n)) /\
  length (foldl fips_Rnd st (seq i n)) = 25%nat.
Proof.
  induction n as [|n IH]; intros st i H Hi; [done|]. cbn [rounds_from seq foldl].
  rewrite keccak_round_fips by (done || lia). cbn [mbind result_bind].
  replace (Z.of_nat i + 1) with (Z.of_nat (S i)) by lia. apply IH; [apply length_of_lanes|lia].
Qed.

Lemma keccakf_ok st : length st = 25%nat -> keccakf st KECCAK_ROUNDS = Ok (fips_f st).
Proof. intros H. by apply (rounds_fips 24 st 0). Qed.

Lemma length_fips_f st : length st = 25%nat -> length (fips_f st) = 25%nat.
Proof. intros H. by apply (rounds_fips 24 st 0). Qed.

#[local] Opaque fips_f keccakf.

(** ** Words and bytes *)

Lemma length_sponge_words n bs : length (words n bs) = n.
Proof. revert bs. induction n as [|n IH]; intros bs; [done|]. cbn [words length]. by rewrite IH. Qed.

Lemma words_app n k bs bs' : length bs = (8 * n)%nat -> words (n + k) (bs ++ bs') = words n bs ++ words k bs'.
Proof.
  revert bs. induction n as [|n IH]; intros bs Hl.
  - by destruct bs.
  - cbn [Nat.add words app]. rewrite take_app_le, drop_app_le by lia. f_equal.
    apply IH. rewrite length_drop. lia.
Qed.

Lemma words_take n bs : words n (take (8 * n) bs) = words n bs.
Proof.
  revert bs. induction n as [|n IH]; intros bs; [done|]. cbn [words]. rewrite take_take. f_equal.
  - f_equal. f_equal. lia.
  - rewrite <- (IH (drop 8 bs)), take_drop_commute. do 3 f_equal. lia.
Qed.

Lemma length_xor_words A ws : (length ws <= length A)%nat -> length (xor_words A ws) = length A.
Proof.
  intros H. unfold xor_words. rewrite length_app, length_zip_with, length_take, length_drop. lia.
Qed.

Lemma xor_words_lookup A ws i : (length ws <= length A)%nat ->
  xor_words A ws !! i = match ws !! i with Some w => (fun a => Z.lxor a w) <$> A !! i | None => A !! i end.
Proof.
  intros H. unfold xor_words. destruct (ws !! i) as [w|] eqn:E.
  - pose proof (lookup_lt_Some _ _ _ E).
    rewrite lookup_app_l by (rewrite length_zip_with, length_take; lia).
    rewrite lookup_zip_with, lookup_take_lt by done. rewrite E. by destruct (A !! i).
  - apply lookup_ge_None in E.
    rewrite lookup_app_r by (rewrite length_zip_with, length_take; lia).
    rewrite length_zip_with, length_take, lookup_drop. f_equal. lia.
Qed.

(** One more word is one more update. *)
Lemma xor_words_snoc A ws w : (length ws < length A)%nat ->
  xor_words A (ws ++ [w]) = <[length ws := Z.lxor (xor_words A ws !!! length ws) w]> (xor_words A ws).
Proof.
  intros H. apply list_eq. intros i.
  assert (xor_words A ws !!! length ws = A !!! length ws) as ->.
  { rewrite !list_lookup_total_alt, xor_words_lookup by lia. by rewrite lookup_ge_None_2 by done. }
  rewrite xor_words_lookup by (rewrite length_app; simpl; lia).
  destruct (decide (i = length ws)) as [->|Hne].
  - rewrite list_lookup_insert_eq by (rewrite length_xor_words; lia).
    rewrite lookup_app_r, Nat.sub_diag by done. cbn.
    destruct (lookup_lt_is_Some_2 A (length ws) H) as [a Ha].
    by rewrite list_lookup_total_alt, Ha.
  - rewrite list_lookup_insert_ne by done. rewrite xor_words_lookup by lia.
    destruct (decide (i < length ws)%nat); [by rewrite lookup_app_l by done|].
    by rewrite (lookup_ge_None_2 (ws ++ _)), (lookup_ge_None_2 ws) by (rewrite ?length_app; simpl; lia).
Qed.

Lemma aget_total_ok (l : list Z) i : (i < length l)%nat -> aget l (Z.of_nat i) = Ok (l !!! i).
Proof.
  intros H. unfold aget. rewrite (proj2 (Z.ltb_ge _ _)), Nat2Z.id by lia.
  by rewrite (list_lookup_lookup_total_lt l i H).
Qed.

Lemma aset_total_ok (l : list Z) i x : (i < length l)%nat -> aset l (Z.of_nat i) x = Ok (<[i := x]> l).
Proof. intros H. rewrite aset_ok by lia. by rewrite Nat2Z.id. Qed.

(** The loop over the words of a block in memory. *)
Lemma xor_block_ok n : forall ws m off A, length A = 25%nat -> (length ws + n <= 25)%nat -> 0 <= off ->
  off + 8 * Z.of_nat (length ws + n) <= msize m ->
  xor_block n (Z.of_nat (length ws)) m off (xor_words A ws) =
  Ok (xor_words A (ws ++ words n (drop (Z.to_nat off + 8 * length ws) m))).
Proof.
  induction n as [|n IH]; intros ws m off A HA Hn Ho Hm; cbn [xor_block words].
  { by rewrite app_nil_r. }
  rewrite aget_total_ok by (rewrite length_xor_words; lia). cbn [mbind result_bind].
  unfold mload64. rewrite mload_ok by lia. cbn [mbind result_bind mret result_ret].
  rewrite aset_total_ok by (rewrite length_xor_words; lia). cbn [mbind result_bind].
  rewrite <- xor_words_snoc by lia.
  replace (Z.of_nat (length ws) + 1) with (Z.of_nat (length (ws ++ [load_le (chunk m (off + 8 * Z.of_nat (length ws)) 8)])))
    by (rewrite length_app; simpl; lia).
  rewrite IH by (try done; rewrite ?length_app; cbn [length]; lia). do 2 f_equal.
  rewrite <- app_assoc. cbn [app]. do 2 f_equal.
  - unfold chunk. do 2 f_equal. change (Z.to_nat 8) with 8%nat. f_equal. lia.
  - f_equal. rewrite drop_drop. f_equal. rewrite length_app. simpl. lia.
Qed.

Lemma xor_block_0 n m off A : length A = 25%nat -> (n <= 25)%nat -> 0 <= off ->
  off + 8 * Z.of_nat n <= msize m ->
  xor_block n 0 m off A = Ok (xor_words A (words n (drop (Z.to_nat off) m))).
Proof.
  intros HA Hn Ho Hm. pose proof (xor_block_ok n [] m off A HA Hn Ho Hm) as E.
  rewrite Nat.mul_0_r, Nat.add_0_r in E. unfold xor_words in E at 1. exact E.
Qed.

(** ** Absorbing blocks *)

Section Sponge.
Context (r : nat) (Hr : (1 <= r <= 24)%nat).

Lemma fips_block_length A ws : length A = 25%nat -> length ws = r -> length (fips_f (xor_words A ws)) = 25%nat.
Proof. intros HA Hw. apply length_fips_f. rewrite length_xor_words; lia. Qed.

Lemma fips_absorb_cons n A P :
  fips_absorb (S n) r A P = fips_absorb n r (fips_f (xor_words A (words r (take (8 * r) P)))) (drop (8 * r) P).
Proof. reflexivity. Qed.

Lemma length_fips_absorb n A P : length A = 25%nat -> length (fips_absorb n r A P) = 25%nat.
Proof.
  revert A P. induction n as [|n IH]; intros A P HA; [done|]. cbn [fips_absorb].
  apply IH, fips_block_length; [done|apply length_sponge_words].
Qed.

(** Absorbing the first blocks looks at their bytes only. *)
Lemma fips_absorb_take n A P k : (8 * r * n <= k)%nat -> fips_absorb n r A (take k P) = fips_absorb n r A P.
Proof.
  revert A P k. induction n as [|n IH]; intros A P k Hk; [done|]. cbn [fips_absorb].
  by rewrite take_take, skipn_firstn_comm, IH, Nat.min_l by lia.
Qed.

Lemma fips_absorb_S n A P : fips_absorb (S n) r A P =
  fips_f (xor_words (fips_absorb n r A P) (words r (drop (8 * r * n) P))).
Proof.
  revert A P. induction n as [|n IH]; intros A P.
  - cbn [fips_absorb]. by rewrite words_take, Nat.mul_0_r, drop_0.
  - cbn [fips_absorb] in *. rewrite IH, drop_drop. replace (8 * r * S n)%nat with (8 * r + 8 * r * n)%nat by lia. done.
Qed.

Lemma absorb_loop_step fuel m off inlen A : length A = 25%nat -> 0 <= off -> 8 * Z.of_nat r <= inlen ->
  off + inlen <= msize m ->
  absorb_loop (S fuel) (8 * Z.of_nat r) m off inlen A =
  absorb_loop fuel (8 * Z.of_nat r) m (off + 8 * Z.of_nat r) (inlen - 8 * Z.of_nat r)
    (fips_f (xor_words A (words r (drop (Z.to_nat off) m)))).
Proof.
  intros HA Ho E Hm. cbn [absorb_loop]. rewrite (proj2 (Z.leb_le _ _)) by done.
  replace (8 * Z.of_nat r / 8) with (Z.of_nat r) by (rewrite Z.mul_comm, Z.div_mul; lia).
  rewrite Nat2Z.id, xor_block_0, ok_bind by lia.
  rewrite keccakf_ok, ok_bind by (rewrite length_xor_words; rewrite ?length_sponge_words; lia). exact eq_refl.
Qed.

Lemma absorb_loop_ok m : forall fuel off inlen A, length A = 25%nat -> 0 <= off -> 0 <= inlen ->
  off + inlen <= msize m -> inlen < 8 * Z.of_nat r * Z.of_nat fuel ->
  absorb_loop fuel (8 * Z.of_nat r) m off inlen A =
  Ok (fips_absorb (Z.to_nat (inlen / (8 * Z.of_nat r))) r A (drop (Z.to_nat off) m),
      off + 8 * Z.of_nat r * (inlen / (8 * Z.of_nat r)), inlen mod (8 * Z.of_nat r)).
Proof.
  induction fuel as [|fuel IH]; intros off inlen A HA Ho Hi Hm Hf; [lia|].
  destruct (Z.le_gt_cases (8 * Z.of_nat r) inlen) as [E|E].
  - rewrite absorb_loop_step, IH; [|by (apply fips_block_length; [|apply length_sponge_words])|lia || done..].
    assert ((inlen - 8 * Z.of_nat r) / (8 * Z.of_nat r) = inlen / (8 * Z.of_nat r) - 1) as Hd.
    { replace (inlen - 8 * Z.of_nat r) with (inlen + (-1) * (8 * Z.of_nat r)) by lia. rewrite Z.div_add; lia. }
    assert (1 <= inlen / (8 * Z.of_nat r)) by (apply Z.div_le_lower_bound; lia).
    rewrite Hd. f_equal. f_equal; [f_equal|].
    + replace (Z.to_nat (inlen / (8 * Z.of_nat r))) with (S (Z.to_nat (inlen / (8 * Z.of_nat r) - 1))) by lia.
      rewrite fips_absorb_cons, words_take, drop_drop. do 2 f_equal. lia.
    + lia.
    + replace (inlen - 8 * Z.of_nat r) with (inlen + (-1) * (8 * Z.of_nat r)) by lia. by rewrite Z.mod_add by lia.
  - cbn [absorb_loop]. rewrite (proj2 (Z.leb_gt _ _)) by done.
    rewrite Z.div_small, Z.mod_small by lia. cbn [Z.to_nat fips_absorb].
    by rewrite Z.mul_0_r, Z.add_0_r.
Qed.

Lemma length_pad suffix len : length (pad r suffix len) = (8 * r - len mod (8 * r))%nat.
Proof.
  unfold pad. pose proof (Nat.mod_upper_bound len (8 * r) ltac:(lia)).
  destruct (_ =? 1)%nat eqn:E; [apply Nat.eqb_eq in E; by rewrite E|]. apply Nat.eqb_neq in E.
  cbn [length]. rewrite length_app, length_replicate. cbn [length]. lia.
Qed.

(** A message with [k] whole blocks and [rest]: the padded last block is one. *)
Lemma sponge_last suffix msg : let k := (length msg / (8 * r))%nat in
  sponge r suffix msg =
  state_bytes (fips_f (xor_words (fips_absorb k r (replicate 25 0) msg)
    (words r (drop (8 * r * k) msg ++ pad r suffix (length msg))))).
Proof.
  intros k. unfold sponge. rewrite length_app, length_pad.
  pose proof (Nat.div_mod_eq (length msg) (8 * r)) as Hd. fold k in Hd.
  pose proof (Nat.mod_upper_bound (length msg) (8 * r) ltac:(lia)) as Hu.
  replace ((length msg + (8 * r - length msg mod (8 * r))) / (8 * r))%nat with (S k).
  2:{ apply (Nat.div_unique _ _ _ 0); lia. }
  rewrite fips_absorb_S, drop_app_le by lia.
  rewrite <- (fips_absorb_take k _ (msg ++ _) (8 * r * k)), take_app_le, fips_absorb_take by lia. exact eq_refl.
Qed.

(** The padding [keccak] writes over a buffer of 144 bytes. *)
Lemma pad_block_ok temp m off inlen : msize temp = 144 -> (r <= 18)%nat -> 0 <= off ->
  0 <= inlen < 8 * Z.of_nat r -> off + inlen <= msize m ->
  exists rest, pad_block temp (8 * Z.of_nat r) m off inlen =
    Ok (chunk m off inlen ++ pad r 1 (Z.to_nat inlen) ++ rest) /\ msize (chunk m off inlen ++ pad r 1 (Z.to_nat inlen) ++ rest) = 144.
Proof.
  intros Ht Hr18 Ho Hi Hm. unfold pad_block. rewrite mload_ok by lia. cbn [mbind result_bind].
  pose proof (length_chunk m off inlen Ho (proj1 Hi) Hm) as Hc. unfold msize in *.
  set (bs := chunk m off inlen) in *. rewrite mstore_ok by (unfold msize; lia). cbn [mbind result_bind].
  pose proof (msize_splice temp 0 bs ltac:(lia) ltac:(unfold msize; lia)) as S1. unfold msize in S1.
  rewrite aset_ok by lia. cbn [mbind result_bind].
  rewrite mstore_ok by (unfold msize; rewrite ?length_replicate, ?length_insert; lia). cbn [mbind result_bind].
  set (q := (8 * r - Z.to_nat inlen)%nat).
  assert (splice (<[Z.to_nat inlen := 1]> (splice temp 0 bs)) (inlen + 1) (replicate (Z.to_nat (8 * Z.of_nat r - (inlen + 1))) 0)
    = bs ++ (1 :: replicate (q - 1) 0) ++ drop (8 * r) temp) as ->.
  { unfold splice. cbn [Z.to_nat]. rewrite take_0. cbn [app Nat.add].
    rewrite <- Hc. change (Z.to_nat 0 + length bs)%nat with (length bs).
    destruct (drop (length bs) temp) as [|x tl] eqn:Ed.
    { apply (f_equal length) in Ed. rewrite length_drop in Ed. simpl in Ed. lia. }
    rewrite insert_app_r_alt, Nat.sub_diag by done. cbn [insert list_insert].
    rewrite take_app_ge by lia. replace (Z.to_nat (inlen + 1) - length bs)%nat with 1%nat by lia. cbn [take].
    rewrite drop_app_ge by lia. rewrite length_replicate, <- app_assoc, take_0.
    replace (Z.to_nat (8 * Z.of_nat r - (inlen + 1))) with (q - 1)%nat by lia. cbn [app]. do 3 f_equal.
    replace (Z.to_nat (inlen + 1) + (q - 1) - length bs)%nat with (S (q - 1)) by lia. cbn [drop].
    replace tl with (drop 1 (drop (length bs) temp)) by (by rewrite Ed).
    rewrite !drop_drop. f_equal. lia. }
  assert (length (bs ++ (1 :: replicate (q - 1) 0) ++ drop (8 * r) temp) = 144%nat) as Hl.
  { rewrite !length_app. cbn [length]. rewrite length_replicate, length_drop. lia. }
  destruct (aget_total (bs ++ (1 :: replicate (q - 1) 0) ++ drop (8 * r) temp) (8 * Z.of_nat r - 1)) as (x & -> & Hx);
    [lia|]. cbn [mbind result_bind].
  rewrite aset_ok by lia. exists (drop (8 * r) temp).
  assert (<[Z.to_nat (8 * Z.of_nat r - 1) := Z.lor x 0x80]> (bs ++ (1 :: replicate (q - 1) 0) ++ drop (8 * r) temp)
    = bs ++ pad r 1 (Z.to_nat inlen) ++ drop (8 * r) temp) as E; [|rewrite E; split; [done|rewrite <- E, length_insert; lia]].
  rewrite insert_app_r_alt by lia. f_equal.
  rewrite lookup_app_r in Hx by lia. rewrite Hc in *.
  unfold pad. rewrite Nat.mod_small by lia. fold q.
  destruct (q =? 1)%nat eqn:Eq.
  - apply Nat.eqb_eq in Eq. rewrite Eq in *. replace (Z.to_nat (8 * Z.of_nat r - 1) - Z.to_nat inlen)%nat with 0%nat in * by lia.
    cbn in Hx |- *. by injection Hx as <-.
  - apply Nat.eqb_neq in Eq.
    assert (1 :: replicate (q - 1) 0 = (1 :: replicate (q - 2) 0) ++ [0]) as Er.
    { replace (q - 1)%nat with (q - 2 + 1)%nat by lia. by rewrite replicate_add. }
    rewrite Er, <- app_assoc in *.
    assert (length (1%Z :: replicate (q - 2) 0%Z) = Z.to_nat (8 * Z.of_nat r - 1) - Z.to_nat inlen)%nat as Hlen
      by (cbn [length]; rewrite length_replicate; lia).
    rewrite <- Hlen, lookup_app_r, Nat.sub_diag in Hx by done. injection Hx as <-.
    rewrite <- Hlen, insert_app_r_alt, Nat.sub_diag by done. cbn [app insert list_insert]. by rewrite <- app_assoc.
Qed.

End Sponge.

(** ** The one-shot hash is the sponge *)

Lemma length_state_bytes st : length (state_bytes st) = (8 * length st)%nat.
Proof.
  induction st as [|x st IH]; [done|]. change (state_bytes (x :: st)) with (store_le 8 x ++ state_bytes st).
  rewrite length_app, length_store_le, IH by lia. cbn [length]. lia.
Qed.

(** The digest sizes [keccak] is defined for, with their rates in words: its
    last block has to fit the 144 bytes of [temp] and to be whole words, and
    200 asks for the whole state at rate 136. *)
Definition md_rate (mdlen : Z) (r : nat) : Prop :=
  (mdlen = 200 /\ r = 17%nat) \/
  (28 <= mdlen <= 96 /\ mdlen mod 4 = 0 /\ Z.of_nat r = (200 - 2 * mdlen) / 8).

Lemma md_rate_rsiz mdlen r : md_rate mdlen r ->
  (if mdlen =? 200 then HASH_DATA_AREA else 200 - 2 * mdlen) = 8 * Z.of_nat r /\ (1 <= r <= 18)%nat /\ 0 <= mdlen <= 200.
Proof.
  intros [[-> ->]|(Hm & H4 & Hr)]; [split; [reflexivity|lia]|].
  rewrite (proj2 (Z.eqb_neq _ _)) by lia. Z.div_mod_to_equations. lia.
Qed.

Lemma keccak_ok temp inp inlen mdlen r : msize temp = 144 -> 0 <= inlen <= msize inp -> md_rate mdlen r ->
  keccak temp inp inlen mdlen = Ok (take (Z.to_nat mdlen) (sponge r 1 (take (Z.to_nat inlen) inp))).
Proof.
  intros Ht Hi Hmd. destruct (md_rate_rsiz _ _ Hmd) as (Hrs & Hr & Hm). unfold keccak. cbn zeta. rewrite Hrs.
  assert (1 <= r <= 24)%nat as Hr24 by lia. set (R := 8 * Z.of_nat r).
  set (msg := take (Z.to_nat inlen) inp).
  assert (length msg = Z.to_nat inlen) as Hlm by (unfold msg, msize in *; rewrite length_take; lia).
  pose proof (Z.div_mod inlen R ltac:(lia)) as Hdm. pose proof (Z.mod_pos_bound inlen R ltac:(lia)) as Hmb.
  assert (0 <= inlen / R) as Hd0 by (apply Z.div_pos; lia).
  unfold R at 1. rewrite (absorb_loop_ok r Hr24), ok_bind; [|done|lia|lia|lia|nia]. cbn beta iota. fold R.
  destruct (pad_block_ok r Hr24 temp inp (R * (inlen / R)) (inlen mod R)) as (rest & Ep & Es); [lia..|].
  rewrite Z.add_0_l. unfold R at 1. fold R in Ep. rewrite Ep, ok_bind. cbn beta.
  replace (8 * Z.of_nat r / 8) with (Z.of_nat r) by (rewrite Z.mul_comm, Z.div_mul; lia). rewrite Nat2Z.id.
  change (drop (Z.to_nat 0) inp) with (drop 0 inp). rewrite drop_0.
  set (k := Z.to_nat (inlen / R)).
  assert (length (fips_absorb k r (replicate 25 0) inp) = 25%nat) as HlA by by apply length_fips_absorb.
  rewrite xor_block_0, ok_bind; [|done|lia|lia|unfold msize in *; lia].
  rewrite keccakf_ok, ok_bind by (rewrite length_xor_words; rewrite ?length_sponge_words; lia).
  rewrite mload_ok; [|lia|lia|unfold msize; rewrite length_state_bytes, length_fips_f; [lia|]];
    [|rewrite length_xor_words; rewrite ?length_sponge_words; lia].
  assert (forall l n, chunk l 0 n = take (Z.to_nat n) l) as -> by (intros; unfold chunk; by rewrite drop_0).
  change (drop (Z.to_nat 0)) with (@drop Z 0). rewrite !drop_0.
  rewrite (sponge_last r Hr24 1 msg), Hlm.
  assert (Z.to_nat inlen / (8 * r) = k)%nat as ->.
  { unfold k, R. rewrite Z2Nat.inj_div by lia. f_equal. lia. }
  assert (8 * r * k = Z.to_nat (R * (inlen / R)))%nat as Hrk by (unfold k, R; nia).
  assert (drop (8 * r * k) msg = chunk inp (R * (inlen / R)) (inlen mod R)) as ->.
  { unfold msg, chunk. rewrite skipn_firstn_comm, Hrk. f_equal. lia. }
  assert (fips_absorb k r (replicate 25 0) msg = fips_absorb k r (replicate 25 0) inp) as ->
    by (apply fips_absorb_take; nia).
  assert (pad r 1 (Z.to_nat inlen) = pad r 1 (Z.to_nat (inlen mod R))) as ->.
  { unfold pad. rewrite Z2Nat.inj_mod by lia. replace (Z.to_nat R) with (8 * r)%nat by lia.
    by rewrite Nat.Div0.mod_mod. }
  rewrite app_assoc, <- (words_take r ((_ ++ _) ++ rest)), take_app_length'; [exact eq_refl|].
  rewrite length_app, length_pad, length_chunk by lia. rewrite Nat.mod_small by lia. lia.
Qed.

(** ** The streaming context *)

Lemma load_le_cons b bs : load_le (b :: bs) = Z.lor b (Z.shiftl (load_le bs) 8).
Proof. reflexivity. Qed.

Lemma load_le_snoc p b : load_le (p ++ [b]) = Z.lor (load_le p) (Z.shiftl b (8 * Z.of_nat (length p))).
Proof.
  induction p as [|x p IH]; cbn [app].
  - rewrite load_le_cons. cbn. by rewrite Z.lor_0_r, Z.shiftl_0_r.
  - rewrite !load_le_cons, IH, Z.shiftl_lor, Z.shiftl_shiftl, Z.lor_assoc by lia. do 2 f_equal. cbn [length]. lia.
Qed.

Lemma save_byte p b : Forall is_u8 p -> is_u8 b -> (length p < 8)%nat ->
  Z.lor (load_le p) (shl64 b (Z.of_nat (length p) * 8)) = load_le (p ++ [b]).
Proof.
  intros Hp Hb Hl. rewrite load_le_snoc, (Z.mul_comm _ 8). f_equal. apply u64_id.
  unfold is_u64, is_u8 in *. rewrite Z.shiftl_mul_pow2 by lia.
  pose proof (Z.pow_le_mono_r 2 (8 * Z.of_nat (length p)) 56 ltac:(lia) ltac:(lia)).
  assert (0 < 2 ^ (8 * Z.of_nat (length p))) by (apply Z.pow_pos_nonneg; lia). nia.
Qed.

Lemma word_of_load w : length w = 8%nat -> word_of w = load_le w.
Proof.
  intros H. do 8 (destruct w as [|? w]; [done|]). destruct w; [|done].
  rewrite !load_le_cons. change (load_le []) with 0. unfold word_of. cbn -[Z.lor Z.shiftl].
  by rewrite !Z.shiftl_lor, !Z.shiftl_shiftl, ?Z.shiftl_0_l, ?Z.shiftl_0_r by lia.
Qed.

(** Words of byte strings combined by xor. *)
Lemma lor_byte_lxor a X : is_u8 a -> Z.lor a (Z.shiftl X 8) = Z.lxor a (Z.shiftl X 8).
Proof.
  intros Ha. symmetry. apply Z.lxor_lor. apply Z.bits_inj'. intros i Hi. rewrite Z.land_spec, Z.bits_0.
  destruct (Z.lt_ge_cases i 8).
  - rewrite Z.shiftl_spec_low by done. apply andb_false_r.
  - by rewrite (proj1 (bits_bound 8 a ltac:(lia) (proj1 Ha)) (proj2 Ha)).
Qed.

Lemma load_le_lxor a b : length a = length b -> Forall is_u8 a -> Forall is_u8 b ->
  load_le (zip_with Z.lxor a b) = Z.lxor (load_le a) (load_le b).
Proof.
  revert b. induction a as [|x a IH]; intros [|y b] Hl Ha Hb; try done.
  apply Forall_cons in Ha as [Hx Ha]. apply Forall_cons in Hb as [Hy Hb]. cbn [zip_with].
  rewrite !load_le_cons, !lor_byte_lxor by (done || by apply (lxor_bound 8)).
  rewrite IH, Z.shiftl_lxor by (done || by injection Hl). rewrite !Z.lxor_assoc. f_equal.
  rewrite <- !Z.lxor_assoc. f_equal. apply Z.lxor_comm.
Qed.

Lemma words_lxor n : forall a b, length a = length b -> Forall is_u8 a -> Forall is_u8 b ->
  words n (zip_with Z.lxor a b) = zip_with Z.lxor (words n a) (words n b).
Proof.
  induction n as [|n IH]; intros a b Hl Ha Hb; [done|]. cbn [words zip_with].
  rewrite zip_with_take, zip_with_drop, load_le_lxor, IH;
    try by (rewrite ?length_take, ?length_drop; lia) || by apply Forall_take || by apply Forall_drop.
  done.
Qed.

Lemma load_le_zeros n : load_le (replicate n 0) = 0.
Proof. induction n as [|n IH]; [done|]. cbn [replicate]. by rewrite load_le_cons, IH. Qed.

Lemma load_le_app_zeros l n : load_le (l ++ replicate n 0) = load_le l.
Proof. induction l as [|x l IH]; cbn [app]; [apply load_le_zeros|]. by rewrite !load_le_cons, IH. Qed.

Lemma words_zeros n k : (8 * n <= k)%nat -> words n (replicate k 0) = replicate n 0.
Proof.
  revert k. induction n as [|n IH]; intros k Hk; [done|]. cbn [words replicate].
  rewrite take_replicate, load_le_zeros, drop_replicate, IH by lia. done.
Qed.

Lemma xor_words_zeros A ws n : (length ws + n <= length A)%nat ->
  xor_words A (ws ++ replicate n 0) = xor_words A ws.
Proof.
  intros H. apply list_eq. intros i.
  rewrite !xor_words_lookup by (rewrite ?length_app, ?length_replicate; lia).
  destruct (decide (i < length ws)%nat); [by rewrite lookup_app_l by done|].
  rewrite lookup_app_r, (lookup_ge_None_2 ws) by lia.
  destruct (replicate n 0 !! (i - length ws)%nat) as [w|] eqn:E; [|done].
  apply lookup_replicate in E as [-> _]. destruct (A !! i); [|done]. cbn. by rewrite Z.lxor_0_r.
Qed.

Lemma xor_words_zip A ws vs : length ws = length vs -> (length ws <= length A)%nat ->
  xor_words A (zip_with Z.lxor ws vs) = xor_words (xor_words A ws) vs.
Proof.
  intros Hl H. apply list_eq. intros i.
  rewrite !xor_words_lookup by (rewrite ?length_zip_with, ?length_xor_words; lia).
  rewrite lookup_zip_with. destruct (ws !! i) as [w|] eqn:Ew; cbn.
  - destruct (lookup_lt_is_Some_2 vs i) as [v ->]; [rewrite <- Hl; by eapply lookup_lt_Some|]. cbn.
    destruct (A !! i); [|done]. cbn. by rewrite Z.lxor_assoc.
  - rewrite (lookup_ge_None_2 vs); [done|]. rewrite <- Hl. by apply lookup_ge_None.
Qed.

(** The word [sha3_Finalize] adds for a partial word [p] and a suffix byte. *)
Lemma suffix_word p sf : Forall is_u8 p -> (length p < 8)%nat -> is_u8 sf ->
  Z.lxor (load_le p) (shl64 sf (Z.of_nat (length p) * 8)) = load_le (p ++ [sf]).
Proof.
  intros HB Hp Hsf. rewrite <- save_byte by done. apply Z.lxor_lor. apply Z.bits_inj'. intros i Hi.
  rewrite Z.land_spec, Z.bits_0. destruct (Z.lt_ge_cases i (8 * Z.of_nat (length p))).
  - unfold shl64, u64. rewrite Z.land_spec, Z.shiftl_spec_low by lia. by rewrite andb_false_l, andb_false_r.
  - pose proof (load_le_bound p HB) as [Hb0 Hb1].
    by rewrite (proj1 (bits_bound (8 * Z.of_nat (length p)) (load_le p) ltac:(lia) Hb0) Hb1).
Qed.

Section Stream.
Context (r : nat) (Hr : (1 <= r <= 24)%nat).
Abbreviation zeros := (replicate 25 0) (only parsing).

(** After the whole words [m] and the partial word [p]: [k] blocks were
    absorbed and [j] words of the next. *)
Record repr (ctx : sha3_context) (m p : list Z) (k j : nat) : Prop := {
  rp_words : length m = (8 * (r * k + j))%nat;
  rp_j : (j < r)%nat;
  rp_s : s ctx = xor_words (fips_absorb k r zeros m) (words j (drop (8 * r * k) m));
  rp_wordIndex : wordIndex ctx = Z.of_nat j;
  rp_saved : saved ctx = load_le p;
  rp_byteIndex : byteIndex ctx = Z.of_nat (length p);
  rp_bytes : Forall is_u8 p;
  rp_cap : SHA3_CW (capacityWords ctx) = 25 - Z.of_nat r }.

Lemma save_bytes_ok n : forall buf ctx m p k j, repr ctx m p k j -> (length p + n <= 8)%nat ->
  (n <= length buf)%nat -> Forall is_u8 buf ->
  exists ctx', save_bytes n buf ctx = Ok (drop n buf, ctx') /\ repr ctx' m (p ++ take n buf) k j /\
    capacityWords ctx' = capacityWords ctx.
Proof.
  induction n as [|n IH]; intros buf ctx m p k j R Hp Hb HB.
  - exists ctx. by rewrite drop_0, take_0, app_nil_r.
  - destruct buf as [|b buf]; [simpl in Hb; lia|]. apply Forall_cons in HB as [Hb8 HB]. cbn [save_bytes].
    edestruct (IH buf) as (ctx' & E & R' & Ec); cycle 4.
    { exists ctx'. cbn [drop take]. split; [exact E|]. rewrite (cons_middle b p), app_assoc. split; [exact R'|exact Ec]. }
    { destruct R. split; try done; cbn; [|rewrite rp_byteIndex0, length_app; cbn; lia|by apply Forall_app_2, Forall_singleton].
      rewrite rp_saved0, rp_byteIndex0. apply save_byte; [done..|lia]. }
    { rewrite length_app. cbn. lia. }
    { simpl in Hb. lia. }
    { done. }
Qed.

(** A completed word. *)
Lemma add_word_ok ctx m p k j w : repr ctx m p k j -> length w = 8%nat ->
  exists ctx' k' j', add_word ctx (load_le w) = Ok ctx' /\ repr ctx' (m ++ w) p k' j' /\
    capacityWords ctx' = capacityWords ctx.
Proof.
  intros [Hm Hj Hs Hwi Hsv Hbi HB Hc] Hw. set (A := fips_absorb k r zeros m) in *.
  assert (length A = 25%nat) as HA by by apply length_fips_absorb.
  set (ws := words j (drop (8 * r * k) m)) in *. assert (length ws = j) as Hws by apply length_sponge_words.
  unfold add_word. rewrite Hwi, Hs, aget_total_ok, ok_bind by (rewrite length_xor_words; lia).
  rewrite aset_total_ok, ok_bind by (rewrite length_xor_words; lia).
  pose proof (xor_words_snoc A ws (load_le w) ltac:(lia)) as Hsnoc. rewrite Hws in Hsnoc. rewrite <- Hsnoc.
  assert (ws ++ [load_le w] = words (S j) (drop (8 * r * k) (m ++ w))) as Hsn.
  { rewrite drop_app_le by lia. replace (S j) with (j + 1)%nat by lia.
    rewrite words_app by (rewrite length_drop; lia). cbn [words]. by rewrite take_ge by lia. }
  assert (forall n, (n <= k)%nat -> fips_absorb n r zeros (m ++ w) = fips_absorb n r zeros m) as Habs.
  { intros n Hn. rewrite <- (fips_absorb_take r Hr n _ (m ++ w) (length m)), take_app_length by nia. done. }
  rewrite Hc. unfold SHA3_KECCAK_SPONGE_WORDS. destruct (Z.of_nat j + 1 =? 25 - (25 - Z.of_nat r)) eqn:E.
  - apply Z.eqb_eq in E. rewrite keccakf_ok, ok_bind by (rewrite length_xor_words; rewrite ?length_app; cbn; lia).
    eexists _, (S k), 0%nat. split; [exact eq_refl|]. split; [|done].
    split; try done; cbn [s wordIndex saved byteIndex capacityWords]; [rewrite length_app; nia|lia|].
    rewrite fips_absorb_S, Habs by done. fold A. rewrite Hsn. replace (S j) with r by lia. exact eq_refl.
  - apply Z.eqb_neq in E. eexists _, k, (S j). split; [exact eq_refl|]. split; [|done].
    split; try done; cbn [s wordIndex saved byteIndex capacityWords]; [rewrite length_app; nia|lia| |lia].
    rewrite Habs by done. fold A. by rewrite Hsn.
Qed.

Lemma repr_saved ctx m p k j p' c' : repr ctx m p k j -> Forall is_u8 p' -> saved c' = load_le p' ->
  byteIndex c' = Z.of_nat (length p') -> s c' = s ctx -> wordIndex c' = wordIndex ctx ->
  capacityWords c' = capacityWords ctx -> repr c' m p' k j.
Proof. intros [] HB H1 H2 H3 H4 H5. split; congruence. Qed.

Lemma full_words_ok n : forall buf ctx m p k j, repr ctx m p k j -> (8 * n <= length buf)%nat ->
  exists ctx' k' j', full_words n buf ctx = Ok (drop (8 * n) buf, ctx') /\
    repr ctx' (m ++ take (8 * n) buf) p k' j' /\ capacityWords ctx' = capacityWords ctx.
Proof.
  induction n as [|n IH]; intros buf ctx m p k j R Hb.
  - exists ctx, k, j. by rewrite drop_0, take_0, app_nil_r.
  - cbn [full_words]. rewrite mload_ok, ok_bind by (unfold msize; lia).
    unfold chunk. change (Z.to_nat 0) with 0%nat. change (Z.to_nat 8) with 8%nat. rewrite drop_0.
    rewrite word_of_load by (rewrite length_take; lia).
    destruct (add_word_ok _ _ _ _ _ (take 8 buf) R) as (c1 & k1 & j1 & -> & R1 & E1); [rewrite length_take; lia|].
    rewrite ok_bind.
    destruct (IH (drop 8 buf) _ _ _ _ _ R1) as (c2 & k2 & j2 & -> & R2 & E2); [rewrite length_drop; lia|].
    exists c2, k2, j2. split; [rewrite drop_drop; do 3 f_equal; lia|]. split; [|congruence].
    rewrite <- app_assoc, take_take_drop in R2. by replace (8 * S n)%nat with (8 + 8 * n)%nat by lia.
Qed.

(** The context after the bytes [msg]. *)
Definition absorbed (ctx : sha3_context) (msg : list Z) : Prop :=
  exists m p k j, msg = m ++ p /\ (length p < 8)%nat /\ repr ctx m p k j.

Lemma complete_word_ok ctx m p k j tl buf : repr ctx m p k j ->
  ((length p = 0 /\ tl = 0) \/ (0 < length p /\ tl = 8 - length p))%nat -> (length p < 8)%nat ->
  (tl <= length buf)%nat -> Forall is_u8 buf ->
  exists c1 m1 k1 j1, complete_word (Z.of_nat tl) buf (Z.of_nat (length buf)) ctx =
      Ok (drop tl buf, Z.of_nat (length (drop tl buf)), c1) /\
    repr c1 m1 [] k1 j1 /\ m1 = (m ++ p) ++ take tl buf /\ capacityWords c1 = capacityWords ctx.
Proof.
  intros R Htl Hp8 Hb HB. unfold complete_word. destruct Htl as [[Hp0 ->]|[Hp0 Htl]].
  { exists ctx, m, k, j. destruct p; [|done]. rewrite drop_0, take_0, !app_nil_r. done. }
  rewrite (proj2 (Z.eqb_neq _ _)) by lia. cbn [negb]. cbn zeta. rewrite Nat2Z.id.
  destruct (save_bytes_ok tl buf ctx m p k j R) as (c1 & -> & R1 & E1); [lia..|done|]. rewrite ok_bind.
  assert (length (p ++ take tl buf) = 8%nat) as Hl by (rewrite length_app, length_take; lia).
  rewrite (rp_saved _ _ _ _ _ R1).
  destruct (add_word_ok (mk_sha3 0 (s c1) 0 (wordIndex c1) (capacityWords c1)) m [] k j (p ++ take tl buf))
    as (c2 & k2 & j2 & -> & R2 & E2); [|done|].
  { by apply (repr_saved _ _ _ _ _ _ _ R1). }
  rewrite ok_bind. exists c2, (m ++ p ++ take tl buf), k2, j2.
  split; [rewrite length_drop; do 3 f_equal; lia|]. split; [done|]. split; [by rewrite app_assoc|].
  rewrite E2. exact E1.
Qed.

Lemma sha3_Update_ok ctx msg buf : absorbed ctx msg -> Forall is_u8 buf ->
  exists ctx', sha3_Update ctx buf (Z.of_nat (length buf)) = Ok ctx' /\ absorbed ctx' (msg ++ buf) /\
    capacityWords ctx' = capacityWords ctx.
Proof.
  intros (m & p & k & j & -> & Hp & R) HB. pose proof (rp_byteIndex _ _ _ _ _ R) as Hbi.
  unfold sha3_Update.
  assert (Z.land (u32 (8 - byteIndex ctx)) 7 = Z.of_nat ((8 - length p) mod 8)) as ->.
  { rewrite u32_id by (unfold is_u32; lia). change 7 with (Z.ones 3). rewrite Z.land_ones by lia.
    rewrite Nat2Z.inj_mod. f_equal. lia. }
  set (tl := ((8 - length p) mod 8)%nat).
  assert ((length p = 0 /\ tl = 0) \/ (0 < length p /\ tl = 8 - length p))%nat as Htl.
  { unfold tl. destruct (length p) as [|n] eqn:E; [by left|]. right. split; [lia|]. apply Nat.mod_small. lia. }
  destruct (Z.of_nat (length buf) <? Z.of_nat tl) eqn:El.
  { apply Z.ltb_lt in El. rewrite Nat2Z.id.
    destruct (save_bytes_ok (length buf) buf ctx m p k j R) as (c1 & -> & R1 & E1); [lia..|done|].
    rewrite ok_bind. exists c1. split; [done|]. split; [|done]. exists m, (p ++ buf), k, j.
    rewrite take_ge in R1 by done. split; [by rewrite app_assoc|]. split; [rewrite length_app; lia|done]. }
  apply Z.ltb_ge in El.
  destruct (complete_word_ok ctx m p k j tl buf R) as (c1 & m1 & k1 & j1 & -> & R1 & Hm1 & E1); [lia..|done|].
  rewrite ok_bind. set (b1 := drop tl buf). set (n := length b1).
  assert (Z.to_nat (Z.of_nat n / 8) = n / 8)%nat as -> by (change 8 with (Z.of_nat 8); rewrite <- Nat2Z.inj_div; lia).
  pose proof (Nat.div_mod_eq n 8) as Hn. pose proof (Nat.mod_upper_bound n 8 ltac:(lia)) as Hn8.
  destruct (full_words_ok (n / 8) b1 c1 m1 [] k1 j1 R1) as (c2 & k2 & j2 & -> & R2 & E2); [unfold n in *; lia|].
  rewrite ok_bind.
  replace (Z.to_nat (Z.of_nat n - Z.of_nat n / 8 * 8)) with (n mod 8)%nat
    by (change 8 with (Z.of_nat 8); rewrite <- Nat2Z.inj_div; lia).
  assert (length (drop (8 * (n / 8)) b1) = n mod 8)%nat as Hlr by (rewrite length_drop; fold n; lia).
  destruct (save_bytes_ok (n mod 8) (drop (8 * (n / 8)) b1) c2 _ [] k2 j2 R2) as (c3 & -> & R3 & E3);
    [cbn; lia|lia|by apply Forall_drop, Forall_drop|].
  rewrite ok_bind. exists c3. split; [exact eq_refl|]. split; [|congruence].
  eexists _, _, _, _. split; [|split; [|exact R3]].
  - subst m1. rewrite (take_ge (drop _ b1)) by lia. cbn [app]. rewrite <- !app_assoc, take_drop.
    unfold b1. by rewrite take_drop.
  - cbn [app]. rewrite length_take. lia.
Qed.

(** The padding is the suffix byte xor the final bit. *)
Lemma pad_xor suffix len : Z.lor suffix 0x80 = Z.lxor suffix 0x80 ->
  let q := (8 * r - len mod (8 * r))%nat in
  pad r suffix len = zip_with Z.lxor (suffix :: replicate (q - 1) 0) (replicate (q - 1) 0 ++ [0x80]).
Proof.
  intros Hs q. unfold pad. fold q. pose proof (Nat.mod_upper_bound len (8 * r) ltac:(lia)) as Hu.
  destruct (q =? 1)%nat eqn:E.
  - apply Nat.eqb_eq in E. rewrite E. cbn. by rewrite Hs.
  - apply Nat.eqb_neq in E. replace (q - 1)%nat with (S (q - 2)) by lia. cbn [replicate app zip_with].
    rewrite Z.lxor_0_r. f_equal. clear E. induction (q - 2)%nat as [|n IH]; [done|]. cbn [replicate app zip_with].
    by rewrite <- IH.
Qed.

Lemma zip_zeros (l : list Z) n : length l = n -> zip_with Z.lxor l (replicate n 0) = l.
Proof.
  intros <-. induction l as [|x l IH]; [done|]. cbn. by rewrite Z.lxor_0_r, IH.
Qed.

(** The words of the last block: those absorbed, the saved bytes with the
    suffix, zeros, and the final bit. *)
Lemma last_words D p suffix j len : length D = (8 * j)%nat -> (j < r)%nat -> (length p < 8)%nat ->
  (len mod (8 * r) = 8 * j + length p)%nat -> Forall is_u8 D -> Forall is_u8 p -> is_u8 suffix ->
  Z.lor suffix 0x80 = Z.lxor suffix 0x80 ->
  words r (D ++ p ++ pad r suffix len) =
  zip_with Z.lxor (words j D ++ load_le (p ++ [suffix]) :: replicate (r - j - 1) 0)
    (replicate (r - 1) 0 ++ [2 ^ 63]).
Proof.
  intros HD Hj Hp Hlen HBD HBp HBs Hs. rewrite (pad_xor suffix len Hs). set (q := (8 * r - len mod (8 * r))%nat).
  assert (D ++ p ++ zip_with Z.lxor (suffix :: replicate (q - 1) 0) (replicate (q - 1) 0 ++ [0x80]) =
    zip_with Z.lxor (D ++ p ++ suffix :: replicate (q - 1) 0) (replicate (8 * r - 1) 0 ++ [0x80])) as ->.
  { replace (8 * r - 1)%nat with ((8 * j + length p) + (q - 1))%nat by (unfold q; lia).
    rewrite replicate_add, <- app_assoc, !(app_assoc D p).
    rewrite zip_with_app by (rewrite length_app, length_replicate; lia).
    by rewrite zip_zeros by (rewrite length_app; lia). }
  rewrite words_lxor.
  2:{ rewrite !length_app. cbn [length]. rewrite !length_replicate. unfold q. lia. }
  2:{ repeat apply Forall_app_2; try done. apply Forall_cons. split; [done|]. by apply Forall_replicate. }
  2:{ apply Forall_app_2; [by apply Forall_replicate|]. by apply Forall_singleton. }
  f_equal.
  - replace r with (j + (1 + (r - j - 1)))%nat at 1 by lia. rewrite words_app by done. f_equal. cbn [Nat.add words].
    assert (p ++ suffix :: replicate (q - 1) 0 =
      (p ++ suffix :: replicate (7 - length p) 0) ++ replicate (8 * (r - j - 1)) 0) as ->.
    { rewrite <- app_assoc. cbn [app]. rewrite <- replicate_add. do 3 f_equal. unfold q. lia. }
    assert (length (p ++ suffix :: replicate (7 - length p) 0) = 8%nat) as H8
      by (rewrite length_app; cbn [length]; rewrite length_replicate; lia).
    rewrite take_app_length', drop_app_length', words_zeros by lia. f_equal.
    by rewrite (cons_middle suffix p), app_assoc, load_le_app_zeros.
  - replace r with (r - 1 + 1)%nat at 1 by lia. replace (8 * r - 1)%nat with (8 * (r - 1) + 7)%nat by lia.
    rewrite replicate_add, <- app_assoc, words_app, words_zeros by (rewrite ?length_replicate; lia). done.
Qed.

(** [sha3_Finalize] absorbs the padding of the message and squeezes. *)
Lemma out_bytes_store w : out_bytes w = store_le 8 w.
Proof.
  unfold out_bytes. cbn zeta. rewrite Z.shiftr_shiftr by lia. change (16 + 16) with 32.
  assert (forall k, 0 <= k <= 24 -> u8 (Z.shiftr (u32 w) k) = u8 (Z.shiftr w k)) as H1.
  { intros k Hk. unfold u8, u32. apply Z.bits_inj'. intros i Hi. rewrite !Z.land_spec, !Z.shiftr_spec, Z.land_spec by done.
    destruct (Z.lt_ge_cases i 8).
    - change 0xFFFFFFFF with (Z.ones 32). rewrite (Z.ones_spec_low 32) by lia. by rewrite andb_true_r.
    - change 0xFF with (Z.ones 8). rewrite (Z.ones_spec_high 8) by lia. by rewrite !andb_false_r. }
  assert (forall k, 0 <= k <= 24 -> u8 (Z.shiftr (u32 (Z.shiftr w 32)) k) = u8 (Z.shiftr w (32 + k))) as H2.
  { intros k Hk. unfold u8, u32. apply Z.bits_inj'. intros i Hi.
    rewrite !Z.land_spec, !Z.shiftr_spec, Z.land_spec, Z.shiftr_spec by lia.
    destruct (Z.lt_ge_cases i 8).
    - change 0xFFFFFFFF with (Z.ones 32). rewrite (Z.ones_spec_low 32) by lia. rewrite andb_true_r. do 2 f_equal. lia.
    - change 0xFF with (Z.ones 8). rewrite (Z.ones_spec_high 8) by lia. by rewrite !andb_false_r. }
  pose proof (H1 0 ltac:(lia)) as H10. pose proof (H2 0 ltac:(lia)) as H20. rewrite !Z.shiftr_0_r in *.
  rewrite H10, H20, !H1, !H2 by lia.
  unfold store_le, u8.
  change 8 with (Z.succ (Z.succ (Z.succ (Z.succ (Z.succ (Z.succ (Z.succ (Z.succ 0)))))))) at 3.
  rewrite !Z_to_little_endian_succ, Z_to_little_endian_0, !Z.shiftr_shiftr by lia. exact eq_refl.
Qed.

Definition suffix_of (ctx : sha3_context) : Z :=
  if negb (Z.land (capacityWords ctx) SHA3_USE_KECCAK_FLAG =? 0) then 0x01 else 0x06.

Lemma sha3_Finalize_ok ctx msg : absorbed ctx msg -> Forall is_u8 msg ->
  sha3_Finalize ctx = Ok (sponge r (suffix_of ctx) msg).
Proof.
  intros (m & p & k & j & -> & Hp & [Hm Hj Hs Hwi Hsv Hbi HB Hc]) HBm. apply Forall_app in HBm as [HBm _].
  set (A := fips_absorb k r zeros m) in *. set (D := drop (8 * r * k) m) in *.
  assert (length A = 25%nat) as HA by by apply length_fips_absorb.
  assert (length D = (8 * j)%nat) as HD by (unfold D; rewrite length_drop; lia).
  set (sf := suffix_of ctx). assert (is_u8 sf /\ Z.lor sf 0x80 = Z.lxor sf 0x80) as [Hsf8 Hsf].
  { unfold sf, suffix_of. by destruct (negb _). }
  assert (length (m ++ p) mod (8 * r) = 8 * j + length p)%nat as Hmod.
  { rewrite length_app. symmetry. apply (Nat.mod_unique _ _ k); nia. }
  assert (length (m ++ p) / (8 * r) = k)%nat as Hdiv.
  { rewrite length_app. symmetry. apply (Nat.div_unique _ _ _ (8 * j + length p)); nia. }
  rewrite (sponge_last r Hr), Hdiv. fold sf.
  rewrite <- (fips_absorb_take r Hr k _ (m ++ p) (length m)), take_app_length by nia. fold A.
  rewrite drop_app_le by nia. fold D. rewrite <- app_assoc.
  rewrite (last_words D p sf j) by (done || by apply Forall_drop).
  rewrite xor_words_zip; [|rewrite !length_app; cbn [length]; rewrite length_sponge_words, !length_replicate; lia
                          |rewrite !length_app; cbn [length]; rewrite length_sponge_words, !length_replicate; lia].
  unfold sha3_Finalize.
  assert (forall (b : bool) x y z, shl64 (if b then x else y) z = if b then shl64 x z else shl64 y z) as Hif by by intros [].
  change (Z.lor 2 (Z.shiftl 1 2)) with 6. rewrite <- Hif. fold (suffix_of ctx). fold sf.
  rewrite Hsv, Hbi, suffix_word by done.
  assert (length (words j D) = j) as Hlw by apply length_sponge_words.
  rewrite Hwi, Hs, aget_total_ok, ok_bind by (rewrite length_xor_words; lia).
  rewrite aset_total_ok, ok_bind by (rewrite length_xor_words; lia).
  pose proof (xor_words_snoc A (words j D) (load_le (p ++ [sf])) ltac:(lia)) as Hsnoc. rewrite Hlw in Hsnoc.
  rewrite <- Hsnoc, Hc. clear Hsnoc.
  rewrite (cons_middle (load_le (p ++ [sf])) (words j D) (replicate _ _)), (app_assoc (words j D)), xor_words_zeros by (rewrite length_app; cbn [length]; lia).
  set (B := xor_words A (words j D ++ [load_le (p ++ [sf])])).
  assert (length B = 25%nat) as HlB by (unfold B; rewrite length_xor_words; rewrite ?length_app; cbn [length]; lia).
  replace (SHA3_KECCAK_SPONGE_WORDS - (25 - Z.of_nat r) - 1) with (Z.of_nat (r - 1)) by (unfold SHA3_KECCAK_SPONGE_WORDS; lia).
  rewrite aget_total_ok, ok_bind, aset_total_ok, ok_bind by lia.
  rewrite xor_words_snoc by (rewrite length_replicate; lia).
  pose proof (xor_words_zeros B [] (r - 1) ltac:(cbn; lia)) as Hz. cbn [app] in Hz.
  change (xor_words B []) with B in Hz. rewrite Hz, length_replicate.
  rewrite keccakf_ok, ok_bind by (rewrite length_insert; lia).
  unfold state_bytes. erewrite list_fmap_ext; [exact eq_refl|]. intros i x _. apply out_bytes_store.
Qed.

Lemma updates_ok chunks : forall ctx msg, absorbed ctx msg -> Forall (Forall is_u8) chunks ->
  exists ctx', foldl (fun c b => ctx ← c; sha3_Update ctx b (Z.of_nat (length b))) (Ok ctx) chunks = Ok ctx' /\
    absorbed ctx' (msg ++ mjoin chunks) /\ capacityWords ctx' = capacityWords ctx.
Proof.
  induction chunks as [|b chunks IH]; intros ctx msg Ha HB; cbn [foldl].
  - exists ctx. by rewrite app_nil_r.
  - apply Forall_cons in HB as [Hb HB]. destruct (sha3_Update_ok ctx msg b Ha Hb) as (c1 & E1 & A1 & K1).
    rewrite ok_bind, E1. destruct (IH c1 _ A1 HB) as (c2 & -> & A2 & K2).
    exists c2. split; [done|]. split; [|congruence]. rewrite <- app_assoc in A2. exact A2.
Qed.

End Stream.

(** The rates in words of the three digest sizes. *)
Definition sha3_rate (bitSize : Z) : nat := Z.to_nat (25 - 2 * bitSize / 64).

(** A fresh context with its flags has absorbed nothing. *)
Lemma init_absorbed c0 bitSize flags : In bitSize [256; 384; 512] -> In flags [0; 1] ->
  exists c, sha3_Init c0 bitSize = (SHA3_RETURN_OK, c) /\
    absorbed (sha3_rate bitSize) (sha3_SetFlags c flags).2 [] /\ (1 <= sha3_rate bitSize <= 24)%nat /\
    (sha3_SetFlags c flags).1 = flags /\
    suffix_of (sha3_SetFlags c flags).2 = (if flags =? 1 then 0x01 else 0x06).
Proof.
  intros Hb Hf. eexists. split.
  { destruct Hb as [<-|[<-|[<-|[]]]]; reflexivity. }
  split; [|destruct Hb as [<-|[<-|[<-|[]]]], Hf as [<-|[<-|[]]]; split; (done || (vm_compute; lia))].
  exists [], [], 0%nat, 0%nat.
  destruct Hb as [<-|[<-|[<-|[]]]], Hf as [<-|[<-|[]]]; (split; [done|split; [vm_compute; lia|]]);
    (split; try done; vm_compute; lia).
Qed.

(** A whole use of the streaming interface: initialise, set the flags, update
    with the chunks in order, finalise. *)
Definition sha3_stream (c0 : sha3_context) (bitSize flags : Z) (chunks : list (list Z)) : result (list Z) :=
  match sha3_Init c0 bitSize with
  | (SHA3_RETURN_OK, c) =>
      c ← foldl (fun c b => ctx ← c; sha3_Update ctx b (Z.of_nat (length b))) (Ok (sha3_SetFlags c flags).2) chunks;
      sha3_Finalize c
  | (SHA3_RETURN_BAD_PARAMS, _) => Fault
  end.

Lemma sha3_stream_ok c0 bitSize flags chunks : In bitSize [256; 384; 512] -> In flags [0; 1] ->
  Forall (Forall is_u8) chunks ->
  sha3_stream c0 bitSize flags chunks =
    Ok (sponge (sha3_rate bitSize) (if flags =? 1 then 0x01 else 0x06) (mjoin chunks)).
Proof.
  intros Hb Hf HB. destruct (init_absorbed c0 bitSize flags Hb Hf) as (c & Ei & Ha & Hr & _ & Hsf).
  unfold sha3_stream. rewrite Ei. destruct (updates_ok _ Hr chunks _ [] Ha HB) as (c' & -> & Ha' & Hcap).
  rewrite ok_bind. cbn [app] in Ha'. rewrite (sha3_Finalize_ok _ Hr c' _ Ha').
  - rewrite <- Hsf. unfold suffix_of. by rewrite Hcap.
  - by apply Forall_join.
Qed.

(** [keccak] computes the Keccak sponge of FIPS 202 (permutation, padding
    and all) for every input and every digest size it supports, 200 meaning the
    whole state at rate 136; its padding buffer is never overrun, whatever it
    held before. *)
Theorem keccak_is_sponge temp inp inlen mdlen r : msize temp = 144 -> 0 <= inlen <= msize inp ->
  md_rate mdlen r ->
  keccak temp inp inlen mdlen = Ok (take (Z.to_nat mdlen) (sponge r 0x01 (take (Z.to_nat inlen) inp))).
Proof. apply keccak_ok. Qed.

Lemma keccak_is_sponge_witness :
  keccak (replicate 144 170) [1; 2; 3] 3 32 = Ok (take 32 (sponge 17 0x01 [1; 2; 3])).
Proof.
  apply (keccak_is_sponge (replicate 144 170) [1; 2; 3] 3 32 17); [reflexivity|unfold msize; cbn; lia|].
  right. repeat split; vm_compute; congruence.
Defined.

(** C18: feeding a message to a SHA-3 context in any pieces and finalising gives
    the FIPS 202 sponge of the whole message, with the suffix of SHA-3 or of
    plain Keccak; the one-shot [sha3_HashBuffer] gives its leading bytes, at
    most a digest of them, and refuses other digest sizes and unknown flags. *)
Theorem sha3_streaming_correct c0 bitSize flags chunks inp outBytes :
  Forall (Forall is_u8) chunks -> Forall is_u8 inp -> 0 <= outBytes ->
  let suffix := if flags =? 1 then 0x01 else 0x06 in
  (In bitSize [256; 384; 512] -> In flags [0; 1] ->
    sha3_stream c0 bitSize flags chunks = Ok (sponge (sha3_rate bitSize) suffix (mjoin chunks)) /\
    sha3_HashBuffer c0 bitSize flags inp (Z.of_nat (length inp)) outBytes =
      Ok (SHA3_RETURN_OK, take (Z.to_nat (Z.min outBytes (bitSize / 8))) (sponge (sha3_rate bitSize) suffix inp))) /\
  (~ In bitSize [256; 384; 512] \/ ~ In flags [0; 1] ->
    sha3_HashBuffer c0 bitSize flags inp (Z.of_nat (length inp)) outBytes = Ok (SHA3_RETURN_BAD_PARAMS, [])).
Proof.
  intros HBc HBi Ho suffix. split.
  - intros Hb Hf. split; [by apply sha3_stream_ok|].
    destruct (init_absorbed c0 bitSize flags Hb Hf) as (c & Ei & Ha & Hr & Hset & Hsf).
    unfold sha3_HashBuffer. rewrite Ei. destruct (sha3_SetFlags c flags) as [set c1]. cbn [fst snd] in *. subst set.
    rewrite Z.eqb_refl. cbn [negb].
    destruct (sha3_Update_ok _ Hr c1 [] inp Ha HBi) as (c2 & -> & Ha2 & Hcap). rewrite ok_bind. cbn [app] in Ha2.
    rewrite (sha3_Finalize_ok _ Hr c2 inp Ha2 HBi), ok_bind. unfold suffix_of. rewrite Hcap. fold (suffix_of c1).
    rewrite Hsf. fold suffix. rewrite (sponge_last _ Hr).
    assert ((if bitSize / 8 <? outBytes then bitSize / 8 else outBytes) = Z.min outBytes (bitSize / 8)) as ->
      by (destruct (Z.ltb_spec (bitSize / 8) outBytes); lia).
    assert (0 <= bitSize / 8 <= 200) by (destruct Hb as [<-|[<-|[<-|[]]]]; vm_compute; split; congruence).
    rewrite mload_ok, ok_bind; [|lia|lia|].
    + unfold chunk. by rewrite drop_0.
    + unfold msize. rewrite length_state_bytes, length_fips_f; [lia|].
      rewrite length_xor_words; rewrite length_fips_absorb by done; [done|]. rewrite length_sponge_words. lia.
  - intros Hbad. unfold sha3_HashBuffer, sha3_Init.
    destruct (negb (bitSize =? 256) && negb (bitSize =? 384) && negb (bitSize =? 512)) eqn:E; [done|].
    assert (In bitSize [256; 384; 512]) as Hb.
    { destruct (Z.eqb_spec bitSize 256), (Z.eqb_spec bitSize 384), (Z.eqb_spec bitSize 512); subst; simpl; auto. done. }
    destruct Hbad as [Hbad|Hf]; [done|]. cbn [sha3_SetFlags].
    rewrite (proj2 (Z.eqb_neq _ _)); [done|]. intros E1. apply Hf. rewrite <- E1. unfold SHA3_FLAGS_KECCAK.
    change (Z.land flags 1) with (Z.land flags (Z.ones 1)). rewrite Z.land_ones by lia. pose proof (Z.mod_pos_bound flags (2 ^ 1) ltac:(lia)).
    destruct (Z.eq_dec (flags mod 2 ^ 1) 0) as [->|]; [by left|right; left; lia].
Qed.

Lemma sha3_streaming_correct_witness :
  sha3_stream (mk_sha3 7 [] 3 9 1) 256 0 [[97]; []; [98; 99]] = Ok (sponge 17 0x06 [97; 98; 99]).
Proof.
  destruct (sha3_streaming_correct (mk_sha3 7 [] 3 9 1) 256 0 [[97]; []; [98; 99]] [97] 32) as [H _].
  - repeat (constructor; try (unfold is_u8; lia)).
  - repeat (constructor; try (unfold is_u8; lia)).
  - lia.
  - apply H; simpl; auto.
Defined.

(** The SHA3-256 digest of the empty message, from the code's own steps. *)
Example sha3_256_empty :
  sha3_HashBuffer (mk_sha3 0 [] 0 0 0) 256 0 [] 0 4 = Ok (SHA3_RETURN_OK, [0xa7; 0xff; 0xc6; 0xf8]).
Proof. vm_compute. reflexivity. Qed.

End Keccak.
