(* ===== verification/Cvt.v ===== *)
(** * Hexadecimal conversion (base/tools/Cvt.cpp)

    [cvt_bin2hex] and [cvt_hex2bin] with their branch-free arithmetic on
    [unsigned int] and [unsigned char], and the [Cvt::toHex] and [Cvt::fromHex]
    that call them.  A character is its byte; a pointer with its length is the
    list of the bytes, and [None] is [nullptr].  [errno] is not modelled. *)
From Stdlib Require Import ZArith Lia.
From stdpp Require Import base numbers list.
From S2P Require Import Prelude Memory.
Open Scope Z_scope.

Module Cvt.

(** ** From bytes to digits *)

(** [(unsigned char)(87U + c + (((c - 10U) >> 8) & ~38U))] *)
Definition digit_char (c : Z) : Z :=
  u8 (u32 (u32 (87 + c) + Z.land (Z.shiftr (u32 (c - 10)) 8) (u32 (Z.lnot 38)))).

(** The loop, from byte [i]. *)
Fixpoint bin2hex_loop (n : nat) (i : Z) (bin : mem) (hex : mem) : result mem :=
  match n with
  | O => mret hex
  | S n =>
      byte ← aget bin i;
      let c := Z.land byte 0xf in
      let b := Z.shiftr byte 4 in
      let x := Z.lor (Z.shiftl (digit_char c) 8) (digit_char b) in
      hex ← aset hex (i * 2) (u8 x);
      let x := Z.shiftr x 8 in
      hex ← aset hex (i * 2 + 1) (u8 x);
      bin2hex_loop n (i + 1) bin hex
  end.

Definition SIZE_MAX : Z := 2 ^ 64 - 1.

(** [None] is the [nullptr] of the size check. *)
Definition cvt_bin2hex (hex : mem) (hex_maxlen : Z) (bin : mem) (bin_len : Z) : result (option mem) :=
  if (SIZE_MAX / 2 <=? bin_len) || (hex_maxlen <? bin_len * 2) then mret None
  else
    hex ← bin2hex_loop (Z.to_nat bin_len) 0 bin hex;
    hex ← (if bin_len * 2 <? hex_maxlen then aset hex (bin_len * 2) 0 else mret hex);
    mret (Some hex).

(** ** From digits to bytes *)

Record hex_state := mk_hex {
  bin : mem; bin_pos : Z; hex_pos : Z; ret : Z; c_acc : Z; state : Z }.

Definition c_num (c : Z) : Z := u8 (Z.lxor c 48).
Definition c_num0 (c : Z) : Z := u8 (Z.shiftr (u32 (c_num c - 10)) 8).
Definition c_alpha (c : Z) : Z := u8 (u32 (Z.land c (u32 (Z.lnot 32)) - 55)).
Definition c_alpha0 (c : Z) : Z :=
  u8 (Z.shiftr (Z.lxor (u32 (c_alpha c - 10)) (u32 (c_alpha c - 16))) 8).
Definition c_val (c : Z) : Z := Z.lor (Z.land (c_num0 c) (c_num c)) (Z.land (c_alpha0 c) (c_alpha c)).

(** [strchr(ignore, c) != nullptr]; [strchr] also finds the terminator. *)
Definition strchr (ignore : list Z) (c : Z) : bool := existsb (Z.eqb c) ignore || (c =? 0).

Fixpoint hex2bin_loop (fuel : nat) (bin_maxlen : Z) (hex : mem) (hex_len : Z) (ignore : option (list Z))
    (h : hex_state) : result hex_state :=
  match fuel with
  | O => OutOfFuel
  | S fuel =>
      if hex_pos h <? hex_len then
        c ← aget hex (hex_pos h);
        if Z.lor (c_num0 c) (c_alpha0 c) =? 0 then
          if match ignore with Some ig => (state h =? 0) && strchr ig c | None => false end then
            hex2bin_loop fuel bin_maxlen hex hex_len ignore
              (mk_hex (bin h) (bin_pos h) (hex_pos h + 1) (ret h) (c_acc h) (state h))
          else mret h
        else if bin_maxlen <=? bin_pos h then
          mret (mk_hex (bin h) (bin_pos h) (hex_pos h) (-1) (c_acc h) (state h))
        else if state h =? 0 then
          hex2bin_loop fuel bin_maxlen hex hex_len ignore
            (mk_hex (bin h) (bin_pos h) (hex_pos h + 1) (ret h) (u8 (c_val c * 16)) (u8 (Z.lnot (state h))))
        else
          bin ← aset (bin h) (bin_pos h) (Z.lor (c_acc h) (c_val c));
          hex2bin_loop fuel bin_maxlen hex hex_len ignore
            (mk_hex bin (bin_pos h + 1) (hex_pos h + 1) (ret h) (c_acc h) (u8 (Z.lnot (state h))))
      else mret h
  end.

(** The result, the bytes written, [*bin_len] and, when [hex_end] is not
    [nullptr], the position it is set to. *)
Definition cvt_hex2bin (bin : mem) (bin_maxlen : Z) (hex : mem) (hex_len : Z) (ignore : option (list Z))
    (hex_end : bool) : result (Z * mem * Z * Z) :=
  h ← hex2bin_loop (S (Z.to_nat hex_len)) bin_maxlen hex hex_len ignore (mk_hex bin 0 0 0 0 0);
  let '(pos, r) := if negb (state h =? 0) then (hex_pos h - 1, -1) else (hex_pos h, ret h) in
  let bin_pos := if negb (r =? 0) then 0 else bin_pos h in
  let r := if hex_end then r else if negb (pos =? hex_len) then -1 else r in
  mret (r, Cvt.bin h, bin_pos, pos).

(** ** The interface *)

(** [buf.resize(n)] *)
Definition resize (buf : mem) (n : Z) : mem := take (Z.to_nat n) buf ++ replicate (Z.to_nat n - length buf) 0.

(** [fromHexImpl]; [&buf.front()] of an empty buffer has no meaning. *)
Definition fromHexImpl (buf : mem) (inp : option mem) (size : Z) : result (bool * mem) :=
  match inp with
  | None => mret (false, buf)
  | Some inp =>
      if size =? 0 then mret (false, buf)
      else
        let buf := resize buf (size / 2) in
        match buf with
        | [] => Fault
        | _ :: _ =>
            '(r, buf, _, _) ← cvt_hex2bin buf (Z.of_nat (length buf)) inp size None false;
            mret (r =? 0, buf)
        end
  end.

(** [Cvt::fromHex(uint8_t *bin, size_t bin_maxlen, const char *hex, size_t hex_len)] *)
Definition fromHex (bin : mem) (bin_maxlen : Z) (hex : option mem) (hex_len : Z) : result (bool * mem) :=
  match hex with
  | None => mret (false, bin)
  | Some hex =>
      if hex_len =? 0 then mret (false, bin)
      else
        '(r, bin, _, _) ← cvt_hex2bin bin bin_maxlen hex hex_len None false;
        mret (r =? 0, bin)
  end.

(** [Buffer Cvt::fromHex(const char *in, size_t size)] *)
Definition fromHex_buffer (inp : option mem) (size : Z) : result mem :=
  '(ok, buf) ← fromHexImpl [] inp size;
  mret (if (ok : bool) then buf else []).

(** [String Cvt::toHex(const uint8_t *in, size_t size)]: the characters before
    the terminator; [None] is the null string.  [new char[]] leaves [garbage]. *)
Definition toHex (garbage : Z -> mem) (inp : option mem) (size : Z) : result (option mem) :=
  match inp with
  | None => mret None
  | Some inp =>
      if size =? 0 then mret None
      else
        let hex_maxlen := size * 2 + 1 in
        r ← cvt_bin2hex (garbage hex_maxlen) hex_maxlen inp size;
        match r with
        | None => mret None
        | Some hex => mret (Some (take (Z.to_nat (size * 2)) hex))
        end
  end.

(** ** What the arithmetic means *)

(** The digits [0-9a-f], and the value of a digit in either case. *)
Definition hexdigit (n : Z) : Z := if n <? 10 then 48 + n else 87 + n.
Definition digit_value (c : Z) : option Z :=
  if (48 <=? c) && (c <? 58) then Some (c - 48)
  else if (97 <=? c) && (c <? 103) then Some (c - 87)
  else if (65 <=? c) && (c <? 71) then Some (c - 55)
  else None.

Definition all_bytes : list Z := seqZ 0 256.

Lemma byte_cases (P : Z -> bool) b : is_u8 b -> forallb P all_bytes = true -> P b = true.
Proof.
  intros Hb H. rewrite forallb_forall in H. apply H. apply list_elem_of_In, elem_of_seqZ. unfold is_u8 in Hb. lia.
Qed.

Lemma digit_char_hexdigit n : 0 <= n < 16 -> digit_char n = hexdigit n.
Proof.
  intros Hn. apply Z.eqb_eq. assert (is_u8 n) as H8 by (unfold is_u8; lia).
  pose proof (byte_cases (fun n => (16 <=? n) || (digit_char n =? hexdigit n)) n H8 ltac:(vm_compute; reflexivity)) as E.
  cbn beta in E. apply orb_true_iff in E as [E|E]; [lia|done].
Qed.

(** A character is refused exactly when it is not a digit, and its value is
    the digit's. *)
Lemma digit_test c : is_u8 c ->
  (Z.lor (c_num0 c) (c_alpha0 c) =? 0) = match digit_value c with Some _ => false | None => true end /\
  match digit_value c with Some v => c_val c = v /\ 0 <= v < 16 | None => True end.
Proof.
  intros Hc.
  pose proof (byte_cases (fun c => Bool.eqb (Z.lor (c_num0 c) (c_alpha0 c) =? 0)
     match digit_value c with Some _ => false | None => true end &&
     match digit_value c with Some v => (c_val c =? v) && (0 <=? v) && (v <? 16) | None => true end) c Hc
     ltac:(vm_compute; reflexivity)) as E.
  cbn beta in E. apply andb_true_iff in E as [E1 E2]. split; [by apply eqb_prop|].
  destruct (digit_value c); [|done]. rewrite !andb_true_iff in E2. lia.
Qed.

Lemma hexdigit_value n : 0 <= n < 16 -> digit_value (hexdigit n) = Some n.
Proof.
  intros Hn. unfold hexdigit, digit_value.
  destruct (Z.ltb_spec n 10).
  - rewrite (proj2 (Z.leb_le _ _)), (proj2 (Z.ltb_lt _ _)) by lia. f_equal. lia.
  - rewrite (proj2 (Z.ltb_ge _ 58)), andb_false_r by lia.
    rewrite (proj2 (Z.leb_le _ _)), (proj2 (Z.ltb_lt _ _)) by lia. f_equal. lia.
Qed.

(** The bytes of an even string of digits. *)
Fixpoint decode (s : list Z) : option (list Z) :=
  match s with
  | [] => Some []
  | a :: b :: s =>
      match digit_value a, digit_value b, decode s with
      | Some x, Some y, Some bs => Some (16 * x + y :: bs)
      | _, _, _ => None
      end
  | [_] => None
  end.

Definition encode (bs : list Z) : list Z := mjoin ((fun b => [hexdigit (b / 16); hexdigit (b mod 16)]) <$> bs).

Lemma encode_cons b bs : encode (b :: bs) = hexdigit (b / 16) :: hexdigit (b mod 16) :: encode bs.
Proof. reflexivity. Qed.

Lemma length_encode bs : length (encode bs) = (2 * length bs)%nat.
Proof. induction bs as [|b bs IH]; [done|]. rewrite encode_cons. cbn [length]. lia. Qed.

Lemma decode_encode bs : Forall is_u8 bs -> decode (encode bs) = Some bs.
Proof.
  induction 1 as [|b bs Hb _ IH]; [done|]. rewrite encode_cons. cbn [decode]. unfold is_u8 in Hb.
  assert (0 <= b / 16 < 16) by (Z.div_mod_to_equations; lia).
  pose proof (Z.mod_pos_bound b 16 ltac:(lia)).
  rewrite !hexdigit_value, IH by done. do 2 f_equal. Z.div_mod_to_equations; lia.
Qed.

(** ** The loops *)

Lemma insert_pair (l : mem) i a b : 0 <= i -> i + 2 <= msize l ->
  <[Z.to_nat (i + 1) := b]> (<[Z.to_nat i := a]> l) = splice l i [a; b].
Proof.
  intros Hi Hl. unfold splice, msize in *. rewrite <- (take_drop (Z.to_nat i) l) at 1.
  destruct (drop (Z.to_nat i) l) as [|x [|y tl]] eqn:E.
  - apply (f_equal length) in E. rewrite length_drop in E. simpl in E. lia.
  - apply (f_equal length) in E. rewrite length_drop in E. simpl in E. lia.
  - rewrite insert_app_r_alt by (rewrite length_take; lia).
    replace (Z.to_nat i - length (take (Z.to_nat i) l))%nat with 0%nat by (rewrite length_take; lia).
    cbn [insert list_insert]. rewrite insert_app_r_alt by (rewrite length_take; lia).
    replace (Z.to_nat (i + 1) - length (take (Z.to_nat i) l))%nat with 1%nat by (rewrite length_take; lia).
    cbn [insert list_insert length app]. do 3 f_equal.
    by rewrite <- drop_drop, E.
Qed.

Lemma aset_pair (l : mem) i a b : 0 <= i -> i + 2 <= msize l ->
  (l ← aset l i a; aset l (i + 1) b) = Ok (splice l i [a; b]).
Proof.
  intros Hi Hl. unfold msize in *. rewrite aset_ok, ok_bind, aset_ok by (rewrite ?length_insert; lia).
  by rewrite insert_pair.
Qed.

Lemma chunk_cons (m : mem) i n : 0 <= i -> i + Z.of_nat (S n) <= msize m ->
  exists b, m !! Z.to_nat i = Some b /\ chunk m i (Z.of_nat (S n)) = b :: chunk m (i + 1) (Z.of_nat n).
Proof.
  intros Hi Hn. unfold chunk, msize in *. destruct (lookup_lt_is_Some_2 m (Z.to_nat i)) as [b Hb]; [lia|].
  exists b. split; [done|]. rewrite (drop_S _ _ _ Hb), !Nat2Z.id. cbn [take]. do 3 f_equal. lia.
Qed.

Lemma bin2hex_loop_ok n : forall i bin hex, 0 <= i -> i + Z.of_nat n <= msize bin ->
  2 * (i + Z.of_nat n) <= msize hex -> Forall is_u8 bin ->
  bin2hex_loop n i bin hex = Ok (splice hex (2 * i) (encode (chunk bin i (Z.of_nat n)))).
Proof.
  induction n as [|n IH]; intros i bin0 hex Hi Hb Hh HB; cbn [bin2hex_loop].
  { change (chunk bin0 i (Z.of_nat 0)) with (take 0 (drop (Z.to_nat i) bin0)). rewrite take_0. change (encode []) with (@nil Z).
    unfold splice. cbn [app length]. by rewrite Nat.add_0_r, take_drop. }
  destruct (chunk_cons bin0 i n Hi Hb) as (b & Hlk & ->).
  destruct (aget_total bin0 i) as (b' & -> & Hb'); [unfold msize in *; lia|]. rewrite ok_bind.
  assert (b' = b) as -> by congruence. pose proof (Forall_lookup_1 _ _ _ _ HB Hlk) as H8. cbn beta in H8.
  assert (0 <= Z.land b 0xf < 16) as Hc by (change 15 with (Z.ones 4); rewrite Z.land_ones by lia; apply Z.mod_pos_bound; lia).
  assert (Z.land b 0xf = b mod 16) as Ec by (change 15 with (Z.ones 4); by rewrite Z.land_ones by lia).
  assert (Z.shiftr b 4 = b / 16) as Eb by (rewrite Z.shiftr_div_pow2 by lia; done).
  assert (0 <= b / 16 < 16) by (unfold is_u8 in H8; Z.div_mod_to_equations; lia).
  cbn zeta. rewrite Ec, Eb, !digit_char_hexdigit by lia.
  assert (forall n, 0 <= n < 16 -> is_u8 (hexdigit n)) as Hd8 by (intros k Hk; unfold hexdigit, is_u8; case_match; lia).
  assert (u8 (Z.lor (Z.shiftl (hexdigit (b mod 16)) 8) (hexdigit (b / 16))) = hexdigit (b / 16)) as ->.
  { pose proof (Hd8 (b / 16) ltac:(lia)) as Hx. unfold is_u8 in Hx.
    rewrite Z.lor_comm, lor_shiftl_add by lia. rewrite u8_mod, Z.mul_comm, Z.mod_add by lia. by apply Z.mod_small. }
  assert (u8 (Z.shiftr (Z.lor (Z.shiftl (hexdigit (b mod 16)) 8) (hexdigit (b / 16))) 8) = hexdigit (b mod 16)) as ->.
  { pose proof (Hd8 (b / 16) ltac:(lia)) as Hx. pose proof (Hd8 (b mod 16) ltac:(lia)) as Hy. unfold is_u8 in Hx.
    rewrite Z.lor_comm, lor_shiftl_add, Z.shiftr_div_pow2 by lia. rewrite Z.mul_comm, Z.div_add, Z.div_small by lia.
    by apply u8_id. }
  rewrite (Z.mul_comm i 2). rewrite aset_ok, ok_bind, aset_ok, ok_bind by (rewrite ?length_insert; unfold msize in *; lia).
  rewrite insert_pair by lia.
  pose proof (msize_splice hex (2 * i) [hexdigit (b / 16); hexdigit (b mod 16)] ltac:(lia) ltac:(cbn [length]; lia)) as Hms.
  rewrite IH by (done || lia).
  rewrite encode_cons. replace (2 * (i + 1)) with (2 * i + Z.of_nat (length [hexdigit (b / 16); hexdigit (b mod 16)])) by (cbn; lia).
  rewrite splice_splice; [done|lia|].
  rewrite length_app, length_encode, length_chunk by lia. cbn [length]. lia.
Qed.

Lemma toHex_ok garbage bs : (forall n, 0 <= n -> msize (garbage n) = n) -> bs <> [] -> Forall is_u8 bs ->
  msize bs < SIZE_MAX / 2 -> toHex garbage (Some bs) (msize bs) = Ok (Some (encode bs)).
Proof.
  intros Hg Hne HB Hsz. unfold toHex. assert (0 < msize bs) by (destruct bs; [done|unfold msize; cbn; lia]).
  rewrite (proj2 (Z.eqb_neq _ _)) by lia. unfold cvt_bin2hex.
  rewrite (proj2 (Z.leb_gt _ _)), (proj2 (Z.ltb_ge _ _)) by lia. cbn [orb].
  assert (Z.to_nat (msize bs) = length bs) as Hlb by (unfold msize; lia).
  rewrite bin2hex_loop_ok, ok_bind; [|rewrite ?Hg by lia; unfold msize in *; lia || done..].
  rewrite (proj2 (Z.ltb_lt _ _)) by lia.
  assert (chunk bs 0 (Z.of_nat (Z.to_nat (msize bs))) = bs) as ->.
  { unfold chunk. rewrite Nat2Z.id, drop_0. apply take_ge. lia. }
  change (2 * 0) with 0. assert (0 + Z.of_nat (length (encode bs)) <= msize (garbage (msize bs * 2 + 1))) as Hfit
    by (rewrite Hg, length_encode by lia; unfold msize; lia).
  pose proof (msize_splice (garbage (msize bs * 2 + 1)) 0 (encode bs) ltac:(lia) Hfit) as Hms.
  rewrite aset_ok, ok_bind, ok_bind by (fold (msize (splice (garbage (msize bs * 2 + 1)) 0 (encode bs))); rewrite Hms, Hg; lia).
  do 2 f_equal. rewrite take_insert_ge by lia. unfold splice. cbn [Z.to_nat take app]. rewrite take_0. cbn [app].
  apply take_app_length'. rewrite length_encode. lia.
Qed.

Lemma pair_value x y : 0 <= x < 16 -> 0 <= y < 16 -> Z.lor (u8 (x * 16)) y = 16 * x + y.
Proof.
  intros Hx Hy. rewrite u8_id by (unfold is_u8; lia). rewrite Z.lor_comm.
  replace (x * 16) with (Z.shiftl x 4) by (rewrite Z.shiftl_mul_pow2; lia). rewrite lor_shiftl_add by lia. lia.
Qed.

Section Decoding.
Context (hex : mem) (HB : Forall is_u8 hex).
Abbreviation len := (msize hex).

Lemma hex_char pos : 0 <= pos < len -> exists c, aget hex pos = Ok c /\ hex !! Z.to_nat pos = Some c /\ is_u8 c.
Proof.
  intros Hp. destruct (aget_total hex pos) as (c & E & Hc); [unfold msize in *; lia|].
  exists c. repeat split; try done; by eapply (Forall_lookup_1 is_u8).
Qed.

(** A first and a second digit. *)
Lemma loop_first fuel maxlen pos b bp ret acc c v : 0 <= pos < len -> hex !! Z.to_nat pos = Some c ->
  digit_value c = Some v -> bp < maxlen ->
  hex2bin_loop (S fuel) maxlen hex len None (mk_hex b bp pos ret acc 0) =
  hex2bin_loop fuel maxlen hex len None (mk_hex b bp (pos + 1) ret (u8 (v * 16)) 0xFF).
Proof.
  intros Hp Hc Hv Hb. destruct (hex_char pos Hp) as (c' & E & Hc' & H8). assert (c' = c) as -> by congruence.
  destruct (digit_test c H8) as [Ht Hval]. rewrite Hv in *. destruct Hval as [Hval _].
  cbn [hex2bin_loop hex_pos bin_pos Cvt.ret Cvt.bin c_acc state]. rewrite (proj2 (Z.ltb_lt _ _)) by lia.
  rewrite E, ok_bind, Ht, (proj2 (Z.leb_gt _ _)), Hval by lia. done.
Qed.

Lemma loop_second fuel maxlen pos b bp ret x c v : 0 <= pos < len -> hex !! Z.to_nat pos = Some c ->
  digit_value c = Some v -> 0 <= x < 16 -> 0 <= bp < maxlen -> maxlen <= msize b ->
  hex2bin_loop (S fuel) maxlen hex len None (mk_hex b bp pos ret (u8 (x * 16)) 0xFF) =
  hex2bin_loop fuel maxlen hex len None
    (mk_hex (<[Z.to_nat bp := 16 * x + v]> b) (bp + 1) (pos + 1) ret (u8 (x * 16)) 0).
Proof.
  intros Hp Hc Hv Hx Hb Hm. destruct (hex_char pos Hp) as (c' & E & Hc' & H8). assert (c' = c) as -> by congruence.
  destruct (digit_test c H8) as [Ht Hval]. rewrite Hv in *. destruct Hval as [Hval Hr].
  cbn [hex2bin_loop hex_pos bin_pos Cvt.ret Cvt.bin c_acc state]. rewrite (proj2 (Z.ltb_lt _ _)) by lia.
  rewrite E, ok_bind, Ht, (proj2 (Z.leb_gt _ _)), Hval by lia. change (0xFF =? 0) with false. cbn iota.
  rewrite pair_value by done. unfold msize in *. by rewrite aset_ok, ok_bind by lia.
Qed.

Lemma loop_bad fuel maxlen pos b bp ret acc st c : 0 <= pos < len -> hex !! Z.to_nat pos = Some c ->
  digit_value c = None ->
  hex2bin_loop (S fuel) maxlen hex len None (mk_hex b bp pos ret acc st) = Ok (mk_hex b bp pos ret acc st).
Proof.
  intros Hp Hc Hv. destruct (hex_char pos Hp) as (c' & E & Hc' & H8). assert (c' = c) as -> by congruence.
  destruct (digit_test c H8) as [Ht _]. rewrite Hv in Ht.
  cbn [hex2bin_loop hex_pos]. rewrite (proj2 (Z.ltb_lt _ _)) by lia. by rewrite E, ok_bind, Ht.
Qed.

Lemma loop_end fuel maxlen b bp ret acc st :
  hex2bin_loop (S fuel) maxlen hex len None (mk_hex b bp len ret acc st) = Ok (mk_hex b bp len ret acc st).
Proof. cbn [hex2bin_loop hex_pos]. by rewrite Z.ltb_irrefl. Qed.

Lemma loop_full fuel maxlen pos b ret acc st c v : 0 <= pos < len -> hex !! Z.to_nat pos = Some c ->
  digit_value c = Some v ->
  hex2bin_loop (S fuel) maxlen hex len None (mk_hex b maxlen pos ret acc st) = Ok (mk_hex b maxlen pos (-1) acc st).
Proof.
  intros Hp Hc Hv. destruct (hex_char pos Hp) as (c' & E & Hc' & H8). assert (c' = c) as -> by congruence.
  destruct (digit_test c H8) as [Ht _]. rewrite Hv in Ht.
  cbn [hex2bin_loop hex_pos bin_pos]. rewrite (proj2 (Z.ltb_lt _ _)) by lia. rewrite E, ok_bind, Ht.
  by rewrite Z.leb_refl.
Qed.

(** How the loop ends on the rest [s] of the string: either with its bytes, or
    in a state [cvt_hex2bin] reports as an error. *)
Definition failed (h : hex_state) : Prop := state h <> 0 \/ ret h = -1 \/ hex_pos h < len.

Lemma hex2bin_loop_ok n : forall fuel s pos b bp acc, (length s <= n)%nat -> (length s < fuel)%nat ->
  0 <= pos -> s = drop (Z.to_nat pos) hex -> pos <= len ->
  0 <= bp <= msize b -> msize s <= 2 * (msize b - bp) + 1 ->
  returns (hex2bin_loop fuel (msize b) hex len None (mk_hex b bp pos 0 acc 0)) (fun h =>
    msize (Cvt.bin h) = msize b /\
    match decode s with
    | Some bs => Cvt.bin h = splice b bp bs /\ state h = 0 /\ ret h = 0 /\ hex_pos h = len
    | None => failed h
    end).
Proof.
  induction n as [|n IH]; intros fuel s pos b bp acc Hn Hf Hp Hs Hpl Hbp Hsz.
  { destruct s; [|simpl in Hn; lia]. destruct fuel as [|fuel]; [simpl in Hf; lia|].
    assert (pos = len) as ->.
    { apply (f_equal length) in Hs. rewrite length_drop in Hs. simpl in Hs. unfold msize in *. lia. }
    rewrite loop_end. cbn. split; [done|]. unfold splice. cbn [app length]. by rewrite Nat.add_0_r, take_drop. }
  destruct s as [|c s].
  { eapply returns_mono; [apply (IH fuel [] pos b bp acc); simpl in *; try done; lia|]. done. }
  assert (hex !! Z.to_nat pos = Some c) as Hc.
  { rewrite <- (Nat.add_0_r (Z.to_nat pos)), <- lookup_drop, <- Hs. done. }
  assert (0 <= pos < len) as Hpos by (apply lookup_lt_Some in Hc; unfold msize; lia).
  destruct fuel as [|fuel]; [simpl in Hf; lia|].
  assert (s = drop (Z.to_nat (pos + 1)) hex) as Hs1.
  { rewrite (drop_S _ _ _ Hc) in Hs. injection Hs as ->. f_equal. lia. }
  destruct (digit_value c) as [x|] eqn:Ex.
  2:{ rewrite (loop_bad _ _ _ _ _ _ _ _ c) by done. cbn. split; [done|].
      destruct s; cbn [decode]; rewrite ?Ex; unfold failed; cbn; lia. }
  assert (0 <= x < 16) as Hx.
  { destruct (digit_test c) as [_ Hv]; [by eapply (Forall_lookup_1 is_u8)|]. rewrite Ex in Hv. lia. }
  destruct (decide (bp = msize b)) as [->|Hne].
  { rewrite (loop_full _ _ _ _ _ _ _ c x) by done. cbn. split; [done|].
    destruct s; [|unfold msize in Hsz; cbn [length] in Hsz; lia]. unfold failed. cbn. lia. }
  assert (bp < msize b) by (unfold msize in *; cbn [length] in *; lia).
  rewrite (loop_first _ _ _ _ _ _ _ c x) by done.
  destruct s as [|d s].
  { assert (pos + 1 = len) as -> by (apply (f_equal length) in Hs1; rewrite length_drop in Hs1; unfold msize in *; cbn [length] in *; lia).
    destruct fuel as [|fuel]; [simpl in Hf; lia|]. rewrite loop_end. cbn. split; [done|]. by left. }
  assert (hex !! Z.to_nat (pos + 1) = Some d) as Hd.
  { rewrite <- (Nat.add_0_r (Z.to_nat (pos + 1))), <- lookup_drop, <- Hs1. done. }
  assert (0 <= pos + 1 < len) as Hpos1 by (apply lookup_lt_Some in Hd; unfold msize in *; lia).
  destruct fuel as [|fuel]; [simpl in Hf; lia|]. cbn [decode]. rewrite Ex.
  destruct (digit_value d) as [y|] eqn:Ey.
  2:{ rewrite (loop_bad _ _ _ _ _ _ _ _ d) by done. cbn. split; [done|]. unfold failed. cbn. lia. }
  rewrite (loop_second _ _ _ _ _ _ _ d y) by (done || lia).
  assert (msize (<[Z.to_nat bp := 16 * x + y]> b) = msize b) as Hms by (unfold msize; by rewrite length_insert).
  rewrite <- Hms at 1. eapply returns_mono.
  { apply (IH fuel s (pos + 1 + 1) _ (bp + 1)); rewrite ?Hms; unfold msize in *; cbn [length] in *; try lia.
    rewrite (drop_S _ _ _ Hd) in Hs1. injection Hs1 as ->. f_equal. lia. }
  intros h [Hl Hh]. rewrite Hms in Hl. split; [done|]. destruct (decode s) as [bs|]; [|done].
  destruct Hh as (-> & Hst & Hret & Hpos'). repeat split; try done.
  unfold splice. cbn [length]. replace (Z.to_nat (bp + 1)) with (S (Z.to_nat bp)) by lia.
  rewrite (take_S_r _ _ (16 * x + y)) by (apply list_lookup_insert_eq; unfold msize in *; lia).
  rewrite take_insert_ge, drop_insert_lt, <- app_assoc by lia. cbn [app]. do 4 f_equal. lia.
Qed.

End Decoding.

(** A buffer that is large enough gets the bytes at its beginning. *)
Lemma cvt_hex2bin_ok s b : Forall is_u8 s -> msize s <= 2 * msize b + 1 ->
  returns (cvt_hex2bin b (msize b) s (msize s) None false) (fun '(r, out, _, _) =>
    msize out = msize b /\ match decode s with Some bs => r = 0 /\ out = splice b 0 bs | None => r = -1 end).
Proof.
  intros HB Hb. unfold cvt_hex2bin.
  eapply returns_use.
  { apply (hex2bin_loop_ok s HB (length s) _ s 0 b 0 0); rewrite ?drop_0; try done;
      unfold msize in *; lia. }
  intros h [Hl Hh]. destruct (decode s) as [bs|].
  - destruct Hh as (Eb & -> & -> & ->). cbn. rewrite Z.eqb_refl. cbn. split; [done|]. split; [done|exact Eb].
  - destruct (state h =? 0) eqn:Es; cbn [negb]; [|cbn; split; [done|by repeat case_match]].
    destruct Hh as [Hh|[Hh|Hh]]; [lia| |]; cbn.
    + rewrite Hh. by repeat case_match.
    + by rewrite (proj2 (Z.eqb_neq _ _)) by lia.
Qed.

Lemma length_decode s : forall bs, decode s = Some bs -> length s = (2 * length bs)%nat.
Proof.
  enough (forall n s bs, (length s <= n)%nat -> decode s = Some bs -> length s = (2 * length bs)%nat) as H by (intros; by apply (H (length s))).
  clear s. induction n as [|n IH]; intros s bs Hn E; (destruct s as [|a [|b s]]; cbn [decode] in E; [by injection E as <-|done|]);
    [simpl in Hn; lia|].
  destruct (digit_value a), (digit_value b), (decode s) as [l|] eqn:El; try done. injection E as <-.
  cbn [length] in *. rewrite (IH s l) by (done || lia). lia.
Qed.

Lemma digit_value_range c v : digit_value c = Some v -> 0 <= v < 16.
Proof. unfold digit_value. intros E. repeat case_match; simplify_eq; lia. Qed.

Lemma decode_bytes s : forall bs, decode s = Some bs -> Forall is_u8 bs.
Proof.
  enough (forall n s bs, (length s <= n)%nat -> decode s = Some bs -> Forall is_u8 bs) as H by (intros; by apply (H (length s) s)).
  clear s. induction n as [|n IH]; intros s bs Hn E;
    (destruct s as [|a [|b s]]; cbn [decode] in E; [injection E as <-; by apply Forall_nil_2|done|]); [simpl in Hn; lia|].
  destruct (digit_value a) eqn:Ea, (digit_value b) eqn:Eb, (decode s) as [l|] eqn:El; try done. injection E as <-.
  apply digit_value_range in Ea, Eb. apply Forall_cons_2; [unfold is_u8; lia|]. apply (IH s); [simpl in Hn; lia|done].
Qed.

Lemma splice_all (b bs : mem) : length bs = length b -> splice b 0 bs = bs.
Proof. intros E. unfold splice. change (Z.to_nat 0) with 0%nat. by rewrite Nat.add_0_l, take_0, E, drop_all, app_nil_r. Qed.

(** Both entry points decode exactly the even strings of digits. *)
Lemma fromHexImpl_ok buf s : Forall is_u8 s -> 2 <= msize s ->
  returns (fromHexImpl buf (Some s) (msize s)) (fun '(ok, out) =>
    match decode s with Some bs => ok = true /\ out = bs | None => ok = false end).
Proof.
  intros HB Hsz. unfold fromHexImpl. rewrite (proj2 (Z.eqb_neq _ _)) by lia.
  set (b := resize buf (msize s / 2)).
  assert (1 <= msize s / 2) by (Z.div_mod_to_equations; lia).
  assert (msize b = msize s / 2) as Hb.
  { unfold b, resize, msize in *. rewrite length_app, length_take, length_replicate. lia. }
  destruct b as [|x b'] eqn:Eb; [unfold msize in *; simpl in *; lia|]. rewrite <- Eb in *. clear x b' Eb.
  fold (msize b). eapply returns_use; [apply (cvt_hex2bin_ok s b); [done|Z.div_mod_to_equations; lia]|].
  intros [[[r out] ?] ?] [_ Hr]. cbn.
  destruct (decode s) eqn:Ed; [destruct Hr as [-> ->]|by rewrite Hr]. split; [done|]. apply splice_all.
  apply length_decode in Ed. unfold msize in *. Z.div_mod_to_equations. lia.
Qed.

Lemma fromHex_ok b s : Forall is_u8 s -> 0 < msize s <= 2 * msize b + 1 ->
  returns (fromHex b (msize b) (Some s) (msize s)) (fun '(ok, out) =>
    msize out = msize b /\ match decode s with Some bs => ok = true /\ out = splice b 0 bs | None => ok = false end).
Proof.
  intros HB Hsz. unfold fromHex. rewrite (proj2 (Z.eqb_neq _ _)) by lia.
  eapply returns_use; [apply (cvt_hex2bin_ok s b); [done|lia]|]. intros [[[r out] ?] ?] [Hl Hr]. cbn. split; [done|].
  destruct (decode s); [destruct Hr as [-> ->]; done|by rewrite Hr].
Qed.

(** hexadecimal conversion is right: [toHex] prints the lower-case digits
    of its bytes and [fromHex] reads them back; and [fromHex] accepts exactly
    the strings of an even, positive number of digits in either case, with the
    bytes they denote, refusing everything else without writing outside its
    buffer. *)
Theorem hex_codec_correct garbage buf bs s : (forall n, 0 <= n -> msize (garbage n) = n) ->
  (bs <> [] -> Forall is_u8 bs -> msize bs < SIZE_MAX / 2 ->
     toHex garbage (Some bs) (msize bs) = Ok (Some (encode bs)) /\
     fromHexImpl buf (Some (encode bs)) (msize (encode bs)) = Ok (true, bs)) /\
  (Forall is_u8 s -> 2 <= msize s -> exists ok out,
     fromHexImpl buf (Some s) (msize s) = Ok (ok, out) /\ (ok = true <-> decode s = Some out)).
Proof.
  intros Hg. split.
  - intros Hne HB Hsz. split; [by apply toHex_ok|].
    assert (Forall is_u8 (encode bs)) as HBe.
    { clear Hne Hsz. induction HB as [|b l Hb _ IH]; [by apply Forall_nil_2|]. rewrite encode_cons.
      unfold is_u8 in Hb. pose proof (Z.mod_pos_bound b 16 ltac:(lia)).
      repeat apply Forall_cons_2; [..|done]; unfold hexdigit, is_u8; case_match; Z.div_mod_to_equations; lia. }
    pose proof (fromHexImpl_ok buf (encode bs) HBe) as H. rewrite decode_encode in H by done.
    apply returns_iff in H as ([ok out] & -> & -> & ->); [done|].
    unfold msize. rewrite length_encode. destruct bs; [done|simpl; lia].
  - intros HB Hsz. pose proof (fromHexImpl_ok buf s HB Hsz) as H. apply returns_iff in H as ([ok out] & E & H).
    exists ok, out. split; [done|]. destruct (decode s) as [l|]; [|subst; by split].
    destruct H as [-> ->]. by split.
Qed.

Lemma hex_codec_correct_witness :
  toHex (fun n => replicate (Z.to_nat n) 7) (Some [0; 171; 255]) 3 = Ok (Some [48; 48; 97; 98; 102; 102]) /\
  fromHexImpl [9] (Some [48; 48; 97; 98; 102; 102]) 6 = Ok (true, [0; 171; 255]).
Proof.
  apply (hex_codec_correct (fun n => replicate (Z.to_nat n) 7) [9] [0; 171; 255] []).
  - intros n Hn. unfold msize. rewrite length_replicate. lia.
  - discriminate.
  - repeat (constructor; try (unfold is_u8; lia)).
  - vm_compute. reflexivity.
Defined.

End Cvt.
