(* ===== verification/BlobReader.v ===== *)
(** * Reading binary blobs (base/tools/cryptonote/BlobReader.h)

    A [BlobReader] is a bounds-checked cursor over [m_size] bytes that start at
    [base] in a buffer.  Its operations are parsers: functions from the cursor
    to a value and the cursor after it, [None] when the reader reports that it
    is out of range (by an exception or by [false]; either way the caller gives
    up on the input), and a [Fault] where the read leaves the buffer or the
    behaviour is undefined.  The bounds check is the code's, on [size_t], where
    [m_index + n] wraps. *)
From Stdlib Require Import ZArith Lia.
From stdpp Require Import base numbers list.
From S2P Require Import Prelude Memory.
Open Scope Z_scope.

Module BlobReader.

Record reader := mk_reader { base : Z; m_size : Z; m_index : Z }.

Definition parser (A : Type) : Type := reader -> result (option (A * reader)).

#[export] Instance parser_ret : MRet parser := fun A a r => Ok (Some (a, r)).
#[export] Instance parser_bind : MBind parser := fun A B f p r =>
  match p r with
  | Ok (Some (a, r)) => f a r
  | Ok None => Ok None
  | Fault => Fault
  | OutOfFuel => OutOfFuel
  end.

(** The caller's [return false]. *)
Definition reject {A} : parser A := fun _ => Ok None.
Definition guard (b : bool) : parser unit := fun r => if b then Ok (Some (tt, r)) else Ok None.
Definition index : parser Z := fun r => Ok (Some (m_index r, r)).
Definition remaining : parser Z := fun r => Ok (Some (u64 (m_size r - m_index r), r)).
Definition of_result {A} (m : result A) : parser A := fun r => a ← m; Ok (Some (a, r)).

(** A second reader over part of the same buffer. *)
Definition run_on {A} (r0 : reader) (p : parser A) : parser A := fun r =>
  x ← p r0;
  Ok (match x with Some (a, _) => Some (a, r) | None => None end).

Section Reader.
Context (blob : mem).

Definition outOfRange {A} : result (option A) := Ok None.

(** The check [m_index + n > m_size] and the advance of the cursor. *)
Definition skip (n : Z) : parser unit := fun r =>
  if m_size r <? u64 (m_index r + n) then outOfRange
  else Ok (Some (tt, mk_reader (base r) (m_size r) (u64 (m_index r + n)))).

(** [operator()(T &data, size_t n)] for a span: its place and its length. *)
Definition span (n : Z) : parser (Z * Z) := fun r =>
  if m_size r <? u64 (m_index r + n) then outOfRange
  else Ok (Some ((base r + m_index r, n), mk_reader (base r) (m_size r) (u64 (m_index r + n)))).

(** [operator()(uint8_t (&data)[N])] *)
Definition array (N : Z) : parser (list Z) := fun r =>
  if m_size r <? u64 (m_index r + N) then outOfRange
  else
    bs ← mload blob (base r + m_index r) N;
    Ok (Some (bs, mk_reader (base r) (m_size r) (u64 (m_index r + N)))).

Definition getByte : parser Z := fun r =>
  if m_size r <=? m_index r then outOfRange
  else
    b ← aget blob (base r + m_index r);
    Ok (Some (b, mk_reader (base r) (m_size r) (u64 (m_index r + 1)))).

(** The [do] loop of [getVarint].  Shifting a 64-bit word by 64 or more is
    undefined. *)
Fixpoint varint_loop (fuel : nat) (result shift : Z) : parser Z :=
  match fuel with
  | O => fun _ => OutOfFuel
  | S fuel =>
      t ← getByte;
      if 64 <=? shift then of_result Fault
      else
        let result := Z.lor result (shl64 (Z.land t 0x7F) shift) in
        if negb (Z.land t 0x80 =? 0) then varint_loop fuel result (shift + 7)
        else mret result
  end.
(** The shift reaches 70 in the eleventh round. *)
Definition getVarint : parser Z := varint_loop 11 0 0.

End Reader.

(** The loop of [BlockTemplate::generateHashingBlob] that appends [k] as a
    varint; ten rounds shift any 64-bit word to 0. *)
Fixpoint put_varint (n : nat) (k : Z) : list Z :=
  match n with
  | O => []
  | S n => if 0x80 <=? k then Z.lor (Z.land (u8 k) 0x7F) 0x80 :: put_varint n (Z.shiftr k 7) else [u8 k]
  end.
Definition varint (k : Z) : list Z := put_varint 10 k.

(** ** A reader in front of known bytes *)

(** [at_ blob r rest]: [rest] are the bytes the reader has left. *)
Record at_ (blob : mem) (r : reader) (rest : list Z) : Prop := {
  at_base : 0 <= base r;
  at_index : 0 <= m_index r <= m_size r;
  at_size : m_size r < 2 ^ 64;
  at_in : base r + m_size r <= msize blob;
  at_rest : rest = chunk blob (base r + m_index r) (m_size r - m_index r) }.

Definition advance (r : reader) (n : Z) : reader := mk_reader (base r) (m_size r) (m_index r + n).

Lemma at_start (blob : mem) : msize blob < 2 ^ 64 -> at_ blob (mk_reader 0 (msize blob) 0) blob.
Proof.
  intros. assert (0 <= msize blob) by (unfold msize; lia). split; cbn; try lia.
  unfold chunk, msize. rewrite drop_0, take_ge by lia. done.
Qed.

Section Steps.
Context (blob : mem).

Lemma at_length r rest : at_ blob r rest -> msize rest = m_size r - m_index r.
Proof.
  intros [Hb Hi Hs Hin ->]. unfold msize in *. rewrite length_chunk; unfold msize; lia.
Qed.

(** The bytes the reader is in front of, and the rest behind them. *)
Lemma at_split r bs rest : at_ blob r (bs ++ rest) ->
  msize bs <= m_size r - m_index r /\ chunk blob (base r + m_index r) (msize bs) = bs /\
  at_ blob (advance r (msize bs)) rest.
Proof.
  intros Ha. pose proof (at_length _ _ Ha) as Hl. unfold msize in Hl. rewrite length_app in Hl.
  destruct Ha as [Hb Hi Hs Hin Hr]. unfold chunk, msize in *. split; [lia|].
  assert (bs = take (length bs) (drop (Z.to_nat (base r + m_index r)) blob)) as Hbs.
  { rewrite <- (take_app_length bs rest) at 1. rewrite Hr, take_take. f_equal. lia. }
  split; [by rewrite Nat2Z.id|]. split; cbn; unfold msize; try lia.
  assert (rest = drop (length bs) (take (Z.to_nat (m_size r - m_index r)) (drop (Z.to_nat (base r + m_index r)) blob))) as ->
    by (by rewrite <- Hr, drop_app_length).
  unfold chunk. rewrite skipn_firstn_comm, drop_drop. do 2 f_equal; [lia|]. f_equal. lia.
Qed.

Lemma wraps_not r bs rest : at_ blob r (bs ++ rest) ->
  u64 (m_index r + msize bs) = m_index r + msize bs /\ (m_size r <? m_index r + msize bs) = false.
Proof.
  intros Ha. destruct (at_split _ _ _ Ha) as [Hl _]. destruct Ha as [Hb Hi Hs Hr _].
  unfold msize in *. split; [apply u64_id; unfold is_u64; lia|]. apply Z.ltb_ge. lia.
Qed.

Lemma skip_at r bs rest : at_ blob r (bs ++ rest) -> skip (msize bs) r = Ok (Some (tt, advance r (msize bs))).
Proof. intros Ha. unfold skip. by destruct (wraps_not _ _ _ Ha) as [-> ->]. Qed.

Lemma span_at r bs rest : at_ blob r (bs ++ rest) ->
  span (msize bs) r = Ok (Some ((base r + m_index r, msize bs), advance r (msize bs))).
Proof. intros Ha. unfold span. by destruct (wraps_not _ _ _ Ha) as [-> ->]. Qed.

Lemma array_at r bs rest : at_ blob r (bs ++ rest) ->
  array blob (msize bs) r = Ok (Some (bs, advance r (msize bs))).
Proof.
  intros Ha. unfold array. destruct (wraps_not _ _ _ Ha) as [-> ->].
  destruct (at_split _ _ _ Ha) as (Hl & Hc & _). destruct Ha as [Hb Hi Hs Hin _].
  assert (0 <= msize bs) by (unfold msize; lia). rewrite mload_ok, ok_bind by lia. by rewrite Hc.
Qed.

Lemma getByte_at r b rest : at_ blob r (b :: rest) -> getByte blob r = Ok (Some (b, advance r 1)).
Proof.
  intros Ha. destruct (at_split r [b] rest Ha) as (Hl & Hc & _).
  destruct (wraps_not r [b] rest Ha) as [Hw _]. destruct Ha as [Hb Hi Hs Hin _].
  change (msize [b]) with 1 in *. unfold getByte. rewrite (proj2 (Z.leb_gt _ _)), Hw by lia.
  destruct (aget_total blob (base r + m_index r)) as (x & -> & Hx); [unfold msize in *; lia|]. rewrite ok_bind.
  unfold chunk in Hc. rewrite (drop_S _ _ _ Hx) in Hc. cbn in Hc. by injection Hc as ->.
Qed.

Lemma at_cons r b rest : at_ blob r (b :: rest) -> at_ blob (advance r 1) rest.
Proof. intros Ha. by destruct (at_split r [b] rest Ha) as (_ & _ & ?). Qed.

(** ** Varints *)

Lemma put_varint_range n k : Forall is_u8 (put_varint n k).
Proof.
  revert k. induction n as [|n IH]; intros k; [by apply Forall_nil_2|]. cbn [put_varint].
  destruct (0x80 <=? k); [|apply Forall_singleton, u8_range]. apply Forall_cons_2; [|done].
  apply (lor_bound 8); [lia| |lia]. pose proof (land_le_r (u8 k) 0x7F ltac:(lia)). lia.
Qed.

(** One byte of a varint carries seven bits. *)
Lemma varint_byte k : is_u64 k -> 0x80 <= k ->
  let t := Z.lor (Z.land (u8 k) 0x7F) 0x80 in
  Z.land t 0x7F = k mod 128 /\ Z.land t 0x80 = 0x80.
Proof.
  intros Hk Hge t.
  assert (Z.land (u8 k) 0x7F = k mod 128) as E.
  { unfold u8. rewrite <- Z.land_assoc. change (Z.land 255 127) with (Z.ones 7). by rewrite Z.land_ones by lia. }
  pose proof (Z.mod_pos_bound k 128 ltac:(lia)) as Hm. unfold t. rewrite E. split.
  - rewrite Z.land_lor_distr_l. change (Z.land 128 127) with 0. rewrite Z.lor_0_r.
    change 127 with (Z.ones 7). rewrite Z.land_ones by lia. by apply Z.mod_small.
  - rewrite Z.land_lor_distr_l. change (Z.land 128 128) with 128.
    assert (Z.land (k mod 128) 128 = 0) as ->; [|done].
    apply Z.bits_inj'. intros i Hi. rewrite Z.land_spec, Z.bits_0. change 128 with (2 ^ 7) at 2.
    rewrite Z.pow2_bits_eqb by lia. destruct (Z.eqb_spec 7 i) as [<-|]; [|apply andb_false_r].
    change 128 with (2 ^ 7). by rewrite Z.mod_pow2_bits_high by lia.
Qed.

(** Seven more bits on top of those already read. *)
Lemma varint_acc acc d shift : 0 <= acc < 2 ^ shift -> 0 <= shift -> 0 <= d -> d * 2 ^ shift < 2 ^ 64 ->
  Z.lor acc (shl64 d shift) = acc + d * 2 ^ shift.
Proof.
  intros Hacc Hsh Hd Hfit. unfold shl64. rewrite u64_id.
  - rewrite lor_shiftl_add by done. lia.
  - rewrite Z.shiftl_mul_pow2 by done. split; [|done]. apply Z.mul_nonneg_nonneg; [done|]. apply Z.pow_nonneg. lia.
Qed.

Lemma varint_last fuel k acc shift r rest : 0 <= k < 128 -> 0 <= acc < 2 ^ shift -> 0 <= shift < 64 ->
  k * 2 ^ shift < 2 ^ 64 -> at_ blob r (u8 k :: rest) ->
  varint_loop blob (S fuel) acc shift r = Ok (Some (acc + k * 2 ^ shift, advance r 1)).
Proof.
  intros Hk Hacc Hsh Hfit Ha. cbn [varint_loop]. unfold mbind, parser_bind. rewrite (getByte_at _ _ _ Ha).
  rewrite (proj2 (Z.leb_gt 64 shift)) by lia. rewrite u8_id by (unfold is_u8; lia).
  assert (Z.land k 127 = k) as -> by (change 127 with (Z.ones 7); rewrite Z.land_ones by lia; by apply Z.mod_small).
  assert (Z.land k 128 = 0) as ->.
  { apply Z.bits_inj'. intros i Hi. rewrite Z.land_spec, Z.bits_0. change 128 with (2 ^ 7).
    rewrite Z.pow2_bits_eqb by lia. destruct (Z.eqb_spec 7 i) as [<-|]; [|apply andb_false_r].
    by rewrite (proj1 (bits_bound 7 k ltac:(lia) (proj1 Hk)) (proj2 Hk) 7 (Z.le_refl 7)). }
  cbn [Z.eqb negb]. by rewrite varint_acc by (done || lia).
Qed.

Lemma varint_loop_at n : forall fuel k acc shift r rest, (n < fuel)%nat -> 0 <= k < 2 ^ (7 * Z.of_nat (S n)) ->
  0 <= acc < 2 ^ shift -> 0 <= shift < 64 -> k * 2 ^ shift < 2 ^ 64 ->
  at_ blob r (put_varint (S n) k ++ rest) ->
  varint_loop blob fuel acc shift r = Ok (Some (acc + k * 2 ^ shift, advance r (msize (put_varint (S n) k)))).
Proof.
  induction n as [|n IH]; intros fuel k acc shift r rest Hf Hk Hacc Hsh Hfit Ha;
    (destruct fuel as [|fuel]; [lia|]);
    remember (put_varint (S _) k) as bs eqn:Ebs; cbn [put_varint] in Ebs; destruct (0x80 <=? k) eqn:Ek.
  - apply Z.leb_le in Ek. change (2 ^ _) with 128 in Hk. lia.
  - apply Z.leb_gt in Ek. subst bs. by apply (varint_last _ _ _ _ _ rest).
  - apply Z.leb_le in Ek. subst bs. cbn [app] in Ha. cbn [varint_loop]. unfold mbind, parser_bind.
    rewrite (getByte_at _ _ _ Ha). rewrite (proj2 (Z.leb_gt 64 shift)) by lia.
    assert (0 < 2 ^ shift) by (apply Z.pow_pos_nonneg; lia).
    assert (is_u64 k) as Hk64 by (unfold is_u64; nia).
    destruct (varint_byte k Hk64 Ek) as [-> ->]. cbn [Z.eqb negb].
    pose proof (Z.mod_pos_bound k 128 ltac:(lia)) as Hm. pose proof (Z.div_mod k 128 ltac:(lia)) as Hdm.
    assert (0 < k / 128) by (apply Z.div_str_pos; lia).
    rewrite varint_acc by (done || nia).
    rewrite Z.shiftr_div_pow2 in * by lia. change (2 ^ 7) with 128 in *.
    assert (2 ^ (shift + 7) = 2 ^ shift * 128) as Hp by (rewrite Z.pow_add_r; lia).
    assert (shift + 7 < 64) as Hs7.
    { apply (Z.pow_lt_mono_r_iff 2); [lia..|]. rewrite Hp. nia. }
    rewrite (IH fuel (k / 128) _ (shift + 7) _ rest); [|lia| |nia|lia|rewrite Hp; nia|by apply at_cons in Ha].
    + rewrite Hp. do 3 f_equal; [nia|]. unfold advance. cbn [base m_size m_index]. f_equal. unfold msize. cbn [length put_varint]. lia.
    + split; [lia|]. apply Z.div_lt_upper_bound; [lia|]. change 128 with (2 ^ 7). rewrite <- Z.pow_add_r by lia.
      replace (7 + 7 * Z.of_nat (S n)) with (7 * Z.of_nat (S (S n))) by lia. lia.
  - apply Z.leb_gt in Ek. subst bs. apply (varint_last _ _ _ _ _ rest); done || lia.
Qed.

Lemma getVarint_at r k rest : is_u64 k -> at_ blob r (varint k ++ rest) ->
  getVarint blob r = Ok (Some (k, advance r (msize (varint k)))).
Proof.
  intros Hk Ha. unfold is_u64 in Hk. unfold getVarint, varint.
  rewrite (varint_loop_at 9 11 k 0 0 r rest) by (done || lia). do 3 f_equal. lia.
Qed.

End Steps.

(** ** The range check *)

(** while [m_index + n] fits 64 bits the check is exact: [skip] and the span
    reader fail exactly when fewer than [n] bytes are left and otherwise move past
    them.  When it does not fit, they always succeed: the cursor moves back, and
    the span claims [n] bytes that are not there. *)
Theorem range_check_exact r n : 0 <= m_index r <= m_size r -> m_size r < 2 ^ 64 -> is_u64 n ->
  let back := advance r (n - 2 ^ 64) in
  (m_index r + n < 2 ^ 64 ->
     skip n r = Ok (if n <=? m_size r - m_index r then Some (tt, advance r n) else None) /\
     span n r = Ok (if n <=? m_size r - m_index r then Some ((base r + m_index r, n), advance r n) else None)) /\
  (2 ^ 64 <= m_index r + n ->
     m_index back < m_index r /\ m_size r - m_index r < n /\
     skip n r = Ok (Some (tt, back)) /\ span n r = Ok (Some ((base r + m_index r, n), back))).
Proof.
  intros Hi Hs Hn back. unfold is_u64 in Hn. unfold skip, span, outOfRange. split; intros Hw.
  - rewrite u64_id by (unfold is_u64; lia). unfold advance.
    destruct (Z.leb_spec n (m_size r - m_index r)); [rewrite (proj2 (Z.ltb_ge _ _)) by lia|rewrite (proj2 (Z.ltb_lt _ _)) by lia]; done.
  - assert (u64 (m_index r + n) = m_index r + (n - 2 ^ 64)) as ->.
    { rewrite u64_mod. symmetry. apply (Z.mod_unique _ _ 1); lia. }
    rewrite (proj2 (Z.ltb_ge _ _)) by lia. unfold back, advance. cbn [m_index]. repeat split; lia.
Qed.

Lemma range_check_exact_witness :
  skip (2 ^ 64 - 11) (mk_reader 0 11 11) = Ok (Some (tt, mk_reader 0 11 0)).
Proof.
  exact (proj1 (proj2 (proj2 (proj2 (range_check_exact (mk_reader 0 11 11) (2 ^ 64 - 11)
    ltac:(cbn; lia) ltac:(cbn; lia) ltac:(unfold is_u64; lia)) ltac:(cbn; lia))))).
Defined.

End BlobReader.
