(* ===== verification/BlockTemplate.v ===== *)
(** * Block templates (base/tools/cryptonote/BlockTemplate.cpp)

    The parser of a block template for every coin it knows, the hash of the
    miner transaction, the Merkle tree over the transaction hashes with the
    branch of the miner transaction, and the hashing blob.  The fields of the
    class are grouped in three records: header, miner transaction and
    transaction hashes.  A template the code rejects (by [return false] or an
    exception that [parse] turns into [false]) is [None]; its callers drop the
    object then, and what it holds is not modelled.  A [Span] is the place and
    the length of the bytes it views. *)
From Stdlib Require Import ZArith Lia.
From stdpp Require Import base numbers list.
From S2P Require Import Prelude Memory Keccak Cvt BlobReader.
Import BlobReader.BlobReader.
Open Scope Z_scope.

Module BlockTemplate.

(** [Coin::Id] of base/crypto/Coin.h. *)
Inductive Coin := INVALID | MONERO | SUMO | ARQMA | GRAFT | RAVEN | WOWNERO | ZEPHYR | TOWNFORGE | YADA.
#[export] Instance Coin_eq_dec : EqDecision Coin.
Proof. solve_decision. Defined.
Definition is_coin (a b : Coin) : bool := bool_decide (a = b).

Definition kHashSize : Z := 32.
Definition kKeySize : Z := 32.
Definition kNonceSize : Z := 4.
Definition kSignatureSize : Z := 64.
Definition kMinSize : Z := 76.

Abbreviation Span := (Z * Z)%type (only parsing).

Record header := mk_header {
  m_version : Z * Z; m_timestamp : Z; m_prevId : Span; NONCE_OFFSET : Z;
  m_minerSignature : Span; m_vote : list Z }.

(** The part of the transaction that the tags of [tx_extra] set. *)
Record extra := mk_extra {
  TX_PUBKEY_OFFSET : Z; TX_EXTRA_NONCE_OFFSET : Z; TX_EXTRA_MERGE_MINING_TAG_OFFSET : Z;
  m_txExtraNonce : Span; m_txMergeMiningTag : Span }.

Record miner_tx := mk_tx {
  MINER_TX_PREFIX_OFFSET : Z; m_txVersion : Z; m_unlockTime : Z; m_numInputs : Z; m_inputType : Z;
  m_height : Z; m_numOutputs : Z; m_amount : Z; m_outputType : Z; EPH_PUBLIC_KEY_OFFSET : Z;
  m_ephPublicKey : Span; m_carrotViewTag : list Z; m_janusAnchor : list Z; m_viewTag : Z;
  m_extraSize : Z; TX_EXTRA_OFFSET : Z; m_extra : extra; MINER_TX_PREFIX_END_OFFSET : Z }.

Record tx_hashes := mk_hashes {
  m_numHashes : Z; m_hashes : mem; m_minerTxMerkleTreeBranch : mem; m_rootHash : mem }.

Record BlockTemplate := mk_bt {
  m_blob : mem; m_coin : Coin; bt_header : header; bt_tx : miner_tx; bt_hashes : tx_hashes }.

(** [setOffset] stores 32 bits. *)
Definition setOffset (v : Z) : Z := u32 v.

(** ** Parsing *)

Section Parse.
Context (blob : mem) (coin : Coin).

Definition parse_header (old : header) : parser header :=
  maj ← getByte blob;
  min ← getByte blob;
  ts ← getVarint blob;
  prev ← span kHashSize;
  nonce ← index;
  _ ← skip kNonceSize;
  '(sig, vote) ←
    (if is_coin coin WOWNERO && (18 <=? maj) then
       sig ← span kSignatureSize;
       vote ← array blob 2;
       mret (sig, vote)
     else mret (m_minerSignature old, m_vote old));
  _ ← (if is_coin coin ZEPHYR then _ ← array blob 120; mret tt else mret tt);
  mret (mk_header (maj, min) ts prev (setOffset nonce) sig vote).

(** The other outputs of a Zephyr miner transaction: [for (k = 1; k < m_numOutputs; ++k)]. *)
Fixpoint zephyr_outputs (fuel : nat) (k numOutputs : Z) : parser unit :=
  match fuel with
  | O => fun _ => OutOfFuel
  | S fuel =>
      if k <? numOutputs then
        _ ← getVarint blob;
        output_type2 ← getByte blob;
        _ ← guard (output_type2 =? 2);
        _ ← span kKeySize;
        asset_type_len ← getVarint blob;
        _ ← skip asset_type_len;
        _ ← getByte blob;
        zephyr_outputs fuel (k + 1) numOutputs
      else mret tt
  end.

Definition zephyr_rest (fuel : nat) (outputType numOutputs : Z) : parser Z :=
  _ ← guard (outputType =? 2);
  asset_type_len ← getVarint blob;
  _ ← skip asset_type_len;
  tag ← getByte blob;
  _ ← zephyr_outputs fuel 1 numOutputs;
  mret tag.

(** The loop over the tags of [tx_extra]; [off] is [offset(TX_EXTRA_OFFSET)]. *)
Fixpoint extra_loop (fuel : nat) (off extraSize : Z) (pubkey_offset_first : bool) (e : extra) : parser extra :=
  match fuel with
  | O => fun _ => OutOfFuel
  | S fuel =>
      i ← index;
      if i <? extraSize then
        extra_tag ← getVarint blob;
        if extra_tag =? 0x01 then
          i ← index;
          let e := if pubkey_offset_first
                   then mk_extra (setOffset (off + i)) (TX_EXTRA_NONCE_OFFSET e) (TX_EXTRA_MERGE_MINING_TAG_OFFSET e)
                          (m_txExtraNonce e) (m_txMergeMiningTag e)
                   else e in
          _ ← skip kKeySize;
          extra_loop fuel off extraSize false e
        else if extra_tag =? 0x02 then
          size ← getVarint blob;
          i ← index;
          sp ← span size;
          extra_loop fuel off extraSize pubkey_offset_first
            (mk_extra (TX_PUBKEY_OFFSET e) (setOffset (off + i)) (TX_EXTRA_MERGE_MINING_TAG_OFFSET e) sp
               (m_txMergeMiningTag e))
        else if extra_tag =? 0x03 then
          size ← getVarint blob;
          i ← index;
          sp ← span size;
          extra_loop fuel off extraSize pubkey_offset_first
            (mk_extra (TX_PUBKEY_OFFSET e) (TX_EXTRA_NONCE_OFFSET e) (setOffset (off + i)) (m_txExtraNonce e) sp)
        else reject
      else mret e
  end.

Definition is_fcmp_pp (major : Z) : bool := is_coin coin MONERO && (17 <=? major).

(** From the beginning of the prefix of the miner transaction to its end. *)
Definition parse_tx (fuel : nat) (major : Z) (old : miner_tx) : parser miner_tx :=
  prefix ← index;
  txVersion ← getVarint blob;
  unlockTime ← (if negb (is_coin coin TOWNFORGE) then getVarint blob else mret (m_unlockTime old));
  numInputs ← getVarint blob;
  _ ← guard (numInputs =? 1);
  inputType ← getByte blob;
  _ ← guard (inputType =? 0xFF);
  height ← getVarint blob;
  numOutputs ← getVarint blob;
  _ ← (if is_coin coin ZEPHYR then guard (2 <=? numOutputs) else guard (numOutputs =? 1));
  amount ← getVarint blob;
  outputType ← getByte blob;
  _ ← guard ((is_fcmp_pp major && (outputType =? 0)) || (outputType =? 2) || (outputType =? 3));
  eph ← index;
  ephKey ← span kKeySize;
  '(carrot, janus) ←
    (if is_fcmp_pp major then c ← array blob 3; j ← array blob 16; mret (c, j)
     else mret (m_carrotViewTag old, m_janusAnchor old));
  viewTag ←
    (if is_coin coin ZEPHYR then zephyr_rest fuel outputType numOutputs
     else if outputType =? 3 then getByte blob
     else mret (m_viewTag old));
  unlockTime ← (if is_coin coin TOWNFORGE then getVarint blob else mret unlockTime);
  extraSize ← getVarint blob;
  i ← index;
  let off := setOffset i in
  _ ← skip extraSize;
  e ← run_on (mk_reader off extraSize 0) (extra_loop fuel off extraSize true (m_extra old));
  _ ← (if is_coin coin ZEPHYR then
         _ ← getVarint blob; _ ← getVarint blob; _ ← getVarint blob; mret tt
       else mret tt);
  fin ← index;
  mret (mk_tx (setOffset prefix) txVersion unlockTime numInputs inputType height numOutputs amount outputType
          (setOffset eph) ephKey carrot janus viewTag extraSize off e (setOffset fin)).

(** [for (uint64_t i = 1; i <= m_numHashes; ++i)]: the other hashes. *)
Fixpoint copy_hashes (fuel : nat) (i numHashes : Z) (hashes : mem) : parser mem :=
  match fuel with
  | O => fun _ => OutOfFuel
  | S fuel =>
      if i <=? numHashes then
        '(p, n) ← span kHashSize;
        bs ← of_result (mload blob p n);
        hashes ← of_result (mstore hashes (i * kHashSize) bs);
        copy_hashes fuel (i + 1) numHashes hashes
      else mret hashes
  end.

End Parse.

(** ** Hashes *)

Section Hashes.
(** The uninitialised buffer of [keccak]. *)
Context (temp : mem).

Definition keccak32 (bs : mem) : result mem := Keccak.Keccak.keccak temp bs (msize bs) kHashSize.

Definition known_second_hash : list Z :=
  [188; 54; 120; 158; 122; 30; 40; 20; 54; 70; 66; 41; 130; 143; 129; 125; 102; 18; 247; 180; 119; 214; 101;
   145; 255; 150; 169; 224; 100; 188; 201; 138].

Definition calculateMinerTxHash (prefix : mem) : result mem :=
  h ← keccak32 prefix;
  keccak32 (h ++ known_second_hash ++ replicate 32 0).

(** The loop over the branch, [i] in steps of a hash. *)
Fixpoint root_loop (n : nat) (i : Z) (branch root_hash : mem) : result mem :=
  match n with
  | O => mret root_hash
  | S n =>
      b ← mload branch i kHashSize;
      root_hash ← keccak32 (root_hash ++ b);
      root_loop n (i + kHashSize) branch root_hash
  end.
Definition calculateRootHash (prefix branch : mem) : result mem :=
  h ← calculateMinerTxHash prefix;
  root_loop (Z.to_nat (msize branch / kHashSize)) 0 branch h.

(** [keccak(src + i * kHashSize, kHashSize * 2, dst + j * kHashSize, kHashSize)] *)
Definition hash_pair (src : mem) (i : Z) : result mem := bs ← mload src (i * kHashSize) (2 * kHashSize); keccak32 bs.

(** [for (i = 0, cnt = 1; cnt <= count; ++i, cnt <<= 1) {}] *)
Fixpoint cnt_loop (fuel : nat) (cnt count : Z) : result Z :=
  match fuel with
  | O => OutOfFuel
  | S fuel => if cnt <=? count then cnt_loop fuel (u64 (Z.shiftl cnt 1)) count else mret cnt
  end.

(** The pairs of the bottom level: [n] more, [i] into [h] and [j] into [ints]. *)
Fixpoint bottom_loop (n : nat) (h ints branch : mem) (i j : Z) : result (mem * mem) :=
  match n with
  | O => mret (ints, branch)
  | S n =>
      branch ← (if i =? 0 then b ← mload h kHashSize kHashSize; mret (branch ++ b) else mret branch);
      d ← hash_pair h i;
      ints ← mstore ints (j * kHashSize) d;
      bottom_loop n h ints branch (i + 2) (j + 1)
  end.

(** A level above it, in place. *)
Fixpoint level_loop (n : nat) (ints branch : mem) (i j : Z) : result (mem * mem) :=
  match n with
  | O => mret (ints, branch)
  | S n =>
      branch ← (if i =? 0 then b ← mload ints kHashSize kHashSize; mret (branch ++ b) else mret branch);
      d ← hash_pair ints i;
      ints ← mstore ints (j * kHashSize) d;
      level_loop n ints branch (i + 2) (j + 1)
  end.

(** [while (cnt > 2) { cnt >>= 1; ... }] *)
Fixpoint levels_loop (fuel : nat) (cnt : Z) (ints branch : mem) : result (mem * mem) :=
  match fuel with
  | O => OutOfFuel
  | S fuel =>
      if 2 <? cnt then
        let cnt := Z.shiftr cnt 1 in
        '(ints, branch) ← level_loop (Z.to_nat cnt) ints branch 0 0;
        levels_loop fuel cnt ints branch
      else mret (ints, branch)
  end.

(** The root hash and the branch; [h] are the hashes, the miner transaction's first. *)
Definition calculateMerkleTreeHash (numHashes : Z) (h : mem) : result (mem * mem) :=
  let count := u64 (numHashes + 1) in
  if count =? 1 then
    root ← mload h 0 kHashSize;
    mret (root, [])
  else if count =? 2 then
    branch ← mload h kHashSize kHashSize;
    bs ← mload h 0 (2 * kHashSize);
    root ← keccak32 bs;
    mret (root, branch)
  else
    cnt ← cnt_loop 64 1 count;
    let cnt := Z.shiftr cnt 1 in
    let ints := replicate (Z.to_nat (cnt * kHashSize)) 0 in
    bs ← mload h 0 ((cnt * 2 - count) * kHashSize);
    ints ← mstore ints 0 bs;
    '(ints, branch) ← bottom_loop (Z.to_nat (cnt - (cnt * 2 - count))) h ints [] (cnt * 2 - count) (cnt * 2 - count);
    '(ints, branch) ← levels_loop 64 cnt ints branch;
    b ← mload ints kHashSize kHashSize;
    bs ← mload ints 0 (2 * kHashSize);
    root ← keccak32 bs;
    mret (root, branch ++ b).

(** ** The whole template *)

(** From the end of the prefix; [None] as the hashes means that [parse]
    returned before reading them. *)
Definition parse_hashes (fuel : nat) (blob : mem) (coin : Coin) (hashes : bool) (tx : miner_tx) (old : tx_hashes)
    : parser tx_hashes :=
  vin_rct_type ← getByte blob;
  if is_coin coin TOWNFORGE && (m_height tx mod 720 =? 0) then mret old
  else
    _ ← guard (vin_rct_type =? 0);
    miner_tx_end ← index;
    z ← of_result (aget blob (MINER_TX_PREFIX_END_OFFSET tx));
    _ ← guard ((miner_tx_end =? MINER_TX_PREFIX_END_OFFSET tx + 1) && (z =? 0));
    numHashes ← getVarint blob;
    if negb hashes then mret (mk_hashes numHashes (m_hashes old) (m_minerTxMerkleTreeBranch old) (m_rootHash old))
    else
      let buf := Cvt.Cvt.resize (m_hashes old) (u64 ((numHashes + 1) * kHashSize)) in
      prefix ← of_result (mload blob (MINER_TX_PREFIX_OFFSET tx)
                            (MINER_TX_PREFIX_END_OFFSET tx - MINER_TX_PREFIX_OFFSET tx));
      h ← of_result (calculateMinerTxHash prefix);
      buf ← of_result (mstore buf 0 h);
      buf ← copy_hashes blob fuel 1 numHashes buf;
      '(root, branch) ← of_result (calculateMerkleTreeHash numHashes buf);
      mret (mk_hashes numHashes buf branch root).

(** [BlockTemplate::parse(bool hashes)] *)
Definition parse_blob (fuel : nat) (blob : mem) (coin : Coin) (hashes : bool) (old : BlockTemplate)
    : parser BlockTemplate :=
  hd ← parse_header blob coin (bt_header old);
  tx ← parse_tx blob coin fuel (m_version hd).1 (bt_tx old);
  hs ← parse_hashes fuel blob coin hashes tx (bt_hashes old);
  mret (mk_bt blob coin hd tx hs).

(** [BlockTemplate::parse(const Buffer &blocktemplate, const Coin &coin, bool hashes)] *)
Definition parse (fuel : nat) (blocktemplate : mem) (coin : Coin) (hashes : bool) (old : BlockTemplate)
    : result (option BlockTemplate) :=
  if msize blocktemplate <? kMinSize then mret None
  else
    x ← parse_blob fuel blocktemplate coin hashes old (mk_reader 0 (msize blocktemplate) 0);
    mret (match x with Some (bt, _) => Some bt | None => None end).

(** [BlockTemplate::parse(const char *blocktemplate, size_t size, ...)] *)
Definition parse_hex (fuel : nat) (blocktemplate : mem) (coin : Coin) (hashes : bool) (old : BlockTemplate)
    : result (option BlockTemplate) :=
  if msize blocktemplate <? kMinSize * 2 then mret None
  else
    '(ok, blob) ← Cvt.Cvt.fromHexImpl (m_blob old) (Some blocktemplate) (msize blocktemplate);
    if negb (ok : bool) then mret None
    else
      x ← parse_blob fuel blob coin hashes old (mk_reader 0 (msize blob) 0);
      mret (match x with Some (bt, _) => Some bt | None => None end).

End Hashes.

(** [generateHashingBlob]: the block up to the miner transaction, the root hash
    and the number of transactions. *)
Definition generateHashingBlob (bt : BlockTemplate) : result mem :=
  hd ← mload (m_blob bt) 0 (MINER_TX_PREFIX_OFFSET (bt_tx bt));
  mret (hd ++ m_rootHash (bt_hashes bt) ++ varint (u64 (m_numHashes (bt_hashes bt) + 1))).

End BlockTemplate.
