(* ===== verification/MerkleProofs.v ===== *)
(** * The Merkle tree of a block template

    The hash tree of the CryptoNote standard, defined level by level, and the
    proofs that [calculateMerkleTreeHash] computes its root and that the branch
    it collects leads from the hash of the miner transaction to that root. *)
From Stdlib Require Import ZArith Lia.
From stdpp Require Import base numbers list.
From S2P Require Import Prelude Memory Keccak BlobReader BlockTemplate.
Import BlockTemplate.BlockTemplate.
Open Scope Z_scope.

Module MerkleProofs.

(** ** The tree *)

(** Keccak-256, FIPS 202's sponge with a rate of 17 words. *)
Definition hash32 (bs : list Z) : list Z := take 32 (Keccak.Keccak.sponge 17 0x01 bs).
Definition H2 (a b : list Z) : list Z := hash32 (a ++ b).

(** A level of the tree: neighbours are hashed together. *)
Fixpoint pair_up (l : list (list Z)) : list (list Z) :=
  match l with
  | a :: b :: l => H2 a b :: pair_up l
  | _ => []
  end.

(** The root of a perfect tree over [2^k] nodes. *)
Fixpoint perfect (k : nat) (l : list (list Z)) : list Z :=
  match k with
  | O => default [] (head l)
  | S k => perfect k (pair_up l)
  end.

(** [n] leaves: with [2^k] the largest power of two below [n], the last
    [2 (n - 2^k)] leaves are paired, which leaves [2^k] nodes. *)
Definition tree_hash (hs : list (list Z)) : list Z :=
  match hs with
  | [h] => h
  | _ =>
      let n := length hs in
      let k := Nat.log2 (n - 1) in
      let s := (2 * 2 ^ k - n)%nat in
      perfect k (take s hs ++ pair_up (drop s hs))
  end.

(** The hash a branch leads to. *)
Definition climb (leaf : list Z) (branch : list (list Z)) : list Z := foldl H2 leaf branch.

(** ** Buffers of hashes *)

Definition is_hash (h : list Z) : Prop := length h = 32%nat.

Lemma length_sponge r sf m : (1 <= r <= 24)%nat -> length (Keccak.Keccak.sponge r sf m) = 200%nat.
Proof.
  intros Hr. unfold Keccak.Keccak.sponge. rewrite Keccak.Keccak.length_state_bytes.
  by rewrite (Keccak.Keccak.length_fips_absorb r Hr).
Qed.

Lemma hash32_length bs : is_hash (hash32 bs).
Proof. unfold is_hash, hash32. rewrite length_take, length_sponge by lia. lia. Qed.

Lemma mjoin_cons {A} (x : list A) L : mjoin (x :: L) = x ++ mjoin L.
Proof. reflexivity. Qed.

Lemma length_hashes L : Forall is_hash L -> length (mjoin L) = (32 * length L)%nat.
Proof. induction 1 as [|h L Hh _ IH]; [done|]. rewrite mjoin_cons, length_app, Hh, IH. cbn [length]. lia. Qed.

Lemma drop_hashes L i : Forall is_hash L -> drop (32 * i) (mjoin L) = mjoin (drop i L).
Proof.
  revert i. induction L as [|h L IH]; intros i HL; [rewrite (drop_nil i); apply drop_nil|]. destruct i as [|i]; [done|].
  apply Forall_cons in HL as [Hh HL]. cbn [drop]. rewrite <- IH, mjoin_cons by done.
  rewrite drop_app_ge by (rewrite Hh; lia). f_equal. rewrite Hh. lia.
Qed.

Lemma take_hashes L i : Forall is_hash L -> take (32 * i) (mjoin L) = mjoin (take i L).
Proof.
  revert i. induction L as [|h L IH]; intros i HL; [rewrite (take_nil i); apply take_nil|]. destruct i as [|i]; [done|].
  apply Forall_cons in HL as [Hh HL]. cbn [take]. rewrite !mjoin_cons, <- IH by done.
  rewrite take_app_ge by (rewrite Hh; lia). do 2 f_equal. rewrite Hh. lia.
Qed.

Lemma mload_hashes L i k : Forall is_hash L -> (i + k <= length L)%nat ->
  mload (mjoin L) (Z.of_nat i * kHashSize) (Z.of_nat k * kHashSize) = Ok (mjoin (take k (drop i L))).
Proof.
  intros HL Hik. unfold kHashSize. rewrite mload_ok by (unfold msize; rewrite ?length_hashes by done; lia).
  unfold chunk. replace (Z.to_nat (Z.of_nat i * 32)) with (32 * i)%nat by lia.
  replace (Z.to_nat (Z.of_nat k * 32)) with (32 * k)%nat by lia.
  by rewrite drop_hashes, take_hashes by (done || by apply Forall_drop).
Qed.

Lemma mstore_hash L j d : Forall is_hash L -> is_hash d -> (j < length L)%nat ->
  mstore (mjoin L) (Z.of_nat j * kHashSize) d = Ok (mjoin (<[j := d]> L)).
Proof.
  intros HL Hd Hj. unfold kHashSize. rewrite mstore_ok by (unfold msize; rewrite ?length_hashes, ?Hd by done; lia).
  unfold splice. replace (Z.to_nat (Z.of_nat j * 32)) with (32 * j)%nat by lia.
  rewrite take_hashes, Hd by done. replace (32 * j + 32)%nat with (32 * S j)%nat by lia.
  rewrite drop_hashes by done. rewrite insert_take_drop by done. f_equal.
  by rewrite !join_app.
Qed.

Section Tree.
Context (temp : mem) (Htemp : msize temp = 144).

Lemma keccak32_ok bs : keccak32 temp bs = Ok (hash32 bs).
Proof.
  unfold keccak32. rewrite (Keccak.Keccak.keccak_ok temp bs (msize bs) kHashSize 17); [|done|unfold msize; lia|].
  - unfold hash32. rewrite (take_ge bs) by (unfold msize; lia). done.
  - right. repeat split; vm_compute; congruence.
Qed.

Lemma two_hashes (L : list (list Z)) i a b : L !! i = Some a -> L !! (i + 1)%nat = Some b ->
  mjoin (take 2 (drop i L)) = a ++ b.
Proof.
  intros Ha Hb. rewrite (drop_S _ _ _ Ha). rewrite Nat.add_1_r in Hb. rewrite (drop_S _ _ _ Hb).
  cbn. by rewrite app_nil_r.
Qed.

Lemma hash_pair_ok L i a b : Forall is_hash L -> L !! i = Some a -> L !! (i + 1)%nat = Some b ->
  hash_pair temp (mjoin L) (Z.of_nat i) = Ok (H2 a b).
Proof.
  intros HL Ha Hb. pose proof (lookup_lt_Some _ _ _ Hb). unfold hash_pair.
  change (2 * kHashSize) with (Z.of_nat 2 * kHashSize).
  rewrite mload_hashes, ok_bind, (two_hashes L i a b) by (done || lia). apply keccak32_ok.
Qed.

Lemma second_hash L b : Forall is_hash L -> L !! 1%nat = Some b -> mload (mjoin L) kHashSize kHashSize = Ok b.
Proof.
  intros HL Hb. pose proof (lookup_lt_Some _ _ _ Hb).
  change kHashSize with (Z.of_nat 1 * kHashSize) at 1 2. rewrite mload_hashes by (done || lia).
  rewrite (drop_S _ _ _ Hb). cbn. by rewrite app_nil_r.
Qed.

Lemma first_two L a b : Forall is_hash L -> L !! 0%nat = Some a -> L !! 1%nat = Some b ->
  mload (mjoin L) 0 (2 * kHashSize) = Ok (a ++ b).
Proof.
  intros HL Ha Hb. pose proof (lookup_lt_Some _ _ _ Hb) as Hl. pose proof (mload_hashes L 0 2 HL ltac:(lia)) as E.
  by rewrite (two_hashes L 0 a b) in E.
Qed.

Lemma pair_up_length l : length (pair_up l) = (length l / 2)%nat.
Proof.
  assert (forall n l, length l = n -> length (pair_up l) = (n / 2)%nat) as H; [|by apply H].
  induction n as [n IH] using lt_wf_ind. intros [|a [|b m]] Hl; cbn [length] in Hl; subst n; [done|done|].
  cbn [pair_up length]. rewrite (IH (length m)) by lia.
  replace (S (S (length m))) with (length m + 1 * 2)%nat by lia. rewrite Nat.div_add by lia. lia.
Qed.

Lemma pair_up_lookup j l a b : l !! (2 * j)%nat = Some a -> l !! (2 * j + 1)%nat = Some b ->
  pair_up l !! j = Some (H2 a b).
Proof.
  revert l. induction j as [|j IH]; intros l Ha Hb.
  - destruct l as [|x [|y l]]; [done|done|]. cbn in *. by simplify_eq.
  - destruct l as [|x [|y l]]; [done| |].
    + replace (2 * S j)%nat with (S (S (2 * j))) in Ha by lia. done.
    + cbn [pair_up]. replace (2 * S j)%nat with (S (S (2 * j))) in * by lia. cbn in Ha, Hb. by apply IH.
Qed.

Lemma pair_up_hashes l : Forall is_hash (pair_up l).
Proof.
  assert (forall n l, length l = n -> Forall is_hash (pair_up l)) as H; [|by eapply H].
  induction n as [n IH] using lt_wf_ind. intros [|a [|b m]] Hl; cbn [length] in Hl; subst n; try by apply Forall_nil_2.
  cbn [pair_up]. apply Forall_cons_2; [apply hash32_length|]. apply (IH (length m)); lia.
Qed.

(** ** The loops *)

(** The in-place loop over a level of [2c] nodes, with [j] pairs done. *)
Lemma level_loop_ok c L0 : Forall is_hash L0 -> (2 * c <= length L0)%nat ->
  forall n j branch b1, (j + n = c)%nat -> L0 !! 1%nat = Some b1 ->
  let P := pair_up (take (2 * c) L0) in
  level_loop temp n (mjoin (take j P ++ drop j L0)) branch (2 * Z.of_nat j) (Z.of_nat j) =
  Ok (mjoin (P ++ drop c L0), branch ++ (if ((j =? 0) && (0 <? n))%nat then b1 else [])).
Proof.
  intros HL Hc n. induction n as [|n IH]; intros j branch b1 Hj Hb1 P.
  { cbn [level_loop]. replace j with c by lia. rewrite andb_false_r, app_nil_r.
    rewrite (take_ge P); [done|]. unfold P. rewrite pair_up_length, length_take.
    rewrite Nat.min_l, (Nat.mul_comm 2 c), Nat.div_mul by lia. lia. }
  destruct (lookup_lt_is_Some_2 L0 (2 * j)) as [a Ha]; [lia|].
  destruct (lookup_lt_is_Some_2 L0 (2 * j + 1)) as [b Hb]; [lia|].
  assert (P !! j = Some (H2 a b)) as HP.
  { apply pair_up_lookup; rewrite lookup_take_lt by lia; done. }
  pose proof (lookup_lt_Some _ _ _ HP) as HjP.
  set (L := take j P ++ drop j L0).
  assert (Forall is_hash L) as HF by (apply Forall_app; split; [apply Forall_take, pair_up_hashes|by apply Forall_drop]).
  assert (forall k, (j <= k)%nat -> L !! k = L0 !! k) as HLk.
  { intros k Hk. unfold L. rewrite lookup_app_r by (rewrite length_take; lia). rewrite length_take, lookup_drop.
    f_equal. lia. }
  assert (length L = length L0) as HlL by (unfold L; rewrite length_app, length_take, length_drop; lia).
  cbn [level_loop]. cbv zeta.
  assert ((if 2 * Z.of_nat j =? 0 then b0 ← mload (mjoin L) kHashSize kHashSize; mret (branch ++ b0) else mret branch)
    = Ok (branch ++ (if (j =? 0)%nat then b1 else []))) as ->.
  { destruct j as [|j]; cbn [Nat.eqb].
    - cbn [Z.of_nat Z.mul Z.eqb]. rewrite (second_hash L b1), ok_bind; [done..|]. rewrite HLk by lia. done.
    - rewrite (proj2 (Z.eqb_neq _ _)) by lia. by rewrite app_nil_r. }
  rewrite ok_bind. replace (2 * Z.of_nat j) with (Z.of_nat (2 * j)) by lia.
  rewrite (hash_pair_ok L (2 * j) a b), ok_bind by (done || rewrite HLk by lia; done).
  rewrite mstore_hash, ok_bind by (done || apply hash32_length || lia).
  assert (<[j := H2 a b]> L = take (S j) P ++ drop (S j) L0) as ->.
  { unfold L. rewrite insert_app_r_alt by (rewrite length_take; lia). rewrite length_take.
    rewrite Nat.min_l, Nat.sub_diag by lia.
    destruct (lookup_lt_is_Some_2 L0 j) as [x Hx]; [lia|]. rewrite (drop_S _ _ _ Hx). cbn [insert list_insert].
    rewrite (take_S_r _ _ _ HP), <- app_assoc. done. }
  replace (Z.of_nat (2 * j) + 2) with (2 * Z.of_nat (S j)) by lia. replace (Z.of_nat j + 1) with (Z.of_nat (S j)) by lia.
  rewrite (IH (S j) _ b1) by (done || lia). cbn [Nat.eqb andb]. rewrite app_nil_r. do 2 f_equal. by rewrite andb_true_r.
Qed.

(** The levels down to two nodes: the branch collected leads from the first
    node to the first of the two. *)
Lemma levels_loop_ok k : forall fuel nodes junk branch, (k < fuel)%nat -> length nodes = (2 ^ S k)%nat ->
  Forall is_hash nodes -> Forall is_hash junk ->
  exists n0 n1 junk' B, levels_loop temp fuel (Z.of_nat (2 ^ S k)) (mjoin (nodes ++ junk)) branch =
      Ok (mjoin (n0 :: n1 :: junk'), branch ++ mjoin B) /\
    perfect (S k) nodes = H2 n0 n1 /\ climb (default [] (head nodes)) B = n0 /\
    Forall is_hash (n0 :: n1 :: junk') /\ Forall is_hash B.
Proof.
  induction k as [|k IH]; intros fuel nodes junk branch Hf Hl HN HJ; (destruct fuel as [|fuel]; [lia|]).
  - destruct nodes as [|n0 [|n1 [|]]]; try done. exists n0, n1, junk, []. cbn. rewrite app_nil_r.
    repeat split; try done. by apply (Forall_app_2 _ [n0; n1]).
  - cbn [levels_loop]. set (c := (2 ^ S k)%nat) in *.
    assert (2 ^ S (S k) = 2 * c)%nat as Hc by (unfold c; cbn; lia). rewrite Hc in *.
    assert (2 <= c)%nat as Hc2 by (unfold c; cbn; pose proof (Nat.pow_nonzero 2 k ltac:(lia)); lia).
    rewrite (proj2 (Z.ltb_lt _ _)) by lia. cbv zeta.
    replace (Z.shiftr (Z.of_nat (2 * c)) 1) with (Z.of_nat c)
      by (rewrite Z.shiftr_div_pow2 by lia; change (2 ^ 1) with 2; rewrite Nat2Z.inj_mul, Z.mul_comm, Z.div_mul; lia).
    destruct (lookup_lt_is_Some_2 nodes 0) as [a Ha]; [lia|]. destruct (lookup_lt_is_Some_2 nodes 1) as [b Hb]; [lia|].
    assert (Forall is_hash (nodes ++ junk)) as HL by by apply Forall_app_2.
    pose proof (level_loop_ok c (nodes ++ junk) HL ltac:(rewrite length_app; lia) c 0 branch b ltac:(lia)
      ltac:(rewrite lookup_app_l by lia; done)) as E. cbn zeta in E. rewrite take_0, drop_0, take_app_length' in E by lia.
    cbn [app Nat.eqb andb] in E. change (2 * Z.of_nat 0) with 0 in E. change (Z.of_nat 0) with 0 in E. rewrite Nat2Z.id, E, ok_bind.
    rewrite (proj2 (Nat.ltb_lt 0 c)) by lia.
    destruct (IH fuel (pair_up nodes) (drop c (nodes ++ junk)) (branch ++ b)) as (n0 & n1 & junk' & B & -> & Hp & Hcl & HF & HB).
    { lia. } { rewrite pair_up_length, Hl, Nat.mul_comm, Nat.div_mul by lia. done. } { apply pair_up_hashes. } { by apply Forall_drop. }
    exists n0, n1, junk', (b :: B). rewrite (mjoin_cons b B), app_assoc. split; [done|]. split; [done|]. split.
    + unfold climb in *. cbn [foldl]. destruct nodes as [|x [|y nodes]]; [done|done|]. cbn in Ha, Hb. simplify_eq. done.
    + split; [done|]. apply Forall_cons_2; [|done]. exact (Forall_lookup_1 _ _ _ _ HN Hb).
Qed.

Definition zero_hash : list Z := replicate 32 0.

(** The bottom level: [t] of the [m] pairs are done. *)
Lemma bottom_loop_ok hs sl : Forall is_hash hs -> (1 <= sl <= length hs)%nat ->
  let P := pair_up (drop sl hs) in
  forall n t branch, (t + n = length P)%nat ->
  bottom_loop temp n (mjoin hs) (mjoin (take sl hs ++ take t P ++ replicate n zero_hash)) branch
    (Z.of_nat (sl + 2 * t)) (Z.of_nat (sl + t)) = Ok (mjoin (take sl hs ++ P), branch).
Proof.
  intros HF Hs P n. assert (length P = (length hs - sl) / 2)%nat as HlP by (unfold P; rewrite pair_up_length, length_drop; done).
  induction n as [|n IH]; intros t branch Ht; cbn [bottom_loop].
  { rewrite app_nil_r, (take_ge P) by lia. done. }
  assert (2 * length P <= length hs - sl)%nat as H2P by (rewrite HlP; apply Nat.Div0.mul_div_le).
  rewrite (proj2 (Z.eqb_neq _ _)), ok_bind by lia.
  destruct (lookup_lt_is_Some_2 hs (sl + 2 * t)) as [a Ha]; [lia|].
  destruct (lookup_lt_is_Some_2 hs (sl + 2 * t + 1)) as [b Hb]; [lia|].
  rewrite (hash_pair_ok hs _ a b), ok_bind by done.
  assert (P !! t = Some (H2 a b)) as HP.
  { apply pair_up_lookup; rewrite lookup_drop; [done|]. by rewrite Nat.add_assoc. }
  rewrite mstore_hash, ok_bind; [| |apply hash32_length|rewrite !length_app, !length_take, length_replicate; lia].
  2:{ repeat apply Forall_app_2; [by apply Forall_take|apply Forall_take, pair_up_hashes|by apply Forall_replicate]. }
  assert (<[(sl + t)%nat := H2 a b]> (take sl hs ++ take t P ++ replicate (S n) zero_hash) =
    take sl hs ++ take (S t) P ++ replicate n zero_hash) as ->.
  { rewrite insert_app_r_alt by (rewrite length_take; lia). f_equal. rewrite length_take, Nat.min_l by lia.
    replace (sl + t - sl)%nat with t by lia. rewrite insert_app_r_alt by (rewrite length_take; lia).
    rewrite length_take, Nat.min_l, Nat.sub_diag by lia. cbn [replicate insert list_insert].
    by rewrite (take_S_r _ _ _ HP), <- app_assoc. }
  replace (Z.of_nat (sl + 2 * t) + 2) with (Z.of_nat (sl + 2 * S t)) by lia.
  replace (Z.of_nat (sl + t) + 1) with (Z.of_nat (sl + S t)) by lia. apply IH. lia.
Qed.

Lemma cnt_loop_ok count : 1 <= count < 2 ^ 62 -> forall fuel i, 0 <= i <= Z.log2 count + 1 ->
  Z.log2 count + 1 - i < Z.of_nat fuel -> cnt_loop fuel (2 ^ i) count = Ok (2 ^ (Z.log2 count + 1)).
Proof.
  intros Hc. assert (Z.log2 count < 62) as Hl by (apply Z.log2_lt_pow2; lia).
  pose proof (Z.log2_spec count ltac:(lia)) as [Hlo Hhi]. rewrite <- Z.add_1_r in Hhi.
  induction fuel as [|fuel IH]; intros i Hi Hf; [lia|]. cbn [cnt_loop]. destruct (2 ^ i <=? count) eqn:E.
  - apply Z.leb_le in E. assert (i <= Z.log2 count) by (rewrite <- (Z.log2_pow2 i) by lia; by apply Z.log2_le_mono).
    rewrite Z.shiftl_mul_pow2, <- Z.pow_add_r by lia. rewrite u64_id.
    + apply IH; lia.
    + split; [apply Z.pow_nonneg; lia|]. apply Z.pow_lt_mono_r; lia.
  - apply Z.leb_gt in E. do 2 f_equal. destruct (Z.le_gt_cases i (Z.log2 count)) as [H|H]; [|lia].
    pose proof (Z.pow_le_mono_r 2 i (Z.log2 count) ltac:(lia) H). lia.
Qed.

Lemma root_loop_ok B : Forall is_hash B -> forall n i h, (i + n = length B)%nat ->
  root_loop temp n (Z.of_nat i * kHashSize) (mjoin B) h = Ok (climb h (drop i B)).
Proof.
  intros HB n. induction n as [|n IH]; intros i h Hi; cbn [root_loop].
  { by rewrite drop_ge by lia. }
  destruct (lookup_lt_is_Some_2 B i) as [b Hb]; [lia|].
  pose proof (mload_hashes B i 1 HB ltac:(lia)) as E. change (Z.of_nat 1 * kHashSize) with kHashSize in E.
  rewrite E, ok_bind.
  rewrite (drop_S _ _ _ Hb). cbn [take]. rewrite take_0, mjoin_cons. change (mjoin []) with (@nil Z). rewrite app_nil_r.
  rewrite keccak32_ok, ok_bind. replace (Z.of_nat i * kHashSize + kHashSize) with (Z.of_nat (S i) * kHashSize)
    by (unfold kHashSize; lia). rewrite IH by lia. done.
Qed.

Lemma climb_ok B h : Forall is_hash B ->
  root_loop temp (Z.to_nat (msize (mjoin B) / kHashSize)) 0 (mjoin B) h = Ok (climb h B).
Proof.
  intros HB. unfold msize. rewrite length_hashes by done.
  replace (Z.to_nat (Z.of_nat (32 * length B) / kHashSize)) with (length B)
    by (unfold kHashSize; rewrite Nat2Z.inj_mul, Z.mul_comm, Z.div_mul; lia).
  by apply (root_loop_ok B HB (length B) 0 h).
Qed.

(** Both splits of the leaves give the standard's tree. *)
Lemma perfect_split hs k : (2 ^ k <= length hs < 2 ^ S k)%nat -> (1 <= k)%nat ->
  let sl := (2 * 2 ^ k - length hs)%nat in
  perfect k (take sl hs ++ pair_up (drop sl hs)) = tree_hash hs /\
  length (take sl hs ++ pair_up (drop sl hs)) = (2 ^ k)%nat /\ (1 <= sl <= length hs)%nat.
Proof.
  intros Hn Hk sl. assert (2 ^ S k = 2 * 2 ^ k)%nat as HS by (cbn; lia).
  assert (2 <= 2 ^ k)%nat by (change 2%nat with (2 ^ 1)%nat at 1; apply Nat.pow_le_mono_r; lia).
  split; [|split; [|lia]].
  2:{ rewrite length_app, length_take, pair_up_length, length_drop.
      replace (length hs - sl)%nat with ((length hs - 2 ^ k) * 2)%nat by lia. rewrite Nat.div_mul by lia. lia. }
  unfold tree_hash. destruct hs as [|h0 [|h1 tl]]; [simpl in *; lia|simpl in *; lia|].
  set (hs := h0 :: h1 :: tl) in *. cbv zeta. destruct (decide (length hs = 2 ^ k)%nat) as [He|Hne].
  - assert (Nat.log2 (length hs - 1) = k - 1)%nat as ->.
    { rewrite He. apply (Nat.log2_unique (2 ^ k - 1) (k - 1)); [lia|]. destruct k as [|k]; [lia|].
      rewrite Nat.sub_succ, Nat.sub_0_r. cbn in *. lia. }
    unfold sl. rewrite He. replace (2 * 2 ^ k - 2 ^ k)%nat with (length hs) by lia.
    destruct k as [|k]; [lia|]. rewrite Nat.sub_succ, Nat.sub_0_r.
    replace (2 * 2 ^ k - 2 ^ S k)%nat with 0%nat by (cbn; lia).
    rewrite take_ge, drop_ge, take_0, drop_0 by lia. cbn [pair_up]. rewrite app_nil_r. done.
  - assert (Nat.log2 (length hs - 1) = k) as ->; [|done]. apply Nat.log2_unique; lia.
Qed.

(** The array of the level above the leaves, before its pairs are hashed. *)
Lemma ints_start hs sl c : Forall is_hash hs -> (sl <= length hs)%nat -> (sl <= c)%nat ->
  mstore (replicate (Z.to_nat (Z.of_nat c * kHashSize)) 0) 0 (mjoin (take sl hs)) =
  Ok (mjoin (take sl hs ++ replicate (c - sl) zero_hash)).
Proof.
  intros HF Hs Hc.
  assert (forall m, mjoin (replicate m zero_hash) = replicate (32 * m) 0) as Hz.
  { induction m as [|m IH]; [done|]. cbn [replicate]. rewrite mjoin_cons, IH.
    unfold zero_hash. rewrite <- replicate_add. f_equal. lia. }
  pose proof (length_hashes (take sl hs) ltac:(by apply Forall_take)) as Hlt. rewrite length_take in Hlt.
  rewrite mstore_ok by (unfold msize, kHashSize; rewrite ?length_replicate, ?Hlt; lia). unfold splice.
  rewrite take_0, Hlt, drop_replicate. cbn [app]. rewrite join_app, Hz. do 3 f_equal. unfold kHashSize. lia.
Qed.

(** Three leaves or more. *)
Lemma merkle_many hs : Forall is_hash hs -> (3 <= length hs)%nat -> Z.of_nat (length hs) < 2 ^ 58 ->
  exists B, (cnt ← cnt_loop 64 1 (Z.of_nat (length hs));
    let cnt := Z.shiftr cnt 1 in
    let ints := replicate (Z.to_nat (cnt * kHashSize)) 0 in
    bs ← mload (mjoin hs) 0 ((cnt * 2 - Z.of_nat (length hs)) * kHashSize);
    ints ← mstore ints 0 bs;
    '(ints, branch) ← bottom_loop temp (Z.to_nat (cnt - (cnt * 2 - Z.of_nat (length hs)))) (mjoin hs) ints []
       (cnt * 2 - Z.of_nat (length hs)) (cnt * 2 - Z.of_nat (length hs));
    '(ints, branch) ← levels_loop temp 64 cnt ints branch;
    b ← mload ints kHashSize kHashSize;
    bs ← mload ints 0 (2 * kHashSize);
    root ← keccak32 temp bs;
    mret (root, branch ++ b)) = Ok (tree_hash hs, mjoin B) /\
    climb (default [] (head hs)) B = tree_hash hs /\ Forall is_hash B.
Proof.
  intros HF Hn3 Hn. set (n := length hs) in *.
  set (k := Nat.log2 n). assert (1 <= k)%nat as Hk by (unfold k; change 1%nat with (Nat.log2 2); apply Nat.log2_le_mono; lia).
  pose proof (Nat.log2_spec n ltac:(lia)) as Hlog. fold k in Hlog.
  assert (Z.log2 (Z.of_nat n) = Z.of_nat k) as HZ.
  { apply Z.log2_unique; [lia|]. rewrite <- Nat2Z.inj_succ.
    change 2 with (Z.of_nat 2). rewrite <- !Nat2Z.inj_pow. lia. }
  assert (k < 58)%nat as Hk58.
  { apply Nat2Z.inj_lt. rewrite <- HZ. apply Z.log2_lt_pow2; lia. }
  pose proof (cnt_loop_ok (Z.of_nat n) ltac:(lia) 64 0 ltac:(lia) ltac:(lia)) as Ec. change (2 ^ 0) with 1 in Ec.
  rewrite Ec, ok_bind. cbv zeta.
  assert (Z.shiftr (2 ^ (Z.log2 (Z.of_nat n) + 1)) 1 = Z.of_nat (2 ^ k)) as ->.
  { rewrite HZ, Z.shiftr_div_pow2, Z.pow_add_r, Z.div_mul, Nat2Z.inj_pow by lia. done. }
  destruct (perfect_split hs k Hlog Hk) as (Hroot & Hlen & Hsl). fold n in Hroot, Hlen, Hsl.
  set (sl := (2 * 2 ^ k - n)%nat) in *. set (P := pair_up (drop sl hs)) in *.
  replace (Z.of_nat (2 ^ k) * 2 - Z.of_nat n) with (Z.of_nat sl) by lia.
  rewrite length_app, length_take in Hlen. fold n in Hlen.
  pose proof (mload_hashes hs 0 sl HF ltac:(fold n; lia)) as Eh. change (Z.of_nat 0 * kHashSize) with 0 in Eh.
  rewrite drop_0 in Eh. rewrite Eh, ok_bind.
  rewrite (ints_start hs sl (2 ^ k)) by (done || (fold n; lia)). replace (2 ^ k - sl)%nat with (length P) by lia.
  rewrite ok_bind. replace (Z.to_nat (Z.of_nat (2 ^ k) - Z.of_nat sl)) with (length P) by lia.
  pose proof (bottom_loop_ok hs sl HF ltac:(fold n; lia) (length P) 0 [] eq_refl) as Eb. fold P in Eb.
  rewrite Nat.mul_0_r, !Nat.add_0_r, take_0 in Eb. cbn [app] in Eb. rewrite Eb, ok_bind. destruct k as [|k']; [lia|].
  destruct (levels_loop_ok k' 64 (take sl hs ++ P) [] []) as (n0 & n1 & junk' & B & El & Hp & Hcl & HFn & HFB).
  { lia. } { rewrite length_app, length_take. fold n. lia. } { apply Forall_app_2; [by apply Forall_take|apply pair_up_hashes]. } { done. }
  rewrite app_nil_r in El. rewrite El, ok_bind. rewrite (second_hash _ n1), ok_bind by done.
  rewrite (first_two _ n0 n1), ok_bind, keccak32_ok, ok_bind by done.
  exists (B ++ [n1]). fold (H2 n0 n1). rewrite <- Hroot, Hp. split; [|split].
  - cbn [app]. rewrite join_app. cbn. by rewrite app_nil_r.
  - unfold climb in *. rewrite foldl_app. cbn [foldl]. f_equal. rewrite <- Hcl. f_equal.
    destruct hs as [|h0 tl]; [done|]. destruct sl; [lia|]. done.
  - apply Forall_app_2; [done|]. apply Forall_singleton. apply Forall_cons in HFn as [_ HFn]. by apply Forall_cons in HFn as [HFn _].
Qed.

(** The whole computation. *)
Lemma merkle_ok hs : hs <> [] -> Forall is_hash hs -> Z.of_nat (length hs) < 2 ^ 58 ->
  exists B, calculateMerkleTreeHash temp (Z.of_nat (length hs) - 1) (mjoin hs) = Ok (tree_hash hs, mjoin B) /\
    climb (default [] (head hs)) B = tree_hash hs /\ Forall is_hash B.
Proof.
  intros Hne HF Hn. unfold calculateMerkleTreeHash. set (n := length hs).
  assert (1 <= n)%nat as Hn1 by (unfold n; destruct hs; [done|simpl; lia]).
  replace (u64 (Z.of_nat n - 1 + 1)) with (Z.of_nat n) by (rewrite u64_id by (unfold is_u64; lia); lia).
  destruct (Z.of_nat n =? 1) eqn:E1.
  { apply Z.eqb_eq in E1. destruct hs as [|h0 [|]]; [done| |unfold n in E1; simpl in E1; lia]. exists [].
    pose proof (mload_hashes [h0] 0 1 HF ltac:(simpl; lia)) as E.
    change (Z.of_nat 0 * kHashSize) with 0 in E. change (Z.of_nat 1 * kHashSize) with kHashSize in E.
    rewrite E, ok_bind. change (mjoin (take 1 (drop 0 [h0]))) with (h0 ++ []). rewrite app_nil_r. repeat split; done. }
  apply Z.eqb_neq in E1. destruct (Z.of_nat n =? 2) eqn:E2.
  { apply Z.eqb_eq in E2. destruct hs as [|h0 [|h1 [|]]]; try (unfold n in *; simpl in *; lia).
    exists [h1]. rewrite (second_hash _ h1), ok_bind by done.
    rewrite (first_two _ h0 h1), ok_bind, keccak32_ok, ok_bind by done. cbn. rewrite app_nil_r.
    apply Forall_cons in HF as [_ HF]. repeat split; done. }
  apply Z.eqb_neq in E2. apply merkle_many; [done|fold n; lia|done].
Qed.

End Tree.

(** C17: the Merkle root is the one of the CryptoNote standard for every number
    of transactions, no read or write leaves the buffers, and the branch kept
    for the miner transaction is a proof for it: recomputing the root from a
    transaction prefix with that hash and the branch gives the same root. *)
Theorem merkle_tree_correct temp hs : msize temp = 144 -> hs <> [] -> Forall is_hash hs ->
  Z.of_nat (length hs) < 2 ^ 58 ->
  exists branch,
    calculateMerkleTreeHash temp (Z.of_nat (length hs) - 1) (mjoin hs) = Ok (tree_hash hs, branch) /\
    forall prefix, calculateMinerTxHash temp prefix = Ok (default [] (head hs)) ->
      calculateRootHash temp prefix branch = Ok (tree_hash hs).
Proof.
  intros Ht Hne HF Hn. destruct (merkle_ok temp Ht hs Hne HF Hn) as (B & E & Hc & HB). exists (mjoin B).
  split; [done|]. intros prefix Hp. unfold calculateRootHash. rewrite Hp, ok_bind.
  by rewrite (climb_ok temp Ht), Hc.
Qed.

Definition five_hashes : list (list Z) := (fun x => replicate 32 x) <$> [1; 2; 3; 4; 5].

Lemma merkle_tree_correct_witness : exists branch,
  calculateMerkleTreeHash (replicate 144 9) (Z.of_nat (length five_hashes) - 1) (mjoin five_hashes) =
    Ok (tree_hash five_hashes, branch) /\
  forall prefix, calculateMinerTxHash (replicate 144 9) prefix = Ok (default [] (head five_hashes)) ->
    calculateRootHash (replicate 144 9) prefix branch = Ok (tree_hash five_hashes).
Proof.
  assert (msize (replicate 144 9) = 144) as Ht by reflexivity.
  assert (five_hashes <> []) as Hne by discriminate.
  assert (Forall is_hash five_hashes) as HF by (repeat (constructor; [reflexivity|]); constructor).
  exact (merkle_tree_correct (replicate 144 9) five_hashes Ht Hne HF eq_refl).
Defined.

End MerkleProofs.
