(* ===== verification/TemplateProofs.v ===== *)
(** * Parsing block templates

    The binary form of a block template, written from its values, and the proof
    that [BlockTemplate::parse] reads it back for every coin: values, the places
    of the nonce, keys and tags in the blob, the transaction hashes, the Merkle
    root and the hashing blob made of them. *)
From Stdlib Require Import ZArith Lia.
From stdpp Require Import base numbers list.
From S2P Require Import Prelude Memory Keccak Cvt BlobReader BlockTemplate MerkleProofs.
Import BlobReader.BlobReader BlockTemplate.BlockTemplate MerkleProofs.MerkleProofs.
Open Scope Z_scope.

Module TemplateProofs.

(** ** The binary form *)

Inductive extra_tag := Pubkey (k : list Z) | ExtraNonce (bs : list Z) | MergeMining (bs : list Z).

(** An output of a Zephyr miner transaction. *)
Record zephyr_output := mk_zout { z_amount : Z; z_key : list Z; z_asset : list Z; z_tag : Z }.

Record template := mk_template {
  t_major : Z; t_minor : Z; t_timestamp : Z; t_prevId : list Z; t_nonce : list Z;
  t_signature : list Z; t_vote : list Z; t_pricing : list Z;
  t_version : Z; t_unlockTime : Z; t_height : Z; t_amount : Z; t_outputType : Z; t_key : list Z;
  t_carrot : list Z; t_janus : list Z; t_viewTag : Z; t_asset : list Z; t_outputs : list zephyr_output;
  t_extra : list extra_tag; t_record_height : Z; t_burnt : Z; t_minted : Z; t_hashes : list (list Z); t_update : list Z }.

Definition tag_bytes (t : extra_tag) : list Z :=
  match t with
  | Pubkey k => varint 1 ++ k
  | ExtraNonce bs => varint 2 ++ varint (msize bs) ++ bs
  | MergeMining bs => varint 3 ++ varint (msize bs) ++ bs
  end.
Definition extra_bytes (tags : list extra_tag) : list Z := mjoin (tag_bytes <$> tags).

Definition zout_bytes (o : zephyr_output) : list Z :=
  varint (z_amount o) ++ [2] ++ z_key o ++ varint (msize (z_asset o)) ++ z_asset o ++ [z_tag o].
Definition zouts_bytes (l : list zephyr_output) : list Z := mjoin (zout_bytes <$> l).

Section Form.
Context (coin : Coin) (t : template).

Definition signed : bool := is_coin coin WOWNERO && (18 <=? t_major t).
Definition fcmp : bool := is_fcmp_pp coin (t_major t).
Definition numOutputs : Z := if is_coin coin ZEPHYR then 1 + Z.of_nat (length (t_outputs t)) else 1.

Definition header_bytes : list Z :=
  [t_major t] ++ [t_minor t] ++ varint (t_timestamp t) ++ t_prevId t ++ t_nonce t ++
  (if signed then t_signature t ++ t_vote t else []) ++ (if is_coin coin ZEPHYR then t_pricing t else []).

(** What follows the output key: Carrot fields, view tags, Zephyr's assets. *)
Definition output_bytes : list Z :=
  (if fcmp then t_carrot t ++ t_janus t else []) ++
  (if is_coin coin ZEPHYR then varint (msize (t_asset t)) ++ t_asset t ++ [t_viewTag t] ++ zouts_bytes (t_outputs t)
   else if t_outputType t =? 3 then [t_viewTag t] else []).

Definition prefix_bytes : list Z :=
  varint (t_version t) ++ (if negb (is_coin coin TOWNFORGE) then varint (t_unlockTime t) else []) ++
  varint 1 ++ [0xFF] ++ varint (t_height t) ++ varint numOutputs ++ varint (t_amount t) ++ [t_outputType t] ++
  t_key t ++ output_bytes ++
  (if is_coin coin TOWNFORGE then varint (t_unlockTime t) else []) ++
  varint (msize (extra_bytes (t_extra t))) ++ extra_bytes (t_extra t) ++
  (if is_coin coin ZEPHYR then varint (t_record_height t) ++ varint (t_burnt t) ++ varint (t_minted t) else []).

(** Every 720th block of Townforge has a game update, of any form, after the prefix of
    its miner transaction; [parse] reads one byte of it. *)
Definition game_update : bool := is_coin coin TOWNFORGE && (t_height t mod 720 =? 0).
Definition rest_bytes : list Z :=
  if game_update then t_update t else [0] ++ varint (Z.of_nat (length (t_hashes t))) ++ mjoin (t_hashes t).

Definition serialize : list Z := header_bytes ++ prefix_bytes ++ rest_bytes.

(** The values a template can have. *)
Definition tag_wf (e : extra_tag) : Prop :=
  match e with Pubkey k => msize k = 32 | ExtraNonce bs | MergeMining bs => msize bs < 2 ^ 32 end.
Definition zout_wf (o : zephyr_output) : Prop :=
  is_u64 (z_amount o) /\ msize (z_key o) = 32 /\ msize (z_asset o) < 2 ^ 32.

Record template_wf : Prop := {
  wf_timestamp : is_u64 (t_timestamp t); wf_version : is_u64 (t_version t);
  wf_unlockTime : is_u64 (t_unlockTime t); wf_height : is_u64 (t_height t); wf_amount : is_u64 (t_amount t);
  wf_record_height : is_u64 (t_record_height t); wf_burnt : is_u64 (t_burnt t); wf_minted : is_u64 (t_minted t);
  wf_prevId : msize (t_prevId t) = 32; wf_nonce : msize (t_nonce t) = 4;
  wf_signature : msize (t_signature t) = 64; wf_vote : msize (t_vote t) = 2; wf_pricing : msize (t_pricing t) = 120;
  wf_key : msize (t_key t) = 32; wf_carrot : msize (t_carrot t) = 3; wf_janus : msize (t_janus t) = 16;
  wf_outputType : (fcmp = true /\ t_outputType t = 0) \/ t_outputType t = 2 \/ t_outputType t = 3;
  wf_zephyr : coin = ZEPHYR -> t_outputType t = 2 /\ t_outputs t <> [] /\ Forall zout_wf (t_outputs t);
  wf_asset : msize (t_asset t) < 2 ^ 32; wf_outputs : Z.of_nat (length (t_outputs t)) < 2 ^ 32;
  wf_extra : Forall tag_wf (t_extra t);
  wf_hashes : Forall is_hash (t_hashes t);
  wf_update : game_update = true -> t_update t <> [];
  wf_size : msize serialize < 2 ^ 32 }.

End Form.

(** ** Parsers that read a given string *)

Section Reads.
Context (blob : mem).

(** [reads p pos bs a]: in front of [bs], at index [pos] of the whole blob,
    [p] consumes [bs] and returns [a]. *)
Definition reads {A} (p : parser A) (pos : Z) (bs : list Z) (a : A) : Prop :=
  forall r rest, base r = 0 -> m_index r = pos -> at_ blob r (bs ++ rest) ->
    p r = Ok (Some (a, advance r (msize bs))).

Lemma advance_add r a b : advance (advance r a) b = advance r (a + b).
Proof. unfold advance. cbn. f_equal. lia. Qed.

Lemma advance_0 r : advance r 0 = r.
Proof. destruct r. unfold advance. cbn. f_equal. lia. Qed.

Lemma reads_bind {A B} (p : parser A) (f : A -> parser B) pos bs1 bs2 a b :
  reads p pos bs1 a -> reads (f a) (pos + msize bs1) bs2 b -> reads (p ≫= f) pos (bs1 ++ bs2) b.
Proof.
  intros H1 H2 r rest Hb Hp Ha. rewrite <- app_assoc in Ha. unfold mbind, parser_bind.
  rewrite (H1 r (bs2 ++ rest) Hb Hp Ha). destruct (at_split _ _ _ _ Ha) as (_ & _ & Ha2).
  rewrite (H2 _ rest); [|done|cbn; lia|done]. by rewrite advance_add, msize_app.
Qed.

Lemma reads_bind_nil {A B} (p : parser A) (f : A -> parser B) pos bs a b :
  reads p pos [] a -> reads (f a) pos bs b -> reads (p ≫= f) pos bs b.
Proof.
  intros H1 H2. apply (reads_bind p f pos [] bs a b H1). change (msize []) with 0. by rewrite Z.add_0_r.
Qed.

Lemma reads_bind_last {A B} (p : parser A) (f : A -> parser B) pos bs a b :
  reads p pos bs a -> reads (f a) (pos + msize bs) [] b -> reads (p ≫= f) pos bs b.
Proof. intros H1 H2. rewrite <- (app_nil_r bs). by apply (reads_bind p f pos bs [] a b). Qed.

Lemma reads_ret {A} (a : A) pos : reads (mret a) pos [] a.
Proof. intros r rest _ _ _. change (msize []) with 0. by rewrite advance_0. Qed.

Lemma reads_index pos : reads index pos [] pos.
Proof. intros r rest _ Hp _. change (msize []) with 0. rewrite advance_0. unfold index. by rewrite Hp. Qed.

Lemma reads_guard b pos : b = true -> reads (guard b) pos [] tt.
Proof. intros -> r rest _ _ _. change (msize []) with 0. by rewrite advance_0. Qed.

Lemma reads_of_result {A} (m : result A) pos a : m = Ok a -> reads (of_result m) pos [] a.
Proof. intros -> r rest _ _ _. change (msize []) with 0. by rewrite advance_0. Qed.

Lemma reads_byte b pos : reads (getByte blob) pos [b] b.
Proof. intros r rest _ _ Ha. by apply (getByte_at blob r b rest). Qed.

Lemma reads_varint k pos : is_u64 k -> reads (getVarint blob) pos (varint k) k.
Proof. intros Hk r rest _ _ Ha. by apply (getVarint_at blob r k rest). Qed.

Lemma reads_skip n bs pos : msize bs = n -> reads (skip n) pos bs tt.
Proof. intros <- r rest _ _ Ha. by apply (skip_at blob r bs rest). Qed.

Lemma reads_span n bs pos : msize bs = n -> reads (span n) pos bs (pos, n).
Proof. intros <- r rest Hb Hp Ha. rewrite (span_at blob r bs rest Ha). by rewrite Hb, Hp. Qed.

Lemma reads_array n bs pos : msize bs = n -> reads (array blob n) pos bs bs.
Proof. intros <- r rest _ _ Ha. by apply (array_at blob r bs rest). Qed.

Lemma reads_eq {A} (p : parser A) pos bs a b : reads p pos bs a -> a = b -> reads p pos bs b.
Proof. by intros ? <-. Qed.

(** Sequencing with a parser that reads something, or nothing. *)
Ltac next L := eapply reads_bind; [apply L|].
Ltac here L := eapply reads_bind_nil; [apply L|].

Lemma reads_pricing coin t pos : msize (t_pricing t) = 120 ->
  reads (if is_coin coin ZEPHYR then _ ← array blob 120; mret tt else mret tt) pos
    (if is_coin coin ZEPHYR then t_pricing t else []) tt.
Proof.
  intros Hp. destruct (is_coin coin ZEPHYR); [|apply reads_ret].
  eapply reads_bind_last; [by apply reads_array|]. apply reads_ret.
Qed.

(** *** The header *)

Section Header.
Context (coin : Coin) (t : template) (W : template_wf coin t).

Definition p_prevId : Z := 2 + msize (varint (t_timestamp t)).
Definition p_nonce : Z := p_prevId + 32.

Definition header_of (old : header) : header :=
  mk_header (t_major t, t_minor t) (t_timestamp t) (p_prevId, 32) (setOffset p_nonce)
    (if signed coin t then (p_nonce + 4, 64) else m_minerSignature old)
    (if signed coin t then t_vote t else m_vote old).

Lemma reads_header old : reads (parse_header blob coin old) 0 (header_bytes coin t) (header_of old).
Proof.
  destruct W. unfold parse_header, header_bytes, header_of. destruct (signed coin t) eqn:Es; eapply reads_eq.
  - next reads_byte. next reads_byte. next reads_varint; [done|]. next reads_span; [done|]. here reads_index.
    next reads_skip; [done|]. fold (signed coin t). rewrite Es. eapply reads_bind.
    + next reads_span; [done|]. eapply reads_bind_last; [by apply reads_array|]. apply reads_ret.
    + cbn beta iota. eapply reads_bind_last; [by apply reads_pricing|]. apply reads_ret.
  - change (msize [_]) with 1. unfold p_nonce, p_prevId, setOffset. rewrite wf_prevId0. repeat (f_equal; try lia).
  - next reads_byte. next reads_byte. next reads_varint; [done|]. next reads_span; [done|]. here reads_index.
    next reads_skip; [done|]. fold (signed coin t). rewrite Es. here @reads_ret. cbn beta iota.
    eapply reads_bind_last; [by apply reads_pricing|]. apply reads_ret.
  - change (msize [_]) with 1. unfold p_nonce, p_prevId, setOffset. rewrite wf_prevId0. repeat (f_equal; try lia).
Qed.

End Header.

(** *** The miner transaction *)

Lemma size_u64 (bs : list Z) : msize bs < 2 ^ 32 -> is_u64 (msize bs).
Proof. unfold is_u64, msize. lia. Qed.

Lemma reads_zephyr_outputs l : forall fuel k n pos, Forall zout_wf l -> (length l < fuel)%nat ->
  k + Z.of_nat (length l) = n -> reads (zephyr_outputs blob fuel k n) pos (zouts_bytes l) tt.
Proof.
  induction l as [|o l IH]; intros fuel k n pos HW Hf Hn; (destruct fuel as [|fuel]; [simpl in Hf; lia|]);
    cbn [zephyr_outputs length] in *.
  - rewrite (proj2 (Z.ltb_ge _ _)) by lia. apply reads_ret.
  - apply Forall_cons in HW as [(Ha & Hk & Hs) HW]. rewrite (proj2 (Z.ltb_lt _ _)) by lia.
    change (zouts_bytes (o :: l)) with (zout_bytes o ++ zouts_bytes l). unfold zout_bytes. rewrite <- !app_assoc.
    next reads_varint; [done|]. next reads_byte. here reads_guard; [done|]. next reads_span; [done|].
    next reads_varint; [by apply size_u64|]. next reads_skip; [done|]. next reads_byte. apply IH; [done|lia|lia].
Qed.

(** The fields the tags set, from index [pos] of [tx_extra] on. *)
Fixpoint extra_of (off pos : Z) (first : bool) (tags : list extra_tag) (e : extra) : extra :=
  match tags with
  | [] => e
  | Pubkey k :: tags =>
      extra_of off (pos + 33) false tags
        (if first then mk_extra (setOffset (off + (pos + 1))) (TX_EXTRA_NONCE_OFFSET e)
                         (TX_EXTRA_MERGE_MINING_TAG_OFFSET e) (m_txExtraNonce e) (m_txMergeMiningTag e)
         else e)
  | ExtraNonce bs :: tags =>
      let p := pos + 1 + msize (varint (msize bs)) in
      extra_of off (p + msize bs) first tags
        (mk_extra (TX_PUBKEY_OFFSET e) (setOffset (off + p)) (TX_EXTRA_MERGE_MINING_TAG_OFFSET e)
           (off + p, msize bs) (m_txMergeMiningTag e))
  | MergeMining bs :: tags =>
      let p := pos + 1 + msize (varint (msize bs)) in
      extra_of off (p + msize bs) first tags
        (mk_extra (TX_PUBKEY_OFFSET e) (TX_EXTRA_NONCE_OFFSET e) (setOffset (off + p)) (m_txExtraNonce e)
           (off + p, msize bs))
  end.

Lemma bind_some {A B} (p : parser A) (f : A -> parser B) r a r' :
  p r = Ok (Some (a, r')) -> (p ≫= f) r = f a r'.
Proof. intros E. unfold mbind, parser_bind. by rewrite E. Qed.

Lemma varint_nonempty k : 1 <= msize (varint k).
Proof. unfold varint, msize. cbn [put_varint]. destruct (0x80 <=? k); cbn [length]; lia. Qed.

(** A length, and that many bytes. *)
Lemma sized_at {B} r bs rest (f : Z -> Z * Z -> parser B) :
  at_ blob r (varint (msize bs) ++ bs ++ rest) -> msize bs < 2 ^ 32 ->
  let n := msize (varint (msize bs)) in
  (size ← getVarint blob; i ← index; sp ← span size; f i sp) r =
    f (m_index r + n) (base r + (m_index r + n), msize bs) (advance r (n + msize bs)) /\
  at_ blob (advance r (n + msize bs)) rest.
Proof.
  intros Ha Hs n. rewrite (bind_some _ _ _ _ _ (getVarint_at blob r _ _ (size_u64 bs Hs) Ha)).
  destruct (at_split _ _ _ _ Ha) as (_ & _ & Ha1). fold n in Ha1 |- *.
  rewrite (bind_some index _ _ (m_index (advance r n)) (advance r n)) by done.
  rewrite (bind_some _ _ _ _ _ (span_at blob _ _ _ Ha1)).
  destruct (at_split _ _ _ _ Ha1) as (_ & _ & Ha2). rewrite advance_add in *. done.
Qed.

Lemma tag_nonempty tg : 0 < msize (tag_bytes tg).
Proof.
  pose proof (varint_nonempty 1). pose proof (varint_nonempty 2). pose proof (varint_nonempty 3).
  destruct tg; cbn [tag_bytes]; rewrite !msize_app; unfold msize in *; lia.
Qed.

Lemma extra_loop_at off size tags : forall fuel first e r, at_ blob r (extra_bytes tags) -> Forall tag_wf tags ->
  (length tags < fuel)%nat -> m_size r = size -> base r = off ->
  exists r', extra_loop blob fuel off size first e r = Ok (Some (extra_of off (m_index r) first tags e, r')).
Proof.
  induction tags as [|tg tags IH]; intros fuel first e r Ha HW Hf Hs Hb; (destruct fuel as [|fuel]; [simpl in Hf; lia|]);
    pose proof (at_length _ _ _ Ha) as Hl; cbn [extra_loop];
    rewrite (bind_some index _ r (m_index r) r) by done.
  { change (extra_bytes []) with (@nil Z) in Hl. change (msize []) with 0 in Hl.
    rewrite (proj2 (Z.ltb_ge _ _)) by lia. by exists r. }
  apply Forall_cons in HW as [Htg HW]. cbn [length] in Hf.
  change (extra_bytes (tg :: tags)) with (tag_bytes tg ++ extra_bytes tags) in *.
  rewrite msize_app in Hl. pose proof (tag_nonempty tg) as Hne.
  rewrite (proj2 (Z.ltb_lt _ _)) by (unfold msize in *; lia). clear Hne Hl.
  destruct tg as [k|bs|bs]; cbn [tag_bytes tag_wf] in *; rewrite <- !app_assoc in Ha.
  - rewrite (bind_some _ _ _ _ _ (getVarint_at blob r 1 _ ltac:(done) Ha)).
    destruct (at_split _ _ _ _ Ha) as (_ & _ & Ha1). change (msize (varint 1)) with 1 in *. cbn [Z.eqb Pos.eqb].
    rewrite (bind_some index _ _ (m_index (advance r 1)) (advance r 1)) by done. cbv zeta.
    pose proof (skip_at blob _ _ _ Ha1) as Es. rewrite Htg in Es. change kKeySize with 32.
    rewrite (bind_some _ _ _ _ _ Es).
    destruct (at_split _ _ _ _ Ha1) as (_ & _ & Ha2). rewrite advance_add, Htg in *. change (1 + 32) with 33 in *.
    edestruct IH as [r' ->]; [exact Ha2|done|lia|done|done|]. by exists r'.
  - rewrite (bind_some _ _ _ _ _ (getVarint_at blob r 2 _ ltac:(done) Ha)).
    destruct (at_split _ _ _ _ Ha) as (_ & _ & Ha1). change (msize (varint 2)) with 1 in *. cbn [Z.eqb Pos.eqb].
    match goal with |- context [getVarint blob ≫= ?g] => destruct (sized_at (advance r 1) bs (extra_bytes tags)
      (fun i sp => extra_loop blob fuel off size first (mk_extra (TX_PUBKEY_OFFSET e) (setOffset (off + i))
         (TX_EXTRA_MERGE_MINING_TAG_OFFSET e) sp (m_txMergeMiningTag e))) Ha1 Htg) as [-> Ha2] end.
    rewrite advance_add in *. edestruct IH as [r' ->]; [exact Ha2|done|lia|done|done|]. exists r'. cbn [extra_of]. cbv zeta.
    unfold advance. cbn [m_index base]. rewrite Hb, !Z.add_assoc. done.
  - rewrite (bind_some _ _ _ _ _ (getVarint_at blob r 3 _ ltac:(done) Ha)).
    destruct (at_split _ _ _ _ Ha) as (_ & _ & Ha1). change (msize (varint 3)) with 1 in *. cbn [Z.eqb Pos.eqb].
    match goal with |- context [getVarint blob ≫= ?g] => destruct (sized_at (advance r 1) bs (extra_bytes tags)
      (fun i sp => extra_loop blob fuel off size first (mk_extra (TX_PUBKEY_OFFSET e) (TX_EXTRA_NONCE_OFFSET e)
         (setOffset (off + i)) (m_txExtraNonce e) sp)) Ha1 Htg) as [-> Ha2] end.
    rewrite advance_add in *. edestruct IH as [r' ->]; [exact Ha2|done|lia|done|done|]. exists r'. cbn [extra_of]. cbv zeta.
    unfold advance. cbn [m_index base]. rewrite Hb, !Z.add_assoc. done.
Qed.

(** [tx_extra]: the reader skips it and a second reader goes through its tags. *)
Lemma reads_extra {B} fuel pos tags old (f : extra -> parser B) bs2 b :
  Forall tag_wf tags -> (length tags < fuel)%nat -> 0 <= pos < 2 ^ 32 ->
  reads (f (extra_of pos 0 true tags old)) (pos + msize (extra_bytes tags)) bs2 b ->
  reads (_ ← skip (msize (extra_bytes tags));
         e ← run_on (mk_reader (setOffset pos) (msize (extra_bytes tags)) 0)
               (extra_loop blob fuel (setOffset pos) (msize (extra_bytes tags)) true old);
         f e) pos (extra_bytes tags ++ bs2) b.
Proof.
  intros HW Hf Hpos Hrest r rest Hb Hp Ha. rewrite <- app_assoc in Ha.
  rewrite (bind_some _ _ _ _ _ (skip_at blob _ _ _ Ha)).
  destruct (at_split _ _ _ _ Ha) as (Hl & Hc & Ha2).
  assert (setOffset pos = pos) as -> by (apply u32_id; done).
  assert (at_ blob (mk_reader pos (msize (extra_bytes tags)) 0) (extra_bytes tags)) as Hx.
  { destruct Ha as [? ? ? ? _]. rewrite Hb, Hp in *. assert (0 <= msize (extra_bytes tags)) by (unfold msize; lia).
    split; cbn; try lia. rewrite Z.add_0_r, Z.sub_0_r. by rewrite Z.add_0_l in Hc. }
  destruct (extra_loop_at pos (msize (extra_bytes tags)) tags fuel true old _ Hx HW Hf eq_refl eq_refl) as [r' E].
  rewrite (bind_some _ _ _ (extra_of pos 0 true tags old) (advance r (msize (extra_bytes tags)))).
  2:{ unfold run_on. by rewrite E. }
  rewrite (Hrest _ rest); [|done|cbn; lia|done]. by rewrite advance_add, msize_app.
Qed.

Section Transaction.
Context (coin : Coin) (t : template) (W : template_wf coin t).

(** The bytes before the output key and before [tx_extra]. *)
Definition before_key : list Z :=
  varint (t_version t) ++ (if negb (is_coin coin TOWNFORGE) then varint (t_unlockTime t) else []) ++
  varint 1 ++ [0xFF] ++ varint (t_height t) ++ varint (numOutputs coin t) ++ varint (t_amount t) ++ [t_outputType t].
Definition before_extra : list Z :=
  before_key ++ t_key t ++ output_bytes coin t ++
  (if is_coin coin TOWNFORGE then varint (t_unlockTime t) else []) ++ varint (msize (extra_bytes (t_extra t))).

Definition tx_of (pos : Z) (old : miner_tx) : miner_tx :=
  mk_tx (setOffset pos) (t_version t) (t_unlockTime t) 1 0xFF (t_height t) (numOutputs coin t) (t_amount t)
    (t_outputType t) (setOffset (pos + msize before_key)) (pos + msize before_key, 32)
    (if fcmp coin t then t_carrot t else m_carrotViewTag old) (if fcmp coin t then t_janus t else m_janusAnchor old)
    (if is_coin coin ZEPHYR || (t_outputType t =? 3) then t_viewTag t else m_viewTag old)
    (msize (extra_bytes (t_extra t))) (setOffset (pos + msize before_extra))
    (extra_of (pos + msize before_extra) 0 true (t_extra t) (m_extra old))
    (setOffset (pos + msize (prefix_bytes coin t))).

Lemma reads_unlock1 pos x :
  reads (if negb (is_coin coin TOWNFORGE) then getVarint blob else mret x) pos
    (if negb (is_coin coin TOWNFORGE) then varint (t_unlockTime t) else [])
    (if negb (is_coin coin TOWNFORGE) then t_unlockTime t else x).
Proof. destruct (is_coin coin TOWNFORGE); [apply reads_ret|apply reads_varint, W]. Qed.

Lemma reads_unlock2 pos x :
  reads (if is_coin coin TOWNFORGE then getVarint blob else mret x) pos
    (if is_coin coin TOWNFORGE then varint (t_unlockTime t) else [])
    (if is_coin coin TOWNFORGE then t_unlockTime t else x).
Proof. destruct (is_coin coin TOWNFORGE); [apply reads_varint, W|apply reads_ret]. Qed.

Lemma reads_carrot pos old :
  reads (if fcmp coin t then c ← array blob 3; j ← array blob 16; mret (c, j)
         else mret (m_carrotViewTag old, m_janusAnchor old)) pos
    (if fcmp coin t then t_carrot t ++ t_janus t else [])
    (if fcmp coin t then t_carrot t else m_carrotViewTag old, if fcmp coin t then t_janus t else m_janusAnchor old).
Proof.
  destruct (fcmp coin t); [|apply reads_ret]. next reads_array; [apply W|].
  eapply reads_bind_last; [apply reads_array, W|]. apply reads_ret.
Qed.

Lemma coin_true a : is_coin coin a = true -> coin = a.
Proof. apply bool_decide_eq_true_1. Qed.

Lemma zephyr_count : is_coin coin ZEPHYR = true -> numOutputs coin t = 1 + Z.of_nat (length (t_outputs t)).
Proof. intros E. unfold numOutputs. by rewrite E. Qed.

Lemma reads_viewTag fuel pos old : (is_coin coin ZEPHYR = true -> (length (t_outputs t) < fuel)%nat) ->
  reads (if is_coin coin ZEPHYR then zephyr_rest blob fuel (t_outputType t) (numOutputs coin t)
         else if t_outputType t =? 3 then getByte blob else mret (m_viewTag old)) pos
    (if is_coin coin ZEPHYR then varint (msize (t_asset t)) ++ t_asset t ++ [t_viewTag t] ++ zouts_bytes (t_outputs t)
     else if t_outputType t =? 3 then [t_viewTag t] else [])
    (if is_coin coin ZEPHYR || (t_outputType t =? 3) then t_viewTag t else m_viewTag old).
Proof.
  intros Hf. destruct (is_coin coin ZEPHYR) eqn:Ez; cbn [orb].
  - destruct (wf_zephyr _ _ W (coin_true _ Ez)) as (-> & _ & HF). rewrite (zephyr_count Ez).
    unfold zephyr_rest. here reads_guard; [done|]. next reads_varint; [apply size_u64, W|]. next reads_skip; [done|].
    next reads_byte. eapply reads_bind_last; [apply reads_zephyr_outputs; auto|]. apply reads_ret.
  - destruct (t_outputType t =? 3); [apply reads_byte|apply reads_ret].
Qed.

Lemma reads_zephyr_tail pos :
  reads (if is_coin coin ZEPHYR then _ ← getVarint blob; _ ← getVarint blob; _ ← getVarint blob; mret tt else mret tt) pos
    (if is_coin coin ZEPHYR then varint (t_record_height t) ++ varint (t_burnt t) ++ varint (t_minted t) else []) tt.
Proof.
  destruct (is_coin coin ZEPHYR); [|apply reads_ret]. destruct W. next reads_varint; [done|]. next reads_varint; [done|].
  eapply reads_bind_last; [by apply reads_varint|]. apply reads_ret.
Qed.

Lemma numOutputs_u64 : is_u64 (numOutputs coin t).
Proof. pose proof (wf_outputs _ _ W). unfold numOutputs, is_u64. destruct (is_coin coin ZEPHYR); lia. Qed.

Lemma reads_count pos :
  reads (if is_coin coin ZEPHYR then guard (2 <=? numOutputs coin t) else guard (numOutputs coin t =? 1)) pos [] tt.
Proof.
  unfold numOutputs. destruct (is_coin coin ZEPHYR) eqn:Ez; apply reads_guard; [|done].
  destruct (wf_zephyr _ _ W (coin_true _ Ez)) as (_ & Hne & _). apply Z.leb_le.
  destruct (t_outputs t); [done|]. cbn [length]. lia.
Qed.

Lemma output_type_ok :
  (fcmp coin t && (t_outputType t =? 0)) || (t_outputType t =? 2) || (t_outputType t =? 3) = true.
Proof. destruct (wf_outputType _ _ W) as [[-> ->]|[->| ->]]; [done|apply orb_true_iff; left; apply orb_true_r|apply orb_true_r]. Qed.

Lemma prefix_split : prefix_bytes coin t = before_extra ++ extra_bytes (t_extra t) ++
  (if is_coin coin ZEPHYR then varint (t_record_height t) ++ varint (t_burnt t) ++ varint (t_minted t) else []).
Proof. unfold prefix_bytes, before_extra, before_key. by rewrite <- !app_assoc. Qed.

Lemma reads_tx fuel pos old :
  (is_coin coin ZEPHYR = true -> (length (t_outputs t) < fuel)%nat) -> (length (t_extra t) < fuel)%nat ->
  0 <= pos -> pos + msize (prefix_bytes coin t) < 2 ^ 32 ->
  reads (parse_tx blob coin fuel (t_major t) old) pos (prefix_bytes coin t) (tx_of pos old).
Proof.
  intros Hf1 Hf2 Hpos Hsz. pose proof numOutputs_u64 as Hn. pose proof output_type_ok as Ho.
  assert (forall l : list Z, 0 <= msize l) as Hnn by (intros l; unfold msize; lia).
  pose proof Hsz as Hsz'. rewrite prefix_split, !msize_app in Hsz'.
  assert (msize (extra_bytes (t_extra t)) < 2 ^ 32) as Hx.
  { pose proof (Hnn before_extra). pose proof (Hnn (extra_bytes (t_extra t))).
    match type of Hsz' with context [msize (if ?b then ?x else ?y)] => pose proof (Hnn (if b then x else y)) end. lia. }
  assert (0 <= pos + msize before_extra < 2 ^ 32) as Hoff.
  { pose proof (Hnn before_extra). pose proof (Hnn (extra_bytes (t_extra t))).
    match type of Hsz' with context [msize (if ?b then ?x else ?y)] => pose proof (Hnn (if b then x else y)) end. lia. }
  clear Hsz'. unfold parse_tx. rewrite prefix_split. unfold before_extra, before_key, output_bytes.
  rewrite <- !app_assoc. fold (fcmp coin t). eapply reads_eq.
  - here reads_index. next reads_varint; [apply W|]. next reads_unlock1. next reads_varint; [done|].
    here reads_guard; [done|]. next reads_byte. here reads_guard; [done|]. next reads_varint; [apply W|].
    next reads_varint; [done|]. here reads_count. next reads_varint; [apply W|]. next reads_byte.
    here reads_guard; [done|]. here reads_index. next reads_span; [apply W|]. next reads_carrot. cbn beta iota.
    next reads_viewTag; [done|]. next reads_unlock2.
    next reads_varint; [by apply size_u64|]. here reads_index. cbv zeta. apply reads_extra; [apply W|done| |].
    + revert Hoff. unfold before_extra, before_key, output_bytes. rewrite !msize_app. lia.
    + eapply reads_bind_last; [apply reads_zephyr_tail|]. here reads_index. apply reads_ret.
  - unfold tx_of. rewrite prefix_split. unfold before_extra, before_key, output_bytes. rewrite !msize_app.
    destruct (is_coin coin TOWNFORGE); cbn [negb]; repeat (f_equal; try lia).
Qed.

End Transaction.

(** *** The transaction hashes *)

(** A view of the blob and the bytes it shows. *)
Lemma reads_load {B} n bs pos (f : list Z -> parser B) bs2 b : msize bs = n ->
  reads (f bs) (pos + msize bs) bs2 b ->
  reads ('(p, n) ← span n; x ← of_result (mload blob p n); f x) pos (bs ++ bs2) b.
Proof.
  intros <- Hf r rest Hb Hp Ha. rewrite <- app_assoc in Ha.
  rewrite (bind_some _ _ _ _ _ (span_at blob _ _ _ Ha)). destruct (at_split _ _ _ _ Ha) as (Hl & Hc & Ha2).
  rewrite (bind_some _ _ _ bs (advance r (msize bs))).
  - rewrite (Hf _ rest); [|done|cbn; lia|done]. by rewrite advance_add, msize_app.
  - unfold of_result. destruct Ha as [? ? ? ? _]. rewrite mload_ok, Hc by (unfold msize in *; lia). done.
Qed.

Lemma reads_copy l : forall fuel D J pos, Forall is_hash D -> Forall is_hash J -> Forall is_hash l ->
  length J = length l -> (length l < fuel)%nat -> (1 <= length D)%nat ->
  reads (copy_hashes blob fuel (Z.of_nat (length D)) (Z.of_nat (length D + length l) - 1) (mjoin (D ++ J))) pos
    (mjoin l) (mjoin (D ++ l)).
Proof.
  induction l as [|h l IH]; intros fuel D J pos HD HJ HL Hl Hf H1; (destruct fuel as [|fuel]; [simpl in Hf; lia|]);
    cbn [copy_hashes length] in *.
  - destruct J; [|done]. rewrite (proj2 (Z.leb_gt _ _)) by lia. apply reads_ret.
  - destruct J as [|x J]; [done|]. apply Forall_cons in HJ as [Hx HJ]. apply Forall_cons in HL as [Hh HL].
    rewrite (proj2 (Z.leb_le _ _)) by lia. rewrite (mjoin_cons h l). apply reads_load; [unfold msize; by rewrite Hh|].
    eapply reads_bind_nil.
    { apply reads_of_result. apply (mstore_hash _ (length D) h); [by apply Forall_app_2; [|apply Forall_cons_2]|done|].
      rewrite length_app. cbn [length]. lia. }
    rewrite insert_app_r_alt, Nat.sub_diag by done. cbn [insert list_insert].
    rewrite (cons_middle h D J), (cons_middle h D l), !app_assoc.
    replace (Z.of_nat (length D) + 1) with (Z.of_nat (length (D ++ [h]))) by (rewrite length_app; cbn [length]; lia).
    replace (Z.of_nat (length D + S (length l)) - 1) with (Z.of_nat (length (D ++ [h]) + length l) - 1)
      by (rewrite length_app; cbn [length]; lia).
    apply IH; [by apply Forall_app_2, Forall_singleton|done|done|cbn in Hl; lia|lia|rewrite length_app; lia].
Qed.

End Reads.

(** The tactics of the section, for any blob. *)
Ltac next L := eapply reads_bind; [apply L|].
Ltac here L := eapply reads_bind_nil; [apply L|].

(** Any buffer of whole hashes is a list of them. *)
Lemma split_hashes k : forall buf : mem, length buf = (32 * k)%nat ->
  exists L, mjoin L = buf /\ Forall is_hash L /\ length L = k.
Proof.
  induction k as [|k IH]; intros buf Hb.
  - exists []. destruct buf; [|simpl in Hb; lia]. repeat split. by apply Forall_nil_2.
  - destruct (IH (drop 32 buf)) as (L & HL & HF & Hl); [rewrite length_drop; lia|].
    exists (take 32 buf :: L). rewrite mjoin_cons, HL, take_drop. split; [done|]. split; [|cbn; lia].
    apply Forall_cons_2; [|done]. unfold is_hash. rewrite length_take. lia.
Qed.

(** The hash of the miner transaction with this prefix. *)
Definition miner_hash (prefix : list Z) : list Z := hash32 (hash32 prefix ++ known_second_hash ++ replicate 32 0).

Lemma miner_hash_ok temp prefix : msize temp = 144 -> calculateMinerTxHash temp prefix = Ok (miner_hash prefix).
Proof. intros Ht. unfold calculateMinerTxHash. rewrite keccak32_ok, ok_bind by done. by apply keccak32_ok. Qed.

Lemma length_miner_hash prefix : is_hash (miner_hash prefix).
Proof. apply hash32_length. Qed.

#[local] Opaque miner_hash.

Section Whole.
Context (coin : Coin) (t : template) (W : template_wf coin t).
Abbreviation blob := (serialize coin t).
Abbreviation leaves := (miner_hash (prefix_bytes coin t) :: t_hashes t).

Lemma chunk_mid (a b c : list Z) : chunk (a ++ b ++ c) (msize a) (msize b) = b.
Proof.
  unfold chunk, msize. rewrite !Nat2Z.id, drop_app_length. by rewrite take_app_length.
Qed.

Definition p_prefix : Z := msize (header_bytes coin t).
Definition p_end : Z := p_prefix + msize (prefix_bytes coin t).

Lemma serialize_size : msize blob = p_end + msize (rest_bytes coin t) /\ 1 <= msize (rest_bytes coin t) /\
  (game_update coin t = false -> msize (rest_bytes coin t) = 1 + msize (varint (Z.of_nat (length (t_hashes t)))) + msize (mjoin (t_hashes t))).
Proof.
  split; [unfold serialize, p_end, p_prefix; rewrite !msize_app; lia|]. unfold rest_bytes. destruct (game_update coin t) eqn:Eu.
  - split; [|done]. pose proof (wf_update _ _ W Eu). destruct (t_update t); [done|]. unfold msize. cbn [length]. lia.
  - rewrite !msize_app. change (msize [0]) with 1. unfold msize. lia.
Qed.

Lemma places : 0 <= p_prefix /\ p_prefix <= p_end /\ p_end + 1 < 2 ^ 32 /\
  setOffset p_prefix = p_prefix /\ setOffset p_end = p_end.
Proof.
  destruct serialize_size as (Hs & Hr & _). pose proof (wf_size _ _ W) as Hw.
  assert (forall l : list Z, 0 <= msize l) as Hnn by (intros l; unfold msize; lia).
  pose proof (Hnn (header_bytes coin t)). pose proof (Hnn (prefix_bytes coin t)).
  unfold p_end, p_prefix in *. repeat split; try lia; apply u32_id; unfold is_u32; lia.
Qed.

Lemma rct_byte : game_update coin t = false -> aget blob p_end = Ok 0.
Proof.
  intros Hu. destruct places as (H0 & H1 & H2 & _). destruct serialize_size as (Hs & Hr & _).
  destruct (aget_total blob p_end) as (x & -> & Hx); [unfold msize in *; lia|]. f_equal.
  unfold serialize, rest_bytes in Hx. rewrite Hu, app_assoc, lookup_app_r in Hx by (unfold p_end, p_prefix, msize; rewrite length_app; lia).
  replace (Z.to_nat p_end - length (header_bytes coin t ++ prefix_bytes coin t))%nat with 0%nat in Hx
    by (unfold p_end, p_prefix, msize; rewrite length_app; lia).
  by injection Hx.
Qed.

Lemma prefix_chunk : mload blob p_prefix (p_end - p_prefix) = Ok (prefix_bytes coin t).
Proof.
  destruct places as (H0 & H1 & H2 & _). destruct serialize_size as (Hs & Hr & _).
  rewrite mload_ok by lia. f_equal. unfold p_end. replace (p_prefix + _ - p_prefix) with (msize (prefix_bytes coin t)) by lia.
  unfold serialize, p_prefix. apply chunk_mid.
Qed.

Lemma hash_count : game_update coin t = false -> Z.of_nat (length (t_hashes t)) < 2 ^ 32 / 32.
Proof.
  intros Hu. destruct serialize_size as (Hs & _ & Hr). specialize (Hr Hu). pose proof (wf_size _ _ W) as Hw. destruct places as (H0 & H1 & H2 & _).
  pose proof (length_hashes _ (wf_hashes _ _ W)) as Hl. pose proof (varint_nonempty (Z.of_nat (length (t_hashes t)))).
  unfold msize in *. change (2 ^ 32 / 32) with 134217728. lia.
Qed.

(** What [parse] keeps of the hashes, with and without [hashes]. *)
Definition hashes_of (temp : mem) (hashes : bool) (old : tx_hashes) (h : tx_hashes) : Prop :=
  m_numHashes h = Z.of_nat (length (t_hashes t)) /\
  if hashes then m_hashes h = mjoin leaves /\ m_rootHash h = tree_hash leaves /\
    (forall prefix, miner_hash prefix = miner_hash (prefix_bytes coin t) ->
       calculateRootHash temp prefix (m_minerTxMerkleTreeBranch h) = Ok (m_rootHash h))
  else m_hashes h = m_hashes old /\ m_rootHash h = m_rootHash old /\
    m_minerTxMerkleTreeBranch h = m_minerTxMerkleTreeBranch old.

Lemma reads_hashes temp fuel hashes oldtx old : msize temp = 144 -> (length (t_hashes t) < fuel)%nat ->
  game_update coin t = false ->
  exists h, hashes_of temp hashes old h /\
    reads blob (parse_hashes temp fuel blob coin hashes (tx_of coin t p_prefix oldtx) old) p_end
      ([0] ++ varint (Z.of_nat (length (t_hashes t))) ++ (if hashes then mjoin (t_hashes t) else [])) h.
Proof.
  intros Htemp Hf Htf. destruct places as (H0 & H1 & H2 & HoP & HoE). pose proof (hash_count Htf) as Hc.
  change (2 ^ 32 / 32) with 134217728 in Hc. set (n := length (t_hashes t)) in *.
  set (tx := tx_of coin t p_prefix oldtx).
  assert (MINER_TX_PREFIX_END_OFFSET tx = p_end) as HE by exact HoE.
  assert (MINER_TX_PREFIX_OFFSET tx = p_prefix) as HP by exact HoP.
  assert (is_coin coin TOWNFORGE && (m_height tx mod 720 =? 0) = false) as Htown by exact Htf.
  assert (is_u64 (Z.of_nat n)) as Hn64 by (unfold is_u64; lia).
  unfold parse_hashes. rewrite HE, HP, Htown.
  destruct hashes; cbn [negb].
  - destruct (merkle_ok temp Htemp leaves) as (B & Em & Hcl & HB); [done| | |].
    { apply Forall_cons_2; [apply length_miner_hash|apply W]. } { cbn [length]. fold n. lia. }
    exists (mk_hashes (Z.of_nat n) (mjoin leaves) (mjoin B) (tree_hash leaves)). split.
    { split; [done|]. repeat split. intros prefix Hp. cbn [m_minerTxMerkleTreeBranch m_rootHash]. unfold calculateRootHash.
      rewrite miner_hash_ok, ok_bind, Hp, (climb_ok temp Htemp) by done. f_equal. exact Hcl. }
    next @reads_byte. here @reads_guard; [done|]. here @reads_index. here @reads_of_result; [by apply rct_byte|].
    here @reads_guard. { change (msize [0]) with 1. by rewrite Z.eqb_refl. }
    next @reads_varint; [done|]. here @reads_of_result; [apply prefix_chunk|]. here @reads_of_result; [by apply miner_hash_ok|].
    assert (u64 ((Z.of_nat n + 1) * kHashSize) = Z.of_nat (32 * S n)) as -> by
      (rewrite u64_id; unfold is_u64, kHashSize; lia).
    destruct (split_hashes (S n) (Cvt.Cvt.resize (m_hashes old) (Z.of_nat (32 * S n)))) as (L & <- & HL & HlL).
    { unfold Cvt.Cvt.resize. rewrite Nat2Z.id, length_app, length_take, length_replicate. lia. }
    destruct L as [|x L]; [done|]. apply Forall_cons in HL as [Hx HL].
    here @reads_of_result.
    { apply (mstore_hash (x :: L) 0); [by apply Forall_cons_2|apply length_miner_hash|cbn; lia]. }
    cbn [insert list_insert]. eapply reads_bind_last.
    + eassert (Hcp : reads blob _ _ _ _).
      { apply (reads_copy blob (t_hashes t) fuel [miner_hash (prefix_bytes coin t)] L); try done;
          [apply Forall_singleton, length_miner_hash|apply W|injection HlL as HlL; fold n; lia]. }
      fold n in Hcp. cbn [length app] in Hcp. replace (Z.of_nat (1 + n) - 1) with (Z.of_nat n) in Hcp by lia. exact Hcp.
    + cbn [app]. here @reads_of_result.
      { replace (Z.of_nat n) with (Z.of_nat (length leaves) - 1) by (cbn [length]; fold n; lia). exact Em. }
      cbn beta iota. apply reads_ret.
  - exists (mk_hashes (Z.of_nat n) (m_hashes old) (m_minerTxMerkleTreeBranch old) (m_rootHash old)). split; [done|].
    next @reads_byte. here @reads_guard; [done|]. here @reads_index. here @reads_of_result; [by apply rct_byte|].
    here @reads_guard. { change (msize [0]) with 1. by rewrite Z.eqb_refl. }
    rewrite app_nil_r. eapply reads_bind_last; [by apply reads_varint|]. apply reads_ret.
Qed.

(** A game update is not read. *)
Lemma reads_update temp fuel hashes oldtx old : game_update coin t = true -> exists x rest, rest_bytes coin t = [x] ++ rest /\
  reads blob (parse_hashes temp fuel blob coin hashes (tx_of coin t p_prefix oldtx) old) p_end [x] old.
Proof.
  intros Hu. unfold rest_bytes. rewrite Hu. pose proof (wf_update _ _ W Hu). destruct (t_update t) as [|x rest]; [done|]. exists x, rest. split; [done|].
  unfold parse_hashes. assert (is_coin coin TOWNFORGE && (m_height (tx_of coin t p_prefix oldtx) mod 720 =? 0) = true) as -> by exact Hu.
  eapply reads_bind_last; [apply reads_byte|]. apply reads_ret.
Qed.

(** *** The places parsing finds *)

(** Where the blob shows a string. *)
Definition shows (p : Z) (bs : list Z) : Prop := 0 <= p /\ p + msize bs <= msize blob /\ chunk blob p (msize bs) = bs.

Lemma shows_mid a b c : blob = a ++ b ++ c -> shows (msize a) b.
Proof.
  intros E. unfold shows. rewrite E at 1 2. rewrite !msize_app. unfold msize at 1 3 6. repeat split; [lia| |apply chunk_mid].
  unfold msize. lia.
Qed.

Lemma shows_app p a b : shows p (a ++ b) -> shows p a /\ shows (p + msize a) b.
Proof.
  intros (H0 & H1 & H2). rewrite msize_app in *.
  assert (forall l : list Z, 0 <= msize l) as Hnn by (intros l; unfold msize; lia).
  pose proof (Hnn a). pose proof (Hnn b). unfold shows, chunk in *.
  rewrite Z2Nat.inj_add in * by lia. repeat split; try lia.
  - apply (f_equal (take (Z.to_nat (msize a)))) in H2. rewrite take_take in H2.
    rewrite Nat.min_l in H2 by lia. rewrite H2. unfold msize. rewrite Nat2Z.id. apply take_app_length.
  - apply (f_equal (drop (Z.to_nat (msize a)))) in H2. rewrite <- take_drop_commute, drop_drop in H2.
    rewrite H2. unfold msize. rewrite Nat2Z.id. apply drop_app_length.
Qed.

(** The first public key, the last extra nonce and the last merge mining tag. *)
Definition found : Type := option (list Z) * option (list Z) * option (list Z).

Definition find_tag (f : found) (e : extra_tag) : found :=
  let '(k, n, m) := f in
  match e with
  | Pubkey x => (match k with Some _ => k | None => Some x end, n, m)
  | ExtraNonce bs => (k, Some bs, m)
  | MergeMining bs => (k, n, Some bs)
  end.

Definition found_at (f : found) (e : extra) : Prop :=
  let '(k, n, m) := f in
  match k with Some x => shows (TX_PUBKEY_OFFSET e) x | None => True end /\
  match n with
  | Some bs => shows (TX_EXTRA_NONCE_OFFSET e) bs /\ m_txExtraNonce e = (TX_EXTRA_NONCE_OFFSET e, msize bs)
  | None => True
  end /\
  match m with
  | Some bs => shows (TX_EXTRA_MERGE_MINING_TAG_OFFSET e) bs /\
               m_txMergeMiningTag e = (TX_EXTRA_MERGE_MINING_TAG_OFFSET e, msize bs)
  | None => True
  end.

Lemma offset_shows p bs : shows p bs -> setOffset p = p.
Proof.
  intros (H0 & H1 & _). pose proof (wf_size _ _ W). apply u32_id. unfold is_u32, msize in *. lia.
Qed.

Lemma extra_found off tags : forall pos first f e, shows (off + pos) (extra_bytes tags) -> found_at f e ->
  first = (match f.1.1 with Some _ => false | None => true end) -> Forall tag_wf tags ->
  found_at (foldl find_tag f tags) (extra_of off pos first tags e).
Proof.
  induction tags as [|tg tags IH]; intros pos first f e Hs Hf Hfi HW; [done|].
  apply Forall_cons in HW as [Htg HW]. cbn [foldl extra_of].
  change (extra_bytes (tg :: tags)) with (tag_bytes tg ++ extra_bytes tags) in Hs. apply shows_app in Hs as [Ht Hs].
  destruct f as [[k n] m], Hf as (Hk & Hn & Hm), tg as [x|bs|bs]; cbn [tag_bytes find_tag tag_wf] in *; rewrite ?msize_app in Hs;
    apply shows_app in Ht as [_ Ht].
  - rewrite Htg in Hs. change (msize (varint 1)) with 1 in *.
    apply IH; [by replace (off + (pos + 33)) with (off + pos + (1 + 32)) by lia| |by destruct k|done].
    cbn in Hfi. subst first. destruct k; [done|]. cbn. rewrite (offset_shows _ x); [|by rewrite Z.add_assoc].
    by rewrite Z.add_assoc.
  - apply shows_app in Ht as [_ Ht]. change (msize (varint 2)) with 1 in *. set (p := pos + 1 + _).
    replace (off + pos + 1 + msize (varint (msize bs))) with (off + p) in Ht by (unfold p; lia).
    apply IH; [by replace (off + (p + msize bs)) with (off + pos + (1 + (msize (varint (msize bs)) + msize bs))) by (unfold p; lia)| |done|done].
    cbn. rewrite (offset_shows _ bs Ht). done.
  - apply shows_app in Ht as [_ Ht]. change (msize (varint 3)) with 1 in *. set (p := pos + 1 + _).
    replace (off + pos + 1 + msize (varint (msize bs))) with (off + p) in Ht by (unfold p; lia).
    apply IH; [by replace (off + (p + msize bs)) with (off + pos + (1 + (msize (varint (msize bs)) + msize bs))) by (unfold p; lia)| |done|done].
    cbn. rewrite (offset_shows _ bs Ht). done.
Qed.

Lemma join_length_ge {A} (f : A -> list Z) l : (forall x, 1 <= msize (f x)) -> Z.of_nat (length l) <= msize (mjoin (f <$> l)).
Proof.
  intros Hf. induction l as [|x l IH]; [done|]. rewrite fmap_cons, mjoin_cons, msize_app. specialize (Hf x). cbn [length]. lia.
Qed.

(** Every loop of the parser is shorter than the blob, which is long enough to be one. *)
Lemma loops_bounded : (is_coin coin ZEPHYR = true -> (length (t_outputs t) < length blob)%nat) /\
  (length (t_extra t) < length blob)%nat /\ (game_update coin t = false -> (length (t_hashes t) < length blob)%nat) /\ kMinSize <= msize blob.
Proof.
  destruct serialize_size as (Hs & Hr & Hr').
  assert (forall l : list Z, 0 <= msize l) as Hnn by (intros l; unfold msize; lia).
  pose proof (length_hashes _ (wf_hashes _ _ W)) as Hl.
  pose proof (join_length_ge tag_bytes (t_extra t) (fun x => ltac:(destruct x; cbn [tag_bytes]; rewrite !msize_app;
    match goal with |- context [varint ?k] => pose proof (varint_nonempty k) end; unfold msize in *; lia))) as Hx.
  assert (msize (header_bytes coin t) >= 39) as Hh.
  { unfold header_bytes. rewrite !msize_app, (wf_prevId _ _ W), (wf_nonce _ _ W). change (msize [_]) with 1.
    pose proof (varint_nonempty (t_timestamp t)). destruct (signed coin t), (is_coin coin ZEPHYR); unfold msize in *; lia. }
  assert (msize (prefix_bytes coin t) >= 38 + Z.of_nat (length (t_extra t)) +
    (if is_coin coin ZEPHYR then Z.of_nat (length (t_outputs t)) else 0)) as Hp.
  { unfold prefix_bytes. rewrite !msize_app, (wf_key _ _ W). change (msize [_]) with 1.
    pose proof (varint_nonempty (t_version t)). pose proof (varint_nonempty 1). pose proof (varint_nonempty (t_height t)).
    pose proof (varint_nonempty (t_amount t)). pose proof (varint_nonempty (numOutputs coin t)).
    fold (extra_bytes (t_extra t)) in Hx. pose proof (varint_nonempty (msize (extra_bytes (t_extra t)))).
    assert (msize (output_bytes coin t) >= if is_coin coin ZEPHYR then Z.of_nat (length (t_outputs t)) else 0) as Ho.
    { unfold output_bytes. rewrite msize_app. destruct (is_coin coin ZEPHYR); [|unfold msize; lia].
      pose proof (join_length_ge zout_bytes (t_outputs t) (fun x => ltac:(unfold zout_bytes; rewrite !msize_app;
        change (msize [_]) with 1; unfold msize in *; lia))) as Hz. fold (zouts_bytes (t_outputs t)) in Hz.
      rewrite !msize_app. unfold msize in *. lia. }
    repeat match goal with |- context [msize (if ?b then ?x else ?y)] =>
      pose proof (Hnn (if b then x else y)); generalize dependent (if b then x else y); intros end.
    lia. }
  pose proof (varint_nonempty (Z.of_nat (length (t_hashes t)))). unfold p_end, p_prefix in Hs.
  pose proof (Hnn (mjoin (t_hashes t))). unfold kMinSize.
  repeat split; [intros E; rewrite E in Hp| |intros E; specialize (Hr' E)|]; unfold msize in *; destruct (is_coin coin ZEPHYR); lia.
Qed.

Lemma found_tx oldtx : found_at (foldl find_tag (None, None, None) (t_extra t)) (m_extra (tx_of coin t p_prefix oldtx)) /\
  shows (EPH_PUBLIC_KEY_OFFSET (tx_of coin t p_prefix oldtx)) (t_key t) /\
  shows (TX_EXTRA_OFFSET (tx_of coin t p_prefix oldtx)) (extra_bytes (t_extra t)).
Proof.
  assert (shows p_prefix (prefix_bytes coin t)) as Hp by exact (shows_mid _ _ _ eq_refl).
  assert (shows (p_prefix + msize (before_extra coin t)) (extra_bytes (t_extra t))) as He.
  { rewrite prefix_split in Hp. apply shows_app in Hp as [_ Hp]. by apply shows_app in Hp as [Hp _]. }
  assert (shows (p_prefix + msize (before_key coin t)) (t_key t)) as Hk.
  { rewrite prefix_split in Hp. apply shows_app in Hp as [Hp _]. unfold before_extra in Hp. apply shows_app in Hp as [_ Hp].
    by apply shows_app in Hp as [Hp _]. }
  split; [|split].
  - unfold tx_of. cbn [m_extra]. apply extra_found; [by rewrite Z.add_0_r|done|done|apply W].
  - unfold tx_of. cbn [EPH_PUBLIC_KEY_OFFSET]. by rewrite (offset_shows _ _ Hk).
  - unfold tx_of. cbn [TX_EXTRA_OFFSET]. by rewrite (offset_shows _ _ He).
Qed.

Lemma found_header old : shows (NONCE_OFFSET (header_of coin t old)) (t_nonce t) /\
  shows (m_prevId (header_of coin t old)).1 (t_prevId t).
Proof.
  assert (shows 0 (header_bytes coin t)) as Hh by exact (shows_mid [] _ _ eq_refl).
  unfold header_bytes in Hh. apply shows_app in Hh as [_ Hh]. apply shows_app in Hh as [_ Hh].
  apply shows_app in Hh as [_ Hh]. apply shows_app in Hh as [Hi Hh]. apply shows_app in Hh as [Hn _].
  change (msize [_]) with 1 in *. rewrite (wf_prevId _ _ W) in Hn. unfold header_of. cbn [NONCE_OFFSET m_prevId fst].
  unfold p_nonce, p_prevId. replace (2 + _) with (0 + 1 + 1 + msize (varint (t_timestamp t))) by lia.
  split; [|done]. by rewrite (offset_shows _ _ Hn).
Qed.

End Whole.

(** ** The theorem *)

(** What [parse] keeps of the header and of the miner transaction: their values, and those
    of an older template for what the form of the coin does not have. *)
Definition header_kept (coin : Coin) (t : template) (old h : header) : Prop :=
  m_version h = (t_major t, t_minor t) /\ m_timestamp h = t_timestamp t /\
  shows coin t (NONCE_OFFSET h) (t_nonce t) /\ shows coin t (m_prevId h).1 (t_prevId t) /\ (m_prevId h).2 = 32 /\
  (if signed coin t then shows coin t (m_minerSignature h).1 (t_signature t) /\ (m_minerSignature h).2 = 64 /\ m_vote h = t_vote t
   else m_minerSignature h = m_minerSignature old /\ m_vote h = m_vote old).

Definition tx_kept (coin : Coin) (t : template) (old x : miner_tx) : Prop :=
  (m_txVersion x = t_version t /\ m_unlockTime x = t_unlockTime t /\ m_numInputs x = 1 /\ m_inputType x = 0xFF /\ m_height x = t_height t /\
   m_numOutputs x = numOutputs coin t /\ m_amount x = t_amount t /\ m_outputType x = t_outputType t /\ m_extraSize x = msize (extra_bytes (t_extra t))) /\
  (if fcmp coin t then m_carrotViewTag x = t_carrot t /\ m_janusAnchor x = t_janus t
   else m_carrotViewTag x = m_carrotViewTag old /\ m_janusAnchor x = m_janusAnchor old) /\
  m_viewTag x = (if is_coin coin ZEPHYR || (t_outputType t =? 3) then t_viewTag t else m_viewTag old) /\
  shows coin t (EPH_PUBLIC_KEY_OFFSET x) (t_key t) /\ m_ephPublicKey x = (EPH_PUBLIC_KEY_OFFSET x, 32) /\
  shows coin t (TX_EXTRA_OFFSET x) (extra_bytes (t_extra t)) /\
  shows coin t (MINER_TX_PREFIX_OFFSET x) (prefix_bytes coin t) /\
  MINER_TX_PREFIX_END_OFFSET x = MINER_TX_PREFIX_OFFSET x + msize (prefix_bytes coin t) /\
  found_at coin t (foldl find_tag (None, None, None) (t_extra t)) (m_extra x).

Lemma header_of_kept coin t old : template_wf coin t -> header_kept coin t old (header_of coin t old).
Proof.
  intros W. destruct (found_header coin t W old) as [Hn Hp]. split_and!; try done. unfold header_of. cbn [m_minerSignature m_vote].
  destruct (signed coin t) eqn:Es; [|done]. split; [|done]. cbn [fst].
  assert (shows coin t 0 (header_bytes coin t)) as Hh by exact (shows_mid coin t [] _ _ eq_refl).
  unfold header_bytes in Hh. rewrite Es in Hh. do 5 apply shows_app in Hh as [_ Hh]. apply shows_app in Hh as [Hh _]. apply shows_app in Hh as [Hh _].
  change (msize [_]) with 1 in Hh. rewrite (wf_prevId _ _ W), (wf_nonce _ _ W) in Hh. unfold p_nonce, p_prevId.
  by replace (2 + msize (varint (t_timestamp t)) + 32 + 4) with (0 + 1 + 1 + msize (varint (t_timestamp t)) + 32 + 4) by lia.
Qed.

Lemma tx_of_kept coin t old : template_wf coin t -> tx_kept coin t old (tx_of coin t (p_prefix coin t) old).
Proof.
  intros W. destruct (places coin t W) as (_ & _ & _ & HoP & HoE). destruct (found_tx coin t W old) as (Hx & Hk & He).
  assert (shows coin t (p_prefix coin t) (prefix_bytes coin t)) as Hs by exact (shows_mid coin t _ _ _ eq_refl).
  split; [done|]. split; [unfold tx_of; cbn [m_carrotViewTag m_janusAnchor]; by destruct (fcmp coin t)|]. split; [done|]. split; [done|]. split.
  { unfold tx_of in Hk |- *. cbn [EPH_PUBLIC_KEY_OFFSET m_ephPublicKey] in *. f_equal. symmetry. apply (offset_shows coin t W _ (t_key t)).
    rewrite prefix_split in Hs. apply shows_app in Hs as [Hs _]. unfold before_extra in Hs. apply shows_app in Hs as [_ Hs]. by apply shows_app in Hs as [Hs _]. }
  split; [done|]. unfold tx_of at 1 2 3. cbn [MINER_TX_PREFIX_OFFSET MINER_TX_PREFIX_END_OFFSET]. rewrite HoP.
  split; [done|]. split; [exact HoE|done].
Qed.

(** C16: for every coin and every block template it can have, of less than 2^32 bytes,
    [BlockTemplate::parse] of the template's binary form succeeds with every value of the
    template that the form has, among them output count, view tags and Carrot fields,
    miner signature and vote; the offsets it stores are the places of the nonce, the
    previous block, the one-time key, the miner transaction, its extra field and the first
    public key and last extra nonce and merge mining tag in it.  With [hashes] the root
    is the Merkle root of the miner transaction's hash and the template's, the
    branch it stores gives that root again, and the hashing blob is the header,
    the root and the number of transactions.  Of a Townforge block with a game update,
    whatever follows its miner transaction, the hashes are not read and stay as they
    were. *)
Theorem parse_template_correct (temp : mem) (coin : Coin) (t : template) (fuel : nat) (hashes : bool) (old : BlockTemplate) :
  msize temp = 144 -> template_wf coin t -> (length (serialize coin t) <= fuel)%nat ->
  exists bt, parse temp fuel (serialize coin t) coin hashes old = Ok (Some bt) /\ m_blob bt = serialize coin t /\ m_coin bt = coin /\
    header_kept coin t (bt_header old) (bt_header bt) /\ tx_kept coin t (bt_tx old) (bt_tx bt) /\
    if game_update coin t then bt_hashes bt = bt_hashes old
    else hashes_of coin t temp hashes (bt_hashes old) (bt_hashes bt) /\
      (hashes = true -> generateHashingBlob bt =
         Ok (header_bytes coin t ++ tree_hash (miner_hash (prefix_bytes coin t) :: t_hashes t) ++
             varint (Z.of_nat (length (t_hashes t)) + 1))).
Proof.
  intros Htemp W Hf. destruct (loops_bounded coin t W) as (Hf1 & Hf2 & Hf3 & Hmin).
  destruct (places coin t W) as (H0 & H1 & H2 & HoP & HoE).
  assert (Hrest : exists h a b, rest_bytes coin t = a ++ b /\
    reads (serialize coin t) (parse_hashes temp fuel (serialize coin t) coin hashes (tx_of coin t (p_prefix coin t) (bt_tx old)) (bt_hashes old)) (p_end coin t) a h /\
    if game_update coin t then h = bt_hashes old else hashes_of coin t temp hashes (bt_hashes old) h).
  { destruct (game_update coin t) eqn:Eu.
    - destruct (reads_update coin t W temp fuel hashes (bt_tx old) (bt_hashes old) Eu) as (x & rest & Er & Hr). by exists (bt_hashes old), [x], rest.
    - destruct (reads_hashes coin t W temp fuel hashes (bt_tx old) (bt_hashes old)) as (h & Hh & Hr); [done|specialize (Hf3 eq_refl); lia|done|].
      eexists h, _, (if hashes then [] else mjoin (t_hashes t)). split; [|split; [exact Hr|done]]. unfold rest_bytes. rewrite Eu, <- !app_assoc.
      destruct hashes; [by rewrite app_nil_r|done]. }
  destruct Hrest as (h & a & b & Er & Hr & Hh).
  set (bt := mk_bt (serialize coin t) coin (header_of coin t (bt_header old)) (tx_of coin t (p_prefix coin t) (bt_tx old)) h).
  exists bt. split; [|split; [done|split; [done|split; [by apply header_of_kept|split; [by apply tx_of_kept|]]]]].
  - assert (reads (serialize coin t) (parse_blob temp fuel (serialize coin t) coin hashes old) 0 (header_bytes coin t ++ prefix_bytes coin t ++ a) bt) as Hb.
    { unfold parse_blob. next @reads_header; [done|]. eapply reads_bind.
      - apply (reads_tx (serialize coin t) coin t W fuel); [intros E; specialize (Hf1 E); lia|lia|exact H0|].
        unfold p_end, p_prefix in H2 |- *. rewrite Z.add_0_l. lia.
      - eapply reads_bind_last; [exact Hr|]. apply reads_ret. }
    unfold parse. rewrite (proj2 (Z.ltb_ge _ _)) by lia.
    rewrite (Hb (mk_reader 0 (msize (serialize coin t)) 0) b eq_refl eq_refl); [done|].
    pose proof (wf_size _ _ W). replace (_ ++ _) with (serialize coin t); [apply at_start; lia|].
    unfold serialize. by rewrite Er, <- !app_assoc.
  - destruct (game_update coin t) eqn:Eu; [exact Hh|]. split; [exact Hh|]. intros ->. destruct Hh as (Hn & _ & Hroot & _).
    unfold generateHashingBlob. cbn [bt m_blob bt_tx bt_hashes].
    rewrite Hn, Hroot. unfold tx_of at 1. cbn [MINER_TX_PREFIX_OFFSET]. rewrite HoP.
    pose proof (shows_mid coin t [] (header_bytes coin t) _ eq_refl) as (_ & Hs & Hc). change (msize []) with 0 in Hs, Hc.
    fold (p_prefix coin t) in Hs, Hc. rewrite mload_ok, ok_bind, Hc by lia.
    pose proof (hash_count coin t W Eu) as Hcnt. change (2 ^ 32 / 32) with 134217728 in Hcnt.
    rewrite u64_id by (unfold is_u64; lia). done.
Qed.

(** A template of one transaction besides the miner's. *)
Definition sample : template :=
  mk_template 16 16 1700000000 (replicate 32 7) (replicate 4 0) (replicate 64 0) (replicate 2 0) (replicate 120 0)
    2 3000060 3000000 600000000000 3 (replicate 32 9) (replicate 3 0) (replicate 16 0) 5 [] []
    [Pubkey (replicate 32 1); ExtraNonce (replicate 8 0)] 0 0 0 [replicate 32 3] [0].

Lemma sample_wf : template_wf MONERO sample.
Proof.
  split; [..|vm_compute; reflexivity].
  1-8: unfold is_u64, sample; cbn [t_timestamp t_version t_unlockTime t_height t_amount t_record_height t_burnt t_minted]; lia.
  1-8: vm_compute; reflexivity.
  - right. right. reflexivity.
  - discriminate.
  - vm_compute. reflexivity.
  - vm_compute. reflexivity.
  - repeat constructor; vm_compute; reflexivity.
  - repeat constructor.
  - discriminate.
Qed.

Lemma parse_template_correct_witness : exists bt,
  parse (replicate 144 0) 300 (serialize MONERO sample) MONERO true
    (mk_bt [] MONERO (mk_header (0, 0) 0 (0, 0) 0 (0, 0) [])
       (mk_tx 0 0 0 0 0 0 0 0 0 0 (0, 0) [] [] 0 0 0 (mk_extra 0 0 0 (0, 0) (0, 0)) 0) (mk_hashes 0 [] [] [])) = Ok (Some bt) /\
  shows MONERO sample (NONCE_OFFSET (bt_header bt)) (replicate 4 0) /\ m_height (bt_tx bt) = 3000000.
Proof.
  destruct (parse_template_correct (replicate 144 0) MONERO sample 300 true
    (mk_bt [] MONERO (mk_header (0, 0) 0 (0, 0) 0 (0, 0) [])
       (mk_tx 0 0 0 0 0 0 0 0 0 0 (0, 0) [] [] 0 0 0 (mk_extra 0 0 0 (0, 0) (0, 0)) 0) (mk_hashes 0 [] [] [])))
    as (bt & Hp & _ & _ & (_ & _ & Hn & _) & ((_ & _ & _ & _ & Hh & _) & _) & _).
  - reflexivity.
  - exact sample_wf.
  - vm_compute. lia.
  - exists bt. exact (conj Hp (conj Hn Hh)).
Defined.

(** ** Extra fields that never end *)

(** A [tx_extra] of eleven bytes, an extra nonce of 2^64 - 11 bytes, takes the
    cursor back to its first byte: the loop over the tags never returns. *)
Theorem extra_loop_diverges (blob : mem) (off : Z) : 0 <= off -> off + 11 <= msize blob ->
  chunk blob off 11 = varint 2 ++ varint (2 ^ 64 - 11) ->
  forall fuel first e, extra_loop blob fuel off 11 first e (mk_reader off 11 0) = OutOfFuel.
Proof.
  intros Ho Hs Hc. assert (at_ blob (mk_reader off 11 0) (varint 2 ++ varint (2 ^ 64 - 11) ++ [])) as Ha.
  { split; cbn [base m_index m_size]; try lia. by rewrite app_nil_r, Z.add_0_r. }
  pose proof (getVarint_at blob _ 2 _ ltac:(unfold is_u64; lia) Ha) as E1. apply at_split in Ha as (_ & _ & Ha).
  pose proof (getVarint_at blob _ (2 ^ 64 - 11) _ ltac:(unfold is_u64; lia) Ha) as E2.
  change (msize (varint 2)) with 1 in *. change (msize (varint (2 ^ 64 - 11))) with 10 in E2.
  induction fuel as [|fuel IH]; intros first e; [done|]. cbn [extra_loop].
  rewrite (bind_some index _ _ 0 (mk_reader off 11 0)) by done. cbn [Z.ltb Z.compare].
  rewrite (bind_some _ _ _ _ _ E1). cbn [Z.eqb Pos.eqb]. rewrite (bind_some _ _ _ _ _ E2).
  rewrite (bind_some index _ _ 11 (mk_reader off 11 11)) by done.
  rewrite (bind_some (span _) _ _ (off + 11, 2 ^ 64 - 11) (mk_reader off 11 0)) by done. apply IH.
Qed.

Lemma extra_loop_diverges_witness :
  extra_loop (varint 2 ++ varint (2 ^ 64 - 11)) 1000 0 11 true (mk_extra 0 0 0 (0, 0) (0, 0)) (mk_reader 0 11 0) = OutOfFuel.
Proof. apply extra_loop_diverges; [lia|vm_compute; discriminate|vm_compute; reflexivity]. Defined.

End TemplateProofs.
