(* ===== verification/WalletAddress.v ===== *)
(** * Wallet addresses (base/tools/cryptonote/WalletAddress.cpp)

    An address is the base-58 form of a tag, two keys and a checksum, in blocks
    of 8 bytes and 11 characters.  [decode] is the whole function: Townforge's
    prefixes, the blocks with their overflow checks on 64 bits, the reader over
    the decoded bytes and the Keccak checksum.  Characters are bytes; as [char]
    is signed, a byte from 128 on is a negative index of [reverse_alphabet],
    which is outside of the array: a [Fault]. *)
From Stdlib Require Import ZArith Lia String Ascii.
From stdpp Require Import base numbers list.
From S2P Require Import Prelude Memory Keccak BlobReader BlockTemplate.
Import BlobReader.BlobReader.
Open Scope Z_scope.

Module WalletAddress.

(** ** umul128.h *)

Definition umul128 (a b : Z) : Z * Z := (Z.shiftr (a * b) 64, u64 (a * b)).

(** The version for 32-bit targets. *)
Definition umul128_portable (multiplier multiplicand : Z) : Z * Z :=
  let a := Z.shiftr multiplier 32 in
  let b := Z.land multiplier 0xFFFFFFFF in
  let c := Z.shiftr multiplicand 32 in
  let d := Z.land multiplicand 0xFFFFFFFF in
  let ad := mul64 a d in
  let bd := mul64 b d in
  let adbc := add64 ad (mul64 b c) in
  let adbc_carry := if adbc <? ad then 1 else 0 in
  let product_lo := add64 bd (shl64 adbc 32) in
  let product_lo_carry := if product_lo <? bd then 1 else 0 in
  let product_hi := add64 (add64 (add64 (mul64 a c) (Z.shiftr adbc 32)) (shl64 adbc_carry 32)) product_lo_carry in
  (product_hi, product_lo).

(** ** The address *)

Inductive Net := MAINNET | TESTNET | STAGENET.
Inductive Type_ := PUBLIC | INTEGRATED | SUBADDRESS.

Definition kKeySize : Z := 32.
Definition kMaxSize : Z := 256.
Definition kMinDataSize : Z := 69.
Definition kMinSize : Z := 95.

Record wallet := mk_wallet {
  m_data : mem; m_tag : Z; m_checksum : list Z; m_publicSpendKey : list Z; m_publicViewKey : list Z }.

(** [WalletAddress() = default] *)
Definition empty : wallet := mk_wallet [] 0 (replicate 4 0) (replicate 32 0) (replicate 32 0).

Definition set_tag (tag : Z) (w : wallet) : wallet :=
  mk_wallet (m_data w) tag (m_checksum w) (m_publicSpendKey w) (m_publicViewKey w).

Definition isValid (w : wallet) : bool := (0 <? m_tag w) && (kMinSize <=? msize (m_data w)).

Definition code (c : ascii) : Z := Z.of_N (N_of_ascii c).
Definition codes (s : string) : list Z := code <$> list_ascii_of_string s.

Definition block_sizes : list Z := [0; 2; 3; 5; 6; 7; 9; 10; 11].
Definition alphabet : list Z := codes "123456789ABCDEFGHJKLMNPQRSTUVWXYZabcdefghijkmnopqrstuvwxyz".
Definition alphabet_size : Z := msize alphabet.

(** [reverse_alphabet[static_cast<int>(alphabet[i])] = i] *)
Fixpoint fill_reverse (cs : list Z) (i : Z) (l : list Z) : list Z :=
  match cs with
  | [] => l
  | c :: cs => fill_reverse cs (i + 1) (<[Z.to_nat c := i]> l)
  end.
Definition reverse_alphabet : list Z := fill_reverse alphabet 0 (replicate 256 (-1)).

(** [static_cast<int>(c)] of a signed [char] *)
Definition char_index (c : Z) : Z := if c <? 128 then c else c - 256.

(** The loop over the characters of a block, from the last one. *)
Fixpoint block_loop (j : nat) (address : mem) (off num order : Z) : result (option Z) :=
  match j with
  | O => mret (Some num)
  | S j =>
      c ← aget address (off + Z.of_nat j);
      digit ← aget reverse_alphabet (char_index c);
      if digit <? 0 then mret None
      else
        let '(hi, lo) := umul128 order digit in
        let tmp := add64 num lo in
        if (tmp <? num) || negb (hi =? 0) then mret None
        else block_loop j address off tmp (mul64 order alphabet_size)
  end.

(** [for (j = n - 1; j >= 0; --j) data.emplace_back(p[j])] *)
Definition emit (n : Z) (num : Z) : list Z := rev (take (Z.to_nat n) (store_le 8 num)).

(** The loop over the blocks: [full] full ones, then the last. *)
Fixpoint blocks_loop (full : nat) (address : mem) (off last_block_size last_block_size_index : Z) (data : mem)
    : result (option mem) :=
  match full with
  | O =>
      x ← block_loop (Z.to_nat last_block_size) address off 0 1;
      mret (match x with Some num => Some (data ++ emit last_block_size_index num) | None => None end)
  | S full =>
      x ← block_loop 11 address off 0 1;
      match x with
      | Some num => blocks_loop full address (off + 11) last_block_size last_block_size_index (data ++ emit 8 num)
      | None => mret None
      end
  end.

(** The index of [last_block_size] in [block_sizes], or -1. *)
Fixpoint find_size (sizes : list Z) (i : Z) (size : Z) : Z :=
  match sizes with
  | [] => -1
  | s :: sizes => if s =? size then i else find_size sizes (i + 1) size
  end.

(** From the size check to the decoded bytes. *)
Definition decode_data (address : mem) (size : Z) : result (option mem) :=
  if (size <? kMinSize) || (kMaxSize <? size) then mret None
  else
    let num_full_blocks := size / 11 in
    let last_block_size := size mod 11 in
    let last_block_size_index := find_size block_sizes 0 last_block_size in
    if last_block_size_index <? 0 then mret None
    else
      let data_size := num_full_blocks * 8 + last_block_size_index in
      if data_size <? kMinDataSize then mret None
      else blocks_loop (Z.to_nat num_full_blocks) address 0 last_block_size last_block_size_index [].

(** [memcmp(a, b, n) == 0] *)
Definition same (a b : list Z) : bool := bool_decide (a = b).

Section Decode.
(** The bytes of [uint8_t temp[144]] of [keccak] before it fills them. *)
Context (temp : mem).

(** The reader over the decoded bytes, and the checksum; every field that was
    read stays in the object when a later one fails. *)
Definition read_data (data : mem) (address : mem) (tf_tag : Z) (w : wallet) : result (bool * wallet) :=
  let fail w : result (bool * wallet) := mret (false, set_tag 0 w) in
  x ← getVarint data (mk_reader 0 (msize data) 0);
  match x with
  | None => fail w
  | Some (tag, r) =>
  let w := set_tag tag w in
  x ← array data kKeySize r;
  match x with
  | None => fail w
  | Some (spend, r) =>
  let w := mk_wallet (m_data w) (m_tag w) (m_checksum w) spend (m_publicViewKey w) in
  x ← array data kKeySize r;
  match x with
  | None => fail w
  | Some (view, r) =>
  let w := mk_wallet (m_data w) (m_tag w) (m_checksum w) (m_publicSpendKey w) view in
  x ← (n ← remaining; skip (u64 (n - 4))) r;
  match x with
  | None => fail w
  | Some (_, r) =>
  x ← array data 4 r;
  match x with
  | None => fail w
  | Some (checksum, r) =>
  let w := mk_wallet (m_data w) (m_tag w) checksum (m_publicSpendKey w) (m_publicViewKey w) in
  md ← Keccak.Keccak.keccak temp data (msize data - 4) 200;
  if same checksum (take 4 md) then
    let w := mk_wallet address (m_tag w) (m_checksum w) (m_publicSpendKey w) (m_publicViewKey w) in
    mret (true, if negb (tf_tag =? 0) then set_tag tf_tag w else w)
  else fail w
  end end end end end.

(** The prefix of a Townforge address: its tag and the rest of the address,
    [None] when the prefix is wrong. *)
Definition townforge (address : mem) (size : Z) : result (option (Z * mem)) :=
  if 4 <=? size then
    c0 ← aget address 0;
    c1 ← aget address 1;
    if (c0 =? 84) && (c1 =? 70) then
      c2 ← aget address 2;
      c3 ← aget address 3;
      match (if c2 =? 49 then Some 0 else if c2 =? 50 then Some 1 else None),
            (if c3 =? 77 then Some 0 else if c3 =? 84 then Some 0x10 else if c3 =? 83 then Some 0x20 else None) with
      | Some a, Some b => mret (Some (Z.lor (Z.lor 0x424200 a) b, drop 4 address))
      | _, _ => mret None
      end
    else mret (Some (0, address))
  else mret (Some (0, address)).

(** [decode(const char *address, size_t size)], [size] the length of [address]. *)
Definition decode (address : mem) (w : wallet) : result (bool * wallet) :=
  x ← townforge address (msize address);
  match x with
  | None => mret (false, w)
  | Some (tf_tag, address) =>
      y ← decode_data address (msize address);
      match y with
      | None => mret (false, w)
      | Some data => read_data data address tf_tag w
      end
  end.

End Decode.

(** ** What the tag says *)

Import BlockTemplate.BlockTemplate.

Record TagInfo := mk_info { i_coin : Coin; i_net : Net; i_type : Type_; i_rpcPort : Z; i_zmqPort : Z }.

Definition tags : list (Z * TagInfo) := [
  (0x12, mk_info MONERO MAINNET PUBLIC 18081 18082);
  (0x13, mk_info MONERO MAINNET INTEGRATED 18081 18082);
  (0x2a, mk_info MONERO MAINNET SUBADDRESS 18081 18082);
  (0x35, mk_info MONERO TESTNET PUBLIC 28081 28082);
  (0x36, mk_info MONERO TESTNET INTEGRATED 28081 28082);
  (0x3f, mk_info MONERO TESTNET SUBADDRESS 28081 28082);
  (0x18, mk_info MONERO STAGENET PUBLIC 38081 38082);
  (0x19, mk_info MONERO STAGENET INTEGRATED 38081 38082);
  (0x24, mk_info MONERO STAGENET SUBADDRESS 38081 38082);
  (0x2bb39a, mk_info SUMO MAINNET PUBLIC 19734 19735);
  (0x29339a, mk_info SUMO MAINNET INTEGRATED 19734 19735);
  (0x8319a, mk_info SUMO MAINNET SUBADDRESS 19734 19735);
  (0x37751a, mk_info SUMO TESTNET PUBLIC 29734 29735);
  (0x34f51a, mk_info SUMO TESTNET INTEGRATED 29734 29735);
  (0x1d351a, mk_info SUMO TESTNET SUBADDRESS 29734 29735);
  (0x2cca, mk_info ARQMA MAINNET PUBLIC 19994 19995);
  (0x116bc7, mk_info ARQMA MAINNET INTEGRATED 19994 19995);
  (0x6847, mk_info ARQMA MAINNET SUBADDRESS 19994 19995);
  (0x53ca, mk_info ARQMA TESTNET PUBLIC 29994 29995);
  (0x504a, mk_info ARQMA TESTNET INTEGRATED 29994 29995);
  (0x524a, mk_info ARQMA TESTNET SUBADDRESS 29994 29995);
  (0x39ca, mk_info ARQMA STAGENET PUBLIC 39994 39995);
  (0x1742ca, mk_info ARQMA STAGENET INTEGRATED 39994 39995);
  (0x1d84ca, mk_info ARQMA STAGENET SUBADDRESS 39994 39995);
  (0x1032, mk_info WOWNERO MAINNET PUBLIC 34568 34569);
  (0x1a9a, mk_info WOWNERO MAINNET INTEGRATED 34568 34569);
  (0x2fb0, mk_info WOWNERO MAINNET SUBADDRESS 34568 34569);
  (0x5a, mk_info GRAFT MAINNET PUBLIC 18981 18982);
  (0x5b, mk_info GRAFT MAINNET INTEGRATED 18981 18982);
  (0x66, mk_info GRAFT MAINNET SUBADDRESS 18981 18982);
  (0x54, mk_info GRAFT TESTNET PUBLIC 28881 28882);
  (0x55, mk_info GRAFT TESTNET INTEGRATED 28881 28882);
  (0x70, mk_info GRAFT TESTNET SUBADDRESS 28881 28882);
  (0x424200, mk_info TOWNFORGE MAINNET PUBLIC 18881 18882);
  (0x424201, mk_info TOWNFORGE MAINNET SUBADDRESS 18881 18882);
  (0x424210, mk_info TOWNFORGE TESTNET PUBLIC 28881 28882);
  (0x424211, mk_info TOWNFORGE TESTNET SUBADDRESS 28881 28882);
  (0x424220, mk_info TOWNFORGE STAGENET PUBLIC 38881 38882);
  (0x424221, mk_info TOWNFORGE STAGENET SUBADDRESS 38881 38882)].

Definition dummy : TagInfo := mk_info INVALID MAINNET PUBLIC 0 0.

Fixpoint find_tag (l : list (Z * TagInfo)) (tag : Z) : TagInfo :=
  match l with
  | [] => dummy
  | (k, i) :: l => if k =? tag then i else find_tag l tag
  end.
Definition tagInfo (tag : Z) : TagInfo := find_tag tags tag.

Definition netName (w : wallet) : string :=
  match i_net (tagInfo (m_tag w)) with MAINNET => "mainnet" | TESTNET => "testnet" | STAGENET => "stagenet" end.
Definition typeName (w : wallet) : string :=
  match i_type (tagInfo (m_tag w)) with PUBLIC => "public" | INTEGRATED => "integrated" | SUBADDRESS => "subaddress" end.

End WalletAddress.
