(* ===== verification/WalletProofs.v ===== *)
(** * Addresses: round trip, checksum, and addresses that are not unique

    The base-58 form of an address, written from its bytes, and the proofs that
    [WalletAddress::decode] reads it back, accepts only bytes with their
    checksum, and that the value of the last block is not checked. *)
From Stdlib Require Import ZArith Lia.
From stdpp Require Import base numbers list strings.
From S2P Require Import Prelude Memory Keccak BlobReader WalletAddress.
Import BlobReader.BlobReader WalletAddress.WalletAddress.
Open Scope Z_scope.

Module WalletProofs.

#[local] Opaque Keccak.Keccak.fips_f Keccak.Keccak.keccakf.

(** ** The 32-bit product *)

(** A 64-bit sum and its carry, found by comparing. *)
Lemma add_carry x y : is_u64 x -> is_u64 y ->
  x + y = add64 x y + 2 ^ 64 * (if add64 x y <? x then 1 else 0).
Proof.
  unfold is_u64, add64. intros Hx Hy. rewrite u64_mod. destruct (Z.lt_ge_cases (x + y) (2 ^ 64)) as [H|H].
  - rewrite Z.mod_small by lia. rewrite (proj2 (Z.ltb_ge _ _)) by lia. lia.
  - rewrite <- (Z.mod_unique (x + y) (2 ^ 64) 1 (x + y - 2 ^ 64)) by lia.
    rewrite (proj2 (Z.ltb_lt _ _)) by lia. lia.
Qed.

Lemma mul32_u64 x y : 0 <= x < 2 ^ 32 -> 0 <= y < 2 ^ 32 -> mul64 x y = x * y /\ is_u64 (x * y).
Proof. intros. assert (is_u64 (x * y)) by (unfold is_u64; nia). split; [|done]. by apply u64_id. Qed.

(** The 64 x 64 -> 128 bit product of umul128.h for 32-bit targets, made of
    four 32-bit products and their carries, is the product of the 64-bit targets. *)
Theorem umul128_portable_correct a b : is_u64 a -> is_u64 b -> umul128_portable a b = umul128 a b.
Proof.
  intros Ha Hb. unfold is_u64 in *. unfold umul128_portable, umul128. cbv zeta.
  change 0xFFFFFFFF with (Z.ones 32). rewrite !Z.land_ones, !Z.shiftr_div_pow2 by lia.
  pose proof (Z.div_mod a (2 ^ 32) ltac:(lia)). pose proof (Z.mod_pos_bound a (2 ^ 32) ltac:(lia)).
  pose proof (Z.div_mod b (2 ^ 32) ltac:(lia)). pose proof (Z.mod_pos_bound b (2 ^ 32) ltac:(lia)).
  assert (0 <= a / 2 ^ 32 < 2 ^ 32) by (split; [apply Z.div_pos; lia|apply Z.div_lt_upper_bound; lia]).
  assert (0 <= b / 2 ^ 32 < 2 ^ 32) by (split; [apply Z.div_pos; lia|apply Z.div_lt_upper_bound; lia]).
  set (ah := a / 2 ^ 32) in *. set (al := a mod 2 ^ 32) in *. set (bh := b / 2 ^ 32) in *. set (bl := b mod 2 ^ 32) in *.
  destruct (mul32_u64 ah bl) as [-> Had]; [done..|]. destruct (mul32_u64 al bl) as [-> Hbd]; [done..|].
  destruct (mul32_u64 al bh) as [-> Hbc]; [done..|]. destruct (mul32_u64 ah bh) as [-> Hac]; [done..|].
  pose proof (add_carry (ah * bl) (al * bh) Had Hbc) as Hs1. pose proof (add64_range (ah * bl) (al * bh)) as HX.
  set (X := add64 (ah * bl) (al * bh)) in *. set (c1 := if X <? ah * bl then 1 else 0) in *.
  assert (0 <= c1 <= 1) as Hc1 by (unfold c1; destruct (X <? _); lia).
  pose proof (Z.div_mod X (2 ^ 32) ltac:(lia)) as HXd. pose proof (Z.mod_pos_bound X (2 ^ 32) ltac:(lia)) as HXm.
  assert (shl64 X 32 = 2 ^ 32 * (X mod 2 ^ 32)) as HY.
  { unfold shl64. rewrite Z.shiftl_mul_pow2, u64_mod by lia. change (2 ^ 64) with (2 ^ 32 * 2 ^ 32).
    rewrite Zmult_mod_distr_r. lia. }
  rewrite HY. pose proof (add_carry (al * bl) (2 ^ 32 * (X mod 2 ^ 32)) Hbd ltac:(unfold is_u64; lia)) as Hs2.
  pose proof (add64_range (al * bl) (2 ^ 32 * (X mod 2 ^ 32))) as HL.
  set (L := add64 (al * bl) _) in *. set (c2 := if L <? al * bl then 1 else 0) in *.
  assert (0 <= c2 <= 1) as Hc2 by (unfold c2; destruct (L <? _); lia).
  assert (shl64 c1 32 = 2 ^ 32 * c1) as ->.
  { unfold shl64. rewrite Z.shiftl_mul_pow2, u64_id by (unfold is_u64; lia). lia. }
  set (hi := ah * bh + X / 2 ^ 32 + 2 ^ 32 * c1 + c2).
  assert (a * b = 2 ^ 64 * hi + L) as Hab by (unfold hi; nia).
  assert (0 <= hi < 2 ^ 64) as Hhi by (unfold is_u64 in *; nia).
  assert (0 <= X / 2 ^ 32) by (apply Z.div_pos; unfold is_u64 in *; lia).
  rewrite u64_mod, <- (Z.div_unique (a * b) (2 ^ 64) hi L), <- (Z.mod_unique (a * b) (2 ^ 64) hi L)
    by (unfold is_u64 in *; lia).
  clearbody c1 c2 X L. unfold is_u64 in *. f_equal. unfold add64. subst hi. by rewrite (u64_id (_ * _ + _)), (u64_id (_ + _ * c1)), u64_id by (unfold is_u64; lia).
Qed.

Lemma umul128_portable_correct_witness :
  umul128_portable 0xFFFFFFFFFFFFFFFF 0xFFFFFFFFFFFFFFFE = (0xFFFFFFFFFFFFFFFD, 2).
Proof. rewrite umul128_portable_correct; [reflexivity|unfold is_u64; lia|unfold is_u64; lia]. Defined.

(** ** The base-58 form *)

Definition b58_digit (d : Z) : Z := default 0 (alphabet !! Z.to_nat d).

(** [n] digits of [v], the first one the highest. *)
Fixpoint b58 (n : nat) (v : Z) : list Z :=
  match n with
  | O => []
  | S n => b58 n (v / 58) ++ [b58_digit (v mod 58)]
  end.

Definition load_be (bs : list Z) : Z := load_le (rev bs).
Definition block_size (n : nat) : nat := Z.to_nat (default 0 (block_sizes !! n)).
Definition encode_block (bs : list Z) : list Z := b58 (block_size (length bs)) (load_be bs).

Fixpoint encode_full (n : nat) (data : list Z) : list Z :=
  match n with
  | O => []
  | S n => encode_block (take 8 data) ++ encode_full n (drop 8 data)
  end.
Definition encode (data : list Z) : list Z :=
  let n := (length data / 8)%nat in encode_full n data ++ encode_block (drop (8 * n) data).

(** ** One block *)

Lemma length_b58 n : forall v, length (b58 n v) = n.
Proof. induction n as [|n IH]; intros v; [done|]. cbn [b58]. rewrite length_app, IH. cbn [length]. lia. Qed.

Lemma digit_ok d : 0 <= d < 58 -> aget reverse_alphabet (char_index (b58_digit d)) = Ok d.
Proof.
  intros Hd. assert (forallb (fun i => match aget reverse_alphabet (char_index (b58_digit (Z.of_nat i))) with
    | Ok x => x =? Z.of_nat i | _ => false end) (seq 0 58) = true) as H by (vm_compute; reflexivity).
  rewrite forallb_forall in H. specialize (H (Z.to_nat d)). rewrite in_seq, Z2Nat.id in H by lia.
  specialize (H ltac:(lia)). destruct (aget _ _); [|done|done]. by apply Z.eqb_eq in H as ->.
Qed.

Lemma pow58 k : 0 <= k <= 10 -> 0 < 58 ^ k < 2 ^ 64.
Proof.
  intros Hk. split; [apply Z.pow_pos_nonneg; lia|]. apply Z.le_lt_trans with (58 ^ 10); [|done].
  apply Z.pow_le_mono_r; lia.
Qed.

(** The loop adds the digits it reads, from the last one, to [num]. *)
Lemma block_loop_ok address off n : forall w num k,
  0 <= off -> take n (drop (Z.to_nat off) address) = b58 n w -> 0 <= w < 58 ^ Z.of_nat n -> 0 <= num -> 0 <= k ->
  k + Z.of_nat n <= 11 -> num + 58 ^ k * w < 2 ^ 64 ->
  block_loop n address off num (u64 (58 ^ k)) = Ok (Some (num + 58 ^ k * w)).
Proof.
  induction n as [|n IH]; intros w num k Ho Ht Hw Hn Hk Hkn Hfit.
  { cbn [block_loop]. change (Z.of_nat 0) with 0 in Hw. assert (w = 0) as -> by lia. by rewrite Z.mul_0_r, Z.add_0_r. }
  cbn [block_loop b58] in *. pose proof (pow58 k ltac:(lia)) as Hp. rewrite (u64_id (58 ^ k)) by (unfold is_u64; lia).
  assert (length (take (S n) (drop (Z.to_nat off) address)) = S n) as Hl
    by (rewrite Ht, length_app, length_b58; cbn [length]; lia).
  assert (aget address (off + Z.of_nat n) = Ok (b58_digit (w mod 58))) as ->.
  { rewrite length_take, length_drop in Hl.
    destruct (aget_total address (off + Z.of_nat n)) as (c & -> & Hc); [lia|]. f_equal.
    apply (f_equal (fun l => l !! n)) in Ht. rewrite lookup_app_r, length_b58, Nat.sub_diag in Ht by (rewrite length_b58; lia).
    rewrite lookup_take_lt, lookup_drop in Ht by lia. rewrite Z2Nat.inj_add, Nat2Z.id, Ht in Hc by lia. by injection Hc. }
  pose proof (Z.mod_pos_bound w 58 ltac:(lia)) as Hd. pose proof (Z.div_mod w 58 ltac:(lia)) as Hdm.
  assert (0 <= w / 58) as Hq by (apply Z.div_pos; lia).
  rewrite ok_bind, digit_ok, ok_bind by lia. rewrite (proj2 (Z.ltb_ge _ _)) by lia. unfold umul128.
  assert (0 <= 58 ^ k * (w mod 58) <= 58 ^ k * w) as Hlo by nia.
  rewrite Z.shiftr_div_pow2, Z.div_small by lia.
  rewrite (u64_id (58 ^ k * (w mod 58))) by (unfold is_u64; lia). unfold add64. rewrite u64_id by (unfold is_u64; lia).
  rewrite (proj2 (Z.ltb_ge _ _)) by lia. cbn [orb negb Z.eqb]. unfold mul64. change alphabet_size with 58.
  replace (58 ^ k * 58) with (58 ^ (k + 1)) by (rewrite Z.pow_add_r by lia; change (58 ^ 1) with 58; lia).
  assert (58 ^ (k + 1) = 58 * 58 ^ k) as Hpk by (rewrite Z.pow_add_r by lia; change (58 ^ 1) with 58; lia).
  rewrite (IH (w / 58)); [do 2 f_equal; nia|done| | |lia|lia|lia|nia].
  - apply (f_equal (take n)) in Ht. rewrite take_take, Nat.min_l in Ht by lia.
    by rewrite take_app_le, (take_ge (b58 _ _)) in Ht by (rewrite length_b58; lia).
  - split; [done|]. rewrite Nat2Z.inj_succ, Z.pow_succ_r in Hw by lia. apply Z.div_lt_upper_bound; lia.
Qed.

(** The word of a block of [bs], with [pad] above it. *)
Lemma store_padded bs pad : Forall is_u8 bs -> Forall is_u8 pad -> (length bs + length pad = 8)%nat ->
  store_le 8 (load_be bs + 2 ^ (8 * Z.of_nat (length bs)) * load_le pad) = rev bs ++ pad.
Proof.
  intros Hb Hp Hl. assert (Forall is_u8 (rev bs)) as Hr by by apply Forall_rev.
  rewrite <- (length_rev bs). unfold load_be. rewrite <- load_le_app by done.
  apply store_load_le; [rewrite length_app, length_rev; lia|lia|by apply Forall_app_2].
Qed.

Lemma emit_padded bs pad v : store_le 8 v = rev bs ++ pad -> emit (Z.of_nat (length bs)) v = bs.
Proof.
  intros E. unfold emit. rewrite E, Nat2Z.id, <- (length_rev bs), take_app_length. apply rev_involutive.
Qed.

Lemma load_be_emit bs : Forall is_u8 bs -> (length bs <= 8)%nat -> emit (Z.of_nat (length bs)) (load_be bs) = bs.
Proof.
  intros Hb Hl. apply (emit_padded bs (replicate (8 - length bs) 0)). rewrite <- store_padded; [|done| |].
  - f_equal. assert (load_le (replicate (8 - length bs) 0) = 0) as ->; [|lia].
    induction (8 - length bs)%nat as [|k IH]; [done|]. cbn [replicate]. rewrite load_le_cons_add, IH by (unfold is_u8; lia). done.
  - apply Forall_replicate. unfold is_u8. lia.
  - rewrite length_replicate. lia.
Qed.

Lemma load_be_bound bs : Forall is_u8 bs -> 0 <= load_be bs < 2 ^ (8 * Z.of_nat (length bs)).
Proof. intros Hb. rewrite <- (length_rev bs). by apply load_le_bound, Forall_rev. Qed.

(** ** The blocks *)

(** A block of [n] bytes fits its characters, and the sizes are as in the table. *)
Lemma size_ok n : (n <= 8)%nat -> (block_size n <= 11)%nat /\ 2 ^ (8 * Z.of_nat n) <= 58 ^ Z.of_nat (block_size n) /\
  2 ^ (8 * Z.of_nat n) <= 2 ^ 64 /\ ((n < 8)%nat -> (block_size n < 11)%nat) /\
  find_size block_sizes 0 (Z.of_nat (block_size n)) = Z.of_nat n.
Proof. intros Hn. do 9 (destruct n as [|n]; [vm_compute; repeat split; discriminate || reflexivity || (intros; lia)|]). lia. Qed.

Lemma block_ok address off n v : 0 <= off -> (n <= 11)%nat -> 0 <= v < 58 ^ Z.of_nat n -> v < 2 ^ 64 ->
  take n (drop (Z.to_nat off) address) = b58 n v -> block_loop n address off 0 1 = Ok (Some v).
Proof.
  intros Ho Hn Hv H64 Ht. change 1 with (u64 (58 ^ 0)). rewrite (block_loop_ok address off n v 0 0) by lia || done.
  do 2 f_equal. lia.
Qed.

Lemma b58_inj n v v' : (n <= 11)%nat -> 0 <= v < 58 ^ Z.of_nat n -> 0 <= v' < 58 ^ Z.of_nat n -> v < 2 ^ 64 -> v' < 2 ^ 64 ->
  b58 n v = b58 n v' -> v = v'.
Proof.
  intros Hn Hv Hv' H64 H64' E. assert (take n (drop (Z.to_nat 0) (b58 n v)) = b58 n v) as Ht
    by (apply take_ge; rewrite ?length_drop, length_b58; lia).
  pose proof (block_ok (b58 n v) 0 n v ltac:(lia) Hn Hv H64 Ht) as H1.
  pose proof (block_ok (b58 n v) 0 n v' ltac:(lia) Hn Hv' H64' (eq_trans Ht E)) as H2. congruence.
Qed.

Lemma blocks_ok address k v : (k <= 7)%nat -> 0 <= v < 58 ^ Z.of_nat (block_size k) -> v < 2 ^ 64 -> forall full off D data,
  0 <= off -> Forall is_u8 D -> length D = (8 * full)%nat ->
  drop (Z.to_nat off) address = encode_full full D ++ b58 (block_size k) v ->
  blocks_loop full address off (Z.of_nat (block_size k)) (Z.of_nat k) data = Ok (Some (data ++ D ++ emit (Z.of_nat k) v)).
Proof.
  intros Hk Hv H64. pose proof (size_ok k ltac:(lia)) as (Hs & _).
  induction full as [|full IH]; intros off D data Ho HD Hl Hd; cbn [blocks_loop encode_full] in *.
  - destruct D; [|simpl in Hl; lia]. rewrite Nat2Z.id, (block_ok address off (block_size k) v), ok_bind; try done.
    rewrite Hd. cbn [app]. by rewrite take_ge by (rewrite length_b58; lia).
  - set (B := take 8 D) in *. assert (length B = 8%nat) as HB by (unfold B; rewrite length_take; lia).
    assert (Forall is_u8 B) as HBu by by apply Forall_take. pose proof (load_be_bound B HBu) as Hb. rewrite HB in Hb.
    change (8 * Z.of_nat 8) with 64 in Hb. unfold encode_block in Hd. rewrite HB in Hd. change (block_size 8) with 11%nat in Hd.
    rewrite <- app_assoc in Hd. rewrite (block_ok address off 11 (load_be B)), ok_bind.
    + rewrite (IH (off + 11) (drop 8 D)); [|lia|by apply Forall_drop|rewrite length_drop; lia|].
      * do 2 f_equal. replace 8 with (Z.of_nat (length B)) by lia. rewrite load_be_emit by (done || lia).
        rewrite <- !app_assoc. f_equal. unfold B. rewrite app_assoc, take_drop. done.
      * rewrite Z2Nat.inj_add, <- drop_drop, Hd by lia. change (Z.to_nat 11) with 11%nat.
        apply drop_app_length'. symmetry. apply length_b58.
    + done. + lia. + split; [lia|]. transitivity (2 ^ 64); [lia|done]. + lia.
    + rewrite Hd. apply take_app_length'; symmetry; apply length_b58.
Qed.

Lemma encode_full_take n : forall D, encode_full n (take (8 * n) D) = encode_full n D.
Proof.
  induction n as [|n IH]; intros D; [done|]. cbn [encode_full]. rewrite take_take, Nat.min_l by lia. f_equal.
  replace (8 * S n)%nat with (8 + 8 * n)%nat by lia. by rewrite <- take_drop_commute, IH.
Qed.

Lemma length_encode_full n : forall D, (8 * n <= length D)%nat -> length (encode_full n D) = (11 * n)%nat.
Proof.
  induction n as [|n IH]; intros D HD; [done|]. cbn [encode_full]. unfold encode_block.
  rewrite length_app, length_b58, length_take, Nat.min_l, IH by (rewrite ?length_drop; lia).
  change (block_size 8) with 11%nat. lia.
Qed.

(** Bytes whose last block is written as the value [v]. *)
Definition encode_with (data : list Z) (v : Z) : list Z :=
  encode_full (length data / 8) data ++ b58 (block_size (length data mod 8)) v.

Lemma last_block (data : list Z) : length (drop (8 * (length data / 8)) data) = (length data mod 8)%nat.
Proof. rewrite length_drop. pose proof (Nat.div_mod_eq (length data) 8). lia. Qed.

Lemma encode_with_last data : encode data = encode_with data (load_be (drop (8 * (length data / 8)) data)).
Proof. unfold encode, encode_with, encode_block. cbv zeta. by rewrite last_block. Qed.

Lemma length_encode_with data v : length (encode_with data v) = (11 * (length data / 8) + block_size (length data mod 8))%nat.
Proof.
  unfold encode_with. rewrite length_app, length_b58, length_encode_full; [done|].
  pose proof (Nat.div_mod_eq (length data) 8). lia.
Qed.

(** The sizes [decode] computes from the number of characters. *)
Lemma sizes_ok data v : (69 <= length data <= 186)%nat ->
  let size := msize (encode_with data v) in
  kMinSize <= size <= kMaxSize /\ size / 11 = Z.of_nat (length data / 8) /\
  size mod 11 = Z.of_nat (block_size (length data mod 8)).
Proof.
  intros Hd size. unfold size, msize. rewrite length_encode_with.
  assert (forallb (fun l => let s := (11 * (l / 8) + block_size (l mod 8))%nat in (95 <=? s)%nat && (s <=? 256)%nat)
    (seq 69 118) = true) as H by (vm_compute; reflexivity).
  rewrite forallb_forall in H. specialize (H (length data) ltac:(apply in_seq; lia)). apply andb_true_iff in H as [H1 H2].
  apply Nat.leb_le in H1, H2. unfold kMinSize, kMaxSize. split; [lia|].
  pose proof (Nat.mod_upper_bound (length data) 8 ltac:(lia)) as Hm.
  destruct (size_ok (length data mod 8) ltac:(lia)) as (_ & _ & _ & Hs & _). specialize (Hs Hm).
  set (n := (length data / 8)%nat) in *. set (b := block_size _) in *.
  split; symmetry; [apply (Z.div_unique _ _ _ (Z.of_nat b)); lia|apply (Z.mod_unique _ _ (Z.of_nat n)); lia].
Qed.

Lemma decode_data_ok data v : Forall is_u8 data -> (69 <= length data <= 186)%nat ->
  0 <= v < 58 ^ Z.of_nat (block_size (length data mod 8)) -> v < 2 ^ 64 ->
  emit (Z.of_nat (length data mod 8)) v = drop (8 * (length data / 8)) data ->
  decode_data (encode_with data v) (msize (encode_with data v)) = Ok (Some data).
Proof.
  intros HD Hd Hv H64 He. destruct (sizes_ok data v Hd) as ((Hmin & Hmax) & Hq & Hr). unfold decode_data.
  rewrite (proj2 (Z.ltb_ge _ _)), (proj2 (Z.ltb_ge kMaxSize _)), Hq, Hr by lia. cbn [orb].
  pose proof (Nat.mod_upper_bound (length data) 8 ltac:(lia)) as Hm. pose proof (Nat.div_mod_eq (length data) 8) as Hdm.
  destruct (size_ok (length data mod 8) ltac:(lia)) as (_ & _ & _ & _ & ->).
  rewrite (proj2 (Z.ltb_ge _ 0)), (proj2 (Z.ltb_ge _ kMinDataSize)), Nat2Z.id by (unfold kMinDataSize; lia).
  rewrite (blocks_ok _ (length data mod 8) v ltac:(lia) Hv H64 (length data / 8) 0 (take (8 * (length data / 8)) data) []);
    [|done|by apply Forall_take|rewrite length_take; lia|].
  - do 2 f_equal. cbn [app]. rewrite He. apply take_drop.
  - rewrite encode_full_take. done.
Qed.

Lemma b58_decode_encode data : Forall is_u8 data -> (69 <= length data <= 186)%nat ->
  decode_data (encode data) (msize (encode data)) = Ok (Some data).
Proof.
  intros HD Hd. rewrite encode_with_last. pose proof (Nat.mod_upper_bound (length data) 8 ltac:(lia)) as Hm.
  set (bs := drop _ data). assert (Forall is_u8 bs) as Hbs by by apply Forall_drop.
  pose proof (load_be_bound bs Hbs) as Hb. assert (length bs = length data mod 8)%nat as Hlb by apply last_block. rewrite Hlb in Hb.
  destruct (size_ok (length data mod 8) ltac:(lia)) as (_ & H58 & H64 & _).
  apply decode_data_ok; [done|done|lia|lia|]. rewrite <- Hlb. apply (load_be_emit bs); [done|lia].
Qed.

(** ** The fields *)

(** The first bytes of the Keccak-1600 state. *)
Definition checksum (payload : list Z) : list Z := take 4 (Keccak.Keccak.sponge 17 1 payload).

Lemma sponge_17 payload : length (Keccak.Keccak.sponge 17 1 payload) = 200%nat /\
  Forall is_u8 (Keccak.Keccak.sponge 17 1 payload).
Proof.
  unfold Keccak.Keccak.sponge. split.
  - rewrite Keccak.Keccak.length_state_bytes, Keccak.Keccak.length_fips_absorb; (done || lia).
  - induction (Keccak.Keccak.fips_absorb _ _ _ _) as [|x st IH]; [by apply Forall_nil_2|].
    change (Keccak.Keccak.state_bytes (x :: st)) with (store_le 8 x ++ Keccak.Keccak.state_bytes st).
    apply Forall_app_2; [by apply store_le_bytes|exact IH].
Qed.

#[local] Opaque Keccak.Keccak.sponge.

Lemma length_checksum payload : length (checksum payload) = 4%nat.
Proof. unfold checksum. rewrite length_take, (proj1 (sponge_17 payload)). done. Qed.

Lemma md_ok temp data n : msize temp = 144 -> 0 <= n <= msize data -> (Z.to_nat n <= length data)%nat ->
  Keccak.Keccak.keccak temp data n 200 = Ok (Keccak.Keccak.sponge 17 1 (take (Z.to_nat n) data)).
Proof.
  intros Ht Hn _. rewrite (Keccak.Keccak.keccak_ok temp data n 200 17) by (done || by left). f_equal.
  apply take_ge. rewrite (proj1 (sponge_17 _)). done.
Qed.

Definition payload (tag : Z) (spend view extra : list Z) : list Z := varint tag ++ spend ++ view ++ extra.

Lemma skip_rest r : (n ← remaining; skip (u64 (n - 4))) r = skip (u64 (u64 (m_size r - m_index r) - 4)) r.
Proof. reflexivity. Qed.

Lemma read_data_ok temp tag spend view extra address tf_tag w : msize temp = 144 -> is_u64 tag ->
  length spend = 32%nat -> length view = 32%nat -> msize (payload tag spend view extra) < 2 ^ 20 ->
  let p := payload tag spend view extra in
  read_data temp (p ++ checksum p) address tf_tag w =
    Ok (true, mk_wallet address (if tf_tag =? 0 then tag else tf_tag) (checksum p) spend view).
Proof.
  intros Ht Htag Hs Hv Hl p. set (data := p ++ checksum p). pose proof (length_checksum p) as Hc.
  assert (msize data = msize p + 4) as Hsz by (unfold data, msize; rewrite length_app, Hc; lia).
  fold p in Hl.
  assert (at_ data (mk_reader 0 (msize data) 0) (varint tag ++ spend ++ view ++ extra ++ checksum p)) as Ha.
  { replace (_ ++ _) with data; [apply at_start; unfold msize in *; lia|]. unfold data, p, payload. by rewrite <- !app_assoc. }
  unfold read_data. cbv zeta. rewrite (getVarint_at data _ _ _ Htag Ha), ok_bind.
  apply at_split in Ha as (_ & _ & Ha). change kKeySize with 32 in *.
  pose proof (array_at data _ _ _ Ha) as E. unfold msize at 1 in E. rewrite Hs in E. change (Z.of_nat 32) with 32 in E.
  rewrite E, ok_bind. clear E. apply at_split in Ha as (_ & _ & Ha).
  pose proof (array_at data _ _ _ Ha) as E. unfold msize at 1 in E. rewrite Hv in E. change (Z.of_nat 32) with 32 in E.
  rewrite E, ok_bind. clear E. apply at_split in Ha as (_ & _ & Ha).
  set (r := advance (advance _ _) _) in *. pose proof (at_length _ _ _ Ha) as Hlen. unfold msize in Hlen.
  rewrite length_app, Hc in Hlen.
  assert (u64 (u64 (m_size r - m_index r) - 4) = msize extra) as Hrem.
  { rewrite <- Hlen. pose proof Ha as [_ ? ? _ _]. rewrite (u64_id (Z.of_nat _)) by (unfold is_u64; lia).
    rewrite u64_id; unfold is_u64, msize in *; lia. }
  rewrite skip_rest, Hrem, (skip_at data _ _ _ Ha), ok_bind.
  apply at_split in Ha as (_ & _ & Ha). rewrite <- (app_nil_r (checksum p)) in Ha.
  pose proof (array_at data _ _ _ Ha) as E. unfold msize at 1 in E. rewrite Hc in E. change (Z.of_nat 4) with 4 in E.
  rewrite E, ok_bind. clear E. rewrite md_ok, ok_bind by (done || (unfold msize in *; lia)).
  replace (take (Z.to_nat (msize data - 4)) data) with p.
  2: { unfold data at 2. rewrite Hsz. replace (Z.to_nat _) with (length p) by (unfold msize; lia). by rewrite take_app_length. }
  fold (checksum p). unfold same. rewrite bool_decide_eq_true_2 by done. by destruct (tf_tag =? 0).
Qed.

(** The prefixes of Townforge's addresses. *)
Definition tf_prefixes : list (list Z * Z) :=
  [(codes "TF1M", 0x424200); (codes "TF2M", 0x424201); (codes "TF1T", 0x424210);
   (codes "TF2T", 0x424211); (codes "TF1S", 0x424220); (codes "TF2S", 0x424221)].

Lemma townforge_prefix c tf address : In (c, tf) tf_prefixes ->
  townforge (c ++ address) (msize (c ++ address)) = Ok (Some (tf, address)) /\ (tf =? 0) = false.
Proof.
  intros Hin. assert ((4 <=? msize (c ++ address)) = true) as Hsz.
  { apply Z.leb_le. unfold msize. rewrite length_app.
    repeat (destruct Hin as [[= <- <-]|Hin]; [change (length (codes _)) with 4%nat; lia|]). destruct Hin. }
  unfold townforge. rewrite Hsz. repeat (destruct Hin as [[= <- <-]|Hin]; [done|]). destruct Hin.
Qed.

Lemma townforge_none address : take 2 address <> codes "TF" -> (4 <= length address)%nat ->
  townforge address (msize address) = Ok (Some (0, address)).
Proof.
  intros Hne Hl. destruct address as [|c0 [|c1 [|c2 [|c3 l]]]]; try (simpl in Hl; lia).
  unfold townforge. rewrite (proj2 (Z.leb_le _ _)) by (unfold msize; cbn [length]; lia).
  change (aget (c0 :: c1 :: c2 :: c3 :: l) 0) with (Ok c0). change (aget (c0 :: c1 :: c2 :: c3 :: l) 1) with (Ok c1).
  rewrite !ok_bind. destruct (Z.eqb_spec c0 84) as [->|]; [|done]. destruct (Z.eqb_spec c1 70) as [->|]; [|done].
  by destruct Hne.
Qed.

Record address_wf (tag : Z) (spend view extra : list Z) : Prop := {
  wf_tag : is_u64 tag;
  wf_spend : length spend = 32%nat; wf_view : length view = 32%nat; wf_extra : msize (payload tag spend view extra) <= 182;
  wf_bytes : Forall is_u8 (spend ++ view ++ extra) }.

Section Address.
Context (tag : Z) (spend view extra : list Z) (W : address_wf tag spend view extra).
Abbreviation p := (payload tag spend view extra).

Lemma full_bytes : Forall is_u8 (p ++ checksum p).
Proof.
  destruct W as [_ _ _ _ Hb]. apply Forall_app_2; [|apply Forall_take, sponge_17].
  unfold payload. apply Forall_app_2; [apply put_varint_range|done].
Qed.

Lemma full_length : (69 <= length (p ++ checksum p) <= 186)%nat.
Proof.
  destruct W as [_ Hs Hv Hp _]. rewrite length_app, length_checksum. unfold payload, msize in *.
  rewrite !length_app in *. assert (1 <= length (varint tag))%nat; [|lia].
  unfold varint. cbn [put_varint]. destruct (_ <=? tag); cbn [length]; lia.
Qed.

(** An address that decodes to the payload and its checksum. *)
Lemma decode_of temp w address tf rest : msize temp = 144 -> townforge address (msize address) = Ok (Some (tf, rest)) ->
  decode_data rest (msize rest) = Ok (Some (p ++ checksum p)) ->
  decode temp address w = Ok (true, mk_wallet rest (if tf =? 0 then tag else tf) (checksum p) spend view).
Proof.
  intros Ht Htf Hd. unfold decode. rewrite Htf, ok_bind, Hd, ok_bind. apply read_data_ok; try apply W; [done|].
  pose proof (wf_extra _ _ _ _ W). lia.
Qed.

End Address.

(** C40: the base-58 form of a tag, two keys, an optional payment id and their
    checksum decodes to them, whatever the object held before: with the tag it
    contains, unless it starts with TF, and with the network's tag behind each of
    Townforge's prefixes. *)
Theorem wallet_roundtrip temp tag spend view extra w : msize temp = 144 -> address_wf tag spend view extra ->
  let p := payload tag spend view extra in
  let address := encode (p ++ checksum p) in
  (take 2 address <> codes "TF" ->
   decode temp address w = Ok (true, mk_wallet address tag (checksum p) spend view)) /\
  (forall c tf, In (c, tf) tf_prefixes ->
   decode temp (c ++ address) w = Ok (true, mk_wallet address tf (checksum p) spend view)).
Proof.
  intros Ht W p address. pose proof (b58_decode_encode _ (full_bytes _ _ _ _ W) (full_length _ _ _ _ W)) as Hd.
  pose proof (full_length _ _ _ _ W) as Hfl. fold p in Hd, Hfl. fold address in Hd. split.
  - intros Hne. apply (decode_of tag spend view extra W temp w address 0 address Ht); [|done]. apply townforge_none; [done|].
    destruct (sizes_ok _ (load_be (drop (8 * (length (p ++ checksum p) / 8)) (p ++ checksum p))) Hfl) as ((Hmin & _) & _).
    rewrite <- encode_with_last in Hmin. fold address in Hmin. unfold kMinSize, msize in Hmin. lia.
  - intros c tf Hin. destruct (townforge_prefix c tf address Hin) as [Htf Hz].
    rewrite (decode_of tag spend view extra W temp w _ tf address Ht Htf Hd). by rewrite Hz.
Qed.

Lemma zeros_wf : address_wf 18 (replicate 32 1) (replicate 32 2) [].
Proof.
  split; [unfold is_u64; lia|done|done|vm_compute; discriminate|].
  cbn [replicate app]. repeat (constructor; try (unfold is_u8; lia)).
Qed.

Lemma wallet_roundtrip_witness :
  let p := payload 18 (replicate 32 1) (replicate 32 2) [] in
  let address := encode (p ++ checksum p) in
  decode (replicate 144 0) (codes "TF1M" ++ address) empty =
    Ok (true, mk_wallet address 0x424200 (checksum p) (replicate 32 1) (replicate 32 2)).
Proof.
  exact (proj2 (wallet_roundtrip (replicate 144 0) 18 (replicate 32 1) (replicate 32 2) [] empty eq_refl zeros_wf)
    (codes "TF1M") 0x424200 (or_introl eq_refl)).
Defined.

(** ** What an accepted address has *)

Lemma blocks_length address size idx full : forall off data out, 0 <= idx <= 8 ->
  blocks_loop full address off size idx data = Ok (Some out) -> length out = (length data + 8 * full + Z.to_nat idx)%nat.
Proof.
  induction full as [|full IH]; intros off data out Hi; cbn [blocks_loop];
    destruct (block_loop _ _ _ _ _) as [[num|]| |]; try discriminate; rewrite ok_bind.
  - intros [= <-]. unfold emit. rewrite length_app, length_rev, length_take, length_store_le by lia. lia.
  - intros H. apply IH in H; [|done]. rewrite H. unfold emit. rewrite length_app, length_rev, length_take, length_store_le by lia. lia.
Qed.

Lemma find_size_range size : -1 <= find_size block_sizes 0 size <= 8.
Proof. cbn [find_size block_sizes]. repeat (destruct (_ =? size); [lia|]). lia. Qed.

Lemma decode_data_size address size data : decode_data address size = Ok (Some data) -> kMinDataSize <= msize data < 2 ^ 20.
Proof.
  unfold decode_data. destruct (size <? kMinSize) eqn:E1; [discriminate|]. destruct (kMaxSize <? size) eqn:E2; [discriminate|].
  cbn [orb]. pose proof (find_size_range (size mod 11)) as Hf. set (idx := find_size _ _ _) in *.
  destruct (idx <? 0) eqn:E3; [discriminate|]. destruct (_ <? kMinDataSize) eqn:E4; [discriminate|].
  apply Z.ltb_ge in E1, E2, E3, E4. unfold kMinSize, kMaxSize in *. intros H.
  apply blocks_length in H; [|lia]. unfold msize. rewrite H. cbn [length].
  assert (0 <= size / 11 <= 24) by (split; [apply Z.div_pos; lia|apply Z.div_le_upper_bound; lia]). lia.
Qed.

(** Reading [N] bytes. *)
Lemma array_some data N r bs r' : 0 <= N < 2 ^ 20 -> base r = 0 -> m_size r = msize data -> 0 <= m_index r <= msize data ->
  msize data < 2 ^ 20 -> array data N r = Ok (Some (bs, r')) ->
  bs = chunk data (m_index r) N /\ r' = advance r N /\ m_index r + N <= msize data.
Proof.
  intros HN Hb Hs Hi Hm. unfold array. rewrite Hs, Hb, u64_id by (unfold is_u64; lia).
  destruct (_ <? _) eqn:E; [discriminate|]. apply Z.ltb_ge in E. rewrite mload_ok, ok_bind by lia.
  intros [= <- <-]. unfold advance. rewrite Hb, Hs. done.
Qed.

Lemma varint_index data n : forall acc shift r x r', base r = 0 -> m_size r = msize data -> 0 <= m_index r <= msize data ->
  msize data < 2 ^ 20 -> varint_loop data n acc shift r = Ok (Some (x, r')) ->
  base r' = 0 /\ m_size r' = msize data /\ 0 <= m_index r' <= msize data.
Proof.
  induction n as [|n IH]; intros acc shift r x r' Hb Hs Hi Hm; cbn [varint_loop]; [discriminate|].
  unfold mbind, parser_bind, getByte. destruct (m_size r <=? m_index r) eqn:E; [discriminate|]. apply Z.leb_gt in E.
  rewrite (u64_id (m_index r + 1)) by (unfold is_u64; lia).
  destruct (aget data _); [|discriminate..]. rewrite ok_bind. destruct (64 <=? shift); [discriminate|].
  destruct (negb _).
  - apply IH; cbn; lia || done.
  - intros [= <- <-]. cbn. lia.
Qed.

(** An accepted address has its checksum: its last four bytes, which the
    object keeps, are the first bytes of the Keccak state of all bytes before
    them; the keys are 32 bytes each, one behind the other; and the object's text
    is the address behind Townforge's prefix. *)
Theorem wallet_checksum temp address w w' : msize temp = 144 -> decode temp address w = Ok (true, w') ->
  exists data tf pos, townforge address (msize address) = Ok (Some (tf, m_data w')) /\
    decode_data (m_data w') (msize (m_data w')) = Ok (Some data) /\
    m_checksum w' = chunk data (msize data - 4) 4 /\
    m_checksum w' = checksum (take (length data - 4) data) /\
    m_publicSpendKey w' = chunk data pos 32 /\ m_publicViewKey w' = chunk data (pos + 32) 32 /\
    0 <= pos /\ pos + 64 <= msize data /\ (tf <> 0 -> m_tag w' = tf).
Proof.
  intros Ht. unfold decode. destruct (townforge address (msize address)) as [[[tf rest]|]| |] eqn:Etf; try discriminate.
  rewrite ok_bind. destruct (decode_data rest (msize rest)) as [[data|]| |] eqn:Ed; try discriminate. rewrite ok_bind.
  pose proof (decode_data_size _ _ _ Ed) as Hsz. unfold kMinDataSize in Hsz.
  unfold read_data. cbv zeta. destruct (getVarint data _) as [[[tag r1]|]| |] eqn:E1; try discriminate. rewrite ok_bind.
  destruct (varint_index data 11 0 0 (mk_reader 0 (msize data) 0) tag r1) as (Hb1 & Hs1 & Hi1);
    [done|done|cbn; lia|lia|exact E1|].
  destruct (array data kKeySize r1) as [[[spend r2]|]| |] eqn:E2; try discriminate. rewrite ok_bind.
  apply array_some in E2 as (-> & -> & H2); try (done || (unfold kKeySize; lia)). unfold kKeySize in *.
  destruct (array data 32 _) as [[[view r3]|]| |] eqn:E3; try discriminate. rewrite ok_bind.
  apply array_some in E3 as (-> & -> & H3); try (done || (cbn; lia)). rewrite skip_rest. cbn [advance m_index m_size base] in *.
  unfold skip. cbn [advance m_index m_size base].
  replace (u64 (_ + u64 _)) with (msize data - 4).
  2: { rewrite Hs1, !u64_mod, Zplus_mod_idemp_r. rewrite Z.add_sub_assoc, <- Zminus_mod_idemp_l, Zplus_mod_idemp_r, Zminus_mod_idemp_l.
       rewrite Z.mod_small; lia. }
  destruct (_ <? msize data - 4) eqn:E4; [discriminate|]. rewrite ok_bind.
  destruct (array data 4 _) as [[[cs r5]|]| |] eqn:E5; try discriminate. rewrite ok_bind.
  apply array_some in E5 as (-> & -> & H5); try (done || (cbn; lia)). cbn [m_index].
  rewrite md_ok, ok_bind by (done || (unfold msize in *; lia)).
  destruct (same _ _) eqn:Es; [|discriminate]. unfold same in Es. apply bool_decide_eq_true in Es.
  intros [= <-]. exists data, tf, (m_index r1).
  replace (Z.to_nat (msize data - 4)) with (length data - 4)%nat in Es by (unfold msize; lia).
  destruct (Z.eqb_spec tf 0) as [->|Hne]; cbn [negb]; unfold set_tag; cbn; fold (checksum (take (length data - 4) data)) in Es;
    repeat split; try done; lia.
Qed.

Definition sample_payload : list Z := payload 18 (replicate 32 1) (replicate 32 2) [].
Definition sample_address : list Z := encode (sample_payload ++ checksum sample_payload).

Lemma sample_accepted : decode (replicate 144 0) (codes "TF1M" ++ sample_address) empty =
  Ok (true, mk_wallet sample_address 0x424200 (checksum sample_payload) (replicate 32 1) (replicate 32 2)).
Proof.
  destruct (townforge_prefix (codes "TF1M") 0x424200 sample_address (or_introl eq_refl)) as [Htf _].
  exact (decode_of _ _ _ _ zeros_wf (replicate 144 0) empty _ _ _ eq_refl Htf
    (b58_decode_encode _ (full_bytes _ _ _ _ zeros_wf) (full_length _ _ _ _ zeros_wf))).
Qed.

Lemma wallet_checksum_witness : exists data, decode_data sample_address (msize sample_address) = Ok (Some data) /\
  checksum sample_payload = checksum (take (length data - 4) data).
Proof.
  destruct (wallet_checksum (replicate 144 0) _ empty _ eq_refl sample_accepted)
    as (data & tf & pos & _ & Hd & _ & Hc & _).
  exact (ex_intro _ data (conj Hd Hc)).
Defined.

(** every standard address (one-byte tag, no payment id) has a second
    spelling: 2^40 more in its last block, which holds five bytes, is accepted
    and decodes to the same tag, keys and checksum. *)
Theorem wallet_not_unique temp tag spend view w : msize temp = 144 -> address_wf tag spend view [] -> tag < 128 ->
  let p := payload tag spend view [] in
  let data := p ++ checksum p in
  let other := encode_with data (load_be (drop 64 data) + 2 ^ 40) in
  take 2 (encode_block (take 8 data)) <> codes "TF" ->
  other <> encode data /\ decode temp other w = Ok (true, mk_wallet other tag (checksum p) spend view).
Proof.
  intros Ht W Htag p data other Hne.
  assert (length data = 69%nat) as Hl.
  { destruct W as [Hu Hs Hv _ _]. unfold is_u64 in Hu. unfold data, p, payload, varint. cbn [put_varint].
    rewrite (proj2 (Z.leb_gt _ _)) by lia. rewrite !length_app, length_checksum, Hs, Hv. done. }
  pose proof (full_bytes _ _ _ _ W) as Hb. pose proof (full_length _ _ _ _ W) as Hfl. fold p in Hb, Hfl. fold data in Hb, Hfl.
  set (bs := drop 64 data) in *. assert (Forall is_u8 bs) as Hbs by by apply Forall_drop.
  assert (length bs = 5%nat) as Hlb by (unfold bs; rewrite length_drop; lia).
  pose proof (load_be_bound bs Hbs) as Hv. rewrite Hlb in Hv. change (8 * Z.of_nat 5) with 40 in Hv.
  assert (decode_data other (msize other) = Ok (Some data)) as Hd.
  { apply decode_data_ok; [done|done| | |]; rewrite ?Hl; change (69 mod 8)%nat with 5%nat; change (69 / 8)%nat with 8%nat.
    - change (58 ^ Z.of_nat (block_size 5)) with 2207984167552. lia.
    - lia.
    - change (8 * 8)%nat with 64%nat. fold bs. rewrite <- Hlb. apply (emit_padded bs [1; 0; 0]).
      rewrite <- (store_padded bs [1; 0; 0]); [|done|repeat constructor; unfold is_u8; lia|by rewrite Hlb].
      rewrite Hlb. reflexivity. }
  split.
  - rewrite encode_with_last, Hl. change (8 * (69 / 8))%nat with 64%nat. fold bs. unfold other, encode_with. rewrite Hl.
    intros [_ E]%app_inj_1; [|done]. change (69 mod 8)%nat with 5%nat in E. change (block_size 5) with 7%nat in E.
    apply b58_inj in E; change (58 ^ Z.of_nat 7) with 2207984167552; lia.
  - apply (decode_of tag spend view [] W temp w other 0 other Ht); [|done]. apply townforge_none.
    { intros E. apply Hne. rewrite <- E. unfold other, encode_with. rewrite Hl. change (69 / 8)%nat with 8%nat.
      cbn [encode_full]. rewrite <- !app_assoc. symmetry. apply take_app_le. unfold encode_block.
      rewrite length_b58, length_take, Hl. vm_compute. lia. }
    destruct (sizes_ok data (load_be bs + 2 ^ 40) Hfl) as ((Hmin & _) & _). fold other in Hmin. unfold kMinSize, msize in Hmin. lia.
Qed.

Lemma wallet_not_unique_witness :
  let p := payload 18 (replicate 32 1) (replicate 32 2) [] in
  let data := p ++ checksum p in
  let other := encode_with data (load_be (drop 64 data) + 2 ^ 40) in
  other <> encode data /\
  decode (replicate 144 0) other empty = Ok (true, mk_wallet other 18 (checksum p) (replicate 32 1) (replicate 32 2)).
Proof.
  refine (wallet_not_unique (replicate 144 0) 18 (replicate 32 1) (replicate 32 2) empty eq_refl zeros_wf eq_refl _).
  lazy. discriminate.
Defined.

End WalletProofs.
