(* ===== verification/SoftAes.v ===== *)
(** * The AES round (crypto/randomx/soft_aes.cpp, soft_aes.h)

    The lookup tables built by [SAESInitializer] and the two table-driven
    rounds, proved equal to the round of FIPS 197.  A 128-bit vector
    ([rx_vec_i128] of intrin_portable.h) is the list of its 16 bytes in memory
    order.  [AesRounds] is the interface the hash and the generators of
    aes_hash.cpp are written against: their template parameter [softAes]. *)
From Stdlib Require Import ZArith Lia.
From stdpp Require Import base numbers list list_numbers.
From S2P Require Import Prelude.
Open Scope Z_scope.

(** ** Vectors *)

Abbreviation vec := (list Z) (only parsing).
Definition is_vec (v : vec) : Prop := length v = 16%nat /\ Forall is_u8 v.

(** [rx_set_int_vec_i128(i3, i2, i1, i0)]: [i0] is the lowest word. *)
Definition rx_set_int_vec_i128 (i3 i2 i1 i0 : Z) : vec :=
  store_le 4 i0 ++ store_le 4 i1 ++ store_le 4 i2 ++ store_le 4 i3.
Definition rx_xor_vec_i128 (a b : vec) : vec := zip_with Z.lxor a b.
Definition rx_and_vec_i128 (a b : vec) : vec := zip_with Z.land a b.

(** The [k]-th 32-bit lane: [rx_vec_i128_x] is lane 0, [_w] lane 3. *)
Definition lane (v : vec) (k : nat) : Z := load_le (take 4 (drop (4 * k) v)).
Definition rx_vec_i128_x (v : vec) : Z := lane v 0.
Definition rx_vec_i128_y (v : vec) : Z := lane v 1.
Definition rx_vec_i128_z (v : vec) : Z := lane v 2.
Definition rx_vec_i128_w (v : vec) : Z := lane v 3.

(** One AES round of encryption and one of decryption, with the key added
    last, as the AESENC and AESDEC instructions compute them. *)
Class AesRounds := { aesenc : vec -> vec -> vec; aesdec : vec -> vec -> vec }.

Module SoftAes.

(** ** Table construction *)

(** One round of the loop of [mul_gf2] on [(s, i, j)]. *)
Definition mul_gf2_step (k : Z) (st : Z * Z * Z) : Z * Z * Z :=
  let '(s, i, j) := st in
  if j =? 0 then st
  else
    let '(s, j) := if negb (Z.land j k =? 0) then (Z.lxor s i, Z.lxor j k) else (s, j) in
    let i := Z.shiftl i 1 in
    let i := if negb (Z.land i 0x100 =? 0) then Z.lxor i 0x11B else i in
    (s, i, j).

(** [for (k = 1; (k < 0x100) && j; k <<= 1)]. *)
Definition mul_gf2 (b c : Z) : Z :=
  let '(s, _, _) := foldl (fun st k => mul_gf2_step k st) (0, b, c)
    [0x01; 0x02; 0x04; 0x08; 0x10; 0x20; 0x40; 0x80] in s.

Definition ROTL8 (x shift : Z) : Z := Z.lor (u8 (Z.shiftl x shift)) (Z.shiftr x (8 - shift)).

(** One pass of the [do] loop that walks the field with a generator [p] and
    its inverse [q]. *)
Definition sbox_step (st : Z * Z * list Z * list Z) : Z * Z * list Z * list Z :=
  let '(p, q, sbox, sbox_reverse) := st in
  let p := u8 (Z.lxor (Z.lxor p (Z.shiftl p 1)) (if negb (Z.land p 0x80 =? 0) then 0x1B else 0)) in
  let q := u8 (Z.lxor q (Z.shiftl q 1)) in
  let q := u8 (Z.lxor q (Z.shiftl q 2)) in
  let q := u8 (Z.lxor q (Z.shiftl q 4)) in
  let q := u8 (Z.lxor q (if negb (Z.land q 0x80 =? 0) then 0x09 else 0)) in
  let value := u8 (Z.lxor (Z.lxor (Z.lxor (Z.lxor (Z.lxor q (ROTL8 q 1)) (ROTL8 q 2)) (ROTL8 q 3))
                     (ROTL8 q 4)) 0x63) in
  (p, q, <[Z.to_nat p := value]> sbox, <[Z.to_nat value := p]> sbox_reverse).

(** [do { ... } while (p != 1)]; the generator has order 255. *)
Fixpoint sbox_loop (fuel : nat) (st : Z * Z * list Z * list Z) : Z * Z * list Z * list Z :=
  match fuel with
  | O => st
  | S fuel =>
      let st := sbox_step st in
      let '(p, _, _, _) := st in
      if p =? 1 then st else sbox_loop fuel st
  end.

Definition sboxes : list Z * list Z :=
  let '(_, _, sbox, sbox_reverse) := sbox_loop 256 (1, 1, replicate 256 0, replicate 256 0) in
  (<[0%nat := 0x63]> sbox, <[0x63%nat := 0]> sbox_reverse).

Definition sbox : list Z := Eval vm_compute in fst sboxes.
Definition sbox_reverse : list Z := Eval vm_compute in snd sboxes.

(** [w = (w << 8) | (w >> 24)]. *)
Definition rotw (w : Z) : Z := Z.lor (u32 (Z.shiftl w 8)) (Z.shiftr w 24).

Definition enc_word (i : nat) : Z :=
  let s := sbox !!! i in load_le [u8 (mul_gf2 s 2); s; s; u8 (mul_gf2 s 3)].
Definition dec_word (i : nat) : Z :=
  let s := sbox_reverse !!! i in
  load_le [u8 (mul_gf2 s 0xe); u8 (mul_gf2 s 0x9); u8 (mul_gf2 s 0xd); u8 (mul_gf2 s 0xb)].

Definition lutEnc0 : list Z := Eval vm_compute in enc_word <$> seq 0 256.
Definition lutEnc1 : list Z := Eval vm_compute in rotw <$> lutEnc0.
Definition lutEnc2 : list Z := Eval vm_compute in rotw <$> lutEnc1.
Definition lutEnc3 : list Z := Eval vm_compute in rotw <$> lutEnc2.
Definition lutDec0 : list Z := Eval vm_compute in dec_word <$> seq 0 256.
Definition lutDec1 : list Z := Eval vm_compute in rotw <$> lutDec0.
Definition lutDec2 : list Z := Eval vm_compute in rotw <$> lutDec1.
Definition lutDec3 : list Z := Eval vm_compute in rotw <$> lutDec2.

(** [lut[i]]. *)
Definition lut (t : list Z) (i : Z) : Z := t !!! Z.to_nat i.

(** ** The two software rounds *)

Definition aesenc_1 (v key : vec) : vec :=
  let s k := v !!! k in
  let s0 := lut lutEnc0 (s 0%nat) in let s1 := lut lutEnc0 (s 4%nat) in
  let s2 := lut lutEnc0 (s 8%nat) in let s3 := lut lutEnc0 (s 12%nat) in
  let s0 := Z.lxor s0 (lut lutEnc1 (s 5%nat)) in let s1 := Z.lxor s1 (lut lutEnc1 (s 9%nat)) in
  let s2 := Z.lxor s2 (lut lutEnc1 (s 13%nat)) in let s3 := Z.lxor s3 (lut lutEnc1 (s 1%nat)) in
  let s0 := Z.lxor s0 (lut lutEnc2 (s 10%nat)) in let s1 := Z.lxor s1 (lut lutEnc2 (s 14%nat)) in
  let s2 := Z.lxor s2 (lut lutEnc2 (s 2%nat)) in let s3 := Z.lxor s3 (lut lutEnc2 (s 6%nat)) in
  let s0 := Z.lxor s0 (lut lutEnc3 (s 15%nat)) in let s1 := Z.lxor s1 (lut lutEnc3 (s 3%nat)) in
  let s2 := Z.lxor s2 (lut lutEnc3 (s 7%nat)) in let s3 := Z.lxor s3 (lut lutEnc3 (s 11%nat)) in
  rx_xor_vec_i128 (rx_set_int_vec_i128 s3 s2 s1 s0) key.

Definition aesdec_1 (v key : vec) : vec :=
  let s k := v !!! k in
  let s0 := lut lutDec0 (s 0%nat) in let s1 := lut lutDec0 (s 4%nat) in
  let s2 := lut lutDec0 (s 8%nat) in let s3 := lut lutDec0 (s 12%nat) in
  let s0 := Z.lxor s0 (lut lutDec1 (s 13%nat)) in let s1 := Z.lxor s1 (lut lutDec1 (s 1%nat)) in
  let s2 := Z.lxor s2 (lut lutDec1 (s 5%nat)) in let s3 := Z.lxor s3 (lut lutDec1 (s 9%nat)) in
  let s0 := Z.lxor s0 (lut lutDec2 (s 10%nat)) in let s1 := Z.lxor s1 (lut lutDec2 (s 14%nat)) in
  let s2 := Z.lxor s2 (lut lutDec2 (s 2%nat)) in let s3 := Z.lxor s3 (lut lutDec2 (s 6%nat)) in
  let s0 := Z.lxor s0 (lut lutDec3 (s 7%nat)) in let s1 := Z.lxor s1 (lut lutDec3 (s 11%nat)) in
  let s2 := Z.lxor s2 (lut lutDec3 (s 15%nat)) in let s3 := Z.lxor s3 (lut lutDec3 (s 3%nat)) in
  rx_xor_vec_i128 (rx_set_int_vec_i128 s3 s2 s1 s0) key.

(** [(x >> 8 * k) & 0xff] of a 32-bit word. *)
Definition byte_of (x k : Z) : Z := Z.land (Z.shiftr x (8 * k)) 0xff.

Definition aesenc_2 (v key : vec) : vec :=
  let s0 := rx_vec_i128_w v in let s1 := rx_vec_i128_z v in
  let s2 := rx_vec_i128_y v in let s3 := rx_vec_i128_x v in
  let word a b c d :=
    Z.lxor (Z.lxor (Z.lxor (lut lutEnc0 (Z.land a 0xff)) (lut lutEnc1 (byte_of b 1)))
      (lut lutEnc2 (byte_of c 2))) (lut lutEnc3 (Z.shiftr d 24)) in
  let out := rx_set_int_vec_i128
    (word s0 s3 s2 s1) (word s1 s0 s3 s2) (word s2 s1 s0 s3) (word s3 s2 s1 s0) in
  rx_xor_vec_i128 out key.

Definition aesdec_2 (v key : vec) : vec :=
  let s0 := rx_vec_i128_w v in let s1 := rx_vec_i128_z v in
  let s2 := rx_vec_i128_y v in let s3 := rx_vec_i128_x v in
  let word a b c d :=
    Z.lxor (Z.lxor (Z.lxor (lut lutDec0 (Z.land a 0xff)) (lut lutDec1 (byte_of b 1)))
      (lut lutDec2 (byte_of c 2))) (lut lutDec3 (Z.shiftr d 24)) in
  let out := rx_set_int_vec_i128
    (word s0 s1 s2 s3) (word s1 s2 s3 s0) (word s2 s3 s0 s1) (word s3 s0 s1 s2) in
  rx_xor_vec_i128 out key.

Definition soft1 : AesRounds := {| aesenc := aesenc_1; aesdec := aesdec_1 |}.
Definition soft2 : AesRounds := {| aesenc := aesenc_2; aesdec := aesdec_2 |}.

(** ** The round of FIPS 197 *)

(** Multiplication in GF(2^8) modulo x^8 + x^4 + x^3 + x + 1. *)
Definition xtime (a : Z) : Z :=
  let b := 2 * a in if b <? 256 then b else Z.lxor b 0x11B.
Definition gmul (a b : Z) : Z :=
  foldr (fun i acc => if Z.testbit b (Z.of_nat i) then Z.lxor acc (Nat.iter i xtime a) else acc)
    0 (seq 0 8).

(** The inverse, as the power 254, and the affine map of the S-box. *)
Fixpoint gpow (a : Z) (n : nat) : Z := match n with O => 1 | S n => gmul a (gpow a n) end.
Definition ginv (a : Z) : Z := gpow a 254.
Definition rotl8 (x : Z) (k : Z) : Z := (x * 2 ^ k) mod 256 + x / 2 ^ (8 - k).
Definition SBox (a : Z) : Z :=
  let b := ginv a in
  Z.lxor (Z.lxor (Z.lxor (Z.lxor (Z.lxor b (rotl8 b 1)) (rotl8 b 2)) (rotl8 b 3)) (rotl8 b 4)) 0x63.
Definition InvSBox (a : Z) : Z :=
  ginv (Z.lxor (Z.lxor (Z.lxor (rotl8 a 1) (rotl8 a 3)) (rotl8 a 6)) 0x05).

(** Byte [r + 4 c] of the state is row [r] of column [c]. *)
Definition ShiftRows (s : vec) : vec :=
  (fun i => s !!! ((i + 4 * (i mod 4)) mod 16)%nat) <$> seq 0 16.
Definition InvShiftRows (s : vec) : vec :=
  (fun i => s !!! ((i + 12 * (i mod 4)) mod 16)%nat) <$> seq 0 16.

(** A column times the circulant matrix whose first row is [m]. *)
Definition MixColumn (m : Z * Z * Z * Z) (col : list Z) : list Z :=
  let '(m0, m1, m2, m3) := m in
  let a i := col !!! i in
  let row c0 c1 c2 c3 :=
    Z.lxor (Z.lxor (Z.lxor (gmul (a 0%nat) c0) (gmul (a 1%nat) c1)) (gmul (a 2%nat) c2))
      (gmul (a 3%nat) c3) in
  [row m0 m1 m2 m3; row m3 m0 m1 m2; row m2 m3 m0 m1; row m1 m2 m3 m0].
Definition MixColumns (m : Z * Z * Z * Z) (s : vec) : vec :=
  mjoin ((fun c => MixColumn m (take 4 (drop (4 * c) s))) <$> seq 0 4).

Definition fips_enc (s key : vec) : vec :=
  zip_with Z.lxor (MixColumns (2, 3, 1, 1) (SBox <$> ShiftRows s)) key.
Definition fips_dec (s key : vec) : vec :=
  zip_with Z.lxor (MixColumns (0xe, 0xb, 0xd, 0x9) (InvSBox <$> InvShiftRows s)) key.

(** The AESENC and AESDEC instructions, as their manual defines them. *)
Definition hard : AesRounds := {| aesenc := fips_enc; aesdec := fips_dec |}.

(** ** The tables hold the products of the round *)

Section Tables.

Lemma store4 x : store_le 4 x =
  [Z.land x 255; Z.land (Z.shiftr x 8) 255; Z.land (Z.shiftr (Z.shiftr x 8) 8) 255;
   Z.land (Z.shiftr (Z.shiftr (Z.shiftr x 8) 8) 8) 255].
Proof. reflexivity. Qed.

Lemma land_lxor_distr_l a b c : Z.land (Z.lxor a b) c = Z.lxor (Z.land a c) (Z.land b c).
Proof.
  apply Z.bits_inj'. intros i _. rewrite !Z.land_spec, !Z.lxor_spec, !Z.land_spec.
  by destruct (Z.testbit a i), (Z.testbit b i), (Z.testbit c i).
Qed.

Lemma store_le_lxor a b : store_le 4 (Z.lxor a b) = zip_with Z.lxor (store_le 4 a) (store_le 4 b).
Proof. rewrite !store4. simpl. by rewrite !Z.shiftr_lxor, !land_lxor_distr_l. Qed.

(** The bytes of a table entry: the products of a column of the matrix. *)
Definition entry_ok (t : list Z) (b : Z) (c0 c1 c2 c3 : Z) (s : Z) : bool :=
  bool_decide (store_le 4 (lut t b) = [gmul s c0; gmul s c1; gmul s c2; gmul s c3]).

Definition tables_ok (b : Z) : bool :=
  let s := SBox b in let r := InvSBox b in
  entry_ok lutEnc0 b 2 1 1 3 s && entry_ok lutEnc1 b 3 2 1 1 s &&
  entry_ok lutEnc2 b 1 3 2 1 s && entry_ok lutEnc3 b 1 1 3 2 s &&
  entry_ok lutDec0 b 0xe 0x9 0xd 0xb r && entry_ok lutDec1 b 0xb 0xe 0x9 0xd r &&
  entry_ok lutDec2 b 0xd 0xb 0xe 0x9 r && entry_ok lutDec3 b 0x9 0xd 0xb 0xe r.

Lemma tables_all : forallb (fun b => tables_ok (Z.of_nat b)) (seq 0 256) = true.
Proof. vm_cast_no_check (eq_refl true). Qed.

Lemma tables b : is_u8 b ->
  let s := SBox b in let r := InvSBox b in
  (store_le 4 (lut lutEnc0 b) = [gmul s 2; gmul s 1; gmul s 1; gmul s 3] /\
   store_le 4 (lut lutEnc1 b) = [gmul s 3; gmul s 2; gmul s 1; gmul s 1] /\
   store_le 4 (lut lutEnc2 b) = [gmul s 1; gmul s 3; gmul s 2; gmul s 1] /\
   store_le 4 (lut lutEnc3 b) = [gmul s 1; gmul s 1; gmul s 3; gmul s 2]) /\
  (store_le 4 (lut lutDec0 b) = [gmul r 0xe; gmul r 0x9; gmul r 0xd; gmul r 0xb] /\
   store_le 4 (lut lutDec1 b) = [gmul r 0xb; gmul r 0xe; gmul r 0x9; gmul r 0xd] /\
   store_le 4 (lut lutDec2 b) = [gmul r 0xd; gmul r 0xb; gmul r 0xe; gmul r 0x9] /\
   store_le 4 (lut lutDec3 b) = [gmul r 0x9; gmul r 0xd; gmul r 0xb; gmul r 0xe]).
Proof.
  intros Hb s r. pose proof tables_all as HT. rewrite forallb_forall in HT.
  specialize (HT (Z.to_nat b)). rewrite in_seq, Z2Nat.id in HT by (unfold is_u8 in Hb; lia).
  specialize (HT ltac:(unfold is_u8 in Hb; lia)). unfold tables_ok, entry_ok in HT.
  rewrite !andb_true_iff, !bool_decide_eq_true in HT.
  destruct HT as [[[[[[[E0 E1] E2] E3] D0] D1] D2] D3].
  exact (conj (conj E0 (conj E1 (conj E2 E3))) (conj D0 (conj D1 (conj D2 D3)))).
Qed.

End Tables.

(** ** The software rounds implement the standard *)

Section Rounds.

(** The bytes of a word read back by shifting and masking. *)
Lemma word_bytes b0 b1 b2 b3 : is_u8 b0 -> is_u8 b1 -> is_u8 b2 -> is_u8 b3 ->
  let w := load_le [b0; b1; b2; b3] in
  Z.land w 0xff = b0 /\ byte_of w 1 = b1 /\ byte_of w 2 = b2 /\ Z.shiftr w 24 = b3.
Proof.
  intros H0 H1 H2 H3 w.
  assert (Forall is_u8 [b0; b1; b2; b3]) as HB.
  { repeat (apply Forall_cons_2; [done|]). apply Forall_nil_2. }
  pose proof (store_load_le [b0; b1; b2; b3] 4 eq_refl ltac:(lia) HB) as E. fold w in E.
  pose proof (load_le_bound _ HB) as Hw. fold w in Hw. simpl length in Hw.
  rewrite store4 in E. injection E as E0 E1 E2 E3. rewrite Z.shiftr_shiftr in E2 by lia.
  rewrite Z.shiftr_shiftr, Z.shiftr_shiftr in E3 by lia. change (8 + (8 + 8)) with 24 in E3.
  unfold byte_of. split_and!; [done|done|done|].
  rewrite <- E3. change 255 with (Z.ones 8). rewrite Z.land_ones by lia.
  rewrite Z.shiftr_div_pow2 by lia. symmetry. apply Z.mod_small. split.
  - apply Z.div_pos; lia.
  - apply Z.div_lt_upper_bound; lia.
Qed.

Lemma vec_inv v : is_vec v -> exists a0 a1 a2 a3 a4 a5 a6 a7 a8 a9 a10 a11 a12 a13 a14 a15,
  v = [a0; a1; a2; a3; a4; a5; a6; a7; a8; a9; a10; a11; a12; a13; a14; a15] /\
  (is_u8 a0 /\ is_u8 a1 /\ is_u8 a2 /\ is_u8 a3) /\ (is_u8 a4 /\ is_u8 a5 /\ is_u8 a6 /\ is_u8 a7) /\
  (is_u8 a8 /\ is_u8 a9 /\ is_u8 a10 /\ is_u8 a11) /\
  (is_u8 a12 /\ is_u8 a13 /\ is_u8 a14 /\ is_u8 a15).
Proof.
  intros [Hl HB]. do 16 (destruct v as [|? v]; [done|]). destruct v; [|done].
  do 16 (apply Forall_cons_1 in HB as [? HB]). do 16 eexists. split; [reflexivity|]. by split_and!.
Qed.

#[local] Opaque gmul SBox InvSBox lut.

(** Split a vector into its bytes. *)
Ltac split_vec Hv :=
  let H := fresh in
  apply vec_inv in Hv as (?&?&?&?&?&?&?&?&?&?&?&?&?&?&?&?& -> &
    (?&?&?&?)&(?&?&?&?)&(?&?&?&?)&(?&?&?&?)).

(** Replace the bytes of every table entry in the goal by its products. *)
Ltac expand_tables :=
  repeat match goal with |- context [store_le 4 (lut ?t ?b)] =>
    let E := fresh in
    pose proof (tables b ltac:(assumption)) as E;
    let E0 := fresh in let E1 := fresh in let E2 := fresh in let E3 := fresh in
    let D0 := fresh in let D1 := fresh in let D2 := fresh in let D3 := fresh in
    destruct E as ((E0 & E1 & E2 & E3) & (D0 & D1 & D2 & D3));
    first [rewrite E0 | rewrite E1 | rewrite E2 | rewrite E3 |
           rewrite D0 | rewrite D1 | rewrite D2 | rewrite D3];
    clear E0 E1 E2 E3 D0 D1 D2 D3
  end.

Lemma aesenc_1_fips v key : is_vec v -> aesenc_1 v key = fips_enc v key.
Proof.
  intros Hv. split_vec Hv. unfold aesenc_1, fips_enc, rx_xor_vec_i128. cbv zeta. f_equal.
  unfold rx_set_int_vec_i128. rewrite !store_le_lxor. cbn [lookup_total list_lookup_total].
  expand_tables. reflexivity.
Qed.

Lemma aesdec_1_fips v key : is_vec v -> aesdec_1 v key = fips_dec v key.
Proof.
  intros Hv. split_vec Hv. unfold aesdec_1, fips_dec, rx_xor_vec_i128. cbv zeta. f_equal.
  unfold rx_set_int_vec_i128. rewrite !store_le_lxor. cbn [lookup_total list_lookup_total].
  expand_tables. reflexivity.
Qed.

(** Replace the bytes extracted from the lanes of a vector. *)
Ltac expand_words :=
  unfold rx_vec_i128_w, rx_vec_i128_z, rx_vec_i128_y, rx_vec_i128_x, lane;
  cbn [Nat.mul Nat.add take drop];
  repeat match goal with |- context [load_le [?b0; ?b1; ?b2; ?b3]] =>
    let E := fresh in
    pose proof (word_bytes b0 b1 b2 b3 ltac:(assumption) ltac:(assumption) ltac:(assumption)
      ltac:(assumption)) as E; cbv zeta in E;
    revert E; generalize (load_le [b0; b1; b2; b3]); intros ? (-> & -> & -> & ->)
  end.

Lemma aesenc_2_1 v key : is_vec v -> aesenc_2 v key = aesenc_1 v key.
Proof.
  intros Hv. split_vec Hv. unfold aesenc_2, aesenc_1. cbv zeta.
  expand_words. cbn [lookup_total list_lookup_total]. reflexivity.
Qed.

Lemma aesdec_2_1 v key : is_vec v -> aesdec_2 v key = aesdec_1 v key.
Proof.
  intros Hv. split_vec Hv. unfold aesdec_2, aesdec_1. cbv zeta.
  expand_words. cbn [lookup_total list_lookup_total]. reflexivity.
Qed.

Lemma set_int_vec i3 i2 i1 i0 : is_vec (rx_set_int_vec_i128 i3 i2 i1 i0).
Proof.
  split; [reflexivity|]. unfold rx_set_int_vec_i128.
  repeat (apply Forall_app; split); apply store_le_bytes; lia.
Qed.

Lemma xor_vec a b : is_vec a -> is_vec b -> is_vec (rx_xor_vec_i128 a b).
Proof.
  intros [La Ha] [Lb Hb]. split.
  - unfold rx_xor_vec_i128. rewrite length_zip_with. lia.
  - apply Forall_lookup_2. intros i x Hx. unfold rx_xor_vec_i128 in Hx.
    apply lookup_zip_with_Some in Hx as (y & z & -> & Hy & Hz).
    apply lxor_bound; [lia|by apply (Forall_lookup_1 _ _ _ _ Ha Hy)|by apply (Forall_lookup_1 _ _ _ _ Hb Hz)].
Qed.

End Rounds.

(** What the users of [AesRounds] rely on: on vectors of bytes both rounds are
    those of FIPS 197. *)
Class AesLaws (A : AesRounds) : Prop := {
  enc_fips v key : is_vec v -> aesenc v key = fips_enc v key;
  dec_fips v key : is_vec v -> aesdec v key = fips_dec v key
}.

#[global] Instance soft1_laws : AesLaws soft1.
Proof. split; [exact aesenc_1_fips|exact aesdec_1_fips]. Qed.
#[global] Instance soft2_laws : AesLaws soft2.
Proof.
  split; intros v key Hv; simpl.
  - rewrite aesenc_2_1 by done. by apply aesenc_1_fips.
  - rewrite aesdec_2_1 by done. by apply aesdec_1_fips.
Qed.
#[global] Instance hard_laws : AesLaws hard.
Proof. by split. Qed.

Lemma fips_vec v key : is_vec v -> is_vec key -> is_vec (fips_enc v key) /\ is_vec (fips_dec v key).
Proof.
  intros Hv Hk. rewrite <- aesenc_1_fips, <- aesdec_1_fips by done.
  split; apply xor_vec; try done; apply set_int_vec.
Qed.

(** C12: both table-driven implementations of the AES round compute the
    encryption and decryption rounds of FIPS 197 (S-box by inversion in
    GF(2^8), shifted rows, mixed columns, round key) on every state. *)
Theorem soft_aes_rounds_correct v key : is_vec v -> is_vec key ->
  aesenc_1 v key = fips_enc v key /\ aesdec_1 v key = fips_dec v key /\
  aesenc_2 v key = fips_enc v key /\ aesdec_2 v key = fips_dec v key /\
  is_vec (fips_enc v key) /\ is_vec (fips_dec v key).
Proof.
  intros Hv Hk. rewrite aesenc_2_1, aesdec_2_1, aesenc_1_fips, aesdec_1_fips by done.
  destruct (fips_vec v key Hv Hk). done.
Qed.

Lemma soft_aes_rounds_correct_witness :
  let v := Z.of_nat <$> seq 40 16 in let key := Z.of_nat <$> seq 100 16 in
  is_vec v /\ is_vec key /\ aesenc_2 v key = fips_enc v key.
Proof.
  assert (forall n, (n + 16 <= 256)%nat -> is_vec (Z.of_nat <$> seq n 16)) as Hs.
  { intros n Hn. split; [by rewrite length_fmap, length_seq|].
    apply Forall_fmap, Forall_forall. intros x Hx. apply elem_of_seq in Hx. unfold is_u8. simpl. lia. }
  split; [apply Hs; lia|]. split; [apply Hs; lia|].
  exact (proj1 (proj2 (proj2 (soft_aes_rounds_correct (Z.of_nat <$> seq 40 16) (Z.of_nat <$> seq 100 16)
    (Hs 40%nat ltac:(lia)) (Hs 100%nat ltac:(lia)))))).
Defined.

End SoftAes.
