(* ===== verification/AesHash.v ===== *)
(** * AES hash and generators (crypto/randomx/aes_hash.cpp)

    [hashAes1Rx4] compresses a buffer to 64 bytes, [fillAes1Rx4] expands 64
    bytes to a buffer, [fillAes4Rx4] generates a program, and
    [hashAndFillAes1Rx4] hashes a scratchpad while overwriting it with the
    next one.  Buffers are byte memories with checked accesses; the rounds are
    any [AesRounds], the template parameter [softAes].  The prefetches have no
    effect on memory and are left out. *)
From Stdlib Require Import ZArith Lia.
From stdpp Require Import base numbers list.
From S2P Require Import Prelude Memory SoftAes.
Open Scope Z_scope.

Module AesHash.
Import SoftAes.

(** ** Constants *)

Definition AES_HASH_1R_STATE0 := rx_set_int_vec_i128 0xd7983aad 0xcc82db47 0x9fa856de 0x92b52c0d.
Definition AES_HASH_1R_STATE1 := rx_set_int_vec_i128 0xace78057 0xf59e125a 0x15c7b798 0x338d996e.
Definition AES_HASH_1R_STATE2 := rx_set_int_vec_i128 0xe8a07ce4 0x5079506b 0xae62c7d0 0x6a770017.
Definition AES_HASH_1R_STATE3 := rx_set_int_vec_i128 0x7e994948 0x79a10005 0x07ad828d 0x630a240c.
Definition AES_HASH_1R_XKEY0 := rx_set_int_vec_i128 0x06890201 0x90dc56bf 0x8b24949f 0xf6fa8389.
Definition AES_HASH_1R_XKEY1 := rx_set_int_vec_i128 0xed18f99b 0xee1043c6 0x51f4e03c 0x61b263d1.
Definition AES_GEN_1R_KEY0 := rx_set_int_vec_i128 0xb4f44917 0xdbb5552b 0x62716609 0x6daca553.
Definition AES_GEN_1R_KEY1 := rx_set_int_vec_i128 0x0da1dc4e 0x1725d378 0x846a710d 0x6d7caf07.
Definition AES_GEN_1R_KEY2 := rx_set_int_vec_i128 0x3e20e345 0xf4c0794f 0x9f947ec6 0x3f1262f1.
Definition AES_GEN_1R_KEY3 := rx_set_int_vec_i128 0x49169154 0x16314c88 0xb1ba317c 0x6aef8135.

(** The four 128-bit lanes of a 512-bit state. *)
Record lanes := mk_lanes { l0 : vec; l1 : vec; l2 : vec; l3 : vec }.
Definition lanes_bytes (s : lanes) : list Z := l0 s ++ l1 s ++ l2 s ++ l3 s.

Definition load_lanes (m : mem) (ptr : Z) : result lanes :=
  v0 ← mload m ptr 16; v1 ← mload m (ptr + 16) 16;
  v2 ← mload m (ptr + 32) 16; v3 ← mload m (ptr + 48) 16;
  mret (mk_lanes v0 v1 v2 v3).

Definition store_lanes (m : mem) (ptr : Z) (s : lanes) : result mem :=
  m ← mstore m ptr (l0 s); m ← mstore m (ptr + 16) (l1 s);
  m ← mstore m (ptr + 32) (l2 s); mstore m (ptr + 48) (l3 s).

Section Hash.
Context `{A : AesRounds}.

(** Lanes 0 and 2 are encrypted, lanes 1 and 3 decrypted, with the keys [k]. *)
Definition enc_dec (s k : lanes) : lanes :=
  mk_lanes (aesenc (l0 s) (l0 k)) (aesdec (l1 s) (l1 k)) (aesenc (l2 s) (l2 k)) (aesdec (l3 s) (l3 k)).
Definition dec_enc (s k : lanes) : lanes :=
  mk_lanes (aesdec (l0 s) (l0 k)) (aesenc (l1 s) (l1 k)) (aesdec (l2 s) (l2 k)) (aesenc (l3 s) (l3 k)).

Definition same (k : vec) : lanes := mk_lanes k k k k.

(** The macros [HASH_STATE] and [FILL_STATE], also the bodies of the loops of
    [hashAes1Rx4] and [fillAes1Rx4]. *)
Definition HASH_STATE (s : lanes) (m : mem) (ptr : Z) : result lanes :=
  k ← load_lanes m ptr; mret (enc_dec s k).

Definition gen_keys : lanes :=
  mk_lanes AES_GEN_1R_KEY0 AES_GEN_1R_KEY1 AES_GEN_1R_KEY2 AES_GEN_1R_KEY3.
Definition FILL_STATE (s : lanes) (m : mem) (ptr : Z) : result (lanes * mem) :=
  let s := dec_enc s gen_keys in
  m ← store_lanes m ptr s; mret (s, m).

Definition hash_state_init : lanes :=
  mk_lanes AES_HASH_1R_STATE0 AES_HASH_1R_STATE1 AES_HASH_1R_STATE2 AES_HASH_1R_STATE3.

(** The two extra rounds and the output of the hash. *)
Definition hash_finish (s : lanes) : list Z :=
  lanes_bytes (enc_dec (enc_dec s (same AES_HASH_1R_XKEY0)) (same AES_HASH_1R_XKEY1)).

Fixpoint hash_loop (fuel : nat) (s : lanes) (m : mem) (inptr inputEnd : Z) : result lanes :=
  if inptr <? inputEnd then
    match fuel with
    | O => OutOfFuel
    | S fuel => s ← HASH_STATE s m inptr; hash_loop fuel s m (inptr + 64) inputEnd
    end
  else mret s.

Definition hashAes1Rx4 (input : mem) (inputSize : Z) : result (list Z) :=
  s ← hash_loop (Z.to_nat inputSize) hash_state_init input 0 inputSize;
  mret (hash_finish s).

Fixpoint fill_loop (fuel : nat) (s : lanes) (m : mem) (outptr outputEnd : Z) : result (lanes * mem) :=
  if outptr <? outputEnd then
    match fuel with
    | O => OutOfFuel
    | S fuel => '(s, m) ← FILL_STATE s m outptr; fill_loop fuel s m (outptr + 64) outputEnd
    end
  else mret (s, m).

(** [state] is the 64-byte state the caller passes; the new state is written
    back to it. *)
Definition fillAes1Rx4 (state : mem) (outputSize : Z) (buffer : mem) : result (mem * mem) :=
  s ← load_lanes state 0;
  '(s, buffer) ← fill_loop (Z.to_nat outputSize) s buffer 0 outputSize;
  state ← store_lanes state 0 s;
  mret (state, buffer).

(** ** The program generator *)

(** The macro [TRANSFORM] with the eight keys of the configuration. *)
Definition TRANSFORM (key : list vec) (s : lanes) : lanes :=
  let k i := key !!! i in
  foldl (fun s i => dec_enc s (mk_lanes (k i) (k i) (k (i + 4)%nat) (k (i + 4)%nat))) s [0; 1; 2; 3]%nat.

(** The mask of two instructions: opcode 0xFF, dst 7, src 7, mod 0xFF and a
    full immediate. *)
Definition inst_mask : vec :=
  [0xFF; 7; 7; 0xFF; 0xFF; 0xFF; 0xFF; 0xFF; 0xFF; 7; 7; 0xFF; 0xFF; 0xFF; 0xFF; 0xFF].
Definition mask_lanes (s : lanes) : lanes :=
  mk_lanes (rx_and_vec_i128 (l0 s) inst_mask) (rx_and_vec_i128 (l1 s) inst_mask)
    (rx_and_vec_i128 (l2 s) inst_mask) (rx_and_vec_i128 (l3 s) inst_mask).

Fixpoint fill4_loop (fuel : nat) (key : list vec) (s : lanes) (m : mem) (outptr outputEnd : Z)
  : result mem :=
  if outptr <? outputEnd then
    match fuel with
    | O => OutOfFuel
    | S fuel =>
        let s := TRANSFORM key s in
        m ← store_lanes m outptr (mask_lanes s);
        fill4_loop fuel key s m (outptr + 64) outputEnd
    end
  else mret m.

Definition fillAes4Rx4 (key : list vec) (state : mem) (outputSize : Z) (buffer : mem) : result mem :=
  s ← load_lanes state 0;
  let s := TRANSFORM key s in
  buffer ← store_lanes buffer 0 s;
  let s := TRANSFORM key s in
  buffer ← store_lanes buffer 64 s;
  fill4_loop (Z.to_nat outputSize) key s buffer 128 outputSize.

(** ** The fused hash and fill *)

Definition PREFETCH_DISTANCE : Z := 7168.

(** One [HASH_STATE(k)] and one [FILL_STATE(k)] at the current pointer. *)
Definition hash_fill (st : lanes * lanes * mem) (ptr : Z) : result (lanes * lanes * mem) :=
  let '(hs, fs, m) := st in
  hs ← HASH_STATE hs m ptr;
  '(fs, m) ← FILL_STATE fs m ptr;
  mret (hs, fs, m).

(** The body of the inner loop: what it does to the states and how far it
    advances the pointer, for the template parameters [softAes] and [unroll]. *)
Definition fused_body (softAes unroll : Z) (st : lanes * lanes * mem) (ptr : Z)
  : result ((lanes * lanes * mem) * Z) :=
  if softAes =? 0 then
    let '(hs, fs, m) := st in
    hs ← HASH_STATE hs m ptr;
    hs ← HASH_STATE hs m (ptr + 64);
    '(fs, m) ← FILL_STATE fs m ptr;
    '(fs, m) ← FILL_STATE fs m (ptr + 64);
    mret ((hs, fs, m), ptr + 128)
  else if unroll =? 4 then
    st ← hash_fill st ptr; st ← hash_fill st (ptr + 64);
    st ← hash_fill st (ptr + 128); st ← hash_fill st (ptr + 192);
    mret (st, ptr + 256)
  else if unroll =? 2 then
    st ← hash_fill st ptr; st ← hash_fill st (ptr + 64);
    mret (st, ptr + 128)
  else
    st ← hash_fill st ptr;
    mret (st, ptr + 64).

Fixpoint fused_loop (fuel : nat) (softAes unroll : Z) (st : lanes * lanes * mem) (ptr endp : Z)
  : result ((lanes * lanes * mem) * Z) :=
  if ptr <? endp then
    match fuel with
    | O => OutOfFuel
    | S fuel =>
        '(st, ptr) ← fused_body softAes unroll st ptr;
        fused_loop fuel softAes unroll st ptr endp
    end
  else mret (st, ptr).

(** The two passes of the outer loop: up to the prefetch distance before the
    end, then the rest. *)
Definition hashAndFillAes1Rx4 (softAes unroll : Z) (scratchpad : mem) (scratchpadSize : Z)
  (fill_state : mem) : result (mem * list Z * mem) :=
  fs ← load_lanes fill_state 0;
  let endp := scratchpadSize - PREFETCH_DISTANCE in
  '(st, ptr) ← fused_loop (Z.to_nat scratchpadSize) softAes unroll (hash_state_init, fs, scratchpad) 0 endp;
  '(st, ptr) ← fused_loop (Z.to_nat scratchpadSize) softAes unroll st ptr (endp + PREFETCH_DISTANCE);
  let '(hs, fs, scratchpad) := st in
  fill_state ← store_lanes fill_state 0 fs;
  mret (scratchpad, hash_finish hs, fill_state).

End Hash.

(** ** Rounds on whole buffers *)

Section Proofs.
Context `{A : AesRounds} `{L : !AesLaws A}.

Definition lanes_ok (s : lanes) : Prop := is_vec (l0 s) /\ is_vec (l1 s) /\ is_vec (l2 s) /\ is_vec (l3 s).

Lemma enc_ok v k : is_vec v -> is_vec k -> is_vec (aesenc v k).
Proof. intros Hv Hk. rewrite enc_fips by done. exact (proj1 (fips_vec v k Hv Hk)). Qed.
Lemma dec_ok v k : is_vec v -> is_vec k -> is_vec (aesdec v k).
Proof. intros Hv Hk. rewrite dec_fips by done. exact (proj2 (fips_vec v k Hv Hk)). Qed.

Lemma enc_dec_ok s k : lanes_ok s -> lanes_ok k -> lanes_ok (enc_dec s k).
Proof. intros (?&?&?&?) (?&?&?&?). unfold lanes_ok. simpl. auto using enc_ok, dec_ok. Qed.
Lemma dec_enc_ok s k : lanes_ok s -> lanes_ok k -> lanes_ok (dec_enc s k).
Proof. intros (?&?&?&?) (?&?&?&?). unfold lanes_ok. simpl. auto using enc_ok, dec_ok. Qed.

Lemma gen_keys_ok : lanes_ok gen_keys.
Proof. exact (conj (set_int_vec _ _ _ _) (conj (set_int_vec _ _ _ _)
  (conj (set_int_vec _ _ _ _) (set_int_vec _ _ _ _)))). Qed.
Lemma hash_init_ok : lanes_ok hash_state_init.
Proof. exact (conj (set_int_vec _ _ _ _) (conj (set_int_vec _ _ _ _)
  (conj (set_int_vec _ _ _ _) (set_int_vec _ _ _ _)))). Qed.
Lemma same_ok k : is_vec k -> lanes_ok (same k).
Proof. intros H. exact (conj H (conj H (conj H H))). Qed.

Lemma length_lanes s : lanes_ok s -> length (lanes_bytes s) = 64%nat.
Proof.
  intros ((H0 & _) & (H1 & _) & (H2 & _) & (H3 & _)). unfold lanes_bytes. rewrite !length_app. lia.
Qed.
Lemma lanes_bytes_u8 s : lanes_ok s -> Forall is_u8 (lanes_bytes s).
Proof.
  intros ((_ & H0) & (_ & H1) & (_ & H2) & (_ & H3)). unfold lanes_bytes.
  by repeat (apply Forall_app; split).
Qed.

(** The four vectors at [ptr]. *)
Definition lanes_at (m : mem) (ptr : Z) : lanes :=
  mk_lanes (chunk m ptr 16) (chunk m (ptr + 16) 16) (chunk m (ptr + 32) 16) (chunk m (ptr + 48) 16).

Lemma load_lanes_eq m ptr : 0 <= ptr -> ptr + 64 <= msize m -> load_lanes m ptr = Ok (lanes_at m ptr).
Proof. intros. unfold load_lanes. by rewrite !mload_ok by lia. Qed.

Lemma chunk_vec m ptr : 0 <= ptr -> ptr + 16 <= msize m -> Forall is_u8 m -> is_vec (chunk m ptr 16).
Proof. intros. split; [by rewrite length_chunk by lia|by apply chunk_bytes]. Qed.

Lemma lanes_at_ok m ptr : 0 <= ptr -> ptr + 64 <= msize m -> Forall is_u8 m -> lanes_ok (lanes_at m ptr).
Proof.
  intros. unfold lanes_ok, lanes_at. simpl. split_and!; apply chunk_vec; done || lia.
Qed.

Lemma store_lanes_eq m ptr s : lanes_ok s -> 0 <= ptr -> ptr + 64 <= msize m ->
  store_lanes m ptr s = Ok (splice m ptr (lanes_bytes s)).
Proof.
  intros ((H0 & _) & (H1 & _) & (H2 & _) & (H3 & _)) Hp Hs. unfold store_lanes, lanes_bytes.
  rewrite mstore_ok by lia. cbn [mbind result_bind].
  rewrite mstore_ok by (rewrite ?msize_splice; lia). cbn [mbind result_bind].
  replace (ptr + 16) with (ptr + Z.of_nat (length (l0 s))) by lia.
  rewrite splice_splice by (rewrite ?length_app; lia).
  rewrite mstore_ok by (rewrite ?msize_splice, ?length_app; rewrite ?length_app; lia).
  cbn [mbind result_bind].
  replace (ptr + 32) with (ptr + Z.of_nat (length (l0 s ++ l1 s))) by (rewrite length_app; lia).
  rewrite splice_splice by (rewrite ?length_app; lia).
  rewrite mstore_ok by (rewrite ?msize_splice, ?length_app; rewrite ?length_app; lia).
  replace (ptr + 48) with (ptr + Z.of_nat (length ((l0 s ++ l1 s) ++ l2 s))) by (rewrite !length_app; lia).
  rewrite splice_splice by (rewrite ?length_app; lia). by rewrite <- !app_assoc.
Qed.

(** [n] rounds of the hash, of the fill, and of both, from [ptr]. *)
Fixpoint H_iter (n : nat) (s : lanes) (m : mem) (ptr : Z) : lanes :=
  match n with O => s | S n => H_iter n (enc_dec s (lanes_at m ptr)) m (ptr + 64) end.
Fixpoint F_iter (n : nat) (s : lanes) (m : mem) (ptr : Z) : lanes * mem :=
  match n with
  | O => (s, m)
  | S n => let s := dec_enc s gen_keys in F_iter n s (splice m ptr (lanes_bytes s)) (ptr + 64)
  end.
Fixpoint HF_iter (n : nat) (st : lanes * lanes * mem) (ptr : Z) : lanes * lanes * mem :=
  match n with
  | O => st
  | S n =>
      let '(hs, fs, m) := st in
      let fs := dec_enc fs gen_keys in
      HF_iter n (enc_dec hs (lanes_at m ptr), fs, splice m ptr (lanes_bytes fs)) (ptr + 64)
  end.

Lemma hash_loop_eq fuel n s m ptr endp : 0 <= ptr -> ptr + 64 * Z.of_nat n = endp -> endp <= msize m ->
  (n <= fuel)%nat -> hash_loop fuel s m ptr endp = Ok (H_iter n s m ptr).
Proof.
  revert fuel s ptr. induction n as [|n IH]; intros fuel s ptr Hp He Hm Hf.
  - destruct fuel; simpl; by rewrite (proj2 (Z.ltb_ge _ _)) by lia.
  - destruct fuel as [|fuel]; [lia|]. cbn [hash_loop]. rewrite (proj2 (Z.ltb_lt _ _)) by lia.
    unfold HASH_STATE. rewrite load_lanes_eq by lia. cbn [mbind result_bind mret result_ret H_iter].
    apply IH; lia.
Qed.

Lemma splice_lanes_size m ptr s : lanes_ok s -> 0 <= ptr -> ptr + 64 <= msize m ->
  msize (splice m ptr (lanes_bytes s)) = msize m.
Proof. intros. apply msize_splice; rewrite ?length_lanes; done || lia. Qed.

Lemma fill_loop_eq fuel n s m ptr endp : lanes_ok s -> 0 <= ptr -> ptr + 64 * Z.of_nat n = endp ->
  endp <= msize m -> (n <= fuel)%nat -> fill_loop fuel s m ptr endp = Ok (F_iter n s m ptr).
Proof.
  revert fuel s m ptr. induction n as [|n IH]; intros fuel s m ptr Hs Hp He Hm Hf.
  - destruct fuel; simpl; by rewrite (proj2 (Z.ltb_ge _ _)) by lia.
  - destruct fuel as [|fuel]; [lia|]. cbn [fill_loop]. rewrite (proj2 (Z.ltb_lt _ _)) by lia.
    pose proof (dec_enc_ok s gen_keys Hs gen_keys_ok) as Hs'.
    unfold FILL_STATE. rewrite store_lanes_eq by (done || lia). cbn [mbind result_bind mret result_ret F_iter].
    apply IH; try done; try lia. rewrite splice_lanes_size; done || lia.
Qed.

Lemma F_iter_ok n s m ptr : lanes_ok s -> Forall is_u8 m -> 0 <= ptr -> ptr + 64 * Z.of_nat n <= msize m ->
  lanes_ok (F_iter n s m ptr).1 /\ msize (F_iter n s m ptr).2 = msize m /\ Forall is_u8 (F_iter n s m ptr).2.
Proof.
  revert s m ptr. induction n as [|n IH]; intros s m ptr Hs HB Hp Hm; [done|]. cbn [F_iter].
  pose proof (dec_enc_ok s gen_keys Hs gen_keys_ok) as Hs'.
  pose proof (splice_lanes_size m ptr _ Hs' ltac:(lia) ltac:(lia)) as Hsz.
  destruct (IH _ (splice m ptr (lanes_bytes (dec_enc s gen_keys))) (ptr + 64) Hs') as (? & ? & ?);
    [|lia|lia|].
  - apply splice_bytes; [done|by apply lanes_bytes_u8].
  - split_and!; [done|lia|done].
Qed.

Lemma H_iter_ok n s m ptr : lanes_ok s -> Forall is_u8 m -> 0 <= ptr -> ptr + 64 * Z.of_nat n <= msize m ->
  lanes_ok (H_iter n s m ptr).
Proof.
  revert s ptr. induction n as [|n IH]; intros s ptr Hs HB Hp Hm; [done|]. cbn [H_iter].
  apply IH; [|done|lia|lia]. apply enc_dec_ok; [done|]. apply lanes_at_ok; done || lia.
Qed.

(** What is hashed from [ptr] on does not depend on what was written before. *)
Lemma H_iter_frame n s m p bs ptr : 0 <= p -> p + Z.of_nat (length bs) <= msize m ->
  p + Z.of_nat (length bs) <= ptr -> H_iter n s (splice m p bs) ptr = H_iter n s m ptr.
Proof.
  revert s ptr. induction n as [|n IH]; intros s ptr Hp Hm Hptr; [done|]. simpl. rewrite IH by lia.
  f_equal. unfold lanes_at. by rewrite !chunk_splice_after by lia.
Qed.

(** Hashing each block just before it is overwritten is hashing the whole
    buffer and then filling it. *)
Lemma HF_iter_eq n hs fs m ptr : lanes_ok fs -> 0 <= ptr -> ptr + 64 * Z.of_nat n <= msize m ->
  HF_iter n (hs, fs, m) ptr = (H_iter n hs m ptr, (F_iter n fs m ptr).1, (F_iter n fs m ptr).2).
Proof.
  revert hs fs m ptr. induction n as [|n IH]; intros hs fs m ptr Hf Hp Hm; [done|]. simpl.
  pose proof (dec_enc_ok fs gen_keys Hf gen_keys_ok) as Hf'.
  rewrite IH; [|done|lia|rewrite splice_lanes_size; done || lia].
  rewrite H_iter_frame; [done|done|rewrite length_lanes by done; lia..].
Qed.

Lemma HF_iter_add n k st ptr : HF_iter (n + k) st ptr = HF_iter k (HF_iter n st ptr) (ptr + 64 * Z.of_nat n).
Proof.
  revert st ptr. induction n as [|n IH]; intros [[hs fs] m] ptr; simpl HF_iter at 2.
  - by rewrite Z.mul_0_r, Z.add_0_r.
  - simpl. rewrite IH. f_equal. lia.
Qed.

Definition fused_ok (st : lanes * lanes * mem) : Prop := lanes_ok st.1.2.

Lemma HF_iter_ok n st ptr : fused_ok st -> 0 <= ptr -> ptr + 64 * Z.of_nat n <= msize st.2 ->
  fused_ok (HF_iter n st ptr) /\ msize (HF_iter n st ptr).2 = msize st.2.
Proof.
  revert st ptr. induction n as [|n IH]; intros [[hs fs] m] ptr Hf Hp Hm; [done|]. simpl.
  pose proof (dec_enc_ok fs gen_keys Hf gen_keys_ok) as Hf'. simpl in Hm.
  destruct (IH (enc_dec hs (lanes_at m ptr), dec_enc fs gen_keys,
    splice m ptr (lanes_bytes (dec_enc fs gen_keys))) (ptr + 64)) as [H1 H2]; try done; try lia.
  - simpl. rewrite splice_lanes_size; done || lia.
  - split; [done|]. rewrite H2. simpl. apply splice_lanes_size; done || lia.
Qed.

Lemma hash_fill_eq st ptr : fused_ok st -> 0 <= ptr -> ptr + 64 <= msize st.2 ->
  hash_fill st ptr = Ok (HF_iter 1 st ptr).
Proof.
  destruct st as [[hs fs] m]. intros Hf Hp Hm. simpl in Hm. unfold hash_fill, HASH_STATE, FILL_STATE.
  rewrite load_lanes_eq by lia. cbn [mbind result_bind mret result_ret].
  rewrite store_lanes_eq; [done| |lia|lia]. by apply dec_enc_ok; [|apply gen_keys_ok].
Qed.

(** The number of 64-byte blocks one pass of the inner loop handles. *)
Definition blocks (softAes unroll : Z) : nat :=
  if softAes =? 0 then 2 else if unroll =? 4 then 4 else if unroll =? 2 then 2 else 1.

Lemma hash_fill_step n st ptr : fused_ok st -> 0 <= ptr ->
  ptr + 64 * Z.of_nat (S n) <= msize st.2 ->
  hash_fill (HF_iter n st ptr) (ptr + 64 * Z.of_nat n) = Ok (HF_iter (S n) st ptr).
Proof.
  intros Hf Hp Hm. destruct (HF_iter_ok n st ptr) as [Hf' Hm']; [done|done|lia|].
  rewrite hash_fill_eq by (done || lia).
  rewrite <- HF_iter_add. by replace (n + 1)%nat with (S n) by lia.
Qed.

(** Every variant of the body hashes and fills its blocks in order; the one
    for hardware AES hashes both of its blocks before it fills them. *)
Lemma fused_body_eq softAes unroll st ptr : fused_ok st -> 0 <= ptr ->
  ptr + 64 * Z.of_nat (blocks softAes unroll) <= msize st.2 ->
  fused_body softAes unroll st ptr =
    Ok (HF_iter (blocks softAes unroll) st ptr, ptr + 64 * Z.of_nat (blocks softAes unroll)).
Proof.
  intros Hf Hp. unfold fused_body, blocks. destruct (softAes =? 0).
  - destruct st as [[hs fs] m]. intros Hm. simpl in Hm. unfold HASH_STATE, FILL_STATE.
    pose proof (dec_enc_ok fs gen_keys Hf gen_keys_ok) as Hf1.
    pose proof (dec_enc_ok _ gen_keys Hf1 gen_keys_ok) as Hf2.
    rewrite !load_lanes_eq by lia. cbn [mbind result_bind mret result_ret].
    rewrite store_lanes_eq by (done || lia). cbn [mbind result_bind mret result_ret].
    rewrite store_lanes_eq by (rewrite ?splice_lanes_size; done || lia).
    cbn [mbind result_bind mret result_ret HF_iter]. do 5 f_equal.
    unfold lanes_at. by rewrite !chunk_splice_after by (rewrite ?length_lanes by done; lia).
  - change (ptr + 64) with (ptr + 64 * Z.of_nat 1). change (ptr + 128) with (ptr + 64 * Z.of_nat 2).
    change (ptr + 192) with (ptr + 64 * Z.of_nat 3).
    destruct (unroll =? 4); [|destruct (unroll =? 2)]; intros Hm.
    + rewrite hash_fill_eq by (done || lia). cbn [mbind result_bind].
      rewrite (hash_fill_step 1 st ptr) by (done || lia). cbn [mbind result_bind].
      rewrite (hash_fill_step 2 st ptr) by (done || lia). cbn [mbind result_bind].
      by rewrite (hash_fill_step 3 st ptr) by (done || lia).
    + rewrite hash_fill_eq by (done || lia). cbn [mbind result_bind].
      by rewrite (hash_fill_step 1 st ptr) by (done || lia).
    + by rewrite hash_fill_eq by (done || lia).
Qed.

Lemma blocks_pos softAes unroll : (0 < blocks softAes unroll)%nat.
Proof. unfold blocks. repeat case_match; lia. Qed.

Lemma fused_loop_eq softAes unroll q fuel st ptr endp : fused_ok st -> 0 <= ptr ->
  ptr + 64 * Z.of_nat (blocks softAes unroll * q) = endp -> endp <= msize st.2 -> (q <= fuel)%nat ->
  fused_loop fuel softAes unroll st ptr endp = Ok (HF_iter (blocks softAes unroll * q) st ptr, endp).
Proof.
  pose proof (blocks_pos softAes unroll) as Hb. set (u := blocks softAes unroll) in *.
  revert fuel st ptr. induction q as [|q IH]; intros fuel st ptr Hf Hp He Hm Hq.
  - rewrite Nat.mul_0_r in *. replace endp with ptr by lia.
    destruct fuel; cbn [fused_loop]; by rewrite Z.ltb_irrefl.
  - destruct fuel as [|fuel]; [lia|]. cbn [fused_loop]. rewrite (proj2 (Z.ltb_lt _ _)) by nia.
    rewrite fused_body_eq by (done || (fold u; nia)). fold u. cbn [mbind result_bind].
    destruct (HF_iter_ok u st ptr) as [Hf' Hm']; [done|done|nia|].
    rewrite IH; [|done|lia|nia|lia|lia]. rewrite <- HF_iter_add.
    by replace (u + u * q)%nat with (u * S q)%nat by lia.
Qed.

Lemma hashAndFill_eq softAes unroll scratchpad size fill_state :
  Forall is_u8 fill_state -> msize fill_state = 64 -> msize scratchpad = size ->
  PREFETCH_DISTANCE <= size -> size mod 256 = 0 ->
  exists hash state' pad', hashAes1Rx4 scratchpad size = Ok hash /\
    fillAes1Rx4 fill_state size scratchpad = Ok (state', pad') /\
    hashAndFillAes1Rx4 softAes unroll scratchpad size fill_state = Ok (pad', hash, state').
Proof.
  intros HB Hst Hpad Hmin Hmod. unfold PREFETCH_DISTANCE in Hmin.
  set (n := Z.to_nat (size / 64)).
  assert (size = 64 * Z.of_nat n /\ exists q1 q2, n = (blocks softAes unroll * q1 + blocks softAes unroll * q2)%nat
    /\ 64 * Z.of_nat (blocks softAes unroll * q1) = size - 7168) as (En & q1 & q2 & Eq & Eq1).
  { assert (size = 256 * (size / 256)) as E by (apply Z.div_exact; lia).
    assert (size / 64 = 4 * (size / 256)) as E4.
    { symmetry. apply (Z.div_unique _ _ _ 0); lia. }
    assert (28 <= size / 256) by (apply Z.div_le_lower_bound; lia). split; [lia|].
    assert (blocks softAes unroll = 1 \/ blocks softAes unroll = 2 \/ blocks softAes unroll = 4)%nat as Hb
      by (unfold blocks; repeat case_match; lia).
    set (k := Z.to_nat (size / 256)).
    destruct Hb as [->|[->| ->]];
      [exists (4 * (k - 28))%nat, 112%nat|exists (2 * (k - 28))%nat, 56%nat|exists (k - 28)%nat, 28%nat];
      split; lia. }
  assert (q1 <= Z.to_nat size /\ q2 <= Z.to_nat size)%nat as [Hq1 Hq2].
  { pose proof (blocks_pos softAes unroll). assert (q1 <= n /\ q2 <= n)%nat by nia. lia. }
  pose proof (lanes_at_ok fill_state 0 ltac:(lia) ltac:(lia) HB) as Hf.
  set (fs := lanes_at fill_state 0) in *.
  destruct (HF_iter_ok n (hash_state_init, fs, scratchpad) 0) as [Hf' _]; [done|lia|simpl; lia|].
  rewrite HF_iter_eq in Hf' by (done || lia). unfold fused_ok in Hf'. simpl in Hf'.
  unfold hashAes1Rx4, fillAes1Rx4, hashAndFillAes1Rx4.
  rewrite (hash_loop_eq _ n) by lia. rewrite load_lanes_eq by lia. cbn [mbind result_bind]. fold fs.
  rewrite (fill_loop_eq _ n) by (done || lia).
  destruct (F_iter n fs scratchpad 0) as [fs' pad'] eqn:EF. simpl in Hf'. cbn [mbind result_bind].
  rewrite store_lanes_eq by (done || lia). cbn [mbind result_bind mret result_ret].
  eexists _, _, _. split; [done|]. split; [done|].
  rewrite (fused_loop_eq softAes unroll q1); [|done|lia|unfold PREFETCH_DISTANCE; lia|unfold PREFETCH_DISTANCE; simpl; lia|done].
  cbn [mbind result_bind].
  destruct (HF_iter_ok (blocks softAes unroll * q1) (hash_state_init, fs, scratchpad) 0)
    as [Hf1 Hm1]; [done|lia|simpl; lia|].
  rewrite (fused_loop_eq softAes unroll q2); [|done|unfold PREFETCH_DISTANCE; lia| |rewrite Hm1; simpl; lia|].
  - cbn [mbind result_bind].
    replace (size - PREFETCH_DISTANCE) with (0 + 64 * Z.of_nat (blocks softAes unroll * q1))
      by (unfold PREFETCH_DISTANCE; lia).
    rewrite <- HF_iter_add, <- Eq, HF_iter_eq by (done || lia). rewrite EF. simpl.
    by rewrite store_lanes_eq by (done || lia).
  - unfold PREFETCH_DISTANCE. lia.
  - done.
Qed.

(** C13: hashing and refilling the scratchpad in one pass (any rounds that
    implement AES, any of the unrolled variants, with its split at the prefetch
    distance) gives the same hash, the same new scratchpad and the same
    generator state as [hashAes1Rx4] followed by [fillAes1Rx4]. *)
Theorem hashAndFill_fused softAes unroll scratchpad size fill_state :
  Forall is_u8 fill_state -> msize fill_state = 64 -> msize scratchpad = size ->
  PREFETCH_DISTANCE <= size -> size mod 256 = 0 ->
  exists hash state' pad', hashAes1Rx4 scratchpad size = Ok hash /\
    fillAes1Rx4 fill_state size scratchpad = Ok (state', pad') /\
    hashAndFillAes1Rx4 softAes unroll scratchpad size fill_state = Ok (pad', hash, state').
Proof. apply hashAndFill_eq. Qed.

(** ** The program generator *)

(** The bytes of the destination and source fields of the 8-byte instructions
    between [lo] and [hi] are register numbers. *)
Definition regs_masked (m : mem) (lo hi : Z) : Prop :=
  forall i, lo <= i < hi -> i mod 8 = 1 \/ i mod 8 = 2 ->
  exists b, m !! Z.to_nat i = Some b /\ 0 <= b <= 7.

Definition mask64 : list Z := inst_mask ++ inst_mask ++ inst_mask ++ inst_mask.

Lemma mask_bytes s : lanes_ok s -> lanes_bytes (mask_lanes s) = zip_with Z.land (lanes_bytes s) mask64.
Proof.
  intros ((H0 & _) & (H1 & _) & (H2 & _) & (H3 & _)). unfold lanes_bytes, mask64, mask_lanes.
  cbn [l0 l1 l2 l3]. unfold rx_and_vec_i128. by rewrite !zip_with_app by (rewrite ?H0, ?H1, ?H2; done).
Qed.

Lemma mask64_regs : forallb (fun j => implb ((j mod 8 =? 1)%nat || (j mod 8 =? 2)%nat)
  (bool_decide (mask64 !! j = Some 7))) (seq 0 64) = true.
Proof. reflexivity. Qed.

Lemma masked_lookup s j : lanes_ok s -> (j < 64)%nat -> (j mod 8 = 1 \/ j mod 8 = 2)%nat ->
  exists b, lanes_bytes (mask_lanes s) !! j = Some b /\ 0 <= b <= 7.
Proof.
  intros Hs Hj Hm. rewrite mask_bytes by done.
  destruct (lookup_lt_is_Some_2 (lanes_bytes s) j) as [x Hx]; [by rewrite length_lanes|].
  pose proof mask64_regs as HT. rewrite forallb_forall in HT. specialize (HT j).
  rewrite in_seq in HT. specialize (HT ltac:(lia)).
  assert (((j mod 8 =? 1)%nat || (j mod 8 =? 2)%nat) = true) as E.
  { destruct Hm as [-> | ->]; done. }
  rewrite E in HT. simpl in HT. apply bool_decide_eq_true_1 in HT.
  exists (Z.land x 7). split; [|apply land_le_r; lia].
  rewrite lookup_zip_with, Hx, HT. done.
Qed.

Lemma mask_lanes_ok s : lanes_ok s -> lanes_ok (mask_lanes s).
Proof.
  assert (forall v, is_vec v -> is_vec (rx_and_vec_i128 v inst_mask)) as Hv.
  { intros v [Hl HB]. unfold rx_and_vec_i128. split; [rewrite length_zip_with, Hl; done|].
    apply Forall_lookup_2. intros i x Hx.
    apply lookup_zip_with_Some in Hx as (y & z & -> & Hy & Hz).
    pose proof (Forall_lookup_1 _ _ _ _ HB Hy) as Hy'. rewrite Z.land_comm.
    pose proof (land_le_r z y ltac:(unfold is_u8 in Hy'; lia)). unfold is_u8 in *. lia. }
  intros (?&?&?&?). unfold lanes_ok. simpl. auto.
Qed.

Lemma regs_masked_splice m ptr s : lanes_ok s -> 128 <= ptr -> ptr mod 64 = 0 -> ptr + 64 <= msize m ->
  regs_masked m 128 ptr -> regs_masked (splice m ptr (lanes_bytes (mask_lanes s))) 128 (ptr + 64).
Proof.
  intros Hs Hp Hmod Hsz HR i Hi Hi8. pose proof (length_lanes _ (mask_lanes_ok s Hs)) as Hl.
  unfold splice, msize in *. destruct (Z.lt_ge_cases i ptr) as [Hlt|Hge].
  - destruct (HR i ltac:(lia) Hi8) as (b & Hb & Hr). exists b. split; [|done].
    rewrite lookup_app_l by (rewrite length_take; lia). by rewrite lookup_take_lt by lia.
  - set (j := Z.to_nat (i - ptr)).
    assert (Z.of_nat j mod 8 = i mod 8) as Ej.
    { assert (ptr = 64 * (ptr / 64)) as E by (apply Z.div_exact; lia).
      unfold j. rewrite Z2Nat.id by lia. replace (i - ptr) with (i + (- 8 * (ptr / 64)) * 8) by lia.
      by rewrite Z_mod_plus_full. }
    destruct (masked_lookup s j Hs) as (b & Hb & Hr); [lia| |].
    { rewrite <- Ej in Hi8. destruct Hi8 as [H8|H8]; [left|right]; apply Nat2Z.inj;
      rewrite Nat2Z.inj_mod; exact H8. }
    exists b. split; [|done]. rewrite lookup_app_r by (rewrite length_take; lia).
    rewrite length_take, lookup_app_l by lia.
    replace (Z.to_nat i - Z.to_nat ptr `min` length m)%nat with j by lia. exact Hb.
Qed.

Lemma TRANSFORM_ok key s : Forall is_vec key -> length key = 8%nat -> lanes_ok s ->
  lanes_ok (TRANSFORM key s).
Proof.
  intros Hk Hl Hs. assert (forall i, (i < 8)%nat -> is_vec (key !!! i)) as Hki.
  { intros i Hi. destruct (lookup_lt_is_Some_2 key i) as [k Ek]; [lia|].
    rewrite (list_lookup_total_correct _ _ _ Ek). by apply (Forall_lookup_1 _ _ _ _ Hk Ek). }
  unfold TRANSFORM. cbn [foldl].
  repeat (apply dec_enc_ok; [|unfold lanes_ok; cbn [l0 l1 l2 l3]; split_and!; apply Hki; lia]).
  exact Hs.
Qed.

Lemma fill4_loop_ok key fuel n s m ptr endp : Forall is_vec key -> length key = 8%nat -> lanes_ok s ->
  128 <= ptr -> ptr mod 64 = 0 -> ptr + 64 * Z.of_nat n = endp -> endp <= msize m -> (n <= fuel)%nat ->
  Forall is_u8 m -> regs_masked m 128 ptr ->
  returns (fill4_loop fuel key s m ptr endp)
    (fun m' => msize m' = msize m /\ Forall is_u8 m' /\ regs_masked m' 128 endp).
Proof.
  intros Hk Hkl. revert fuel s m ptr. induction n as [|n IH]; intros fuel s m ptr Hs Hp H64 He Hm Hf HB HR.
  - replace endp with ptr by lia.
    destruct fuel; cbn [fill4_loop]; rewrite Z.ltb_irrefl; done.
  - destruct fuel as [|fuel]; [lia|]. cbn [fill4_loop]. rewrite (proj2 (Z.ltb_lt _ _)) by lia.
    pose proof (TRANSFORM_ok key s Hk Hkl Hs) as Hs'.
    rewrite store_lanes_eq by (by apply mask_lanes_ok || lia). cbn [mbind result_bind].
    pose proof (splice_lanes_size m ptr _ (mask_lanes_ok _ Hs') ltac:(lia) ltac:(lia)) as Hsz.
    eapply returns_mono; [apply IH|].
    + done.
    + lia.
    + rewrite Zplus_mod, H64. reflexivity.
    + lia.
    + lia.
    + lia.
    + apply splice_bytes; [done|]. by apply lanes_bytes_u8, mask_lanes_ok.
    + apply regs_masked_splice; done || lia.
    + intros m' (H1 & H2 & H3). split; [lia|done].
Qed.

Lemma fillAes4Rx4_returns key state size buffer :
  Forall is_vec key -> length key = 8%nat -> Forall is_u8 state -> msize state = 64 ->
  Forall is_u8 buffer -> size <= msize buffer -> 128 <= size -> size mod 64 = 0 ->
  returns (fillAes4Rx4 key state size buffer)
    (fun out => msize out = msize buffer /\ Forall is_u8 out /\ regs_masked out 128 size).
Proof.
  intros Hk Hkl Hst Hsl HB Hsz Hmin Hmod. unfold fillAes4Rx4.
  rewrite load_lanes_eq by lia. cbn [mbind result_bind].
  pose proof (TRANSFORM_ok key _ Hk Hkl (lanes_at_ok state 0 ltac:(lia) ltac:(lia) Hst)) as Hs1.
  pose proof (TRANSFORM_ok key _ Hk Hkl Hs1) as Hs2.
  set (s1 := TRANSFORM key (lanes_at state 0)) in *. set (s2 := TRANSFORM key s1) in *.
  rewrite store_lanes_eq by (done || lia). cbn [mbind result_bind].
  pose proof (splice_lanes_size buffer 0 s1 Hs1 ltac:(lia) ltac:(lia)) as Hm1.
  rewrite store_lanes_eq by (done || lia). cbn [mbind result_bind].
  pose proof (splice_lanes_size (splice buffer 0 (lanes_bytes s1)) 64 s2 Hs2 ltac:(lia) ltac:(lia)) as Hm2.
  assert (size = 64 * (size / 64)) as E by (apply Z.div_exact; lia).
  eapply returns_mono; [apply (fill4_loop_ok key _ (Z.to_nat (size / 64 - 2))); try done; try lia|].
  - repeat apply splice_bytes; try done; by apply lanes_bytes_u8.
  - intros i Hi. lia.
  - intros out (H1 & H2 & H3). split; [lia|done].
Qed.

(** [fillAes4Rx4] fills the program buffer completely, and every
    instruction after the 128 bytes of entropy names registers below 8. *)
Theorem fillAes4Rx4_registers key state size buffer :
  Forall is_vec key -> length key = 8%nat -> Forall is_u8 state -> msize state = 64 ->
  Forall is_u8 buffer -> size <= msize buffer -> 128 <= size -> size mod 64 = 0 ->
  returns (fillAes4Rx4 key state size buffer)
    (fun out => msize out = msize buffer /\ Forall is_u8 out /\ regs_masked out 128 size).
Proof. apply fillAes4Rx4_returns. Qed.

End Proofs.

(** ** The implementation of the rounds does not matter *)

Section Independence.
Context (A : AesRounds) `{L : !AesLaws A}.

Lemma enc_dec_hard s k : lanes_ok s -> enc_dec (A := A) s k = enc_dec (A := hard) s k.
Proof. intros (?&?&?&?). unfold enc_dec. by rewrite !enc_fips, !dec_fips by done. Qed.
Lemma dec_enc_hard s k : lanes_ok s -> dec_enc (A := A) s k = dec_enc (A := hard) s k.
Proof. intros (?&?&?&?). unfold dec_enc. by rewrite !enc_fips, !dec_fips by done. Qed.

Lemma H_iter_hard n s m ptr : lanes_ok s -> Forall is_u8 m -> 0 <= ptr ->
  ptr + 64 * Z.of_nat n <= msize m ->
  H_iter (A := A) n s m ptr = H_iter (A := hard) n s m ptr /\ lanes_ok (H_iter (A := A) n s m ptr).
Proof.
  revert s ptr. induction n as [|n IH]; intros s ptr Hs HB Hp Hm; [done|]. simpl.
  rewrite <- enc_dec_hard by done. apply IH; try done; try lia.
  apply enc_dec_ok; [done|]. apply lanes_at_ok; done || lia.
Qed.

Lemma F_iter_hard n s m ptr : lanes_ok s -> F_iter (A := A) n s m ptr = F_iter (A := hard) n s m ptr.
Proof.
  revert s m ptr. induction n as [|n IH]; intros s m ptr Hs; [done|]. simpl.
  rewrite <- dec_enc_hard by done. apply IH. apply dec_enc_ok; [done|apply gen_keys_ok].
Qed.

Lemma hash_fill_hard input size state buffer :
  Forall is_u8 input -> msize input = size -> size mod 64 = 0 ->
  Forall is_u8 state -> msize state = 64 -> msize buffer = size ->
  hashAes1Rx4 (A := A) input size = hashAes1Rx4 (A := hard) input size /\
  fillAes1Rx4 (A := A) state size buffer = fillAes1Rx4 (A := hard) state size buffer.
Proof.
  intros HB Hsz Hmod HS HSz Hbuf. set (n := Z.to_nat (size / 64)).
  assert (size = 64 * Z.of_nat n) as En.
  { assert (size = 64 * (size / 64)) by (apply Z.div_exact; lia). unfold msize in Hsz. lia. }
  unfold hashAes1Rx4, fillAes1Rx4. split.
  - rewrite (hash_loop_eq (A := A) _ n), (hash_loop_eq (A := hard) _ n) by lia.
    destruct (H_iter_hard n hash_state_init input 0) as [E Hok];
      [apply hash_init_ok|done|lia|lia|]. cbn [mbind result_bind]. rewrite <- E.
    unfold hash_finish. rewrite <- !enc_dec_hard; [done|done|].
    apply enc_dec_ok; [done|]. apply same_ok, set_int_vec.
  - rewrite load_lanes_eq by lia. cbn [mbind result_bind].
    pose proof (lanes_at_ok state 0 ltac:(lia) ltac:(lia) HS) as Hs.
    rewrite (fill_loop_eq (A := A) _ n), (fill_loop_eq (A := hard) _ n) by (done || lia).
    by rewrite F_iter_hard.
Qed.

Lemma TRANSFORM_hard key s : Forall is_vec key -> length key = 8%nat -> lanes_ok s ->
  TRANSFORM (A := A) key s = TRANSFORM (A := hard) key s.
Proof.
  intros Hk Hl Hs. assert (forall i, (i < 8)%nat -> is_vec (key !!! i)) as Hki.
  { intros i Hi. destruct (lookup_lt_is_Some_2 key i) as [k Ek]; [lia|].
    rewrite (list_lookup_total_correct _ _ _ Ek). by apply (Forall_lookup_1 _ _ _ _ Hk Ek). }
  unfold TRANSFORM. cbn [foldl].
  assert (forall s i, (i < 4)%nat -> lanes_ok s ->
    lanes_ok (dec_enc (A := A) s (mk_lanes (key !!! i) (key !!! i) (key !!! (i + 4)%nat) (key !!! (i + 4)%nat)))) as Hstep.
  { intros s' i Hi Hs'. apply dec_enc_ok; [done|]. unfold lanes_ok. cbn [l0 l1 l2 l3].
    split_and!; apply Hki; lia. }
  rewrite <- (dec_enc_hard s) by done.
  rewrite <- (dec_enc_hard (dec_enc (A := A) s _)) by (apply (Hstep s 0%nat); [lia|done]).
  rewrite <- (dec_enc_hard (dec_enc (A := A) (dec_enc (A := A) s _) _))
    by (apply (Hstep _ 1%nat); [lia|]; apply (Hstep s 0%nat); [lia|done]).
  rewrite <- dec_enc_hard; [done|].
  apply (Hstep _ 2%nat); [lia|]. apply (Hstep _ 1%nat); [lia|]. apply (Hstep s 0%nat); [lia|done].
Qed.

Lemma fill4_loop_hard key fuel s m ptr endp : Forall is_vec key -> length key = 8%nat -> lanes_ok s ->
  fill4_loop (A := A) fuel key s m ptr endp = fill4_loop (A := hard) fuel key s m ptr endp.
Proof.
  intros Hk Hkl. revert s m ptr. induction fuel as [|fuel IH]; intros s m ptr Hs; [done|]. cbn [fill4_loop].
  destruct (ptr <? endp); [|done]. rewrite <- TRANSFORM_hard by done.
  pose proof (TRANSFORM_ok (A := A) key s Hk Hkl Hs) as Hs'.
  destruct (store_lanes m ptr (mask_lanes (TRANSFORM key s))) as [m'| |]; [|done|done]. by apply IH.
Qed.

Lemma fillAes4Rx4_hard key state size buffer : Forall is_vec key -> length key = 8%nat ->
  Forall is_u8 state -> msize state = 64 ->
  fillAes4Rx4 (A := A) key state size buffer = fillAes4Rx4 (A := hard) key state size buffer.
Proof.
  intros Hk Hkl HS HSz. unfold fillAes4Rx4. rewrite load_lanes_eq by lia. cbn [mbind result_bind].
  pose proof (lanes_at_ok state 0 ltac:(lia) ltac:(lia) HS) as Hs0.
  pose proof (TRANSFORM_ok (A := A) key _ Hk Hkl Hs0) as Hs1.
  pose proof (TRANSFORM_ok (A := A) key _ Hk Hkl Hs1) as Hs2.
  rewrite <- (TRANSFORM_hard key (lanes_at state 0)) by done.
  rewrite <- (TRANSFORM_hard key (TRANSFORM (A := A) key (lanes_at state 0))) by done.
  destruct (store_lanes buffer 0 _) as [b1| |]; [|done|done]. cbn [mbind result_bind].
  destruct (store_lanes b1 64 _) as [b2| |]; [|done|done]. cbn [mbind result_bind]. by apply fill4_loop_hard.
Qed.

(** The hash of a buffer and the bytes generated from a state are the
    same for every implementation of the AES round that meets FIPS 197, so a
    miner without AES instructions computes the hashes of one with them. *)
Theorem aes_implementation_independent input size state buffer :
  Forall is_u8 input -> msize input = size -> size mod 64 = 0 ->
  Forall is_u8 state -> msize state = 64 -> msize buffer = size ->
  hashAes1Rx4 (A := A) input size = hashAes1Rx4 (A := hard) input size /\
  fillAes1Rx4 (A := A) state size buffer = fillAes1Rx4 (A := hard) state size buffer.
Proof. apply hash_fill_hard. Qed.

End Independence.

Lemma hashAndFill_fused_witness :
  let pad := replicate (Z.to_nat 8192) 7 in
  exists hash state' pad', hashAes1Rx4 (A := soft1) pad 8192 = Ok hash /\
    fillAes1Rx4 (A := soft1) (replicate 64 5) 8192 pad = Ok (state', pad') /\
    hashAndFillAes1Rx4 (A := soft1) 2 4 pad 8192 (replicate 64 5) = Ok (pad', hash, state').
Proof.
  apply (hashAndFill_fused (A := soft1) 2 4 (replicate (Z.to_nat 8192) 7) 8192 (replicate 64 5)).
  - apply Forall_replicate. unfold is_u8. lia.
  - reflexivity.
  - unfold msize. rewrite length_replicate. lia.
  - unfold PREFETCH_DISTANCE. lia.
  - reflexivity.
Defined.

Lemma fillAes4Rx4_registers_witness :
  let key := replicate 8 AES_GEN_1R_KEY0 in
  returns (fillAes4Rx4 (A := soft2) key (replicate 64 9) 192 (replicate 192 0))
    (fun out => msize out = 192 /\ Forall is_u8 out /\ regs_masked out 128 192).
Proof.
  apply (fillAes4Rx4_registers (A := soft2) (replicate 8 AES_GEN_1R_KEY0) (replicate 64 9) 192 (replicate 192 0)).
  - apply Forall_replicate, set_int_vec.
  - reflexivity.
  - apply Forall_replicate. unfold is_u8. lia.
  - reflexivity.
  - apply Forall_replicate. unfold is_u8. lia.
  - discriminate.
  - lia.
  - reflexivity.
Defined.

Lemma aes_implementation_independent_witness :
  hashAes1Rx4 (A := soft2) (replicate 128 3) 128 = hashAes1Rx4 (A := hard) (replicate 128 3) 128.
Proof.
  apply (aes_implementation_independent soft2 (replicate 128 3) 128 (replicate 64 1) (replicate 128 0)).
  - apply Forall_replicate. unfold is_u8. lia.
  - reflexivity.
  - reflexivity.
  - apply Forall_replicate. unfold is_u8. lia.
  - reflexivity.
  - reflexivity.
Defined.

End AesHash.
