(* ===== verification/Float64.v ===== *)
(** * Double precision arithmetic on bit patterns

    The [double] operations the virtual machine uses (addition, subtraction,
    multiplication, division, square root, conversion of a 32-bit integer)
    under the four rounding modes of IEEE 754, as functions on 64-bit words.
    Every operation computes an exact integer scaled by a power of two, with a
    sticky bit for quotients and roots, and rounds it once.  A result that is
    not a number is the default quiet NaN. *)
From Stdlib Require Import ZArith Lia.
From stdpp Require Import base numbers.
From S2P Require Import Prelude.
Open Scope Z_scope.

Module Float64.

(** The constants of intrin_portable.h. *)
Definition RoundToNearest : Z := 0.
Definition RoundDown : Z := 1.
Definition RoundUp : Z := 2.
Definition RoundToZero : Z := 3.

(** A double: not a number, an infinity, or [m * 2^e] with a sign. *)
Inductive f64 := NaN | Inf (s : bool) | Fin (s : bool) (m e : Z).

Definition decode (x : Z) : f64 :=
  let s := Z.testbit x 63 in
  let ex := Z.land (Z.shiftr x 52) 0x7FF in
  let fr := Z.land x (2 ^ 52 - 1) in
  if ex =? 0x7FF then (if fr =? 0 then Inf s else NaN)
  else if ex =? 0 then Fin s fr (-1074)
  else Fin s (fr + 2 ^ 52) (ex - 1075).

Definition sign_bit (s : bool) : Z := if s then 2 ^ 63 else 0.
Definition qnan : Z := 0x7FF8000000000000.
Definition inf_bits (s : bool) : Z := sign_bit s + 0x7FF0000000000000.
Definition max_bits (s : bool) : Z := sign_bit s + 0x7FEFFFFFFFFFFFFF.

(** Whether a discarded part [r] out of [2^k] rounds the kept part [q] away
    from zero. *)
Definition round_up (mode : Z) (s : bool) (q r k : Z) : bool :=
  if mode =? RoundToNearest then
    let half := 2 ^ (k - 1) in (half <? r) || ((half =? r) && Z.odd q)
  else if mode =? RoundDown then s && negb (r =? 0)
  else if mode =? RoundUp then negb s && negb (r =? 0)
  else false.

Definition overflow (mode : Z) (s : bool) : Z :=
  if mode =? RoundToNearest then inf_bits s
  else if mode =? RoundDown then (if s then inf_bits s else max_bits s)
  else if mode =? RoundUp then (if s then max_bits s else inf_bits s)
  else max_bits s.

(** The double nearest to [m * 2^e] in the direction [mode]: keep 53 bits, or
    fewer at the bottom of the exponent range. *)
Definition pack (mode : Z) (s : bool) (m e : Z) : Z :=
  if m =? 0 then sign_bit s
  else
    let e' := Z.max (e + Z.log2 m + 1 - 53) (-1074) in
    let m' :=
      if e' <=? e then Z.shiftl m (e - e')
      else
        let k := e' - e in
        let q := Z.shiftr m k in
        let r := m - Z.shiftl q k in
        if round_up mode s q r k then q + 1 else q in
    let '(m', e') := if m' =? 2 ^ 53 then (2 ^ 52, e' + 1) else (m', e') in
    if m' <? 2 ^ 52 then sign_bit s + m'
    else if e' + 1075 >=? 0x7FF then overflow mode s
    else sign_bit s + Z.shiftl (e' + 1075) 52 + (m' - 2 ^ 52).

Definition value (s : bool) (m : Z) : Z := if s then - m else m.

Definition f_add (mode a b : Z) : Z :=
  match decode a, decode b with
  | NaN, _ | _, NaN => qnan
  | Inf s, Inf s' => if eqb s s' then inf_bits s else qnan
  | Inf s, _ | _, Inf s => inf_bits s
  | Fin s m e, Fin s' m' e' =>
      let lo := Z.min e e' in
      let z := value s (Z.shiftl m (e - lo)) + value s' (Z.shiftl m' (e' - lo)) in
      if z =? 0 then sign_bit (if eqb s s' then s else mode =? RoundDown)
      else pack mode (z <? 0) (Z.abs z) lo
  end.

(** [a - b] is [a + (-b)]. *)
Definition f_sub (mode a b : Z) : Z := f_add mode a (Z.lxor b (2 ^ 63)).

Definition f_mul (mode a b : Z) : Z :=
  match decode a, decode b with
  | NaN, _ | _, NaN => qnan
  | Inf s, Inf s' => inf_bits (xorb s s')
  | Inf s, Fin s' m _ | Fin s' m _, Inf s => if m =? 0 then qnan else inf_bits (xorb s s')
  | Fin s m e, Fin s' m' e' => pack mode (xorb s s') (m * m') (e + e')
  end.

(** 110 extra bits give a quotient of at least 57; the last bit is sticky. *)
Definition f_div (mode a b : Z) : Z :=
  match decode a, decode b with
  | NaN, _ | _, NaN => qnan
  | Inf s, Inf s' => qnan
  | Inf s, Fin s' _ _ => inf_bits (xorb s s')
  | Fin s _ _, Inf s' => sign_bit (xorb s s')
  | Fin s m e, Fin s' m' e' =>
      if m' =? 0 then (if m =? 0 then qnan else inf_bits (xorb s s'))
      else
        let n := Z.shiftl m 110 in
        let q := n / m' in
        let sticky := if n mod m' =? 0 then 0 else 1 in
        pack mode (xorb s s') (2 * q + sticky) (e - e' - 111)
  end.

(** An even exponent, 120 extra bits, and a sticky bit. *)
Definition f_sqrt (mode a : Z) : Z :=
  match decode a with
  | NaN => qnan
  | Inf s => if s then qnan else inf_bits false
  | Fin s m e =>
      if m =? 0 then sign_bit s
      else if s then qnan
      else
        let '(m, e) := if Z.odd e then (2 * m, e - 1) else (m, e) in
        let n := Z.shiftl m 120 in
        let q := Z.sqrt n in
        let sticky := if q * q =? n then 0 else 1 in
        pack mode false (2 * q + sticky) ((e - 120) / 2 - 1)
  end.

(** [(double)x] of a 32-bit integer, which is exact. *)
Definition f_of_int32 (x : Z) : Z := pack RoundToNearest (x <? 0) (Z.abs x) 0.

(** ** Every result is a 64-bit word *)

Section Range.

Lemma sign_bit_range s x : 0 <= x < 2 ^ 63 -> is_u64 (sign_bit s + x).
Proof. unfold is_u64, sign_bit. destruct s; lia. Qed.

Lemma sign_range s : is_u64 (sign_bit s).
Proof. unfold is_u64, sign_bit. destruct s; lia. Qed.

Lemma inf_range s : is_u64 (inf_bits s).
Proof. apply sign_bit_range. lia. Qed.

Lemma max_range s : is_u64 (max_bits s).
Proof. apply sign_bit_range. lia. Qed.

Lemma qnan_range : is_u64 qnan.
Proof. unfold is_u64, qnan. lia. Qed.

Lemma overflow_range mode s : is_u64 (overflow mode s).
Proof. unfold overflow. repeat case_match; apply inf_range || apply max_range. Qed.

(** The rounded significand of [pack] has at most 53 bits, or is 2^53. *)
Lemma significand_range mode s m e : 0 < m ->
  let e' := Z.max (e + Z.log2 m + 1 - 53) (-1074) in
  0 <= (if e' <=? e then Z.shiftl m (e - e')
        else if round_up mode s (Z.shiftr m (e' - e)) (m - Z.shiftl (Z.shiftr m (e' - e)) (e' - e)) (e' - e)
        then Z.shiftr m (e' - e) + 1 else Z.shiftr m (e' - e)) <= 2 ^ 53.
Proof.
  intros Hm e'. destruct (Z.log2_spec m Hm) as [_ Hlog]. pose proof (Z.log2_nonneg m).
  assert (e + Z.log2 m + 1 - 53 <= e') as He by lia.
  destruct (Z.leb_spec e' e) as [Hle|Hgt].
  - rewrite Z.shiftl_mul_pow2 by lia. split; [apply Z.mul_nonneg_nonneg; [lia|apply Z.pow_nonneg; lia]|].
    apply Z.le_trans with (2 ^ Z.succ (Z.log2 m) * 2 ^ (e - e')).
    + apply Z.mul_le_mono_nonneg_r; [apply Z.pow_nonneg; lia|lia].
    + rewrite <- Z.pow_add_r by lia. apply Z.pow_le_mono_r; lia.
  - assert (0 <= Z.shiftr m (e' - e) < 2 ^ 53) as Hq.
    { rewrite Z.shiftr_div_pow2 by lia. pose proof (Z.pow_pos_nonneg 2 (e' - e) ltac:(lia) ltac:(lia)).
      split; [apply Z.div_pos; lia|]. apply Z.div_lt_upper_bound; [lia|].
      rewrite <- Z.pow_add_r by lia. eapply Z.lt_le_trans; [exact Hlog|]. apply Z.pow_le_mono_r; lia. }
    case_match; lia.
Qed.

Lemma pack_range mode s m e : 0 <= m -> is_u64 (pack mode s m e).
Proof.
  intros Hm. unfold pack. destruct (Z.eqb_spec m 0) as [|Hne]; [apply sign_range|].
  pose proof (significand_range mode s m e ltac:(lia)) as Hs. cbv zeta in Hs.
  set (e' := Z.max (e + Z.log2 m + 1 - 53) (-1074)) in *.
  set (m' := if e' <=? e then _ else _) in *.
  assert (0 <= m' <= 2 ^ 53 /\ -1074 <= e') as [Hm' He'] by (split; [exact Hs|lia]).
  destruct (Z.eqb_spec m' (2 ^ 53)) as [|Hn];
    [destruct (Z.ltb_spec (2 ^ 52) (2 ^ 52))|destruct (Z.ltb_spec m' (2 ^ 52))];
    try (apply sign_bit_range; lia).
  all: match goal with |- context [?x >=? 0x7FF] => destruct (Z.geb_spec x 0x7FF) end;
    [apply overflow_range|].
  all: rewrite <- Z.add_assoc, Z.shiftl_mul_pow2 by lia; apply sign_bit_range; lia.
Qed.

Lemma f_add_range mode a b : is_u64 (f_add mode a b).
Proof.
  unfold f_add. repeat case_match;
    first [apply qnan_range | apply inf_range | apply sign_range | apply pack_range; lia].
Qed.

Lemma f_sub_range mode a b : is_u64 (f_sub mode a b).
Proof. apply f_add_range. Qed.

Lemma decode_nonneg x s m e : decode x = Fin s m e -> 0 <= m.
Proof.
  unfold decode. pose proof (land_le_r x (2 ^ 52 - 1) ltac:(lia)).
  repeat case_match; intros E; inversion E; lia.
Qed.

Lemma f_mul_range mode a b : is_u64 (f_mul mode a b).
Proof.
  unfold f_mul. destruct (decode a) as [|?|? m ?] eqn:Ea, (decode b) as [|?|? m' ?] eqn:Eb;
    try case_match; try apply qnan_range; try apply inf_range.
  apply pack_range. apply decode_nonneg in Ea, Eb. lia.
Qed.

Lemma f_div_range mode a b : is_u64 (f_div mode a b).
Proof.
  unfold f_div. destruct (decode a) as [|?|? m ?] eqn:Ea, (decode b) as [|?|? m' ?] eqn:Eb;
    try apply qnan_range; try apply inf_range; try apply sign_range.
  apply decode_nonneg in Ea, Eb. destruct (Z.eqb_spec m' 0); [case_match; apply qnan_range || apply inf_range|].
  apply pack_range. rewrite Z.shiftl_mul_pow2 by lia.
  assert (0 <= m * 2 ^ 110 / m') by (apply Z.div_pos; lia). case_match; lia.
Qed.

Lemma f_sqrt_range mode a : is_u64 (f_sqrt mode a).
Proof.
  unfold f_sqrt. destruct (decode a) as [|s|s m e]; [apply qnan_range|case_match; apply qnan_range || apply inf_range|].
  destruct (m =? 0); [apply sign_range|]. destruct s; [apply qnan_range|]. destruct (Z.odd e);
    apply pack_range; match goal with |- context [Z.sqrt ?n] => pose proof (Z.sqrt_nonneg n) end; case_match; lia.
Qed.

Lemma f_of_int32_range x : is_u64 (f_of_int32 x).
Proof. apply pack_range. lia. Qed.

End Range.

End Float64.
