(* ===== verification/Config.v ===== *)
(** * RandomX configurations (crypto/randomx/randomx.h, randomx.cpp)

    The parameters of the six coin variants, the address masks [Apply] derives
    from them, and the conditions on a configuration that the commented-out
    [static_assert]s of common.hpp state: scratchpad levels that are nested
    powers of two and instruction frequencies that sum to 256. *)
From Stdlib Require Import ZArith Lia.
From stdpp Require Import base numbers list.
From S2P Require Import Prelude SoftAes.
Open Scope Z_scope.

Module Config.

(** [enum class InstructionType], in order. *)
Inductive InstructionType :=
| IADD_RS | IADD_M | ISUB_R | ISUB_M | IMUL_R | IMUL_M | IMULH_R | IMULH_M | ISMULH_R | ISMULH_M
| IMUL_RCP | INEG_R | IXOR_R | IXOR_M | IROR_R | IROL_R | ISWAP_R | FSWAP_R | FADD_R | FADD_M
| FSUB_R | FSUB_M | FSCAL_R | FMUL_R | FDIV_M | FSQRT_R | CBRANCH | CFROUND | ISTORE | NOP.

#[export] Instance itype_eq_dec : EqDecision InstructionType.
Proof. solve_decision. Defined.

Definition all_types : list InstructionType :=
  [IADD_RS; IADD_M; ISUB_R; ISUB_M; IMUL_R; IMUL_M; IMULH_R; IMULH_M; ISMULH_R; ISMULH_M;
   IMUL_RCP; INEG_R; IXOR_R; IXOR_M; IROR_R; IROL_R; ISWAP_R; FSWAP_R; FADD_R; FADD_M;
   FSUB_R; FSUB_M; FSCAL_R; FMUL_R; FDIV_M; FSQRT_R; CBRANCH; CFROUND; ISTORE; NOP].

Record RandomX_Configuration := mk_config {
  ArgonIterations : Z; ArgonLanes : Z; ArgonSalt : list Z; SuperscalarLatency : Z;
  ScratchpadL1_Size : Z; ScratchpadL2_Size : Z; ScratchpadL3_Size : Z;
  ProgramSize : Z; ProgramIterations : Z; ProgramCount : Z;
  RANDOMX_FREQ : InstructionType -> Z; fillAes4Rx4_Key : list vec }.

(** [enum Params], common to all variants. *)
Definition ArgonMemory : Z := 262144.
Definition CacheAccesses : Z := 8.
Definition DatasetBaseSize : Z := 2147483648.
Definition DatasetExtraSize : Z := 33554368.
Definition JumpBits : Z := 8.
Definition JumpOffset : Z := 8.
Definition RANDOMX_DATASET_ITEM_SIZE : Z := 64.
Definition RANDOMX_PROGRAM_MAX_SIZE : Z := 280.
Definition CacheLineAlignMask : Z :=
  Z.land (DatasetBaseSize - 1) (Z.lnot (RANDOMX_DATASET_ITEM_SIZE - 1)).
Definition DatasetExtraItems : Z := DatasetExtraSize / RANDOMX_DATASET_ITEM_SIZE.
Definition ConditionMask : Z := Z.shiftl (Z.shiftl 1 JumpBits - 1) JumpOffset.

Definition base_freq (t : InstructionType) : Z :=
  match t with
  | IADD_RS => 16 | IADD_M => 7 | ISUB_R => 16 | ISUB_M => 7 | IMUL_R => 16 | IMUL_M => 4
  | IMULH_R => 4 | IMULH_M => 1 | ISMULH_R => 4 | ISMULH_M => 1 | IMUL_RCP => 8 | INEG_R => 2
  | IXOR_R => 15 | IXOR_M => 5 | IROR_R => 8 | IROL_R => 2 | ISWAP_R => 4 | FSWAP_R => 4
  | FADD_R => 16 | FADD_M => 5 | FSUB_R => 16 | FSUB_M => 5 | FSCAL_R => 6 | FMUL_R => 32
  | FDIV_M => 4 | FSQRT_R => 6 | CBRANCH => 25 | CFROUND => 1 | ISTORE => 16 | NOP => 0
  end.

(** The salts are the bytes of the C strings. *)
Definition Base : RandomX_Configuration :=
  mk_config 3 1 [82; 97; 110; 100; 111; 109; 88; 3] 170 16384 262144 2097152 256 2048 8 base_freq
    [rx_set_int_vec_i128 0x99e5d23f 0x2f546d2b 0xd1833ddb 0x6421aadd;
     rx_set_int_vec_i128 0xa5dfcde5 0x06f79d53 0xb6913f55 0xb20e3450;
     rx_set_int_vec_i128 0x171c02bf 0x0aa4679f 0x515e7baf 0x5c3ed904;
     rx_set_int_vec_i128 0xd8ded291 0xcd673785 0xe78f5d08 0x85623763;
     rx_set_int_vec_i128 0x229effb4 0x3d518b6d 0xe3d6a7a6 0xb5826f73;
     rx_set_int_vec_i128 0xb272b7d2 0xe9024d4e 0x9c10b3d9 0xc7566bf3;
     rx_set_int_vec_i128 0xf63befa7 0x2ba9660a 0xf765a38b 0xf273c9e7;
     rx_set_int_vec_i128 0xc0b0762d 0x0c06d1fd 0x915839de 0x7a7cd609].

Definition Monero : RandomX_Configuration := Base.

Definition Wownero : RandomX_Configuration :=
  let k0 := rx_set_int_vec_i128 0xcf359e95 0x141f82b7 0x7ffbe4a6 0xf890465d in
  let k1 := rx_set_int_vec_i128 0x6741ffdc 0xbd5c5ac3 0xfee8278a 0x6a55c450 in
  let k2 := rx_set_int_vec_i128 0x3d324aac 0xa7279ad2 0xd524fde4 0x114c47a4 in
  let k3 := rx_set_int_vec_i128 0x76f6db08 0x42d3dbd9 0x99a9aeff 0x810c3a2a in
  mk_config (ArgonIterations Base) (ArgonLanes Base) [82; 97; 110; 100; 111; 109; 87; 79; 87; 1]
    (SuperscalarLatency Base) (ScratchpadL1_Size Base) 131072 1048576 (ProgramSize Base) 1024 16
    (fun t => match t with
       | IADD_RS => 25 | IROR_R => 10 | IROL_R => 0 | FSWAP_R => 8 | FADD_R => 20 | FSUB_R => 20
       | FMUL_R => 20 | CBRANCH => 16 | _ => base_freq t end)
    [k0; k1; k2; k3; k0; k1; k2; k3].

Definition Arqma : RandomX_Configuration :=
  mk_config 1 (ArgonLanes Base) [82; 97; 110; 100; 111; 109; 65; 82; 81; 1] (SuperscalarLatency Base)
    (ScratchpadL1_Size Base) 131072 262144 (ProgramSize Base) 1024 4 base_freq (fillAes4Rx4_Key Base).

Definition Graft : RandomX_Configuration :=
  mk_config (ArgonIterations Base) 2 [82; 97; 110; 100; 111; 109; 88; 45; 71; 114; 97; 102; 116; 1]
    (SuperscalarLatency Base) (ScratchpadL1_Size Base) (ScratchpadL2_Size Base) (ScratchpadL3_Size Base)
    280 (ProgramIterations Base) (ProgramCount Base)
    (fun t => match t with IROR_R => 7 | IROL_R => 3 | _ => base_freq t end) (fillAes4Rx4_Key Base).

Definition Safex : RandomX_Configuration :=
  mk_config (ArgonIterations Base) (ArgonLanes Base) [82; 97; 110; 100; 111; 109; 83; 70; 88; 1]
    (SuperscalarLatency Base) (ScratchpadL1_Size Base) (ScratchpadL2_Size Base) (ScratchpadL3_Size Base)
    (ProgramSize Base) (ProgramIterations Base) (ProgramCount Base) base_freq (fillAes4Rx4_Key Base).

Definition Yada : RandomX_Configuration :=
  mk_config 4 (ArgonLanes Base)
    [82; 97; 110; 100; 111; 109; 88; 89; 97; 100; 97; 67; 111; 105; 110; 3] 150
    (ScratchpadL1_Size Base) (ScratchpadL2_Size Base) (ScratchpadL3_Size Base)
    (ProgramSize Base) (ProgramIterations Base) (ProgramCount Base) base_freq (fillAes4Rx4_Key Base).

(** The masks computed by [Apply], in 32-bit arithmetic. *)
Definition ScratchpadL1Mask (c : RandomX_Configuration) : Z := u32 ((ScratchpadL1_Size c / 8 - 1) * 8).
Definition ScratchpadL2Mask (c : RandomX_Configuration) : Z := u32 ((ScratchpadL2_Size c / 8 - 1) * 8).
Definition AddressMask (c : RandomX_Configuration) : list Z :=
  [ScratchpadL2Mask c; ScratchpadL1Mask c; ScratchpadL1Mask c; ScratchpadL1Mask c].
Definition ScratchpadL3Mask (c : RandomX_Configuration) : Z := u32 ((ScratchpadL3_Size c / 8 - 1) * 8).
Definition ScratchpadL3Mask64 (c : RandomX_Configuration) : Z :=
  u32 ((ScratchpadL3_Size c / 8 / 8 - 1) * 64).

(** ** Well-formed configurations *)

Definition freq_sum (c : RandomX_Configuration) (l : list InstructionType) : Z :=
  foldr (fun t s => RANDOMX_FREQ c t + s) 0 l.

Record wf (c : RandomX_Configuration) : Prop := {
  wf_l1 : 64 <= ScratchpadL1_Size c <= ScratchpadL2_Size c;
  wf_l2 : ScratchpadL2_Size c <= ScratchpadL3_Size c < 2 ^ 32;
  wf_l3 : 7168 <= ScratchpadL3_Size c;
  wf_mod : ScratchpadL1_Size c mod 64 = 0 /\ ScratchpadL2_Size c mod 64 = 0 /\
           ScratchpadL3_Size c mod 256 = 0;
  wf_prog : 0 < ProgramSize c <= RANDOMX_PROGRAM_MAX_SIZE /\ ProgramSize c mod 8 = 0;
  wf_iter : 0 < ProgramIterations c /\ 0 < ProgramCount c;
  wf_lat : 0 < SuperscalarLatency c <= 256;
  wf_freq : freq_sum c all_types = 256;
  wf_freq_pos : forall t, 0 <= RANDOMX_FREQ c t;
  wf_keys : length (fillAes4Rx4_Key c) = 8%nat /\ Forall is_vec (fillAes4Rx4_Key c) }.

Definition variants : list RandomX_Configuration := [Monero; Wownero; Arqma; Graft; Safex; Yada].

Lemma variant_keys c : c ∈ variants -> Forall is_vec (fillAes4Rx4_Key c).
Proof.
  intros Hc. unfold variants in Hc.
  repeat (apply elem_of_cons in Hc as [->|Hc];
    [repeat (apply Forall_cons_2; [apply SoftAes.set_int_vec|]); apply Forall_nil_2|]).
  by apply elem_of_nil in Hc.
Qed.

(** Every variant the miner ships is well formed. *)
Lemma variants_wf c : c ∈ variants -> wf c.
Proof.
  intros Hc. pose proof (variant_keys c Hc) as Hk. unfold variants in Hc.
  repeat (apply elem_of_cons in Hc as [->|Hc]; [split; simpl; try (unfold RANDOMX_PROGRAM_MAX_SIZE; lia); try reflexivity;
    try (intros []; simpl; lia); split; done || lia|]).
  by apply elem_of_nil in Hc.
Qed.

(** A mask keeps an address and the 8 (or 64) bytes after it in the level. *)
Lemma mask8_eq n : 64 <= n < 2 ^ 32 -> n mod 64 = 0 -> u32 ((n / 8 - 1) * 8) = n - 8.
Proof.
  intros Hn Hm. assert (n = 64 * (n / 64)) as E by (apply Z.div_exact; lia).
  assert (n / 8 = 8 * (n / 64)) as ->. { symmetry. apply (Z.div_unique _ _ _ 0); lia. }
  rewrite u32_id by (unfold is_u32; lia). lia.
Qed.

Lemma mask64_eq n : 64 <= n < 2 ^ 32 -> n mod 64 = 0 -> u32 ((n / 8 / 8 - 1) * 64) = n - 64.
Proof.
  intros Hn Hm. assert (n = 64 * (n / 64)) as E by (apply Z.div_exact; lia).
  rewrite Zdiv_Zdiv by lia. change (8 * 8) with 64.
  rewrite u32_id by (unfold is_u32; lia). lia.
Qed.

Lemma mod_256_64 n : n mod 256 = 0 -> n mod 64 = 0.
Proof.
  intros H. assert (n = 256 * (n / 256)) as -> by (apply Z.div_exact; lia).
  replace (256 * (n / 256)) with (4 * (n / 256) * 64) by lia. apply Z_mod_mult.
Qed.

Section Masks.
Context (c : RandomX_Configuration) (Hc : wf c).

Lemma prog_size_range : 0 < ProgramSize c <= 280 /\ ProgramSize c mod 8 = 0.
Proof. exact (wf_prog c Hc). Qed.

Lemma AddressMask_range : Forall (fun m => 0 <= m <= ScratchpadL3_Size c - 8) (AddressMask c).
Proof.
  destruct Hc as [H1 H2 H3 (M1 & M2 & M3) _ _ _ _ _ _].
  unfold AddressMask, ScratchpadL1Mask, ScratchpadL2Mask. rewrite !mask8_eq by lia.
  repeat (apply Forall_cons_2; [lia|]). apply Forall_nil_2.
Qed.

Lemma L3Mask_range : 0 <= ScratchpadL3Mask c <= ScratchpadL3_Size c - 8.
Proof.
  destruct Hc as [H1 H2 H3 (M1 & M2 & M3) _ _ _ _ _ _]. apply mod_256_64 in M3.
  unfold ScratchpadL3Mask. rewrite mask8_eq; lia.
Qed.

Lemma L3Mask64_range : 0 <= ScratchpadL3Mask64 c <= ScratchpadL3_Size c - 64.
Proof.
  destruct Hc as [H1 H2 H3 (M1 & M2 & M3) _ _ _ _ _ _]. apply mod_256_64 in M3.
  unfold ScratchpadL3Mask64. rewrite mask64_eq; lia.
Qed.

End Masks.

End Config.
