(* ===== verification/Algorithm.v ===== *)
(** * Algorithms (base/crypto/Algorithm.h, Algorithm.cpp, crypto/rx/RxAlgo.cpp)

    The identifiers of the algorithms, which encode family and memory sizes, the
    tables of names and aliases with every feature of the build enabled, and the
    RandomX configuration an identifier selects. *)
From Stdlib Require Import ZArith Lia String Ascii.
From stdpp Require Import base numbers list.
From S2P Require Import Prelude Config.
Import Config.Config.
Open Scope string_scope.
Open Scope Z_scope.

Module Algorithm.

Inductive Id :=
  | INVALID | CN_0 | CN_1 | CN_2 | CN_R | CN_FAST | CN_HALF | CN_XAO | CN_RTO | CN_RWZ | CN_ZLS | CN_DOUBLE
  | CN_CCX | CN_LITE_0 | CN_LITE_1 | CN_HEAVY_0 | CN_HEAVY_TUBE | CN_HEAVY_XHV | CN_PICO_0 | CN_PICO_TLO
  | CN_UPX2 | CN_GR_0 | CN_GR_1 | CN_GR_2 | CN_GR_3 | CN_GR_4 | CN_GR_5 | GHOSTRIDER_RTM | RX_0 | RX_WOW
  | RX_ARQ | RX_GRAFT | RX_SFX | RX_YADA | AR2_CHUKWA | AR2_CHUKWA_V2 | AR2_WRKZ | KAWPOW_RVN.

Definition code (id : Id) : Z :=
  match id with
  | INVALID => 0 | CN_0 => 0x63150000 | CN_1 => 0x63150100 | CN_2 => 0x63150200 | CN_R => 0x63150272
  | CN_FAST => 0x63150166 | CN_HALF => 0x63150268 | CN_XAO => 0x63150078 | CN_RTO => 0x63150172
  | CN_RWZ => 0x63150277 | CN_ZLS => 0x6315027a | CN_DOUBLE => 0x63150264 | CN_CCX => 0x63150063
  | CN_LITE_0 => 0x63140000 | CN_LITE_1 => 0x63140100 | CN_HEAVY_0 => 0x63160000
  | CN_HEAVY_TUBE => 0x63160172 | CN_HEAVY_XHV => 0x63160068 | CN_PICO_0 => 0x63120200
  | CN_PICO_TLO => 0x63120274 | CN_UPX2 => 0x63110200 | CN_GR_0 => 0x63130100 | CN_GR_1 => 0x63130101
  | CN_GR_2 => 0x63150102 | CN_GR_3 => 0x63140103 | CN_GR_4 => 0x63120104 | CN_GR_5 => 0x63120105
  | GHOSTRIDER_RTM => 0x6c150000 | RX_0 => 0x72151200 | RX_WOW => 0x72141177 | RX_ARQ => 0x72121061
  | RX_GRAFT => 0x72151267 | RX_SFX => 0x72151273 | RX_YADA => 0x72151279 | AR2_CHUKWA => 0x61130000
  | AR2_CHUKWA_V2 => 0x61140000 | AR2_WRKZ => 0x61120000 | KAWPOW_RVN => 0x6b0f0000
  end.

Definition id_eqb (a b : Id) : bool := code a =? code b.

(** [enum Family] *)
Definition UNKNOWN : Z := 0.
Definition CN_ANY : Z := 0x63000000.
Definition CN_HEAVY : Z := 0x63160000.
Definition RANDOM_X : Z := 0x72000000.
Definition KAWPOW : Z := 0x6b000000.
Definition GHOSTRIDER : Z := 0x6c000000.

Definition isCN (id : Id) : bool := Z.land (code id) 0xff000000 =? CN_ANY.
Definition family (id : Id) : Z := Z.land (code id) (if isCN id then 0xffff0000 else 0xff000000).
Definition base (id : Id) : Z := if isCN id then Z.lor (code CN_0) (Z.land (code id) 0xff00) else 0.
Definition l2 (id : Id) : Z := if family id =? RANDOM_X then Z.shiftl 1 (Z.land (Z.shiftr (code id) 8) 0xff) else 0.
Definition l3 (id : Id) : Z := Z.shiftl 1 (Z.land (Z.shiftr (code id) 16) 0xff).
Definition isValid (id : Id) : bool := negb (id_eqb id INVALID) && (UNKNOWN <? family id).
Definition minIntensity (id : Id) : Z := if id_eqb id GHOSTRIDER_RTM then 8 else 1.
Definition maxIntensity (id : Id) : Z := if isCN id then 5 else if id_eqb id GHOSTRIDER_RTM then 8 else 1.

Definition kAlgorithmNames : list (Id * string) := [
  (CN_0, "cn/0"); (CN_1, "cn/1"); (CN_2, "cn/2"); (CN_R, "cn/r"); (CN_FAST, "cn/fast"); (CN_HALF, "cn/half");
  (CN_XAO, "cn/xao"); (CN_RTO, "cn/rto"); (CN_RWZ, "cn/rwz"); (CN_ZLS, "cn/zls"); (CN_DOUBLE, "cn/double");
  (CN_CCX, "cn/ccx"); (CN_LITE_0, "cn-lite/0"); (CN_LITE_1, "cn-lite/1"); (CN_HEAVY_0, "cn-heavy/0");
  (CN_HEAVY_TUBE, "cn-heavy/tube"); (CN_HEAVY_XHV, "cn-heavy/xhv"); (CN_PICO_0, "cn-pico");
  (CN_PICO_TLO, "cn-pico/tlo"); (CN_UPX2, "cn/upx2"); (RX_0, "rx/0"); (RX_WOW, "rx/wow"); (RX_ARQ, "rx/arq");
  (RX_GRAFT, "rx/graft"); (RX_SFX, "rx/sfx"); (RX_YADA, "rx/yada"); (AR2_CHUKWA, "argon2/chukwa");
  (AR2_CHUKWA_V2, "argon2/chukwav2"); (AR2_WRKZ, "argon2/ninja"); (KAWPOW_RVN, "kawpow");
  (GHOSTRIDER_RTM, "ghostrider")].

Definition kAlgorithmAliases : list (string * Id) := [
  ("cn/0", CN_0); ("cryptonight/0", CN_0); ("cryptonight", CN_0); ("cn", CN_0); ("cn/1", CN_1);
  ("cryptonight/1", CN_1); ("cryptonight-monerov7", CN_1); ("cryptonight_v7", CN_1); ("cn/2", CN_2);
  ("cryptonight/2", CN_2); ("cryptonight-monerov8", CN_2); ("cryptonight_v8", CN_2); ("cn/fast", CN_FAST);
  ("cryptonight/fast", CN_FAST); ("cryptonight/msr", CN_FAST); ("cn/msr", CN_FAST); ("cn/r", CN_R);
  ("cryptonight/r", CN_R); ("cryptonight_r", CN_R); ("cn/xao", CN_XAO); ("cryptonight/xao", CN_XAO);
  ("cryptonight_alloy", CN_XAO); ("cn/half", CN_HALF); ("cryptonight/half", CN_HALF); ("cn/rto", CN_RTO);
  ("cryptonight/rto", CN_RTO); ("cn/rwz", CN_RWZ); ("cryptonight/rwz", CN_RWZ); ("cn/zls", CN_ZLS);
  ("cryptonight/zls", CN_ZLS); ("cn/double", CN_DOUBLE); ("cryptonight/double", CN_DOUBLE);
  ("cn/ccx", CN_CCX); ("cryptonight/ccx", CN_CCX); ("cryptonight/conceal", CN_CCX); ("cn/conceal", CN_CCX);
  ("cn-lite/0", CN_LITE_0); ("cryptonight-lite/0", CN_LITE_0); ("cryptonight-lite", CN_LITE_0);
  ("cryptonight-light", CN_LITE_0); ("cn-lite", CN_LITE_0); ("cn-light", CN_LITE_0);
  ("cryptonight_lite", CN_LITE_0); ("cn-lite/1", CN_LITE_1); ("cryptonight-lite/1", CN_LITE_1);
  ("cryptonight-aeonv7", CN_LITE_1); ("cryptonight_lite_v7", CN_LITE_1); ("cn-heavy/0", CN_HEAVY_0);
  ("cryptonight-heavy/0", CN_HEAVY_0); ("cryptonight-heavy", CN_HEAVY_0); ("cn-heavy", CN_HEAVY_0);
  ("cryptonight_heavy", CN_HEAVY_0); ("cn-heavy/xhv", CN_HEAVY_XHV); ("cryptonight-heavy/xhv", CN_HEAVY_XHV);
  ("cryptonight_haven", CN_HEAVY_XHV); ("cn-heavy/tube", CN_HEAVY_TUBE);
  ("cryptonight-heavy/tube", CN_HEAVY_TUBE); ("cryptonight-bittube2", CN_HEAVY_TUBE); ("cn-pico", CN_PICO_0);
  ("cryptonight-pico", CN_PICO_0); ("cn-pico/0", CN_PICO_0); ("cryptonight-pico/trtl", CN_PICO_0);
  ("cn-pico/trtl", CN_PICO_0); ("cryptonight-turtle", CN_PICO_0); ("cn-trtl", CN_PICO_0);
  ("cryptonight-ultralite", CN_PICO_0); ("cn-ultralite", CN_PICO_0); ("cryptonight_turtle", CN_PICO_0);
  ("cn_turtle", CN_PICO_0); ("cn-pico/tlo", CN_PICO_TLO); ("cryptonight-pico/tlo", CN_PICO_TLO);
  ("cryptonight/ultra", CN_PICO_TLO); ("cn/ultra", CN_PICO_TLO); ("cryptonight-talleo", CN_PICO_TLO);
  ("cn-talleo", CN_PICO_TLO); ("cryptonight_talleo", CN_PICO_TLO); ("cn_talleo", CN_PICO_TLO);
  ("cn/upx2", CN_UPX2); ("cryptonight/upx2", CN_UPX2); ("cn-extremelite/upx2", CN_UPX2);
  ("cryptonight-upx/2", CN_UPX2); ("rx/0", RX_0); ("randomx/0", RX_0); ("randomx/test", RX_0);
  ("rx/test", RX_0); ("randomx", RX_0); ("rx", RX_0); ("rx/wow", RX_WOW); ("randomx/wow", RX_WOW);
  ("randomwow", RX_WOW); ("rx/arq", RX_ARQ); ("randomx/arq", RX_ARQ); ("randomarq", RX_ARQ);
  ("rx/graft", RX_GRAFT); ("randomx/graft", RX_GRAFT); ("randomgraft", RX_GRAFT); ("rx/sfx", RX_SFX);
  ("randomx/sfx", RX_SFX); ("randomsfx", RX_SFX); ("rx/yada", RX_YADA); ("randomx/yada", RX_YADA);
  ("randomyada", RX_YADA); ("argon2/chukwa", AR2_CHUKWA); ("chukwa", AR2_CHUKWA);
  ("argon2/chukwav2", AR2_CHUKWA_V2); ("chukwav2", AR2_CHUKWA); ("argon2/ninja", AR2_WRKZ);
  ("argon2/wrkz", AR2_WRKZ); ("kawpow", KAWPOW_RVN); ("kawpow/rvn", KAWPOW_RVN);
  ("ghostrider", GHOSTRIDER_RTM); ("ghostrider/rtm", GHOSTRIDER_RTM); ("gr", GHOSTRIDER_RTM)].

Definition kINVALID : string := "invalid".

Fixpoint find_name (l : list (Id * string)) (id : Id) : option string :=
  match l with
  | [] => None
  | (k, n) :: l => if id_eqb k id then Some n else find_name l id
  end.

(** [Algorithm::Algorithm(uint32_t id)] *)
Definition of_id (id : Z) : Id :=
  match List.find (fun p => code p.1 =? id) kAlgorithmNames with Some (i, _) => i | None => INVALID end.

Definition name (id : Id) : string := if isValid id then default kINVALID (find_name kAlgorithmNames id) else kINVALID.

(** [tolower] in the C locale *)
Definition lower (c : ascii) : ascii :=
  let n := N_of_ascii c in if ((65 <=? n) && (n <=? 90))%N then ascii_of_N (n + 32) else c.

(** [strcasecmp(a, b) == 0] *)
Fixpoint strcaseeq (a b : string) : bool :=
  match a, b with
  | EmptyString, EmptyString => true
  | String x a, String y b => Ascii.eqb (lower x) (lower y) && strcaseeq a b
  | _, _ => false
  end.

(** The first of several equal keys is the one the map keeps. *)
Fixpoint find_alias (l : list (string * Id)) (n : string) : option Id :=
  match l with
  | [] => None
  | (k, id) :: l => if strcaseeq k n then Some id else find_alias l n
  end.

Definition parse (name : option string) : Id :=
  match name with
  | None | Some EmptyString => INVALID
  | Some n => default INVALID (find_alias kAlgorithmAliases n)
  end.

Definition order : list Id := [
  CN_0; CN_1; CN_2; CN_R; CN_FAST; CN_HALF; CN_XAO; CN_RTO; CN_RWZ; CN_ZLS; CN_DOUBLE; CN_CCX; CN_LITE_0;
  CN_LITE_1; CN_HEAVY_0; CN_HEAVY_TUBE; CN_HEAVY_XHV; CN_PICO_0; CN_PICO_TLO; CN_UPX2; RX_0; RX_WOW; RX_ARQ;
  RX_GRAFT; RX_SFX; RX_YADA; AR2_CHUKWA; AR2_CHUKWA_V2; AR2_WRKZ; KAWPOW_RVN; GHOSTRIDER_RTM].

Definition all (filter : Id -> bool) : list Id :=
  List.filter (fun id => match find_name kAlgorithmNames id with Some _ => filter id | None => false end) order.

(** ** crypto/rx/RxAlgo.cpp *)

Definition rx_base (algorithm : Id) : RandomX_Configuration :=
  match algorithm with
  | RX_WOW => Wownero
  | RX_ARQ => Arqma
  | RX_GRAFT => Graft
  | RX_SFX => Safex
  | RX_YADA => Yada
  | _ => Monero
  end.
Definition version (algorithm : Id) : Z := if id_eqb algorithm RX_WOW then 103 else 104.
Definition programCount (algorithm : Id) : Z := ProgramCount (rx_base algorithm).
Definition programIterations (algorithm : Id) : Z := ProgramIterations (rx_base algorithm).
Definition programSize (algorithm : Id) : Z := ProgramSize (rx_base algorithm).
Definition rx_id (algorithm : Id) : Id := match algorithm with RX_SFX => RX_0 | a => a end.

(** ** Names *)

(** The letters of a name without their case. *)
Fixpoint fold_case (s : string) : string :=
  match s with EmptyString => EmptyString | String c s => String (lower c) (fold_case s) end.

Lemma strcaseeq_fold a b : strcaseeq a b = String.eqb (fold_case a) (fold_case b).
Proof.
  revert b. induction a as [|x a IH]; intros [|y b]; cbn [strcaseeq fold_case String.eqb]; try done.
  rewrite IH. by destruct (Ascii.eqb (lower x) (lower y)).
Qed.

Ltac each_id :=
  apply List.Forall_forall;
  match goal with |- List.Forall _ ?l => let l' := eval vm_compute in l in change l with l' end;
  repeat (apply List.Forall_cons; [vm_compute; repeat split; reflexivity|]); apply List.Forall_nil.

(** Every algorithm the program lists has a name that parses back to it and
    an identifier that the numeric constructor accepts, each is listed once, and
    names are the same whatever the case of their letters. *)
Theorem algorithm_names_correct :
  (forall id, In id (all (fun _ => true)) -> parse (Some (name id)) = id /\ of_id (code id) = id /\ isValid id = true) /\
  NoDup (all (fun _ => true)) /\ length (all (fun _ => true)) = length kAlgorithmNames /\
  (forall a b, fold_case a = fold_case b -> parse (Some a) = parse (Some b)).
Proof.
  split; [|split; [|split]].
  - each_id.
  - apply (NoDup_fmap_1 code). apply (bool_decide_unpack (NoDup (code <$> all (fun _ => true)))). vm_compute. exact I.
  - reflexivity.
  - intros a b E. assert (forall l, find_alias l a = find_alias l b) as Hf.
    { induction l as [|[k id] l IH]; [done|]. cbn [find_alias]. rewrite !strcaseeq_fold, E, IH. done. }
    destruct a, b; try done. unfold parse. by rewrite Hf.
Qed.

(** The short alias of the second Chukwa version names the first. *)
Lemma chukwav2_alias : parse (Some "chukwav2") = AR2_CHUKWA /\ parse (Some "argon2/chukwav2") = AR2_CHUKWA_V2.
Proof. split; reflexivity. Qed.

(** ** Sizes *)

(** The scratchpad sizes that a RandomX identifier encodes are those of the
    configuration it selects, except the second level of RandomARQ, where the
    identifier says half of it. *)
Theorem randomx_sizes_agree : forall id, In id (all (fun a => family a =? RANDOM_X)) ->
  l3 id = ScratchpadL3_Size (rx_base id) /\
  l2 id = (if id_eqb id RX_ARQ then ScratchpadL2_Size (rx_base id) / 2 else ScratchpadL2_Size (rx_base id)).
Proof. each_id. Qed.

Lemma randomx_sizes_agree_witness : l3 RX_WOW = 1048576 /\ l3 RX_WOW = ScratchpadL3_Size (rx_base RX_WOW).
Proof.
  split; [reflexivity|]. refine (proj1 (randomx_sizes_agree RX_WOW _)). vm_compute. tauto.
Defined.

End Algorithm.
