(* ===== verification/Job.v ===== *)
(** * Jobs (base/net/stratum/Job.h, Job.cpp)

    A job is what a pool or daemon gives the workers: the blob to hash, where its
    nonce is, the target and the seed of the dataset.  The model has the fields of
    the miner's build (those of the proxy are left out) and every operation of the
    class but the miner signature, which needs the curve arithmetic.  Strings from
    the pool are their bytes before the terminator, [None] the null pointer. *)
From Stdlib Require Import ZArith Lia.
From stdpp Require Import base numbers list.
From S2P Require Import Prelude Memory Cvt Algorithm.
Import Algorithm.Algorithm.
Open Scope Z_scope.

Module Job.

Definition kMaxBlobSize : Z := 408.
Definition kMaxSeedSize : Z := 32.

(** A null or a non-null string. *)
Abbreviation str := (option mem).
Definition str_size (s : str) : Z := match s with Some s => msize s | None => 0 end.
Definition isEmpty (s : str) : bool := str_size s =? 0.
Definition isNull (s : str) : bool := match s with Some _ => false | None => true end.
Definition isEqual_str (a b : str) : bool := bool_decide (a = b).

Record Job := mk_job {
  m_algorithm : Id; m_nicehash : bool; m_seed : mem; m_size : Z;
  m_clientId : str; m_extraNonce : str; m_id : str; m_poolWallet : str;
  m_backend : Z; m_diff : Z; m_height : Z; m_target : Z; m_blob : mem; m_index : Z; m_lmtNative : bool;
  m_ephPublicKey : mem; m_ephSecretKey : mem; m_hasMinerSignature : bool; m_benchSize : Z }.

(** [Job(bool nicehash, const Algorithm &algorithm, const String &clientId)] *)
Definition make (nicehash : bool) (algorithm : Id) (clientId : str) : Job :=
  mk_job algorithm nicehash [] 0 clientId None None None 0 0 0 0 (replicate 408 0) 0 false
    (replicate 32 0) (replicate 32 0) false 0.

(** [Job() = default] *)
Definition empty : Job := make false INVALID None.

(** ** Reading a job *)

Definition isEqualBlob (a b : Job) : bool :=
  (m_size a =? m_size b) && bool_decide (take (Z.to_nat (m_size a)) (m_blob a) = take (Z.to_nat (m_size a)) (m_blob b)).

Definition isEqual (a b : Job) : bool :=
  isEqual_str (m_id a) (m_id b) && isEqual_str (m_clientId a) (m_clientId b) && isEqualBlob a b &&
  (m_target a =? m_target b).

Definition isValid (j : Job) : bool := ((0 <? m_size j) && (0 <? m_diff j)) || negb (isEmpty (m_poolWallet j)).

Definition nonceSize (j : Job) : Z := if family (m_algorithm j) =? KAWPOW then 8 else 4.

Definition nonceOffset (j : Job) : Z :=
  if m_lmtNative j then 40
  else if family (m_algorithm j) =? KAWPOW then 32
  else if family (m_algorithm j) =? GHOSTRIDER then 76
  else if id_eqb (m_algorithm j) RX_YADA then 147
  else 39.

(** [readUnaligned(nonce())] *)
Definition read_nonce (j : Job) : result Z := mload32 (m_blob j) (nonceOffset j).

(** Shifting a 64-bit word by 64 or more is undefined. *)
Definition nonceMask (j : Job) : result Z :=
  if m_nicehash j then mret 0xFFFFFF
  else if nonceSize j =? 8 then
    let n := str_size (m_extraNonce j) * 4 in
    if 64 <=? n then Fault else mret (Z.shiftr 0xFFFFFFFFFFFFFFFF n)
  else mret 0xFFFFFFFF.

Definition fixedByte (j : Job) : result Z := aget (m_blob j) 42.

Definition toDiff (target : Z) : Z := if target =? 0 then 0 else 0xFFFFFFFFFFFFFFFF / target.

(** The varint at the end of a hashing blob; [n] bytes are left of it. *)
Fixpoint tx_loop (n : nat) (blob : mem) (i k num_transactions : Z) : result Z :=
  match n with
  | O => mret num_transactions
  | S n =>
      b ← aget blob i;
      let num_transactions := Z.lor num_transactions (u32 (Z.shiftl (Z.land b 0x7F) k)) in
      if Z.land b 0x80 =? 0 then mret num_transactions else tx_loop n blob (i + 1) (k + 7) num_transactions
  end.

Definition getNumTransactions (j : Job) : result Z :=
  if negb (isCN (m_algorithm j) || (family (m_algorithm j) =? RANDOM_X)) then mret 0
  else
    let expected_tx_offset := if id_eqb (m_algorithm j) RX_WOW then 141 else 75 in
    if (expected_tx_offset <? m_size j) && (m_size j <=? expected_tx_offset + 4) then
      tx_loop (Z.to_nat (m_size j - expected_tx_offset)) (m_blob j) expected_tx_offset 0 0
    else mret 0.

(** ** Changing a job *)

Definition set_blob (j : Job) (blob : mem) : Job :=
  mk_job (m_algorithm j) (m_nicehash j) (m_seed j) (m_size j) (m_clientId j) (m_extraNonce j) (m_id j) (m_poolWallet j)
    (m_backend j) (m_diff j) (m_height j) (m_target j) blob (m_index j) (m_lmtNative j) (m_ephPublicKey j)
    (m_ephSecretKey j) (m_hasMinerSignature j) (m_benchSize j).

Definition set_nicehash (j : Job) (nicehash : bool) : Job :=
  mk_job (m_algorithm j) nicehash (m_seed j) (m_size j) (m_clientId j) (m_extraNonce j) (m_id j) (m_poolWallet j)
    (m_backend j) (m_diff j) (m_height j) (m_target j) (m_blob j) (m_index j) (m_lmtNative j) (m_ephPublicKey j)
    (m_ephSecretKey j) (m_hasMinerSignature j) (m_benchSize j).

Definition set_size (j : Job) (size : Z) (lmtNative : bool) : Job :=
  mk_job (m_algorithm j) (m_nicehash j) (m_seed j) size (m_clientId j) (m_extraNonce j) (m_id j) (m_poolWallet j)
    (m_backend j) (m_diff j) (m_height j) (m_target j) (m_blob j) (m_index j) lmtNative (m_ephPublicKey j)
    (m_ephSecretKey j) (m_hasMinerSignature j) (m_benchSize j).

Definition set_seed (j : Job) (seed : mem) : Job :=
  mk_job (m_algorithm j) (m_nicehash j) seed (m_size j) (m_clientId j) (m_extraNonce j) (m_id j) (m_poolWallet j)
    (m_backend j) (m_diff j) (m_height j) (m_target j) (m_blob j) (m_index j) (m_lmtNative j) (m_ephPublicKey j)
    (m_ephSecretKey j) (m_hasMinerSignature j) (m_benchSize j).

Definition set_difficulty (j : Job) (diff target : Z) : Job :=
  mk_job (m_algorithm j) (m_nicehash j) (m_seed j) (m_size j) (m_clientId j) (m_extraNonce j) (m_id j) (m_poolWallet j)
    (m_backend j) diff (m_height j) target (m_blob j) (m_index j) (m_lmtNative j) (m_ephPublicKey j)
    (m_ephSecretKey j) (m_hasMinerSignature j) (m_benchSize j).

Definition setBackend (j : Job) (backend : Z) : Job :=
  mk_job (m_algorithm j) (m_nicehash j) (m_seed j) (m_size j) (m_clientId j) (m_extraNonce j) (m_id j) (m_poolWallet j)
    backend (m_diff j) (m_height j) (m_target j) (m_blob j) (m_index j) (m_lmtNative j) (m_ephPublicKey j)
    (m_ephSecretKey j) (m_hasMinerSignature j) (m_benchSize j).

Definition setId (j : Job) (id : str) : Job :=
  mk_job
    (m_algorithm j) (m_nicehash j) (m_seed j) (m_size j) (m_clientId j) (m_extraNonce j) id (m_poolWallet j)
    (m_backend j) (m_diff j) (m_height j) (m_target j) (m_blob j) (m_index j) (m_lmtNative j) (m_ephPublicKey j)
    (m_ephSecretKey j) (m_hasMinerSignature j) (m_benchSize j).

Definition setAlgorithm (j : Job) (algorithm : Id) : Job :=
  mk_job
    algorithm (m_nicehash j) (m_seed j) (m_size j) (m_clientId j) (m_extraNonce j) (m_id j) (m_poolWallet j)
    (m_backend j) (m_diff j) (m_height j) (m_target j) (m_blob j) (m_index j) (m_lmtNative j) (m_ephPublicKey j)
    (m_ephSecretKey j) (m_hasMinerSignature j) (m_benchSize j).

Definition setClientId (j : Job) (clientId : str) : Job :=
  mk_job
    (m_algorithm j) (m_nicehash j) (m_seed j) (m_size j) clientId (m_extraNonce j) (m_id j) (m_poolWallet j)
    (m_backend j) (m_diff j) (m_height j) (m_target j) (m_blob j) (m_index j) (m_lmtNative j) (m_ephPublicKey j)
    (m_ephSecretKey j) (m_hasMinerSignature j) (m_benchSize j).

Definition setExtraNonce (j : Job) (extraNonce : str) : Job :=
  mk_job
    (m_algorithm j) (m_nicehash j) (m_seed j) (m_size j) (m_clientId j) extraNonce (m_id j) (m_poolWallet j)
    (m_backend j) (m_diff j) (m_height j) (m_target j) (m_blob j) (m_index j) (m_lmtNative j) (m_ephPublicKey j)
    (m_ephSecretKey j) (m_hasMinerSignature j) (m_benchSize j).

Definition setPoolWallet (j : Job) (poolWallet : str) : Job :=
  mk_job
    (m_algorithm j) (m_nicehash j) (m_seed j) (m_size j) (m_clientId j) (m_extraNonce j) (m_id j) poolWallet
    (m_backend j) (m_diff j) (m_height j) (m_target j) (m_blob j) (m_index j) (m_lmtNative j) (m_ephPublicKey j)
    (m_ephSecretKey j) (m_hasMinerSignature j) (m_benchSize j).

Definition setHeight (j : Job) (height : Z) : Job :=
  mk_job
    (m_algorithm j) (m_nicehash j) (m_seed j) (m_size j) (m_clientId j) (m_extraNonce j) (m_id j) (m_poolWallet j)
    (m_backend j) (m_diff j) height (m_target j) (m_blob j) (m_index j) (m_lmtNative j) (m_ephPublicKey j)
    (m_ephSecretKey j) (m_hasMinerSignature j) (m_benchSize j).

Definition setIndex (j : Job) (index : Z) : Job :=
  mk_job
    (m_algorithm j) (m_nicehash j) (m_seed j) (m_size j) (m_clientId j) (m_extraNonce j) (m_id j) (m_poolWallet j)
    (m_backend j) (m_diff j) (m_height j) (m_target j) (m_blob j) index (m_lmtNative j) (m_ephPublicKey j)
    (m_ephSecretKey j) (m_hasMinerSignature j) (m_benchSize j).

Definition setEphemeralKeys (j : Job) (pub_key sec_key : mem) : Job :=
  mk_job (m_algorithm j) (m_nicehash j) (m_seed j) (m_size j) (m_clientId j) (m_extraNonce j) (m_id j) (m_poolWallet j)
    (m_backend j) (m_diff j) (m_height j) (m_target j) (m_blob j) (m_index j) (m_lmtNative j) pub_key sec_key true
    (m_benchSize j).

(** [m_size = 0; m_diff = 0] *)
Definition reset (j : Job) : Job := set_difficulty (set_size j 0 (m_lmtNative j)) 0 (m_target j).

Definition setBlob (j : Job) (blob : str) : result (bool * Job) :=
  match blob with
  | None => mret (false, j)
  | Some hex =>
      if negb (msize hex mod 2 =? 0) then mret (false, j)
      else
        let size := msize hex / 2 in
        let minSize := nonceOffset j + nonceSize j in
        if (size <? minSize) || (kMaxBlobSize <=? size) then mret (false, j)
        else
          '(ok, bytes) ← Cvt.Cvt.fromHex (m_blob j) kMaxBlobSize (Some hex) (size * 2);
          let j := set_blob j bytes in
          if negb (ok : bool) then mret (false, j)
          else
            n ← read_nonce j;
            let j := if negb (n =? 0) && negb (m_nicehash j) then set_nicehash j true else j in
            mret (true, set_size j size (size =? 48))
  end.

Definition setSeedHash (j : Job) (hash : str) : result (bool * Job) :=
  match hash with
  | None => mret (false, j)
  | Some h =>
      if negb (msize h =? kMaxSeedSize * 2) then mret (false, j)
      else
        seed ← Cvt.Cvt.fromHex_buffer (Some h) (kMaxSeedSize * 2);
        mret (negb (msize seed =? 0), set_seed j seed)
  end.

(** [strtoull(s, nullptr, 16)]: white space, a sign, the prefix 0x before a
    digit, and digits; the largest value when they do not fit. *)
Fixpoint strtoull_digits (s : list Z) (acc : Z) : Z :=
  match s with
  | [] => acc
  | c :: s => match Cvt.Cvt.digit_value c with Some v => strtoull_digits s (acc * 16 + v) | None => acc end
  end.
Definition strtoull_prefix (s : list Z) : list Z :=
  match s with
  | z :: x :: d :: s' =>
      if (z =? 48) && ((x =? 120) || (x =? 88)) && (match Cvt.Cvt.digit_value d with Some _ => true | None => false end)
      then d :: s' else s
  | _ => s
  end.
Definition strtoull_signed (negative : bool) (s : list Z) : Z :=
  let v := strtoull_digits (strtoull_prefix s) 0 in
  if 0xFFFFFFFFFFFFFFFF <? v then 0xFFFFFFFFFFFFFFFF else if negative then u64 (- v) else v.
Fixpoint strtoull16 (s : list Z) : Z :=
  match s with
  | [] => 0
  | c :: s' =>
      if (c =? 32) || ((9 <=? c) && (c <=? 13)) then strtoull16 s'
      else if c =? 45 then strtoull_signed true s'
      else if c =? 43 then strtoull_signed false s'
      else strtoull_signed false s
  end.

(** Dividing by zero is undefined. *)
Definition div (a b : Z) : result Z := if b =? 0 then Fault else mret (a / b).

(** The function [parse] inside [setTarget]. *)
Definition parse_target (target : mem) (algorithm : Id) : result Z :=
  if id_eqb algorithm RX_YADA then mret (strtoull16 target)
  else
    raw ← Cvt.Cvt.fromHex_buffer (Some target) (msize target);
    if msize raw =? 4 then
      d ← div 0xFFFFFFFF (load_le raw);
      div 0xFFFFFFFFFFFFFFFF d
    else if msize raw =? 8 then mret (load_le raw)
    else mret 0.

Definition setTarget (j : Job) (target : str) : result (bool * Job) :=
  match target with
  | None => mret (false, j)
  | Some t =>
      if msize t <? 4 then mret (false, j)
      else
        v ← parse_target t (m_algorithm j);
        let j := set_difficulty j (m_diff j) v in
        if v =? 0 then mret (false, j)
        else mret (true, set_difficulty j (toDiff v) v)
  end.

Definition setDiff (j : Job) (diff : Z) : Job := set_difficulty j diff (toDiff diff).

Definition setSigKey (j : Job) (sig_key : str) : result Job :=
  match sig_key with
  | None => mret j
  | Some k =>
      if negb (msize k =? 64 * 2) then mret j
      else
        buf ← Cvt.Cvt.fromHex_buffer (Some k) (64 * 2);
        mret (if msize buf =? 64 then setEphemeralKeys j (take 32 buf) (drop 32 buf) else j)
  end.

Definition copy (this other : Job) : Job :=
  mk_job (m_algorithm other) (m_nicehash other) (m_seed other) (m_size other) (m_clientId other) (m_extraNonce other)
    (m_id other) (m_poolWallet other) (m_backend other) (m_diff other) (m_height other) (m_target other) (m_blob other)
    (m_index other) (m_lmtNative other) (m_ephPublicKey other) (m_ephSecretKey other) (m_hasMinerSignature other)
    (m_benchSize other).

(** The job and what is left of the other one. *)
Definition move (this other : Job) : Job * Job :=
  (mk_job (m_algorithm other) (m_nicehash other) (m_seed other) (m_size other) (m_clientId other) (m_extraNonce other)
     (m_id other) (m_poolWallet other) (m_backend other) (m_diff other) (m_height other) (m_target other) (m_blob other)
     (m_index other) (m_lmtNative other) (m_ephPublicKey other) (m_ephSecretKey other) (m_hasMinerSignature other)
     (m_benchSize other),
   mk_job INVALID (m_nicehash other) [] 0 None None None None (m_backend other) 0 (m_height other) (m_target other)
     (m_blob other) (m_index other) false (m_ephPublicKey other) (m_ephSecretKey other) (m_hasMinerSignature other)
     (m_benchSize other)).

(** ** Blobs *)

Lemma fromHex_even b s : Forall is_u8 s -> msize s mod 2 = 0 -> 0 < msize s <= 2 * msize b ->
  exists ok out, Cvt.Cvt.fromHex b (msize b) (Some s) (msize s / 2 * 2) = Ok (ok, out) /\ msize out = msize b /\
    match Cvt.Cvt.decode s with Some bs => ok = true /\ out = splice b 0 bs | None => ok = false end.
Proof.
  intros HB Hm Hs. replace (msize s / 2 * 2) with (msize s) by (Z.div_mod_to_equations; lia).
  pose proof (Cvt.Cvt.fromHex_ok b s HB ltac:(lia)) as H. apply returns_iff in H as ([ok out] & -> & Hl & Hd).
  by exists ok, out.
Qed.

Lemma offset_range j : 32 <= nonceOffset j <= 147 /\ 4 <= nonceSize j <= 8.
Proof. unfold nonceOffset, nonceSize. split; repeat case_match; lia. Qed.

(** A job's buffer has its size. *)
Definition wf (j : Job) : Prop := msize (m_blob j) = kMaxBlobSize /\ 0 <= m_size j < kMaxBlobSize.

(** The blob a string describes, if a job of this kind takes it. *)
Definition blob_of (j : Job) (hex : mem) : option mem :=
  if (msize hex mod 2 =? 0) && (nonceOffset j + nonceSize j <=? msize hex / 2) && (msize hex / 2 <? kMaxBlobSize)
  then Cvt.Cvt.decode hex else None.

Lemma blob_of_size j hex bs : blob_of j hex = Some bs ->
  msize hex mod 2 = 0 /\ msize hex / 2 = msize bs /\ nonceOffset j + nonceSize j <= msize bs < kMaxBlobSize /\
  Cvt.Cvt.decode hex = Some bs.
Proof.
  unfold blob_of. destruct (Z.eqb_spec (msize hex mod 2) 0) as [Hm|]; [|done].
  destruct (Z.leb_spec (nonceOffset j + nonceSize j) (msize hex / 2)); [|done].
  destruct (Z.ltb_spec (msize hex / 2) kMaxBlobSize); [|done]. cbn [andb]. intros Ed. split; [done|].
  pose proof (Cvt.Cvt.length_decode _ _ Ed) as Hl.
  assert (msize hex / 2 = msize bs) as Hsz by (unfold msize; rewrite Hl, Nat2Z.inj_mul, Z.mul_comm, Z.div_mul; lia).
  split; [done|]. split; [lia|done].
Qed.

Lemma setBlob_takes j hex bs : wf j -> Forall is_u8 hex -> blob_of j hex = Some bs ->
  let blob := splice (m_blob j) 0 bs in
  let nicehash := m_nicehash j || negb (load_le (chunk blob (nonceOffset j) 4) =? 0) in
  let j' := set_size (set_nicehash (set_blob j blob) nicehash) (msize bs) (msize bs =? 48) in
  setBlob j (Some hex) = Ok (true, j') /\ wf j'.
Proof.
  intros [Hb Hs] HB H. apply blob_of_size in H as (Hm & Hsz & [Hmin Hmax] & Ed). unfold setBlob.
  destruct (offset_range j) as [Ho Hn]. rewrite Hsz, Hm, (proj2 (Z.ltb_ge _ _)), (proj2 (Z.leb_gt _ _)) by lia. cbn [negb orb Z.eqb].
  rewrite <- Hb, <- Hsz. destruct (fromHex_even (m_blob j) hex HB Hm) as (ok & out & -> & Hlo & Hd).
  { unfold kMaxBlobSize in *. Z.div_mod_to_equations. lia. }
  rewrite ok_bind, Ed in *. destruct Hd as [-> ->]. cbn [negb]. rewrite Hsz.
  unfold read_nonce, mload32. change (nonceOffset (set_blob j _)) with (nonceOffset j).
  change (m_blob (set_blob j ?x)) with x. unfold kMaxBlobSize in *. rewrite mload_ok, !ok_bind by lia.
  set (blob := splice (m_blob j) 0 bs) in *. change (m_nicehash (set_blob j blob)) with (m_nicehash j).
  cbv zeta. split.
  - destruct (load_le _ =? 0), (m_nicehash j) eqn:En; cbn [negb andb orb]; rewrite <- ?En; try done; by destruct j.
  - split; [exact (eq_trans Hlo Hb)|]. cbn [set_size m_size]. unfold kMaxBlobSize, msize in *. lia.
Qed.

Lemma setBlob_refuses j hex : wf j -> Forall is_u8 hex -> blob_of j hex = None ->
  exists blob, setBlob j (Some hex) = Ok (false, set_blob j blob) /\ wf (set_blob j blob).
Proof.
  intros [Hb Hs] HB. unfold blob_of, setBlob. destruct (offset_range j) as [Ho Hn].
  assert (set_blob j (m_blob j) = j) as Hself by by destruct j.
  destruct (Z.eqb_spec (msize hex mod 2) 0) as [Hm|Hm]; cbn [negb andb].
  2: { exists (m_blob j). by rewrite Hself. }
  destruct (Z.leb_spec (nonceOffset j + nonceSize j) (msize hex / 2)) as [Hmin|Hmin]; cbn [andb].
  2: { rewrite (proj2 (Z.ltb_lt _ _)) by lia. exists (m_blob j). by rewrite Hself. }
  rewrite (proj2 (Z.ltb_ge (msize hex / 2) (nonceOffset j + nonceSize j))) by lia. cbn [orb].
  destruct (Z.ltb_spec (msize hex / 2) kMaxBlobSize) as [Hmax|Hmax].
  2: { rewrite (proj2 (Z.leb_le _ _)) by lia. exists (m_blob j). by rewrite Hself. }
  rewrite (proj2 (Z.leb_gt _ _)) by lia. rewrite <- Hb. intros Ed.
  destruct (fromHex_even (m_blob j) hex HB Hm) as (ok & out & -> & Hlo & Hd).
  { unfold kMaxBlobSize in *. Z.div_mod_to_equations. lia. }
  rewrite ok_bind, Ed in *. subst ok. exists out. split; [done|]. split; [exact (eq_trans Hlo Hb)|done].
Qed.

(** [setBlob] takes exactly the hexadecimal strings of blobs that have room
    for the nonce and fit the buffer.  It stores the bytes, their number and
    whether they are a native block of 48 bytes, and asks for a fixed nonce byte
    when the nonce that it finds is not zero.  A refused string changes neither size
    nor kind.  A job that was not native before has its nonce inside the blob. *)
Theorem setBlob_correct j hex : wf j -> Forall is_u8 hex ->
  match blob_of j hex with
  | Some bs =>
      let blob := splice (m_blob j) 0 bs in
      let nicehash := m_nicehash j || negb (load_le (chunk blob (nonceOffset j) 4) =? 0) in
      let j' := set_size (set_nicehash (set_blob j blob) nicehash) (msize bs) (msize bs =? 48) in
      setBlob j (Some hex) = Ok (true, j') /\ wf j' /\
      (m_lmtNative j = false -> nonceOffset j' + nonceSize j' <= m_size j')
  | None => exists blob, setBlob j (Some hex) = Ok (false, set_blob j blob) /\ wf (set_blob j blob)
  end.
Proof.
  intros Hw HB. destruct (blob_of j hex) as [bs|] eqn:Eb; [|by apply setBlob_refuses].
  destruct (setBlob_takes j hex bs Hw HB Eb) as [H1 H2]. split; [done|]. split; [done|]. intros Hl.
  apply blob_of_size in Eb as (_ & _ & [Hmin _] & _). revert Hmin. unfold nonceOffset, nonceSize.
  cbn [set_size m_lmtNative m_algorithm m_size set_nicehash set_blob].
  rewrite Hl. destruct (Z.eqb_spec (msize bs) 48) as [->|];
    destruct (family (m_algorithm j) =? KAWPOW), (family (m_algorithm j) =? GHOSTRIDER), (id_eqb (m_algorithm j) RX_YADA); lia.
Qed.

Lemma make_wf nicehash algorithm clientId : wf (make nicehash algorithm clientId).
Proof. split; [reflexivity|cbn; unfold kMaxBlobSize; lia]. Qed.

Lemma setBlob_correct_witness : exists j', setBlob (make false RX_0 None) (Some (replicate 96 48)) = Ok (true, j') /\
  m_lmtNative j' = true /\ m_nicehash j' = false /\ nonceOffset j' + nonceSize j' <= m_size j'.
Proof.
  destruct (setBlob_correct (make false RX_0 None) (replicate 96 48) (make_wf _ _ _)) as (E & _ & H).
  - cbn [replicate]. repeat (constructor; try (unfold is_u8; lia)).
  - eexists. split; [exact E|]. split; [reflexivity|]. split; [vm_compute; reflexivity|exact (H eq_refl)].
Defined.

(** A job that was native before is tested with the native nonce's place: its
    nonce can be behind the blob. *)
Lemma setBlob_stale_flag : exists j', wf j' /\
  (exists j'', setBlob j' (Some (replicate 100 48)) = Ok (true, j'') /\ m_size j'' < nonceOffset j'' + nonceSize j'').
Proof.
  exists (set_size (make false GHOSTRIDER_RTM None) 48 true). split; [split; [reflexivity|cbn; unfold kMaxBlobSize; lia]|].
  eexists. split; [vm_compute; reflexivity|]. vm_compute. reflexivity.
Qed.

(** ** Targets *)

(** A quotient of the largest word by a small number gives the number back. *)
Lemma quotient_inverse N d : 0 < d -> d * d <= N -> N / (N / d) = d.
Proof.
  intros Hd HN. pose proof (Z.div_mod N d ltac:(lia)) as E. pose proof (Z.mod_pos_bound N d ltac:(lia)) as Hr.
  assert (d <= N / d) as Hq by (apply Z.div_le_lower_bound; lia).
  symmetry. apply (Z.div_unique N (N / d) d (N mod d)); lia.
Qed.

(** Eight bytes are the target. *)
Lemma setTarget_eight j t bs : Forall is_u8 t -> id_eqb (m_algorithm j) RX_YADA = false -> Cvt.Cvt.decode t = Some bs ->
  msize bs = 8 -> load_le bs <> 0 ->
  setTarget j (Some t) = Ok (true, set_difficulty j (0xFFFFFFFFFFFFFFFF / load_le bs) (load_le bs)).
Proof.
  intros HB Ha Ed H8 Hv. pose proof (Cvt.Cvt.length_decode _ _ Ed) as Hl. unfold msize in H8.
  unfold setTarget, parse_target. rewrite (proj2 (Z.ltb_ge _ _)), Ha by (unfold msize; lia).
  unfold Cvt.Cvt.fromHex_buffer. pose proof (Cvt.Cvt.fromHexImpl_ok [] t HB ltac:(unfold msize; lia)) as H.
  apply returns_iff in H as ([ok out] & -> & Hd). rewrite Ed in Hd. destruct Hd as [-> ->]. rewrite !ok_bind.
  change (msize bs) with (Z.of_nat (length bs)). rewrite H8. change (8 =? 4) with false. change (8 =? 8) with true. cbv match. rewrite ok_bind. unfold toDiff.
  by rewrite (proj2 (Z.eqb_neq _ _)) by done.
Qed.

(** [setTarget] takes the four and eight byte targets: eight bytes are the
    target, four bytes [t] stand for the difficulty (2^32 - 1) / t.  The difficulty it
    stores is the one of its target and never zero.  It divides by zero exactly
    for four zero bytes. *)
Theorem setTarget_correct j t : Forall is_u8 t -> id_eqb (m_algorithm j) RX_YADA = false -> 4 <= msize t ->
  match Cvt.Cvt.decode t with
  | Some bs =>
      let v := load_le bs in
      if msize bs =? 4 then
        if v =? 0 then setTarget j (Some t) = Fault
        else exists target, setTarget j (Some t) = Ok (true, set_difficulty j (0xFFFFFFFF / v) target) /\
               target = 0xFFFFFFFFFFFFFFFF / (0xFFFFFFFF / v) /\ 0 < target < 2 ^ 64 /\ 0 < 0xFFFFFFFF / v
      else if (msize bs =? 8) && negb (v =? 0) then
        setTarget j (Some t) = Ok (true, set_difficulty j (0xFFFFFFFFFFFFFFFF / v) v) /\ 0 < 0xFFFFFFFFFFFFFFFF / v
      else setTarget j (Some t) = Ok (false, set_difficulty j (m_diff j) 0)
  | None => setTarget j (Some t) = Ok (false, set_difficulty j (m_diff j) 0)
  end.
Proof.
  intros HB Ha Hl. unfold setTarget, parse_target. rewrite (proj2 (Z.ltb_ge _ _)), Ha by lia.
  unfold Cvt.Cvt.fromHex_buffer. pose proof (Cvt.Cvt.fromHexImpl_ok [] t HB ltac:(lia)) as H.
  apply returns_iff in H as ([ok out] & -> & Hd). rewrite ok_bind.
  destruct (Cvt.Cvt.decode t) as [bs|] eqn:Ed; [|subst ok; reflexivity]. apply Cvt.Cvt.decode_bytes, load_le_bound in Ed. destruct Hd as [-> ->]. rewrite ok_bind. cbv zeta.
  destruct (Z.eqb_spec (msize bs) 4) as [H4|H4].
  - destruct (Z.eqb_spec (load_le bs) 0) as [->|Hv]; [done|].
    assert (0 < load_le bs <= 0xFFFFFFFF) as Hr.
    { fold (msize bs) in Ed. rewrite H4 in Ed. lia. }
    assert (1 <= 0xFFFFFFFF / load_le bs <= 0xFFFFFFFF) as Hq
      by (split; [apply Z.div_le_lower_bound; lia|apply Z.div_le_upper_bound; nia]).
    unfold div. rewrite (proj2 (Z.eqb_neq (load_le bs) 0)), ok_bind, (proj2 (Z.eqb_neq (_ / _) 0)), ok_bind by lia.
    set (d := 0xFFFFFFFF / load_le bs) in *. set (target := 0xFFFFFFFFFFFFFFFF / d).
    assert (0 < target < 2 ^ 64) as Ht.
    { unfold target. split; [apply Z.div_str_pos; lia|apply Z.div_lt_upper_bound; nia]. }
    rewrite (proj2 (Z.eqb_neq target 0)) by lia. exists target. split; [|split; [done|lia]].
    unfold toDiff. rewrite (proj2 (Z.eqb_neq target 0)) by lia.
    assert (0xFFFFFFFFFFFFFFFF / target = d) as -> by (apply quotient_inverse; nia). done.
  - destruct (Z.eqb_spec (msize bs) 8) as [H8|H8]; cbn [andb]; [|done]. rewrite ok_bind.
    destruct (Z.eqb_spec (load_le bs) 0) as [->|Hv]; cbn [negb]; [done|]. split.
    + unfold toDiff. by rewrite (proj2 (Z.eqb_neq _ _)).
    + apply Z.div_str_pos. fold (msize bs) in Ed. rewrite H8 in Ed. lia.
Qed.

Lemma setTarget_correct_witness : exists target,
  setTarget (make false RX_0 None) (Some (Cvt.Cvt.encode [0x11; 0x11; 0; 0])) =
    Ok (true, set_difficulty (make false RX_0 None) 983055 target).
Proof.
  destruct (setTarget_correct (make false RX_0 None) (Cvt.Cvt.encode [0x11; 0x11; 0; 0])) as (target & E & _).
  - vm_compute. repeat (constructor; try lia); discriminate.
  - reflexivity.
  - vm_compute. discriminate.
  - exists target. exact E.
Defined.

End Job.
