(* ===== verification/Json.v ===== *)
(** * JSON values (base/io/json/Json.cpp, JsonRequest.cpp)

    The values that rapidjson reads and writes, and the accessors the program uses on
    them.  The reader and the writer themselves are not part of the program. *)
From Stdlib Require Import Ascii String ZArith Lia.
From stdpp Require Import base numbers list.
From S2P Require Import Prelude Memory.
Open Scope list_scope.
Open Scope Z_scope.

Module Json.

(** Numbers that are integers of 64 bits, and all others as the bits of a double. *)
Inductive json :=
| JNull
| JBool (b : bool)
| JNumber (n : Z)
| JDouble (bits : Z)
| JString (s : mem)
| JArray (l : list json)
| JObject (l : list (mem * json)).

(** The characters of a literal. *)
Definition lit (s : string) : mem := (fun c => Z.of_N (N_of_ascii c)) <$> list_ascii_of_string s.

(** The C string that starts a memory. *)
Fixpoint cstr (s : mem) : mem :=
  match s with
  | [] => []
  | x :: s => if x =? 0 then [] else x :: cstr s
  end.

Definition is_object (v : json) : bool := match v with JObject _ => true | _ => false end.
Definition isInt64 (n : Z) : bool := (- 2 ^ 63 <=? n) && (n <? 2 ^ 63).
Definition isUint64 (n : Z) : bool := (0 <=? n) && (n <? 2 ^ 64).

(** [FindMember]: the first member with that name. *)
Fixpoint find_member (l : list (mem * json)) (key : mem) : option json :=
  match l with
  | [] => None
  | (k, v) :: l => if bool_decide (k = key) then Some v else find_member l key
  end.

Definition isEmpty (obj : json) : bool := match obj with JObject (_ :: _) => false | _ => true end.

Definition getValue (obj : json) (key : string) : json :=
  if isEmpty obj then JNull
  else match obj with JObject l => default JNull (find_member l (lit key)) | _ => JNull end.

Definition getString (obj : json) (key : string) : option mem :=
  match getValue obj key with JString s => Some (cstr s) | _ => None end.

Definition getObject (obj : json) (key : string) : json :=
  match getValue obj key with JObject l => JObject l | _ => JNull end.

Definition getUint64 (obj : json) (key : string) : Z :=
  match getValue obj key with JNumber n => if isUint64 n then n else 0 | _ => 0 end.

(** [JsonRequest::create(doc, id, method, params)] on an empty document *)
Definition create (id : Z) (method : string) (params : json) : json :=
  JObject [(lit "id", JNumber id); (lit "jsonrpc", JString (lit "2.0")); (lit "method", JString (lit method)); (lit "params", params)].

(** [String::toJSON] *)
Definition str_json (s : option mem) : json := match s with Some s => JString s | None => JNull end.

End Json.
