(* ===== verification/Url.v ===== *)
(** * Addresses of pools (base/net/stratum/Url.h, Url.cpp)

    The parser of host and port with an optional scheme, and the constructor that
    prints them. *)
From Stdlib Require Import Ascii String ZArith Lia.
From stdpp Require Import base numbers list sets.
From S2P Require Import Prelude Memory Job Json.
Import Json.Json.
Open Scope list_scope.
Open Scope Z_scope.

Module Url.
Import Job.Job.

Inductive Scheme := UNSPECIFIED | STRATUM | DAEMON | SOCKS5.

Record Url := mk_url { m_tls : bool; m_scheme : Scheme; m_host : str; m_url : str; m_port : Z }.
(** [Url() = default] *)
Definition no_url : Url := mk_url false UNSPECIFIED None None 3333.

Definition isValid (u : Url) : bool := negb (isNull (m_host u)) && (0 <? m_port u).

(** ** The C library *)

(** [strncasecmp(s, prefix, strlen(prefix)) == 0] *)
Definition lower_byte (x : Z) : Z := if (65 <=? x) && (x <=? 90) then x + 32 else x.
Definition starts_with_nocase (prefix s : mem) : bool :=
  bool_decide (lower_byte <$> take (length prefix) s = lower_byte <$> prefix).

(** [strstr] and [strchr] as the rest of the string from the place they find *)
Fixpoint strstr (needle s : mem) : option mem :=
  if bool_decide (take (length needle) s = needle) then Some s
  else match s with [] => None | _ :: s => strstr needle s end.
Fixpoint strchr (x : Z) (s : mem) : option mem :=
  match s with [] => None | y :: s' => if y =? x then Some s else strchr x s' end.

(** [strtol(s, nullptr, 10)] *)
Definition is_digit (x : Z) : bool := (48 <=? x) && (x <=? 57).
Definition is_space (x : Z) : bool := (x =? 32) || ((9 <=? x) && (x <=? 13)).
Fixpoint decimal (s : mem) (acc : Z) : Z :=
  match s with x :: s => if is_digit x then decimal s (10 * acc + (x - 48)) else acc | [] => acc end.
Fixpoint skip_spaces (s : mem) : mem :=
  match s with x :: s' => if is_space x then skip_spaces s' else s | [] => [] end.
Definition strtol (s : mem) : Z :=
  match skip_spaces s with
  | 43 :: s => Z.min (decimal s 0) (2 ^ 63 - 1)
  | 45 :: s => Z.max (- decimal s 0) (- 2 ^ 63)
  | s => Z.min (decimal s 0) (2 ^ 63 - 1)
  end.

(** [%d] of a number that is not negative, with at most [fuel] digits *)
Fixpoint digits (fuel : nat) (n : Z) : mem :=
  match fuel with
  | O => []
  | S fuel => (if n <? 10 then [] else digits fuel (n / 10)) ++ [48 + n mod 10]
  end.

(** ** Parsing *)

(** The scheme of an address that has one, and whether it means TLS. *)
Definition scheme_of (url : mem) : option (Scheme * bool) :=
  if starts_with_nocase (lit "stratum+tcp://") url then Some (STRATUM, false)
  else if starts_with_nocase (lit "stratum+ssl://") url then Some (STRATUM, true)
  else if starts_with_nocase (lit "socks5://") url then Some (SOCKS5, false)
  else if starts_with_nocase (lit "daemon+https://") url then Some (DAEMON, true)
  else if starts_with_nocase (lit "daemon+http://") url then Some (DAEMON, false)
  else None.

(** The text before the place where [rest] starts. *)
Definition before (s rest : mem) : mem := take (length s - length rest) s.

Definition parseIPv6 (u : Url) (addr : mem) : bool * Url :=
  match strchr 93 addr with
  | None => (false, u)
  | Some rest =>
      match strchr 58 rest with
      | None => (false, u)
      | Some port =>
          (true, mk_url (m_tls u) (m_scheme u) (Some (drop 1 (before addr rest))) (m_url u) (u16 (strtol (drop 1 port))))
      end
  end.

Definition parse (u : Url) (url : str) : bool * Url :=
  match url with
  | None => (false, u)
  | Some url =>
      let '(r, base) :=
        match strstr (lit "://") url with
        | Some p => match scheme_of url with
                    | Some (sch, tls) => (Some (mk_url tls sch (m_host u) (m_url u) (m_port u)), drop 3 p)
                    | None => (None, url)
                    end
        | None => (Some u, url)
        end in
      match r with
      | None => (false, u)
      | Some u =>
          match base with
          | [] => (false, u)
          | x :: _ =>
              if x =? 47 then (false, u)
              else
                let u := mk_url (m_tls u) (m_scheme u) (m_host u) (Some url) (m_port u) in
                if x =? 91 then parseIPv6 u base
                else match strchr 58 base with
                     | None => (true, mk_url (m_tls u) (m_scheme u) (Some base) (m_url u) (m_port u))
                     | Some port =>
                         (true, mk_url (m_tls u) (m_scheme u) (Some (before base port)) (m_url u) (u16 (strtol (drop 1 port))))
                     end
          end
      end
  end.

(** [Url(const char *url)] *)
Definition of_string (url : str) : Url := snd (parse no_url url).

(** [Url(host, port, tls, scheme)]; the text has room for five digits. *)
Definition of_host (host : mem) (port : Z) (tls : bool) (scheme : Scheme) : Url :=
  mk_url tls scheme (Some host) (Some (host ++ lit ":" ++ digits 5 port)) port.

(** [ProxyUrl::isValid] and [ProxyUrl::host] *)
Definition proxy_valid (u : Url) : bool :=
  (0 <? m_port u) && match m_scheme u with UNSPECIFIED | SOCKS5 => true | _ => false end.
Definition proxy_host (u : Url) : str := if isNull (m_host u) && proxy_valid u then Some (lit "127.0.0.1") else m_host u.

(** ** Round trip *)

Lemma decimal_app s : forall t acc, Forall (fun x => is_digit x = true) s -> decimal (s ++ t) acc = decimal t (decimal s acc).
Proof.
  induction s as [|x s IH]; intros t acc HF; [done|]. apply Forall_cons in HF as [Hx HF].
  cbn [app decimal]. rewrite Hx. by apply IH.
Qed.

Lemma digits_ok fuel : forall n, 0 <= n < 10 ^ Z.of_nat fuel -> (0 < fuel)%nat ->
  Forall (fun x => is_digit x = true) (digits fuel n) /\ decimal (digits fuel n) 0 = n /\
  exists x t, digits fuel n = x :: t.
Proof.
  induction fuel as [|fuel IH]; intros n Hn Hf; [lia|]. cbn [digits].
  pose proof (Z.mod_pos_bound n 10 ltac:(lia)) as Hm. pose proof (Z.div_mod n 10 ltac:(lia)) as Hd.
  assert (is_digit (48 + n mod 10) = true) as H1.
  { unfold is_digit. rewrite (proj2 (Z.leb_le 48 _)), (proj2 (Z.leb_le _ 57)) by lia. done. }
  assert (forall t, Forall (fun x => is_digit x = true) t -> decimal (t ++ [48 + n mod 10]) 0 = 10 * decimal t 0 + n mod 10) as Hl.
  { intros t Ht. rewrite decimal_app by done. cbn [decimal]. rewrite H1. lia. }
  destruct (Z.ltb_spec n 10) as [Hs|Hs].
  - split; [by repeat constructor|]. split; [rewrite Hl by constructor; cbn; rewrite Z.mod_small; lia|by eexists _, _].
  - assert (0 <= n / 10 < 10 ^ Z.of_nat fuel) as Hq.
    { split; [apply Z.div_pos; lia|]. apply Z.div_lt_upper_bound; [lia|]. rewrite Nat2Z.inj_succ, Z.pow_succ_r in Hn by lia. lia. }
    destruct fuel as [|fuel']; [cbn in Hn; lia|].
    destruct (IH (n / 10) Hq ltac:(lia)) as (HF & Hv & x & t & Ex).
    split; [apply Forall_app; split; [done|by repeat constructor]|]. split; [rewrite Hl, Hv by done; lia|].
    rewrite Ex. by eexists x, _.
Qed.

Lemma strtol_digits fuel n : 0 <= n < 10 ^ Z.of_nat fuel -> (0 < fuel)%nat -> n < 2 ^ 63 -> strtol (digits fuel n) = n.
Proof.
  intros Hn Hf Hb. destruct (digits_ok fuel n Hn Hf) as (HF & Hv & x & t & Ex). rewrite Ex in *. unfold strtol.
  apply Forall_cons in HF as [Hx _]. cbn [skip_spaces]. unfold is_digit in Hx. apply andb_prop in Hx as [H1%Z.leb_le H2%Z.leb_le].
  assert (is_space x = false) as ->.
  { unfold is_space. rewrite (proj2 (Z.eqb_neq _ _)), (proj2 (Z.leb_gt x 13)) by lia. by rewrite andb_false_r. }
  transitivity (Z.min (decimal (x :: t) 0) (2 ^ 63 - 1)); [|rewrite Hv; lia].
  assert (x = 48 \/ x = 49 \/ x = 50 \/ x = 51 \/ x = 52 \/ x = 53 \/ x = 54 \/ x = 55 \/ x = 56 \/ x = 57) as Hc by lia.
  by repeat destruct Hc as [->|Hc]; [..|subst x].
Qed.

Lemma strchr_app x s t : x ∉ s -> strchr x (s ++ x :: t) = Some (x :: t).
Proof.
  induction s as [|y s IH]; intros Hx; cbn [app strchr]; [by rewrite Z.eqb_refl|].
  rewrite (proj2 (Z.eqb_neq _ _)) by set_solver. apply IH. set_solver.
Qed.

(** A host with letters that mean nothing in an address. *)
Definition plain (host : mem) : Prop := 58 ∉ host /\ exists x t, host = x :: t /\ x <> 47 /\ x <> 91.

Lemma strstr_plain host port fuel : 58 ∉ host -> 0 <= port < 10 ^ Z.of_nat fuel -> (0 < fuel)%nat ->
  strstr (lit "://") (host ++ lit ":" ++ digits fuel port) = None.
Proof.
  intros Hh Hp Hf. destruct (digits_ok fuel port Hp Hf) as (HF & _).
  assert (forall s, Forall (fun x => is_digit x = true) s -> strstr (lit "://") s = None /\ take 2 s <> [47; 47] /\ 58 ∉ s) as Hd.
  { induction s as [|x s IH]; intros Hs; [split; [done|split; [done|set_solver]]|]. apply Forall_cons in Hs as [Hx Hs].
    destruct (IH Hs) as (E & _ & Hn). unfold is_digit in Hx. apply andb_prop in Hx as [H1%Z.leb_le H2%Z.leb_le].
    split; [|split; [intros [= -> _]; lia|apply not_elem_of_cons; split; [lia|done]]].
    cbn [strstr]. rewrite bool_decide_eq_false_2; [exact E|]. intros [= -> _]. lia. }
  induction host as [|x host IH].
  - cbn [app]. change (lit ":") with [58]. cbn [app strstr]. destruct (Hd _ HF) as (E & Hn & _). rewrite bool_decide_eq_false_2; [exact E|].
    intros [= H]. by apply Hn.
  - cbn [app strstr]. rewrite bool_decide_eq_false_2; [apply IH; set_solver|]. intros [= -> _]. set_solver.
Qed.

(** The address that [Url(host, port)] prints parses to that host and port, and so
    does the host alone with the default port. *)
Theorem url_roundtrip host port tls scheme : plain host -> 0 < port < 65536 ->
  let u := of_string (m_url (of_host host port tls scheme)) in
  m_host u = Some host /\ m_port u = port /\ isValid u = true /\
  m_host (of_string (Some host)) = Some host /\ m_port (of_string (Some host)) = 3333.
Proof.
  intros (Hc & x & t & E & Hx1 & Hx2) Hp. cbn zeta. unfold of_string, of_host. cbn [m_url].
  pose proof (strstr_plain host port 5 Hc ltac:(cbn; lia) ltac:(lia)) as Hs.
  assert (strstr (lit "://") host = None) as Hs2.
  { clear -Hc. induction host as [|y host IH]; [done|]. cbn [strstr]. rewrite bool_decide_eq_false_2; [apply IH; set_solver|].
    intros [= -> _]. set_solver. }
  assert (strchr 58 host = None) as Hc2.
  { clear -Hc. induction host as [|y host IH]; [done|]. cbn [strchr]. rewrite (proj2 (Z.eqb_neq _ _)) by set_solver. apply IH. set_solver. }
  pose proof (strchr_app 58 host (digits 5 port) Hc) as Hch. change (lit ":") with [58] in *.
  unfold parse. rewrite Hs, Hs2. subst host. cbn [app] in *. rewrite !(proj2 (Z.eqb_neq x _)) by done.
  change ([58] ++ digits 5 port) with (58 :: digits 5 port). rewrite Hch, Hc2. cbn [snd m_host m_port].
  assert (before (x :: t ++ 58 :: digits 5 port) (58 :: digits 5 port) = x :: t) as Hb.
  { unfold before. change (x :: t ++ 58 :: digits 5 port) with ((x :: t) ++ 58 :: digits 5 port). rewrite length_app, Nat.add_sub.
    by rewrite take_app_length. }
  rewrite Hb. change (drop 1 (58 :: digits 5 port)) with (digits 5 port).
  rewrite (strtol_digits 5 port) by (cbn; lia).
  assert (u16 port = port) as Hu by (unfold u16; change 0xFFFF with (Z.ones 16); rewrite Z.land_ones, Z.mod_small by lia; done).
  split; [done|]. split; [done|]. split; [|done]. unfold isValid. cbn [m_host m_port isNull negb andb]. rewrite Hu. apply Z.ltb_lt. lia.
Qed.

Lemma url_roundtrip_witness :
  m_port (of_string (m_url (of_host (lit "pool.example") 4444 false UNSPECIFIED))) = 4444.
Proof.
  refine (proj1 (proj2 (url_roundtrip (lit "pool.example") 4444 false UNSPECIFIED _ _))).
  - split; [apply (bool_decide_unpack (58 ∉ lit "pool.example")); vm_compute; exact I|]. eexists _, _. split; [reflexivity|]. split; discriminate.
  - lia.
Defined.

End Url.
