(* ===== verification/Client.v ===== *)
(** * The stratum client (base/net/stratum/Client.cpp, BaseClient.cpp, Socks5.cpp)

    The connection to a pool: a state machine over the socket, requests with numbers
    and their replies, the standard login with its extensions, and the sessions of
    the LMT protocol.  The event loop is outside of the model: a handler gets what the
    loop tells it, and lists what it asks of the loop and of its listener.  This is
    the build without TLS. *)
From Stdlib Require Import Ascii String ZArith Lia.
From stdpp Require Import base numbers list gmap.
From S2P Require Import Prelude Memory LineReader Cvt BlockTemplate Algorithm Job Json Url.
Import Json.Json.
Open Scope list_scope.
Open Scope Z_scope.

Module Client.
Import Algorithm.Algorithm Job.Job.

(** ** State *)

Inductive SocketState :=
  UnconnectedState | HostLookupState | ConnectingState | ConnectedState | ClosingState | ReconnectingState.
#[export] Instance SocketState_eq_dec : EqDecision SocketState.
Proof. solve_decision. Defined.
Definition is_state (a b : SocketState) : bool := bool_decide (a = b).

Definition kConnectTimeout : Z := 20 * 1000.
Definition kResponseTimeout : Z := 20 * 1000.
Definition kMaxSendBufferSize : Z := 1024 * 16.
Definition kKeepAliveTimeout : Z := 60.

(** [IClient::Extension] *)
Inductive Extension := EXT_ALGO | EXT_NICEHASH | EXT_CONNECT | EXT_TLS | EXT_KEEPALIVE.
#[export] Instance Extension_eq_dec : EqDecision Extension.
Proof. solve_decision. Defined.

(** The socket and the timers.  A socket is a number; [c_open] are the sockets that
    the loop still serves, [c_closing] those whose close callback is to come. *)
Record conn := mk_conn {
  c_state : SocketState; c_socket : option Z; c_expire : Z; c_keepAlive : Z; c_failures : Z;
  c_open : list Z; c_closing : list Z; c_fresh : Z }.

Record SubmitResult := mk_result { sr_seq : Z; sr_diff : Z; sr_actualDiff : Z; sr_backend : Z; sr_start : Z }.

(** What belongs to the session with the pool. *)
Record sess := mk_sess {
  s_rpcId : str; s_extensions : list Extension; s_lmtNative : bool; s_lmtAuthorized : bool;
  s_results : gmap Z SubmitResult; s_callbacks : gset Z; s_jobs : Z; s_job : Job }.

(** The pool of the configuration. *)
Record Pool := mk_pool {
  p_algorithm : Id; p_coin : BlockTemplate.BlockTemplate.Coin; p_nicehash : bool; p_keepAlive : Z; p_selfSelect : bool;
  p_url : Url.Url.Url; p_proxy : Url.Url.Url }.

Record conf := mk_conf {
  f_id : Z; f_pool : Pool; f_user : str; f_password : str; f_rigId : str; f_agent : mem; f_retryPause : Z }.

(** [Socks5::State] with [m_nextSize] *)
Inductive socks_state := Created | SentInitialHandshake | SentFinalHandshake | Ready.
Record socks5 := mk_socks { k_state : socks_state; k_nextSize : Z }.

(** A client; [sequence] is the static [BaseClient::m_sequence]. *)
Record client := mk_client {
  cn : conn; ss : sess; cf : conf; sequence : Z; sendBuf : mem; reader : LineReader.LineReader.reader;
  socks : option socks5; listener : bool; removed : bool }.

(** What the handlers do to the outside. *)
Inductive event :=
| Written (bytes : mem)
| JobReceived (j : Job)
| LoginSuccess
| ResultAccepted (r : SubmitResult) (elapsed : Z) (error : option mem)
| Callback (id : Z) (success : bool) (v : json)
| Closed (failures : Z)
| Resolve (host : str)
| UvConnect (socket : Z)
| UvClose (socket : Z).

(** What a handler finds: the time, whether the stream is writable, how much of a
    buffer a write takes, the listener's verdict on an algorithm and its additions to
    the login, the writer and the reader of JSON, and the addresses of a host. *)
Record env := mk_env {
  now : Z; writable : bool; try_write : mem -> Z; verify : Id -> bool; on_login : list (mem * json) -> list (mem * json);
  write_json : json -> mem; read_json : mem -> option json; ipv4 : mem -> option mem; ipv6 : mem -> option mem }.

(** ** The monad of the handlers *)

Definition M (A : Type) : Type := client -> result (A * client * list event).

#[export] Instance M_ret : MRet M := fun A a c => Ok (a, c, []).
#[export] Instance M_bind : MBind M := fun A B f m c =>
  match m c with
  | Ok (a, c, e) => match f a c with Ok (b, c', e') => Ok (b, c', e ++ e') | Fault => Fault | OutOfFuel => OutOfFuel end
  | Fault => Fault
  | OutOfFuel => OutOfFuel
  end.

Definition gets {A} (f : client -> A) : M A := fun c => Ok (f c, c, []).
Definition modify (f : client -> client) : M unit := fun c => Ok (tt, f c, []).
Definition emit (e : event) : M unit := fun c => Ok (tt, c, [e]).
Definition lift {A} (r : result A) : M A := fun c => match r with Ok a => Ok (a, c, []) | Fault => Fault | OutOfFuel => OutOfFuel end.
Definition fault {A} : M A := fun _ => Fault.
Definition when (b : bool) (m : M unit) : M unit := if b then m else mret tt.

(** [stream()] is handed to the event loop, which reads through the pointer. *)
Definition stream : M unit := s ← gets (fun c => c_socket (cn c)); match s with Some _ => mret tt | None => fault end.
(** A call [m_listener->...], and one that is an event of its own *)
Definition listens : M unit := l ← gets listener; if (l : bool) then mret tt else fault.
Definition tell (e : event) : M unit := _ ← listens; emit e.

(** Updates of one field. *)
Definition set_cn (f : conn -> conn) (c : client) : client :=
  mk_client (f (cn c)) (ss c) (cf c) (sequence c) (sendBuf c) (reader c) (socks c) (listener c) (removed c).
Definition set_ss (f : sess -> sess) (c : client) : client :=
  mk_client (cn c) (f (ss c)) (cf c) (sequence c) (sendBuf c) (reader c) (socks c) (listener c) (removed c).
Definition set_cf (f : conf -> conf) (c : client) : client :=
  mk_client (cn c) (ss c) (f (cf c)) (sequence c) (sendBuf c) (reader c) (socks c) (listener c) (removed c).
Definition set_sequence (n : Z) (c : client) : client :=
  mk_client (cn c) (ss c) (cf c) n (sendBuf c) (reader c) (socks c) (listener c) (removed c).
Definition set_sendBuf (b : mem) (c : client) : client :=
  mk_client (cn c) (ss c) (cf c) (sequence c) b (reader c) (socks c) (listener c) (removed c).
Definition set_reader (r : LineReader.LineReader.reader) (c : client) : client :=
  mk_client (cn c) (ss c) (cf c) (sequence c) (sendBuf c) r (socks c) (listener c) (removed c).
Definition set_socks (k : option socks5) (c : client) : client :=
  mk_client (cn c) (ss c) (cf c) (sequence c) (sendBuf c) (reader c) k (listener c) (removed c).
Definition set_listener (b : bool) (c : client) : client :=
  mk_client (cn c) (ss c) (cf c) (sequence c) (sendBuf c) (reader c) (socks c) b (removed c).
Definition remove (c : client) : client :=
  mk_client (cn c) (ss c) (cf c) (sequence c) (sendBuf c) (reader c) (socks c) (listener c) true.

Definition with_state (s : SocketState) (n : conn) : conn :=
  mk_conn s (c_socket n) (c_expire n) (c_keepAlive n) (c_failures n) (c_open n) (c_closing n) (c_fresh n).
Definition with_expire (x : Z) (n : conn) : conn :=
  mk_conn (c_state n) (c_socket n) x (c_keepAlive n) (c_failures n) (c_open n) (c_closing n) (c_fresh n).
Definition with_keepAlive (x : Z) (n : conn) : conn :=
  mk_conn (c_state n) (c_socket n) (c_expire n) x (c_failures n) (c_open n) (c_closing n) (c_fresh n).
Definition with_failures (x : Z) (n : conn) : conn :=
  mk_conn (c_state n) (c_socket n) (c_expire n) (c_keepAlive n) x (c_open n) (c_closing n) (c_fresh n).
(** [uv_close(socket)] *)
Definition closing (k : Z) (n : conn) : conn :=
  mk_conn (c_state n) (c_socket n) (c_expire n) (c_keepAlive n) (c_failures n) (filter (fun x => x <> k) (c_open n)) (k :: c_closing n) (c_fresh n).
(** [m_socket = new uv_tcp_t] *)
Definition new_socket (n : conn) : conn :=
  mk_conn (c_state n) (Some (c_fresh n)) (c_expire n) (c_keepAlive n) (c_failures n) (c_fresh n :: c_open n) (c_closing n) (c_fresh n + 1).
(** [delete m_socket; m_socket = nullptr] *)
Definition no_socket (n : conn) : conn :=
  mk_conn (c_state n) None (c_expire n) (c_keepAlive n) (c_failures n) (c_open n) (c_closing n) (c_fresh n).

Definition with_rpcId (x : str) (s : sess) : sess :=
  mk_sess x (s_extensions s) (s_lmtNative s) (s_lmtAuthorized s) (s_results s) (s_callbacks s) (s_jobs s) (s_job s).
Definition with_extensions (x : list Extension) (s : sess) : sess :=
  mk_sess (s_rpcId s) x (s_lmtNative s) (s_lmtAuthorized s) (s_results s) (s_callbacks s) (s_jobs s) (s_job s).
Definition with_lmt (native authorized : bool) (s : sess) : sess :=
  mk_sess (s_rpcId s) (s_extensions s) native authorized (s_results s) (s_callbacks s) (s_jobs s) (s_job s).
Definition with_results (x : gmap Z SubmitResult) (s : sess) : sess :=
  mk_sess (s_rpcId s) (s_extensions s) (s_lmtNative s) (s_lmtAuthorized s) x (s_callbacks s) (s_jobs s) (s_job s).
Definition with_callbacks (x : gset Z) (s : sess) : sess :=
  mk_sess (s_rpcId s) (s_extensions s) (s_lmtNative s) (s_lmtAuthorized s) (s_results s) x (s_jobs s) (s_job s).
Definition with_jobs (x : Z) (s : sess) : sess :=
  mk_sess (s_rpcId s) (s_extensions s) (s_lmtNative s) (s_lmtAuthorized s) (s_results s) (s_callbacks s) x (s_job s).
Definition with_job (x : Job) (s : sess) : sess :=
  mk_sess (s_rpcId s) (s_extensions s) (s_lmtNative s) (s_lmtAuthorized s) (s_results s) (s_callbacks s) (s_jobs s) x.

Section Handlers.
Context (E : env).

(** ** The socket *)

Definition setState (state : SocketState) : M unit :=
  old ← gets (fun c => c_state (cn c));
  if is_state old state then mret tt
  else
    pause ← gets (fun c => f_retryPause (cf c));
    _ ← match state with
        | HostLookupState => modify (set_cn (with_expire 0))
        | ConnectingState => modify (set_cn (with_expire (u64 (now E + kConnectTimeout))))
        | ReconnectingState => modify (set_cn (with_expire (u64 (now E + pause))))
        | _ => mret tt
        end;
    modify (set_cn (with_state state)).

Definition close : M bool :=
  state ← gets (fun c => c_state (cn c));
  socket ← gets (fun c => c_socket (cn c));
  if is_state state ClosingState then mret (match socket with Some _ => true | None => false end)
  else match socket with
       | None => mret false
       | Some k =>
           if is_state state UnconnectedState then mret false
           else
             _ ← setState ClosingState;
             busy ← gets (fun c => bool_decide (k ∈ c_closing (cn c)));
             _ ← when (negb busy) (_ ← modify (set_cn (closing k)); emit (UvClose k));
             mret true
       end.

Definition reconnect : M unit :=
  l ← gets listener;
  if negb l then modify remove
  else
    _ ← modify (set_cn (with_keepAlive 0));
    failures ← gets (fun c => c_failures (cn c));
    if failures =? -1 then emit (Closed (-1))
    else
      _ ← setState ReconnectingState;
      _ ← modify (set_cn (with_failures (failures + 1)));
      emit (Closed (failures + 1)).

Definition disconnect : M bool :=
  _ ← modify (set_cn (fun n => with_failures (-1) (with_expire 0 (with_keepAlive 0 n))));
  close.

Definition deleteLater : M unit :=
  l ← gets listener;
  if negb l then mret tt
  else
    _ ← modify (set_listener false);
    busy ← disconnect;
    when (negb busy) (modify remove).

Definition resolve (host : str) : M unit :=
  _ ← setState HostLookupState;
  _ ← modify (fun c => set_reader (LineReader.LineReader.reset (reader c)) c);
  failures ← gets (fun c => c_failures (cn c));
  _ ← when (failures =? -1) (modify (set_cn (with_failures 0)));
  emit (Resolve host).

Definition connect : M unit :=
  pool ← gets (fun c => f_pool (cf c));
  if Url.Url.proxy_valid (p_proxy pool) then
    _ ← modify (set_socks (Some (mk_socks Created 0)));
    resolve (Url.Url.proxy_host (p_proxy pool))
  else resolve (Url.Url.m_host (p_url pool)).

(** [connect(const sockaddr *addr)] *)
Definition connect_addr : M unit :=
  _ ← setState ConnectingState;
  k ← gets (fun c => c_fresh (cn c));
  _ ← modify (set_cn new_socket);
  emit (UvConnect k).

(** [records] says whether an address was found. *)
Definition onResolved (records : bool) (status : Z) : M unit :=
  l ← gets listener;
  if negb l then reconnect
  else if (status <? 0) && negb records then reconnect
  else connect_addr.

(** The member function [onClose]. *)
Definition onClose : M unit :=
  _ ← modify (set_cn no_socket);
  _ ← setState UnconnectedState;
  reconnect.

(** ** Writing *)

Definition write (buf : mem) : M bool :=
  _ ← stream;
  if u64 (try_write E buf) =? msize buf then _ ← emit (Written buf); mret true
  else _ ← close; mret false.

(** [send(size_t size)]: the first bytes of the buffer. *)
Definition send_size (size : Z) : M Z :=
  state ← gets (fun c => c_state (cn c));
  if negb (is_state state ConnectedState) then mret (-1)
  else
    _ ← stream;
    if negb (writable E) then mret (-1)
    else
      buf ← gets sendBuf;
      bytes ← lift (mload buf 0 size);
      ok ← write bytes;
      if negb (ok : bool) then mret (-1)
      else
        _ ← modify (set_cn (with_expire (u64 (now E + kResponseTimeout))));
        n ← gets sequence;
        _ ← modify (set_sequence (n + 1));
        mret n.

Definition send (obj : json) : M Z :=
  let text := write_json E obj in
  let size := msize text in
  if kMaxSendBufferSize <? size then _ ← close; mret (-1)
  else
    buf ← gets sendBuf;
    let buf := if u64 (msize buf - 2) <? size then Cvt.Cvt.resize buf (((size + 1) / 1024 + 1) * 1024) else buf in
    buf ← lift (mstore buf 0 text);
    buf ← lift (aset buf size 10);
    buf ← lift (aset buf (size + 1) 0);
    _ ← modify (set_sendBuf buf);
    send_size (size + 1).

(** [send(const rapidjson::Value &obj, Callback callback)] *)
Definition send_callback (obj : json) : M Z :=
  n ← gets sequence;
  _ ← modify (set_ss (fun s => with_callbacks ({[n]} ∪ s_callbacks s) s));
  send obj.

Definition has (x : Extension) (c : client) : bool :=
  bool_decide (x ∈ s_extensions (ss c)) ||
  match x with
  | EXT_NICEHASH => p_nicehash (f_pool (cf c))
  | EXT_KEEPALIVE => 0 <? p_keepAlive (f_pool (cf c))
  | _ => false
  end.

Definition startTimeout : M unit :=
  _ ← modify (set_cn (with_expire 0));
  keep ← gets (has EXT_KEEPALIVE);
  k ← gets (fun c => p_keepAlive (f_pool (cf c)));
  when keep (modify (set_cn (with_keepAlive (u64 (now E + (if 0 <? k then k else kKeepAliveTimeout) * 1000))))).

(** [snprintf] writes what fits and returns what it would have written. *)
Definition snprintf (buf text : mem) : result (Z * mem) :=
  let fit := take (Z.to_nat (msize buf - 1)) text in
  buf ← mstore buf 0 (fit ++ [0]);
  mret (msize text, buf).

(** A literal with # for a double quote. *)
Definition quoted (s : string) : mem := (fun x => if x =? 35 then 34 else x) <$> lit s.

Definition ping_text (n : Z) (rpcId : mem) : mem :=
  quoted "{#id#:" ++ Url.Url.digits 20 n ++ quoted ",#jsonrpc#:#2.0#,#method#:#keepalived#,#params#:{#id#:#" ++ rpcId ++
  quoted "#}}" ++ [10].

Definition ping : M unit :=
  n ← gets sequence;
  rpcId ← gets (fun c => s_rpcId (ss c));
  buf ← gets sendBuf;
  '(size, buf) ← lift (snprintf buf (ping_text n (default (lit "(null)") rpcId)));
  _ ← modify (set_sendBuf buf);
  _ ← send_size size;
  modify (set_cn (with_keepAlive 0)).

Definition tick (t : Z) : M unit :=
  state ← gets (fun c => c_state (cn c));
  expire ← gets (fun c => c_expire (cn c));
  keepAlive ← gets (fun c => c_keepAlive (cn c));
  let expired := negb (expire =? 0) && (expire <? t) in
  match state with
  | ConnectedState =>
      if expired then _ ← close; mret tt
      else when (negb (keepAlive =? 0) && (keepAlive <? t)) ping
  | ReconnectingState => when expired connect
  | ConnectingState => when expired (_ ← close; mret tt)
  | _ => mret tt
  end.

(** ** Jobs *)

(** [Algorithm::parse] of a C string *)
Definition parse_bytes (s : str) : Id :=
  parse ((fun l => string_of_list_ascii ((fun x => ascii_of_N (Z.to_N x)) <$> l)) <$> s).

(** [Coin::algorithm], which ignores the version *)
Definition coin_algorithm (c : BlockTemplate.BlockTemplate.Coin) : Id :=
  match c with
  | BlockTemplate.BlockTemplate.INVALID => INVALID
  | BlockTemplate.BlockTemplate.MONERO | BlockTemplate.BlockTemplate.ZEPHYR | BlockTemplate.BlockTemplate.TOWNFORGE => RX_0
  | BlockTemplate.BlockTemplate.SUMO => CN_R
  | BlockTemplate.BlockTemplate.ARQMA => RX_ARQ
  | BlockTemplate.BlockTemplate.GRAFT => RX_GRAFT
  | BlockTemplate.BlockTemplate.RAVEN => KAWPOW_RVN
  | BlockTemplate.BlockTemplate.WOWNERO => RX_WOW
  | BlockTemplate.BlockTemplate.YADA => RX_YADA
  end.

(** The listener is asked; [read] has made sure that there is one. *)
Definition verifyAlgorithm (algorithm : Id) : bool := Algorithm.Algorithm.isValid algorithm && verify E algorithm.

(** A job that is new replaces the old one. *)
Definition take_job (job : Job) : M unit :=
  modify (set_ss (fun s => with_job job (with_jobs (u64 (s_jobs s + 1)) s))).
Definition new_job : M Job := gets (fun c => make (has EXT_NICEHASH c) (p_algorithm (f_pool (cf c))) (s_rpcId (ss c))).

(** The algorithm that [parseJob] takes for a job. *)
Definition job_algorithm (pool : Pool) (algo blobData : option mem) (job : Job) : result Job :=
  match algo with
  | Some name => mret (setAlgorithm job (parse_bytes (Some name)))
  | None =>
      if BlockTemplate.BlockTemplate.is_coin (p_coin pool) BlockTemplate.BlockTemplate.INVALID then mret job
      else
        _ ← match blobData with Some b => Cvt.Cvt.fromHex [0] 1 (Some (b ++ [0])) 2 | None => mret (false, [0]) end;
        mret (setAlgorithm job (coin_algorithm (p_coin pool)))
  end.

(** The work of a job: in self-select mode the pool names only the wallet. *)
Definition job_work (pool : Pool) (params : json) (job : Job) : result (bool * Job) :=
  if p_selfSelect pool then
    let job := setPoolWallet (setExtraNonce job (getString params "extra_nonce")) (getString params "pool_wallet") in
    mret (match m_extraNonce job, m_poolWallet job with Some _, Some _ => true | _, _ => false end, job)
  else setBlob job (getString params "blob").

(** Everything in [parseJob] before the job is compared with the current one: a job, or
    the error code. *)
Definition read_job (pool : Pool) (job : Job) (params : json) : result (Job + Z) :=
  if negb (is_object params) then mret (inr 2)
  else
    let job := setId job (getString params "job_id") in
    if isNull (m_id job) then mret (inr 3)
    else
      job ← job_algorithm pool (getString params "algo") (getString params "blob") job;
      '(ok, job) ← job_work pool params job;
      if negb (ok : bool) then mret (inr 4)
      else
        '(ok, job) ← setTarget job (getString params "target");
        if negb (ok : bool) then mret (inr 5)
        else
          let job := setHeight job (getUint64 params "height") in
          if negb (verifyAlgorithm (m_algorithm job)) then mret (inr 6)
          else
            '(ok, job) ←
              (if negb (p_selfSelect pool) && (family (m_algorithm job) =? RANDOM_X)
               then setSeedHash job (getString params "seed_hash") else mret (true, job));
            if negb (ok : bool) then mret (inr 7)
            else job ← setSigKey job (getString params "sig_key"); mret (inl job).

Definition set_client_id : M unit := modify (set_ss (fun s => with_job (setClientId (s_job s) (s_rpcId s)) s)).

Definition parseJob (params : json) : M bool :=
  pool ← gets (fun c => f_pool (cf c));
  job ← new_job;
  r ← lift (read_job pool job params);
  match r with
  | inr _ => mret false
  | inl job =>
      _ ← set_client_id;
      old ← gets (fun c => s_job (ss c));
      if negb (isEqual old job) then _ ← take_job job; mret true
      else
        jobs ← gets (fun c => s_jobs (ss c));
        if jobs =? 0 then mret false
        else _ ← close; mret false
  end.

(** The blob of an LMT job: the hash before the work, the time, and a zero nonce. *)
Definition lmt_blob (prePow : mem) (ts : Z) : result (option mem) :=
  '(ok, hash) ← Cvt.Cvt.fromHex (replicate 32 0) 32 (Some prePow) 64;
  if negb (ok : bool) then mret None
  else
    hex ← Cvt.Cvt.cvt_bin2hex (replicate 97 0) 97 (hash ++ store_le 8 ts ++ replicate 8 0) 48;
    mret (cstr <$> hex).

(** [parseLmtNotify] before the comparison, with the error codes. *)
Definition read_lmt_job (job : Job) (params : json) : result (Job + Z) :=
  match params with
  | JArray (JString id :: JString prePow :: JNumber ts :: _ :: JString target :: _) =>
      if negb (isUint64 ts) then mret (inr 3)
      else
        let job := setAlgorithm (setId job (Some (cstr id))) RX_0 in
        if negb (verifyAlgorithm (m_algorithm job)) then mret (inr 5)
        else
          let prePow := cstr prePow in
          if negb (msize prePow =? 64) then mret (inr 6)
          else
            hex ← lmt_blob prePow ts;
            match hex with
            | None => mret (inr 7)
            | Some hex =>
                '(ok, job) ← setBlob job (Some hex);
                if negb (ok : bool) then mret (inr 8)
                else
                  '(ok, job) ← setSeedHash job (Some prePow);
                  if negb (ok : bool) then mret (inr 9)
                  else
                    '(ok, job) ← setTarget job (Some (cstr target));
                    if negb (ok : bool) then mret (inr 10) else mret (inl job)
            end
  | JArray (_ :: _ :: _ :: _ :: _ :: _) => mret (inr 3)
  | _ => mret (inr 2)
  end.

Definition parseLmtNotify (params : json) : M bool :=
  job ← new_job;
  r ← lift (read_lmt_job job params);
  match r with
  | inr _ => mret false
  | inl job =>
      _ ← set_client_id;
      old ← gets (fun c => s_job (ss c));
      if negb (isEqual old job) then _ ← take_job job; mret true else mret false
  end.

(** ** Login *)

Definition extension_of (name : mem) : option Extension :=
  if bool_decide (name = lit "algo") then Some EXT_ALGO
  else if bool_decide (name = lit "nicehash") then Some EXT_NICEHASH
  else if bool_decide (name = lit "connect") then Some EXT_CONNECT
  else if bool_decide (name = lit "keepalive") then Some EXT_KEEPALIVE
  else None.

Fixpoint extensions_loop (l : list json) : M unit :=
  match l with
  | [] => mret tt
  | JString name :: l =>
      _ ← match extension_of (cstr name) with
          | Some x =>
              _ ← modify (set_ss (fun s => with_extensions (x :: s_extensions s) s));
              when (bool_decide (x = EXT_KEEPALIVE)) startTimeout
          | None => mret tt
          end;
      extensions_loop l
  | _ :: l => extensions_loop l
  end.

Definition parseExtensions (result : json) : M unit :=
  _ ← modify (set_ss (with_extensions []));
  match getValue result "extensions" with
  | JArray l => extensions_loop l
  | _ => mret tt
  end.

Definition parseLogin (result : json) : M bool :=
  _ ← modify (set_ss (with_rpcId (getString result "id")));
  rpcId ← gets (fun c => s_rpcId (ss c));
  if isNull rpcId then mret false
  else
    _ ← parseExtensions result;
    rc ← parseJob (getObject result "job");
    _ ← modify (set_ss (with_jobs 0));
    mret rc.

(** [strstr(user, s) == user] *)
Definition starts_with (s user : mem) : bool := bool_decide (take (length s) user = s).

Definition login : M unit :=
  _ ← modify (set_ss (with_results ∅));
  user ← gets (fun c => f_user (cf c));
  match user with
  | None => fault
  | Some u =>
      if starts_with (lit "lmt:") u then
        _ ← modify (set_ss (with_lmt true false));
        _ ← send (create 1 "mining.subscribe" (JArray [JString (lit "xmrig-lmt/0.1")]));
        mret tt
      else
        password ← gets (fun c => f_password (cf c));
        agent ← gets (fun c => f_agent (cf c));
        rigId ← gets (fun c => f_rigId (cf c));
        let params := [(lit "login", JString u); (lit "pass", str_json password); (lit "agent", JString agent)] ++
                      match rigId with Some r => [(lit "rigid", JString r)] | None => [] end in
        _ ← listens;
        _ ← send (create 1 "login" (JObject (on_login E params)));
        mret tt
  end.

(** ** Results *)

(** A result of a worker, [net/JobResult.h]. *)
Record JobResult := mk_jobresult {
  jr_algorithm : Id; jr_clientId : str; jr_jobId : str; jr_backend : Z; jr_nonce : Z; jr_diff : Z;
  jr_result : mem; jr_signature : option mem }.

Definition actualDiff (r : JobResult) : result Z := x ← mload64 (jr_result r) 24; mret (toDiff x).

(** [Cvt::toHex] into a part of [m_tempBuf] with room for [room] characters. *)
Definition hex_text (room maxlen : Z) (bytes : mem) : result mem :=
  hex ← Cvt.Cvt.cvt_bin2hex (replicate (Z.to_nat room) 0) maxlen bytes (msize bytes);
  match hex with Some h => mret (cstr h) | None => Fault end.

Definition data {A} (s : option A) : result A := match s with Some x => mret x | None => Fault end.

Definition submit_request (c : client) (r : JobResult) : result json :=
  nonce ← hex_text 16 9 (store_le 4 (jr_nonce r));
  hash ← hex_text 72 65 (jr_result r);
  sig ← match jr_signature r with Some s => h ← hex_text 168 129 s; mret (Some h) | None => mret None end;
  jobId ← data (jr_jobId r);
  if s_lmtNative (ss c) then
    user ← data (f_user (cf c));
    mret (create (sequence c) "mining.submit" (JArray [JString user; JString jobId; JString nonce; JNumber 0]))
  else
    rpcId ← data (s_rpcId (ss c));
    mret (create (sequence c) "submit" (JObject (
      [(lit "id", JString rpcId); (lit "job_id", JString jobId); (lit "nonce", JString nonce); (lit "result", JString hash)] ++
      match sig with Some h => [(lit "sig", JString h)] | None => [] end ++
      if has EXT_ALGO c && Algorithm.Algorithm.isValid (jr_algorithm r) then [(lit "algo", JString (lit (name (jr_algorithm r))))] else []))).

Definition submit (r : JobResult) : M Z :=
  rpcId ← gets (fun c => s_rpcId (ss c));
  state ← gets (fun c => c_state (cn c));
  if negb (isEqual_str (jr_clientId r) rpcId) || isNull rpcId || negb (is_state state ConnectedState) then mret (-1)
  else if jr_diff r =? 0 then _ ← close; mret (-1)
  else
    c ← gets id;
    doc ← lift (submit_request c r);
    actual ← lift (actualDiff r);
    _ ← modify (set_ss (with_results (<[sequence c := mk_result (sequence c) (jr_diff r) actual (jr_backend r) (now E)]> (s_results (ss c)))));
    send doc.

Definition handleSubmitResponse (id : Z) (error : option mem) : M bool :=
  results ← gets (fun c => s_results (ss c));
  match results !! id with
  | Some r =>
      _ ← tell (ResultAccepted r (u64 (now E - sr_start r)) error);
      _ ← modify (set_ss (with_results (delete id results)));
      mret true
  | None => mret false
  end.

Definition handleResponse (id : Z) (result error : json) : M bool :=
  if id =? 1 then mret false
  else
    callbacks ← gets (fun c => s_callbacks (ss c));
    if bool_decide (id ∈ callbacks) then
      _ ← emit (if is_object error then Callback id false error else Callback id true result);
      _ ← modify (set_ss (with_callbacks (callbacks ∖ {[id]})));
      mret true
    else mret false.

(** ** Messages of the pool *)

Definition isCriticalError (message : mem) : bool :=
  Url.Url.starts_with_nocase (lit "Unauthenticated") message || Url.Url.starts_with_nocase (lit "your IP is banned") message ||
  Url.Url.starts_with_nocase (lit "IP Address currently banned") message || Url.Url.starts_with_nocase (lit "Invalid job id") message.

(** [error["message"].GetString()] needs a string there. *)
Definition error_message (error : json) : result mem :=
  match error with
  | JObject l => match find_member l (lit "message") with Some (JString s) => mret (cstr s) | _ => Fault end
  | _ => Fault
  end.

Definition parseResponse (id : Z) (result error : json) : M unit :=
  handled ← handleResponse id result error;
  if (handled : bool) then mret tt
  else if is_object error then
    message ← lift (error_message error);
    _ ← handleSubmitResponse id (Some message);
    n ← gets (fun c => f_id (cf c));
    when ((n =? 1) || isCriticalError message) (_ ← close; mret tt)
  else if negb (is_object result) then mret tt
  else
    lmt ← gets (fun c => s_lmtNative (ss c));
    if lmt && (id =? 1) then
      user ← gets (fun c => f_user (cf c));
      password ← gets (fun c => f_password (cf c));
      u ← lift (data user);
      p ← lift (data password);
      _ ← send (create 2 "mining.authorize" (JArray [JString u; JString p]));
      mret tt
    else if lmt && (id =? 2) then
      _ ← modify (set_ss (with_lmt true true));
      _ ← modify (set_cn (with_failures 0));
      tell LoginSuccess
    else if id =? 1 then
      ok ← parseLogin result;
      if negb (ok : bool) then _ ← close; mret tt
      else
        _ ← modify (set_cn (with_failures 0));
        _ ← tell LoginSuccess;
        job ← gets (fun c => s_job (ss c));
        when (Job.Job.isValid job) (tell (JobReceived job))
    else _ ← handleSubmitResponse id None; mret tt.

Definition parseNotification (method : mem) (params : json) : M unit :=
  if bool_decide (method = lit "mining.notify") then
    ok ← parseLmtNotify params;
    job ← gets (fun c => s_job (ss c));
    when ok (tell (JobReceived job))
  else if bool_decide (method = lit "job") then
    ok ← parseJob params;
    job ← gets (fun c => s_job (ss c));
    if (ok : bool) then tell (JobReceived job) else _ ← close; mret tt
  else mret tt.

(** [m_pool.setUrl(url)] *)
Definition set_pool_url (url : mem) (f : conf) : conf :=
  let p := f_pool f in
  mk_conf (f_id f)
    (mk_pool (p_algorithm p) (p_coin p) (p_nicehash p) (p_keepAlive p) (p_selfSelect p) (Url.Url.of_string (Some url)) (p_proxy p))
    (f_user f) (f_password f) (f_rigId f) (f_agent f) (f_retryPause f).

Definition client_reconnect (params : json) : M unit :=
  match params with
  | JArray [JString host; JString port] =>
      _ ← modify (set_cf (set_pool_url (cstr host ++ lit ":" ++ cstr port)));
      reconnect
  | _ => mret tt
  end.

(** A message that was read. *)
Definition dispatch (doc : json) : M unit :=
  let id := getValue doc "id" in
  let error := getValue doc "error" in
  let method := getString doc "method" in
  if match method with Some m => bool_decide (m = lit "client.reconnect") | None => false end
  then client_reconnect (getValue doc "params")
  else match id with
       | JNumber n =>
           if isInt64 n then parseResponse n (getValue doc "result") error
           else match method with
                | None => mret tt
                | Some m => if is_object error then mret tt else parseNotification m (getValue doc "params")
                end
       | _ => match method with
              | None => mret tt
              | Some m => if is_object error then mret tt else parseNotification m (getValue doc "params")
              end
       end.

(** The reader of JSON goes up to the zero byte. *)
Definition terminated (text : mem) : result mem := if existsb (Z.eqb 0) text then mret (cstr text) else Fault.

(** [parse(char *line, size_t len)] *)
Definition parse_line (l : LineReader.LineReader.line) : M unit :=
  let text := LineReader.LineReader.l_mem l in
  _ ← startTimeout;
  c0 ← lift (aget text 0);
  if (LineReader.LineReader.l_len l <? 22) || negb (c0 =? 123) then mret tt
  else
    text ← lift (terminated text);
    match read_json E text with
    | Some (JObject l) => dispatch (JObject l)
    | _ => mret tt
    end.

Fixpoint parse_lines (l : list LineReader.LineReader.line) : M unit :=
  match l with
  | [] => mret tt
  | x :: l => _ ← parse_line x; parse_lines l
  end.

(** ** SOCKS5 *)

Definition socks_handshake : M unit :=
  _ ← modify (set_socks (Some (mk_socks SentInitialHandshake 2)));
  _ ← write [5; 1; 0];
  mret tt.

Definition socks_connect : M unit :=
  _ ← modify (set_socks (Some (mk_socks SentFinalHandshake 5)));
  pool ← gets (fun c => f_pool (cf c));
  let host := default [] (Url.Url.m_host (p_url pool)) in
  let port := Url.Url.m_port (p_url pool) in
  let addr := match ipv4 E host with
              | Some a => 1 :: a
              | None => match ipv6 E host with Some a => 4 :: a | None => 3 :: u8 (msize host) :: host end
              end in
  _ ← write ([5; 1; 0] ++ addr ++ [port / 256; port mod 256]);
  mret tt.

Definition socks_read (k : socks5) (bytes : mem) : M unit :=
  if msize bytes <? k_nextSize k then mret tt
  else
    b0 ← lift (aget bytes 0);
    ok ← (if b0 =? 5 then b1 ← lift (aget bytes 1); mret (b1 =? 0) else mret false);
    if (ok : bool) then
      match k_state k with
      | SentInitialHandshake => socks_connect
      | _ => modify (set_socks (Some (mk_socks Ready (k_nextSize k))))
      end
    else _ ← close; mret tt.

(** ** The connection *)

Definition handshake : M unit :=
  k ← gets socks;
  match k with Some _ => socks_handshake | None => login end.

(** [onConnect(req, status)] *)
Definition onConnect (status : Z) : M unit :=
  state ← gets (fun c => c_state (cn c));
  if status <? 0 then when (is_state state ConnectingState) (_ ← close; mret tt)
  else if is_state state ConnectedState then mret tt
  else _ ← setState ConnectedState; _ ← stream; handshake.

(** [read(nread, buf)] for a buffer, with a fresh chunk for [LineReader]. *)
Definition read (fresh bytes : mem) : M unit :=
  l ← gets listener;
  if negb l then reconnect
  else
    k ← gets socks;
    match k with
    | Some k =>
        _ ← socks_read k bytes;
        k ← gets socks;
        match k with
        | Some (mk_socks Ready _) => _ ← modify (set_socks None); handshake
        | _ => mret tt
        end
    | None =>
        r ← gets reader;
        '(r, lines) ← lift (LineReader.LineReader.parse r fresh bytes);
        _ ← modify (set_reader r);
        parse_lines lines
    end.

(** [read] with an error or the end of the stream. *)
Definition read_error : M unit := _ ← close; mret tt.

(** ** Everything that can call the client *)

Inductive call :=
| Connect | Disconnect | DeleteLater
| Tick (t : Z)
| Resolved (records : bool) (status : Z)
| ConnectDone (status : Z)
| Data (fresh bytes : mem)
| ReadError
| CloseDone
| SubmitJob (r : JobResult).

(** A removed client was deleted.  The callbacks of the loop look it up in the storage
    and find nothing, and those of a name lookup are dropped with it; what its owner
    calls is undefined. *)
Definition from_loop (i : call) : bool :=
  match i with Resolved _ _ | ConnectDone _ | Data _ _ | ReadError | CloseDone => true | _ => false end.

Definition handle (i : call) : M Z :=
  gone ← gets removed;
  if (gone : bool) then if from_loop i then mret 0 else fault
  else match i with
       | Connect => _ ← connect; mret 0
       | Disconnect => _ ← disconnect; mret 0
       | DeleteLater => _ ← deleteLater; mret 0
       | Tick t => _ ← tick t; mret 0
       | Resolved records status => _ ← onResolved records status; mret 0
       | ConnectDone status => _ ← onConnect status; mret 0
       | Data fresh bytes => _ ← read fresh bytes; mret 0
       | ReadError => _ ← read_error; mret 0
       | CloseDone => _ ← onClose; mret 0
       | SubmitJob r => submit r
       end.

End Handlers.

(** A history: each call finds its own surroundings. *)
Fixpoint history (l : list (env * call)) : M unit :=
  match l with
  | [] => mret tt
  | (E, i) :: l => _ ← handle E i; history l
  end.

End Client.
