(* ===== verification/Nonce.v ===== *)
(** * Nonces (crypto/common/Nonce.h, Nonce.cpp)

    The counters from which all workers reserve nonces.  [fetch_add] is the atomic
    operation on a counter and [verdict_of] what [next] makes of its value; between
    two of them other threads can change the counter, which is the subject of
    Mining.v.  [next] is the whole function as one thread runs it alone. *)
From Stdlib Require Import ZArith Lia.
From stdpp Require Import base numbers list.
From S2P Require Import Prelude Memory.
Open Scope Z_scope.

Module Nonce.

(** [enum Backend] *)
Definition CPU : Z := 0.
Definition OPENCL : Z := 1.
Definition CUDA : Z := 2.

Record nonce_state := mk_nonce { m_paused : bool; m_sequence : list Z; m_nonces : list Z }.

Definition initial : nonce_state := mk_nonce true [1; 1; 1] [0; 0].

Definition isOutdated (g : nonce_state) (backend sequence : Z) : result bool :=
  s ← aget (m_sequence g) backend; mret (negb (s =? sequence)).
Definition isPaused (g : nonce_state) : bool := m_paused g.
Definition sequence (g : nonce_state) (backend : Z) : result Z := aget (m_sequence g) backend.
Definition pause (g : nonce_state) (paused : bool) : nonce_state := mk_nonce paused (m_sequence g) (m_nonces g).
Definition reset (g : nonce_state) (index : Z) : result nonce_state :=
  l ← aset (m_nonces g) index 0; mret (mk_nonce (m_paused g) (m_sequence g) l).
Definition stop_backend (g : nonce_state) (backend : Z) : result nonce_state :=
  l ← aset (m_sequence g) backend 0; mret (mk_nonce (m_paused g) l (m_nonces g)).
Definition touch_backend (g : nonce_state) (backend : Z) : result nonce_state :=
  s ← aget (m_sequence g) backend;
  l ← aset (m_sequence g) backend (u64 (s + 1)); mret (mk_nonce (m_paused g) l (m_nonces g)).
Definition stop (g : nonce_state) : nonce_state := mk_nonce false ((fun _ => 0) <$> m_sequence g) (m_nonces g).
Definition touch (g : nonce_state) : nonce_state :=
  mk_nonce (m_paused g) ((fun i => u64 (i + 1)) <$> m_sequence g) (m_nonces g).

(** [m_nonces[index].fetch_add(n)] *)
Definition fetch_add (g : nonce_state) (index n : Z) : result (Z * nonce_state) :=
  c ← aget (m_nonces g) index;
  l ← aset (m_nonces g) index (u64 (c + n));
  mret (c, mk_nonce (m_paused g) (m_sequence g) l).

(** What [next] does with a value of the counter: give up or take it, pausing
    the workers or not, or ask for the next one. *)
Inductive verdict := Exhausted (pausing : bool) | Retry | Take (pausing : bool).

Definition verdict_of (counter reserveCount mask : Z) : verdict :=
  if mask <? counter then Exhausted false
  else if mask - counter <=? reserveCount - 1 then
    if mask - counter <? reserveCount - 1 then Exhausted true else Take true
  else if 0xFFFFFFFF - u32 counter <? reserveCount - 1 then Retry
  else Take false.

Definition pause_if (b : bool) (g : nonce_state) : nonce_state := if b then pause g true else g.

(** The nonce at [off]: its bits outside of [mask] stay, the counter fills the rest. *)
Definition write_nonce (blob : mem) (off counter mask : Z) : result mem :=
  w ← mload32 blob off;
  blob ← mstore blob off (store_le 4 (u32 (Z.lor (Z.land w (not64 mask)) counter)));
  if 0xFFFFFFFF <? mask then
    w ← mload32 blob (off + 4);
    mstore blob (off + 4) (store_le 4 (u32 (Z.lor (Z.land w (Z.shiftr (not64 mask) 32)) (Z.shiftr counter 32))))
  else mret blob.

Definition MASK63 : Z := 0x7FFFFFFFFFFFFFFF.

(** The test before the loop, on the mask without its highest bit. *)
Definition reservable (reserveCount mask : Z) : bool :=
  negb ((reserveCount =? 0) || (mask <? u32 (reserveCount - 1))).

Fixpoint next_loop (fuel : nat) (g : nonce_state) (index : Z) (blob : mem) (off reserveCount mask : Z)
    : result (bool * nonce_state * mem) :=
  match fuel with
  | O => OutOfFuel
  | S fuel =>
      '(counter, g) ← fetch_add g index reserveCount;
      match verdict_of counter reserveCount mask with
      | Exhausted p => mret (false, pause_if p g, blob)
      | Retry => next_loop fuel g index blob off reserveCount mask
      | Take p => blob ← write_nonce blob off counter mask; mret (true, pause_if p g, blob)
      end
  end.

(** Every round adds [reserveCount] to the counter, and the loop ends above [mask]. *)
Definition next_fuel (reserveCount mask : Z) : nat := Z.to_nat (mask / reserveCount + 2).

Definition next (g : nonce_state) (index : Z) (blob : mem) (off reserveCount mask : Z)
    : result (bool * nonce_state * mem) :=
  let mask := Z.land mask MASK63 in
  if negb (reservable reserveCount mask) then mret (false, g, blob)
  else next_loop (next_fuel reserveCount mask) g index blob off reserveCount mask.

(** [fetch_add] on an existing counter. *)
Lemma fetch_add_ok g index n c : 0 <= index -> m_nonces g !! Z.to_nat index = Some c ->
  exists g', fetch_add g index n = Ok (c, g') /\ m_nonces g' !! Z.to_nat index = Some (u64 (c + n)).
Proof.
  intros Hi E. pose proof (lookup_lt_Some _ _ _ E) as Hl. unfold fetch_add, aget. rewrite (proj2 (Z.ltb_ge _ _)) by lia.
  rewrite E. rewrite ok_bind, aset_ok, ok_bind by lia. eexists. split; [done|]. by apply list_lookup_insert_eq.
Qed.

(** A counter that is skipped leaves room for another reservation. *)
Lemma retry_room counter rc mask : verdict_of counter rc mask = Retry -> counter + rc <= mask.
Proof. unfold verdict_of. repeat case_match; try discriminate. intros _. lia. Qed.

(** The blob that [next] leaves: the same one, or one with a number of the range. *)
Definition renewed (b : mem) (off mask : Z) (b' : mem) : Prop :=
  b' = b \/ exists n, 0 <= n <= mask /\ write_nonce b off n mask = Ok b'.

(** A reservation of [rc] numbers can still be made from the counter: one of its next
    values leaves room below [mask], and the low half of the numbers does not overflow
    unless they are the last ones. *)
Definition available (c rc mask : Z) : Prop :=
  exists j, 0 <= j /\ c + j * rc + (rc - 1) <= mask /\
    (c + j * rc + (rc - 1) = mask \/ (c + j * rc) mod 2 ^ 32 + (rc - 1) < 2 ^ 32).

Lemma verdict_available c rc mask : 0 < rc -> match verdict_of c rc mask with
  | Exhausted _ => ~ available c rc mask
  | Take _ => available c rc mask
  | Retry => available c rc mask <-> available (c + rc) rc mask
  end.
Proof.
  intros Hrc. unfold verdict_of. rewrite u32_mod. destruct (Z.ltb_spec mask c); [intros (j & Hj & H1 & _); nia|].
  destruct (Z.leb_spec (mask - c) (rc - 1)).
  - destruct (Z.ltb_spec (mask - c) (rc - 1)); [intros (j & Hj & H2 & _); nia|]. exists 0. rewrite Z.mul_0_l, Z.add_0_r. lia.
  - destruct (Z.ltb_spec (0xFFFFFFFF - c mod 2 ^ 32) (rc - 1)).
    + split; intros (j & Hj & H2 & H3).
      * destruct (decide (j = 0)) as [->|Hj0]; [rewrite Z.mul_0_l, Z.add_0_r in *; lia|]. exists (j - 1).
        replace (c + rc + (j - 1) * rc) with (c + j * rc) by ring. split; [lia|done].
      * exists (j + 1). replace (c + (j + 1) * rc) with (c + rc + j * rc) by ring. split; [lia|done].
    + exists 0. rewrite Z.mul_0_l, Z.add_0_r. lia.
Qed.

(** The rounds of [next_fuel] are enough, and [next] succeeds while there are numbers. *)
Lemma next_loop_returns fuel : forall g index b off rc mask c, 0 <= index -> m_nonces g !! Z.to_nat index = Some c ->
  0 < rc < 2 ^ 32 -> 0 <= c -> mask < 2 ^ 63 -> (0 < fuel)%nat -> mask < c + Z.of_nat fuel * rc ->
  (forall n, 0 <= n <= mask -> exists b', write_nonce b off n mask = Ok b') ->
  exists ok g' b', next_loop fuel g index b off rc mask = Ok (ok, g', b') /\ renewed b off mask b' /\ (ok = true <-> available c rc mask).
Proof.
  induction fuel as [|fuel IH]; [lia|]. intros g index b off rc mask c Hi Ec Hrc Hc Hm _ Hf Hw. cbn [next_loop].
  destruct (fetch_add_ok g index rc c Hi Ec) as (g' & -> & Ec'). rewrite ok_bind. pose proof (verdict_available c rc mask ltac:(lia)) as Hav.
  destruct (verdict_of c rc mask) as [p| |p] eqn:Ev; [by eexists _, _, _; split; [done|]; split; [left|]| |].
  - apply retry_room in Ev. rewrite u64_id in Ec' by (unfold is_u64; lia). setoid_rewrite Hav.
    apply (IH g' index b off rc mask (c + rc)); try lia; try done.
  - assert (0 <= c <= mask) as Hcm by (revert Ev; unfold verdict_of; repeat case_match; try discriminate; lia).
    destruct (Hw c Hcm) as [b' Ew]. rewrite Ew. eexists _, _, _. split; [done|]. split; [right; by exists c|done].
Qed.

Lemma next_returns g index b off rc mask c : 0 <= index -> m_nonces g !! Z.to_nat index = Some c ->
  0 < rc < 2 ^ 32 -> 0 <= c -> 0 <= mask ->
  (forall n, 0 <= n <= Z.land mask MASK63 -> exists b', write_nonce b off n (Z.land mask MASK63) = Ok b') ->
  exists ok g' b', next g index b off rc mask = Ok (ok, g', b') /\ renewed b off (Z.land mask MASK63) b' /\
    (ok = true <-> available c rc (Z.land mask MASK63)).
Proof.
  intros Hi Ec Hrc Hc Hm Hw. unfold next. destruct (reservable rc (Z.land mask MASK63)) eqn:Er; cbn [negb].
  2: { eexists _, _, _. split; [done|]. split; [by left|]. split; [done|]. intros (j & Hj & H1 & _). revert Er. unfold reservable.
    rewrite (proj2 (Z.eqb_neq rc 0)), u32_id by (unfold is_u32; lia). cbn. intros H2%negb_false_iff%Z.ltb_lt. nia. }
  assert (0 <= Z.land mask MASK63 < 2 ^ 63) as HM.
  { unfold MASK63. change 0x7FFFFFFFFFFFFFFF with (Z.ones 63). rewrite Z.land_ones by lia. apply Z.mod_pos_bound; lia. }
  set (M := Z.land mask MASK63) in *. pose proof (Z.div_mod M rc ltac:(lia)). pose proof (Z.mod_pos_bound M rc ltac:(lia)).
  assert (0 <= M / rc) by (apply Z.div_pos; lia).
  apply (next_loop_returns _ g index b off rc M c); try lia; try done; unfold next_fuel; rewrite ?Z2Nat.id by lia; lia || nia.
Qed.

End Nonce.
