(* ===== verification/WorkerJob.v ===== *)
(** * The job of a worker (backend/common/WorkerJob.h)

    A worker keeps two jobs (the user's and the donation's) with the blobs it hashes,
    [N] of them one behind the other, and moves their nonces on.  The class has
    its own versions of the operations for [N = 1], here with the suffix 1. *)
From Stdlib Require Import ZArith Lia.
From stdpp Require Import base numbers list.
From S2P Require Import Prelude Memory Algorithm Job Nonce.
Import Job.Job Nonce.Nonce.
Open Scope Z_scope.

Module WorkerJob.

Record WorkerJob := mk_worker {
  m_blobs : list mem; m_jobs : list Job; m_rounds : list Z; m_nonce_mask : list Z; w_sequence : Z; w_index : Z }.

Definition make_worker (N : Z) : WorkerJob :=
  mk_worker (replicate 2 (replicate (Z.to_nat (kMaxBlobSize * N)) 0)) [Job.Job.empty; Job.Job.empty] [0; 0] [0; 0] 0 0.

Definition currentJob (w : WorkerJob) : result Job := aget (m_jobs w) (w_index w).
Definition blob (w : WorkerJob) : result mem := aget (m_blobs w) (w_index w).
Definition w_nonceMask (w : WorkerJob) : result Z := aget (m_nonce_mask w) (w_index w).

Definition set_w_blob (w : WorkerJob) (b : mem) : result WorkerJob :=
  l ← aset (m_blobs w) (w_index w) b;
  mret (mk_worker l (m_jobs w) (m_rounds w) (m_nonce_mask w) (w_sequence w) (w_index w)).
Definition set_w_job (w : WorkerJob) (j : Job) : result WorkerJob :=
  l ← aset (m_jobs w) (w_index w) j;
  mret (mk_worker (m_blobs w) l (m_rounds w) (m_nonce_mask w) (w_sequence w) (w_index w)).
Definition set_w_rounds (w : WorkerJob) (r : Z) : result WorkerJob :=
  l ← aset (m_rounds w) (w_index w) r;
  mret (mk_worker (m_blobs w) (m_jobs w) l (m_nonce_mask w) (w_sequence w) (w_index w)).
Definition set_w_mask (w : WorkerJob) (m : Z) : result WorkerJob :=
  l ← aset (m_nonce_mask w) (w_index w) m;
  mret (mk_worker (m_blobs w) (m_jobs w) (m_rounds w) l (w_sequence w) (w_index w)).
Definition set_w_index (w : WorkerJob) (i : Z) : WorkerJob :=
  mk_worker (m_blobs w) (m_jobs w) (m_rounds w) (m_nonce_mask w) (w_sequence w) i.
Definition set_w_sequence (w : WorkerJob) (s : Z) : WorkerJob :=
  mk_worker (m_blobs w) (m_jobs w) (m_rounds w) (m_nonce_mask w) s (w_index w).

(** The place of [nonce(i)] in the blob. *)
Definition nonce_at (w : WorkerJob) (i : Z) : result Z :=
  j ← currentJob w; mret (i * m_size j + nonceOffset j).

(** ** [N] blobs *)

(** [Nonce::next] of each blob in [save], whose answers are not looked at. *)
Fixpoint save_loop (n : nat) (i : Z) (g : nonce_state) (w : WorkerJob) (job : Job) (reserveCount : Z)
    : result (nonce_state * WorkerJob) :=
  match n with
  | O => mret (g, w)
  | S n =>
      b ← blob w;
      src ← mload (m_blob job) 0 (m_size job);
      b ← mstore b (i * m_size job) src;
      off ← nonce_at w i;
      mask ← w_nonceMask w;
      '(_, g, b) ← next g (w_index w) b off reserveCount mask;
      w ← set_w_blob w b;
      save_loop n (i + 1) g w job reserveCount
  end.

(** The part of [save] before the blobs are copied. *)
Definition save_job (w : WorkerJob) (job : Job) (backend : Z) : result WorkerJob :=
  let w := set_w_index w (m_index job) in
  w ← set_w_job w (copy Job.Job.empty job);
  w ← set_w_rounds w 0;
  mask ← nonceMask job;
  w ← set_w_mask w mask;
  j ← currentJob w;
  set_w_job w (setBackend j backend).

Definition save (N : nat) (g : nonce_state) (w : WorkerJob) (job : Job) (reserveCount backend : Z)
    : result (nonce_state * WorkerJob) :=
  w ← save_job w job backend;
  save_loop N 0 g w job reserveCount.

Fixpoint next_each (n : nat) (i : Z) (g : nonce_state) (w : WorkerJob) (reserveCount : Z)
    : result (bool * nonce_state * WorkerJob) :=
  match n with
  | O => mret (true, g, w)
  | S n =>
      b ← blob w;
      off ← nonce_at w i;
      mask ← w_nonceMask w;
      '(ok, g, b) ← next g (w_index w) b off reserveCount mask;
      w ← set_w_blob w b;
      if negb (ok : bool) then mret (false, g, w) else next_each n (i + 1) g w reserveCount
  end.

(** [writeUnaligned(nonce(i), readUnaligned(nonce(i)) + roundSize)] *)
Definition add_nonce (w : WorkerJob) (i roundSize : Z) : result WorkerJob :=
  b ← blob w;
  off ← nonce_at w i;
  x ← mload32 b off;
  b ← mstore b off (store_le 4 (u32 (x + roundSize)));
  set_w_blob w b.

Fixpoint add_each (n : nat) (i : Z) (w : WorkerJob) (roundSize : Z) : result WorkerJob :=
  match n with
  | O => mret w
  | S n => w ← add_nonce w i roundSize; add_each n (i + 1) w roundSize
  end.

(** [m_rounds[index()]++], and whether the reserved nonces are used up. *)
Definition begin_round (w : WorkerJob) (rounds : Z) : result (bool * WorkerJob) :=
  r ← aget (m_rounds w) (w_index w);
  w ← set_w_rounds w (u32 (r + 1));
  mret (Z.land (u32 (r + 1)) (u32 (rounds - 1)) =? 0, w).

Definition nextRound (N : nat) (g : nonce_state) (w : WorkerJob) (rounds roundSize : Z)
    : result (bool * nonce_state * WorkerJob) :=
  '(used_up, w) ← begin_round w rounds;
  if (used_up : bool) then next_each N 0 g w (u32 (rounds * roundSize))
  else w ← add_each N 0 w roundSize; mret (true, g, w).

(** ** One blob *)

Definition nonce_at1 (w : WorkerJob) : result Z := j ← currentJob w; mret (nonceOffset j).

Definition copy_blob1 (w : WorkerJob) (job : Job) : result WorkerJob :=
  b ← blob w;
  src ← mload (m_blob job) 0 (m_size job);
  b ← mstore b 0 src;
  set_w_blob w b.

Definition save1 (g : nonce_state) (w : WorkerJob) (job : Job) (reserveCount backend : Z)
    : result (nonce_state * WorkerJob) :=
  w ← save_job w job backend;
  w ← copy_blob1 w job;
  b ← blob w;
  off ← nonce_at1 w;
  mask ← w_nonceMask w;
  '(_, g, b) ← next g (w_index w) b off reserveCount mask;
  w ← set_w_blob w b;
  mret (g, w).

(** The high half of an eight byte nonce goes to the job too. *)
Definition copy_high (w : WorkerJob) : result WorkerJob :=
  j ← currentJob w;
  if nonceSize j =? 8 then
    b ← blob w;
    hi ← mload b (nonceOffset j + 4) 4;
    jb ← mstore (m_blob j) (nonceOffset j + 4) hi;
    set_w_job w (set_blob j jb)
  else mret w.

Definition add_nonce1 (w : WorkerJob) (roundSize : Z) : result WorkerJob :=
  b ← blob w;
  off ← nonce_at1 w;
  x ← mload32 b off;
  b ← mstore b off (store_le 4 (u32 (x + roundSize)));
  set_w_blob w b.

Definition nextRound1 (g : nonce_state) (w : WorkerJob) (rounds roundSize : Z)
    : result (bool * nonce_state * WorkerJob) :=
  '(used_up, w) ← begin_round w rounds;
  if (used_up : bool) then
    b ← blob w;
    off ← nonce_at1 w;
    mask ← w_nonceMask w;
    '(ok, g, b) ← next g (w_index w) b off (u32 (rounds * roundSize)) mask;
    w ← set_w_blob w b;
    if negb (ok : bool) then mret (false, g, w)
    else w ← copy_high w; mret (true, g, w)
  else
    w ← add_nonce1 w roundSize;
    mret (true, g, w).

(** ** [add], for any version of [save] *)

Definition add (save : nonce_state -> WorkerJob -> Job -> Z -> Z -> result (nonce_state * WorkerJob))
    (g : nonce_state) (w : WorkerJob) (job : Job) (reserveCount backend : Z) : result (nonce_state * WorkerJob) :=
  s ← sequence g backend;
  let w := set_w_sequence w s in
  j ← currentJob w;
  if isEqual j job then mret (g, w)
  else
    j0 ← aget (m_jobs w) 0;
    if (w_index w =? 1) && (m_index job =? 0) && isEqual job j0 then mret (g, set_w_index w 0)
    else save g w job reserveCount backend.

End WorkerJob.
