(* ===== verification/Mining.v ===== *)
(** * Workers that share the nonces

    Any number of workers hash the same job at the same time.  A worker's loop is
    split where other threads can come between: the atomic [fetch_add] of
    [Nonce::next], and the hashing of a nonce with the thread's own part of
    [nextRound].  The theorem is that in every interleaving all nonces that are
    hashed are different and keep the bits the pool has fixed. *)
From Stdlib Require Import ZArith Lia.
From stdpp Require Import base numbers list relations.
From S2P Require Import Prelude Memory Algorithm Job Nonce WorkerJob.
Import Algorithm.Algorithm Job.Job Nonce.Nonce WorkerJob.WorkerJob.
Open Scope Z_scope.

Module Mining.

(** ** The nonce in a blob *)

(** The bytes of the nonce under a mask of [k] bits. *)
Definition nonce_bytes (k : Z) : Z := if 32 <? k then 8 else 4.
Definition nval (k : Z) (b : mem) (off : Z) : Z := load_le (chunk b off (nonce_bytes k)).

Lemma not64_mask k v : 0 <= k <= 64 -> is_u64 v -> Z.land v (not64 (2 ^ k - 1)) = 2 ^ k * (v / 2 ^ k).
Proof.
  intros Hk Hv. replace (2 ^ k - 1) with (Z.ones k) by (rewrite Z.ones_equiv; lia). unfold not64, u64, is_u64 in *.
  change 0xFFFFFFFFFFFFFFFF with (Z.ones 64). rewrite (Z.land_comm (Z.lnot _)), Z.land_assoc, Z.land_ones, Z.mod_small by lia.
  rewrite <- Z.ldiff_land, Z.ldiff_ones_r, Z.shiftl_mul_pow2, Z.shiftr_div_pow2 by lia. lia.
Qed.

Lemma not64_mask_high k w : 32 <= k <= 64 -> is_u32 w ->
  Z.land w (Z.shiftr (not64 (2 ^ k - 1)) 32) = 2 ^ (k - 32) * (w / 2 ^ (k - 32)).
Proof.
  intros Hk Hw. unfold is_u32 in Hw. set (N := not64 (2 ^ k - 1)).
  assert (Z.land w (Z.shiftr N 32) = Z.shiftr (Z.land (Z.shiftl w 32) N) 32) as ->.
  { rewrite Z.shiftr_land, Z.shiftr_shiftl_l, Z.sub_diag, Z.shiftl_0_r by lia. done. }
  unfold N. rewrite Z.shiftl_mul_pow2, not64_mask, Z.shiftr_div_pow2 by (unfold is_u64; lia).
  replace (2 ^ k) with (2 ^ 32 * 2 ^ (k - 32)) by (rewrite <- Z.pow_add_r by lia; f_equal; lia).
  rewrite (Z.mul_comm w), Z.div_mul_cancel_l by lia. rewrite <- Z.mul_assoc, Z.mul_comm, Z.div_mul by lia. done.
Qed.

(** The two parts of a nonce that a mask of [k] bits separates. *)
Lemma lor_parts k q x : 0 <= k -> 0 <= x < 2 ^ k -> Z.lor (2 ^ k * q) x = 2 ^ k * q + x.
Proof.
  intros Hk Hx. rewrite Z.lor_comm. replace (2 ^ k * q) with (Z.shiftl q k) by (rewrite Z.shiftl_mul_pow2; lia).
  rewrite lor_shiftl_add, Z.shiftl_mul_pow2 by lia. lia.
Qed.

Lemma parts_range n k w c : 0 <= k <= n -> 0 <= w < 2 ^ n -> 0 <= c < 2 ^ k -> 0 <= 2 ^ k * (w / 2 ^ k) + c < 2 ^ n.
Proof.
  intros Hk Hw Hc. assert (2 ^ n = 2 ^ k * 2 ^ (n - k)) as Hp by (rewrite <- Z.pow_add_r by lia; f_equal; lia).
  assert (0 <= w / 2 ^ k < 2 ^ (n - k)) by (split; [apply Z.div_pos|apply Z.div_lt_upper_bound]; lia). nia.
Qed.

Lemma nval_range k b off : Forall is_u8 b -> 0 <= off -> off + nonce_bytes k <= msize b ->
  0 <= nval k b off < 2 ^ (8 * nonce_bytes k).
Proof.
  intros HB Ho Hs. unfold nval. pose proof (load_le_bound (chunk b off (nonce_bytes k)) (chunk_bytes _ _ _ HB)) as H.
  rewrite length_chunk in H; [|lia|unfold nonce_bytes; case_match; lia|done].
  rewrite Z2Nat.id in H by (unfold nonce_bytes; case_match; lia). done.
Qed.

(** Two words one behind the other. *)
Lemma load_words b off : Forall is_u8 b -> 0 <= off -> off + 8 <= msize b ->
  load_le (chunk b off 8) = load_le (chunk b off 4) + 2 ^ 32 * load_le (chunk b (off + 4) 4).
Proof.
  intros HB Ho Hs. assert (chunk b off 8 = chunk b off 4 ++ chunk b (off + 4) 4) as ->.
  { unfold chunk. rewrite Z2Nat.inj_add by lia. change (Z.to_nat 8) with (4 + 4)%nat. change (Z.to_nat 4) with 4%nat.
    by rewrite <- (drop_drop b 4), take_take_drop. }
  rewrite load_le_app by by apply chunk_bytes. by rewrite length_chunk by lia.
Qed.

(** Storing a word. *)
Lemma store_word b off x : Forall is_u8 b -> 0 <= off -> off + 4 <= msize b -> is_u32 x ->
  exists b', mstore b off (store_le 4 x) = Ok b' /\ msize b' = msize b /\ Forall is_u8 b' /\
    load_le (chunk b' off 4) = x /\ (forall p, off + 4 <= p -> p + 4 <= msize b -> chunk b' p 4 = chunk b p 4) /\
    (forall p, 0 <= p -> p + 4 <= off -> chunk b' p 4 = chunk b p 4).
Proof.
  intros HB Ho Hs Hx. assert (length (store_le 4 x) = 4%nat) as Hl by by apply length_store_le.
  exists (splice b off (store_le 4 x)). rewrite mstore_ok by (rewrite ?Hl; lia). split; [done|].
  split; [apply msize_splice; rewrite ?Hl; lia|]. split; [by apply splice_bytes, store_le_bytes|].
  split; [|split].
  - pose proof (chunk_splice_same b off (store_le 4 x) Ho ltac:(lia)) as E. rewrite Hl in E. change (Z.of_nat 4) with 4 in E.
    rewrite E, load_store_le by lia. unfold is_u32 in Hx. by rewrite Z.mod_small by lia.
  - intros p Hp Hps. apply chunk_splice_after; rewrite ?Hl; lia.
  - intros p Hp0 Hp. apply chunk_splice_before; lia.
Qed.

Lemma mload32_ok b off : 0 <= off -> off + 4 <= msize b -> mload32 b off = Ok (load_le (chunk b off 4)).
Proof. intros Ho Hs. unfold mload32. by rewrite mload_ok, ok_bind by lia. Qed.

Lemma word_range b off : Forall is_u8 b -> 0 <= off -> off + 4 <= msize b -> is_u32 (load_le (chunk b off 4)).
Proof. intros HB Ho Hs. pose proof (nval_range 0 b off HB Ho Hs) as H. exact H. Qed.

(** The counter replaces the bits under the mask. *)
Lemma write_nonce_ok b off k counter : Forall is_u8 b -> 0 <= off -> off + nonce_bytes k <= msize b -> 0 < k <= 63 ->
  0 <= counter < 2 ^ k ->
  exists b', write_nonce b off counter (2 ^ k - 1) = Ok b' /\ msize b' = msize b /\ Forall is_u8 b' /\
    nval k b' off = 2 ^ k * (nval k b off / 2 ^ k) + counter.
Proof.
  intros HB Ho Hs Hk Hc. unfold write_nonce, nval, nonce_bytes in *.
  pose proof (word_range b off HB Ho ltac:(case_match; lia)) as Hw. rewrite mload32_ok, ok_bind by (case_match; lia).
  set (w := load_le (chunk b off 4)) in *. unfold is_u32 in Hw.
  rewrite not64_mask, lor_parts by (unfold is_u64; lia || done).
  assert (0 < 2 ^ k) as Hp by (apply Z.pow_pos_nonneg; lia).
  destruct (Z.ltb_spec 32 k) as [H32|H32].
  - assert (2 ^ 33 <= 2 ^ k) as Hpk by (apply Z.pow_le_mono_r; lia). assert (2 ^ k <= 2 ^ 63) as Hpk2 by (apply Z.pow_le_mono_r; lia).
    rewrite Z.div_small, Z.mul_0_r, Z.add_0_l by lia. rewrite (proj2 (Z.ltb_lt _ _)) by lia.
    destruct (store_word b off (u32 counter) HB Ho ltac:(lia) (u32_range _)) as (b1 & -> & Hs1 & HB1 & Hl1 & Ha1 & _).
    rewrite ok_bind, mload32_ok, Ha1, ok_bind by lia. set (w1 := load_le (chunk b (off + 4) 4)).
    assert (is_u32 w1) as Hw1 by (apply word_range; lia || done). rewrite not64_mask_high by (done || lia).
    rewrite Z.shiftr_div_pow2 by lia.
    assert (0 <= counter / 2 ^ 32 < 2 ^ (k - 32)) as Hch.
    { split; [apply Z.div_pos; lia|]. apply Z.div_lt_upper_bound; [lia|]. rewrite <- Z.pow_add_r by lia. replace (32 + (k - 32)) with k by lia. lia. }
    rewrite lor_parts by (lia || done). set (hi := 2 ^ (k - 32) * (w1 / 2 ^ (k - 32)) + counter / 2 ^ 32).
    assert (0 < 2 ^ (k - 32) <= 2 ^ 31) as Hpm by (split; [apply Z.pow_pos_nonneg; lia|apply Z.pow_le_mono_r; lia]).
    assert (is_u32 hi) as Hhi.
    { apply (parts_range 32); lia || done. }
    rewrite (u32_id hi Hhi).
    destruct (store_word b1 (off + 4) hi HB1 ltac:(lia) ltac:(lia) Hhi) as (b2 & -> & Hs2 & HB2 & Hl2 & _ & Hb2).
    exists b2. split; [done|]. split; [lia|]. split; [done|].
    rewrite !load_words by (lia || done). rewrite Hl2, Hb2, Hl1 by lia. fold w w1. unfold hi. rewrite u32_mod.
    assert ((w + 2 ^ 32 * w1) / 2 ^ k = w1 / 2 ^ (k - 32)) as ->.
    { replace (2 ^ k) with (2 ^ 32 * 2 ^ (k - 32)) by (rewrite <- Z.pow_add_r by lia; f_equal; lia).
      rewrite <- Z.div_div by lia. rewrite (Z.mul_comm (2 ^ 32) w1), Z.div_add, (Z.div_small w) by lia. done. }
    pose proof (Z.div_mod counter (2 ^ 32) ltac:(lia)).
    assert (2 ^ k = 2 ^ 32 * 2 ^ (k - 32)) as -> by (rewrite <- Z.pow_add_r by lia; f_equal; lia). lia.
  - assert (2 ^ k <= 2 ^ 32) as Hpk by (apply Z.pow_le_mono_r; lia). rewrite (proj2 (Z.ltb_ge _ _)) by lia.
    assert (is_u32 (2 ^ k * (w / 2 ^ k) + counter)) as Hn.
    { apply (parts_range 32); lia || done. }
    rewrite (u32_id _ Hn). destruct (store_word b off _ HB Ho ltac:(lia) Hn) as (b1 & -> & Hs1 & HB1 & Hl1 & _).
    exists b1. by rewrite ok_bind.
Qed.

(** Adding to the low word, without a carry out of it. *)
Lemma add_low_ok b off k n : Forall is_u8 b -> 0 <= off -> off + nonce_bytes k <= msize b -> 0 <= n ->
  nval k b off mod 2 ^ 32 + n < 2 ^ 32 ->
  exists b', mstore b off (store_le 4 (u32 (load_le (chunk b off 4) + n))) = Ok b' /\ msize b' = msize b /\ Forall is_u8 b' /\
    nval k b' off = nval k b off + n.
Proof.
  intros HB Ho Hs Hn Hfit. unfold nval, nonce_bytes in *. assert (off + 4 <= msize b) as H4 by (case_match; lia).
  pose proof (word_range b off HB Ho H4) as Hw. set (w := load_le (chunk b off 4)) in *.
  assert (nval k b off mod 2 ^ 32 = w) as Hlow.
  { unfold nval, nonce_bytes. destruct (32 <? k); [|apply Z.mod_small, Hw]. rewrite load_words by (done || lia).
    fold w. rewrite Z.mul_comm, Z.mod_add by lia. apply Z.mod_small, Hw. }
  unfold nval, nonce_bytes in Hlow. rewrite Hlow in Hfit. unfold is_u32 in Hw.
  assert (is_u32 (w + n)) as Hwn by (unfold is_u32; lia). rewrite (u32_id _ Hwn).
  destruct (store_word b off (w + n) HB Ho H4 Hwn) as (b' & -> & Hs' & HB' & Hl & Ha & _).
  exists b'. repeat split; [done|done|]. destruct (32 <? k) eqn:E; [|by rewrite Hl].
  rewrite !load_words by (done || lia). rewrite Hl, Ha by lia. fold w. lia.
Qed.

(** ** Threads *)

(** Where a thread is: before hashing its nonce, or waiting for new nonces
    (the first ones, in [save], or later ones, in [nextRound]), or out of nonces. *)
Inductive pc := Hashing | Reserving (first : bool) | Stopped.

(** A thread with the number of rounds for which it reserves nonces and the number
    of nonces of a round. *)
Record thread := mk_thread { t_rounds : Z; t_size : Z; t_worker : WorkerJob; t_pc : pc }.

Definition reserve (t : thread) : Z := u32 (t_rounds t * t_size t).
Definition goto (t : thread) (w : WorkerJob) (p : pc) : thread := mk_thread (t_rounds t) (t_size t) w p.

(** The threads, the shared counters, the nonces hashed so far, and two notes: the
    sum of all reservations, and whether [save] went on without one. *)
Record system := mk_sys { shared : nonce_state; threads : list thread; hashed : list Z; total : Z; overrun : bool }.

Section Steps.
(** The bits of the mask, which say how long the nonce is. *)
Context (k : Z).

(** [readUnaligned(m_job.nonce())] of the worker's loop *)
Definition current_nonce (w : WorkerJob) : result Z :=
  b ← blob w; off ← nonce_at1 w; bs ← mload b off (nonce_bytes k); mret (load_le bs).

(** The blob after a successful reservation. *)
Definition take_nonce (w : WorkerJob) (counter : Z) (first : bool) : result WorkerJob :=
  b ← blob w;
  off ← nonce_at1 w;
  mask ← w_nonceMask w;
  b ← write_nonce b off counter (Z.land mask MASK63);
  w ← set_w_blob w b;
  if first then mret w else copy_high w.

Inductive step : system -> system -> Prop :=
| step_hash s i t n w w' :
    threads s !! i = Some t -> t_pc t = Hashing -> current_nonce (t_worker t) = Ok n ->
    begin_round (t_worker t) (t_rounds t) = Ok (false, w) -> add_nonce1 w (t_size t) = Ok w' ->
    step s (mk_sys (shared s) (<[i := goto t w' Hashing]> (threads s)) (n :: hashed s) (total s) (overrun s))
| step_used_up s i t n w :
    threads s !! i = Some t -> t_pc t = Hashing -> current_nonce (t_worker t) = Ok n ->
    begin_round (t_worker t) (t_rounds t) = Ok (true, w) ->
    step s (mk_sys (shared s) (<[i := goto t w (Reserving false)]> (threads s)) (n :: hashed s) (total s) (overrun s))
| step_exhausted s i t first mask counter g p :
    threads s !! i = Some t -> t_pc t = Reserving first -> w_nonceMask (t_worker t) = Ok mask ->
    fetch_add (shared s) (w_index (t_worker t)) (reserve t) = Ok (counter, g) ->
    verdict_of counter (reserve t) (Z.land mask MASK63) = Exhausted p ->
    step s (mk_sys (pause_if p g) (<[i := goto t (t_worker t) (if first then Hashing else Stopped)]> (threads s))
              (hashed s) (total s + reserve t) (overrun s || first))
| step_retry s i t first mask counter g :
    threads s !! i = Some t -> t_pc t = Reserving first -> w_nonceMask (t_worker t) = Ok mask ->
    fetch_add (shared s) (w_index (t_worker t)) (reserve t) = Ok (counter, g) ->
    verdict_of counter (reserve t) (Z.land mask MASK63) = Retry ->
    step s (mk_sys g (threads s) (hashed s) (total s + reserve t) (overrun s))
| step_take s i t first mask counter g p w :
    threads s !! i = Some t -> t_pc t = Reserving first -> w_nonceMask (t_worker t) = Ok mask ->
    fetch_add (shared s) (w_index (t_worker t)) (reserve t) = Ok (counter, g) ->
    verdict_of counter (reserve t) (Z.land mask MASK63) = Take p ->
    take_nonce (t_worker t) counter first = Ok w ->
    step s (mk_sys (pause_if p g) (<[i := goto t w Hashing]> (threads s)) (hashed s) (total s + reserve t) (overrun s)).

(** The step of a given thread, as a function: the scheduler only chooses the thread. *)
Definition advance (s : system) (i : nat) : result system :=
  match threads s !! i with
  | None => Fault
  | Some t =>
      let w := t_worker t in
      let put g w' p h n o := mk_sys g (<[i := goto t w' p]> (threads s)) h n o in
      match t_pc t with
      | Stopped => Fault
      | Hashing =>
          n ← current_nonce w;
          '(used_up, w) ← begin_round w (t_rounds t);
          if (used_up : bool) then mret (put (shared s) w (Reserving false) (n :: hashed s) (total s) (overrun s))
          else w ← add_nonce1 w (t_size t); mret (put (shared s) w Hashing (n :: hashed s) (total s) (overrun s))
      | Reserving first =>
          mask ← w_nonceMask w;
          '(counter, g) ← fetch_add (shared s) (w_index w) (reserve t);
          match verdict_of counter (reserve t) (Z.land mask MASK63) with
          | Exhausted p => mret (put (pause_if p g) w (if first then Hashing else Stopped) (hashed s) (total s + reserve t) (overrun s || first))
          | Retry => mret (mk_sys g (threads s) (hashed s) (total s + reserve t) (overrun s))
          | Take p => w ← take_nonce w counter first; mret (put (pause_if p g) w Hashing (hashed s) (total s + reserve t) (overrun s))
          end
      end
  end.

Lemma advance_step s i s' : advance s i = Ok s' -> step s s'.
Proof.
  unfold advance. destruct (threads s !! i) as [t|] eqn:Et; [|discriminate]. destruct (t_pc t) as [|first|] eqn:Ep; [| |discriminate].
  - intros (n & En & H)%bind_Ok. apply bind_Ok in H as ([[] w] & Eb & H).
    + injection H as <-. by eapply step_used_up.
    + apply bind_Ok in H as (w' & Ea & H). injection H as <-. by eapply step_hash.
  - intros (mask & Em & H)%bind_Ok. apply bind_Ok in H as ([c g] & Ef & H).
    destruct (verdict_of _ _ _) as [p| |p] eqn:Ev.
    + injection H as <-. by eapply step_exhausted.
    + injection H as <-. by eapply step_retry.
    + apply bind_Ok in H as (w & Ew & H). injection H as <-. by eapply step_take.
Qed.

Fixpoint schedule (s : system) (l : list nat) : result system :=
  match l with [] => mret s | i :: l => s ← advance s i; schedule s l end.

Lemma schedule_steps l : forall s s', schedule s l = Ok s' -> rtc step s s'.
Proof.
  induction l as [|i l IH]; intros s s'; cbn [schedule].
  - intros [= <-]. apply rtc_refl.
  - intros (s1 & E & H)%bind_Ok. eapply rtc_l; [by eapply advance_step|by apply IH].
Qed.

End Steps.

(** ** One worker *)

Lemma aget_at idx (H : 0 <= idx) {A} (l : list A) x : l !! Z.to_nat idx = Some x -> aget l idx = Ok x.
Proof. intros E. unfold aget. rewrite (proj2 (Z.ltb_ge _ _)) by lia. by rewrite E. Qed.

Lemma aset_at idx (H : 0 <= idx) {A} (l : list A) x y : l !! Z.to_nat idx = Some x ->
  aset l idx y = Ok (<[Z.to_nat idx := y]> l) /\ <[Z.to_nat idx := y]> l !! Z.to_nat idx = Some y.
Proof.
  intros E. apply lookup_lt_Some in E. split; [apply aset_ok; lia|]. by apply list_lookup_insert_eq.
Qed.

Section Worker.
Context (k idx off mask0 : Z).
Context (Hk : 0 < k <= 63) (Hidx : 0 <= idx) (Hoff : 0 <= off <= 400) (Hmask : Z.land mask0 MASK63 = 2 ^ k - 1).

(** A worker at job [idx] with blob [b] and round [r]. *)
Record worker_ok (w : WorkerJob) (b : mem) (r : Z) : Prop := {
  ok_index : w_index w = idx;
  ok_blob : m_blobs w !! Z.to_nat idx = Some b;
  ok_size : msize b = kMaxBlobSize;
  ok_bytes : Forall is_u8 b;
  ok_job : exists j, m_jobs w !! Z.to_nat idx = Some j /\ nonceOffset j = off /\ msize (m_blob j) = kMaxBlobSize;
  ok_rounds : m_rounds w !! Z.to_nat idx = Some r;
  ok_round : is_u32 r;
  ok_mask : m_nonce_mask w !! Z.to_nat idx = Some mask0 }.

Section One.
Context (w : WorkerJob) (b : mem) (r : Z) (W : worker_ok w b r).

Lemma blob_is : blob w = Ok b.
Proof. destruct W. unfold blob. rewrite ok_index0. by apply (aget_at idx Hidx). Qed.
Lemma offset_is : nonce_at1 w = Ok off.
Proof.
  destruct W. destruct ok_job0 as (j & Hj & Ho & _). unfold nonce_at1, currentJob. rewrite ok_index0, (aget_at idx Hidx _ j Hj), ok_bind.
  by rewrite Ho.
Qed.
Lemma mask_is : w_nonceMask w = Ok mask0.
Proof. destruct W. unfold w_nonceMask. rewrite ok_index0. by apply (aget_at idx Hidx). Qed.

Lemma room : off + nonce_bytes k <= msize b.
Proof. destruct W. rewrite ok_size0. unfold nonce_bytes, kMaxBlobSize. case_match; lia. Qed.

Lemma current_nonce_ok : current_nonce k w = Ok (nval k b off).
Proof.
  unfold current_nonce. rewrite blob_is, ok_bind, offset_is, ok_bind. pose proof room.
  rewrite mload_ok, ok_bind; [done|lia|unfold nonce_bytes; case_match; lia|done].
Qed.

Lemma set_blob_ok b' : msize b' = kMaxBlobSize -> Forall is_u8 b' ->
  exists w', set_w_blob w b' = Ok w' /\ worker_ok w' b' r.
Proof.
  intros Hs HB. destruct W. unfold set_w_blob. rewrite ok_index0.
  destruct (aset_at idx Hidx (m_blobs w) b b' ok_blob0) as [-> E]. rewrite ok_bind. eexists. split; [done|]. by split.
Qed.

Lemma begin_round_ok q : 0 <= q <= 31 -> exists w', begin_round w (2 ^ q) = Ok ((r + 1) mod 2 ^ q =? 0, w') /\
  worker_ok w' b (u32 (r + 1)) /\ u32 (r + 1) mod 2 ^ q = (r + 1) mod 2 ^ q.
Proof.
  intros Hq. destruct W. unfold begin_round, set_w_rounds. rewrite ok_index0, (aget_at idx Hidx _ r), ok_bind by done.
  destruct (aset_at idx Hidx (m_rounds w) r (u32 (r + 1)) ok_rounds0) as [-> E]. rewrite !ok_bind.
  assert (u32 (r + 1) mod 2 ^ q = (r + 1) mod 2 ^ q) as Hm.
  { rewrite u32_mod. assert (2 ^ 32 = 2 ^ (32 - q) * 2 ^ q) as -> by (rewrite <- Z.pow_add_r by lia; f_equal; lia).
    rewrite Z.mul_comm, Z.rem_mul_r by (apply Z.pow_nonzero || apply Z.pow_pos_nonneg; lia).
    rewrite Z.mul_comm, Z.mod_add by (apply Z.pow_nonzero; lia). apply Z.mod_mod, Z.pow_nonzero; lia. }
  assert (2 ^ q <= 2 ^ 31) by (apply Z.pow_le_mono_r; lia). assert (0 < 2 ^ q) by (apply Z.pow_pos_nonneg; lia).
  assert (Z.land (u32 (r + 1)) (u32 (2 ^ q - 1)) = (r + 1) mod 2 ^ q) as ->.
  { rewrite (u32_id (2 ^ q - 1)) by (unfold is_u32; lia). replace (2 ^ q - 1) with (Z.ones q) by (rewrite Z.ones_equiv; lia).
    by rewrite Z.land_ones by lia. }
  eexists. split; [done|]. split; [|done]. split; try done. apply u32_range.
Qed.

Lemma add_nonce1_ok n : 0 <= n -> nval k b off mod 2 ^ 32 + n < 2 ^ 32 ->
  exists w' b', add_nonce1 w n = Ok w' /\ worker_ok w' b' r /\ nval k b' off = nval k b off + n.
Proof.
  intros Hn Hfit. unfold add_nonce1. rewrite blob_is, ok_bind, offset_is, ok_bind. pose proof room as Hr.
  assert (off + 4 <= msize b) by (unfold nonce_bytes in Hr; case_match; lia).
  rewrite mload32_ok, ok_bind by lia.
  destruct (add_low_ok b off k n (ok_bytes _ _ _ W) ltac:(lia) Hr Hn Hfit) as (b' & -> & Hs & HB & Hv). rewrite ok_bind.
  destruct (set_blob_ok b') as (w' & -> & W'); [rewrite Hs; apply W|done|]. by exists w', b'.
Qed.

Lemma copy_high_ok : exists w', copy_high w = Ok w' /\ worker_ok w' b r.
Proof.
  unfold copy_high, currentJob. pose proof W as [Hi Hb Hs HB (j & Hj & Ho & Hjs) Hr Hru Hm].
  rewrite Hi, (aget_at idx Hidx _ j Hj), ok_bind. destruct (nonceSize j =? 8); [|by exists w].
  rewrite blob_is, ok_bind, Ho. unfold kMaxBlobSize in *. rewrite mload_ok, ok_bind by lia.
  set (hi := chunk b (off + 4) 4). assert (length hi = 4%nat) as Hh by (unfold hi; rewrite length_chunk; lia).
  rewrite mstore_ok, ok_bind by (rewrite ?Hh; lia). unfold set_w_job. rewrite Hi.
  destruct (aset_at idx Hidx (m_jobs w) j (set_blob j (splice (m_blob j) (off + 4) hi)) Hj) as [-> E]. rewrite ok_bind.
  eexists. split; [done|]. split; try done. exists (set_blob j (splice (m_blob j) (off + 4) hi)).
  split; [done|]. split; [exact Ho|]. cbn [set_blob m_blob]. rewrite msize_splice; rewrite ?Hh; unfold kMaxBlobSize; lia.
Qed.

End One.

Lemma take_nonce_ok w b r counter first : worker_ok w b r -> 0 <= counter < 2 ^ k ->
  exists w' b', take_nonce w counter first = Ok w' /\ worker_ok w' b' r /\
    nval k b' off = 2 ^ k * (nval k b off / 2 ^ k) + counter.
Proof.
  intros W Hc. unfold take_nonce. rewrite (blob_is _ _ _ W), ok_bind, (offset_is _ _ _ W), ok_bind, (mask_is _ _ _ W), ok_bind, Hmask.
  destruct (write_nonce_ok b off k counter (ok_bytes _ _ _ W) ltac:(lia) (room _ _ _ W) Hk Hc) as (b' & -> & Hs & HB & Hv).
  rewrite ok_bind. destruct (set_blob_ok _ _ _ W b') as (w' & -> & W'); [rewrite Hs; apply W|done|]. rewrite ok_bind.
  destruct first; [by exists w', b'|]. destruct (copy_high_ok _ _ _ W') as (w2 & -> & W2). by exists w2, b'.
Qed.

(** ** All workers *)

(** The bits above the mask, which all nonces have in common. *)
Context (F : Z).

(** The powers of two and sizes a thread can have. *)
Definition params (t : thread) : Prop := exists q, 0 <= q <= 31 /\ t_rounds t = 2 ^ q /\ 1 <= t_size t /\
  t_rounds t * t_size t < 2 ^ 32 /\ t_rounds t * t_size t <= 2 ^ k.
Abbreviation rc t := (t_rounds t * t_size t).

(** A thread that hashes has reserved [rc] numbers from [c] on and used those
    before [x]. *)
Definition thread_ok (tot c x : Z) (t : thread) : Prop :=
  params t /\
  match t_pc t with
  | Hashing => exists b r, worker_ok (t_worker t) b r /\ nval k b off = 2 ^ k * F + x /\
      x = c + (r mod t_rounds t) * t_size t /\ 0 <= c /\ c + rc t <= tot /\ c + rc t <= 2 ^ k /\
      c mod 2 ^ 32 + rc t <= 2 ^ 32
  | Reserving _ => exists b r, worker_ok (t_worker t) b r /\ nval k b off / 2 ^ k = F /\ r mod t_rounds t = 0
  | Stopped => True
  end.

Record consistent (s : system) (c x : nat -> Z) (xs : list Z) : Prop := {
  c_counter : m_nonces (shared s) !! Z.to_nat idx = Some (total s);
  c_threads : forall i t, threads s !! i = Some t -> thread_ok (total s) (c i) (x i) t;
  c_disjoint : forall i j t u, i <> j -> threads s !! i = Some t -> threads s !! j = Some u ->
    t_pc t = Hashing -> t_pc u = Hashing -> c i + rc t <= c j \/ c j + rc u <= c i;
  c_hashed : hashed s = (fun y => 2 ^ k * F + y) <$> xs;
  c_nodup : NoDup xs;
  c_used : forall y, y ∈ xs -> 0 <= y < 2 ^ k /\ y < total s;
  c_fresh : forall i t y, threads s !! i = Some t -> t_pc t = Hashing -> y ∈ xs -> y < x i \/ c i + rc t <= y }.

Definition Inv (s : system) : Prop := 0 <= total s /\
  (overrun s = false -> total s < 2 ^ 64 -> exists c x xs, consistent s c x xs) /\
  (overrun s = true -> total s < 2 ^ 64 -> 2 ^ k < total s).

Lemma reserve_nonneg t : 0 <= reserve t.
Proof. pose proof (u32_range (rc t)) as Hr. unfold is_u32 in Hr. unfold reserve. lia. Qed.

Lemma reserve_eq t : params t -> reserve t = rc t /\ 1 <= rc t.
Proof.
  intros (q & Hq & E & H1 & H2 & _). assert (0 < 2 ^ q) by (apply Z.pow_pos_nonneg; lia). unfold reserve. rewrite E in *.
  split; [apply u32_id; unfold is_u32; nia|nia].
Qed.

(** [f] with another value at [i]. *)
Definition upd (f : nat -> Z) (i : nat) (v : Z) (j : nat) : Z := if decide (j = i) then v else f j.
Lemma upd_same f i v : upd f i v i = v.
Proof. unfold upd. by rewrite decide_True. Qed.
Lemma upd_other f i j v : j <> i -> upd f i v j = f j.
Proof. intros. unfold upd. by rewrite decide_False. Qed.

(** The number a thread is about to use. *)
Lemma in_range t c x r : params t -> x = c + (r mod t_rounds t) * t_size t -> c <= x < c + rc t.
Proof.
  intros (q & Hq & E & H1 & _) ->. assert (0 < 2 ^ q) by (apply Z.pow_pos_nonneg; lia). rewrite E.
  pose proof (Z.mod_pos_bound r (2 ^ q) ltac:(lia)). nia.
Qed.

(** Hashing a nonce: the entry is new, and outside of the ranges of the others. *)
Lemma hash_consistent s c x xs i t w p x' : consistent s c x xs -> threads s !! i = Some t -> t_pc t = Hashing ->
  thread_ok (total s) (c i) x' (goto t w p) -> x i < x' ->
  consistent (mk_sys (shared s) (<[i := goto t w p]> (threads s)) (2 ^ k * F + x i :: hashed s) (total s) (overrun s))
    c (upd x i x') (x i :: xs).
Proof.
  intros C Hi Hp Hok Hx. pose proof (c_threads _ _ _ _ C i t Hi) as (Hpar & Hth). rewrite Hp in Hth.
  destruct Hth as (b & r & W & Hv & Ex & Hc0 & Hct & Hck & Hcl). pose proof (in_range t (c i) (x i) r Hpar Ex) as Hxr.
  assert (forall j u, j <> i -> <[i := goto t w p]> (threads s) !! j = Some u -> threads s !! j = Some u) as Hother
    by (intros j u Hj E; by rewrite list_lookup_insert_ne in E).
  assert (forall u, <[i := goto t w p]> (threads s) !! i = Some u -> u = goto t w p) as Hself.
  { intros u E. rewrite list_lookup_insert_eq in E by (by apply lookup_lt_Some in Hi). congruence. }
  destruct C as [C1 C2 C3 C4 C5 C6 C7]. split; cbn [shared threads hashed total].
  - done.
  - intros j u Hj. destruct (decide (j = i)) as [->|Hne].
    + rewrite (Hself u Hj), upd_same. done.
    + rewrite upd_other by done. apply C2. by apply Hother.
  - intros j l u v Hjl Hj Hl Hpu Hpv. destruct (decide (j = i)) as [->|Hji], (decide (l = i)) as [->|Hli]; [done| | |].
    + apply Hself in Hj as ->. apply Hother in Hl; [|done]. exact (C3 i l t v ltac:(done) Hi Hl Hp Hpv).
    + apply Hself in Hl as ->. apply Hother in Hj; [|done]. exact (C3 j i u t ltac:(done) Hj Hi Hpu Hp).
    + apply (C3 j l); auto.
  - by rewrite C4.
  - apply NoDup_cons. split; [|done]. intros Hin. destruct (C7 i t (x i) Hi Hp Hin); lia.
  - intros y [->|Hy]%elem_of_cons; [lia|by apply C6].
  - intros j u y Hj Hpu Hy. destruct (decide (j = i)) as [->|Hji].
    + apply Hself in Hj as ->. rewrite upd_same. apply elem_of_cons in Hy as [->|Hy]; [by left|].
      destruct (C7 i t y Hi Hp Hy); [left; lia|by right].
    + rewrite upd_other by done. apply Hother in Hj; [|done]. apply elem_of_cons in Hy as [->|Hy]; [|by apply (C7 j u y)].
      destruct (C3 i j t u ltac:(done) Hi Hj Hp Hpu) as [H|H].
      * left. destruct (C2 j u Hj) as (Hparu & Hthu). rewrite Hpu in Hthu. destruct Hthu as (bu & ru & _ & _ & Exu & _).
        pose proof (in_range u (c j) (x j) ru Hparu Exu). lia.
      * right. lia.
Qed.

(** More reservations do not hurt the others. *)
Lemma thread_ok_mono tot tot' c x t : tot <= tot' -> thread_ok tot c x t -> thread_ok tot' c x t.
Proof.
  intros Ht (Hp & H). split; [done|]. destruct (t_pc t); try done. destruct H as (b & r & H1 & H2 & H3 & H4 & H5 & H6).
  exists b, r. split; [done|]. split; [done|]. split; [done|]. split; [done|]. split; [lia|done].
Qed.

(** A reservation: thread [i] gets the numbers from [total] on, or none. *)
Lemma reserve_consistent s c x xs i t w p g ov : consistent s c x xs -> threads s !! i = Some t -> params t ->
  m_nonces g !! Z.to_nat idx = Some (total s + rc t) ->
  thread_ok (total s + rc t) (total s) (total s) (goto t w p) ->
  consistent (mk_sys g (<[i := goto t w p]> (threads s)) (hashed s) (total s + rc t) ov)
    (upd c i (total s)) (upd x i (total s)) xs.
Proof.
  intros C Hi Hpar Hg Hok. destruct (reserve_eq t Hpar) as [_ H1].
  assert (forall j u, j <> i -> <[i := goto t w p]> (threads s) !! j = Some u -> threads s !! j = Some u) as Hother
    by (intros j u Hj E; by rewrite list_lookup_insert_ne in E).
  assert (forall u, <[i := goto t w p]> (threads s) !! i = Some u -> u = goto t w p) as Hself.
  { intros u E. rewrite list_lookup_insert_eq in E by (by apply lookup_lt_Some in Hi). congruence. }
  assert (forall j u, threads s !! j = Some u -> t_pc u = Hashing -> c j + rc u <= total s) as Hbelow.
  { intros j u Hj Hpu. destruct (c_threads _ _ _ _ C j u Hj) as (_ & H). rewrite Hpu in H.
    destruct H as (? & ? & _ & _ & _ & _ & H & _). done. }
  destruct C as [C1 C2 C3 C4 C5 C6 C7]. split; cbn [shared threads hashed total]; try done.
  - intros j u Hj. destruct (decide (j = i)) as [->|Hne].
    + rewrite (Hself u Hj), !upd_same. done.
    + rewrite !upd_other by done. apply (thread_ok_mono (total s)); [lia|]. apply C2. by apply Hother.
  - intros j l u v Hjl Hj Hl Hpu Hpv. destruct (decide (j = i)) as [->|Hji], (decide (l = i)) as [->|Hli]; [done| | |].
    + rewrite upd_same, upd_other by done. right. apply (Hbelow l v); auto.
    + rewrite upd_same, upd_other by done. left. apply (Hbelow j u); auto.
    + rewrite !upd_other by done. apply (C3 j l); auto.
  - intros y Hy. destruct (C6 y Hy). lia.
  - intros j u y Hj Hpu Hy. destruct (decide (j = i)) as [->|Hji].
    + rewrite upd_same. left. destruct (C6 y Hy). lia.
    + rewrite !upd_other by done. apply (C7 j u y); auto.
Qed.

Lemma fetch_ok s c x xs i t counter g : consistent s c x xs -> threads s !! i = Some t -> params t ->
  w_index (t_worker t) = idx -> 0 <= total s -> total s + rc t < 2 ^ 64 ->
  fetch_add (shared s) (w_index (t_worker t)) (reserve t) = Ok (counter, g) ->
  counter = total s /\ (forall p, m_nonces (pause_if p g) !! Z.to_nat idx = Some (total s + rc t)).
Proof.
  intros C Hi Hpar Hx H0 Htot. destruct (reserve_eq t Hpar) as [-> H1]. unfold fetch_add. rewrite Hx.
  pose proof (c_counter _ _ _ _ C) as Hc. rewrite (aget_at idx Hidx _ _ Hc), ok_bind.
  destruct (aset_at idx Hidx (m_nonces (shared s)) (total s) (u64 (total s + rc t)) Hc) as [-> E]. rewrite ok_bind.
  rewrite u64_id in * by (unfold is_u64; lia). intros [= <- <-]. split; [done|]. by intros [].
Qed.

(** What a verdict to take a number means for it. *)
Lemma take_range t c p : params t -> 0 <= c -> verdict_of c (rc t) (2 ^ k - 1) = Take p ->
  c + rc t <= 2 ^ k /\ c mod 2 ^ 32 + rc t <= 2 ^ 32.
Proof.
  intros Hpar Hc. destruct (reserve_eq t Hpar) as [_ H1]. destruct Hpar as (q & _ & _ & _ & H32 & Hrk).
  unfold verdict_of. destruct (Z.ltb_spec (2 ^ k - 1) c); [done|].
  destruct (Z.leb_spec (2 ^ k - 1 - c) (rc t - 1)) as [Hle|Hgt].
  - destruct (Z.ltb_spec (2 ^ k - 1 - c) (rc t - 1)); [done|]. intros _. split; [lia|].
    assert (c = 2 ^ k - rc t) as -> by lia. destruct (Z.le_gt_cases 32 k) as [Hk32|Hk32].
    + rewrite <- (Z.mod_unique (2 ^ k - rc t) (2 ^ 32) (2 ^ (k - 32) - 1) (2 ^ 32 - rc t)); [lia|lia|].
      assert (2 ^ k = 2 ^ 32 * 2 ^ (k - 32)) as -> by (rewrite <- Z.pow_add_r by lia; f_equal; lia). lia.
    + assert (2 ^ k <= 2 ^ 32) by (apply Z.pow_le_mono_r; lia). rewrite Z.mod_small by lia. lia.
  - rewrite u32_mod. destruct (Z.ltb_spec (0xFFFFFFFF - c mod 2 ^ 32) (rc t - 1)); [done|]. intros _. lia.
Qed.

Lemma mod_succ r n : 0 < n -> (r + 1) mod n = if (r + 1) mod n =? 0 then 0 else r mod n + 1.
Proof.
  intros Hn. pose proof (Z.mod_pos_bound r n Hn) as Hr. destruct (Z.eqb_spec ((r + 1) mod n) 0) as [->|H]; [done|].
  rewrite <- Z.add_mod_idemp_l in * by lia. apply Z.mod_small. destruct (Z.eq_dec (r mod n + 1) n) as [E|E]; [|lia].
  rewrite E, Z.mod_same in H by lia. done.
Qed.

(** The next nonce of a range needs no carry out of the low word. *)
Lemma low_fits b c x r t : worker_ok (t_worker t) b r -> params t -> nval k b off = 2 ^ k * F + x ->
  x = c + (r mod t_rounds t) * t_size t -> r mod t_rounds t + 1 < t_rounds t -> 0 <= c -> c + rc t <= 2 ^ k ->
  c mod 2 ^ 32 + rc t <= 2 ^ 32 -> nval k b off mod 2 ^ 32 + t_size t < 2 ^ 32.
Proof.
  intros W Hpar Hv Hx Hr Hc Hck Hcl. pose proof Hpar as (q & Hq & Eq & H1 & H32 & _).
  pose proof (in_range t c x r Hpar Hx) as Hxr. assert (x + t_size t < c + rc t) as Hlt by nia.
  pose proof (nval_range k b off (ok_bytes _ _ _ W) ltac:(lia) (room _ _ _ W)) as Hn. unfold nonce_bytes in Hn.
  destruct (Z.ltb_spec 32 k) as [Hk32|Hk32].
  - assert (2 ^ k = 2 ^ 32 * 2 ^ (k - 32)) as Hp by (rewrite <- Z.pow_add_r by lia; f_equal; lia).
    rewrite Hv. replace (2 ^ k * F + x) with (x + 2 ^ (k - 32) * F * 2 ^ 32) by (rewrite Hp; lia). rewrite Z.mod_add by lia.
    pose proof (Z.div_mod c (2 ^ 32) ltac:(lia)). pose proof (Z.mod_pos_bound c (2 ^ 32) ltac:(lia)).
    assert (0 <= x - 2 ^ 32 * (c / 2 ^ 32) < 2 ^ 32 - t_size t) as Hr0 by lia.
    rewrite <- (Z.mod_unique x (2 ^ 32) (c / 2 ^ 32) (x - 2 ^ 32 * (c / 2 ^ 32))); lia.
  - rewrite Z.mod_small by lia. rewrite Hv in *. assert (0 < 2 ^ k) by (apply Z.pow_pos_nonneg; lia).
    assert (2 ^ 32 = 2 ^ k * 2 ^ (32 - k)) as Hp by (rewrite <- Z.pow_add_r by lia; f_equal; lia).
    change (8 * 4) with 32 in Hn. assert (F < 2 ^ (32 - k)) by nia. assert (2 ^ k * (F + 1) <= 2 ^ 32) by nia. lia.
Qed.

(** A thread that waits, and the counter it gets. *)
Lemma waiting s c x xs i t first mask counter g : consistent s c x xs -> threads s !! i = Some t -> t_pc t = Reserving first ->
  0 <= total s -> total s + reserve t < 2 ^ 64 -> w_nonceMask (t_worker t) = Ok mask ->
  fetch_add (shared s) (w_index (t_worker t)) (reserve t) = Ok (counter, g) ->
  params t /\ reserve t = rc t /\ Z.land mask MASK63 = 2 ^ k - 1 /\ counter = total s /\
  (forall p, m_nonces (pause_if p g) !! Z.to_nat idx = Some (total s + rc t)) /\
  exists b r, worker_ok (t_worker t) b r /\ nval k b off / 2 ^ k = F /\ r mod t_rounds t = 0.
Proof.
  intros C Hi Hp H0 Ht Hm Hf. pose proof (c_threads _ _ _ _ C i t Hi) as (Hpar & Hth). rewrite Hp in Hth.
  destruct Hth as (b & r & W & Hval & Hr). destruct (reserve_eq t Hpar) as [Er _]. rewrite (mask_is _ _ _ W) in Hm. injection Hm as <-.
  destruct (fetch_ok s c x xs i t counter g C Hi Hpar (ok_index _ _ _ W) H0 ltac:(lia) Hf) as [-> Hg].
  split; [done|]. split; [done|]. split; [done|]. split; [done|]. split; [done|]. by exists b, r.
Qed.

Lemma step_inv s s' : Inv s -> step k s s' -> Inv s'.
Proof.
  intros (H0 & HI & HO) Hst. destruct Hst as
    [s i t n w w' Hi Hp Hn Hb Ha|s i t n w Hi Hp Hn Hb|s i t first mask counter g p Hi Hp Hm Hf Hv
    |s i t first mask counter g Hi Hp Hm Hf Hv|s i t first mask counter g p w Hi Hp Hm Hf Hv Hw]; unfold Inv in *;
    cbn [total overrun] in *.
  - split; [done|]. split; [|done]. intros Ho Ht. destruct (HI Ho Ht) as (c & x & xs & C).
    pose proof (c_threads _ _ _ _ C i t Hi) as (Hpar & Hth). rewrite Hp in Hth.
    destruct Hth as (b & r & W & Hval & Hx & Hc & Hct & Hck & Hcl). pose proof Hpar as (q & Hq & Eq & H1 & _).
    rewrite (current_nonce_ok _ _ _ W) in Hn. injection Hn as <-. rewrite Eq in Hb.
    destruct (begin_round_ok _ _ _ W q Hq) as (w1 & E1 & W1 & Hm1). rewrite E1 in Hb. injection Hb as Hne <-.
    assert (0 < 2 ^ q) by (apply Z.pow_pos_nonneg; lia). pose proof (mod_succ r (2 ^ q) ltac:(lia)) as Hms. rewrite Hne in Hms.
    pose proof (Z.mod_pos_bound (r + 1) (2 ^ q) ltac:(lia)) as Hb1.
    assert (nval k b off mod 2 ^ 32 + t_size t < 2 ^ 32) as Hfit.
    { apply (low_fits b (c i) (x i) r t); try done. rewrite Eq. lia. }
    destruct (add_nonce1_ok _ _ _ W1 (t_size t) ltac:(lia) Hfit) as (w2 & b2 & E2 & W2 & Hv2). rewrite E2 in Ha. injection Ha as <-.
    exists c, (upd x i (x i + t_size t)), (x i :: xs). rewrite Hval.
    apply (hash_consistent s c x xs i t w2 Hashing (x i + t_size t)); try done; [|lia].
    split; [done|]. cbn [goto t_pc t_worker t_rounds t_size]. exists b2, (u32 (r + 1)). split; [done|].
    split; [lia|]. split; [|done]. rewrite Eq in *. rewrite Hm1, Hms, Hx. lia.
  - split; [done|]. split; [|done]. intros Ho Ht. destruct (HI Ho Ht) as (c & x & xs & C).
    pose proof (c_threads _ _ _ _ C i t Hi) as (Hpar & Hth). rewrite Hp in Hth.
    destruct Hth as (b & r & W & Hval & Hx & Hc & Hct & Hck & Hcl). pose proof Hpar as (q & Hq & Eq & H1 & _).
    rewrite (current_nonce_ok _ _ _ W) in Hn. injection Hn as <-. rewrite Eq in Hb.
    destruct (begin_round_ok _ _ _ W q Hq) as (w1 & E1 & W1 & Hm1). rewrite E1 in Hb. injection Hb as Hne <-.
    pose proof (in_range t (c i) (x i) r Hpar Hx) as Hxr.
    exists c, (upd x i (x i + 1)), (x i :: xs). rewrite Hval.
    apply (hash_consistent s c x xs i t w1 (Reserving false) (x i + 1)); try done; [|lia].
    split; [done|]. cbn [goto t_pc t_worker t_rounds t_size]. exists b, (u32 (r + 1)). split; [done|].
    rewrite Eq, Hm1. split; [|by apply Z.eqb_eq]. rewrite Hval, Z.mul_comm, Z.div_add_l, Z.div_small by lia. lia.
  - pose proof (reserve_nonneg t) as Hr0. split; [lia|]. split; intros Ho Ht.
    + apply orb_false_iff in Ho as [Ho ->]. destruct (HI Ho ltac:(lia)) as (c & x & xs & C).
      destruct (waiting s c x xs i t false mask counter g C Hi Hp H0 Ht Hm Hf) as (Hpar & Er & _ & -> & Hg & _). rewrite Er.
      exists (upd c i (total s)), (upd x i (total s)), xs. by apply reserve_consistent.
    + destruct (overrun s) eqn:Es; [specialize (HO eq_refl ltac:(lia)); lia|]. destruct (HI eq_refl ltac:(lia)) as (c & x & xs & C).
      destruct (waiting s c x xs i t first mask counter g C Hi Hp H0 Ht Hm Hf) as (Hpar & Er & Em & -> & _).
      rewrite Em in Hv. unfold verdict_of in Hv.
      destruct (Z.ltb_spec (2 ^ k - 1) (total s)); [rewrite Er; destruct (reserve_eq t Hpar); lia|].
      destruct (Z.leb_spec (2 ^ k - 1 - total s) (reserve t - 1)); [|by case_match].
      destruct (Z.ltb_spec (2 ^ k - 1 - total s) (reserve t - 1)); [lia|done].
  - pose proof (reserve_nonneg t) as Hr0. split; [lia|].
    split; [|intros Ho Ht; specialize (HO Ho ltac:(lia)); lia]. intros Ho Ht. destruct (HI Ho ltac:(lia)) as (c & x & xs & C).
    destruct (waiting s c x xs i t first mask counter g C Hi Hp H0 Ht Hm Hf) as (Hpar & Er & _ & -> & Hg & b & r & W & Hval & Hr). rewrite Er.
    exists (upd c i (total s)), (upd x i (total s)), xs.
    pose proof (reserve_consistent s c x xs i t (t_worker t) (t_pc t) g (overrun s) C Hi Hpar (Hg false)) as H.
    assert (goto t (t_worker t) (t_pc t) = t) as Et by by destruct t. rewrite Et, list_insert_id in H by done. apply H.
    split; [done|]. rewrite Hp. by exists b, r.
  - pose proof (reserve_nonneg t) as Hr0. split; [lia|].
    split; [|intros Ho Ht; specialize (HO Ho ltac:(lia)); lia]. intros Ho Ht. destruct (HI Ho ltac:(lia)) as (c & x & xs & C).
    destruct (waiting s c x xs i t first mask counter g C Hi Hp H0 Ht Hm Hf) as (Hpar & Er & Em & -> & Hg & b & r & W & Hval & Hr).
    rewrite Er, Em in Hv. rewrite Er. destruct (take_range t (total s) p Hpar H0 Hv) as [Htk Htl]. destruct (reserve_eq t Hpar) as [_ H1].
    destruct (take_nonce_ok _ _ _ (total s) first W ltac:(lia)) as (w' & b' & E & W' & Hv'). rewrite E in Hw. injection Hw as <-.
    exists (upd c i (total s)), (upd x i (total s)), xs. apply reserve_consistent; try done.
    split; [done|]. cbn [goto t_pc t_worker t_rounds t_size]. exists b', r. split; [done|]. rewrite Hv', Hval, Hr.
    split; [done|]. split; [lia|]. split; [lia|]. split; [lia|]. by split.
Qed.

End Worker.

(** ** Starting on a job *)

(** The number of bits that [nonceMask] leaves to the miner. *)
Definition mask_bits (j : Job) : Z :=
  if m_nicehash j then 24 else if nonceSize j =? 8 then Z.min 63 (64 - 4 * str_size (m_extraNonce j)) else 32.

Lemma nonceMask_bits j : str_size (m_extraNonce j) < 16 ->
  0 < mask_bits j <= 63 /\ nonce_bytes (mask_bits j) <= nonceSize j /\
  exists mask, nonceMask j = Ok mask /\ Z.land mask MASK63 = 2 ^ mask_bits j - 1.
Proof.
  intros Hx. assert (0 <= str_size (m_extraNonce j)) as H0 by (unfold str_size, msize; case_match; lia).
  unfold mask_bits, nonceMask, nonce_bytes, nonceSize. destruct (m_nicehash j).
  - split; [lia|]. split; [cbn; case_match; lia|]. by eexists.
  - destruct (family (m_algorithm j) =? KAWPOW); cbn [Z.eqb Pos.eqb].
    2: { split; [lia|]. split; [cbn; lia|]. by eexists. }
    split; [lia|]. split; [case_match; lia|]. set (n := str_size (m_extraNonce j)) in *.
    rewrite (proj2 (Z.leb_gt 64 (n * 4))) by lia. eexists. split; [done|].
    assert (forallb (fun i => Z.land (Z.shiftr 0xFFFFFFFFFFFFFFFF (i * 4)) MASK63 =? 2 ^ Z.min 63 (64 - 4 * i) - 1)
      (seqZ 0 16) = true) as H by (vm_compute; reflexivity).
    rewrite forallb_forall in H. apply Z.eqb_eq, H, list_elem_of_In, elem_of_seqZ. lia.
Qed.

(** The buffers of a worker have their sizes. *)
Definition worker_wf (w : WorkerJob) : Prop :=
  length (m_blobs w) = 2%nat /\ length (m_jobs w) = 2%nat /\ length (m_rounds w) = 2%nat /\ length (m_nonce_mask w) = 2%nat /\
  Forall (fun b => msize b = kMaxBlobSize /\ Forall is_u8 b) (m_blobs w).

(** A job that can be mined: its nonce is inside the blob. *)
Record minable (j : Job) : Prop := {
  mn_wf : Job.Job.wf j; mn_bytes : Forall is_u8 (m_blob j); mn_index : 0 <= m_index j <= 1;
  mn_extra : str_size (m_extraNonce j) < 16; mn_fits : nonceOffset j + nonceSize j <= m_size j }.

(** [save] up to the reservation *)
Definition saved (job : Job) (backend : Z) (w : WorkerJob) : Prop :=
  exists w0 w1, worker_wf w0 /\ save_job w0 job backend = Ok w1 /\ copy_blob1 w1 job = Ok w.

Lemma save_job_ok w0 job backend mask : worker_wf w0 -> 0 <= m_index job <= 1 -> nonceMask job = Ok mask ->
  exists w1, save_job w0 job backend = Ok w1 /\ w_index w1 = m_index job /\ m_blobs w1 = m_blobs w0 /\
    m_jobs w1 !! Z.to_nat (m_index job) = Some (setBackend (copy Job.Job.empty job) backend) /\
    m_rounds w1 !! Z.to_nat (m_index job) = Some 0 /\ m_nonce_mask w1 !! Z.to_nat (m_index job) = Some mask.
Proof.
  intros (L1 & L2 & L3 & L4 & HF) Hi Em. set (idx := m_index job) in *.
  assert (forall A (l : list A), length l = 2%nat -> exists x, l !! Z.to_nat idx = Some x) as Hlk
    by (intros A l Hl; apply lookup_lt_is_Some_2; lia).
  destruct (Hlk _ (m_jobs w0) L2) as [j0 Ej]. destruct (Hlk _ (m_rounds w0) L3) as [r0 Er].
  destruct (Hlk _ (m_nonce_mask w0) L4) as [k0 Ek]. unfold save_job. fold idx. cbv zeta.
  unfold set_w_job, set_w_rounds, set_w_mask, currentJob. cbn [set_w_index w_index m_jobs].
  destruct (aset_at idx ltac:(lia) (m_jobs w0) j0 (copy Job.Job.empty job) Ej) as [-> Ej1]. rewrite !ok_bind.
  cbn [w_index m_rounds set_w_index].
  destruct (aset_at idx ltac:(lia) (m_rounds w0) r0 0 Er) as [-> Er1]. rewrite !ok_bind, Em, ok_bind.
  cbn [w_index m_nonce_mask set_w_index].
  destruct (aset_at idx ltac:(lia) (m_nonce_mask w0) k0 mask Ek) as [-> Ek1]. rewrite !ok_bind.
  cbn [w_index m_jobs]. rewrite (aget_at idx ltac:(lia) _ _ Ej1), ok_bind.
  destruct (aset_at idx ltac:(lia) _ _ (setBackend (copy Job.Job.empty job) backend) Ej1) as [-> Ej2]. rewrite ok_bind.
  eexists. split; [done|]. cbn. done.
Qed.

Lemma saved_ok job backend w : minable job -> saved job backend w ->
  exists mask b, nonceMask job = Ok mask /\ worker_ok (m_index job) (nonceOffset job) mask w b 0 /\
    nval (mask_bits job) b (nonceOffset job) = nval (mask_bits job) (m_blob job) (nonceOffset job).
Proof.
  intros M (w0 & w1 & Hwf & Hs & Hc). destruct M as [[Hb Hsz] HB Hi Hx Hfit].
  destruct (nonceMask_bits job Hx) as (Hk & Hnb & mask & Em & _). exists mask.
  destruct (save_job_ok w0 job backend mask Hwf Hi Em) as (w1' & E & Hix & Hbl & Hj & Hr & Hm). rewrite Hs in E. injection E as <-.
  destruct Hwf as (L1 & _ & _ & _ & HF). set (idx := m_index job) in *. pose proof (offset_range job) as [Ho Hns].
  destruct (lookup_lt_is_Some_2 (m_blobs w0) (Z.to_nat idx)) as [b0 Eb]; [lia|].
  pose proof (Forall_lookup_1 _ _ _ _ HF Eb) as [Hb0 HB0]. cbn beta in Hb0, HB0.
  unfold copy_blob1, blob in Hc. rewrite Hix, Hbl, (aget_at idx ltac:(lia) _ _ Eb), ok_bind in Hc. unfold kMaxBlobSize in *.
  rewrite mload_ok, ok_bind in Hc by lia. set (src := chunk (m_blob job) 0 (m_size job)) in *.
  assert (Z.of_nat (length src) = m_size job) as Hls by (unfold src; rewrite length_chunk; lia).
  rewrite mstore_ok, ok_bind in Hc by lia. unfold set_w_blob in Hc. rewrite Hix, Hbl in Hc.
  destruct (aset_at idx ltac:(lia) _ _ (splice b0 0 src) Eb) as [E1 E2]. rewrite E1, ok_bind in Hc. injection Hc as <-.
  exists (splice b0 0 src). split; [done|]. split.
  - split; cbn; try done.
    + unfold kMaxBlobSize. rewrite msize_splice; lia.
    + apply splice_bytes; [done|]. by apply chunk_bytes.
    + eexists. split; [exact Hj|]. done.
  - unfold nval. f_equal. unfold splice, src, chunk. change (Z.to_nat 0) with 0%nat. rewrite take_0, drop_0. cbn [app].
    rewrite drop_app_le by (rewrite length_take; unfold msize in *; lia).
    rewrite take_app_le by (rewrite length_drop, length_take; unfold msize, nonce_bytes in *; lia).
    rewrite !take_drop_commute, take_take. do 2 f_equal. unfold nonce_bytes in *. case_match; lia.
Qed.

(** All workers have the job and none has a nonce yet. *)
Record starting (job : Job) (backend : Z) (s : system) : Prop := {
  st_counter : m_nonces (shared s) !! Z.to_nat (m_index job) = Some 0;
  st_threads : forall i t, threads s !! i = Some t ->
    t_pc t = Reserving true /\ params (mask_bits job) t /\ saved job backend (t_worker t);
  st_hashed : hashed s = []; st_total : total s = 0; st_overrun : overrun s = false }.

(** C19: however many workers mine a job and however their steps interleave, no
    nonce is hashed twice and every nonce keeps the bits that the pool has fixed
    (until the 64-bit counter itself overflows).  The one exception, workers that
    start without a reservation, needs more reservations than there are nonces. *)
Theorem nonces_unique job backend s0 s : minable job -> starting job backend s0 -> rtc (step (mask_bits job)) s0 s ->
  total s < 2 ^ 64 ->
  (overrun s = false ->
     NoDup (hashed s) /\
     forall n, n ∈ hashed s ->
       n / 2 ^ mask_bits job = nval (mask_bits job) (m_blob job) (nonceOffset job) / 2 ^ mask_bits job) /\
  (overrun s = true -> 2 ^ mask_bits job < total s).
Proof.
  intros M [S1 S2 S3 S4 S5] Hrtc Ht. destruct (nonceMask_bits job (mn_extra _ M)) as (Hk & _ & mask & Em & Emask).
  set (k := mask_bits job) in *. set (off := nonceOffset job) in *. set (F := nval k (m_blob job) off / 2 ^ k).
  pose proof (offset_range job) as [Ho _]. fold off in Ho. pose proof (mn_index _ M) as Hi.
  assert (0 < 2 ^ k) as Hp by (apply Z.pow_pos_nonneg; lia).
  assert (Inv k (m_index job) off mask F s0) as H0.
  { split; [lia|]. split; [|congruence]. intros _ _. exists (fun _ => 0), (fun _ => 0), [].
    split; rewrite ?S4, ?S3; [done| | |done| | |].
    - intros i t Hit. destruct (S2 i t Hit) as (Hpc & Hpar & Hsv). split; [done|]. rewrite Hpc.
      destruct (saved_ok job backend _ M Hsv) as (mask' & b & Em' & W & Hv). exists b, 0.
      assert (mask' = mask) as -> by congruence. split; [done|]. split; [by unfold F; f_equal|]. done.
    - intros i j t u _ Hit _ Hpc. destruct (S2 i t Hit) as (Hpc' & _). congruence.
    - by apply NoDup_nil.
    - by intros y ?%not_elem_of_nil.
    - by intros i t y _ _ ?%not_elem_of_nil. }
  assert (Inv k (m_index job) off mask F s) as HI.
  { clear S1 S2 S3 S4 S5 Ht. induction Hrtc as [|z0 z1 z Hst Hrtc IH]; [done|]. apply IH.
    eapply step_inv; [..|exact H0|exact Hst]; done || lia. }
  destruct HI as (_ & HI & HO). split; [|auto]. intros Hov. destruct (HI Hov Ht) as (c & x & xs & [_ _ _ Hh Hnd Hu _]).
  rewrite Hh. split.
  - apply NoDup_fmap_2; [|done]. intros a b E. lia.
  - intros n (y & -> & Hy)%list_elem_of_fmap. destruct (Hu y Hy) as [Hr _]. rewrite Z.mul_comm, Z.div_add_l, Z.div_small by lia. lia.
Qed.

Definition sample_job : Job := set_size (make false RX_0 None) 76 false.

Definition sample_worker : WorkerJob :=
  match save_job (make_worker 1) sample_job CPU ≫= (fun w => copy_blob1 w sample_job) with Ok w => w | _ => make_worker 1 end.

Definition sample_system : system :=
  mk_sys initial (replicate 2 (mk_thread 2 1 sample_worker (Reserving true))) [] 0 false.

Lemma sample_minable : minable sample_job.
Proof.
  split; [split; [reflexivity|cbn; unfold kMaxBlobSize; lia]| |cbn; lia|cbn; lia|vm_compute; discriminate].
  apply Forall_replicate. unfold is_u8. lia.
Qed.

Lemma sample_starting : starting sample_job CPU sample_system.
Proof.
  split; try reflexivity. intros i t Hi. apply lookup_replicate in Hi as [-> _]. split; [reflexivity|]. split.
  - exists 1. split; [lia|]. split; [reflexivity|]. split; [cbn; lia|]. split; [reflexivity|vm_compute; discriminate].
  - destruct (save_job (make_worker 1) sample_job CPU) as [w1| |] eqn:E1; [|by vm_compute in E1..].
    exists (make_worker 1), w1. split; [|split; [done|]].
    + repeat split; try reflexivity. apply Forall_replicate. split; [reflexivity|]. apply Forall_replicate. unfold is_u8. lia.
    + cbn [t_worker]. unfold sample_worker. rewrite E1, ok_bind. destruct (copy_blob1 w1 sample_job) eqn:E2; [done| |];
        vm_compute in E1; injection E1 as <-; by vm_compute in E2.
Qed.

(** Two workers that reserve two nonces each, hash them and reserve again. *)
Lemma nonces_unique_witness :
  exists s, schedule 32 sample_system [0; 1; 0; 1; 1; 0; 0; 0]%nat = Ok s /\ length (hashed s) = 5%nat /\ NoDup (hashed s).
Proof.
  assert (match schedule 32 sample_system [0; 1; 0; 1; 1; 0; 0; 0]%nat with
          | Ok s => (length (hashed s) =? 5)%nat && (total s <? 2 ^ 64) && negb (overrun s) | _ => false end = true) as H
    by (vm_compute; reflexivity).
  destruct (schedule 32 sample_system [0; 1; 0; 1; 1; 0; 0; 0]%nat) as [s| |] eqn:E; [|discriminate..].
  apply andb_prop in H as [[H1 H2]%andb_prop H3]. apply Nat.eqb_eq in H1. apply Z.ltb_lt in H2. apply negb_true_iff in H3.
  exists s. split; [reflexivity|]. split; [exact H1|]. apply schedule_steps in E.
  exact (proj1 (proj1 (nonces_unique sample_job CPU sample_system s sample_minable sample_starting E H2) H3)).
Defined.

(** ** The loops of the code as runs of one thread *)

Lemma set_same_blob w b : blob w = Ok b -> set_w_blob w b = Ok w.
Proof.
  unfold blob, set_w_blob, aget. destruct (Z.ltb_spec (w_index w) 0); [discriminate|].
  destruct (m_blobs w !! Z.to_nat (w_index w)) as [b0|] eqn:E; [|discriminate]. intros [= ->].
  pose proof (lookup_lt_Some _ _ _ E). rewrite aset_ok, ok_bind by lia. rewrite list_insert_id by done. by destruct w.
Qed.

Lemma next_loop_steps k fuel : forall g t log tot ov b off mask first ok g' b', t_pc t = Reserving first ->
  blob (t_worker t) = Ok b -> nonce_at1 (t_worker t) = Ok off -> w_nonceMask (t_worker t) = Ok mask ->
  next_loop fuel g (w_index (t_worker t)) b off (reserve t) (Z.land mask MASK63) = Ok (ok, g', b') ->
  exists tot',
    if (ok : bool) then
      forall w1 w2, set_w_blob (t_worker t) b' = Ok w1 -> (if first then Ok w1 else copy_high w1) = Ok w2 ->
        rtc (step k) (mk_sys g [t] log tot ov) (mk_sys g' [goto t w2 Hashing] log tot' ov)
    else b' = b /\ rtc (step k) (mk_sys g [t] log tot ov)
           (mk_sys g' [goto t (t_worker t) (if first then Hashing else Stopped)] log tot' (ov || first)).
Proof.
  induction fuel as [|fuel IH]; intros g t log tot ov b off mask first ok g' b' Hp Hb Ho Hm; cbn [next_loop]; [discriminate|].
  intros ([c g1] & Ef & H)%bind_Ok. destruct (verdict_of c (reserve t) (Z.land mask MASK63)) as [p| |p] eqn:Ev.
  - injection H as <- <- <-. exists (tot + reserve t). split; [done|]. apply rtc_once.
    by apply (step_exhausted k (mk_sys g [t] log tot ov) 0%nat t first mask c g1 p).
  - destruct (IH g1 t log (tot + reserve t) ov b off mask first ok g' b' Hp Hb Ho Hm H) as [tot' Hs]. exists tot'.
    assert (step k (mk_sys g [t] log tot ov) (mk_sys g1 [t] log (tot + reserve t) ov)) as H1
      by by apply (step_retry k (mk_sys g [t] log tot ov) 0%nat t first mask c g1).
    destruct ok; [|destruct Hs as [Hb' Hs]; split; [done|]; by eapply rtc_l].
    intros w1 w2 E1 E2. eapply rtc_l; [exact H1|by eapply Hs].
  - apply bind_Ok in H as (b1 & Ew & H). injection H as <- <- <-. exists (tot + reserve t). intros w1 w2 E1 E2. apply rtc_once.
    apply (step_take k (mk_sys g [t] log tot ov) 0%nat t first mask c g1 p w2); try done.
    unfold take_nonce. rewrite Hb, ok_bind, Ho, ok_bind, Hm, ok_bind, Ew, ok_bind, E1, ok_bind. destruct first; done.
Qed.

(** What the threads of a job need to go on. *)
Record ready (k idx off mask : Z) (g : nonce_state) (t : thread) (b : mem) (r : Z) : Prop := {
  rd_bits : 0 < k <= 63; rd_index : 0 <= idx; rd_off : 0 <= off <= 400; rd_mask : 0 <= mask;
  rd_ones : Z.land mask MASK63 = 2 ^ k - 1;
  rd_worker : worker_ok idx off mask (t_worker t) b r; rd_params : params k t;
  rd_counter : exists c, m_nonces g !! Z.to_nat idx = Some c /\ 0 <= c }.

Lemma add_nonce1_returns idx off mask w b r n : 0 <= idx -> 0 <= off <= 400 -> worker_ok idx off mask w b r ->
  exists w', add_nonce1 w n = Ok w'.
Proof.
  intros Hi Ho W. unfold add_nonce1. rewrite (blob_is _ _ _ Hi _ _ _ W), ok_bind, (offset_is _ _ _ Hi _ _ _ W), ok_bind.
  pose proof (ok_size _ _ _ _ _ _ W) as Hs. unfold kMaxBlobSize in Hs. rewrite mload32_ok, ok_bind by lia.
  destruct (store_word b off (u32 (load_le (chunk b off 4) + n)) (ok_bytes _ _ _ _ _ _ W)) as (b' & -> & Hs' & HB' & _);
    [lia|lia|apply u32_range|]. rewrite ok_bind.
  destruct (set_blob_ok _ _ _ Hi _ _ _ W b') as (w' & -> & _); [unfold kMaxBlobSize; lia|done|]. by exists w'.
Qed.

(** [next] of a thread that waits for nonces. *)
Lemma next_steps k idx off mask g t b r first log tot ov : ready k idx off mask g t b r -> t_pc t = Reserving first ->
  exists ok g' b' w1 w2 tot', next g (w_index (t_worker t)) b off (reserve t) mask = Ok (ok, g', b') /\
    set_w_blob (t_worker t) b' = Ok w1 /\ (if first then Ok w1 else copy_high w1) = Ok w2 /\
    rtc (step k) (mk_sys g [t] log tot ov)
      (if (ok : bool) then mk_sys g' [goto t w2 Hashing] log tot' ov
       else mk_sys g' [goto t w1 (if first then Hashing else Stopped)] log tot' (ov || first)).
Proof.
  intros [Hk Hi Ho Hm Hones W (q & Hq & Er & Hsz & Hrc & Hrk) (c & Ec & Hc)] Hp.
  assert (0 < 2 ^ q) by (apply Z.pow_pos_nonneg; lia). assert (reserve t = t_rounds t * t_size t) as Er2.
  { unfold reserve. apply u32_id. unfold is_u32. nia. }
  assert (0 < t_rounds t * t_size t) by nia.
  destruct (next_returns g idx b off (reserve t) mask c Hi Ec ltac:(lia) Hc Hm) as (ok & g' & b' & E & Hb' & _).
  { intros n Hn. rewrite Hones in *. destruct (write_nonce_ok b off k n (ok_bytes _ _ _ _ _ _ W) ltac:(lia)
      (room _ _ _ _ Ho _ _ _ W) Hk ltac:(lia)) as (b' & E & _). by exists b'. }
  assert (msize b' = kMaxBlobSize /\ Forall is_u8 b') as [Hs HB].
  { destruct Hb' as [->|(n & Hn & Ew)]; [split; apply W|]. rewrite Hones in *.
    destruct (write_nonce_ok b off k n (ok_bytes _ _ _ _ _ _ W) ltac:(lia) (room _ _ _ _ Ho _ _ _ W) Hk ltac:(lia))
      as (b2 & E2 & Hs2 & HB2 & _). rewrite Ew in E2. injection E2 as <-. split; [|done]. rewrite Hs2. apply W. }
  destruct (set_blob_ok _ _ _ Hi _ _ _ W b' Hs HB) as (w1 & E1 & W1).
  assert (exists w2, (if first then Ok w1 else copy_high w1) = Ok w2) as [w2 E2].
  { destruct first; [by exists w1|]. destruct (copy_high_ok k _ _ _ Hk Hi Ho _ _ _ W1) as (w2 & E2 & _). by exists w2. }
  pose proof E as En. unfold next in E. rewrite (ok_index _ _ _ _ _ _ W).
  assert (reservable (reserve t) (Z.land mask MASK63) = true) as Hres.
  { unfold reservable. rewrite Hones, Er2, (u32_id (_ - 1)) by (unfold is_u32; lia).
    rewrite (proj2 (Z.eqb_neq _ _)), (proj2 (Z.ltb_ge _ _)) by lia. done. }
  rewrite Hres in E. cbn [negb] in E. rewrite <- (ok_index _ _ _ _ _ _ W) in E.
  destruct (next_loop_steps k _ g t log tot ov b off mask first ok g' b' Hp (blob_is _ _ _ Hi _ _ _ W)
    (offset_is _ _ _ Hi _ _ _ W) (mask_is _ _ _ Hi _ _ _ W) E) as [tot' H1].
  exists ok, g', b', w1, w2, tot'. split; [done|]. split; [done|]. split; [done|]. destruct ok; [by eapply H1|].
  destruct H1 as [-> H1]. rewrite (set_same_blob _ _ (blob_is _ _ _ Hi _ _ _ W)) in E1. injection E1 as <-. done.
Qed.

(** The transitions of a thread are the code's.  [WorkerJob<1>::nextRound]
    always returns, also when it has to ask for nonces again, and it is a run of the
    transitions of one thread, which hashes the current nonce and ends up with the
    worker and the counters that [nextRound] leaves, stopped when it returns [false]. *)
Theorem nextRound_is_run k idx off mask g t b r log tot ov : ready k idx off mask g t b r -> t_pc t = Hashing ->
  exists ok g' w' tot', nextRound1 g (t_worker t) (t_rounds t) (t_size t) = Ok (ok, g', w') /\
    rtc (step k) (mk_sys g [t] log tot ov)
      (mk_sys g' [goto t w' (if (ok : bool) then Hashing else Stopped)] (nval k b off :: log) tot' ov).
Proof.
  intros R Hp. pose proof R as [Hk Hi Ho Hm Hones W (q & Hq & Er & Hpar) Hc]. unfold nextRound1.
  pose proof (current_nonce_ok k _ _ _ Hi Ho _ _ _ W) as Hn.
  destruct (begin_round_ok k _ _ _ Hi _ _ _ W q Hq) as (w1 & Eb & W1 & _). rewrite <- Er in Eb. rewrite Eb, ok_bind.
  destruct ((r + 1) mod t_rounds t =? 0) eqn:Ez.
  - rewrite (blob_is _ _ _ Hi _ _ _ W1), ok_bind, (offset_is _ _ _ Hi _ _ _ W1), ok_bind, (mask_is _ _ _ Hi _ _ _ W1), ok_bind.
    assert (ready k idx off mask g (goto t w1 (Reserving false)) b (u32 (r + 1))) as R1 by (split; try done; by exists q).
    destruct (next_steps k idx off mask g _ b _ false (nval k b off :: log) tot ov R1 eq_refl)
      as (ok & g' & b' & w2 & w3 & tot' & E & E2 & E3 & Hs). cbn [t_worker goto] in *. unfold reserve in E. cbn [t_rounds t_size goto] in E.
    rewrite E, ok_bind, E2, ok_bind.
    exists ok, g', (if ok then w3 else w2), tot'. split; [destruct ok; cbn [negb]; [by rewrite E3, ok_bind|done]|].
    eapply rtc_l; [by apply (step_used_up k (mk_sys g [t] log tot ov) 0%nat t (nval k b off) w1)|].
    destruct ok; [exact Hs|]. rewrite orb_false_r in Hs. exact Hs.
  - destruct (add_nonce1_returns _ _ _ _ _ _ (t_size t) Hi Ho W1) as [w2 E2]. rewrite E2, ok_bind.
    exists true, g, w2, tot. split; [done|]. apply rtc_once.
    by apply (step_hash k (mk_sys g [t] log tot ov) 0%nat t (nval k b off) w1 w2).
Qed.

(** [WorkerJob<1>::save] in the same way, from the copy of the blob on; here the
    outcome of [next] is lost. *)
Lemma save_is_run k idx off mask g t b r log tot ov w0 w1 job backend : ready k idx off mask g t b r -> t_pc t = Reserving true ->
  save_job w0 job backend = Ok w1 -> copy_blob1 w1 job = Ok (t_worker t) ->
  exists g' w' tot' ov', save1 g w0 job (reserve t) backend = Ok (g', w') /\
    rtc (step k) (mk_sys g [t] log tot ov) (mk_sys g' [goto t w' Hashing] log tot' ov').
Proof.
  intros R Hp Es Ec. pose proof R as [_ Hi _ _ _ W _ _].
  destruct (next_steps k idx off mask g t b r true log tot ov R Hp) as (ok & g' & b' & w2 & w3 & tot' & E & E2 & [= ->] & Hs).
  unfold save1. rewrite Es, ok_bind, Ec, ok_bind.
  rewrite (blob_is _ _ _ Hi _ _ _ W), ok_bind, (offset_is _ _ _ Hi _ _ _ W), ok_bind, (mask_is _ _ _ Hi _ _ _ W), ok_bind, E, ok_bind, E2, ok_bind.
  destruct ok; eexists _, _, _, _; (split; [done|exact Hs]).
Qed.

Lemma sample_ready p : exists mask b, ready 32 0 39 mask initial (mk_thread 2 1 sample_worker p) b 0.
Proof.
  destruct (saved_ok sample_job CPU sample_worker sample_minable) as (mask & b & Em & W & _).
  { by apply (st_threads _ _ _ sample_starting 0%nat (mk_thread 2 1 sample_worker (Reserving true))). }
  vm_compute in Em. injection Em as <-. eexists _, b. split; [lia|lia|lia| | |exact W| |exists 0; split; [reflexivity|lia]].
  - lia.
  - reflexivity.
  - exists 1. split; [lia|]. split; [reflexivity|]. split; [cbn; lia|]. split; [reflexivity|vm_compute; discriminate].
Qed.

Lemma nextRound_is_run_witness : exists ok g' w', nextRound1 initial sample_worker 2 1 = Ok (ok, g', w').
Proof.
  destruct (sample_ready Hashing) as (mask & b & R).
  destruct (nextRound_is_run 32 0 39 mask initial (mk_thread 2 1 sample_worker Hashing) b 0 [] 0 false R eq_refl)
    as (ok & g' & w' & tot' & E & _).
  exists ok, g', w'. exact E.
Defined.

End Mining.
