(* ===== verification/ClientProofs.v ===== *)
(** * Correctness of the stratum client *)
From Stdlib Require Import Ascii String ZArith Lia.
From stdpp Require Import base numbers list gmap relations.
From S2P Require Import Prelude Memory LineReader Cvt BlockTemplate Algorithm Job Json Url Client Nonce WorkerJob Mining.
Import Json.Json Client.Client.
Open Scope list_scope.
Open Scope Z_scope.

Module ClientProofs.
Import Algorithm.Algorithm Job.Job.

(** ** Reasoning about handlers *)

(** [m] leaves [P] true, if it returns. *)
Definition keeps {A} (P : client -> Prop) (m : M A) : Prop :=
  forall c, P c -> match m c with Ok (_, c', _) => P c' | _ => True end.

Section Keeps.
Context (P : client -> Prop).

Lemma keeps_ret {A} (a : A) : keeps P (mret a).
Proof. by intros c. Qed.
Lemma keeps_gets {A} (f : client -> A) : keeps P (gets f).
Proof. by intros c. Qed.
Lemma keeps_emit e : keeps P (emit e).
Proof. by intros c. Qed.
Lemma keeps_fault {A} : keeps P (@fault A).
Proof. by intros c. Qed.
Lemma keeps_lift {A} (r : result A) : keeps P (lift r).
Proof. intros c. by destruct r. Qed.
Lemma keeps_modify f : (forall c, P c -> P (f c)) -> keeps P (modify f).
Proof. intros H c. apply H. Qed.
Lemma keeps_bind {A B} (m : M A) (f : A -> M B) : keeps P m -> (forall a, keeps P (f a)) -> keeps P (m ≫= f).
Proof.
  intros Hm Hf c Hc. unfold mbind, M_bind. specialize (Hm c Hc). destruct (m c) as [[[a c1] e1]| |]; [|done|done].
  specialize (Hf a c1 Hm). by destruct (f a c1) as [[[b c2] e2]| |].
Qed.
Lemma keeps_when b m : keeps P m -> keeps P (when b m).
Proof. intros H. destruct b; [done|apply keeps_ret]. Qed.

(** A field that [P] determines. *)
Lemma keeps_known {A B} (f : client -> A) v (k : A -> M B) : (forall c, P c -> f c = v) -> keeps P (k v) -> keeps P (gets f ≫= k).
Proof.
  intros Hv Hk c Hc. unfold mbind, M_bind, gets. rewrite (Hv c Hc). specialize (Hk c Hc). by destruct (k v c) as [[[b c2] e2]| |].
Qed.

End Keeps.

Create HintDb keeps.
#[export] Hint Resolve keeps_ret keeps_gets keeps_emit keeps_fault keeps_lift keeps_when keeps_bind : keeps.

(** Follow the structure of a handler down to its updates. *)
Ltac keeps_step :=
  match goal with
  | |- forall _, _ => intros ?
  | |- keeps _ (mret _) => apply keeps_ret
  | |- keeps _ (gets _) => apply keeps_gets
  | |- keeps _ (emit _) => apply keeps_emit
  | |- keeps _ fault => apply keeps_fault
  | |- keeps _ (lift _) => apply keeps_lift
  | |- keeps _ (when _ _) => apply keeps_when
  | |- keeps _ (mbind _ _) => apply keeps_bind
  | |- keeps _ (match ?x with _ => _ end) => destruct x
  | |- keeps _ (let '(_, _) := ?x in _) => destruct x
  | |- keeps _ _ => solve [eauto 2 with keeps]
  end.
Ltac keeps := repeat keeps_step.

(** ** Texts *)

Lemma cstr_terminated s tl : Forall (fun x => x <> 0) s -> cstr (s ++ 0 :: tl) = s.
Proof. induction 1 as [|x s Hx _ IH]; [done|]. cbn. by rewrite (proj2 (Z.eqb_neq x 0)), IH by done. Qed.

Lemma cstr_id s : Forall (fun x => x <> 0) s -> cstr s = s.
Proof. induction 1 as [|x s Hx _ IH]; [done|]. cbn. by rewrite (proj2 (Z.eqb_neq x 0)), IH by done. Qed.

Lemma hexdigit_range n : 0 <= n < 16 -> 48 <= Cvt.Cvt.hexdigit n < 103.
Proof. unfold Cvt.Cvt.hexdigit. destruct (Z.ltb_spec n 10); lia. Qed.

Lemma encode_chars bs : Forall is_u8 bs -> Forall (fun x => 48 <= x < 103) (Cvt.Cvt.encode bs).
Proof.
  induction 1 as [|b bs Hb _ IH]; [by constructor|]. rewrite Cvt.Cvt.encode_cons. unfold is_u8 in Hb.
  repeat constructor; try done; try apply hexdigit_range; try (Z.div_mod_to_equations; lia).
Qed.

Lemma encode_u8 bs : Forall is_u8 bs -> Forall is_u8 (Cvt.Cvt.encode bs).
Proof. intros H. eapply Forall_impl; [by apply encode_chars|]. unfold is_u8. intros; cbn in *; lia. Qed.

Lemma encode_cstr bs : Forall is_u8 bs -> cstr (Cvt.Cvt.encode bs) = Cvt.Cvt.encode bs.
Proof. intros H. apply cstr_id. eapply Forall_impl; [by apply encode_chars|]. intros; cbn in *; lia. Qed.

Lemma msize_encode bs : msize (Cvt.Cvt.encode bs) = 2 * msize bs.
Proof. unfold msize. rewrite Cvt.Cvt.length_encode. lia. Qed.

(** What [cvt_bin2hex] leaves in a buffer with room for the terminator. *)
Lemma bin2hex_text room maxlen bs : Forall is_u8 bs -> 2 * msize bs < maxlen -> maxlen <= Z.of_nat room ->
  msize bs < 2 ^ 62 ->
  exists h, Cvt.Cvt.cvt_bin2hex (replicate room 0) maxlen bs (msize bs) = Ok (Some h) /\ cstr h = Cvt.Cvt.encode bs.
Proof.
  intros HB Hm Hr Hs. assert (msize (replicate room 0) = Z.of_nat room) as Hroom by (unfold msize; by rewrite length_replicate).
  unfold Cvt.Cvt.cvt_bin2hex, Cvt.Cvt.SIZE_MAX.
  rewrite (proj2 (Z.leb_gt _ _)), (proj2 (Z.ltb_ge _ _)) by (try Z.div_mod_to_equations; lia). cbn [orb].
  pose proof (msize_encode bs) as Hl. unfold msize in Hl at 1.
  rewrite Cvt.Cvt.bin2hex_loop_ok; [|lia|unfold msize; lia|unfold msize in *; lia|done]. rewrite ok_bind.
  assert (chunk bs 0 (Z.of_nat (Z.to_nat (msize bs))) = bs) as ->
    by (unfold chunk, msize; rewrite !Nat2Z.id; change (Z.to_nat 0) with 0%nat; by rewrite drop_0, firstn_all).
  rewrite (proj2 (Z.ltb_lt _ _)) by lia. change (2 * 0) with 0. set (e := Cvt.Cvt.encode bs) in *.
  assert (msize (splice (replicate room 0) 0 e) = Z.of_nat room) as Hsp by (rewrite msize_splice; lia).
  unfold msize in Hsp. rewrite aset_ok, !ok_bind by lia. eexists. split; [done|].
  assert (Z.to_nat (msize bs * 2) = length e) as -> by lia.
  unfold splice. change (Z.to_nat 0) with 0%nat. rewrite take_0, Nat.add_0_l, app_nil_l, drop_replicate.
  destruct (room - length e)%nat as [|n] eqn:En; [lia|]. cbn [replicate].
  replace (length e) with (length e + 0)%nat at 1 by lia. rewrite insert_app_r. cbn.
  apply cstr_terminated. eapply Forall_impl; [by apply encode_chars|]. intros; cbn in *; lia.
Qed.

(** ** Requests *)

(** The send buffer of a client: it starts with one kilobyte and only grows. *)
Definition buf_ok (c : client) : Prop := 1024 <= msize (sendBuf c) < 2 ^ 63.

Lemma msize_resize (b : mem) n : 0 <= n -> msize (Cvt.Cvt.resize b n) = n.
Proof. intros Hn. unfold Cvt.Cvt.resize, msize. rewrite length_app, length_take, length_replicate. lia. Qed.

(** The buffer that [send] fills, for a text it takes. *)
Lemma send_fills E obj c : buf_ok c -> msize (write_json E obj) <= kMaxSendBufferSize ->
  exists buf, 1024 <= msize buf < 2 ^ 63 /\ chunk buf 0 (msize (write_json E obj) + 1) = write_json E obj ++ [10] /\
    msize (write_json E obj) + 1 <= msize buf /\
    send E obj c = send_size E (msize (write_json E obj) + 1) (set_sendBuf buf c).
Proof.
  intros Hb Hs. unfold buf_ok, kMaxSendBufferSize in *. unfold send. set (text := write_json E obj) in *.
  rewrite (proj2 (Z.ltb_ge _ _)) by (unfold kMaxSendBufferSize; lia). unfold mbind at 1, M_bind at 1, gets at 1.
  set (buf := if _ <? _ then _ else _). assert (0 <= msize text) as H0 by (unfold msize; lia).
  assert (1024 <= msize buf < 2 ^ 63 /\ msize text + 2 <= msize buf) as [Hr Hfit].
  { unfold buf. rewrite u64_id by (unfold is_u64; lia). destruct (Z.ltb_spec (msize (sendBuf c) - 2) (msize text)); [|lia].
    rewrite msize_resize by (Z.div_mod_to_equations; lia). Z.div_mod_to_equations. lia. }
  clearbody buf. assert (msize (splice buf 0 text) = msize buf) as H1 by (rewrite msize_splice; unfold msize in *; lia).
  exists (<[Z.to_nat (msize text + 1) := 0]> (<[Z.to_nat (msize text) := 10]> (splice buf 0 text))).
  assert (forall b : mem, forall k x, msize (<[k:=x]> b) = msize b) as Hins by (intros; unfold msize; by rewrite length_insert).
  rewrite !Hins, H1. split; [done|]. split.
  - unfold msize in *. rewrite Z2Nat.inj_add, Nat2Z.id by lia. change (Z.to_nat 1) with 1%nat.
    unfold splice. change (Z.to_nat 0) with 0%nat. rewrite take_0, app_nil_l, Nat.add_0_l.
    pose proof (length_drop buf (length text)) as Hd. destruct (drop (length text) buf) as [|x [|y tl]]; cbn in Hd; [lia|lia|].
    replace (length text) with (length text + 0)%nat at 2 by lia. rewrite !insert_app_r. cbn [insert list_insert].
    unfold chunk. change (Z.to_nat 0) with 0%nat. rewrite drop_0, Z2Nat.inj_add, Nat2Z.id, take_app_add by lia. done.
  - split; [lia|]. unfold mbind, M_bind. unfold lift at 1. unfold msize in *. rewrite mstore_ok by (unfold msize; lia).
    unfold lift at 1. rewrite aset_ok by lia. unfold lift at 1. rewrite aset_ok by (rewrite length_insert; lia).
    unfold modify. by destruct (send_size E _ _) as [[[? ?] ?]| |].
Qed.

Lemma stream_step {B} (f : unit -> M B) c : is_Some (c_socket (cn c)) -> (stream ≫= f) c = f tt c.
Proof. intros [k Hk]. unfold stream, mbind, M_bind, gets. rewrite Hk. cbn. by destruct (f tt c) as [[[? ?] ?]| |]. Qed.

(** A request that is written entirely. *)
Lemma send_ok E obj c : buf_ok c -> msize (write_json E obj) <= kMaxSendBufferSize ->
  c_state (cn c) = ConnectedState -> is_Some (c_socket (cn c)) -> writable E = true -> try_write E (write_json E obj ++ [10]) = msize (write_json E obj) + 1 ->
  exists buf, 1024 <= msize buf < 2 ^ 63 /\
    send E obj c = Ok (sequence c,
      set_sequence (sequence c + 1) (set_cn (with_expire (u64 (now E + kResponseTimeout))) (set_sendBuf buf c)),
      [Written (write_json E obj ++ [10])]).
Proof.
  intros Hb Hs Hst Hk Hw Ht. destruct (send_fills E obj c Hb Hs) as (buf & Hr & Hch & Hfit & ->). exists buf. split; [done|].
  unfold send_size, mbind at 1, M_bind at 1, gets at 1. change (c_state (cn (set_sendBuf buf c))) with (c_state (cn c)). rewrite Hst.
  change (negb (is_state ConnectedState ConnectedState)) with false. cbv match. rewrite stream_step, Hw by done. cbn [negb].
  assert (0 <= msize (write_json E obj)) by (unfold msize; lia).
  unfold mbind at 1, M_bind at 1, gets at 1, mbind at 1, M_bind at 1, lift. cbn [sendBuf set_sendBuf]. rewrite mload_ok, Hch by lia.
  unfold mbind at 1, M_bind at 1, write. rewrite stream_step by done.
  rewrite Ht, msize_app. change (msize [10]) with 1. rewrite u64_id by (unfold is_u64, kMaxSendBufferSize in *; lia).
  by rewrite Z.eqb_refl.
Qed.

(** ** Sessions of the LMT protocol *)

(** The client speaks the LMT protocol and has no identifier from a pool. *)
Definition nameless (c : client) : Prop := s_rpcId (ss c) = None /\ s_lmtNative (ss c) = true.

Section Nameless.
Context (E : env).

Ltac plain := apply keeps_modify; intros ? [? ?]; by split.
Ltac by_cases := keeps; try plain.

Lemma setState_nameless s : keeps nameless (setState E s).
Proof. unfold setState. by_cases. Qed.
Hint Resolve setState_nameless : keeps.
Lemma close_nameless : keeps nameless (close E).
Proof. unfold close. by_cases. Qed.
Hint Resolve close_nameless : keeps.
Lemma reconnect_nameless : keeps nameless (reconnect E).
Proof. unfold reconnect. by_cases. Qed.
Hint Resolve reconnect_nameless : keeps.

Lemma stream_nameless : keeps nameless stream.
Proof. unfold stream. by_cases. Qed.
Hint Resolve stream_nameless : keeps.
Lemma listens_nameless : keeps nameless listens.
Proof. unfold listens. by_cases. Qed.
Hint Resolve listens_nameless : keeps.
Lemma tell_nameless e : keeps nameless (tell e).
Proof. unfold tell. by_cases. Qed.
Hint Resolve tell_nameless : keeps.
Lemma disconnect_nameless : keeps nameless (disconnect E).
Proof. unfold disconnect. by_cases. Qed.
Hint Resolve disconnect_nameless : keeps.
Lemma deleteLater_nameless : keeps nameless (deleteLater E).
Proof. unfold deleteLater. by_cases. Qed.
Hint Resolve deleteLater_nameless : keeps.
Lemma resolve_nameless h : keeps nameless (resolve E h).
Proof. unfold resolve. by_cases. Qed.
Hint Resolve resolve_nameless : keeps.
Lemma connect_nameless : keeps nameless (connect E).
Proof. unfold connect. by_cases. Qed.
Hint Resolve connect_nameless : keeps.
Lemma connect_addr_nameless : keeps nameless (connect_addr E).
Proof. unfold connect_addr. by_cases. Qed.
Hint Resolve connect_addr_nameless : keeps.
Lemma onResolved_nameless r s : keeps nameless (onResolved E r s).
Proof. unfold onResolved. by_cases. Qed.
Hint Resolve onResolved_nameless : keeps.
Lemma onClose_nameless : keeps nameless (onClose E).
Proof. unfold onClose. by_cases. Qed.
Hint Resolve onClose_nameless : keeps.
Lemma write_nameless b : keeps nameless (write E b).
Proof. unfold write. by_cases. Qed.
Hint Resolve write_nameless : keeps.
Lemma send_size_nameless n : keeps nameless (send_size E n).
Proof. unfold send_size. by_cases. Qed.
Hint Resolve send_size_nameless : keeps.
Lemma send_nameless o : keeps nameless (send E o).
Proof. unfold send. by_cases. Qed.
Hint Resolve send_nameless : keeps.
Lemma startTimeout_nameless : keeps nameless (startTimeout E).
Proof. unfold startTimeout. by_cases. Qed.
Hint Resolve startTimeout_nameless : keeps.
Lemma ping_nameless : keeps nameless (ping E).
Proof. unfold ping. by_cases. Qed.
Hint Resolve ping_nameless : keeps.
Lemma tick_nameless t : keeps nameless (tick E t).
Proof. unfold tick. by_cases. Qed.
Hint Resolve tick_nameless : keeps.
Lemma parseJob_nameless p : keeps nameless (parseJob E p).
Proof. unfold parseJob. by_cases. Qed.
Hint Resolve parseJob_nameless : keeps.
Lemma parseLmtNotify_nameless p : keeps nameless (parseLmtNotify E p).
Proof. unfold parseLmtNotify. by_cases. Qed.
Hint Resolve parseLmtNotify_nameless : keeps.
Lemma login_nameless : keeps nameless (login E).
Proof. unfold login. by_cases. Qed.
Hint Resolve login_nameless : keeps.
Lemma submit_nameless r : keeps nameless (submit E r).
Proof. unfold submit. by_cases. Qed.
Hint Resolve submit_nameless : keeps.
Lemma handleSubmitResponse_nameless i e : keeps nameless (handleSubmitResponse E i e).
Proof. unfold handleSubmitResponse. by_cases. Qed.
Hint Resolve handleSubmitResponse_nameless : keeps.
Lemma handleResponse_nameless i r e : keeps nameless (handleResponse i r e).
Proof. unfold handleResponse. by_cases. Qed.
Hint Resolve handleResponse_nameless : keeps.
(** The reply to the login is the one to the subscription, which names nobody. *)
Lemma parseResponse_nameless i r e : keeps nameless (parseResponse E i r e).
Proof.
  unfold parseResponse. apply keeps_bind; [auto with keeps|]. intros handled. destruct handled; [apply keeps_ret|].
  destruct (is_object e); [by_cases|]. destruct (negb (is_object r)); [apply keeps_ret|].
  apply (keeps_known _ _ true); [by intros c []|]. cbn [andb]. destruct (i =? 1); [by_cases|]. by_cases.
Qed.
Hint Resolve parseResponse_nameless : keeps.
Lemma parseNotification_nameless m p : keeps nameless (parseNotification E m p).
Proof. unfold parseNotification. by_cases. Qed.
Hint Resolve parseNotification_nameless : keeps.
Lemma client_reconnect_nameless p : keeps nameless (client_reconnect E p).
Proof. unfold client_reconnect. by_cases. Qed.
Hint Resolve client_reconnect_nameless : keeps.
Lemma dispatch_nameless d : keeps nameless (dispatch E d).
Proof. unfold dispatch. by_cases. Qed.
Hint Resolve dispatch_nameless : keeps.
Lemma parse_line_nameless l : keeps nameless (parse_line E l).
Proof. unfold parse_line. by_cases. Qed.
Hint Resolve parse_line_nameless : keeps.
Lemma parse_lines_nameless l : keeps nameless (parse_lines E l).
Proof. induction l as [|x l IH]; cbn [parse_lines]; by_cases. Qed.
Hint Resolve parse_lines_nameless : keeps.
Lemma socks_handshake_nameless : keeps nameless (socks_handshake E).
Proof. unfold socks_handshake. by_cases. Qed.
Hint Resolve socks_handshake_nameless : keeps.
Lemma socks_connect_nameless : keeps nameless (socks_connect E).
Proof. unfold socks_connect. by_cases. Qed.
Hint Resolve socks_connect_nameless : keeps.
Lemma socks_read_nameless k b : keeps nameless (socks_read E k b).
Proof. unfold socks_read. by_cases. Qed.
Hint Resolve socks_read_nameless : keeps.
Lemma handshake_nameless : keeps nameless (handshake E).
Proof. unfold handshake. by_cases. Qed.
Hint Resolve handshake_nameless : keeps.
Lemma onConnect_nameless s : keeps nameless (onConnect E s).
Proof. unfold onConnect. by_cases. Qed.
Hint Resolve onConnect_nameless : keeps.
Lemma read_nameless f b : keeps nameless (read E f b).
Proof. unfold read. by_cases. Qed.
Hint Resolve read_nameless : keeps.
Lemma read_error_nameless : keeps nameless (read_error E).
Proof. unfold read_error. by_cases. Qed.
Hint Resolve read_error_nameless : keeps.
Lemma handle_nameless i : keeps nameless (handle E i).
Proof. unfold handle. by_cases. Qed.
Hint Resolve handle_nameless : keeps.
End Nameless.

Lemma history_nameless l : keeps nameless (history l).
Proof.
  induction l as [|[E i] l IH]; cbn [history]; [apply keeps_ret|]. apply keeps_bind; [apply handle_nameless|done].
Qed.

(** The reply that the protocol prescribes for mining.authorize. *)
Definition authorized (b : bool) : json := JObject [(lit "id", JNumber 2); (lit "result", JBool b); (lit "error", JNull)].

Lemma dispatch_authorized E b : dispatch E (authorized b) = parseResponse E 2 (JBool b) JNull.
Proof.
  unfold dispatch.
  replace (getValue (authorized b) "id") with (JNumber 2) by reflexivity.
  replace (getValue (authorized b) "error") with JNull by reflexivity.
  replace (getValue (authorized b) "result") with (JBool b) by reflexivity.
  by replace (getString (authorized b) "method") with (@None mem) by reflexivity.
Qed.

(** C39: no share of an LMT session is ever sent, and its login never succeeds with a
    bridge that follows the protocol.  Once the client speaks the LMT protocol and has
    no identifier (as [login] leaves it when it never had one), whatever the pool
    sends and the event loop calls, [submit] returns -1 and writes nothing; and the
    reply that the protocol prescribes for mining.authorize, whose result is the
    value true, has no effect at all. *)
Theorem lmt_session_dead c l c' evs : s_rpcId (ss c) = None -> s_lmtNative (ss c) = true -> history l c = Ok (tt, c', evs) ->
  (forall E r, submit E r c' = Ok (-1, c', [])) /\
  (forall E b, 2 ∉ s_callbacks (ss c') ->
     dispatch E (authorized b) c' = Ok (tt, c', [])).
Proof.
  intros H1 H2 H. pose proof (history_nameless l c (conj H1 H2)) as Hn. rewrite H in Hn. destruct Hn as [Hn _].
  split.
  - intros E r. unfold submit, mbind, M_bind, gets. rewrite Hn. cbn [isNull]. by rewrite orb_true_r.
  - intros E b Hb. rewrite dispatch_authorized. unfold parseResponse, handleResponse, mbind, M_bind, gets. cbn -[bool_decide].
    by rewrite bool_decide_eq_false_2 by done.
Qed.

(** ** The work of the LMT protocol *)

(** The bytes that are hashed: the hash of the header, its time, and the nonce. *)
Definition lmt_bytes (hash : mem) (ts nonce : Z) : mem := hash ++ store_le 8 ts ++ store_le 8 nonce.

Lemma msize_lmt_bytes hash ts n : msize hash = 32 -> msize (lmt_bytes hash ts n) = 48.
Proof. intros H. unfold lmt_bytes. rewrite !msize_app, H. unfold msize. by rewrite !length_store_le by lia. Qed.

Lemma lmt_bytes_u8 hash ts n : Forall is_u8 hash -> Forall is_u8 (lmt_bytes hash ts n).
Proof. intros H. repeat apply Forall_app_2; try done; apply store_le_bytes; lia. Qed.

(** Where [setBlob] looks for a nonce are the last byte of the time and zeros. *)
Lemma lmt_nonce_bytes hash ts : msize hash = 32 -> is_u64 ts ->
  load_le (chunk (splice (replicate 408 0) 0 (lmt_bytes hash ts 0)) 39 4) = ts / 2 ^ 56.
Proof.
  intros Hh Ht. pose proof (msize_lmt_bytes hash ts 0 Hh) as Hl. unfold msize in Hl, Hh.
  unfold splice. change (Z.to_nat 0) with 0%nat. rewrite take_0, app_nil_l. unfold chunk.
  change (Z.to_nat 39) with 39%nat. change (Z.to_nat 4) with 4%nat.
  rewrite drop_app_le, take_app_le by (rewrite ?length_drop; lia).
  unfold lmt_bytes. replace 39%nat with (length hash + 7)%nat by lia. rewrite <- drop_drop, drop_app_length.
  change (take 4 (drop 7 (store_le 8 ts ++ store_le 8 0))) with
    [Z.land (Z.shiftr (Z.shiftr (Z.shiftr (Z.shiftr (Z.shiftr (Z.shiftr (Z.shiftr ts 8) 8) 8) 8) 8) 8) 8) (Z.ones 8); 0; 0; 0].
  rewrite !Z.shiftr_shiftr by lia. unfold load_le. cbn [little_endian_to_Z]. rewrite Z.land_ones, Z.shiftr_div_pow2 by lia.
  change (8 + 8 + 8 + 8 + 8 + 8 + 8) with 56. unfold is_u64 in Ht.
  rewrite Z.mod_small by (Z.div_mod_to_equations; lia). by rewrite Z.lor_0_r.
Qed.

Lemma lmt_blob_ok hash ts : Forall is_u8 hash -> msize hash = 32 ->
  lmt_blob (Cvt.Cvt.encode hash) ts = Ok (Some (Cvt.Cvt.encode (lmt_bytes hash ts 0))).
Proof.
  intros HB Hh. unfold lmt_blob. change 64 with (2 * 32). rewrite <- Hh, <- msize_encode.
  pose proof (Cvt.Cvt.fromHex_ok (replicate 32 0) (Cvt.Cvt.encode hash) (encode_u8 _ HB)) as H.
  change (msize (replicate 32 0)) with 32 in H. rewrite <- Hh, msize_encode in H. rewrite msize_encode.
  specialize (H ltac:(lia)). apply returns_iff in H as ([ok out] & -> & Hl & Hd). rewrite ok_bind.
  rewrite Cvt.Cvt.decode_encode in Hd by done. destruct Hd as [-> ->]. cbn [negb].
  rewrite Cvt.Cvt.splice_all by (unfold msize in Hh; cbn [length replicate]; lia).
  change (hash ++ store_le 8 ts ++ replicate 8 0) with (lmt_bytes hash ts 0).
  destruct (bin2hex_text 97 97 (lmt_bytes hash ts 0)) as (h & E & Hc).
  - by apply lmt_bytes_u8.
  - rewrite msize_lmt_bytes; lia.
  - lia.
  - rewrite msize_lmt_bytes; lia.
  - rewrite msize_lmt_bytes in E by done. rewrite E, ok_bind. cbn. by rewrite Hc.
Qed.

(** The job that a notification describes. *)
Definition lmt_job (job : Job) (jobId hash : mem) (ts target : Z) : Job :=
  mk_job RX_0 (m_nicehash job || (2 ^ 56 <=? ts)) hash 48 (m_clientId job) None (Some jobId) None
    0 (0xFFFFFFFFFFFFFFFF / target) 0 target (splice (replicate 408 0) 0 (lmt_bytes hash ts 0)) 0 true
    (replicate 32 0) (replicate 32 0) false 0.

Lemma fromHex_buffer_encode bs : Forall is_u8 bs -> 0 < msize bs ->
  Cvt.Cvt.fromHex_buffer (Some (Cvt.Cvt.encode bs)) (2 * msize bs) = Ok bs.
Proof.
  intros HB Hs. unfold Cvt.Cvt.fromHex_buffer. rewrite <- msize_encode.
  pose proof (Cvt.Cvt.fromHexImpl_ok [] _ (encode_u8 _ HB)) as H. rewrite msize_encode in *. specialize (H ltac:(lia)).
  apply returns_iff in H as ([ok out] & -> & Hd). rewrite Cvt.Cvt.decode_encode in Hd by done. by destruct Hd as [-> ->].
Qed.

Lemma read_lmt_job_ok E nicehash algorithm clientId jobId hash ts bits target rest :
  verify E RX_0 = true -> Forall is_u8 hash -> msize hash = 32 -> is_u64 ts -> Forall is_u8 target -> msize target = 8 -> load_le target <> 0 ->
  let job := make nicehash algorithm clientId in
  read_lmt_job E job (JArray (JString jobId :: JString (Cvt.Cvt.encode hash) :: JNumber ts :: bits :: JString (Cvt.Cvt.encode target) :: rest)) =
    Ok (inl (lmt_job job (cstr jobId) hash ts (load_le target))).
Proof.
  intros Hv HB Hh Ht HT Hl8 Hn job. cbn [read_lmt_job]. unfold isUint64. unfold is_u64 in Ht.
  rewrite (proj2 (Z.leb_le _ _)), (proj2 (Z.ltb_lt _ _)) by lia. cbn [andb negb].
  set (j1 := setAlgorithm _ _). change (m_algorithm j1) with RX_0. unfold verifyAlgorithm. rewrite Hv.
  change (Algorithm.Algorithm.isValid RX_0) with true. cbn [andb negb].
  rewrite !encode_cstr, msize_encode, Hh by done. change (2 * 32 =? 64) with true. cbn [negb].
  rewrite lmt_blob_ok, ok_bind by done. pose proof (lmt_bytes_u8 hash ts 0 HB) as HB'. pose proof (msize_lmt_bytes hash ts 0 Hh) as Hl.
  assert (wf j1) as Hw by apply (make_wf nicehash algorithm clientId).
  destruct (setBlob_takes j1 (Cvt.Cvt.encode (lmt_bytes hash ts 0)) (lmt_bytes hash ts 0) Hw (encode_u8 _ HB')) as [E1 _].
  { unfold blob_of. rewrite msize_encode, Hl. by apply Cvt.Cvt.decode_encode. }
  rewrite E1, ok_bind. cbn [negb]. change (m_blob j1) with (replicate 408 0). change (nonceOffset j1) with 39.
  rewrite lmt_nonce_bytes, Hl by done. unfold setSeedHash. rewrite msize_encode, Hh. change (2 * 32 =? kMaxSeedSize * 2) with true.
  cbn [negb]. change (kMaxSeedSize * 2) with (2 * 32). rewrite <- Hh, fromHex_buffer_encode, !ok_bind, Hh by (done || lia).
  change (32 =? 0) with false. cbn [negb]. 
  rewrite (setTarget_eight _ _ target), ok_bind; [|by apply encode_u8|done|by apply Cvt.Cvt.decode_encode|done|done].
  cbn [negb]. unfold lmt_job. change (48 =? 48) with true.
  replace (negb (ts / 2 ^ 56 =? 0)) with (2 ^ 56 <=? ts); [done|].
  destruct (Z.leb_spec (2 ^ 56) ts), (Z.eqb_spec (ts / 2 ^ 56) 0); try done; exfalso; Z.div_mod_to_equations; lia.
Qed.

Lemma lmt_job_minable job jobId hash ts target : Forall is_u8 hash -> msize hash = 32 ->
  Mining.Mining.minable (lmt_job job jobId hash ts target).
Proof.
  intros HB Hh. pose proof (msize_lmt_bytes hash ts 0 Hh) as Hl. split.
  - split; [|cbn; unfold kMaxBlobSize; lia]. cbn [m_blob lmt_job]. rewrite msize_splice; [reflexivity|lia|].
    fold (msize (lmt_bytes hash ts 0)). rewrite Hl. unfold msize. rewrite length_replicate. lia.
  - apply splice_bytes; [apply Forall_replicate; unfold is_u8; lia|by apply lmt_bytes_u8].
  - cbn. lia.
  - cbn. lia.
  - change (40 + 4 <= 48). lia.
Qed.

Lemma store_le_half n : is_u32 n -> store_le 8 n = store_le 4 n ++ replicate 4 0.
Proof.
  intros Hn. transitivity (store_le 4 n ++ store_le 4 (Z.shiftr (Z.shiftr (Z.shiftr (Z.shiftr n 8) 8) 8) 8)); [reflexivity|].
  rewrite !Z.shiftr_shiftr, Z.shiftr_div_pow2, Z.div_small by (unfold is_u32 in Hn; lia). reflexivity.
Qed.

(** The nonce of a worker is the low half of the nonce of the block. *)
Lemma lmt_job_nonce job jobId hash ts target n : msize hash = 32 -> is_u32 n ->
  chunk (splice (m_blob (lmt_job job jobId hash ts target)) 40 (store_le 4 n)) 0 48 = lmt_bytes hash ts n.
Proof.
  intros Hh Hn. cbn [m_blob lmt_job]. unfold lmt_bytes. rewrite (store_le_half n Hn), !(app_assoc hash).
  set (A := hash ++ store_le 8 ts). assert (length A = 40%nat) as H40.
  { unfold A. rewrite length_app, length_store_le by lia. unfold msize in Hh. lia. }
  assert (length (store_le 4 n) = 4%nat) as H4 by by rewrite length_store_le.
  unfold splice at 2. change (Z.to_nat 0) with 0%nat. rewrite take_0, app_nil_l. set (R := drop _ _).
  change (store_le 8 0) with (replicate 4 0 ++ replicate 4 0). unfold splice. rewrite H4.
  change (Z.to_nat 40) with 40%nat. rewrite <- !(app_assoc A), <- H40, take_app_length, <- drop_drop, drop_app_length.
  unfold chunk. change (Z.to_nat 0) with 0%nat. rewrite drop_0. change (Z.to_nat 48) with (40 + (4 + 4))%nat.
  change (drop 4 ((replicate 4 0 ++ replicate 4 0) ++ R)) with (replicate 4 0 ++ R).
  rewrite <- H40, take_app_add. by f_equal.
Qed.

(** A notification that has all its members and a job number *)
Lemma parseLmtNotify_ok E c jobId hash ts bits target rest :
  verify E RX_0 = true -> Forall is_u8 hash -> msize hash = 32 -> is_u64 ts ->
  Forall is_u8 target -> msize target = 8 -> load_le target <> 0 ->
  let params := JArray (JString jobId :: JString (Cvt.Cvt.encode hash) :: JNumber ts :: bits :: JString (Cvt.Cvt.encode target) :: rest) in
  let job := lmt_job (make (has EXT_NICEHASH c) (p_algorithm (f_pool (cf c))) (s_rpcId (ss c))) (cstr jobId) hash ts (load_le target) in
  let s := with_job (setClientId (s_job (ss c)) (s_rpcId (ss c))) (ss c) in
  parseLmtNotify E params c =
    Ok (if isEqual (s_job s) job then (false, set_ss (fun _ => s) c, [])
        else (true, set_ss (fun _ => with_job job (with_jobs (u64 (s_jobs s + 1)) s)) c, [])).
Proof.
  intros Hv HB Hh Ht HT H8 Hn params job s. unfold parseLmtNotify, new_job, mbind, M_bind, gets.
  unfold params. rewrite read_lmt_job_ok by done. fold job.
  change (s_job (ss (set_ss _ c))) with (s_job s).
  cbn [lift set_client_id modify]. unfold take_job, modify.
  destruct (isEqual _ job) eqn:Eq; cbn [negb]; reflexivity.
Qed.

(** C38: a mining.notify with the hash of a header, its time and a target of eight
    bytes gives a job whose blob is hash, time and nonce; the seed is the hash, the
    difficulty is the one of the target, and the nonce, which workers put at byte
    40, is inside of the blob.  It replaces a job that is not the same, and the time
    alone decides whether a byte of the nonce is taken to be fixed. *)
Theorem lmt_notify_correct E c jobId hash ts bits target rest :
  verify E RX_0 = true -> Forall is_u8 hash -> msize hash = 32 -> is_u64 ts ->
  Forall is_u8 target -> msize target = 8 -> load_le target <> 0 ->
  let params := JArray (JString jobId :: JString (Cvt.Cvt.encode hash) :: JNumber ts :: bits :: JString (Cvt.Cvt.encode target) :: rest) in
  let job := lmt_job (make (has EXT_NICEHASH c) (p_algorithm (f_pool (cf c))) (s_rpcId (ss c))) (cstr jobId) hash ts (load_le target) in
  let s := with_job (setClientId (s_job (ss c)) (s_rpcId (ss c))) (ss c) in
  parseLmtNotify E params c =
    Ok (if isEqual (s_job s) job then (false, set_ss (fun _ => s) c, [])
        else (true, set_ss (fun _ => with_job job (with_jobs (u64 (s_jobs s + 1)) s)) c, [])) /\
  Mining.Mining.minable job /\ m_algorithm job = RX_0 /\ m_seed job = hash /\
  m_target job = load_le target /\ m_diff job = 0xFFFFFFFFFFFFFFFF / load_le target /\
  (m_nicehash job = has EXT_NICEHASH c || (2 ^ 56 <=? ts)) /\
  (forall n, is_u32 n -> chunk (splice (m_blob job) (nonceOffset job) (store_le 4 n)) 0 (m_size job) = lmt_bytes hash ts n).
Proof.
  intros Hv HB Hh Ht HT H8 Hn params job s. split; [by apply parseLmtNotify_ok|].
  split; [by apply lmt_job_minable|]. repeat (split; [done|]). intros n Hn'. by apply lmt_job_nonce.
Qed.

(** ** Shares and their replies *)

(** A result of a worker as the code makes them. *)
Definition result_ok (r : JobResult) : Prop :=
  msize (jr_result r) = 32 /\ Forall is_u8 (jr_result r) /\ (exists i, jr_jobId r = Some i) /\
  match jr_signature r with Some s => msize s = 64 /\ Forall is_u8 s | None => True end.

Lemma hex_text_ok room maxlen bs : Forall is_u8 bs -> 2 * msize bs < maxlen -> maxlen <= room -> msize bs < 2 ^ 62 ->
  hex_text room maxlen bs = Ok (Cvt.Cvt.encode bs).
Proof.
  intros HB H1 H2 H3. assert (0 <= msize bs) by (unfold msize; lia). unfold hex_text.
  destruct (bin2hex_text (Z.to_nat room) maxlen bs HB H1 ltac:(lia) H3) as (h & -> & Hc). by rewrite ok_bind, Hc.
Qed.

(** The request for a share: job, nonce, hash and, if there is one, the signature and
    the algorithm; the LMT protocol has user, job and nonce. *)
Definition share (c : client) (r : JobResult) : json :=
  let nonce := JString (Cvt.Cvt.encode (store_le 4 (jr_nonce r))) in
  let jobId := JString (default [] (jr_jobId r)) in
  if s_lmtNative (ss c) then
    create (sequence c) "mining.submit" (JArray [JString (default [] (f_user (cf c))); jobId; nonce; JNumber 0])
  else
    create (sequence c) "submit" (JObject (
      [(lit "id", JString (default [] (s_rpcId (ss c)))); (lit "job_id", jobId); (lit "nonce", nonce);
       (lit "result", JString (Cvt.Cvt.encode (jr_result r)))] ++
      match jr_signature r with Some s => [(lit "sig", JString (Cvt.Cvt.encode s))] | None => [] end ++
      if has EXT_ALGO c && Algorithm.Algorithm.isValid (jr_algorithm r) then [(lit "algo", JString (lit (name (jr_algorithm r))))] else [])).

Lemma submit_request_share c r u : result_ok r -> f_user (cf c) = Some u -> (s_lmtNative (ss c) = true \/ exists i, s_rpcId (ss c) = Some i) ->
  submit_request c r = Ok (share c r).
Proof.
  intros (Hl & HB & [j Hj] & Hs) Hu Hi. unfold submit_request, share.
  assert (msize (store_le 4 (jr_nonce r)) = 4) as H4 by (unfold msize; by rewrite length_store_le by lia).
  rewrite (hex_text_ok 16 9) by (try (apply store_le_bytes; lia); lia). rewrite ok_bind.
  rewrite (hex_text_ok 72 65) by (done || lia). rewrite ok_bind, Hj, Hu. destruct (jr_signature r) as [s|].
  - destruct Hs as [Hsl Hsb]. rewrite hex_text_ok, !ok_bind by (done || lia).
    destruct (s_lmtNative (ss c)); [done|]. destruct Hi as [Hi|[i ->]]; done.
  - rewrite !ok_bind. destruct (s_lmtNative (ss c)); [done|]. destruct Hi as [Hi|[i ->]]; done.
Qed.

Lemma submit_request_ok c r u i : result_ok r -> f_user (cf c) = Some u -> s_rpcId (ss c) = Some i -> submit_request c r = Ok (share c r).
Proof. intros Hr Hu Hi. apply (submit_request_share c r u Hr Hu). right. by exists i. Qed.

Lemma submit_request_lmt c r u : result_ok r -> f_user (cf c) = Some u -> s_lmtNative (ss c) = true -> submit_request c r = Ok (share c r).
Proof. intros Hr Hu Hi. apply (submit_request_share c r u Hr Hu). by left. Qed.

(** What is kept of a share until its reply comes. *)
Definition pending (E : env) (c : client) (r : JobResult) : SubmitResult :=
  mk_result (sequence c) (jr_diff r) (toDiff (load_le (chunk (jr_result r) 24 8))) (jr_backend r) (now E).

Lemma submit_ok E r c i u : result_ok r -> s_rpcId (ss c) = Some i -> jr_clientId r = Some i -> f_user (cf c) = Some u ->
  c_state (cn c) = ConnectedState -> is_Some (c_socket (cn c)) -> jr_diff r <> 0 -> buf_ok c -> writable E = true ->
  msize (write_json E (share c r)) <= kMaxSendBufferSize ->
  try_write E (write_json E (share c r) ++ [10]) = msize (write_json E (share c r)) + 1 ->
  exists c', submit E r c = Ok (sequence c, c', [Written (write_json E (share c r) ++ [10])]) /\
    ss c' = with_results (<[sequence c := pending E c r]> (s_results (ss c))) (ss c) /\ sequence c' = sequence c + 1 /\
    cf c' = cf c /\ c_state (cn c') = ConnectedState /\ buf_ok c' /\ listener c' = listener c.
Proof.
  intros Hr Hi Hc Hu Hs Hk Hd Hb Hw Hm Ht. pose proof Hr as (Hl & HB & _). set (c1 := set_ss (with_results (<[sequence c := pending E c r]> (s_results (ss c)))) c).
  destruct (send_ok E (share c r) c1 Hb Hm Hs Hk Hw Ht) as (buf & Hbuf & Hsend). 
  exists (set_sequence (sequence c + 1) (set_cn (with_expire (u64 (now E + kResponseTimeout))) (set_sendBuf buf c1))).
  split; [|done]. unfold submit, mbind at 1, M_bind at 1, gets at 1, mbind at 1, M_bind at 1, gets at 1.
  rewrite Hi, Hc, Hs. unfold isEqual_str. rewrite bool_decide_eq_true_2 by done. change (negb (is_state ConnectedState ConnectedState)) with false.
  cbn [negb orb isNull]. rewrite (proj2 (Z.eqb_neq _ _)) by done.
  unfold mbind at 1, M_bind at 1, gets at 1, mbind at 1, M_bind at 1, lift at 1. change (id c) with c.
  rewrite (submit_request_ok c r u i) by done. unfold mbind at 1, M_bind at 1, lift at 1, actualDiff, mload64.
  rewrite mload_ok, !ok_bind by lia. unfold mret at 1, result_ret at 1. unfold mbind at 1, M_bind at 1, modify at 1.
  fold (pending E c r). fold c1. rewrite Hsend. done.
Qed.

(** A reply to a request that is not the login, with no callback for it. *)
Lemma parseResponse_reply E i res c : i <> 1 -> i ∉ s_callbacks (ss c) -> (s_lmtNative (ss c) = true -> i <> 2) ->
  parseResponse E i (JObject res) JNull c = (_ ← handleSubmitResponse E i None; mret tt) c.
Proof.
  intros Hi Hc H2. unfold parseResponse, mbind at 1, M_bind at 1, handleResponse. rewrite (proj2 (Z.eqb_neq i 1)) by done.
  unfold mbind at 1, M_bind at 1, gets at 1. rewrite bool_decide_eq_false_2 by done. cbn [is_object negb mret M_ret].
  unfold mbind at 1, M_bind at 1, gets at 1. rewrite (andb_false_r (s_lmtNative (ss c))).
  assert (s_lmtNative (ss c) && (i =? 2) = false) as ->.
  { destruct (s_lmtNative (ss c)); [|done]. by apply Z.eqb_neq, H2. }
  by destruct (mbind _ (handleSubmitResponse E i None) c) as [[[? ?] ?]| |].
Qed.

Lemma handleSubmitResponse_run E i e c : listener c = true ->
  (_ ← handleSubmitResponse E i e; mret tt) c =
  match s_results (ss c) !! i with
  | Some r => Ok (tt, set_ss (with_results (delete i (s_results (ss c)))) c, [ResultAccepted r (u64 (now E - sr_start r)) e])
  | None => Ok (tt, c, [])
  end.
Proof. intros Hl. unfold handleSubmitResponse, tell, listens, mbind, M_bind, gets. destruct (s_results (ss c) !! i); [|done]. by rewrite Hl. Qed.

(** A share of the current session is sent exactly once, as one line with its
    job, nonce and hash under the next number, and the pool's reply with that
    number is reported exactly once, with the difficulty of the share and the
    time that passed; another reply with the same number does nothing. *)
Theorem share_reported_once E E1 E2 r c i u res1 res2 : result_ok r -> s_rpcId (ss c) = Some i -> jr_clientId r = Some i ->
  f_user (cf c) = Some u -> s_lmtNative (ss c) = false -> listener c = true -> c_state (cn c) = ConnectedState -> is_Some (c_socket (cn c)) -> jr_diff r <> 0 -> buf_ok c -> writable E = true ->
  msize (write_json E (share c r)) <= kMaxSendBufferSize ->
  try_write E (write_json E (share c r) ++ [10]) = msize (write_json E (share c r)) + 1 ->
  sequence c <> 1 -> sequence c ∉ s_callbacks (ss c) ->
  exists c1 c2, submit E r c = Ok (sequence c, c1, [Written (write_json E (share c r) ++ [10])]) /\
    parseResponse E1 (sequence c) (JObject res1) JNull c1 =
      Ok (tt, c2, [ResultAccepted (pending E c r) (u64 (now E1 - now E)) None]) /\
    parseResponse E2 (sequence c) (JObject res2) JNull c2 = Ok (tt, c2, []) /\
    s_results (ss c2) = delete (sequence c) (s_results (ss c)) /\ sequence c2 = sequence c + 1.
Proof.
  intros Hr Hi Hc Hu Hn Hli Hs Hk Hd Hb Hw Hm Ht H1 Hcb.
  destruct (submit_ok E r c i u Hr Hi Hc Hu Hs Hk Hd Hb Hw Hm Ht) as (c1 & -> & Hss & Hseq & _ & _ & _ & Hl1).
  assert (s_results (ss c1) !! sequence c = Some (pending E c r)) as Hl by (rewrite Hss; apply lookup_insert_eq).
  exists c1, (set_ss (with_results (delete (sequence c) (s_results (ss c1)))) c1). split; [done|].
  rewrite !parseResponse_reply, !handleSubmitResponse_run, Hl; cbn; rewrite ?Hss; cbn; rewrite ?Hn; try done; try congruence.
  rewrite lookup_delete_eq. split; [done|]. split; [done|]. split; [apply delete_insert_eq|done].
Qed.

(** ** client.reconnect *)

Definition reconnect_message (host port : mem) : json :=
  JObject [(lit "method", JString (lit "client.reconnect")); (lit "params", JArray [JString host; JString port])].

Lemma dispatch_reconnect E host port : dispatch E (reconnect_message host port) = client_reconnect E (JArray [JString host; JString port]).
Proof.
  unfold dispatch.
  replace (getString (reconnect_message host port) "method") with (Some (lit "client.reconnect")) by reflexivity.
  rewrite bool_decide_eq_true_2 by done.
  by replace (getValue (reconnect_message host port) "params") with (JArray [JString host; JString port]) by reflexivity.
Qed.

Lemma is_state_ne a b : a <> b -> is_state a b = false.
Proof. apply bool_decide_eq_false_2. Qed.

(** What the handlers of a reconnection do. *)
Lemma reconnect_run E c : listener c = true -> c_failures (cn c) <> -1 -> c_state (cn c) <> ReconnectingState ->
  reconnect E c = Ok (tt, set_cn (fun n => with_failures (c_failures n + 1) (with_state ReconnectingState
    (with_expire (u64 (now E + f_retryPause (cf c))) (with_keepAlive 0 n)))) c, [Closed (c_failures (cn c) + 1)]).
Proof.
  intros Hl Hf Hs. unfold reconnect, mbind, M_bind, gets, modify. rewrite Hl. cbn [negb].
  change (c_failures (cn (set_cn (with_keepAlive 0) c))) with (c_failures (cn c)). rewrite (proj2 (Z.eqb_neq _ _)) by done.
  unfold setState, mbind, M_bind, gets. change (c_state (cn (set_cn (with_keepAlive 0) c))) with (c_state (cn c)).
  by rewrite is_state_ne.
Qed.

Lemma tick_reconnects E t c : c_state (cn c) = ReconnectingState -> 0 < c_expire (cn c) < t -> c_failures (cn c) <> -1 ->
  Url.Url.proxy_valid (p_proxy (f_pool (cf c))) = false ->
  tick E t c = Ok (tt, set_reader (LineReader.LineReader.reset (reader c)) (set_cn (fun n => with_state HostLookupState (with_expire 0 n)) c),
    [Resolve (Url.Url.m_host (p_url (f_pool (cf c))))]).
Proof.
  intros Hs He Hf Hp. unfold tick, mbind, M_bind, gets. rewrite Hs.
  rewrite (proj2 (Z.eqb_neq _ _)), (proj2 (Z.ltb_lt _ _)) by lia. cbn [negb andb when].
  unfold connect, mbind, M_bind, gets. rewrite Hp. unfold resolve, mbind, M_bind, gets, setState, mbind, M_bind, gets. rewrite Hs.
  rewrite is_state_ne by done. unfold modify.
  change (c_failures (cn (set_reader _ (set_cn _ (set_cn _ c))))) with (c_failures (cn c)).
  by rewrite (proj2 (Z.eqb_neq _ _)).
Qed.

Lemma onResolved_connects E c : listener c = true -> c_state (cn c) = HostLookupState ->
  onResolved E true 0 c = Ok (tt, set_cn (fun n => new_socket (with_state ConnectingState (with_expire (u64 (now E + kConnectTimeout)) n))) c,
    [UvConnect (c_fresh (cn c))]).
Proof.
  intros Hl Hs. unfold onResolved, mbind, M_bind, gets. rewrite Hl. cbn [negb]. rewrite andb_false_r.
  unfold connect_addr, mbind, M_bind, gets, setState, mbind, M_bind, gets. rewrite Hs. by rewrite is_state_ne.
Qed.

Lemma close_run E c k : c_socket (cn c) = Some k -> c_state (cn c) <> ClosingState -> c_state (cn c) <> UnconnectedState ->
  k ∉ c_closing (cn c) -> close E c = Ok (true, set_cn (fun n => closing k (with_state ClosingState n)) c, [UvClose k]).
Proof.
  intros Hk H1 H2 Hc. unfold close, mbind, M_bind, gets. rewrite is_state_ne, Hk, is_state_ne by done.
  unfold setState, mbind, M_bind, gets. rewrite is_state_ne by done. unfold modify, when, mret, M_ret.
  change (c_closing (cn (set_cn (with_state ClosingState) c))) with (c_closing (cn c)).
  by rewrite bool_decide_eq_false_2.
Qed.

(** client.reconnect loses the connection that it comes from.  The socket is
    neither closed nor forgotten: after the pause the client opens a second one,
    the first is still served, and when the pool ends the first connection,
    the client closes the new one. *)
Theorem reconnect_leaks E t c k host port : c_state (cn c) = ConnectedState -> c_socket (cn c) = Some k -> k ∈ c_open (cn c) ->
  k <> c_fresh (cn c) -> c_fresh (cn c) ∉ c_closing (cn c) -> listener c = true -> 0 <= c_failures (cn c) ->
  Url.Url.proxy_valid (p_proxy (f_pool (cf c))) = false ->
  0 < u64 (now E + f_retryPause (cf c)) < t ->
  exists c' evs, (_ ← dispatch E (reconnect_message host port); _ ← tick E t; _ ← onResolved E true 0; read_error E) c = Ok (tt, c', evs) /\
    evs = [Closed (c_failures (cn c) + 1); Resolve (Url.Url.m_host (Url.Url.of_string (Some (cstr host ++ lit ":" ++ cstr port))));
           UvConnect (c_fresh (cn c)); UvClose (c_fresh (cn c))] /\
    k ∈ c_open (cn c') /\ c_state (cn c') = ClosingState.
Proof.
  intros Hs Hk Ho Hf Hcl Hl Hfa Hp Ht. rewrite dispatch_reconnect. unfold client_reconnect.
  set (url := cstr host ++ lit ":" ++ cstr port).
  unfold mbind, M_bind, modify. set (c0 := set_cf (set_pool_url url) c).
  rewrite (reconnect_run E c0) by (try done; change (cn c0) with (cn c); (congruence || lia)). set (c1 := set_cn _ c0).
  rewrite (tick_reconnects E t c1); [|done|exact Ht|change (c_failures (cn c) + 1 <> -1); lia|exact Hp]. set (c2 := set_reader _ _).
  rewrite (onResolved_connects E c2) by done. set (c3 := set_cn _ c2). unfold read_error, mbind, M_bind.
  rewrite (close_run E c3 (c_fresh (cn c))) by done. eexists _, _. split; [done|]. split; [done|]. split; [|done].
  change (k ∈ filter (fun x => x <> c_fresh (cn c)) (c_fresh (cn c) :: c_open (cn c))).
  apply list_elem_of_filter. split; [done|]. by right.
Qed.


(** ** A client and its surroundings *)

Definition some_pool : Pool :=
  mk_pool RX_0 BlockTemplate.BlockTemplate.MONERO false 0 false (Url.Url.of_string (Some (lit "pool:3333")))
    (Url.Url.mk_url false Url.Url.UNSPECIFIED None None 0).
Definition some_conf (user : mem) : conf := mk_conf 0 some_pool (Some user) (Some (lit "x")) None (lit "agent") 5000.
Definition some_client (rpcId : str) (lmt : bool) : client :=
  mk_client (mk_conn ConnectedState (Some 0) 0 0 0 [0] [] 1) (mk_sess rpcId [] lmt false ∅ ∅ 0 Job.Job.empty)
    (some_conf (lit "lmt:a")) 3 (replicate 1024 0) LineReader.LineReader.initial None true false.
(** All is written, and every message is [doc]. *)
Definition some_env (doc : json) : env :=
  mk_env 1000 true msize (fun _ => true) id (fun _ => lit "{}") (fun _ => Some doc) (fun _ => None) (fun _ => None).
Definition some_line : mem := quoted "{#jsonrpc#:#2.0#,#id#:1}" ++ [10].

(** The reply to the subscription, and the end of the stream. *)
Definition some_history : list (env * call) :=
  [(some_env (JObject [(lit "id", JNumber 1); (lit "result", JObject [])]), Data [] some_line); (some_env JNull, ReadError)].

Lemma lmt_session_dead_witness :
  exists c' evs, history some_history (some_client None true) = Ok (tt, c', evs) /\
    evs = [Written (lit "{}" ++ [10]); UvClose 0] /\ forall E r, submit E r c' = Ok (-1, c', []).
Proof.
  eexists _, _. split; [vm_compute; reflexivity|]. split; [reflexivity|].
  refine (proj1 (lmt_session_dead (some_client None true) some_history _ _ eq_refl eq_refl _)). vm_compute. reflexivity.
Defined.

(** A notification with a target and the time of the protocol document. *)
Lemma lmt_notify_correct_witness : exists job,
  parseLmtNotify (some_env JNull)
    (JArray [JString (lit "7"); JString (Cvt.Cvt.encode (replicate 32 1)); JNumber 1769947200000; JString (lit "0x1d00ffff");
             JString (Cvt.Cvt.encode [0; 0; 0; 0; 0; 255; 0; 0])]) (some_client None true) =
    Ok (true, set_ss (fun s => with_job job (with_jobs 1 s)) (some_client None true), []) /\
  Mining.Mining.minable job /\ m_nicehash job = false /\ m_target job = 255 * 2 ^ 40.
Proof.
  destruct (lmt_notify_correct (some_env JNull) (some_client None true) (lit "7") (replicate 32 1) 1769947200000
    (JString (lit "0x1d00ffff")) [0; 0; 0; 0; 0; 255; 0; 0] []) as (E & Hm & _ & _ & Ht & _ & Hn & _).
  - reflexivity.
  - cbn [replicate]. repeat (constructor; try (unfold is_u8; lia)).
  - reflexivity.
  - unfold is_u64. lia.
  - repeat (constructor; try (unfold is_u8; lia)).
  - reflexivity.
  - vm_compute. discriminate.
  - eexists. split; [exact E|]. split; [exact Hm|]. split; [exact Hn|]. rewrite Ht. reflexivity.
Defined.

Definition some_result : JobResult := mk_jobresult RX_0 (Some (lit "a")) (Some (lit "7")) 0 5 1000 (replicate 32 1) None.

Lemma some_result_ok : result_ok some_result.
Proof.
  split; [reflexivity|]. split; [cbn [jr_result some_result replicate]; repeat (constructor; try (unfold is_u8; lia))|].
  split; [by eexists|exact I].
Qed.

Lemma share_reported_once_witness : exists c1 c2,
  submit (some_env JNull) some_result (some_client (Some (lit "a")) false) = Ok (3, c1, [Written (lit "{}" ++ [10])]) /\
  parseResponse (some_env JNull) 3 (JObject []) JNull c1 =
    Ok (tt, c2, [ResultAccepted (mk_result 3 1000 (toDiff 0x0101010101010101) 0 1000) 0 None]) /\
  parseResponse (some_env JNull) 3 (JObject []) JNull c2 = Ok (tt, c2, []).
Proof.
  destruct (share_reported_once (some_env JNull) (some_env JNull) (some_env JNull) some_result (some_client (Some (lit "a")) false)
    (lit "a") (lit "lmt:a") [] []) as (c1 & c2 & H1 & H2 & H3 & _); try reflexivity.
  - exact some_result_ok.
  - by eexists.
  - discriminate.
  - split; vm_compute; done.
  - vm_compute. discriminate.
  - discriminate.
  - apply not_elem_of_empty.
  - exists c1, c2. split; [exact H1|]. split; [exact H2|exact H3].
Defined.

Lemma reconnect_leaks_witness : exists c' evs,
  (_ ← dispatch (some_env JNull) (reconnect_message (lit "pool2") (lit "1234")); _ ← tick (some_env JNull) 7000;
   _ ← onResolved (some_env JNull) true 0; read_error (some_env JNull)) (some_client (Some (lit "a")) false) = Ok (tt, c', evs) /\
  evs = [Closed 1; Resolve (Some (lit "pool2")); UvConnect 1; UvClose 1] /\ 0 ∈ c_open (cn c').
Proof.
  destruct (reconnect_leaks (some_env JNull) 7000 (some_client (Some (lit "a")) false) 0 (lit "pool2") (lit "1234")) as (c' & evs & H1 & H2 & H3 & _).
  - reflexivity.
  - reflexivity.
  - by left.
  - discriminate.
  - apply not_elem_of_nil.
  - reflexivity.
  - vm_compute. discriminate.
  - reflexivity.
  - split; vm_compute; reflexivity.
  - exists c', evs. split; [exact H1|]. split; [rewrite H2; vm_compute; reflexivity|exact H3].
Defined.

End ClientProofs.
