(* ===== verification/ClientSafety.v ===== *)
(** * The stratum client does not fault

    The causes for undefined behaviour in Client.v, as conditions on what the pool
    sends and the event loop does: under them every history of calls runs through.
    Each condition is needed. *)
From Stdlib Require Import Ascii String ZArith Lia.
From stdpp Require Import base numbers list gmap.
From S2P Require Import Prelude Memory LineReader Cvt BlockTemplate Algorithm Job Json Url Client Nonce WorkerJob Mining ClientProofs.
Import Json.Json Client.Client ClientProofs.ClientProofs.
Open Scope list_scope.
Open Scope Z_scope.

Module ClientSafety.
Import Algorithm.Algorithm Job.Job.

(** ** Messages *)

(** Every string of a value consists of bytes. *)
Fixpoint bytes_only (v : json) : Prop :=
  match v with
  | JString s => Forall is_u8 s
  | JArray l => (fix go l := match l with [] => True | x :: l => bytes_only x /\ go l end) l
  | JObject l => (fix go l := match l with [] => True | (_, x) :: l => bytes_only x /\ go l end) l
  | _ => True
  end.

Lemma bytes_find l k v : bytes_only (JObject l) -> find_member l k = Some v -> bytes_only v.
Proof.
  induction l as [|[k' x] l IH]; [done|]. cbn. intros [Hx Hl]. case_bool_decide; [by intros [= <-]|]. by apply IH.
Qed.

Lemma bytes_getValue v k : bytes_only v -> bytes_only (getValue v k).
Proof.
  intros Hv. unfold getValue. destruct (Json.Json.isEmpty v); [done|]. destruct v; try done.
  destruct (find_member l (lit k)) eqn:E; [|done]. cbn. by eapply bytes_find.
Qed.

Lemma cstr_bytes s : Forall is_u8 s -> Forall is_u8 (cstr s).
Proof. induction 1 as [|x s Hx _ IH]; [constructor|]. cbn. case_match; by constructor. Qed.

Lemma bytes_getString v k s : bytes_only v -> getString v k = Some s -> Forall is_u8 s.
Proof.
  intros Hv. unfold getString. pose proof (bytes_getValue v k Hv) as H. destruct (getValue v k); try done.
  intros [= <-]. by apply cstr_bytes.
Qed.

Lemma bytes_getObject v k : bytes_only v -> bytes_only (getObject v k).
Proof. intros Hv. unfold getObject. pose proof (bytes_getValue v k Hv) as H. by destruct (getValue v k). Qed.

(** The target of a job, of either protocol, is not four zero bytes. *)
Definition target_of (params : json) : option mem :=
  match params with
  | JArray (_ :: _ :: _ :: _ :: JString t :: _) => Some (cstr t)
  | _ => getString params "target"
  end.
Definition divisible (t : mem) : Prop :=
  match Cvt.Cvt.decode t with Some bs => msize bs = 4 -> load_le bs <> 0 | None => True end.
Definition target_ok (params : json) : Prop := match target_of params with Some t => divisible t | None => True end.

(** A message that the client can take: strings of bytes, an error with a message, an
    identifier that leaves the ping room, and targets that can be divided by. *)
Definition polite (doc : json) : Prop :=
  bytes_only doc /\
  (is_object (getValue doc "error") = true -> exists m, error_message (getValue doc "error") = Ok m) /\
  (match getString (getValue doc "result") "id" with Some i => msize i <= 900 | None => True end) /\
  target_ok (getValue doc "params") /\ target_ok (getObject (getValue doc "result") "job").

(** ** Reading jobs *)

(** The first byte of a blob, that decides nothing. *)
Lemma fromHex_one b : exists r, Cvt.Cvt.fromHex [0] 1 (Some (b ++ [0])) 2 = Ok r.
Proof.
  destruct b as [|x b]; [eexists; vm_compute; reflexivity|].
  assert (exists y t, (x :: b) ++ [0] = x :: y :: t) as (y & t & ->) by (destruct b; cbn; eauto).
  unfold Cvt.Cvt.fromHex, Cvt.Cvt.cvt_hex2bin. change (S (Z.to_nat 2)) with 3%nat.
  assert (exists h, Cvt.Cvt.hex2bin_loop 3 1 (x :: y :: t) 2 None (Cvt.Cvt.mk_hex [0] 0 0 0 0 0) = Ok h) as [h ->].
  { cbn [Cvt.Cvt.hex2bin_loop Cvt.Cvt.hex_pos Cvt.Cvt.bin_pos Cvt.Cvt.ret Cvt.Cvt.bin Cvt.Cvt.c_acc Cvt.Cvt.state].
    change (aget (x :: y :: t) 0) with (Ok x). change (aget (x :: y :: t) (0 + 1)) with (Ok y). rewrite !ok_bind.
    change (0 <? 2) with true. change (0 + 1 <? 2) with true. change (0 + 1 + 1 <? 2) with false. change (1 <=? 0) with false.
    change (0 =? 0) with true. change (u8 (Z.lnot 0) =? 0) with false. cbv match.
    destruct (Z.lor (Cvt.Cvt.c_num0 x) _ =? 0); [by eexists|]. destruct (Z.lor (Cvt.Cvt.c_num0 y) _ =? 0); [by eexists|].
    rewrite aset_ok, ok_bind by (cbn; lia). by eexists. }
  rewrite ok_bind. destruct (negb _); by eexists.
Qed.

Lemma job_algorithm_returns pool algo blob j : wf j -> exists a, job_algorithm pool algo blob j = Ok (setAlgorithm j a).
Proof.
  intros Hw. unfold job_algorithm. assert (setAlgorithm j (m_algorithm j) = j) as Hj by by destruct j.
  destruct algo as [name|]; [by eexists|]. case_match; [exists (m_algorithm j); by rewrite Hj|].
  destruct blob as [b|]; [destruct (fromHex_one b) as [r ->]|]; rewrite ok_bind; by eexists.
Qed.

Lemma setBlob_returns j blob : wf j -> match blob with Some h => Forall is_u8 h | None => True end ->
  exists ok j', setBlob j blob = Ok (ok, j') /\ wf j'.
Proof.
  intros Hw HB. destruct blob as [hex|]; [|by exists false, j].
  destruct (blob_of j hex) as [bs|] eqn:E.
  - destruct (setBlob_takes j hex bs Hw HB E) as [H1 H2]. eauto.
  - destruct (setBlob_refuses j hex Hw HB E) as (b & H1 & H2). eauto.
Qed.

Lemma setTarget_returns j t : match t with Some t => Forall is_u8 t /\ divisible t | None => True end ->
  exists ok j', setTarget j t = Ok (ok, j').
Proof.
  destruct t as [t|]; [|by exists false, j]. intros [HB Hd]. unfold setTarget.
  destruct (Z.ltb_spec (msize t) 4) as [|Hl]; [by exists false, j|].
  enough (exists v, parse_target t (m_algorithm j) = Ok v) as [v ->].
  { rewrite ok_bind. destruct (v =? 0); by eexists _, _. }
  unfold parse_target. destruct (id_eqb _ _); [by eexists|].
  unfold Cvt.Cvt.fromHex_buffer. pose proof (Cvt.Cvt.fromHexImpl_ok [] t HB ltac:(lia)) as H.
  apply returns_iff in H as ([ok out] & -> & Ho). rewrite !ok_bind. unfold divisible in Hd.
  destruct (Cvt.Cvt.decode t) as [bs|] eqn:Ed; [|subst ok; by eexists]. destruct Ho as [-> ->].
  apply Cvt.Cvt.decode_bytes, load_le_bound in Ed. fold (msize bs) in Ed.
  destruct (Z.eqb_spec (msize bs) 4) as [H4|]; [|case_match; by eexists].
  specialize (Hd H4). rewrite H4 in Ed. unfold div. rewrite (proj2 (Z.eqb_neq _ _)), ok_bind by done.
  assert (1 <= 0xFFFFFFFF / load_le bs) by (apply Z.div_le_lower_bound; lia).
  rewrite (proj2 (Z.eqb_neq _ _)) by lia. by eexists.
Qed.

Lemma setSeedHash_returns j h : match h with Some h => Forall is_u8 h | None => True end -> exists ok j', setSeedHash j h = Ok (ok, j').
Proof.
  destruct h as [h|]; [|by exists false, j]. intros HB. unfold setSeedHash.
  destruct (Z.eqb_spec (msize h) (kMaxSeedSize * 2)) as [E|E]; cbn [negb]; [|by exists false, j].
  unfold Cvt.Cvt.fromHex_buffer. unfold kMaxSeedSize in *. rewrite <- E.
  pose proof (Cvt.Cvt.fromHexImpl_ok [] h HB ltac:(lia)) as H. apply returns_iff in H as ([ok out] & -> & _).
  rewrite !ok_bind. by eexists _, _.
Qed.

Lemma setSigKey_returns j k : match k with Some k => Forall is_u8 k | None => True end -> exists j', setSigKey j k = Ok j'.
Proof.
  destruct k as [k|]; [|by exists j]. intros HB. unfold setSigKey.
  destruct (Z.eqb_spec (msize k) (64 * 2)) as [E|E]; cbn [negb]; [|by exists j].
  unfold Cvt.Cvt.fromHex_buffer. rewrite <- E.
  pose proof (Cvt.Cvt.fromHexImpl_ok [] k HB ltac:(lia)) as H. apply returns_iff in H as ([ok out] & -> & _).
  rewrite !ok_bind. by eexists.
Qed.

Lemma string_bytes v k : bytes_only v -> match getString v k with Some s => Forall is_u8 s | None => True end.
Proof. intros Hv. destruct (getString v k) eqn:E; [|done]. by eapply bytes_getString. Qed.

Lemma read_job_returns E pool j params : wf j -> bytes_only params -> target_ok params -> exists r, read_job E pool j params = Ok r.
Proof.
  intros Hw HB Ht. unfold read_job. destruct (is_object params) eqn:Eo; cbn [negb]; [|by eexists].
  assert (forall k, match getString params k with Some s => Forall is_u8 s | None => True end) as Hs by (intros; by apply string_bytes).
  set (j1 := setId _ _). destruct (isNull (m_id j1)); [by eexists|]. assert (wf j1) as Hw1 by exact Hw.
  destruct (job_algorithm_returns pool (getString params "algo") (getString params "blob") j1 Hw1) as [a ->]. rewrite ok_bind.
  assert (exists ok j2, job_work pool params (setAlgorithm j1 a) = Ok (ok, j2)) as (ok & j2 & ->).
  { unfold job_work. destruct (p_selfSelect pool); [by eexists _, _|].
    destruct (setBlob_returns (setAlgorithm j1 a) (getString params "blob") Hw1 (Hs "blob"%string)) as (ok & j2 & -> & _). eauto. }
  rewrite ok_bind. destruct ok; cbn [negb]; [|by eexists].
  destruct (setTarget_returns j2 (getString params "target")) as (ok & j3 & ->).
  { unfold target_ok in Ht. destruct params; try done. cbn [target_of] in Ht. specialize (Hs "target"%string).
    by destruct (getString _ _). }
  rewrite ok_bind. destruct ok; cbn [negb]; [|by eexists]. set (j4 := setHeight j3 _).
  destruct (verifyAlgorithm E (m_algorithm j4)); cbn [negb]; [|by eexists].
  assert (exists ok j5, (if negb (p_selfSelect pool) && (family (m_algorithm j4) =? RANDOM_X)
     then setSeedHash j4 (getString params "seed_hash") else mret (true, j4)) = Ok (ok, j5)) as (ok & j5 & ->).
  { case_match; [apply setSeedHash_returns, Hs|by eexists _, _]. }
  rewrite ok_bind. destruct ok; cbn [negb]; [|by eexists].
  destruct (setSigKey_returns j5 (getString params "sig_key") (Hs "sig_key"%string)) as [j6 ->]. by eexists.
Qed.

Lemma lmt_blob_returns prePow ts : Forall is_u8 prePow -> msize prePow = 64 ->
  exists r, lmt_blob prePow ts = Ok r /\ match r with Some h => Forall is_u8 h | None => True end.
Proof.
  intros HB Hl. unfold lmt_blob. rewrite <- Hl.
  pose proof (Cvt.Cvt.fromHex_ok (replicate 32 0) prePow HB) as H. change (msize (replicate 32 0)) with 32 in H.
  specialize (H ltac:(lia)). apply returns_iff in H as ([ok out] & -> & Ho & Hd). rewrite ok_bind.
  destruct (Cvt.Cvt.decode prePow) as [bs|] eqn:Ed; [|subst ok; by eexists]. destruct Hd as [-> ->]. cbn [negb].
  pose proof (Cvt.Cvt.length_decode _ _ Ed) as Hld. apply Cvt.Cvt.decode_bytes in Ed. unfold msize in Hl.
  rewrite Cvt.Cvt.splice_all by (cbn [length replicate]; lia). change (replicate 8 0) with (store_le 8 0).
  fold (lmt_bytes bs ts 0). assert (msize bs = 32) as Hbs by (unfold msize; lia). pose proof (msize_lmt_bytes bs ts 0 Hbs) as H48.
  destruct (bin2hex_text 97 97 (lmt_bytes bs ts 0)) as (h & Eh & Hc); [by apply lmt_bytes_u8|lia|lia|lia|].
  rewrite H48 in Eh. rewrite Eh, ok_bind. eexists. split; [done|]. cbn. rewrite Hc. by apply encode_u8, lmt_bytes_u8.
Qed.

Lemma read_lmt_job_returns E j params : wf j -> bytes_only params -> target_ok params -> exists r, read_lmt_job E j params = Ok r.
Proof.
  intros Hw HB Ht. unfold read_lmt_job.
  destruct params as [| | | | |l|]; try (by eexists).
  destruct l as [|[| | | |id| |] [|[| | | |prePow| |] [|[| |ts| | | |] [|bits [|[| | | |target| |] rest]]]]]; try (by eexists).
  cbn in HB. destruct HB as (_ & HB1 & _ & _ & HB2 & _). unfold target_ok in Ht. cbn [target_of] in Ht.
  destruct (isUint64 ts); cbn [negb]; [|by eexists]. set (j1 := setAlgorithm _ _). assert (wf j1) as Hw1 by exact Hw.
  destruct (verifyAlgorithm E (m_algorithm j1)); cbn [negb]; [|by eexists].
  destruct (Z.eqb_spec (msize (cstr prePow)) 64) as [Hl|]; cbn [negb]; [|by eexists]. apply cstr_bytes in HB1, HB2.
  destruct (lmt_blob_returns (cstr prePow) ts HB1 Hl) as (r & -> & Hr). rewrite ok_bind. destruct r as [hex|]; [|by eexists].
  destruct (setBlob_returns j1 (Some hex) Hw1 Hr) as (ok & j2 & -> & _). rewrite ok_bind. destruct ok; cbn [negb]; [|by eexists].
  destruct (setSeedHash_returns j2 (Some (cstr prePow)) HB1) as (ok & j3 & ->). rewrite ok_bind. destruct ok; cbn [negb]; [|by eexists].
  destruct (setTarget_returns j3 (Some (cstr target)) (conj HB2 Ht)) as (ok & j4 & ->). rewrite ok_bind. destruct ok; by eexists.
Qed.

(** ** Handlers that run through *)

Definition runs {A} (P : client -> Prop) (m : M A) : Prop :=
  forall c, P c -> exists a c' evs, m c = Ok (a, c', evs) /\ P c'.

Section Runs.
Context (P : client -> Prop).

Lemma runs_ret {A} (a : A) : runs P (mret a).
Proof. intros c Hc. by exists a, c, []. Qed.
Lemma runs_gets {A} (f : client -> A) : runs P (gets f).
Proof. intros c Hc. by exists (f c), c, []. Qed.
Lemma runs_emit e : runs P (emit e).
Proof. intros c Hc. by exists tt, c, [e]. Qed.
Lemma runs_modify f : (forall c, P c -> P (f c)) -> runs P (modify f).
Proof. intros H c Hc. exists tt, (f c), []. auto. Qed.
Lemma runs_bind {A B} (m : M A) (f : A -> M B) : runs P m -> (forall a, runs P (f a)) -> runs P (m ≫= f).
Proof.
  intros Hm Hf c Hc. destruct (Hm c Hc) as (a & c1 & e1 & E1 & H1). destruct (Hf a c1 H1) as (b & c2 & e2 & E2 & H2).
  exists b, c2, (e1 ++ e2). unfold mbind, M_bind. by rewrite E1, E2.
Qed.
Lemma runs_when b m : runs P m -> runs P (when b m).
Proof. intros H. destruct b; [done|apply runs_ret]. Qed.

(** Fields with what [P] says of them, and fallible operations that return. *)
Lemma runs_known {A B} (Q : A -> Prop) (f : client -> A) (k : A -> M B) :
  (forall c, P c -> Q (f c)) -> (forall a, Q a -> runs P (k a)) -> runs P (gets f ≫= k).
Proof.
  intros Hf Hk c Hc. destruct (Hk (f c) (Hf c Hc) c Hc) as (b & c2 & e2 & E2 & H2).
  exists b, c2, e2. unfold mbind, M_bind, gets. by rewrite E2.
Qed.
Lemma runs_lift {A B} (Q : A -> Prop) (r : result A) (k : A -> M B) :
  returns r Q -> (forall a, Q a -> runs P (k a)) -> runs P (lift r ≫= k).
Proof.
  intros Hr Hk c Hc. apply returns_iff in Hr as (a & -> & Ha). destruct (Hk a Ha c Hc) as (b & c2 & e2 & E2 & H2).
  exists b, c2, e2. unfold mbind, M_bind, lift. by rewrite E2.
Qed.

End Runs.

Create HintDb runs.
#[export] Hint Resolve runs_ret runs_gets runs_emit runs_when runs_bind : runs.

Ltac runs_step :=
  match goal with
  | |- forall _, _ => intros ?
  | |- runs _ (mret _) => apply runs_ret
  | |- runs _ (gets _) => apply runs_gets
  | |- runs _ (emit _) => apply runs_emit
  | |- runs _ (when _ _) => apply runs_when
  | |- runs _ (lift _ ≫= _) => fail 1
  | |- runs _ (mbind _ _) => apply runs_bind
  | |- runs _ (match ?x with _ => _ end) => destruct x
  | |- runs _ _ => solve [eauto 2 with runs]
  end.
Ltac runs := repeat runs_step.

(** The sockets of a client: a connection has one, a socket that is closed is not
    served, and the state [ClosingState] means that the client's own is one of those. *)
Record conn_ok (n : conn) : Prop := {
  on_connected : c_state n = ConnectedState -> is_Some (c_socket n);
  on_unconnected : c_state n = UnconnectedState -> c_socket n = None;
  on_closing : c_state n = ClosingState -> forall k, c_socket n = Some k -> k ∈ c_closing n;
  on_apart : forall k, k ∈ c_closing n -> k ∉ c_open n;
  on_fresh : forall k, c_socket n = Some k \/ k ∈ c_closing n \/ k ∈ c_open n -> k < c_fresh n }.

(** What holds of a client between two calls.  One without a listener was removed or
    waits for its socket to close. *)
Record client_ok (c : client) : Prop := {
  ok_buf : buf_ok c;
  ok_user : exists u, f_user (cf c) = Some u;
  ok_password : exists p, f_password (cf c) = Some p;
  ok_id : msize (default (lit "(null)") (s_rpcId (ss c))) <= 900;
  ok_reader : exists p, LineReader.LineReader.holds (reader c) p;
  ok_socks : match socks c with Some k => k_state k = Created \/ 2 <= k_nextSize k | None => True end;
  ok_conn : conn_ok (cn c);
  ok_gone : listener c = false -> removed c = true \/ forall k, c_socket (cn c) = Some k -> k ∉ c_open (cn c) }.

(** With [heard] the listener is there. *)
Definition ok (heard : bool) (c : client) : Prop := client_ok c /\ (heard = true -> listener c = true).

(** Two clients that differ in their connections *)
Lemma ok_set_cn h n c : ok h c -> conn_ok n -> c_socket n = c_socket (cn c) -> (forall k, k ∈ c_open n -> k ∈ c_open (cn c)) -> ok h (set_cn (fun _ => n) c).
Proof.
  intros [[] Hh] Hn Hs Ho. split; [|done]. split; try done. cbn. rewrite Hs. intros Hl. destruct (ok_gone0 Hl) as [?|Hg]; [by left|right].
  intros k Hk Hin. by apply (Hg k Hk), Ho.
Qed.

Section Handlers.
Context (E : env).

(** An update that leaves what [client_ok] is about. *)
Ltac plain := apply runs_modify; intros ? [[? ? ? ? ? ? Hconn ?] ?]; split; [split; first [done|by destruct Hconn; split]|done].
Ltac by_cases := runs; try plain.

(** A new state in which a socket means nothing *)
Definition idle (s : SocketState) : Prop := s = HostLookupState \/ s = ConnectingState \/ s = ReconnectingState.

Lemma conn_ok_idle s n : idle s -> conn_ok n -> conn_ok (with_state s n).
Proof. intros Hs []. split; cbn; try done; by destruct Hs as [->|[->| ->]]. Qed.

Lemma setState_runs h s : idle s -> runs (ok h) (setState E s).
Proof.
  intros Hs. assert (runs (ok h) (modify (set_cn (with_state s)))).
  { apply runs_modify. intros c Hc. apply (ok_set_cn h _ c Hc); [|done|done]. apply conn_ok_idle; [done|]. apply Hc. }
  unfold setState. by_cases.
Qed.
Lemma lookup_idle : idle HostLookupState. Proof. by left. Qed.
Lemma connecting_idle : idle ConnectingState. Proof. by right; left. Qed.
Lemma reconnecting_idle : idle ReconnectingState. Proof. by right; right. Qed.
Hint Resolve setState_runs lookup_idle connecting_idle reconnecting_idle : runs.

(** [close] ends with a client that waits for its socket, or has none to wait for. *)
Lemma close_at c : conn_ok (cn c) -> exists busy n evs, close E c = Ok (busy, set_cn (fun _ => n) c, evs) /\ conn_ok n /\
  c_socket n = c_socket (cn c) /\ (forall k, k ∈ c_open n -> k ∈ c_open (cn c)) /\ (busy = true -> forall k, c_socket n = Some k -> k ∉ c_open n).
Proof.
  intros Hc. assert (Hself : set_cn (fun _ => cn c) c = c) by by destruct c. unfold close, mbind at 1, M_bind at 1, gets at 1, mbind at 1, M_bind at 1, gets at 1.
  destruct (decide (c_state (cn c) = ClosingState)) as [Es|Es].
  { rewrite Es. change (is_state ClosingState ClosingState) with true. cbv match. eexists _, (cn c), _. rewrite Hself. split; [reflexivity|]. split_and!; try done.
    intros _ k Hk. by apply (on_apart _ Hc), (on_closing _ Hc). }
  rewrite is_state_ne by done. destruct (c_socket (cn c)) as [k|] eqn:Ek.
  2: { exists false, (cn c), []. rewrite Hself. split_and!; done. }
  destruct (decide (c_state (cn c) = UnconnectedState)) as [Eu|Eu]; [pose proof (on_unconnected _ Hc Eu); congruence|].
  rewrite is_state_ne by done. unfold setState, mbind, M_bind, gets. rewrite is_state_ne by done. unfold modify, when. cbn -[bool_decide closing].
  destruct (decide (k ∈ c_closing (cn c))) as [Hin|Hin].
  - rewrite bool_decide_eq_true_2 by done. eexists _, (with_state ClosingState (cn c)), _. split; [reflexivity|]. destruct Hc. split_and!; try done.
    + split; cbn; try done. intros _ j. rewrite Ek. by intros [= <-].
    + cbn. intros _ j. rewrite Ek. intros [= <-]. by apply on_apart0.
  - rewrite bool_decide_eq_false_2 by done. eexists _, (closing k (with_state ClosingState (cn c))), _. split; [reflexivity|]. destruct Hc. split_and!; try done.
    + split; cbn; try done.
      * intros _ j. rewrite Ek. intros [= <-]. by left.
      * intros j [->|Hj]%elem_of_cons [Hne Ho]%list_elem_of_filter; [done|]. by apply (on_apart0 j).
      * intros j [Hj|[[->|Hj]%elem_of_cons|[_ Ho]%list_elem_of_filter]]; apply on_fresh0; auto.
    + cbn. intros j [_ Ho]%list_elem_of_filter. done.
    + cbn. intros _ j. rewrite Ek. intros [= <-] [Hne _]%list_elem_of_filter. done.
Qed.

Lemma close_runs h : runs (ok h) (close E).
Proof.
  intros c Hc. destruct (close_at c (ok_conn _ (proj1 Hc))) as (busy & n & evs & -> & Hn & Hs & Ho & _). eexists _, _, _. split; [done|]. by apply ok_set_cn.
Qed.
Hint Resolve close_runs : runs.
Lemma reconnect_runs h : runs (ok h) (reconnect E).
Proof. unfold reconnect. by_cases. apply runs_modify. intros c [[] ?]. split; [split; try done; by left|done]. Qed.
Hint Resolve reconnect_runs : runs.
Lemma disconnect_runs h : runs (ok h) (disconnect E).
Proof. unfold disconnect. by_cases. Qed.
Hint Resolve disconnect_runs : runs.

(** Without its listener a client goes, at once or when its socket is closed. *)
Lemma deleteLater_runs : runs (ok false) (deleteLater E).
Proof.
  intros c [Hc _]. unfold deleteLater, mbind at 1, M_bind at 1, gets at 1. destruct (listener c); cbn [negb]; [|by exists tt, c, []].
  unfold mbind at 1, M_bind at 1, modify at 1, disconnect, mbind at 1, M_bind at 1, mbind at 1, M_bind at 1, modify at 1.
  set (c1 := set_cn _ _). assert (Hc1 : conn_ok (cn c1)) by (destruct Hc as [? ? ? ? ? ? [] ?]; by split).
  destruct (close_at c1 Hc1) as (busy & n & evs & -> & Hn & Hs & Ho & Hb). destruct Hc. destruct busy; cbn [negb when].
  - eexists _, _, _. split; [reflexivity|]. split; [|done]. split; try done. intros _. right. by apply Hb.
  - eexists _, _, _. split; [reflexivity|]. split; [|done]. split; try done. intros _. by left.
Qed.

Lemma resolve_runs h x : runs (ok h) (resolve E x).
Proof.
  unfold resolve. by_cases. apply runs_modify. intros c [[] ?]. split; [|done]. split; try done.
  destruct ok_reader0 as [p Hp]. cbn. unfold LineReader.LineReader.reset. destruct (LineReader.LineReader.m_buf (reader c)); [exists []; by split|by exists p].
Qed.
Hint Resolve resolve_runs : runs.
Lemma connect_runs h : runs (ok h) (connect E).
Proof. unfold connect. by_cases. apply runs_modify. intros c [[] ?]. split; [|done]. split; try done. by left. Qed.
Hint Resolve connect_runs : runs.

Lemma conn_ok_new n : conn_ok n -> c_state n = ConnectingState -> conn_ok (new_socket n).
Proof.
  intros [] Hs. split; cbn; rewrite ?Hs; try done.
  - intros k Hk [->|Ho]%elem_of_cons; [|by apply (on_apart0 k)]. specialize (on_fresh0 (c_fresh n)). naive_solver lia.
  - intros k [[= <-]|[Hk|[->|Ho]%elem_of_cons]]; [lia| |lia|]; (assert (k < c_fresh n) by (apply on_fresh0; auto)); lia.
Qed.

Lemma connect_addr_runs : runs (ok true) (connect_addr E).
Proof.
  intros c Hc. unfold connect_addr. assert (exists c1, setState E ConnectingState c = Ok (tt, c1, []) /\ ok true c1 /\ c_state (cn c1) = ConnectingState) as (c1 & E1 & [[] Hl] & Hs).
  { destruct (setState_runs true ConnectingState connecting_idle c Hc) as (a & c1 & e & E1 & H1). destruct a.
    revert E1. unfold setState, mbind, M_bind, gets. destruct (decide (c_state (cn c) = ConnectingState)) as [Ec|Ec].
    - rewrite Ec. intros [= <- <-]. by exists c.
    - rewrite is_state_ne by done. unfold modify. intros [= <- <-]. by eexists. }
  unfold mbind at 1, M_bind at 1. rewrite E1. eexists _, _, _. split; [reflexivity|]. split; [|done]. split; try done; [by apply conn_ok_new|].
  cbn. rewrite Hl by done. done.
Qed.

Lemma onResolved_runs r x : runs (ok false) (onResolved E r x).
Proof.
  intros c [Hc _]. unfold onResolved, mbind, M_bind, gets. destruct (listener c) eqn:Hl; cbn [negb].
  - assert (runs (ok true) (if (x <? 0) && negb r then reconnect E else connect_addr E)) as H by (destruct (_ && _); [apply reconnect_runs|apply connect_addr_runs]).
    destruct (H c) as (a & c' & e & -> & [H' _]); [by split|]. by eexists _, _, _.
  - destruct (reconnect_runs false c) as (a & c' & e & -> & H'); [by split|]. by eexists _, _, _.
Qed.

Lemma onClose_runs : runs (ok false) (onClose E).
Proof.
  intros c [Hc _]. unfold onClose, mbind at 1, M_bind at 1, modify at 1. set (c1 := set_cn no_socket c).
  assert (exists c2, setState E UnconnectedState c1 = Ok (tt, c2, []) /\ ok false c2) as (c2 & E2 & H2).
  { exists (set_cn (with_state UnconnectedState) c1). split.
    - unfold setState, mbind, M_bind, gets. destruct (decide (c_state (cn c1) = UnconnectedState)) as [Es|Es].
      + rewrite Es. unfold is_state. rewrite bool_decide_eq_true_2 by done. change (c_state (cn c) = UnconnectedState) in Es.
        unfold c1, set_cn, with_state, no_socket. cbn. by rewrite Es.
      + by rewrite is_state_ne.
    - split; [|done]. destruct Hc as [? ? ? ? ? ? [] Hg]. split; try done; [|by right]. split; cbn; try done.
      intros k [?|Hk]; [done|]. apply on_fresh0. auto. }
  unfold mbind at 1, M_bind at 1. rewrite E2. destruct (reconnect_runs false c2 H2) as (a & c' & e & -> & H'). by eexists _, _, _.
Qed.

Lemma startTimeout_runs h : runs (ok h) (startTimeout E).
Proof. unfold startTimeout. by_cases. Qed.
Hint Resolve startTimeout_runs : runs.

(** Calls of the listener *)
Lemma listens_runs : runs (ok true) listens.
Proof. intros c Hc. unfold listens, mbind, M_bind, gets. rewrite (proj2 Hc) by done. by exists tt, c, []. Qed.
Hint Resolve listens_runs : runs.
Lemma tell_runs e : runs (ok true) (tell e).
Proof. unfold tell. by_cases. Qed.
Hint Resolve tell_runs : runs.

(** ** Writing *)

Lemma write_runs h b c : ok h c -> is_Some (c_socket (cn c)) -> exists x c' evs, write E b c = Ok (x, c', evs) /\ ok h c'.
Proof.
  intros Hc Hs. unfold write. rewrite stream_step by done.
  match goal with |- context [?m c] => assert (runs (ok h) m) as Hr by by_cases end. by apply Hr.
Qed.

Lemma send_size_runs h size c : ok h c -> 0 <= size <= msize (sendBuf c) ->
  exists n c' evs, send_size E size c = Ok (n, c', evs) /\ ok h c'.
Proof.
  intros Hc Hs. unfold send_size, mbind at 1, M_bind at 1, gets at 1.
  destruct (is_state _ _) eqn:Est; cbn [negb]; [|by exists (-1), c, []]. apply bool_decide_eq_true in Est.
  pose proof (on_connected _ (ok_conn _ (proj1 Hc)) Est) as Hk. rewrite stream_step by done.
  destruct (negb (writable E)); [by exists (-1), c, []|].
  unfold mbind at 1, M_bind at 1, gets at 1, mbind at 1, M_bind at 1, lift. rewrite mload_ok by lia.
  unfold mbind at 1, M_bind at 1. destruct (write_runs h (chunk (sendBuf c) 0 size) c Hc Hk) as (okw & c1 & e1 & -> & H1).
  match goal with |- context [?m c1] => assert (runs (ok h) m) as Hr by by_cases end.
  destruct (Hr c1 H1) as (a & c' & e & -> & H). eauto.
Qed.

Lemma set_sendBuf_ok h buf c : ok h c -> 1024 <= msize buf < 2 ^ 63 -> ok h (set_sendBuf buf c).
Proof. intros [[] ?] Hb. split; [by split|done]. Qed.

Lemma send_runs h obj : runs (ok h) (send E obj).
Proof.
  destruct (Z.ltb_spec kMaxSendBufferSize (msize (write_json E obj))) as [Hl|Hl].
  - unfold send. rewrite (proj2 (Z.ltb_lt _ _)) by done. by_cases.
  - intros c Hc. destruct (send_fills E obj c (ok_buf _ (proj1 Hc)) Hl) as (buf & Hr & _ & Hf & ->).
    apply send_size_runs; [by apply set_sendBuf_ok|]. change (sendBuf (set_sendBuf buf c)) with buf. unfold msize in *. lia.
Qed.
Hint Resolve send_runs : runs.

Lemma length_digits fuel n : (length (Url.Url.digits fuel n) <= fuel)%nat.
Proof.
  revert n. induction fuel as [|fuel IH]; intros n; cbn [Url.Url.digits]; [done|]. rewrite length_app. specialize (IH (n / 10)).
  destruct (n <? 10); cbn; lia.
Qed.

Lemma ping_text_size n rpcId : msize (ping_text n rpcId) <= msize rpcId + 100.
Proof.
  unfold ping_text. rewrite !msize_app. pose proof (length_digits 20 n).
  change (msize (quoted "{#id#:")) with 6. 
  change (msize (quoted ",#jsonrpc#:#2.0#,#method#:#keepalived#,#params#:{#id#:#")) with 55.
  change (msize (quoted "#}}")) with 3. change (msize [10]) with 1. unfold msize in *. lia.
Qed.

(** [snprintf] stays in a buffer of any size. *)
Lemma snprintf_returns buf text : 0 < msize buf -> returns (snprintf buf text) (fun '(n, b) => n = msize text /\ msize b = msize buf).
Proof.
  intros Hb. unfold snprintf. assert (0 + Z.of_nat (length (take (Z.to_nat (msize buf - 1)) text ++ [0])) <= msize buf) as Hl
    by (rewrite length_app, length_take; cbn; unfold msize in *; lia).
  rewrite mstore_ok, ok_bind by lia. split; [done|]. by apply msize_splice.
Qed.

(** The text of a ping, and [ping] after [snprintf]. *)
Definition ping_line (c : client) : mem := ping_text (sequence c) (default (lit "(null)") (s_rpcId (ss c))).

Lemma ping_sends c : buf_ok c -> exists b, msize b = msize (sendBuf c) /\
  ping E c = (_ ← send_size E (msize (ping_line c)); modify (set_cn (with_keepAlive 0))) (set_sendBuf b c).
Proof.
  intros Hb. unfold buf_ok in Hb.
  unfold ping, mbind at 1, M_bind at 1, gets at 1, mbind at 1, M_bind at 1, gets at 1, mbind at 1, M_bind at 1, gets at 1.
  unfold mbind at 1, M_bind at 1, lift at 1. fold (ping_line c).
  pose proof (snprintf_returns (sendBuf c) (ping_line c) ltac:(lia)) as H. apply returns_iff in H as ([n b] & -> & -> & Hbl).
  exists b. split; [done|]. unfold mbind at 1, M_bind at 1, modify at 1. by destruct (mbind _ (send_size _ _) (set_sendBuf b c)) as [[[? ?] ?]| |].
Qed.

Lemma ping_runs_at h c : ok h c -> msize (ping_line c) <= msize (sendBuf c) -> exists a c' evs, ping E c = Ok (a, c', evs) /\ ok h c'.
Proof.
  intros Hc Ht. pose proof (ok_buf _ (proj1 Hc)) as Hb. destruct (ping_sends c Hb) as (b & Hbl & ->). unfold buf_ok in Hb.
  unfold mbind, M_bind. destruct (send_size_runs h (msize (ping_line c)) (set_sendBuf b c)) as (k & c' & evs & -> & H').
  { apply set_sendBuf_ok; [done|lia]. }
  { change (sendBuf (set_sendBuf b c)) with b. unfold msize in *. lia. }
  unfold modify. eexists _, _, _. split; [done|]. destruct H' as [[? ? ? ? ? ? [] ?] ?]. split; [split|]; done.
Qed.

Lemma ping_runs h : runs (ok h) (ping E).
Proof.
  intros c Hc. apply ping_runs_at; [done|]. pose proof (ok_buf _ (proj1 Hc)) as Hb. pose proof (ok_id _ (proj1 Hc)). unfold buf_ok in Hb.
  pose proof (ping_text_size (sequence c) (default (lit "(null)") (s_rpcId (ss c)))). unfold ping_line. lia.
Qed.
Hint Resolve ping_runs : runs.

Lemma tick_runs h t : runs (ok h) (tick E t).
Proof. unfold tick. by_cases. Qed.
Hint Resolve tick_runs : runs.

(** ** Messages *)

Lemma set_client_id_runs h : runs (ok h) set_client_id.
Proof. unfold set_client_id. plain. Qed.
Hint Resolve set_client_id_runs : runs.
Lemma take_job_runs h j : runs (ok h) (take_job j).
Proof. unfold take_job. plain. Qed.
Hint Resolve take_job_runs : runs.

Lemma new_job_wf c : wf (make (has EXT_NICEHASH c) (p_algorithm (f_pool (cf c))) (s_rpcId (ss c))).
Proof. apply make_wf. Qed.

Lemma parseJob_runs params : bytes_only params -> target_ok params -> runs (ok true) (parseJob E params).
Proof.
  intros HB Ht. unfold parseJob, new_job. apply runs_bind; [apply runs_gets|]. intros pool.
  apply (runs_known _ wf); [intros c _; apply new_job_wf|]. intros j Hj.
  apply (runs_lift _ (fun _ => True)); [|by_cases].
  destruct (read_job_returns E pool j params Hj HB Ht) as [r ->]. done.
Qed.

Lemma parseLmtNotify_runs params : bytes_only params -> target_ok params -> runs (ok true) (parseLmtNotify E params).
Proof.
  intros HB Ht. unfold parseLmtNotify, new_job.
  apply (runs_known _ wf); [intros c _; apply new_job_wf|]. intros j Hj.
  apply (runs_lift _ (fun _ => True)); [|by_cases].
  destruct (read_lmt_job_returns E j params Hj HB Ht) as [r ->]. done.
Qed.

Lemma extensions_loop_runs l : runs (ok true) (extensions_loop E l).
Proof. induction l as [|[] l IH]; cbn [extensions_loop]; by_cases. Qed.
Hint Resolve extensions_loop_runs : runs.
Lemma parseExtensions_runs r : runs (ok true) (parseExtensions E r).
Proof. unfold parseExtensions. by_cases. Qed.
Hint Resolve parseExtensions_runs : runs.
Lemma parseLogin_runs result : bytes_only result -> target_ok (getObject result "job") ->
  match getString result "id" with Some i => msize i <= 900 | None => True end -> runs (ok true) (parseLogin E result).
Proof.
  intros HB Ht Hi. unfold parseLogin. apply runs_bind.
  - apply runs_modify. intros c [[] ?]. split; [|done]. split; try done. cbn. destruct (getString result "id"); [done|]. vm_compute. discriminate.
  - intros []. apply runs_bind; [apply runs_gets|]. intros rpcId. destruct (isNull rpcId); [apply runs_ret|].
    apply runs_bind; [auto with runs|]. intros []. apply runs_bind; [|by_cases]. apply parseJob_runs; [by apply bytes_getObject|done].
Qed.

Lemma login_runs : runs (ok true) (login E).
Proof.
  unfold login. apply runs_bind; [plain|]. intros []. apply (runs_known _ (fun u => exists x, u = Some x)); [by intros c [[] ?]|].
  intros _ [u ->]. by_cases.
Qed.
Hint Resolve login_runs : runs.
Lemma handleSubmitResponse_runs i e : runs (ok true) (handleSubmitResponse E i e).
Proof. unfold handleSubmitResponse. by_cases. Qed.
Hint Resolve handleSubmitResponse_runs : runs.
Lemma handleResponse_runs i r e : runs (ok true) (handleResponse i r e).
Proof. unfold handleResponse. by_cases. Qed.
Hint Resolve handleResponse_runs : runs.

(** A message, and lines of messages. *)
Lemma parseResponse_runs i r e : (is_object e = true -> exists m, error_message e = Ok m) -> bytes_only r ->
  target_ok (getObject r "job") -> match getString r "id" with Some i => msize i <= 900 | None => True end ->
  runs (ok true) (parseResponse E i r e).
Proof.
  intros He HB Ht Hi. unfold parseResponse. apply runs_bind; [auto with runs|]. intros handled.
  destruct handled; [apply runs_ret|]. destruct (is_object e).
  - apply (runs_lift _ (fun _ => True)); [by destruct (He eq_refl) as [? ->]|]. by_cases.
  - destruct (negb (is_object r)); [apply runs_ret|]. apply runs_bind; [apply runs_gets|]. intros lmt.
    destruct (lmt && (i =? 1)).
    { apply (runs_known _ (fun u => exists x, u = Some x)); [by intros c [[] ?]|]. intros _ [u ->].
      apply (runs_known _ (fun u => exists x, u = Some x)); [by intros c [[] ?]|]. intros _ [p ->].
      do 2 (apply (runs_lift _ (fun _ => True)); [done|]; intros ? _). by_cases. }
    destruct (lmt && (i =? 2)); [by_cases|]. destruct (i =? 1); [|by_cases].
    apply runs_bind; [by apply parseLogin_runs|]. by_cases.
Qed.

Lemma parseNotification_runs method params : bytes_only params -> target_ok params -> runs (ok true) (parseNotification E method params).
Proof.
  intros HB Ht. unfold parseNotification. case_bool_decide.
  - apply runs_bind; [by apply parseLmtNotify_runs|by_cases].
  - case_bool_decide; [|by_cases]. apply runs_bind; [by apply parseJob_runs|by_cases].
Qed.

Lemma client_reconnect_runs p : runs (ok true) (client_reconnect E p).
Proof. unfold client_reconnect. by_cases. Qed.
Hint Resolve client_reconnect_runs : runs.

Lemma dispatch_runs doc : polite doc -> runs (ok true) (dispatch E doc).
Proof.
  intros (HB & He & Hi & Ht & Hj). unfold dispatch.
  assert (runs (ok true) (match getString doc "method" with
    | None => mret tt
    | Some m => if is_object (getValue doc "error") then mret tt else parseNotification E m (getValue doc "params")
    end)) as Hn.
  { destruct (getString doc "method"); [|apply runs_ret]. destruct (is_object _); [apply runs_ret|].
    apply parseNotification_runs; [by apply bytes_getValue|done]. }
  destruct (match getString doc "method" with Some m => _ | None => false end); [auto with runs|].
  destruct (getValue doc "id") as [| |n| | | |]; try done. destruct (isInt64 n); [|done].
  apply parseResponse_runs; try done. by apply bytes_getValue.
Qed.

Definition polite_reader : Prop := forall text doc, read_json E text = Some doc -> polite doc.

Lemma parse_lines_runs l : polite_reader -> Forall (fun x => exists t, LineReader.LineReader.shows t x) l -> runs (ok true) (parse_lines E l).
Proof.
  intros Hp. induction 1 as [|x l [t (_ & _ & Hx)] _ IH]; cbn [parse_lines]; [apply runs_ret|]. apply runs_bind; [|done].
  unfold parse_line. apply runs_bind; [auto with runs|]. intros []. apply list_elem_of_lookup_2 in Hx as Hin.
  apply (runs_lift _ (fun _ => True)).
  { destruct (LineReader.LineReader.l_mem x) as [|y m]; [by apply elem_of_nil in Hin|done]. }
  intros c0 _. case_match; [apply runs_ret|]. apply (runs_lift _ (fun _ => True)).
  { unfold terminated. replace (existsb (Z.eqb 0) (LineReader.LineReader.l_mem x)) with true; [done|].
    symmetry. apply existsb_exists. exists 0. split; [by apply list_elem_of_In|done]. }
  intros text _. destruct (read_json E text) as [doc|] eqn:Ed; [|apply runs_ret]. specialize (Hp _ _ Ed).
  destruct doc; try apply runs_ret. by apply dispatch_runs.
Qed.

(** ** The proxy and the connection *)

(** The first message of a connection *)
Lemma socks_write_runs h k b c : k_state k = Created \/ 2 <= k_nextSize k -> ok h c -> is_Some (c_socket (cn c)) ->
  exists a c' evs, (_ ← modify (set_socks (Some k)); _ ← write E b; mret tt) c = Ok (a, c', evs) /\ ok h c'.
Proof.
  intros Hk [[] Hh] Hs. unfold mbind at 1, M_bind at 1, modify, mbind at 1, M_bind at 1.
  destruct (write_runs h b (set_socks (Some k) c)) as (x & c' & e & -> & H'); [split; [by split|done]|done|]. by eexists _, _, _.
Qed.

Lemma handshake_runs c : ok true c -> is_Some (c_socket (cn c)) -> exists a c' evs, handshake E c = Ok (a, c', evs) /\ ok true c'.
Proof.
  intros Hc Hs. unfold handshake, mbind, M_bind, gets. destruct (socks c).
  - destruct (socks_write_runs true (mk_socks SentInitialHandshake 2) [5; 1; 0] c) as (a & c' & e & Eq & H'); [by right|done|done|].
    unfold socks_handshake. rewrite Eq. by eexists _, _, _.
  - destruct (login_runs c Hc) as (a & c' & e & -> & H'). by eexists _, _, _.
Qed.

Lemma socks_read_runs k bytes c : 2 <= k_nextSize k -> ok true c -> is_Some (c_socket (cn c)) ->
  exists a c' evs, socks_read E k bytes c = Ok (a, c', evs) /\ ok true c'.
Proof.
  intros Hk Hc Hs. unfold socks_read. destruct (Z.ltb_spec (msize bytes) (k_nextSize k)); [by exists tt, c, []|].
  destruct bytes as [|b0 [|b1 bytes]]; [unfold msize in *; cbn in *; lia|unfold msize in *; cbn in *; lia|].
  unfold mbind at 1, M_bind at 1, lift at 1. change (aget (b0 :: b1 :: bytes) 0) with (Ok b0).
  assert (exists okb, (if b0 =? 5 then b1 ← lift (aget (b0 :: b1 :: bytes) 1); mret (b1 =? 0) else mret false) c = Ok (okb, c, [])) as [okb Eq].
  { destruct (b0 =? 5); by eexists. }
  unfold mbind at 1, M_bind at 1. rewrite Eq. destruct okb.
  - destruct (k_state k); [|unfold socks_connect; destruct Hc as [[] Hh]|..].
    2: { unfold mbind at 1, M_bind at 1, modify, mbind at 1, M_bind at 1, gets at 1, mbind at 1, M_bind at 1.
      match goal with |- context [write E ?b ?x] => destruct (write_runs true b x) as (y & c' & e & -> & H') end; [split; [by split; try done; right; cbn; lia|done]|done|].
      by eexists _, _, _. }
    all: eexists _, _, _; split; [reflexivity|]; destruct Hc as [[] ?]; split; [|done]; split; try done; right; cbn; lia.
  - assert (runs (ok true) (_ ← close E; mret tt)) as H' by by_cases. destruct (H' c Hc) as (a & c' & e & -> & ?). by eexists _, _, _.
Qed.

Lemma read_error_runs h : runs (ok h) (read_error E).
Proof. unfold read_error. by_cases. Qed.
Hint Resolve read_error_runs : runs.

(** A connection that is made: the client has a socket and a listener. *)
Lemma onConnect_runs x c : ok false c -> (0 <= x -> is_Some (c_socket (cn c)) /\ listener c = true) ->
  exists a c' evs, onConnect E x c = Ok (a, c', evs) /\ ok false c'.
Proof.
  intros Hc Hx. unfold onConnect, mbind at 1, M_bind at 1, gets at 1. destruct (Z.ltb_spec x 0) as [Hl|Hl].
  { assert (runs (ok false) (when (is_state (c_state (cn c)) ConnectingState) (_ ← close E; mret tt))) as H by by_cases.
    destruct (H c Hc) as (a & c' & e & -> & ?). by eexists _, _, _. }
  destruct (Hx Hl) as [Hs Hli]. destruct (decide (c_state (cn c) = ConnectedState)) as [Ec|Ec].
  { rewrite Ec. by eexists _, _, _. }
  rewrite is_state_ne by done. set (c1 := set_cn (with_state ConnectedState) c).
  assert (setState E ConnectedState c = Ok (tt, c1, [])) as E1.
  { unfold setState, mbind, M_bind, gets. by rewrite is_state_ne. }
  unfold mbind at 1, M_bind at 1. rewrite E1. rewrite stream_step by done.
  destruct (handshake_runs c1) as (a & c' & e & -> & [H' _]); [|done|by eexists _, _, _].
  split; [|done]. destruct Hc as [[? ? ? ? ? ? [] ?] _]. split; done.
Qed.

(** What the event loop, the owner and the workers may do.  The loop reports a connection
    for a socket that is open, and with a handshake under way data come from one; the
    owner has no pointer to a client that was removed. *)
Definition allowed (c : client) (i : call) : Prop :=
  if removed c then from_loop i = true
  else match i with
  | ConnectDone x => 0 <= x -> exists k, c_socket (cn c) = Some k /\ k ∈ c_open (cn c)
  | Data fresh bytes =>
      msize fresh = LineReader.LineReader.XMRIG_NET_BUFFER_CHUNK_SIZE /\ polite_reader /\
      (exists p, LineReader.LineReader.holds (reader c) p /\ LineReader.LineReader.fits p bytes) /\
      match socks c with Some k => k_state k <> Created /\ is_Some (c_socket (cn c)) | None => True end
  | SubmitJob r => result_ok r
  | _ => True
  end.

Lemma submit_runs r : result_ok r -> runs (ok false) (submit E r).
Proof.
  intros Hr c Hc. unfold submit, mbind at 1, M_bind at 1, gets at 1, mbind at 1, M_bind at 1, gets at 1.
  destruct (isNull (s_rpcId (ss c))) eqn:En; [rewrite orb_true_r; by exists (-1), c, []|].
  destruct (negb (isEqual_str _ _) || false || _); [by exists (-1), c, []|].
  destruct (jr_diff r =? 0).
  { assert (runs (ok false) (_ ← close E; mret (-1))) as H by by_cases. destruct (H c Hc) as (a & c' & e & -> & H'). eauto. }
  unfold mbind at 1, M_bind at 1, gets at 1, mbind at 1, M_bind at 1, lift at 1.
  change (id c) with c. destruct (s_rpcId (ss c)) as [i|] eqn:Ei; [|done]. destruct (ok_user _ (proj1 Hc)) as [u Hu].
  rewrite (submit_request_ok c r u i) by done. set (doc := share c r).
  destruct Hr as (Hl & HB & _). unfold mbind at 1, M_bind at 1, lift at 1, actualDiff.
  pose proof (mload64_returns (jr_result r) 24 ltac:(lia) ltac:(lia) HB) as H. apply returns_iff in H as (x & -> & _). rewrite ok_bind.
  change (mret (toDiff x) : result Z) with (Ok (toDiff x)). cbv beta iota.
  match goal with |- context [mbind ?f ?m c] => assert (runs (ok false) (mbind f m)) as Hm by by_cases end.
  destruct (Hm c Hc) as (a & c' & e & -> & H'). eauto.
Qed.

(** What follows the reply of the proxy *)
Lemma socks_ready_runs : runs (ok true) (k ← gets socks; match k with Some (mk_socks Ready _) => _ ← modify (set_socks None); handshake E | _ => mret tt end).
Proof.
  intros c Hc. unfold mbind at 1, M_bind at 1, gets at 1. destruct (socks c) as [[[] ?]|]; try by eexists _, _, _.
  unfold mbind at 1, M_bind at 1, modify, handshake, mbind at 1, M_bind at 1, gets at 1. cbn [socks set_socks].
  destruct (login_runs (set_socks None c)) as (a & c' & e & -> & H'); [|by eexists _, _, _]. destruct Hc as [[] ?]. split; [by split|done].
Qed.

Lemma read_runs fresh bytes c : ok false c -> removed c = false -> allowed c (Data fresh bytes) ->
  exists a c' evs, read E fresh bytes c = Ok (a, c', evs) /\ ok false c'.
Proof.
  intros [Hc _] Er Ha. unfold allowed in Ha. rewrite Er in Ha. destruct Ha as (Hf & Hp & (p & Hr & Hfit) & Hk). unfold read, mbind at 1, M_bind at 1, gets at 1.
  destruct (listener c) eqn:Hl; cbn [negb].
  2: { destruct (reconnect_runs false c) as (a & c' & e & -> & H'); [by split|]. eauto. }
  assert (Hc' : ok true c) by by split.
  unfold mbind at 1, M_bind at 1, gets at 1. pose proof (ok_socks _ Hc) as Hs. destruct (socks c) as [k|].
  - destruct Hk as [Hk Hsk]. destruct (socks_read_runs k bytes c) as (a & c1 & e1 & E1 & H1); [by destruct Hs|done|done|].
    unfold mbind at 1, M_bind at 1. rewrite E1. destruct (socks_ready_runs c1 H1) as (a2 & c2 & e2 & -> & [H2 _]). by eexists _, _, _.
  - unfold mbind at 1, M_bind at 1, gets at 1, mbind at 1, M_bind at 1, lift at 1.
    destruct (LineReader.LineReader.parse_ok (reader c) fresh p bytes Hr Hf Hfit) as (r' & evs & -> & Hr' & Hlines).
    match goal with |- context [?m c] => assert (exists a c' e, m c = Ok (a, c', e) /\ ok true c') as (a & c' & e & -> & [H' _]) end; [|by eexists _, _, _].
    unfold mbind at 1, M_bind at 1, modify at 1.
    destruct (parse_lines_runs evs Hp) with (c := set_reader r' c) as (a & c' & e & -> & H').
    + eapply Forall2_Forall_r; [exact Hlines|]. apply Forall_true. eauto.
    + destruct Hc' as [[] ?]. split; [|done]. split; try done. by eexists.
    + by eexists _, _, _.
Qed.

Lemma handle_runs i c : ok false c -> allowed c i -> exists a c' evs, handle E i c = Ok (a, c', evs) /\ ok false c'.
Proof.
  intros Hc Ha. unfold handle, mbind at 1, M_bind at 1, gets at 1. destruct (removed c) eqn:Er.
  { unfold allowed in Ha. rewrite Er in Ha. rewrite Ha. by eexists _, _, _. }
  assert (Hu : forall A (m : M A), (exists a c' evs, m c = Ok (a, c', evs) /\ ok false c') -> exists a c' evs,
    match (_ ← m; mret 0) c with Ok (b, c', e') => Ok (b, c', [] ++ e') | Fault => Fault | OutOfFuel => OutOfFuel end = Ok (a, c', evs) /\ ok false c').
  { intros A m (a & c' & e & Em & H'). unfold mbind, M_bind. rewrite Em. by eexists _, _, _. }
  destruct i; try apply Hu.
  - by apply connect_runs.
  - by apply disconnect_runs.
  - by apply deleteLater_runs.
  - by apply tick_runs.
  - by apply onResolved_runs.
  - apply onConnect_runs; [done|]. intros Hx. unfold allowed in Ha. rewrite Er in Ha. destruct (Ha Hx) as (k & Hk & Ho). split; [by eexists|].
    destruct (listener c) eqn:Hl; [done|]. destruct (ok_gone _ (proj1 Hc) Hl) as [?|Hg]; [congruence|]. by destruct (Hg k Hk).
  - by apply read_runs.
  - by apply read_error_runs.
  - by apply onClose_runs.
  - unfold allowed in Ha. rewrite Er in Ha. destruct (submit_runs r Ha c Hc) as (a & c' & e & -> & H'). by eexists _, _, _.
Qed.

End Handlers.

(** A history in which every call is allowed when it comes. *)
Fixpoint allowed_history (l : list (env * call)) (c : client) : Prop :=
  match l with
  | [] => True
  | (E, i) :: l => allowed E c i /\ forall n c' evs, handle E i c = Ok (n, c', evs) -> allowed_history l c'
  end.


(** ** An instance *)

Definition subscribed : json := JObject [(lit "id", JNumber 1); (lit "result", JObject [])].

Definition fresh_client : client :=
  mk_client (mk_conn UnconnectedState None 0 0 0 [] [] 0) (mk_sess None [] false false ∅ ∅ 0 Job.Job.empty)
    (some_conf (lit "lmt:a")) 3 (replicate 1024 0) LineReader.LineReader.initial None true false.

Lemma fresh_client_ok : client_ok fresh_client.
Proof.
  split; [|by eexists|by eexists|by vm_compute|by exists []|done| |done].
  - unfold buf_ok. cbn [sendBuf fresh_client]. unfold msize. rewrite length_replicate. lia.
  - split; [done|done|done|by intros k ?%elem_of_nil|]. intros k [?|[?%elem_of_nil|?%elem_of_nil]]; done.
Qed.

Lemma subscribed_polite : polite_reader (some_env subscribed).
Proof. intros text doc [= <-]. repeat split; try done. Qed.

(** A connection, its first reply, and its end *)
Definition some_calls (fresh : mem) : list (env * call) :=
  [(some_env JNull, Connect); (some_env JNull, Resolved true 0); (some_env JNull, ConnectDone 0); (some_env JNull, Tick 500);
   (some_env subscribed, Data fresh some_line); (some_env JNull, ReadError); (some_env JNull, CloseDone)].


(** ** The conditions are needed *)

Lemma ping_overread E c : c_state (cn c) = ConnectedState -> is_Some (c_socket (cn c)) -> writable E = true -> buf_ok c ->
  msize (sendBuf c) < msize (ping_line c) -> ping E c = Fault.
Proof.
  intros Hs Hk Hw Hb Hl. destruct (ping_sends E c Hb) as (b & Hbl & ->).
  unfold mbind at 1, M_bind at 1, send_size, mbind at 1, M_bind at 1, gets at 1.
  change (c_state (cn (set_sendBuf b c))) with (c_state (cn c)). rewrite Hs.
  change (negb (is_state ConnectedState ConnectedState)) with false. cbv match. rewrite stream_step, Hw by done. cbn [negb].
  unfold mbind at 1, M_bind at 1, gets at 1, mbind at 1, M_bind at 1, lift at 1.
  replace (mload (sendBuf (set_sendBuf b c)) 0 (msize (ping_line c))) with (@Fault mem); [done|].
  change (sendBuf (set_sendBuf b c)) with b. unfold mload. rewrite (proj2 (Z.leb_gt (0 + msize (ping_line c)) (msize b))) by lia.
  by rewrite !andb_false_r.
Qed.

Lemma ping_fits E c : is_Some (c_socket (cn c)) -> buf_ok c -> msize (ping_line c) <= msize (sendBuf c) -> exists a c' evs, ping E c = Ok (a, c', evs).
Proof.
  intros Hk Hb Ht. destruct (ping_sends E c Hb) as (b & Hbl & ->).
  unfold mbind at 1, M_bind at 1, send_size, mbind at 1, M_bind at 1, gets at 1.
  destruct (negb (is_state _ _)); [by eexists _, _, _|]. rewrite stream_step by done. destruct (negb (writable E)); [by eexists _, _, _|].
  unfold mbind at 1, M_bind at 1, gets at 1, mbind at 1, M_bind at 1, lift.
  rewrite mload_ok by (try change (sendBuf (set_sendBuf b c)) with b; unfold msize in *; lia).
  unfold mbind at 1, M_bind at 1, write. rewrite stream_step by done.
  assert (forall x : mem, runs (fun _ => True) (if u64 (try_write E x) =? msize x then _ ← emit (Written x); mret true else _ ← close E; mret false)) as Hr.
  { intros x. unfold close, setState. runs; by apply runs_modify. }
  match goal with |- context [if u64 (try_write E ?x) =? _ then _ else _] => destruct (Hr x (set_sendBuf b c) I) as (okw & c1 & e1 & -> & _) end.
  destruct okw; by eexists _, _, _.
Qed.

(** An error object without a message. *)
Definition mute_error (i : Z) : json := JObject [(lit "id", JNumber i); (lit "error", JObject [])].

Lemma dispatch_mute_error E i : isInt64 i = true -> dispatch E (mute_error i) = parseResponse E i JNull (JObject []).
Proof.
  intros Hi. unfold dispatch.
  replace (getValue (mute_error i) "id") with (JNumber i) by reflexivity.
  replace (getValue (mute_error i) "error") with (JObject []) by reflexivity.
  replace (getValue (mute_error i) "result") with JNull by reflexivity.
  replace (getString (mute_error i) "method") with (@None mem) by reflexivity. by rewrite Hi.
Qed.

Lemma parseResponse_mute_error E i c : i ∉ s_callbacks (ss c) -> parseResponse E i JNull (JObject []) c = Fault.
Proof.
  intros Hi. unfold parseResponse, mbind at 1, M_bind at 1, handleResponse.
  destruct (i =? 1); [done|]. unfold mbind at 1, M_bind at 1, gets at 1. by rewrite bool_decide_eq_false_2.
Qed.

Lemma setTarget_zero j : id_eqb (m_algorithm j) RX_YADA = false -> setTarget j (Some (lit "00000000")) = Fault.
Proof. intros Ha. unfold setTarget, parse_target. rewrite Ha. reflexivity. Qed.

(** None of the conditions on the pool can be dropped: a
    ping with an identifier that is too long for the send buffer writes bytes behind
    the buffer to the pool, an error without a message is undefined, and so is a
    target of four zero bytes; nor the one on the loop, as a connection that is
    reported without a socket is undefined. *)
Theorem hostile_pool_faults :
  (forall E c, c_state (cn c) = ConnectedState -> is_Some (c_socket (cn c)) -> writable E = true -> buf_ok c ->
     (ping E c = Fault <-> msize (sendBuf c) < msize (ping_line c))) /\
  (forall E c i, isInt64 i = true -> i ∉ s_callbacks (ss c) -> dispatch E (mute_error i) c = Fault) /\
  (forall j, id_eqb (m_algorithm j) RX_YADA = false -> setTarget j (Some (lit "00000000")) = Fault) /\
  (forall E c, c_state (cn c) <> ConnectedState -> c_socket (cn c) = None -> onConnect E 0 c = Fault).
Proof.
  split_and!.
  - intros E c Hs Hk Hw Hb. split; [|by apply ping_overread]. intros HF. apply Z.nle_gt. intros Hl.
    destruct (ping_fits E c Hk Hb Hl) as (a & c' & evs & HO). by rewrite HO in HF.
  - intros E c i Hi Hc. rewrite dispatch_mute_error by done. by apply parseResponse_mute_error.
  - apply setTarget_zero.
  - intros E c Hs Hk. unfold onConnect, mbind at 1, M_bind at 1, gets at 1. change (0 <? 0) with false. cbv match. rewrite is_state_ne by done.
    unfold setState, mbind, M_bind, gets. rewrite is_state_ne by done. unfold modify, stream, mbind, M_bind, gets. cbn. by rewrite Hk.
Qed.

Lemma hostile_pool_faults_witness : 
  ping (some_env JNull) (some_client (Some (replicate 1000 97)) false) = Fault /\
  dispatch (some_env JNull) (mute_error 7) (some_client None false) = Fault /\
  setTarget Job.Job.empty (Some (lit "00000000")) = Fault.
Proof.
  destruct hostile_pool_faults as (H1 & H2 & H3 & _). split; [|split].
  - apply H1; [reflexivity|by eexists|reflexivity|split; vm_compute; done|vm_compute; reflexivity].
  - apply H2; [reflexivity|]. apply not_elem_of_empty.
  - apply H3. reflexivity.
Defined.

End ClientSafety.
