(* ===== verification/Bytecode.v ===== *)
(** * The bytecode machine (crypto/randomx/bytecode_machine.hpp, bytecode_machine.cpp)

    The compiler from the 8-byte instructions of a random program to the
    interpreter's bytecode and the execution of that bytecode.  Operand
    pointers are locations ([loc]); an entry of the bytecode array is updated
    in place, so the fields a case of the compiler does not assign keep what
    the previous program left in them. *)
From Stdlib Require Import ZArith Lia.
From stdpp Require Import base numbers list.
From S2P Require Import Prelude Reciprocal Memory Instruction Config Float64.
Import Config.Config Float64.Float64 Reciprocal.Reciprocal Instruction.Instruction.
Open Scope Z_scope.

Module Bytecode.

(** ** Data *)

(** A 128-bit vector of two doubles, [(lo, hi)]. *)
Definition rx_vec_f128 : Type := Z * Z.

Record NativeRegisterFile := mk_nreg {
  r : list Z; f : list rx_vec_f128; e : list rx_vec_f128; a : list rx_vec_f128 }.

(** What an operand pointer points at: a register, the constant [zero], or
    the immediate of the entry itself. *)
Inductive loc := L_r (i : Z) | L_f (i : Z) | L_e (i : Z) | L_a (i : Z) | L_zero | L_imm.

Record InstructionByteCode := mk_ibc {
  bdst : loc; bsrc : loc; imm : Z; type : InstructionType; target_shift : Z; memMask : Z }.

(** The union of [int16_t target] and [uint16_t shift]. *)
Definition target (b : InstructionByteCode) : Z :=
  if target_shift b <? 2 ^ 15 then target_shift b else target_shift b - 2 ^ 16.
Definition shift (b : InstructionByteCode) : Z := target_shift b.

Definition set_dst (l : loc) (b : InstructionByteCode) : InstructionByteCode :=
  mk_ibc l (bsrc b) (imm b) (type b) (target_shift b) (memMask b).
Definition set_src (l : loc) (b : InstructionByteCode) : InstructionByteCode :=
  mk_ibc (bdst b) l (imm b) (type b) (target_shift b) (memMask b).
Definition set_imm (x : Z) (b : InstructionByteCode) : InstructionByteCode :=
  mk_ibc (bdst b) (bsrc b) x (type b) (target_shift b) (memMask b).
Definition set_type (t : InstructionType) (b : InstructionByteCode) : InstructionByteCode :=
  mk_ibc (bdst b) (bsrc b) (imm b) t (target_shift b) (memMask b).
Definition set_ts (x : Z) (b : InstructionByteCode) : InstructionByteCode :=
  mk_ibc (bdst b) (bsrc b) (imm b) (type b) (u16 x) (memMask b).
Definition set_mask (m : Z) (b : InstructionByteCode) : InstructionByteCode :=
  mk_ibc (bdst b) (bsrc b) (imm b) (type b) (target_shift b) m.

Definition RegistersCount : Z := 8.
Definition RegisterCountFlt : Z := 4.
Definition RegisterNeedsDisplacement : Z := 5.
Definition StoreL3Condition : Z := 14.

(** ** Compilation *)

(** The cascade of comparisons on the opcode: the type whose frequency range
    it falls in. *)
Fixpoint opcode_type (c : RandomX_Configuration) (l : list InstructionType) (op : Z)
    : option InstructionType :=
  match l with
  | [] => None
  | t :: l => if op <? RANDOMX_FREQ c t then Some t else opcode_type c l (op - RANDOMX_FREQ c t)
  end.

Abbreviation usage := (list Z) (only parsing).
Abbreviation compiled := (result (InstructionByteCode * list Z)) (only parsing).

Section Compile.
Context (c : RandomX_Configuration).
Implicit Types (instr : Instruction) (i : Z) (ibc : InstructionByteCode) (registerUsage : usage).

Definition compile_IADD_RS instr i ibc registerUsage : compiled :=
  let dst := dst instr mod RegistersCount in
  let src := src instr mod RegistersCount in
  let ibc := set_dst (L_r dst) (set_type IADD_RS ibc) in
  let ibc :=
    if negb (dst =? RegisterNeedsDisplacement) then
      set_imm 0 (set_ts (getModShift instr) (set_src (L_r src) ibc))
    else
      set_imm (signExtend2sCompl (getImm32 instr)) (set_ts (getModShift instr) (set_src (L_r src) ibc)) in
  registerUsage ← aset registerUsage dst i;
  mret (ibc, registerUsage).

(** The [_M] cases of the integer group, which differ in the type only. *)
Definition compile_int_M t instr i ibc registerUsage : compiled :=
  let dst := dst instr mod RegistersCount in
  let src := src instr mod RegistersCount in
  let ibc := set_imm (signExtend2sCompl (getImm32 instr)) (set_dst (L_r dst) (set_type t ibc)) in
  ibc ← (if negb (src =? dst) then
           m ← aget (AddressMask c) (getModMem instr);
           mret (set_mask m (set_src (L_r src) ibc))
         else mret (set_mask (ScratchpadL3Mask c) (set_src L_zero ibc)));
  registerUsage ← aset registerUsage dst i;
  mret (ibc, registerUsage).

(** ISUB_R, IMUL_R and IXOR_R: the immediate replaces an operand equal to the
    destination. *)
Definition compile_int_R t instr i ibc registerUsage : compiled :=
  let dst := dst instr mod RegistersCount in
  let src := src instr mod RegistersCount in
  let ibc := set_dst (L_r dst) (set_type t ibc) in
  let ibc :=
    if negb (src =? dst) then set_src (L_r src) ibc
    else set_src L_imm (set_imm (signExtend2sCompl (getImm32 instr)) ibc) in
  registerUsage ← aset registerUsage dst i;
  mret (ibc, registerUsage).

(** IMULH_R and ISMULH_R. *)
Definition compile_mulh_R t instr i ibc registerUsage : compiled :=
  let dst := dst instr mod RegistersCount in
  let src := src instr mod RegistersCount in
  let ibc := set_src (L_r src) (set_dst (L_r dst) (set_type t ibc)) in
  registerUsage ← aset registerUsage dst i;
  mret (ibc, registerUsage).

Definition compile_IMUL_RCP instr i ibc registerUsage : compiled :=
  let divisor := getImm32 instr in
  if negb (isZeroOrPowerOf2 divisor) then
    let dst := dst instr mod RegistersCount in
    let ibc := set_src L_imm (set_imm (randomx_reciprocal divisor) (set_dst (L_r dst) (set_type IMUL_R ibc))) in
    registerUsage ← aset registerUsage dst i;
    mret (ibc, registerUsage)
  else mret (set_type NOP ibc, registerUsage).

Definition compile_INEG_R instr i ibc registerUsage : compiled :=
  let dst := dst instr mod RegistersCount in
  registerUsage ← aset registerUsage dst i;
  mret (set_dst (L_r dst) (set_type INEG_R ibc), registerUsage).

(** IROR_R and IROL_R: the immediate is not sign-extended. *)
Definition compile_rot_R t instr i ibc registerUsage : compiled :=
  let dst := dst instr mod RegistersCount in
  let src := src instr mod RegistersCount in
  let ibc := set_dst (L_r dst) (set_type t ibc) in
  let ibc :=
    if negb (src =? dst) then set_src (L_r src) ibc else set_src L_imm (set_imm (getImm32 instr) ibc) in
  registerUsage ← aset registerUsage dst i;
  mret (ibc, registerUsage).

Definition compile_ISWAP_R instr i ibc registerUsage : compiled :=
  let dst := dst instr mod RegistersCount in
  let src := src instr mod RegistersCount in
  if negb (src =? dst) then
    let ibc := set_type ISWAP_R (set_src (L_r src) (set_dst (L_r dst) ibc)) in
    registerUsage ← aset registerUsage dst i;
    registerUsage ← aset registerUsage src i;
    mret (ibc, registerUsage)
  else mret (set_type NOP ibc, registerUsage).

Definition compile_FSWAP_R instr ibc registerUsage : compiled :=
  let dst := dst instr mod RegistersCount in
  let ibc := set_type FSWAP_R ibc in
  mret (if dst <? RegisterCountFlt then set_dst (L_f dst) ibc
        else set_dst (L_e (dst - RegisterCountFlt)) ibc, registerUsage).

(** FADD_R, FSUB_R (on the [f] group) and FMUL_R (on the [e] group). *)
Definition compile_flt_R t (grp : Z -> loc) instr ibc registerUsage : compiled :=
  let dst := dst instr mod RegisterCountFlt in
  let src := src instr mod RegisterCountFlt in
  mret (set_src (L_a src) (set_dst (grp dst) (set_type t ibc)), registerUsage).

(** FADD_M, FSUB_M (on the [f] group) and FDIV_M (on the [e] group). *)
Definition compile_flt_M t (grp : Z -> loc) instr ibc registerUsage : compiled :=
  let dst := dst instr mod RegisterCountFlt in
  let src := src instr mod RegistersCount in
  m ← aget (AddressMask c) (getModMem instr);
  mret (set_imm (signExtend2sCompl (getImm32 instr))
          (set_mask m (set_src (L_r src) (set_dst (grp dst) (set_type t ibc)))), registerUsage).

(** FSCAL_R (on [f]) and FSQRT_R (on [e]). *)
Definition compile_flt_1 t (grp : Z -> loc) instr ibc registerUsage : compiled :=
  let dst := dst instr mod RegisterCountFlt in
  mret (set_dst (grp dst) (set_type t ibc), registerUsage).

Definition compile_CBRANCH instr i ibc registerUsage : compiled :=
  let ibc := set_type CBRANCH ibc in
  let creg := dst instr mod RegistersCount in
  u ← aget registerUsage creg;
  let ibc := set_ts u (set_dst (L_r creg) ibc) in
  let shift := getModCond instr in
  let imm := Z.lor (signExtend2sCompl (getImm32 instr)) (shl64 (shl64 1 JumpOffset) shift) in
  let imm := Z.land imm (not64 (shl64 (shl64 1 (JumpOffset - 1)) shift)) in
  let ibc := set_mask (u32 (Z.shiftl ConditionMask shift)) (set_imm imm ibc) in
  mret (ibc, replicate (Z.to_nat RegistersCount) i).

Definition compile_CFROUND instr ibc registerUsage : compiled :=
  let src := src instr mod RegistersCount in
  mret (set_imm (Z.land (getImm32 instr) 63) (set_type CFROUND (set_src (L_r src) ibc)), registerUsage).

Definition compile_ISTORE instr ibc registerUsage : compiled :=
  let dst := dst instr mod RegistersCount in
  let src := src instr mod RegistersCount in
  let ibc := set_imm (signExtend2sCompl (getImm32 instr))
               (set_src (L_r src) (set_dst (L_r dst) (set_type ISTORE ibc))) in
  m ← (if getModCond instr <? StoreL3Condition then aget (AddressMask c) (getModMem instr)
       else mret (ScratchpadL3Mask c));
  mret (set_mask m ibc, registerUsage).

Definition compileInstruction instr i ibc registerUsage : compiled :=
  match opcode_type c all_types (opcode instr) with
  | Some IADD_RS => compile_IADD_RS instr i ibc registerUsage
  | Some ((IADD_M | ISUB_M | IMUL_M | IMULH_M | ISMULH_M | IXOR_M) as t) =>
      compile_int_M t instr i ibc registerUsage
  | Some ((ISUB_R | IMUL_R | IXOR_R) as t) => compile_int_R t instr i ibc registerUsage
  | Some ((IMULH_R | ISMULH_R) as t) => compile_mulh_R t instr i ibc registerUsage
  | Some IMUL_RCP => compile_IMUL_RCP instr i ibc registerUsage
  | Some INEG_R => compile_INEG_R instr i ibc registerUsage
  | Some ((IROR_R | IROL_R) as t) => compile_rot_R t instr i ibc registerUsage
  | Some ISWAP_R => compile_ISWAP_R instr i ibc registerUsage
  | Some FSWAP_R => compile_FSWAP_R instr ibc registerUsage
  | Some ((FADD_R | FSUB_R) as t) => compile_flt_R t L_f instr ibc registerUsage
  | Some ((FADD_M | FSUB_M) as t) => compile_flt_M t L_f instr ibc registerUsage
  | Some FSCAL_R => compile_flt_1 FSCAL_R L_f instr ibc registerUsage
  | Some FMUL_R => compile_flt_R FMUL_R L_e instr ibc registerUsage
  | Some FDIV_M => compile_flt_M FDIV_M L_e instr ibc registerUsage
  | Some FSQRT_R => compile_flt_1 FSQRT_R L_e instr ibc registerUsage
  | Some CBRANCH => compile_CBRANCH instr i ibc registerUsage
  | Some CFROUND => compile_CFROUND instr ibc registerUsage
  | Some ISTORE => compile_ISTORE instr ibc registerUsage
  | Some NOP => mret (set_type NOP ibc, registerUsage)
  | None => Fault
  end.

Definition beginCompilation : usage := replicate (Z.to_nat RegistersCount) (-1).

(** The loop of [compileProgram], [n] instructions from [i] on. *)
Fixpoint compile_loop (n : nat) (i : Z) (program : list Instruction) (bytecode : list InstructionByteCode)
    (registerUsage : usage) : result (list InstructionByteCode * usage) :=
  match n with
  | O => mret (bytecode, registerUsage)
  | S n =>
      instr ← aget program i;
      ibc ← aget bytecode i;
      '(ibc, registerUsage) ← compileInstruction instr i ibc registerUsage;
      bytecode ← aset bytecode i ibc;
      compile_loop n (i + 1) program bytecode registerUsage
  end.

Definition compileProgram (program : list Instruction) (bytecode : list InstructionByteCode)
    : result (list InstructionByteCode) :=
  '(bytecode, _) ← compile_loop (Z.to_nat (ProgramSize c)) 0 program bytecode beginCompilation;
  mret bytecode.

End Compile.

(** ** Execution *)

(** What an instruction acts on: the register file the operand pointers point
    into, the scratchpad, and the floating point rounding mode. *)
Record machine := mk_machine { nreg : NativeRegisterFile; scratchpad : mem; fprc : Z }.

Definition with_r (x : list Z) (m : machine) : machine :=
  mk_machine (mk_nreg x (f (nreg m)) (e (nreg m)) (a (nreg m))) (scratchpad m) (fprc m).
Definition with_f (x : list rx_vec_f128) (m : machine) : machine :=
  mk_machine (mk_nreg (r (nreg m)) x (e (nreg m)) (a (nreg m))) (scratchpad m) (fprc m).
Definition with_e (x : list rx_vec_f128) (m : machine) : machine :=
  mk_machine (mk_nreg (r (nreg m)) (f (nreg m)) x (a (nreg m))) (scratchpad m) (fprc m).
Definition with_scratchpad (x : mem) (m : machine) : machine := mk_machine (nreg m) x (fprc m).
Definition with_fprc (x : Z) (m : machine) : machine := mk_machine (nreg m) (scratchpad m) x.

(** Dereferencing an operand: [*ibc.isrc], [*ibc.idst = x], [*ibc.fsrc],
    [*ibc.fdst = x]. *)
Definition iget (ibc : InstructionByteCode) (m : machine) (l : loc) : result Z :=
  match l with
  | L_r i => aget (r (nreg m)) i
  | L_zero => Ok 0
  | L_imm => Ok (imm ibc)
  | _ => Fault
  end.
Definition iset (m : machine) (l : loc) (x : Z) : result machine :=
  match l with L_r i => r' ← aset (r (nreg m)) i x; mret (with_r r' m) | _ => Fault end.
Definition fget (m : machine) (l : loc) : result rx_vec_f128 :=
  match l with
  | L_f i => aget (f (nreg m)) i
  | L_e i => aget (e (nreg m)) i
  | L_a i => aget (a (nreg m)) i
  | _ => Fault
  end.
Definition fset (m : machine) (l : loc) (x : rx_vec_f128) : result machine :=
  match l with
  | L_f i => f' ← aset (f (nreg m)) i x; mret (with_f f' m)
  | L_e i => e' ← aset (e (nreg m)) i x; mret (with_e e' m)
  | _ => Fault
  end.

(** The vector operations of intrin_portable.h. *)
Definition vmap2 (op : Z -> Z -> Z) (x y : rx_vec_f128) : rx_vec_f128 := (op x.1 y.1, op x.2 y.2).
Definition rx_swap_vec_f128 (x : rx_vec_f128) : rx_vec_f128 := (x.2, x.1).
Definition rx_set1_vec_f128 (x : Z) : rx_vec_f128 := (x, x).
Definition rx_xor_vec_f128 : rx_vec_f128 -> rx_vec_f128 -> rx_vec_f128 := vmap2 Z.lxor.
Definition rx_and_vec_f128 : rx_vec_f128 -> rx_vec_f128 -> rx_vec_f128 := vmap2 Z.land.
Definition rx_or_vec_f128 : rx_vec_f128 -> rx_vec_f128 -> rx_vec_f128 := vmap2 Z.lor.
Definition rx_add_vec_f128 (mode : Z) : rx_vec_f128 -> rx_vec_f128 -> rx_vec_f128 := vmap2 (f_add mode).
Definition rx_sub_vec_f128 (mode : Z) : rx_vec_f128 -> rx_vec_f128 -> rx_vec_f128 := vmap2 (f_sub mode).
Definition rx_mul_vec_f128 (mode : Z) : rx_vec_f128 -> rx_vec_f128 -> rx_vec_f128 := vmap2 (f_mul mode).
Definition rx_div_vec_f128 (mode : Z) : rx_vec_f128 -> rx_vec_f128 -> rx_vec_f128 := vmap2 (f_div mode).
Definition rx_sqrt_vec_f128 (mode : Z) (x : rx_vec_f128) : rx_vec_f128 := (f_sqrt mode x.1, f_sqrt mode x.2).
Definition rx_cvt_packed_int_vec_f128 (s : mem) (addr : Z) : result rx_vec_f128 :=
  lo ← mload32 s addr;
  hi ← mload32 s (addr + 4);
  mret (f_of_int32 (s32 lo), f_of_int32 (s32 hi)).

Definition dynamicMantissaMask : Z := 2 ^ 56 - 1.

(** [config.eMask], the only part of the program configuration used here. *)
Definition maskRegisterExponentMantissa (eMask x : rx_vec_f128) : rx_vec_f128 :=
  rx_or_vec_f128 (rx_and_vec_f128 x (rx_set1_vec_f128 dynamicMantissaMask)) eMask.

Definition getScratchpadAddress (ibc : InstructionByteCode) (m : machine) : result Z :=
  x ← iget ibc m (bsrc ibc);
  mret (u32 (Z.land (add64 x (imm ibc)) (memMask ibc))).

(** [*ibc.idst = op( *ibc.idst, *ibc.isrc)], and the same with a 64-bit word of
    the scratchpad as the second operand. *)
Definition upd_R (op : Z -> Z -> Z) (ibc : InstructionByteCode) (m : machine) : result machine :=
  d ← iget ibc m (bdst ibc);
  s ← iget ibc m (bsrc ibc);
  iset m (bdst ibc) (op d s).
Definition upd_M (op : Z -> Z -> Z) (ibc : InstructionByteCode) (m : machine) : result machine :=
  d ← iget ibc m (bdst ibc);
  addr ← getScratchpadAddress ibc m;
  s ← mload64 (scratchpad m) addr;
  iset m (bdst ibc) (op d s).

Definition exe_IADD_RS ibc m := upd_R (fun d s => add64 d (add64 (shl64 s (shift ibc)) (imm ibc))) ibc m.
Definition exe_IADD_M ibc m := upd_M add64 ibc m.
Definition exe_ISUB_R ibc m := upd_R sub64 ibc m.
Definition exe_ISUB_M ibc m := upd_M sub64 ibc m.
Definition exe_IMUL_R ibc m := upd_R mul64 ibc m.
Definition exe_IMUL_M ibc m := upd_M mul64 ibc m.
Definition exe_IMULH_R ibc m := upd_R mulh ibc m.
Definition exe_IMULH_M ibc m := upd_M mulh ibc m.
Definition exe_ISMULH_R ibc m := upd_R smulh ibc m.
Definition exe_ISMULH_M ibc m := upd_M smulh ibc m.
Definition exe_INEG_R ibc m :=
  d ← iget ibc m (bdst ibc);
  iset m (bdst ibc) (add64 (not64 d) 1).
Definition exe_IXOR_R ibc m := upd_R Z.lxor ibc m.
Definition exe_IXOR_M ibc m := upd_M Z.lxor ibc m.
Definition exe_IROR_R ibc m := upd_R (fun d s => rotr64 d (Z.land s 63)) ibc m.
Definition exe_IROL_R ibc m := upd_R (fun d s => rotl64 d (Z.land s 63)) ibc m.
Definition exe_ISWAP_R ibc m :=
  temp ← iget ibc m (bsrc ibc);
  d ← iget ibc m (bdst ibc);
  m ← iset m (bsrc ibc) d;
  iset m (bdst ibc) temp.

(** [*ibc.fdst = op( *ibc.fdst, x)] *)
Definition upd_F (op : rx_vec_f128 -> rx_vec_f128) (ibc : InstructionByteCode) (m : machine)
    : result machine :=
  d ← fget m (bdst ibc);
  fset m (bdst ibc) (op d).

Definition exe_FSWAP_R ibc m := upd_F rx_swap_vec_f128 ibc m.
Definition exe_FADD_R ibc m :=
  s ← fget m (bsrc ibc);
  upd_F (fun d => rx_add_vec_f128 (fprc m) d s) ibc m.
Definition exe_FADD_M ibc m :=
  addr ← getScratchpadAddress ibc m;
  fsrc ← rx_cvt_packed_int_vec_f128 (scratchpad m) addr;
  upd_F (fun d => rx_add_vec_f128 (fprc m) d fsrc) ibc m.
Definition exe_FSUB_R ibc m :=
  s ← fget m (bsrc ibc);
  upd_F (fun d => rx_sub_vec_f128 (fprc m) d s) ibc m.
Definition exe_FSUB_M ibc m :=
  addr ← getScratchpadAddress ibc m;
  fsrc ← rx_cvt_packed_int_vec_f128 (scratchpad m) addr;
  upd_F (fun d => rx_sub_vec_f128 (fprc m) d fsrc) ibc m.
Definition exe_FSCAL_R ibc m :=
  upd_F (fun d => rx_xor_vec_f128 d (rx_set1_vec_f128 0x80F0000000000000)) ibc m.
Definition exe_FMUL_R ibc m :=
  s ← fget m (bsrc ibc);
  upd_F (fun d => rx_mul_vec_f128 (fprc m) d s) ibc m.
Definition exe_FDIV_M (eMask : rx_vec_f128) ibc m :=
  addr ← getScratchpadAddress ibc m;
  x ← rx_cvt_packed_int_vec_f128 (scratchpad m) addr;
  let fsrc := maskRegisterExponentMantissa eMask x in
  upd_F (fun d => rx_div_vec_f128 (fprc m) d fsrc) ibc m.
Definition exe_FSQRT_R ibc m := upd_F (rx_sqrt_vec_f128 (fprc m)) ibc m.

Definition exe_CBRANCH ibc (pc : Z) m : result (machine * Z) :=
  d ← iget ibc m (bdst ibc);
  m ← iset m (bdst ibc) (add64 d (imm ibc));
  d ← iget ibc m (bdst ibc);
  mret (m, if Z.land d (memMask ibc) =? 0 then target ibc else pc).
Definition exe_CFROUND ibc m : result machine :=
  s ← iget ibc m (bsrc ibc);
  mret (with_fprc (rotr64 s (u32 (imm ibc)) mod 4) m).
Definition exe_ISTORE ibc m : result machine :=
  d ← iget ibc m (bdst ibc);
  s ← iget ibc m (bsrc ibc);
  pad ← mstore64 (scratchpad m) (Z.land (add64 d (imm ibc)) (memMask ibc)) s;
  mret (with_scratchpad pad m).

(** The switch, for the instructions that leave [pc] alone. *)
Definition execute_straight (eMask : rx_vec_f128) ibc m : result machine :=
  match type ibc with
  | IADD_RS => exe_IADD_RS ibc m
  | IADD_M => exe_IADD_M ibc m
  | ISUB_R => exe_ISUB_R ibc m
  | ISUB_M => exe_ISUB_M ibc m
  | IMUL_R => exe_IMUL_R ibc m
  | IMUL_M => exe_IMUL_M ibc m
  | IMULH_R => exe_IMULH_R ibc m
  | IMULH_M => exe_IMULH_M ibc m
  | ISMULH_R => exe_ISMULH_R ibc m
  | ISMULH_M => exe_ISMULH_M ibc m
  | INEG_R => exe_INEG_R ibc m
  | IXOR_R => exe_IXOR_R ibc m
  | IXOR_M => exe_IXOR_M ibc m
  | IROR_R => exe_IROR_R ibc m
  | IROL_R => exe_IROL_R ibc m
  | ISWAP_R => exe_ISWAP_R ibc m
  | FSWAP_R => exe_FSWAP_R ibc m
  | FADD_R => exe_FADD_R ibc m
  | FADD_M => exe_FADD_M ibc m
  | FSUB_R => exe_FSUB_R ibc m
  | FSUB_M => exe_FSUB_M ibc m
  | FSCAL_R => exe_FSCAL_R ibc m
  | FMUL_R => exe_FMUL_R ibc m
  | FDIV_M => exe_FDIV_M eMask ibc m
  | FSQRT_R => exe_FSQRT_R ibc m
  | CFROUND => exe_CFROUND ibc m
  | ISTORE => exe_ISTORE ibc m
  | NOP => mret m
  | CBRANCH | IMUL_RCP => Fault
  end.

Definition executeInstruction (eMask : rx_vec_f128) ibc (pc : Z) m : result (machine * Z) :=
  match type ibc with
  | CBRANCH => exe_CBRANCH ibc pc m
  | _ => m ← execute_straight eMask ibc m; mret (m, pc)
  end.

Fixpoint executeBytecode (fuel : nat) (size : Z) (eMask : rx_vec_f128)
    (bytecode : list InstructionByteCode) (pc : Z) (m : machine) : result machine :=
  match fuel with
  | O => OutOfFuel
  | S fuel =>
      if pc <? size then
        ibc ← aget bytecode pc;
        '(m, pc) ← executeInstruction eMask ibc pc m;
        executeBytecode fuel size eMask bytecode (pc + 1) m
      else mret m
  end.

End Bytecode.
