(* ===== verification/BytecodeProofs.v ===== *)
(** * Correctness of the bytecode machine

    Every program compiles; the bytecode of any program runs to completion
    within [3 * ProgramSize] instructions, without an access outside the
    register file or the scratchpad; and what it computes does not depend on
    the bytecode array's previous contents. *)
From Stdlib Require Import ZArith Lia.
From stdpp Require Import base numbers sets list.
From S2P Require Import Prelude Reciprocal Memory Instruction SoftAes Config Float64 Bytecode.
Import Config.Config Float64.Float64 Reciprocal.Reciprocal Instruction.Instruction Bytecode.Bytecode.
Open Scope Z_scope.

Module BytecodeProofs.

(** ** Well-formed machines and bytecode *)

Definition fvec_ok (x : rx_vec_f128) : Prop := is_u64 x.1 /\ is_u64 x.2.

Record machine_ok (size : Z) (m : machine) : Prop := {
  mo_r : length (r (nreg m)) = 8%nat /\ Forall is_u64 (r (nreg m));
  mo_f : length (f (nreg m)) = 4%nat /\ Forall fvec_ok (f (nreg m));
  mo_e : length (e (nreg m)) = 4%nat /\ Forall fvec_ok (e (nreg m));
  mo_a : length (a (nreg m)) = 4%nat /\ Forall fvec_ok (a (nreg m));
  mo_pad : msize (scratchpad m) = size /\ Forall is_u8 (scratchpad m);
  mo_fprc : 0 <= fprc m < 4 }.

Definition idst_ok (l : loc) : Prop := match l with L_r d => 0 <= d < 8 | _ => False end.
Definition isrc_ok (ibc : InstructionByteCode) (l : loc) : Prop :=
  match l with L_r d => 0 <= d < 8 | L_zero => True | L_imm => is_u64 (imm ibc) | _ => False end.
Definition fdst_ok (l : loc) : Prop := match l with L_f d | L_e d => 0 <= d < 4 | _ => False end.
Definition fsrc_ok (l : loc) : Prop := match l with L_a d => 0 <= d < 4 | _ => False end.
Definition mask_ok (size : Z) (ibc : InstructionByteCode) : Prop := 0 <= memMask ibc <= size - 8.

(** An entry whose execution is defined and falls through. *)
Definition straight_ok (size : Z) (ibc : InstructionByteCode) : Prop :=
  match type ibc with
  | IADD_RS | ISUB_R | IMUL_R | IMULH_R | ISMULH_R | IXOR_R | IROR_R | IROL_R =>
      idst_ok (bdst ibc) /\ isrc_ok ibc (bsrc ibc)
  | IADD_M | ISUB_M | IMUL_M | IMULH_M | ISMULH_M | IXOR_M | ISTORE =>
      idst_ok (bdst ibc) /\ isrc_ok ibc (bsrc ibc) /\ mask_ok size ibc
  | INEG_R => idst_ok (bdst ibc)
  | ISWAP_R => idst_ok (bdst ibc) /\ idst_ok (bsrc ibc)
  | FSWAP_R | FSCAL_R | FSQRT_R => fdst_ok (bdst ibc)
  | FADD_R | FSUB_R | FMUL_R => fdst_ok (bdst ibc) /\ fsrc_ok (bsrc ibc)
  | FADD_M | FSUB_M | FDIV_M => fdst_ok (bdst ibc) /\ isrc_ok ibc (bsrc ibc) /\ mask_ok size ibc
  | CFROUND => isrc_ok ibc (bsrc ibc)
  | NOP => True
  | CBRANCH | IMUL_RCP => False
  end.

Definition reg_of (l : loc) : list Z := match l with L_r d => [d] | _ => [] end.

(** The integer registers an entry writes. *)
Definition writes (ibc : InstructionByteCode) : list Z :=
  match type ibc with
  | IADD_RS | ISUB_R | IMUL_R | IMULH_R | ISMULH_R | IXOR_R | IROR_R | IROL_R | INEG_R | CBRANCH
  | IADD_M | ISUB_M | IMUL_M | IMULH_M | ISMULH_M | IXOR_M => reg_of (bdst ibc)
  | ISWAP_R => reg_of (bdst ibc) ++ reg_of (bsrc ibc)
  | _ => []
  end.

(** What an entry may change: the integer registers outside [ws] keep their
    values. *)
Definition frame (ws : list Z) (m m' : machine) : Prop :=
  forall k, 0 <= k -> k ∉ ws -> r (nreg m') !! Z.to_nat k = r (nreg m) !! Z.to_nat k.

(** ** Execution of straight-line entries *)

Section Straight.
Context (size : Z) (Hsize : 64 <= size < 2 ^ 32).

Lemma iget_ok ibc m l : machine_ok size m -> isrc_ok ibc l -> returns (iget ibc m l) is_u64.
Proof.
  intros [[Hl HF] _ _ _ _ _]. destruct l; simpl; try done.
  intros. apply aget_returns; [lia|done].
Qed.

Lemma idst_isrc ibc l : idst_ok l -> isrc_ok ibc l.
Proof. by destruct l. Qed.

Lemma with_r_ok m r' : machine_ok size m -> length r' = 8%nat -> Forall is_u64 r' ->
  machine_ok size (with_r r' m).
Proof. intros [? ? ? ? ? ?] ? ?. by split. Qed.

Lemma iset_ok m l x : machine_ok size m -> idst_ok l -> is_u64 x ->
  returns (iset m l x) (fun m' => machine_ok size m' /\ frame (reg_of l) m m' /\
    fget m' = fget m /\ scratchpad m' = scratchpad m).
Proof.
  intros Hm Hl Hx. destruct l as [d| | | | |]; try done. simpl in Hl |- *.
  pose proof (mo_r _ _ Hm) as [Hlen HF]. rewrite aset_ok by lia. simpl. split_and!.
  - apply with_r_ok; [done|by rewrite length_insert|by apply Forall_insert].
  - intros k Hk Hn. simpl. rewrite list_lookup_insert_ne; [done|].
    intros E. apply Hn, list_elem_of_singleton. lia.
  - done.
  - done.
Qed.

Lemma fget_ok m l : machine_ok size m -> fdst_ok l \/ fsrc_ok l -> returns (fget m l) fvec_ok.
Proof.
  intros [_ [Hlf Hf] [Hle He] [Hla Ha] _ _]. destruct l; simpl; intros [|]; try done;
    apply aget_returns; done || lia.
Qed.

Lemma fset_ok m l x : machine_ok size m -> fdst_ok l -> fvec_ok x ->
  returns (fset m l x) (fun m' => machine_ok size m' /\ frame [] m m').
Proof.
  intros Hm Hl Hx. destruct l as [|d|d| | |]; try done; simpl in Hl |- *;
  [pose proof (mo_f _ _ Hm) as [Hlen HF]|pose proof (mo_e _ _ Hm) as [Hlen HF]];
    rewrite aset_ok by lia; simpl; (split; [|done]); destruct Hm; split; try done; simpl;
    (split; [by rewrite length_insert|by apply Forall_insert]).
Qed.

Lemma address_ok ibc m : machine_ok size m -> isrc_ok ibc (bsrc ibc) -> mask_ok size ibc ->
  returns (getScratchpadAddress ibc m) (fun ad => 0 <= ad <= size - 8).
Proof.
  intros Hm Hs Hk. unfold getScratchpadAddress. eapply returns_use; [by apply iget_ok|].
  intros x _. simpl. unfold mask_ok in Hk.
  pose proof (land_le_r (add64 x (imm ibc)) (memMask ibc) ltac:(lia)).
  rewrite u32_id by (unfold is_u32; lia). lia.
Qed.

Lemma upd_R_ok op ibc m : machine_ok size m -> (forall d s, is_u64 d -> is_u64 s -> is_u64 (op d s)) ->
  idst_ok (bdst ibc) -> isrc_ok ibc (bsrc ibc) ->
  returns (upd_R op ibc m) (fun m' => machine_ok size m' /\ frame (reg_of (bdst ibc)) m m').
Proof.
  intros Hm Hop Hd Hs. unfold upd_R.
  eapply returns_use; [apply iget_ok; [done|by apply idst_isrc]|]. intros d Hd'.
  eapply returns_use; [by apply iget_ok|]. intros s Hs'.
  eapply returns_mono; [apply iset_ok; auto|]. by intros m' (? & ? & _).
Qed.

Lemma upd_M_ok op ibc m : machine_ok size m -> (forall d s, is_u64 d -> is_u64 s -> is_u64 (op d s)) ->
  idst_ok (bdst ibc) -> isrc_ok ibc (bsrc ibc) -> mask_ok size ibc ->
  returns (upd_M op ibc m) (fun m' => machine_ok size m' /\ frame (reg_of (bdst ibc)) m m').
Proof.
  intros Hm Hop Hd Hs Hk. unfold upd_M.
  eapply returns_use; [apply iget_ok; [done|by apply idst_isrc]|]. intros d Hd'.
  eapply returns_use; [by apply address_ok|]. intros ad Had. cbn beta in Had.
  pose proof (mo_pad _ _ Hm) as [Hp HB].
  eapply returns_use; [apply mload64_returns; done || lia|]. intros s Hs'.
  eapply returns_mono; [apply iset_ok; auto|]. by intros m' (? & ? & _).
Qed.

Lemma upd_F_ok op ibc m : machine_ok size m -> (forall d, fvec_ok d -> fvec_ok (op d)) ->
  fdst_ok (bdst ibc) -> returns (upd_F op ibc m) (fun m' => machine_ok size m' /\ frame [] m m').
Proof.
  intros Hm Hop Hd. unfold upd_F. eapply returns_use; [apply fget_ok; auto|]. intros d Hd'.
  apply fset_ok; auto.
Qed.

Lemma cvt_ok m ad : machine_ok size m -> 0 <= ad <= size - 8 ->
  returns (rx_cvt_packed_int_vec_f128 (scratchpad m) ad) fvec_ok.
Proof.
  intros Hm Had. pose proof (mo_pad _ _ Hm) as [Hp HB]. unfold rx_cvt_packed_int_vec_f128.
  eapply returns_use; [apply mload32_returns; done || lia|]. intros lo _.
  eapply returns_use; [apply mload32_returns; done || lia|]. intros hi _.
  split; apply f_of_int32_range.
Qed.

Lemma vmap2_ok op x y : (forall u v, is_u64 u -> is_u64 v -> is_u64 (op u v)) ->
  fvec_ok x -> fvec_ok y -> fvec_ok (vmap2 op x y).
Proof. intros Hop [] []. split; apply Hop; done. Qed.

Lemma land64_range x y : is_u64 x -> is_u64 y -> is_u64 (Z.land x y).
Proof. unfold is_u64. intros. pose proof (land_le_r x y). lia. Qed.

Lemma mask_reg_ok eMask x : fvec_ok eMask -> fvec_ok x -> fvec_ok (maskRegisterExponentMantissa eMask x).
Proof.
  intros He Hx. apply vmap2_ok; [apply lor64_range| |done].
  apply vmap2_ok; [apply land64_range|done|]. split; unfold is_u64, rx_set1_vec_f128, dynamicMantissaMask; cbn [fst snd]; lia.
Qed.

Lemma rot_range op : (forall x b, is_u64 x -> 0 <= b -> is_u64 (op x b)) ->
  forall d s, is_u64 d -> is_u64 s -> is_u64 (op d (Z.land s 63)).
Proof. intros Hop d s Hd _. apply Hop; [done|]. apply (land_le_r s 63). lia. Qed.

Lemma exe_ISWAP_ok ibc m : machine_ok size m -> idst_ok (bdst ibc) -> idst_ok (bsrc ibc) ->
  returns (exe_ISWAP_R ibc m)
    (fun m' => machine_ok size m' /\ frame (reg_of (bdst ibc) ++ reg_of (bsrc ibc)) m m').
Proof.
  intros Hm Hd Hs. unfold exe_ISWAP_R.
  eapply returns_use; [apply iget_ok; [done|by apply idst_isrc]|]. intros t Ht.
  eapply returns_use; [apply iget_ok; [done|by apply idst_isrc]|]. intros d Hd'.
  eapply returns_use; [apply iset_ok; done|]. intros m1 (Hm1 & Hf1 & _).
  eapply returns_mono; [apply iset_ok; done|]. intros m2 (Hm2 & Hf2 & _). split; [done|].
  intros k Hk Hn. rewrite elem_of_app in Hn. rewrite Hf2, Hf1 by tauto. done.
Qed.

Lemma exe_ISTORE_ok ibc m : machine_ok size m -> idst_ok (bdst ibc) -> isrc_ok ibc (bsrc ibc) ->
  mask_ok size ibc -> returns (exe_ISTORE ibc m) (fun m' => machine_ok size m' /\ frame [] m m').
Proof.
  intros Hm Hd Hs Hk. unfold exe_ISTORE.
  eapply returns_use; [apply iget_ok; [done|by apply idst_isrc]|]. intros d Hd'.
  eapply returns_use; [by apply iget_ok|]. intros s Hs'.
  pose proof (mo_pad _ _ Hm) as [Hp HB]. unfold mask_ok in Hk.
  pose proof (land_le_r (add64 d (imm ibc)) (memMask ibc) ltac:(lia)).
  eapply returns_use; [apply mstore64_returns; done || lia|]. intros pad [Hl' HB'].
  simpl. split; [|done]. destruct Hm. split; try done. simpl. by rewrite Hl'.
Qed.

Lemma exe_CFROUND_ok ibc m : machine_ok size m -> isrc_ok ibc (bsrc ibc) ->
  returns (exe_CFROUND ibc m) (fun m' => machine_ok size m' /\ frame [] m m').
Proof.
  intros Hm Hs. unfold exe_CFROUND. eapply returns_use; [by apply iget_ok|]. intros s _. simpl.
  split; [|done]. destruct Hm. split; try done. simpl. apply Z.mod_pos_bound. lia.
Qed.

Lemma neg_ok ibc m : machine_ok size m -> idst_ok (bdst ibc) ->
  returns (exe_INEG_R ibc m) (fun m' => machine_ok size m' /\ frame (reg_of (bdst ibc)) m m').
Proof.
  intros Hm Hd. unfold exe_INEG_R.
  eapply returns_use; [apply iget_ok; [done|by apply idst_isrc]|]. intros d _.
  eapply returns_mono; [apply iset_ok; auto with word|]. by intros m' (? & ? & _).
Qed.

(** The floating point results are words, whatever the operands. *)
Lemma flt_op_ok op (mode : Z) (s : rx_vec_f128) : (forall u v, is_u64 (op mode u v)) ->
  forall d, fvec_ok d -> fvec_ok (vmap2 (op mode) d s).
Proof. intros Hop d _. split; apply Hop. Qed.

Lemma exe_flt_R_ok op ibc m : machine_ok size m -> (forall mode u v, is_u64 (op mode u v)) ->
  fdst_ok (bdst ibc) -> fsrc_ok (bsrc ibc) ->
  returns (s ← fget m (bsrc ibc); upd_F (fun d => vmap2 (op (fprc m)) d s) ibc m)
    (fun m' => machine_ok size m' /\ frame [] m m').
Proof.
  intros Hm Hop Hd Hs. eapply returns_use; [apply fget_ok; auto|]. intros s _.
  apply upd_F_ok; [done|by apply flt_op_ok|done].
Qed.

Lemma exe_flt_M_ok op g ibc m : machine_ok size m -> (forall mode u v, is_u64 (op mode u v)) ->
  fdst_ok (bdst ibc) -> isrc_ok ibc (bsrc ibc) -> mask_ok size ibc ->
  returns (addr ← getScratchpadAddress ibc m; x ← rx_cvt_packed_int_vec_f128 (scratchpad m) addr;
           upd_F (fun d => vmap2 (op (fprc m)) d (g x)) ibc m)
    (fun m' => machine_ok size m' /\ frame [] m m').
Proof.
  intros Hm Hop Hd Hs Hk. eapply returns_use; [by apply address_ok|]. intros ad Had. cbn beta in Had.
  eapply returns_use; [by apply cvt_ok|]. intros x _.
  apply upd_F_ok; [done|by apply flt_op_ok|done].
Qed.

Lemma execute_straight_ok eMask ibc m : machine_ok size m -> straight_ok size ibc ->
  returns (execute_straight eMask ibc m) (fun m' => machine_ok size m' /\ frame (writes ibc) m m').
Proof.
  intros Hm. unfold straight_ok, execute_straight, writes.
  assert (forall x, is_u64 x -> is_u64 (Z.lxor x 0x80F0000000000000)) as Hx.
  { intros x ?. apply lxor64_range; [done|]. unfold is_u64. lia. }
  destruct (type ibc); intros HO; try done; try (destruct HO as [? HO]); try (destruct HO as [? HO]);
    try (apply upd_R_ok; auto with word; fail);
    try (apply upd_M_ok; auto with word; fail);
    try (apply (exe_flt_R_ok f_add); auto using f_add_range; fail);
    try (apply (exe_flt_R_ok f_sub); auto using f_sub_range; fail);
    try (apply (exe_flt_R_ok f_mul); auto using f_mul_range; fail);
    try (apply (exe_flt_M_ok f_add (fun x => x)); auto using f_add_range; fail);
    try (apply (exe_flt_M_ok f_sub (fun x => x)); auto using f_sub_range; fail);
    try (apply (exe_flt_M_ok f_div (maskRegisterExponentMantissa eMask)); auto using f_div_range; fail).
  - by apply neg_ok.
  - apply upd_R_ok; auto. apply rot_range, rotr64_range.
  - by apply exe_ISWAP_ok.
  - apply upd_F_ok; auto. by intros d [].
  - apply upd_F_ok; auto. intros d []. split; apply Hx; done.
  - apply upd_F_ok; auto. intros d _. split; apply f_sqrt_range.
  - by apply exe_CFROUND_ok.
  - by apply exe_ISTORE_ok.
Qed.

End Straight.

(** ** The conditional branch *)

(** With [W] the weight of the lowest tested bit, the branch adds an immediate
    whose tested field is odd and whose part below [W] is less than [W / 2]. *)
Record branch_imm (s im mask : Z) : Prop := {
  bi_s : 0 <= s < 16;
  bi_u64 : is_u64 im;
  bi_mask : mask = 255 * 2 ^ (8 + s);
  bi_odd : (im / 2 ^ (8 + s)) mod 2 = 1;
  bi_low : 2 * (im mod 2 ^ (8 + s)) < 2 ^ (8 + s) }.

(** The register's bits that matter: those up to the top of the tested field. *)
Definition field (s x : Z) : Z := x mod (256 * 2 ^ (8 + s)).

Lemma land_cond s x : 0 <= s ->
  Z.land x (255 * 2 ^ (8 + s)) = 2 ^ (8 + s) * ((x / 2 ^ (8 + s)) mod 256).
Proof.
  intros Hs.
  replace (255 * 2 ^ (8 + s)) with (Z.shiftl (Z.ones 8) (8 + s)) by (rewrite Z.shiftl_mul_pow2; [done|lia]).
  rewrite Z.mul_comm, <- Z.shiftl_mul_pow2, <- Z.shiftr_div_pow2 by lia.
  change 256 with (2 ^ 8). rewrite <- Z.land_ones, Z.shiftl_land by lia.
  apply Z.bits_inj'. intros i Hi. rewrite !Z.land_spec, !Z.shiftl_spec by lia.
  destruct (Z.lt_ge_cases i (8 + s)).
  - rewrite (Z.testbit_neg_r (Z.ones 8)) by lia. by rewrite !andb_false_r.
  - rewrite Z.shiftr_spec by lia. do 2 f_equal. lia.
Qed.

Lemma land_field s x : 0 <= s -> 0 <= x ->
  (Z.land x (255 * 2 ^ (8 + s)) =? 0) = (field s x <? 2 ^ (8 + s)).
Proof.
  intros Hs Hx. rewrite land_cond by done.
  set (W := 2 ^ (8 + s)). assert (0 < W) by (apply Z.pow_pos_nonneg; lia).
  unfold field. replace (256 * 2 ^ (8 + s)) with (W * 256) by (unfold W; lia).
  rewrite Z.rem_mul_r by lia. pose proof (Z.mod_pos_bound x W ltac:(lia)).
  pose proof (Z.mod_pos_bound (x / W) 256 ltac:(lia)).
  generalize dependent ((x / W) mod 256). intros q Hq. generalize dependent (x mod W). intros l Hl.
  destruct (Z.ltb_spec (l + W * q) W), (Z.eqb_spec (W * q) 0);
    assert (q = 0 \/ 1 <= q) as [?|?] by lia; nia.
Qed.

Lemma field_add s x im : 0 <= s < 16 -> field s (add64 x im) = (field s x + field s im) mod (256 * 2 ^ (8 + s)).
Proof.
  intros Hs. unfold field, add64. rewrite u64_mod, <- Z.add_mod by lia.
  replace (2 ^ 64) with (256 * 2 ^ (8 + s) * 2 ^ (48 - s))
    by (change 256 with (2 ^ 8); rewrite <- !Z.pow_add_r by lia; f_equal; lia).
  rewrite Z.mod_mod_divide; [reflexivity|]. exists (2 ^ (48 - s)). lia.
Qed.

(** What is known of the register after [J] jumps in a row. *)
Definition phase (J s im x : Z) : Prop :=
  J = 0 \/ (J = 1 /\ field s x < 2 ^ (8 + s)) \/ (J = 2 /\ field s x < im mod 2 ^ (8 + s)).

(** The branch is not taken three times in a row. *)
Lemma branch_step J s im mask x : branch_imm s im mask -> is_u64 x -> phase J s im x ->
  Z.land (add64 x im) mask = 0 -> J < 2 /\ phase (J + 1) s im (add64 x im).
Proof.
  unfold phase. intros [Hs Him -> Hodd Hlow] Hx HJ Ht. apply Z.eqb_eq in Ht.
  rewrite land_field in Ht by (lia || apply add64_range). apply Z.ltb_lt in Ht.
  destruct HJ as [->|HJ]; [split; [lia|right; left; split; [lia|done]]|].
  pose proof (field_add s x im Hs) as E.
  assert (0 <= field s x) as Hf by (apply Z.mod_pos_bound; lia).
  set (W := 2 ^ (8 + s)) in *. assert (0 < W) by (apply Z.pow_pos_nonneg; lia).
  assert (field s im = im mod W + W * ((im / W) mod 256)) as Ei.
  { unfold field. fold W. rewrite (Z.mul_comm 256), Z.rem_mul_r by lia. lia. }
  pose proof (Z.mod_pos_bound im W ltac:(lia)) as HL.
  pose proof (Z.mod_pos_bound (im / W) 256 ltac:(lia)) as HF.
  assert (((im / W) mod 256) mod 2 = 1) as HF1.
  { rewrite Z.mod_mod_divide; [done|]. by exists 128. }
  set (L := im mod W) in *. set (F := (im / W) mod 256) in *. set (y := field s x) in *.
  assert (1 <= F) by (destruct (Z.eq_dec F 0) as [E0|]; [rewrite E0 in HF1; done|lia]).
  destruct (Z.lt_ge_cases (y + L) W) as [Hc|Hc].
  - exfalso. rewrite Z.mod_small in E by nia. rewrite E, Ei in Ht. nia.
  - destruct HJ as [[-> Hy]|[-> Hy]]; [|lia]. split; [lia|]. right; right. split; [lia|]. rewrite E, Ei.
    destruct (Z.eq_dec F 255) as [E5|].
    + rewrite E5. assert (y + L - W = (y + (L + W * 255)) mod (256 * W)) as <-; [|lia].
      apply (Z.mod_unique _ _ 1); [left|]; lia.
    + exfalso. rewrite Z.mod_small in E by nia. rewrite E, Ei in Ht. nia.
Qed.

(** A conditional branch on [creg] at position [i]: no entry between its target
    and itself writes [creg] or branches. *)
Record branch_ok (bytecode : list InstructionByteCode) (i : Z) (ibc : InstructionByteCode)
    (creg s : Z) : Prop := {
  br_type : type ibc = CBRANCH;
  br_dst : bdst ibc = L_r creg;
  br_creg : 0 <= creg < 8;
  br_imm : branch_imm s (imm ibc) (memMask ibc);
  br_target : -1 <= target ibc < i;
  br_clear : forall j b, target ibc < j < i -> bytecode !! Z.to_nat j = Some b ->
    type b <> CBRANCH /\ creg ∉ writes b }.

Definition bytecode_ok (size n : Z) (bytecode : list InstructionByteCode) : Prop :=
  forall i, 0 <= i < n -> exists b, bytecode !! Z.to_nat i = Some b /\
    (straight_ok size b \/ exists creg s, branch_ok bytecode i b creg s).

Lemma straight_not_branch size b : straight_ok size b -> type b <> CBRANCH.
Proof. unfold straight_ok. by destruct (type b). Qed.

(** ** Termination *)

Section Loop.
Context (size n : Z) (Hsize : 64 <= size < 2 ^ 32).
Context (eMask : rx_vec_f128) (bytecode : list InstructionByteCode) (HB : bytecode_ok size n bytecode).

Definition no_branch (lo hi : Z) : Prop :=
  forall j b, lo <= j < hi -> bytecode !! Z.to_nat j = Some b -> type b <> CBRANCH.

(** [progress pc m M]: at most [M] instructions are left, counting those up
    to the next branch, its possible repetitions, and three passes over the
    rest. *)
Definition progress (pc : Z) (m : machine) (M : Z) : Prop :=
  (no_branch pc n /\ M = n - pc) \/
  exists b ibc creg s J x, pc <= b < n /\ bytecode !! Z.to_nat b = Some ibc /\
    branch_ok bytecode b ibc creg s /\ no_branch pc b /\ 0 <= J <= 2 /\
    r (nreg m) !! Z.to_nat creg = Some x /\ phase J s (imm ibc) x /\
    (J = 0 \/ target ibc < pc) /\
    M = (b - pc) + (2 - J) * (b - target ibc) + 3 * (n - 1 - b) + 1.

Lemma next_branch k pc : 0 <= pc -> n - pc = Z.of_nat k -> no_branch pc n \/
  exists b ibc creg s, pc <= b < n /\ bytecode !! Z.to_nat b = Some ibc /\
    branch_ok bytecode b ibc creg s /\ no_branch pc b.
Proof.
  revert pc. induction k as [|k IH]; intros pc H0 Hk; [left; intros j b ?; lia|].
  destruct (HB pc ltac:(lia)) as (b & Hb & [Hs|(creg & s & Hbr)]).
  - destruct (IH (pc + 1) ltac:(lia) ltac:(lia)) as [Hn|(b' & ibc & creg & s & Hb' & Hl & Hok & Hn)].
    + left. intros j b' Hj Hl. destruct (Z.eq_dec j pc) as [->|]; [|by apply (Hn j); [lia|]].
      rewrite Hb in Hl. injection Hl as <-. by apply (straight_not_branch size).
    + right. exists b', ibc, creg, s. split_and!; try done; try lia.
      intros j b'' Hj Hl'. destruct (Z.eq_dec j pc) as [->|]; [|by apply (Hn j); [lia|]].
      rewrite Hb in Hl'. injection Hl' as <-. by apply (straight_not_branch size).
  - right. exists pc, b, creg, s. split_and!; try done; try lia. intros j ? ?; lia.
Qed.

Lemma machine_reg m k : machine_ok size m -> 0 <= k < 8 ->
  exists x, r (nreg m) !! Z.to_nat k = Some x /\ is_u64 x.
Proof.
  intros Hm Hk. pose proof (mo_r _ _ Hm) as [Hl HF].
  destruct (lookup_lt_is_Some_2 (r (nreg m)) (Z.to_nat k)) as [x Hx]; [lia|].
  exists x. split; [done|]. by eapply Forall_lookup_1.
Qed.

(** Before any jump to the next branch, three passes over the rest suffice. *)
Lemma fresh_progress pc m : machine_ok size m -> 0 <= pc <= n ->
  pc = 0 \/ (exists b, bytecode !! Z.to_nat (pc - 1) = Some b /\ type b = CBRANCH /\ 0 < pc) ->
  exists M, progress pc m M /\ M <= 3 * (n - pc).
Proof.
  intros Hm Hpc Hstart.
  destruct (next_branch (Z.to_nat (n - pc)) pc ltac:(lia) ltac:(lia))
    as [Hn|(b & ibc & creg & s & Hb & Hl & Hok & Hn)].
  - exists (n - pc). split; [by left|lia].
  - destruct (machine_reg m creg Hm (br_creg _ _ _ _ _ Hok)) as (x & Hx & _).
    assert (pc - 1 <= target ibc) as Ht.
    { pose proof (br_target _ _ _ _ _ Hok). destruct Hstart as [->|(b0 & Hb0 & Ht0 & H0)]; [lia|].
      destruct (Z.lt_ge_cases (target ibc) (pc - 1)) as [Hlt|]; [|lia].
      by destruct (br_clear _ _ _ _ _ Hok (pc - 1) b0 ltac:(lia) Hb0) as [? _]. }
    eexists. split.
    + right. exists b, ibc, creg, s, 0, x. split_and!; try done; try lia; by left.
    + lia.
Qed.

Lemma exe_CBRANCH_ok i ibc creg s pc m x : machine_ok size m -> branch_ok bytecode i ibc creg s ->
  r (nreg m) !! Z.to_nat creg = Some x ->
  returns (exe_CBRANCH ibc pc m) (fun '(m', pc') => machine_ok size m' /\
    r (nreg m') !! Z.to_nat creg = Some (add64 x (imm ibc)) /\
    pc' = if Z.land (add64 x (imm ibc)) (memMask ibc) =? 0 then target ibc else pc).
Proof.
  intros Hm Hok Hx. pose proof (br_creg _ _ _ _ _ Hok). pose proof (mo_r _ _ Hm) as [Hl HF].
  unfold exe_CBRANCH. rewrite (br_dst _ _ _ _ _ Hok). cbn [iget iset].
  assert (aget (r (nreg m)) creg = Ok x) as ->.
  { unfold aget. rewrite (proj2 (Z.ltb_ge _ _)) by lia. by rewrite Hx. }
  cbn. rewrite aset_ok by lia. cbn.
  assert (<[Z.to_nat creg:=add64 x (imm ibc)]> (r (nreg m)) !! Z.to_nat creg
            = Some (add64 x (imm ibc))) as E by (apply list_lookup_insert_eq; lia).
  unfold aget. rewrite (proj2 (Z.ltb_ge _ _)) by lia. rewrite E. cbn.
  split_and!; [|done|done]. apply with_r_ok; [done|by rewrite length_insert|].
  apply Forall_insert; [done|apply add64_range].
Qed.

Lemma no_branch_tail pc hi : no_branch pc hi -> no_branch (pc + 1) hi.
Proof. intros H j b Hj. apply H. lia. Qed.

(** A straight-line entry makes progress. *)
Lemma straight_progress pc ibc m m' M : machine_ok size m' -> 0 <= pc < n ->
  bytecode !! Z.to_nat pc = Some ibc -> straight_ok size ibc -> frame (writes ibc) m m' ->
  progress pc m M -> progress (pc + 1) m' (M - 1).
Proof.
  intros Hm' Hpc Hi Hs Hf [[Hn ->]|(b & ibc' & creg & s & J & x & Hb & Hl & Hok & Hn & HJ & Hx & Hph & Ht & ->)].
  - left. split; [by apply no_branch_tail|lia].
  - pose proof (br_creg _ _ _ _ _ Hok) as Hc.
    destruct (Z.eq_dec b pc) as [->|Hne].
    { rewrite Hl in Hi. injection Hi as ->. by destruct (straight_not_branch size ibc Hs (br_type _ _ _ _ _ Hok)). }
    destruct (machine_reg m' creg Hm' Hc) as (x' & Hx' & _).
    right. exists b, ibc', creg, s, J, x'. split_and!; try done; try lia; [by apply no_branch_tail|].
    destruct Ht as [->|Ht]; [by left|].
    destruct (br_clear _ _ _ _ _ Hok pc ibc ltac:(lia) Hi) as [_ Hw].
    rewrite Hf in Hx' by (done || lia). rewrite Hx in Hx'. by injection Hx' as <-.
Qed.

Lemma exec_progress pc ibc m M : machine_ok size m -> 0 <= pc < n -> bytecode !! Z.to_nat pc = Some ibc ->
  progress pc m M ->
  returns (executeInstruction eMask ibc pc m) (fun '(m', pc') => machine_ok size m' /\
    0 <= pc' + 1 <= n /\ exists M', progress (pc' + 1) m' M' /\ M' < M).
Proof.
  intros Hm Hpc Hi HM. destruct (HB pc Hpc) as (ibc' & Hi' & HK).
  rewrite Hi in Hi'. injection Hi' as <-. unfold executeInstruction.
  destruct HK as [Hs|(creg0 & s0 & Hok0)].
  - assert (returns (m ← execute_straight eMask ibc m; mret (m, pc)) (fun '(m', pc') =>
      machine_ok size m' /\ 0 <= pc' + 1 <= n /\ exists M', progress (pc' + 1) m' M' /\ M' < M)) as H.
    { eapply returns_use; [by apply (execute_straight_ok size)|]. intros m' [Hm' Hf]. simpl.
      split_and!; [done|lia|lia|]. exists (M - 1). split; [by eapply straight_progress|lia]. }
    destruct (type ibc) eqn:E; try exact H. by destruct (straight_not_branch size ibc Hs).
  - rewrite (br_type _ _ _ _ _ Hok0).
    destruct HM as [[Hn ->]|(b & ibc' & creg & s & J & x & Hb & Hl & Hok & Hn & HJ & Hx & Hph & Ht & ->)].
    { by destruct (Hn pc ibc ltac:(lia) Hi (br_type _ _ _ _ _ Hok0)). }
    destruct (Z.eq_dec b pc) as [->|]; [|by destruct (Hn pc ibc ltac:(lia) Hi (br_type _ _ _ _ _ Hok0))].
    rewrite Hi in Hl. injection Hl as <-. pose proof (br_target _ _ _ _ _ Hok) as Htg.
    eapply returns_mono; [exact (exe_CBRANCH_ok pc ibc creg s pc m x Hm Hok Hx)|]. intros [m' pc'] (Hm' & Hx' & ->).
    split; [done|]. destruct (Z.eqb_spec (Z.land (add64 x (imm ibc)) (memMask ibc)) 0) as [E|_].
    + split; [lia|].
      destruct (branch_step J s _ _ x (br_imm _ _ _ _ _ Hok)) as [HJ2 Hph']; [|done..|].
      { destruct (machine_reg m creg Hm (br_creg _ _ _ _ _ Hok)) as (x0 & E0 & ?). congruence. }
      eexists. split; [right; exists pc, ibc, creg, s, (J + 1), (add64 x (imm ibc))|].
      * split_and!; try done; try lia. intros j b Hj Hlk. by apply (br_clear _ _ _ _ _ Hok j); [lia|].
      * lia.
    + split; [lia|]. destruct (fresh_progress (pc + 1) m' Hm' ltac:(lia)) as (M' & HM' & Hle).
      { right. exists ibc. replace (pc + 1 - 1) with pc by lia. split_and!; [done|apply Hok|lia]. }
      exists M'. split; [done|]. nia.
Qed.

Lemma executeBytecode_returns fuel pc m M : machine_ok size m -> 0 <= pc <= n -> progress pc m M ->
  M < Z.of_nat fuel -> returns (executeBytecode fuel n eMask bytecode pc m) (machine_ok size).
Proof.
  revert pc m M. induction fuel as [|fuel IH]; intros pc m M Hm Hpc HM Hf.
  - exfalso. destruct HM as [[_ ->]|(b & ibc & creg & s & J & x & Hb & _ & Hok & _ & HJ & _ & _ & _ & ->)];
      [lia|]. pose proof (br_target _ _ _ _ _ Hok). nia.
  - simpl. destruct (Z.ltb_spec pc n) as [Hlt|]; [|done].
    destruct (HB pc ltac:(lia)) as (ibc & Hi & _). unfold aget at 1.
    rewrite (proj2 (Z.ltb_ge _ _)) by lia. rewrite Hi. simpl.
    eapply returns_use; [apply exec_progress; done || lia|].
    intros [m' pc'] (Hm' & Hpc' & M' & HM' & Hlt'). by apply (IH _ _ M'); [..|lia].
Qed.

End Loop.

(** ** Compilation *)

Lemma shl64_pow k s : 0 <= k < 16 -> 0 <= s < 16 -> shl64 (2 ^ k) s = 2 ^ (k + s).
Proof.
  intros Hk Hs. unfold shl64. rewrite Z.shiftl_mul_pow2, <- Z.pow_add_r by lia. apply u64_id.
  split; [apply Z.pow_nonneg; lia|]. apply Z.pow_lt_mono_r; lia.
Qed.

(** The immediate and the mask computed for a branch. *)
Lemma compiled_branch_imm x s : is_u64 x -> 0 <= s < 16 ->
  branch_imm s (Z.land (Z.lor x (shl64 (shl64 1 JumpOffset) s)) (not64 (shl64 (shl64 1 (JumpOffset - 1)) s)))
    (u32 (Z.shiftl ConditionMask s)).
Proof.
  intros Hx Hs. change (shl64 1 JumpOffset) with (2 ^ 8). change (shl64 1 (JumpOffset - 1)) with (2 ^ 7).
  rewrite !shl64_pow by lia. set (im := Z.land _ _).
  assert (Z.testbit im (8 + s) = true /\ Z.testbit im (7 + s) = false) as [B8 B7].
  { unfold im, not64, u64. change 0xFFFFFFFFFFFFFFFF with (Z.ones 64).
    rewrite !Z.land_spec, !Z.lor_spec, !Z.lnot_spec, !Z.pow2_bits_eqb, !Z.testbit_ones by lia.
    rewrite !Z.eqb_refl, !orb_true_r. split.
    - rewrite (proj2 (Z.eqb_neq _ _)), (proj2 (Z.leb_le _ _)), (proj2 (Z.ltb_lt _ _)) by lia. done.
    - simpl. by rewrite andb_false_r. }
  split; [done| | | |].
  - apply land64_range; [apply lor64_range; [done|]|apply u64_range].
    split; [apply Z.pow_nonneg; lia|]. apply Z.pow_lt_mono_r; lia.
  - change ConditionMask with (255 * 2 ^ 8). rewrite Z.shiftl_mul_pow2, <- Z.mul_assoc, <- Z.pow_add_r by lia.
    apply u32_id. assert (2 ^ (8 + s) <= 2 ^ 23) by (apply Z.pow_le_mono_r; lia).
    assert (0 < 2 ^ (8 + s)) by (apply Z.pow_pos_nonneg; lia). unfold is_u32. lia.
  - by apply Z.testbit_true; [lia|].
  - apply Z.testbit_false in B7; [|lia].
    replace (8 + s) with (7 + s + 1) by lia. rewrite Z.pow_add_r by lia.
    assert (0 < 2 ^ (7 + s)) by (apply Z.pow_pos_nonneg; lia).
    rewrite Z.rem_mul_r by lia. change (2 ^ 1) with 2. rewrite B7.
    pose proof (Z.mod_pos_bound im (2 ^ (7 + s))). lia.
Qed.

Section Compile.
Context (c : RandomX_Configuration) (Hc : Config.Config.wf c).

Lemma opcode_type_total l op : 0 <= op < freq_sum c l -> exists t, opcode_type c l op = Some t.
Proof.
  revert op. induction l as [|t l IH]; intros op Hop; simpl in *; [lia|].
  destruct (Z.ltb_spec op (RANDOMX_FREQ c t)); [by eexists|]. apply IH. lia.
Qed.

(** How the compilation of entry [b] at [i] updates the last-use table: a
    register it does not mark is neither written nor branched on. *)
Definition usage_step (i : Z) (b : InstructionByteCode) (u u' : list Z) : Prop :=
  length u' = 8%nat /\ forall k, 0 <= k < 8 ->
    u' !! Z.to_nat k = Some i \/
    (u' !! Z.to_nat k = u !! Z.to_nat k /\ type b <> CBRANCH /\ k ∉ writes b).

Definition compiled_ok (i : Z) (u : list Z) (res : InstructionByteCode * list Z) : Prop :=
  usage_step i res.1 u res.2 /\
  (straight_ok (ScratchpadL3_Size c) res.1 \/
   exists creg s t, type res.1 = CBRANCH /\ bdst res.1 = L_r creg /\ 0 <= creg < 8 /\
     branch_imm s (imm res.1) (memMask res.1) /\ target_shift res.1 = u16 t /\
     u !! Z.to_nat creg = Some t).

Lemma usage_same i b u : length u = 8%nat -> type b <> CBRANCH -> writes b = [] -> usage_step i b u u.
Proof. intros Hl Ht Hw. split; [done|]. intros k Hk. right. rewrite Hw. by split_and!; [|done|apply not_elem_of_nil]. Qed.

Lemma usage_insert i b d u : length u = 8%nat -> 0 <= d < 8 -> type b <> CBRANCH -> writes b = [d] ->
  usage_step i b u (<[Z.to_nat d := i]> u).
Proof.
  intros Hl Hd Ht Hw. split; [by rewrite length_insert|]. intros k Hk.
  destruct (Z.eq_dec k d) as [->|Hne]; [left; apply list_lookup_insert_eq; lia|].
  right. rewrite list_lookup_insert_ne by lia. rewrite Hw. split_and!; [done|done|].
  by intros ->%list_elem_of_singleton.
Qed.

Lemma reg_mod x : 0 <= x mod RegistersCount < 8.
Proof. apply Z.mod_pos_bound. done. Qed.
Lemma flt_mod x : 0 <= x mod RegisterCountFlt < 4.
Proof. apply Z.mod_pos_bound. done. Qed.

Lemma AddressMask_get instr : returns (aget (AddressMask c) (getModMem instr))
  (fun m => 0 <= m <= ScratchpadL3_Size c - 8).
Proof.
  pose proof (getModMem_range instr). apply aget_returns; [simpl; lia|by apply AddressMask_range].
Qed.

Section Instr.
Context (instr : Instruction) (i : Z) (ibc : InstructionByteCode) (u : list Z).
Context (Hi : Instruction.Instruction.wf instr) (Hu : length u = 8%nat).

Lemma imm_range : is_u64 (signExtend2sCompl (getImm32 instr)) /\ is_u64 (getImm32 instr).
Proof.
  split; [apply u64_range|]. destruct Hi as (_ & _ & _ & _ & H). unfold is_u64, is_u32, getImm32 in *. lia.
Qed.

(** The common shape of the cases that mark their destination. *)
Lemma mark_dst b d : 0 <= d < 8 -> type b <> CBRANCH -> writes b = [d] ->
  straight_ok (ScratchpadL3_Size c) b ->
  returns (registerUsage ← aset u d i; mret (b, registerUsage)) (compiled_ok i u).
Proof.
  intros Hd Ht Hw Hs. rewrite aset_ok by lia. split; [by apply (usage_insert i _ d)|by left].
Qed.

Lemma no_mark b : type b <> CBRANCH -> writes b = [] -> straight_ok (ScratchpadL3_Size c) b ->
  compiled_ok i u (b, u).
Proof. intros. split; [by apply usage_same|by left]. Qed.

Ltac regs := pose proof (reg_mod (dst instr)); pose proof (reg_mod (src instr));
  pose proof (flt_mod (dst instr)); pose proof (flt_mod (src instr)); pose proof imm_range as [? ?].

Lemma compile_IADD_RS_ok : returns (compile_IADD_RS instr i ibc u) (compiled_ok i u).
Proof.
  regs. unfold compile_IADD_RS. cbn zeta.
  destruct (negb _); apply mark_dst; done.
Qed.

Lemma compile_int_M_ok t : t ∈ [IADD_M; ISUB_M; IMUL_M; IMULH_M; ISMULH_M; IXOR_M] ->
  returns (compile_int_M c t instr i ibc u) (compiled_ok i u).
Proof.
  intros Ht. regs. unfold compile_int_M. cbn zeta. pose proof (L3Mask_range c Hc) as HL3.
  destruct (negb _).
  - apply returns_bind. eapply returns_use; [apply AddressMask_get|]. intros m Hm.
    change (0 <= m <= ScratchpadL3_Size c - 8) in Hm. cbn [returns mret result_ret].
    apply mark_dst; [done|..]; set_unfold in Ht; destruct_or! Ht; subst t; done.
  - cbn [mbind result_bind mret result_ret].
    apply mark_dst; [done|..]; set_unfold in Ht; destruct_or! Ht; subst t; done.
Qed.

Lemma compile_int_R_ok t : t ∈ [ISUB_R; IMUL_R; IXOR_R] ->
  returns (compile_int_R t instr i ibc u) (compiled_ok i u).
Proof.
  intros Ht. regs. unfold compile_int_R. cbn zeta.
  destruct (negb _); apply mark_dst; try done; set_unfold in Ht; destruct_or! Ht; subst t; done.
Qed.

Lemma compile_mulh_R_ok t : t ∈ [IMULH_R; ISMULH_R] ->
  returns (compile_mulh_R t instr i ibc u) (compiled_ok i u).
Proof.
  intros Ht. regs. apply mark_dst; try done; set_unfold in Ht; destruct_or! Ht; subst t; done.
Qed.

Lemma compile_IMUL_RCP_ok : returns (compile_IMUL_RCP instr i ibc u) (compiled_ok i u).
Proof.
  regs. unfold compile_IMUL_RCP. cbn zeta.
  destruct (isZeroOrPowerOf2 (getImm32 instr)) eqn:E; cbn [negb]; [by apply no_mark|].
  apply mark_dst; try done. split; [done|]. apply randomx_reciprocal_range.
  destruct (Z.eq_dec (getImm32 instr) 0) as [E0|]; [by rewrite E0 in E|].
  unfold is_u64 in *. lia.
Qed.

Lemma compile_rot_R_ok t : t ∈ [IROR_R; IROL_R] ->
  returns (compile_rot_R t instr i ibc u) (compiled_ok i u).
Proof.
  intros Ht. regs. unfold compile_rot_R. cbn zeta.
  destruct (negb _); apply mark_dst; try done; set_unfold in Ht; destruct_or! Ht; subst t; done.
Qed.

Lemma compile_ISWAP_R_ok : returns (compile_ISWAP_R instr i ibc u) (compiled_ok i u).
Proof.
  regs. unfold compile_ISWAP_R. cbn zeta.
  destruct (negb _); [|by apply no_mark].
  generalize dependent (dst instr mod RegistersCount). intros d Hd.
  generalize dependent (src instr mod RegistersCount). intros s Hs.
  rewrite aset_ok by lia. cbn [mbind result_bind]. rewrite aset_ok by (rewrite length_insert; lia).
  split; [|by left]. split; [simpl; by rewrite !length_insert|]. intros k Hk. simpl.
  destruct (Z.eq_dec k s) as [->|Hs']; [left; apply list_lookup_insert_eq; rewrite length_insert; lia|].
  rewrite list_lookup_insert_ne by lia.
  destruct (Z.eq_dec k d) as [->|Hd']; [left; apply list_lookup_insert_eq; lia|].
  right. rewrite list_lookup_insert_ne by lia. split_and!; [done|done|]. unfold writes. simpl.
  rewrite !elem_of_cons, elem_of_nil. tauto.
Qed.

Lemma compile_FSWAP_R_ok : returns (compile_FSWAP_R instr ibc u) (compiled_ok i u).
Proof.
  regs. unfold compile_FSWAP_R. cbn zeta. cbn [returns mret result_ret].
  destruct (Z.ltb_spec (dst instr mod RegistersCount) RegisterCountFlt); apply no_mark; try done;
    unfold straight_ok; simpl; unfold RegisterCountFlt in *; lia.
Qed.

Lemma compile_flt_R_ok t grp : (t, grp) ∈ [(FADD_R, L_f); (FSUB_R, L_f); (FMUL_R, L_e)] ->
  returns (compile_flt_R t grp instr ibc u) (compiled_ok i u).
Proof.
  intros Ht. regs. apply no_mark; repeat (apply elem_of_cons in Ht as [[= -> ->]|Ht]; [done|]);
    by apply elem_of_nil in Ht.
Qed.

Lemma compile_flt_1_ok t grp : (t, grp) ∈ [(FSCAL_R, L_f); (FSQRT_R, L_e)] ->
  returns (compile_flt_1 t grp instr ibc u) (compiled_ok i u).
Proof.
  intros Ht. regs. apply no_mark; repeat (apply elem_of_cons in Ht as [[= -> ->]|Ht]; [done|]);
    by apply elem_of_nil in Ht.
Qed.

Lemma compile_flt_M_ok t grp : (t, grp) ∈ [(FADD_M, L_f); (FSUB_M, L_f); (FDIV_M, L_e)] ->
  returns (compile_flt_M c t grp instr ibc u) (compiled_ok i u).
Proof.
  intros Ht. regs. unfold compile_flt_M. cbn zeta. eapply returns_use; [apply AddressMask_get|].
  intros m Hm. change (0 <= m <= ScratchpadL3_Size c - 8) in Hm.
  apply no_mark; repeat (apply elem_of_cons in Ht as [[= -> ->]|Ht]; [done|]);
    by apply elem_of_nil in Ht.
Qed.

Lemma compile_ISTORE_ok : returns (compile_ISTORE c instr ibc u) (compiled_ok i u).
Proof.
  regs. unfold compile_ISTORE. cbn zeta. pose proof (L3Mask_range c Hc) as HL3.
  eapply (returns_use _ _ (fun m => 0 <= m <= ScratchpadL3_Size c - 8)).
  - destruct (_ <? _); [apply AddressMask_get|done].
  - intros m Hm. by apply no_mark.
Qed.

Lemma compile_CBRANCH_ok : returns (compile_CBRANCH instr i ibc u) (compiled_ok i u).
Proof.
  regs. unfold compile_CBRANCH. cbn zeta.
  destruct (aget_total u (dst instr mod RegistersCount)) as (t & -> & Ht); [lia|].
  cbn [mbind result_bind returns mret result_ret]. split.
  - split; [done|]. intros k Hk. left. simpl.
    change (replicate (Z.to_nat RegistersCount) i !! Z.to_nat k = Some i). apply lookup_replicate_2.
    unfold RegistersCount. lia.
  - right. exists (dst instr mod RegistersCount), (getModCond instr), t. split_and!; try done; try lia.
    apply compiled_branch_imm; [done|by apply getModCond_range].
Qed.

Lemma compileInstruction_ok : returns (compileInstruction c instr i ibc u) (compiled_ok i u).
Proof.
  regs. unfold compileInstruction. destruct Hi as (Hop & _).
  destruct (opcode_type_total all_types (opcode instr)) as [t ->].
  { rewrite (wf_freq c Hc). exact Hop. }
  destruct t;
    first [ apply compile_IADD_RS_ok | apply compile_int_M_ok; in_list
          | apply compile_int_R_ok; in_list | apply compile_mulh_R_ok; in_list
          | apply compile_IMUL_RCP_ok | apply compile_rot_R_ok; in_list
          | apply compile_ISWAP_R_ok | apply compile_FSWAP_R_ok | apply compile_flt_R_ok; in_list
          | apply compile_flt_1_ok; in_list | apply compile_flt_M_ok; in_list
          | apply compile_CBRANCH_ok | apply compile_ISTORE_ok | by apply mark_dst | by apply no_mark ].
Qed.

End Instr.

(** What holds after [i] instructions: the table gives, for every register,
    a position after which nothing writes it or branches. *)
Record cinv (i : Z) (bytecode : list InstructionByteCode) (u : list Z) : Prop := {
  ci_len : length u = 8%nat;
  ci_use : forall k, 0 <= k < 8 -> exists t, u !! Z.to_nat k = Some t /\ -1 <= t < i /\
    forall j b, t < j < i -> bytecode !! Z.to_nat j = Some b -> type b <> CBRANCH /\ k ∉ writes b;
  ci_ok : bytecode_ok (ScratchpadL3_Size c) i bytecode }.

Lemma target_of b t : target_shift b = u16 t -> -1 <= t < 2 ^ 15 -> target b = t.
Proof.
  intros E Ht. unfold target. rewrite E, u16_mod. destruct (Z.eq_dec t (-1)) as [->|]; [done|].
  rewrite Z.mod_small by lia. by rewrite (proj2 (Z.ltb_lt _ _)) by lia.
Qed.

Lemma branch_ok_insert bytecode i j b b' creg s : j < i -> 0 <= j ->
  branch_ok bytecode j b creg s -> branch_ok (<[Z.to_nat i := b']> bytecode) j b creg s.
Proof.
  intros Hj H0 [? ? ? ? Ht Hcl]. split; try done. intros k bk Hk Hlk.
  destruct (Z.lt_ge_cases k 0) as [Hneg|].
  { lia. }
  rewrite list_lookup_insert_ne in Hlk by lia. by apply (Hcl k).
Qed.

Lemma cinv_step i bytecode u b u' : 0 <= i < 2 ^ 15 -> i < Z.of_nat (length bytecode) ->
  cinv i bytecode u -> compiled_ok i u (b, u') -> cinv (i + 1) (<[Z.to_nat i := b]> bytecode) u'.
Proof.
  intros Hi Hlen [Hl Huse Hok] [[Hl' Hu'] Hb]. simpl in *.
  assert (<[Z.to_nat i:=b]> bytecode !! Z.to_nat i = Some b) as Eb by (apply list_lookup_insert_eq; lia).
  split; [done| |].
  - intros k Hk. destruct (Hu' k Hk) as [Hi'|(Hs & Ht & Hw)].
    + exists i. split_and!; [done|lia|lia|]. intros; lia.
    + destruct (Huse k Hk) as (t & E & Hr & Hcl). exists t. split_and!; [congruence|lia|lia|].
      intros j b' Hj Hlk. destruct (Z.eq_dec j i) as [->|].
      * rewrite Eb in Hlk. by injection Hlk as <-.
      * rewrite list_lookup_insert_ne in Hlk by lia. apply (Hcl j); [lia|done].
  - intros j Hj. destruct (Z.eq_dec j i) as [->|].
    + exists b. split; [done|]. destruct Hb as [|(creg & s & t & Ht & Hd & Hc' & Him & Hts & Ht')]; [by left|].
      right. exists creg, s. destruct (Huse creg Hc') as (t' & E & Hr & Hcl).
      rewrite E in Ht'. injection Ht' as ->. pose proof (target_of b t Hts ltac:(lia)) as Etg.
      split; try done; rewrite Etg; [lia|]. intros j b' Hj' Hlk.
      rewrite list_lookup_insert_ne in Hlk by lia. by apply (Hcl j).
    + destruct (Hok j ltac:(lia)) as (b' & E & HK). exists b'.
      rewrite list_lookup_insert_ne by lia. split; [done|].
      destruct HK as [|(creg & s & HK)]; [by left|right]. exists creg, s. apply branch_ok_insert; [lia|lia|done].
Qed.

Lemma compile_loop_ok n i program bytecode u : 0 <= i -> i + Z.of_nat n <= 2 ^ 15 ->
  i + Z.of_nat n <= Z.of_nat (length program) -> i + Z.of_nat n <= Z.of_nat (length bytecode) ->
  Forall Instruction.Instruction.wf program -> cinv i bytecode u ->
  returns (compile_loop c n i program bytecode u) (fun '(bytecode', u') =>
    length bytecode' = length bytecode /\ cinv (i + Z.of_nat n) bytecode' u').
Proof.
  revert i bytecode u. induction n as [|n IH]; intros i bytecode u H0 H15 Hp Hb HW HI.
  - simpl. split; [done|]. by replace (i + Z.of_nat 0) with i by lia.
  - cbn [compile_loop].
    eapply returns_use; [apply (aget_returns _ _ Instruction.Instruction.wf); [lia|done]|]. intros instr Hi.
    destruct (aget_total bytecode i) as (ibc & -> & _); [lia|]. cbn [mbind result_bind].
    eapply returns_use; [apply compileInstruction_ok; [done|apply HI]|]. intros [b u'] Hcomp.
    rewrite aset_ok by lia. cbn [mbind result_bind].
    eapply returns_mono; [apply IH; try (rewrite ?length_insert; lia); [done|by eapply cinv_step; [lia|lia|..]]|].
    intros [bc' u''] [Hl HI']. rewrite length_insert in Hl. split; [done|].
    by replace (i + Z.of_nat (S n)) with (i + 1 + Z.of_nat n) by lia.
Qed.

Lemma cinv_init bytecode : cinv 0 bytecode beginCompilation.
Proof.
  split; [done| |intros j Hj; lia]. intros k Hk. exists (-1). split_and!; [|lia|lia|intros; lia].
  unfold beginCompilation. apply lookup_replicate_2. unfold RegistersCount. lia.
Qed.

Lemma compileProgram_ok program bytecode : ProgramSize c <= Z.of_nat (length program) ->
  ProgramSize c <= Z.of_nat (length bytecode) -> Forall Instruction.Instruction.wf program ->
  returns (compileProgram c program bytecode) (fun bytecode' => length bytecode' = length bytecode /\
    bytecode_ok (ScratchpadL3_Size c) (ProgramSize c) bytecode').
Proof.
  intros Hp Hb HW. destruct (prog_size_range c Hc) as [Hn _]. unfold compileProgram.
  eapply returns_use; [apply compile_loop_ok; try lia; [done|apply cinv_init]|].
  intros [bc u] [Hl HI]. simpl. split; [done|]. destruct HI as [_ _ Hok].
  by replace (ProgramSize c) with (0 + Z.of_nat (Z.to_nat (ProgramSize c))) by lia.
Qed.

End Compile.

(** ** The properties of whole programs *)

Definition compile_and_run (c : RandomX_Configuration) (eMask : rx_vec_f128) (program : list Instruction)
    (bytecode : list InstructionByteCode) (m : machine) : result machine :=
  bytecode ← compileProgram c program bytecode;
  executeBytecode (Z.to_nat (3 * ProgramSize c + 1)) (ProgramSize c) eMask bytecode 0 m.

(** C5: for every well-formed configuration, any program of [ProgramSize]
    arbitrary instructions compiles (no opcode reaches [UNREACHABLE]) and runs
    to the end within three times its length of executed instructions, whatever
    the registers and the scratchpad hold: no branch is taken more than twice in
    a row, every scratchpad access is inside the scratchpad, every operand
    pointer inside the register file, and the resulting machine is well formed. *)
Theorem bytecode_runs_to_completion c eMask program bytecode m :
  Config.Config.wf c -> Forall Instruction.Instruction.wf program ->
  ProgramSize c <= Z.of_nat (length program) -> ProgramSize c <= Z.of_nat (length bytecode) ->
  machine_ok (ScratchpadL3_Size c) m ->
  returns (compile_and_run c eMask program bytecode m) (machine_ok (ScratchpadL3_Size c)).
Proof.
  intros Hc HW Hp Hb Hm. unfold compile_and_run.
  eapply returns_use; [by apply compileProgram_ok|]. intros bc [Hl Hok].
  destruct (prog_size_range c Hc) as [Hn _]. pose proof (wf_l1 c Hc). pose proof (wf_l2 c Hc).
  destruct (fresh_progress _ _ bc Hok 0 m Hm) as (M & HM & Hle); [lia|by left|].
  eapply executeBytecode_returns; try done; lia.
Qed.

(** ** Independence of the previous contents of the bytecode array *)

Definition same_exec (b1 b2 : InstructionByteCode) : Prop :=
  forall eMask pc m, executeInstruction eMask b1 pc m = executeInstruction eMask b2 pc m.

Definition same_code (x1 x2 : result (InstructionByteCode * list Z)) : Prop :=
  match x1, x2 with
  | Ok (b1, u1), Ok (b2, u2) => same_exec b1 b2 /\ u1 = u2
  | Fault, Fault | OutOfFuel, OutOfFuel => True
  | _, _ => False
  end.

(** Each case of the compiler assigns every field the execution reads. *)
Lemma compile_stale c instr i b1 b2 u :
  same_code (compileInstruction c instr i b1 u) (compileInstruction c instr i b2 u).
Proof.
  unfold compileInstruction.
  destruct (opcode_type c all_types (opcode instr)) as [[]|]; try done;
    unfold compile_IADD_RS, compile_int_M, compile_int_R, compile_mulh_R, compile_IMUL_RCP,
      compile_INEG_R, compile_rot_R, compile_ISWAP_R, compile_FSWAP_R, compile_flt_R, compile_flt_M,
      compile_flt_1, compile_CBRANCH, compile_CFROUND, compile_ISTORE;
    repeat match goal with
    | |- context [if ?b then _ else _] => destruct b; cbn [mbind result_bind mret result_ret]
    | |- context [aset ?l ?i ?x] => destruct (aset l i x); cbn [mbind result_bind mret result_ret]
    | |- context [aget ?l ?i] => destruct (aget l i); cbn [mbind result_bind mret result_ret]
    end; try done; (split; [intros eMask pc m; reflexivity|done]).
Qed.

(** Two bytecode arrays that agree on the entries compiled so far. *)
Definition agree (n : Z) (bc1 bc2 : list InstructionByteCode) : Prop :=
  length bc1 = length bc2 /\ forall j b1 b2, 0 <= j < n ->
    bc1 !! Z.to_nat j = Some b1 -> bc2 !! Z.to_nat j = Some b2 -> same_exec b1 b2.

Lemma agree_insert i bc1 bc2 b1 b2 : 0 <= i -> agree i bc1 bc2 -> same_exec b1 b2 ->
  agree (i + 1) (<[Z.to_nat i := b1]> bc1) (<[Z.to_nat i := b2]> bc2).
Proof.
  intros Hi [Hl Ha] Hs. split; [by rewrite !length_insert|]. intros j x1 x2 Hj H1 H2.
  destruct (Z.eq_dec j i) as [->|].
  - apply list_lookup_insert_Some in H1 as [(_ & -> & _)|[? _]]; [|done].
    apply list_lookup_insert_Some in H2 as [(_ & -> & _)|[? _]]; done.
  - rewrite list_lookup_insert_ne in H1, H2 by lia. apply (Ha j); [lia|done..].
Qed.

Lemma aget_agree {A B} (l1 : list A) (l2 : list B) i : length l1 = length l2 ->
  (exists x1 x2, aget l1 i = Ok x1 /\ aget l2 i = Ok x2 /\ 0 <= i < Z.of_nat (length l1) /\
     l1 !! Z.to_nat i = Some x1 /\ l2 !! Z.to_nat i = Some x2) \/
  (aget l1 i = Fault /\ aget l2 i = Fault).
Proof.
  intros Hl. destruct (decide (0 <= i < Z.of_nat (length l1))) as [Hi|Hi].
  - left. destruct (aget_total l1 i Hi) as (x1 & ? & ?).
    destruct (aget_total l2 i ltac:(lia)) as (x2 & ? & ?). by exists x1, x2.
  - right. unfold aget. destruct (Z.ltb_spec i 0); [done|].
    rewrite !lookup_ge_None_2 by lia. done.
Qed.

Lemma compile_loop_stale c n i program bc1 bc2 u : 0 <= i -> agree i bc1 bc2 ->
  match compile_loop c n i program bc1 u, compile_loop c n i program bc2 u with
  | Ok (bc1', _), Ok (bc2', _) => agree (i + Z.of_nat n) bc1' bc2'
  | Fault, Fault | OutOfFuel, OutOfFuel => True
  | _, _ => False
  end.
Proof.
  revert i bc1 bc2 u. induction n as [|n IH]; intros i bc1 bc2 u Hi Ha; cbn [compile_loop].
  { simpl. by replace (i + Z.of_nat 0) with i by lia. }
  destruct (aget program i) as [instr| |]; cbn [mbind result_bind]; [|done|done].
  destruct (aget_agree bc1 bc2 i (proj1 Ha)) as [(x1 & x2 & -> & -> & Hr & E1 & E2)|[-> ->]]; [|done].
  cbn [mbind result_bind]. pose proof (compile_stale c instr i x1 x2 u) as Hc.
  destruct (compileInstruction c instr i x1 u) as [[b1 u1]| |],
           (compileInstruction c instr i x2 u) as [[b2 u2]| |]; try done.
  destruct Hc as [Hs ->]. cbn [mbind result_bind]. rewrite !aset_ok by (rewrite <- ?(proj1 Ha); lia). cbn [mbind result_bind].
  replace (i + Z.of_nat (S n)) with (i + 1 + Z.of_nat n) by lia.
  apply IH; [lia|]. by apply agree_insert.
Qed.

Lemma execute_agree fuel n eMask bc1 bc2 pc m : agree n bc1 bc2 ->
  executeBytecode fuel n eMask bc1 pc m = executeBytecode fuel n eMask bc2 pc m.
Proof.
  intros Ha. revert pc m. induction fuel as [|fuel IH]; intros pc m; [done|].
  simpl. destruct (Z.ltb_spec pc n); [|done].
  destruct (aget_agree bc1 bc2 pc (proj1 Ha)) as [(x1 & x2 & -> & -> & Hr & E1 & E2)|[-> ->]]; [|done].
  simpl. rewrite (proj2 Ha pc x1 x2 ltac:(lia) E1 E2).
  destruct (executeInstruction eMask x2 pc m) as [[m' pc']| |]; [|done|done]. apply IH.
Qed.

(** What a program computes does not depend on what the previous program
    left in the bytecode array: although the compiler updates the entries in
    place and leaves some fields unassigned, no stale field is ever read. *)
Theorem bytecode_independent_of_previous c eMask program bytecode1 bytecode2 m :
  length bytecode1 = length bytecode2 ->
  compile_and_run c eMask program bytecode1 m = compile_and_run c eMask program bytecode2 m.
Proof.
  intros Hl. unfold compile_and_run, compileProgram.
  pose proof (compile_loop_stale c (Z.to_nat (ProgramSize c)) 0 program bytecode1 bytecode2
    beginCompilation ltac:(lia)) as H.
  assert (agree 0 bytecode1 bytecode2) as H0 by (split; [done|intros; lia]).
  specialize (H H0).
  destruct (compile_loop _ _ _ _ bytecode1 _) as [[bc1 u1]| |],
           (compile_loop _ _ _ _ bytecode2 _) as [[bc2 u2]| |]; try done.
  simpl. apply execute_agree. destruct H as [Hl' H]. split; [done|].
  intros j b1 b2 Hj. apply H. lia.
Qed.

(** A machine and a program with branches, for the witnesses. *)
Definition sample_machine : machine :=
  mk_machine (mk_nreg (replicate 8 1) (replicate 4 (0, 0)) (replicate 4 (0, 0)) (replicate 4 (0, 0)))
    (replicate (Z.to_nat 262144) 0) 0.
Definition sample_program : list Instruction :=
  concat (replicate (Z.to_nat 128) [mk_instr 5 1 2 3 7; mk_instr 220 1 1 48 65280]).
Definition blank : InstructionByteCode := mk_ibc L_zero L_zero 0 NOP 0 0.

Lemma sample_machine_ok : machine_ok (ScratchpadL3_Size Arqma) sample_machine.
Proof.
  unfold sample_machine. split; cbn [nreg r f e a scratchpad fprc];
    [split; [apply length_replicate|apply Forall_replicate; unfold fvec_ok, is_u64; cbn [fst snd]; lia]..| |lia].
  split; [unfold msize; rewrite length_replicate; change (ScratchpadL3_Size Arqma) with 262144; lia|].
  apply Forall_replicate. unfold is_u8. lia.
Qed.

Lemma sample_program_ok : Forall Instruction.Instruction.wf sample_program.
Proof.
  unfold sample_program. apply Forall_concat, Forall_replicate.
  repeat (apply Forall_cons_2; [unfold Instruction.Instruction.wf, is_u8, is_u32; simpl; lia|]).
  apply Forall_nil_2.
Qed.

Lemma bytecode_runs_to_completion_witness :
  returns (compile_and_run Arqma (0, 0) sample_program (replicate (Z.to_nat 256) blank) sample_machine)
    (machine_ok (ScratchpadL3_Size Arqma)).
Proof.
  apply bytecode_runs_to_completion.
  - apply variants_wf. unfold variants. in_list.
  - exact sample_program_ok.
  - vm_compute. discriminate.
  - rewrite length_replicate. vm_compute. discriminate.
  - exact sample_machine_ok.
Defined.

Lemma bytecode_independent_of_previous_witness :
  compile_and_run Arqma (0, 0) sample_program (replicate (Z.to_nat 256) blank) sample_machine =
  compile_and_run Arqma (0, 0) sample_program (replicate (Z.to_nat 256) (mk_ibc L_imm L_imm 7 ISTORE 9 9))
    sample_machine.
Proof. apply bytecode_independent_of_previous. rewrite !length_replicate. reflexivity. Defined.

End BytecodeProofs.
