(* ===== verification/BytecodeSpec.v ===== *)
(** * The bytecode machine implements the instruction set

    [spec] is the RandomX instruction set as its specification gives it: the
    effect of one 8-byte instruction on the registers, the scratchpad and the
    rounding mode, with no bytecode in between.  Compiling an instruction and
    executing the bytecode has that effect. *)
From Stdlib Require Import ZArith Lia.
From stdpp Require Import base numbers list.
From S2P Require Import Prelude Reciprocal Memory Instruction SoftAes Config Float64 Bytecode BytecodeProofs.
Import Config.Config Float64.Float64 Reciprocal.Reciprocal Instruction.Instruction Bytecode.Bytecode.
Import BytecodeProofs.BytecodeProofs.
Open Scope Z_scope.

Module BytecodeSpec.

(** ** The instruction set *)

Section Spec.
Context (c : RandomX_Configuration) (eMask : rx_vec_f128) (instr : Instruction) (m : machine).

Definition R (k : Z) : Z := r (nreg m) !!! Z.to_nat k.
Definition dst8 : Z := dst instr mod 8.
Definition src8 : Z := src instr mod 8.
Definition dst4 : Z := dst instr mod 4.
Definition src4 : Z := src instr mod 4.
Definition imm64 : Z := signExtend2sCompl (imm32 instr).
Definition level_mask : Z := AddressMask c !!! Z.to_nat (getModMem instr).

(** The second operand of a register instruction: the immediate when source
    and destination coincide. *)
Definition operand (im : Z) : Z := if src8 =? dst8 then im else R src8.
(** The address of an integer memory instruction: in the whole scratchpad,
    given by the immediate alone, when source and destination coincide. *)
Definition int_address : Z :=
  if src8 =? dst8 then Z.land imm64 (ScratchpadL3Mask c) else Z.land (add64 (R src8) imm64) level_mask.
Definition flt_address : Z := Z.land (add64 (R src8) imm64) level_mask.
Definition word (ad : Z) : Z := load_le (chunk (scratchpad m) ad 8).
Definition int_pair (ad : Z) : rx_vec_f128 :=
  (f_of_int32 (s32 (load_le (chunk (scratchpad m) ad 4))),
   f_of_int32 (s32 (load_le (chunk (scratchpad m) (ad + 4) 4)))).

Definition set_r (k x : Z) : machine := with_r (<[Z.to_nat k := x]> (r (nreg m))) m.
Definition on_f (k : Z) (op : rx_vec_f128 -> rx_vec_f128) : machine :=
  with_f (alter op (Z.to_nat k) (f (nreg m))) m.
Definition on_e (k : Z) (op : rx_vec_f128 -> rx_vec_f128) : machine :=
  with_e (alter op (Z.to_nat k) (e (nreg m))) m.
Definition A_reg : rx_vec_f128 := a (nreg m) !!! Z.to_nat src4.

(** The branch constant: the immediate with bit [8 + s] set and bit [7 + s]
    cleared. *)
Definition cimm : Z := Z.clearbit (Z.setbit imm64 (8 + getModCond instr)) (7 + getModCond instr).

Definition spec_effect (t : InstructionType) : machine :=
  match t with
  | IADD_RS => set_r dst8 (add64 (R dst8)
      (add64 (shl64 (R src8) (getModShift instr)) (if dst8 =? 5 then imm64 else 0)))
  | IADD_M => set_r dst8 (add64 (R dst8) (word int_address))
  | ISUB_R => set_r dst8 (sub64 (R dst8) (operand imm64))
  | ISUB_M => set_r dst8 (sub64 (R dst8) (word int_address))
  | IMUL_R => set_r dst8 (mul64 (R dst8) (operand imm64))
  | IMUL_M => set_r dst8 (mul64 (R dst8) (word int_address))
  | IMULH_R => set_r dst8 (mulh (R dst8) (R src8))
  | IMULH_M => set_r dst8 (mulh (R dst8) (word int_address))
  | ISMULH_R => set_r dst8 (smulh (R dst8) (R src8))
  | ISMULH_M => set_r dst8 (smulh (R dst8) (word int_address))
  | IMUL_RCP =>
      if isZeroOrPowerOf2 (imm32 instr) then m
      else set_r dst8 (mul64 (R dst8) (randomx_reciprocal (imm32 instr)))
  | INEG_R => set_r dst8 (u64 (- R dst8))
  | IXOR_R => set_r dst8 (Z.lxor (R dst8) (operand imm64))
  | IXOR_M => set_r dst8 (Z.lxor (R dst8) (word int_address))
  | IROR_R => set_r dst8 (rotr64 (R dst8) (operand (imm32 instr) mod 64))
  | IROL_R => set_r dst8 (rotl64 (R dst8) (operand (imm32 instr) mod 64))
  | ISWAP_R => with_r (<[Z.to_nat dst8 := R src8]> (<[Z.to_nat src8 := R dst8]> (r (nreg m)))) m
  | FSWAP_R => if dst8 <? 4 then on_f dst8 rx_swap_vec_f128 else on_e (dst8 - 4) rx_swap_vec_f128
  | FADD_R => on_f dst4 (fun d => rx_add_vec_f128 (fprc m) d A_reg)
  | FADD_M => on_f dst4 (fun d => rx_add_vec_f128 (fprc m) d (int_pair flt_address))
  | FSUB_R => on_f dst4 (fun d => rx_sub_vec_f128 (fprc m) d A_reg)
  | FSUB_M => on_f dst4 (fun d => rx_sub_vec_f128 (fprc m) d (int_pair flt_address))
  | FSCAL_R => on_f dst4 (fun d => rx_xor_vec_f128 d (rx_set1_vec_f128 0x80F0000000000000))
  | FMUL_R => on_e dst4 (fun d => rx_mul_vec_f128 (fprc m) d A_reg)
  | FDIV_M => on_e dst4 (fun d =>
      rx_div_vec_f128 (fprc m) d (maskRegisterExponentMantissa eMask (int_pair flt_address)))
  | FSQRT_R => on_e dst4 (rx_sqrt_vec_f128 (fprc m))
  | CBRANCH => set_r dst8 (add64 (R dst8) cimm)
  | CFROUND => with_fprc (rotr64 (R src8) (imm32 instr mod 64) mod 4) m
  | ISTORE =>
      with_scratchpad (splice (scratchpad m)
        (Z.land (add64 (R dst8) imm64)
           (if getModCond instr <? 14 then level_mask else ScratchpadL3Mask c))
        (store_le 8 (R src8))) m
  | NOP => m
  end.

(** Where control goes: a branch jumps back to [tgt] when the eight condition
    bits of the updated register are zero. *)
Definition spec_pc (t : InstructionType) (tgt pc : Z) : Z :=
  match t with
  | CBRANCH =>
      if (add64 (R dst8) cimm / 2 ^ (8 + getModCond instr)) mod 256 =? 0 then tgt else pc
  | _ => pc
  end.

Definition spec (t : InstructionType) (tgt pc : Z) : machine * Z := (spec_effect t, spec_pc t tgt pc).

End Spec.

(** ** Operand accesses *)

Lemma aget_lookup_total {A} `{!Inhabited A} (l : list A) i : 0 <= i < Z.of_nat (length l) ->
  aget l i = Ok (l !!! Z.to_nat i).
Proof.
  intros Hi. destruct (aget_total l i Hi) as (x & -> & Hx). by rewrite (list_lookup_total_correct _ _ _ Hx).
Qed.

Lemma insert_alter {A} `{!Inhabited A} (g : A -> A) (l : list A) i :
  <[i := g (l !!! i)]> l = alter g i l.
Proof.
  apply list_eq. intros j. destruct (decide (i = j)) as [<-|Hne].
  - rewrite list_lookup_alter_eq. destruct (l !! i) as [x|] eqn:E; simpl.
    + rewrite list_lookup_insert_eq by (by eapply lookup_lt_Some).
      by rewrite (list_lookup_total_correct _ _ _ E).
    + rewrite list_insert_id'; [done|]. apply lookup_ge_None_1 in E. lia.
  - by rewrite list_lookup_insert_ne, list_lookup_alter_ne.
Qed.

Section Access.
Context (c : RandomX_Configuration) (Hc : Config.Config.wf c).
Context (instr : Instruction) (Hi : Instruction.Instruction.wf instr).
Context (m : machine) (Hm : machine_ok (ScratchpadL3_Size c) m).
Implicit Types (b : InstructionByteCode).

Lemma aget_R k : 0 <= k < 8 -> aget (r (nreg m)) k = Ok (R m k).
Proof. intros. pose proof (mo_r _ _ Hm) as [Hl _]. apply aget_lookup_total. lia. Qed.

Lemma iset_r k x : 0 <= k < 8 -> iset m (L_r k) x = Ok (set_r m k x).
Proof. intros. pose proof (mo_r _ _ Hm) as [Hl _]. simpl. by rewrite aset_ok by lia. Qed.

Lemma exec_R op b d s : bdst b = L_r d -> 0 <= d < 8 -> iget b m (bsrc b) = Ok s ->
  upd_R op b m = Ok (set_r m d (op (R m d) s)).
Proof. intros Hd Hr Hs. unfold upd_R. rewrite Hs, Hd. cbn [iget]. rewrite aget_R by done. by apply iset_r. Qed.

Lemma address b x mk : iget b m (bsrc b) = Ok x -> memMask b = mk -> 0 <= mk < 2 ^ 32 ->
  getScratchpadAddress b m = Ok (Z.land (add64 x (imm b)) mk).
Proof.
  intros Hx Hk Hr. unfold getScratchpadAddress. rewrite Hx, Hk. simpl.
  pose proof (land_le_r (add64 x (imm b)) mk ltac:(lia)). by rewrite u32_id by (unfold is_u32; lia).
Qed.

Lemma exec_M op b d ad : bdst b = L_r d -> 0 <= d < 8 -> getScratchpadAddress b m = Ok ad ->
  0 <= ad <= ScratchpadL3_Size c - 8 -> upd_M op b m = Ok (set_r m d (op (R m d) (word m ad))).
Proof.
  intros Hd Hr Ha Had. pose proof (mo_pad _ _ Hm) as [Hp _].
  unfold upd_M. rewrite Ha, Hd. cbn [iget]. rewrite aget_R by done. cbn [mbind result_bind].
  unfold mload64. rewrite mload_ok by lia. cbn [mbind result_bind mret result_ret]. by apply iset_r.
Qed.

Lemma cvt_pair ad : 0 <= ad <= ScratchpadL3_Size c - 8 ->
  rx_cvt_packed_int_vec_f128 (scratchpad m) ad = Ok (int_pair m ad).
Proof.
  intros Had. pose proof (mo_pad _ _ Hm) as [Hp _].
  unfold rx_cvt_packed_int_vec_f128, mload32. by rewrite !mload_ok by lia.
Qed.

Lemma exec_F_f op b d : bdst b = L_f d -> 0 <= d < 4 -> upd_F op b m = Ok (on_f m d op).
Proof.
  intros Hd Hr. pose proof (mo_f _ _ Hm) as [Hl _]. unfold upd_F, on_f. rewrite Hd. cbn [fget fset].
  rewrite aget_lookup_total by lia. cbn [mbind result_bind]. rewrite aset_ok by lia.
  cbn [mbind result_bind mret result_ret]. by rewrite insert_alter.
Qed.

Lemma exec_F_e op b d : bdst b = L_e d -> 0 <= d < 4 -> upd_F op b m = Ok (on_e m d op).
Proof.
  intros Hd Hr. pose proof (mo_e _ _ Hm) as [Hl _]. unfold upd_F, on_e. rewrite Hd. cbn [fget fset].
  rewrite aget_lookup_total by lia. cbn [mbind result_bind]. rewrite aset_ok by lia.
  cbn [mbind result_bind mret result_ret]. by rewrite insert_alter.
Qed.

Lemma fget_A : fget m (L_a (src4 instr)) = Ok (A_reg instr m).
Proof.
  pose proof (mo_a _ _ Hm) as [Hl _]. cbn [fget]. apply aget_lookup_total.
  pose proof (Z.mod_pos_bound (src instr) 4). unfold src4. lia.
Qed.

Lemma mask_get : aget (AddressMask c) (getModMem instr) = Ok (level_mask c instr) /\
  0 <= level_mask c instr <= ScratchpadL3_Size c - 8.
Proof.
  pose proof (getModMem_range instr).
  assert (aget (AddressMask c) (getModMem instr) = Ok (level_mask c instr)) as E
    by (apply aget_lookup_total; simpl; lia).
  split; [done|]. pose proof (AddressMask_get c Hc instr) as H'. by rewrite E in H'.
Qed.

Lemma land_masked x mk : 0 <= mk <= ScratchpadL3_Size c - 8 ->
  0 <= Z.land x mk <= ScratchpadL3_Size c - 8 /\ 0 <= mk < 2 ^ 32.
Proof. intros. pose proof (wf_l2 c Hc). pose proof (land_le_r x mk). lia. Qed.

(** ** Case by case *)

Context (eMask : rx_vec_f128) (i pc : Z) (ibc : InstructionByteCode) (u : list Z) (Hu : length u = 8%nat).

Definition implements (t : InstructionType) (res : InstructionByteCode * list Z) : Prop :=
  executeInstruction eMask res.1 pc m = Ok (spec c eMask instr m t (u !!! Z.to_nat (dst8 instr)) pc).

Lemma dst8_range : 0 <= dst8 instr < 8.
Proof. apply Z.mod_pos_bound. lia. Qed.
Lemma src8_range : 0 <= src8 instr < 8.
Proof. apply Z.mod_pos_bound. lia. Qed.
Lemma dst4_range : 0 <= dst4 instr < 4.
Proof. apply Z.mod_pos_bound. lia. Qed.
Lemma src4_range : 0 <= src4 instr < 4.
Proof. apply Z.mod_pos_bound. lia. Qed.

(** Name the operands as the specification does. *)
Ltac operands :=
  pose proof dst8_range; pose proof src8_range; pose proof dst4_range; pose proof src4_range;
  change (dst instr mod RegistersCount) with (dst8 instr);
  change (src instr mod RegistersCount) with (src8 instr);
  change (dst instr mod RegisterCountFlt) with (dst4 instr);
  change (src instr mod RegisterCountFlt) with (src4 instr);
  change (getImm32 instr) with (imm32 instr);
  change (signExtend2sCompl (imm32 instr)) with (imm64 instr).

Lemma marked b d t : 0 <= d < 8 -> implements t (b, u) ->
  returns (registerUsage ← aset u d i; mret (b, registerUsage)) (implements t).
Proof. intros Hd Hb. by rewrite aset_ok by lia. Qed.

(** A straight-line entry implements [t] when its effect is that of [t]. *)
Lemma straight_implements b t u' : type b <> CBRANCH -> t <> CBRANCH ->
  execute_straight eMask b m = Ok (spec_effect c eMask instr m t) -> implements t (b, u').
Proof.
  intros Hb Ht He. unfold implements, spec. cbn [fst]. unfold executeInstruction.
  destruct (type b); try done; rewrite He; by destruct t.
Qed.

Lemma IADD_RS_spec : returns (compile_IADD_RS instr i ibc u) (implements IADD_RS).
Proof.
  unfold compile_IADD_RS. operands. cbn zeta. change (dst8 instr =? RegisterNeedsDisplacement) with (dst8 instr =? 5).
  assert (u16 (getModShift instr) = getModShift instr) as Hsh.
  { pose proof (getModShift_range instr). rewrite u16_mod. apply Z.mod_small. lia. }
  destruct (dst8 instr =? 5) eqn:E; cbn [negb]; (apply marked; [done|]); apply straight_implements; try done;
    cbn [spec_effect]; rewrite E; unfold execute_straight; cbn [type set_dst set_type set_imm set_ts set_src];
    unfold exe_IADD_RS; (erewrite exec_R; [|reflexivity|done|by apply aget_R]);
    unfold shift; simpl; by rewrite Hsh.
Qed.

Lemma int_M_spec t op : (t, op) ∈ [(IADD_M, add64); (ISUB_M, sub64); (IMUL_M, mul64); (IMULH_M, mulh);
    (ISMULH_M, smulh); (IXOR_M, Z.lxor)] ->
  returns (compile_int_M c t instr i ibc u) (implements t).
Proof.
  intros Ht. unfold compile_int_M. operands. cbn zeta. destruct mask_get as [Hg Hk].
  pose proof (L3Mask_range c Hc) as HL.
  assert (forall b, type b = t -> bdst b = L_r (dst8 instr) ->
    getScratchpadAddress b m = Ok (int_address c instr m) ->
    returns (registerUsage ← aset u (dst8 instr) i; mret (b, registerUsage)) (implements t)) as HK.
  { intros b Hb Hd Ha. apply marked; [done|].
    assert (upd_M op b m = Ok (set_r m (dst8 instr) (op (R m (dst8 instr)) (word m (int_address c instr m))))) as HM.
    { eapply exec_M; try done. unfold int_address. destruct (_ =? _); by apply land_masked. }
    repeat (apply elem_of_cons in Ht as [[= -> ->]|Ht];
      [by apply straight_implements; [rewrite Hb|..|unfold execute_straight; rewrite Hb]|]).
    by apply elem_of_nil in Ht. }
  destruct (src8 instr =? dst8 instr) eqn:E; cbn [negb mbind result_bind mret result_ret].
  - apply HK; [done..|]. erewrite address; [|reflexivity|reflexivity|by apply (land_masked 0)].
    unfold int_address. rewrite E. simpl. f_equal. f_equal. apply u64_id, u64_range.
  - rewrite Hg. cbn [mbind result_bind mret result_ret]. apply HK; [done..|].
    erewrite address; [|by apply aget_R|reflexivity|by apply (land_masked 0)].
    unfold int_address. by rewrite E.
Qed.

(** A register operation whose second operand is [operand v]. *)
Lemma int_operand_spec t op b v : type b = t -> t <> CBRANCH -> bdst b = L_r (dst8 instr) ->
  (forall b', type b' = t -> execute_straight eMask b' m = upd_R op b' m) ->
  spec_effect c eMask instr m t = set_r m (dst8 instr) (op (R m (dst8 instr)) (operand instr m v)) ->
  returns (registerUsage ← aset u (dst8 instr) i;
    mret (if negb (src8 instr =? dst8 instr) then Bytecode.set_src (L_r (src8 instr)) b
          else Bytecode.set_src L_imm (set_imm v b), registerUsage)) (implements t).
Proof.
  intros Hb Ht Hd Hx He. operands. unfold operand in He.
  destruct (src8 instr =? dst8 instr) eqn:E; cbn [negb]; (apply marked; [done|]);
    (apply straight_implements; [simpl; congruence|done|]); rewrite Hx, He by done.
  - by eapply exec_R.
  - eapply exec_R; [done..|]. by apply aget_R.
Qed.

Ltac by_type := intros b' E'; unfold execute_straight; rewrite E'; reflexivity.

Lemma int_R_spec t : t ∈ [ISUB_R; IMUL_R; IXOR_R] -> returns (compile_int_R t instr i ibc u) (implements t).
Proof.
  intros Ht. unfold compile_int_R. operands. cbn zeta.
  apply elem_of_cons in Ht as [->|Ht]; [by apply (int_operand_spec _ sub64); [..|by_type|]|].
  apply elem_of_cons in Ht as [->|Ht]; [by apply (int_operand_spec _ mul64); [..|by_type|]|].
  apply list_elem_of_singleton in Ht as ->. by apply (int_operand_spec _ Z.lxor); [..|by_type|].
Qed.

Lemma land_63 x : Z.land x 63 = x mod 64.
Proof. apply (Z.land_ones x 6). lia. Qed.

Lemma rot_R_spec t : t ∈ [IROR_R; IROL_R] -> returns (compile_rot_R t instr i ibc u) (implements t).
Proof.
  intros Ht. unfold compile_rot_R. operands. cbn zeta.
  apply elem_of_cons in Ht as [->|Ht].
  - apply (int_operand_spec _ (fun d s => rotr64 d (Z.land s 63))); [done..|by_type|].
    simpl. by rewrite land_63.
  - apply list_elem_of_singleton in Ht as ->.
    apply (int_operand_spec _ (fun d s => rotl64 d (Z.land s 63))); [done..|by_type|].
    simpl. by rewrite land_63.
Qed.

Lemma mulh_R_spec t : t ∈ [IMULH_R; ISMULH_R] -> returns (compile_mulh_R t instr i ibc u) (implements t).
Proof.
  intros Ht. unfold compile_mulh_R. operands. cbn zeta. apply marked; [done|].
  apply elem_of_cons in Ht as [->|Ht]; [|apply list_elem_of_singleton in Ht as ->];
    (apply straight_implements; [done..|]); (eapply exec_R; [done..|]; by apply aget_R).
Qed.

Lemma IMUL_RCP_spec : returns (compile_IMUL_RCP instr i ibc u) (implements IMUL_RCP).
Proof.
  unfold compile_IMUL_RCP. operands. cbn zeta.
  destruct (isZeroOrPowerOf2 (imm32 instr)) eqn:E; cbn [negb].
  - apply straight_implements; [done..|]. simpl. by rewrite E.
  - apply marked; [done|]. apply straight_implements; [done..|]. cbn [spec_effect]. rewrite E.
    by eapply exec_R.
Qed.

Lemma INEG_R_spec : returns (compile_INEG_R instr i ibc u) (implements INEG_R).
Proof.
  unfold compile_INEG_R. operands. cbn zeta. apply marked; [done|]. apply straight_implements; [done..|].
  unfold execute_straight. simpl. unfold exe_INEG_R. cbn [bdst iget set_dst set_type].
  rewrite aget_R by done. cbn [mbind result_bind]. rewrite iset_r by done. do 2 f_equal.
  unfold add64, not64. rewrite !u64_mod, Z.add_mod_idemp_l by lia. f_equal.
  pose proof (Z.add_lnot_diag (R m (dst8 instr))). lia.
Qed.

Lemma ISWAP_R_spec : returns (compile_ISWAP_R instr i ibc u) (implements ISWAP_R).
Proof.
  unfold compile_ISWAP_R. operands. cbn zeta. pose proof (mo_r _ _ Hm) as [Hl _].
  destruct (Z.eqb_spec (src8 instr) (dst8 instr)) as [E|E]; cbn [negb].
  - apply straight_implements; [done..|]. unfold spec_effect. rewrite E.
    unfold execute_straight. cbn [type set_type mret result_ret]. f_equal.
    rewrite list_insert_insert_eq. unfold R.
    rewrite list_insert_id; [by destruct m as [[]]|].
    apply list_lookup_lookup_total_lt. lia.
  - rewrite aset_ok by lia. cbn [mbind result_bind]. rewrite aset_ok by (rewrite length_insert; lia).
    apply straight_implements; [done..|]. unfold execute_straight.
    cbn [type set_type set_src set_dst]. unfold exe_ISWAP_R. cbn [bsrc bdst set_type set_src set_dst iget].
    rewrite !aget_R by done. cbn [mbind result_bind]. rewrite iset_r by done. cbn [mbind result_bind iset].
    rewrite aset_ok; [done|]. unfold set_r. simpl. rewrite length_insert. lia.
Qed.

Lemma FSWAP_R_spec : returns (compile_FSWAP_R instr ibc u) (implements FSWAP_R).
Proof.
  unfold compile_FSWAP_R. operands. cbn zeta. cbn [returns mret result_ret].
  change RegisterCountFlt with 4.
  destruct (Z.ltb_spec (dst8 instr) 4) as [Hlt|Hge]; (apply straight_implements; [done..|]);
    cbn [spec_effect]; [rewrite (proj2 (Z.ltb_lt _ _)) by done|rewrite (proj2 (Z.ltb_ge _ _)) by done].
  - apply exec_F_f; done || lia.
  - apply exec_F_e; done || lia.
Qed.

Lemma flt_R_spec t grp : (t, grp) ∈ [(FADD_R, L_f); (FSUB_R, L_f); (FMUL_R, L_e)] ->
  returns (compile_flt_R t grp instr ibc u) (implements t).
Proof.
  intros Ht. unfold compile_flt_R. operands. cbn zeta. cbn [returns mret result_ret].
  repeat (apply elem_of_cons in Ht as [[= -> ->]|Ht]; [apply straight_implements; [done..|];
    unfold execute_straight; cbn [type set_type set_dst Bytecode.set_src];
    unfold exe_FADD_R, exe_FSUB_R, exe_FMUL_R; cbn [bsrc set_src]; rewrite fget_A;
    cbn [mbind result_bind]; (by apply exec_F_f) || (by apply exec_F_e)|]).
  by apply elem_of_nil in Ht.
Qed.

Lemma flt_1_spec t grp : (t, grp) ∈ [(FSCAL_R, L_f); (FSQRT_R, L_e)] ->
  returns (compile_flt_1 t grp instr ibc u) (implements t).
Proof.
  intros Ht. unfold compile_flt_1. operands. cbn zeta. cbn [returns mret result_ret].
  repeat (apply elem_of_cons in Ht as [[= -> ->]|Ht]; [apply straight_implements; [done..|];
    (by apply exec_F_f) || (by apply exec_F_e)|]).
  by apply elem_of_nil in Ht.
Qed.

Lemma flt_M_spec t grp : (t, grp) ∈ [(FADD_M, L_f); (FSUB_M, L_f); (FDIV_M, L_e)] ->
  returns (compile_flt_M c t grp instr ibc u) (implements t).
Proof.
  intros Ht. unfold compile_flt_M. operands. cbn zeta. destruct mask_get as [Hg Hk]. rewrite Hg.
  cbn [mbind result_bind returns mret result_ret].
  assert (forall b, bsrc b = L_r (src8 instr) -> imm b = imm64 instr -> memMask b = level_mask c instr ->
    getScratchpadAddress b m = Ok (flt_address c instr m)) as Ha.
  { intros b Hs Him Hmk. erewrite address; [|rewrite Hs; by apply aget_R|done|by apply (land_masked 0)].
    unfold flt_address. by rewrite Him. }
  repeat (apply elem_of_cons in Ht as [[= -> ->]|Ht]; [apply straight_implements; [done..|];
    unfold execute_straight; cbn [type set_type set_dst set_src set_imm set_mask];
    unfold exe_FADD_M, exe_FSUB_M, exe_FDIV_M; rewrite Ha by done; cbn [mbind result_bind];
    rewrite cvt_pair by (by apply land_masked); cbn [mbind result_bind];
    (by apply exec_F_f) || (by apply exec_F_e)|]).
  by apply elem_of_nil in Ht.
Qed.

Lemma CFROUND_spec : returns (compile_CFROUND instr ibc u) (implements CFROUND).
Proof.
  unfold compile_CFROUND. operands. cbn zeta. apply straight_implements; [done..|].
  unfold execute_straight. cbn [type set_imm set_type]. unfold exe_CFROUND.
  cbn [bsrc imm set_imm set_type Bytecode.set_src iget]. rewrite aget_R by done.
  cbn [mbind result_bind mret result_ret spec_effect]. rewrite land_63, u32_id; [done|].
  pose proof (Z.mod_pos_bound (imm32 instr) 64). unfold is_u32. lia.
Qed.

Lemma ISTORE_spec : returns (compile_ISTORE c instr ibc u) (implements ISTORE).
Proof.
  unfold compile_ISTORE. operands. cbn zeta. destruct mask_get as [Hg Hk]. rewrite Hg.
  pose proof (L3Mask_range c Hc) as HL. pose proof (mo_pad _ _ Hm) as [Hp _].
  change (getModCond instr <? StoreL3Condition) with (getModCond instr <? 14).
  set (mk := if getModCond instr <? 14 then level_mask c instr else ScratchpadL3Mask c).
  assert (0 <= mk <= ScratchpadL3_Size c - 8) as Hmk by (unfold mk; by destruct (_ <? _)).
  replace (if getModCond instr <? 14 then Ok (level_mask c instr) else mret (ScratchpadL3Mask c))
    with (Ok mk) by (unfold mk; by destruct (_ <? _)).
  cbn [mbind result_bind]. apply straight_implements; [done..|].
  unfold execute_straight. cbn [type set_mask set_imm Bytecode.set_src set_dst set_type]. unfold exe_ISTORE.
  cbn [bdst bsrc imm memMask set_mask set_imm Bytecode.set_src set_dst set_type iget].
  rewrite !aget_R by done. cbn [mbind result_bind]. unfold mstore64.
  assert (length (store_le 8 (R m (src8 instr))) = 8%nat) as Hl by (apply length_store_le; lia).
  rewrite mstore_ok; [done|..]; rewrite ?Hl;
    destruct (land_masked (add64 (R m (dst8 instr)) (imm64 instr)) mk Hmk); lia.
Qed.

Lemma branch_cimm : let s := getModCond instr in
  Z.land (Z.lor (imm64 instr) (shl64 (shl64 1 JumpOffset) s)) (not64 (shl64 (shl64 1 (JumpOffset - 1)) s))
  = cimm instr.
Proof.
  intros s. pose proof (getModCond_range instr Hi) as Hs. fold s in Hs.
  change (shl64 1 JumpOffset) with (2 ^ 8). change (shl64 1 (JumpOffset - 1)) with (2 ^ 7).
  rewrite !shl64_pow by lia. unfold cimm, Z.clearbit, Z.setbit. fold s.
  rewrite !Z.shiftl_mul_pow2, !Z.mul_1_l by lia.
  apply Z.bits_inj'. intros j Hj. unfold not64, u64. change 0xFFFFFFFFFFFFFFFF with (Z.ones 64).
  rewrite Z.ldiff_spec, !Z.land_spec, Z.lnot_spec, Z.testbit_ones by lia.
  destruct (Z.lt_ge_cases j 64).
  - rewrite (proj2 (Z.leb_le _ _)), (proj2 (Z.ltb_lt _ _)) by lia. by rewrite !andb_true_r.
  - assert (is_u64 (Z.lor (imm64 instr) (2 ^ (8 + s)))) as [H0 H1].
    { apply lor64_range; [apply u64_range|]. split; [apply Z.pow_nonneg; lia|apply Z.pow_lt_mono_r; lia]. }
    by rewrite (proj1 (bits_bound 64 _ ltac:(lia) H0) H1).
Qed.

Lemma CBRANCH_spec : Forall (fun t => -1 <= t < 2 ^ 15) u ->
  returns (compile_CBRANCH instr i ibc u) (implements CBRANCH).
Proof.
  intros HT. unfold compile_CBRANCH. operands. cbn zeta. pose proof (getModCond_range instr Hi) as Hs.
  pose proof (mo_r _ _ Hm) as [Hl _].
  rewrite aget_lookup_total by lia. cbn [mbind result_bind mret result_ret returns].
  destruct (compiled_branch_imm (imm64 instr) (getModCond instr) (u64_range _) Hs) as [_ _ Hmk _ _].
  rewrite branch_cimm, Hmk. unfold implements, executeInstruction. cbn [fst type set_mask set_imm set_ts set_dst set_type].
  unfold exe_CBRANCH. cbn [bdst imm memMask set_mask set_imm set_ts set_dst set_type iget].
  rewrite aget_R by done. cbn [mbind result_bind]. rewrite iset_r by done. cbn [mbind result_bind].
  assert (aget (r (nreg (set_r m (dst8 instr) (add64 (R m (dst8 instr)) (cimm instr))))) (dst8 instr)
          = Ok (add64 (R m (dst8 instr)) (cimm instr))) as ->.
  { unfold set_r. cbn [nreg r with_r]. rewrite aget_lookup_total by (rewrite length_insert; lia).
    by rewrite list_lookup_total_insert_eq by lia. }
  cbn [mbind result_bind mret result_ret]. unfold spec, spec_pc, spec_effect. do 2 f_equal.
  erewrite target_of; [|reflexivity|].
  - rewrite land_cond by lia. assert (0 < 2 ^ (8 + getModCond instr)) by (apply Z.pow_pos_nonneg; lia).
    destruct (Z.eqb_spec ((add64 (R m (dst8 instr)) (cimm instr) / 2 ^ (8 + getModCond instr)) mod 256) 0) as [->|Hne].
    + by rewrite Z.mul_0_r.
    + rewrite (proj2 (Z.eqb_neq _ _)); [done|]. nia.
  - apply (Forall_lookup_1 (fun t => -1 <= t < 2 ^ 15) u (Z.to_nat (dst8 instr)) _ HT).
    apply list_lookup_lookup_total_lt. lia.
Qed.

End Access.

(** C6: the bytecode machine implements the RandomX instruction set: for every
    instruction, the compiler recognises its opcode, and executing the entry it
    produces on any well-formed machine changes the registers, the scratchpad,
    the rounding mode and the program counter exactly as the specification of
    that instruction says, the branch target being the last use of its register. *)
Theorem bytecode_implements_spec c eMask instr i pc ibc u m :
  Config.Config.wf c -> Instruction.Instruction.wf instr -> machine_ok (ScratchpadL3_Size c) m ->
  length u = 8%nat -> Forall (fun t => -1 <= t < 2 ^ 15) u ->
  exists t b u', opcode_type c all_types (opcode instr) = Some t /\
    compileInstruction c instr i ibc u = Ok (b, u') /\
    executeInstruction eMask b pc m = Ok (spec c eMask instr m t (u !!! Z.to_nat (dst8 instr)) pc).
Proof.
  intros Hc Hi Hm Hu HT.
  destruct (opcode_type_total c all_types (opcode instr)) as [t Ht].
  { rewrite (wf_freq c Hc). apply Hi. }
  assert (returns (compileInstruction c instr i ibc u) (implements c instr m eMask pc u t)) as HR.
  { unfold compileInstruction. rewrite Ht. destruct t;
      first [ by apply IADD_RS_spec | eapply int_M_spec; try done; in_list
            | apply int_R_spec; try done; in_list | apply mulh_R_spec; try done; in_list
            | by apply IMUL_RCP_spec | by apply INEG_R_spec | apply rot_R_spec; try done; in_list
            | by apply ISWAP_R_spec | by apply FSWAP_R_spec | apply flt_R_spec; try done; in_list
            | apply flt_1_spec; try done; in_list | apply flt_M_spec; try done; in_list
            | by apply CBRANCH_spec | by apply CFROUND_spec | by apply ISTORE_spec
            | by apply straight_implements ]. }
  apply returns_iff in HR as ([b u'] & E & HI). by exists t, b, u'.
Qed.

Lemma bytecode_implements_spec_witness :
  exists t b u', opcode_type Arqma all_types 220 = Some t /\
    compileInstruction Arqma (mk_instr 220 1 1 48 65280) 5 blank (replicate 8 (-1)) = Ok (b, u') /\
    executeInstruction (0, 0) b 5 sample_machine =
      Ok (spec Arqma (0, 0) (mk_instr 220 1 1 48 65280) sample_machine t (-1) 5).
Proof.
  apply (bytecode_implements_spec Arqma (0, 0) (mk_instr 220 1 1 48 65280) 5 5 blank (replicate 8 (-1))
    sample_machine).
  - apply variants_wf. unfold variants. in_list.
  - unfold Instruction.Instruction.wf, is_u8, is_u32. simpl. lia.
  - exact sample_machine_ok.
  - reflexivity.
  - apply Forall_replicate. lia.
Defined.

End BytecodeSpec.
