(* ===== verification/Dataset.v ===== *)
(** * Cache and dataset (crypto/randomx/dataset.cpp, crypto/rx/RxDataset.cpp)

    The superscalar hash of a dataset item over the cache, the initialisation
    of the dataset by one thread or by several, and the two ways the virtual
    machine reads an item: from the dataset, or by computing it (light mode).
    The virtual machine uses them through the interface [DatasetReader]. *)
From Stdlib Require Import ZArith Lia.
From stdpp Require Import base numbers list.
From S2P Require Import Prelude Reciprocal Blake2Generator Instruction Superscalar SuperscalarProofs Memory SoftAes Config.
Import Config.Config.
Import Superscalar.Superscalar SuperscalarProofs.SuperscalarProofs.
Open Scope Z_scope.

(** What the virtual machine needs of its dataset: [datasetRead address r]
    mixes the item at [address] into the eight registers [r]. *)
Class DatasetReader := { datasetRead : Z -> list Z -> result (list Z) }.

Module Dataset.

Definition ArgonBlockSize : Z := 1024.
Definition CacheLineSize : Z := RANDOMX_DATASET_ITEM_SIZE.
Definition DatasetItemCount : Z := (DatasetBaseSize + DatasetExtraSize) / RANDOMX_DATASET_ITEM_SIZE.

Record randomx_cache := mk_cache { cache_memory : mem; programs : list SuperscalarProgram }.

(** The part of [initCache] after Argon2 has filled [memory]: the generator is
    seeded with the key and draws [CacheAccesses] programs. *)
Fixpoint init_programs {Gen : Type} `{ByteSource Gen} (n : nat) (fuel : nat) (lat : Z)
    (progs : list SuperscalarProgram) (i : Z) (g : Gen) : result (list SuperscalarProgram * Gen) :=
  match n with
  | O => mret (progs, g)
  | S n =>
      p ← aget progs i;
      '(p, g) ← generateSuperscalar fuel lat p g;
      progs ← aset progs i p;
      init_programs n fuel lat progs (i + 1) g
  end.

Definition initCache (fuel : nat) (c : RandomX_Configuration) (memory : mem)
    (progs : list SuperscalarProgram) (key : list Z) (keySize : Z) : result randomx_cache :=
  let gen := Blake2Generator.Blake2Generator.make key keySize 0 in
  '(progs, _) ← init_programs (Z.to_nat CacheAccesses) fuel (SuperscalarLatency c) progs 0 gen;
  mret (mk_cache memory progs).

Definition superscalarMul0 : Z := 6364136223846793005.
Definition superscalarAdd : list Z :=
  [9298411001130361340; 12065312585734608966; 9306329213124626780; 5281919268842080866;
   10536153434571861004; 3398623926847679864; 9549104520008361294].

(** The offset of the mix block in the cache. *)
Definition getMixBlock (registerValue : Z) : Z :=
  let mask := u32 (ArgonMemory * ArgonBlockSize / CacheLineSize - 1) in
  Z.land registerValue mask * CacheLineSize.

(** [for (q = k; q < k + n; ++q) rl[q] ^= load64_native(block + 8 * q)] *)
Fixpoint xor_block (n : nat) (m : mem) (block k : Z) (rl : list Z) : result (list Z) :=
  match n with
  | O => mret rl
  | S n =>
      x ← aget rl k;
      y ← mload64 m (block + 8 * k);
      rl ← aset rl k (Z.lxor x y);
      xor_block n m block (k + 1) rl
  end.

Fixpoint item_loop (n : nat) (cache : randomx_cache) (i : Z) (registerValue : Z) (rl : list Z)
    : result (list Z) :=
  match n with
  | O => mret rl
  | S n =>
      let mixBlock := getMixBlock registerValue in
      prog ← aget (programs cache) i;
      rl ← executeSuperscalar rl prog;
      rl ← xor_block 8 (cache_memory cache) mixBlock 0 rl;
      registerValue ← aget rl (addrReg prog);
      item_loop n cache (i + 1) registerValue rl
  end.

Definition initDatasetItem (cache : randomx_cache) (itemNumber : Z) : result (list Z) :=
  let rl0 := mul64 (add64 itemNumber 1) superscalarMul0 in
  item_loop (Z.to_nat CacheAccesses) cache 0 itemNumber (rl0 :: (Z.lxor rl0 <$> superscalarAdd)).

(** [memcpy(out, &rl, CacheLineSize)] *)
Definition words_bytes (rl : list Z) : list Z := mjoin (store_le 8 <$> rl).

Definition write_item (cache : randomx_cache) (dataset : mem) (out itemNumber : Z) : result mem :=
  rl ← initDatasetItem cache itemNumber;
  mstore dataset out (words_bytes rl).

(** The loop of [initDataset] on [n] items, writing at [out]. *)
Fixpoint initDataset (n : nat) (cache : randomx_cache) (dataset : mem) (out itemNumber : Z) : result mem :=
  match n with
  | O => mret dataset
  | S n =>
      dataset ← write_item cache dataset out itemNumber;
      initDataset n cache dataset (out + CacheLineSize) (itemNumber + 1)
  end.

Definition randomx_init_dataset (cache : randomx_cache) (dataset : mem) (startItem itemCount : Z) : result mem :=
  initDataset (Z.to_nat itemCount) cache dataset (startItem * CacheLineSize) startItem.

(** The ranges [(a, b - a)] of [RxDataset::init]: thread [i] of [numThreads]. *)
Definition thread_start (count numThreads i : Z) : Z := u32 (count * i / numThreads).
Definition thread_range (count numThreads i : Z) : Z * Z :=
  let a := thread_start count numThreads i in
  let b := thread_start count numThreads (i + 1) in
  (a, b - a).
Definition thread_ranges (count numThreads : Z) : list (Z * Z) :=
  if 1 <? numThreads then thread_range count numThreads <$> seqZ 0 numThreads else [(0, count)].

(** The calls of [randomx_init_dataset] that [init_dataset_wrapper] makes in a thread: a
    range that the vector code cannot do in full steps ends with a step of its own. *)
Definition init_dataset_wrapper (hasAVX2 riscv : bool) (range : Z * Z) : list (Z * Z) :=
  let '(startItem, itemCount) := range in
  if hasAVX2 && negb (itemCount mod 5 =? 0) then
    [(startItem, itemCount - itemCount mod 5); (u32 (startItem + itemCount - 5), 5)]
  else if riscv && negb (itemCount mod 4 =? 0) then
    [(startItem, itemCount - itemCount mod 4); (u32 (startItem + itemCount - 4), 4)]
  else [(startItem, itemCount)].

(** All calls of [RxDataset::init] *)
Definition init_calls (hasAVX2 riscv : bool) (count numThreads : Z) : list (Z * Z) :=
  thread_ranges count numThreads ≫= init_dataset_wrapper hasAVX2 riscv.

(** ** Reading an item *)

(** [InterpretedVm::datasetRead] *)
Definition full_datasetRead (dataset : mem) (address : Z) (r : list Z) : result (list Z) :=
  xor_block 8 dataset address 0 r.

(** [InterpretedLightVm::datasetRead] *)
Definition light_datasetRead (cache : randomx_cache) (address : Z) (r : list Z) : result (list Z) :=
  let itemNumber := u32 (address / CacheLineSize) in
  rl ← initDatasetItem cache itemNumber;
  mret (zip_with Z.lxor r rl).

Definition full_reader (dataset : mem) : DatasetReader := {| datasetRead := full_datasetRead dataset |}.
Definition light_reader (cache : randomx_cache) : DatasetReader := {| datasetRead := light_datasetRead cache |}.

End Dataset.

(** The law of the interface: an aligned read inside the dataset returns
    eight words. *)
Class DatasetLaws (D : DatasetReader) : Prop :=
  read_ok : forall address r, 0 <= address -> address mod 64 = 0 ->
    address + 64 <= DatasetBaseSize + DatasetExtraSize -> length r = 8%nat -> Forall is_u64 r ->
    returns (datasetRead address r) (fun r' => length r' = 8%nat /\ Forall is_u64 r').
