(* ===== verification/DatasetProofs.v ===== *)
(** * Correctness of the dataset

    Every item of the dataset is computed inside the cache; any division of
    the work between threads, and any interleaving of their items, fills the
    dataset identically; and reading the filled dataset is computing the item,
    so the light mode agrees with the fast one. *)
From Stdlib Require Import ZArith Lia.
From stdpp Require Import base numbers list.
From S2P Require Import Prelude Reciprocal Blake2Generator Instruction Superscalar SuperscalarProofs Memory SoftAes Config Dataset.
Import Config.Config Dataset.Dataset.
Import Superscalar.Superscalar SuperscalarProofs.SuperscalarProofs.
Open Scope Z_scope.

Module DatasetProofs.

(** A cache: filled memory and eight programs of the generator. *)
Record cache_ok (cache : randomx_cache) : Prop := {
  co_mem : msize (cache_memory cache) = ArgonMemory * ArgonBlockSize /\ Forall is_u8 (cache_memory cache);
  co_len : CacheAccesses <= Z.of_nat (length (programs cache));
  co_progs : forall i p, 0 <= i < CacheAccesses -> programs cache !! Z.to_nat i = Some p ->
    exists lat, prog_wf lat p /\ lat <= RANDOMX_SUPERSCALAR_MAX_LATENCY }.

Definition regs_ok (rl : list Z) : Prop := length rl = 8%nat /\ Forall is_u64 rl.

Lemma getMixBlock_range x : 0 <= getMixBlock x <= ArgonMemory * ArgonBlockSize - 64.
Proof.
  unfold getMixBlock. change (u32 (ArgonMemory * ArgonBlockSize / CacheLineSize - 1)) with 4194303.
  change (ArgonMemory * ArgonBlockSize) with 268435456. change CacheLineSize with 64.
  pose proof (land_le_r x 4194303). lia.
Qed.

(** The words of a block of memory. *)
Definition block_words (m : mem) (block : Z) : list Z :=
  (fun k => load_le (chunk m (block + 8 * k) 8)) <$> seqZ 0 8.

Lemma xor_block_eq n m block k rl : regs_ok rl -> 0 <= k -> k + Z.of_nat n = 8 ->
  0 <= block -> block + 64 <= msize m -> Forall is_u8 m ->
  exists rl', xor_block n m block k rl = Ok rl' /\ regs_ok rl' /\
    forall j, (j < 8)%nat -> rl' !!! j = if decide (Z.to_nat k <= j)%nat
      then Z.lxor (rl !!! j) (load_le (chunk m (block + 8 * Z.of_nat j) 8)) else rl !!! j.
Proof.
  revert k rl. induction n as [|n IH]; intros k rl [Hl HF] Hk Hn Hb Hs HB; cbn [xor_block].
  - exists rl. split_and!; [done|done|]. intros j Hj. by rewrite decide_False by lia.
  - destruct (aget_total rl k) as (x & -> & Hx); [lia|]. cbn [mbind result_bind].
    assert (is_u64 x) by (by eapply (Forall_lookup_1 is_u64)).
    pose proof (mload64_returns m (block + 8 * k) ltac:(lia) ltac:(lia) HB) as Hy.
    unfold mload64 in *. rewrite mload_ok in * by lia. cbn [mbind result_bind mret result_ret returns] in *.
    rewrite aset_ok by lia. cbn [mbind result_bind].
    set (rl1 := <[Z.to_nat k := _]> rl).
    assert (regs_ok rl1) as Hr1.
    { split; [by unfold rl1; rewrite length_insert|]. apply Forall_insert; [done|]. by apply lxor64_range. }
    destruct (IH (k + 1) rl1 Hr1 ltac:(lia) ltac:(lia) Hb Hs HB) as (rl' & -> & Hr' & Hv).
    exists rl'. split_and!; [done|done|]. intros j Hj. rewrite Hv by done.
    destruct (Nat.eq_dec j (Z.to_nat k)) as [->|Hne].
    + rewrite decide_False, decide_True by lia. unfold rl1.
      rewrite list_lookup_total_insert_eq by lia. rewrite (list_lookup_total_correct _ _ _ Hx).
      by replace (Z.of_nat (Z.to_nat k)) with k by lia.
    + unfold rl1. rewrite list_lookup_total_insert_ne by lia.
      destruct (decide (Z.to_nat k <= j)%nat); [rewrite decide_True by lia|rewrite decide_False by lia]; done.
Qed.

(** Mixing a block into the registers. *)
Lemma xor_block_words m block rl : regs_ok rl -> 0 <= block -> block + 64 <= msize m -> Forall is_u8 m ->
  xor_block 8 m block 0 rl = Ok (zip_with Z.lxor rl (block_words m block)) /\
  regs_ok (zip_with Z.lxor rl (block_words m block)).
Proof.
  intros Hr Hb Hs HB. destruct (xor_block_eq 8 m block 0 rl Hr) as (rl' & E & Hr' & Hv); [lia..|done|].
  enough (rl' = zip_with Z.lxor rl (block_words m block)) as <- by done.
  apply list_eq. intros j. destruct (decide (j < 8)%nat) as [Hj|Hj].
  - destruct Hr as [Hl _], Hr' as [Hl' _].
    rewrite (list_lookup_lookup_total_lt rl') by lia. rewrite Hv, decide_True by lia.
    rewrite lookup_zip_with, (list_lookup_lookup_total_lt rl) by lia. unfold block_words.
    rewrite list_lookup_fmap, lookup_seqZ_lt by lia. done.
  - destruct Hr as [Hl _], Hr' as [Hl' _].
    rewrite !lookup_ge_None_2; [done| |lia]. rewrite length_zip_with. lia.
Qed.

Lemma xor_block_returns m block rl : regs_ok rl -> 0 <= block -> block + 64 <= msize m -> Forall is_u8 m ->
  returns (xor_block 8 m block 0 rl) regs_ok.
Proof. intros. destruct (xor_block_words m block rl) as [-> ?]; done. Qed.

(** ** The superscalar hash of an item *)

Lemma item_loop_returns n cache i rv rl : cache_ok cache -> regs_ok rl -> 0 <= i ->
  i + Z.of_nat n = CacheAccesses -> returns (item_loop n cache i rv rl) regs_ok.
Proof.
  intros Hc. pose proof (co_mem _ Hc) as [Hs HB]. pose proof (co_len _ Hc) as Hlen.
  revert i rv rl. induction n as [|n IH]; intros i rv rl [Hl HF] Hi Hn; cbn [item_loop]; [done|].
  destruct (aget_total (programs cache) i) as (p & -> & Hp); [lia|]. cbn [mbind result_bind].
  destruct (co_progs _ Hc i p ltac:(lia) Hp) as (lat & Hwf & Hlat).
  eapply returns_use; [by apply (executeSuperscalar_returns lat)|]. intros rl1 Hr1.
  pose proof (getMixBlock_range rv).
  eapply returns_use; [apply xor_block_returns; done || lia|]. intros rl2 [Hl2 HF2].
  destruct Hwf as (_ & _ & _ & _ & _ & Ha & _).
  destruct (aget_total rl2 (addrReg p)) as (x & -> & _); [lia|]. cbn [mbind result_bind].
  apply IH; [done|lia|lia].
Qed.

Lemma initDatasetItem_returns cache itemNumber : cache_ok cache ->
  returns (initDatasetItem cache itemNumber) regs_ok.
Proof.
  intros Hc. unfold initDatasetItem. apply item_loop_returns; [done| |lia|done].
  split; [done|]. assert (is_u64 (mul64 (add64 itemNumber 1) superscalarMul0)) as H0 by auto with word.
  apply Forall_cons_2; [done|]. unfold superscalarAdd.
  repeat (apply Forall_cons_2; [apply lxor64_range; [done|unfold is_u64; lia]|]). apply Forall_nil_2.
Qed.

(** ** Filling the dataset *)

Section Fill.
Context (cache : randomx_cache) (Hcache : cache_ok cache).

(** The bytes of item [k]. *)
Definition item_bytes (k : Z) : list Z :=
  match initDatasetItem cache k with Ok rl => words_bytes rl | _ => [] end.

Lemma words_bytes_ok rl : regs_ok rl -> length (words_bytes rl) = 64%nat /\ Forall is_u8 (words_bytes rl).
Proof.
  intros [Hl _]. do 8 (destruct rl as [|? rl]; [done|]). destruct rl; [|done]. unfold words_bytes. cbn -[store_le].
  rewrite !length_app, !length_store_le by lia. split; [done|].
  repeat (apply Forall_app_2; [apply store_le_bytes; lia|]). apply Forall_nil_2.
Qed.

Lemma item_bytes_ok k : length (item_bytes k) = 64%nat /\ Forall is_u8 (item_bytes k).
Proof.
  unfold item_bytes. pose proof (initDatasetItem_returns cache k Hcache) as H.
  destruct (initDatasetItem cache k); [by apply words_bytes_ok|done|done].
Qed.

Lemma write_item_eq dataset k : 0 <= k -> 64 * k + 64 <= msize dataset ->
  write_item cache dataset (64 * k) k = Ok (splice dataset (64 * k) (item_bytes k)).
Proof.
  intros Hk Hs. destruct (item_bytes_ok k) as [Hl _]. unfold write_item, item_bytes in *.
  pose proof (initDatasetItem_returns cache k Hcache) as H.
  destruct (initDatasetItem cache k); [|done|done]. simpl. apply mstore_ok; [lia|]. rewrite Hl. lia.
Qed.

(** The work of all threads in the order it happens: a list of items. *)
Fixpoint run_schedule (dataset : mem) (ks : list Z) : result mem :=
  match ks with
  | [] => mret dataset
  | k :: ks => dataset ← write_item cache dataset (64 * k) k; run_schedule dataset ks
  end.

Lemma initDataset_schedule n dataset start :
  initDataset n cache dataset (64 * start) start = run_schedule dataset (seqZ start (Z.of_nat n)).
Proof.
  revert dataset start. induction n as [|n IH]; intros dataset start; [done|].
  rewrite seqZ_cons by lia. cbn [initDataset run_schedule].
  destruct (write_item cache dataset (64 * start) start) as [d| |]; [|done|done].
  cbn [mbind result_bind]. change CacheLineSize with 64.
  replace (64 * start + 64) with (64 * (start + 1)) by lia.
  replace (start + 1) with (Z.succ start) by lia. rewrite IH. do 2 f_equal. lia.
Qed.

Lemma run_schedule_app dataset ks1 ks2 :
  run_schedule dataset (ks1 ++ ks2) = (d ← run_schedule dataset ks1; run_schedule d ks2).
Proof.
  revert dataset. induction ks1 as [|k ks1 IH]; intros dataset; [done|]. cbn [run_schedule app].
  destruct (write_item cache dataset (64 * k) k) as [d| |]; [|done|done]. apply IH.
Qed.

Lemma lookup_splice m off bs j : 0 <= off -> off + Z.of_nat (length bs) <= msize m ->
  splice m off bs !! j = if decide (off <= Z.of_nat j < off + Z.of_nat (length bs))
    then bs !! (j - Z.to_nat off)%nat else m !! j.
Proof.
  intros H0 H1. unfold splice, msize in *. rewrite lookup_app.
  destruct (decide (j < Z.to_nat off)%nat) as [Hj|Hj].
  - rewrite decide_False by lia. rewrite lookup_take_lt by lia.
    destruct (lookup_lt_is_Some_2 m j) as [x ->]; [lia|done].
  - rewrite (lookup_ge_None_2 (take _ m)) by (rewrite length_take; lia).
    rewrite length_take, Nat.min_l by lia. rewrite lookup_app. case_decide as Hd.
    + destruct (lookup_lt_is_Some_2 bs (j - Z.to_nat off)) as [x ->]; [lia|done].
    + rewrite lookup_ge_None_2 by lia. rewrite lookup_drop. f_equal. lia.
Qed.

Definition in_range (dataset : mem) (k : Z) : Prop := 0 <= k /\ 64 * k + 64 <= msize dataset.

(** Byte [j] of the dataset after a schedule: item [j / 64] if it was computed,
    and what it was before otherwise.  Neither order nor repetition matters. *)
Lemma run_schedule_bytes dataset ks : Forall (in_range dataset) ks ->
  exists dataset', run_schedule dataset ks = Ok dataset' /\ msize dataset' = msize dataset /\
    forall j, dataset' !! j =
      if decide (Z.of_nat j / 64 ∈ ks) then item_bytes (Z.of_nat j / 64) !! (j mod 64)%nat else dataset !! j.
Proof.
  revert dataset. induction ks as [|k ks IH]; intros dataset HF; cbn [run_schedule].
  { exists dataset. split_and!; [done|done|]. intros j. rewrite decide_False; [done|apply not_elem_of_nil]. }
  apply Forall_cons_1 in HF as [[Hk Hs] HF]. rewrite write_item_eq by done. cbn [mbind result_bind].
  destruct (item_bytes_ok k) as [Hl _].
  assert (msize (splice dataset (64 * k) (item_bytes k)) = msize dataset) as Hms
    by (apply msize_splice; rewrite ?Hl; lia).
  destruct (IH (splice dataset (64 * k) (item_bytes k))) as (d' & -> & Hms' & Hv).
  { eapply Forall_impl; [exact HF|]. intros x [? ?]. split; [done|]. by rewrite Hms. }
  exists d'. split_and!; [done|by rewrite Hms'|]. intros j. rewrite Hv.
  rewrite lookup_splice by (rewrite ?Hl; lia). rewrite Hl.
  destruct (decide (Z.of_nat j / 64 ∈ ks)) as [Hin|Hin].
  { rewrite decide_True; [done|]. apply elem_of_cons. by right. }
  pose proof (Z.div_mod (Z.of_nat j) 64 ltac:(lia)). pose proof (Z.mod_pos_bound (Z.of_nat j) 64 ltac:(lia)).
  destruct (decide (64 * k <= Z.of_nat j < 64 * k + Z.of_nat 64)) as [Hd|Hd].
  - assert (Z.of_nat j / 64 = k) as E by (symmetry; apply (Z.div_unique _ _ _ (Z.of_nat j - 64 * k)); lia).
    rewrite E, decide_True by (apply elem_of_cons; by left). f_equal.
    apply Nat2Z.inj. rewrite Nat2Z.inj_mod. change (Z.of_nat 64) with 64. lia.
  - rewrite decide_False; [done|]. rewrite elem_of_cons. intros [E|]; [lia|done].
Qed.

(** Two schedules of the same items fill the dataset identically. *)
Lemma run_schedule_perm dataset ks1 ks2 : Forall (in_range dataset) ks1 ->
  (forall k, k ∈ ks1 <-> k ∈ ks2) -> run_schedule dataset ks1 = run_schedule dataset ks2.
Proof.
  intros H1 Hiff. assert (Forall (in_range dataset) ks2) as H2.
  { apply Forall_forall. intros k Hk. rewrite Forall_forall in H1. apply H1. by apply Hiff. }
  destruct (run_schedule_bytes dataset ks1 H1) as (d1 & -> & _ & Hv1).
  destruct (run_schedule_bytes dataset ks2 H2) as (d2 & -> & _ & Hv2).
  f_equal. apply list_eq. intros j. rewrite Hv1, Hv2.
  destruct (decide (Z.of_nat j / 64 ∈ ks1)) as [Hin|Hin].
  - rewrite decide_True; [done|]. by apply Hiff.
  - rewrite decide_False; [done|]. by rewrite <- Hiff.
Qed.

(** The threads' ranges cover the items once. *)
Definition range_items (range : Z * Z) : list Z := seqZ range.1 range.2.

Lemma thread_start_eq count numThreads i : 0 <= count < 2 ^ 32 -> 0 < numThreads -> 0 <= i <= numThreads ->
  thread_start count numThreads i = count * i / numThreads /\ 0 <= count * i / numThreads <= count.
Proof.
  intros Hc Hn Hi. assert (0 <= count * i / numThreads <= count) as H.
  { split; [apply Z.div_pos; nia|]. apply Z.div_le_upper_bound; nia. }
  split; [|done]. apply u32_id. unfold is_u32. lia.
Qed.

Lemma ranges_prefix count numThreads j : 0 <= count < 2 ^ 32 -> 0 < numThreads -> Z.of_nat j <= numThreads ->
  mjoin (range_items <$> (thread_range count numThreads <$> seqZ 0 (Z.of_nat j)))
  = seqZ 0 (count * Z.of_nat j / numThreads).
Proof.
  intros Hc Hn. induction j as [|j IH]; intros Hj.
  { rewrite Z.mul_0_r. by rewrite Z.div_0_l by lia. }
  replace (Z.of_nat (S j)) with (Z.of_nat j + 1) by lia.
  rewrite seqZ_app, !fmap_app, join_app, IH by lia.
  rewrite (seqZ_cons _ 1), (seqZ_nil _ (Z.pred 1)), Z.add_0_l by lia. cbn -[Z.mul seqZ thread_range].
  rewrite app_nil_r. unfold range_items, thread_range. cbn [fst snd].
  destruct (thread_start_eq count numThreads (Z.of_nat j)) as [-> H1]; [lia..|].
  destruct (thread_start_eq count numThreads (Z.of_nat j + 1)) as [-> H2]; [lia..|].
  assert (count * Z.of_nat j / numThreads <= count * (Z.of_nat j + 1) / numThreads)
    by (apply Z.div_le_mono; nia).
  set (x := count * Z.of_nat j / numThreads) in *. set (y := count * (Z.of_nat j + 1) / numThreads) in *.
  replace y with (x + (y - x)) at 2 by lia. rewrite seqZ_app by lia. by rewrite Z.add_0_l.
Qed.

Lemma thread_ranges_cover count numThreads : 0 <= count < 2 ^ 32 ->
  mjoin (range_items <$> thread_ranges count numThreads) = seqZ 0 count.
Proof.
  intros Hc. unfold thread_ranges. destruct (Z.ltb_spec 1 numThreads) as [Hn|].
  - pose proof (ranges_prefix count numThreads (Z.to_nat numThreads) Hc ltac:(lia) ltac:(lia)) as H.
    replace (Z.of_nat (Z.to_nat numThreads)) with numThreads in H by lia. rewrite H.
    by rewrite Z.div_mul by lia.
  - cbn -[seqZ]. by rewrite app_nil_r.
Qed.

Lemma seqZ_in_range dataset count : 0 <= count -> 64 * count <= msize dataset ->
  Forall (in_range dataset) (seqZ 0 count).
Proof. intros. apply Forall_forall. intros k Hk%elem_of_seqZ. split; lia. Qed.

Lemma randomx_init_dataset_total dataset count : 0 <= count -> 64 * count <= msize dataset ->
  exists dataset', randomx_init_dataset cache dataset 0 count = Ok dataset'.
Proof.
  intros Hc Hs. unfold randomx_init_dataset. rewrite (initDataset_schedule _ dataset 0).
  replace (Z.of_nat (Z.to_nat count)) with count by lia.
  destruct (run_schedule_bytes dataset _ (seqZ_in_range dataset count Hc Hs)) as (d & -> & _). by exists d.
Qed.

Lemma init_dataset_ok dataset dataset' count : 0 <= count -> 64 * count <= msize dataset ->
  Forall is_u8 dataset -> randomx_init_dataset cache dataset 0 count = Ok dataset' ->
  msize dataset' = msize dataset /\ Forall is_u8 dataset'.
Proof.
  intros Hc Hs HB Hinit. unfold randomx_init_dataset in Hinit.
  rewrite (initDataset_schedule _ dataset 0) in Hinit.
  replace (Z.of_nat (Z.to_nat count)) with count in Hinit by lia.
  destruct (run_schedule_bytes dataset _ (seqZ_in_range dataset count Hc Hs)) as (d & E & Hms & Hv).
  rewrite Hinit in E. injection E as <-. split; [done|].
  apply Forall_lookup_2. intros j x Hx. rewrite Hv in Hx.
  case_decide; [|by eapply (Forall_lookup_1 is_u8)].
  eapply (Forall_lookup_1 is_u8); [apply item_bytes_ok|done].
Qed.

(** The ranges are inside of the dataset, and none is smaller than an even share. *)
Lemma thread_ranges_bounds count numThreads a c : 0 <= count < 2 ^ 32 -> (a, c) ∈ thread_ranges count numThreads ->
  0 <= a /\ a + c <= count /\ count / Z.max 1 numThreads <= c.
Proof.
  intros Hc. unfold thread_ranges. destruct (Z.ltb_spec 1 numThreads) as [Hn|Hn].
  - rewrite Z.max_r by lia. intros (i & [= -> ->] & Hi%elem_of_seqZ)%list_elem_of_fmap.
    destruct (thread_start_eq count numThreads i) as [-> H1]; [lia..|]. destruct (thread_start_eq count numThreads (i + 1)) as [-> H2]; [lia..|].
    split; [lia|]. split; [lia|]. pose proof (Z.div_mod count numThreads ltac:(lia)). pose proof (Z.mod_pos_bound count numThreads ltac:(lia)).
    assert (count * i / numThreads + count / numThreads <= count * (i + 1) / numThreads); [|lia].
    apply Z.div_le_lower_bound; [lia|]. pose proof (Z.mul_div_le (count * i) numThreads ltac:(lia)). nia.
  - intros [= -> ->]%list_elem_of_singleton. rewrite Z.max_l, Z.div_1_r by lia. lia.
Qed.

(** The calls of a thread compute the items of its range. *)
Lemma wrapper_items hasAVX2 riscv a c k : 0 <= a -> 0 <= c -> a + c < 2 ^ 32 -> (hasAVX2 || riscv = true -> 5 <= c) ->
  k ∈ mjoin (range_items <$> init_dataset_wrapper hasAVX2 riscv (a, c)) <-> k ∈ range_items (a, c).
Proof.
  intros Ha Hc Hs H5.
  assert (Htwo : forall s, 4 <= s <= 5 -> s <= c ->
    k ∈ mjoin (range_items <$> [(a, c - c mod s); (u32 (a + c - s), s)]) <-> k ∈ range_items (a, c)).
  { intros s Hs5 Hsc. rewrite u32_id by (unfold is_u32; lia). pose proof (Z.mod_pos_bound c s ltac:(lia)) as Hm. cbn [fmap list_fmap mjoin list_join]. unfold range_items. cbn [fst snd].
    rewrite app_nil_r, elem_of_app, !elem_of_seqZ. lia. }
  unfold init_dataset_wrapper. destruct hasAVX2; cbn [andb orb] in *.
  - destruct (negb (c mod 5 =? 0)); [apply Htwo; lia|]. destruct riscv; cbn [andb]; [destruct (negb _); [apply Htwo; lia|]|];
      cbn -[seqZ]; by rewrite app_nil_r.
  - destruct riscv; cbn [andb]; [destruct (negb _); [apply Htwo; lia|]|]; cbn -[seqZ]; by rewrite app_nil_r.
Qed.

Lemma init_calls_cover hasAVX2 riscv count numThreads k : 0 <= count < 2 ^ 32 ->
  (hasAVX2 || riscv = true -> 5 * Z.max 1 numThreads <= count) ->
  k ∈ mjoin (range_items <$> init_calls hasAVX2 riscv count numThreads) <-> k ∈ seqZ 0 count.
Proof.
  intros Hc H5. rewrite <- (thread_ranges_cover count numThreads Hc). unfold init_calls.
  assert (Hw : forall a c, (a, c) ∈ thread_ranges count numThreads ->
    k ∈ mjoin (range_items <$> init_dataset_wrapper hasAVX2 riscv (a, c)) <-> k ∈ range_items (a, c)).
  { intros a c Hin. destruct (thread_ranges_bounds count numThreads a c Hc Hin) as (Ha & Hac & Hs).
    assert (0 <= count / Z.max 1 numThreads) by (apply Z.div_pos; lia). apply wrapper_items; try lia. intros Hv%H5.
    etransitivity; [|exact Hs]. apply Z.div_le_lower_bound; lia. }
  rewrite !list_elem_of_join. setoid_rewrite list_elem_of_fmap. setoid_rewrite list_elem_of_bind. split.
  - intros (l & Hk & r & -> & [a c] & Hr & Hin). exists (range_items (a, c)). split; [|by exists (a, c)]. apply Hw; [done|].
    apply list_elem_of_join. exists (range_items r). split; [done|]. apply list_elem_of_fmap. by exists r.
  - intros (l & Hk & [a c] & -> & Hin). apply Hw in Hk; [|done]. apply list_elem_of_join in Hk as (l & Hk & Hl).
    apply list_elem_of_fmap in Hl as (r & -> & Hr). exists (range_items r). split; [done|]. exists r. split; [done|]. by exists (a, c).
Qed.

(** C14: however [RxDataset::init] divides the dataset between threads, and
    however the items of all threads interleave, the dataset ends up as if one thread
    had initialised it in order, also with the vector code, for which the threads split
    their ranges once more and compute some items twice: every item is computed, every
    write is inside the dataset and inside the item's own cache line.  With vector code
    there must be five items for every thread (the dataset has more than 34 million). *)
Theorem dataset_init_threads dataset hasAVX2 riscv count numThreads schedule :
  0 <= count < 2 ^ 32 -> 64 * count <= msize dataset -> (hasAVX2 || riscv = true -> 5 * Z.max 1 numThreads <= count) ->
  schedule ≡ₚ mjoin (range_items <$> init_calls hasAVX2 riscv count numThreads) ->
  run_schedule dataset schedule = randomx_init_dataset cache dataset 0 count /\
  exists dataset', randomx_init_dataset cache dataset 0 count = Ok dataset'.
Proof.
  intros Hc Hs H5 Hp. split; [|by apply randomx_init_dataset_total; [lia|]]. unfold randomx_init_dataset.
  rewrite (initDataset_schedule _ dataset 0). replace (Z.of_nat (Z.to_nat count)) with count by lia.
  pose proof (seqZ_in_range dataset count ltac:(lia) Hs) as HF.
  symmetry. apply run_schedule_perm; [done|]. intros k. by rewrite Hp, init_calls_cover.
Qed.

(** ** Reading the dataset *)

Lemma store_words_lookup rl j q : regs_ok rl -> (j < 8)%nat -> (q < 8)%nat ->
  words_bytes rl !! (8 * j + q)%nat = store_le 8 (rl !!! j) !! q.
Proof.
  intros [Hl _] Hj Hq. unfold words_bytes.
  do 8 (destruct rl as [|? rl]; [done|]). destruct rl; [|done]. cbn -[store_le Nat.mul].
  assert (forall x, length (store_le 8 x) = 8%nat) as HL by (intros; apply length_store_le; lia).
  assert (forall x l i, (8 <= i)%nat -> (store_le 8 x ++ l) !! i = l !! (i - 8)%nat) as Hge
    by (intros; rewrite lookup_app_r; rewrite HL; done).
  do 8 (destruct j as [|j]; [cbn -[store_le Nat.mul]; rewrite ?Hge by lia;
    rewrite lookup_app_l by (rewrite HL; lia); f_equal; lia|]). lia.
Qed.

Lemma filled_words dataset dataset' count k rl : 0 <= count -> 64 * count <= msize dataset ->
  run_schedule dataset (seqZ 0 count) = Ok dataset' -> 0 <= k < count -> initDatasetItem cache k = Ok rl ->
  msize dataset' = msize dataset /\ block_words dataset' (64 * k) = rl.
Proof.
  intros Hc Hs Hrun Hk Hrl.
  destruct (run_schedule_bytes dataset _ (seqZ_in_range dataset count Hc Hs)) as (d & E & Hms & Hv).
  rewrite Hrun in E. injection E as <-. split; [done|].
  pose proof (initDatasetItem_returns cache k Hcache) as Hr. rewrite Hrl in Hr. simpl in Hr.
  apply list_eq. intros j. unfold block_words. destruct (decide (j < 8)%nat) as [Hj|Hj].
  - rewrite list_lookup_fmap, lookup_seqZ_lt, Z.add_0_l by lia.
    cbn [fmap option_fmap option_map]. destruct Hr as [Hl HF].
    rewrite (list_lookup_lookup_total_lt rl) by lia. f_equal.
    assert (is_u64 (rl !!! j)) as Hu
      by (eapply (Forall_lookup_1 is_u64); [done|]; apply list_lookup_lookup_total_lt; lia).
    assert (chunk dataset' (64 * k + 8 * Z.of_nat j) 8 = store_le 8 (rl !!! j)) as ->.
    { apply list_eq. intros q. unfold chunk. destruct (decide (q < 8)%nat) as [Hq|Hq].
      - rewrite lookup_take_lt, lookup_drop by lia. rewrite Hv.
        assert (Z.of_nat (Z.to_nat (64 * k + 8 * Z.of_nat j) + q) / 64 = k) as ->.
        { symmetry. apply (Z.div_unique _ _ _ (8 * Z.of_nat j + Z.of_nat q)); lia. }
        rewrite decide_True by (apply elem_of_seqZ; lia). unfold item_bytes. rewrite Hrl.
        rewrite <- store_words_lookup by done. f_equal.
        symmetry. apply (Nat.mod_unique _ _ (Z.to_nat k)); lia.
      - rewrite !lookup_ge_None_2; [done| |rewrite length_take; lia].
        rewrite length_store_le by lia. lia. }
    rewrite load_store_le by lia. by apply Z.mod_small.
  - destruct Hr as [Hl _]. rewrite !lookup_ge_None_2; [done|lia|].
    rewrite length_fmap, length_seqZ. lia.
Qed.

Lemma light_full_read dataset dataset' count address r :
  0 <= count < 2 ^ 32 -> 64 * count <= msize dataset -> Forall is_u8 dataset ->
  randomx_init_dataset cache dataset 0 count = Ok dataset' ->
  0 <= address -> address mod 64 = 0 -> address + 64 <= 64 * count -> regs_ok r ->
  full_datasetRead dataset' address r = light_datasetRead cache address r.
Proof.
  intros Hc Hs HB Hinit Ha Hm Hin Hr.
  destruct (init_dataset_ok dataset dataset' count ltac:(lia) Hs HB Hinit) as [_ HB'].
  unfold randomx_init_dataset in Hinit.
  rewrite (initDataset_schedule _ dataset 0) in Hinit.
  replace (Z.of_nat (Z.to_nat count)) with count in Hinit by lia.
  assert (address = 64 * (address / 64)) as Ea by (apply Z.div_exact; lia).
  unfold full_datasetRead, light_datasetRead. change CacheLineSize with 64.
  rewrite u32_id by (unfold is_u32; lia).
  pose proof (initDatasetItem_returns cache (address / 64) Hcache) as Hi.
  destruct (initDatasetItem cache (address / 64)) as [rl| |] eqn:E; [|done|done].
  destruct (filled_words dataset dataset' count (address / 64) rl) as [Hms Hw]; [lia..|done|lia|done|].
  rewrite <- Ea in Hw. destruct (xor_block_words dataset' address r Hr) as [-> _]; [lia..|done|].
  by rewrite Hw.
Qed.

(** The light mode reads what the fast mode reads: at every aligned
    address inside the initialised part of a dataset, mixing the dataset line
    into the registers is mixing the superscalar hash computed from the cache. *)
Theorem light_read_is_full_read dataset dataset' count address r :
  0 <= count < 2 ^ 32 -> 64 * count <= msize dataset -> Forall is_u8 dataset ->
  randomx_init_dataset cache dataset 0 count = Ok dataset' ->
  0 <= address -> address mod 64 = 0 -> address + 64 <= 64 * count -> regs_ok r ->
  full_datasetRead dataset' address r = light_datasetRead cache address r.
Proof. apply light_full_read. Qed.

End Fill.

(** ** Initialising the cache *)

Lemma init_programs_safe {Gen : Type} `{BS : ByteSource Gen} `{BL : !ByteSourceLaws Gen} n fuel lat progs i (g : Gen) :
  0 <= lat <= RANDOMX_SUPERSCALAR_MAX_LATENCY -> gen_ok g -> 0 <= i ->
  i + Z.of_nat n <= Z.of_nat (length progs) ->
  Forall (fun p => Z.of_nat (length (program p)) = SuperscalarMaxSize) progs ->
  (forall j p, 0 <= j < i -> progs !! Z.to_nat j = Some p -> prog_wf lat p) ->
  safe (init_programs n fuel lat progs i g) (fun '(progs', _) => length progs' = length progs /\
    forall j p, 0 <= j < i + Z.of_nat n -> progs' !! Z.to_nat j = Some p -> prog_wf lat p).
Proof.
  intros Hlat. revert progs i g. induction n as [|n IH]; intros progs i g Hg Hi Hn Hbuf Hdone; cbn [init_programs].
  { split; [done|]. intros j p Hj. apply Hdone. lia. }
  destruct (aget_total progs i) as (p & -> & Hp); [lia|]. cbn [mbind result_bind].
  assert (Z.of_nat (length (program p)) = SuperscalarMaxSize) as Hpb
    by exact (Forall_lookup_1 _ progs (Z.to_nat i) p Hbuf Hp).
  apply (wp_use True) with (P := fun '(p', g') => prog_wf lat p' /\ gen_ok g').
  { apply generate_wp; try done; intros g' Hg'.
    - by eapply safe_mono; [apply draw_rotation_safe|].
    - by eapply safe_mono; [apply draw_divisor_safe|]. }
  intros [p' g'] [Hwf Hg']. rewrite aset_ok by lia. cbn [mbind result_bind].
  eapply safe_mono; [apply (IH _ (i + 1) g'); try done; try lia|].
  - rewrite length_insert. lia.
  - apply Forall_insert; [done|]. apply Hwf.
  - intros j q Hj Hq. destruct (Z.eq_dec j i) as [->|].
    + rewrite list_lookup_insert_eq in Hq by lia. by injection Hq as <-.
    + rewrite list_lookup_insert_ne in Hq by lia. apply (Hdone j); [lia|done].
  - intros [progs' g''] [Hl Hall]. rewrite length_insert in Hl. split; [done|].
    intros j q Hj. apply Hall. lia.
Qed.

(** the cache [initCache] builds from any key satisfies the invariant the
    dataset relies on: eight generated programs that are well formed, over the
    memory Argon2 filled.  Generation stays inside its buffers. *)
Theorem initCache_ok fuel c memory progs key keySize :
  Config.Config.wf c -> Forall is_u8 key -> keySize = Z.of_nat (length key) ->
  msize memory = ArgonMemory * ArgonBlockSize -> Forall is_u8 memory ->
  CacheAccesses <= Z.of_nat (length progs) ->
  Forall (fun p => Z.of_nat (length (program p)) = SuperscalarMaxSize) progs ->
  safe (initCache fuel c memory progs key keySize) cache_ok.
Proof.
  intros Hc Hk Hs Hm HB Hl Hbuf. unfold initCache. pose proof (wf_lat c Hc) as Hlat.
  apply (wp_use True) with (P := fun '(progs', _) => length progs' = length progs /\
    forall j p, 0 <= j < CacheAccesses -> progs' !! Z.to_nat j = Some p -> prog_wf (SuperscalarLatency c) p).
  - apply (init_programs_safe (Z.to_nat CacheAccesses)); try done;
      [unfold RANDOMX_SUPERSCALAR_MAX_LATENCY; lia|by apply Blake2Generator.Blake2Generator.make_ok|
       intros j p Hj; lia].
  - intros [progs' g'] [Hl' Hall]. split; [done|simpl; lia|].
    intros i p Hi Hp. exists (SuperscalarLatency c). split; [by apply (Hall i)|].
    unfold RANDOMX_SUPERSCALAR_MAX_LATENCY. lia.
Qed.

(** ** The two readers obey the interface *)

Lemma full_reader_laws dataset : DatasetBaseSize + DatasetExtraSize <= msize dataset ->
  Forall is_u8 dataset -> DatasetLaws (full_reader dataset).
Proof.
  intros Hs HB address r Ha _ Hin Hl HF. change (returns (xor_block 8 dataset address 0 r) regs_ok).
  apply xor_block_returns; [exact (conj Hl HF)|exact Ha| |exact HB]. exact (Z.le_trans _ _ _ Hin Hs).
Qed.

Lemma light_reader_laws cache : cache_ok cache -> DatasetLaws (light_reader cache).
Proof.
  intros Hc address r Ha _ Hin Hl HF. cbn [datasetRead light_reader]. unfold light_datasetRead.
  eapply returns_use; [by apply initDatasetItem_returns|]. intros rl [Hl' HF']. simpl. split.
  - rewrite length_zip_with. lia.
  - apply Forall_lookup_2. intros j x Hx. apply lookup_zip_with_Some in Hx as (u & v & -> & Hu & Hv).
    apply lxor64_range; [exact (Forall_lookup_1 _ _ _ _ HF Hu)|exact (Forall_lookup_1 _ _ _ _ HF' Hv)].
Qed.

(** ** Instances of the hypotheses *)

Definition sample_prog : SuperscalarProgram :=
  mk_prog (Instruction.Instruction.mk_instr 3 1 2 0 0 ::
           replicate 769 (Instruction.Instruction.mk_instr 0 0 0 0 0)) 1 1 0 0 0 0 1 1
    [] [0; 1; 0; 0; 0; 0; 0; 0].
Definition sample_cache : randomx_cache :=
  mk_cache (replicate (Z.to_nat (ArgonMemory * ArgonBlockSize)) 0) (replicate 8 sample_prog).

Lemma sample_prog_wf : prog_wf 170 sample_prog.
Proof.
  unfold prog_wf, sample_prog; simpl size; simpl addrReg; simpl asicLatency; simpl asicLatencies.
  split_and!; try lia; try reflexivity.
  - apply Forall_cons_2; [|apply Forall_nil_2]. exists Superscalar.IMUL_R.
    unfold instr_ok, is_u8, is_u32; simpl. split_and!; lia.
  - repeat (apply Forall_cons_2; [lia|]). apply Forall_nil_2.
Qed.

Lemma msize_replicate n x : 0 <= n -> msize (replicate (Z.to_nat n) x) = n.
Proof. intros. unfold msize. rewrite length_replicate. lia. Qed.

Lemma zeros_bytes n : Forall is_u8 (replicate n 0).
Proof. apply Forall_replicate. unfold is_u8. lia. Qed.

Lemma sample_cache_ok : cache_ok sample_cache.
Proof.
  unfold sample_cache. split; cbn [cache_memory programs].
  - split; [apply msize_replicate; discriminate|apply zeros_bytes].
  - rewrite length_replicate. discriminate.
  - intros i p _ Hp. apply lookup_replicate_1 in Hp as [-> _]. exists 170.
    split; [exact sample_prog_wf|discriminate].
Qed.

(** Eleven items in two threads with AVX2: one range has five items, the other six. *)
Lemma dataset_init_threads_witness :
  run_schedule sample_cache (replicate (Z.to_nat 704) 0) [5; 6; 0; 1; 7; 8; 2; 9; 3; 4; 6; 7; 8; 9; 10]
    = randomx_init_dataset sample_cache (replicate (Z.to_nat 704) 0) 0 11 /\
  exists dataset', randomx_init_dataset sample_cache (replicate (Z.to_nat 704) 0) 0 11 = Ok dataset'.
Proof.
  apply (dataset_init_threads sample_cache sample_cache_ok (replicate (Z.to_nat 704) 0) true false 11 2 [5; 6; 0; 1; 7; 8; 2; 9; 3; 4; 6; 7; 8; 9; 10]).
  - lia.
  - rewrite msize_replicate; lia.
  - intros _. lia.
  - change (mjoin (range_items <$> init_calls true false 11 2)) with [0; 1; 2; 3; 4; 5; 6; 7; 8; 9; 6; 7; 8; 9; 10].
    apply (bool_decide_unpack _). reflexivity.
Defined.

Lemma light_read_is_full_read_witness : exists dataset',
  randomx_init_dataset sample_cache (replicate (Z.to_nat 320) 0) 0 5 = Ok dataset' /\
  full_datasetRead dataset' 192 [1; 2; 3; 4; 5; 6; 7; 8] = light_datasetRead sample_cache 192 [1; 2; 3; 4; 5; 6; 7; 8].
Proof.
  assert (64 * 5 <= msize (replicate (Z.to_nat 320) 0)) as Hs by (rewrite msize_replicate; lia).
  destruct (randomx_init_dataset_total sample_cache sample_cache_ok _ 5 ltac:(lia) Hs) as [d Hd].
  exists d. split; [exact Hd|].
  apply (light_read_is_full_read sample_cache sample_cache_ok (replicate (Z.to_nat 320) 0) d 5); try lia.
  - apply zeros_bytes.
  - exact Hd.
  - reflexivity.
  - split; [reflexivity|]. repeat (apply Forall_cons_2; [unfold is_u64; lia|]). apply Forall_nil_2.
Defined.

Lemma initCache_ok_witness :
  safe (initCache 64 Monero (replicate (Z.to_nat (ArgonMemory * ArgonBlockSize)) 0) (replicate 16 sample_prog)
          [1; 2; 3] 3) cache_ok.
Proof.
  apply initCache_ok.
  - apply variants_wf. unfold variants. in_list.
  - repeat (apply Forall_cons_2; [unfold is_u8; lia|]). apply Forall_nil_2.
  - reflexivity.
  - apply msize_replicate. discriminate.
  - apply zeros_bytes.
  - rewrite length_replicate. discriminate.
  - apply Forall_replicate. reflexivity.
Defined.

End DatasetProofs.
