(* ===== verification/VM.v ===== *)
(** * The interpreted virtual machine (crypto/randomx/virtual_machine.cpp, vm_interpreted.cpp)

    Program generation from a seed, initialisation from the program's entropy,
    the iteration loop over scratchpad and dataset, and the hash functions of
    randomx.cpp built on them.  The register file [reg] is its 256 bytes in
    memory order: [r] at 0, [f] at 64, [e] at 128 and [a] at 192. *)
From Stdlib Require Import ZArith Lia.
From stdpp Require Import base numbers list.
From S2P Require Import Prelude Reciprocal Blake2b Instruction Memory SoftAes AesHash Config Float64 Bytecode Dataset.
Import Config.Config Bytecode.Bytecode AesHash.AesHash.
Open Scope Z_scope.

Module VM.

(** [rx_blake2b_wrapper::run]: the digest of [outlen] bytes of a message. *)
Definition blake2b (outlen : Z) (msg : list Z) : list Z :=
  match Blake2b.Blake2b.rx_blake2b_default Blake2b.Blake2b.blake2b_init0
          (Some (replicate (Z.to_nat outlen) 0)) outlen (Some msg) (Z.of_nat (length msg)) with
  | (_, Some out) => out
  | (_, None) => []
  end.

Record ProgramConfiguration := mk_pconfig { eMask : rx_vec_f128; readRegs : Z * Z * Z * Z }.

Record randomx_vm := mk_vm {
  program : mem; reg : mem; config : ProgramConfiguration; mx : Z; ma : Z;
  vm_scratchpad : mem; datasetOffset : Z; bytecode : list InstructionByteCode; rounding : Z }.

Definition with_program (p : mem) (v : randomx_vm) : randomx_vm :=
  mk_vm p (reg v) (config v) (mx v) (ma v) (vm_scratchpad v) (datasetOffset v) (bytecode v) (rounding v).
Definition with_reg (x : mem) (v : randomx_vm) : randomx_vm :=
  mk_vm (program v) x (config v) (mx v) (ma v) (vm_scratchpad v) (datasetOffset v) (bytecode v) (rounding v).
Definition with_pad (x : mem) (v : randomx_vm) : randomx_vm :=
  mk_vm (program v) (reg v) (config v) (mx v) (ma v) x (datasetOffset v) (bytecode v) (rounding v).

(** [resetRoundingMode] *)
Definition resetRoundingMode (v : randomx_vm) : randomx_vm :=
  mk_vm (program v) (reg v) (config v) (mx v) (ma v) (vm_scratchpad v) (datasetOffset v) (bytecode v)
    Float64.Float64.RoundToNearest.

(** ** Initialisation from entropy *)

Definition mantissaSize : Z := 52.
Definition exponentSize : Z := 11.
Definition mantissaMask : Z := shl64 1 mantissaSize - 1.
Definition exponentMask : Z := shl64 1 exponentSize - 1.
Definition exponentBias : Z := 1023.
Definition dynamicExponentBits : Z := 4.
Definition staticExponentBits : Z := 4.
Definition constExponentBits : Z := 0x300.

Definition getSmallPositiveFloatBits (entropy : Z) : Z :=
  let exponent := Z.shiftr entropy 59 in
  let mantissa := Z.land entropy mantissaMask in
  let exponent := add64 exponent exponentBias in
  let exponent := Z.land exponent exponentMask in
  let exponent := shl64 exponent mantissaSize in
  Z.lor exponent mantissa.

Definition getStaticExponent (entropy : Z) : Z :=
  let exponent := Z.lor constExponentBits
    (shl64 (Z.shiftr entropy (64 - staticExponentBits)) dynamicExponentBits) in
  shl64 exponent mantissaSize.

Definition getFloatMask (entropy : Z) : Z :=
  let mask22bit := shl64 1 22 - 1 in
  Z.lor (Z.land entropy mask22bit) (getStaticExponent entropy).

(** [Program::getEntropy] and [Program::operator()]. *)
Definition getEntropy (p : mem) (i : Z) : result Z := mload64 p (8 * i).
Definition program_instr (p : mem) (pc : Z) : Instruction.Instruction.Instruction :=
  Instruction.Instruction.of_bytes (chunk p (128 + 8 * pc) 8).

(** The stores of [initialize] into [reg.a]: 64-bit word [k] of the group. *)
Fixpoint init_a (n : nat) (p : mem) (k : Z) (rg : mem) : result mem :=
  match n with
  | O => mret rg
  | S n =>
      x ← getEntropy p k;
      rg ← mstore64 rg (192 + 8 * k) (getSmallPositiveFloatBits x);
      init_a n p (k + 1) rg
  end.

Definition initialize (v : randomx_vm) : result randomx_vm :=
  let p := program v in
  rg ← init_a 8 p 0 (reg v);
  e8 ← getEntropy p 8;
  e10 ← getEntropy p 10;
  addressRegisters ← getEntropy p 12;
  let readReg0 := 0 + Z.land addressRegisters 1 in
  let addressRegisters := Z.shiftr addressRegisters 1 in
  let readReg1 := 2 + Z.land addressRegisters 1 in
  let addressRegisters := Z.shiftr addressRegisters 1 in
  let readReg2 := 4 + Z.land addressRegisters 1 in
  let addressRegisters := Z.shiftr addressRegisters 1 in
  let readReg3 := 6 + Z.land addressRegisters 1 in
  e13 ← getEntropy p 13;
  e14 ← getEntropy p 14;
  e15 ← getEntropy p 15;
  mret (mk_vm p rg (mk_pconfig (getFloatMask e14, getFloatMask e15) (readReg0, readReg1, readReg2, readReg3))
          (u32 e10) (u32 (Z.land e8 CacheLineAlignMask)) (vm_scratchpad v)
          (e13 mod (DatasetExtraItems + 1) * Dataset.Dataset.CacheLineSize) (bytecode v) (rounding v)).

(** ** Execution *)

(** [for (i = k; i < k + n; ++i) dst[i] = rx_load_vec_f128(m + off + 16 * i)] *)
Fixpoint load_vecs (n : nat) (m : mem) (off : Z) : result (list rx_vec_f128) :=
  match n with
  | O => mret []
  | S n =>
      lo ← mload64 m off;
      hi ← mload64 m (off + 8);
      l ← load_vecs n m (off + 16);
      mret ((lo, hi) :: l)
  end.

(** The loop of [rx_cvt_packed_int_vec_f128] over consecutive pairs. *)
Fixpoint cvt_vecs (n : nat) (m : mem) (off : Z) : result (list rx_vec_f128) :=
  match n with
  | O => mret []
  | S n =>
      x ← rx_cvt_packed_int_vec_f128 m off;
      l ← cvt_vecs n m (off + 8);
      mret (x :: l)
  end.

(** The loops of [store64] and of [rx_store_vec_f128]. *)
Fixpoint store_words (m : mem) (off : Z) (l : list Z) : result mem :=
  match l with
  | [] => mret m
  | x :: l => m ← mstore64 m off x; store_words m (off + 8) l
  end.
Definition vec_words (l : list rx_vec_f128) : list Z := mjoin ((fun x => [x.1; x.2]) <$> l).
Definition store_vecs (m : mem) (off : Z) (l : list rx_vec_f128) : result mem := store_words m off (vec_words l).

(** The local variables of [execute] that live across iterations. *)
Record loop_state := mk_loop { mach : machine; l_mx : Z; l_ma : Z; spAddr0 : Z; spAddr1 : Z }.

Section Execute.
Context (c : RandomX_Configuration) `{D : DatasetReader}.

(** Loading the registers from the two scratchpad lines. *)
Definition load_registers (cfg : ProgramConfiguration) (sp0 sp1 : Z) (m : machine) : result machine :=
  r' ← Dataset.Dataset.xor_block 8 (scratchpad m) sp0 0 (r (nreg m));
  f' ← cvt_vecs 4 (scratchpad m) sp1;
  e' ← cvt_vecs 4 (scratchpad m) (sp1 + 8 * RegisterCountFlt);
  mret (mk_machine (mk_nreg r' f' (maskRegisterExponentMantissa (eMask cfg) <$> e') (a (nreg m)))
          (scratchpad m) (fprc m)).

(** Storing them back. *)
Definition store_registers (sp0 sp1 : Z) (m : machine) : result machine :=
  pad ← store_words (scratchpad m) sp1 (r (nreg m));
  let f' := zip_with rx_xor_vec_f128 (f (nreg m)) (e (nreg m)) in
  pad ← store_vecs pad sp0 f';
  mret (mk_machine (mk_nreg (r (nreg m)) f' (e (nreg m)) (a (nreg m))) pad (fprc m)).

Definition bytecode_fuel : nat := Z.to_nat (3 * ProgramSize c + 1).

(** The body of the loop of [execute]. *)
Definition iteration (cfg : ProgramConfiguration) (offset : Z) (bc : list InstructionByteCode)
    (s : loop_state) : result loop_state :=
  let '(rr0, rr1, rr2, rr3) := readRegs cfg in
  x0 ← aget (r (nreg (mach s))) rr0;
  x1 ← aget (r (nreg (mach s))) rr1;
  let spMix := Z.lxor x0 x1 in
  let sp0 := Z.land (u32 (Z.lxor (spAddr0 s) spMix)) (ScratchpadL3Mask64 c) in
  let sp1 := Z.land (u32 (Z.lxor (spAddr1 s) (Z.shiftr spMix 32))) (ScratchpadL3Mask64 c) in
  m ← load_registers cfg sp0 sp1 (mach s);
  m ← executeBytecode bytecode_fuel (ProgramSize c) (eMask cfg) bc 0 m;
  x2 ← aget (r (nreg m)) rr2;
  x3 ← aget (r (nreg m)) rr3;
  let mx := Z.land (u32 (Z.lxor (l_mx s) (Z.lxor x2 x3))) CacheLineAlignMask in
  r' ← datasetRead (offset + l_ma s) (r (nreg m));
  m ← store_registers sp0 sp1 (with_r r' m);
  mret (mk_loop m (l_ma s) mx 0 0).

Fixpoint iterate (n : nat) (cfg : ProgramConfiguration) (offset : Z) (bc : list InstructionByteCode)
    (s : loop_state) : result loop_state :=
  match n with
  | O => mret s
  | S n => s ← iteration cfg offset bc s; iterate n cfg offset bc s
  end.

(** [InterpretedVm::execute].  [f] and [e] of the local register file hold no
    value until the first iteration loads them; the model starts them at 0. *)
Definition execute (v : randomx_vm) : result randomx_vm :=
  a' ← load_vecs 4 (reg v) 192;
  let nreg := mk_nreg (replicate 8 0) (replicate 4 (0, 0)) (replicate 4 (0, 0)) a' in
  bc ← compileProgram c (program_instr (program v) <$> seqZ 0 (ProgramSize c)) (bytecode v);
  s ← iterate (Z.to_nat (ProgramIterations c)) (config v) (datasetOffset v) bc
        (mk_loop (mk_machine nreg (vm_scratchpad v) (rounding v)) (mx v) (ma v) (mx v) (ma v));
  let m := mach s in
  rg ← store_words (reg v) 0 (r (Bytecode.Bytecode.nreg m));
  rg ← store_vecs rg 64 (f (Bytecode.Bytecode.nreg m));
  rg ← store_vecs rg 128 (e (Bytecode.Bytecode.nreg m));
  mret (mk_vm (program v) rg (config v) (l_mx s) (l_ma s) (scratchpad m) (datasetOffset v) bc (fprc m)).

(** ** The hash *)

Context `{A : AesRounds}.

Definition generateProgram (seed : mem) (v : randomx_vm) : result randomx_vm :=
  p ← fillAes4Rx4 (fillAes4Rx4_Key c) seed (128 + ProgramSize c * 8) (program v);
  mret (with_program p v).

Definition run (seed : mem) (v : randomx_vm) : result randomx_vm :=
  v ← generateProgram seed v;
  v ← initialize v;
  execute v.

(** [initScratchpad] also advances the seed it is given. *)
Definition initScratchpad (seed : mem) (v : randomx_vm) : result (mem * randomx_vm) :=
  '(seed, pad) ← fillAes1Rx4 seed (ScratchpadL3_Size c) (vm_scratchpad v);
  mret (seed, with_pad pad v).

Definition RANDOMX_HASH_SIZE : Z := 32.

Definition getFinalResult (v : randomx_vm) : result (randomx_vm * list Z) :=
  h ← hashAes1Rx4 (vm_scratchpad v) (ScratchpadL3_Size c);
  rg ← mstore (reg v) 192 h;
  let v := with_reg rg v in
  mret (v, blake2b RANDOMX_HASH_SIZE (reg v)).

(** [softAes] and [unroll] select the implementation of the fused pass. *)
Definition hashAndFill (softAes unroll : Z) (fill_state : mem) (v : randomx_vm)
    : result (randomx_vm * list Z * mem) :=
  '(pad, h, fill_state) ← hashAndFillAes1Rx4 softAes unroll (vm_scratchpad v) (ScratchpadL3_Size c) fill_state;
  rg ← mstore (reg v) 192 h;
  let v := with_reg rg (with_pad pad v) in
  mret (v, blake2b RANDOMX_HASH_SIZE (reg v), fill_state).

(** The chain of programs: [n] runs, each seeded with the hash of the register
    file the previous one left. *)
Fixpoint run_chain (n : nat) (tempHash : mem) (v : randomx_vm) : result (mem * randomx_vm) :=
  match n with
  | O => mret (tempHash, v)
  | S n =>
      v ← run tempHash v;
      run_chain n (blake2b 64 (reg v)) v
  end.

(** The part [randomx_calculate_hash] and [randomx_calculate_hash_next] share. *)
Definition run_programs (tempHash : mem) (v : randomx_vm) : result randomx_vm :=
  '(tempHash, v) ← run_chain (Z.to_nat (ProgramCount c - 1)) tempHash (resetRoundingMode v);
  run tempHash v.

Definition randomx_calculate_hash (v : randomx_vm) (input : list Z) : result (randomx_vm * list Z) :=
  let tempHash := blake2b 64 input in
  '(tempHash, v) ← initScratchpad tempHash v;
  v ← run_programs tempHash v;
  getFinalResult v.

Definition randomx_calculate_hash_first (v : randomx_vm) (input : list Z) : result (randomx_vm * mem) :=
  let tempHash := blake2b 64 input in
  '(tempHash, v) ← initScratchpad tempHash v;
  mret (v, tempHash).

Definition randomx_calculate_hash_next (softAes unroll : Z) (v : randomx_vm) (tempHash : mem)
    (nextInput : list Z) : result (randomx_vm * mem * list Z) :=
  v ← run_programs tempHash v;
  let tempHash := blake2b 64 nextInput in
  '(v, output, tempHash) ← hashAndFill softAes unroll tempHash v;
  mret (v, tempHash, output).

End Execute.

End VM.
