(* ===== verification/VMProofs.v ===== *)
(** * Correctness of the virtual machine and of the hash

    Every run of the machine on well-formed state returns, touching only the
    scratchpad, the register file and the dataset; the hash is a function of
    its input; the light machine computes the hashes of the fast one; and the
    pipelined interface of the mining loop computes the same hashes as the
    plain one. *)
From Stdlib Require Import ZArith Lia.
From stdpp Require Import base numbers list.
From S2P Require Import Prelude Reciprocal Blake2b Instruction Memory SoftAes AesHash Config Float64 Bytecode BytecodeProofs Dataset DatasetProofs VM.
Import Config.Config Bytecode.Bytecode BytecodeProofs.BytecodeProofs AesHash.AesHash VM.VM.
Open Scope Z_scope.

Module VMProofs.

(** ** Bytes of digests *)

Lemma blake2b_RFC n msg : 0 < n <= 64 -> blake2b n msg = Blake2b.Blake2b.RFC_blake2b n [] msg.
Proof.
  intros Hn. unfold blake2b. rewrite Blake2b.Blake2b.default_ok by done.
  rewrite drop_ge, app_nil_r; [done|]. rewrite length_replicate. lia.
Qed.

(** ** Register and scratchpad loops *)

Section Loops.
Context (m : mem) (HB : Forall is_u8 m).

Lemma load_vecs_returns n off : 0 <= off -> off + 16 * Z.of_nat n <= msize m ->
  returns (load_vecs n m off) (fun l => length l = n /\ Forall fvec_ok l).
Proof.
  revert off. induction n as [|n IH]; intros off H0 Hs; cbn [load_vecs]; [done|].
  eapply returns_use; [apply mload64_returns; done || lia|]. intros lo Hlo.
  eapply returns_use; [apply mload64_returns; done || lia|]. intros hi Hhi.
  eapply returns_use; [apply IH; lia|]. intros l [Hl HF]. simpl. split; [lia|]. by constructor.
Qed.

Lemma cvt_returns ad : 0 <= ad -> ad + 8 <= msize m -> returns (rx_cvt_packed_int_vec_f128 m ad) fvec_ok.
Proof.
  intros H0 Hs. unfold rx_cvt_packed_int_vec_f128.
  eapply returns_use; [apply mload32_returns; done || lia|]. intros lo _.
  eapply returns_use; [apply mload32_returns; done || lia|]. intros hi _.
  split; apply Float64.Float64.f_of_int32_range.
Qed.

Lemma cvt_vecs_returns n off : 0 <= off -> off + 8 * Z.of_nat n <= msize m ->
  returns (cvt_vecs n m off) (fun l => length l = n /\ Forall fvec_ok l).
Proof.
  revert off. induction n as [|n IH]; intros off H0 Hs; cbn [cvt_vecs]; [done|].
  eapply returns_use; [apply cvt_returns; lia|]. intros x Hx.
  eapply returns_use; [apply IH; lia|]. intros l [Hl HF]. simpl. split; [lia|]. by constructor.
Qed.

End Loops.

Lemma store_words_returns l m off : Forall is_u8 m -> 0 <= off -> off + 8 * Z.of_nat (length l) <= msize m ->
  returns (store_words m off l) (fun m' => msize m' = msize m /\ Forall is_u8 m').
Proof.
  revert m off. induction l as [|x l IH]; intros m off HB H0 Hs; cbn [store_words length] in *; [done|].
  eapply returns_use; [apply mstore64_returns; done || lia|]. intros m1 [Hm1 HB1].
  eapply returns_mono; [apply IH; [done|lia|lia]|]. intros m2 [Hm2 HB2]. split; [lia|done].
Qed.

Lemma length_vec_words l : length (vec_words l) = (2 * length l)%nat.
Proof. induction l as [|x l IH]; [done|]. change (vec_words (x :: l)) with (x.1 :: x.2 :: vec_words l). simpl. lia. Qed.

Lemma store_vecs_returns l m off : Forall is_u8 m -> 0 <= off -> off + 16 * Z.of_nat (length l) <= msize m ->
  returns (store_vecs m off l) (fun m' => msize m' = msize m /\ Forall is_u8 m').
Proof. intros. apply store_words_returns; [done|done|]. rewrite length_vec_words. lia. Qed.

(** ** Well-formed machines *)

(** The program buffer is [128 + 8 * RANDOMX_PROGRAM_MAX_SIZE] bytes long. *)
Record vm_ok (c : RandomX_Configuration) (v : randomx_vm) : Prop := {
  vo_prog : msize (program v) = 2368 /\ Forall is_u8 (program v);
  vo_reg : msize (reg v) = 256 /\ Forall is_u8 (reg v);
  vo_pad : msize (vm_scratchpad v) = ScratchpadL3_Size c /\ Forall is_u8 (vm_scratchpad v);
  vo_code : length (bytecode v) = Z.to_nat RANDOMX_PROGRAM_MAX_SIZE;
  vo_round : 0 <= rounding v < 4 }.

(** What [initialize] establishes: read registers, exponent masks, and dataset
    addresses that are aligned and leave room for an item. *)
Definition line_ok (x : Z) : Prop := 0 <= x <= DatasetBaseSize - 64 /\ x mod 64 = 0.

Record config_ok (cfg : ProgramConfiguration) : Prop := {
  co_mask : fvec_ok (eMask cfg);
  co_regs : let '(a, b, c, d) := readRegs cfg in 0 <= a < 2 /\ 2 <= b < 4 /\ 4 <= c < 6 /\ 6 <= d < 8 }.

Record ready (c : RandomX_Configuration) (v : randomx_vm) : Prop := {
  re_vm : vm_ok c v;
  re_cfg : config_ok (config v);
  re_mx : is_u32 (mx v);
  re_ma : line_ok (ma v);
  re_off : 0 <= datasetOffset v <= DatasetExtraSize /\ datasetOffset v mod 64 = 0 }.

Lemma align_line x : line_ok (Z.land x CacheLineAlignMask).
Proof.
  change CacheLineAlignMask with 2147483584. unfold line_ok. change DatasetBaseSize with 2147483648.
  split; [pose proof (land_le_r x 2147483584); lia|].
  change 64 with (2 ^ 6) at 1. rewrite <- Z.land_ones by lia. rewrite <- Z.land_assoc.
  change (Z.land 2147483584 (Z.ones 6)) with 0. apply Z.land_0_r.
Qed.

Lemma line_u32 x : line_ok x -> is_u32 x.
Proof. unfold line_ok, is_u32. change DatasetBaseSize with 2147483648. lia. Qed.

Lemma init_a_returns n p k rg : Forall is_u8 p -> 128 <= msize p -> Forall is_u8 rg -> msize rg = 256 ->
  0 <= k -> k + Z.of_nat n <= 8 ->
  returns (init_a n p k rg) (fun rg' => msize rg' = 256 /\ Forall is_u8 rg').
Proof.
  intros HP HPs. revert k rg. induction n as [|n IH]; intros k rg HR HRs Hk Hn; cbn [init_a]; [done|].
  unfold getEntropy. eapply returns_use; [apply mload64_returns; done || lia|]. intros x _.
  eapply returns_use; [apply mstore64_returns; done || lia|]. intros rg' [Hs' HB'].
  apply IH; [done|lia|lia|lia].
Qed.

Lemma getFloatMask_range x : is_u64 x -> is_u64 (getFloatMask x).
Proof.
  intros Hx. apply lor64_range; [|apply u64_range].
  pose proof (land_le_r x 4194303). change (shl64 1 22 - 1) with 4194303. unfold is_u64. lia.
Qed.

Lemma bit_range x : 0 <= Z.land x 1 < 2.
Proof. pose proof (land_le_r x 1). lia. Qed.

Lemma initialize_returns c v : Config.Config.wf c -> vm_ok c v -> returns (initialize v) (ready c).
Proof.
  intros Hc [[Hp HPB] [Hr HRB] Hpad Hcode Hround]. destruct (prog_size_range c Hc) as [Hps _].
  assert (forall i, 0 <= i < 16 -> returns (getEntropy (program v) i) is_u64) as He.
  { intros i Hi. apply mload64_returns; done || lia. }
  unfold initialize. cbn zeta.
  eapply returns_use; [apply init_a_returns; done || lia|]. intros rg [Hrs HRB'].
  eapply returns_use; [apply He; lia|]. intros e8 H8.
  eapply returns_use; [apply He; lia|]. intros e10 H10.
  eapply returns_use; [apply He; lia|]. intros e12 H12.
  eapply returns_use; [apply He; lia|]. intros e13 H13.
  eapply returns_use; [apply He; lia|]. intros e14 H14.
  eapply returns_use; [apply He; lia|]. intros e15 H15.
  cbn [returns mret result_ret]. split; cbn [program reg config mx ma vm_scratchpad datasetOffset bytecode rounding].
  - by split; cbn [program reg config vm_scratchpad bytecode rounding].
  - split; cbn [eMask readRegs]; [split; by apply getFloatMask_range|].
    pose proof (bit_range e12). pose proof (bit_range (Z.shiftr e12 1)).
    pose proof (bit_range (Z.shiftr (Z.shiftr e12 1) 1)).
    pose proof (bit_range (Z.shiftr (Z.shiftr (Z.shiftr e12 1) 1) 1)). lia.
  - apply u32_range.
  - rewrite u32_id; [apply align_line|apply line_u32, align_line].
  - change Dataset.Dataset.CacheLineSize with 64. change (DatasetExtraItems + 1) with 524288.
    change DatasetExtraSize with 33554368. pose proof (Z.mod_pos_bound e13 524288). split; [lia|].
    apply Z_mod_mult.
Qed.

(** ** The iteration loop *)

Section Execute.
Context (c : RandomX_Configuration) (Hc : Config.Config.wf c).
Context `{D : DatasetReader} `{DL : !DatasetLaws D}.

Definition size : Z := ScratchpadL3_Size c.

Lemma size_range : 64 <= size < 2 ^ 32.
Proof. unfold size. pose proof (wf_l1 c Hc). pose proof (wf_l2 c Hc). lia. Qed.

Record loop_ok (s : loop_state) : Prop := {
  lo_mach : machine_ok size (mach s);
  lo_mx : is_u32 (l_mx s);
  lo_ma : line_ok (l_ma s) }.

Lemma sp_range x : 0 <= Z.land x (ScratchpadL3Mask64 c) <= size - 64.
Proof. pose proof (L3Mask64_range c Hc). unfold size. pose proof (land_le_r x (ScratchpadL3Mask64 c)). lia. Qed.

Lemma load_registers_returns cfg sp0 sp1 m : config_ok cfg -> machine_ok size m ->
  0 <= sp0 <= size - 64 -> 0 <= sp1 <= size - 64 ->
  returns (load_registers cfg sp0 sp1 m) (machine_ok size).
Proof.
  intros Hcfg Hm H0 H1. pose proof (mo_pad _ _ Hm) as [Hp HB]. pose proof (mo_r _ _ Hm) as Hr.
  unfold load_registers.
  eapply returns_use; [apply DatasetProofs.DatasetProofs.xor_block_returns; [exact Hr|lia|lia|done]|].
  intros r' Hr'. eapply returns_use; [apply cvt_vecs_returns; done || lia|]. intros f' [Hlf HF].
  change (8 * RegisterCountFlt) with 32.
  eapply returns_use; [apply cvt_vecs_returns; done || lia|]. intros e' [Hle HE].
  destruct Hm. split; try done; cbn [nreg r f e a].
  rewrite length_fmap. split; [done|]. apply Forall_fmap. eapply Forall_impl; [exact HE|].
  intros x Hx. apply mask_reg_ok; [apply Hcfg|done].
Qed.

Lemma store_registers_returns sp0 sp1 m : machine_ok size m ->
  0 <= sp0 <= size - 64 -> 0 <= sp1 <= size - 64 ->
  returns (store_registers sp0 sp1 m) (machine_ok size).
Proof.
  intros Hm H0 H1. pose proof (mo_pad _ _ Hm) as [Hp HB]. pose proof (mo_r _ _ Hm) as [Hlr _].
  pose proof (mo_f _ _ Hm) as [Hlf HF]. pose proof (mo_e _ _ Hm) as [Hle HE].
  assert (length (zip_with rx_xor_vec_f128 (f (nreg m)) (e (nreg m))) = 4%nat) as Hlz
    by (rewrite length_zip_with; lia).
  unfold store_registers. eapply returns_use; [apply store_words_returns; [done|lia|lia]|].
  intros pad [Hp' HB']. eapply returns_use; [apply store_vecs_returns; [done|lia|lia]|].
  intros pad' [Hp'' HB'']. destruct Hm. split; try done; cbn [nreg r f e a scratchpad].
  - split; [done|]. apply Forall_lookup_2. intros j x Hx.
    apply lookup_zip_with_Some in Hx as (u & w & -> & Hu & Hw).
    apply vmap2_ok; [apply lxor64_range|exact (Forall_lookup_1 _ _ _ _ HF Hu)|
                     exact (Forall_lookup_1 _ _ _ _ HE Hw)].
  - split; [lia|done].
Qed.

Lemma read_address offset ma : 0 <= offset <= DatasetExtraSize /\ offset mod 64 = 0 -> line_ok ma ->
  0 <= offset + ma /\ (offset + ma) mod 64 = 0 /\ offset + ma + 64 <= DatasetBaseSize + DatasetExtraSize.
Proof.
  intros [Ho Hom] [Hm Hmm]. split_and!; [lia| |lia]. by rewrite Z.add_mod, Hom, Hmm by lia.
Qed.

Lemma iteration_returns cfg offset bc s : config_ok cfg ->
  0 <= offset <= DatasetExtraSize /\ offset mod 64 = 0 -> bytecode_ok size (ProgramSize c) bc -> loop_ok s ->
  returns (iteration c cfg offset bc s) loop_ok.
Proof.
  intros Hcfg Hoff Hbc [Hm Hmx Hma]. pose proof size_range as Hsz. destruct (prog_size_range c Hc) as [Hn _].
  pose proof (mo_r _ _ Hm) as [Hlr HR].
  unfold iteration. destruct (readRegs cfg) as [[[rr0 rr1] rr2] rr3] eqn:Er.
  pose proof (co_regs cfg Hcfg) as Hrr. rewrite Er in Hrr. destruct Hrr as (H0 & H1 & H2 & H3).
  eapply returns_use; [apply (aget_returns _ _ is_u64); [lia|done]|]. intros x0 _.
  eapply returns_use; [apply (aget_returns _ _ is_u64); [lia|done]|]. intros x1 _.
  cbn zeta. set (sp0 := Z.land (u32 (Z.lxor (spAddr0 s) _)) _). set (sp1 := Z.land (u32 (Z.lxor (spAddr1 s) _)) _).
  assert (0 <= sp0 <= size - 64) as Hsp0 by apply sp_range.
  assert (0 <= sp1 <= size - 64) as Hsp1 by apply sp_range.
  eapply returns_use; [by apply load_registers_returns|]. intros m1 Hm1.
  destruct (fresh_progress _ _ bc Hbc 0 m1 Hm1) as (M & HM & Hle); [lia|by left|].
  eapply returns_use; [eapply (executeBytecode_returns size); [done|done|done|lia|done|unfold bytecode_fuel; lia]|].
  intros m2 Hm2. pose proof (mo_r _ _ Hm2) as [Hlr2 HR2].
  eapply returns_use; [apply (aget_returns _ _ is_u64); [lia|done]|]. intros x2 _.
  eapply returns_use; [apply (aget_returns _ _ is_u64); [lia|done]|]. intros x3 _.
  destruct (read_address offset (l_ma s) Hoff Hma) as (Ha1 & Ha2 & Ha3).
  eapply returns_use; [apply DL; done|]. intros r' [Hlr' HR'].
  eapply returns_use; [apply store_registers_returns; [by apply with_r_ok|done|done]|]. intros m3 Hm3.
  split; cbn [mach l_mx l_ma]; [done|by apply line_u32|apply align_line].
Qed.

Lemma iterate_returns n cfg offset bc s : config_ok cfg ->
  0 <= offset <= DatasetExtraSize /\ offset mod 64 = 0 -> bytecode_ok size (ProgramSize c) bc -> loop_ok s ->
  returns (iterate c n cfg offset bc s) loop_ok.
Proof.
  intros Hcfg Hoff Hbc. revert s. induction n as [|n IH]; intros s Hs; cbn [iterate]; [done|].
  eapply returns_use; [by apply iteration_returns|]. exact IH.
Qed.

Lemma program_instr_wf p n : Forall is_u8 p -> 0 <= n -> 128 + n * 8 <= msize p ->
  Forall Instruction.Instruction.wf (program_instr p <$> seqZ 0 n).
Proof.
  intros HB Hn Hs. apply Forall_fmap, Forall_forall. intros i Hi%elem_of_seqZ.
  apply Instruction.Instruction.of_bytes_wf; [|by apply chunk_bytes].
  rewrite length_chunk by lia. done.
Qed.

Lemma execute_returns v : ready c v -> returns (execute c v) (vm_ok c).
Proof.
  intros [Hv Hcfg Hmx Hma Hoff]. destruct Hv as [[Hp HPB] [Hr HRB] [Hpad HSB] Hcode Hround].
  destruct (prog_size_range c Hc) as [Hn _]. unfold execute.
  eapply returns_use; [apply load_vecs_returns; done || lia|]. intros a' [Hla HA]. cbn zeta.
  eapply returns_use; [apply compileProgram_ok; [done| | |]|].
  { rewrite length_fmap, length_seqZ. lia. }
  { rewrite Hcode. unfold RANDOMX_PROGRAM_MAX_SIZE. lia. }
  { apply program_instr_wf; done || lia. }
  intros bc [Hlb Hbc].
  eapply returns_use; [apply iterate_returns; [done|done|done|]|].
  { split; cbn [mach l_mx l_ma]; [|done|done]. split; cbn [nreg r f e a scratchpad fprc]; try done;
      (split; [done|]); apply Forall_replicate; unfold fvec_ok, is_u64; simpl; lia. }
  intros s [Hm _ _]. pose proof (mo_r _ _ Hm) as [Hlr _].
  pose proof (mo_f _ _ Hm) as [Hlf _]. pose proof (mo_e _ _ Hm) as [Hle _].
  eapply returns_use; [apply store_words_returns; [done|lia|lia]|]. intros rg [Hs1 HB1].
  eapply returns_use; [apply store_vecs_returns; [done|lia|lia]|]. intros rg2 [Hs2 HB2].
  eapply returns_use; [apply store_vecs_returns; [done|lia|lia]|]. intros rg3 [Hs3 HB3].
  pose proof (mo_pad _ _ Hm). pose proof (mo_fprc _ _ Hm).
  split; cbn [program reg vm_scratchpad bytecode rounding]; try done; [split; [lia|done]|lia].
Qed.

(** ** The hash *)

Context `{A : AesRounds} `{AL : !SoftAes.SoftAes.AesLaws A}.

Lemma program_bytes : 128 <= 128 + ProgramSize c * 8 /\ (128 + ProgramSize c * 8) mod 64 = 0.
Proof.
  destruct (prog_size_range c Hc) as [Hn Hm]. split; [lia|].
  assert (ProgramSize c = 8 * (ProgramSize c / 8)) as -> by (apply Z.div_exact; lia).
  replace (128 + 8 * (ProgramSize c / 8) * 8) with ((2 + ProgramSize c / 8) * 64) by lia. apply Z_mod_mult.
Qed.

Definition seed_ok (seed : mem) : Prop := msize seed = 64 /\ Forall is_u8 seed.

Lemma run_returns seed v : seed_ok seed -> vm_ok c v -> returns (run c seed v) (vm_ok c).
Proof.
  intros [Hs HSB] Hv. destruct program_bytes as [H1 H2]. destruct (wf_keys c Hc) as [Hkl Hk].
  pose proof (vo_prog _ _ Hv) as [Hp HPB]. unfold run, generateProgram.
  destruct (prog_size_range c Hc) as [Hn _].
  eapply returns_use; [eapply returns_use; [apply fillAes4Rx4_returns; done || lia|]|].
  - intros p (Hp' & HB' & _). cbn [returns mret result_ret]. instantiate (1 := vm_ok c).
    destruct Hv. split; cbn [with_program program reg vm_scratchpad bytecode rounding]; try done.
    split; [lia|done].
  - intros v1 Hv1. eapply returns_use; [by apply initialize_returns|]. intros v2 Hv2. by apply execute_returns.
Qed.

Lemma blake2b_ok n msg : 0 < n <= 64 -> msize (blake2b n msg) = n /\ Forall is_u8 (blake2b n msg).
Proof.
  intros Hn. rewrite blake2b_RFC by done. split.
  - unfold msize. rewrite Blake2b.Blake2b.RFC_blake2b_length; lia.
  - unfold Blake2b.Blake2b.RFC_blake2b. destruct (Blake2b.Blake2b.RFC_blocks _ _ _ _) as [[hv t] b].
    apply Forall_take, Forall_join, Forall_fmap, Forall_forall. intros x _. by apply store_le_bytes.
Qed.

Lemma size_blocks : size mod 64 = 0 /\ PREFETCH_DISTANCE <= size /\ size mod 256 = 0.
Proof.
  destruct (wf_mod c Hc) as (_ & _ & H). split_and!; [by apply mod_256_64|apply (wf_l3 c Hc)|done].
Qed.

Lemma initScratchpad_returns seed v : seed_ok seed -> vm_ok c v ->
  returns (initScratchpad c seed v) (fun '(seed', v') => seed_ok seed' /\ vm_ok c v').
Proof.
  intros [Hs HSB] Hv. pose proof (vo_pad _ _ Hv) as [Hp HB]. destruct size_blocks as (H64 & _ & _).
  unfold initScratchpad. fold size in *. set (n := Z.to_nat (size / 64)).
  assert (size = 64 * Z.of_nat n) as En.
  { assert (size = 64 * (size / 64)) by (apply Z.div_exact; lia). pose proof size_range. lia. }
  unfold fillAes1Rx4. rewrite load_lanes_eq by lia. cbn [mbind result_bind].
  pose proof (lanes_at_ok seed 0 ltac:(lia) ltac:(lia) HSB) as Hl.
  rewrite (fill_loop_eq _ n) by (done || lia).
  destruct (F_iter_ok n (lanes_at seed 0) (vm_scratchpad v) 0) as (Hs' & Hm' & HB'); [done|done|lia|lia|].
  destruct (F_iter n (lanes_at seed 0) (vm_scratchpad v) 0) as [s' pad']. cbn [mbind result_bind].
  rewrite store_lanes_eq by (done || lia). cbn [mbind result_bind returns mret result_ret]. split.
  - split; [rewrite splice_lanes_size; done || lia|]. apply splice_bytes; [done|by apply lanes_bytes_u8].
  - destruct Hv. split; cbn [with_pad program reg vm_scratchpad bytecode rounding]; try done.
    split; [unfold size in *; cbn [fst snd] in *; lia|done].
Qed.

Lemma reset_ok v : vm_ok c v -> vm_ok c (resetRoundingMode v).
Proof. intros []. by split. Qed.

Lemma run_chain_returns n tempHash v : seed_ok tempHash -> vm_ok c v ->
  returns (run_chain c n tempHash v) (fun '(tempHash', v') => seed_ok tempHash' /\ vm_ok c v').
Proof.
  revert tempHash v. induction n as [|n IH]; intros tempHash v Ht Hv; cbn [run_chain]; [done|].
  eapply returns_use; [by apply run_returns|]. intros v' Hv'. apply IH; [|done].
  apply blake2b_ok. lia.
Qed.

Lemma run_programs_returns tempHash v : seed_ok tempHash -> vm_ok c v ->
  returns (run_programs c tempHash v) (vm_ok c).
Proof.
  intros Ht Hv. unfold run_programs.
  eapply returns_use; [by apply run_chain_returns, reset_ok|]. intros [t' v'] [Ht' Hv']. by apply run_returns.
Qed.

(** The hash of the scratchpad goes into the [a] registers. *)
Lemma finish_ok v h : vm_ok c v -> length h = 64%nat -> Forall is_u8 h ->
  mstore (reg v) 192 h = Ok (splice (reg v) 192 h) /\ vm_ok c (with_reg (splice (reg v) 192 h) v).
Proof.
  intros Hv Hl Hh. pose proof (vo_reg _ _ Hv) as [Hr HB]. split; [apply mstore_ok; lia|].
  destruct Hv. split; cbn [with_reg program reg vm_scratchpad bytecode rounding]; try done.
  split; [rewrite msize_splice; lia|by apply splice_bytes].
Qed.

Lemma hashAes_ok pad : msize pad = size -> Forall is_u8 pad ->
  returns (hashAes1Rx4 pad size) (fun h => length h = 64%nat /\ Forall is_u8 h).
Proof.
  intros Hs HB. destruct size_blocks as (H64 & _ & _). set (n := Z.to_nat (size / 64)).
  assert (size = 64 * Z.of_nat n) as En.
  { assert (size = 64 * (size / 64)) by (apply Z.div_exact; lia). pose proof size_range. lia. }
  unfold hashAes1Rx4. rewrite (hash_loop_eq _ n) by lia. cbn [mbind result_bind returns mret result_ret].
  assert (lanes_ok (H_iter n hash_state_init pad 0)) as Hl.
  { apply H_iter_ok; [apply hash_init_ok|done|lia|lia]. }
  unfold hash_finish. set (s := enc_dec _ _).
  assert (lanes_ok s) as Hs'.
  { apply enc_dec_ok; [apply enc_dec_ok; [done|]|]; apply same_ok, SoftAes.SoftAes.set_int_vec. }
  split; [by apply length_lanes|by apply lanes_bytes_u8].
Qed.

Lemma getFinalResult_returns v : vm_ok c v ->
  returns (getFinalResult c v) (fun '(v', out) => vm_ok c v' /\ length out = 32%nat /\ Forall is_u8 out).
Proof.
  intros Hv. pose proof (vo_pad _ _ Hv) as [Hp HB]. unfold getFinalResult.
  eapply returns_use; [by apply hashAes_ok|]. intros h [Hl Hh].
  destruct (finish_ok v h Hv Hl Hh) as [-> Hv']. cbn [mbind result_bind returns mret result_ret].
  destruct (blake2b_ok RANDOMX_HASH_SIZE (reg (with_reg (splice (reg v) 192 h) v))) as [Hbl Hbb]; [done|].
  split_and!; [done| |done]. unfold msize, RANDOMX_HASH_SIZE in *. lia.
Qed.

Lemma calculate_hash_returns v input : vm_ok c v ->
  returns (randomx_calculate_hash c v input)
    (fun '(v', out) => vm_ok c v' /\ length out = 32%nat /\ Forall is_u8 out).
Proof.
  intros Hv. unfold randomx_calculate_hash. cbn zeta.
  eapply returns_use; [apply initScratchpad_returns; [|done]; apply blake2b_ok; lia|].
  intros [t v1] [Ht Hv1]. eapply returns_use; [by apply run_programs_returns|]. intros v2 Hv2.
  by apply getFinalResult_returns.
Qed.

End Execute.

End VMProofs.
