(* ===== verification/VMDeterminism.v ===== *)
(** * The hash is a function of its input

    Two machines, possibly with different dataset readers that agree on the
    addresses the machine can form, that start with different contents of
    scratchpad, register file, program buffer and bytecode array, compute the
    same hash of the same input. *)
From Stdlib Require Import ZArith Lia.
From stdpp Require Import base numbers list.
From S2P Require Import Prelude Reciprocal Blake2b Instruction Memory SoftAes AesHash Config Float64 Bytecode BytecodeProofs Dataset DatasetProofs VM VMProofs.
Import Config.Config Bytecode.Bytecode BytecodeProofs.BytecodeProofs AesHash.AesHash VM.VM VMProofs.VMProofs.
Open Scope Z_scope.

Module VMDeterminism.
Import Dataset.Dataset.

(** ** Closed forms of the loops that write memory *)

Lemma splice_nil m off : splice m off [] = m.
Proof. unfold splice. simpl. rewrite Nat.add_0_r. apply take_drop. Qed.

Lemma words_cons x l : words_bytes (x :: l) = store_le 8 x ++ words_bytes l.
Proof. done. Qed.

Lemma length_words_bytes l : Z.of_nat (length (words_bytes l)) = 8 * Z.of_nat (length l).
Proof.
  induction l as [|x l IH]; [done|]. rewrite words_cons, length_app, length_store_le by lia. simpl. lia.
Qed.

Lemma store_words_eq l m off : 0 <= off -> off + 8 * Z.of_nat (length l) <= msize m ->
  store_words m off l = Ok (splice m off (words_bytes l)).
Proof.
  revert m off. induction l as [|x l IH]; intros m off H0 Hs; cbn [store_words length] in *.
  { by rewrite splice_nil. }
  assert (length (store_le 8 x) = 8%nat) as Hl by (apply length_store_le; lia).
  unfold mstore64. rewrite mstore_ok by (rewrite ?Hl; lia). cbn [mbind result_bind].
  rewrite IH by (rewrite ?msize_splice; rewrite ?Hl; lia). f_equal. rewrite words_cons.
  replace (off + 8) with (off + Z.of_nat (length (store_le 8 x))) by (rewrite Hl; lia).
  apply splice_splice; [done|]. rewrite length_app, Hl. pose proof (length_words_bytes l). lia.
Qed.

Lemma chunk_take m off n N : 0 <= off -> 0 <= n -> off + n <= N -> chunk (take (Z.to_nat N) m) off n = chunk m off n.
Proof.
  intros. unfold chunk. rewrite !take_drop_commute, take_take. do 2 f_equal. lia.
Qed.

Lemma chunk_same m1 m2 off n N : take (Z.to_nat N) m1 = take (Z.to_nat N) m2 -> 0 <= off -> 0 <= n ->
  off + n <= N -> chunk m1 off n = chunk m2 off n.
Proof. intros E ? ? ?. by rewrite <- (chunk_take m1 off n N), E, chunk_take. Qed.

(** A splice that reaches the end determines the rest. *)
Lemma drop_splice m off bs : 0 <= off <= msize m -> drop (Z.to_nat off) (splice m off bs) = bs ++ drop (Z.to_nat off + length bs) m.
Proof. intros H. unfold splice, msize in *. by rewrite drop_app_length' by (rewrite length_take; lia). Qed.

Lemma splice_0 m bs : splice m 0 bs = bs ++ drop (length bs) m.
Proof. done. Qed.

(** ** The AES generators *)

Section Generators.
Context `{A : AesRounds} `{AL : !SoftAes.SoftAes.AesLaws A}.

Fixpoint fill_bytes (n : nat) (s : lanes) : list Z :=
  match n with O => [] | S n => let s := dec_enc s gen_keys in lanes_bytes s ++ fill_bytes n s end.
Fixpoint fill_state (n : nat) (s : lanes) : lanes :=
  match n with O => s | S n => fill_state n (dec_enc s gen_keys) end.

Lemma length_fill_bytes n s : lanes_ok s -> length (fill_bytes n s) = (64 * n)%nat.
Proof.
  revert s. induction n as [|n IH]; intros s Hs; [done|]. cbn [fill_bytes].
  pose proof (dec_enc_ok s gen_keys Hs gen_keys_ok) as Hs'. rewrite length_app, length_lanes, IH by done. lia.
Qed.

Lemma F_iter_closed n s m ptr : lanes_ok s -> 0 <= ptr -> ptr + 64 * Z.of_nat n <= msize m ->
  F_iter n s m ptr = (fill_state n s, splice m ptr (fill_bytes n s)).
Proof.
  revert s m ptr. induction n as [|n IH]; intros s m ptr Hs Hp Hm; cbn [F_iter fill_state fill_bytes].
  { by rewrite splice_nil. }
  pose proof (dec_enc_ok s gen_keys Hs gen_keys_ok) as Hs'. pose proof (length_lanes _ Hs') as Hl.
  rewrite IH; [|done|lia|rewrite splice_lanes_size; done || lia]. f_equal.
  replace (ptr + 64) with (ptr + Z.of_nat (length (lanes_bytes (dec_enc s gen_keys)))) by (rewrite Hl; lia).
  apply splice_splice; [done|]. rewrite length_app, Hl, length_fill_bytes by done. lia.
Qed.

(** The new scratchpad depends on the seed only. *)
Lemma fill_independent seed size pad1 pad2 : Forall is_u8 seed -> msize seed = 64 -> 0 <= size ->
  size mod 64 = 0 -> msize pad1 = size -> msize pad2 = size ->
  fillAes1Rx4 seed size pad1 = fillAes1Rx4 seed size pad2.
Proof.
  intros HB Hs H0 H64 H1 H2. set (n := Z.to_nat (size / 64)).
  assert (size = 64 * Z.of_nat n) as En.
  { assert (size = 64 * (size / 64)) by (apply Z.div_exact; lia). lia. }
  pose proof (lanes_at_ok seed 0 ltac:(lia) ltac:(lia) HB) as Hl.
  unfold fillAes1Rx4. rewrite load_lanes_eq by lia. cbn [mbind result_bind].
  rewrite !(fill_loop_eq _ n) by (done || lia). rewrite !F_iter_closed by (done || lia).
  rewrite !splice_0, !drop_ge by (rewrite length_fill_bytes by done; unfold msize in *; lia). done.
Qed.

Fixpoint fill4_bytes (key : list vec) (n : nat) (s : lanes) : list Z :=
  match n with
  | O => []
  | S n => let s := TRANSFORM key s in lanes_bytes (mask_lanes s) ++ fill4_bytes key n s
  end.

Lemma length_fill4_bytes key n s : Forall is_vec key -> length key = 8%nat -> lanes_ok s ->
  length (fill4_bytes key n s) = (64 * n)%nat.
Proof.
  intros Hk Hkl. revert s. induction n as [|n IH]; intros s Hs; [done|]. cbn [fill4_bytes].
  pose proof (TRANSFORM_ok key s Hk Hkl Hs) as Hs'.
  rewrite length_app, length_lanes, IH by (done || by apply mask_lanes_ok). lia.
Qed.

Lemma fill4_loop_closed key fuel n s m ptr endp : Forall is_vec key -> length key = 8%nat -> lanes_ok s ->
  0 <= ptr -> ptr + 64 * Z.of_nat n = endp -> endp <= msize m -> (n <= fuel)%nat ->
  fill4_loop fuel key s m ptr endp = Ok (splice m ptr (fill4_bytes key n s)).
Proof.
  intros Hk Hkl. revert fuel s m ptr. induction n as [|n IH]; intros fuel s m ptr Hs Hp He Hm Hf.
  - replace endp with ptr by lia. rewrite splice_nil. destruct fuel; cbn [fill4_loop]; by rewrite Z.ltb_irrefl.
  - destruct fuel as [|fuel]; [lia|]. cbn [fill4_loop fill4_bytes]. rewrite (proj2 (Z.ltb_lt _ _)) by lia.
    pose proof (TRANSFORM_ok key s Hk Hkl Hs) as Hs'. pose proof (mask_lanes_ok _ Hs') as Hm'.
    pose proof (length_lanes _ Hm') as Hl.
    rewrite store_lanes_eq by (done || lia). cbn [mbind result_bind].
    rewrite IH; [|done|lia|lia|rewrite splice_lanes_size; done || lia|lia]. f_equal.
    replace (ptr + 64) with (ptr + Z.of_nat (length (lanes_bytes (mask_lanes (TRANSFORM key s))))) by (rewrite Hl; lia).
    apply splice_splice; [done|]. rewrite length_app, Hl, length_fill4_bytes by done. lia.
Qed.

(** The generated program depends on the seed only. *)
Lemma program_independent key seed size buf1 buf2 p1 p2 :
  Forall is_vec key -> length key = 8%nat -> Forall is_u8 seed -> msize seed = 64 ->
  128 <= size -> size mod 64 = 0 -> size <= msize buf1 -> size <= msize buf2 ->
  fillAes4Rx4 key seed size buf1 = Ok p1 -> fillAes4Rx4 key seed size buf2 = Ok p2 ->
  take (Z.to_nat size) p1 = take (Z.to_nat size) p2.
Proof.
  intros Hk Hkl HB Hs Hmin H64 H1 H2. set (n := Z.to_nat (size / 64 - 2)).
  assert (size = 64 * (size / 64)) as E by (apply Z.div_exact; lia).
  pose proof (TRANSFORM_ok key _ Hk Hkl (lanes_at_ok seed 0 ltac:(lia) ltac:(lia) HB)) as Hs1.
  pose proof (TRANSFORM_ok key _ Hk Hkl Hs1) as Hs2.
  assert (forall buf p, size <= msize buf -> fillAes4Rx4 key seed size buf = Ok p ->
    p = splice buf 0 ((lanes_bytes (TRANSFORM key (lanes_at seed 0)) ++
          lanes_bytes (TRANSFORM key (TRANSFORM key (lanes_at seed 0)))) ++
          fill4_bytes key n (TRANSFORM key (TRANSFORM key (lanes_at seed 0))))) as HK.
  { intros buf p Hb. unfold fillAes4Rx4. rewrite load_lanes_eq by lia. cbn [mbind result_bind].
    set (s1 := TRANSFORM key (lanes_at seed 0)) in *. set (s2 := TRANSFORM key s1) in *.
    pose proof (length_lanes s1 Hs1) as Hl1. pose proof (length_lanes s2 Hs2) as Hl2.
    pose proof (length_fill4_bytes key n s2 Hk Hkl Hs2) as Hl3.
    rewrite store_lanes_eq by (done || lia). cbn [mbind result_bind].
    rewrite store_lanes_eq by (done || rewrite ?splice_lanes_size; done || lia). cbn [mbind result_bind].
    change 64 with (0 + Z.of_nat 64) at 1. rewrite <- Hl1 at 1.
    rewrite splice_splice by (rewrite ?length_app; lia).
    rewrite (fill4_loop_closed key _ n);
      [|done|done|done|lia|lia|rewrite msize_splice; rewrite ?length_app; lia|lia].
    intros [= <-]. replace 128 with (0 + Z.of_nat (length (lanes_bytes s1 ++ lanes_bytes s2)))
      by (rewrite length_app; lia).
    apply splice_splice; [lia|]. rewrite !length_app. lia. }
  intros E1 E2. rewrite (HK _ _ H1 E1), (HK _ _ H2 E2), !splice_0.
  rewrite !take_app_length'; [done|..];
    rewrite !length_app, !length_lanes, length_fill4_bytes by done; lia.
Qed.

End Generators.

(** ** Two machines side by side *)

Lemma Ok_inj {X} (x y : X) : Ok x = Ok y -> x = y.
Proof. by intros [=]. Qed.

Lemma bind_ext {X Y} (m : result X) (P : X -> Prop) (g1 g2 : X -> result Y) :
  returns m P -> (forall x, P x -> g1 x = g2 x) -> m ≫= g1 = m ≫= g2.
Proof. destruct m; simpl; auto. Qed.

Lemma mload_same m1 m2 off n : msize m1 = msize m2 -> chunk m1 off n = chunk m2 off n ->
  mload m1 off n = mload m2 off n.
Proof. intros Hs Hc. unfold mload. by rewrite Hs, Hc. Qed.

Lemma chunk_drop m k off n : 0 <= k <= off -> chunk (drop (Z.to_nat k) m) (off - k) n = chunk m off n.
Proof. intros. unfold chunk. rewrite drop_drop. do 2 f_equal. lia. Qed.

Lemma load_vecs_same n m1 m2 k off : msize m1 = msize m2 -> drop (Z.to_nat k) m1 = drop (Z.to_nat k) m2 ->
  0 <= k <= off -> load_vecs n m1 off = load_vecs n m2 off.
Proof.
  intros Hs Hd. revert off. induction n as [|n IH]; intros off Hk; [done|]. cbn [load_vecs]. unfold mload64.
  rewrite (mload_same m1 m2 off 8 Hs) by (by rewrite <- (chunk_drop m1 k), Hd, chunk_drop).
  rewrite (mload_same m1 m2 (off + 8) 8 Hs)
    by (rewrite <- (chunk_drop m1 k), Hd, chunk_drop by lia; done).
  by rewrite IH by lia.
Qed.

(** The entropy words, and what [init_a] makes of them. *)
Definition entropy (p : mem) (k : Z) : Z := load_le (chunk p (8 * k) 8).

Lemma getEntropy_eq p k : 0 <= k < 16 -> 128 <= msize p -> getEntropy p k = Ok (entropy p k).
Proof. intros. unfold getEntropy, mload64. by rewrite mload_ok by lia. Qed.

Lemma init_a_eq n p k rg : 128 <= msize p -> msize rg = 256 -> 0 <= k -> k + Z.of_nat n <= 8 ->
  init_a n p k rg =
    Ok (splice rg (192 + 8 * k) (words_bytes ((getSmallPositiveFloatBits ∘ entropy p) <$> seqZ k (Z.of_nat n)))).
Proof.
  intros Hp. revert k rg. induction n as [|n IH]; intros k rg Hs Hk Hn; cbn [init_a].
  { by rewrite splice_nil. }
  rewrite getEntropy_eq by lia. cbn [mbind result_bind].
  set (x := getSmallPositiveFloatBits (entropy p k)).
  assert (length (store_le 8 x) = 8%nat) as Hl by (apply length_store_le; lia).
  unfold mstore64. rewrite mstore_ok by (rewrite ?Hl; lia). cbn [mbind result_bind].
  rewrite IH by (rewrite ?msize_splice; rewrite ?Hl; lia). f_equal.
  rewrite (seqZ_cons k) by lia. replace (Z.succ k) with (k + 1) by lia.
  replace (Z.pred (Z.of_nat (S n))) with (Z.of_nat n) by lia.
  rewrite fmap_cons, words_cons. cbn [compose]. fold x.
  replace (192 + 8 * (k + 1)) with (192 + 8 * k + Z.of_nat (length (store_le 8 x))) by (rewrite Hl; lia).
  apply splice_splice; [lia|]. rewrite length_app, Hl.
  match goal with |- context [words_bytes ?l] => pose proof (length_words_bytes l) as Hw end.
  rewrite length_fmap, length_seqZ in Hw. lia.
Qed.

(** [initialize] as a function of the entropy words. *)
Definition entropy_config (en : Z -> Z) : ProgramConfiguration :=
  let ar := en 12 in
  mk_pconfig (getFloatMask (en 14), getFloatMask (en 15))
    (0 + Z.land ar 1, 2 + Z.land (Z.shiftr ar 1) 1, 4 + Z.land (Z.shiftr (Z.shiftr ar 1) 1) 1,
     6 + Z.land (Z.shiftr (Z.shiftr (Z.shiftr ar 1) 1) 1) 1).

Lemma initialize_eq v : msize (program v) = 2368 -> msize (reg v) = 256 ->
  initialize v = let en := entropy (program v) in
    Ok (mk_vm (program v)
          (splice (reg v) 192 (words_bytes ((getSmallPositiveFloatBits ∘ en) <$> seqZ 0 8)))
          (entropy_config en) (u32 (en 10)) (u32 (Z.land (en 8) CacheLineAlignMask)) (vm_scratchpad v)
          (en 13 mod (DatasetExtraItems + 1) * CacheLineSize) (bytecode v) (rounding v)).
Proof.
  intros Hp Hr. unfold initialize. cbn zeta. rewrite init_a_eq by (done || lia). cbn [mbind result_bind].
  by rewrite !getEntropy_eq by lia.
Qed.

Section Pair.
Context (c : RandomX_Configuration) (Hc : Config.Config.wf c).
Context (D1 D2 : DatasetReader) (L1 : DatasetLaws D1) (L2 : DatasetLaws D2).
Context (Hread : forall address rl, 0 <= address -> address mod 64 = 0 ->
  address + 64 <= DatasetBaseSize + DatasetExtraSize -> length rl = 8%nat -> Forall is_u64 rl ->
  datasetRead (DatasetReader := D1) address rl = datasetRead (DatasetReader := D2) address rl).

Lemma iteration_same cfg offset bc1 bc2 s : config_ok cfg ->
  0 <= offset <= DatasetExtraSize /\ offset mod 64 = 0 ->
  bytecode_ok (size c) (ProgramSize c) bc1 -> agree (ProgramSize c) bc1 bc2 -> loop_ok c s ->
  iteration c (D := D1) cfg offset bc1 s = iteration c (D := D2) cfg offset bc2 s.
Proof.
  intros Hcfg Hoff Hbc Hag [Hm Hmx Hma]. pose proof (size_range c Hc) as Hsz.
  destruct (prog_size_range c Hc) as [Hn _]. pose proof (mo_r _ _ Hm) as [Hlr HR].
  unfold iteration. destruct (readRegs cfg) as [[[rr0 rr1] rr2] rr3] eqn:Er.
  pose proof (co_regs cfg Hcfg) as Hrr. rewrite Er in Hrr. destruct Hrr as (H0 & H1 & H2 & H3).
  eapply bind_ext; [apply (aget_returns _ _ is_u64); [lia|done]|]. intros x0 _.
  eapply bind_ext; [apply (aget_returns _ _ is_u64); [lia|done]|]. intros x1 _.
  cbn zeta. eapply bind_ext; [apply (load_registers_returns c); try done; by apply sp_range|]. intros m1 Hm1.
  rewrite (execute_agree _ _ _ bc1 bc2) by done. rewrite <- (execute_agree _ _ _ bc1 bc2) by done.
  destruct (fresh_progress _ _ bc1 Hbc 0 m1 Hm1) as (M & HM & Hle); [lia|by left|].
  eapply bind_ext;
    [eapply (executeBytecode_returns (size c)); [done|done|done|lia|done|unfold bytecode_fuel; lia]|].
  intros m2 Hm2. pose proof (mo_r _ _ Hm2) as [Hlr2 HR2].
  eapply bind_ext; [apply (aget_returns _ _ is_u64); [lia|done]|]. intros x2 _.
  eapply bind_ext; [apply (aget_returns _ _ is_u64); [lia|done]|]. intros x3 _.
  destruct (read_address offset (l_ma s) Hoff Hma) as (Ha1 & Ha2 & Ha3).
  by rewrite Hread.
Qed.

Lemma iterate_same n cfg offset bc1 bc2 s : config_ok cfg ->
  0 <= offset <= DatasetExtraSize /\ offset mod 64 = 0 ->
  bytecode_ok (size c) (ProgramSize c) bc1 -> agree (ProgramSize c) bc1 bc2 -> loop_ok c s ->
  iterate c (D := D1) n cfg offset bc1 s = iterate c (D := D2) n cfg offset bc2 s.
Proof.
  intros Hcfg Hoff Hbc Hag. revert s. induction n as [|n IH]; intros s Hs; cbn [iterate]; [done|].
  rewrite <- (iteration_same cfg offset bc1 bc2) by done.
  eapply bind_ext; [by apply (iteration_returns c Hc)|]. exact IH.
Qed.

Lemma compileProgram_agree prog bc1 bc2 bc1' bc2' : length bc1 = length bc2 ->
  compileProgram c prog bc1 = Ok bc1' -> compileProgram c prog bc2 = Ok bc2' ->
  agree (ProgramSize c) bc1' bc2'.
Proof.
  intros Hl. unfold compileProgram. destruct (prog_size_range c Hc) as [Hn _].
  pose proof (compile_loop_stale c (Z.to_nat (ProgramSize c)) 0 prog bc1 bc2 beginCompilation ltac:(lia)) as H.
  assert (agree 0 bc1 bc2) as H0 by (split; [done|intros; lia]). specialize (H H0).
  destruct (compile_loop _ _ _ _ bc1 _) as [[x1 u1]| |], (compile_loop _ _ _ _ bc2 _) as [[x2 u2]| |]; try done.
  intros [= <-] [= <-]. by replace (ProgramSize c) with (0 + Z.of_nat (Z.to_nat (ProgramSize c))) by lia.
Qed.

(** The three stores at the end of [execute] overwrite all but the [a] group. *)
Lemma store_regfile rg lr lf le : msize rg = 256 -> length lr = 8%nat -> length lf = 4%nat -> length le = 4%nat ->
  (rg ← store_words rg 0 lr; rg ← store_vecs rg 64 lf; store_vecs rg 128 le)
  = Ok ((words_bytes lr ++ words_bytes (vec_words lf) ++ words_bytes (vec_words le)) ++ drop (Z.to_nat 192) rg).
Proof.
  intros Hs Hr Hf He. unfold store_vecs.
  pose proof (length_words_bytes lr). pose proof (length_words_bytes (vec_words lf)). pose proof (length_words_bytes (vec_words le)).
  rewrite !length_vec_words in *. rewrite (store_words_eq lr) by lia. cbn [mbind result_bind].
  assert (msize (splice rg 0 (words_bytes lr)) = 256) as Hs1 by (rewrite msize_splice; lia).
  rewrite (store_words_eq (vec_words lf)) by (rewrite ?length_vec_words; lia). cbn [mbind result_bind].
  replace 64 with (0 + Z.of_nat (length (words_bytes lr))) by lia.
  rewrite splice_splice by (rewrite ?length_app; lia).
  rewrite (store_words_eq (vec_words le))
    by (rewrite ?length_vec_words, ?msize_splice; rewrite ?length_app; lia).
  replace 128 with (0 + Z.of_nat (length (words_bytes lr ++ words_bytes (vec_words lf)))) by (rewrite length_app; lia).
  rewrite splice_splice by (rewrite ?length_app; lia). rewrite splice_0.
  rewrite <- (app_assoc (words_bytes lr) (words_bytes (vec_words lf)) (words_bytes (vec_words le))).
  replace (length (words_bytes lr ++ words_bytes (vec_words lf) ++ words_bytes (vec_words le)))
    with (Z.to_nat 192) by (rewrite !length_app; lia). done.
Qed.

(** Ready machines that agree on everything a run reads. *)
Record twins (v1 v2 : randomx_vm) : Prop := {
  tw_prog : take (Z.to_nat (128 + ProgramSize c * 8)) (program v1)
            = take (Z.to_nat (128 + ProgramSize c * 8)) (program v2);
  tw_reg : drop (Z.to_nat 192) (reg v1) = drop (Z.to_nat 192) (reg v2);
  tw_rest : config v1 = config v2 /\ mx v1 = mx v2 /\ ma v1 = ma v2 /\ datasetOffset v1 = datasetOffset v2;
  tw_pad : vm_scratchpad v1 = vm_scratchpad v2 /\ rounding v1 = rounding v2 }.

(** What a run leaves that later steps read. *)
Definition same_result (v1 v2 : randomx_vm) : Prop :=
  vm_ok c v1 /\ vm_ok c v2 /\ reg v1 = reg v2 /\ vm_scratchpad v1 = vm_scratchpad v2 /\ rounding v1 = rounding v2.

Definition both {X1 X2} (m1 : result X1) (m2 : result X2) (Q : X1 -> X2 -> Prop) : Prop :=
  exists x1 x2, m1 = Ok x1 /\ m2 = Ok x2 /\ Q x1 x2.

Lemma both_use {X1 X2 Y1 Y2} (m1 : result X1) (m2 : result X2) (g1 : X1 -> result Y1) (g2 : X2 -> result Y2) P Q :
  both m1 m2 P -> (forall x1 x2, P x1 x2 -> both (g1 x1) (g2 x2) Q) -> both (m1 ≫= g1) (m2 ≫= g2) Q.
Proof. intros (x1 & x2 & -> & -> & H) Hg. by apply Hg. Qed.

Lemma program_same p1 p2 : take (Z.to_nat (128 + ProgramSize c * 8)) p1 = take (Z.to_nat (128 + ProgramSize c * 8)) p2 ->
  program_instr p1 <$> seqZ 0 (ProgramSize c) = program_instr p2 <$> seqZ 0 (ProgramSize c).
Proof.
  intros E. apply list_fmap_ext. intros j x Hx. apply list_elem_of_lookup_2, elem_of_seqZ in Hx. unfold program_instr.
  by rewrite (chunk_same p1 p2 _ _ _ E) by lia.
Qed.

Lemma execute_same v1 v2 : ready c v1 -> ready c v2 -> twins v1 v2 ->
  both (execute c (D := D1) v1) (execute c (D := D2) v2) same_result.
Proof.
  intros R1 R2 [Tp Tr (Tc & Tmx & Tma & Toff) (Tpad & Tround)].
  pose proof (execute_returns c Hc (D := D1) v1 R1) as Ret1. pose proof (execute_returns c Hc (D := D2) v2 R2) as Ret2.
  apply returns_iff in Ret1 as (w1 & E1 & Hw1). apply returns_iff in Ret2 as (w2 & E2 & Hw2).
  exists w1, w2. split_and!; [done|done|]. split; [done|]. split; [done|].
  pose proof R1 as [[[Hp HPB] [Hr HRB] [Hpad HSB] Hcode Hround] Hcfg Hmx Hma Hoff].
  pose proof R2 as [[[Hp2 HPB2] [Hr2 HRB2] _ Hcode2 _] _ _ _ _].
  destruct (prog_size_range c Hc) as [Hn _]. unfold execute in E1, E2.
  rewrite <- (load_vecs_same 4 (reg v1) (reg v2) 192 192) in E2 by (done || lia).
  pose proof (load_vecs_returns (reg v1) HRB 4 192 ltac:(lia) ltac:(lia)) as Ha.
  destruct (load_vecs 4 (reg v1) 192) as [a'| |]; [|done|done]. destruct Ha as [Hla HA].
  cbn [mbind result_bind] in E1, E2. rewrite <- (program_same _ _ Tp) in E2.
  set (prog := program_instr (program v1) <$> seqZ 0 (ProgramSize c)) in *.
  assert (Forall Instruction.Instruction.wf prog) as HW by (apply program_instr_wf; done || lia).
  assert (ProgramSize c <= Z.of_nat (length prog)) as Hlp by (unfold prog; rewrite length_fmap, length_seqZ; lia).
  assert (ProgramSize c <= Z.of_nat (Z.to_nat RANDOMX_PROGRAM_MAX_SIZE)) as Hmax
    by (unfold RANDOMX_PROGRAM_MAX_SIZE; lia).
  pose proof (compileProgram_ok c Hc prog (bytecode v1) Hlp ltac:(by rewrite Hcode) HW) as C1.
  apply returns_iff in C1 as (bc1 & B1 & Hl1 & Hbc1). rewrite B1 in E1.
  pose proof (compileProgram_ok c Hc prog (bytecode v2) Hlp ltac:(by rewrite Hcode2) HW) as C2.
  apply returns_iff in C2 as (bc2 & B2 & Hl2 & Hbc2). rewrite B2 in E2.
  pose proof (compileProgram_agree prog (bytecode v1) (bytecode v2) bc1 bc2 ltac:(congruence) B1 B2) as Hag.
  cbn [mbind result_bind] in E1, E2. rewrite <- Tc, <- Tmx, <- Tma, <- Toff, <- Tpad, <- Tround in E2.
  set (s0 := mk_loop _ _ _ _ _) in *.
  assert (loop_ok c s0) as Hs0.
  { split; cbn [mach l_mx l_ma]; [|done|done]. split; cbn [nreg r f e a scratchpad fprc]; try done;
      (split; [done|]); apply Forall_replicate; unfold fvec_ok, is_u64; simpl; lia. }
  rewrite <- (iterate_same _ _ _ bc1 bc2 s0 Hcfg Hoff Hbc1 Hag Hs0) in E2.
  pose proof (iterate_returns c Hc (D := D1) (Z.to_nat (ProgramIterations c)) _ _ bc1 s0 Hcfg Hoff Hbc1 Hs0) as Hit.
  apply returns_iff in Hit as (s & Es & [Hm _ _]). rewrite Es in E1, E2. cbn [mbind result_bind] in E1, E2.
  pose proof (mo_r _ _ Hm) as [Hlr _]. pose proof (mo_f _ _ Hm) as [Hlf _]. pose proof (mo_e _ _ Hm) as [Hle _].
  assert (forall w rg bc v, msize rg = 256 ->
    (rg ← store_words rg 0 (r (nreg (mach s))); rg ← store_vecs rg 64 (f (nreg (mach s)));
     rg ← store_vecs rg 128 (e (nreg (mach s)));
     mret (mk_vm (program v) rg (config v) (l_mx s) (l_ma s) (scratchpad (mach s)) (datasetOffset v) bc (fprc (mach s)))) = Ok w ->
    reg w = (words_bytes (r (nreg (mach s))) ++ words_bytes (vec_words (f (nreg (mach s)))) ++
             words_bytes (vec_words (e (nreg (mach s))))) ++ drop (Z.to_nat 192) rg /\
    vm_scratchpad w = scratchpad (mach s) /\ rounding w = fprc (mach s)) as HK.
  { intros w rg bc v Hrg E. pose proof (store_regfile rg _ _ _ Hrg Hlr Hlf Hle) as St.
    destruct (store_words rg 0 _) as [rg1| |]; [|done|done]. cbn [mbind result_bind] in *.
    destruct (store_vecs rg1 64 _) as [rg2| |]; [|done|done]. cbn [mbind result_bind] in *.
    destruct (store_vecs rg2 128 _) as [rg3| |]; [|done|done]. injection St as <-. by injection E as <-. }
  destruct (HK _ _ _ _ Hr E1) as (-> & -> & ->). 
  assert (exists v, (rg ← store_words (reg v2) 0 (r (nreg (mach s))); rg ← store_vecs rg 64 (f (nreg (mach s)));
     rg ← store_vecs rg 128 (e (nreg (mach s)));
     mret (mk_vm (program v) rg (config v) (l_mx s) (l_ma s) (scratchpad (mach s)) (datasetOffset v) bc2 (fprc (mach s)))) = Ok w2) as [v E2'].
  { exists (mk_vm (program v2) [] (config v1) 0 0 [] (datasetOffset v1) [] 0). exact E2. }
  destruct (HK _ _ _ _ Hr2 E2') as (-> & -> & ->). by rewrite Tr.
Qed.

(** The initialised machines agree if their programs do. *)
Lemma initialize_twins v1 v2 : vm_ok c v1 -> vm_ok c v2 ->
  take (Z.to_nat (128 + ProgramSize c * 8)) (program v1) = take (Z.to_nat (128 + ProgramSize c * 8)) (program v2) ->
  vm_scratchpad v1 = vm_scratchpad v2 -> rounding v1 = rounding v2 ->
  both (initialize v1) (initialize v2) (fun w1 w2 => ready c w1 /\ ready c w2 /\ twins w1 w2).
Proof.
  intros Hv1 Hv2 Ep Epad Er. destruct (prog_size_range c Hc) as [Hn _].
  pose proof (initialize_returns c v1 Hc Hv1) as R1. pose proof (initialize_returns c v2 Hc Hv2) as R2.
  apply returns_iff in R1 as (w1 & E1 & R1). apply returns_iff in R2 as (w2 & E2 & R2).
  exists w1, w2. split_and!; [done|done|done|done|].
  pose proof (vo_prog _ _ Hv1) as [Hp1 _]. pose proof (vo_prog _ _ Hv2) as [Hp2 _].
  pose proof (vo_reg _ _ Hv1) as [Hr1 _]. pose proof (vo_reg _ _ Hv2) as [Hr2 _].
  assert (forall k, 0 <= k < 16 -> entropy (program v1) k = entropy (program v2) k) as He.
  { intros k Hk. unfold entropy. by rewrite (chunk_same _ _ _ _ _ Ep) by lia. }
  rewrite initialize_eq in E1 by done. rewrite initialize_eq in E2 by done. cbn zeta in E1, E2.
  apply Ok_inj in E1. apply Ok_inj in E2. subst w1 w2.
  split; cbn [program reg config mx ma datasetOffset vm_scratchpad rounding]; [done| |..|done].
  - rewrite !drop_splice by lia.
    assert (forall p, length (words_bytes ((getSmallPositiveFloatBits ∘ entropy p) <$> seqZ 0 8)) = 64%nat) as Hl.
    { intros p. pose proof (length_words_bytes ((getSmallPositiveFloatBits ∘ entropy p) <$> seqZ 0 8)) as Hw.
      rewrite length_fmap, length_seqZ in Hw. lia. }
    rewrite !drop_ge by (rewrite ?Hl; unfold msize in *; lia). rewrite !app_nil_r. f_equal.
    apply list_fmap_ext. intros j x Hx. apply list_elem_of_lookup_2, elem_of_seqZ in Hx. cbn [compose].
    by rewrite He by lia.
  - unfold entropy_config. by rewrite !He by lia.
Qed.

Context `{A : AesRounds} `{AL : !SoftAes.SoftAes.AesLaws A}.

Lemma run_same seed v1 v2 : seed_ok seed -> vm_ok c v1 -> vm_ok c v2 ->
  vm_scratchpad v1 = vm_scratchpad v2 -> rounding v1 = rounding v2 ->
  both (run c (D := D1) seed v1) (run c (D := D2) seed v2) same_result.
Proof.
  intros [Hs HSB] Hv1 Hv2 Epad Er. destruct (program_bytes c Hc) as [H1 H2].
  destruct (wf_keys c Hc) as [Hkl Hk]. destruct (prog_size_range c Hc) as [Hn _].
  pose proof (vo_prog _ _ Hv1) as [Hp1 HB1]. pose proof (vo_prog _ _ Hv2) as [Hp2 HB2]. unfold run, generateProgram.
  pose proof (fillAes4Rx4_returns (fillAes4Rx4_Key c) seed (128 + ProgramSize c * 8) (program v1)
    Hk Hkl HSB Hs HB1 ltac:(lia) H1 H2) as G1.
  pose proof (fillAes4Rx4_returns (fillAes4Rx4_Key c) seed (128 + ProgramSize c * 8) (program v2)
    Hk Hkl HSB Hs HB2 ltac:(lia) H1 H2) as G2.
  apply returns_iff in G1 as (p1 & E1 & Hq1 & HQ1 & _). apply returns_iff in G2 as (p2 & E2 & Hq2 & HQ2 & _).
  pose proof (program_independent (fillAes4Rx4_Key c) seed (128 + ProgramSize c * 8) (program v1) (program v2) p1 p2
    Hk Hkl HSB Hs H1 H2 ltac:(lia) ltac:(lia) E1 E2) as Ep.
  rewrite E1, E2. cbn [mbind result_bind mret result_ret].
  eapply both_use; [apply initialize_twins|].
  - destruct Hv1. split; cbn [with_program program reg vm_scratchpad bytecode rounding]; try done. split; [lia|done].
  - destruct Hv2. split; cbn [with_program program reg vm_scratchpad bytecode rounding]; try done. split; [lia|done].
  - exact Ep.
  - exact Epad.
  - exact Er.
  - intros w1 w2 (R1 & R2 & T). by apply execute_same.
Qed.

Lemma run_chain_same n seed v1 v2 : seed_ok seed -> vm_ok c v1 -> vm_ok c v2 ->
  vm_scratchpad v1 = vm_scratchpad v2 -> rounding v1 = rounding v2 ->
  both (run_chain c (D := D1) n seed v1) (run_chain c (D := D2) n seed v2)
    (fun '(s1, w1) '(s2, w2) => s1 = s2 /\ seed_ok s1 /\ vm_ok c w1 /\ vm_ok c w2 /\
       vm_scratchpad w1 = vm_scratchpad w2 /\ rounding w1 = rounding w2).
Proof.
  revert seed v1 v2. induction n as [|n IH]; intros seed v1 v2 Hs Hv1 Hv2 Epad Er; cbn [run_chain].
  { eexists (_, _), (_, _). by split_and!. }
  eapply both_use; [by apply run_same|]. intros w1 w2 (Hw1 & Hw2 & Ereg & Ep & Erd). rewrite Ereg.
  apply IH; try done. apply blake2b_ok. lia.
Qed.

Lemma run_programs_same seed v1 v2 : seed_ok seed -> vm_ok c v1 -> vm_ok c v2 ->
  vm_scratchpad v1 = vm_scratchpad v2 ->
  both (run_programs c (D := D1) seed v1) (run_programs c (D := D2) seed v2) same_result.
Proof.
  intros Hs Hv1 Hv2 Epad. unfold run_programs.
  eapply both_use; [apply run_chain_same; try done; by apply reset_ok|].
  intros [s1 w1] [s2 w2] (-> & Hs' & Hw1 & Hw2 & Ep & Erd). by apply run_same.
Qed.

Lemma initScratchpad_same seed v1 v2 : seed_ok seed -> vm_ok c v1 -> vm_ok c v2 ->
  both (initScratchpad c seed v1) (initScratchpad c seed v2)
    (fun '(s1, w1) '(s2, w2) => s1 = s2 /\ seed_ok s1 /\ vm_ok c w1 /\ vm_ok c w2 /\
       vm_scratchpad w1 = vm_scratchpad w2).
Proof.
  intros Hs Hv1 Hv2. pose proof (initScratchpad_returns c Hc seed v1 Hs Hv1) as R1.
  pose proof (initScratchpad_returns c Hc seed v2 Hs Hv2) as R2.
  apply returns_iff in R1 as ([s1 w1] & E1 & Hs1 & Hw1). apply returns_iff in R2 as ([s2 w2] & E2 & Hs2 & Hw2).
  eexists (_, _), (_, _). split_and!; [done|done|..]; try done; destruct Hs as [Hl HB].
  all: pose proof (vo_pad _ _ Hv1) as [Hp1 _]; pose proof (vo_pad _ _ Hv2) as [Hp2 _].
  all: pose proof (size_range c Hc); destruct (size_blocks c Hc) as (H64 & _); unfold size in *.
  all: unfold initScratchpad in E1, E2.
  all: rewrite (fill_independent seed _ (vm_scratchpad v2) (vm_scratchpad v1)) in E2 by (done || lia).
  all: destruct (fillAes1Rx4 seed _ (vm_scratchpad v1)) as [[s pad]| |]; [|done|done].
  all: injection E1 as <- <-; by injection E2 as <- <-.
Qed.

Lemma calculate_hash_same v1 v2 input : vm_ok c v1 -> vm_ok c v2 ->
  both (randomx_calculate_hash c (D := D1) v1 input) (randomx_calculate_hash c (D := D2) v2 input)
    (fun '(_, h1) '(_, h2) => h1 = h2 /\ length h1 = 32%nat).
Proof.
  intros Hv1 Hv2. unfold randomx_calculate_hash. cbn zeta.
  eapply both_use; [apply initScratchpad_same; try done; apply blake2b_ok; lia|].
  intros [s1 w1] [s2 w2] (-> & Hs & Hw1 & Hw2 & Ep).
  eapply both_use; [by apply run_programs_same|]. intros x1 x2 (Hx1 & Hx2 & Ereg & Epad & _).
  pose proof (getFinalResult_returns c Hc x1 Hx1) as F1. pose proof (getFinalResult_returns c Hc x2 Hx2) as F2.
  apply returns_iff in F1 as ([y1 h1] & E1 & _ & Hl1 & _). apply returns_iff in F2 as ([y2 h2] & E2 & _ & Hl2 & _).
  eexists (_, _), (_, _). split_and!; [done|done| |done].
  unfold getFinalResult in E1, E2. rewrite <- Epad, <- Ereg in E2.
  destruct (hashAes1Rx4 (vm_scratchpad x1) _) as [h| |]; [|done|done]. cbn [mbind result_bind] in E1, E2.
  destruct (mstore (reg x1) 192 h) as [rg| |]; [|done|done]. injection E1 as _ <-. by injection E2 as _ <-.
Qed.

End Pair.

End VMDeterminism.
