(* ===== verification/RandomXHash.v ===== *)
(** * The RandomX hash (crypto/randomx/randomx.cpp)

    The theorems about [randomx_calculate_hash] and the pipelined pair
    [randomx_calculate_hash_first] / [randomx_calculate_hash_next] that the
    mining loop uses: totality, dependence on the input only, agreement of the
    light and the fast mode, and correctness of the pipeline. *)
From Stdlib Require Import ZArith Lia.
From stdpp Require Import base numbers list.
From S2P Require Import Prelude Instruction Memory SoftAes AesHash Config Bytecode BytecodeProofs Dataset DatasetProofs VM VMProofs VMDeterminism.
Import Config.Config Bytecode.Bytecode AesHash.AesHash VM.VM VMProofs.VMProofs VMDeterminism.VMDeterminism.
Open Scope Z_scope.

Module RandomXHash.

Section Hash.
Context (c : RandomX_Configuration) (Hc : Config.Config.wf c).
Context (D : DatasetReader) (DL : DatasetLaws D).
Context (A : AesRounds) (AL : SoftAes.SoftAes.AesLaws A).

(** C1: the hash of any input is computed: on every machine with buffers of
    the right sizes, whatever they contain, all the programs of the chain are
    generated, compiled and executed to their end, no access leaves the
    scratchpad, the register file, the program or the dataset, and 32 bytes
    come out of a machine that is again fit for use. *)
Theorem calculate_hash_total v input : vm_ok c v ->
  returns (randomx_calculate_hash c (D := D) (A := A) v input)
    (fun '(v', out) => vm_ok c v' /\ length out = 32%nat /\ Forall is_u8 out).
Proof. intros Hv. by apply (calculate_hash_returns c Hc (D := D) (A := A)). Qed.

(** C9: the hash depends on the input only: nothing that earlier hashes left in
    the scratchpad, the registers, the program buffer, the bytecode array or the
    rounding mode changes it. *)
Theorem calculate_hash_function v1 v2 input : vm_ok c v1 -> vm_ok c v2 ->
  exists v1' v2' hash,
    randomx_calculate_hash c (D := D) (A := A) v1 input = Ok (v1', hash) /\
    randomx_calculate_hash c (D := D) (A := A) v2 input = Ok (v2', hash).
Proof.
  intros H1 H2.
  destruct (calculate_hash_same c Hc D D DL DL (fun _ _ _ _ _ _ _ => eq_refl) (A := A) v1 v2 input H1 H2)
    as ([v1' h1] & [v2' h2] & E1 & E2 & <- & _).
  by exists v1', v2', h1.
Qed.

(** ** The pipelined interface *)

(** Finishing one hash and starting the next in a single pass. *)
Lemma hashAndFill_split softAes unroll v seed : vm_ok c v -> seed_ok seed ->
  hashAndFill c (A := A) softAes unroll seed v =
    ('(v', out) ← getFinalResult c (A := A) v;
     '(seed', v'') ← initScratchpad c (A := A) seed v';
     mret (v'', out, seed')).
Proof.
  intros Hv [Hs HB]. pose proof (vo_pad _ _ Hv) as [Hp _]. destruct (size_blocks c Hc) as (_ & Hmin & Hmod).
  unfold size in *.
  destruct (hashAndFill_eq softAes unroll (vm_scratchpad v) (ScratchpadL3_Size c) seed)
    as (h & seed' & pad' & Eh & Ef & Ehf); [done..|].
  unfold hashAndFill, getFinalResult, initScratchpad. rewrite Eh, Ehf. cbn [mbind result_bind].
  destruct (mstore (reg v) 192 h) as [rg| |]; [|done|done]. cbn [mbind result_bind mret result_ret].
  cbn [vm_scratchpad with_reg]. by rewrite Ef.
Qed.

Lemma pipeline_step softAes unroll v x0 x1 : vm_ok c v ->
  ('(v, t) ← randomx_calculate_hash_first c (A := A) v x0;
   randomx_calculate_hash_next c (D := D) (A := A) softAes unroll v t x1) =
  ('(v, h) ← randomx_calculate_hash c (D := D) (A := A) v x0;
   '(v, t) ← randomx_calculate_hash_first c (A := A) v x1;
   mret (v, t, h)).
Proof.
  intros Hv. unfold randomx_calculate_hash_first, randomx_calculate_hash, randomx_calculate_hash_next. cbn zeta.
  assert (forall x, seed_ok (blake2b 64 x)) as Hb by (intros x; apply blake2b_ok; lia).
  pose proof (initScratchpad_returns c Hc (A := A) _ v (Hb x0) Hv) as R1.
  destruct (initScratchpad c (blake2b 64 x0) v) as [[t1 v1]| |]; [|done|done]. destruct R1 as [Ht1 Hv1].
  cbn [mbind result_bind mret result_ret].
  pose proof (run_programs_returns c Hc (D := D) (A := A) t1 v1 Ht1 Hv1) as R2.
  destruct (run_programs c t1 v1) as [v2| |]; [|done|done]. cbn [mbind result_bind] in *.
  rewrite hashAndFill_split by done.
  destruct (getFinalResult c v2) as [[v3 out]| |]; [|done|done]. cbn [mbind result_bind].
  by destruct (initScratchpad c (blake2b 64 x1) v3) as [[t4 v4]| |].
Qed.

(** The loop of a worker: start with [x], then feed the next inputs. *)
Fixpoint mine (softAes unroll : Z) (v : randomx_vm) (t : mem) (xs : list (list Z)) : result (list (list Z)) :=
  match xs with
  | [] => mret []
  | x :: xs =>
      '(v, t, h) ← randomx_calculate_hash_next c (D := D) (A := A) softAes unroll v t x;
      hs ← mine softAes unroll v t xs;
      mret (h :: hs)
  end.
Definition mine_from (softAes unroll : Z) (v : randomx_vm) (x : list Z) (xs : list (list Z)) : result (list (list Z)) :=
  '(v, t) ← randomx_calculate_hash_first c (A := A) v x;
  mine softAes unroll v t xs.

(** The hashes of a list of inputs, each computed on the machine [v]. *)
Fixpoint hashes (v : randomx_vm) (xs : list (list Z)) : result (list (list Z)) :=
  match xs with
  | [] => mret []
  | x :: xs =>
      '(_, h) ← randomx_calculate_hash c (D := D) (A := A) v x;
      hs ← hashes v xs;
      mret (h :: hs)
  end.

Lemma hashes_any v1 v2 xs : vm_ok c v1 -> vm_ok c v2 -> hashes v1 xs = hashes v2 xs.
Proof.
  intros H1 H2. induction xs as [|x xs IH]; [done|]. cbn [hashes].
  destruct (calculate_hash_same c Hc D D DL DL (fun _ _ _ _ _ _ _ => eq_refl) (A := A) v1 v2 x H1 H2)
    as ([v1' h1] & [v2' h2] & -> & -> & <- & _).
  cbn [mbind result_bind]. by rewrite IH.
Qed.

(** C2: the mining loop is right: started with an input and fed the following
    ones, with the fused hash-and-fill pass of any unrolling, it outputs exactly
    the hashes [randomx_calculate_hash] gives of its inputs, in order (the last
    input is only prepared). *)
Theorem mining_pipeline_correct softAes unroll v x xs : vm_ok c v ->
  mine_from softAes unroll v x xs = hashes v (take (length xs) (x :: xs)).
Proof.
  revert v x. induction xs as [|y xs IH]; intros v x Hv.
  - unfold mine_from. cbn [length take hashes mine].
    pose proof (initScratchpad_returns c Hc (A := A) _ v (blake2b_ok 64 x ltac:(lia)) Hv) as R.
    unfold randomx_calculate_hash_first. cbn zeta.
    by destruct (initScratchpad c (blake2b 64 x) v) as [[t1 v1]| |].
  - cbn [length take hashes]. pose proof (pipeline_step softAes unroll v x y Hv) as St.
    pose proof (calculate_hash_returns c Hc (D := D) (A := A) v x Hv) as Rh.
    unfold mine_from in *. cbn [mine].
    destruct (randomx_calculate_hash c v x) as [[v' h]| |]; [|done|done]. destruct Rh as [Hv' _].
    rewrite (hashes_any v v') by done. rewrite <- (IH v' y Hv').
    destruct (randomx_calculate_hash_first c v x) as [[v1 t1]| |]; [| |]; cbn [mbind result_bind] in *.
    + rewrite St. by destruct (randomx_calculate_hash_first c v' y) as [[v2 t2]| |].
    + by destruct (randomx_calculate_hash_first c v' y) as [[v2 t2]| |].
    + by destruct (randomx_calculate_hash_first c v' y) as [[v2 t2]| |].
Qed.

End Hash.

(** ** Light and fast mode *)

Lemma item_count_bytes : 64 * Dataset.Dataset.DatasetItemCount = DatasetBaseSize + DatasetExtraSize /\
  0 <= Dataset.Dataset.DatasetItemCount < 2 ^ 32.
Proof. change Dataset.Dataset.DatasetItemCount with 34078719. split; [reflexivity|lia]. Qed.

Section Modes.
Context (c : RandomX_Configuration) (Hc : Config.Config.wf c).
Context (A : AesRounds) (AL : SoftAes.SoftAes.AesLaws A).

(** C3: the light mode is right: a machine that computes dataset items from the
    cache gives the same hash as a machine that reads the dataset initialised
    from that cache. *)
Theorem light_hash_is_full_hash cache dataset dataset' v1 v2 input :
  DatasetProofs.DatasetProofs.cache_ok cache -> Forall is_u8 dataset ->
  DatasetBaseSize + DatasetExtraSize <= msize dataset ->
  Dataset.Dataset.randomx_init_dataset cache dataset 0 Dataset.Dataset.DatasetItemCount = Ok dataset' ->
  vm_ok c v1 -> vm_ok c v2 ->
  exists v1' v2' hash,
    randomx_calculate_hash c (D := Dataset.Dataset.full_reader dataset') (A := A) v1 input = Ok (v1', hash) /\
    randomx_calculate_hash c (D := Dataset.Dataset.light_reader cache) (A := A) v2 input = Ok (v2', hash).
Proof.
  intros Hcache HB Hsz Hinit H1 H2. destruct item_count_bytes as [Hn Hr].
  destruct (DatasetProofs.DatasetProofs.init_dataset_ok cache Hcache dataset dataset' _ (proj1 Hr)
    ltac:(rewrite Hn; exact Hsz) HB Hinit) as [Hms HB'].
  assert (DatasetLaws (Dataset.Dataset.full_reader dataset')) as LF.
  { apply DatasetProofs.DatasetProofs.full_reader_laws; [rewrite Hms; exact Hsz|exact HB']. }
  pose proof (DatasetProofs.DatasetProofs.light_reader_laws cache Hcache) as LL.
  destruct (calculate_hash_same c Hc _ _ LF LL) with (A := A) (v1 := v1) (v2 := v2) (input := input)
    as ([v1' h1] & [v2' h2] & E1 & E2 & <- & _); [|exact AL|exact H1|exact H2|by exists v1', v2', h1].
  intros address rl Ha Hm Hin Hl HF.
  apply (DatasetProofs.DatasetProofs.light_full_read cache Hcache dataset dataset' Dataset.Dataset.DatasetItemCount);
    try done; rewrite Hn; exact Hsz || exact Hin.
Qed.

End Modes.

(** ** Software and hardware AES *)

Section AesImplementations.
Context (c : RandomX_Configuration) (Hc : Config.Config.wf c).
Context (D : DatasetReader) (DL : DatasetLaws D).
Context (A : AesRounds) (AL : SoftAes.SoftAes.AesLaws A).
Abbreviation hard := SoftAes.SoftAes.hard.

Lemma run_hard seed v : vm_ok c v -> seed_ok seed ->
  run c (D := D) (A := A) seed v = run c (D := D) (A := hard) seed v.
Proof.
  intros Hv [Hs HB]. unfold run, generateProgram. destruct (wf_keys c Hc) as [Hkl Hk].
  by rewrite (fillAes4Rx4_hard A) by done.
Qed.

Lemma run_programs_hard seed v : vm_ok c v -> seed_ok seed ->
  run_programs c (D := D) (A := A) seed v = run_programs c (D := D) (A := hard) seed v.
Proof.
  intros Hv Hs. unfold run_programs.
  assert (forall n s w, vm_ok c w -> seed_ok s ->
    run_chain c (D := D) (A := A) n s w = run_chain c (D := D) (A := hard) n s w) as Hch.
  { induction n as [|n IH]; intros s w Hw Hs'; [done|]. cbn [run_chain]. rewrite <- run_hard by done.
    eapply bind_ext; [by apply (run_returns c Hc (D := D) (A := A))|]. intros w' Hw'.
    apply IH; [done|]. apply blake2b_ok. lia. }
  rewrite <- Hch by (done || by apply reset_ok).
  eapply bind_ext; [apply (run_chain_returns c Hc (D := D) (A := A)); [done|by apply reset_ok]|].
  intros [s' w'] [Hs' Hw']. by apply run_hard.
Qed.

(** The hash does not depend on how the AES rounds are implemented: with
    the table-driven or the word-wise software rounds a machine computes the
    hash it computes with AES instructions. *)
Theorem hash_aes_independent v input : vm_ok c v ->
  randomx_calculate_hash c (D := D) (A := A) v input = randomx_calculate_hash c (D := D) (A := hard) v input.
Proof.
  intros Hv. unfold randomx_calculate_hash. cbn zeta.
  assert (seed_ok (blake2b 64 input)) as Hs by (apply blake2b_ok; lia).
  destruct (size_blocks c Hc) as (H64 & _). unfold size in *.
  assert (initScratchpad c (A := A) (blake2b 64 input) v = initScratchpad c (A := hard) (blake2b 64 input) v) as <-.
  { pose proof (vo_pad _ _ Hv) as [Hp HB]. destruct Hs as [Hsz HSB]. unfold initScratchpad.
    by rewrite (proj2 (hash_fill_hard A (vm_scratchpad v) _ (blake2b 64 input) (vm_scratchpad v) HB Hp H64 HSB Hsz Hp)). }
  eapply bind_ext; [by apply (initScratchpad_returns c Hc (A := A))|]. intros [t w] [Ht Hw].
  rewrite <- run_programs_hard by done.
  eapply bind_ext; [by apply (run_programs_returns c Hc (D := D) (A := A))|]. intros w' Hw'.
  unfold getFinalResult. pose proof (vo_pad _ _ Hw') as [Hp HB]. destruct Hs as [Hsz HSB].
  by rewrite (proj1 (hash_fill_hard A (vm_scratchpad w') _ (blake2b 64 input) (vm_scratchpad w') HB Hp H64 HSB Hsz Hp)).
Qed.

End AesImplementations.

(** ** Instances of the hypotheses *)

Definition sample_vm : randomx_vm :=
  mk_vm (replicate (Z.to_nat 2368) 0) (replicate (Z.to_nat 256) 0) (mk_pconfig (0, 0) (0, 2, 4, 6)) 0 0
    (replicate (Z.to_nat 262144) 0) 0 (replicate (Z.to_nat RANDOMX_PROGRAM_MAX_SIZE) BytecodeProofs.BytecodeProofs.blank) 0.
Definition used_vm : randomx_vm :=
  mk_vm (replicate (Z.to_nat 2368) 7) (replicate (Z.to_nat 256) 9) (mk_pconfig (0, 0) (1, 3, 5, 7)) 5 64
    (replicate (Z.to_nat 262144) 3) 0 (replicate (Z.to_nat RANDOMX_PROGRAM_MAX_SIZE) BytecodeProofs.BytecodeProofs.blank) 2.

Lemma replicate_bytes n x : 0 <= n -> is_u8 x ->
  msize (replicate (Z.to_nat n) x) = n /\ Forall is_u8 (replicate (Z.to_nat n) x).
Proof. intros. split; [by apply DatasetProofs.DatasetProofs.msize_replicate|by apply Forall_replicate]. Qed.

Lemma sample_vm_ok : vm_ok Arqma sample_vm.
Proof.
  unfold sample_vm. split; cbn [program reg vm_scratchpad bytecode rounding];
    [apply replicate_bytes; unfold is_u8; lia..|apply length_replicate|lia].
Qed.
Lemma used_vm_ok : vm_ok Arqma used_vm.
Proof.
  unfold used_vm. split; cbn [program reg vm_scratchpad bytecode rounding];
    [apply replicate_bytes; unfold is_u8; lia..|apply length_replicate|lia].
Qed.

Lemma arqma_wf : Config.Config.wf Arqma.
Proof. apply variants_wf. unfold variants. in_list. Qed.

Definition light := Dataset.Dataset.light_reader DatasetProofs.DatasetProofs.sample_cache.
Lemma light_laws : DatasetLaws light.
Proof. apply DatasetProofs.DatasetProofs.light_reader_laws, DatasetProofs.DatasetProofs.sample_cache_ok. Qed.

Lemma calculate_hash_total_witness :
  returns (randomx_calculate_hash Arqma (D := light) (A := SoftAes.SoftAes.soft1) sample_vm [1; 2; 3])
    (fun '(v', out) => vm_ok Arqma v' /\ length out = 32%nat /\ Forall is_u8 out).
Proof. apply (calculate_hash_total Arqma arqma_wf light light_laws _ _ sample_vm [1; 2; 3] sample_vm_ok). Defined.

Lemma calculate_hash_function_witness : exists v1' v2' hash,
  randomx_calculate_hash Arqma (D := light) (A := SoftAes.SoftAes.soft1) sample_vm [1; 2; 3] = Ok (v1', hash) /\
  randomx_calculate_hash Arqma (D := light) (A := SoftAes.SoftAes.soft1) used_vm [1; 2; 3] = Ok (v2', hash).
Proof.
  apply (calculate_hash_function Arqma arqma_wf light light_laws _ _ sample_vm used_vm [1; 2; 3]
           sample_vm_ok used_vm_ok).
Defined.

Lemma mining_pipeline_correct_witness :
  mine_from Arqma light SoftAes.SoftAes.soft2 2 4 sample_vm [1] [[2]; [3]] =
  hashes Arqma light SoftAes.SoftAes.soft2 sample_vm [[1]; [2]].
Proof.
  apply (mining_pipeline_correct Arqma arqma_wf light light_laws SoftAes.SoftAes.soft2 _ 2 4 sample_vm [1] [[2]; [3]]
           sample_vm_ok).
Defined.

Lemma light_hash_is_full_hash_witness : exists dataset' v1' v2' hash,
  randomx_calculate_hash Arqma (D := Dataset.Dataset.full_reader dataset') (A := SoftAes.SoftAes.soft1)
    sample_vm [1; 2; 3] = Ok (v1', hash) /\
  randomx_calculate_hash Arqma (D := light) (A := SoftAes.SoftAes.soft1) used_vm [1; 2; 3] = Ok (v2', hash).
Proof.
  destruct item_count_bytes as [Hn Hr].
  destruct (replicate_bytes (DatasetBaseSize + DatasetExtraSize) 0) as [Hsz HB];
    [discriminate|unfold is_u8; lia|].
  destruct (DatasetProofs.DatasetProofs.randomx_init_dataset_total DatasetProofs.DatasetProofs.sample_cache
    DatasetProofs.DatasetProofs.sample_cache_ok _ Dataset.Dataset.DatasetItemCount (proj1 Hr)
    ltac:(rewrite Hn, Hsz; apply Z.le_refl)) as [d Hd].
  exists d.
  apply (light_hash_is_full_hash Arqma arqma_wf SoftAes.SoftAes.soft1 _ DatasetProofs.DatasetProofs.sample_cache _ d
    sample_vm used_vm [1; 2; 3] DatasetProofs.DatasetProofs.sample_cache_ok HB
    ltac:(rewrite Hsz; apply Z.le_refl) Hd sample_vm_ok used_vm_ok).
Defined.

Lemma hash_aes_independent_witness :
  randomx_calculate_hash Arqma (D := light) (A := SoftAes.SoftAes.soft1) sample_vm [1; 2; 3] =
  randomx_calculate_hash Arqma (D := light) (A := SoftAes.SoftAes.hard) sample_vm [1; 2; 3].
Proof.
  apply (hash_aes_independent Arqma arqma_wf light light_laws SoftAes.SoftAes.soft1 _ sample_vm [1; 2; 3] sample_vm_ok).
Defined.

End RandomXHash.
