(* ===== verification/CpuWorker.v ===== *)
(** * The mining loop of a CPU worker (backend/cpu/CpuWorker.cpp)

    The loop of [CpuWorker<1>::start] puts the parts together: it reads the nonce
    of its blob, hashes the blob with the RandomX machine (or another hash
    function), goes to the next nonce and submits what is below the target.  RandomX
    is pipelined, so that the result of a round belongs to the blob, the nonce and
    the miner signature of the round before. *)
From Stdlib Require Import ZArith Lia.
From stdpp Require Import base numbers list relations.
From S2P Require Import Prelude Memory SoftAes Config Algorithm Job Nonce WorkerJob Mining Dataset VM VMProofs VMDeterminism RandomXHash.
Import Algorithm.Algorithm Job.Job Nonce.Nonce WorkerJob.WorkerJob Mining.Mining.
Import VM.VM VMProofs.VMProofs VMDeterminism.VMDeterminism.
Open Scope Z_scope.

Module CpuWorker.

Definition kReserveCount : Z := 32768.

(** ** One round *)

Section Loop.
(** The machine: its configuration, its dataset, the AES rounds, and the variant
    of the fused pass. *)
Context (c : Config.Config.RandomX_Configuration) (D : DatasetReader) (A : AesRounds) (softAes unroll : Z).
(** [fn(algorithm)]: the hash functions outside of RandomX, on a blob at a height. *)
Context (fn : Id -> list Z -> Z -> list Z).

(** The members of a worker. *)
Record cpu_worker := mk_cpu {
  c_algorithm : Id; c_vm : randomx_vm; c_job : WorkerJob; c_hash : mem; c_count : Z; c_benchSize : Z; c_threads : Z }.

Definition set_c_job (s : cpu_worker) (w : WorkerJob) : cpu_worker :=
  mk_cpu (c_algorithm s) (c_vm s) w (c_hash s) (c_count s) (c_benchSize s) (c_threads s).
Definition set_c_vm (s : cpu_worker) (v : randomx_vm) : cpu_worker :=
  mk_cpu (c_algorithm s) v (c_job s) (c_hash s) (c_count s) (c_benchSize s) (c_threads s).
Definition set_c_hash (s : cpu_worker) (h : mem) : cpu_worker :=
  mk_cpu (c_algorithm s) (c_vm s) (c_job s) h (c_count s) (c_benchSize s) (c_threads s).
Definition set_c_count (s : cpu_worker) (n : Z) : cpu_worker :=
  mk_cpu (c_algorithm s) (c_vm s) (c_job s) (c_hash s) n (c_benchSize s) (c_threads s).

(** The variables that live across the rounds. *)
Record locals := mk_locals { first : bool; tempHash : mem }.

(** What a round reports: [JobResults::submit], [JobResults::done], [BenchState::add]
    and [BenchState::done]; and how it goes on. *)
Inductive event :=
| Submit (nonce : Z) (hash : list Z) (signature : option (list Z))
| Done
| BenchAdd (value : Z)
| BenchDone.
Inductive control := Next | Break | Return.

(** What a round finds: the shared counters as the other threads left them, the
    data of the benchmark, and the signatures that [generateMinerSignature] makes
    from random numbers. *)
Record input := mk_input { i_shared : nonce_state; i_bench : Z; i_sig0 : list Z; i_sig : list Z }.

(** The bytes that are hashed. *)
Definition hashed_bytes (w : WorkerJob) : result (list Z) := j ← currentJob w; b ← blob w; mload b 0 (m_size j).

(** [readUnaligned(m_job.nonce(0))] *)
Definition job_nonce (w : WorkerJob) : result Z := b ← blob w; off ← nonce_at1 w; mload32 b off.

(** [miner_signature_ptr] as an offset in the blob *)
Definition signature_at (w : WorkerJob) : result Z := j ← currentJob w; mret (nonceOffset j + nonceSize j).

(** [job.generateMinerSignature(m_job.blob(), job.size(), miner_signature_ptr)] *)
Definition sign (w : WorkerJob) (signature : list Z) : result WorkerJob :=
  p ← signature_at w; b ← blob w; b ← mstore b p signature; set_w_blob w b.
Definition sign_if (on : bool) (w : WorkerJob) (signature : list Z) : result WorkerJob :=
  if on then sign w signature else mret w.
Definition read_signature (w : WorkerJob) : result (list Z) := p ← signature_at w; b ← blob w; mload b p 64.
Definition save_signature_if (on : bool) (w : WorkerJob) : result (option (list Z)) :=
  if on then l ← read_signature w; mret (Some l) else mret None.

(** A benchmark with one thread makes the blob depend on the hashes so far. *)
Definition bench_xor (w : WorkerJob) (data : Z) : result WorkerJob :=
  b ← blob w; x ← mload64 b 0; b ← mstore64 b 0 (Z.lxor x data); set_w_blob w b.

(** [CpuWorker::nextRound] *)
Definition nextRound_cpu (g : nonce_state) (s : cpu_worker) : result (bool * nonce_state * cpu_worker * list event) :=
  let count := if c_benchSize s =? 0 then kReserveCount else 1 in
  '(ok, g, w) ← nextRound1 g (c_job s) count 1;
  mret (ok, g, set_c_job s w, if (ok : bool) then [] else [Done]).

(** The end of a round: the result of [nonce] is in [c_hash]. *)
Definition report (s : cpu_worker) (nonce : Z) (signature : option (list Z)) : result (list event) :=
  j ← currentJob (c_job s);
  value ← mload64 (c_hash s) 24;
  if negb (c_benchSize s =? 0) then mret (if nonce <? c_benchSize s then [BenchAdd value] else [])
  else mret (if value <? m_target j then [Submit nonce (c_hash s) signature] else []).

(** The branch for RandomX. *)
Definition round_rx (i : input) (g : nonce_state) (s : cpu_worker) (lo : locals) (nonce : Z)
    : result (control * nonce_state * cpu_worker * locals * list event) :=
  j ← currentJob (c_job s);
  '(s, lo) ←
    (if first lo then
       w ← sign_if (m_hasMinerSignature j) (c_job s) (i_sig0 i);
       x ← hashed_bytes w;
       '(v, t) ← randomx_calculate_hash_first c (A := A) (c_vm s) x;
       mret (set_c_vm (set_c_job s w) v, mk_locals false t)
     else mret (s, lo));
  '(ok, g, s, ev) ← nextRound_cpu g s;
  if negb ok then mret (Break, g, s, lo, ev)
  else
    saved ← save_signature_if (m_hasMinerSignature j) (c_job s);
    w ← sign_if (m_hasMinerSignature j) (c_job s) (i_sig i);
    x ← hashed_bytes w;
    '(v, t, h) ← randomx_calculate_hash_next c (D := D) (A := A) softAes unroll (c_vm s) (tempHash lo) x;
    let s := set_c_hash (set_c_vm (set_c_job s w) v) h in
    ev ← report s nonce saved;
    mret (Next, g, set_c_count s (u64 (c_count s + 1)), mk_locals false t, ev).

(** The branch for the other algorithms; GhostRider hashes eight blobs or none.
    The variable for the signature is not initialised here, its bytes are [i_sig]. *)
Definition round_fn (i : input) (g : nonce_state) (s : cpu_worker) (lo : locals) (nonce : Z)
    : result (control * nonce_state * cpu_worker * locals * list event) :=
  j ← currentJob (c_job s);
  let valid := negb (family (m_algorithm j) =? GHOSTRIDER) in
  x ← hashed_bytes (c_job s);
  let s := if valid then set_c_hash s (fn (m_algorithm j) x (m_height j)) else s in
  '(ok, g, s, ev) ← nextRound_cpu g s;
  if negb ok then mret (Break, g, s, lo, ev)
  else if valid then
    ev ← report s nonce (if m_hasMinerSignature j then Some (i_sig i) else None);
    mret (Next, g, set_c_count s (u64 (c_count s + 1)), lo, ev)
  else mret (Next, g, s, lo, []).

(** The body of the inner loop. *)
Definition round (i : input) (s : cpu_worker) (lo : locals)
    : result (control * nonce_state * cpu_worker * locals * list event) :=
  let g := i_shared i in
  outdated ← isOutdated g CPU (w_sequence (c_job s));
  j ← currentJob (c_job s);
  if (outdated : bool) || negb (l3 (m_algorithm j) =? l3 (c_algorithm s)) then mret (Break, g, s, lo, [])
  else
    nonce ← job_nonce (c_job s);
    if negb (c_benchSize s =? 0) && (c_benchSize s <=? nonce) then mret (Return, g, s, lo, [BenchDone])
    else
      w ← (if negb (c_benchSize s =? 0) && (c_threads s =? 1) then bench_xor (c_job s) (i_bench i) else mret (c_job s));
      let s := set_c_job s w in
      if family (m_algorithm j) =? RANDOM_X then round_rx i g s lo nonce else round_fn i g s lo nonce.

(** The inner loop, for the rounds whose inputs are given. *)
Fixpoint rounds (l : list input) (s : cpu_worker) (lo : locals) : result (control * cpu_worker * locals * list event) :=
  match l with
  | [] => mret (Next, s, lo, [])
  | i :: l =>
      '(k, _, s, lo, ev) ← round i s lo;
      match k with
      | Next => '(k, s, lo, evs) ← rounds l s lo; mret (k, s, lo, ev ++ evs)
      | k => mret (k, s, lo, ev)
      end
  end.

End Loop.

(** ** Which bytes change *)

(** Two buffers that differ at most from [lo] to [hi]. *)
Definition agree (lo hi : Z) (b b' : mem) : Prop :=
  msize b' = msize b /\ forall i, Z.of_nat i < lo \/ hi <= Z.of_nat i -> b' !! i = b !! i.

Lemma agree_refl lo hi b : agree lo hi b b.
Proof. done. Qed.

Lemma agree_trans lo hi b1 b2 b3 : agree lo hi b1 b2 -> agree lo hi b2 b3 -> agree lo hi b1 b3.
Proof. intros [S1 H1] [S2 H2]. split; [lia|]. intros i Hi. by rewrite H2, H1. Qed.

Lemma agree_weaken lo hi lo' hi' b b' : agree lo hi b b' -> lo' <= lo -> hi <= hi' -> agree lo' hi' b b'.
Proof. intros [S H] Hl Hh. split; [done|]. intros i Hi. apply H. lia. Qed.

Lemma agree_chunk lo hi b b' p n : agree lo hi b b' -> 0 <= p -> 0 <= n -> p + n <= lo \/ hi <= p -> chunk b' p n = chunk b p n.
Proof.
  intros [_ H] Hp Hn Hd. unfold chunk. apply list_eq. intros i. destruct (decide (i < Z.to_nat n)%nat) as [Hi|Hi].
  - rewrite !lookup_take_lt, !lookup_drop by lia. apply H. lia.
  - rewrite !lookup_take_ge by lia. done.
Qed.

Lemma mstore_agree b p l b' : mstore b p l = Ok b' -> agree p (p + Z.of_nat (length l)) b b'.
Proof.
  unfold mstore. destruct ((0 <=? p) && (p + Z.of_nat (length l) <=? msize b)) eqn:E; [|discriminate].
  apply andb_prop in E as [H1%Z.leb_le H2%Z.leb_le]. intros [= <-]. split; [by apply msize_splice|].
  unfold splice, msize in *. intros i Hi. destruct (decide (i < Z.to_nat p)%nat) as [Hp|Hp].
  - rewrite lookup_app_l by (rewrite length_take; lia). by rewrite lookup_take_lt by lia.
  - rewrite lookup_app_r by (rewrite length_take; lia). rewrite length_take, lookup_app_r, lookup_drop by lia.
    f_equal. lia.
Qed.

Lemma write_nonce_agree b off n mask b' : write_nonce b off n mask = Ok b' -> mask <= 0xFFFFFFFF -> agree off (off + 4) b b'.
Proof.
  unfold write_nonce. intros (w & _ & H)%bind_Ok Hm. apply bind_Ok in H as (b1 & E & H).
  rewrite (proj2 (Z.ltb_ge _ _)) in H by lia. injection H as <-. apply mstore_agree in E. by rewrite length_store_le in E.
Qed.

Lemma write_nonce_agree8 b off n mask b' : write_nonce b off n mask = Ok b' -> agree off (off + 8) b b'.
Proof.
  unfold write_nonce. intros (w & _ & H)%bind_Ok. apply bind_Ok in H as (b1 & E & H).
  apply mstore_agree in E. rewrite length_store_le in E by lia. apply (agree_weaken _ _ off (off + 8)) in E; [|lia|lia].
  destruct (0xFFFFFFFF <? mask); [|by injection H as <-]. apply bind_Ok in H as (w1 & _ & E2).
  apply mstore_agree in E2. rewrite length_store_le in E2 by lia. eapply agree_trans; [exact E|]. eapply agree_weaken; [exact E2|lia|lia].
Qed.

Lemma save_job_sequence w0 job backend w : save_job w0 job backend = Ok w -> w_sequence w = w_sequence w0.
Proof.
  unfold save_job, set_w_job, set_w_rounds, set_w_mask. intros (w1 & E1 & H)%bind_Ok. apply bind_Ok in H as (w2 & E2 & H).
  apply bind_Ok in H as (m & _ & H). apply bind_Ok in H as (w3 & E3 & H). apply bind_Ok in H as (j & _ & H).
  apply bind_Ok in E1 as (? & _ & [= <-]). apply bind_Ok in E2 as (? & _ & [= <-]). apply bind_Ok in E3 as (? & _ & [= <-]).
  by apply bind_Ok in H as (? & _ & [= <-]).
Qed.

(** ** A worker on a job *)

Section Job.
Context (job : Job) (M : minable job) (mask : Z) (Hmask : nonceMask job = Ok mask).
(** The sequence number of the job *)
Context (seq : Z).
Abbreviation idx := (m_index job).
Abbreviation off := (nonceOffset job).
Abbreviation nend := (nonceOffset job + nonceSize job).

(** The copy of the job that the worker keeps, up to its blob. *)
Definition own (bl : mem) : Job := set_blob (setBackend (copy Job.Job.empty job) CPU) bl.

Record on_job (w : WorkerJob) (b : mem) (r : Z) : Prop := {
  oj_worker : worker_ok idx off mask w b r;
  oj_sequence : w_sequence w = seq;
  oj_job : exists bl, m_jobs w !! Z.to_nat idx = Some (own bl) }.

Lemma idx_nonneg : 0 <= idx.
Proof. apply (mn_index _ M). Qed.
Lemma off_range : 0 <= off <= 400.
Proof. pose proof (offset_range job). lia. Qed.
Lemma mask_nonneg : 0 <= mask.
Proof.
  revert Hmask. unfold nonceMask. repeat case_match; try discriminate; intros [= <-]; try lia.
  apply Z.shiftr_nonneg. lia.
Qed.

Lemma own_job w b r : on_job w b r -> exists bl, currentJob w = Ok (own bl).
Proof.
  intros [W _ [bl E]]. exists bl. unfold currentJob. rewrite (ok_index _ _ _ _ _ _ W). by apply (aget_at idx idx_nonneg).
Qed.

(** A buffer in place of the blob. *)
Lemma put_blob w b r b' : on_job w b r -> msize b' = kMaxBlobSize -> Forall is_u8 b' ->
  exists w', set_w_blob w b' = Ok w' /\ on_job w' b' r.
Proof.
  intros [W Hq [bl E]] Hs HB. destruct (set_blob_ok _ _ _ idx_nonneg _ _ _ W b' Hs HB) as (w' & E' & W').
  exists w'. split; [done|]. revert W' E'. unfold set_w_blob. intros W' (l & _ & [= <-])%bind_Ok. split; [done|done|by exists bl].
Qed.

Lemma begin_round_on w b r q : on_job w b r -> 0 <= q <= 31 ->
  exists w', begin_round w (2 ^ q) = Ok ((r + 1) mod 2 ^ q =? 0, w') /\ on_job w' b (u32 (r + 1)).
Proof.
  intros [W Hsq [bl E]] Hq. destruct (begin_round_ok 0 _ _ _ idx_nonneg _ _ _ W q Hq) as (w' & E' & W' & _).
  exists w'. split; [exact E'|]. revert W' E'. unfold begin_round, set_w_rounds.
  intros W' (x & _ & H)%bind_Ok. apply bind_Ok in H as (w2 & E2 & H). apply bind_Ok in E2 as (l & _ & [= <-]).
  injection H as _ <-. split; [done|done|by exists bl].
Qed.

Lemma copy_high_on w b r : on_job w b r -> exists w', copy_high w = Ok w' /\ on_job w' b r.
Proof.
  intros [W Hsq [bl E]]. destruct (copy_high_ok 1 _ _ _ ltac:(lia) idx_nonneg off_range _ _ _ W) as (w' & E' & W').
  exists w'. split; [done|]. revert W' E'. unfold copy_high, currentJob.
  rewrite (ok_index _ _ _ _ _ _ W), (aget_at idx idx_nonneg _ _ E), ok_bind. intros W'.
  case_match; [|intros [= <-]; split; [done|done|by exists bl]]. intros (b1 & _ & H1)%bind_Ok. apply bind_Ok in H1 as (hi & _ & H1). apply bind_Ok in H1 as (jb & _ & H1).
  revert H1. unfold set_w_job. rewrite (ok_index _ _ _ _ _ _ W). intros (l & El & [= <-])%bind_Ok.
  destruct (aset_at idx idx_nonneg (m_jobs w) _ (set_blob (own bl) jb) E) as [E2 E3]. rewrite E2 in El. injection El as <-.
  split; [done|done|]. exists jb. exact E3.
Qed.

(** ** The next nonce *)

Lemma renewed_agree b b' : msize b = kMaxBlobSize -> Forall is_u8 b -> renewed b off (Z.land mask MASK63) b' ->
  agree off nend b b' /\ msize b' = kMaxBlobSize /\ Forall is_u8 b'.
Proof.
  intros Hs HB [->|(n & Hn & E)]; [done|].
  destruct (nonceMask_bits job (mn_extra _ M)) as (Hk & Hnb & mask' & Em & Hones). rewrite Hmask in Em. injection Em as <-.
  pose proof off_range as Ho. rewrite Hones in *.
  destruct (write_nonce_ok b off (mask_bits job) n HB ltac:(lia)) as (b2 & E2 & Hs2 & HB2 & _); [|done|lia|].
  { rewrite Hs. unfold nonce_bytes, kMaxBlobSize. case_match; lia. }
  rewrite E in E2. injection E2 as <-. split; [|split; [lia|done]]. unfold nonce_bytes in Hnb.
  destruct (Z.ltb_spec 32 (mask_bits job)).
  - eapply agree_weaken; [by eapply write_nonce_agree8|lia|lia].
  - eapply agree_weaken; [eapply write_nonce_agree; [exact E|]|lia|pose proof (offset_range job); lia].
    assert (2 ^ mask_bits job <= 2 ^ 32) by (apply Z.pow_le_mono_r; lia). lia.
Qed.

Lemma nonce_writable b n : msize b = kMaxBlobSize -> Forall is_u8 b -> 0 <= n <= Z.land mask MASK63 ->
  exists b', write_nonce b off n (Z.land mask MASK63) = Ok b'.
Proof.
  intros Hs HB Hn. destruct (nonceMask_bits job (mn_extra _ M)) as (Hk & _ & mask' & Em & Hones). rewrite Hmask in Em.
  injection Em as <-. rewrite Hones in *. pose proof off_range as Ho.
  destruct (write_nonce_ok b off (mask_bits job) n HB ltac:(lia)) as (b' & E & _); [|done|lia|by exists b'].
  rewrite Hs. unfold nonce_bytes, kMaxBlobSize. case_match; lia.
Qed.

(** The counters and sequences as the other threads may leave them. *)
Definition shared_ok (g : nonce_state) : Prop :=
  (exists n, m_nonces g !! Z.to_nat idx = Some n /\ 0 <= n) /\ (exists q, m_sequence g !! 0%nat = Some q).

(** Nonces are reserved in every 32768th round, and then there must be some left. *)
Definition nonces_left (n : Z) (g : nonce_state) : Prop :=
  (n + 1) mod kReserveCount = 0 -> exists ctr, m_nonces g !! Z.to_nat idx = Some ctr /\ available ctr kReserveCount (Z.land mask MASK63).

Lemma nextRound_on g w b r : on_job w b r -> shared_ok g ->
  exists ok g' w' b', nextRound1 g w kReserveCount 1 = Ok (ok, g', w') /\ on_job w' b' (u32 (r + 1)) /\ agree off nend b b' /\
    (ok = true <-> nonces_left r g).
Proof.
  intros J [(n & En & Hn) _]. unfold nextRound1, nonces_left. change kReserveCount with (2 ^ 15).
  destruct (begin_round_on w b r 15 J ltac:(lia)) as (w1 & -> & J1). rewrite ok_bind. pose proof J1 as [W1 _ _].
  pose proof (ok_size _ _ _ _ _ _ W1) as Hs. pose proof (ok_bytes _ _ _ _ _ _ W1) as HB. pose proof off_range as Ho.
  destruct (offset_range job) as [_ Hnz]. destruct (Z.eqb_spec ((r + 1) mod 2 ^ 15) 0) as [Hu|Hu].
  - rewrite (blob_is _ _ _ idx_nonneg _ _ _ W1), ok_bind, (offset_is _ _ _ idx_nonneg _ _ _ W1), ok_bind.
    rewrite (mask_is _ _ _ idx_nonneg _ _ _ W1), ok_bind, (ok_index _ _ _ _ _ _ W1).
    change (u32 (2 ^ 15 * 1)) with (2 ^ 15). destruct (next_returns g idx b off (2 ^ 15) mask n idx_nonneg En ltac:(lia) Hn mask_nonneg)
      as (ok & g' & b' & -> & Hb' & Hav).
    { intros x Hx. by apply nonce_writable. }
    rewrite ok_bind. destruct (renewed_agree b b' Hs HB Hb') as (Hag & Hs' & HB').
    assert (Hok : ok = true <-> ((r + 1) mod 2 ^ 15 = 0 -> exists ctr, m_nonces g !! Z.to_nat idx = Some ctr /\ available ctr (2 ^ 15) (Z.land mask MASK63))).
    { rewrite Hav. split; [by exists n|]. intros (ctr & Ec & Ha); [done|]. by assert (ctr = n) as -> by congruence. }
    destruct (put_blob w1 b _ b' J1 Hs' HB') as (w2 & -> & J2). rewrite ok_bind. destruct ok; cbn [negb].
    + destruct (copy_high_on w2 b' _ J2) as (w3 & -> & J3). rewrite ok_bind. by eexists _, _, w3, b'.
    + by eexists _, _, w2, b'.
  - unfold add_nonce1. rewrite (blob_is _ _ _ idx_nonneg _ _ _ W1), ok_bind, (offset_is _ _ _ idx_nonneg _ _ _ W1), ok_bind.
    unfold kMaxBlobSize in Hs. rewrite mload32_ok, ok_bind by lia.
    destruct (store_word b off (u32 (load_le (chunk b off 4) + 1)) HB) as (b' & Est & Hs' & HB' & _);
      [lia|lia|apply u32_range|]. rewrite Est, ok_bind.
    destruct (put_blob w1 b _ b' J1) as (w2 & -> & J2); [unfold kMaxBlobSize; lia|done|]. rewrite ok_bind.
    eexists _, _, w2, b'. split; [done|]. split; [done|]. split; [|done]. apply mstore_agree in Est.
    eapply agree_weaken; [exact Est|lia|rewrite length_store_le by lia; lia].
Qed.

(** ** The signature and the hashed bytes *)

Lemma signature_at_on w b r : on_job w b r -> signature_at w = Ok nend.
Proof. intros J. destruct (own_job w b r J) as [bl E]. unfold signature_at. by rewrite E, ok_bind. Qed.

Lemma sign_on w b r sig : on_job w b r -> length sig = 64%nat -> Forall is_u8 sig ->
  exists w' b', sign w sig = Ok w' /\ on_job w' b' r /\ agree nend (nend + 64) b b' /\ chunk b' nend 64 = sig.
Proof.
  intros J Hl HB. pose proof J as [W _ _]. unfold sign. rewrite (signature_at_on w b r J), ok_bind.
  rewrite (blob_is _ _ _ idx_nonneg _ _ _ W), ok_bind. pose proof (ok_size _ _ _ _ _ _ W) as Hs. unfold kMaxBlobSize in Hs.
  destruct (offset_range job) as [Ho Hn]. rewrite mstore_ok, ok_bind by lia.
  destruct (put_blob w b r (splice b nend sig) J) as (w' & E & J').
  { rewrite msize_splice by lia. unfold kMaxBlobSize. lia. }
  { apply splice_bytes; [apply W|done]. }
  exists w', (splice b nend sig). split; [done|]. split; [done|]. split.
  - assert (mstore b nend sig = Ok (splice b nend sig)) as Est%mstore_agree by (apply mstore_ok; lia).
    by rewrite Hl in Est.
  - pose proof (chunk_splice_same b nend sig ltac:(lia) ltac:(lia)) as Hc. by rewrite Hl in Hc.
Qed.

Lemma read_signature_on w b r : on_job w b r -> read_signature w = Ok (chunk b nend 64).
Proof.
  intros J. pose proof J as [W _ _]. unfold read_signature. rewrite (signature_at_on w b r J), ok_bind.
  rewrite (blob_is _ _ _ idx_nonneg _ _ _ W), ok_bind. pose proof (ok_size _ _ _ _ _ _ W) as Hs. unfold kMaxBlobSize in Hs.
  destruct (offset_range job) as [Ho Hn]. apply mload_ok; lia.
Qed.

Lemma hashed_bytes_on w b r : on_job w b r -> hashed_bytes w = Ok (chunk b 0 (m_size job)).
Proof.
  intros J. pose proof J as [W _ _]. destruct (own_job w b r J) as [bl E]. unfold hashed_bytes. rewrite E, ok_bind.
  rewrite (blob_is _ _ _ idx_nonneg _ _ _ W), ok_bind. pose proof (ok_size _ _ _ _ _ _ W) as Hs.
  destruct (mn_wf _ M) as [_ Hsz]. apply mload_ok; cbn; lia.
Qed.

Lemma job_nonce_on w b r : on_job w b r -> job_nonce w = Ok (load_le (chunk b off 4)).
Proof.
  intros J. pose proof J as [W _ _]. unfold job_nonce.
  rewrite (blob_is _ _ _ idx_nonneg _ _ _ W), ok_bind, (offset_is _ _ _ idx_nonneg _ _ _ W), ok_bind.
  pose proof (ok_size _ _ _ _ _ _ W) as Hs. unfold kMaxBlobSize in Hs. pose proof off_range. apply mload32_ok; lia.
Qed.

(** A blob of the job: only the nonce and the signature may differ from it. *)
Definition candidate (b : mem) : Prop :=
  msize b = kMaxBlobSize /\ forall i, 0 <= Z.of_nat i < m_size job ->
    Z.of_nat i < off \/ nend + (if m_hasMinerSignature job then 64 else 0) <= Z.of_nat i -> b !! i = m_blob job !! i.

Lemma candidate_agree b b' : candidate b -> agree off (nend + (if m_hasMinerSignature job then 64 else 0)) b b' -> candidate b'.
Proof. intros [Hs H] [Hs' H']. split; [lia|]. intros i Hi Ho. rewrite H' by done. by apply H. Qed.

(** Signing if the job needs it. *)
Lemma sign_if_on w b r sig : on_job w b r -> candidate b -> length sig = 64%nat -> Forall is_u8 sig ->
  exists w' b', sign_if (m_hasMinerSignature job) w sig = Ok w' /\ on_job w' b' r /\ candidate b' /\
    chunk b' off 4 = chunk b off 4.
Proof.
  intros J C Hl HB. unfold sign_if. pose proof (offset_range job) as [Ho Hn]. destruct (m_hasMinerSignature job) eqn:E; [|by exists w, b].
  destruct (sign_on w b r sig J Hl HB) as (w' & b' & -> & J' & Hag & _). exists w', b'. split; [done|]. split; [done|]. split.
  - eapply candidate_agree; [exact C|]. rewrite E. eapply agree_weaken; [exact Hag|lia|lia].
  - eapply agree_chunk; [exact Hag|lia|lia|lia].
Qed.

Lemma save_signature_on w b r : on_job w b r ->
  save_signature_if (m_hasMinerSignature job) w = Ok (if m_hasMinerSignature job then Some (chunk b nend 64) else None).
Proof.
  intros J. unfold save_signature_if. destruct (m_hasMinerSignature job); [|done]. by rewrite (read_signature_on w b r J).
Qed.

(** ** Taking over the job *)

(** The blob of the job in place of the old one. *)
Lemma copied_candidate b0 : msize b0 = kMaxBlobSize ->
  candidate (splice b0 0 (chunk (m_blob job) 0 (m_size job))).
Proof.
  intros Hs. destruct (mn_wf _ M) as [Hjs Hsz].
  assert (Z.of_nat (length (chunk (m_blob job) 0 (m_size job))) = m_size job) as Hl by (rewrite length_chunk; lia).
  split; [rewrite msize_splice; lia|]. intros i Hi _. unfold splice. rewrite lookup_app_r by (rewrite length_take; lia).
  rewrite length_take. change (Z.to_nat 0) with 0%nat. rewrite lookup_app_l by lia. unfold chunk. rewrite lookup_take_lt, lookup_drop by lia.
  f_equal. lia.
Qed.

Lemma save_on g w0 : worker_wf w0 -> w_sequence w0 = seq -> shared_ok g ->
  exists g' w b, save1 g w0 job kReserveCount CPU = Ok (g', w) /\ on_job w b 0 /\ candidate b.
Proof.
  intros Hwf Hsq [(n & En & Hn) _]. unfold save1. pose proof (mn_index _ M) as Hi.
  destruct (save_job_ok w0 job CPU mask Hwf Hi Hmask) as (w1 & E1 & Hix & Hbl & Hj & Hr & Hm). rewrite E1, ok_bind.
  destruct Hwf as (L1 & _ & _ & _ & HF). destruct (lookup_lt_is_Some_2 (m_blobs w0) (Z.to_nat idx)) as [b0 Eb]; [lia|].
  pose proof (Forall_lookup_1 _ _ _ _ HF Eb) as [Hb0 HB0]. destruct (mn_wf _ M) as [Hjs Hsz]. pose proof (mn_bytes _ M) as HB.
  assert (on_job w1 b0 0) as J1.
  { split; [|by apply (save_job_sequence w0 job CPU) in E1 as ->|exists (m_blob job); exact Hj]. split; try done; [by rewrite Hbl|].
    eexists. split; [exact Hj|]. split; [done|exact Hjs]. }
  pose proof J1 as [W1 _ _]. unfold copy_blob1. rewrite (blob_is _ _ _ idx_nonneg _ _ _ W1), ok_bind.
  rewrite mload_ok, ok_bind by lia. set (src := chunk (m_blob job) 0 (m_size job)).
  assert (Z.of_nat (length src) = m_size job) as Hl by (unfold src; rewrite length_chunk; lia).
  rewrite mstore_ok, ok_bind by lia. set (b1 := splice b0 0 src).
  assert (msize b1 = kMaxBlobSize) as Hs1 by (unfold b1; rewrite msize_splice; lia).
  assert (Forall is_u8 b1) as HB1 by (apply splice_bytes; [done|by apply chunk_bytes]).
  destruct (put_blob w1 b0 0 b1 J1 Hs1 HB1) as (w2 & -> & J2). rewrite ok_bind. pose proof J2 as [W2 _ _].
  rewrite (blob_is _ _ _ idx_nonneg _ _ _ W2), ok_bind, (offset_is _ _ _ idx_nonneg _ _ _ W2), ok_bind.
  rewrite (mask_is _ _ _ idx_nonneg _ _ _ W2), ok_bind, (ok_index _ _ _ _ _ _ W2).
  destruct (next_returns g idx b1 off kReserveCount mask n idx_nonneg En ltac:(unfold kReserveCount; lia) Hn mask_nonneg)
    as (ok & g' & b' & -> & Hb' & _); [intros x Hx; by apply nonce_writable|].
  rewrite ok_bind. destruct (renewed_agree b1 b' Hs1 HB1 Hb') as (Hag & Hs' & HB').
  destruct (put_blob w2 b1 _ b' J2 Hs' HB') as (w3 & -> & J3). rewrite ok_bind. exists g', w3, b'. split; [done|]. split; [done|].
  assert (candidate b1) as C1 by by apply copied_candidate.
  eapply candidate_agree; [exact C1|]. eapply agree_weaken; [exact Hag|lia|case_match; lia].
Qed.

(** ** The rounds *)

Section Machine.
Context (c : Config.Config.RandomX_Configuration) (Hc : Config.Config.wf c).
Context (D : DatasetReader) (DL : DatasetLaws D) (A : AesRounds) (AL : SoftAes.SoftAes.AesLaws A).
Context (softAes unroll : Z).
Context (fn : Id -> list Z -> Z -> list Z) (Hfn : forall a x h, length (fn a x h) = 32%nat).
(** Any machine, to say what the hash of an input is. *)
Context (v0 : randomx_vm) (Hv0 : vm_ok c v0).
(** The algorithm the worker was made for *)
Context (alg : Id).

(** The job is still the one to work on, and the worker can do it. *)
Definition current (g : nonce_state) : Prop := m_sequence g !! 0%nat = Some seq /\ l3 (m_algorithm job) = l3 alg.

(** The hash of a blob. *)
Definition hash_of (b : mem) : list Z :=
  let x := chunk b 0 (m_size job) in
  if family (m_algorithm job) =? RANDOM_X then
    match randomx_calculate_hash c (D := D) (A := A) v0 x with Ok (_, h) => h | _ => [] end
  else fn (m_algorithm job) x (m_height job).

(** What is to be reported of a blob: its nonce, hash and signature if the hash
    is below the target. *)
Definition results (b : mem) : list event :=
  if load_le (chunk (hash_of b) 24 8) <? m_target job then
    [Submit (load_le (chunk b off 4)) (hash_of b) (if m_hasMinerSignature job then Some (chunk b nend 64) else None)]
  else [].

(** The state after [n] rounds: the machine is in the middle of the hash of
    the blob, unless the first round is still to come. *)
Definition between (n : nat) (s : cpu_worker) (lo : locals) (b : mem) : Prop :=
  on_job (c_job s) b (u32 (Z.of_nat n)) /\ candidate b /\ c_benchSize s = 0 /\ c_algorithm s = alg /\
  (family (m_algorithm job) = RANDOM_X \/ first lo = true) /\
  if first lo then vm_ok c (c_vm s)
  else exists v, vm_ok c v /\
         randomx_calculate_hash_first c (A := A) v (chunk b 0 (m_size job)) = Ok (c_vm s, tempHash lo).

Lemma first_returns v x : vm_ok c v ->
  exists v' t, randomx_calculate_hash_first c (A := A) v x = Ok (v', t).
Proof.
  intros Hv. unfold randomx_calculate_hash_first. cbn zeta.
  pose proof (initScratchpad_returns c Hc (A := A) _ v (blake2b_ok 64 x ltac:(lia)) Hv) as R.
  destruct (initScratchpad c (blake2b 64 x) v) as [[t v']| |]; [|done|done]. by exists v', t.
Qed.

(** Finishing the hash of [x] and starting the one of [y]. *)
Lemma next_returns_hash v x v1 t y : vm_ok c v -> randomx_calculate_hash_first c (A := A) v x = Ok (v1, t) ->
  exists v' v2 t' h v0', randomx_calculate_hash_next c (D := D) (A := A) softAes unroll v1 t y = Ok (v2, t', h) /\
    vm_ok c v' /\ randomx_calculate_hash_first c (A := A) v' y = Ok (v2, t') /\
    randomx_calculate_hash c (D := D) (A := A) v0 x = Ok (v0', h) /\ length h = 32%nat.
Proof.
  intros Hv E. pose proof (RandomXHash.RandomXHash.pipeline_step c Hc D DL A AL softAes unroll v x y Hv) as P.
  rewrite E, ok_bind in P.
  pose proof (calculate_hash_returns c Hc (D := D) (A := A) v x Hv) as R.
  destruct (calculate_hash_same c Hc D D DL DL (fun _ _ _ _ _ _ _ => eq_refl) (A := A) v v0 x Hv Hv0)
    as ([v' h] & [v0' h'] & E1 & E2 & <- & _).
  rewrite E1, ok_bind in P. rewrite E1 in R. destruct R as (Hv' & Hl & _).
  destruct (first_returns v' y Hv') as (v2 & t' & E3). rewrite E3, ok_bind in P.
  by exists v', v2, t', h, v0'.
Qed.

(** The inputs of a round. *)
Definition input_ok (i : input) : Prop :=
  shared_ok (i_shared i) /\ (length (i_sig0 i) = 64%nat /\ Forall is_u8 (i_sig0 i)) /\ (length (i_sig i) = 64%nat /\ Forall is_u8 (i_sig i)).

(** How the round after [n] others stops, or why it does not. *)
Definition stops (n : nat) (g : nonce_state) (ev : list event) : Prop :=
  (~ current g /\ ev = []) \/ (current g /\ ~ nonces_left (Z.of_nat n) g /\ ev = [Done]).
Definition proceeds (n : nat) (g : nonce_state) : Prop := current g /\ nonces_left (Z.of_nat n) g.

(** What a round does. *)
Definition outcome (k : control) (n : nat) (g : nonce_state) (s s' : cpu_worker) (lo' : locals) (ev : list event) : Prop :=
  match k with
  | Next => proceeds n g /\ exists b b', candidate b /\ ev = results b /\ c_count s' = u64 (c_count s + 1) /\ between (S n) s' lo' b'
  | Break => c_count s' = c_count s /\ stops n g ev
  | Return => False
  end.

Lemma rounds_wrap n : (u32 n + 1) mod kReserveCount = (n + 1) mod kReserveCount.
Proof. unfold kReserveCount. rewrite u32_mod. change (2 ^ 32) with (32768 * 131072). rewrite Z.rem_mul_r, <- Z.add_mod_idemp_l by lia. rewrite Z.mul_comm, Z.mod_add, Z.mod_mod, Z.add_mod_idemp_l by lia. done. Qed.

Lemma nextRound_cpu_on n g s b : on_job (c_job s) b (u32 (Z.of_nat n)) -> c_benchSize s = 0 -> shared_ok g ->
  exists ok g' w' b', nextRound_cpu g s = Ok (ok, g', set_c_job s w', if (ok : bool) then [] else [Done]) /\
    on_job w' b' (u32 (Z.of_nat (S n))) /\ agree off nend b b' /\ (ok = true <-> nonces_left (Z.of_nat n) g).
Proof.
  intros J Hb Hg. unfold nextRound_cpu. rewrite Hb. change (0 =? 0) with true. cbn match zeta.
  destruct (nextRound_on g (c_job s) b _ J Hg) as (ok & g' & w' & b' & -> & J' & Hag & Hok). rewrite ok_bind.
  unfold nonces_left in Hok. rewrite rounds_wrap in Hok. exists ok, g', w', b'. split; [done|]. split; [|done].
  replace (u32 (Z.of_nat (S n))) with (u32 (u32 (Z.of_nat n) + 1)); [done|]. rewrite !u32_mod, Z.add_mod_idemp_l by lia. f_equal. lia.
Qed.

Lemma candidate_next b b' : candidate b -> agree off nend b b' -> candidate b'.
Proof. intros Hcb Hag. eapply candidate_agree; [exact Hcb|]. eapply agree_weaken; [exact Hag|lia|case_match; lia]. Qed.

(** [report] of a hash of 32 bytes *)
Lemma report_on s b r nonce sig : on_job (c_job s) b r -> c_benchSize s = 0 -> length (c_hash s) = 32%nat ->
  report s nonce sig = Ok (if load_le (chunk (c_hash s) 24 8) <? m_target job then [Submit nonce (c_hash s) sig] else []).
Proof.
  intros J Hb Hl. destruct (own_job _ _ _ J) as [bl E]. unfold report. rewrite E, ok_bind, Hb.
  unfold mload64. rewrite mload_ok, !ok_bind by (unfold msize; lia). done.
Qed.

(** The start of the first hash. *)
Lemma start_hash i s lo b r : on_job (c_job s) b r -> candidate b -> input_ok i ->
  (if first lo then vm_ok c (c_vm s)
   else exists v, vm_ok c v /\ randomx_calculate_hash_first c (A := A) v (chunk b 0 (m_size job)) = Ok (c_vm s, tempHash lo)) ->
  exists w v1 t v b1,
    (if first lo then
       w ← sign_if (m_hasMinerSignature job) (c_job s) (i_sig0 i);
       x ← hashed_bytes w;
       '(v, t) ← randomx_calculate_hash_first c (A := A) (c_vm s) x;
       mret (set_c_vm (set_c_job s w) v, mk_locals false t)
     else mret (s, lo)) = Ok (set_c_vm (set_c_job s w) v1, mk_locals false t) /\
    on_job w b1 r /\ candidate b1 /\ chunk b1 off 4 = chunk b off 4 /\
    vm_ok c v /\ randomx_calculate_hash_first c (A := A) v (chunk b1 0 (m_size job)) = Ok (v1, t).
Proof.
  intros J Hcb (_ & [Hl HB] & _) Hm. destruct lo as [fi th]. cbn [first tempHash] in *. destruct fi.
  - destruct (sign_if_on (c_job s) b r (i_sig0 i) J Hcb Hl HB) as (w & b1 & -> & J1 & C1 & Hn1). rewrite ok_bind.
    rewrite (hashed_bytes_on w b1 r J1), ok_bind. destruct (first_returns (c_vm s) (chunk b1 0 (m_size job)) Hm) as (v1 & t & E).
    rewrite E, ok_bind. by exists w, v1, t, (c_vm s), b1.
  - destruct Hm as (v & Hv & E). exists (c_job s), (c_vm s), th, v, b. by destruct s.
Qed.

Lemma round_rx_effect n i g s lo b : family (m_algorithm job) = RANDOM_X -> on_job (c_job s) b (u32 (Z.of_nat n)) -> candidate b -> input_ok i ->
  shared_ok g -> current g -> c_benchSize s = 0 -> c_algorithm s = alg ->
  (if first lo then vm_ok c (c_vm s)
   else exists v, vm_ok c v /\ randomx_calculate_hash_first c (A := A) v (chunk b 0 (m_size job)) = Ok (c_vm s, tempHash lo)) ->
  exists k g' s' lo' ev, round_rx c D A softAes unroll i g s lo (load_le (chunk b off 4)) = Ok (k, g', s', lo', ev) /\ outcome k n g s s' lo' ev.
Proof.
  intros Hf J Hcb Hi Hg Hcu Hb Hal Hm. unfold round_rx. destruct (own_job _ _ _ J) as [bl E]. rewrite E, ok_bind.
  change (m_hasMinerSignature (own bl)) with (m_hasMinerSignature job).
  destruct (start_hash i s lo b _ J Hcb Hi Hm) as (w & v1 & t & v & b1 & -> & J1 & C1 & Hn1 & Hv & E1). rewrite ok_bind.
  destruct (nextRound_cpu_on n g (set_c_vm (set_c_job s w) v1) b1 J1 Hb Hg) as (ok & g' & w2 & b2 & -> & J2 & Hag & Hok).
  rewrite ok_bind. destruct ok; cbn [negb].
  2: { eexists _, _, _, _, _. split; [done|]. split; [done|]. right. split; [done|]. split; [|done]. by intros Hl%Hok. }
  cbn [c_job set_c_job]. rewrite (save_signature_on w2 b2 _ J2), ok_bind. destruct Hi as (_ & _ & Hl & HB).
  destruct (sign_if_on w2 b2 _ (i_sig i) J2 (candidate_next _ _ C1 Hag) Hl HB) as (w3 & b3 & -> & J3 & C3 & _). rewrite ok_bind.
  rewrite (hashed_bytes_on w3 b3 _ J3), ok_bind. cbn [c_vm set_c_job set_c_vm tempHash].
  destruct (next_returns_hash v _ v1 t (chunk b3 0 (m_size job)) Hv E1) as (v' & v2 & t' & h & v0' & -> & Hv' & E2 & E3 & Hlh).
  rewrite ok_bind. cbn zeta. set (s3 := set_c_hash _ h).
  rewrite (report_on s3 b3 _ _ _ J3) by done. rewrite ok_bind. eexists _, _, _, _, _. split; [done|].
  pose proof (offset_range job) as [Ho Hns]. split; [split; [done|by apply Hok]|].
  exists b1, b3. split; [done|]. split; [|split; [done|]].
  - unfold results, hash_of. rewrite Hf, E3, Hn1. change (RANDOM_X =? RANDOM_X) with true. cbn match.
    rewrite (agree_chunk off nend b1 b2 nend 64) by (done || lia). done.
  - split; [done|]. split; [done|]. split; [done|]. split; [done|]. split; [by left|]. exists v'. by split.
Qed.

Lemma round_fn_effect n i g s lo b : family (m_algorithm job) <> RANDOM_X -> family (m_algorithm job) <> GHOSTRIDER ->
  m_hasMinerSignature job = false -> on_job (c_job s) b (u32 (Z.of_nat n)) -> candidate b -> shared_ok g -> current g -> c_benchSize s = 0 -> c_algorithm s = alg ->
  first lo = true -> vm_ok c (c_vm s) ->
  exists k g' s' lo' ev, round_fn fn i g s lo (load_le (chunk b off 4)) = Ok (k, g', s', lo', ev) /\ outcome k n g s s' lo' ev.
Proof.
  intros Hf Hgr Hsg J Hcb Hg Hcu Hb Hal Hfi Hv. unfold round_fn. destruct (own_job _ _ _ J) as [bl E]. rewrite E, ok_bind.
  change (m_algorithm (own bl)) with (m_algorithm job). change (m_hasMinerSignature (own bl)) with (m_hasMinerSignature job).
  rewrite (proj2 (Z.eqb_neq _ _) Hgr), Hsg. cbn [negb]. rewrite (hashed_bytes_on _ b _ J), ok_bind. cbn zeta.
  change (m_height (own bl)) with (m_height job). set (s1 := set_c_hash s _).
  destruct (nextRound_cpu_on n g s1 b J Hb Hg) as (ok & g' & w2 & b2 & -> & J2 & Hag & Hok). rewrite ok_bind. destruct ok; cbn [negb].
  2: { eexists _, _, _, _, _. split; [done|]. split; [done|]. right. split; [done|]. split; [|done]. by intros Hl%Hok. }
  rewrite (report_on (set_c_job s1 w2) b2 _ _ _ J2) by (done || apply Hfn). rewrite ok_bind. eexists _, _, _, _, _. split; [done|].
  split; [split; [done|by apply Hok]|]. exists b, b2. split; [done|]. split; [|split; [done|]].
  - unfold results, hash_of. rewrite Hsg. rewrite (proj2 (Z.eqb_neq _ _) Hf). done.
  - split; [done|]. split; [by eapply candidate_next|]. split; [done|]. split; [done|]. split; [by right|]. by rewrite Hfi.
Qed.

(** The algorithms the loop hashes one blob at a time. *)
Definition supported : Prop :=
  family (m_algorithm job) = RANDOM_X \/
  (family (m_algorithm job) <> RANDOM_X /\ family (m_algorithm job) <> GHOSTRIDER /\ m_hasMinerSignature job = false).

Lemma round_effect n i s lo b : supported -> between n s lo b -> input_ok i ->
  exists k g' s' lo' ev, round c D A softAes unroll fn i s lo = Ok (k, g', s', lo', ev) /\ outcome k n (i_shared i) s s' lo' ev.
Proof.
  intros Hsup (J & Hcb & Hb & Hal & Hrf & Hm) Hi. pose proof Hi as ((Hg1 & q & Eq) & _). unfold round. cbn zeta.
  unfold isOutdated, CPU. rewrite (aget_at 0 ltac:(lia) _ q Eq), !ok_bind. destruct (own_job _ _ _ J) as [bl E]. rewrite E, ok_bind.
  rewrite (oj_sequence _ _ _ J), Hal. change (m_algorithm (own bl)) with (m_algorithm job).
  destruct (negb (q =? seq) || negb (l3 (m_algorithm job) =? l3 alg)) eqn:Eo.
  { eexists _, _, _, _, _. split; [done|]. split; [done|]. left. split; [|done]. intros [Es El]. assert (q = seq) as -> by congruence.
    by rewrite El, !Z.eqb_refl in Eo. }
  assert (Hcu : current (i_shared i)).
  { apply orb_false_iff in Eo as [->%negb_false_iff%Z.eqb_eq ?%negb_false_iff%Z.eqb_eq]. done. }
  rewrite (job_nonce_on _ b _ J), ok_bind, Hb. change (0 =? 0) with true. cbn [negb andb]. rewrite ok_bind.
  assert (set_c_job s (c_job s) = s) as -> by by destruct s.
  destruct Hsup as [Hf|(Hf & Hgr & Hsg)].
  - rewrite Hf. change (RANDOM_X =? RANDOM_X) with true. cbn match. apply (round_rx_effect n i _ s lo b); try done. apply Hi.
  - rewrite (proj2 (Z.eqb_neq _ _) Hf). destruct Hrf as [Hx|Hx]; [done|]. rewrite Hx in Hm.
    apply (round_fn_effect n i _ s lo b); try done. apply Hi.
Qed.

(** Where the rounds [l] that follow [n] others end, after [m] of them *)
Definition ends (n : nat) (l : list input) (m : nat) (k : control) (stop : list event) : Prop :=
  (forall j i, (j < m)%nat -> l !! j = Some i -> proceeds (n + j) (i_shared i)) /\
  match k with
  | Next => stop = [] /\ m = length l
  | Break => exists i, l !! m = Some i /\ stops (n + m) (i_shared i) stop
  | Return => False
  end.

Lemma ends_step n i l m k stop : proceeds n (i_shared i) -> ends (S n) l m k stop -> ends n (i :: l) (S m) k stop.
Proof.
  intros Hp [Hl Hk]. split.
  - intros [|j] i' Hj E; [injection E as <-; by rewrite Nat.add_0_r|]. rewrite Nat.add_succ_r. apply (Hl j); [lia|done].
  - destruct k; [by destruct Hk as [-> ->]| |done]. destruct Hk as (i' & E & Hs). exists i'. by rewrite Nat.add_succ_r.
Qed.

Lemma rounds_effect : supported -> forall l n s lo b, between n s lo b -> is_u64 (c_count s) -> Forall input_ok l ->
  exists k s' lo' bs stop, rounds c D A softAes unroll fn l s lo = Ok (k, s', lo', concat (results <$> bs) ++ stop) /\
    Forall candidate bs /\ c_count s' = u64 (c_count s + Z.of_nat (length bs)) /\ ends n l (length bs) k stop.
Proof.
  intros Hsup l. induction l as [|i l IH]; intros n s lo b Hs Hn Hl; cbn [rounds].
  - exists Next, s, lo, [], []. split; [done|]. split; [done|]. split; [cbn; by rewrite Z.add_0_r, u64_id|]. split; [|done]. intros j i Hj. cbn in Hj. lia.
  - apply Forall_cons in Hl as [Hi Hl]. destruct (round_effect n i s lo b Hsup Hs Hi) as (k & g' & s1 & lo1 & ev & -> & Ho).
    rewrite ok_bind. destruct k; cbn [outcome] in Ho; [| |done].
    + destruct Ho as (Hp & b1 & b2 & C1 & -> & Hcn & Hb2).
      destruct (IH (S n) s1 lo1 b2 Hb2 ltac:(rewrite Hcn; apply u64_range) Hl) as (k & s' & lo' & bs & stop & -> & Hbs & Hc' & Hk).
      rewrite ok_bind. exists k, s', lo', (b1 :: bs), stop. cbn [fmap list_fmap concat]. rewrite <- app_assoc. split; [done|].
      split; [by constructor|]. split; [|by apply ends_step].
      rewrite Hc', Hcn, !u64_mod, Zplus_mod_idemp_l. cbn [length]. f_equal. lia.
    + destruct Ho as [Hcn Hev]. exists Break, s1, lo1, [], ev. split; [done|]. split; [done|].
      split; [rewrite Hcn; cbn; by rewrite Z.add_0_r, u64_id|]. split; [cbn; lia|]. exists i. by rewrite Nat.add_0_r.
Qed.


End Machine.

End Job.

(** ** An instance *)

Definition arq_job : Job := set_difficulty (set_size (make false RX_ARQ None) 76 false) 1 0xFFFFFFFFFFFFFFFF.

Lemma arq_minable : minable arq_job.
Proof.
  split; [split; [reflexivity|cbn; unfold kMaxBlobSize; lia]| |cbn; lia|cbn; lia|vm_compute; discriminate].
  apply Forall_replicate. unfold is_u8. lia.
Qed.

Lemma make_worker_wf : worker_wf (make_worker 1).
Proof. repeat split; try reflexivity. apply Forall_replicate. split; [reflexivity|]. apply Forall_replicate. unfold is_u8. lia. Qed.

Definition idle : cpu_worker := mk_cpu RX_ARQ RandomXHash.RandomXHash.sample_vm (make_worker 1) (replicate 32 0) 0 0 1.
Definition quiet : input := mk_input initial 0 (replicate 64 0) (replicate 64 0).

Lemma quiet_ok : input_ok arq_job quiet.
Proof.
  split; [split; [by exists 0|by exists 1]|]. split; (split; [reflexivity|]); apply Forall_replicate; unfold is_u8; lia.
Qed.

Definition no_fn : Id -> list Z -> Z -> list Z := fun _ _ _ => replicate 32 0.

(** The worker of the first sequence *)
Definition ready_worker : WorkerJob := set_w_sequence (make_worker 1) 1.

Lemma quiet_proceeds n : (n < 3)%nat -> proceeds arq_job 0xFFFFFFFF 1 RX_ARQ n initial.
Proof. intros Hn. split; [done|]. unfold nonces_left, kReserveCount. rewrite Z.mod_small by lia. lia. Qed.


End CpuWorker.
