(* ===== verification/Uint.v ===== *)
(** * Large unsigned integers (math/src/uint.rs, math/src/lib.rs)

    The type that [construct_uint!] makes: an array of 64-bit words, the lowest
    first.  The node keeps targets and accumulated work in it.  The number of words
    is the length of the list. *)
From Stdlib Require Import ZArith Lia.
From stdpp Require Import base numbers list list_numbers.
From S2P Require Import Prelude Memory.
Open Scope Z_scope.

Module Uint.

Abbreviation uint := (list Z).

Definition BITS (a : uint) : Z := 64 * Z.of_nat (length a).
Definition ZERO (n : nat) : uint := replicate n 0.
Definition MAX (n : nat) : uint := replicate n 0xFFFFFFFFFFFFFFFF.

(** The word at an index inside of the array. *)
Definition word (a : uint) (i : nat) : Z := default 0 (a !! i).

Definition from_u64 (n : nat) (x : Z) : uint := <[0%nat := x]> (ZERO n).
Definition as_u64 (a : uint) : Z := word a 0.
Definition is_zero (a : uint) : bool := forallb (Z.eqb 0) a.

(** ** Bits and shifts *)

Definition leading_zeros64 (x : Z) : Z := if x =? 0 then 64 else 63 - Z.log2 x.

(** From the highest word down; [i] words are left. *)
Fixpoint bits_rev (a : list Z) : Z :=
  match a with
  | [] => 0
  | w :: a => if negb (w =? 0) then 64 * (Z.of_nat (length a) + 1) - leading_zeros64 w else bits_rev a
  end.
Definition bits (a : uint) : Z := bits_rev (rev a).
Definition leading_zeros (a : uint) : Z := BITS a - bits a.

Definition overflowing_shl (a : uint) (s : Z) : uint * bool :=
  let overflows := BITS a <=? s in
  let s := s mod BITS a in
  let left_words := Z.to_nat (s / 64) in
  let left_shifts := s mod 64 in
  let ret := imap (fun i _ => if (left_words <=? i)%nat then shl64 (word a (i - left_words)) left_shifts else 0) a in
  let ret :=
    if 0 <? left_shifts then
      imap (fun i r => if (left_words + 1 <=? i)%nat then Z.lor r (Z.shiftr (word a (i - 1 - left_words)) (64 - left_shifts)) else r) ret
    else ret in
  (ret, overflows).
Definition wrapping_shl (a : uint) (s : Z) : uint := fst (overflowing_shl a s).

Definition overflowing_shr (a : uint) (s : Z) : uint * bool :=
  let overflows := BITS a <=? s in
  let s := s mod BITS a in
  let left_words := Z.to_nat (s / 64) in
  let left_shifts := s mod 64 in
  let ret := imap (fun i _ => if (i + left_words <? length a)%nat then Z.shiftr (word a (i + left_words)) left_shifts else 0) a in
  let ret :=
    if 0 <? left_shifts then
      imap (fun i r => if (i + left_words + 1 <? length a)%nat then Z.lor r (shl64 (word a (i + left_words + 1)) (64 - left_shifts)) else r) ret
    else ret in
  (ret, overflows).

(** ** Sums *)

Definition overflowing_add64 (x y : Z) : Z * bool := (add64 x y, 2 ^ 64 <=? x + y).
Definition overflowing_sub64 (x y : Z) : Z * bool := (sub64 x y, x <? y).
Definition of_bool (b : bool) : Z := if b then 1 else 0.

Definition carrying_add_u64 (lhs rhs : Z) (carry : bool) : Z * bool :=
  let '(a, b) := overflowing_add64 lhs rhs in
  let '(c, d) := overflowing_add64 a (of_bool carry) in
  (c, xorb b d).
Fixpoint add_loop (a b : list Z) (carry : bool) : list Z * bool :=
  match a, b with
  | x :: a, y :: b =>
      let '(c, carry) := carrying_add_u64 x y carry in
      let '(r, out) := add_loop a b carry in
      (c :: r, out)
  | _, _ => ([], carry)
  end.
Definition overflowing_add (a b : uint) : uint * bool := add_loop a b false.

(** The loop stops without a carry. *)
Fixpoint add_u64_loop (a : list Z) (carry : bool) : list Z * bool :=
  match a with
  | [] => ([], carry)
  | x :: a' =>
      if negb carry then (a, carry)
      else
        let '(c, carry) := overflowing_add64 x 1 in
        let '(r, out) := add_u64_loop a' carry in
        (c :: r, out)
  end.
Definition overflowing_add_u64 (a : uint) (other : Z) : uint * bool :=
  match a with
  | [] => ([], false)
  | x :: a =>
      let '(c, carry) := overflowing_add64 x other in
      let '(r, out) := add_u64_loop a carry in
      (c :: r, out)
  end.

Definition borrowing_sub_u64 (lhs rhs : Z) (borrow : bool) : Z * bool :=
  let '(a, b) := overflowing_sub64 lhs rhs in
  let '(c, d) := overflowing_sub64 a (of_bool borrow) in
  (c, xorb b d).
Fixpoint sub_loop (a b : list Z) (carry : bool) : list Z * bool :=
  match a, b with
  | x :: a, y :: b =>
      let '(c, carry) := borrowing_sub_u64 x y carry in
      let '(r, out) := sub_loop a b carry in
      (c :: r, out)
  | _, _ => ([], carry)
  end.
Definition overflowing_sub (a b : uint) : uint * bool := sub_loop a b false.

Definition saturating_sub (a b : uint) : uint :=
  let '(sum, carry) := overflowing_sub a b in if (carry : bool) then ZERO (length a) else sum.
Definition saturating_add (a b : uint) : uint :=
  let '(sum, carry) := overflowing_add a b in if (carry : bool) then MAX (length a) else sum.

(** ** Products *)

Fixpoint mul_u64_loop (a : list Z) (other carry : Z) : list Z * Z :=
  match a with
  | [] => ([], carry)
  | x :: a =>
      let n := carry + other * x in
      let '(r, out) := mul_u64_loop a other (Z.land (Z.shiftr n 64) 0xFFFFFFFFFFFFFFFF) in
      (u64 n :: r, out)
  end.
Definition carrying_mul_u64 (a : uint) (other : Z) : uint * Z := mul_u64_loop a other 0.
Definition overflowing_mul_u64 (a : uint) (other : Z) : uint * bool :=
  let '(this, carry) := carrying_mul_u64 a other in (this, negb (carry =? 0)).

(** The inner loop for the word [y] of the other number: [r] are the words of the
    result from the place of [y] on. *)
Fixpoint mul_row (a : list Z) (y : Z) (r : list Z) (carry : Z) : list Z * Z :=
  match a, r with
  | x :: a, w :: r =>
      let n := x * y + w + carry in
      let '(r, out) := mul_row a y r (u64 (Z.shiftr n 64)) in
      (u64 n :: r, out)
  | _, _ => (r, carry)
  end.
Fixpoint mul_loop (a b : list Z) (r : list Z) : list Z * bool :=
  match b with
  | [] => (r, false)
  | y :: b =>
      let '(r, carry) := mul_row a y r 0 in
      match r with
      | [] => ([], negb (carry =? 0))
      | w :: r =>
          let '(r, out) := mul_loop a b r in
          (w :: r, negb (carry =? 0) || out)
      end
  end.
Definition overflowing_mul (a b : uint) : uint * bool := mul_loop a b (ZERO (length a)).

(** ** Comparison *)

Fixpoint lex_cmp (a b : list Z) : comparison :=
  match a, b with
  | [], [] => Eq
  | [], _ => Lt
  | _, [] => Gt
  | x :: a, y :: b => match x ?= y with Eq => lex_cmp a b | c => c end
  end.
Definition cmp (a b : uint) : comparison := lex_cmp (rev a) (rev b).
Definition ge (a b : uint) : bool := match cmp a b with Lt => false | _ => true end.
Definition le (a b : uint) : bool := match cmp a b with Gt => false | _ => true end.

(** ** Quotients *)

(** From the highest word down. *)
Fixpoint div_rem_u64_rev (a : list Z) (other rem : Z) : list Z * Z :=
  match a with
  | [] => ([], rem)
  | d :: a =>
      let n := Z.lor (Z.shiftl rem 64) d in
      let '(r, rem) := div_rem_u64_rev a other (u64 (n mod other)) in
      (u64 (n / other) :: r, rem)
  end.
(** A division by zero panics. *)
Definition div_rem_u64 (a : uint) (other : Z) : result (uint * Z) :=
  if (other =? 0) && (0 <? Z.of_nat (length a)) then Fault
  else let '(r, rem) := div_rem_u64_rev (rev a) other 0 in mret (rev r, rem).

(** [ret[shift / 64] |= 1 << shift % 64] *)
Definition set_bit (ret : uint) (shift : Z) : uint :=
  alter (fun w => Z.lor w (shl64 1 (shift mod 64))) (Z.to_nat (shift / 64)) ret.

(** The loop of the long division, with [shift] to go down to zero. *)
Fixpoint div_loop (shift : nat) (sub_copy shift_copy ret : uint) : uint * uint :=
  let '(ret, sub_copy) :=
    if ge sub_copy shift_copy then (set_bit ret (Z.of_nat shift), fst (overflowing_sub sub_copy shift_copy)) else (ret, sub_copy) in
  let shift_copy := fst (overflowing_shr shift_copy 1) in
  match shift with
  | O => (ret, sub_copy)
  | S shift => div_loop shift sub_copy shift_copy ret
  end.

Definition div_rem (a b : uint) : result (uint * uint) :=
  let my_bits := bits a in
  let your_bits := bits b in
  if your_bits =? 0 then Fault
  else if my_bits <? your_bits then mret (ZERO (length a), a)
  else
    let shift := my_bits - your_bits in
    mret (div_loop (Z.to_nat shift) a (fst (overflowing_shl b shift)) (ZERO (length a))).

(** ** Bytes *)

Fixpoint chunks8 (n : nat) (bs : list Z) : list (list Z) :=
  match n with
  | O => []
  | S n => take 8 bs :: chunks8 n (drop 8 bs)
  end.
Definition from_le_bytes (n : nat) (bs : list Z) : uint := load_le <$> chunks8 n bs.
Definition to_le_bytes (a : uint) : list Z := mjoin (store_le 8 <$> a).
Definition from_be_bytes (n : nat) (bs : list Z) : uint := rev ((fun c => load_le (rev c)) <$> chunks8 n bs).
Definition to_be_bytes (a : uint) : list Z := mjoin ((fun w => rev (store_le 8 w)) <$> rev a).

Definition to_be_bytes_var (a : uint) : list Z :=
  (fix go bs := match bs with [] => [] | b :: bs' => if b =? 0 then go bs' else bs end) (to_be_bytes a).

(** ** Targets, [Uint256] *)

(** A shift by more than 24 bits of the mantissa cannot happen. *)
Definition from_compact_target_bits (b : Z) : uint :=
  let unshifted_expt := Z.shiftr b 24 in
  let '(mant, expt) :=
    if unshifted_expt <=? 3 then (Z.shiftr (Z.land b 0xFFFFFF) (8 * (3 - unshifted_expt)), 0)
    else (Z.land b 0xFFFFFF, 8 * (unshifted_expt - 3)) in
  if 0x7FFFFF <? mant then ZERO 4 else fst (overflowing_shl (from_u64 4 mant) expt).

Definition div_ceil (a b : Z) : Z := (a + b - 1) / b.
Definition compact_target_bits (a : uint) : Z :=
  let size := div_ceil (bits a) 8 in
  let compact :=
    if size <=? 3 then u32 (shl64 (as_u64 a) (8 * (3 - size)))
    else u32 (as_u64 (fst (overflowing_shr a (8 * (size - 3))))) in
  let '(compact, size) := if negb (Z.land compact 0x00800000 =? 0) then (Z.shiftr compact 8, size + 1) else (compact, size) in
  Z.lor compact (u32 (Z.shiftl size 24)).

End Uint.
