(* ===== verification/UintProofs.v ===== *)
(** * Correctness of the large integers

    The operations of Uint.v compute on the numbers that the words stand for. *)
From Stdlib Require Import ZArith Lia.
From stdpp Require Import base numbers list list_numbers.
From S2P Require Import Prelude Memory Uint.
Import Uint.Uint.
Open Scope Z_scope.

Module UintProofs.

(** The number of a list of words, and words of 64 bits. *)
Definition val (a : uint) : Z := little_endian_to_Z 64 a.
Abbreviation W := (2 ^ 64).
Abbreviation words := (Forall is_u64).

Create HintDb uint.

Lemma val_cons x a : is_u64 x -> val (x :: a) = x + W * val a.
Proof.
  intros Hx. unfold val. cbn [little_endian_to_Z]. unfold is_u64 in Hx. rewrite lor_shiftl_add by lia. lia.
Qed.

Lemma val_bound a : words a -> 0 <= val a < 2 ^ BITS a.
Proof. intros Ha. unfold val, BITS. rewrite Z.mul_comm. apply little_endian_to_Z_bound; [lia|exact Ha]. Qed.

Lemma BITS_cons x a : 2 ^ BITS (x :: a) = W * 2 ^ BITS a.
Proof. unfold BITS. cbn [length]. rewrite <- Z.pow_add_r by lia. f_equal. lia. Qed.

Lemma BITS_length a b : length a = length b -> BITS a = BITS b.
Proof. unfold BITS. by intros ->. Qed.

(** ** Sums *)

Lemma carrying_add_ok x y c : is_u64 x -> is_u64 y ->
  let '(r, out) := carrying_add_u64 x y c in is_u64 r /\ r + W * of_bool out = x + y + of_bool c.
Proof.
  unfold is_u64, carrying_add_u64, overflowing_add64, add64. rewrite !u64_mod. intros Hx Hy.
  assert (0 <= of_bool c <= 1) by (destruct c; cbn; lia).
  destruct (Z.leb_spec W (x + y)) as [H1|H1].
  - rewrite (Zmod_eq (x + y)) by lia. replace ((x + y) / W) with 1 by (Z.div_mod_to_equations; lia).
    rewrite (proj2 (Z.leb_gt _ _)), Z.mod_small by lia. cbn. lia.
  - rewrite (Z.mod_small (x + y)) by lia. destruct (Z.leb_spec W (x + y + of_bool c)) as [H2|H2].
    + rewrite Zmod_eq by lia. replace ((x + y + of_bool c) / W) with 1 by (Z.div_mod_to_equations; lia). cbn. lia.
    + rewrite Z.mod_small by lia. cbn. lia.
Qed.

Lemma add_loop_ok a : forall b c, length a = length b -> words a -> words b ->
  let '(r, out) := add_loop a b c in
  words r /\ length r = length a /\ val r + 2 ^ BITS a * of_bool out = val a + val b + of_bool c.
Proof.
  induction a as [|x a IH]; intros [|y b] c Hl Ha Hb; try done; cbn [add_loop].
  - split; [constructor|]. split; [done|]. cbn. destruct c; reflexivity.
  - apply Forall_cons in Ha as [Hx Ha], Hb as [Hy Hb]. injection Hl as Hl.
    pose proof (carrying_add_ok x y c Hx Hy) as H. destruct (carrying_add_u64 x y c) as [r1 c1]. destruct H as [Hr1 E1].
    specialize (IH b c1 Hl Ha Hb). destruct (add_loop a b c1) as [r out]. destruct IH as (Hr & Hlr & E).
    split; [by constructor|]. split; [cbn; lia|]. rewrite !val_cons, BITS_cons by done. nia.
Qed.

(** The results of machine arithmetic on an integer of [BITS a] bits. *)
Definition wraps (a : uint) (v : Z) (r : uint) (flag : bool) : Prop :=
  words r /\ length r = length a /\ val r = v mod 2 ^ BITS a /\ flag = negb ((0 <=? v) && (v <? 2 ^ BITS a)).

Lemma wraps_intro a v r (k : Z) flag : words r -> length r = length a -> val r + 2 ^ BITS a * k = v ->
  flag = negb (k =? 0) -> wraps a v r flag.
Proof.
  intros Hr Hl E ->. pose proof (val_bound r Hr) as Hb. rewrite (BITS_length _ _ Hl) in Hb.
  assert (0 < 2 ^ BITS a) by (unfold BITS; apply Z.pow_pos_nonneg; lia).
  split; [done|]. split; [done|]. split.
  - rewrite <- E, Z.mul_comm, Z_mod_plus_full, Z.mod_small; lia.
  - f_equal. subst v. destruct (Z.eqb_spec k 0) as [->|Hk].
    + rewrite (proj2 (Z.leb_le _ _)), (proj2 (Z.ltb_lt _ _)) by lia. done.
    + symmetry. apply andb_false_iff. destruct (Z.lt_ge_cases k 0); [left; apply Z.leb_gt; nia|right; apply Z.ltb_ge; nia].
Qed.

Lemma overflowing_add_ok a b : length a = length b -> words a -> words b ->
  let '(r, flag) := overflowing_add a b in wraps a (val a + val b) r flag.
Proof.
  intros Hl Ha Hb. pose proof (add_loop_ok a b false Hl Ha Hb) as H. unfold overflowing_add.
  destruct (add_loop a b false) as [r out]. destruct H as (Hr & Hlr & E).
  apply (wraps_intro _ _ _ (of_bool out)); [done|done|cbn [of_bool] in E; lia|by destruct out].
Qed.

Lemma add_u64_loop_ok a : forall c, words a ->
  let '(r, out) := add_u64_loop a c in
  words r /\ length r = length a /\ val r + 2 ^ BITS a * of_bool out = val a + of_bool c.
Proof.
  induction a as [|x a IH]; intros c Ha; cbn [add_u64_loop].
  - split; [constructor|]. split; [done|]. cbn. destruct c; reflexivity.
  - destruct c; cbn [negb]; [|cbn [of_bool]; split; [done|split; [done|lia]]]. apply Forall_cons in Ha as [Hx Ha].
    pose proof (carrying_add_ok x 1 false Hx ltac:(unfold is_u64; lia)) as H. unfold carrying_add_u64, overflowing_add64 in *.
    cbn [of_bool] in *. specialize (IH (W <=? x + 1) Ha). destruct (add_u64_loop a _) as [r out]. destruct IH as (Hr & Hlr & E).
    assert (is_u64 (add64 x 1)) as H1 by apply add64_range. destruct H as [_ H].
    assert (add64 (add64 x 1) 0 = add64 x 1) as E0 by (unfold add64 at 1; rewrite Z.add_0_r; by apply u64_id).
    unfold is_u64 in *. rewrite E0, (proj2 (Z.leb_gt _ (add64 x 1 + 0))), xorb_false_r in H by lia.
    split; [by constructor|]. split; [cbn; lia|]. rewrite !val_cons, BITS_cons by done. nia.
Qed.

Lemma overflowing_add_u64_ok a x : words a -> (0 < length a)%nat -> is_u64 x ->
  let '(r, flag) := overflowing_add_u64 a x in wraps a (val a + x) r flag.
Proof.
  intros Ha Hl Hx. destruct a as [|w a]; [cbn in Hl; lia|]. apply Forall_cons in Ha as [Hw Ha]. cbn [overflowing_add_u64].
  unfold overflowing_add64. pose proof (add_u64_loop_ok a (W <=? w + x) Ha) as H. destruct (add_u64_loop a _) as [r out].
  destruct H as (Hr & Hlr & E). assert (is_u64 (add64 w x)) as H1 by apply add64_range.
  assert (add64 w x + W * of_bool (W <=? w + x) = w + x) as E1.
  { unfold is_u64, add64 in *. rewrite u64_mod. destruct (Z.leb_spec W (w + x)); cbn [of_bool].
    - rewrite Zmod_eq by lia. replace ((w + x) / W) with 1 by (Z.div_mod_to_equations; lia). lia.
    - rewrite Z.mod_small; lia. }
  apply (wraps_intro _ _ _ (of_bool out)); [by constructor|cbn; lia| |by destruct out]. rewrite !val_cons, BITS_cons by done. nia.
Qed.

Lemma borrowing_sub_ok x y c : is_u64 x -> is_u64 y ->
  let '(r, out) := borrowing_sub_u64 x y c in is_u64 r /\ r - W * of_bool out = x - y - of_bool c.
Proof.
  unfold is_u64, borrowing_sub_u64, overflowing_sub64, sub64. rewrite !u64_mod. intros Hx Hy.
  assert (0 <= of_bool c <= 1) by (destruct c; cbn; lia).
  destruct (Z.ltb_spec x y) as [H1|H1].
  - replace ((x - y) mod W) with (x - y + W) by (rewrite <- (Z_mod_plus_full (x - y) 1 W), Z.mod_small; lia).
    rewrite (proj2 (Z.ltb_ge _ _)), Z.mod_small by lia. cbn. lia.
  - rewrite (Z.mod_small (x - y)) by lia. destruct (Z.ltb_spec (x - y) (of_bool c)) as [H2|H2].
    + replace ((x - y - of_bool c) mod W) with (x - y - of_bool c + W) by (rewrite <- (Z_mod_plus_full (x - y - of_bool c) 1 W), Z.mod_small; lia). cbn. lia.
    + rewrite Z.mod_small by lia. cbn. lia.
Qed.

Lemma sub_loop_ok a : forall b c, length a = length b -> words a -> words b ->
  let '(r, out) := sub_loop a b c in
  words r /\ length r = length a /\ val r - 2 ^ BITS a * of_bool out = val a - val b - of_bool c.
Proof.
  induction a as [|x a IH]; intros [|y b] c Hl Ha Hb; try done; cbn [sub_loop].
  - split; [constructor|]. split; [done|]. cbn. destruct c; reflexivity.
  - apply Forall_cons in Ha as [Hx Ha], Hb as [Hy Hb]. injection Hl as Hl.
    pose proof (borrowing_sub_ok x y c Hx Hy) as H. destruct (borrowing_sub_u64 x y c) as [r1 c1]. destruct H as [Hr1 E1].
    specialize (IH b c1 Hl Ha Hb). destruct (sub_loop a b c1) as [r out]. destruct IH as (Hr & Hlr & E).
    split; [by constructor|]. split; [cbn; lia|]. rewrite !val_cons, BITS_cons by done. nia.
Qed.

Lemma overflowing_sub_ok a b : length a = length b -> words a -> words b ->
  let '(r, flag) := overflowing_sub a b in wraps a (val a - val b) r flag.
Proof.
  intros Hl Ha Hb. pose proof (sub_loop_ok a b false Hl Ha Hb) as H. unfold overflowing_sub.
  destruct (sub_loop a b false) as [r out]. destruct H as (Hr & Hlr & E).
  apply (wraps_intro _ _ _ (- of_bool out)); [done|done|cbn [of_bool] in E; lia|by destruct out].
Qed.

(** ** Products *)

Lemma mul_u64_loop_ok a : forall y c, words a -> is_u64 y -> is_u64 c ->
  let '(r, out) := mul_u64_loop a y c in
  words r /\ length r = length a /\ is_u64 out /\ val r + 2 ^ BITS a * out = val a * y + c.
Proof.
  induction a as [|x a IH]; intros y c Ha Hy Hc; cbn [mul_u64_loop].
  - split; [constructor|]. split; [done|]. split; [done|]. change (val []) with 0. change (2 ^ BITS []) with 1. lia.
  - apply Forall_cons in Ha as [Hx Ha]. set (n := c + y * x). change (Z.land ?v 0xFFFFFFFFFFFFFFFF) with (u64 v).
    specialize (IH y (u64 (Z.shiftr n 64)) Ha Hy (u64_range _)).
    destruct (mul_u64_loop a y _) as [r out]. destruct IH as (Hr & Hl & Ho & E).
    split; [constructor; [apply u64_range|done]|]. split; [cbn; lia|]. split; [done|].
    assert (u64 n + W * u64 (Z.shiftr n 64) = n) as En.
    { unfold is_u64 in *. rewrite Z.shiftr_div_pow2, !u64_mod, (Z.mod_small (n / W)) by (try lia; unfold n; Z.div_mod_to_equations; nia).
      pose proof (Z.div_mod n W ltac:(lia)). lia. }
    rewrite !val_cons, BITS_cons by (done || apply u64_range). unfold n in *. nia.
Qed.

Lemma carrying_mul_u64_ok a y : words a -> is_u64 y ->
  let '(r, out) := carrying_mul_u64 a y in words r /\ length r = length a /\ is_u64 out /\ val r + 2 ^ BITS a * out = val a * y.
Proof.
  intros Ha Hy. pose proof (mul_u64_loop_ok a y 0 Ha Hy ltac:(unfold is_u64; lia)) as H. unfold carrying_mul_u64.
  destruct (mul_u64_loop a y 0) as [r out]. destruct H as (H1 & H2 & H3 & H4). rewrite Z.add_0_r in H4. done.
Qed.

Lemma overflowing_mul_u64_ok a y : words a -> is_u64 y ->
  let '(r, flag) := overflowing_mul_u64 a y in wraps a (val a * y) r flag.
Proof.
  intros Ha Hy. pose proof (carrying_mul_u64_ok a y Ha Hy) as H. unfold overflowing_mul_u64.
  destruct (carrying_mul_u64 a y) as [r out]. destruct H as (H1 & H2 & H3 & H4). by apply (wraps_intro _ _ _ out).
Qed.

Lemma mul_row_ok r : forall a y c, (length r <= length a)%nat -> words a -> words r -> is_u64 y -> is_u64 c ->
  let '(r', out) := mul_row a y r c in
  words r' /\ length r' = length r /\ is_u64 out /\ val r' + 2 ^ BITS r * out = val r + val (take (length r) a) * y + c.
Proof.
  induction r as [|w r IH]; intros [|x a] y c Hl Ha Hr Hy Hc; cbn [mul_row length] in *; try lia.
  1, 2: split; [constructor|]; split; [done|]; split; [done|]; cbn [take]; change (val []) with 0; change (2 ^ BITS []) with 1; lia.
  - apply Forall_cons in Ha as [Hx Ha], Hr as [Hw Hr]. set (n := x * y + w + c).
    specialize (IH a y (u64 (Z.shiftr n 64)) ltac:(lia) Ha Hr Hy (u64_range _)).
    destruct (mul_row a y r _) as [r' out]. destruct IH as (Hr' & Hl' & Ho & E).
    split; [constructor; [apply u64_range|done]|]. split; [cbn; lia|]. split; [done|].
    assert (u64 n + W * u64 (Z.shiftr n 64) = n) as En.
    { unfold is_u64 in *. rewrite Z.shiftr_div_pow2, !u64_mod, (Z.mod_small (n / W)) by (try lia; unfold n; Z.div_mod_to_equations; nia).
      pose proof (Z.div_mod n W ltac:(lia)). lia. }
    cbn [take]. rewrite !val_cons, BITS_cons by (done || apply u64_range). unfold n in *. nia.
Qed.

Lemma val_app a b : words a -> val (a ++ b) = val a + 2 ^ BITS a * val b.
Proof.
  induction 1 as [|x a Hx Ha IH]; [change (val []) with 0; change (2 ^ BITS []) with 1; cbn [app]; lia|].
  cbn [app]. rewrite !val_cons, BITS_cons, IH by done. lia.
Qed.

Lemma val_take a k : words a -> (k <= length a)%nat -> val a = val (take k a) + 2 ^ (64 * Z.of_nat k) * val (drop k a).
Proof.
  intros Ha Hk. rewrite <- (take_drop k a) at 1. rewrite val_app by by apply Forall_take.
  unfold BITS. by rewrite length_take_le.
Qed.

Lemma mod_word w z m : is_u64 w -> 0 < m -> (w + W * z) mod (W * m) = w + W * (z mod m).
Proof.
  intros Hw Hm. unfold is_u64 in Hw. symmetry. pose proof (Z.mod_pos_bound z m Hm). pose proof (Z.div_mod z m ltac:(lia)).
  apply (Z.mod_unique _ _ (z / m)); [left; nia|nia].
Qed.

Lemma mul_loop_ok a b : forall r, length r = length b -> (length b <= length a)%nat -> words a -> words b -> words r ->
  let '(res, out) := mul_loop a b r in
  words res /\ length res = length b /\ val res = (val r + val a * val b) mod 2 ^ BITS b /\
  (out = true -> 2 ^ BITS b <= val r + val a * val b).
Proof.
  induction b as [|y b IH]; intros r Hl Hla Ha Hb Hr; cbn [mul_loop].
  - destruct r; [|done]. split; [constructor|]. split; [done|]. split; [|done]. change (val []) with 0. by rewrite Z.mul_0_r.
  - apply Forall_cons in Hb as [Hy Hb]. cbn [length] in *.
    pose proof (mul_row_ok r a y 0 ltac:(lia) Ha Hr Hy ltac:(unfold is_u64; lia)) as H.
    destruct (mul_row a y r 0) as [r' c]. destruct H as (Hr' & Hl' & Hc & E).
    destruct r' as [|w t]; [cbn in Hl'; lia|]. apply Forall_cons in Hr' as [Hw Ht]. cbn [length] in Hl'.
    specialize (IH t ltac:(lia) ltac:(lia) Ha Hb Ht). destruct (mul_loop a b t) as [res out]. destruct IH as (Hres & Hlres & Ev & Ho).
    split; [by constructor|]. split; [cbn; lia|].
    pose proof (val_take a (length r) Ha ltac:(lia)) as Et. fold (BITS r) in Et.
    rewrite (BITS_length r (y :: b)) in E, Et by (cbn; lia).
    assert (0 < 2 ^ BITS b) as HM by (apply Z.pow_pos_nonneg; unfold BITS; lia).
    pose proof (val_bound _ (Forall_drop _ (length r) _ Ha)) as [Hd _]. pose proof (val_bound _ (Forall_take _ (length r) _ Ha)) as [Htk _].
    pose proof (val_bound _ Ha) as [Ha0 _]. pose proof (val_bound _ Hb) as [Hb0 _]. pose proof (val_bound _ Ht) as [Ht0 _].
    rewrite BITS_cons, !val_cons in * by done. set (d := val (drop _ a)) in *. set (M := 2 ^ BITS b) in *. unfold is_u64 in *. split.
    + rewrite Ev, <- mod_word by done.
      replace (val r + val a * (y + W * val b)) with (w + W * (val t + val a * val b) + (c + d * y) * (W * M)) by nia.
      by rewrite Z_mod_plus_full.
    + intros [Hc0|Ho']%orb_true_iff.
      * apply negb_true_iff, Z.eqb_neq in Hc0. assert (1 <= c) by lia.
        assert (0 <= val a * (W * val b)) by nia. assert (0 <= d * (W * M) * y) by nia. nia.
      * specialize (Ho Ho'). assert (0 <= d * (W * M) * y) by nia. nia.
Qed.

Lemma val_ZERO n : val (ZERO n) = 0.
Proof.
  unfold ZERO. induction n as [|n IH]; [done|]. cbn [replicate]. rewrite val_cons by (unfold is_u64; lia). lia.
Qed.
Lemma words_ZERO n : words (ZERO n).
Proof. apply Forall_replicate. unfold is_u64. lia. Qed.

(** The product is exact modulo the size of the type, and the flag never comes
    without an overflow. *)
Lemma overflowing_mul_ok a b : length a = length b -> words a -> words b ->
  let '(r, flag) := overflowing_mul a b in
  words r /\ length r = length a /\ val r = (val a * val b) mod 2 ^ BITS a /\ (flag = true -> 2 ^ BITS a <= val a * val b).
Proof.
  intros Hl Ha Hb. unfold overflowing_mul.
  pose proof (mul_loop_ok a b (ZERO (length a)) ltac:(unfold ZERO; by rewrite length_replicate) ltac:(lia) Ha Hb (words_ZERO _)) as H.
  destruct (mul_loop a b _) as [r out]. rewrite val_ZERO, (BITS_length b a) in H by done. rewrite Hl. exact H.
Qed.

(** ** Comparison *)

Lemma cmp_ok a : forall b, length a = length b -> words a -> words b -> cmp a b = (val a ?= val b).
Proof.
  unfold cmp. induction a as [|x a IH] using rev_ind; intros b Hl Ha Hb.
  - by destruct b.
  - destruct b as [|y b _] using rev_ind; [rewrite length_app in Hl; cbn in Hl; lia|].
    rewrite !length_app in Hl. cbn in Hl. rewrite !rev_app_distr. cbn [rev app lex_cmp].
    apply Forall_app in Ha as [Ha _], Hb as [Hb _].
    rewrite (IH b), !val_app by (done || lia). rewrite (BITS_length b a) by lia.
    pose proof (val_bound a Ha). pose proof (val_bound b Hb) as Hbb. rewrite (BITS_length b a) in Hbb by lia.
    assert (forall z, val [z] = z) as H1 by (intros z; unfold val; cbn; apply Z.lor_0_r). rewrite !H1.
    destruct (Z.compare_spec x y) as [->|Hxy|Hxy].
    + symmetry. destruct (Z.compare_spec (val a) (val b)); [apply Z.compare_eq_iff|apply Z.compare_lt_iff|apply Z.compare_gt_iff]; lia.
    + symmetry. apply Z.compare_lt_iff. nia.
    + symmetry. apply Z.compare_gt_iff. nia.
Qed.

Lemma ge_ok a b : length a = length b -> words a -> words b -> ge a b = (val b <=? val a).
Proof.
  intros Hl Ha Hb. unfold ge. rewrite cmp_ok by done. unfold Z.leb. rewrite (Z.compare_antisym (val a) (val b)).
  by destruct (val a ?= val b).
Qed.
Lemma le_ok a b : length a = length b -> words a -> words b -> le a b = (val a <=? val b).
Proof. intros Hl Ha Hb. unfold le. rewrite cmp_ok by done. unfold Z.leb. by destruct (val a ?= val b). Qed.

Lemma bits_ok a : words a -> bits a = if val a =? 0 then 0 else Z.log2 (val a) + 1.
Proof.
  unfold bits. induction a as [|x a IH] using rev_ind; intros Ha; [done|].
  rewrite rev_app_distr. cbn [rev app bits_rev]. apply Forall_app in Ha as [Ha [Hx _]%Forall_cons].
  rewrite val_app by done. assert (val [x] = x) as -> by (unfold val; cbn; apply Z.lor_0_r).
  pose proof (val_bound a Ha) as Hb. destruct (Z.eqb_spec x 0) as [->|Hne]; cbn [negb].
  - rewrite IH, Z.mul_0_r, Z.add_0_r by done. done.
  - unfold is_u64 in Hx. rewrite length_rev. unfold leading_zeros64. rewrite (proj2 (Z.eqb_neq x 0)) by done.
    assert (0 < x) as Hx0 by (destruct Hx; lia). assert (0 < 2 ^ BITS a) as HM by (apply Z.pow_pos_nonneg; unfold BITS; lia).
    rewrite (proj2 (Z.eqb_neq _ 0)) by nia. pose proof (Z.log2_nonneg x). pose proof (Z.log2_spec x Hx0) as Hlog.
    assert (0 <= BITS a) by (unfold BITS; lia).
    rewrite (Z.log2_unique (val a + 2 ^ BITS a * x) (BITS a + Z.log2 x)); [unfold BITS; lia|lia|].
    rewrite <- Z.add_succ_r, !Z.pow_add_r by lia. nia.
Qed.

(** ** Shifts *)

Lemma limb_range a k : words a -> is_u64 (word a k).
Proof.
  intros Ha. unfold word. destruct (a !! k) as [w|] eqn:E; [by eapply (Forall_lookup_1 is_u64)|cbn; unfold is_u64; lia].
Qed.

Lemma val_bit a k j : words a -> 0 <= j < 64 -> Z.testbit (val a) (64 * Z.of_nat k + j) = Z.testbit (word a k) j.
Proof.
  intros Ha Hj. unfold word. destruct (a !! k) as [w|] eqn:E; cbn [default].
  - unfold val. rewrite (little_endian_to_Z_spec 64 a _ w); [|lia|lia|exact Ha|].
    + f_equal. rewrite Z.add_comm, Z.mul_comm, Z_mod_plus_full. apply Z.mod_small. lia.
    + rewrite Z.add_comm, Z.mul_comm, Z.div_add, (Z.div_small j) by lia. by rewrite Z.add_0_l, Nat2Z.id.
  - apply lookup_ge_None in E. rewrite Z.bits_0. pose proof (val_bound a Ha) as [H0 H1].
    destruct (Z.eq_dec (val a) 0) as [->|Hne]; [apply Z.bits_0|]. apply Z.bits_above_log2; [lia|].
    apply Z.log2_lt_pow2; [lia|]. eapply Z.lt_le_trans; [exact H1|]. apply Z.pow_le_mono_r; unfold BITS; lia.
Qed.

Lemma high_bit x j : is_u64 x -> 64 <= j -> Z.testbit x j = false.
Proof. intros Hx Hj. unfold is_u64 in Hx. by apply (proj1 (bits_bound 64 x ltac:(lia) ltac:(lia)) ltac:(lia)). Qed.

Lemma shl64_bit x n j : 0 <= n -> 0 <= j < 64 -> Z.testbit (shl64 x n) j = Z.testbit x (j - n).
Proof.
  intros Hn Hj. unfold shl64. change (u64 ?y) with (Z.land y (Z.ones 64)).
  rewrite Z.land_spec, Z.shiftl_spec, Z.testbit_ones_nonneg, (proj2 (Z.ltb_lt _ _)), andb_true_r by lia. done.
Qed.

(** Equal words are equal bits. *)
Lemma val_ext a v : words a -> 0 <= v < 2 ^ BITS a ->
  (forall k j, (k < length a)%nat -> 0 <= j < 64 -> Z.testbit (word a k) j = Z.testbit v (64 * Z.of_nat k + j)) -> val a = v.
Proof.
  intros Ha Hv H. apply Z.bits_inj'. intros i Hi. pose proof (val_bound a Ha) as Hb.
  destruct (Z.lt_ge_cases i (BITS a)) as [Hlt|Hge].
  - unfold BITS in Hlt. replace i with (64 * Z.of_nat (Z.to_nat (i / 64)) + i mod 64)
      by (rewrite Z2Nat.id by (Z.div_mod_to_equations; lia); symmetry; apply Z.div_mod; lia).
    pose proof (Z.mod_pos_bound i 64 ltac:(lia)). rewrite val_bit by done. apply H; [|done].
    assert (i / 64 < Z.of_nat (length a)) by (apply Z.div_lt_upper_bound; lia). lia.
  - assert (0 <= BITS a) by (unfold BITS; lia).
    rewrite (proj1 (bits_bound (BITS a) (val a) ltac:(lia) ltac:(lia)) ltac:(lia) i), (proj1 (bits_bound (BITS a) v ltac:(lia) ltac:(lia)) ltac:(lia) i) by lia.
    done.
Qed.

Lemma word_imap (f : nat -> Z -> Z) a k : (k < length a)%nat -> word (imap f a) k = f k (word a k).
Proof. intros Hk. unfold word. rewrite list_lookup_imap. destruct (lookup_lt_is_Some_2 a k Hk) as [w ->]. done. Qed.

Lemma shl64_range x n : is_u64 (shl64 x n).
Proof. apply u64_range. Qed.

Lemma words_imap (f : nat -> Z -> Z) a : (forall k, (k < length a)%nat -> is_u64 (f k (word a k))) -> words (imap f a).
Proof.
  intros H. apply Forall_lookup_2. intros k w Hk. pose proof (lookup_lt_Some _ _ _ Hk) as Hl. rewrite length_imap in Hl.
  specialize (H k Hl). rewrite <- word_imap in H by done. unfold word in H. by rewrite Hk in H.
Qed.

Lemma overflowing_shl_ok a s : words a -> (0 < length a)%nat -> 0 <= s ->
  let '(r, flag) := overflowing_shl a s in
  words r /\ length r = length a /\ val r = (val a * 2 ^ (s mod BITS a)) mod 2 ^ BITS a /\ flag = (BITS a <=? s).
Proof.
  intros Ha Hl Hs. unfold overflowing_shl. set (t := s mod BITS a).
  assert (0 <= t < BITS a) as Ht by (apply Z.mod_pos_bound; unfold BITS; lia).
  set (lw := Z.to_nat (t / 64)). set (ls := t mod 64). assert (t = 64 * Z.of_nat lw + ls) as Et.
  { unfold lw, ls. rewrite Z2Nat.id by (Z.div_mod_to_equations; lia). apply Z.div_mod. lia. }
  assert (0 <= ls < 64) as Hls by (apply Z.mod_pos_bound; lia).
  set (ret := imap _ a). set (ret' := if 0 <? ls then _ else ret).
  assert (length ret = length a) as Hl1 by apply length_imap. assert (words ret) as Hw1.
  { apply words_imap. intros k _. case_match; [apply shl64_range|unfold is_u64; lia]. }
  assert (words ret' /\ length ret' = length a /\ forall k, (k < length a)%nat ->
    word ret' k = Z.lor (if (lw <=? k)%nat then shl64 (word a (k - lw)) ls else 0)
                        (if (0 <? ls) && (lw + 1 <=? k)%nat then Z.shiftr (word a (k - 1 - lw)) (64 - ls) else 0)) as (Hw2 & Hl2 & Hk2).
  { unfold ret'. destruct (Z.ltb_spec 0 ls).
    - split; [|split].
      + apply words_imap. intros k Hk. pose proof (limb_range ret k Hw1). case_match; [|done]. apply lor64_range; [done|].
        apply shr64_range; [by apply limb_range|lia].
      + by rewrite length_imap.
      + intros k Hk. rewrite word_imap by lia. unfold ret at 1. rewrite word_imap by done. cbn [andb]. case_match; [done|]. 
        unfold ret. rewrite word_imap by done. by rewrite Z.lor_0_r.
    - split; [done|]. split; [done|]. intros k Hk. unfold ret. rewrite word_imap by done. cbn [andb]. by rewrite Z.lor_0_r. }
  clearbody ret'. split; [done|]. split; [done|]. split; [|done].
  assert (0 < 2 ^ BITS a) by (apply Z.pow_pos_nonneg; unfold BITS; lia).
  apply val_ext; [done|rewrite (BITS_length _ _ Hl2); apply Z.mod_pos_bound; lia|]. intros k j Hk Hj. rewrite Hl2 in Hk.
  rewrite Hk2 by done. rewrite Z.mod_pow2_bits_low by (unfold BITS; lia). rewrite Z.mul_pow2_bits by lia.
  rewrite Z.lor_spec. destruct (Nat.leb_spec lw k) as [Hge|Hlt].
  2: { rewrite (proj2 (Nat.leb_gt _ _)), andb_false_r, !Z.bits_0 by lia. symmetry. apply Z.testbit_neg_r. lia. }
  rewrite shl64_bit by lia. destruct (Z.le_gt_cases ls j) as [Hjs|Hjs].
  - replace (64 * Z.of_nat k + j - t) with (64 * Z.of_nat (k - lw) + (j - ls)) by lia. rewrite val_bit by (done || lia).
    case_match; [|by rewrite Z.bits_0, orb_false_r]. rewrite Z.shiftr_spec, (high_bit (word a (k - 1 - lw))) by (try apply limb_range; done || lia).
    by rewrite orb_false_r.
  - rewrite Z.testbit_neg_r by lia. rewrite (proj2 (Z.ltb_lt 0 ls)) by lia. cbn [andb orb].
    destruct (Nat.leb_spec (lw + 1) k) as [H1|H1].
    + rewrite Z.shiftr_spec by lia. replace (64 * Z.of_nat k + j - t) with (64 * Z.of_nat (k - 1 - lw) + (j + (64 - ls))) by lia.
      by rewrite val_bit by (done || lia).
    + rewrite Z.bits_0. symmetry. apply Z.testbit_neg_r. lia.
Qed.

Lemma overflowing_shr_ok a s : words a -> (0 < length a)%nat -> 0 <= s ->
  let '(r, flag) := overflowing_shr a s in
  words r /\ length r = length a /\ val r = val a / 2 ^ (s mod BITS a) /\ flag = (BITS a <=? s).
Proof.
  intros Ha Hl Hs. unfold overflowing_shr. set (t := s mod BITS a).
  assert (0 <= t < BITS a) as Ht by (apply Z.mod_pos_bound; unfold BITS; lia).
  set (lw := Z.to_nat (t / 64)). set (ls := t mod 64). assert (t = 64 * Z.of_nat lw + ls) as Et.
  { unfold lw, ls. rewrite Z2Nat.id by (Z.div_mod_to_equations; lia). apply Z.div_mod. lia. }
  assert (0 <= ls < 64) as Hls by (apply Z.mod_pos_bound; lia).
  assert (forall k, (length a <= k)%nat -> word a k = 0) as Hout.
  { intros k Hk. unfold word. by rewrite lookup_ge_None_2. }
  set (ret := imap _ a). set (ret' := if 0 <? ls then _ else ret).
  assert (length ret = length a) as Hl1 by apply length_imap. assert (words ret) as Hw1.
  { apply words_imap. intros k _. case_match; [apply shr64_range; [by apply limb_range|lia]|unfold is_u64; lia]. }
  assert (words ret' /\ length ret' = length a /\ forall k, (k < length a)%nat ->
    word ret' k = Z.lor (Z.shiftr (word a (k + lw)) ls)
                        (if 0 <? ls then shl64 (word a (k + lw + 1)) (64 - ls) else 0)) as (Hw2 & Hl2 & Hk2).
  { assert (forall k, (k < length a)%nat -> word ret k = Z.shiftr (word a (k + lw)) ls) as Hr.
    { intros k Hk. unfold ret. rewrite word_imap by done. destruct (Nat.ltb_spec (k + lw) (length a)); [done|].
      by rewrite Hout, Z.shiftr_0_l by done. }
    unfold ret'. destruct (Z.ltb_spec 0 ls).
    - split; [|split].
      + apply words_imap. intros k Hk. pose proof (limb_range ret k Hw1). case_match; [|done]. apply lor64_range; [done|apply shl64_range].
      + by rewrite length_imap.
      + intros k Hk. rewrite word_imap by lia. rewrite Hr by done. destruct (Nat.ltb_spec (k + lw + 1) (length a)); [done|].
        rewrite (Hout (k + lw + 1)%nat) by done. change (shl64 0 ?n) with (u64 (Z.shiftl 0 n)). by rewrite Z.shiftl_0_l, Z.lor_0_r.
    - split; [done|]. split; [done|]. intros k Hk. by rewrite Hr, Z.lor_0_r. }
  clearbody ret'. split; [done|]. split; [done|]. split; [|done]. pose proof (val_bound a Ha) as Hv.
  apply val_ext; [done|rewrite (BITS_length _ _ Hl2); split; [apply Z.div_pos; lia|]|].
  { apply Z.div_lt_upper_bound; [lia|]. assert (1 <= 2 ^ t) by (apply (Z.pow_le_mono_r 2 0 t); lia). nia. }
  intros k j Hk Hj. rewrite Hl2 in Hk. rewrite Hk2 by done. rewrite Z.div_pow2_bits by lia. rewrite Z.lor_spec, Z.shiftr_spec by lia.
  destruct (Z.lt_ge_cases (j + ls) 64) as [Hjs|Hjs].
  - replace (64 * Z.of_nat k + j + t) with (64 * Z.of_nat (k + lw) + (j + ls)) by lia. rewrite val_bit by (done || lia).
    case_match; [|by rewrite Z.bits_0, orb_false_r]. rewrite shl64_bit, (Z.testbit_neg_r _ (j - (64 - ls))) by lia. by rewrite orb_false_r.
  - rewrite (high_bit (word a (k + lw))) by (try apply limb_range; done || lia). rewrite (proj2 (Z.ltb_lt 0 ls)) by lia. cbn [orb].
    rewrite shl64_bit by lia. replace (64 * Z.of_nat k + j + t) with (64 * Z.of_nat (k + lw + 1) + (j - (64 - ls))) by lia.
    by rewrite val_bit by (done || lia).
Qed.

(** ** Quotients *)

Lemma val_rev_cons x a : words a -> is_u64 x -> val (rev (x :: a)) = val (rev a) + 2 ^ BITS a * x.
Proof.
  intros Ha Hx. cbn [rev]. rewrite val_app by by apply Forall_rev. rewrite (BITS_length (rev a) a) by apply length_rev.
  f_equal. f_equal. unfold val. cbn. apply Z.lor_0_r.
Qed.

Lemma div_rem_u64_rev_ok a : forall d rem, words a -> is_u64 d -> 0 <= rem < d ->
  let '(r, out) := div_rem_u64_rev a d rem in
  words r /\ length r = length a /\ 0 <= out < d /\ val (rev r) * d + out = val (rev a) + 2 ^ BITS a * rem.
Proof.
  induction a as [|x a IH]; intros d rem Ha Hd Hr; cbn [div_rem_u64_rev].
  - split; [constructor|]. split; [done|]. split; [done|]. change (val (rev [])) with 0. change (2 ^ BITS []) with 1. lia.
  - apply Forall_cons in Ha as [Hx Ha]. unfold is_u64 in *. rewrite Z.lor_comm, lor_shiftl_add by lia. set (n := x + W * rem).
    pose proof (Z.mod_pos_bound n d ltac:(lia)) as Hm. pose proof (Z.div_mod n d ltac:(lia)) as Hn.
    assert (0 <= n / d < W) as Hq by (split; [apply Z.div_pos; unfold n; lia|apply Z.div_lt_upper_bound; unfold n; nia]).
    rewrite (u64_id (n mod d)), (u64_id (n / d)) by (unfold is_u64; lia).
    specialize (IH d (n mod d) Ha Hd Hm). destruct (div_rem_u64_rev a d (n mod d)) as [r out]. destruct IH as (Hr' & Hl & Ho & E).
    split; [by constructor|]. split; [cbn; lia|]. split; [done|].
    rewrite !val_rev_cons, BITS_cons, (BITS_length r a) by done. unfold n in *. nia.
Qed.

Lemma div_rem_u64_ok a d : words a -> is_u64 d -> 0 < d ->
  exists q, div_rem_u64 a d = Ok (q, val a mod d) /\ words q /\ length q = length a /\ val q = val a / d.
Proof.
  intros Ha Hd H0. unfold div_rem_u64. rewrite (proj2 (Z.eqb_neq d 0)) by lia. cbn [andb].
  pose proof (div_rem_u64_rev_ok (rev a) d 0 (Forall_rev Ha) Hd ltac:(lia)) as H.
  destruct (div_rem_u64_rev (rev a) d 0) as [r out]. destruct H as (Hr & Hl & Ho & E).
  rewrite rev_involutive, Z.mul_0_r, Z.add_0_r in E. exists (rev r).
  assert (val (rev r) = val a / d /\ out = val a mod d) as [-> ->].
  { split; [apply (Z.div_unique _ _ _ out)|apply (Z.mod_unique _ _ (val (rev r)))]; lia. }
  rewrite length_rev in *. split; [done|]. split; [by apply Forall_rev|]. done.
Qed.

Lemma word_alter f i a k : word (alter f i a) k = if bool_decide (i = k /\ (k < length a)%nat) then f (word a k) else word a k.
Proof.
  unfold word. case_bool_decide as H.
  - destruct H as [-> Hk]. rewrite list_lookup_alter_eq. by destruct (lookup_lt_is_Some_2 a k Hk) as [w ->].
  - destruct (decide (i = k)) as [->|Hne]; [|by rewrite list_lookup_alter_ne].
    rewrite list_lookup_alter_eq, lookup_ge_None_2 by (apply Nat.nlt_ge; naive_solver). done.
Qed.

Lemma set_bit_lor a k : words a -> 0 <= k < BITS a ->
  words (set_bit a k) /\ length (set_bit a k) = length a /\ val (set_bit a k) = Z.lor (val a) (2 ^ k).
Proof.
  intros Ha Hk. unfold set_bit. set (f := fun w => Z.lor w (shl64 1 (k mod 64))). set (i := Z.to_nat (k / 64)).
  pose proof (Z.mod_pos_bound k 64 ltac:(lia)) as Hm.
  assert (k = 64 * Z.of_nat i + k mod 64) as Ek by (unfold i; rewrite Z2Nat.id by (Z.div_mod_to_equations; lia); apply Z.div_mod; lia).
  assert (words (alter f i a)) as Hw.
  { apply Forall_lookup_2. intros n w Hn. pose proof (lookup_lt_Some _ _ _ Hn) as Hl. rewrite length_alter in Hl.
    assert (word (alter f i a) n = w) as <- by (unfold word; by rewrite Hn). rewrite word_alter.
    case_bool_decide; [apply lor64_range; [by apply limb_range|apply shl64_range]|by apply limb_range]. }
  split; [done|]. split; [apply length_alter|]. pose proof (val_bound a Ha).
  apply val_ext; [done|rewrite (BITS_length _ a) by apply length_alter|].
  { apply lor_bound; [lia|lia|]. split; [apply Z.pow_nonneg; lia|]. apply Z.pow_lt_mono_r; lia. }
  intros n j Hn Hj. rewrite length_alter in Hn. rewrite Z.lor_spec, val_bit, Z.pow2_bits_eqb, word_alter by (done || lia).
  case_bool_decide as Hi.
  - unfold f. rewrite Z.lor_spec, shl64_bit by lia. f_equal. destruct Hi as [Hi _].
    destruct (Z.eqb_spec k (64 * Z.of_nat n + j)) as [E|E].
    + replace (j - k mod 64) with 0 by lia. done.
    + destruct (Z.lt_ge_cases (j - k mod 64) 0); [apply Z.testbit_neg_r; lia|].
      replace 1 with (2 ^ 0) by done. rewrite Z.pow2_bits_eqb by lia. apply Z.eqb_neq. lia.
  - rewrite (proj2 (Z.eqb_neq k _)), orb_false_r; [done|]. intros E. apply Hi. split; [|done]. unfold i.
    rewrite E, Z.add_comm, Z.mul_comm, Z.div_add, Z.div_small by lia. lia.
Qed.

Lemma lor_multiple k q : 0 <= k -> Z.lor (2 ^ (k + 1) * q) (2 ^ k) = 2 ^ (k + 1) * q + 2 ^ k.
Proof.
  intros Hk. rewrite Z.lor_comm, (Z.mul_comm _ q), <- Z.shiftl_mul_pow2 by lia.
  rewrite lor_shiftl_add, Z.shiftl_mul_pow2; [lia|lia|lia|]. split; [apply Z.pow_nonneg; lia|apply Z.pow_lt_mono_r; lia].
Qed.

Lemma div_loop_ok k : forall s c r A B, words s -> words c -> words r -> length c = length s -> length r = length s -> (0 < length s)%nat ->
  Z.of_nat k < BITS s -> 0 < B -> val c = B * 2 ^ Z.of_nat k -> val s < B * 2 ^ (Z.of_nat k + 1) ->
  (exists q, val r = 2 ^ (Z.of_nat k + 1) * q) -> A = val r * B + val s ->
  let '(q, rem) := div_loop k s c r in
  words q /\ words rem /\ length q = length s /\ length rem = length s /\ A = val q * B + val rem /\ val rem < B.
Proof.
  induction k as [|k IH]; intros s c r A B Hs Hc Hr Hlc Hlr Hl0 Hk HB Ec Es [q Er] EA; cbn [div_loop].
  all: pose proof (val_bound s Hs) as Hsb; pose proof (overflowing_sub_ok s c (eq_sym Hlc) Hs Hc) as Hsub;
    destruct (overflowing_sub s c) as [d fl]; destruct Hsub as (Hd & Hld & Ed & _);
    pose proof (overflowing_shr_ok c 1 Hc ltac:(lia) ltac:(lia)) as Hshr; destruct (overflowing_shr c 1) as [c' fl'];
    destruct Hshr as (Hc' & Hlc' & Ec' & _); cbn [fst];
    rewrite Z.mod_small in Ec' by (unfold BITS; lia); change (2 ^ 1) with 2 in Ec';
    rewrite ge_ok by done.
  - change (Z.of_nat 0) with 0 in *. destruct (set_bit_lor r 0 Hr ltac:(unfold BITS in *; lia)) as (Hb & Hlb & Eb).
    change (2 ^ 0) with 1 in *. change (2 ^ (0 + 1)) with 2 in *. 
    assert (val (set_bit r 0) = val r + 1) as Eb'.
    { rewrite Eb, Er. apply (lor_multiple 0 q). lia. }
    destruct (Z.leb_spec (val c) (val s)) as [Hge|Hlt].
    + rewrite Z.mod_small in Ed by lia. repeat (split; [done || lia|]). nia.
    + repeat (split; [done || lia|]). nia.
  - set (K := Z.of_nat (S k)) in *. assert (K = Z.of_nat k + 1) as EK by lia.
    destruct (set_bit_lor r K Hr ltac:(unfold BITS in *; lia)) as (Hb & Hlb & Eb).
    assert (0 < 2 ^ K) as HK by (apply Z.pow_pos_nonneg; lia). assert (2 ^ (K + 1) = 2 * 2 ^ K) as EK1 by (rewrite Z.pow_add_r; lia).
    assert (2 ^ K = 2 * 2 ^ Z.of_nat k) as EK0 by (rewrite EK, Z.pow_add_r; lia).
    assert (val (set_bit r K) = val r + 2 ^ K) as Eb'.
    { rewrite Eb, Er. apply lor_multiple. lia. }
    assert (val c' = B * 2 ^ Z.of_nat k) as Ec''.
    { rewrite Ec', Ec, EK0. replace (B * (2 * 2 ^ Z.of_nat k)) with (B * 2 ^ Z.of_nat k * 2) by lia. apply Z.div_mul. lia. }
    destruct (Z.leb_spec (val c) (val s)) as [Hge|Hlt].
    + assert (val d = val s - val c) as Ed' by (rewrite Ed, Z.mod_small; lia).
      specialize (IH d c' (set_bit r K) A B Hd Hc' Hb ltac:(lia) ltac:(lia) ltac:(lia)). rewrite Hld in IH. apply IH; try done.
      * rewrite (BITS_length d s); lia.
      * rewrite <- EK, Ed'. nia.
      * exists (2 * q + 1). rewrite Eb', <- EK, Er, EK1. lia.
      * rewrite Eb', Ed'. nia.
    + specialize (IH s c' r A B Hs Hc' Hr ltac:(lia) Hlr Hl0). apply IH; try done; [lia|rewrite <- EK; nia|].
      exists (2 * q). rewrite <- EK, Er, EK1. lia.
Qed.

Lemma div_rem_ok a b : words a -> words b -> length a = length b -> (0 < length a)%nat -> val b <> 0 ->
  exists q r, div_rem a b = Ok (q, r) /\ words q /\ words r /\ length q = length a /\ length r = length a /\
    val q = val a / val b /\ val r = val a mod val b.
Proof.
  intros Ha Hb Hl H0 Hne. pose proof (val_bound a Ha) as Hva. pose proof (val_bound b Hb) as Hvb. unfold div_rem. rewrite !bits_ok by done.
  rewrite (proj2 (Z.eqb_neq (val b) 0)) by done. pose proof (Z.log2_nonneg (val b)).
  rewrite (proj2 (Z.eqb_neq (Z.log2 (val b) + 1) 0)) by lia. pose proof (Z.log2_spec (val b) ltac:(lia)) as Hlb.
  set (my := if val a =? 0 then 0 else Z.log2 (val a) + 1).
  assert (0 <= my /\ val a < 2 ^ my /\ my <= BITS a /\ (val a < val b -> my <= Z.log2 (val b) + 1)) as (Hmy0 & Hmy & HmyB & _).
  { unfold my. destruct (Z.eqb_spec (val a) 0) as [->|Hna]; [unfold BITS; cbn; lia|].
    pose proof (Z.log2_spec (val a) ltac:(lia)). pose proof (Z.log2_nonneg (val a)).
    assert (Z.log2 (val a) < BITS a) by (apply Z.log2_lt_pow2; lia). split; [lia|]. split; [lia|]. split; [lia|].
    intros Hlt. pose proof (Z.log2_le_mono (val a) (val b) ltac:(lia)). lia. }
  destruct (Z.ltb_spec my (Z.log2 (val b) + 1)) as [Hlt|Hge].
  - exists (ZERO (length a)), a. assert (val a < val b) as Hab.
    { eapply Z.lt_le_trans; [exact Hmy|]. eapply Z.le_trans; [|apply (proj1 Hlb)]. apply Z.pow_le_mono_r; lia. }
    split; [done|]. split; [apply words_ZERO|]. split; [done|]. split; [unfold ZERO; by rewrite length_replicate|]. split; [done|].
    rewrite val_ZERO, Z.div_small, Z.mod_small by lia. done.
  - set (k := my - (Z.log2 (val b) + 1)).
    assert (val b * 2 ^ k < 2 ^ my) as Hk.
    { replace my with (Z.succ (Z.log2 (val b)) + k) by lia. rewrite Z.pow_add_r by lia.
      assert (0 < 2 ^ k) by (apply Z.pow_pos_nonneg; lia). nia. }
    assert (2 ^ my <= 2 ^ BITS b) as HmB by (apply Z.pow_le_mono_r; rewrite <- ?(BITS_length a b); lia).
    pose proof (overflowing_shl_ok b k Hb ltac:(lia) ltac:(lia)) as Hshl. destruct (overflowing_shl b k) as [c fl].
    destruct Hshl as (Hc & Hlc & Ec & _). rewrite (BITS_length b a) in * by done. rewrite (Z.mod_small k) in Ec by lia.
    rewrite Z.mod_small in Ec by (split; [apply Z.mul_nonneg_nonneg; [lia|apply Z.pow_nonneg; lia]|lia]). cbn [fst].
    pose proof (div_loop_ok (Z.to_nat k) a c (ZERO (length a)) (val a) (val b) Ha Hc (words_ZERO _) ltac:(lia)) as HL.
    unfold ZERO in HL at 1. rewrite length_replicate, val_ZERO, Z2Nat.id in HL by lia.
    assert (val a < val b * 2 ^ (k + 1)) as Hab.
    { eapply Z.lt_le_trans; [exact Hmy|]. replace my with (Z.log2 (val b) + (k + 1)) by lia. rewrite Z.pow_add_r by lia.
      apply Z.mul_le_mono_nonneg_r; [apply Z.pow_nonneg; lia|lia]. }
    assert (exists q, 0 = 2 ^ (k + 1) * q) as Hz by (exists 0; lia).
    specialize (HL eq_refl H0 ltac:(lia) ltac:(lia) Ec Hab Hz ltac:(lia)).
    destruct (div_loop (Z.to_nat k) a c _) as [q r]. destruct HL as (Hq & Hr & Hlq & Hlr & E & Hrb). exists q, r.
    pose proof (val_bound r Hr). split; [done|]. repeat (split; [done|]).
    split; [apply (Z.div_unique _ _ _ (val r))|apply (Z.mod_unique _ _ (val q))]; lia.
Qed.

(** ** Bytes *)

Lemma to_le_bytes_ok a : words a ->
  length (to_le_bytes a) = (8 * length a)%nat /\ Forall is_u8 (to_le_bytes a) /\ load_le (to_le_bytes a) = val a.
Proof.
  unfold to_le_bytes. induction 1 as [|x a Hx Ha (IH1 & IH2 & IH3)]; [by repeat split|].
  cbn [fmap list_fmap]. change (mjoin (store_le 8 x :: ?l)) with (store_le 8 x ++ mjoin l).
  pose proof (length_store_le 8 x ltac:(lia)) as Hl. change (Z.to_nat 8) with 8%nat in Hl. split; [rewrite length_app, Hl, IH1; cbn; lia|].
  split; [apply Forall_app; split; [apply store_le_bytes; lia|done]|].
  rewrite load_le_app, val_cons, IH3, load_store_le, Z.mod_small by (try done; try apply store_le_bytes; unfold is_u64 in *; lia).
  unfold msize. rewrite Hl. done.
Qed.

Lemma chunks8_ok n : forall bs, length bs = (8 * n)%nat -> Forall is_u8 bs ->
  words (load_le <$> chunks8 n bs) /\ length (load_le <$> chunks8 n bs) = n /\ val (load_le <$> chunks8 n bs) = load_le bs /\
  mjoin (store_le 8 <$> (load_le <$> chunks8 n bs)) = bs.
Proof.
  induction n as [|n IH]; intros bs Hl Hb; cbn [chunks8 fmap list_fmap].
  - destruct bs; [|done]. by repeat split.
  - destruct (IH (drop 8 bs)) as (H1 & H2 & H3 & H4); [rewrite length_drop; lia|by apply Forall_drop|].
    assert (length (take 8 bs) = 8%nat) as Ht by (rewrite length_take; lia). assert (Forall is_u8 (take 8 bs)) as Hb8 by by apply Forall_take.
    pose proof (load_le_bound _ Hb8) as Hr. rewrite Ht in Hr.
    assert (is_u64 (load_le (take 8 bs))) as H64 by (unfold is_u64; cbn in Hr; lia).
    split; [by constructor|]. split; [cbn; by rewrite H2|]. split.
    + rewrite val_cons, H3 by done. replace (load_le bs) with (load_le (take 8 bs ++ drop 8 bs)) by (f_equal; apply take_drop).
      rewrite load_le_app by done. rewrite Ht. done.
    + change (mjoin (?x :: ?l)) with (x ++ mjoin l). rewrite H4, store_load_le by (rewrite ?Ht; done || lia). apply take_drop.
Qed.

Lemma from_le_bytes_ok n bs : length bs = (8 * n)%nat -> Forall is_u8 bs ->
  words (from_le_bytes n bs) /\ length (from_le_bytes n bs) = n /\ val (from_le_bytes n bs) = load_le bs /\ to_le_bytes (from_le_bytes n bs) = bs.
Proof. apply chunks8_ok. Qed.

Lemma from_to_le_bytes a : words a -> from_le_bytes (length a) (to_le_bytes a) = a.
Proof.
  unfold from_le_bytes, to_le_bytes. induction 1 as [|x a Hx Ha IH]; [done|]. cbn [fmap list_fmap length chunks8].
  change (mjoin (store_le 8 x :: ?l)) with (store_le 8 x ++ mjoin l).
  pose proof (length_store_le 8 x ltac:(lia)) as Hl. change (Z.to_nat 8) with 8%nat in Hl.
  rewrite <- Hl, take_app_length, drop_app_length, IH. f_equal. rewrite load_store_le by lia. apply Z.mod_small. exact Hx.
Qed.

Lemma to_be_bytes_rev a : to_be_bytes a = rev (to_le_bytes a).
Proof.
  unfold to_be_bytes, to_le_bytes. induction a as [|x a IH]; [done|]. cbn [rev fmap list_fmap].
  change (mjoin (store_le 8 x :: ?l)) with (store_le 8 x ++ mjoin l). rewrite fmap_app, join_app, IH, rev_app_distr. cbn. by rewrite app_nil_r.
Qed.

(** ** Summary *)

(** C25: on the numbers that they stand for, the words of every operation are exact:
    sums, differences and products with a word wrap around modulo the size of the
    type, with a flag that is set exactly when the result does not fit; shifts are by
    their amount modulo the size, bits beyond the size are lost, and their flag says that
    the amount is not below the size, never that bits were lost; comparison, the number
    of bits and the byte orders agree with the number.  All results have as many words, each in its range. *)
Theorem uint_arithmetic_correct a b x s : words a -> words b -> length a = length b -> (0 < length a)%nat -> is_u64 x -> 0 <= s ->
  (let '(r, f) := overflowing_add a b in wraps a (val a + val b) r f) /\
  (let '(r, f) := overflowing_add_u64 a x in wraps a (val a + x) r f) /\
  (let '(r, f) := overflowing_sub a b in wraps a (val a - val b) r f) /\
  (let '(r, f) := overflowing_mul_u64 a x in wraps a (val a * x) r f) /\
  (let '(r, f) := overflowing_shl a s in
     words r /\ length r = length a /\ val r = (val a * 2 ^ (s mod BITS a)) mod 2 ^ BITS a /\ f = (BITS a <=? s)) /\
  (let '(r, f) := overflowing_shr a s in
     words r /\ length r = length a /\ val r = val a / 2 ^ (s mod BITS a) /\ f = (BITS a <=? s)) /\
  cmp a b = (val a ?= val b) /\ bits a = (if val a =? 0 then 0 else Z.log2 (val a) + 1) /\
  load_le (to_le_bytes a) = val a /\ to_be_bytes a = rev (to_le_bytes a) /\ from_le_bytes (length a) (to_le_bytes a) = a.
Proof.
  intros Ha Hb Hl H0 Hx Hs. split; [by apply overflowing_add_ok|]. split; [by apply overflowing_add_u64_ok|].
  split; [by apply overflowing_sub_ok|]. split; [by apply overflowing_mul_u64_ok|]. split; [by apply overflowing_shl_ok|].
  split; [by apply overflowing_shr_ok|]. split; [by apply cmp_ok|]. split; [by apply bits_ok|].
  destruct (to_le_bytes_ok a Ha) as (H1 & H2 & H3). split; [done|]. split; [apply to_be_bytes_rev|].
  by apply from_to_le_bytes.
Qed.

Lemma uint_arithmetic_correct_witness :
  (let '(r, f) := overflowing_sub [1; 2] [3; 1] in val r = 2 ^ 64 - 2 /\ f = false) /\
  (let '(r, f) := overflowing_shl [1; 2] 130 in val r = 4 + 2 ^ 67 /\ f = true) /\ cmp [1; 2] [3; 1] = Gt.
Proof.
  destruct (uint_arithmetic_correct [1; 2] [3; 1] 7 130) as (_ & _ & Hsub & _ & Hshl & _ & Hcmp & _).
  - repeat (constructor; try (unfold is_u64; lia)).
  - repeat (constructor; try (unfold is_u64; lia)).
  - reflexivity.
  - cbn. lia.
  - unfold is_u64. lia.
  - lia.
  - split; [|split; [|rewrite Hcmp; reflexivity]].
    + destruct (overflowing_sub [1; 2] [3; 1]) as [r f]. destruct Hsub as (_ & _ & -> & ->). split; reflexivity.
    + destruct (overflowing_shl [1; 2] 130) as [r f]. destruct Hshl as (_ & _ & -> & ->). split; reflexivity.
Defined.

(** C26: division is exact, by a word and by another number: it returns quotient and
    remainder, and only a division by zero panics. *)
Theorem uint_division_correct a b d : words a -> words b -> length a = length b -> (0 < length a)%nat -> is_u64 d ->
  (if d =? 0 then div_rem_u64 a d = Fault
   else exists q, div_rem_u64 a d = Ok (q, val a mod d) /\ words q /\ length q = length a /\ val q = val a / d) /\
  (if val b =? 0 then div_rem a b = Fault
   else exists q r, div_rem a b = Ok (q, r) /\ words q /\ words r /\ length q = length a /\ length r = length a /\
          val q = val a / val b /\ val r = val a mod val b).
Proof.
  intros Ha Hb Hl H0 Hd. split.
  - destruct (Z.eqb_spec d 0) as [->|Hne]; [|apply div_rem_u64_ok; [done|done|unfold is_u64 in Hd; lia]].
    unfold div_rem_u64. by rewrite (proj2 (Z.ltb_lt _ _)) by lia.
  - destruct (Z.eqb_spec (val b) 0) as [E|Hne]; [|by apply div_rem_ok]. unfold div_rem. by rewrite (bits_ok b), E.
Qed.

Lemma uint_division_correct_witness : exists q r, div_rem [7; 9] [0; 2] = Ok (q, r) /\ val q = 4 /\ val r = 7 + 2 ^ 64.
Proof.
  destruct (uint_division_correct [7; 9] [0; 2] 3) as [_ H].
  - repeat (constructor; try (unfold is_u64; lia)).
  - repeat (constructor; try (unfold is_u64; lia)).
  - reflexivity.
  - cbn. lia.
  - unfold is_u64. lia.
  - cbn in H. destruct H as (q & r & E & _ & _ & _ & _ & Hq & Hr). exists q, r. split; [exact E|]. split; [rewrite Hq; reflexivity|rewrite Hr; reflexivity].
Defined.

(** [overflowing_mul] is exact modulo the size of the type, and its flag is set
    only for products that do not fit; but it is not set for all of them: the words
    whose product is entirely too high are skipped. *)
Theorem mul_overflow_missed :
  (forall a b, length a = length b -> words a -> words b ->
     let '(r, f) := overflowing_mul a b in
     words r /\ length r = length a /\ val r = (val a * val b) mod 2 ^ BITS a /\ (f = true -> 2 ^ BITS a <= val a * val b)) /\
  (exists a b, length a = 4%nat /\ length b = 4%nat /\ words a /\ words b /\ 2 ^ 256 <= val a * val b /\
     overflowing_mul a b = (ZERO 4, false)).
Proof.
  split; [apply overflowing_mul_ok|]. exists [0; 0; 1; 0], [0; 0; 1; 0].
  assert (words [0; 0; 1; 0]) as Hw by (repeat (constructor; try (unfold is_u64; lia))).
  do 4 (split; [done|]). split; [vm_compute; discriminate|reflexivity].
Qed.

End UintProofs.
