(* ===== verification/Target.v ===== *)
(** * Compact targets (math/src/lib.rs)

    The encoding of a target of 256 bits in 32 bits: three bytes and an exponent. *)
From Stdlib Require Import ZArith Lia.
From stdpp Require Import base numbers list list_numbers.
From S2P Require Import Prelude Memory Uint UintProofs.
Import Uint.Uint UintProofs.UintProofs.
Open Scope Z_scope.

Module Target.

(** Mantissa and exponent of a number. *)
Definition size_of (v : Z) : Z := div_ceil (if v =? 0 then 0 else Z.log2 v + 1) 8.
Definition leading (v : Z) : Z := if size_of v <=? 3 then v * 2 ^ (8 * (3 - size_of v)) else v / 2 ^ (8 * (size_of v - 3)).
Definition compact_of (v : Z) : Z * Z :=
  if 2 ^ 23 <=? leading v then (leading v / 2 ^ 8, size_of v + 1) else (leading v, size_of v).

Lemma size_of_spec v s : 0 < v -> 2 ^ (8 * (s - 1)) <= v < 2 ^ (8 * s) -> 1 <= s -> size_of v = s.
Proof.
  intros Hv [H1 H2] Hs. unfold size_of, div_ceil. rewrite (proj2 (Z.eqb_neq v 0)) by lia.
  apply Z.log2_le_pow2 in H1; [|lia]. apply Z.log2_lt_pow2 in H2; [|lia]. Z.div_mod_to_equations. lia.
Qed.

Lemma size_of_range v : 0 < v -> 1 <= size_of v /\ 2 ^ (8 * (size_of v - 1)) <= v < 2 ^ (8 * size_of v).
Proof.
  intros Hv. unfold size_of, div_ceil. rewrite (proj2 (Z.eqb_neq v 0)) by lia. pose proof (Z.log2_nonneg v).
  pose proof (Z.log2_spec v Hv) as [H1 H2]. set (s := (Z.log2 v + 1 + 8 - 1) / 8).
  assert (8 * (s - 1) <= Z.log2 v /\ Z.log2 v < 8 * s /\ 1 <= s) as (Ha & Hb & Hc) by (unfold s; Z.div_mod_to_equations; lia).
  split; [lia|]. split; [eapply Z.le_trans; [|exact H1]|eapply Z.lt_le_trans; [exact H2|]]; apply Z.pow_le_mono_r; lia.
Qed.

(** The leading three bytes have their highest byte in use. *)
Lemma leading_range v : 0 < v -> 2 ^ 16 <= leading v < 2 ^ 24.
Proof.
  intros Hv. destruct (size_of_range v Hv) as (Hs & H1 & H2). unfold leading. set (s := size_of v) in *.
  destruct (Z.leb_spec s 3) as [Hle|Hgt].
  - assert (0 < 2 ^ (8 * (3 - s))) by (apply Z.pow_pos_nonneg; lia).
    replace (2 ^ 16) with (2 ^ (8 * (s - 1)) * 2 ^ (8 * (3 - s))) by (rewrite <- Z.pow_add_r by lia; f_equal; lia).
    replace (2 ^ 24) with (2 ^ (8 * s) * 2 ^ (8 * (3 - s))) by (rewrite <- Z.pow_add_r by lia; f_equal; lia). nia.
  - assert (0 < 2 ^ (8 * (s - 3))) by (apply Z.pow_pos_nonneg; lia). split.
    + apply Z.div_le_lower_bound; [lia|]. rewrite <- Z.pow_add_r by lia. by replace (8 * (s - 3) + 16) with (8 * (s - 1)) by lia.
    + apply Z.div_lt_upper_bound; [lia|]. rewrite <- Z.pow_add_r by lia. by replace (8 * (s - 3) + 24) with (8 * s) by lia.
Qed.

(** Below three bytes nothing is lost; above, the mantissa is the quotient and has
    at least 16 bits. *)
Lemma compact_of_spec v : 0 <= v < 2 ^ 256 ->
  let '(m, e) := compact_of v in
  0 <= m < 2 ^ 23 /\ 0 <= e <= 33 /\ if e <=? 3 then m = v * 2 ^ (8 * (3 - e)) else m = v / 2 ^ (8 * (e - 3)) /\ 2 ^ 15 <= m.
Proof.
  intros [H0 Hv]. destruct (Z.eq_dec v 0) as [->|Hne]; [vm_compute; repeat split; discriminate|].
  pose proof (leading_range v ltac:(lia)) as Hl. destruct (size_of_range v ltac:(lia)) as (Hs & H1 & H2).
  assert (size_of v <= 32) as Hs32.
  { destruct (Z.le_gt_cases (size_of v) 32); [done|]. assert (2 ^ 256 <= 2 ^ (8 * (size_of v - 1))) by (apply Z.pow_le_mono_r; lia). lia. }
  unfold compact_of. destruct (Z.leb_spec (2 ^ 23) (leading v)) as [Hb|Hb].
  - split; [split; [Z.div_mod_to_equations; lia|apply Z.div_lt_upper_bound; lia]|]. split; [lia|].
    assert (2 ^ 15 <= leading v / 2 ^ 8) as H15 by (apply Z.div_le_lower_bound; lia).
    destruct (Z.leb_spec (size_of v) 3) as [Hle|Hgt].
    + assert (leading v = v * 2 ^ (8 * (3 - size_of v))) as EL by (unfold leading; by rewrite (proj2 (Z.leb_le _ _))).
      destruct (Z.leb_spec (size_of v + 1) 3) as [H3|H3].
      * rewrite EL. replace (8 * (3 - size_of v)) with (8 * (3 - (size_of v + 1)) + 8) by lia. rewrite Z.pow_add_r, Z.mul_assoc, Z.div_mul by lia. done.
      * split; [|done]. assert (size_of v = 3) as E3 by lia. rewrite E3 in EL |- *. change (2 ^ (8 * (3 - 3))) with 1 in EL.
        rewrite Z.mul_1_r in EL. by rewrite EL.
    + assert (leading v = v / 2 ^ (8 * (size_of v - 3))) as EL by (unfold leading; by rewrite (proj2 (Z.leb_gt _ _))).
      rewrite (proj2 (Z.leb_gt (size_of v + 1) 3)) by lia. split; [|done]. rewrite EL, Z.div_div by (try apply Z.pow_pos_nonneg; lia).
      rewrite <- Z.pow_add_r by lia. do 2 f_equal. lia.
  - split; [lia|]. split; [lia|]. unfold leading in *. destruct (Z.leb_spec (size_of v) 3); [done|]. split; [done|lia].
Qed.

(** What a compact target stands for. *)
Definition expand (m e : Z) : Z := if e <=? 3 then m / 2 ^ (8 * (3 - e)) else m * 2 ^ (8 * (e - 3)).

(** Encoding rounds down, by less than one part in 32768, and only once. *)
Lemma expand_compact v : 0 <= v < 2 ^ 256 ->
  let '(m, e) := compact_of v in
  let r := expand m e in
  0 <= r <= v /\ 2 ^ 15 * (v - r) <= r /\ compact_of r = (m, e).
Proof.
  intros Hv. pose proof (compact_of_spec v Hv) as H. destruct (compact_of v) as [m e] eqn:Ec. destruct H as (Hm & He & H).
  unfold expand. destruct (Z.leb_spec e 3) as [H3|H3].
  - subst m. rewrite Z.div_mul by (apply Z.pow_nonzero; lia). split; [lia|]. split; [lia|done].
  - destruct H as [Em H15]. set (k := 8 * (e - 3)) in *. assert (0 < 2 ^ k) as Hk by (apply Z.pow_pos_nonneg; lia).
    pose proof (Z.div_mod v (2 ^ k) ltac:(lia)) as Hd. pose proof (Z.mod_pos_bound v (2 ^ k) Hk) as Hr. rewrite <- Em in Hd.
    split; [nia|]. split; [nia|]. unfold compact_of.
    destruct (Z.lt_ge_cases m (2 ^ 16)) as [H16|H16].
    + assert (size_of (m * 2 ^ k) = e - 1) as Es.
      { apply size_of_spec; [nia| |lia]. replace (8 * (e - 1)) with (16 + k) by lia. replace (8 * (e - 1 - 1)) with (8 + k) by lia.
        rewrite !Z.pow_add_r by lia. nia. }
      assert (leading (m * 2 ^ k) = m * 2 ^ 8) as El.
      { unfold leading. rewrite Es. destruct (Z.leb_spec (e - 1) 3) as [Hle|Hgt].
        - assert (e = 4) as -> by lia. unfold k. change (8 * (4 - 3)) with 8. change (8 * (3 - (4 - 1))) with 0. by rewrite Z.pow_0_r, Z.mul_1_r.
        - unfold k. replace (8 * (e - 3)) with (8 + 8 * (e - 1 - 3)) by lia. rewrite Z.pow_add_r, Z.mul_assoc, Z.div_mul by (try apply Z.pow_nonzero; lia). done. }
      rewrite El, Es, (proj2 (Z.leb_le _ _)), Z.div_mul by lia. f_equal. lia.
    + assert (size_of (m * 2 ^ k) = e) as Es.
      { apply size_of_spec; [nia| |lia]. replace (8 * (e - 1)) with (16 + k) by lia. replace (8 * e) with (24 + k) by lia.
        rewrite !Z.pow_add_r by lia. nia. }
      assert (leading (m * 2 ^ k) = m) as El.
      { unfold leading. rewrite Es, (proj2 (Z.leb_gt e 3)) by lia. fold k. apply Z.div_mul. lia. }
      rewrite El, Es, (proj2 (Z.leb_gt _ _)) by lia. done.
Qed.

(** ** The code *)

Abbreviation uint256 := (fun a => length a = 4%nat /\ Forall is_u64 a).

Lemma from_u64_ok x : is_u64 x -> words (from_u64 4 x) /\ length (from_u64 4 x) = 4%nat /\ val (from_u64 4 x) = x.
Proof.
  intros Hx. unfold from_u64, ZERO. cbn [replicate insert list_insert]. split; [constructor; [done|apply (words_ZERO 3)]|].
  split; [done|]. rewrite val_cons by done. change (x + W * val (ZERO 3) = x). rewrite (val_ZERO 3). lia.
Qed.

Lemma from_compact_ok b : is_u32 b ->
  let m := b mod 2 ^ 24 in
  let e := b / 2 ^ 24 in
  let r := from_compact_target_bits b in
  words r /\ length r = 4%nat /\
  val r = if e <=? 3 then (if m / 2 ^ (8 * (3 - e)) <? 2 ^ 23 then m / 2 ^ (8 * (3 - e)) else 0)
          else if m <? 2 ^ 23 then (m * 2 ^ ((8 * (e - 3)) mod 256)) mod 2 ^ 256 else 0.
Proof.
  intros Hb m e r. unfold is_u32 in Hb. unfold r, from_compact_target_bits. clear r.
  assert (Z.shiftr b 24 = e) as -> by by rewrite Z.shiftr_div_pow2.
  assert (Z.land b 0xFFFFFF = m) as -> by (apply (Z.land_ones b 24); lia).
  assert (0 <= m < 2 ^ 24) as Hm by (apply Z.mod_pos_bound; lia). assert (0 <= e < 256) as He by (unfold e; Z.div_mod_to_equations; lia).
  assert (forall mant expt, 0 <= mant < 2 ^ 24 -> 0 <= expt ->
    let r := if 0x7FFFFF <? mant then ZERO 4 else fst (overflowing_shl (from_u64 4 mant) expt) in
    words r /\ length r = 4%nat /\ val r = if mant <? 2 ^ 23 then (mant * 2 ^ (expt mod 256)) mod 2 ^ 256 else 0) as H.
  { intros mant expt Hma Hex. destruct (Z.ltb_spec 0x7FFFFF mant), (Z.ltb_spec mant (2 ^ 23)); try lia.
    - split; [apply words_ZERO|]. split; [done|apply val_ZERO].
    - destruct (from_u64_ok mant ltac:(unfold is_u64; lia)) as (H1 & H2 & H3).
      pose proof (overflowing_shl_ok (from_u64 4 mant) expt H1 ltac:(lia) Hex) as H4. destruct (overflowing_shl _ _) as [q f].
      destruct H4 as (H4 & H5 & H6 & _). cbn [fst]. unfold BITS in H6. rewrite H2 in *. rewrite H3 in H6. done. }
  destruct (Z.leb_spec e 3) as [H3|H3].
  - rewrite Z.shiftr_div_pow2 by lia. set (q := m / 2 ^ (8 * (3 - e))).
    assert (1 <= 2 ^ (8 * (3 - e))) by (apply (Z.pow_le_mono_r 2 0); lia).
    assert (0 <= q < 2 ^ 24) as Hq by (split; [apply Z.div_pos; lia|apply Z.div_lt_upper_bound; nia]).
    destruct (H q 0 Hq ltac:(lia)) as (H1 & H2 & ->). split; [done|]. split; [done|]. destruct (q <? 2 ^ 23); [|done].
    rewrite Z.mod_0_l, Z.pow_0_r, Z.mul_1_r, Z.mod_small by lia. done.
  - apply (H m (8 * (e - 3))); lia.
Qed.

Lemma as_u64_ok a : words a -> (0 < length a)%nat -> as_u64 a = val a mod W.
Proof.
  intros Ha Hl. destruct a as [|x a]; [cbn in Hl; lia|]. apply Forall_cons in Ha as [Hx Ha]. rewrite val_cons by done.
  unfold is_u64 in Hx. rewrite Z.mul_comm, Z_mod_plus_full, Z.mod_small by lia. done.
Qed.

Lemma compact_leading a : length a = 4%nat -> words a ->
  (if size_of (val a) <=? 3 then u32 (shl64 (as_u64 a) (8 * (3 - size_of (val a))))
   else u32 (as_u64 (fst (overflowing_shr a (8 * (size_of (val a) - 3)))))) = leading (val a).
Proof.
  intros Hl Ha. pose proof (val_bound a Ha) as Hv. unfold BITS in Hv. rewrite Hl in Hv. change (64 * Z.of_nat 4) with 256 in Hv.
  assert (0 <= size_of (val a) <= 32 /\ 0 <= leading (val a) < 2 ^ 24) as [Hs Hle].
  { destruct (Z.eq_dec (val a) 0) as [->|Hne]; [vm_compute; repeat split; discriminate|].
    pose proof (leading_range (val a) ltac:(lia)). destruct (size_of_range (val a) ltac:(lia)) as (H1 & H2 & _). split; [split; [lia|]|lia].
    destruct (Z.le_gt_cases (size_of (val a)) 32); [done|].
    assert (2 ^ 256 <= 2 ^ (8 * (size_of (val a) - 1))) by (apply Z.pow_le_mono_r; lia). lia. }
  unfold leading in Hle |- *. destruct (Z.leb_spec (size_of (val a)) 3) as [H3|H3].
  - assert (1 <= 2 ^ (8 * (3 - size_of (val a)))) by (apply (Z.pow_le_mono_r 2 0); lia).
    rewrite as_u64_ok, Z.mod_small by (done || lia || nia). unfold shl64. rewrite Z.shiftl_mul_pow2 by lia.
    rewrite u64_id by (unfold is_u64; lia). apply u32_id. unfold is_u32. lia.
  - pose proof (overflowing_shr_ok a (8 * (size_of (val a) - 3)) Ha ltac:(lia) ltac:(lia)) as H. destruct (overflowing_shr _ _) as [q f].
    destruct H as (Hq & Hlq & Eq & _). cbn [fst]. unfold BITS in Eq. rewrite Hl in Eq. rewrite (Z.mod_small (8 * _)) in Eq by lia.
    rewrite as_u64_ok, Eq, (Z.mod_small (_ / _)) by (done || lia). apply u32_id. unfold is_u32. lia.
Qed.

Lemma compact_bits_ok a : length a = 4%nat -> words a ->
  compact_target_bits a = let '(m, e) := compact_of (val a) in m + 2 ^ 24 * e.
Proof.
  intros Hl Ha. pose proof (val_bound a Ha) as Hv. unfold BITS in Hv. rewrite Hl in Hv. change (64 * Z.of_nat 4) with 256 in Hv.
  pose proof (compact_of_spec (val a) Hv) as Hspec. unfold compact_target_bits. rewrite bits_ok by done. fold (size_of (val a)).
  rewrite compact_leading by done. unfold compact_of in *. set (c := leading (val a)) in *.
  assert (0 <= c < 2 ^ 24) as Hc.
  { unfold c. destruct (Z.eq_dec (val a) 0) as [->|Hne]; [vm_compute; repeat split; discriminate|]. pose proof (leading_range (val a) ltac:(lia)). lia. }
  assert (negb (Z.land c 0x00800000 =? 0) = (2 ^ 23 <=? c)) as ->.
  { change 0x00800000 with (2 ^ 23). destruct (Z.leb_spec (2 ^ 23) c) as [H|H].
    - apply negb_true_iff, Z.eqb_neq. intros E. assert (Z.testbit (Z.land c (2 ^ 23)) 23 = false) as Et by (rewrite E; apply Z.bits_0).
      rewrite Z.land_spec, Z.pow2_bits_true, andb_true_r in Et by lia. assert (Z.log2 c = 23) as Elog by (apply Z.log2_unique; lia).
      pose proof (Z.bit_log2 c ltac:(lia)) as Hbit. rewrite Elog in Hbit. congruence.
    - apply negb_false_iff, Z.eqb_eq. apply Z.bits_inj'. intros n Hn. rewrite Z.land_spec, Z.pow2_bits_eqb, Z.bits_0 by lia.
      destruct (Z.eqb_spec 23 n) as [<-|]; [|apply andb_false_r]. rewrite andb_true_r.
      by apply (proj1 (bits_bound 23 c ltac:(lia) ltac:(lia)) ltac:(lia)). }
  destruct (2 ^ 23 <=? c); destruct Hspec as (Hm & He & _); [rewrite Z.shiftr_div_pow2 by lia|];
    rewrite Z.shiftl_mul_pow2, u32_id by (unfold is_u32; lia); rewrite <- Z.shiftl_mul_pow2, lor_shiftl_add by lia; done.
Qed.

(** [compact_target_bits] keeps a target of 256 bits but for its low bits:
    [from_compact_target_bits] gives back at most the target, less by at most one part
    in 32768, and what it gives back has the same compact form. *)
Theorem compact_target_roundtrip a : length a = 4%nat -> words a ->
  let r := from_compact_target_bits (compact_target_bits a) in
  words r /\ length r = 4%nat /\ val r <= val a /\ 2 ^ 15 * (val a - val r) <= val r /\
  compact_target_bits r = compact_target_bits a.
Proof.
  intros Hl Ha r. pose proof (val_bound a Ha) as Hv. unfold BITS in Hv. rewrite Hl in Hv. change (64 * Z.of_nat 4) with 256 in Hv.
  pose proof (compact_bits_ok a Hl Ha) as Ec. pose proof (expand_compact (val a) Hv) as He. pose proof (compact_of_spec (val a) Hv) as Hs.
  destruct (compact_of (val a)) as [m e] eqn:Eco. destruct Hs as (Hm & He33 & Hs). cbv zeta in He. destruct He as (Hr & Herr & Eidem).
  assert (is_u32 (m + 2 ^ 24 * e)) as Hu by (unfold is_u32; lia).
  pose proof (from_compact_ok (m + 2 ^ 24 * e) Hu) as Hf. cbv zeta in Hf. rewrite <- Ec in Hf. fold r in Hf. rewrite Ec in Hf.
  replace ((m + 2 ^ 24 * e) mod 2 ^ 24) with m in Hf by (rewrite Z.mul_comm, Z_mod_plus_full, Z.mod_small; lia).
  replace ((m + 2 ^ 24 * e) / 2 ^ 24) with e in Hf by (rewrite Z.mul_comm, Z.div_add, Z.div_small; lia).
  destruct Hf as (Hw & Hlr & Er). assert (val r = expand m e) as Ev.
  { rewrite Er. unfold expand in *. destruct (Z.leb_spec e 3) as [H3|H3].
    - assert (1 <= 2 ^ (8 * (3 - e))) by (apply (Z.pow_le_mono_r 2 0); lia).
      rewrite (proj2 (Z.ltb_lt _ _)); [done|]. apply Z.div_lt_upper_bound; nia.
    - rewrite (proj2 (Z.ltb_lt _ _)), (Z.mod_small (8 * _)), Z.mod_small by lia. done. }
  split; [done|]. split; [done|]. rewrite Ev. split; [lia|]. split; [lia|].
  rewrite (compact_bits_ok r Hlr Hw), Ev, Eidem. by rewrite Ec.
Qed.

Lemma compact_target_roundtrip_witness :
  let r := from_compact_target_bits (compact_target_bits [0xFFFFFFFFFFFFFFFF; 5; 0; 0]) in
  val r <= val [0xFFFFFFFFFFFFFFFF; 5; 0; 0] /\ compact_target_bits r = 0x0905FFFF.
Proof.
  destruct (compact_target_roundtrip [0xFFFFFFFFFFFFFFFF; 5; 0; 0]) as (_ & _ & H1 & _ & H2).
  - reflexivity.
  - repeat (constructor; try (unfold is_u64; lia)).
  - split; [exact H1|]. rewrite H2. reflexivity.
Defined.

End Target.
