(* ===== verification/Header.v ===== *)
(** * Hashes of block headers (consensus/core/src/hashing/header.rs, hashing/mod.rs)

    The node identifies a block by the hash of its header, and mines on the hash with
    time and nonce set to zero.  The hash function is BLAKE2b with a key, from the
    package blake2b_simd: an argument here. *)
From Stdlib Require Import Ascii String ZArith Lia.
From stdpp Require Import base numbers list list_numbers.
From S2P Require Import Prelude Memory Json Uint UintProofs.
Import Uint.Uint UintProofs.UintProofs.
Open Scope list_scope.
Open Scope Z_scope.

Module Header.

(** A [Hash] is its 32 bytes; [blue_work] has three words. *)
Record Header := mk_header {
  cached_hash : mem; version : Z; parents_by_level : list (list mem); hash_merkle_root : mem; accepted_id_merkle_root : mem; utxo_commitment : mem;
  timestamp : Z; bits : Z; nonce : Z; daa_score : Z; blue_work : uint; blue_score : Z; pruning_point : mem }.

(** ** What is written to the hasher *)

Definition write_len (n : nat) : mem := store_le 8 (Z.of_nat n).
Definition write_var_bytes (bs : mem) : mem := write_len (length bs) ++ bs.
Definition write_var_array (arr : list mem) : mem := write_len (length arr) ++ concat arr.

(** [iter().position(|byte| byte != 0)] *)
Fixpoint position (bs : mem) : option nat :=
  match bs with
  | [] => None
  | b :: bs => if b =? 0 then S <$> position bs else Some O
  end.

Definition write_blue_work (work : uint) : mem :=
  let be_bytes := to_be_bytes work in
  let start := default (length be_bytes) (position be_bytes) in
  write_var_bytes (drop start be_bytes).

Definition preimage (h : Header) (nonce timestamp : Z) : mem :=
  store_le 2 (version h) ++ write_len (length (parents_by_level h)) ++ concat (write_var_array <$> parents_by_level h) ++
  hash_merkle_root h ++ accepted_id_merkle_root h ++ utxo_commitment h ++ store_le 8 timestamp ++ store_le 4 (bits h) ++
  store_le 8 nonce ++ store_le 8 (daa_score h) ++ store_le 8 (blue_score h) ++ write_blue_work (blue_work h) ++ pruning_point h.

Section Hashing.
Context (blake2b : mem -> mem -> mem).

Definition hash_override_nonce_time (h : Header) (nonce timestamp : Z) : mem :=
  blake2b (Json.Json.lit "BlockHash") (preimage h nonce timestamp).
Definition hash (h : Header) : mem := hash_override_nonce_time h (nonce h) (timestamp h).

Definition finalize (h : Header) : Header :=
  mk_header (hash h) (version h) (parents_by_level h) (hash_merkle_root h) (accepted_id_merkle_root h) (utxo_commitment h)
    (timestamp h) (bits h) (nonce h) (daa_score h) (blue_work h) (blue_score h) (pruning_point h).

Definition new_finalized (version : Z) (parents_by_level : list (list mem)) (hash_merkle_root accepted_id_merkle_root utxo_commitment : mem)
  (timestamp bits nonce daa_score : Z) (blue_work : uint) (blue_score : Z) (pruning_point : mem) : Header :=
  finalize (mk_header (replicate 32 0) version parents_by_level hash_merkle_root accepted_id_merkle_root utxo_commitment
    timestamp bits nonce daa_score blue_work blue_score pruning_point).

End Hashing.

(** ** Different headers have different preimages *)

Record header_ok (h : Header) : Prop := {
  ok_version : 0 <= version h < 2 ^ 16;
  ok_levels : Z.of_nat (length (parents_by_level h)) < 2 ^ 64;
  ok_parents : Forall (fun l => Z.of_nat (length l) < 2 ^ 64 /\ Forall (fun x => length x = 32%nat) l) (parents_by_level h);
  ok_merkle : length (hash_merkle_root h) = 32%nat; ok_accepted : length (accepted_id_merkle_root h) = 32%nat;
  ok_utxo : length (utxo_commitment h) = 32%nat; ok_time : is_u64 (timestamp h); ok_bits : is_u32 (bits h); ok_nonce : is_u64 (nonce h);
  ok_daa : is_u64 (daa_score h); ok_work : Forall is_u64 (blue_work h) /\ length (blue_work h) = 3%nat; ok_score : is_u64 (blue_score h);
  ok_pruning : length (pruning_point h) = 32%nat }.

Lemma store_le_inj n x y r s : 0 <= n -> 0 <= x < 2 ^ (n * 8) -> 0 <= y < 2 ^ (n * 8) ->
  store_le n x ++ r = store_le n y ++ s -> x = y /\ r = s.
Proof.
  intros Hn Hx Hy E. apply app_inj_1 in E as [E ->]; [|by rewrite !length_store_le]. split; [|done].
  apply (f_equal load_le) in E. rewrite !load_store_le, !Z.mod_small in E by lia. done.
Qed.

Lemma write_len_inj m n r s : Z.of_nat m < 2 ^ 64 -> Z.of_nat n < 2 ^ 64 -> write_len m ++ r = write_len n ++ s -> m = n /\ r = s.
Proof. intros Hm Hn E. unfold write_len in E. apply store_le_inj in E as [E ->]; [|lia|lia|lia]. split; [lia|done]. Qed.

Lemma concat_inj (k : nat) (a b : list mem) r s : Forall (fun x => length x = k) a -> Forall (fun x => length x = k) b -> length a = length b ->
  concat a ++ r = concat b ++ s -> a = b /\ r = s.
Proof.
  intros Ha. revert b. induction Ha as [|x a Hx Ha IH]; intros [|y b] Hb Hl E; try done.
  apply Forall_cons in Hb as [Hy Hb]. cbn [concat] in E. rewrite <- !app_assoc in E. apply app_inj_1 in E as [-> E]; [|lia].
  apply IH in E as [-> ->]; [done|done|]. cbn in Hl. lia.
Qed.

Lemma levels_inj (a b : list (list mem)) r s :
  Forall (fun l => Z.of_nat (length l) < 2 ^ 64 /\ Forall (fun x => length x = 32%nat) l) a ->
  Forall (fun l => Z.of_nat (length l) < 2 ^ 64 /\ Forall (fun x => length x = 32%nat) l) b -> length a = length b ->
  concat (write_var_array <$> a) ++ r = concat (write_var_array <$> b) ++ s -> a = b /\ r = s.
Proof.
  intros Ha. revert b. induction Ha as [|x a [Hx1 Hx2] Ha IH]; intros [|y b] Hb Hl E; try done.
  apply Forall_cons in Hb as [[Hy1 Hy2] Hb]. cbn [fmap list_fmap concat] in E. unfold write_var_array in E at 1 3. rewrite <- !app_assoc in E.
  apply write_len_inj in E as [El E]; [|done|done]. apply (concat_inj 32) in E as [-> E]; [|done|done|done].
  apply IH in E as [-> ->]; [done|done|]. cbn in Hl. lia.
Qed.

(** Leading zeros can be put back. *)
Definition strip (bs : mem) : mem := drop (default (length bs) (position bs)) bs.

Lemma strip_zeros bs : exists k, bs = replicate k 0 ++ strip bs.
Proof.
  unfold strip. induction bs as [|b bs [k IH]]; [by exists O|]. cbn [position]. destruct (Z.eqb_spec b 0) as [->|Hb]; [|by exists O].
  exists (S k). destruct (position bs) as [p|]; cbn in IH |- *; f_equal; exact IH.
Qed.

Lemma strip_inj a b : length a = length b -> strip a = strip b -> a = b.
Proof.
  intros Hl E. destruct (strip_zeros a) as [k Ek]. destruct (strip_zeros b) as [l El]. rewrite E in Ek.
  assert (k = l) as ->; [|exact (eq_trans Ek (eq_sym El))].
  apply (f_equal length) in Ek, El. rewrite length_app, length_replicate in Ek, El. lia.
Qed.

Lemma length_strip a : (length (strip a) <= length a)%nat.
Proof. unfold strip. rewrite length_drop. lia. Qed.

Lemma length_to_be_bytes a : words a -> length (to_be_bytes a) = (8 * length a)%nat.
Proof. intros Ha. rewrite to_be_bytes_rev, length_rev. by destruct (to_le_bytes_ok a Ha). Qed.

Lemma to_be_bytes_inj a b : words a -> words b -> length a = length b -> to_be_bytes a = to_be_bytes b -> a = b.
Proof.
  intros Ha Hb Hl E. rewrite !to_be_bytes_rev in E. apply (f_equal (@rev Z)) in E. rewrite !rev_involutive in E.
  rewrite <- (from_to_le_bytes a), <- (from_to_le_bytes b), Hl by done. by f_equal.
Qed.

Lemma write_blue_work_inj a b r s : words a -> words b -> length a = 3%nat -> length b = 3%nat ->
  write_blue_work a ++ r = write_blue_work b ++ s -> a = b /\ r = s.
Proof.
  intros Ha Hb Hla Hlb E. unfold write_blue_work, write_var_bytes in E. cbn zeta in E.
  fold (strip (to_be_bytes a)) (strip (to_be_bytes b)) in E. rewrite <- !app_assoc in E.
  pose proof (length_to_be_bytes a Ha). pose proof (length_to_be_bytes b Hb).
  pose proof (length_strip (to_be_bytes a)). pose proof (length_strip (to_be_bytes b)).
  apply write_len_inj in E as [El E]; [|lia|lia]. apply app_inj_1 in E as [E ->]; [|done].
  split; [|done]. apply to_be_bytes_inj; [done|done|lia|]. apply strip_inj; [lia|done].
Qed.

(** The fields that the hash covers, without time and nonce. *)
Definition fields (h : Header) :=
  (version h, parents_by_level h, hash_merkle_root h, accepted_id_merkle_root h, utxo_commitment h, bits h, daa_score h,
   blue_work h, blue_score h, pruning_point h).

(** C24: the bytes that are hashed determine the header, for every time and nonce that
    are put into it: a block hash commits to all fields, and the hash that is mined
    on to all but time and nonce. *)
Theorem header_preimage_injective h1 h2 n1 n2 t1 t2 : header_ok h1 -> header_ok h2 -> is_u64 n1 -> is_u64 n2 -> is_u64 t1 -> is_u64 t2 ->
  preimage h1 n1 t1 = preimage h2 n2 t2 ->
  n1 = n2 /\ t1 = t2 /\ fields h1 = fields h2.
Proof.
  intros [] [] Hn1 Hn2 Ht1 Ht2 E. unfold preimage in E. unfold is_u64, is_u32 in *.
  apply store_le_inj in E as [Ev E]; [|lia..]. apply write_len_inj in E as [Ell E]; [|done|done].
  apply levels_inj in E as [Elv E]; [|done|done|done].
  apply app_inj_1 in E as [Em E]; [|lia]. apply app_inj_1 in E as [Ea E]; [|lia]. apply app_inj_1 in E as [Eu E]; [|lia].
  apply store_le_inj in E as [Et E]; [|lia..]. apply store_le_inj in E as [Eb E]; [|lia..]. apply store_le_inj in E as [En E]; [|lia..].
  apply store_le_inj in E as [Ed E]; [|lia..]. apply store_le_inj in E as [Es E]; [|lia..].
  destruct ok_work0 as [Hw1 Hl1], ok_work1 as [Hw2 Hl2]. apply write_blue_work_inj in E as [Ew E]; [|done..].
  split; [done|]. split; [done|]. unfold fields. congruence.
Qed.

Definition some_header (nonce : Z) : Header :=
  mk_header (replicate 32 0) 1 [[replicate 32 1; replicate 32 2]; [replicate 32 3]] (replicate 32 4) (replicate 32 5) (replicate 32 6)
    1769947200000 0x1d00ffff nonce 70 [123456; 0; 0] 69 (replicate 32 7).

Lemma some_header_ok nonce : is_u64 nonce -> header_ok (some_header nonce).
Proof.
  intros Hn. unfold some_header. split; cbn -[replicate]; try done; try (unfold is_u64, is_u32; lia).
  - repeat (constructor; try (cbn; lia)).
  - split; [|done]. repeat (constructor; try (unfold is_u64; lia)).
Qed.

(** A header with two levels of parents whose nonce is replaced. *)
Lemma header_preimage_injective_witness : preimage (some_header 5) 7 8 = preimage (some_header 6) 7 8 /\
  (forall n, is_u64 n -> preimage (some_header 5) n 8 = preimage (some_header 6) 7 8 -> n = 7).
Proof.
  split; [reflexivity|]. intros n Hn E.
  refine (proj1 (header_preimage_injective (some_header 5) (some_header 6) n 7 8 8 _ _ Hn _ _ _ E));
    first [apply some_header_ok; unfold is_u64; lia|unfold is_u64; lia].
Defined.

End Header.
