(* ===== verification/Pow.v ===== *)
(** * Proof of work of the node (consensus/pow/src, crypto/hashes/src/pow_hashers.rs)

    The native build: a header without time and nonce is hashed; that hash is the key
    of RandomX and the seed of a matrix; the proof of work of a nonce is cSHAKE, then
    RandomX, then a product with the matrix, then cSHAKE again.  RandomX (the package
    randomx_rs), BLAKE2b (blake2b_simd) and the permutation of Keccak (assembly, or the
    package keccak) are arguments. *)
From Stdlib Require Import Ascii String ZArith Lia.
From stdpp Require Import base numbers list.
From S2P Require Import Prelude Memory Reciprocal Float64 Uint Header.
Import Float64.Float64 Uint.Uint.
Open Scope list_scope.
Open Scope Z_scope.

Module Pow.

(** ** [Hash] as four words *)

Definition HASH_SIZE : Z := 32.
Definition to_le_u64 (hash : mem) : list Z := load_le <$> chunks8 4 hash.
Definition from_le_u64 (arr : list Z) : mem := mjoin (store_le 8 <$> arr).
(** [Hash::from_slice] panics on another length. *)
Definition from_slice (bytes : mem) : result mem := if msize bytes =? HASH_SIZE then Ok bytes else Fault.

(** ** xoshiro256++ *)

Record XoShiRo256PlusPlus := mk_xoshiro { s0 : Z; s1 : Z; s2 : Z; s3 : Z }.

Definition xoshiro_new (hash : mem) : XoShiRo256PlusPlus :=
  let hash := to_le_u64 hash in
  mk_xoshiro (hash !!! 0%nat) (hash !!! 1%nat) (hash !!! 2%nat) (hash !!! 3%nat).

Definition xoshiro_u64 (g : XoShiRo256PlusPlus) : Z * XoShiRo256PlusPlus :=
  let res := add64 (s0 g) (Reciprocal.Reciprocal.rotl64 (add64 (s0 g) (s3 g)) 23) in
  let t := shl64 (s1 g) 17 in
  let s2 := Z.lxor (s2 g) (s0 g) in
  let s3 := Z.lxor (s3 g) (s1 g) in
  let s1 := Z.lxor (s1 g) s2 in
  let s0 := Z.lxor (s0 g) s3 in
  let s2 := Z.lxor s2 t in
  let s3 := Reciprocal.Reciprocal.rotl64 s3 45 in
  (res, mk_xoshiro s0 s1 s2 s3).

(** ** Matrices of 64 rows and columns *)

Definition Matrix : Type := list (list Z).

(** The closure over the columns, which keeps [val] and the generator. *)
Fixpoint rand_row (n : nat) (j : Z) (val : Z) (g : XoShiRo256PlusPlus) : list Z * XoShiRo256PlusPlus :=
  match n with
  | O => ([], g)
  | S n =>
      let shift := j mod 16 in
      let '(val, g) := if shift =? 0 then xoshiro_u64 g else (val, g) in
      let '(row, g') := rand_row n (j + 1) val g in
      (Z.land (Z.shiftr val (4 * shift)) 0x0F :: row, g')
  end.

Fixpoint rand_rows (n : nat) (g : XoShiRo256PlusPlus) : Matrix * XoShiRo256PlusPlus :=
  match n with
  | O => ([], g)
  | S n =>
      let '(row, g) := rand_row 64 0 0 g in
      let '(rows, g) := rand_rows n g in
      (row :: rows, g)
  end.

Definition rand_matrix_no_rank_check (g : XoShiRo256PlusPlus) : Matrix * XoShiRo256PlusPlus := rand_rows 64 g.

(** Doubles are their bits; an element has 16 bits. *)
Definition convert_to_float (m : list (list Z)) : list (list Z) := (fun row : list Z => f_of_int32 <$> row) <$> m.

Definition EPS : Z := 0x3e112e0be826d695.
Definition f_abs (x : Z) : Z := Z.land x 0x7FFFFFFFFFFFFFFF.
(** A comparison of doubles that are not negative: that of their bits, unless one
    is not a number. *)
Definition f_gt_pos (a b : Z) : bool :=
  match decode a, decode b with NaN, _ | _, NaN => false | _, _ => b <? a end.
Definition significant (x : Z) : bool := f_gt_pos (f_abs x) EPS.

Definition at2 (m : list (list Z)) (i j : Z) : result Z := row ← aget m i; aget row j.
Definition set2 (m : list (list Z)) (i j x : Z) : result (list (list Z)) := row ← aget m i; row ← aset row j x; aset m i row.

(** [while j < 64] with the search for a row *)
Fixpoint find_row (n : nat) (j : Z) (i : Z) (selected : list bool) (m : list (list Z)) : result Z :=
  match n with
  | O => Ok j
  | S n =>
      sel ← aget selected j;
      hit ← if negb sel then x ← at2 m j i; Ok (significant x) else Ok false;
      if (hit : bool) then Ok j else find_row n (j + 1) i selected m
  end.

(** [for p in (i + 1)..64 { mat[j][p] /= mat[j][i] }] *)
Fixpoint divide_row (n : nat) (p j i : Z) (m : list (list Z)) : result (list (list Z)) :=
  match n with
  | O => Ok m
  | S n =>
      x ← at2 m j p; y ← at2 m j i;
      m ← set2 m j p (f_div RoundToNearest x y);
      divide_row n (p + 1) j i m
  end.

(** [for p in (i + 1)..64 { mat[k][p] -= mat[j][p] * mat[k][i] }] *)
Fixpoint subtract_row (n : nat) (p k j i : Z) (m : list (list Z)) : result (list (list Z)) :=
  match n with
  | O => Ok m
  | S n =>
      x ← at2 m k p; y ← at2 m j p; z ← at2 m k i;
      m ← set2 m k p (f_sub RoundToNearest x (f_mul RoundToNearest y z));
      subtract_row n (p + 1) k j i m
  end.

Fixpoint eliminate (n : nat) (k j i : Z) (m : list (list Z)) : result (list (list Z)) :=
  match n with
  | O => Ok m
  | S n =>
      hit ← if negb (k =? j) then x ← at2 m k i; Ok (significant x) else Ok false;
      m ← if (hit : bool) then subtract_row (Z.to_nat (63 - i)) (i + 1) k j i m else Ok m;
      eliminate n (k + 1) j i m
  end.

Fixpoint rank_loop (n : nat) (i rank : Z) (selected : list bool) (m : list (list Z)) : result Z :=
  match n with
  | O => Ok rank
  | S n =>
      j ← find_row 64 0 i selected m;
      if negb (j =? 64) then
        selected ← aset selected j true;
        m ← divide_row (Z.to_nat (63 - i)) (i + 1) j i m;
        m ← eliminate 64 0 j i m;
        rank_loop n (i + 1) (rank + 1) selected m
      else rank_loop n (i + 1) rank selected m
  end.

Definition compute_rank (m : Matrix) : result Z := rank_loop 64 0 0 (replicate 64 false) (convert_to_float m).

(** [fuel] bounds the number of matrices that are tried. *)
Fixpoint generate_loop (fuel : nat) (g : XoShiRo256PlusPlus) : result Matrix :=
  match fuel with
  | O => OutOfFuel
  | S fuel =>
      let '(mat, g) := rand_matrix_no_rank_check g in
      rank ← compute_rank mat;
      if rank =? 64 then Ok mat else generate_loop fuel g
  end.

Definition generate (fuel : nat) (hash : mem) : result Matrix := generate_loop fuel (xoshiro_new hash).

(** ** The hashes, with their first block absorbed in advance *)

Definition PowHash_INITIAL_STATE : list Z :=
  [1242148031264380989; 3008272977830772284; 2188519011337848018; 1992179434288343456; 8876506674959887717;
   5399642050693751366; 1745875063082670864; 8605242046444978844; 17936695144567157056; 3343109343542796272;
   1123092876221303306; 4963925045340115282; 17037383077651887893; 16629644495023626889; 12833675776649114147;
   3784524041015224902; 1082795874807940378; 13952716920571277634; 13411128033953605860; 15060696040649351053;
   9928834659948351306; 5237849264682708699; 12825353012139217522; 6706187291358897596; 196324915476054915].

Definition KHeavyHash_INITIAL_STATE : list Z :=
  [4239941492252378377; 8746723911537738262; 8796936657246353646; 1272090201925444760; 16654558671554924250;
   8270816933120786537; 13907396207649043898; 6782861118970774626; 9239690602118867528; 11582319943599406348;
   17596056728278508070; 15212962468105129023; 7812475424661425213; 3370482334374859748; 5690099369266491460;
   8596393687355028144; 570094237299545110; 9119540418498120711; 16901969272480492857; 13372017233735502424;
   14372891883993151831; 5171152063242093102; 10573107899694386186; 6096431547456407061; 1592359455985097269].

(** [for (word, state_word) in hash.zip(state)] *)
Fixpoint xor_zip (ws st : list Z) : list Z :=
  match ws, st with
  | w :: ws, s :: st => Z.lxor s w :: xor_zip ws st
  | _, _ => st
  end.

Definition xor_lane (st : list Z) (i : Z) (x : Z) : result (list Z) := s ← aget st i; aset st i (Z.lxor s x).

Definition PowHash_new (pre_pow_hash : mem) (timestamp : Z) : result (list Z) :=
  let start := xor_zip (to_le_u64 pre_pow_hash) PowHash_INITIAL_STATE in
  xor_lane start 4 timestamp.

Section Node.
Context (f1600 : list Z -> list Z).
Context (blake2b : mem -> mem -> mem).
Context (RandomXVM : mem -> option (mem -> option mem)).

Definition finalize_with_nonce (self : list Z) (nonce : Z) : result mem :=
  st ← xor_lane self 9 nonce;
  Ok (from_le_u64 (take 4 (f1600 st))).

Definition KHeavyHash_hash (in_hash : mem) : mem :=
  from_le_u64 (take 4 (f1600 (xor_zip (to_le_u64 in_hash) KHeavyHash_INITIAL_STATE))).

(** ** [Matrix::heavy_hash] *)

Definition nibbles (hash : mem) : list Z := mjoin ((fun element => [Z.shiftr element 4; Z.land element 0x0F]) <$> hash).

(** Arithmetic of [u16], which may panic on overflow. *)
Definition chk16 (x : Z) : result Z := if x <? 2 ^ 16 then Ok x else Fault.

Fixpoint dot (j : Z) (row vec : list Z) (sum : Z) : result Z :=
  match vec with
  | [] => Ok sum
  | elem :: vec =>
      x ← aget row j;
      y ← chk16 (x * elem);
      sum ← chk16 (sum + y);
      dot (j + 1) row vec sum
  end.

Definition product_byte (m : Matrix) (vec : list Z) (i : Z) : result Z :=
  row1 ← aget m (2 * i); sum1 ← dot 0 row1 vec 0;
  row2 ← aget m (2 * i + 1); sum2 ← dot 0 row2 vec 0;
  Ok (Z.lor (u8 (u16 (Z.shiftl (Z.shiftr sum1 10) 4))) (u8 (Z.shiftr sum2 10))).

Definition heavy_hash (m : Matrix) (hash : mem) : result mem :=
  let vec := nibbles hash in
  product ← mapM (product_byte m vec) (seqZ 0 32);
  let product := zip_with Z.lxor product hash in
  Ok (KHeavyHash_hash product).

(** ** [State] *)

Record State := mk_state { st_target : uint; st_pre_pow_hash : mem; st_timestamp : Z; st_matrix : Matrix; st_vm : mem -> option mem }.

Definition expect {A} (o : option A) : result A := match o with Some a => Ok a | None => Fault end.

Definition from_pre_pow (fuel : nat) (pre_pow_hash : mem) (timestamp bits : Z) : result State :=
  let target := from_compact_target_bits bits in
  matrix ← generate fuel pre_pow_hash;
  vm ← expect (RandomXVM pre_pow_hash);
  Ok (mk_state target pre_pow_hash timestamp matrix vm).

Definition State_new (fuel : nat) (header : Header.Header.Header) : result State :=
  let target := from_compact_target_bits (Header.Header.bits header) in
  let pre_pow_hash := Header.Header.hash_override_nonce_time blake2b header 0 0 in
  matrix ← generate fuel pre_pow_hash;
  vm ← expect (RandomXVM pre_pow_hash);
  Ok (mk_state target pre_pow_hash (Header.Header.timestamp header) matrix vm).

Definition calculate_pow (self : State) (nonce : Z) : result uint :=
  pow ← PowHash_new (st_pre_pow_hash self) (st_timestamp self);
  pow_hash ← finalize_with_nonce pow nonce;
  randomx_bytes ← expect (st_vm self pow_hash);
  randomx_hash ← from_slice randomx_bytes;
  hash ← heavy_hash (st_matrix self) randomx_hash;
  Ok (from_le_bytes 4 hash).

Definition check_pow (self : State) (nonce : Z) : result (bool * uint) :=
  pow ← calculate_pow self nonce;
  Ok (le pow (st_target self), pow).

Definition calc_level_from_pow (pow : uint) (max_block_level : Z) : Z :=
  let signed_block_level := max_block_level - bits pow in
  u8 (Z.max signed_block_level 0).

Definition calc_block_level_check_pow (fuel : nat) (header : Header.Header.Header) (max_block_level : Z) : result (Z * bool) :=
  match Header.Header.parents_by_level header with
  | [] => Ok (max_block_level, true)
  | _ =>
      state ← State_new fuel header;
      '(passed, pow) ← check_pow state (Header.Header.nonce header);
      Ok (calc_level_from_pow pow max_block_level, passed)
  end.

Definition calc_block_level (fuel : nat) (header : Header.Header.Header) (max_block_level : Z) : result Z :=
  '(block_level, _) ← calc_block_level_check_pow fuel header max_block_level;
  Ok block_level.

End Node.

End Pow.
