(* ===== verification/PowProofs.v ===== *)
(** * Theorems on the proof of work

    The two hashes are cSHAKE256 of NIST SP 800-185 over the sponge of FIPS 202; the
    product with the matrix is exact; what a block level and a check mean. *)
From Stdlib Require Import Ascii String ZArith Lia.
From stdpp Require Import base numbers list.
From S2P Require Import Prelude Memory Reciprocal Keccak Float64 Json Uint UintProofs Target Header Pow.
Import Uint.Uint UintProofs.UintProofs Pow.Pow.
Open Scope list_scope.
Open Scope Z_scope.

Module PowProofs.

(** ** cSHAKE256 *)

(** SP 800-185, sections 2.3.1 to 2.3.3 and 3.3 *)
Definition left_encode (x : Z) : mem := let n := Z.log2 x / 8 + 1 in n :: rev (store_le n x).
Definition encode_string (s : mem) : mem := left_encode (8 * msize s) ++ s.
Definition bytepad (x : mem) (w : nat) : mem :=
  let z := left_encode (Z.of_nat w) ++ x in z ++ replicate ((w - length z mod w) mod w) 0.
Definition cshake256 (outlen : nat) (name custom msg : mem) : mem :=
  take outlen (Keccak.Keccak.sponge 17 0x04 (bytepad (encode_string name ++ encode_string custom) 136 ++ msg)).

Lemma pad_next n : Keccak.Keccak.pad 17 4 (136 + n) = Keccak.Keccak.pad 17 4 n.
Proof.
  unfold Keccak.Keccak.pad. rewrite (Nat.add_comm 136 n).
  change (n + 136)%nat with (n + 1 * (8 * 17))%nat. by rewrite Nat.Div0.mod_add.
Qed.

(** After a first block of 136 bytes, a message that leaves room for the padding. *)
Lemma sponge_second P A msg : length P = 136%nat -> (length msg < 136)%nat ->
  Keccak.Keccak.keccakf (Keccak.Keccak.xor_words (replicate 25 0) (Keccak.Keccak.words 17 P)) 24 = Ok A ->
  Keccak.Keccak.sponge 17 4 (P ++ msg) =
  Keccak.Keccak.state_bytes (Keccak.Keccak.fips_f (Keccak.Keccak.xor_words A
    (Keccak.Keccak.words 17 (msg ++ Keccak.Keccak.pad 17 4 (length msg))))).
Proof.
  intros HP Hm HA. rewrite Keccak.Keccak.keccakf_ok in HA
    by (rewrite Keccak.Keccak.length_xor_words; rewrite ?Keccak.Keccak.length_sponge_words; cbn; lia).
  injection HA as HA. rewrite (Keccak.Keccak.sponge_last 17) by lia. rewrite length_app, HP.
  replace ((136 + length msg) / (8 * 17))%nat with 1%nat by (apply (Nat.div_unique _ _ _ (length msg)); lia).
  change (8 * 17 * 1)%nat with 136%nat. rewrite <- HP at 1. rewrite drop_app_length.
  apply (f_equal2 (fun A w => Keccak.Keccak.state_bytes (Keccak.Keccak.fips_f (Keccak.Keccak.xor_words A w)))).
  - cbn [Keccak.Keccak.fips_absorb]. change (8 * 17)%nat with 136%nat. rewrite <- HP at 1. by rewrite take_app_length.
  - by rewrite pad_next.
Qed.

Lemma take_state_bytes k : forall st, take (8 * k) (Keccak.Keccak.state_bytes st) = Keccak.Keccak.state_bytes (take k st).
Proof.
  induction k as [|k IH]; intros st; [done|]. destruct st as [|x st]; [apply take_nil|].
  unfold Keccak.Keccak.state_bytes in *. cbn [take fmap list_fmap].
  change (mjoin (store_le 8 x :: ?l)) with (store_le 8 x ++ mjoin l).
  rewrite take_app_ge by (rewrite length_store_le; lia). f_equal. rewrite length_store_le by lia. rewrite <- IH. f_equal. lia.
Qed.

(** The permutation that is linked is the one of FIPS 202. *)
Definition permutation_ok (f1600 : list Z -> list Z) : Prop :=
  forall st, length st = 25%nat -> f1600 st = Keccak.Keccak.fips_f st.

Lemma words_store x n bs : is_u64 x -> Keccak.Keccak.words (S n) (store_le 8 x ++ bs) = x :: Keccak.Keccak.words n bs.
Proof.
  intros Hx. change (S n) with (1 + n)%nat. rewrite Keccak.Keccak.words_app by (rewrite length_store_le; lia).
  cbn [Keccak.Keccak.words app]. rewrite take_ge by (rewrite length_store_le; lia). rewrite load_store_le, Z.mod_small; [done| |lia].
  exact Hx.
Qed.

Lemma words_chunks8 n : forall bs, Keccak.Keccak.words n bs = load_le <$> chunks8 n bs.
Proof. induction n as [|n IH]; intros bs; [done|]. cbn [Keccak.Keccak.words chunks8 fmap list_fmap]. by rewrite IH. Qed.

Lemma words_hash h n bs : length h = 32%nat -> Keccak.Keccak.words (4 + n) (h ++ bs) = to_le_u64 h ++ Keccak.Keccak.words n bs.
Proof. intros Hh. rewrite Keccak.Keccak.words_app by lia. unfold to_le_u64. by rewrite words_chunks8. Qed.

Lemma xor_lane_ok st (i : nat) x : (i < length st)%nat -> xor_lane st (Z.of_nat i) x = Ok (alter (fun s => Z.lxor s x) i st).
Proof.
  intros Hi. unfold xor_lane. destruct (aget_total st (Z.of_nat i)) as (s & -> & Hs); [lia|].
  rewrite ok_bind, aset_ok by lia. rewrite Nat2Z.id in *. f_equal. apply list_eq. intros k.
  destruct (decide (k = i)) as [->|Hk].
  - by rewrite list_lookup_insert_eq, list_lookup_alter_eq, Hs.
  - by rewrite list_lookup_insert_ne, list_lookup_alter_ne.
Qed.

Definition pow_message (hash : mem) (timestamp nonce : Z) : mem :=
  hash ++ store_le 8 timestamp ++ replicate 32 0 ++ store_le 8 nonce.

Lemma pow_hash_ok f1600 hash ts n : permutation_ok f1600 -> length hash = 32%nat -> is_u64 ts -> is_u64 n ->
  (h ← PowHash_new hash ts; finalize_with_nonce f1600 h n) =
  Ok (cshake256 32 [] (Json.Json.lit "ProofOfWorkHash") (pow_message hash ts n)).
Proof.
  intros Hf Hh Ht Hn. unfold cshake256.
  assert (length (pow_message hash ts n) = 80%nat) as Hl.
  { unfold pow_message. rewrite !length_app, !length_store_le, length_replicate by lia. rewrite Hh. done. }
  erewrite sponge_second; [|reflexivity|rewrite Hl; lia|vm_compute; reflexivity]. rewrite Hl.
  change 32%nat with (8 * 4)%nat at 1. rewrite take_state_bytes.
  unfold pow_message. rewrite <- !app_assoc. rewrite (words_hash hash 13) by done. rewrite words_store by done.
  change (Keccak.Keccak.words 12 (replicate 32 0 ++ ?l)) with (Keccak.Keccak.words (4 + 8) (replicate 32 0 ++ l)).
  rewrite (words_hash (replicate 32 0) 8) by reflexivity. rewrite words_store by done.
  destruct (to_le_u64 hash) as [|w0 [|w1 [|w2 [|w3 [|w4 ws]]]]] eqn:Ew; try (apply (f_equal length) in Ew; done).
  unfold PowHash_new, finalize_with_nonce. rewrite Ew. cbn [xor_zip PowHash_INITIAL_STATE].
  change 4 with (Z.of_nat 4) at 1. rewrite xor_lane_ok by (cbn; lia). rewrite ok_bind.
  change 9 with (Z.of_nat 9) at 1. rewrite xor_lane_ok by (cbn; lia). rewrite ok_bind. cbn [alter list_alter].
  rewrite Hf by reflexivity. apply (f_equal (fun st => Ok (from_le_u64 (take 4 (Keccak.Keccak.fips_f st))))). reflexivity.
Qed.

Lemma khash_ok f1600 x : permutation_ok f1600 -> length x = 32%nat ->
  KHeavyHash_hash f1600 x = cshake256 32 [] (Json.Json.lit "HeavyHash") x.
Proof.
  intros Hf Hx. unfold cshake256, KHeavyHash_hash.
  erewrite sponge_second; [|reflexivity|rewrite Hx; lia|vm_compute; reflexivity]. rewrite Hx.
  change 32%nat with (8 * 4)%nat at 1. rewrite take_state_bytes. rewrite (words_hash x 13) by done.
  destruct (to_le_u64 x) as [|w0 [|w1 [|w2 [|w3 [|w4 ws]]]]] eqn:Ew; try (apply (f_equal length) in Ew; done).
  rewrite Hf by reflexivity. apply (f_equal (fun st => from_le_u64 (take 4 (Keccak.Keccak.fips_f st)))). reflexivity.
Qed.

(** ** The product with the matrix *)

Definition nibble (x : Z) : Prop := 0 <= x < 16.
Definition matrix_ok (m : Matrix) : Prop := length m = 64%nat /\ Forall (fun row => length row = 64%nat /\ Forall nibble row) m.

Definition sum (row vec : list Z) : Z := foldr Z.add 0 (zip_with Z.mul row vec).

(** A byte of the product: the top four bits of two sums of 14 bits *)
Definition product (m : Matrix) (vec : list Z) (i : nat) : Z :=
  16 * (sum (m !!! (2 * i)%nat) vec / 1024) + sum (m !!! (2 * i + 1)%nat) vec / 1024.

Lemma sum_bound row : forall vec, Forall nibble row -> Forall nibble vec -> length row = length vec ->
  0 <= sum row vec <= 225 * Z.of_nat (length vec).
Proof.
  induction row as [|x row IH]; intros [|y vec] Hr Hv Hl; try done. apply Forall_cons in Hr as [Hx Hr]. apply Forall_cons in Hv as [Hy Hv].
  cbn in Hl. specialize (IH vec Hr Hv ltac:(lia)). unfold sum in *. cbn [zip_with foldr length]. unfold nibble in *. nia.
Qed.

Lemma dot_ok vec : forall pre row acc, Forall nibble row -> Forall nibble vec -> length row = length vec ->
  0 <= acc -> acc + 225 * Z.of_nat (length vec) < 2 ^ 16 ->
  dot (Z.of_nat (length pre)) (pre ++ row) vec acc = Ok (acc + sum row vec).
Proof.
  induction vec as [|y vec IH]; intros pre [|x row] acc Hr Hv Hl Ha Hb; try done.
  { cbn. f_equal. lia. }
  apply Forall_cons in Hr as [Hx Hr]. apply Forall_cons in Hv as [Hy Hv]. cbn [length] in Hl, Hb. unfold nibble in Hx, Hy. cbn [dot].
  destruct (aget_total (pre ++ x :: row) (Z.of_nat (length pre))) as (x' & -> & Hx'); [rewrite length_app; cbn [length]; lia|].
  rewrite Nat2Z.id, list_lookup_middle in Hx' by done. injection Hx' as <-.
  assert (0 <= x * y <= 225) by nia. rewrite ok_bind. unfold chk16. rewrite (proj2 (Z.ltb_lt (x * y) _)), ok_bind by lia.
  rewrite (proj2 (Z.ltb_lt (acc + x * y) _)), ok_bind by lia.
  specialize (IH (pre ++ [x]) row (acc + x * y) Hr Hv ltac:(lia) ltac:(lia) ltac:(lia)).
  rewrite length_app, <- app_assoc in IH. cbn [length app] in IH.
  replace (Z.of_nat (length pre) + 1) with (Z.of_nat (length pre + 1)) by lia. rewrite IH. f_equal. unfold sum. cbn [zip_with foldr]. lia.
Qed.

Lemma row_ok m i : matrix_ok m -> (i < 64)%nat -> aget m (Z.of_nat i) = Ok (m !!! i) /\ length (m !!! i) = 64%nat /\ Forall nibble (m !!! i).
Proof.
  intros [Hl Hm] Hi. destruct (aget_total m (Z.of_nat i)) as (row & -> & Hr); [lia|]. rewrite Nat2Z.id in Hr.
  rewrite (list_lookup_total_correct _ _ _ Hr). split; [done|]. by apply (Forall_lookup_1 _ _ _ _ Hm Hr).
Qed.

Lemma product_byte_ok m vec i : matrix_ok m -> Forall nibble vec -> length vec = 64%nat -> (i < 32)%nat ->
  product_byte m vec (Z.of_nat i) = Ok (product m vec i) /\ is_u8 (product m vec i).
Proof.
  intros Hm Hv Hl Hi. unfold product_byte, product.
  destruct (row_ok m (2 * i) Hm ltac:(lia)) as (E1 & L1 & N1). destruct (row_ok m (2 * i + 1) Hm ltac:(lia)) as (E2 & L2 & N2).
  replace (2 * Z.of_nat i) with (Z.of_nat (2 * i)) by lia. rewrite E1, ok_bind.
  pose proof (dot_ok vec [] (m !!! (2 * i)%nat) 0 N1 Hv ltac:(lia) ltac:(lia) ltac:(lia)) as D1. cbn [length app] in D1.
  change (Z.of_nat 0) with 0 in D1. rewrite D1, ok_bind.
  replace (Z.of_nat (2 * i) + 1) with (Z.of_nat (2 * i + 1)) by lia. rewrite E2, ok_bind.
  pose proof (dot_ok vec [] (m !!! (2 * i + 1)%nat) 0 N2 Hv ltac:(lia) ltac:(lia) ltac:(lia)) as D2. cbn [length app] in D2.
  change (Z.of_nat 0) with 0 in D2. rewrite D2, ok_bind. rewrite !Z.add_0_l.
  pose proof (sum_bound _ vec N1 Hv ltac:(lia)). pose proof (sum_bound _ vec N2 Hv ltac:(lia)).
  set (a := sum (m !!! (2 * i)%nat) vec) in *. set (b := sum (m !!! (2 * i + 1)%nat) vec) in *.
  rewrite !Z.shiftr_div_pow2, Z.shiftl_mul_pow2 by lia. change (2 ^ 10) with 1024. change (2 ^ 4) with 16.
  assert (0 <= a / 1024 < 16) as Ha by (split; [apply Z.div_pos; lia|apply Z.div_lt_upper_bound; lia]).
  assert (0 <= b / 1024 < 16) as Hb by (split; [apply Z.div_pos; lia|apply Z.div_lt_upper_bound; lia]).
  split; [|unfold is_u8; lia]. f_equal. unfold u8, u16.
  change 0xFFFF with (Z.ones 16). change 0xFF with (Z.ones 8). rewrite !Z.land_ones by lia.
  rewrite (Z.mod_small (a / 1024 * 16) (2 ^ 16)), (Z.mod_small (a / 1024 * 16)), (Z.mod_small (b / 1024)) by lia.
  rewrite Z.lor_comm. replace (a / 1024 * 16) with (Z.shiftl (a / 1024) 4) by (rewrite Z.shiftl_mul_pow2; lia).
  rewrite lor_shiftl_add by lia. lia.
Qed.

Lemma nibbles_ok hash : Forall is_u8 hash -> length (nibbles hash) = (2 * length hash)%nat /\ Forall nibble (nibbles hash).
Proof.
  unfold nibbles. induction 1 as [|x hash Hx Hh [IH1 IH2]]; [done|]. cbn [fmap list_fmap].
  change (mjoin ([?a; ?b] :: ?l)) with (a :: b :: mjoin l). cbn [length]. split; [lia|]. unfold is_u8 in Hx.
  constructor; [|constructor; [|done]]; unfold nibble.
  - rewrite Z.shiftr_div_pow2 by lia. change (2 ^ 4) with 16. split; [apply Z.div_pos; lia|apply Z.div_lt_upper_bound; lia].
  - change 0x0F with (Z.ones 4). rewrite Z.land_ones by lia. apply Z.mod_pos_bound. lia.
Qed.

(** The input of the last hash *)
Definition heavy_input (m : Matrix) (hash : mem) : mem := zip_with Z.lxor (product m (nibbles hash) <$> seq 0 32) hash.

Lemma seqZ_seq n : seqZ 0 (Z.of_nat n) = Z.of_nat <$> seq 0 n.
Proof. unfold seqZ. rewrite Nat2Z.id. apply list_fmap_ext. intros. lia. Qed.

Lemma heavy_hash_ok f1600 m hash : permutation_ok f1600 -> matrix_ok m -> Forall is_u8 hash -> length hash = 32%nat ->
  heavy_hash f1600 m hash = Ok (cshake256 32 [] (Json.Json.lit "HeavyHash") (heavy_input m hash)).
Proof.
  intros Hf Hm Hb Hl. destruct (nibbles_ok hash Hb) as [N1 N2]. unfold heavy_hash.
  change 32 with (Z.of_nat 32) at 1. rewrite seqZ_seq.
  rewrite (mapM_ok _ (fun z => product m (nibbles hash) (Z.to_nat z))).
  - rewrite ok_bind. rewrite <- list_fmap_compose. erewrite (list_fmap_ext _ (product m (nibbles hash)));
      [|intros ???; cbn; by rewrite Nat2Z.id]. fold (heavy_input m hash). f_equal. apply khash_ok; [done|].
    unfold heavy_input. rewrite length_zip_with, length_fmap, length_seq. lia.
  - apply Forall_fmap, Forall_seq. intros i Hi. cbn. rewrite Nat2Z.id. apply product_byte_ok; [done|done|lia|lia].
Qed.

(** ** Matrices *)

Lemma rand_row_ok n : forall j val g, length (rand_row n j val g).1 = n /\ Forall nibble (rand_row n j val g).1.
Proof.
  induction n as [|n IH]; intros j val g; [done|]. cbn [rand_row].
  destruct (if j mod 16 =? 0 then xoshiro_u64 g else (val, g)) as [val' g'].
  specialize (IH (j + 1) val' g'). destruct (rand_row n (j + 1) val' g') as [row g'']. cbn [fst length] in *. destruct IH as [IH1 IH2].
  split; [lia|]. constructor; [|done]. unfold nibble. change 0x0F with (Z.ones 4). rewrite Z.land_ones by lia. apply Z.mod_pos_bound. lia.
Qed.

Lemma rand_rows_ok n : forall g, length (rand_rows n g).1 = n /\ Forall (fun row => length row = 64%nat /\ Forall nibble row) (rand_rows n g).1.
Proof.
  induction n as [|n IH]; intros g; [done|]. cbn [rand_rows]. pose proof (rand_row_ok 64 0 0 g) as Hr.
  destruct (rand_row 64 0 0 g) as [row g']. specialize (IH g'). destruct (rand_rows n g') as [rows g'']. cbn [fst length] in *.
  destruct IH as [IH1 IH2]. split; [lia|]. by constructor.
Qed.

Lemma rand_matrix_ok g : matrix_ok (rand_matrix_no_rank_check g).1.
Proof. apply rand_rows_ok. Qed.

Definition square (m : list (list Z)) : Prop := length m = 64%nat /\ Forall (fun row => length row = 64%nat) m.

Lemma at2_total m i j : square m -> 0 <= i < 64 -> 0 <= j < 64 -> exists x, at2 m i j = Ok x.
Proof.
  intros [Hl Hm] Hi Hj. unfold at2. destruct (aget_total m i) as (row & -> & Hr); [lia|]. rewrite ok_bind.
  pose proof (Forall_lookup_1 _ _ _ _ Hm Hr) as Hw. cbn in Hw. destruct (aget_total row j) as (x & -> & _); [lia|]. by eexists.
Qed.

Lemma set2_total m i j x : square m -> 0 <= i < 64 -> 0 <= j < 64 -> exists m', set2 m i j x = Ok m' /\ square m'.
Proof.
  intros [Hl Hm] Hi Hj. unfold set2. destruct (aget_total m i) as (row & -> & Hr); [lia|]. rewrite ok_bind.
  pose proof (Forall_lookup_1 _ _ _ _ Hm Hr) as Hw. cbn in Hw. rewrite aset_ok, ok_bind by lia. rewrite aset_ok by lia.
  eexists. split; [done|]. split; [by rewrite length_insert|]. apply Forall_insert; [done|]. by rewrite length_insert.
Qed.

Lemma find_row_total n : forall j i sel m, square m -> length sel = 64%nat -> 0 <= i < 64 -> 0 <= j -> j + Z.of_nat n = 64 ->
  exists r, find_row n j i sel m = Ok r /\ j <= r <= 64.
Proof.
  induction n as [|n IH]; intros j i sel m Hm Hs Hi Hj Hn; cbn [find_row]; [exists j; split; [done|lia]|].
  destruct (aget_total sel j) as (s & -> & _); [lia|]. rewrite ok_bind.
  assert (exists hit, (if negb s then x ← at2 m j i; Ok (significant x) else Ok false) = Ok hit) as [hit ->].
  { destruct s; [by eexists|]. destruct (at2_total m j i Hm) as [x ->]; [lia|lia|]. by eexists. }
  rewrite ok_bind. destruct hit; [exists j; split; [done|lia]|].
  destruct (IH (j + 1) i sel m) as (r & -> & Hr); [done|done|lia|lia|lia|]. exists r. split; [done|lia].
Qed.

Lemma divide_row_total n : forall p j i m, square m -> 0 <= j < 64 -> 0 <= i < 64 -> 0 <= p -> p + Z.of_nat n <= 64 ->
  exists m', divide_row n p j i m = Ok m' /\ square m'.
Proof.
  induction n as [|n IH]; intros p j i m Hm Hj Hi Hp Hn; cbn [divide_row]; [by exists m|].
  destruct (at2_total m j p Hm) as [x ->]; [lia|lia|]. rewrite ok_bind.
  destruct (at2_total m j i Hm) as [y ->]; [lia|lia|]. rewrite ok_bind.
  edestruct (set2_total m j p) as (m' & -> & Hm'); [done|lia|lia|]. rewrite ok_bind. apply IH; [done|lia..].
Qed.

Lemma subtract_row_total n : forall p k j i m, square m -> 0 <= k < 64 -> 0 <= j < 64 -> 0 <= i < 64 -> 0 <= p -> p + Z.of_nat n <= 64 ->
  exists m', subtract_row n p k j i m = Ok m' /\ square m'.
Proof.
  induction n as [|n IH]; intros p k j i m Hm Hk Hj Hi Hp Hn; cbn [subtract_row]; [by exists m|].
  destruct (at2_total m k p Hm) as [x ->]; [lia|lia|]. rewrite ok_bind.
  destruct (at2_total m j p Hm) as [y ->]; [lia|lia|]. rewrite ok_bind.
  destruct (at2_total m k i Hm) as [z ->]; [lia|lia|]. rewrite ok_bind.
  edestruct (set2_total m k p) as (m' & -> & Hm'); [done|lia|lia|]. rewrite ok_bind. apply IH; [done|lia..].
Qed.

Lemma eliminate_total n : forall k j i m, square m -> 0 <= j < 64 -> 0 <= i < 64 -> 0 <= k -> k + Z.of_nat n = 64 ->
  exists m', eliminate n k j i m = Ok m' /\ square m'.
Proof.
  induction n as [|n IH]; intros k j i m Hm Hj Hi Hk Hn; cbn [eliminate]; [by exists m|].
  assert (exists hit, (if negb (k =? j) then x ← at2 m k i; Ok (significant x) else Ok false) = Ok hit) as [hit ->].
  { destruct (k =? j); [by eexists|]. destruct (at2_total m k i Hm) as [x ->]; [lia|lia|]. by eexists. }
  rewrite ok_bind.
  assert (exists m', (if hit then subtract_row (Z.to_nat (63 - i)) (i + 1) k j i m else Ok m) = Ok m' /\ square m') as (m' & -> & Hm').
  { destruct hit; [|by exists m]. apply subtract_row_total; [done|lia..]. }
  rewrite ok_bind. apply IH; [done|lia..].
Qed.

Lemma rank_loop_total n : forall i rank sel m, square m -> length sel = 64%nat -> 0 <= i -> i + Z.of_nat n = 64 -> 0 <= rank ->
  exists r, rank_loop n i rank sel m = Ok r /\ rank <= r <= rank + Z.of_nat n.
Proof.
  induction n as [|n IH]; intros i rank sel m Hm Hs Hi Hn H0; cbn [rank_loop]; [exists rank; split; [done|lia]|].
  destruct (find_row_total 64 0 i sel m) as (j & -> & Hj); [done|done|lia..|]. rewrite ok_bind.
  destruct (Z.eqb_spec j 64) as [|Hne]; cbn [negb].
  - destruct (IH (i + 1) rank sel m) as (r & -> & Hr); [done|done|lia..|]. exists r. split; [done|lia].
  - rewrite aset_ok, ok_bind by lia.
    destruct (divide_row_total (Z.to_nat (63 - i)) (i + 1) j i m) as (m1 & -> & H1); [done|lia..|]. rewrite ok_bind.
    destruct (eliminate_total 64 0 j i m1) as (m2 & -> & H2); [done|lia..|]. rewrite ok_bind.
    destruct (IH (i + 1) (rank + 1) (<[Z.to_nat j := true]> sel) m2) as (r & -> & Hr); [done|by rewrite length_insert|lia..|].
    exists r. split; [done|lia].
Qed.

Lemma compute_rank_total m : matrix_ok m -> exists r, compute_rank m = Ok r /\ 0 <= r <= 64.
Proof.
  intros [Hl Hm]. destruct (rank_loop_total 64 0 0 (replicate 64 false) (convert_to_float m)) as (r & E & Hr); [|done|lia..|].
  - unfold convert_to_float. split; [by rewrite length_fmap|]. apply Forall_fmap. apply (Forall_impl _ _ _ Hm).
    intros row [Hrow _]. cbn. by rewrite length_fmap.
  - exists r. split; [exact E|lia].
Qed.

(** What a generator gives at its k-th use *)
Section Stream.
Context {G A : Type} (next : G -> A * G).

Fixpoint nth_of (k : nat) (g : G) : A :=
  match k with
  | O => (next g).1
  | S k => nth_of k (next g).2
  end.

Lemma nth_of_all (P : A -> Prop) : (forall g, P (next g).1) -> forall k g, P (nth_of k g).
Proof. intros HP k. induction k as [|k IH]; intros g; [apply HP|apply IH]. Qed.

Lemma nth_of_next g a g' : next g = (a, g') -> nth_of 0 g = a /\ forall k, nth_of (S k) g = nth_of k g'.
Proof. intros E. cbn. by rewrite E. Qed.

End Stream.

(** The matrices that are tried, in their order *)
Abbreviation candidate := (nth_of rand_matrix_no_rank_check).

Lemma generate_loop_ok fuel : forall g,
  match generate_loop fuel g with
  | Ok m => exists k, (k < fuel)%nat /\ m = candidate k g /\ compute_rank m = Ok 64 /\
              forall j, (j < k)%nat -> exists r, compute_rank (candidate j g) = Ok r /\ r < 64
  | Fault => False
  | OutOfFuel => forall j, (j < fuel)%nat -> exists r, compute_rank (candidate j g) = Ok r /\ r < 64
  end.
Proof.
  induction fuel as [|fuel IH]; intros g; cbn [generate_loop]; [intros j Hj; lia|].
  pose proof (rand_matrix_ok g) as Hm. destruct (rand_matrix_no_rank_check g) as [mat g'] eqn:Eg. cbn [fst] in Hm.
  destruct (compute_rank_total mat Hm) as (r & Er & Hr). rewrite Er, ok_bind.
  destruct (nth_of_next _ _ _ _ Eg) as [E0 ES].
  destruct (Z.eqb_spec r 64) as [->|Hne].
  - exists 0%nat. split; [lia|]. split; [done|]. split; [done|]. intros j Hj. lia.
  - specialize (IH g'). destruct (generate_loop fuel g') as [m| |]; [|done|].
    + destruct IH as (k & Hk & -> & H64 & Hall). exists (S k). rewrite ES. split; [lia|]. split; [done|]. split; [done|].
      intros [|j] Hj; [rewrite E0; exists r; split; [done|lia]|]. rewrite ES. apply Hall. lia.
    + intros [|j] Hj; [rewrite E0; exists r; split; [done|lia]|]. rewrite ES. apply IH. lia.
Qed.

(** ** The proof of work of a header *)

Lemma length_from_le_u64 l : length (from_le_u64 l) = (8 * length l)%nat /\ Forall is_u8 (from_le_u64 l).
Proof.
  unfold from_le_u64. induction l as [|x l [IH1 IH2]]; [done|]. cbn [fmap list_fmap].
  change (mjoin (store_le 8 x :: ?l)) with (store_le 8 x ++ mjoin l). rewrite length_app, length_store_le, IH1 by lia. cbn [length].
  split; [lia|]. apply Forall_app. split; [apply store_le_bytes; lia|done].
Qed.

Lemma heavy_input_length m hash : length hash = 32%nat -> length (heavy_input m hash) = 32%nat.
Proof. intros Hl. unfold heavy_input. rewrite length_zip_with, length_fmap, length_seq. lia. Qed.

Lemma cshake_heavy x : length x = 32%nat ->
  length (cshake256 32 [] (Json.Json.lit "HeavyHash") x) = 32%nat /\ Forall is_u8 (cshake256 32 [] (Json.Json.lit "HeavyHash") x).
Proof.
  intros Hx. rewrite <- (khash_ok Keccak.Keccak.fips_f) by done. unfold KHeavyHash_hash.
  set (st := xor_zip _ _). assert (length st = 25%nat) as Hs.
  { unfold st. destruct (to_le_u64 x) as [|w0 [|w1 [|w2 [|w3 [|w4 ws]]]]] eqn:Ew; apply (f_equal length) in Ew; done. }
  pose proof (Keccak.Keccak.length_fips_f st Hs) as Hf. destruct (length_from_le_u64 (take 4 (Keccak.Keccak.fips_f st))) as [H1 H2].
  split; [|done]. rewrite H1, length_take, Hf. done.
Qed.

Definition node_pow (m : Matrix) (rx : mem -> mem) (hash : mem) (ts n : Z) : mem :=
  cshake256 32 [] (Json.Json.lit "HeavyHash")
    (heavy_input m (rx (cshake256 32 [] (Json.Json.lit "ProofOfWorkHash") (pow_message hash ts n)))).

(** A virtual machine that computes [rx], whose hashes have 32 bytes *)
Definition vm_ok (vm : mem -> option mem) (rx : mem -> mem) : Prop :=
  forall x, vm x = Some (rx x) /\ length (rx x) = 32%nat /\ Forall is_u8 (rx x).

Lemma calculate_pow_ok f1600 self rx n : permutation_ok f1600 -> length (st_pre_pow_hash self) = 32%nat -> is_u64 (st_timestamp self) ->
  is_u64 n -> matrix_ok (st_matrix self) -> vm_ok (st_vm self) rx ->
  exists pow, calculate_pow f1600 self n = Ok pow /\ words pow /\ length pow = 4%nat /\
    val pow = load_le (node_pow (st_matrix self) rx (st_pre_pow_hash self) (st_timestamp self) n).
Proof.
  intros Hf Hh Ht Hn Hm Hv. pose proof (pow_hash_ok f1600 (st_pre_pow_hash self) (st_timestamp self) n Hf Hh Ht Hn) as E.
  apply bind_Ok in E as (st & E1 & E2). unfold calculate_pow. rewrite E1, ok_bind, E2, ok_bind.
  set (x := cshake256 _ _ _ _). destruct (Hv x) as (-> & Hl & Hb). cbn [expect]. rewrite ok_bind. unfold from_slice, msize.
  rewrite Hl. change (Z.of_nat 32 =? HASH_SIZE) with true. cbn [mbind result_bind]. rewrite heavy_hash_ok by done. rewrite ok_bind.
  destruct (cshake_heavy (heavy_input (st_matrix self) (rx x)) (heavy_input_length _ _ Hl)) as [C1 C2].
  destruct (from_le_bytes_ok 4 _ C1 C2) as (W & L & V & _). eexists. split; [reflexivity|]. split; [exact W|]. split; [exact L|exact V].
Qed.

Lemma level_ok pow max : words pow -> length pow = 4%nat -> 0 <= max < 256 ->
  0 <= calc_level_from_pow pow max <= max /\
  forall l, 0 < l <= max -> (l <= calc_level_from_pow pow max <-> val pow < 2 ^ (max - l)).
Proof.
  intros Hw Hl Hm. pose proof (val_bound pow Hw) as Hv. unfold calc_level_from_pow.
  assert (0 <= bits pow /\ forall k, 0 <= k -> (bits pow <= k <-> val pow < 2 ^ k)) as [Hb Hk].
  { rewrite bits_ok by done. destruct (Z.eqb_spec (val pow) 0) as [->|Hne].
    - split; [lia|]. intros k Hk. pose proof (Z.pow_pos_nonneg 2 k ltac:(lia) Hk). lia.
    - split; [pose proof (Z.log2_nonneg (val pow)); lia|]. intros k Hk. pose proof (Z.log2_lt_pow2 (val pow) k ltac:(lia)). lia. }
  unfold u8. change 0xFF with (Z.ones 8). rewrite Z.land_ones, Z.mod_small by lia. split; [lia|].
  intros l Hll. rewrite <- Hk by lia. lia.
Qed.

(** ** Claims *)

(** The two hashes of the proof of work, which start from a stored state, are
    cSHAKE256 with the customizations ProofOfWorkHash, over hash, time, 32 zeros and
    nonce, and HeavyHash; the product with the matrix never overflows its 16 bits, and
    each byte it gives is made of the top four bits of two exact sums of products. *)
Theorem pow_hashes_correct f1600 hash ts n m : permutation_ok f1600 -> length hash = 32%nat -> Forall is_u8 hash -> is_u64 ts -> is_u64 n ->
  matrix_ok m ->
  (h ← PowHash_new hash ts; finalize_with_nonce f1600 h n) =
    Ok (cshake256 32 [] (Json.Json.lit "ProofOfWorkHash") (pow_message hash ts n)) /\
  KHeavyHash_hash f1600 hash = cshake256 32 [] (Json.Json.lit "HeavyHash") hash /\
  heavy_hash f1600 m hash = Ok (cshake256 32 [] (Json.Json.lit "HeavyHash") (heavy_input m hash)).
Proof.
  intros Hf Hl Hb Ht Hn Hm. split; [by apply pow_hash_ok|]. split; [by apply khash_ok|by apply heavy_hash_ok].
Qed.

Definition first_of_rank (hash : mem) (m : Matrix) (k : nat) : Prop :=
  m = candidate k (xoshiro_new hash) /\ matrix_ok m /\ compute_rank m = Ok 64 /\
  forall j, (j < k)%nat -> exists r, compute_rank (candidate j (xoshiro_new hash)) = Ok r /\ r < 64.

Lemma generate_ok fuel hash :
  match generate fuel hash with
  | Ok m => exists k, (k < fuel)%nat /\ first_of_rank hash m k
  | Fault => False
  | OutOfFuel => forall j, (j < fuel)%nat -> exists r, compute_rank (candidate j (xoshiro_new hash)) = Ok r /\ r < 64
  end.
Proof.
  unfold generate. pose proof (generate_loop_ok fuel (xoshiro_new hash)) as H. destruct (generate_loop _ _) as [m| |]; [|done|done].
  destruct H as (k & Hk & E & H64 & Hall). exists k. split; [done|]. split; [done|]. split; [|done].
  rewrite E. apply nth_of_all. apply rand_matrix_ok.
Qed.

(** C20: in a release build, where debug assertions are off, the check of a header
    never panics.  A block without parents passes with the highest level, whatever its
    other fields.  Any other has the proof of work of its time and nonce, with the
    first matrix of rank 64 that the generator gives for the hash of the header without
    them; it passes exactly if that number is not above the target of its bits, and
    reaches a level l exactly if the number has at most max - l bits. *)
Theorem node_check_correct f1600 blake2b RandomXVM vm rx fuel header max :
  permutation_ok f1600 -> (forall k x, length (blake2b k x) = 32%nat) -> (forall key, RandomXVM key = Some (vm key) /\ vm_ok (vm key) (rx key)) ->
  is_u64 (Header.Header.timestamp header) -> is_u64 (Header.Header.nonce header) -> is_u32 (Header.Header.bits header) -> 0 <= max < 256 ->
  let hash := Header.Header.hash_override_nonce_time blake2b header 0 0 in
  (Header.Header.parents_by_level header = [] -> calc_block_level_check_pow f1600 blake2b RandomXVM fuel header max = Ok (max, true)) /\
  (Header.Header.parents_by_level header <> [] ->
   match calc_block_level_check_pow f1600 blake2b RandomXVM fuel header max with
   | Ok (level, passed) =>
       exists m k, first_of_rank hash m k /\
         let pow := load_le (node_pow m (rx hash) hash (Header.Header.timestamp header) (Header.Header.nonce header)) in
         passed = (pow <=? val (from_compact_target_bits (Header.Header.bits header))) /\
         0 <= level <= max /\ forall l, 0 < l <= max -> (l <= level <-> pow < 2 ^ (max - l))
   | Fault => False
   | OutOfFuel => forall j, (j < fuel)%nat -> exists r, compute_rank (candidate j (xoshiro_new hash)) = Ok r /\ r < 64
   end).
Proof.
  intros Hf Hb Hx Ht Hn Hbits Hmax hash. split; [intros Hp; unfold calc_block_level_check_pow; by rewrite Hp|]. intros Hp. unfold calc_block_level_check_pow.
  destruct (Header.Header.parents_by_level header) as [|p ps]; [done|]. unfold State_new. fold hash.
  pose proof (generate_ok fuel hash) as Hg. destruct (generate fuel hash) as [m| |]; [|done|exact Hg].
  destruct Hg as (k & _ & Hk). destruct (Hx hash) as [-> Hv]. cbn [mbind result_bind expect].
  set (st := mk_state _ _ _ _ _).
  destruct (calculate_pow_ok f1600 st (rx hash) (Header.Header.nonce header)) as (pow & E & W & L & V); [done|apply Hb|done|done|apply Hk|done|].
  unfold check_pow. rewrite E, !ok_bind. destruct (level_ok pow max W L Hmax) as [L1 L2]. exists m, k. split; [exact Hk|]. cbn zeta.
  destruct (Target.Target.from_compact_ok (Header.Header.bits header) Hbits) as (W' & L' & _).
  unfold st in V. cbn [st_matrix st_pre_pow_hash st_timestamp] in V. rewrite <- V. split; [|by split]. apply le_ok; [congruence|done|done].
Qed.

(** ** Witnesses *)

Lemma fips_permutation : permutation_ok Keccak.Keccak.fips_f.
Proof. intros st _. reflexivity. Qed.

Definition some_matrix : Matrix := (fun i => (fun j => (i * j + i) mod 16) <$> seqZ 0 64) <$> seqZ 0 64.

Lemma some_matrix_ok : matrix_ok some_matrix.
Proof.
  split; [reflexivity|]. apply Forall_fmap, Forall_true. intros i. cbn. split; [reflexivity|].
  apply Forall_fmap, Forall_true. intros j. cbn. apply Z.mod_pos_bound. lia.
Qed.

Lemma some_bytes n x : is_u8 x -> Forall is_u8 (replicate n x).
Proof. intros H. by apply Forall_replicate. Qed.

Lemma pow_hashes_correct_witness :
  (h ← PowHash_new (replicate 32 42) 5435345234; finalize_with_nonce Keccak.Keccak.fips_f h 432432432) =
    Ok (cshake256 32 [] (Json.Json.lit "ProofOfWorkHash") (pow_message (replicate 32 42) 5435345234 432432432)) /\
  heavy_hash Keccak.Keccak.fips_f some_matrix (replicate 32 42) =
    Ok (cshake256 32 [] (Json.Json.lit "HeavyHash") (heavy_input some_matrix (replicate 32 42))).
Proof.
  destruct (pow_hashes_correct Keccak.Keccak.fips_f (replicate 32 42) 5435345234 432432432 some_matrix fips_permutation eq_refl
    (some_bytes 32 42 ltac:(unfold is_u8; lia)) ltac:(unfold is_u64; lia) ltac:(unfold is_u64; lia) some_matrix_ok) as (H1 & _ & H2).
  split; [exact H1|exact H2].
Defined.

(** With a RandomX that gives the same hash for every input. *)
Lemma node_check_correct_witness :
  match calc_block_level_check_pow Keccak.Keccak.fips_f (fun _ _ => replicate 32 9) (fun _ => Some (fun _ => Some (replicate 32 7))) 3
    (Header.Header.some_header 5) 225 with
  | Ok (level, _) => 0 <= level <= 225
  | Fault => False
  | OutOfFuel => True
  end.
Proof.
  pose proof (node_check_correct Keccak.Keccak.fips_f (fun _ _ => replicate 32 9) (fun _ => Some (fun _ => Some (replicate 32 7)))
    (fun _ _ => Some (replicate 32 7)) (fun _ _ => replicate 32 7) 3 (Header.Header.some_header 5) 225 fips_permutation
    (fun _ _ => eq_refl) (fun _ => conj eq_refl (fun _ => conj eq_refl (conj eq_refl (some_bytes 32 7 ltac:(unfold is_u8; lia)))))
    ltac:(unfold is_u64; cbn; lia) ltac:(unfold is_u64; cbn; lia) ltac:(unfold is_u32; cbn; lia) ltac:(lia)) as H.
  cbn zeta in H. revert H. generalize (calc_block_level_check_pow Keccak.Keccak.fips_f (fun _ _ => replicate 32 9)
    (fun _ => Some (fun _ => Some (replicate 32 7))) 3 (Header.Header.some_header 5) 225).
  intros r [_ H]. specialize (H ltac:(discriminate)). destruct r as [[level passed]| |]; [|exact H|exact I]. destruct H as (m & k & _ & _ & H & _). exact H.
Defined.

End PowProofs.
