(* ===== verification/Bridge.v ===== *)
(** * The stratum bridge (tools/xmrig-lmt/bridge/src/main.rs)

    A connection of a miner to the bridge: requests of the miner are answered, a block
    template of the node becomes a job, and a share becomes a block for the node.  The
    node behind its RPC client, the codec that splits lines, the readers and writers of
    serde_json and the hex writer of faster_hex are arguments; what a task waits for is
    an input. *)
From Stdlib Require Import Ascii String ZArith Lia.
From stdpp Require Import base numbers list.
From S2P Require Import Prelude Memory Json Url Uint Header.
Import Json.Json Uint.Uint.
Open Scope list_scope.
Open Scope Z_scope.

Module Bridge.

(** ** Numbers as text, of the standard library *)

(** [to_string] of a u64 *)
Definition to_string (n : Z) : mem := Url.Url.digits 20 n.

Definition hex_char (d : Z) : Z := if d <? 10 then 48 + d else 87 + d.
(** The last [n] digits of a number in base 16 *)
Fixpoint hex_digits (n : nat) (x : Z) : mem :=
  match n with O => [] | S n => hex_digits n (x / 16) ++ [hex_char (x mod 16)] end.
(** [format!("0x{:08x}", x)] of a u32 *)
Definition format_08x (x : Z) : mem := lit "0x" ++ hex_digits 8 x.

(** [char::to_digit] *)
Definition to_digit (radix c : Z) : option Z :=
  let d := if (48 <=? c) && (c <=? 57) then c - 48
           else if (97 <=? c) && (c <=? 122) then c - 87
           else if (65 <=? c) && (c <=? 90) then c - 55 else radix in
  if d <? radix then Some d else None.

(** Multiplication and addition are checked. *)
Fixpoint accumulate (radix : Z) (s : mem) (acc : Z) : option Z :=
  match s with
  | [] => Some acc
  | c :: s =>
      d ← to_digit radix c;
      if acc * radix + d <? 2 ^ 64 then accumulate radix s (acc * radix + d) else None
  end.

(** [u64::from_str_radix]; [parse::<u64>] is the one with radix 10. *)
Definition from_str_radix (radix : Z) (s : mem) : option Z :=
  match s with
  | [] => None
  | [43] | [45] => None
  | 43 :: s => accumulate radix s 0
  | _ => accumulate radix s 0
  end.

(** [trim_start_matches("0x")] takes away every repetition. *)
Fixpoint trim_start_0x (s : mem) : mem :=
  match s with
  | 48 :: 120 :: s' => trim_start_0x s'
  | _ => s
  end.

(** ** Data *)

Record RpcRawHeader := mk_raw_header {
  r_version : Z; r_parents_by_level : list (list mem); r_hash_merkle_root : mem; r_accepted_id_merkle_root : mem; r_utxo_commitment : mem;
  r_timestamp : Z; r_bits : Z; r_nonce : Z; r_daa_score : Z; r_blue_work : uint; r_blue_score : Z; r_pruning_point : mem }.

Definition with_nonce (n : Z) (h : RpcRawHeader) : RpcRawHeader :=
  mk_raw_header (r_version h) (r_parents_by_level h) (r_hash_merkle_root h) (r_accepted_id_merkle_root h) (r_utxo_commitment h)
    (r_timestamp h) (r_bits h) n (r_daa_score h) (r_blue_work h) (r_blue_score h) (r_pruning_point h).
Definition with_timestamp (t : Z) (h : RpcRawHeader) : RpcRawHeader :=
  mk_raw_header (r_version h) (r_parents_by_level h) (r_hash_merkle_root h) (r_accepted_id_merkle_root h) (r_utxo_commitment h)
    t (r_bits h) (r_nonce h) (r_daa_score h) (r_blue_work h) (r_blue_score h) (r_pruning_point h).

Record StratumRequest := mk_request { q_id : option Z; q_method : mem; q_params : option json }.
Record SubmitParams := mk_submit { s_job_id : Z; s_nonce : Z; s_timestamp : option Z }.

(** ** [parse_submit] *)

Definition as_array (v : json) : list json := match v with JArray l => l | _ => [] end.
Definition as_str (v : json) : option mem := match v with JString s => Some s | _ => None end.
Definition as_u64 (v : json) : option Z := match v with JNumber n => if isUint64 n then Some n else None | _ => None end.

Definition parse_submit (params : json) : option SubmitParams :=
  match as_array params with
  | _ :: p1 :: p2 :: rest =>
      job_id ← as_str p1 ≫= from_str_radix 10;
      nonce_str ← as_str p2;
      nonce ← from_str_radix 16 (trim_start_0x nonce_str);
      let timestamp := ts ← head rest ≫= as_u64; if 0 <? ts then Some ts else None in
      Some (mk_submit job_id nonce timestamp)
  | _ => None
  end.

Section Bridge.
Context {RpcTransaction : Type}.
Context (blake2b : mem -> mem -> mem) (to_hex : mem -> mem).
Context (from_str : mem -> option StratumRequest).
Context (allow_non_daa : bool).

Record RpcRawBlock := mk_block { b_header : RpcRawHeader; b_transactions : list RpcTransaction }.
Record Template := mk_template {
  t_job_id : Z; t_block : RpcRawBlock; t_pre_pow_hash_hex : mem; t_timestamp : Z; t_bits_hex : mem; t_target_hex : mem }.

Definition raw_header_to_header (h : RpcRawHeader) : Header.Header.Header :=
  Header.Header.new_finalized blake2b (r_version h) (r_parents_by_level h) (r_hash_merkle_root h) (r_accepted_id_merkle_root h)
    (r_utxo_commitment h) (r_timestamp h) (r_bits h) (r_nonce h) (r_daa_score h) (r_blue_work h) (r_blue_score h) (r_pruning_point h).

(** ** A connection *)

Record bridge := mk_bridge { template : option Template; job_counter : Z }.

(** What the task does: the line that serde_json writes for a value goes to the miner,
    a block to the node. *)
Inductive action := Send (v : json) | SubmitBlock (block : RpcRawBlock) (allow : bool).

(** The report of the node on a block; a rejected block is not an error of the call. *)
Inductive SubmitBlockRejectReason := BlockInvalid | IsInIBD | RouteIsFull.
Inductive SubmitBlockReport := Success | Reject (reason : SubmitBlockRejectReason).

(** What it finds while it handles one input: the template of the node, the result of
    submitting a block, [None] for an error of the call, and whether the miner still
    takes lines. *)
Record world := mk_world { get_block_template : option RpcRawBlock; submit_block : RpcRawBlock -> option SubmitBlockReport; sink_ok : bool }.

(** Actions so far, and a value with the state unless the task failed. *)
Definition B (A : Type) : Type := bridge -> list action * option (A * bridge).
#[export] Instance B_ret : MRet B := fun A a s => ([], Some (a, s)).
#[export] Instance B_bind : MBind B := fun A C f m s =>
  match m s with
  | (acts, Some (a, s)) => let '(acts', r) := f a s in (acts ++ acts', r)
  | (acts, None) => (acts, None)
  end.
Definition act (a : action) : B unit := fun s => ([a], Some (tt, s)).
Definition get {A} (f : bridge -> A) : B A := fun s => ([], Some (f s, s)).
Definition put (f : bridge -> bridge) : B unit := fun s => ([], Some (tt, f s)).
Definition is_ok {A} (o : option A) : bool := match o with Some _ => true | None => false end.
(** The operator [?] *)
Definition try {A} (o : option A) : B A := fun s => ([], (fun a => (a, s)) <$> o).

Section Step.
Context (w : world).

(** [sink.send(line).await?] *)
Definition send (v : json) : B unit := if sink_ok w then act (Send v) else try None.

Definition response (id : Z) (result : json) : json :=
  JObject [(lit "id", JNumber id); (lit "result", result); (lit "error", JNull)].

Definition send_response (id : option Z) (result : json) : B unit :=
  match id with
  | Some id => send (response id result)
  | None => mret tt
  end.

Definition build_notify_params (t : Template) : json :=
  JArray [JString (to_string (t_job_id t)); JString (t_pre_pow_hash_hex t); JNumber (t_timestamp t); JString (t_bits_hex t); JString (t_target_hex t)].

Definition notification (t : Template) : json :=
  JObject [(lit "method", JString (lit "mining.notify")); (lit "params", build_notify_params t)].

Definition send_notify (t : Template) : B unit := send (notification t).

Definition make_template (job_id : Z) (block : RpcRawBlock) : Template :=
  let header := raw_header_to_header (b_header block) in
  let pre_pow_hash := Header.Header.hash_override_nonce_time blake2b header 0 0 in
  let bits_hex := format_08x (r_bits (b_header block)) in
  let target := from_compact_target_bits (r_bits (b_header block)) in
  let target_le := to_le_bytes target in
  let target_hex := to_hex (chunk target_le 24 8) in
  mk_template job_id block (to_hex pre_pow_hash) (r_timestamp (b_header block)) bits_hex target_hex.

Definition fetch_template : B Template :=
  block ← try (get_block_template w);
  _ ← put (fun s => mk_bridge (template s) (u64 (job_counter s + 1)));
  job_id ← get job_counter;
  mret (make_template job_id block).

(** [fetch_template], [*template_state = Some(..)] and [send_notify] *)
Definition new_job : B unit :=
  t ← fetch_template;
  _ ← put (fun s => mk_bridge (Some t) (job_counter s));
  send_notify t.

Definition subscribe (req : StratumRequest) : B unit :=
  _ ← send_response (q_id req) (JObject [(lit "protocol", JString (lit "lmt-stratum/1.0"))]);
  t ← get template;
  match t with None => new_job | Some _ => mret tt end.

(** The block for a share: the template's, with nonce and time of the share *)
Definition share_block (t : Template) (submit : SubmitParams) : RpcRawBlock :=
  let h := with_nonce (s_nonce submit) (b_header (t_block t)) in
  let h := match s_timestamp submit with Some ts => with_timestamp ts h | None => h end in
  mk_block h (b_transactions (t_block t)).

Definition submit (req : StratumRequest) : B unit :=
  submit ← try (parse_submit (default JNull (q_params req)));
  t ← get template;
  match t with
  | None => send_response (q_id req) (JBool false)
  | Some t =>
      if negb (s_job_id submit =? t_job_id t) then send_response (q_id req) (JBool false)
      else
        let block := share_block t submit in
        _ ← act (SubmitBlock block allow_non_daa);
        let submit_res := submit_block w block in
        send_response (q_id req) (JBool (is_ok submit_res))
  end.

Definition handle_request (req : StratumRequest) : B unit :=
  if bool_decide (q_method req = lit "mining.subscribe") then subscribe req
  else if bool_decide (q_method req = lit "mining.authorize") then send_response (q_id req) (JBool true)
  else if bool_decide (q_method req = lit "mining.submit") then submit req
  else send_response (q_id req) JNull.

End Step.

(** What [select!] gives: the end of the stream, an error of it, a line, a tick. *)
Inductive input := EndOfStream | BadLine | Line (line : mem) | Tick.

(** One turn of the loop; the value says whether it goes on. *)
Definition turn (w : world) (i : input) : B bool :=
  match i with
  | EndOfStream => mret false
  | BadLine => try None
  | Line line =>
      match from_str line with
      | None => mret true
      | Some req => _ ← handle_request w req; mret true
      end
  | Tick => _ ← new_job w; mret true
  end.

(** [handle_client], for what comes; the value is false after the end of the stream. *)
Fixpoint handle_client (l : list (world * input)) : B bool :=
  match l with
  | [] => mret true
  | (w, i) :: l =>
      goes ← turn w i;
      if (goes : bool) then handle_client l else mret false
  end.

Definition start : bridge := mk_bridge None 0.

End Bridge.

End Bridge.
