(* ===== verification/BridgeProofs.v ===== *)
(** * Theorems on the bridge

    Jobs are numbered, blocks are those of the last job with the share's nonce and
    time, every request is answered as the protocol says; and what becomes of a job and
    of a share between bridge and miner. *)
From Stdlib Require Import Ascii String ZArith Lia.
From stdpp Require Import base numbers list.
From S2P Require Import Prelude Memory Cvt Json Url Uint Header Bridge.
Import Json.Json Uint.Uint Bridge.Bridge.
Open Scope list_scope.
Open Scope Z_scope.

Module BridgeProofs.

Section Trace.
Context {Tx : Type}.
Context (blake2b : mem -> mem -> mem) (to_hex : mem -> mem) (from_str : mem -> option StratumRequest) (allow_non_daa : bool).
Abbreviation make_template := (@make_template Tx blake2b to_hex).
Abbreviation action := (@action Tx).
Abbreviation bridge := (@bridge Tx).
Abbreviation world := (@world Tx).

(** The number of the job that an action announces: notifications have two members. *)
Definition job_of (a : action) : option json :=
  match a with
  | Send (JObject [_; (_, params)]) => head (as_array params)
  | _ => None
  end.
Definition jobs (tr : list action) : list json := omap job_of tr.
Definition numbered (n : nat) : list json := (fun k => JString (to_string (u64 k))) <$> seqZ 1 (Z.of_nat n).

Definition good (tr : list action) : Prop := jobs tr = numbered (length (jobs tr)).

Definition invariant (s : bridge) (tr : list action) : Prop :=
  good tr /\ job_counter s = u64 (Z.of_nat (length (jobs tr))) /\
  match template s with
  | None => jobs tr = []
  | Some t => t = make_template (job_counter s) (t_block t) /\
      exists pre post, tr = pre ++ Send (notification t) :: post /\ jobs post = []
  end.

(** From [P] the computation reaches [Q], or fails with a good trace. *)
Definition spec {A} (P : bridge -> list action -> Prop) (m : B A) (Q : A -> bridge -> list action -> Prop) : Prop :=
  forall s tr, P s tr ->
  match m s with
  | (acts, Some (a, s)) => Q a s (tr ++ acts)
  | (acts, None) => good (tr ++ acts)
  end.

Lemma spec_ret {A} (a : A) P : spec P (mret a) (fun _ => P).
Proof. intros s tr H. cbn. by rewrite app_nil_r. Qed.

Lemma spec_bind {A C} (m : B A) (f : A -> B C) P Q R :
  spec P m Q -> (forall a, spec (Q a) (f a) R) -> spec P (m ≫= f) R.
Proof.
  intros Hm Hf s tr HP. specialize (Hm s tr HP). unfold mbind, B_bind. destruct (m s) as [acts [[a s']|]]; [|done].
  specialize (Hf a s' (tr ++ acts) Hm). destruct (f a s') as [acts' [[c s'']|]]; by rewrite app_assoc.
Qed.

Lemma jobs_app a b : jobs (a ++ b) = jobs a ++ jobs b.
Proof. apply omap_app. Qed.

(** A reply changes nothing. *)
Lemma job_of_response id v : job_of (Send (response id v)) = None.
Proof. reflexivity. Qed.

Lemma good_reply tr id v : good tr -> good (tr ++ [Send (response id v)]).
Proof.
  unfold good. rewrite jobs_app. change (jobs [Send (response id v)]) with (@nil json).
  by rewrite app_nil_r.
Qed.

Lemma invariant_reply s tr id v : invariant s tr -> invariant s (tr ++ [Send (response id v)]).
Proof.
  intros (Hg & Hc & Ht). split; [by apply good_reply|]. rewrite jobs_app. change (jobs [Send (response id v)]) with (@nil json).
  rewrite app_nil_r. split; [done|]. destruct (template s) as [t|]; [|done]. destruct Ht as (Et & pre & post & -> & Hp).
  split; [done|]. exists pre, (post ++ [Send (response id v)]). rewrite <- app_assoc. split; [done|]. by rewrite jobs_app, Hp.
Qed.

Lemma send_response_spec w id v : spec invariant (send_response w id v) (fun _ => invariant).
Proof.
  intros s tr H. unfold send_response. destruct id as [id|]; [|cbn; by rewrite app_nil_r].
  unfold send. destruct (sink_ok w); cbn; [by apply invariant_reply|]. rewrite app_nil_r. apply H.
Qed.

Lemma numbered_S n : numbered (S n) = numbered n ++ [JString (to_string (u64 (Z.of_nat n + 1)))].
Proof. unfold numbered. rewrite seqZ_S, fmap_app. cbn. by rewrite Z.add_comm. Qed.

Lemma new_job_spec w : spec invariant (new_job blake2b to_hex w) (fun _ => invariant).
Proof.
  intros s tr (Hg & Hc & Ht). unfold new_job, fetch_template, mbind, B_bind, try, put, get, send_notify, send, mret, B_ret.
  destruct (get_block_template w) as [block|]; cbn [fmap option_fmap option_map template job_counter]; [|by rewrite app_nil_r].
  set (t := make_template _ block). destruct (sink_ok w); cbn [app act try fmap option_fmap option_map]; [|by rewrite app_nil_r].
  assert (jobs [Send (notification t)] = [JString (to_string (t_job_id t))]) as Hj by reflexivity.
  assert (t_job_id t = u64 (Z.of_nat (length (jobs tr)) + 1)) as Hi.
  { change (t_job_id t) with (u64 (job_counter s + 1)). rewrite Hc. unfold u64. change 0xFFFFFFFFFFFFFFFF with (Z.ones 64).
    rewrite !Z.land_ones by lia. by rewrite Zplus_mod_idemp_l. }
  assert (length (jobs (tr ++ [Send (notification t)])) = S (length (jobs tr))) as Hl.
  { rewrite jobs_app, Hj, length_app. cbn [length]. lia. }
  split.
  - unfold good. rewrite Hl, numbered_S, jobs_app, Hj, Hi. by rewrite <- Hg.
  - rewrite Hl. split; [cbn [job_counter]; change (u64 (job_counter s + 1)) with (t_job_id t); rewrite Hi; f_equal; lia|].
    cbn [template]. split; [done|]. exists tr, []. done.
Qed.

Lemma subscribe_spec w req : spec invariant (subscribe blake2b to_hex w req) (fun _ => invariant).
Proof.
  apply (spec_bind _ _ _ (fun _ => invariant)); [apply send_response_spec|]. intros _ s tr H. unfold mbind, B_bind, get. cbn [app].
  destruct (template s); [cbn; by rewrite app_nil_r|]. pose proof (new_job_spec w s tr H) as N.
  by destruct (new_job blake2b to_hex w s) as [acts [[[] s']|]].
Qed.

Lemma invariant_submit s tr b : invariant s tr -> invariant s (tr ++ [SubmitBlock b allow_non_daa]).
Proof.
  intros (Hg & Hc & Ht). assert (jobs (tr ++ [SubmitBlock b allow_non_daa]) = jobs tr) as EJ by (rewrite jobs_app; apply app_nil_r).
  split; [by unfold good; rewrite EJ|]. rewrite EJ. split; [done|]. destruct (template s) as [t|]; [|done]. destruct Ht as (Et & pre & post & -> & Hp).
  split; [done|]. exists pre, (post ++ [SubmitBlock b allow_non_daa]). rewrite <- app_assoc. split; [done|]. by rewrite jobs_app, Hp.
Qed.

Lemma submit_spec w req : spec invariant (submit allow_non_daa w req) (fun _ => invariant).
Proof.
  intros s tr H. unfold submit, mbind at 1, B_bind at 1, try. destruct (parse_submit _) as [sub|]; cbn [fmap option_fmap option_map];
    [|rewrite app_nil_r; apply H].
  unfold mbind at 1, B_bind at 1, get. destruct (template s) as [t|] eqn:Et.
  - destruct (Z.eqb_spec (s_job_id sub) (t_job_id t)) as [Es|]; cbn [negb].
    + unfold mbind, B_bind, act. pose proof (send_response_spec w (q_id req) (JBool (is_ok (submit_block w (share_block t sub)))) s _
        (invariant_submit s tr (share_block t sub) H)) as R.
      destruct (send_response _ _ _ s) as [acts [[[] s']|]]; cbn [app]; by rewrite <- app_assoc in R.
    + pose proof (send_response_spec w (q_id req) (JBool false) s tr H) as R. by destruct (send_response _ _ _ s) as [acts [[[] s']|]].
  - pose proof (send_response_spec w (q_id req) (JBool false) s tr H) as R. by destruct (send_response _ _ _ s) as [acts [[[] s']|]].
Qed.

Lemma handle_request_spec w req : spec invariant (handle_request blake2b to_hex allow_non_daa w req) (fun _ => invariant).
Proof.
  unfold handle_request. repeat case_bool_decide; [apply subscribe_spec|apply send_response_spec|apply submit_spec|apply send_response_spec].
Qed.

Lemma turn_spec w i : spec invariant (turn blake2b to_hex from_str allow_non_daa w i) (fun _ => invariant).
Proof.
  destruct i as [| |line|]; cbn [turn].
  - apply spec_ret.
  - intros s tr H. cbn. rewrite app_nil_r. apply H.
  - destruct (from_str line) as [req|]; [|apply spec_ret].
    apply (spec_bind _ _ _ (fun _ => invariant)); [apply handle_request_spec|]. intros _. apply spec_ret.
  - apply (spec_bind _ _ _ (fun _ => invariant)); [apply new_job_spec|]. intros _. apply spec_ret.
Qed.

Lemma handle_client_spec l : spec invariant (handle_client blake2b to_hex from_str allow_non_daa l) (fun _ => invariant).
Proof.
  induction l as [|[w i] l IH]; [apply spec_ret|]. cbn [handle_client].
  apply (spec_bind _ _ _ (fun _ => invariant)); [apply turn_spec|]. intros [|]; [apply IH|apply spec_ret].
Qed.

Lemma invariant_start : invariant (start) [].
Proof. done. Qed.

(** *** Where blocks come from *)

(** What a submit line asks for *)
Definition reads_share (i : input) (sub : SubmitParams) : Prop :=
  exists line req, i = Line line /\ from_str line = Some req /\ q_method req = lit "mining.submit" /\
    parse_submit (default JNull (q_params req)) = Some sub.

(** No action of a computation is a block. *)
Definition blockless {A} (m : @B Tx A) : Prop := forall s b allow, SubmitBlock b allow ∉ fst (m s).

Lemma blockless_ret {A} (a : A) : blockless (mret a).
Proof. intros s b allow H. by apply elem_of_nil in H. Qed.

Lemma blockless_bind {A C} (m : B A) (f : A -> B C) : blockless m -> (forall a, blockless (f a)) -> blockless (m ≫= f).
Proof.
  intros Hm Hf s b allow. specialize (Hm s b allow). unfold mbind, B_bind. destruct (m s) as [acts [[a s']|]]; [|done]. specialize (Hf a s' b allow).
  destruct (f a s') as [acts' r]. cbn in *. rewrite elem_of_app. tauto.
Qed.

Lemma blockless_send w v : blockless (send w v).
Proof. intros s b allow. unfold send. destruct (sink_ok w); cbn; [by intros ?%list_elem_of_singleton|by intros ?%elem_of_nil]. Qed.

Lemma blockless_response w id v : blockless (send_response w id v).
Proof. destruct id; [apply blockless_send|apply blockless_ret]. Qed.

Lemma blockless_pure {A} (m : @B Tx A) : (forall s, fst (m s) = []) -> blockless m.
Proof. intros Hm s b allow. rewrite Hm. by intros ?%elem_of_nil. Qed.

Lemma blockless_job w : blockless (new_job blake2b to_hex w).
Proof.
  apply blockless_bind; [|intros t; apply blockless_bind; [by apply blockless_pure|intros _; apply blockless_send]].
  apply blockless_bind; [by apply blockless_pure|]. intros block. apply blockless_bind; [by apply blockless_pure|]. intros _.
  apply blockless_bind; [by apply blockless_pure|]. intros job_id. apply blockless_ret.
Qed.

Lemma blockless_subscribe w req : blockless (subscribe blake2b to_hex w req).
Proof.
  apply blockless_bind; [apply blockless_response|]. intros _. apply blockless_bind; [intros s b allow H; by apply elem_of_nil in H|].
  intros [|]; [apply blockless_ret|apply blockless_job].
Qed.

(** A block is the first action of the turn of a share for the current job. *)
Lemma turn_block (w : world) i (s : bridge) p b allow q : fst (turn blake2b to_hex from_str allow_non_daa w i s) = p ++ SubmitBlock b allow :: q ->
  p = [] /\ allow = allow_non_daa /\ exists sub t, reads_share i sub /\ template s = Some t /\ s_job_id sub = t_job_id t /\ b = share_block t sub.
Proof.
  assert (Hno : forall A (m : B A), blockless m -> fst (m s) = p ++ SubmitBlock b allow :: q -> False).
  { intros A m Hm E. apply (Hm s b allow). rewrite E, elem_of_app, elem_of_cons. tauto. }
  assert (Hgo : forall A C (m : B A) (c : C), fst ((m ≫= fun _ => mret c) s) = fst (m s)).
  { intros A C m c. unfold mbind, B_bind. destruct (m s) as [acts [[a s']|]]; [|done]. cbn. by rewrite app_nil_r. }
  destruct i as [| |line|]; cbn [turn]; try (intros E; exfalso; by destruct p).
  2: { rewrite Hgo. intros E. exfalso. by apply (Hno _ _ (blockless_job w)). }
  destruct (from_str line) as [req|] eqn:Er; [|intros E; exfalso; by destruct p]. rewrite Hgo. unfold handle_request.
  case_bool_decide; [intros E; exfalso; by apply (Hno _ _ (blockless_subscribe w req))|]. case_bool_decide; [intros E; exfalso; eapply Hno; [|exact E]; apply blockless_response|].
  case_bool_decide as Hm; [|intros E; exfalso; eapply Hno; [|exact E]; apply blockless_response].
  unfold submit, mbind at 1, B_bind at 1, try. destruct (parse_submit _) as [sub|] eqn:Ep; cbn [fmap option_fmap option_map]; [|intros E; exfalso; by destruct p].
  unfold mbind at 1, B_bind at 1, get. destruct (template s) as [t|] eqn:Et.
  2: { pose proof (Hno _ _ (blockless_response w (q_id req) (JBool false))) as Hr. destruct (send_response _ _ _ s) as [acts r]. intros E. exfalso. by apply Hr. }
  destruct (Z.eqb_spec (s_job_id sub) (t_job_id t)) as [Es|]; cbn [negb].
  2: { pose proof (Hno _ _ (blockless_response w (q_id req) (JBool false))) as Hr. destruct (send_response _ _ _ s) as [acts r]. intros E. exfalso. by apply Hr. }
  unfold mbind, B_bind, act. pose proof (blockless_response w (q_id req) (JBool (is_ok (submit_block w (share_block t sub)))) s b allow) as Hr.
  destruct (send_response _ _ _ s) as [acts r]. cbn [fst app] in *. destruct p as [|a p]; cbn [app].
  - intros [= <- <- _]. split; [done|]. split; [done|]. exists sub, t. split; [by exists line, req|done].
  - intros [= _ ->]. exfalso. apply Hr. rewrite elem_of_app, elem_of_cons. tauto.
Qed.

Lemma bind_assoc {A C E} (m : @B Tx A) (f : A -> B C) (g : C -> B E) s : ((m ≫= f) ≫= g) s = (m ≫= fun a => f a ≫= g) s.
Proof.
  unfold mbind, B_bind. destruct (m s) as [acts [[a s']|]]; [|done]. destruct (f a s') as [acts' [[c s'']|]]; [|done].
  destruct (g c s'') as [acts'' r]. by rewrite app_assoc.
Qed.

Lemma reply_bind_ext {A C} (m : @B Tx A) (f g : A -> B C) s : (forall a s, f a s = g a s) -> (m ≫= f) s = (m ≫= g) s.
Proof. intros H. unfold mbind, B_bind. destruct (m s) as [acts [[a s']|]]; [|done]. by rewrite H. Qed.

Lemma bind_ret {A} (m : @B Tx A) s : (m ≫= mret) s = m s.
Proof. unfold mbind, B_bind. destruct (m s) as [acts [[a s']|]]; [|done]. cbn. by rewrite app_nil_r. Qed.

Lemma handle_client_snoc (l : list (world * input)) w i s : handle_client blake2b to_hex from_str allow_non_daa (l ++ [(w, i)]) s =
  (goes ← handle_client blake2b to_hex from_str allow_non_daa l; if goes : bool then turn blake2b to_hex from_str allow_non_daa w i else mret false) s.
Proof.
  revert s. induction l as [|[w' i'] l IH]; intros s; cbn [app handle_client].
  - rewrite (reply_bind_ext _ _ mret) by (by intros [|]). rewrite bind_ret. unfold mbind, B_bind, mret, B_ret. by destruct (turn _ _ _ _ w i s).
  - rewrite bind_assoc. apply reply_bind_ext. intros [|] s'; [apply IH|done].
Qed.

(** Every block was asked for: the input it answers is a share, which comes after what
    was done before, for the job that was sent last. *)
Definition justified (l : list (world * input)) (tr : list action) : Prop :=
  forall pre b allow post, tr = pre ++ SubmitBlock b allow :: post ->
  exists l1 w i l2 (s : bridge) sub t, l = l1 ++ (w, i) :: l2 /\ handle_client blake2b to_hex from_str allow_non_daa l1 start = (pre, Some (true, s)) /\
    reads_share i sub /\ template s = Some t /\ s_job_id sub = t_job_id t /\ b = share_block t sub /\ allow = allow_non_daa.

Lemma handle_client_justified l : justified l (fst (handle_client blake2b to_hex from_str allow_non_daa l start)).
Proof.
  induction l as [|[w i] l IH] using rev_ind; intros pre b allow post; [intros E; cbn in E; by destruct pre|]. rewrite handle_client_snoc. unfold mbind, B_bind.
  assert (Hold : forall post, fst (handle_client blake2b to_hex from_str allow_non_daa l start) = pre ++ SubmitBlock b allow :: post ->
    exists l1 w0 i0 l2 (s : bridge) sub t, l ++ [(w, i)] = l1 ++ (w0, i0) :: l2 /\ handle_client blake2b to_hex from_str allow_non_daa l1 start = (pre, Some (true, s)) /\
    reads_share i0 sub /\ template s = Some t /\ s_job_id sub = t_job_id t /\ b = share_block t sub /\ allow = allow_non_daa).
  { intros post' E. destruct (IH pre b allow post' E) as (l1 & w0 & i0 & l2 & s & sub & t & -> & H). exists l1, w0, i0, (l2 ++ [(w, i)]), s, sub, t. split; [by rewrite <- app_assoc|done]. }
  destruct (handle_client _ _ _ _ l start) as [acts [[[|] s]|]] eqn:El; [|cbn in *; rewrite app_nil_r; apply Hold|apply Hold].
  destruct (turn _ _ _ _ w i s) as [acts' r] eqn:Et. cbn [fst] in *. intros E. apply app_eq_inv in E as [(k & E1 & E2)|(k & E1 & E2)].
  - destruct k as [|x k].
    + cbn in E2. rewrite app_nil_r in E1. subst acts. pose proof (turn_block w i s [] b allow post) as Hb. rewrite Et in Hb. destruct (Hb (eq_sym E2)) as (_ & Ha & sub & t & Hr & Hs & Hj & Hbl).
      exists l, w, i, [], s, sub, t. done.
    + injection E2 as <- E2. by apply (Hold k).
  - pose proof (turn_block w i s k b allow post) as Hb. rewrite Et in Hb. destruct (Hb E2) as (-> & Ha & sub & t & Hr & Hs & Hj & Hbl). rewrite app_nil_r in E1. subst pre.
    exists l, w, i, [], s, sub, t. done.
Qed.

End Trace.

(** ** Numbers as text *)

Lemma to_string_inj a b : is_u64 a -> is_u64 b -> to_string a = to_string b -> a = b.
Proof.
  unfold is_u64, to_string. intros Ha Hb E.
  destruct (Url.Url.digits_ok 20 a) as (_ & Da & _); [lia|lia|]. destruct (Url.Url.digits_ok 20 b) as (_ & Db & _); [lia|lia|]. congruence.
Qed.

Lemma numbered_NoDup n : Z.of_nat n < 2 ^ 64 -> NoDup (numbered n).
Proof.
  intros Hn. unfold numbered. apply NoDup_fmap_2_strong; [|apply NoDup_seqZ].
  intros x y Hx Hy E. apply elem_of_seqZ in Hx, Hy. rewrite !u64_id in E by (unfold is_u64; lia). injection E as E.
  apply to_string_inj in E; unfold is_u64; lia.
Qed.

(** Digits below the radix are read back. *)
Lemma accumulate_decimal s : forall acc, 0 <= acc -> Forall (fun x => Url.Url.is_digit x = true) s -> Url.Url.decimal s acc < 2 ^ 64 ->
  accumulate 10 s acc = Some (Url.Url.decimal s acc) /\ acc <= Url.Url.decimal s acc.
Proof.
  induction s as [|x s IH]; intros acc Ha HF Hb; [split; [done|cbn; lia]|]. apply Forall_cons in HF as [Hx HF].
  cbn [Url.Url.decimal accumulate] in *. rewrite Hx in *. unfold Url.Url.is_digit in Hx. apply andb_prop in Hx as [H1 H2].
  unfold to_digit. rewrite H1, H2. cbn [andb]. apply Z.leb_le in H1, H2. rewrite (proj2 (Z.ltb_lt _ _)) by lia. cbn [mbind option_bind].
  replace (acc * 10 + (x - 48)) with (10 * acc + (x - 48)) by lia. destruct (IH (10 * acc + (x - 48)) ltac:(lia) HF Hb) as [E Hle].
  rewrite (proj2 (Z.ltb_lt _ _)) by lia. split; [done|lia].
Qed.

Lemma parse_to_string n : is_u64 n -> from_str_radix 10 (to_string n) = Some n.
Proof.
  intros Hn. unfold is_u64 in Hn. destruct (Url.Url.digits_ok 20 n) as (HF & HD & x & t & E); [lia|lia|]. fold (to_string n) in *.
  rewrite <- HD at 2. destruct (accumulate_decimal (to_string n) 0 ltac:(lia) HF ltac:(lia)) as [Ea _]. rewrite <- Ea, E.
  rewrite E in HF. apply Forall_cons in HF as [Hx _]. unfold Url.Url.is_digit in Hx. apply andb_prop in Hx as [H1%Z.leb_le H2%Z.leb_le].
  assert (x = 48 \/ x = 49 \/ x = 50 \/ x = 51 \/ x = 52 \/ x = 53 \/ x = 54 \/ x = 55 \/ x = 56 \/ x = 57) as Hc by lia.
  by repeat destruct Hc as [->|Hc]; [..|subst x].
Qed.

Lemma to_digit_hex d : 0 <= d < 16 -> to_digit 16 (Cvt.Cvt.hexdigit d) = Some d.
Proof.
  intros Hd. assert (d ∈ seqZ 0 16) as H by (apply elem_of_seqZ; lia). clear Hd. revert d H. apply Forall_forall.
  repeat (constructor; [reflexivity|]). constructor.
Qed.

Lemma load_rev_cons b bs : is_u8 b -> Forall is_u8 bs ->
  load_le (rev (b :: bs)) = load_le (rev bs) + 256 ^ Z.of_nat (length bs) * b /\ 0 <= load_le (rev bs) < 256 ^ Z.of_nat (length bs).
Proof.
  intros Hb HB. assert (2 ^ (8 * Z.of_nat (length bs)) = 256 ^ Z.of_nat (length bs)) as E by (rewrite Z.pow_mul_r by lia; done).
  assert (Forall is_u8 (rev bs)) as HR by by apply Forall_rev.
  cbn [rev]. rewrite load_le_app, length_rev, E, load_le_cons_add by done.
  change (load_le []) with 0. split; [lia|]. pose proof (load_le_bound _ HR) as H. by rewrite length_rev, E in H.
Qed.

(** Bytes in hex are read as a number that starts with the first of them. *)
Lemma accumulate_encode bs : forall acc, 0 <= acc -> Forall is_u8 bs -> acc * 256 ^ Z.of_nat (length bs) + load_le (rev bs) < 2 ^ 64 ->
  accumulate 16 (Cvt.Cvt.encode bs) acc = Some (acc * 256 ^ Z.of_nat (length bs) + load_le (rev bs)).
Proof.
  induction bs as [|b bs IH]; intros acc Ha HB Hl; [cbn; f_equal; lia|]. apply Forall_cons in HB as [Hb HB].
  destruct (load_rev_cons b bs Hb HB) as [Ev Hn]. rewrite Ev in *. clear Ev. unfold is_u8 in Hb. cbn [length] in *.
  rewrite Nat2Z.inj_succ, Z.pow_succ_r in * by lia.
  set (p := 256 ^ Z.of_nat (length bs)) in *. set (v := load_le (rev bs)) in *. rewrite Cvt.Cvt.encode_cons. cbn [accumulate].
  pose proof (Z.div_mod b 16 ltac:(lia)) as Hdm. pose proof (Z.mod_pos_bound b 16 ltac:(lia)) as Hm. pose proof (Z.div_pos b 16 ltac:(lia) ltac:(lia)).
  assert (acc * 256 + b < 2 ^ 64) as Hs by nia.
  rewrite (to_digit_hex (b / 16)), (to_digit_hex (b mod 16)) by lia. cbn [mbind option_bind].
  rewrite (proj2 (Z.ltb_lt (acc * 16 + b / 16) _)) by lia. rewrite (proj2 (Z.ltb_lt _ _)) by lia.
  replace ((acc * 16 + b / 16) * 16 + b mod 16) with (acc * 256 + b) by lia.
  rewrite IH; [f_equal; lia|lia|done|lia].
Qed.

(** The number that the bridge reads in the nonce of a share *)
Definition swapped (nonce : Z) : Z := load_le (rev (store_le 4 nonce)).

Lemma parse_nonce nonce : from_str_radix 16 (trim_start_0x (Cvt.Cvt.encode (store_le 4 nonce))) = Some (swapped nonce).
Proof.
  pose proof (store_le_bytes 4 nonce ltac:(lia)) as HB. pose proof (length_store_le 4 nonce ltac:(lia)) as Hl.
  assert (accumulate 16 (Cvt.Cvt.encode (store_le 4 nonce)) 0 = Some (swapped nonce)) as Ea.
  { rewrite accumulate_encode; [done|lia|done|]. pose proof (load_le_bound (rev (store_le 4 nonce))) as H. rewrite length_rev, Hl in H.
    specialize (H ltac:(by apply Forall_rev)). change (Z.of_nat (Z.to_nat 4)) with 4 in H. lia. }
  rewrite <- Ea. clear Ea. destruct (store_le 4 nonce) as [|b bs]; [done|]. apply Forall_cons in HB as [Hb _]. unfold is_u8 in Hb.
  rewrite Cvt.Cvt.encode_cons.
  assert (forall d, 0 <= d < 16 -> Cvt.Cvt.hexdigit d ∈ Cvt.Cvt.hexdigit <$> seqZ 0 16) as Hd.
  { intros d Hd. apply list_elem_of_fmap. exists d. split; [done|]. apply elem_of_seqZ. lia. }
  pose proof (Hd (b / 16) ltac:(split; [apply Z.div_pos; lia|apply Z.div_lt_upper_bound; lia])) as H1.
  pose proof (Hd (b mod 16) ltac:(apply Z.mod_pos_bound; lia)) as H2. clear Hd.
  change (Cvt.Cvt.hexdigit <$> seqZ 0 16) with [48;49;50;51;52;53;54;55;56;57;97;98;99;100;101;102] in H1, H2.
  generalize dependent (Cvt.Cvt.hexdigit (b / 16)). generalize dependent (Cvt.Cvt.hexdigit (b mod 16)). intros y Hy x Hx.
  rewrite !elem_of_cons, elem_of_nil in Hx, Hy.
  repeat destruct Hx as [->|Hx]; try done; repeat destruct Hy as [->|Hy]; done.
Qed.

(** A share is a block for the right nonce only if its bytes read the same both ways. *)
Lemma swapped_fixed n : is_u32 n -> (swapped n = n <-> rev (store_le 4 n) = store_le 4 n).
Proof.
  intros Hn. unfold is_u32 in Hn. pose proof (store_le_bytes 4 n ltac:(lia)) as HB. pose proof (length_store_le 4 n ltac:(lia)) as Hl. unfold swapped.
  split; intros E.
  - rewrite <- E at 2. rewrite store_load_le; [done|by rewrite length_rev, Hl|lia|by apply Forall_rev].
  - rewrite E, load_store_le, Z.mod_small; lia.
Qed.

(** ** Claims *)

(** C21: whatever a miner and the node send, in every connection the jobs are numbered
    from one, none twice before the counter of 64 bits is used up.  Every block that goes
    to the node answers an input of its own, which is a submit request that reads as a
    share: its job id is the one of the job that was sent last before it, and the block is
    that job's template with the nonce, and the time if it has one, of this very share. *)
Theorem bridge_trace_correct {Tx} blake2b to_hex from_str allow_non_daa (l : list (@world Tx * input)) :
  let '(acts, _) := handle_client blake2b to_hex from_str allow_non_daa l start in
  (forall pre b allow post, acts = pre ++ SubmitBlock b allow :: post ->
   exists l1 w i l2 s sub t, l = l1 ++ (w, i) :: l2 /\ handle_client blake2b to_hex from_str allow_non_daa l1 start = (pre, Some (true, s)) /\
     reads_share from_str i sub /\ s_job_id sub = t_job_id t /\ b = share_block t sub /\ allow = allow_non_daa /\
     t = make_template blake2b to_hex (u64 (Z.of_nat (length (jobs pre)))) (t_block t) /\
     exists pre1 pre2, pre = pre1 ++ Send (notification t) :: pre2 /\ jobs pre2 = []) /\
  jobs acts = numbered (length (jobs acts)) /\
  (Z.of_nat (length (jobs acts)) < 2 ^ 64 -> NoDup (jobs acts)).
Proof.
  pose proof (handle_client_spec blake2b to_hex from_str allow_non_daa l start [] (invariant_start _ _)) as H.
  pose proof (handle_client_justified blake2b to_hex from_str allow_non_daa l) as Hj.
  destruct (handle_client _ _ _ _ _ _) as [acts r].
  assert (good acts) as Hn by (destruct r as [[b s]|]; [apply H|exact H]).
  split; [|split; [done|intros Hl; rewrite Hn; by apply numbered_NoDup]].
  intros pre b allow post E. destruct (Hj pre b allow post E) as (l1 & w & i & l2 & s & sub & t & El & Es & Hr & Ht & Hid & Hb & Ha).
  exists l1, w, i, l2, s, sub, t. split_and!; try done;
    pose proof (handle_client_spec blake2b to_hex from_str allow_non_daa l1 start [] (invariant_start _ _)) as H1; rewrite Es in H1;
    destruct H1 as (_ & Hc & H1); rewrite Ht in H1; destruct H1 as (H1 & H2); [cbn [app] in Hc; by rewrite <- Hc|exact H2].
Qed.

(** *** A connection in which a miner subscribes and sends a share *)

Definition run_reader (line : mem) : option StratumRequest :=
  match line with
  | [1] => Some (mk_request (Some 1) (lit "mining.subscribe") None)
  | [2] => Some (mk_request (Some 2) (lit "mining.submit") (Some (JArray [JString (lit "worker"); JString (lit "1"); JString (lit "0xff")])))
  | _ => None
  end.
Definition run_block : @RpcRawBlock unit :=
  mk_block (mk_raw_header 1 [[replicate 32 1]] (replicate 32 4) (replicate 32 5) (replicate 32 6) 1769947200000 0x1f00ffff 0 70 [123456; 0; 0] 69 (replicate 32 7)) [tt].
Definition run_world : @world unit := mk_world (Some run_block) (fun _ => Some Success) true.
Definition run_inputs : list (@world unit * input) := [(run_world, Line [1]); (run_world, Line [2])].

Lemma bridge_trace_correct_witness : exists acts r pre b post l1 w i l2 sub t,
  handle_client (fun _ _ => replicate 32 9) Cvt.Cvt.encode run_reader true run_inputs start = (acts, r) /\
  acts = pre ++ SubmitBlock b true :: post /\ length pre = 2%nat /\
  run_inputs = l1 ++ (w, i) :: l2 /\ reads_share run_reader i sub /\ s_job_id sub = t_job_id t /\ b = share_block t sub.
Proof.
  pose proof (bridge_trace_correct (fun _ _ => replicate 32 9) Cvt.Cvt.encode run_reader true run_inputs) as H.
  destruct (handle_client (fun _ _ => replicate 32 9) Cvt.Cvt.encode run_reader true run_inputs start) as [acts r] eqn:E.
  assert (exists pre b post, acts = pre ++ SubmitBlock b true :: post /\ length pre = 2%nat) as (pre & b & post & Ea & Hl).
  { clear H. vm_compute in E. injection E as <- _. eexists [_; _], _, [_]. split; reflexivity. }
  destruct H as [H _]. destruct (H pre b true post Ea) as (l1 & w & i & l2 & s & sub & t & H1 & _ & H2 & H3 & H4 & _).
  by exists acts, r, pre, b, post, l1, w, i, l2, sub, t.
Defined.

End BridgeProofs.
