(* ===== verification/BridgeClient.v ===== *)
(** * Bridge and miner together

    A job of the bridge as the miner reads it, and a share of the miner as the bridge
    reads it.  That each side reads the JSON text that the other writes is a hypothesis
    on their packages. *)
From Stdlib Require Import Ascii String ZArith Lia.
From stdpp Require Import base numbers list gmap.
From S2P Require Import Prelude Memory Cvt Algorithm Job Json Url Client Mining ClientProofs Uint UintProofs Target Header Bridge BridgeProofs.
Import Algorithm.Algorithm Job.Job Json.Json Client.Client ClientProofs.ClientProofs Uint.Uint UintProofs.UintProofs.
Open Scope list_scope.
Open Scope Z_scope.

Module BridgeClient.
Import Bridge.Bridge BridgeProofs.BridgeProofs.

(** ** Jobs *)

(** The top word of a number of 256 bits *)
Lemma top_word bs : Forall is_u8 bs -> length bs = 32%nat ->
  Forall is_u8 (chunk bs 24 8) /\ msize (chunk bs 24 8) = 8 /\ load_le (chunk bs 24 8) = load_le bs / 2 ^ 192.
Proof.
  intros HB Hl. assert (chunk bs 24 8 = drop 24 bs) as ->.
  { unfold chunk. apply take_ge. rewrite length_drop, Hl. lia. }
  rewrite <- (take_drop 24 bs) in HB. apply Forall_app in HB as [H1 H2]. split; [done|]. split; [unfold msize; rewrite length_drop, Hl; lia|].
  rewrite <- (take_drop 24 bs) at 2. rewrite load_le_app by done. pose proof (load_le_bound _ H1) as Hb.
  assert (length (take 24 bs) = 24%nat) as Ht by (rewrite length_take; lia). rewrite Ht in *. change (8 * Z.of_nat 24) with 192 in *.
  rewrite Z.mul_comm, Z.div_add, Z.div_small by lia. done.
Qed.

(** The hash that the node mines on *)
Definition pre_pow (blake2b : mem -> mem -> mem) (h : RpcRawHeader) : mem :=
  Header.Header.hash_override_nonce_time blake2b (raw_header_to_header blake2b h) 0 0.

Lemma no_zero_digits n : is_u64 n -> cstr (to_string n) = to_string n.
Proof.
  intros Hn. unfold is_u64 in Hn. apply cstr_id. destruct (Url.Url.digits_ok 20 n) as (HF & _); [lia|lia|]. apply (Forall_impl _ _ _ HF).
  intros x Hx ->. done.
Qed.

(** C22: a template of the node whose target is at least 2^192 (of a lower one the miner
    gets no job) becomes a job of the miner: its number is the bridge's,
    its seed is the hash of the template's header without time and nonce, its blob is
    that hash, the template's time and the nonce, and its target is the top 64 bits of
    the node's.  A hash that is below the miner's target is below the node's. *)
Theorem job_reaches_miner {Tx} blake2b to_hex E c id (block : @RpcRawBlock Tx) :
  verify E RX_0 = true -> (forall bs, Forall is_u8 bs -> to_hex bs = Cvt.Cvt.encode bs) ->
  (forall k x, length (blake2b k x) = 32%nat /\ Forall is_u8 (blake2b k x)) ->
  is_u64 id -> is_u64 (r_timestamp (b_header block)) -> is_u32 (r_bits (b_header block)) ->
  let target := val (from_compact_target_bits (r_bits (b_header block))) in
  let hash := pre_pow blake2b (b_header block) in
  let ts := r_timestamp (b_header block) in
  2 ^ 192 <= target ->
  exists job, m_id job = Some (to_string id) /\ m_seed job = hash /\ m_target job = target / 2 ^ 192 /\
  parseLmtNotify E (build_notify_params (make_template blake2b to_hex id block)) c =
    Ok (if isEqual (setClientId (s_job (ss c)) (s_rpcId (ss c))) job
        then (false, set_ss (with_job (setClientId (s_job (ss c)) (s_rpcId (ss c)))) c, [])
        else (true, set_ss (fun s => with_job job (with_jobs (u64 (s_jobs s + 1)) s)) c, [])) /\
  (forall n, is_u32 n -> chunk (splice (m_blob job) (nonceOffset job) (store_le 4 n)) 0 (m_size job) = lmt_bytes hash ts n) /\
  (forall h, Forall is_u8 h -> length h = 32%nat -> load_le (chunk h 24 8) < m_target job -> load_le h < target).
Proof.
  intros Hv Hx Hb Hid Hts Hbits target hash ts Htgt.
  destruct (Target.Target.from_compact_ok _ Hbits) as (W & L & _). destruct (to_le_bytes_ok _ W) as (L' & B' & V'). rewrite L in L'.
  fold target in V'. destruct (top_word _ B' L') as (T1 & T2 & T3). rewrite V' in T3.
  assert (length hash = 32%nat /\ Forall is_u8 hash) as [Hl HB] by apply Hb.
  assert (0 < target / 2 ^ 192) as Hpos by (apply Z.div_str_pos; lia).
  pose proof (parseLmtNotify_ok E c (to_string id) hash ts (JString (format_08x (r_bits (b_header block)))) _ []
    Hv HB ltac:(unfold msize; lia) Hts T1 T2 ltac:(lia)) as HP.
  cbn zeta in HP. rewrite no_zero_digits, T3 in HP by done.
  eexists (lmt_job _ _ _ _ _). split; [reflexivity|]. split; [reflexivity|]. split; [reflexivity|].
  split; [unfold build_notify_params, make_template; cbn [t_job_id t_pre_pow_hash_hex t_timestamp t_bits_hex t_target_hex];
          fold (pre_pow blake2b (b_header block)); fold hash ts; rewrite !Hx by done; exact HP|].
  split; [intros n Hn; apply lmt_job_nonce; [unfold msize; lia|done]|].
  intros h Hh Hl32 Hlt. cbn [m_target lmt_job] in Hlt. destruct (top_word h Hh Hl32) as (_ & _ & E3). rewrite E3 in Hlt.
  Z.div_mod_to_equations. lia.
Qed.

(** ** Shares *)

(** The bridge reads the request that the miner writes. *)
Definition reads (E : env) (from_str : mem -> option StratumRequest) (id : Z) (method : string) (params : json) : Prop :=
  from_str (write_json E (create id method params)) = Some (mk_request (Some id) (lit method) (Some params)).

Definition share_params (user : mem) (r : JobResult) : json :=
  JArray [JString user; JString (default [] (jr_jobId r)); JString (Cvt.Cvt.encode (store_le 4 (jr_nonce r))); JNumber 0].

Lemma share_lmt c r u : s_lmtNative (ss c) = true -> f_user (cf c) = Some u ->
  share c r = create (sequence c) "mining.submit" (share_params u r).
Proof. intros Hl Hu. unfold share, share_params. by rewrite Hl, Hu. Qed.

Lemma parse_share u r id : is_u64 id -> jr_jobId r = Some (to_string id) ->
  parse_submit (share_params u r) = Some (mk_submit id (swapped (jr_nonce r)) None).
Proof.
  intros Hid Hj. unfold share_params. rewrite Hj. change (default [] (Some (to_string id))) with (to_string id).
  cbn [parse_submit as_array as_str mbind option_bind].
  rewrite parse_to_string by done. cbn [mbind option_bind]. by rewrite parse_nonce.
Qed.

(** C23: a share for the current job becomes one block for the node and one answer,
    which is true whenever the call to the node succeeds, also when the node reports that
    it rejects the block, and false only on an error of the call.  The block is the
    template with its time and a nonce whose bytes are in the other order: it is the nonce
    that was mined only if the four bytes read the same both ways. *)
Theorem share_nonce_swapped {Tx} blake2b to_hex from_str allow w E c r u t (s : @bridge Tx) :
  result_ok r -> f_user (cf c) = Some u -> s_lmtNative (ss c) = true -> is_u32 (jr_nonce r) ->
  is_u64 (t_job_id t) -> jr_jobId r = Some (to_string (t_job_id t)) -> template s = Some t -> sink_ok w = true -> reads E from_str (sequence c) "mining.submit" (share_params u r) ->
  let block := mk_block (with_nonce (swapped (jr_nonce r)) (b_header (t_block t))) (b_transactions (t_block t)) in
  submit_request c r = Ok (share c r) /\
  turn blake2b to_hex from_str allow w (Line (write_json E (share c r))) s =
    ([SubmitBlock block allow;
      Send (response (sequence c) (JBool (match submit_block w block with Some Success | Some (Reject _) => true | None => false end)))], Some (true, s)) /\
  (swapped (jr_nonce r) = jr_nonce r <-> rev (store_le 4 (jr_nonce r)) = store_le 4 (jr_nonce r)).
Proof.
  intros Hr Hu Hlmt Hn Hid Hj Ht Hw Hread block.
  split; [by apply (submit_request_lmt c r u)|]. split; [|by apply swapped_fixed].
  rewrite (share_lmt c r u) by done. cbn [turn]. rewrite Hread.
  unfold mbind, B_bind, handle_request. cbn [q_method].
  rewrite !bool_decide_eq_false_2 by done. rewrite bool_decide_eq_true_2 by done.
  unfold submit, mbind, B_bind, try. cbn [q_params q_id]. change (default JNull (Some ?x)) with x. rewrite (parse_share u r (t_job_id t)) by done.
  cbn [fmap option_fmap option_map]. unfold get. rewrite Ht. cbn [s_job_id]. rewrite Z.eqb_refl. cbn [negb].
  unfold act, send_response, send. rewrite Hw. cbn [app].
  change (share_block t (mk_submit (t_job_id t) (swapped (jr_nonce r)) None)) with block. unfold is_ok. by destruct (submit_block w block) as [[|]|].
Qed.

(** ** Witnesses *)

Definition some_raw (bits : Z) : RpcRawHeader :=
  mk_raw_header 1 [[replicate 32 1]] (replicate 32 4) (replicate 32 5) (replicate 32 6) 1769947200000 bits 0 70 [123456; 0; 0] 69 (replicate 32 7).
Definition some_block : @RpcRawBlock unit := mk_block (some_raw 0x1f00ffff) [tt].

Lemma job_reaches_miner_witness : exists job,
  m_target job = 0xffff * 2 ^ 32 /\
  parseLmtNotify (some_env JNull) (build_notify_params (make_template (fun _ _ => replicate 32 9) Cvt.Cvt.encode 7 some_block)) (some_client None true) =
    Ok (true, set_ss (fun s => with_job job (with_jobs 1 s)) (some_client None true), []).
Proof.
  destruct (job_reaches_miner (fun _ _ => replicate 32 9) Cvt.Cvt.encode (some_env JNull) (some_client None true) 7 some_block)
    as (job & Hid & _ & Ht & E & _).
  - reflexivity.
  - reflexivity.
  - intros k x. split; [reflexivity|]. apply Forall_replicate. unfold is_u8. lia.
  - unfold is_u64. lia.
  - unfold is_u64. cbn. lia.
  - unfold is_u32. cbn. lia.
  - vm_compute. discriminate.
  - exists job. split; [rewrite Ht; reflexivity|]. rewrite E. unfold isEqual at 1. cbn [some_client]. rewrite Hid. reflexivity.
Defined.

Definition some_bridge : @bridge unit := mk_bridge (Some (make_template (fun _ _ => replicate 32 9) Cvt.Cvt.encode 7 some_block)) 7.
(** A node that rejects every block *)
Definition some_world : @world unit := mk_world (Some some_block) (fun _ => Some (Reject BlockInvalid)) true.
Definition some_session : client := some_client None true.
Definition some_reader (line : mem) : option StratumRequest :=
  Some (mk_request (Some (sequence some_session)) (lit "mining.submit") (Some (share_params (lit "lmt:a") some_result))).

(** The nonce 5 of a share is 0x05000000 in the block, and the miner hears that the
    rejected block is fine. *)
Lemma share_nonce_swapped_witness :
  turn (fun _ _ => replicate 32 9) Cvt.Cvt.encode some_reader true some_world (Line (write_json (some_env JNull) (share some_session some_result))) some_bridge =
    ([SubmitBlock (mk_block (with_nonce 0x05000000 (some_raw 0x1f00ffff)) [tt]) true; Send (response (sequence some_session) (JBool true))],
     Some (true, some_bridge)).
Proof.
  refine (proj1 (proj2 (share_nonce_swapped (fun _ _ => replicate 32 9) Cvt.Cvt.encode some_reader true some_world (some_env JNull) some_session
    some_result (lit "lmt:a") (make_template (fun _ _ => replicate 32 9) Cvt.Cvt.encode 7 some_block) some_bridge some_result_ok
    eq_refl eq_refl _ _ eq_refl eq_refl eq_refl eq_refl))).
  - unfold is_u32. cbn. lia.
  - unfold is_u64. cbn. lia.
Defined.

End BridgeClient.
