(* ===== verification/Ghostdag.v ===== *)
(** * GHOSTDAG (consensus/src/processes/ghostdag, model/stores/ghostdag.rs)

    The order of the block DAG: the selected parent of a block, its mergeset, and which
    blocks of it are blue.  The stores are maps; the reachability service, which answers
    whether a block is in the past of another, is an argument.  A hash is the number
    that its bytes are in big-endian order, so that hashes compare as numbers. *)
From Stdlib Require Import ZArith Lia.
From stdpp Require Import base numbers list gmap.
From S2P Require Import Prelude Uint UintProofs.
Import Uint.Uint UintProofs.UintProofs.
Open Scope Z_scope.

Module Ghostdag.

Definition Hash : Type := Z.
(** 32 bytes 0xfe *)
Definition ORIGIN : Hash := 0xfefefefefefefefefefefefefefefefefefefefefefefefefefefefefefefefe.

(** ** Data *)

Record ForkedParam := mk_forked { pre : Z; post : Z; activation : Z }.
Definition is_active (activation daa_score : Z) : bool := activation <=? daa_score.
Definition get_param (p : ForkedParam) (daa_score : Z) : Z := if is_active (activation p) daa_score then post p else pre p.

Record GhostdagData := mk_data {
  blue_score : Z; blue_work : Z; selected_parent : Hash; mergeset_blues : list Hash; mergeset_reds : list Hash;
  blues_anticone_sizes : gmap Hash Z }.

Definition genesis_ghostdag_data : GhostdagData := mk_data 0 0 ORIGIN [] [] ∅.
Definition origin_ghostdag_data : GhostdagData := mk_data 0 0 0 [] [] ∅.

Definition new_with_selected_parent (selected_parent : Hash) (k : Z) : result GhostdagData :=
  _ ← checked 16 (k + 1);
  Ok (mk_data 0 0 selected_parent [selected_parent] [] {[ selected_parent := 0 ]}).

Definition add_blue (d : GhostdagData) (block : Hash) (blue_anticone_size : Z) (block_blues_anticone_sizes : gmap Hash Z) : result GhostdagData :=
  if bool_decide (map_Forall (fun _ size => size < 2 ^ 16 - 1) block_blues_anticone_sizes) then
    Ok (mk_data (blue_score d) (blue_work d) (selected_parent d) (mergeset_blues d ++ [block]) (mergeset_reds d)
      (((fun size => size + 1) <$> block_blues_anticone_sizes) ∪ <[block := blue_anticone_size]> (blues_anticone_sizes d)))
  else Fault.

Definition add_red (d : GhostdagData) (block : Hash) : GhostdagData :=
  mk_data (blue_score d) (blue_work d) (selected_parent d) (mergeset_blues d) (mergeset_reds d ++ [block]) (blues_anticone_sizes d).

Definition finalize_score_and_work (d : GhostdagData) (score work : Z) : GhostdagData :=
  mk_data score work (selected_parent d) (mergeset_blues d) (mergeset_reds d) (blues_anticone_sizes d).

(** The stores: GHOSTDAG data, parents, and two fields of headers *)
Record stores := mk_stores { gd : gmap Hash GhostdagData; relations : gmap Hash (list Hash); daa_score : gmap Hash Z; header_bits : gmap Hash Z }.

Definition unwrap {A} (o : option A) : result A := match o with Some a => Ok a | None => Fault end.

(** ** Work *)

(** The sum of two [BlueWorkType], of 192 bits *)
Definition add192 (a b : Z) : Z := (a + b) mod 2 ^ 192.

(** [!target] *)
Definition bitnot (a : uint) : uint := not64 <$> a.

Definition calc_work (bits : Z) : result Z :=
  let target := from_compact_target_bits bits in
  '(q, _) ← div_rem (bitnot target) (fst (overflowing_add_u64 target 1));
  let res := val (fst (overflowing_add_u64 q 1)) in
  if res <? 2 ^ 192 then Ok res else Fault.

(** ** Order of blocks *)

Record SortableBlock := mk_sortable { sb_hash : Hash; sb_work : Z }.

Definition sortable_cmp (a b : SortableBlock) : comparison :=
  match sb_work a ?= sb_work b with Eq => sb_hash a ?= sb_hash b | c => c end.

Definition sortable_le (a b : SortableBlock) : bool := match sortable_cmp a b with Gt => false | _ => true end.

Fixpoint insert_sorted (x : SortableBlock) (l : list SortableBlock) : list SortableBlock :=
  match l with
  | [] => [x]
  | y :: l' => if sortable_le x y then x :: l else y :: insert_sorted x l'
  end.
Fixpoint sort (l : list SortableBlock) : list SortableBlock :=
  match l with [] => [] | x :: l => insert_sorted x (sort l) end.

(** [Iterator::max]: the last of the greatest *)
Fixpoint max_sortable (l : list SortableBlock) : option SortableBlock :=
  match l with
  | [] => None
  | x :: l => match max_sortable l with
              | Some y => Some (if sortable_le x y then y else x)
              | None => Some x
              end
  end.

Section Manager.
Context (genesis_hash : Hash) (k_param : ForkedParam) (level_work : Z).
Context (S : stores) (is_dag_ancestor_of : Hash -> Hash -> bool).

Definition get_data (h : Hash) : result GhostdagData := unwrap (gd S !! h).
Definition sortable (h : Hash) : result SortableBlock := d ← get_data h; Ok (mk_sortable h (blue_work d)).

Definition find_selected_parent (parents : list Hash) : result Hash :=
  l ← mapM sortable parents;
  b ← unwrap (max_sortable l);
  Ok (sb_hash b).

Definition sort_blocks (blocks : list Hash) : result (list Hash) :=
  l ← mapM sortable blocks;
  Ok (sb_hash <$> sort l).

(** ** The mergeset *)

(** [for parent in current_parents] *)
Fixpoint visit_parents (selected_parent : Hash) (parents : list Hash) (queue : list Hash) (mergeset past : gset Hash) :
  list Hash * gset Hash * gset Hash :=
  match parents with
  | [] => (queue, mergeset, past)
  | parent :: parents =>
      if bool_decide (parent ∈ mergeset) || bool_decide (parent ∈ past) then visit_parents selected_parent parents queue mergeset past
      else if is_dag_ancestor_of parent selected_parent then visit_parents selected_parent parents queue mergeset ({[parent]} ∪ past)
      else visit_parents selected_parent parents (queue ++ [parent]) ({[parent]} ∪ mergeset) past
  end.

(** [while let Some(current) = queue.pop_front()] *)
Fixpoint mergeset_loop (fuel : nat) (selected_parent : Hash) (queue : list Hash) (mergeset past : gset Hash) : result (gset Hash) :=
  match queue with
  | [] => Ok mergeset
  | current :: queue =>
      match fuel with
      | O => OutOfFuel
      | Datatypes.S fuel =>
          current_parents ← unwrap (relations S !! current);
          let '(queue, mergeset, past) := visit_parents selected_parent current_parents queue mergeset past in
          mergeset_loop fuel selected_parent queue mergeset past
      end
  end.

Definition unordered_mergeset_without_selected_parent (fuel : nat) (selected_parent : Hash) (parents : list Hash) : result (gset Hash) :=
  let queue := filter (fun p => p <> selected_parent) parents in
  mergeset_loop fuel selected_parent queue (list_to_set queue) ∅.

Definition ordered_mergeset_without_selected_parent (fuel : nat) (selected_parent : Hash) (parents : list Hash) : result (list Hash) :=
  mergeset ← unordered_mergeset_without_selected_parent fuel selected_parent parents;
  sort_blocks (elements mergeset).

(** ** Colouring *)

(** The loop of [blue_anticone_size] *)
Fixpoint blue_anticone_loop (fuel : nat) (block : Hash) (sizes : gmap Hash Z) (parent : Hash) : result Z :=
  match sizes !! block with
  | Some size => Ok size
  | None =>
      if bool_decide (parent = genesis_hash) || bool_decide (parent = ORIGIN) then Fault
      else match fuel with
           | O => OutOfFuel
           | Datatypes.S fuel => d ← get_data parent; blue_anticone_loop fuel block (blues_anticone_sizes d) (selected_parent d)
           end
  end.

Definition blue_anticone_size (fuel : nat) (block : Hash) (context : GhostdagData) : result Z :=
  blue_anticone_loop fuel block (blues_anticone_sizes context) (selected_parent context).

Inductive ColoringState := StateBlue | StateRed | StatePending.
Inductive ColoringOutput := OutputBlue (blue_anticone_size : Z) (blues_anticone_sizes : gmap Hash Z) | OutputRed.

(** [for &peer in chain_block.data.mergeset_blues] *)
Fixpoint check_peers (fuel : nat) (new_block_data : GhostdagData) (peers : list Hash) (blue_candidate : Hash) (k : Z) (sizes : gmap Hash Z) (size : Z) :
  result (ColoringState * gmap Hash Z * Z) :=
  match peers with
  | [] => Ok (StatePending, sizes, size)
  | peer :: peers =>
      if is_dag_ancestor_of peer blue_candidate then check_peers fuel new_block_data peers blue_candidate k sizes size
      else
        peer_blue_anticone_size ← blue_anticone_size fuel peer new_block_data;
        let sizes := <[peer := peer_blue_anticone_size]> sizes in
        size ← checked 16 (size + 1);
        if k <? size then Ok (StateRed, sizes, size)
        else if peer_blue_anticone_size =? k then Ok (StateRed, sizes, size)
        else if negb (peer_blue_anticone_size <=? k) then Fault
        else check_peers fuel new_block_data peers blue_candidate k sizes size
  end.

Definition check_blue_candidate_with_chain_block (fuel : nat) (new_block_data : GhostdagData) (chain_hash : option Hash) (chain_data : GhostdagData)
  (blue_candidate : Hash) (k : Z) (sizes : gmap Hash Z) (size : Z) : result (ColoringState * gmap Hash Z * Z) :=
  if match chain_hash with Some hash => is_dag_ancestor_of hash blue_candidate | None => false end then Ok (StateBlue, sizes, size)
  else check_peers fuel new_block_data (mergeset_blues chain_data) blue_candidate k sizes size.

(** The loop of [check_blue_candidate] *)
Fixpoint check_chain (n fuel : nat) (new_block_data : GhostdagData) (chain_hash : option Hash) (chain_data : GhostdagData) (blue_candidate : Hash) (k : Z)
  (sizes : gmap Hash Z) (size : Z) : result ColoringOutput :=
  match n with
  | O => OutOfFuel
  | Datatypes.S n =>
      '(state, sizes, size) ← check_blue_candidate_with_chain_block fuel new_block_data chain_hash chain_data blue_candidate k sizes size;
      match state with
      | StateBlue => Ok (OutputBlue size sizes)
      | StateRed => Ok OutputRed
      | StatePending =>
          d ← get_data (selected_parent chain_data);
          check_chain n fuel new_block_data (Some (selected_parent chain_data)) d blue_candidate k sizes size
      end
  end.

Definition check_blue_candidate (fuel : nat) (new_block_data : GhostdagData) (blue_candidate : Hash) (k : Z) : result ColoringOutput :=
  k1 ← checked 16 (k + 1);
  if u16 (Z.of_nat (length (mergeset_blues new_block_data))) =? k1 then Ok OutputRed
  else check_chain fuel fuel new_block_data None new_block_data blue_candidate k ∅ 0.

(** [for blue_candidate in ordered_mergeset] *)
Fixpoint color_blocks (fuel : nat) (k : Z) (blocks : list Hash) (d : GhostdagData) : result GhostdagData :=
  match blocks with
  | [] => Ok d
  | blue_candidate :: blocks =>
      coloring ← check_blue_candidate fuel d blue_candidate k;
      d ← match coloring with
          | OutputBlue size sizes => add_blue d blue_candidate size sizes
          | OutputRed => Ok (add_red d blue_candidate)
          end;
      color_blocks fuel k blocks d
  end.

Definition block_work (h : Hash) : result Z := bits ← unwrap (header_bits S !! h); w ← calc_work bits; Ok (Z.max w level_work).

Definition ghostdag (fuel : nat) (parents : list Hash) : result GhostdagData :=
  match parents with
  | [] => Fault
  | _ =>
      sp ← find_selected_parent parents;
      if bool_decide (sp = ORIGIN) then new_with_selected_parent sp 1
      else
        daa ← unwrap (daa_score S !! sp);
        let k := get_param k_param daa in
        d ← new_with_selected_parent sp k;
        ordered_mergeset ← ordered_mergeset_without_selected_parent fuel sp parents;
        d ← color_blocks fuel k ordered_mergeset d;
        spd ← get_data sp;
        blue_score ← checked 64 (blue_score spd + Z.of_nat (length (mergeset_blues d)));
        works ← mapM block_work (mergeset_blues d);
        let added_blue_work := foldl add192 0 works in
        let blue_work := add192 (blue_work spd) added_blue_work in
        Ok (finalize_score_and_work d blue_score blue_work)
  end.

End Manager.

End Ghostdag.
