(* ===== verification/GhostdagProofs.v ===== *)
(** * Theorems on GHOSTDAG

    The colouring of a block's mergeset is the greedy one: in the order of the blocks,
    a block is blue exactly if the blue set stays a k-cluster, in which no block has more
    than k others in its anticone.  In every DAG that grows from the genesis block, all
    stored anticone sizes are exact, and the protocol neither panics nor loops. *)
From Stdlib Require Import ZArith Lia.
From stdpp Require Import base numbers list gmap sorting relations.
From S2P Require Import Prelude Uint UintProofs Ghostdag.
Import Ghostdag.Ghostdag.
Open Scope Z_scope.

Module GhostdagProofs.

(** ** How many elements of a list have a property *)

Inductive count {A} (P : A -> Prop) : list A -> nat -> Prop :=
| count_nil : count P [] 0
| count_in x l n : P x -> count P l n -> count P (x :: l) (S n)
| count_out x l n : ~ P x -> count P l n -> count P (x :: l) n.

Section Count.
Context {A : Type}.
Implicit Types (P Q : A -> Prop) (l : list A).

Lemma count_det P l n m : count P l n -> count P l m -> n = m.
Proof. intros H. revert m. induction H; inversion 1; subst; try done; f_equal; auto. Qed.

Lemma count_app P l1 l2 n1 n2 : count P l1 n1 -> count P l2 n2 -> count P (l1 ++ l2) (n1 + n2).
Proof. induction 1; intros H2; cbn; [done|apply count_in; auto|apply count_out; auto]. Qed.

Lemma count_app_inv P l1 l2 n : count P (l1 ++ l2) n -> exists n1 n2, n = (n1 + n2)%nat /\ count P l1 n1 /\ count P l2 n2.
Proof.
  revert n. induction l1 as [|x l1 IH]; intros n H; [exists 0%nat, n; split_and!; [done|constructor|done]|].
  inversion H as [|? ? n' Hx Hn|? ? n' Hx Hn]; subst; destruct (IH _ Hn) as (n1 & n2 & -> & H1 & H2).
  - exists (S n1), n2. split_and!; [done|by constructor|done].
  - exists n1, n2. split_and!; [done|by constructor|done].
Qed.

Lemma count_perm P l1 l2 n : l1 ≡ₚ l2 -> count P l1 n -> count P l2 n.
Proof.
  intros Hp. revert n. induction Hp as [|x l1 l2 Hp IH|x y l|l1 l2 l3 H1 IH1 H2 IH2]; intros n H.
  - done.
  - inversion H; subst; [apply count_in|apply count_out]; auto.
  - inversion H as [|? ? n' Hx Hn|? ? n' Hx Hn]; subst; inversion Hn; subst;
      repeat first [assumption | apply count_in; [assumption|] | apply count_out; [assumption|]].
  - auto.
Qed.

Lemma count_none P l : (forall x, x ∈ l -> ~ P x) -> count P l 0.
Proof. induction l as [|x l IH]; intros H; [constructor|]. apply count_out; [apply H; left|apply IH; intros; apply H; by right]. Qed.

Lemma count_all P l : (forall x, x ∈ l -> P x) -> count P l (length l).
Proof. induction l as [|x l IH]; intros H; [constructor|]. apply count_in; [apply H; left|apply IH; intros; apply H; by right]. Qed.

Lemma count_ext P Q l n : (forall x, x ∈ l -> P x <-> Q x) -> count P l n -> count Q l n.
Proof.
  intros H C. induction C as [|x l n Hx C IH|x l n Hx C IH]; [constructor|apply count_in|apply count_out].
  1, 3: by rewrite <- (H x ltac:(left)). all: apply IH; intros y Hy; apply H; by right.
Qed.

Lemma count_total P l : (forall x, x ∈ l -> P x \/ ~ P x) -> exists n, count P l n.
Proof.
  induction l as [|x l IH]; intros H; [by exists 0%nat; constructor|].
  destruct IH as [n Hn]; [intros; apply H; by right|]. destruct (H x ltac:(left)); [exists (S n)|exists n]; by constructor.
Qed.

Lemma count_le P l n : count P l n -> (n <= length l)%nat.
Proof. induction 1; cbn; lia. Qed.

End Count.

Lemma u16_small x : 0 <= x < 2 ^ 16 -> u16 x = x.
Proof. intros Hx. unfold u16. change 0xFFFF with (Z.ones 16). rewrite Z.land_ones, Z.mod_small; lia. Qed.

(** ** The DAG *)

Definition parent_of (s : stores) (b p : Hash) : Prop := exists ps, relations s !! b = Some ps /\ p ∈ ps.
(** [a] is in the past of [b], or is [b]. *)
Definition anc (s : stores) (a b : Hash) : Prop := rtc (parent_of s) b a.
Definition anticone (s : stores) (a b : Hash) : Prop := ~ anc s a b /\ ~ anc s b a.

Lemma anc_refl s a : anc s a a.
Proof. apply rtc_refl. Qed.
Lemma anc_trans s a b c : anc s a b -> anc s b c -> anc s a c.
Proof. intros H1 H2. unfold anc in *. by etrans. Qed.
Lemma anc_parent s a p b : parent_of s b p -> anc s a p -> anc s a b.
Proof. intros H1 H2. by eapply rtc_l. Qed.

(** No block has more than [k] others of the set in its anticone. *)
Definition cluster (s : stores) (k : Z) (l : list Hash) : Prop :=
  forall x, x ∈ l -> exists n, count (anticone s x) l n /\ Z.of_nat n <= k.

Lemma cluster_perm s k l l' : l ≡ₚ l' -> cluster s k l -> cluster s k l'.
Proof.
  intros Hp H x Hx. rewrite <- Hp in Hx. destruct (H x Hx) as (n & Hn & Hk). exists n. split; [|done]. by eapply count_perm.
Qed.

Section Dag.
Context (genesis : Hash) (kp : ForkedParam) (level : Z).

(** The work of a block, that of its bits or the least of its level *)
Definition work (s : stores) (b : Hash) (w : Z) : Prop := block_work level s b = Ok w.

(** The blue past of a block: its blue mergeset and the blue past of its selected
    parent. *)
Inductive blues (s : stores) : Hash -> list Hash -> Prop :=
| blues_genesis : blues s genesis []
| blues_block b d r l : b <> genesis -> gd s !! b = Some d -> mergeset_blues d = selected_parent d :: r ->
    blues s (selected_parent d) l -> blues s b (mergeset_blues d ++ l).

Lemma blues_det s b l l' : blues s b l -> blues s b l' -> l = l'.
Proof.
  intros H. revert l'. induction H as [|b d r l Hb Hd Hm Hl IH]; intros l' H'; inversion H' as [|? d' r' l0 Hb' Hd' Hm' Hl']; subst; try done.
  rewrite Hd in Hd'. injection Hd' as <-. f_equal. by apply IH.
Qed.

(** The size that is stored for a block of the blue past, [m] blocks down the chain *)
Inductive looks (s : stores) : nat -> GhostdagData -> Hash -> Z -> Prop :=
| looks_here d x n : blues_anticone_sizes d !! x = Some n -> looks s 0 d x n
| looks_next m d d' x n : blues_anticone_sizes d !! x = None -> selected_parent d <> genesis -> selected_parent d <> ORIGIN ->
    gd s !! selected_parent d = Some d' -> looks s m d' x n -> looks s (S m) d x n.

Lemma looks_det s m d x n m' n' : looks s m d x n -> looks s m' d x n' -> n = n'.
Proof.
  intros H. revert m' n'. induction H as [d x n H|m d d' x n H1 H2 H3 H4 H5 IH]; intros m' n' H'; inversion H'; subst; try congruence.
  assert (d' = d'0) as -> by congruence. by eapply IH.
Qed.

Lemma blue_anticone_ok s m d x n fuel : looks s m d x n -> (m <= fuel)%nat -> blue_anticone_size genesis s fuel x d = Ok n.
Proof.
  unfold blue_anticone_size. intros H. revert fuel. induction H as [d x n H|m d d' x n H1 H2 H3 H4 H5 IH]; intros fuel Hf.
  - destruct fuel; cbn [blue_anticone_loop]; by rewrite H.
  - destruct fuel as [|fuel]; [lia|]. cbn [blue_anticone_loop]. rewrite H1, !bool_decide_eq_false_2 by done. cbn [orb].
    unfold get_data. rewrite H4. cbn [unwrap mbind result_bind]. apply IH. lia.
Qed.

(** All blocks of a blue set have the right size stored. *)
Definition sized (s : stores) (d : GhostdagData) (l : list Hash) : Prop :=
  forall x, x ∈ l -> exists m n, looks s m d x (Z.of_nat n) /\ (m <= length l)%nat /\ count (anticone s x) l n.

(** A block that is not the first one *)
Record block_ok (s : stores) (b : Hash) (d : GhostdagData) : Prop := {
  bk_parents : exists ps, relations s !! b = Some ps /\ selected_parent d ∈ ps /\
    forall p, p ∈ ps -> p <> ORIGIN /\ exists dp, gd s !! p = Some dp /\ blue_work dp < blue_work d;
  bk_daa : exists x y, daa_score s !! selected_parent d = Some x /\ daa_score s !! b = Some y /\ x <= y;
  bk_blues : exists l ws, blues s b l /\ NoDup l /\ (forall x, x ∈ l -> x <> b /\ x <> ORIGIN /\ anc s x b) /\
    (forall x, daa_score s !! selected_parent d = Some x -> cluster s (get_param kp x) l) /\ sized s d l /\
    blue_score d = Z.of_nat (length l) /\ Forall2 (work s) l ws /\ blue_work d = foldr Z.add 0 ws }.

Record dag_ok (s : stores) : Prop := {
  dg_dom : dom (relations s) = {[ORIGIN]} ∪ dom (gd s);
  dg_no_origin : gd s !! ORIGIN = None;
  dg_genesis_ne : genesis <> ORIGIN;
  dg_origin : relations s !! ORIGIN = Some [];
  dg_genesis : relations s !! genesis = Some [ORIGIN] /\ gd s !! genesis = Some genesis_ghostdag_data;
  dg_header : forall b, b ∈ dom (gd s) -> b <> ORIGIN -> (exists x, daa_score s !! b = Some x) /\ (exists w, work s b w /\ 0 < w);
  dg_block : forall b d, gd s !! b = Some d -> b <> ORIGIN -> b <> genesis -> block_ok s b d }.

Definition real (s : stores) (b : Hash) : Prop := b ∈ dom (gd s) /\ b <> ORIGIN.

Section State.
Context (s : stores) (OK : dag_ok s).

Lemma anc_origin a : anc s a ORIGIN -> a = ORIGIN.
Proof.
  intros H. inversion H as [|? p ? (ps & Hps & Hp) _]; [done|]. rewrite (dg_origin s OK) in Hps. injection Hps as <-. by apply elem_of_nil in Hp.
Qed.

Lemma real_block b : real s b -> b <> genesis -> exists d, gd s !! b = Some d /\ block_ok s b d.
Proof.
  intros [[d Hd]%elem_of_dom Ho] Hg. exists d. split; [done|]. by apply (dg_block s OK).
Qed.

(** Work grows from parents to children. *)
Lemma anc_work a b db : real s b -> gd s !! b = Some db -> anc s a b -> a <> ORIGIN ->
  a = b \/ exists da, gd s !! a = Some da /\ blue_work da < blue_work db.
Proof.
  intros Hr Hd H Ha. revert db Hr Hd. unfold anc in H. induction H as [b|b p a Hp H IH]; intros db Hr Hd; [by left|]. right.
  destruct (decide (b = genesis)) as [->|Hg].
  { destruct Hp as (ps & Hps & Hp). rewrite (proj1 (dg_genesis s OK)) in Hps. injection Hps as <-. apply list_elem_of_singleton in Hp as ->.
    by apply anc_origin in H. }
  destruct (real_block b Hr Hg) as (d & Hd' & [(ps & Hps & _ & Hall) _ _]). assert (d = db) as -> by congruence.
  destruct Hp as (ps' & Hps' & Hp). assert (ps' = ps) as -> by congruence. destruct (Hall p Hp) as (Hpo & dp & Hdp & Hlt).
  destruct (IH Ha dp) as [->|(da & Hda & Hlt')].
  - split; [by apply elem_of_dom_2 in Hdp|done].
  - done.
  - by exists dp.
  - exists da. split; [done|lia].
Qed.

Lemma anc_real a b : real s b -> anc s a b -> a <> ORIGIN -> real s a.
Proof.
  intros Hr H Ha. pose proof Hr as [[db Hd]%elem_of_dom _]. destruct (anc_work a b db Hr Hd H Ha) as [->|(da & Hda & _)]; [done|].
  split; [by apply elem_of_dom_2 in Hda|done].
Qed.

Lemma anc_antisym a b : real s a -> real s b -> anc s a b -> anc s b a -> a = b.
Proof.
  intros Ha Hb H1 H2. pose proof Ha as [[da Hda]%elem_of_dom Hao]. pose proof Hb as [[db Hdb]%elem_of_dom Hbo].
  destruct (anc_work a b db Hb Hdb H1 Hao) as [->|(da' & Hda' & Hlt)]; [done|].
  destruct (anc_work b a da Ha Hda H2 Hbo) as [->|(db' & Hdb' & Hlt')]; [done|].
  assert (da' = da) as -> by congruence. assert (db' = db) as -> by congruence. lia.
Qed.

(** What holds for every block, the genesis block included *)
Definition blue_facts (b : Hash) (d : GhostdagData) (l : list Hash) (ws : list Z) : Prop :=
  gd s !! b = Some d /\ blues s b l /\ NoDup l /\ (forall x, x ∈ l -> x <> b /\ x <> ORIGIN /\ anc s x b) /\
  (forall x, daa_score s !! b = Some x -> cluster s (get_param kp x) l) /\ sized s d l /\
  blue_score d = Z.of_nat (length l) /\ Forall2 (work s) l ws /\ blue_work d = foldr Z.add 0 ws.

Lemma get_param_mono x y : pre kp <= post kp -> x <= y -> get_param kp x <= get_param kp y.
Proof. unfold get_param, is_active. intros Hk Hxy. destruct (Z.leb_spec (activation kp) x), (Z.leb_spec (activation kp) y); lia. Qed.

Lemma cluster_mono k k' l : k <= k' -> cluster s k l -> cluster s k' l.
Proof. intros Hk H x Hx. destruct (H x Hx) as (n & Hn & Hle). exists n. split; [done|lia]. Qed.

Lemma real_facts b : pre kp <= post kp -> real s b -> exists d l ws, blue_facts b d l ws.
Proof.
  intros Hk Hr. destruct (decide (b = genesis)) as [->|Hg].
  - exists genesis_ghostdag_data, [], []. split; [apply (dg_genesis s OK)|]. split; [constructor|]. split; [constructor|].
    split; [intros x []%elem_of_nil|]. split; [intros x _ y []%elem_of_nil|]. split; [intros y []%elem_of_nil|]. split; [done|]. by split; [constructor|].
  - destruct (real_block b Hr Hg) as (d & Hd & [_ (x & y & Hx & Hy & Hxy) (l & ws & H1 & H2 & H3 & H4 & H5)]).
    exists d, l, ws. do 4 (split; [done|]). split; [|done]. intros y' Hy'. assert (y' = y) as -> by congruence.
    apply (cluster_mono (get_param kp x)); [by apply get_param_mono|by apply H4].
Qed.

Lemma genesis_first b : pre kp <= post kp -> real s b -> anc s genesis b.
Proof.
  intros Hk Hr. destruct (real_facts b Hk Hr) as (d & l & ws & _ & Hb & _). clear d ws.
  induction Hb as [|b d r l Hg Hd Hm Hl IH]; [apply anc_refl|].
  destruct (real_block b Hr Hg) as (d' & Hd' & [(ps & Hps & Hsp & Hall) _ _]). assert (d' = d) as -> by congruence.
  destruct (Hall _ Hsp) as (Ho & dp & Hdp & _). apply (anc_parent _ _ (selected_parent d)); [by exists ps|].
  apply IH. split; [by apply elem_of_dom_2 in Hdp|done].
Qed.

(** ** Order *)

Definition wk (b : Hash) : Z := match gd s !! b with Some d => blue_work d | None => 0 end.
Definition key (b : Hash) : SortableBlock := mk_sortable b (wk b).

Lemma mapM_sortable l : (forall x, x ∈ l -> x ∈ dom (gd s)) -> mapM (sortable s) l = Ok (key <$> l).
Proof.
  intros H. apply mapM_ok, Forall_forall. intros x Hx. destruct (proj1 (elem_of_dom _ _) (H x Hx)) as [d Hd].
  unfold sortable, get_data, key, wk. by rewrite Hd.
Qed.

Lemma sortable_le_spec a b : sortable_le a b = true <-> sb_work a < sb_work b \/ sb_work a = sb_work b /\ sb_hash a <= sb_hash b.
Proof.
  unfold sortable_le, sortable_cmp. destruct (Z.compare_spec (sb_work a) (sb_work b)), (Z.compare_spec (sb_hash a) (sb_hash b)); split; intros; try done; lia.
Qed.

Lemma max_sortable_spec l b : max_sortable l = Some b -> b ∈ l /\ forall x, x ∈ l -> sortable_le x b = true.
Proof.
  revert b. induction l as [|x l IH]; intros b; [done|]. cbn [max_sortable]. destruct (max_sortable l) as [y|] eqn:Ey; intros [= <-].
  - destruct (IH y eq_refl) as [Hy Hall]. destruct (sortable_le x y) eqn:Ex.
    + split; [by right|]. intros z [->|Hz]%elem_of_cons; [done|by apply Hall].
    + split; [left|]. assert (sortable_le y x = true) as Hyx.
      { apply sortable_le_spec. destruct (decide (sb_work x < sb_work y \/ sb_work x = sb_work y /\ sb_hash x <= sb_hash y)) as [H|H]; [|lia].
        apply sortable_le_spec in H. congruence. }
      intros z [->|Hz]%elem_of_cons; [apply sortable_le_spec; lia|]. specialize (Hall z Hz). rewrite sortable_le_spec in *. lia.
  - destruct l as [|y l]; [|cbn in Ey; destruct (max_sortable l); done]. split; [left|]. intros z [->|[]%elem_of_nil]%elem_of_cons. apply sortable_le_spec. lia.
Qed.

Lemma max_sortable_some l : l <> [] -> exists b, max_sortable l = Some b.
Proof. destruct l as [|x l]; [done|]. intros _. cbn. destruct (max_sortable l); by eexists. Qed.

Lemma find_selected_parent_ok ps : ps <> [] -> (forall p, p ∈ ps -> p ∈ dom (gd s)) ->
  exists sp, find_selected_parent s ps = Ok sp /\ sp ∈ ps /\ forall p, p ∈ ps -> wk p < wk sp \/ wk p = wk sp /\ p <= sp.
Proof.
  intros Hne Hps. unfold find_selected_parent. rewrite mapM_sortable, ok_bind by done.
  destruct (max_sortable_some (key <$> ps)) as [b Hb]; [by destruct ps|]. rewrite Hb. cbn [unwrap mbind result_bind].
  destruct (max_sortable_spec _ _ Hb) as [Hin Hall]. apply list_elem_of_fmap in Hin as (sp & -> & Hsp). exists sp. split; [done|]. split; [done|].
  intros p Hp. apply (sortable_le_spec (key p) (key sp)). apply Hall. apply list_elem_of_fmap. by exists p.
Qed.

Lemma insert_sorted_perm x l : insert_sorted x l ≡ₚ x :: l.
Proof.
  induction l as [|y l IH]; [done|]. cbn [insert_sorted]. destruct (sortable_le x y); [done|]. rewrite IH. apply Permutation_swap.
Qed.

Lemma sort_perm l : sort l ≡ₚ l.
Proof. induction l as [|x l IH]; [done|]. cbn [sort]. by rewrite insert_sorted_perm, IH. Qed.

Lemma sort_sorted l : ForallOrdPairs (fun a b => sortable_le a b = true) (sort l).
Proof.
  induction l as [|x l IH]; [constructor|]. cbn [sort]. induction IH as [|y t Hy Ht IHt]; [repeat constructor|]. cbn [insert_sorted].
  destruct (sortable_le x y) eqn:E.
  - constructor; [|by constructor]. constructor; [done|]. apply (Forall_impl _ _ _ Hy). intros z Hz. rewrite sortable_le_spec in *. lia.
  - constructor; [|done]. rewrite insert_sorted_perm. constructor; [|done].
    apply sortable_le_spec. destruct (decide (sb_work x < sb_work y \/ sb_work x = sb_work y /\ sb_hash x <= sb_hash y)) as [H|H]; [|lia].
    apply sortable_le_spec in H. congruence.
Qed.

Lemma sort_blocks_ok l : (forall x, x ∈ l -> x ∈ dom (gd s)) ->
  exists cs, sort_blocks s l = Ok cs /\ cs ≡ₚ l /\ ForallOrdPairs (fun a c => wk a < wk c \/ wk a = wk c /\ a <= c) cs.
Proof.
  intros H. unfold sort_blocks. rewrite mapM_sortable, ok_bind by done. eexists. split; [done|]. split.
  - rewrite sort_perm, <- list_fmap_compose. erewrite list_fmap_ext; [by rewrite list_fmap_id|done].
  - pose proof (sort_sorted (key <$> l)) as Hs. assert (Forall (fun b => sb_work b = wk (sb_hash b)) (sort (key <$> l))) as Hk.
    { rewrite sort_perm. by apply Forall_fmap, Forall_true. }
    induction Hs as [|x t Hx Ht IH]; cbn [fmap list_fmap]; [constructor|]. apply Forall_cons in Hk as [Hkx Hkt]. constructor; [|by apply IH].
    apply Forall_fmap, Forall_forall. intros y Hy. rewrite Forall_forall in Hx, Hkt. specialize (Hx y Hy). specialize (Hkt y Hy).
    apply sortable_le_spec in Hx. cbn. lia.
Qed.

(** ** The mergeset *)

Section Mergeset.
Context (o : Hash -> Hash -> bool) (Hkp : pre kp <= post kp).
Context (Ho : forall a b, a ∈ dom (gd s) -> b ∈ dom (gd s) -> (o a b = true <-> anc s a b)).
Context (sp : Hash) (ps : list Hash) (Hsp : real s sp) (Hps : forall p, p ∈ ps -> real s p).

(** In the past of a parent, but not of the selected one *)
Definition in_mergeset (x : Hash) : Prop := real s x /\ ~ anc s x sp /\ exists p, p ∈ ps /\ p <> sp /\ anc s x p.

Lemma mergeset_parent x y : in_mergeset x -> parent_of s x y -> real s y /\ (~ anc s y sp -> in_mergeset y).
Proof.
  intros (Hr & Hna & p & Hp & Hne & Hxp) (qs & Hqs & Hy).
  assert (x <> genesis) as Hg by (intros ->; apply Hna; by apply genesis_first).
  destruct (real_block x Hr Hg) as (d & Hd & [(qs' & Hqs' & _ & Hall) _ _]). assert (qs' = qs) as -> by congruence.
  destruct (Hall y Hy) as (Hyo & dy & Hdy & _). assert (real s y) as Hry by (split; [by apply elem_of_dom_2 in Hdy|done]).
  assert (anc s y x) as Hyx by (apply (anc_parent _ _ y); [by exists qs|apply anc_refl]).
  assert (~ anc s y sp -> in_mergeset y) as Hin.
  { intros Hn. split; [done|]. split; [done|]. exists p. split; [done|]. split; [done|]. by eapply anc_trans. }
  done.
Qed.

Lemma visit_parents_ok cur qs : in_mergeset cur -> (forall y, y ∈ qs -> parent_of s cur y) -> forall queue M P,
  (forall x, x ∈ M -> in_mergeset x) -> (forall x, x ∈ P -> anc s x sp) ->
  let '(queue', M', P') := visit_parents o sp qs queue M P in
  exists new, queue' = queue ++ new /\ M' = list_to_set new ∪ M /\ NoDup new /\ (forall x, x ∈ new -> x ∉ M /\ in_mergeset x) /\
    (forall x, x ∈ P' -> anc s x sp) /\ (forall y, y ∈ qs -> y ∈ M' \/ anc s y sp).
Proof.
  intros Hcur. induction qs as [|y qs IH]; intros Hqs queue M P HM HP; cbn [visit_parents].
  { exists []. rewrite app_nil_r. cbn [list_to_set]. rewrite union_empty_l_L. split_and!; [done|done|constructor|intros x []%elem_of_nil|done|intros y []%elem_of_nil]. }
  assert (forall y, y ∈ qs -> parent_of s cur y) as Hqs' by (intros; apply Hqs; by right).
  destruct (mergeset_parent cur y Hcur (Hqs y ltac:(left))) as (Hry & Hin).
  destruct (bool_decide (y ∈ M) || bool_decide (y ∈ P)) eqn:Emp.
  - specialize (IH Hqs' queue M P HM HP). destruct (visit_parents o sp qs queue M P) as [[q' M'] P'].
    destruct IH as (new & -> & -> & Hn1 & Hn2 & Hn3 & Hn4). exists new. do 5 (split; [done|]). intros z [->|Hz]%elem_of_cons; [|by apply Hn4].
    apply orb_prop in Emp as [E%bool_decide_eq_true_1|E%bool_decide_eq_true_1]; [left; set_solver|right; by apply HP].
  - apply orb_false_elim in Emp as [EM%bool_decide_eq_false_1 EP%bool_decide_eq_false_1].
    destruct (o y sp) eqn:Eo.
    + apply (Ho y sp (proj1 Hry) (proj1 Hsp)) in Eo. assert (forall x, x ∈ {[y]} ∪ P -> anc s x sp) as HP' by (intros x; set_solver).
      specialize (IH Hqs' queue M ({[y]} ∪ P) HM HP'). destruct (visit_parents o sp qs queue M ({[y]} ∪ P)) as [[q' M'] P'].
      destruct IH as (new & -> & -> & Hn1 & Hn2 & Hn3 & Hn4). exists new. do 5 (split; [done|]). intros z [->|Hz]%elem_of_cons; [by right|by apply Hn4].
    + assert (~ anc s y sp) as Hna by (intros H; apply (Ho y sp (proj1 Hry) (proj1 Hsp)) in H; congruence). specialize (Hin Hna).
      opose proof* (IH Hqs' (queue ++ [y]) ({[y]} ∪ M) P) as IH'; clear IH.
      { intros x [Hx|Hx]%elem_of_union; [apply elem_of_singleton in Hx as ->; done|by apply HM]. }
      { done. }
      destruct (visit_parents o sp qs (queue ++ [y]) ({[y]} ∪ M) P) as [[q' M'] P'].
      destruct IH' as (new & -> & -> & Hn1 & Hn2 & Hn3 & Hn4). exists (y :: new). rewrite <- app_assoc. split; [done|].
      cbn [list_to_set]. split; [set_solver|]. split; [constructor; [intros H; destruct (Hn2 y H); set_solver|done]|].
      split; [intros x [->|Hx]%elem_of_cons; [done|]; destruct (Hn2 x Hx); split; [set_solver|done]|]. split; [done|].
      intros z [->|Hz]%elem_of_cons; [left; set_solver|]. destruct (Hn4 z Hz); [left; set_solver|by right].
Qed.

Context (Hanti : forall p q, p ∈ ps -> q ∈ ps -> anc s p q -> p = q) (Hspp : sp ∈ ps).

Lemma mergeset_complete (M : gset Hash) : (forall x, x ∈ M -> in_mergeset x) -> (forall p, p ∈ ps -> p <> sp -> p ∈ M) ->
  (forall x, x ∈ M -> forall y, parent_of s x y -> y ∈ M \/ anc s y sp) -> forall x, x ∈ M <-> in_mergeset x.
Proof.
  intros Hin Hp Hcl x. split; [apply Hin|]. intros (Hr & Hna & p & Hpp & Hne & Hxp). specialize (Hp p Hpp Hne). clear Hpp Hne.
  unfold anc in Hxp. induction Hxp as [x|p y x Hy Hxy IH]; [done|]. apply IH; try done.
  destruct (Hcl p Hp y Hy) as [?|H]; [done|]. destruct Hna. by eapply anc_trans.
Qed.

Lemma mergeset_loop_ok fuel : forall queue M P, (forall x, x ∈ queue -> x ∈ M) -> (forall x, x ∈ M -> in_mergeset x) ->
  (forall x, x ∈ P -> anc s x sp) -> (forall p, p ∈ ps -> p <> sp -> p ∈ M) ->
  (forall x, x ∈ M -> x ∉ queue -> forall y, parent_of s x y -> y ∈ M \/ anc s y sp) ->
  (length queue + size (dom (gd s) ∖ M) <= fuel)%nat ->
  exists M', mergeset_loop s o fuel sp queue M P = Ok M' /\ forall x, x ∈ M' <-> in_mergeset x.
Proof.
  induction fuel as [|fuel IH]; intros queue M P HqM HM HP Hp Hcl Hf.
  { destruct queue; [|cbn in Hf; lia]. exists M. split; [done|]. apply mergeset_complete; [done|done|]. intros x Hx. apply Hcl; [done|apply not_elem_of_nil]. }
  destruct queue as [|c queue]; cbn [mergeset_loop].
  { exists M. split; [done|]. apply mergeset_complete; [done|done|]. intros x Hx. apply Hcl; [done|apply not_elem_of_nil]. }
  assert (in_mergeset c) as Hc by (apply HM, HqM; left).
  assert (exists qs, relations s !! c = Some qs) as [qs Hqs].
  { apply elem_of_dom. rewrite (dg_dom s OK). apply elem_of_union_r, Hc. }
  rewrite Hqs. cbn [unwrap mbind result_bind].
  opose proof* (visit_parents_ok c qs Hc ltac:(intros y Hy; by exists qs) queue M P) as Hv; [done|done|].
  destruct (visit_parents o sp qs queue M P) as [[q' M'] P']. destruct Hv as (new & -> & -> & Hn1 & Hn2 & Hn3 & Hn4).
  assert (forall x, x ∈ queue ++ new -> x ∈ list_to_set new ∪ M) as HqM'.
  { intros x [Hx|Hx]%elem_of_app; [apply elem_of_union_r, HqM; by right|]. apply elem_of_union_l. by apply elem_of_list_to_set. }
  apply IH.
  - done.
  - intros x [Hx|Hx]%elem_of_union; [apply elem_of_list_to_set in Hx; by apply Hn2|by apply HM].
  - done.
  - intros p Hpp Hne. apply elem_of_union_r. by apply Hp.
  - intros x [Hx|Hx]%elem_of_union Hnq y Hy.
    { apply elem_of_list_to_set in Hx. destruct Hnq. apply elem_of_app. by right. }
    destruct (decide (x = c)) as [->|Hne].
    { apply Hn4. destruct Hy as (qs' & Hqs' & Hy). by assert (qs' = qs) as <- by congruence. }
    destruct (Hcl x Hx) with y as [?|?]; [|done|left; by apply elem_of_union_r|by right].
    intros [->|H]%elem_of_cons; [done|]. apply Hnq, elem_of_app. by left.
  - assert (size (dom (gd s) ∖ M) = (length new + size (dom (gd s) ∖ (list_to_set new ∪ M)))%nat) as E.
    { rewrite <- (size_list_to_set (C := gset Hash) new Hn1). rewrite <- size_union.
      - f_equal. apply set_eq. intros x. split.
        + intros [H1 H2]%elem_of_difference. destruct (decide (x ∈ new)); [apply elem_of_union_l; by apply elem_of_list_to_set|].
          apply elem_of_union_r, elem_of_difference. split; [done|]. intros [H%elem_of_list_to_set|H]%elem_of_union; done.
        + intros [H%elem_of_list_to_set|[H1 H2]%elem_of_difference]%elem_of_union; apply elem_of_difference.
          * destruct (Hn2 x H) as [Hm ((Hr & _) & _)]. done.
          * split; [done|]. intros H. apply H2. by apply elem_of_union_r.
      - intros x H1%elem_of_list_to_set [_ H2]%elem_of_difference. apply H2, elem_of_union_l. by apply elem_of_list_to_set. }
    rewrite length_app. cbn [length] in Hf. lia.
Qed.

(** The search returns the past of the parents that is not in the past of the selected
    one, within as many steps as there are parents and blocks. *)
Lemma mergeset_ok fuel : (length ps + size (dom (gd s)) <= fuel)%nat ->
  exists M, unordered_mergeset_without_selected_parent s o fuel sp ps = Ok M /\ forall x, x ∈ M <-> in_mergeset x.
Proof.
  intros Hf. unfold unordered_mergeset_without_selected_parent. set (queue := filter (fun p => p <> sp) ps).
  assert (forall x, x ∈ queue <-> x <> sp /\ x ∈ ps) as Hq by (intros x; unfold queue; by rewrite list_elem_of_filter).
  assert (forall x, x ∈ queue -> in_mergeset x) as Hin.
  { intros x [Hne Hx]%Hq. split; [by apply Hps|]. split; [intros H; apply Hne; by apply Hanti|]. exists x. split; [done|]. split; [done|]. apply anc_refl. }
  apply mergeset_loop_ok.
  - intros x Hx. by apply elem_of_list_to_set.
  - intros x Hx%elem_of_list_to_set. by apply Hin.
  - intros x Hx. by apply not_elem_of_empty in Hx.
  - intros p Hp Hne. apply elem_of_list_to_set. by apply Hq.
  - intros x Hx Hn. destruct Hn. by apply elem_of_list_to_set in Hx.
  - assert (length queue <= length ps)%nat by apply length_filter. assert (size (dom (gd s) ∖ list_to_set queue) <= size (dom (gd s)))%nat; [|lia].
    apply subseteq_size, subseteq_difference_l. done.
Qed.

Lemma ordered_mergeset_ok fuel : (length ps + size (dom (gd s)) <= fuel)%nat ->
  exists cs, ordered_mergeset_without_selected_parent s o fuel sp ps = Ok cs /\ NoDup cs /\ (forall x, x ∈ cs <-> in_mergeset x) /\
    ForallOrdPairs (fun a c => wk a < wk c \/ wk a = wk c /\ a <= c) cs.
Proof.
  intros Hf. unfold ordered_mergeset_without_selected_parent. destruct (mergeset_ok fuel Hf) as (M & -> & HM). rewrite ok_bind.
  destruct (sort_blocks_ok (elements M)) as (cs & -> & Hperm & Hs).
  { intros x Hx%elem_of_elements. apply HM in Hx. apply Hx. }
  exists cs. split; [done|]. split; [rewrite Hperm; apply NoDup_elements|]. split; [|done]. intros x. by rewrite Hperm, elem_of_elements, HM.
Qed.

Lemma mergeset_anticone x : in_mergeset x -> anticone s sp x.
Proof.
  intros (Hr & Hna & p & Hp & Hne & Hxp). split; [|done]. intros H. apply Hne. symmetry. apply Hanti; [done|done|]. by eapply anc_trans.
Qed.

Lemma wk_order cs : NoDup cs -> (forall x, x ∈ cs -> real s x) -> ForallOrdPairs (fun a c => wk a < wk c \/ wk a = wk c /\ a <= c) cs ->
  ForallOrdPairs (fun a c => ~ anc s c a) cs.
Proof.
  intros Hn Hr H. induction H as [|a cs Ha H IH]; [constructor|]. apply NoDup_cons in Hn as [Hna Hn]. constructor; [|apply IH; [done|intros; apply Hr; by right]].
  apply Forall_forall. intros c Hc Hanc. rewrite Forall_forall in Ha. specialize (Ha c Hc).
  pose proof (Hr a ltac:(left)) as Hra. pose proof Hra as [[da Hda]%elem_of_dom _].
  destruct (anc_work c a da Hra Hda Hanc (proj2 (Hr c ltac:(by right)))) as [->|(dc & Hdc & Hlt)]; [done|].
  unfold wk in Ha. rewrite Hda, Hdc in Ha. lia.
Qed.

End Mergeset.


(** ** One candidate *)

(** The reachability service answers for stored blocks. *)
Definition oracle_ok (o : Hash -> Hash -> bool) : Prop :=
  forall a b, a ∈ dom (gd s) -> b ∈ dom (gd s) -> (o a b = true <-> anc s a b).

Section Candidate.
Context (o : Hash -> Hash -> bool) (Ho : oracle_ok o) (Hkp : pre kp <= post kp).
Context (sp : Hash) (dsp : GhostdagData) (l0 : list Hash) (ws0 : list Z) (Hsp : real s sp) (F : blue_facts sp dsp l0 ws0).
Context (k : Z) (Hk : 0 <= k < 2 ^ 16 - 1) (fuel : nat) (Hfuel : (size (dom (gd s)) < fuel)%nat).

(** The data of the new block when some of the mergeset is coloured: [added] is blue. *)
Record prog (D : GhostdagData) (added : list Hash) : Prop := {
  pg_sp : selected_parent D = sp;
  pg_blues : mergeset_blues D = sp :: added;
  pg_nodup : NoDup (mergeset_blues D ++ l0);
  pg_real : forall x, x ∈ mergeset_blues D ++ l0 -> real s x;
  pg_cluster : cluster s k (mergeset_blues D ++ l0);
  pg_sized : sized s D (mergeset_blues D ++ l0);
  pg_added : forall a, a ∈ added -> anticone s sp a }.

Lemma real_length l : NoDup l -> (forall x, x ∈ l -> real s x) -> (length l < fuel)%nat.
Proof.
  intros Hn Hr. rewrite <- (size_list_to_set (C := gset Hash) l Hn). apply Nat.le_lt_trans with (size (dom (gd s))); [|exact Hfuel].
  apply subseteq_size. intros x Hx. apply elem_of_list_to_set in Hx. by apply Hr.
Qed.

Lemma pg_fuel D added : prog D added -> (length (mergeset_blues D ++ l0) < fuel)%nat.
Proof. intros HP. apply real_length; apply HP. Qed.

Lemma anc_dec a b : real s a -> real s b -> anc s a b \/ ~ anc s a b.
Proof.
  intros [Ha _] [Hb _]. pose proof (Ho a b Ha Hb) as H. destruct (o a b); [left; by apply H|right; intros H'; by apply H in H'].
Qed.

Lemma anticone_dec a b : real s a -> real s b -> anticone s a b \/ ~ anticone s a b.
Proof.
  intros Ha Hb. unfold anticone. destruct (anc_dec a b Ha Hb), (anc_dec b a Hb Ha); tauto.
Qed.

Lemma oracle_false a b : real s a -> real s b -> o a b = false -> ~ anc s a b.
Proof. intros [Ha _] [Hb _] E H. apply (Ho a b Ha Hb) in H. congruence. Qed.

(** The sizes that are gathered for the blocks in [V] *)
Definition sizes_for (B : list Hash) (V : Hash -> Prop) (sizes : gmap Hash Z) : Prop :=
  (forall x n, sizes !! x = Some n -> V x /\ exists q, count (anticone s x) B q /\ n = Z.of_nat q) /\
  (forall x, V x -> exists n, sizes !! x = Some n).

Lemma sizes_for_ext B V V' sizes : (forall x, V x <-> V' x) -> sizes_for B V sizes -> sizes_for B V' sizes.
Proof. intros E [H1 H2]. split; [intros x n Hx; rewrite <- E; by apply H1|intros x Hx; apply H2; by apply E]. Qed.

Lemma sizes_for_insert B V sizes p q : count (anticone s p) B q -> sizes_for B V sizes ->
  sizes_for B (fun x => V x \/ x = p) (<[p := Z.of_nat q]> sizes).
Proof.
  intros Hq [H1 H2]. split.
  - intros x n Hx. destruct (decide (x = p)) as [->|Hne].
    + rewrite lookup_insert_eq in Hx. injection Hx as <-. split; [by right|by exists q].
    + rewrite lookup_insert_ne in Hx by done. destruct (H1 x n Hx). split; [by left|done].
  - intros x Hx. destruct (decide (x = p)) as [->|Hne]; [rewrite lookup_insert_eq; by eexists|].
    rewrite lookup_insert_ne by done. destruct Hx as [Hx|]; [by apply H2|done].
Qed.

Section OneCandidate.
Context (D : GhostdagData) (added : list Hash) (HP : prog D added) (c : Hash) (Hc : real s c).
Abbreviation B := (mergeset_blues D ++ l0).

(** The condition that makes a candidate red *)
Definition too_many (P : list Hash) (size : Z) : Prop := exists n, count (fun x => ~ anc s x c) P n /\ k < size + Z.of_nat n.
Definition full (P : list Hash) : Prop := exists x q, x ∈ P /\ ~ anc s x c /\ count (anticone s x) B q /\ Z.of_nat q = k.
Definition free (P : list Hash) : Prop := forall x, x ∈ P -> ~ anc s x c -> exists q, count (anticone s x) B q /\ Z.of_nat q < k.

Lemma past_total P : (forall x, x ∈ P -> real s x) -> exists n, count (fun x => ~ anc s x c) P n.
Proof. intros H. apply count_total. intros x Hx. destruct (anc_dec x c (H x Hx) Hc); tauto. Qed.

Lemma check_peers_ok P : forall V sizes size, (forall x, x ∈ P -> x ∈ B) -> sizes_for B V sizes -> 0 <= size <= k ->
  exists st sizes' size', check_peers genesis s o fuel D P c k sizes size = Ok (st, sizes', size') /\
  match st with
  | StateBlue => False
  | StateRed => too_many P size \/ full P
  | StatePending => exists n, count (fun x => ~ anc s x c) P n /\ size' = size + Z.of_nat n /\ size' <= k /\ free P /\
      sizes_for B (fun x => V x \/ x ∈ P /\ ~ anc s x c) sizes'
  end.
Proof.
  induction P as [|p P IH]; intros V sizes size HB HV Hs; cbn [check_peers].
  { eexists _, _, _. split; [done|]. exists 0%nat. split; [constructor|]. split; [lia|]. split; [lia|]. split; [intros x []%elem_of_nil|].
    eapply sizes_for_ext; [|exact HV]. intros x. split; [by left|]. intros [?|[[]%elem_of_nil _]]; done. }
  assert (p ∈ B) as HpB by (apply HB; left). pose proof (pg_real D added HP p HpB) as Hpr.
  assert (forall x, x ∈ P -> x ∈ B) as HPB by (intros; apply HB; by right).
  destruct (o p c) eqn:Eo.
  - apply (Ho p c (proj1 Hpr) (proj1 Hc)) in Eo. destruct (IH V sizes size HPB HV Hs) as (st & sizes' & size' & E & H).
    exists st, sizes', size'. split; [done|]. destruct st; [done| |].
    + destruct H as [(n & Hn & Hlt)|(x & q & Hx & H)]; [left; exists n; split; [by apply count_out; [tauto|]|done]|].
      right. exists x, q. split; [by right|done].
    + destruct H as (n & Hn & -> & Hle & Hf & HV'). exists n. split; [by apply count_out; [tauto|]|]. do 2 (split; [done|]).
      split; [intros x [->|Hx]%elem_of_cons Hna; [done|by apply Hf]|].
      eapply sizes_for_ext; [|exact HV']. intros x. split; intros [Hx|[Hx Hna]]; [by left| |by left|].
      * right. split; [by right|done].
      * right. split; [|done]. by apply elem_of_cons in Hx as [->|Hx].
  - pose proof (oracle_false p c Hpr Hc Eo) as Hna.
    destruct (pg_sized D added HP p HpB) as (m & q & Hl & Hm & Hq).
    rewrite (blue_anticone_ok s m D p (Z.of_nat q) fuel Hl) by (pose proof (pg_fuel D added HP); lia). rewrite ok_bind.
    rewrite checked_ok, ok_bind by lia.
    destruct (past_total P) as [n Hn]; [intros; apply (pg_real D added HP); auto|].
    assert (count (fun x => ~ anc s x c) (p :: P) (S n)) as Hn' by by apply count_in.
    destruct (Z.ltb_spec k (size + 1)) as [Hlt|Hge].
    { eexists _, _, _. split; [done|]. left. exists (S n). split; [done|lia]. }
    destruct (Z.eqb_spec (Z.of_nat q) k) as [Eq|Hne].
    { eexists _, _, _. split; [done|]. right. exists p, q. split; [left|done]. }
    destruct (pg_cluster D added HP p HpB) as (q' & Hq' & Hqk). assert (q' = q) as -> by (eapply count_det; eassumption).
    rewrite (proj2 (Z.leb_le _ _)) by done. cbn [negb].
    destruct (IH (fun x => V x \/ x = p) (<[p := Z.of_nat q]> sizes) (size + 1) HPB (sizes_for_insert B V sizes p q Hq HV) ltac:(lia))
      as (st & sizes' & size' & E & H).
    exists st, sizes', size'. split; [done|]. destruct st; [done| |].
    + destruct H as [(n' & Hcn & Hlt)|(x & q' & Hx & H)].
      * left. exists (S n'). split; [by apply count_in|lia].
      * right. exists x, q'. split; [by right|done].
    + destruct H as (n' & Hcn & -> & Hle & Hf & HV'). exists (S n'). split; [by apply count_in|]. split; [lia|]. split; [done|].
      split; [intros x [->|Hx]%elem_of_cons Hnx; [exists q; split; [done|lia]|by apply Hf]|].
      eapply sizes_for_ext; [|exact HV']. intros x. rewrite elem_of_cons. split.
      * intros [[Hx| ->]|[Hx Hnx]]; [by left|right; split; [by left|done]|right; split; [by right|done]].
      * intros [Hx|[[->|Hx] Hnx]]; [by left; left|by left; right|by right].
Qed.

Definition at_chain (h : option Hash) (d : GhostdagData) (R : list Hash) : Prop :=
  match h with
  | None => d = D /\ R = B
  | Some b => real s b /\ gd s !! b = Some d /\ blues s b R
  end.

Definition verdict (out : ColoringOutput) : Prop :=
  match out with
  | OutputBlue size sizes => exists q, count (fun x => ~ anc s x c) B q /\ size = Z.of_nat q /\ size <= k /\ free B /\
      sizes_for B (fun x => x ∈ B /\ ~ anc s x c) sizes
  | OutputRed => too_many B 0 \/ full B
  end.

(** Blocks further down the chain: the data of the next one, and what is left *)
Lemma chain_next h d R : at_chain h d R -> h <> Some genesis ->
  exists r l, R = mergeset_blues d ++ l /\ mergeset_blues d = selected_parent d :: r /\ real s (selected_parent d) /\
    exists d', at_chain (Some (selected_parent d)) d' l.
Proof.
  destruct h as [b|]; cbn.
  - intros (Hr & Hd & Hb) Hg. inversion Hb as [|b' d1 r l Hg' Hd1 Hm1 Hl1]; subst; [done|]. assert (d1 = d) as -> by congruence. exists r, l.
    destruct (real_block b Hr ltac:(congruence)) as (d2 & Hd2 & [(ps & Hps & Hspp & Hall) _ _]). assert (d2 = d) as -> by congruence.
    destruct (Hall _ Hspp) as (Hso & dp & Hdp & _). assert (real s (selected_parent d)) by (split; [by apply elem_of_dom_2 in Hdp|done]).
    do 3 (split; [done|]). by exists dp.
  - intros [-> ->] _. exists added, l0. split; [done|]. rewrite (pg_blues D added HP), (pg_sp D added HP). do 2 (split; [done|]).
    exists dsp. split; [done|]. destruct F as (Hd & Hb & _). done.
Qed.

(** Nothing of the chain is left that is not in the past of a block in the future of
    the chain block. *)
Lemma chain_past b d R : at_chain (Some b) d R -> anc s b c -> forall x, x ∈ R -> anc s x c.
Proof.
  intros (Hr & Hd & Hb) Hbc x Hx. destruct (real_facts b Hkp Hr) as (d' & l & ws & _ & Hb' & _ & Hall & _).
  rewrite (blues_det s b R l Hb Hb') in Hx. destruct (Hall x Hx) as (_ & _ & Hxb). by eapply anc_trans.
Qed.

Lemma check_chain_ok n : forall h d Prior R sizes q, B = Prior ++ R -> at_chain h d R -> count (fun x => ~ anc s x c) Prior q ->
  Z.of_nat q <= k -> free Prior -> sizes_for B (fun x => x ∈ Prior /\ ~ anc s x c) sizes -> (length R < n)%nat ->
  exists out, check_chain genesis s o n fuel D h d c k sizes (Z.of_nat q) = Ok out /\ verdict out.
Proof.
  induction n as [|n IH]; intros h d Prior R sizes q EB Hat Hq Hqk Hfr HV Hn; [lia|]. cbn [check_chain].
  unfold check_blue_candidate_with_chain_block.
  destruct (match h with Some hash => o hash c | None => false end) eqn:Eh.
  { destruct h as [b|]; [|done]. apply (Ho b c (proj1 (proj1 Hat)) (proj1 Hc)) in Eh. pose proof (chain_past b d R Hat Eh) as Hall.
    rewrite ok_bind. eexists. split; [done|]. exists q. split; [rewrite EB, <- (Nat.add_0_r q); apply count_app; [done|apply count_none; intros x Hx; pose proof (Hall x Hx); tauto]|].
    do 2 (split; [done|]). split; [intros x Hx Hna; rewrite EB in Hx; apply elem_of_app in Hx as [Hx|Hx]; [by apply Hfr|by apply Hall in Hx]|].
    eapply sizes_for_ext; [|exact HV]. intros x. rewrite EB, elem_of_app. split; [intros [? ?]; tauto|].
    intros [[Hx|Hx] Hna]; [done|by apply Hall in Hx]. }
  assert (h <> Some genesis) as Hg.
  { intros ->. apply (oracle_false genesis c (proj1 Hat) Hc Eh). by apply (genesis_first). }
  destruct (chain_next h d R Hat Hg) as (r & l & ER & Em & Hr & d' & Hat').
  assert (forall x, x ∈ mergeset_blues d -> x ∈ B) as HPB by (intros x Hx; rewrite EB, ER, !elem_of_app; tauto).
  destruct (check_peers_ok (mergeset_blues d) _ sizes (Z.of_nat q) HPB HV ltac:(lia)) as (st & sizes' & size' & E & H).
  rewrite E, ok_bind. destruct st; [done| |].
  - eexists. split; [done|]. destruct H as [(n' & Hn' & Hlt)|(x & q' & Hx & H)].
    + left. destruct (past_total l) as [n2 Hn2]; [intros x Hx; apply (pg_real D added HP); rewrite EB, ER, !elem_of_app; tauto|].
      exists (q + (n' + n2))%nat. split; [rewrite EB, ER; apply count_app; [done|by apply count_app]|lia].
    + right. exists x, q'. split; [by apply HPB|done].
  - destruct H as (n' & Hn' & -> & Hle & Hf & HV'). unfold get_data. destruct Hat' as (Hr' & Hd' & Hb'). rewrite Hd'. cbn [unwrap mbind result_bind].
    replace (Z.of_nat q + Z.of_nat n') with (Z.of_nat (q + n')) in * by lia.
    apply (IH _ d' (Prior ++ mergeset_blues d) l); [by rewrite EB, ER, app_assoc|done|by apply count_app|done| | |].
    + intros x [Hx|Hx]%elem_of_app Hna; [by apply Hfr|by apply Hf].
    + eapply sizes_for_ext; [|exact HV']. intros x. rewrite elem_of_app. tauto.
    + rewrite ER, Em in Hn. cbn [length app] in Hn. rewrite length_app in Hn. lia.
Qed.

Lemma check_chain_start : exists out, check_chain genesis s o fuel fuel D None D c k ∅ 0 = Ok out /\ verdict out.
Proof.
  apply (check_chain_ok fuel None D [] B ∅ 0%nat).
  - done.
  - done.
  - constructor.
  - lia.
  - intros x []%elem_of_nil.
  - split; [intros x n Hx; by rewrite lookup_empty in Hx|intros x [[]%elem_of_nil _]].
  - apply (pg_fuel D added HP).
Qed.

(** *** Candidates that come in order *)

Context (Hcsp : ~ anc s c sp) (Hspc : ~ anc s sp c) (Hca : forall a, a ∈ added -> ~ anc s c a).

Lemma not_future x : x ∈ B -> ~ anc s c x.
Proof.
  rewrite (pg_blues D added HP), elem_of_app, elem_of_cons. intros [[->|Hx]|Hx]; [done|by apply Hca|]. intros H. apply Hcsp.
  destruct F as (_ & _ & _ & Hall & _). destruct (Hall x Hx) as (_ & _ & Hs). by eapply anc_trans.
Qed.

Lemma new_candidate : c ∉ B.
Proof. intros H. apply (not_future c H), anc_refl. Qed.

Lemma anticone_past x : x ∈ B -> (anticone s x c <-> ~ anc s x c) /\ (anticone s c x <-> ~ anc s x c).
Proof. intros Hx. pose proof (not_future x Hx). unfold anticone. tauto. Qed.

Lemma count_candidate q : count (fun x => ~ anc s x c) B q -> count (anticone s c) (c :: B) q.
Proof.
  intros H. apply count_out; [intros [H1 _]; apply H1, anc_refl|]. eapply count_ext; [|exact H]. intros x Hx. symmetry. by apply anticone_past.
Qed.

Lemma count_peer x q : x ∈ B -> count (anticone s x) B q ->
  count (anticone s x) (c :: B) (if o x c then q else S q).
Proof.
  intros Hx Hq. pose proof (pg_real D added HP x Hx) as Hr. destruct (o x c) eqn:Eo.
  - apply (Ho x c (proj1 Hr) (proj1 Hc)) in Eo. apply count_out; [|done]. rewrite (proj1 (anticone_past x Hx)). tauto.
  - apply count_in; [|done]. rewrite (proj1 (anticone_past x Hx)). by apply oracle_false.
Qed.

Lemma red_no_cluster : too_many B 0 \/ full B -> ~ cluster s k (c :: B).
Proof.
  intros [(n & Hn & Hlt)|(x & q & Hx & Hna & Hq & Eq)] Hcl.
  - destruct (Hcl c ltac:(left)) as (n' & Hn' & Hle). pose proof (count_det _ _ _ _ Hn' (count_candidate n Hn)). lia.
  - destruct (Hcl x ltac:(by right)) as (n' & Hn' & Hle). pose proof (count_peer x q Hx Hq) as Hq'.
    destruct (o x c) eqn:Eo; [apply (Ho x c (proj1 (pg_real D added HP x Hx)) (proj1 Hc)) in Eo; done|].
    pose proof (count_det _ _ _ _ Hn' Hq'). lia.
Qed.

Lemma blue_cluster : (exists q, count (fun x => ~ anc s x c) B q /\ Z.of_nat q <= k) -> free B -> cluster s k (c :: B).
Proof.
  intros (q & Hq & Hqk) Hf x [->|Hx]%elem_of_cons.
  - exists q. split; [by apply count_candidate|done].
  - destruct (pg_cluster D added HP x Hx) as (q' & Hq' & Hle). pose proof (count_peer x q' Hx Hq') as H. destruct (o x c) eqn:Eo; [by exists q'|].
    exists (S q'). split; [done|]. destruct (Hf x Hx (oracle_false x c (pg_real D added HP x Hx) Hc Eo)) as (q'' & Hq'' & Hlt).
    pose proof (count_det _ _ _ _ Hq' Hq''). lia.
Qed.

(** All that is blue in the mergeset is in the anticone of the selected parent. *)
Lemma added_count : count (anticone s sp) B (length added).
Proof.
  rewrite (pg_blues D added HP). rewrite <- (Nat.add_0_r (length added)). apply count_app.
  - apply count_out; [intros [H _]; apply H, anc_refl|]. apply count_all. apply (pg_added D added HP).
  - apply count_none. intros x Hx [_ H]. destruct F as (_ & _ & _ & Hall & _). destruct (Hall x Hx) as (_ & _ & Hs). done.
Qed.

Lemma added_bound : Z.of_nat (length added) <= k.
Proof.
  destruct (pg_cluster D added HP sp) as (n & Hn & Hle); [rewrite (pg_blues D added HP); left|].
  pose proof (count_det _ _ _ _ Hn added_count). lia.
Qed.

Lemma check_blue_candidate_ok : exists out, check_blue_candidate genesis s o fuel D c k = Ok out /\
  match out with
  | OutputBlue size sizes => verdict out /\ cluster s k (c :: B)
  | OutputRed => ~ cluster s k (c :: B)
  end.
Proof.
  unfold check_blue_candidate. pose proof added_bound as Hb.
  rewrite (pg_blues D added HP). cbn [length]. rewrite checked_ok, ok_bind, u16_small by lia.
  destruct (Z.eqb_spec (Z.of_nat (S (length added))) (k + 1)) as [E|Hne].
  - eexists. split; [done|]. rewrite <- (pg_blues D added HP). apply red_no_cluster. right. exists sp, (length added).
    split; [rewrite (pg_blues D added HP); left|]. split; [done|]. split; [apply added_count|lia].
  - destruct check_chain_start as (out & Eo & Hv). exists out. split; [done|]. rewrite <- (pg_blues D added HP). destruct out as [size sizes|].
    + split; [done|]. destruct Hv as (q & Hq & -> & Hle & Hf & _). apply blue_cluster; [by exists q|done].
    + by apply red_no_cluster.
Qed.

Lemma looks_same m D' x n : looks s m D x n -> blues_anticone_sizes D' !! x = blues_anticone_sizes D !! x ->
  selected_parent D' = selected_parent D -> looks s m D' x n.
Proof.
  intros H E1 E2. inversion H as [? ? ? Hx|? ? d' ? ? Hx H1 H2 H3 H4]; subst.
  - apply looks_here. by rewrite E1.
  - apply (looks_next s _ D' d'); rewrite ?E1, ?E2; done.
Qed.

(** The data with one more blue block *)
Definition blue_data (size : Z) (sizes : gmap Hash Z) : GhostdagData :=
  mk_data (blue_score D) (blue_work D) (selected_parent D) (mergeset_blues D ++ [c]) (mergeset_reds D)
    (((fun size => size + 1) <$> sizes) ∪ <[c := size]> (blues_anticone_sizes D)).

Lemma add_blue_ok size sizes : verdict (OutputBlue size sizes) -> add_blue D c size sizes = Ok (blue_data size sizes).
Proof.
  intros (q & Hq & -> & Hle & Hf & HV1 & HV2). unfold add_blue. rewrite bool_decide_eq_true_2; [done|]. intros x n Hx.
  destruct (HV1 x n Hx) as ((HxB & Hna) & q1 & Hq1 & ->). destruct (Hf x HxB Hna) as (q2 & Hq2 & Hlt).
  pose proof (count_det _ _ _ _ Hq1 Hq2). lia.
Qed.

Lemma add_blue_prog size sizes : verdict (OutputBlue size sizes) -> prog (blue_data size sizes) (added ++ [c]).
Proof.
  intros (q & Hq & -> & Hle & Hf & HV1 & HV2). set (D' := blue_data (Z.of_nat q) sizes).
  assert (mergeset_blues D' ++ l0 ≡ₚ c :: B) as Hperm.
  { cbn [D' blue_data mergeset_blues]. rewrite <- app_assoc. cbn [app]. symmetry. apply Permutation_middle. }
  assert (forall x, blues_anticone_sizes D' !! x = match sizes !! x with Some n => Some (n + 1) | None =>
    if decide (x = c) then Some (Z.of_nat q) else blues_anticone_sizes D !! x end) as Hlook.
  { intros x. unfold D', blue_data. cbn [blues_anticone_sizes]. destruct (sizes !! x) as [n|] eqn:Ex.
    - apply lookup_union_Some_l. by rewrite lookup_fmap, Ex.
    - rewrite lookup_union_r by by rewrite lookup_fmap, Ex. destruct (decide (x = c)) as [->|]; [by rewrite lookup_insert_eq|by rewrite lookup_insert_ne]. }
  assert (sizes !! c = None) as Hsc.
  { destruct (sizes !! c) as [n|] eqn:Ec; [|done]. destruct (HV1 c n Ec) as ((HcB & _) & _). by apply new_candidate in HcB. }
  split.
  - apply (pg_sp D added HP).
  - cbn. by rewrite (pg_blues D added HP).
  - rewrite Hperm. constructor; [apply new_candidate|apply (pg_nodup D added HP)].
  - intros x Hx. rewrite Hperm in Hx. apply elem_of_cons in Hx as [->|Hx]; [done|by apply (pg_real D added HP)].
  - eapply cluster_perm; [symmetry; exact Hperm|]. apply blue_cluster; [by exists q|done].
  - intros x Hx. rewrite Hperm in Hx. rewrite (Permutation_length Hperm). cbn [length]. apply elem_of_cons in Hx as [->|Hx].
    + exists 0%nat, q. split; [apply looks_here; rewrite Hlook, Hsc; by rewrite decide_True|]. split; [lia|].
      eapply count_perm; [symmetry; exact Hperm|]. by apply count_candidate.
    + destruct (pg_sized D added HP x Hx) as (m & n & Hl & Hm & Hn). pose proof (count_peer x n Hx Hn) as Hp. pose proof (pg_real D added HP x Hx) as Hr.
      destruct (o x c) eqn:Eo.
      * exists m, n. split; [|split; [lia|eapply count_perm; [symmetry; exact Hperm|done]]]. apply (looks_same m D' x _ Hl); [|done].
        rewrite Hlook. destruct (sizes !! x) as [n'|] eqn:Ex.
        { destruct (HV1 x n' Ex) as ((_ & Hna) & _). apply (Ho x c (proj1 Hr) (proj1 Hc)) in Eo. done. }
        rewrite decide_False; [done|]. intros ->. by apply new_candidate.
      * exists 0%nat, (S n). split; [|split; [lia|eapply count_perm; [symmetry; exact Hperm|done]]]. apply looks_here. rewrite Hlook.
        destruct (HV2 x) as [n' Ex]; [split; [done|by apply oracle_false]|]. rewrite Ex. destruct (HV1 x n' Ex) as (_ & n2 & Hn2 & ->).
        pose proof (count_det _ _ _ _ Hn Hn2) as <-. f_equal. lia.
  - intros a [Ha|Ha]%elem_of_app; [by apply (pg_added D added HP)|]. apply list_elem_of_singleton in Ha as ->. split; done.
Qed.

Lemma add_red_prog : prog (add_red D c) added.
Proof.
  destruct HP. split; try done. intros x Hx. destruct (pg_sized0 x Hx) as (m & n & Hl & Hm & Hn). exists m, n. split; [|done].
  by apply (looks_same m (add_red D c) x).
Qed.

End OneCandidate.

(** ** The whole mergeset *)

(** The greedy colouring: in the given order, a block is blue exactly if the blue set
    stays a cluster with it. *)
Inductive greedy : list Hash -> list Hash -> list Hash -> list Hash -> Prop :=
| greedy_nil B : greedy B [] [] []
| greedy_blue B c cs bl rd : cluster s k (c :: B) -> greedy (c :: B) cs bl rd -> greedy B (c :: cs) (c :: bl) rd
| greedy_red B c cs bl rd : ~ cluster s k (c :: B) -> greedy B cs bl rd -> greedy B (c :: cs) bl (c :: rd).

Lemma greedy_perm B B' cs bl rd : B ≡ₚ B' -> greedy B cs bl rd -> greedy B' cs bl rd.
Proof.
  intros Hp H. revert B' Hp. induction H as [B|B c cs bl rd Hc H IH|B c cs bl rd Hc H IH]; intros B' Hp.
  - constructor.
  - constructor; [eapply cluster_perm; [|exact Hc]; by constructor|]. apply IH. by constructor.
  - apply greedy_red; [|by apply IH]. intros Hcl. apply Hc. eapply cluster_perm; [|exact Hcl]. by constructor.
Qed.

(** Blocks beside the selected parent, in an order that respects the past *)
Definition in_order (cs : list Hash) : Prop :=
  (forall c, c ∈ cs -> real s c /\ anticone s sp c) /\ ForallOrdPairs (fun a c => ~ anc s c a) cs.

Lemma color_blocks_ok cs : forall D added, prog D added -> in_order cs -> (forall a c, a ∈ added -> c ∈ cs -> ~ anc s c a) ->
  exists D' bl rd, color_blocks genesis s o fuel k cs D = Ok D' /\ prog D' (added ++ bl) /\ mergeset_reds D' = mergeset_reds D ++ rd /\
    greedy (mergeset_blues D ++ l0) cs bl rd.
Proof.
  induction cs as [|c cs IH]; intros D added HP [Hcs Hord] Hadd; cbn [color_blocks].
  { exists D, [], []. rewrite !app_nil_r. split_and!; [done|done|done|constructor]. }
  destruct (Hcs c ltac:(left)) as (Hc & Hspc & Hcsp). inversion Hord as [|? ? Hall Hord']; subst.
  assert (forall a, a ∈ added -> ~ anc s c a) as Hca by (intros a Ha; apply Hadd; [done|left]).
  assert (in_order cs) as Hin by (split; [intros; apply Hcs; by right|done]).
  destruct (check_blue_candidate_ok D added HP c Hc Hcsp Hspc Hca) as (out & -> & Hout). rewrite ok_bind. destruct out as [size sizes|].
  - destruct Hout as [Hv Hcl]. pose proof (add_blue_prog D added HP c Hc Hcsp Hspc Hca size sizes Hv) as HP'.
    rewrite (add_blue_ok D c size sizes Hv), ok_bind.
    destruct (IH _ _ HP' Hin) as (D' & bl & rd & E & HP'' & Hr & Hg).
    { intros a c' [Ha|Ha]%elem_of_app Hc'; [apply Hadd; [done|by right]|]. apply list_elem_of_singleton in Ha as ->.
      rewrite Forall_forall in Hall. by apply Hall. }
    exists D', (c :: bl), rd. split; [done|]. split; [by rewrite <- app_assoc in HP''|]. split; [done|].
    constructor; [done|]. eapply greedy_perm; [|exact Hg]. cbn [blue_data mergeset_blues]. rewrite <- app_assoc. cbn [app].
    symmetry. apply Permutation_middle.
  - pose proof (add_red_prog D added HP c) as HP'.
    destruct (IH _ _ HP' Hin) as (D' & bl & rd & E & HP'' & Hr & Hg); [intros a c' Ha Hc'; apply Hadd; [done|by right]|].
    exists D', bl, (c :: rd). split; [done|]. split; [done|]. split; [rewrite Hr; cbn; by rewrite <- app_assoc|]. by apply greedy_red.
Qed.

(** The start: the selected parent with its blue past *)
Definition start_data : GhostdagData := mk_data 0 0 sp [sp] [] {[ sp := 0 ]}.

Lemma start_prog : cluster s k l0 -> prog start_data [].
Proof.
  intros Hcl. destruct F as (Hd & Hb & Hnd & Hall & _ & Hsz & _). split; cbn [start_data selected_parent mergeset_blues app].
  - done.
  - done.
  - constructor; [|done]. intros Hin. by destruct (Hall sp Hin) as (Hne & _).
  - intros x [->|Hx]%elem_of_cons; [done|]. destruct (Hall x Hx) as (_ & Hxo & Hxs). by apply (anc_real x sp).
  - intros x [->|Hx]%elem_of_cons.
    + exists 0%nat. split; [|lia]. apply count_none. intros y [->|Hy]%elem_of_cons [H1 H2]; [apply H1, anc_refl|].
      destruct (Hall y Hy) as (_ & _ & Hys). done.
    + destruct (Hcl x Hx) as (n & Hn & Hle). exists n. split; [|done]. apply count_out; [|done]. intros [H _]. destruct (Hall x Hx) as (_ & _ & Hxs). done.
  - intros x [->|Hx]%elem_of_cons.
    + exists 0%nat, 0%nat. split; [apply looks_here; cbn; by rewrite lookup_singleton_eq|]. split; [lia|].
      apply count_none. intros y [->|Hy]%elem_of_cons [H1 H2]; [apply H1, anc_refl|]. destruct (Hall y Hy) as (_ & _ & Hys). done.
    + destruct (Hsz x Hx) as (m & n & Hl & Hm & Hn). destruct (Hall x Hx) as (Hne & _ & Hxs). exists (S m), n.
      split; [|split; [cbn; lia|apply count_out; [intros [H _]; done|done]]].
      apply (looks_next s m _ dsp); cbn [start_data blues_anticone_sizes selected_parent].
      * by rewrite lookup_singleton_ne.
      * intros E. inversion Hb as [E0 E1|]; subst; [by apply elem_of_nil in Hx|done].
      * apply Hsp.
      * done.
      * done.
  - intros a []%elem_of_nil.
Qed.

End Candidate.

(** ** The data of a new block *)

Lemma greedy_subset k B cs bl rd x : greedy k B cs bl rd -> x ∈ bl -> x ∈ cs.
Proof.
  intros H Hx. induction H as [B|B c cs bl rd Hc H IH|B c cs bl rd Hc H IH]; [done| |right; by apply IH].
  apply elem_of_cons in Hx as [->|Hx]; [left|right; by apply IH].
Qed.

(** Stored blocks, none of which is in the past of another *)
Record parents_ok (ps : list Hash) : Prop := {
  po_some : ps <> [];
  po_real : forall p, p ∈ ps -> real s p;
  po_anti : forall p q, p ∈ ps -> q ∈ ps -> anc s p q -> p = q }.

(** What the protocol computes: the selected parent is the heaviest one; the mergeset is
    the past of the parents without that of the selected parent, ordered by work; its
    colouring is the greedy one; and the stored numbers are those of the blue past. *)
Record ghostdag_spec (ps : list Hash) (D : GhostdagData) (sp : Hash) (daa : Z) (l0 cs bl ws : list Z) : Prop := {
  gs_parent : selected_parent D = sp /\ sp ∈ ps /\ forall p, p ∈ ps -> wk p < wk sp \/ wk p = wk sp /\ p <= sp;
  gs_daa : daa_score s !! sp = Some daa;
  gs_mergeset : NoDup cs /\ (forall x, x ∈ cs <-> in_mergeset sp ps x) /\
    ForallOrdPairs (fun a c => wk a < wk c \/ wk a = wk c /\ a <= c) cs;
  gs_blues : blues s sp l0 /\ mergeset_blues D = sp :: bl;
  gs_greedy : greedy (get_param kp daa) (sp :: l0) cs bl (mergeset_reds D);
  gs_nodup : NoDup (mergeset_blues D ++ l0);
  gs_cluster : cluster s (get_param kp daa) (mergeset_blues D ++ l0);
  gs_sized : sized s D (mergeset_blues D ++ l0);
  gs_score : blue_score D = Z.of_nat (length (mergeset_blues D ++ l0));
  gs_work : Forall2 (work s) (mergeset_blues D ++ l0) ws /\ blue_work D = foldr Z.add 0 ws }.

(** Only the set of parents matters. *)
Lemma parents_same ps qs : (forall x, x ∈ qs <-> x ∈ ps) -> parents_ok ps -> parents_ok qs.
Proof.
  intros Hq [Hne Hr Ha]. split.
  - destruct ps as [|p ps]; [done|]. intros ->. apply (not_elem_of_nil p), Hq. left.
  - intros p Hp. by apply Hr, Hq.
  - intros p q Hp Hp'. by apply Ha; apply Hq.
Qed.

Lemma spec_same ps qs : (forall x, x ∈ qs <-> x ∈ ps) -> forall D sp daa l0 cs bl ws, ghostdag_spec ps D sp daa l0 cs bl ws -> ghostdag_spec qs D sp daa l0 cs bl ws.
Proof.
  intros Hq D sp daa l0 cs bl ws [(H1 & H2 & H3) H4 (H5 & H6 & H7) H8 H9 H10 H11 H12 H13 H14]. split; try done.
  - split; [done|]. split; [by apply Hq|]. intros p Hp. by apply H3, Hq.
  - split; [done|]. split; [|done]. intros x. rewrite H6. unfold in_mergeset. by setoid_rewrite Hq.
Qed.

(** Sums of work fit 192 bits, and the number of blocks 64. *)
Definition bounded : Prop := Z.of_nat (size (dom (gd s))) < 2 ^ 64 /\
  forall l ws, NoDup l -> (forall x, x ∈ l -> real s x) -> Forall2 (work s) l ws -> foldr Z.add 0 ws < 2 ^ 192.

Lemma works_ok l : (forall x, x ∈ l -> real s x) -> exists ws, mapM (block_work level s) l = Ok ws /\ Forall2 (work s) l ws /\ Forall (fun w => 0 < w) ws.
Proof.
  induction l as [|x l IH]; intros Hr; [by exists []|]. destruct IH as (ws & E & H1 & H2); [intros; apply Hr; by right|].
  destruct (Hr x ltac:(left)) as [Hx Hxo]. destruct (dg_header s OK x Hx Hxo) as (_ & w & Hw & Hpos).
  exists (w :: ws). cbn [mapM]. unfold work in Hw. rewrite Hw, ok_bind. rewrite E. by split_and!; [|constructor|constructor].
Qed.

Lemma sum_nonneg ws : Forall (fun w => 0 < w) ws -> 0 <= foldr Z.add 0 ws.
Proof. induction 1; cbn; lia. Qed.

Lemma sum_app (l1 l2 : list Z) : foldr Z.add 0 (l1 ++ l2) = foldr Z.add 0 l1 + foldr Z.add 0 l2.
Proof. induction l1 as [|x l1 IH]; cbn; lia. Qed.

Lemma foldl_add192 ws : forall a, Forall (fun w => 0 < w) ws -> 0 <= a -> a + foldr Z.add 0 ws < 2 ^ 192 -> foldl add192 a ws = a + foldr Z.add 0 ws.
Proof.
  induction ws as [|w ws IH]; intros a Hw Ha Hb; cbn [foldl foldr] in *; [lia|]. apply Forall_cons in Hw as [Hw Hws]. pose proof (sum_nonneg ws Hws).
  assert (add192 a w = a + w) as -> by (unfold add192; rewrite Z.mod_small; lia). rewrite IH; [lia|done|lia|lia].
Qed.

Lemma works_pos l ws : (forall x, x ∈ l -> real s x) -> Forall2 (work s) l ws -> Forall (fun w => 0 < w) ws.
Proof.
  intros Hr H. induction H as [|x w l ws Hw H IH]; [constructor|]. constructor; [|apply IH; intros; apply Hr; by right].
  destruct (Hr x ltac:(left)) as [Hx Hxo]. destruct (dg_header s OK x Hx Hxo) as (_ & w' & Hw' & Hpos). unfold work in Hw, Hw'. congruence.
Qed.

Lemma ghostdag_ok o ps fuel : oracle_ok o -> pre kp <= post kp -> 0 <= pre kp -> post kp < 2 ^ 16 - 1 -> parents_ok ps -> bounded ->
  (length ps + size (dom (gd s)) < fuel)%nat -> exists D sp daa l0 cs bl ws, ghostdag genesis kp level s o fuel ps = Ok D /\ ghostdag_spec ps D sp daa l0 cs bl ws.
Proof.
  intros Ho Hk Hk0 Hk1 [Hne Hr Hanti] [Hsize Hbound] Hfuel'. assert (Hfuel : (size (dom (gd s)) < fuel)%nat) by lia.
  destruct (find_selected_parent_ok ps Hne) as (sp & Esp & Hin & Hmax); [intros p Hp; apply Hr, Hp|].
  pose proof (Hr sp Hin) as Hrs. destruct (real_facts sp Hk Hrs) as (dsp & l0 & ws0 & F).
  destruct (dg_header s OK sp (proj1 Hrs) (proj2 Hrs)) as [(daa & Hdaa) _].
  destruct (ordered_mergeset_ok o Hk Ho sp ps Hrs Hr Hanti Hin fuel ltac:(lia)) as (cs & Ecs & Hncs & Hcs & Hsorted).
  assert (0 <= get_param kp daa < 2 ^ 16 - 1) as Hkr by (unfold get_param; destruct (is_active _ _); lia).
  pose proof F as (Fd & Fb & Fnd & Fall & Fcl & Fsz & Fsc & Fw & Fbw).
  pose proof (start_prog sp dsp l0 ws0 Hrs F (get_param kp daa) Hkr fuel Hfuel (Fcl daa Hdaa)) as HP0.
  destruct (color_blocks_ok o Ho Hk sp dsp l0 ws0 Hrs F (get_param kp daa) Hkr fuel Hfuel cs _ _ HP0) as (D & bl & rd & ED & HP & Hrd & Hg).
  { split; [|apply wk_order; [done|intros x Hx; by apply Hcs in Hx as [? _]|done]].
    intros c Hc. apply Hcs in Hc. split; [by destruct Hc|by apply (mergeset_anticone sp ps)]. }
  { intros a c []%elem_of_nil. }
  cbn [app] in HP. assert (mergeset_reds D = rd) as <- by done. clear Hrd. cbn [start_data mergeset_blues app] in Hg.
  destruct HP as [Psp Pbl Pnd Pr Pcl Psz Pad].
  assert (forall x, x ∈ mergeset_blues D -> real s x) as Prb by (intros; apply Pr, elem_of_app; by left).
  destruct (works_ok (mergeset_blues D) Prb) as (ws & Ews & Hws & Hpos).
  assert (Forall2 (work s) (mergeset_blues D ++ l0) (ws ++ ws0)) as Hall by by apply Forall2_app.
  pose proof (Hbound _ _ Pnd Pr Hall) as Hb. rewrite sum_app in Hb. pose proof (sum_nonneg ws Hpos).
  assert (0 <= foldr Z.add 0 ws0) by (apply sum_nonneg, (works_pos l0); [intros; apply Pr, elem_of_app; by right|done]).
  pose proof (real_length fuel Hfuel _ Pnd Pr) as Hlen. assert (Z.of_nat (length (mergeset_blues D ++ l0)) < 2 ^ 64) as Hl64.
  { pose proof (real_length (S (size (dom (gd s)))) (Nat.lt_succ_diag_r _) _ Pnd Pr). lia. }
  rewrite length_app in Hl64.
  eexists _, sp, daa, l0, cs, bl, (ws ++ ws0). split.
  - unfold ghostdag. destruct ps as [|p0 ps]; [done|]. rewrite Esp, ok_bind, bool_decide_eq_false_2 by apply Hrs.
    rewrite Hdaa. cbn [unwrap mbind result_bind]. unfold new_with_selected_parent. rewrite checked_ok, !ok_bind by lia. fold (start_data sp).
    rewrite Ecs, ok_bind, ED, ok_bind. unfold get_data. rewrite Fd. cbn [unwrap mbind result_bind].
    rewrite checked_ok, ok_bind by lia. rewrite Ews, ok_bind. done.
  - split; cbn [finalize_score_and_work selected_parent mergeset_blues mergeset_reds blue_score blue_work]; try done.
    + intros x Hx. destruct (Psz x Hx) as (m & n & Hl & Hm & Hn). exists m, n. split; [|done]. by apply (looks_same D m _ x).
    + rewrite length_app. lia.
    + split; [done|]. rewrite (foldl_add192 ws 0) by (done || lia). unfold add192. rewrite Z.mod_small, sum_app by lia. lia.
Qed.

End State.

(** ** A new block *)

Definition add_block (s : stores) (b : Hash) (ps : list Hash) (D : GhostdagData) (daa bits : Z) : stores :=
  mk_stores (<[b := D]> (gd s)) (<[b := ps]> (relations s)) (<[b := daa]> (daa_score s)) (<[b := bits]> (header_bits s)).

Section Extension.
Context (s : stores) (OK : dag_ok s) (b : Hash) (ps : list Hash) (D : GhostdagData) (daa bits : Z).
Context (Hb : b ∉ dom (gd s)) (Hbo : b <> ORIGIN).
Abbreviation s' := (add_block s b ps D daa bits).

Lemma stored_ne x : x ∈ dom (gd s) -> x <> b.
Proof. by intros Hx ->. Qed.

Lemma related x : x ∈ dom (gd s) -> x ∈ dom (relations s).
Proof. rewrite (dg_dom s OK). apply elem_of_union_r. Qed.

Lemma related_ne x : x ∈ dom (relations s) -> x <> b.
Proof. rewrite (dg_dom s OK). intros [Hx%elem_of_singleton|Hx]%elem_of_union; [congruence|by apply stored_ne]. Qed.

Lemma parent_related x y : parent_of s x y -> y ∈ dom (relations s).
Proof.
  intros (qs & Hqs & Hy). pose proof (elem_of_dom_2 _ _ _ Hqs) as Hx. rewrite (dg_dom s OK) in Hx. destruct (decide (x = ORIGIN)) as [->|Hxo].
  { rewrite (dg_origin s OK) in Hqs. injection Hqs as <-. by apply elem_of_nil in Hy. }
  destruct (decide (x = genesis)) as [->|Hg].
  { rewrite (proj1 (dg_genesis s OK)) in Hqs. injection Hqs as <-. apply list_elem_of_singleton in Hy as ->. apply (elem_of_dom_2 _ _ _ (dg_origin s OK)). }
  apply elem_of_union in Hx as [Hx%elem_of_singleton|Hx]; [done|].
  destruct (real_block s OK x (conj Hx Hxo) Hg) as (d & Hd & [(qs' & Hqs' & _ & Hall) _ _]). assert (qs' = qs) as -> by congruence.
  destruct (Hall y Hy) as (_ & dy & Hdy & _). apply related. by apply elem_of_dom_2 in Hdy.
Qed.

Lemma parent_of_ext x y : x ∈ dom (relations s) -> parent_of s' x y <-> parent_of s x y.
Proof. intros Hx%related_ne. unfold parent_of, add_block. cbn [relations]. by rewrite lookup_insert_ne. Qed.

Lemma anc_related_ext a x : x ∈ dom (relations s) -> anc s' a x <-> anc s a x.
Proof.
  intros Hx. unfold anc. split; intros H.
  - induction H as [|x y a Hy H IH]; [done|]. apply parent_of_ext in Hy; [|done]. eapply rtc_l; [exact Hy|]. apply IH. by eapply parent_related.
  - induction H as [|x y a Hy H IH]; [done|]. eapply rtc_l; [by apply parent_of_ext|]. apply IH. by eapply parent_related.
Qed.

Lemma anc_ext a x : x ∈ dom (gd s) -> anc s' a x <-> anc s a x.
Proof. intros Hx%related. by apply anc_related_ext. Qed.

Lemma anticone_ext a x : a ∈ dom (gd s) -> x ∈ dom (gd s) -> anticone s' a x <-> anticone s a x.
Proof. intros Ha Hx. unfold anticone. by rewrite !anc_ext. Qed.

Lemma count_anticone_ext x l n : x ∈ dom (gd s) -> (forall y, y ∈ l -> y ∈ dom (gd s)) -> count (anticone s x) l n -> count (anticone s' x) l n.
Proof. intros Hx Hl. apply count_ext. intros y Hy. symmetry. by apply anticone_ext; [|apply Hl]. Qed.

Lemma cluster_ext k l : (forall y, y ∈ l -> y ∈ dom (gd s)) -> cluster s k l -> cluster s' k l.
Proof. intros Hl H x Hx. destruct (H x Hx) as (n & Hn & Hle). exists n. split; [|done]. apply count_anticone_ext; [by apply Hl|done|done]. Qed.

Lemma blues_ext x l : x ∈ dom (gd s) -> blues s x l -> blues s' x l.
Proof.
  intros Hx H. induction H as [|x d r l Hg Hd Hm Hl IH]; [constructor|]. apply (blues_block _ x d r); [done| |done|].
  - unfold add_block. cbn [gd]. by rewrite lookup_insert_ne by (intros <-; by apply stored_ne in Hx).
  - apply IH. inversion Hl as [E|? d']; subst; [rewrite <- E; apply (elem_of_dom_2 _ _ _ (proj2 (dg_genesis s OK)))|by eapply elem_of_dom_2].
Qed.

Lemma looks_ext m d x n : looks s m d x n -> looks s' m d x n.
Proof.
  intros H. induction H as [d x n H|m d d' x n H1 H2 H3 H4 H5 IH]; [by apply looks_here|]. apply (looks_next _ m d d'); try done.
  unfold add_block. cbn [gd]. rewrite lookup_insert_ne; [done|]. intros E. rewrite <- E in H4. by apply elem_of_dom_2 in H4.
Qed.

Lemma sized_ext d l : (forall y, y ∈ l -> y ∈ dom (gd s)) -> sized s d l -> sized s' d l.
Proof.
  intros Hl H x Hx. destruct (H x Hx) as (m & n & H1 & H2 & H3). exists m, n. split; [by apply looks_ext|]. split; [done|].
  apply count_anticone_ext; [by apply Hl|done|done].
Qed.

Lemma work_ext x w : x ∈ dom (gd s) -> work s' x w <-> work s x w.
Proof. intros Hx%stored_ne. unfold work, block_work, add_block. cbn [header_bits]. by rewrite lookup_insert_ne. Qed.

Lemma works_ext l ws : (forall y, y ∈ l -> y ∈ dom (gd s)) -> Forall2 (work s) l ws -> Forall2 (work s') l ws.
Proof.
  intros Hl H. induction H as [|x w l ws Hw H IH]; [constructor|]. constructor; [apply work_ext; [apply Hl; left|done]|].
  apply IH. intros; apply Hl; by right.
Qed.

Lemma block_ext x d : x ∈ dom (gd s) -> x <> ORIGIN -> block_ok s x d -> block_ok s' x d.
Proof.
  intros Hx Hxo [(qs & Hqs & Hsp & Hall) (y & z & Hy & Hz & Hyz) (l & ws & H1 & H2 & H3 & H4 & H5 & H6 & H7 & H8)]. pose proof (stored_ne x Hx) as Hne.
  destruct (Hall _ Hsp) as (Hspo & dp & Hdp & _). assert (selected_parent d <> b) as Hspb by (intros E; rewrite E in Hdp; by apply elem_of_dom_2 in Hdp).
  assert (forall y, y ∈ l -> y ∈ dom (gd s)) as Hl.
  { intros v Hv. destruct (H3 v Hv) as (_ & Hvo & Hvx). by apply (anc_real s OK v x). }
  split.
  - exists qs. unfold add_block. cbn [relations gd]. rewrite lookup_insert_ne by done. split; [done|]. split; [done|]. intros p Hp.
    destruct (Hall p Hp) as (Hpo & dq & Hdq & Hlt). split; [done|]. exists dq. split; [|done]. rewrite lookup_insert_ne; [done|].
    intros <-. by apply elem_of_dom_2 in Hdq.
  - exists y, z. unfold add_block. cbn [daa_score]. by rewrite !lookup_insert_ne.
  - exists l, ws. split; [by apply blues_ext|]. split; [done|]. split; [intros v Hv; destruct (H3 v Hv) as (? & ? & ?); by rewrite anc_ext|].
    split; [|split; [by apply sized_ext|split; [done|split; [by apply works_ext|done]]]].
    intros v. unfold add_block at 1. cbn [daa_score]. rewrite lookup_insert_ne by done. intros Hv. apply cluster_ext; [done|by apply H4].
Qed.

Context (Hkp : pre kp <= post kp) (Hpsok : parents_ok s ps).
Context (sp : Hash) (daa0 : Z) (l0 cs bl ws : list Z) (HD : ghostdag_spec s ps D sp daa0 l0 cs bl ws).
Context (Hdaa : daa0 <= daa) (w : Z) (Hw : calc_work bits = Ok w) (Hpos : 0 < Z.max w level).

Lemma new_blues : forall x, x ∈ mergeset_blues D ++ l0 -> x ∈ dom (gd s) /\ x <> ORIGIN /\ exists p, p ∈ ps /\ anc s x p.
Proof.
  destruct HD as [(_ & Hin & _) _ (_ & Hcs & _) (Hl0 & Hm) Hg _ _ _ _ _]. destruct Hpsok as [_ Hr _].
  intros x. rewrite Hm, elem_of_app, elem_of_cons. intros [[->|Hx]|Hx].
  - destruct (Hr sp Hin). split; [done|]. split; [done|]. exists sp. split; [done|]. apply anc_refl.
  - apply (greedy_subset s _ _ _ _ _ x Hg), Hcs in Hx as ((Hx & Hxo) & _ & p & Hp & _ & Hxp). split; [done|]. split; [done|]. by exists p.
  - destruct (real_facts s OK sp Hkp (Hr sp Hin)) as (d & l & ws' & _ & Hl & _ & Hall & _). rewrite (blues_det s sp l0 l Hl0 Hl) in Hx.
    destruct (Hall x Hx) as (_ & Hxo & Hxs). split; [by apply (anc_real s OK x sp (Hr sp Hin))|]. split; [done|]. by exists sp.
Qed.

Lemma new_block_ok : block_ok s' b D.
Proof.
  pose proof new_blues as Hnew. assert (forall y, y ∈ mergeset_blues D ++ l0 -> y ∈ dom (gd s)) as Hdom by (intros y Hy; by destruct (Hnew y Hy)).
  destruct HD as [(Hsp & Hin & Hmax) Hd0 (_ & Hcs & _) (Hl0 & Hm) Hg Hnd Hcl Hsz Hsc (Hws & Hwk)]. destruct Hpsok as [_ Hr _].
  destruct (real_facts s OK sp Hkp (Hr sp Hin)) as (dsp & l & ws' & Hdsp & Hl & _ & _ & _ & _ & _ & Fw & Fbw).
  assert (l = l0) as -> by (eapply blues_det; eassumption). pose proof (stored_ne sp (proj1 (Hr sp Hin))) as Hspb.
  assert (blue_work dsp < blue_work D) as Hlt.
  { apply Forall2_app_inv_l in Hws as (ws1 & ws2 & Hw1 & Hw2 & ->). rewrite Hwk, sum_app, Fbw.
    assert (ws2 = ws') as ->.
    { clear - Hw2 Fw. revert ws' Fw. induction Hw2 as [|x y l ws2 Hxy H IH]; intros ws' F; inversion F as [|? y' ? ws3 Hxy' H']; subst; [done|].
      f_equal; [unfold work in *; congruence|by apply IH]. }
    pose proof (works_pos s OK (mergeset_blues D) ws1) as Hp. rewrite Hm in Hw1, Hp. inversion Hw1 as [|? y ? ws3 _ Hw3]; subst.
    assert (Forall (fun w => 0 < w) (y :: ws3)) as Hp'.
    { apply Hp; [|done]. rewrite <- Hm. intros x Hx. destruct (Hnew x) as (? & ? & _); [apply elem_of_app; by left|done]. }
    apply Forall_cons in Hp' as [Hy Hp']. pose proof (sum_nonneg ws3 Hp'). cbn [foldr]. lia. }
  split.
  - exists ps. unfold add_block. cbn [relations gd]. rewrite lookup_insert_eq, Hsp. split; [done|]. split; [done|]. intros p Hp.
    destruct (Hr p Hp) as [Hpd Hpo]. split; [done|]. pose proof (proj1 (elem_of_dom _ _) Hpd) as [dp Hdp]. exists dp.
    rewrite lookup_insert_ne by (intros <-; done). split; [done|]. destruct (Hmax p Hp) as [H|[H _]]; unfold wk in H; rewrite Hdp, Hdsp in H; lia.
  - exists daa0, daa. unfold add_block. cbn [daa_score]. rewrite Hsp, lookup_insert_eq, lookup_insert_ne by done. done.
  - exists (mergeset_blues D ++ l0), ws. split.
    { apply (blues_block _ b D bl); [intros ->; apply Hb, (elem_of_dom_2 _ _ _ (proj2 (dg_genesis s OK)))| |by rewrite Hsp|].
      - unfold add_block. cbn [gd]. apply lookup_insert_eq.
      - rewrite Hsp. apply blues_ext; try done. apply (Hr sp Hin). }
    split; [done|]. split.
    { intros x Hx. destruct (Hnew x Hx) as (Hxd & Hxo & p & Hp & Hxp). split; [by apply stored_ne|]. split; [done|].
      apply (anc_parent _ _ p); [exists ps; split; [apply lookup_insert_eq|done]|]. apply anc_ext; try done. by apply Hr. }
    split; [|split; [by apply sized_ext|split; [done|split; [by apply works_ext|done]]]].
    intros v. unfold add_block at 1. cbn [daa_score]. rewrite Hsp, lookup_insert_ne by done. intros Hv. assert (v = daa0) as -> by congruence.
    by apply cluster_ext.
Qed.

(** The invariant of the stores is kept. *)
Lemma add_block_ok : dag_ok s'.
Proof.
  assert (b <> genesis) as Hbg by (intros ->; apply Hb, (elem_of_dom_2 _ _ _ (proj2 (dg_genesis s OK)))).
  pose proof new_block_ok as Hnew. split.
  - unfold add_block. cbn [gd relations]. rewrite !dom_insert_L, (dg_dom s OK). rewrite !(assoc_L (∪)). by rewrite (comm_L (∪) {[b]}).
  - unfold add_block. cbn [gd]. rewrite lookup_insert_ne by done. apply (dg_no_origin s OK).
  - apply (dg_genesis_ne s OK).
  - unfold add_block. cbn [relations]. rewrite lookup_insert_ne by done. apply (dg_origin s OK).
  - unfold add_block. cbn [relations gd]. rewrite !lookup_insert_ne by done. apply (dg_genesis s OK).
  - intros x Hx Hxo. destruct (decide (x = b)) as [->|Hne].
    + split; [exists daa; apply lookup_insert_eq|]. exists (Z.max w level). split; [|done]. unfold work, block_work, add_block. cbn [header_bits].
      rewrite lookup_insert_eq. cbn [unwrap mbind result_bind]. by rewrite Hw, ok_bind.
    + unfold add_block in Hx. cbn [gd] in Hx. rewrite dom_insert_L in Hx. apply elem_of_union in Hx as [Hx%elem_of_singleton|Hx]; [done|].
      destruct (dg_header s OK x Hx Hxo) as ((y & Hy) & v & Hv & Hv0). split; [exists y; unfold add_block; cbn [daa_score]; by rewrite lookup_insert_ne|].
      exists v. split; [by apply work_ext|done].
  - intros x d Hx Hxo Hxg. destruct (decide (x = b)) as [->|Hne].
    + unfold add_block in Hx. cbn [gd] in Hx. rewrite lookup_insert_eq in Hx. by injection Hx as <-.
    + unfold add_block in Hx. cbn [gd] in Hx. rewrite lookup_insert_ne in Hx by done.
      apply block_ext; [by eapply elem_of_dom_2|done|by apply (dg_block s OK)].
Qed.

End Extension.

(** ** DAGs that grow from the genesis block *)

(** The stores when the node starts *)
Definition init (daa bits : Z) : stores :=
  mk_stores {[ genesis := genesis_ghostdag_data ]} {[ ORIGIN := []; genesis := [ORIGIN] ]}
    {[ genesis := daa ]} {[ genesis := bits ]}.

Lemma init_ok daa bits w : genesis <> ORIGIN -> calc_work bits = Ok w -> 0 < Z.max w level -> dag_ok (init daa bits).
Proof.
  intros Hg Hw Hpos. split; unfold init; cbn [gd relations daa_score].
  - by rewrite !dom_insert_L, !dom_singleton_L.
  - by rewrite lookup_singleton_ne.
  - done.
  - apply lookup_insert_eq.
  - rewrite !lookup_insert_ne, !lookup_singleton_eq by done. done.
  - intros b Hb Hbo. rewrite dom_singleton_L in Hb. apply elem_of_singleton in Hb as ->.
    split; [exists daa; apply lookup_singleton_eq|]. exists (Z.max w level). split; [|done]. unfold work, block_work. cbn [header_bits].
    rewrite lookup_singleton_eq. cbn [unwrap mbind result_bind]. by rewrite Hw, ok_bind.
  - intros b d Hb Hbo Hbg. rewrite lookup_singleton_ne in Hb by done. done.
Qed.

(** Blocks are added one by one: each has a new hash and stored parents, its GHOSTDAG
    data are what the protocol returns, and its DAA score is not below that of its
    selected parent.  They are stored without repetition. *)
Inductive grown : stores -> Prop :=
| grown_init daa bits w : genesis <> ORIGIN -> calc_work bits = Ok w -> 0 < Z.max w level -> grown (init daa bits)
| grown_block s o fuel b ps qs D daa0 daa bits w : grown s -> oracle_ok s o -> bounded s -> (length ps + size (dom (gd s)) < fuel)%nat ->
    parents_ok s ps -> ghostdag genesis kp level s o fuel ps = Ok D -> b ∉ dom (gd s) -> b <> ORIGIN ->
    daa_score s !! selected_parent D = Some daa0 -> daa0 <= daa -> calc_work bits = Ok w -> 0 < Z.max w level ->
    (forall x, x ∈ qs <-> x ∈ ps) -> grown (add_block s b qs D daa bits).

Context (Hkp : pre kp <= post kp) (Hk0 : 0 <= pre kp) (Hk1 : post kp < 2 ^ 16 - 1).

Lemma grown_ok s : grown s -> dag_ok s.
Proof.
  induction 1 as [daa bits w H1 H2 H3|s o fuel b ps qs D daa0 daa bits w Hs IH Ho Hbd Hf Hps HD Hb Hbo Hd0 Hd Hw Hpos Hq]; [by eapply init_ok|].
  destruct (ghostdag_ok s IH o ps fuel Ho Hkp Hk0 Hk1 Hps Hbd Hf) as (D' & sp & y & l0 & cs & bl & ws & E & Hsp).
  assert (D' = D) as -> by congruence. assert (y = daa0) as ->.
  { destruct Hsp as [(E1 & _) E2 _ _ _ _ _ _ _ _]. rewrite E1 in Hd0. congruence. }
  apply (add_block_ok s IH b qs D daa bits Hb Hbo Hkp (parents_same s ps qs Hq Hps) sp daa0 l0 cs bl ws (spec_same s ps qs Hq _ _ _ _ _ _ _ Hsp) Hd w Hw Hpos).
Qed.

(** C27: In every DAG that has grown from the genesis block, with a reachability service
    that is right and parents of which none is in the past of another, the protocol
    returns: it does not panic, no search runs longer than there are parents and blocks, and no
    16, 64 or 192 bit number overflows.  The selected parent is the heaviest parent; the
    mergeset is exactly the past of the parents that is not in the past of the selected
    one, ordered by work; in that order a block is blue exactly if the blue past stays a
    k-cluster with it, and red otherwise; and the anticone sizes, the blue score and the
    blue work are those of the new blue past. *)
Theorem ghostdag_correct s o ps fuel : grown s -> oracle_ok s o -> parents_ok s ps -> bounded s -> (length ps + size (dom (gd s)) < fuel)%nat ->
  exists D sp daa l0 cs bl ws, ghostdag genesis kp level s o fuel ps = Ok D /\ ghostdag_spec s ps D sp daa l0 cs bl ws.
Proof. intros Hs Ho Hps Hb Hf. by apply ghostdag_ok; [apply grown_ok|..]. Qed.

(** C28: In every DAG that has grown from the genesis block, the blue past of each block
    is a k-cluster, for the k in force at its selected parent; the lookup of the anticone
    size of a blue block returns the number of blue blocks in its anticone; blue score
    and blue work are the size and the work of the blue past; and each parent has less
    blue work, so that the DAG has no cycle. *)
Theorem blue_sets_correct s b d : grown s -> gd s !! b = Some d -> b <> ORIGIN -> b <> genesis ->
  exists l ws daa ps, blues s b l /\ NoDup l /\ (forall x, x ∈ l -> x <> b /\ anc s x b) /\
    daa_score s !! selected_parent d = Some daa /\ cluster s (get_param kp daa) l /\
    (forall x fuel, x ∈ l -> (length l <= fuel)%nat ->
       exists n, blue_anticone_size genesis s fuel x d = Ok (Z.of_nat n) /\ count (anticone s x) l n) /\
    blue_score d = Z.of_nat (length l) /\ Forall2 (work s) l ws /\ blue_work d = foldr Z.add 0 ws /\
    relations s !! b = Some ps /\ forall p, p ∈ ps -> exists dp, gd s !! p = Some dp /\ blue_work dp < blue_work d.
Proof.
  intros Hs Hd Hbo Hbg. destruct (dg_block s (grown_ok s Hs) b d Hd Hbo Hbg) as [(ps & Hps & _ & Hall) (daa & _ & Hdaa & _) Hbl].
  destruct Hbl as (l & ws & H1 & H2 & H3 & H4 & H5 & H6 & H7 & H8). exists l, ws, daa, ps. do 2 (split; [done|]).
  split; [intros x Hx; by destruct (H3 x Hx) as (? & _ & ?)|]. split; [done|]. split; [by apply H4|]. split.
  { intros x fuel Hx Hf. destruct (H5 x Hx) as (m & n & Hl & Hm & Hn). exists n. split; [|done]. apply (blue_anticone_ok s m); [done|lia]. }
  do 4 (split; [done|]). intros p Hp. by destruct (Hall p Hp) as (_ & ?).
Qed.

End Dag.

(** ** A DAG of two blocks *)

Section TwoBlocks.

Definition small_k : ForkedParam := mk_forked 18 124 1000.
Definition small_oracle (a b : Hash) : bool := bool_decide (a = b) || bool_decide (a = ORIGIN).
Definition first_stores : stores := init 1 0 0x207fffff.
Definition second_data : GhostdagData := mk_data 1 2 1 [1] [] {[ 1 := 0 ]}.
Definition second_stores : stores := add_block first_stores 2 [1] second_data 1 0x207fffff.

Lemma small_work : calc_work 0x207fffff = Ok 2.
Proof. by vm_compute. Qed.

Lemma first_grown : grown 1 small_k 0 first_stores.
Proof. apply (grown_init 1 small_k 0 0 0x207fffff 2); [done|apply small_work|done]. Qed.

Lemma first_dom : dom (gd first_stores) = {[1]}.
Proof. unfold first_stores, init. cbn [gd]. by rewrite dom_singleton_L. Qed.

Lemma first_oracle : oracle_ok first_stores small_oracle.
Proof.
  intros a b. rewrite first_dom. unfold small_oracle. intros ->%elem_of_singleton ->%elem_of_singleton. split; [intros _; apply anc_refl|done].
Qed.

Lemma first_bounded : bounded 0 first_stores.
Proof.
  split; [rewrite first_dom; by vm_compute|]. intros l ws Hn Hr Hw.
  assert (forall x, x ∈ l -> x = 1) as H1.
  { intros x Hx. destruct (Hr x Hx) as [Hd Ho]. rewrite first_dom in Hd. set_solver. }
  assert (work 0 first_stores 1 2) as Hg.
  { unfold work, block_work, first_stores, init. cbn [header_bits]. rewrite lookup_singleton_eq. cbn [unwrap mbind result_bind]. by rewrite small_work. }
  destruct Hw as [|x w l ws Hx Hw]; [done|]. rewrite (H1 x ltac:(left)) in *. destruct Hw as [|y v l ws Hy Hw].
  - unfold work in *. rewrite Hg in Hx. injection Hx as <-. cbn. lia.
  - apply NoDup_cons in Hn as [Hn _]. destruct Hn. rewrite (H1 y); [left|right; left].
Qed.

Lemma first_parents : parents_ok first_stores [1].
Proof.
  split; [done|..].
  - intros p ->%list_elem_of_singleton. split; [rewrite first_dom; set_solver|done].
  - by intros p q ->%list_elem_of_singleton ->%list_elem_of_singleton _.
Qed.

Lemma second_grown : grown 1 small_k 0 second_stores.
Proof.
  apply (grown_block 1 small_k 0 first_stores small_oracle 4 2 [1] [1] second_data 0 1 0x207fffff 2).
  - apply first_grown.
  - apply first_oracle.
  - apply first_bounded.
  - rewrite first_dom. vm_compute. lia.
  - apply first_parents.
  - by vm_compute.
  - rewrite first_dom. set_solver.
  - done.
  - done.
  - lia.
  - apply small_work.
  - done.
  - done.
Qed.

Lemma ghostdag_correct_witness : exists D sp daa l0 cs bl ws,
  ghostdag 1 small_k 0 first_stores small_oracle 4 [1] = Ok D /\ ghostdag_spec 1 small_k 0 first_stores [1] D sp daa l0 cs bl ws.
Proof.
  apply (ghostdag_correct 1 small_k 0); [done|done|done|apply first_grown|apply first_oracle|apply first_parents|apply first_bounded|].
  rewrite first_dom. vm_compute. lia.
Defined.

Lemma blue_sets_correct_witness : exists l ws daa ps, blues 1 second_stores 2 l /\ NoDup l /\ (forall x, x ∈ l -> x <> 2 /\ anc second_stores x 2) /\
    daa_score second_stores !! selected_parent second_data = Some daa /\ cluster second_stores (get_param small_k daa) l /\
    (forall x fuel, x ∈ l -> (length l <= fuel)%nat ->
       exists n, blue_anticone_size 1 second_stores fuel x second_data = Ok (Z.of_nat n) /\ count (anticone second_stores x) l n) /\
    blue_score second_data = Z.of_nat (length l) /\ Forall2 (work 0 second_stores) l ws /\ blue_work second_data = foldr Z.add 0 ws /\
    relations second_stores !! 2 = Some ps /\ forall p, p ∈ ps -> exists dp, gd second_stores !! p = Some dp /\ blue_work dp < blue_work second_data.
Proof.
  apply (blue_sets_correct 1 small_k 0); [done|done|done|apply second_grown|reflexivity|done|done].
Defined.

End TwoBlocks.

End GhostdagProofs.
