(* ===== verification/GhostdagGrowth.v ===== *)
(** * GHOSTDAG while the DAG grows

    The data of a block depend on its past only: they are the same when other blocks
    are added between the computation and the time that the block is stored. *)
From Stdlib Require Import ZArith Lia.
From stdpp Require Import base numbers list gmap.
From S2P Require Import Prelude Uint Ghostdag GhostdagProofs.
Import Uint.Uint Ghostdag.Ghostdag GhostdagProofs.GhostdagProofs.
Open Scope Z_scope.

Module GhostdagGrowth.

(** [a] answers whatever [b] does. *)
Definition refines {A} (a b : result A) : Prop := forall x, a = Ok x -> b = Ok x.

Lemma refines_refl {A} (a : result A) : refines a a.
Proof. by intros x. Qed.

Lemma refines_bind {A B} (a b : result A) (f g : A -> result B) : refines a b -> (forall x, a = Ok x -> refines (f x) (g x)) -> refines (a ≫= f) (b ≫= g).
Proof.
  intros Hab Hfg y Hy. destruct a as [x| |]; cbn in Hy; try discriminate Hy. rewrite (Hab x eq_refl). cbn. by apply (Hfg x eq_refl).
Qed.

Lemma refines_mapM {A B} (f g : A -> result B) l : (forall x, x ∈ l -> refines (f x) (g x)) -> refines (mapM f l) (mapM g l).
Proof.
  induction l as [|x l IH]; intros H; cbn [mapM]; [apply refines_refl|]. apply refines_bind; [apply H; left|]. intros y _.
  apply refines_bind; [apply IH; intros z Hz; apply H; by right|]. intros ys _. apply refines_refl.
Qed.

Lemma unwrap_refines {A} (m m' : gmap Hash A) h : m ⊆ m' -> refines (unwrap (m !! h)) (unwrap (m' !! h)).
Proof. intros Hm x. destruct (m !! h) eqn:E; cbn; [|done]. intros [= ->]. by rewrite (lookup_weaken _ _ _ _ E Hm). Qed.

Section Growth.
Context (genesis : Hash) (kp : ForkedParam) (level : Z) (Hkp : pre kp <= post kp).
Context (s s' : stores) (OK : dag_ok genesis kp level s) (o o' : Hash -> Hash -> bool).
Context (Hgd : gd s ⊆ gd s') (Hrel : relations s ⊆ relations s') (Hdaa : daa_score s ⊆ daa_score s') (Hbits : header_bits s ⊆ header_bits s').
Context (Hagree : forall a b, a ∈ dom (relations s) -> b ∈ dom (relations s) -> o a b = o' a b).

Abbreviation stored := (fun x => x ∈ dom (relations s)).

Lemma get_data_refines h : refines (get_data s h) (get_data s' h).
Proof. by apply unwrap_refines. Qed.

Lemma get_data_stored h d : get_data s h = Ok d -> stored h.
Proof. unfold get_data. destruct (gd s !! h) eqn:E; [|done]. intros _. apply (related genesis kp level s OK). by apply elem_of_dom_2 in E. Qed.

Lemma sortable_refines h : refines (sortable s h) (sortable s' h).
Proof. apply refines_bind; [apply get_data_refines|]. intros d _. apply refines_refl. Qed.

Lemma sort_blocks_refines l : refines (sort_blocks s l) (sort_blocks s' l).
Proof. apply refines_bind; [apply refines_mapM; intros; apply sortable_refines|]. intros x _. apply refines_refl. Qed.

Lemma find_selected_parent_refines ps : refines (find_selected_parent s ps) (find_selected_parent s' ps).
Proof. apply refines_bind; [apply refines_mapM; intros; apply sortable_refines|]. intros x _. apply refines_refl. Qed.

Lemma stored_parents b ps : relations s !! b = Some ps -> forall p, p ∈ ps -> stored p.
Proof. intros Hb p Hp. apply (parent_related genesis kp level s OK b). by exists ps. Qed.

Lemma visit_parents_agree sp ps : stored sp -> (forall p, p ∈ ps -> stored p) -> forall queue M P, visit_parents o sp ps queue M P = visit_parents o' sp ps queue M P.
Proof.
  intros Hsp. induction ps as [|p ps IH]; intros Hps queue M P; cbn [visit_parents]; [done|]. rewrite (Hagree p sp) by (auto; apply Hps; left).
  rewrite !IH by (intros q Hq; apply Hps; by right). done.
Qed.

Lemma mergeset_loop_refines fuel sp : stored sp -> forall queue M P, refines (mergeset_loop s o fuel sp queue M P) (mergeset_loop s' o' fuel sp queue M P).
Proof.
  intros Hsp. induction fuel as [|fuel IH]; intros [|c queue] M P; cbn [mergeset_loop]; try apply refines_refl.
  apply refines_bind; [by apply unwrap_refines|]. intros ps Hps. rewrite <- (visit_parents_agree sp ps Hsp).
  - destruct (visit_parents o sp ps queue M P) as [[q' M'] P']. apply IH.
  - destruct (relations s !! c) eqn:E; [|done]. injection Hps as ->. by apply (stored_parents c).
Qed.

Lemma blue_anticone_refines fuel b d : refines (blue_anticone_size genesis s fuel b d) (blue_anticone_size genesis s' fuel b d).
Proof.
  unfold blue_anticone_size. generalize (blues_anticone_sizes d) (selected_parent d). induction fuel as [|fuel IH]; intros sizes p; cbn [blue_anticone_loop];
    destruct (sizes !! b); try apply refines_refl; destruct (bool_decide _ || _); try apply refines_refl.
  apply refines_bind; [apply get_data_refines|]. intros d' _. apply IH.
Qed.

Lemma check_peers_refines fuel D c k ps : stored c -> (forall p, p ∈ ps -> stored p) -> forall sizes size,
  refines (check_peers genesis s o fuel D ps c k sizes size) (check_peers genesis s' o' fuel D ps c k sizes size).
Proof.
  intros Hc. induction ps as [|p ps IH]; intros Hps sizes size; cbn [check_peers]; [apply refines_refl|]. rewrite (Hagree p c) by (auto; apply Hps; left).
  assert (Hps' : forall q, q ∈ ps -> stored q) by (intros q Hq; apply Hps; by right). destruct (o' p c); [by apply IH|].
  apply refines_bind; [apply blue_anticone_refines|]. intros n _. apply refines_bind; [apply refines_refl|]. intros sz _.
  destruct (k <? sz); [apply refines_refl|]. destruct (n =? k); [apply refines_refl|]. destruct (negb (n <=? k)); [apply refines_refl|]. by apply IH.
Qed.

(** The blue mergeset of stored data is stored. *)
Lemma stored_blues b d : gd s !! b = Some d -> forall x, x ∈ mergeset_blues d -> stored x.
Proof.
  intros Hb x Hx. destruct (decide (b = ORIGIN)) as [->|Ho]; [by rewrite (dg_no_origin _ _ _ _ OK) in Hb|]. destruct (decide (b = genesis)) as [->|Hg].
  - destruct (dg_genesis _ _ _ _ OK) as [_ Hg]. rewrite Hg in Hb. injection Hb as <-. by apply elem_of_nil in Hx.
  - destruct (dg_block _ _ _ _ OK b d Hb Ho Hg) as [_ _ (l & ws & Hl & _ & Hall & _)]. inversion Hl as [|? d' r l' _ Hd' Hm Hl']; [congruence|].
    assert (d' = d) as -> by congruence. destruct (Hall x) as (_ & Hxo & Ht); [subst l; apply elem_of_app; by left|]. apply (related genesis kp level s OK).
    apply (anc_real genesis kp level s OK x b); [split; [by apply elem_of_dom_2 in Hb|done]|done|done].
Qed.

Definition walk_ok (d : GhostdagData) : Prop := forall x, x ∈ mergeset_blues d -> stored x.

Lemma check_chain_refines n fuel D c k : stored c -> forall h d sizes size, walk_ok d -> (forall x, h = Some x -> stored x) ->
  refines (check_chain genesis s o n fuel D h d c k sizes size) (check_chain genesis s' o' n fuel D h d c k sizes size).
Proof.
  intros Hc. induction n as [|n IH]; intros h d sizes size Hd Hh; cbn [check_chain]; [apply refines_refl|]. apply refines_bind.
  - unfold check_blue_candidate_with_chain_block. assert (E : match h with Some x => o x c | None => false end = match h with Some x => o' x c | None => false end).
    { destruct h as [x|]; [|done]. apply Hagree; [by apply Hh|done]. }
    rewrite <- E. destruct (match h with Some x => o x c | None => false end); [apply refines_refl|]. by apply check_peers_refines.
  - intros [[st sz] n'] _. destruct st; try apply refines_refl. apply refines_bind; [apply get_data_refines|]. intros d' Hd'.
    pose proof (get_data_stored _ _ Hd') as Hst. apply IH; [|by intros x [= <-]]. intros x Hx. unfold get_data in Hd'. destruct (gd s !! selected_parent d) eqn:E; [|done].
    injection Hd' as ->. by apply (stored_blues _ _ E).
Qed.

Lemma add_blue_blues d b n sizes d' : add_blue d b n sizes = Ok d' -> mergeset_blues d' = mergeset_blues d ++ [b].
Proof. unfold add_blue. case_bool_decide; [|done]. by intros [= <-]. Qed.

Lemma color_blocks_refines fuel k cs : (forall c, c ∈ cs -> stored c) -> forall d, walk_ok d ->
  refines (color_blocks genesis s o fuel k cs d) (color_blocks genesis s' o' fuel k cs d).
Proof.
  induction cs as [|c cs IH]; intros Hcs d Hd; cbn [color_blocks]; [apply refines_refl|]. pose proof (Hcs c ltac:(left)) as Hc.
  apply refines_bind.
  - unfold check_blue_candidate. apply refines_bind; [apply refines_refl|]. intros k1 _. destruct (_ =? _); [apply refines_refl|]. by apply check_chain_refines.
  - intros out _. apply refines_bind; [apply refines_refl|]. intros d' Hd'. apply IH; [intros x Hx; apply Hcs; by right|]. destruct out as [n sizes|].
    + apply add_blue_blues in Hd'. intros x. rewrite Hd', elem_of_app, list_elem_of_singleton. intros [Hx| ->]; [by apply Hd|done].
    + injection Hd' as <-. apply Hd.
Qed.

Lemma sortables_stored l bs : mapM (sortable s) l = Ok bs -> forall b, b ∈ bs -> stored (sb_hash b).
Proof.
  revert bs. induction l as [|x l IH]; intros bs H b Hb; cbn [mapM] in H; [injection H as <-; by apply elem_of_nil in Hb|].
  destruct (sortable s x) as [y| |] eqn:Ex; try discriminate H. destruct (mapM (sortable s) l) as [bs'| |] eqn:El; try discriminate H. injection H as <-.
  apply elem_of_cons in Hb as [->|Hb]; [|by apply (IH bs')]. unfold sortable in Ex. destruct (get_data s x) as [d| |] eqn:Ed; try discriminate Ex. injection Ex as <-.
  by apply get_data_stored in Ed.
Qed.

Lemma selected_stored ps sp : find_selected_parent s ps = Ok sp -> stored sp.
Proof.
  unfold find_selected_parent. destruct (mapM (sortable s) ps) as [l| |] eqn:El; try discriminate. cbn. destruct (max_sortable l) as [b|] eqn:Eb; try discriminate.
  cbn. intros [= <-]. by apply (sortables_stored ps l El), max_sortable_spec.
Qed.

Lemma sorted_stored l cs : sort_blocks s l = Ok cs -> forall c, c ∈ cs -> stored c.
Proof.
  unfold sort_blocks. destruct (mapM (sortable s) l) as [bs| |] eqn:El; try discriminate. cbn. intros [= <-] c (b & -> & Hb)%list_elem_of_fmap.
  apply (sortables_stored l bs El). by rewrite sort_perm in Hb.
Qed.

Lemma block_work_refines h : refines (block_work level s h) (block_work level s' h).
Proof. apply refines_bind; [by apply unwrap_refines|]. intros bits _. apply refines_refl. Qed.

(** The computation for a block gives the same in the larger DAG. *)
Lemma ghostdag_stable fuel ps : refines (ghostdag genesis kp level s o fuel ps) (ghostdag genesis kp level s' o' fuel ps).
Proof.
  unfold ghostdag. destruct ps as [|p0 ps0]; [apply refines_refl|]. set (ps := p0 :: ps0). apply refines_bind; [apply find_selected_parent_refines|]. intros sp Esp.
  case_bool_decide as Ho; [apply refines_refl|]. apply refines_bind; [by apply unwrap_refines|]. intros daa _. apply refines_bind; [apply refines_refl|]. intros d Ed.
  assert (Hsp : stored sp) by (by apply (selected_stored ps)).
  assert (Hd : walk_ok d) by (unfold new_with_selected_parent in Ed; destruct (checked _ _); [|done..]; injection Ed as <-; intros x ->%list_elem_of_singleton; done).
  apply refines_bind.
  - apply refines_bind; [by apply mergeset_loop_refines|]. intros M _. apply sort_blocks_refines.
  - intros cs Ecs. apply refines_bind.
    + apply color_blocks_refines; [|done]. unfold ordered_mergeset_without_selected_parent in Ecs. destruct (unordered_mergeset_without_selected_parent _ _ _ _ _) as [M| |]; [|done..].
      by apply (sorted_stored (elements M)).
    + intros d' _. apply refines_bind; [apply get_data_refines|]. intros spd _. apply refines_bind; [apply refines_refl|]. intros sc _.
      apply refines_bind; [apply refines_mapM; intros; apply block_work_refines|]. intros ws _. apply refines_refl.
Qed.

End Growth.

End GhostdagGrowth.
