(* ===== verification/Reachability.v ===== *)
(** * Reachability in the block DAG (consensus/src/processes/reachability)

    Whether a block is in the past of another is answered from a tree of blocks, in which
    the parent of a block is its selected parent.  Each block has an interval that
    contains those of its subtree, and a set of blocks that cover the rest of its future.
    When an interval is used up, intervals are handed out anew.  The store is the map of
    model/stores/reachability.rs. *)
From Stdlib Require Import ZArith Lia.
From stdpp Require Import base numbers list gmap.
From S2P Require Import Prelude Float64 Ghostdag.
Import Ghostdag.Ghostdag.
Open Scope Z_scope.

Module Reachability.

(** ** Results *)

Inductive ReachabilityError := KeyNotFound | HashAlreadyExists | DataOverflow | DataInconsistency | BadQuery.

(** A result, an error, a panic, or a loop that the model stops *)
Inductive R (A : Type) : Type := Done (a : A) | Err (e : ReachabilityError) | Panic | Stuck.
Arguments Done {A} a.
Arguments Err {A} e.
Arguments Panic {A}.
Arguments Stuck {A}.

#[global] Instance R_ret : MRet R := fun A a => Done a.
#[global] Instance R_bind : MBind R := fun A B f m =>
  match m with Done a => f a | Err e => Err e | Panic => Panic | Stuck => Stuck end.

(** [Result::unwrap] and integer arithmetic with overflow checks *)
Definition unwrap_r {A} (m : R A) : R A := match m with Err _ => Panic | _ => m end.
Definition chk (x : Z) : R Z := if (0 <=? x) && (x <? 2 ^ 64) then Done x else Panic.
Definition of_option {A} (e : ReachabilityError) (o : option A) : R A := match o with Some a => Done a | None => Err e end.
(** Indexing *)
Definition index {A} (l : list A) (i : nat) : R A := match l !! i with Some a => Done a | None => Panic end.
Definition assert_r (b : bool) : R unit := if b then Done () else Panic.

Fixpoint sum_r (acc : Z) (l : list Z) : R Z :=
  match l with [] => Done acc | x :: l => acc ← chk (acc + x); sum_r acc l end.

(** ** Intervals *)

Record Interval := mk_interval { start : Z; iend : Z }.

Definition maximal : Interval := mk_interval 1 (2 ^ 64 - 2).

Definition isize (i : Interval) : R Z := e ← chk (iend i + 1); chk (e - start i).
Definition is_empty (i : Interval) : R bool := n ← isize i; Done (n =? 0).

Definition increase (i : Interval) (offset : Z) : R Interval := a ← chk (start i + offset); b ← chk (iend i + offset); Done (mk_interval a b).
Definition decrease (i : Interval) (offset : Z) : R Interval := a ← chk (start i - offset); b ← chk (iend i - offset); Done (mk_interval a b).
Definition increase_start (i : Interval) (offset : Z) : R Interval := a ← chk (start i + offset); Done (mk_interval a (iend i)).
Definition decrease_start (i : Interval) (offset : Z) : R Interval := a ← chk (start i - offset); Done (mk_interval a (iend i)).
Definition increase_end (i : Interval) (offset : Z) : R Interval := b ← chk (iend i + offset); Done (mk_interval (start i) b).
Definition decrease_end (i : Interval) (offset : Z) : R Interval := b ← chk (iend i - offset); Done (mk_interval (start i) b).

(** [x as f32]: the nearest number of 24 bits, ties to even *)
Definition round_f32 (x : Z) : Z :=
  let k := Z.log2 x - 23 in
  if k <=? 0 then x
  else let q := Z.shiftr x k in let r := x - Z.shiftl q k in let half := 2 ^ (k - 1) in
       Z.shiftl (if (half <? r) || ((half =? r) && Z.odd q) then q + 1 else q) k.

(** [f32::ceil(size as f32 * 0.5) as u64]: half of a number of 24 bits is exact *)
Definition half_ceil (size : Z) : Z := Z.min ((round_f32 size + 1) / 2) (2 ^ 64 - 1).

Definition split_half (i : Interval) : R (Interval * Interval) :=
  n ← isize i;
  let left_size := half_ceil n in
  m ← chk (start i + left_size); e ← chk (m - 1);
  Done (mk_interval (start i) e, mk_interval m (iend i)).

Fixpoint split_parts (s : Z) (sizes : list Z) : R (list Interval) :=
  match sizes with
  | [] => Done []
  | size :: sizes =>
      next ← chk (s + size); e ← chk (next - 1);
      l ← split_parts next sizes;
      Done (mk_interval s e :: l)
  end.

Definition split_exact (i : Interval) (sizes : list Z) : R (list Interval) :=
  sum ← sum_r 0 sizes; n ← isize i;
  _ ← assert_r (sum =? n);
  split_parts (start i) sizes.

(** [x as f64], and [f64::round(x) as u64], which rounds half away from zero and
    saturates *)
Definition u64_to_f64 (x : Z) : Z := Float64.Float64.pack Float64.Float64.RoundToNearest false x 0.
Definition round_to_u64 (x : Z) : Z :=
  match Float64.Float64.decode x with
  | Float64.Float64.NaN => 0
  | Float64.Float64.Inf s => if s then 0 else 2 ^ 64 - 1
  | Float64.Float64.Fin s m e =>
      let n := if 0 <=? e then Z.shiftl m e else Z.shiftr (m + 2 ^ (- e - 1)) (- e) in
      if s then 0 else Z.min n (2 ^ 64 - 1)
  end.

Definition contains (i other : Interval) : bool := (start i <=? start other) && (iend other <=? iend i).
Definition strictly_contains (i other : Interval) : bool := (start i <=? start other) && (iend other <? iend i).

Section Powf.
(** [f64::powf], whose precision the language leaves open *)
Context (powf : Z -> Z -> Z).

Definition f_one : Z := u64_to_f64 1.
Definition f_two : Z := u64_to_f64 2.
Definition nearest : Z := Float64.Float64.RoundToNearest.

Definition exponential_fractions (sizes : list Z) : list Z :=
  let max_size := foldr Z.max 0 sizes in
  let fractions := (fun s => Float64.Float64.f_div nearest f_one (powf f_two (u64_to_f64 (max_size - s)))) <$> sizes in
  let fractions_sum := foldl (Float64.Float64.f_add nearest) 0 fractions in
  (fun item => Float64.Float64.f_div nearest item fractions_sum) <$> fractions.

(** [for (i, fraction) in exp_fractions.iter().enumerate()] *)
Fixpoint biased (total_bias : Z) (fractions sizes : list Z) (remaining_bias : Z) : R (list Z) :=
  match fractions, sizes with
  | [], _ => Done []
  | fraction :: fractions, size :: sizes =>
      let bias := match fractions with
                  | [] => remaining_bias
                  | _ => Z.min remaining_bias (round_to_u64 (Float64.Float64.f_mul nearest total_bias fraction))
                  end in
      b ← chk (size + bias); rest ← chk (remaining_bias - bias);
      l ← biased total_bias fractions sizes rest;
      Done (b :: l)
  | _ :: _, [] => Panic
  end.

Definition split_exponential (i : Interval) (sizes : list Z) : R (list Interval) :=
  interval_size ← isize i;
  sizes_sum ← sum_r 0 sizes;
  _ ← assert_r (sizes_sum <=? interval_size);
  _ ← assert_r (0 <? sizes_sum);
  if interval_size =? sizes_sum then split_exact i sizes
  else
    let remaining_bias := interval_size - sizes_sum in
    biased_sizes ← biased (u64_to_f64 remaining_bias) (exponential_fractions sizes) sizes remaining_bias;
    split_exact i biased_sizes.

(** ** The store *)

Definition NONE : Hash := 0.
Definition DEFAULT_REINDEX_DEPTH : Z := 100.
Definition DEFAULT_REINDEX_SLACK : Z := 2 ^ 14.

Record ReachabilityData := mk_rdata { children : list Hash; parent : Hash; interval : Interval; height : Z; future_covering_set : list Hash }.
Record rstore := mk_rstore { rmap : gmap Hash ReachabilityData; reindex_root : option Hash }.

Definition get_rdata (s : rstore) (h : Hash) : R ReachabilityData := of_option KeyNotFound (rmap s !! h).
Definition has (s : rstore) (h : Hash) : bool := bool_decide (is_Some (rmap s !! h)).
Definition get_interval (s : rstore) (h : Hash) : R Interval := d ← get_rdata s h; Done (interval d).
Definition get_parent (s : rstore) (h : Hash) : R Hash := d ← get_rdata s h; Done (parent d).
Definition get_children (s : rstore) (h : Hash) : R (list Hash) := d ← get_rdata s h; Done (children d).
Definition get_future_covering_set (s : rstore) (h : Hash) : R (list Hash) := d ← get_rdata s h; Done (future_covering_set d).
Definition get_height (s : rstore) (h : Hash) : R Z := d ← get_rdata s h; Done (height d).
Definition get_reindex_root (s : rstore) : R Hash := of_option KeyNotFound (reindex_root s).
Definition set_reindex_root (s : rstore) (root : Hash) : rstore := mk_rstore (rmap s) (Some root).

Definition update (s : rstore) (h : Hash) (f : ReachabilityData -> ReachabilityData) : R rstore :=
  d ← get_rdata s h; Done (mk_rstore (<[h := f d]> (rmap s)) (reindex_root s)).
Definition insert_data (s : rstore) (h p : Hash) (i : Interval) (height : Z) : R rstore :=
  match rmap s !! h with
  | Some _ => Err HashAlreadyExists
  | None => Done (mk_rstore (<[h := mk_rdata [] p i height []]> (rmap s)) (reindex_root s))
  end.
Definition set_interval (s : rstore) (h : Hash) (i : Interval) : R rstore :=
  update s h (fun d => mk_rdata (children d) (parent d) i (height d) (future_covering_set d)).
Definition set_parent (s : rstore) (h p : Hash) : R rstore :=
  update s h (fun d => mk_rdata (children d) p (interval d) (height d) (future_covering_set d)).
Definition append_child (s : rstore) (h c : Hash) : R rstore :=
  update s h (fun d => mk_rdata (children d ++ [c]) (parent d) (interval d) (height d) (future_covering_set d)).
(** [Vec::insert] and [Vec::splice] of one element, which panic behind the end *)
Definition vec_insert (l : list Hash) (i : nat) (x : Hash) : R (list Hash) :=
  if (i <=? length l)%nat then Done (take i l ++ x :: drop i l) else Panic.
Definition vec_splice (l : list Hash) (i : nat) (xs : list Hash) : R (list Hash) :=
  if (i <? length l)%nat then Done (take i l ++ xs ++ drop (i + 1) l) else Panic.
Definition insert_future_covering_item (s : rstore) (h fci : Hash) (i : nat) : R rstore :=
  d ← get_rdata s h; l ← vec_insert (future_covering_set d) i fci;
  update s h (fun d => mk_rdata (children d) (parent d) (interval d) (height d) l).
Definition replace_child (s : rstore) (h : Hash) (i : nat) (with_ : list Hash) : R rstore :=
  d ← get_rdata s h; l ← vec_splice (children d) i with_;
  update s h (fun d => mk_rdata l (parent d) (interval d) (height d) (future_covering_set d)).
Definition replace_future_covering_item (s : rstore) (h : Hash) (i : nat) (with_ : list Hash) : R rstore :=
  d ← get_rdata s h; l ← vec_splice (future_covering_set d) i with_;
  update s h (fun d => mk_rdata (children d) (parent d) (interval d) (height d) l).
Definition delete_data (s : rstore) (h : Hash) : rstore := mk_rstore (delete h (rmap s)) (reindex_root s).

Definition init_with_params (s : rstore) (origin : Hash) (capacity : Interval) : R rstore :=
  if has s origin then Done s
  else s ← insert_data s origin NONE capacity 0; Done (set_reindex_root s origin).
Definition init_reachability (s : rstore) : R rstore := init_with_params s ORIGIN maximal.

(** *** Free intervals *)

Definition interval_children_capacity (s : rstore) (b : Hash) : R Interval := i ← get_interval s b; decrease_end i 1.

Definition interval_remaining_before (s : rstore) (b : Hash) : R Interval :=
  alloc_capacity ← interval_children_capacity s b; cs ← get_children s b;
  match head cs with
  | Some first_child => first_alloc ← get_interval s first_child; e ← chk (start first_alloc - 1); Done (mk_interval (start alloc_capacity) e)
  | None => Done alloc_capacity
  end.

Definition interval_remaining_after (s : rstore) (b : Hash) : R Interval :=
  alloc_capacity ← interval_children_capacity s b; cs ← get_children s b;
  match last cs with
  | Some last_child => last_alloc ← get_interval s last_child; a ← chk (iend last_alloc + 1); Done (mk_interval a (iend alloc_capacity))
  | None => Done alloc_capacity
  end.

(** ** Queries *)

Definition is_strict_chain_ancestor_of (s : rstore) (this queried : Hash) : R bool :=
  i ← get_interval s this; j ← get_interval s queried; Done (strictly_contains i j).
Definition is_chain_ancestor_of (s : rstore) (this queried : Hash) : R bool :=
  i ← get_interval s this; j ← get_interval s queried; Done (contains i j).

Inductive SearchOutput := NotFound (i : nat) | Found (h : Hash) (i : nat).

(** [slice::binary_search_by_key]: [inl i] is [Ok(i)], [inr i] is [Err(i)]. *)
Fixpoint binary_search (fuel : nat) (s : rstore) (l : list Hash) (point : Z) (left right : nat) : R (nat + nat) :=
  if (left <? right)%nat then
    match fuel with
    | O => Stuck
    | S fuel =>
        let mid := (left + (right - left) / 2)%nat in
        h ← index l mid;
        i ← unwrap_r (get_interval s h);
        match start i ?= point with
        | Lt => binary_search fuel s l point (mid + 1) right
        | Gt => binary_search fuel s l point left mid
        | Eq => Done (inl mid)
        end
    end
  else Done (inr left).

Definition binary_search_descendant (s : rstore) (ordered_hashes : list Hash) (descendant : Hash) : R SearchOutput :=
  j ← get_interval s descendant;
  let point := iend j in
  found ← binary_search (length ordered_hashes) s ordered_hashes point 0 (length ordered_hashes);
  match found with
  | inl i => h ← index ordered_hashes i; Done (Found h i)
  | inr O => Done (NotFound 0)
  | inr (S i) =>
      h ← index ordered_hashes i;
      b ← is_chain_ancestor_of s h descendant;
      Done (if b : bool then Found h i else NotFound (S i))
  end.

Definition is_dag_ancestor_of (s : rstore) (this queried : Hash) : R bool :=
  b ← is_chain_ancestor_of s this queried;
  if b : bool then Done true
  else
    fcs ← get_future_covering_set s this;
    o ← binary_search_descendant s fcs queried;
    Done (match o with Found _ _ => true | NotFound _ => false end).

Definition get_next_chain_ancestor_unchecked (s : rstore) (descendant ancestor : Hash) : R Hash :=
  cs ← get_children s ancestor;
  o ← binary_search_descendant s cs descendant;
  match o with Found h _ => Done h | NotFound _ => Err BadQuery end.

Definition get_next_chain_ancestor (s : rstore) (descendant ancestor : Hash) : R Hash :=
  if bool_decide (descendant = ancestor) then Err BadQuery
  else
    b ← is_strict_chain_ancestor_of s ancestor descendant;
    if b : bool then get_next_chain_ancestor_unchecked s descendant ancestor else Err BadQuery.

(** ** Reindexing *)

(** The store and the cached sizes of subtrees of one operation *)
Record ctx := mk_ctx { cstore : rstore; subtree_sizes : gmap Hash Z }.

Definition size_of_subtree (sizes : gmap Hash Z) (b : Hash) : R Z := match sizes !! b with Some n => Done n | None => Panic end.

(** [while current != block] *)
Fixpoint push_up (fuel : nat) (s : rstore) (block current : Hash) (sizes counts : gmap Hash Z) : R (gmap Hash Z * gmap Hash Z) :=
  if bool_decide (current = block) then Done (sizes, counts)
  else
    match fuel with
    | O => Stuck
    | S fuel =>
        current ← get_parent s current;
        cs ← get_children s current;
        count ← chk (default 0 (counts !! current) + 1);
        let counts := <[current := count]> counts in
        if count <? Z.of_nat (length cs) then Done (sizes, counts)
        else
          ns ← mapM (size_of_subtree sizes) cs;
          subtree_sum ← sum_r 0 ns;
          n ← chk (subtree_sum + 1);
          push_up fuel s block current (<[current := n]> sizes) counts
    end.

(** [while let Some(mut current) = queue.pop_front()] *)
Fixpoint count_loop (n fuel : nat) (s : rstore) (block : Hash) (queue : list Hash) (sizes counts : gmap Hash Z) : R (gmap Hash Z) :=
  match queue with
  | [] => Done sizes
  | current :: queue =>
      match n with
      | O => Stuck
      | S n =>
          cs ← get_children s current;
          if bool_decide (cs = []) || bool_decide (is_Some (sizes !! current)) then
            let sizes := if bool_decide (cs = []) then <[current := 1]> sizes else sizes in
            '(sizes, counts) ← push_up fuel s block current sizes counts;
            count_loop n fuel s block queue sizes counts
          else count_loop n fuel s block (queue ++ cs) sizes counts
      end
  end.

Definition count_subtrees (fuel : nat) (c : ctx) (block : Hash) : R ctx :=
  match subtree_sizes c !! block with
  | Some _ => Done c
  | None => sizes ← count_loop fuel fuel (cstore c) block [block] (subtree_sizes c) ∅; Done (mk_ctx (cstore c) sizes)
  end.

(** [for (c, ci) in children.iter().copied().zip(intervals)] *)
Fixpoint set_intervals (s : rstore) (cs : list Hash) (ivs : list Interval) : R rstore :=
  match cs, ivs with
  | c :: cs, i :: ivs => s ← set_interval s c i; set_intervals s cs ivs
  | _, _ => Done s
  end.

Fixpoint propagate_loop (fuel : nat) (s : rstore) (sizes : gmap Hash Z) (queue : list Hash) : R rstore :=
  match queue with
  | [] => Done s
  | current :: queue =>
      match fuel with
      | O => Stuck
      | S fuel =>
          cs ← get_children s current;
          if bool_decide (cs = []) then propagate_loop fuel s sizes queue
          else
            ns ← mapM (size_of_subtree sizes) cs;
            i ← interval_children_capacity s current;
            intervals ← split_exponential i ns;
            s ← set_intervals s cs intervals;
            propagate_loop fuel s sizes (queue ++ cs)
      end
  end.

Definition propagate_interval (fuel : nat) (c : ctx) (block : Hash) : R ctx :=
  c ← count_subtrees fuel c block;
  s ← propagate_loop fuel (cstore c) (subtree_sizes c) [block];
  Done (mk_ctx s (subtree_sizes c)).

Definition op : Type := Interval -> Z -> R Interval.

Definition apply_interval_op (c : ctx) (block : Hash) (offset : Z) (f : op) : R ctx :=
  i ← get_interval (cstore c) block; i ← f i offset;
  s ← set_interval (cstore c) block i; Done (mk_ctx s (subtree_sizes c)).
Definition apply_interval_op_and_propagate (fuel : nat) (c : ctx) (block : Hash) (offset : Z) (f : op) : R ctx :=
  c ← apply_interval_op c block offset f; propagate_interval fuel c block.

Fixpoint split_children (cs : list Hash) (pivot : Hash) : R (list Hash * list Hash) :=
  match cs with
  | [] => Err DataInconsistency
  | c :: cs => if bool_decide (c = pivot) then Done ([], cs) else '(before, after) ← split_children cs pivot; Done (c :: before, after)
  end.

(** The loops over the siblings: those up to the allocated block are moved, and that one
    gets the freed space. *)
Fixpoint offset_loop (fuel : nat) (allocation_block : Hash) (move grow : op) (offset : Z) (siblings : list Hash) (c : ctx) : R ctx :=
  match siblings with
  | [] => Done c
  | sibling :: siblings =>
      if bool_decide (sibling = allocation_block) then apply_interval_op_and_propagate fuel c allocation_block offset grow
      else c ← apply_interval_op_and_propagate fuel c sibling offset move; offset_loop fuel allocation_block move grow offset siblings c
  end.

Definition offset_siblings_before (fuel : nat) (c : ctx) (allocation_block current : Hash) (offset : Z) : R ctx :=
  p ← get_parent (cstore c) current; cs ← get_children (cstore c) p;
  '(siblings_before, _) ← split_children cs current;
  offset_loop fuel allocation_block increase increase_end offset (rev siblings_before) c.
Definition offset_siblings_after (fuel : nat) (c : ctx) (allocation_block current : Hash) (offset : Z) : R ctx :=
  p ← get_parent (cstore c) current; cs ← get_children (cstore c) p;
  '(_, siblings_after) ← split_children cs current;
  offset_loop fuel allocation_block decrease decrease_start offset siblings_after c.

(** [reclaim_interval_before] and [reclaim_interval_after] have the same text but for the
    side: the free interval they look at, how a block is made smaller, and the siblings. *)
Section Reclaim.
Context (fuel : nat) (remaining : rstore -> Hash -> R Interval) (shrink : op) (offset_siblings : ctx -> Hash -> Hash -> Z -> R ctx).
Context (slack : Z) (allocation_block common_ancestor root : Hash) (required_allocation : Z).

(** Up the chain, to a block with enough free space or to the reindex root *)
Fixpoint reclaim_up (n : nat) (c : ctx) (current : Hash) (slack_sum path_len : Z) : R (ctx * Hash * Z) :=
  if bool_decide (current = root) then
    a ← chk (slack * path_len); a ← chk (required_allocation + a); offset ← chk (a - slack_sum);
    c ← apply_interval_op_and_propagate fuel c current offset shrink;
    c ← offset_siblings c allocation_block current offset;
    Done (c, current, slack)
  else
    match n with
    | O => Stuck
    | S n =>
        i ← remaining (cstore c) current; slack_current ← isize i;
        slack_sum ← chk (slack_sum + slack_current);
        if required_allocation <=? slack_sum then
          a ← chk (slack_sum - required_allocation); offset ← chk (slack_current - a);
          c ← apply_interval_op c current offset shrink;
          c ← offset_siblings c allocation_block current offset;
          Done (c, current, 0)
        else
          current ← get_next_chain_ancestor_unchecked (cstore c) root current;
          path_len ← chk (path_len + 1);
          reclaim_up n c current slack_sum path_len
    end.

(** And back *)
Fixpoint reclaim_down (n : nat) (c : ctx) (current : Hash) (path_slack_alloc : Z) : R ctx :=
  match n with
  | O => Stuck
  | S n =>
      current ← get_parent (cstore c) current;
      if bool_decide (current = common_ancestor) then Done c
      else
        i ← remaining (cstore c) current; slack_current ← isize i;
        offset ← chk (slack_current - path_slack_alloc);
        c ← apply_interval_op c current offset shrink;
        c ← offset_siblings c allocation_block current offset;
        reclaim_down n c current path_slack_alloc
  end.

Definition reclaim_interval (c : ctx) (chosen_child : Hash) : R ctx :=
  '(c, current, path_slack_alloc) ← reclaim_up fuel c chosen_child 0 0;
  reclaim_down fuel c current path_slack_alloc.

End Reclaim.

Definition reclaim_interval_before (fuel : nat) (slack : Z) (c : ctx) (allocation_block common_ancestor chosen_child root : Hash) (required_allocation : Z) : R ctx :=
  reclaim_interval fuel interval_remaining_before increase_start (offset_siblings_before fuel) slack allocation_block common_ancestor root
    required_allocation c chosen_child.
Definition reclaim_interval_after (fuel : nat) (slack : Z) (c : ctx) (allocation_block common_ancestor chosen_child root : Hash) (required_allocation : Z) : R ctx :=
  reclaim_interval fuel interval_remaining_after decrease_end (offset_siblings_after fuel) slack allocation_block common_ancestor root
    required_allocation c chosen_child.

Definition reindex_intervals_earlier_than_root (fuel : nat) (slack : Z) (c : ctx) (allocation_block root common_ancestor : Hash) (required_allocation : Z) : R ctx :=
  chosen_child ← get_next_chain_ancestor_unchecked (cstore c) root common_ancestor;
  block_interval ← get_interval (cstore c) allocation_block;
  chosen_interval ← get_interval (cstore c) chosen_child;
  if start block_interval <? start chosen_interval then
    reclaim_interval_before fuel slack c allocation_block common_ancestor chosen_child root required_allocation
  else reclaim_interval_after fuel slack c allocation_block common_ancestor chosen_child root required_allocation.

(** The loop of [reindex_intervals] *)
Fixpoint reindex_loop (n fuel : nat) (slack : Z) (c : ctx) (current root : Hash) : R ctx :=
  match n with
  | O => Stuck
  | S n =>
      current_interval ← get_interval (cstore c) current;
      c ← count_subtrees fuel c current;
      size ← isize current_interval;
      need ← size_of_subtree (subtree_sizes c) current;
      if need <=? size then propagate_interval fuel c current
      else
        p ← get_parent (cstore c) current;
        if bool_decide (p = NONE) then Err DataOverflow
        else if bool_decide (current = root) then Err DataOverflow
        else
          b ← is_strict_chain_ancestor_of (cstore c) p root;
          if b : bool then reindex_intervals_earlier_than_root fuel slack c current root p need
          else reindex_loop n fuel slack c p root
  end.

Definition reindex_intervals (fuel : nat) (slack : Z) (s : rstore) (new_child root : Hash) : R rstore :=
  c ← reindex_loop fuel fuel slack (mk_ctx s ∅) new_child root; Done (cstore c).

(** ** New blocks *)

Definition add_tree_block (fuel : nat) (s : rstore) (new_block p : Hash) (reindex_slack : Z) : R rstore :=
  remaining ← interval_remaining_after s p;
  s ← append_child s p new_block;
  parent_height ← get_height s p;
  e ← is_empty remaining;
  if e : bool then
    h ← chk (parent_height + 1);
    s ← insert_data s new_block p remaining h;
    root ← get_reindex_root s;
    reindex_intervals fuel reindex_slack s new_block root
  else
    allocated ← split_half remaining;
    h ← chk (parent_height + 1);
    insert_data s new_block p (fst allocated) h.

Definition insert_to_future_covering_set (s : rstore) (merged_block new_block : Hash) : R rstore :=
  fcs ← get_future_covering_set s merged_block;
  o ← binary_search_descendant s fcs new_block;
  match o with
  | Found _ _ => Err DataInconsistency
  | NotFound i => insert_future_covering_item s merged_block new_block i
  end.

Fixpoint add_dag_block (s : rstore) (new_block : Hash) (mergeset : list Hash) : R rstore :=
  match mergeset with
  | [] => Done s
  | merged_block :: mergeset => s ← insert_to_future_covering_set s merged_block new_block; add_dag_block s new_block mergeset
  end.

Definition add_block (fuel : nat) (s : rstore) (new_block selected_parent : Hash) (mergeset : list Hash) : R rstore :=
  s ← add_tree_block fuel s new_block selected_parent DEFAULT_REINDEX_SLACK;
  add_dag_block s new_block mergeset.

(** ** The reindex root *)

Fixpoint tighten (fuel : nat) (c : ctx) (cs : list Hash) (ivs : list Interval) : R ctx :=
  match cs, ivs with
  | b :: cs, i :: ivs =>
      s ← set_interval (cstore c) b i;
      c ← propagate_interval fuel (mk_ctx s (subtree_sizes c)) b;
      tighten fuel c cs ivs
  | _, _ => Done c
  end.

Fixpoint sizes_of (fuel : nat) (c : ctx) (cs : list Hash) : R (ctx * list Z) :=
  match cs with
  | [] => Done (c, [])
  | b :: cs =>
      c ← count_subtrees fuel c b; n ← size_of_subtree (subtree_sizes c) b;
      '(c, ns) ← sizes_of fuel c cs; Done (c, n :: ns)
  end.

Definition tighten_intervals_before (fuel : nat) (slack : Z) (c : ctx) (p : Hash) (children_before : list Hash) : R (ctx * Z) :=
  '(c, sizes) ← sizes_of fuel c children_before;
  sum ← sum_r 0 sizes;
  i ← get_interval (cstore c) p;
  a ← chk (start i + slack); b ← chk (a + sum); b ← chk (b - 1);
  ivs ← split_exact (mk_interval a b) sizes;
  c ← tighten fuel c children_before ivs;
  Done (c, sum).

Definition tighten_intervals_after (fuel : nat) (slack : Z) (c : ctx) (p : Hash) (children_after : list Hash) : R (ctx * Z) :=
  '(c, sizes) ← sizes_of fuel c children_after;
  sum ← sum_r 0 sizes;
  i ← get_interval (cstore c) p;
  e ← chk (iend i - slack); a ← chk (e - sum); b ← chk (e - 1);
  ivs ← split_exact (mk_interval a b) sizes;
  c ← tighten fuel c children_after ivs;
  Done (c, sum).

Definition expand_interval_to_chosen (fuel : nat) (slack : Z) (c : ctx) (p child : Hash) (sum_before sum_after : Z) (is_final : bool) : R ctx :=
  i ← get_interval (cstore c) p;
  a ← chk (start i + sum_before); a ← chk (a + slack);
  b ← chk (iend i - sum_after); b ← chk (b - slack); b ← chk (b - 1);
  let allocation := mk_interval a b in
  current ← get_interval (cstore c) child;
  c ← (if is_final && negb (contains allocation current) then
         na ← chk (a + slack); nb ← chk (b - slack);
         s ← set_interval (cstore c) child (mk_interval na nb);
         propagate_interval fuel (mk_ctx s (subtree_sizes c)) child
       else Done c);
  s ← set_interval (cstore c) child allocation;
  Done (mk_ctx s (subtree_sizes c)).

Definition concentrate_interval (fuel : nat) (slack : Z) (s : rstore) (p child : Hash) (is_final : bool) : R rstore :=
  cs ← get_children s p;
  '(before, after) ← split_children cs child;
  '(c, sum_before) ← tighten_intervals_before fuel slack (mk_ctx s ∅) p before;
  '(c, sum_after) ← tighten_intervals_after fuel slack c p after;
  c ← expand_interval_to_chosen fuel slack c p child sum_before sum_after is_final;
  Done (cstore c).

Fixpoint find_common_tree_ancestor (fuel : nat) (s : rstore) (current root : Hash) : R Hash :=
  match fuel with
  | O => Stuck
  | S fuel =>
      b ← is_chain_ancestor_of s current root;
      if b : bool then Done current else p ← get_parent s current; find_common_tree_ancestor fuel s p root
  end.

(** The loop of [find_next_reindex_root] *)
Fixpoint next_root_loop (fuel : nat) (s : rstore) (hint next : Hash) (hint_height reindex_depth : Z) : R Hash :=
  match fuel with
  | O => Stuck
  | S fuel =>
      child ← get_next_chain_ancestor_unchecked s hint next;
      child_height ← get_height s child;
      if hint_height <? child_height then Err DataInconsistency
      else if hint_height - child_height <? reindex_depth then Done next
      else next_root_loop fuel s hint child hint_height reindex_depth
  end.

Definition find_next_reindex_root (fuel : nat) (s : rstore) (current hint : Hash) (reindex_depth reindex_slack : Z) : R (Hash * Hash) :=
  hint_height ← get_height s hint;
  b ← is_chain_ancestor_of s current hint;
  ancestor ← (if b : bool then Done (Some current)
              else
                current_height ← get_height s current;
                if (hint_height <? current_height) || (hint_height - current_height <? reindex_slack) then Done None
                else common ← find_common_tree_ancestor fuel s hint current; Done (Some common));
  match ancestor with
  | None => Done (current, current)
  | Some ancestor => next ← next_root_loop fuel s hint ancestor hint_height reindex_depth; Done (ancestor, next)
  end.

(** [while ancestor != next] *)
Fixpoint advance_loop (n fuel : nat) (slack : Z) (s : rstore) (ancestor next : Hash) : R rstore :=
  if bool_decide (ancestor = next) then Done s
  else
    match n with
    | O => Stuck
    | S n =>
        child ← get_next_chain_ancestor_unchecked s next ancestor;
        s ← concentrate_interval fuel slack s ancestor child (bool_decide (child = next));
        advance_loop n fuel slack s child next
    end.

Definition try_advancing_reindex_root (fuel : nat) (s : rstore) (hint : Hash) (reindex_depth reindex_slack : Z) : R rstore :=
  current ← get_reindex_root s;
  '(ancestor, next) ← find_next_reindex_root fuel s current hint reindex_depth reindex_slack;
  if bool_decide (current = next) then Done s
  else s ← advance_loop fuel fuel reindex_slack s ancestor next; Done (set_reindex_root s next).

Definition hint_virtual_selected_parent (fuel : nat) (s : rstore) (hint : Hash) : R rstore :=
  try_advancing_reindex_root fuel s hint DEFAULT_REINDEX_DEPTH DEFAULT_REINDEX_SLACK.

(** ** Deletion *)

Fixpoint set_parents (s : rstore) (cs : list Hash) (p : Hash) : R rstore :=
  match cs with [] => Done s | c :: cs => s ← set_parent s c p; set_parents s cs p end.

Fixpoint replace_in_covering_sets (s : rstore) (block : Hash) (cs mergeset : list Hash) : R rstore :=
  match mergeset with
  | [] => Done s
  | merged_block :: mergeset =>
      fcs ← get_future_covering_set s merged_block;
      o ← binary_search_descendant s fcs block;
      match o with
      | NotFound _ => Err DataInconsistency
      | Found _ i => s ← replace_future_covering_item s merged_block i cs; replace_in_covering_sets s block cs mergeset
      end
  end.

Definition delete_block (s : rstore) (block : Hash) (mergeset : list Hash) : R rstore :=
  i ← get_interval s block; p ← get_parent s block; cs ← get_children s block;
  siblings ← get_children s p;
  o ← binary_search_descendant s siblings block;
  match o with
  | NotFound _ => Err DataInconsistency
  | Found _ block_index =>
      s ← replace_child s p block_index cs;
      s ← set_parents s cs p;
      s ← replace_in_covering_sets s block cs mergeset;
      s ← match cs with
          | [] =>
              match block_index with
              | O => Done s
              | S k => siblings ← get_children s p; sibling ← index siblings k;
                       j ← get_interval s sibling; set_interval s sibling (mk_interval (start j) (iend i))
              end
          | [c] => set_interval s c i
          | c :: _ =>
              j ← get_interval s c; s ← set_interval s c (mk_interval (start i) (iend j));
              l ← index cs (length cs - 1); j ← get_interval s l;
              set_interval s l (mk_interval (start j) (iend i))
          end;
      Done (delete_data s block)
  end.

End Powf.

End Reachability.
