(* ===== verification/ReachabilityTree.v ===== *)
(** * The tree of blocks of the reachability store, and intervals on it

    The children, parents and heights of a store as a tree of its own; subtrees and their
    sizes; intervals that nest as the tree does, and what they say of ancestors. *)
From Stdlib Require Import ZArith Lia.
From stdpp Require Import base numbers list gmap.
From S2P Require Import Prelude Float64 Ghostdag Reachability.
Import Ghostdag.Ghostdag Reachability.Reachability.
Open Scope Z_scope.

Module ReachabilityTree.

Definition zsum (l : list Z) : Z := foldr Z.add 0 l.

Lemma zsum_app l1 l2 : zsum (l1 ++ l2) = zsum l1 + zsum l2.
Proof. induction l1; simpl; lia. Qed.

(** ** Trees *)

Record node := mk_node { kids : list Hash; par : Hash; hgt : Z }.
Abbreviation tree := (gmap Hash node).

Section Tree.
Context (m : tree).

Definition K (h : Hash) : list Hash := match m !! h with Some n => kids n | None => [] end.
Definition P (h : Hash) : Hash := match m !! h with Some n => par n | None => NONE end.
Definition ht (h : Hash) : Z := match m !! h with Some n => hgt n | None => 0 end.

(** Children and parents agree, below one root, and heights grow. *)
Record shape (o : Hash) : Prop := {
  sh_root : o ∈ dom m;
  sh_none : NONE ∉ dom m;
  sh_top : P o = NONE;
  sh_kid p c : c ∈ K p -> c ∈ dom m /\ P c = p /\ ht p < ht c;
  sh_par c : c ∈ dom m -> c <> o -> c ∈ K (P c);
  sh_nodup p : NoDup (K p);
  sh_height h : 0 <= ht h }.

(** [a] is [b] or above it *)
Definition tanc (a b : Hash) : Prop := rtc (fun p c => c ∈ K p) a b.

Lemma tanc_refl a : tanc a a.
Proof. apply rtc_refl. Qed.
Lemma tanc_trans a b c : tanc a b -> tanc b c -> tanc a c.
Proof. apply (transitivity (R := rtc _)). Qed.
Lemma tanc_kid p c : c ∈ K p -> tanc p c.
Proof. intros Hc. by apply (rtc_once (R := fun p c => c ∈ K p)). Qed.

Definition max_height : Z := foldr Z.max 0 ((fun kv => hgt kv.2) <$> map_to_list m).

Lemma max_height_ge h : h ∈ dom m -> ht h <= max_height.
Proof.
  intros [n Hn]%elem_of_dom. unfold ht. rewrite Hn. unfold max_height. apply elem_of_map_to_list in Hn.
  induction (map_to_list m) as [|kv l IH]; [set_solver|]. rewrite fmap_cons. cbn [foldr]. apply elem_of_cons in Hn as [<-|Hn]; [cbn; lia|]. specialize (IH Hn). lia.
Qed.

Lemma max_height_le h : 0 <= h -> (forall x, x ∈ dom m -> ht x <= h) -> max_height <= h.
Proof.
  intros Hh Hall. unfold max_height. assert (Hl : forall kv, kv ∈ map_to_list m -> hgt kv.2 <= h).
  { intros [k v] Hkv%elem_of_map_to_list. cbn. pose proof (Hall k ltac:(by apply elem_of_dom)) as Hk. unfold ht in Hk. by rewrite Hkv in Hk. }
  induction (map_to_list m) as [|kv l IH]; [cbn; lia|]. rewrite fmap_cons. cbn [foldr].
  pose proof (Hl kv ltac:(left)). specialize (IH ltac:(intros kv' Hkv'; apply Hl; by right)). lia.
Qed.

(** The blocks below a block *)
Fixpoint subtree (n : nat) (b : Hash) : list Hash :=
  b :: match n with O => [] | S n => K b ≫= subtree n end.
Definition desc (b : Hash) : list Hash := subtree (Z.to_nat (max_height - ht b)) b.
Definition sz (b : Hash) : Z := Z.of_nat (length (desc b)).

Context (o : Hash) (SH : shape o).

Lemma kid_dom p c : c ∈ K p -> p ∈ dom m /\ c ∈ dom m.
Proof.
  intros Hc. split; [|by destruct (sh_kid o SH p c Hc)]. unfold K in Hc.
  destruct (m !! p) eqn:E; [by apply elem_of_dom|set_solver].
Qed.

Lemma tanc_dom a b : tanc a b -> a ∈ dom m -> b ∈ dom m.
Proof. intros Hab. induction Hab as [|a c b Hc _ IH]; [done|]. intros _. apply IH. by destruct (kid_dom _ _ Hc). Qed.
Lemma tanc_dom_l a b : tanc a b -> b ∈ dom m -> a ∈ dom m.
Proof. intros Hab Hb. inversion Hab as [|? c ? Hc]; subst; [done|]. by destruct (kid_dom _ _ Hc). Qed.

Lemma tanc_height a b : tanc a b -> a = b \/ ht a < ht b.
Proof.
  intros Hab. induction Hab as [|a c b Hc _ IH]; [by left|]. right.
  destruct (sh_kid o SH a c Hc) as (_ & _ & Hlt). destruct IH as [->|?]; lia.
Qed.

Lemma tanc_antisym a b : tanc a b -> tanc b a -> a = b.
Proof. intros [|?]%tanc_height [|?]%tanc_height; auto; lia. Qed.

Lemma tanc_up a p c : c ∈ K p -> tanc a c -> a = c \/ tanc a p.
Proof.
  intros Hc [->|(q & Haq & Hq)]%rtc_inv_r; [by left|]. right.
  destruct (sh_kid o SH p c Hc) as (_ & <- & _). destruct (sh_kid o SH q c Hq) as (_ & -> & _). done.
Qed.

Lemma tanc_parent a c : c ∈ dom m -> c <> o -> tanc a c -> a <> c -> tanc a (P c).
Proof. intros Hc Ho Hac Hne. by destruct (tanc_up a (P c) c (sh_par o SH c Hc Ho) Hac). Qed.

Lemma kid_not_above p c : c ∈ K p -> ~ tanc c p.
Proof. intros Hc Ht. destruct (sh_kid o SH p c Hc) as (_ & _ & Hlt). destruct (tanc_height _ _ Ht) as [->|?]; lia. Qed.

Lemma tanc_down a b : tanc a b -> a <> b -> exists c, c ∈ K a /\ tanc c b.
Proof. intros Hab Hne. inversion Hab as [|? c ? Hc Ht]; subst; [done|]. by exists c. Qed.

Lemma tanc_linear a b c : tanc a c -> tanc b c -> tanc a b \/ tanc b a.
Proof.
  intros Hac. induction Hac as [a|a d c Hd Hdc IH]; [by right|]. intros Hbc.
  destruct (IH Hbc) as [Hdb|Hbd]; [left; by eapply tanc_trans; [apply tanc_kid|]|].
  destruct (tanc_up b a d Hd Hbd) as [->|?]; [left; by apply tanc_kid|by right].
Qed.

(** Two children with a common descendant are the same. *)
Lemma kids_apart p c1 c2 x : c1 ∈ K p -> c2 ∈ K p -> tanc c1 x -> tanc c2 x -> c1 = c2.
Proof.
  intros H1 H2 T1 T2. destruct (tanc_linear _ _ _ T1 T2) as [T|T].
  - destruct (tanc_up _ _ _ H2 T) as [?|T']; [done|]. by destruct (kid_not_above _ _ H1).
  - destruct (tanc_up _ _ _ H1 T) as [?|T']; [done|]. by destruct (kid_not_above _ _ H2).
Qed.

Lemma tanc_root b : b ∈ dom m -> tanc o b.
Proof.
  remember (Z.to_nat (ht b)) as n eqn:Hn. revert b Hn. induction (lt_wf n) as [n _ IH]. intros b -> Hb.
  destruct (decide (b = o)) as [->|Hne]; [apply tanc_refl|].
  pose proof (sh_par o SH b Hb Hne) as Hk. destruct (sh_kid o SH _ _ Hk) as (_ & _ & Hlt). pose proof (sh_height o SH (P b)).
  eapply tanc_trans; [|by apply tanc_kid]. apply (IH (Z.to_nat (ht (P b)))); [lia|done|]. by destruct (kid_dom _ _ Hk).
Qed.

Lemma root_top b : tanc b o -> b = o.
Proof.
  intros [->|(p & _ & Hp)]%rtc_inv_r; [done|]. destruct (sh_kid o SH _ _ Hp) as (_ & HP & _). rewrite (sh_top o SH) in HP. subst p.
  destruct (kid_dom _ _ Hp) as [Hn _]. by destruct (sh_none o SH).
Qed.

Lemma not_root p c : c ∈ K p -> c <> o.
Proof.
  intros Hc ->. destruct (sh_kid o SH p o Hc) as (_ & HP & _). rewrite (sh_top o SH) in HP. subst p.
  destruct (kid_dom _ _ Hc) as [Hn _]. by destruct (sh_none o SH).
Qed.

(** From the leaves up *)
Lemma tree_up (Q : Hash -> Prop) : (forall b, (forall c, c ∈ K b -> Q c) -> Q b) -> forall b, Q b.
Proof.
  intros Hstep b. remember (Z.to_nat (max_height - ht b)) as n eqn:Hn. revert b Hn. induction (lt_wf n) as [n _ IH]. intros b ->.
  apply Hstep. intros c Hc. apply (IH (Z.to_nat (max_height - ht c))); [|done].
  destruct (sh_kid o SH b c Hc) as (Hd & _ & Hlt). pose proof (max_height_ge c Hd). lia.
Qed.

Lemma subtree_enough n : forall b, (Z.to_nat (max_height - ht b) <= n)%nat -> subtree n b = desc b.
Proof.
  induction (lt_wf n) as [n _ IH]. intros b Hn. unfold desc.
  assert (Hk : forall k, (Z.to_nat (max_height - ht b) <= k <= n)%nat ->
    match k with O => [] | S k => K b ≫= subtree k end = match n with O => [] | S k => K b ≫= subtree k end).
  { intros k Hk. destruct (K b) as [|c l] eqn:E; [by destruct k, n|].
    assert (Hc : forall c, c ∈ K b -> (Z.to_nat (max_height - ht c) < Z.to_nat (max_height - ht b))%nat).
    { intros c' Hc'. destruct (sh_kid o SH b c' Hc') as (Hd & _ & Hlt). pose proof (max_height_ge c' Hd). lia. }
    pose proof (Hc c ltac:(rewrite E; left)) as Hc0. destruct k as [|k]; [lia|]. destruct n as [|n]; [lia|].
    rewrite <- E.
    assert (Hext : forall l, (forall x, x ∈ l -> x ∈ K b) -> l ≫= subtree k = l ≫= subtree n).
    { induction l0 as [|x l0 IHl]; intros Hl; [done|]. cbn. rewrite (IHl ltac:(set_solver)). f_equal.
      pose proof (Hc x ltac:(set_solver)). rewrite !IH by lia. done. }
    apply Hext. done. }
  destruct n as [|n]; [by replace (Z.to_nat (max_height - ht b)) with 0%nat by lia|].
  pose proof (Hk (Z.to_nat (max_height - ht b)) ltac:(lia)) as E. destruct (Z.to_nat (max_height - ht b)); cbn [subtree]; by rewrite E.
Qed.

Lemma desc_unfold b : desc b = b :: (K b ≫= desc).
Proof.
  rewrite <- (subtree_enough (S (Z.to_nat (max_height - ht b)))) by lia. cbn [subtree]. f_equal.
  assert (Hext : forall l, (forall x, x ∈ l -> x ∈ K b) -> l ≫= subtree (Z.to_nat (max_height - ht b)) = l ≫= desc).
  { induction l as [|x l IHl]; intros Hl; [done|]. cbn. rewrite (IHl ltac:(set_solver)). f_equal. apply subtree_enough.
    destruct (sh_kid o SH b x ltac:(set_solver)) as (Hd & _ & Hlt). lia. }
  by apply Hext.
Qed.

Lemma elem_of_desc b x : x ∈ desc b <-> tanc b x.
Proof.
  revert b. refine (tree_up _ _). intros b IH. rewrite desc_unfold, elem_of_cons, list_elem_of_bind. split.
  - intros [->|(c & Hx & Hc)]; [apply tanc_refl|]. apply IH in Hx; [|done]. by eapply tanc_trans; [apply tanc_kid|].
  - intros Hx. destruct (decide (x = b)) as [->|Hne]; [by left|]. destruct (tanc_down _ _ Hx ltac:(done)) as (c & Hc & Ht).
    right. exists c. by rewrite IH.
Qed.

Lemma desc_nodup b : NoDup (desc b).
Proof.
  revert b. refine (tree_up _ _). intros b IH. rewrite desc_unfold. constructor.
  - rewrite list_elem_of_bind. intros (c & Hx & Hc). apply elem_of_desc in Hx. by apply (kid_not_above b c).
  - pose proof (sh_nodup o SH b) as Hnd.
    assert (Hg : forall l, (forall x, x ∈ l -> x ∈ K b) -> NoDup l -> NoDup (l ≫= desc)).
    { induction l as [|c l IHl]; intros Hl Hn; cbn; [constructor|]. apply NoDup_cons in Hn as [Hni Hn].
      apply NoDup_app. split_and!; [apply IH; set_solver| |apply IHl; set_solver].
      intros x Hx (c' & Hx' & Hc')%list_elem_of_bind. apply elem_of_desc in Hx, Hx'.
      rewrite (kids_apart b c c' x) in Hni; set_solver. }
    by apply Hg.
Qed.

Lemma sz_unfold b : sz b = 1 + zsum (sz <$> K b).
Proof.
  unfold sz at 1. rewrite desc_unfold. cbn [length].
  assert (Hg : forall l, Z.of_nat (length (l ≫= desc)) = zsum (sz <$> l)).
  { induction l as [|c l IHl]; [done|]. cbn. rewrite length_app. unfold sz at 1. unfold zsum in IHl. lia. }
  rewrite <- Hg. lia.
Qed.

Lemma sz_pos b : 1 <= sz b.
Proof. unfold sz. rewrite desc_unfold. cbn [length]. lia. Qed.

Lemma sz_bound b : b ∈ dom m -> sz b <= Z.of_nat (size m).
Proof.
  intros Hb. unfold sz. rewrite <- size_dom, <- (size_list_to_set (C := gset Hash) (desc b)) by apply desc_nodup.
  apply Nat2Z.inj_le, subseteq_size. intros x. rewrite elem_of_list_to_set, elem_of_desc. intros Hx. by eapply tanc_dom.
Qed.

Lemma sum_sz_nonneg (l : list Hash) : 0 <= zsum (sz <$> l).
Proof. induction l as [|y l IH]; [done|]. rewrite fmap_cons. cbn [zsum foldr]. pose proof (sz_pos y). unfold zsum in IH. lia. Qed.

Lemma sum_ge (l : list Hash) c : c ∈ l -> sz c <= zsum (sz <$> l).
Proof.
  intros (l1 & l2 & ->)%list_elem_of_split. rewrite fmap_app, fmap_cons, zsum_app. cbn [zsum foldr].
  pose proof (sum_sz_nonneg l1). pose proof (sum_sz_nonneg l2). unfold zsum in *. lia.
Qed.

Lemma sz_kid p c : c ∈ K p -> sz c < sz p.
Proof. intros Hc. rewrite (sz_unfold p). pose proof (sum_ge (K p) c Hc). lia. Qed.

Lemma sz_mono a b : tanc a b -> sz b <= sz a.
Proof. intros Hab. induction Hab as [|a c b Hc _ IH]; [lia|]. pose proof (sz_kid _ _ Hc). lia. Qed.

(** [a] is before [b] below [r]. *)
Definition left_in (r a b : Hash) : Prop :=
  exists p l1 c1 l2 c2 l3, tanc r p /\ K p = l1 ++ c1 :: l2 ++ c2 :: l3 /\ tanc c1 a /\ tanc c2 b.

Lemma trichotomy r a b : tanc r a -> tanc r b -> tanc a b \/ tanc b a \/ left_in r a b \/ left_in r b a.
Proof.
  revert r. refine (tree_up _ _). intros r IH Ha Hb.
  destruct (decide (r = a)) as [->|Hna]; [by left|]. destruct (decide (r = b)) as [->|Hnb]; [by right; left|].
  destruct (tanc_down _ _ Ha Hna) as (c1 & Hc1 & T1). destruct (tanc_down _ _ Hb Hnb) as (c2 & Hc2 & T2).
  destruct (decide (c1 = c2)) as [<-|Hne].
  - destruct (IH c1 Hc1 T1 T2) as [?|[?|[(p & Hp)|(p & Hp)]]]; [by left|by right; left|right; right; left|right; right; right];
      exists p; destruct Hp as (l1 & d1 & l2 & d2 & l3 & Hp & ?); exists l1, d1, l2, d2, l3; (split; [|done]);
      by eapply tanc_trans; [apply tanc_kid|].
  - right. right. apply list_elem_of_split in Hc1 as (l1 & l2 & E). rewrite E in Hc2.
    apply elem_of_app in Hc2 as [Hc2|Hc2].
    + right. apply list_elem_of_split in Hc2 as (l3 & l4 & ->). exists r, l3, c2, l4, c1, l2. rewrite E, <- app_assoc. by split_and!; [apply tanc_refl| |done|done].
    + left. apply elem_of_cons in Hc2 as [?|Hc2]; [done|]. apply list_elem_of_split in Hc2 as (l3 & l4 & ->).
      exists r, l1, c1, l3, c2, l4. by split_and!; [apply tanc_refl| |done|done].
Qed.

Lemma left_in_mono r r' a b : tanc r r' -> left_in r' a b -> left_in r a b.
Proof. intros Hr (p & l1 & c1 & l2 & c2 & l3 & Hp & ?). exists p, l1, c1, l2, c2, l3. split; [by eapply tanc_trans|done]. Qed.

Lemma tanc_dec a b : b ∈ dom m -> tanc a b \/ ~ tanc a b.
Proof.
  intros Hb. destruct (decide (a ∈ dom m)) as [Ha|Ha]; [|right; intros Ht; by apply Ha, (tanc_dom_l a b)].
  destruct (decide (b ∈ desc a)) as [Hd|Hd]; rewrite elem_of_desc in Hd; auto.
Qed.

(** ** Intervals *)

(** How many numbers an interval has *)
Definition isz (i : Interval) : Z := iend i + 1 - start i.

Section Intervals.
Context (iv : Hash -> Interval).

(** Intervals one behind another between [lo] and [hi], each of at least a given size *)
Fixpoint chained (need : Hash -> Z) (lo : Z) (l : list Hash) (hi : Z) : Prop :=
  match l with
  | [] => lo <= hi + 1
  | c :: l => lo <= start (iv c) /\ need c <= isz (iv c) /\ chained need (iend (iv c) + 1) l hi
  end.

Definition ok_at (b : Hash) : Prop := chained (fun _ => 1) (start (iv b)) (K b) (iend (iv b) - 1).
(** The intervals below a block nest. *)
Definition fits (b : Hash) : Prop := forall x, tanc b x -> ok_at x.

Lemma chained_app need lo l1 l2 hi : chained need lo (l1 ++ l2) hi <-> exists md, chained need lo l1 (md - 1) /\ chained need md l2 hi.
Proof.
  revert lo. induction l1 as [|c l1 IH]; intros lo; cbn.
  - split; [intros Hc; exists lo; split; [lia|done]|]. intros (md & Hle & Hc). destruct l2 as [|c l2]; cbn in *; [lia|]. split_and!; [lia|apply Hc..].
  - split.
    + intros (? & ? & (md & ? & ?)%IH). exists md. done.
    + intros (md & (? & ? & ?) & ?). split_and!; [done..|]. apply IH. by exists md.
Qed.

Lemma chained_mono need lo lo' l hi hi' : lo' <= lo -> hi <= hi' -> chained need lo l hi -> chained need lo' l hi'.
Proof.
  intros Hlo Hhi. revert lo lo' Hlo. induction l as [|c l IH]; intros lo lo' Hlo; cbn; [lia|].
  intros (? & ? & Hc). split_and!; [lia|done|]. by eapply IH; [|exact Hc].
Qed.

Lemma chained_weaken need need' lo l hi : (forall c, c ∈ l -> need' c <= need c) -> chained need lo l hi -> chained need' lo l hi.
Proof.
  revert lo. induction l as [|c l IH]; intros lo Hn; cbn; [done|]. intros (? & ? & Hc).
  pose proof (Hn c ltac:(left)). split_and!; [done|lia|]. apply IH; [intros d Hd; apply Hn; by right|done].
Qed.

Section Nonneg.
Context (need : Hash -> Z) (Hneed : forall c, 0 <= need c).

Lemma chained_bounds lo l hi : chained need lo l hi -> lo <= hi + 1.
Proof.
  revert lo. induction l as [|c l IH]; intros lo; cbn; [done|]. intros (? & Hc & ?%IH). specialize (Hneed c). unfold isz in Hc. lia.
Qed.

Lemma chained_elem lo l hi c : chained need lo l hi -> c ∈ l -> lo <= start (iv c) /\ need c <= isz (iv c) /\ iend (iv c) <= hi.
Proof.
  intros Hc (l1 & l2 & ->)%list_elem_of_split. apply chained_app in Hc as (md & H1 & H2). cbn in H2.
  destruct H2 as (? & ? & H2). apply chained_bounds in H1, H2. split_and!; [lia|done|lia].
Qed.

(** The parts take up no more than the whole. *)
Lemma chained_sum lo l hi : chained need lo l hi -> zsum ((fun c => isz (iv c)) <$> l) <= hi + 1 - lo.
Proof.
  revert lo. induction l as [|c l IH]; intros lo; [cbn; lia|]. rewrite fmap_cons. cbn. intros (? & ? & Hc%IH). unfold zsum in Hc. unfold isz in *. lia.
Qed.

End Nonneg.

Lemma ok_kid p c : ok_at p -> c ∈ K p -> start (iv p) <= start (iv c) /\ start (iv c) <= iend (iv c) /\ iend (iv c) < iend (iv p).
Proof. intros Hp Hc. destruct (chained_elem (fun _ => 1) (fun _ => Z.le_0_1) _ _ _ c Hp Hc) as (? & Hs & ?). unfold isz in Hs. cbn in Hs. lia. Qed.

Lemma ok_nonempty p : ok_at p -> start (iv p) <= iend (iv p).
Proof. intros Hp. apply chained_bounds in Hp; [lia|done]. Qed.

Lemma fits_here b : fits b -> ok_at b.
Proof. intros Hb. apply Hb, tanc_refl. Qed.
Lemma fits_below b x : fits b -> tanc b x -> fits x.
Proof. intros Hb Hx y Hy. apply Hb. by eapply tanc_trans. Qed.
Lemma fits_intro b : ok_at b -> (forall c, c ∈ K b -> fits c) -> fits b.
Proof. intros Hb Hc x Hx. destruct (decide (b = x)) as [<-|Hne]; [done|]. destruct (tanc_down b x Hx Hne) as (c & Hk & Ht). by apply (Hc c). Qed.

Lemma fits_inside b x : fits b -> tanc b x -> start (iv b) <= start (iv x) /\ start (iv x) <= iend (iv x) /\ iend (iv x) <= iend (iv b).
Proof.
  intros Hb Hx. induction Hx as [b|b c x Hc Hx IH]; [pose proof (ok_nonempty b (fits_here b Hb)); lia|].
  destruct (ok_kid b c (fits_here b Hb) Hc) as (? & ? & ?). destruct IH as (? & ? & ?); [|lia]. eapply fits_below; [done|by apply tanc_kid].
Qed.

Lemma fits_strict b x : fits b -> tanc b x -> b <> x -> iend (iv x) < iend (iv b).
Proof.
  intros Hb Hx Hne. destruct (tanc_down b x Hx Hne) as (c & Hc & Ht).
  destruct (ok_kid b c (fits_here b Hb) Hc) as (? & ? & ?). destruct (fits_inside c x) as (? & ? & ?); [|done|lia].
  eapply fits_below; [done|by apply tanc_kid].
Qed.

Lemma left_lt r a b : fits r -> left_in r a b -> iend (iv a) < start (iv b).
Proof.
  intros Hr (p & l1 & c1 & l2 & c2 & l3 & Hp & E & T1 & T2). pose proof (Hr p Hp) as Hok. unfold ok_at in Hok. rewrite E in Hok.
  apply chained_app in Hok as (md & _ & Hok). cbn in Hok. destruct Hok as (_ & _ & Hok).
  apply chained_app in Hok as (md' & Hb & Hok). apply chained_bounds in Hb; [|done]. cbn in Hok. destruct Hok as (Hlt & _ & _).
  assert (F1 : fits c1) by (apply (fits_below r); [done|]; apply (tanc_trans r p); [done|]; apply tanc_kid; rewrite E; set_solver).
  assert (F2 : fits c2) by (apply (fits_below r); [done|]; apply (tanc_trans r p); [done|]; apply tanc_kid; rewrite E; set_solver).
  destruct (fits_inside c1 a F1 T1) as (_ & _ & ?). destruct (fits_inside c2 b F2 T2) as (? & _ & _). lia.
Qed.

Lemma fits_left r a b : fits r -> tanc r a -> tanc r b -> ~ tanc a b -> ~ tanc b a -> iend (iv a) < start (iv b) -> left_in r a b.
Proof.
  intros Hr Ha Hb Nab Nba Hlt. destruct (trichotomy r a b Ha Hb) as [?|[?|[?|Hl]]]; [done|done|done|].
  apply (left_lt r b a Hr) in Hl. destruct (fits_inside r a Hr Ha) as (_ & ? & _). destruct (fits_inside r b Hr Hb) as (_ & ? & _). lia.
Qed.

Lemma fits_apart r a b : fits r -> tanc r a -> tanc r b -> ~ tanc a b -> ~ tanc b a ->
  iend (iv a) < start (iv b) \/ iend (iv b) < start (iv a).
Proof.
  intros Hr Ha Hb Nab Nba. destruct (trichotomy r a b Ha Hb) as [?|[?|[Hl|Hl]]]; [done|done|left|right]; by apply (left_lt r).
Qed.

(** Containment of intervals is ancestry. *)
Lemma contains_tanc r a b : fits r -> tanc r a -> tanc r b -> contains (iv a) (iv b) = true <-> tanc a b.
Proof.
  intros Hr Ha Hb. unfold contains. rewrite andb_true_iff, !Z.leb_le. split.
  - intros [H1 H2]. pose proof (fits_inside r a Hr Ha). pose proof (fits_inside r b Hr Hb).
    destruct (trichotomy r a b Ha Hb) as [?|[Hba|[Hl|Hl]]]; [done| |apply (left_lt r _ _ Hr) in Hl; lia..].
    destruct (decide (b = a)) as [->|Hne]; [apply tanc_refl|].
    pose proof (fits_strict b a (fits_below r b Hr Hb) Hba Hne). lia.
  - intros Hab. pose proof (fits_inside a b (fits_below r a Hr Ha) Hab). lia.
Qed.

Lemma strictly_contains_tanc r a b : fits r -> tanc r a -> tanc r b -> strictly_contains (iv a) (iv b) = true <-> tanc a b /\ a <> b.
Proof.
  intros Hr Ha Hb. unfold strictly_contains. rewrite andb_true_iff, Z.leb_le, Z.ltb_lt. split.
  - intros [H1 H2]. split; [|intros ->; lia]. apply (contains_tanc r a b Hr Ha Hb). unfold contains. rewrite andb_true_iff, !Z.leb_le. lia.
  - intros [Hab Hne]. pose proof (fits_inside a b (fits_below r a Hr Ha) Hab). pose proof (fits_strict a b (fits_below r a Hr Ha) Hab Hne). lia.
Qed.

(** What an interval has beyond the size of the subtree *)
Definition room (b : Hash) : Z := isz (iv b) - sz b.

Lemma sum_le (l : list Hash) (f g : Hash -> Z) : (forall c, c ∈ l -> f c <= g c) -> zsum (f <$> l) <= zsum (g <$> l).
Proof.
  induction l as [|c l IH]; intros Hl; [done|]. rewrite !fmap_cons. cbn. pose proof (Hl c ltac:(left)).
  unfold zsum in IH. specialize (IH ltac:(intros d Hd; apply Hl; by right)). lia.
Qed.

Lemma fits_room b : fits b -> 0 <= room b.
Proof.
  revert b. refine (tree_up _ _). intros b IH Hb. unfold room. rewrite sz_unfold.
  pose proof (chained_sum (fun _ => 1) _ _ _ (fits_here b Hb)) as Hs.
  assert (Hl : zsum (sz <$> K b) <= zsum ((fun c => isz (iv c)) <$> K b)).
  { apply sum_le. intros c Hc. pose proof (IH c Hc (fits_below b c Hb (tanc_kid b c Hc))). unfold room in *. lia. }
  unfold isz at 1. lia.
Qed.

Lemma room_kid b c : fits b -> c ∈ K b -> room c <= room b.
Proof.
  intros Hb Hc. unfold room. rewrite (sz_unfold b). pose proof (chained_sum (fun _ => 1) _ _ _ (fits_here b Hb)) as Hs.
  assert (Hf : forall d, d ∈ K b -> sz d <= isz (iv d)).
  { intros d Hd. pose proof (fits_room d (fits_below b d Hb (tanc_kid b d Hd))). unfold room in *. lia. }
  apply list_elem_of_split in Hc as (l1 & l2 & E). rewrite E in Hs, Hf |- *. rewrite !fmap_app, !fmap_cons, !zsum_app in *. cbn in Hs |- *.
  pose proof (sum_le l1 sz (fun c => isz (iv c)) ltac:(set_solver)). pose proof (sum_le l2 sz (fun c => isz (iv c)) ltac:(set_solver)).
  unfold zsum, isz in *. lia.
Qed.

Lemma room_below a b : fits a -> tanc a b -> room b <= room a.
Proof.
  intros Ha Hab. induction Hab as [|a c b Hc _ IH]; [lia|]. pose proof (room_kid a c Ha Hc).
  specialize (IH (fits_below a c Ha (tanc_kid a c Hc))). lia.
Qed.

End Intervals.
End Tree.

End ReachabilityTree.
