(* ===== verification/ReachabilityOps.v ===== *)
(** * The operations of the reachability store on trees with intervals

    Stores as a tree, intervals and covering sets; splitting, counting and propagating,
    and the search for a descendant. *)
From Stdlib Require Import ZArith Lia.
From stdpp Require Import base numbers list gmap.
From S2P Require Import Prelude Float64 Ghostdag Reachability ReachabilityTree.
Import Ghostdag.Ghostdag Reachability.Reachability ReachabilityTree.ReachabilityTree.
Open Scope Z_scope.

Module ReachabilityOps.

(** A step of a computation whose result is known *)
Ltac rstep H := rewrite H; cbn [mbind R_bind].

Lemma chk_ok x : 0 <= x < 2 ^ 64 -> chk x = Done x.
Proof. intros Hx. unfold chk. destruct (Z.leb_spec 0 x), (Z.ltb_spec x (2 ^ 64)); try lia. done. Qed.

(** ** Intervals *)

(** Interval with bounds that leave a margin, possibly empty *)
Definition good (i : Interval) : Prop := 1 <= start i /\ start i <= iend i + 1 /\ iend i <= 2 ^ 64 - 2.

Lemma isize_ok i : good i -> isize i = Done (isz i).
Proof.
  intros (? & ? & ?). unfold isize. rstep (chk_ok (iend i + 1) ltac:(lia)). unfold isz. apply chk_ok. lia.
Qed.

Lemma round_f32_bounds n : 1 <= n -> 1 <= round_f32 n <= 2 * n.
Proof.
  intros Hn. unfold round_f32. destruct (Z.leb_spec (Z.log2 n - 23) 0); [lia|].
  set (k := Z.log2 n - 23) in *. pose proof (Z.log2_spec n ltac:(lia)) as [H1 H2].
  rewrite Z.shiftr_div_pow2, !Z.shiftl_mul_pow2 by lia. pose proof (Z.div_mod n (2 ^ k) ltac:(apply Z.pow_nonzero; lia)) as Hd.
  pose proof (Z.mod_pos_bound n (2 ^ k) ltac:(apply Z.pow_pos_nonneg; lia)) as Hm. set (q := n / 2 ^ k) in *.
  assert (Hk : 2 ^ k = 2 * 2 ^ (k - 1)) by (rewrite <- Z.pow_succ_r by lia; f_equal; lia).
  pose proof (Z.pow_pos_nonneg 2 (k - 1) ltac:(lia) ltac:(lia)).
  assert (Hkn : 2 ^ k <= n) by (etransitivity; [|exact H1]; apply Z.pow_le_mono_r; unfold k; lia).
  assert (1 <= q) by (unfold q; apply Z.div_le_lower_bound; lia).
  destruct (_ || _) eqn:E; [|nia]. split; [nia|].
  assert (2 ^ (k - 1) <= n - q * 2 ^ k) by (apply orb_true_iff in E as [E|E]; [apply Z.ltb_lt in E; lia|apply andb_true_iff in E as [E _]; apply Z.eqb_eq in E; lia]).
  nia.
Qed.

Lemma half_ceil_bounds n : 1 <= n < 2 ^ 64 -> 1 <= half_ceil n <= n.
Proof.
  intros Hn. pose proof (round_f32_bounds n ltac:(lia)) as [? ?]. unfold half_ceil.
  assert (1 <= (round_f32 n + 1) / 2) by (apply Z.div_le_lower_bound; lia).
  assert ((round_f32 n + 1) / 2 < n + 1) by (apply Z.div_lt_upper_bound; lia). lia.
Qed.

Lemma split_half_ok i : good i -> start i <= iend i ->
  exists l, 1 <= l <= isz i /\ exists j, split_half i = Done (mk_interval (start i) (start i + l - 1), j).
Proof.
  intros Hg Hne. destruct Hg as (? & ? & ?). pose proof (half_ceil_bounds (isz i) ltac:(unfold isz; lia)) as Hl.
  exists (half_ceil (isz i)). split; [done|]. unfold split_half. rstep (isize_ok i ltac:(done)). unfold isz in *.
  rstep (chk_ok (start i + half_ceil (iend i + 1 - start i)) ltac:(lia)). rstep (chk_ok (start i + half_ceil (iend i + 1 - start i) - 1) ltac:(lia)).
  eauto.
Qed.

Lemma zsum_cons x l : zsum (x :: l) = x + zsum l.
Proof. done. Qed.

Lemma zsum_nonneg l : Forall (fun x => 0 <= x) l -> 0 <= zsum l.
Proof. induction 1 as [|x l Hx _ IH]; [done|]. rewrite zsum_cons. lia. Qed.

Lemma sum_r_ok l : forall acc, Forall (fun x => 0 <= x) l -> 0 <= acc -> acc + zsum l < 2 ^ 64 -> sum_r acc l = Done (acc + zsum l).
Proof.
  induction l as [|x l IH]; intros acc Hl Ha Hb; cbn [sum_r]; [f_equal; cbn; lia|].
  apply Forall_cons in Hl as [Hx Hl]. rewrite zsum_cons in Hb |- *. pose proof (zsum_nonneg l Hl).
  rstep (chk_ok (acc + x) ltac:(lia)). rewrite IH by (done || lia). f_equal. lia.
Qed.

(** Intervals of given sizes, one behind another *)
Fixpoint parts (s : Z) (sizes : list Z) : list Interval :=
  match sizes with [] => [] | size :: sizes => mk_interval s (s + size - 1) :: parts (s + size) sizes end.

Lemma length_parts sizes : forall s, length (parts s sizes) = length sizes.
Proof. induction sizes as [|x l IH]; intros s; [done|]. cbn. by rewrite IH. Qed.

Lemma split_parts_ok sizes : forall s, 1 <= s -> Forall (fun x => 0 <= x) sizes -> s + zsum sizes < 2 ^ 64 -> split_parts s sizes = Done (parts s sizes).
Proof.
  induction sizes as [|x l IH]; intros s Hs Hl Hb; [done|]. cbn [split_parts]. apply Forall_cons in Hl as [Hx Hl].
  rewrite zsum_cons in Hb. pose proof (zsum_nonneg l Hl).
  rstep (chk_ok (s + x) ltac:(lia)). rstep (chk_ok (s + x - 1) ltac:(lia)). rstep (IH (s + x) ltac:(lia) Hl ltac:(lia)). done.
Qed.

Lemma split_exact_ok i sizes : good i -> Forall (fun x => 0 <= x) sizes -> zsum sizes = isz i -> split_exact i sizes = Done (parts (start i) sizes).
Proof.
  intros (? & ? & ?) Hl Hs. unfold split_exact. unfold isz in Hs. rstep (sum_r_ok sizes 0 Hl ltac:(lia) ltac:(lia)). rstep (isize_ok i ltac:(done)).
  unfold isz. rewrite Hs. destruct (Z.eqb_spec (0 + (iend i + 1 - start i)) (iend i + 1 - start i)); [|lia]. cbn.
  apply split_parts_ok; [done..|lia].
Qed.

Lemma round_to_u64_nonneg x : 0 <= round_to_u64 x.
Proof.
  unfold round_to_u64. destruct (Float64.Float64.decode x) as [|s|s mt e] eqn:E; [lia|destruct s; lia|]. destruct s; [lia|].
  assert (0 <= mt).
  { revert E. unfold Float64.Float64.decode. pose proof (proj2 (Z.land_nonneg x (2 ^ 52 - 1)) ltac:(right; lia)) as Hf.
    destruct (_ =? 0x7FF); [by destruct (_ =? 0)|]. destruct (_ =? 0); intros [= _ <- _]; lia. }
  apply Z.min_glb; [|lia]. case_match; [by apply Z.shiftl_nonneg|].
  apply Z.shiftr_nonneg. pose proof (Z.pow_nonneg 2 (- e - 1)). lia.
Qed.

Section Powf.
Context (powf : Z -> Z -> Z).

Lemma biased_ok tb fractions : forall sizes rem, length fractions = length sizes -> fractions <> [] -> Forall (fun x => 0 <= x) sizes -> 0 <= rem ->
  zsum sizes + rem < 2 ^ 64 ->
  exists bs, biased tb fractions sizes rem = Done bs /\ Forall2 Z.le sizes bs /\ zsum bs = zsum sizes + rem.
Proof.
  induction fractions as [|f fs IH]; intros sizes rem Hlen Hne Hs Hr Hb; [done|]. destruct sizes as [|x sizes]; [done|].
  apply Forall_cons in Hs as [Hx Hs]. cbn [biased]. rewrite zsum_cons in Hb. pose proof (zsum_nonneg sizes Hs).
  set (bias := match fs with [] => rem | _ => _ end).
  assert (Hbias : 0 <= bias <= rem) by (unfold bias; destruct fs; [lia|]; match goal with |- context [round_to_u64 ?y] => pose proof (round_to_u64_nonneg y) end; lia).
  rstep (chk_ok (x + bias) ltac:(lia)). rstep (chk_ok (rem - bias) ltac:(lia)).
  destruct fs as [|f' fs].
  - destruct sizes; [|done]. cbn. exists [x + bias]. split_and!; [done| |cbn; unfold bias; lia]. constructor; [lia|constructor].
  - destruct (IH sizes (rem - bias)) as (bs & Hbs & HF & HS); [cbn in *; lia|done|done|lia|lia|].
    rstep Hbs. exists (x + bias :: bs). split_and!; [done|constructor; [lia|done]|rewrite !zsum_cons; lia].
Qed.

Lemma length_exponential_fractions sizes : length (exponential_fractions powf sizes) = length sizes.
Proof. unfold exponential_fractions. by rewrite !length_fmap. Qed.

Lemma split_exponential_ok i sizes : good i -> Forall (fun x => 0 <= x) sizes -> 0 < zsum sizes <= isz i ->
  exists bs, split_exponential powf i sizes = Done (parts (start i) bs) /\ Forall2 Z.le sizes bs /\ zsum bs = isz i.
Proof.
  intros Hg Hs Hz. pose proof Hg as (? & ? & ?). assert (isz i < 2 ^ 64) by (unfold isz; lia).
  unfold split_exponential. rstep (isize_ok i Hg). rstep (sum_r_ok sizes 0 Hs ltac:(lia) ltac:(lia)). rewrite Z.add_0_l.
  destruct (Z.leb_spec (zsum sizes) (isz i)); [|lia]. destruct (Z.ltb_spec 0 (zsum sizes)); [|lia]. cbn [assert_r mbind R_bind].
  destruct (Z.eqb_spec (isz i) (zsum sizes)) as [E|E].
  - exists sizes. split_and!; [by apply split_exact_ok| |done]. apply Forall_Forall2_diag, Forall_forall. intros. lia.
  - destruct (biased_ok (u64_to_f64 (isz i - zsum sizes)) (exponential_fractions powf sizes) sizes (isz i - zsum sizes)) as (bs & Hbs & HF & HS);
      [apply length_exponential_fractions| |done|lia|lia|].
    { intros E0. pose proof (length_exponential_fractions sizes) as El. rewrite E0 in El. destruct sizes; [cbn in *; lia|done]. }
    rstep Hbs. exists bs. split_and!; [|done|lia]. apply split_exact_ok; [done| |lia].
    clear -HF Hs. induction HF; [done|]. apply Forall_cons in Hs as [? ?]. constructor; [lia|auto].
Qed.

(** ** Stores *)

(** The store of a tree with intervals, covering sets and a reindex root *)
Definition build (m : tree) (iv : Hash -> Interval) (fc : Hash -> list Hash) (r : option Hash) : rstore :=
  mk_rstore (map_imap (fun h n => Some (mk_rdata (kids n) (par n) (iv h) (hgt n) (fc h))) m) r.

Definition upd {A} (f : Hash -> A) (h : Hash) (a : A) : Hash -> A := fun x => if decide (x = h) then a else f x.

Lemma upd_at {A} (f : Hash -> A) h a : upd f h a h = a.
Proof. unfold upd. by rewrite decide_True. Qed.
Lemma upd_ne {A} (f : Hash -> A) h a x : x <> h -> upd f h a x = f x.
Proof. intros. unfold upd. by rewrite decide_False. Qed.

Lemma lookup_build m iv fc r h : rmap (build m iv fc r) !! h = (fun n => mk_rdata (kids n) (par n) (iv h) (hgt n) (fc h)) <$> m !! h.
Proof. cbn. rewrite map_lookup_imap. by destruct (m !! h). Qed.

Lemma build_ext m iv iv' fc fc' r : (forall h, h ∈ dom m -> iv h = iv' h) -> (forall h, h ∈ dom m -> fc h = fc' h) -> build m iv fc r = build m iv' fc' r.
Proof.
  intros Hi Hf. unfold build. f_equal. apply map_eq. intros h. rewrite !map_lookup_imap. destruct (m !! h) eqn:E; [|done].
  cbn. assert (h ∈ dom m) by (by apply elem_of_dom). by rewrite Hi, Hf.
Qed.

Section Store.
Context (m : tree) (iv : Hash -> Interval) (fc : Hash -> list Hash) (r : option Hash) (h : Hash) (Hh : h ∈ dom m).
Let s := build m iv fc r.

Lemma get_rdata_ok : get_rdata s h = Done (mk_rdata (K m h) (P m h) (iv h) (ht m h) (fc h)).
Proof. apply elem_of_dom in Hh as [n Hn]. unfold get_rdata, s. rewrite lookup_build. unfold K, P, ht. rewrite Hn. done. Qed.
Lemma get_interval_ok : get_interval s h = Done (iv h).
Proof. unfold get_interval. by rewrite get_rdata_ok. Qed.
Lemma get_parent_ok : get_parent s h = Done (P m h).
Proof. unfold get_parent. by rewrite get_rdata_ok. Qed.
Lemma get_children_ok : get_children s h = Done (K m h).
Proof. unfold get_children. by rewrite get_rdata_ok. Qed.
Lemma get_height_ok : get_height s h = Done (ht m h).
Proof. unfold get_height. by rewrite get_rdata_ok. Qed.
Lemma get_fcs_ok : get_future_covering_set s h = Done (fc h).
Proof. unfold get_future_covering_set. by rewrite get_rdata_ok. Qed.

Lemma update_ok f iv' fc' : (forall x, x <> h -> iv' x = iv x) -> (forall x, x <> h -> fc' x = fc x) ->
  f (mk_rdata (K m h) (P m h) (iv h) (ht m h) (fc h)) = mk_rdata (K m h) (P m h) (iv' h) (ht m h) (fc' h) ->
  update s h f = Done (build m iv' fc' r).
Proof.
  intros Hi Hf Hd. unfold update. rstep get_rdata_ok. rewrite Hd. f_equal. unfold s, build. cbn. f_equal. apply map_eq. intros x.
  destruct (decide (x = h)) as [->|Hne].
  - rewrite lookup_insert_eq, map_lookup_imap. apply elem_of_dom in Hh as [n Hn]. unfold K, P, ht. rewrite Hn. done.
  - rewrite lookup_insert_ne, !map_lookup_imap by done. destruct (m !! x); [|done]. cbn. by rewrite Hi, Hf.
Qed.

Lemma set_interval_ok i : set_interval s h i = Done (build m (upd iv h i) fc r).
Proof. apply update_ok; [intros; by rewrite upd_ne|done|]. by rewrite upd_at. Qed.

Lemma insert_fci_ok y k : (k <= length (fc h))%nat -> insert_future_covering_item s h y k = Done (build m iv (upd fc h (take k (fc h) ++ y :: drop k (fc h))) r).
Proof.
  intros Hk. unfold insert_future_covering_item. rstep get_rdata_ok. unfold vec_insert. cbn [future_covering_set].
  destruct (Nat.leb_spec k (length (fc h))); [|lia]. cbn [mbind R_bind].
  apply update_ok; [done|intros; by rewrite upd_ne|]. by rewrite upd_at.
Qed.

Lemma append_child_ok c : append_child s h c = Done (build (<[h := mk_node (K m h ++ [c]) (P m h) (ht m h)]> m) iv fc r).
Proof.
  unfold append_child, update. rstep get_rdata_ok. f_equal. unfold s, build. cbn. f_equal. apply map_eq. intros x.
  rewrite map_lookup_imap. destruct (decide (x = h)) as [->|Hne]; [by rewrite !lookup_insert_eq|].
  rewrite !lookup_insert_ne, map_lookup_imap by done. done.
Qed.

End Store.

Lemma insert_data_ok m iv fc r h p i k : h ∉ dom m ->
  insert_data (build m iv fc r) h p i k = Done (build (<[h := mk_node [] p k]> m) (upd iv h i) (upd fc h []) r).
Proof.
  intros Hh. unfold insert_data. rewrite lookup_build. apply not_elem_of_dom in Hh. rewrite Hh. cbn. f_equal. unfold build. cbn. f_equal.
  apply map_eq. intros x. rewrite map_lookup_imap. destruct (decide (x = h)) as [->|Hne].
  - by rewrite !lookup_insert_eq, !upd_at.
  - rewrite !lookup_insert_ne, map_lookup_imap, !upd_ne by done. done.
Qed.

Lemma chained_ext iv iv' need lo l hi : (forall c, c ∈ l -> iv' c = iv c) -> chained iv need lo l hi -> chained iv' need lo l hi.
Proof.
  revert lo. induction l as [|c l IH]; intros lo Hl; cbn; [done|]. rewrite (Hl c) by left. intros (? & ? & Hc).
  split_and!; [done..|]. apply IH; [intros d Hd; apply Hl; by right|done].
Qed.

Lemma ok_at_ext m iv iv' b : iv' b = iv b -> (forall c, c ∈ K m b -> iv' c = iv c) -> ok_at m iv b -> ok_at m iv' b.
Proof. intros Hb Hc. unfold ok_at. rewrite Hb. by apply chained_ext. Qed.

Lemma fits_ext m iv iv' b : (forall x, tanc m b x -> iv' x = iv x) -> fits m iv b -> fits m iv' b.
Proof.
  intros Hx Hb x Ht. apply (ok_at_ext m iv); [by apply Hx| |by apply Hb].
  intros c Hc. apply Hx. eapply tanc_trans; [done|by apply tanc_kid].
Qed.

Lemma set_intervals_ok m fc r need cs : forall iv s bs, NoDup cs -> (forall c, c ∈ cs -> c ∈ dom m) -> Forall2 (fun c b => need c <= b) cs bs ->
  exists iv', set_intervals (build m iv fc r) cs (parts s bs) = Done (build m iv' fc r) /\ (forall x, x ∉ cs -> iv' x = iv x) /\
    chained iv' need s cs (s + zsum bs - 1).
Proof.
  induction cs as [|c cs IH]; intros iv s bs Hnd Hd HF.
  - inversion HF; subst. exists iv. split_and!; [done..|]. cbn. lia.
  - inversion HF as [|? b ? bs' Hb HF']; subst. apply NoDup_cons in Hnd as [Hni Hnd]. cbn [parts set_intervals].
    rstep (set_interval_ok m iv fc r c (Hd c ltac:(left)) (mk_interval s (s + b - 1))).
    destruct (IH (upd iv c (mk_interval s (s + b - 1))) (s + b) bs' Hnd ltac:(intros d Hdd; apply Hd; by right) HF') as (iv' & E & Hx & Hc).
    exists iv'. split_and!; [done| |].
    + intros x Hxc. rewrite Hx by (intros ?; apply Hxc; by right). apply upd_ne. intros ->. apply Hxc. by left.
    + cbn [chained]. rewrite (Hx c Hni), upd_at, zsum_cons. unfold isz. cbn [start iend]. split_and!; [lia|lia|].
      eapply (chained_mono _ need (s + b)); [lia| |exact Hc]. lia.
Qed.

(** ** Propagation *)

Section Below.
Context (m : tree) (o : Hash) (SH : shape m o) (fc : Hash -> list Hash) (r : option Hash).

Lemma decrease_end_ok i : good i -> start i <= iend i -> decrease_end i 1 = Done (mk_interval (start i) (iend i - 1)).
Proof. intros (? & ? & ?) ?. unfold decrease_end. rstep (chk_ok (iend i - 1) ltac:(lia)). done. Qed.

Lemma mapM_sizes (sizes : gmap Hash Z) cs : (forall c, c ∈ cs -> sizes !! c = Some (sz m c)) -> mapM (size_of_subtree sizes) cs = Done (sz m <$> cs).
Proof.
  induction cs as [|c cs IH]; intros Hc; [done|].
  assert (E : size_of_subtree sizes c = Done (sz m c)) by (unfold size_of_subtree; by rewrite (Hc c) by left).
  cbn. rewrite E. cbn. rewrite IH by (intros d Hd; apply Hc; by right). done.
Qed.

Lemma sz_nonneg c : 0 <= sz m c.
Proof. unfold sz. lia. Qed.

Lemma sizes_nonneg (l : list Hash) : Forall (fun x => 0 <= x) (sz m <$> l).
Proof. apply Forall_fmap, Forall_forall. intros x _. unfold sz. cbn. lia. Qed.

Lemma propagate_loop_ok sizes fuel : forall queue iv, zsum (sz m <$> queue) <= Z.of_nat fuel -> NoDup queue ->
  (forall a b, a ∈ queue -> b ∈ queue -> tanc m a b -> a = b) -> (forall q, q ∈ queue -> q ∈ dom m) ->
  (forall q, q ∈ queue -> good (iv q) /\ sz m q <= isz (iv q)) -> (forall q x, q ∈ queue -> tanc m q x -> sizes !! x = Some (sz m x)) ->
  exists iv', propagate_loop powf fuel (build m iv fc r) sizes queue = Done (build m iv' fc r) /\
    (forall x, (forall q, q ∈ queue -> tanc m q x -> x = q) -> iv' x = iv x) /\ (forall q, q ∈ queue -> fits m iv' q).
Proof.
  induction fuel as [|fuel IH]; intros queue iv Hf Hnd Hanti Hdom Hgood Hsz.
  { destruct queue as [|q queue]; [exists iv; split_and!; [done..|by intros q Hq%elem_of_nil]|].
    rewrite fmap_cons, zsum_cons in Hf. pose proof (sz_pos m o SH q). pose proof (sum_sz_nonneg m o SH queue). lia. }
  destruct queue as [|q queue]; [exists iv; split_and!; [done..|by intros q Hq%elem_of_nil]|]. apply NoDup_cons in Hnd as [Hq Hnd].
  rewrite fmap_cons, zsum_cons, (sz_unfold m o SH q) in Hf. cbn [propagate_loop].
  destruct (Hgood q ltac:(left)) as [Hg Hs]. pose proof (Hdom q ltac:(left)) as Hqd. pose proof (sz_pos m o SH q) as Hp. unfold isz in Hs.
  rstep (get_children_ok m iv fc r q Hqd). case_bool_decide as Ecs.
  - destruct (IH queue iv) as (iv' & E & Hx & Hfit); [rewrite Ecs in Hf; cbn in Hf; lia|done|
      intros a b Ha Hb; apply Hanti; by right|intros x Hx; apply Hdom; by right|intros x Hx; apply Hgood; by right|intros x y Hx; apply Hsz; by right|].
    exists iv'. split_and!; [done|intros x Hxq; apply Hx; intros q' Hq'; apply Hxq; by right|]. intros q' [->|Hq']%elem_of_cons; [|by apply Hfit].
    apply fits_intro; [|intros c; rewrite Ecs; by intros Hc%elem_of_nil]. unfold ok_at. rewrite Ecs. cbn. rewrite Hx; [lia|].
    intros q' Hq' Ht. symmetry. apply Hanti; [by right|by left|done].
  - rstep (mapM_sizes sizes (K m q) ltac:(intros c Hc; apply (Hsz q); [left|by apply tanc_kid])).
    unfold interval_children_capacity. rstep (get_interval_ok m iv fc r q Hqd). rstep (decrease_end_ok (iv q) Hg ltac:(lia)).
    pose proof (sz_unfold m o SH q) as Hqs.
    assert (Hpos : 0 < zsum (sz m <$> K m q)).
    { destruct (K m q) as [|c l] eqn:El; [done|]. rewrite fmap_cons, zsum_cons. pose proof (sz_pos m o SH c). pose proof (sum_sz_nonneg m o SH l). lia. }
    destruct (split_exponential_ok (mk_interval (start (iv q)) (iend (iv q) - 1)) (sz m <$> K m q)) as (bs & Ebs & HF & HS).
    { destruct Hg as (? & ? & ?). unfold good. cbn. lia. } { apply sizes_nonneg. } { unfold isz. cbn. lia. }
    rstep Ebs. destruct (set_intervals_ok m fc r (sz m) (K m q) iv (start (iv q)) bs) as (iv1 & E1 & Hx1 & Hc1);
      [apply (sh_nodup m o SH)|intros c Hc; by destruct (kid_dom m o SH q c Hc)|exact (proj1 (Forall2_fmap_l (sz m) Z.le (K m q) bs) HF)|].
    cbn [start] in *. rstep E1. unfold isz in HS. cbn in HS.
    assert (Hkid : forall c, c ∈ K m q -> good (iv1 c) /\ sz m c <= isz (iv1 c)).
    { intros c Hc. destruct (chained_elem iv1 (sz m) sz_nonneg _ _ _ c Hc1 Hc) as (? & Hsc & ?). split; [|done].
      pose proof (sz_pos m o SH c). destruct Hg as (? & ? & ?). unfold isz in Hsc. unfold good. lia. }
    assert (Hdis : forall c, c ∈ K m q -> c ∉ queue).
    { intros c Hc Hc'. apply Hq. rewrite (Hanti q c); [done|by left|by right|by apply tanc_kid]. }
    destruct (IH (queue ++ K m q) iv1) as (iv' & E & Hx & Hfit).
    + rewrite fmap_app, zsum_app. lia.
    + apply NoDup_app. split_and!; [done| |apply (sh_nodup m o SH)]. intros x Hx Hx'. by apply (Hdis x).
    + intros a b Ha Hb Ht. apply elem_of_app in Ha, Hb. destruct Ha as [Ha|Ha], Hb as [Hb|Hb]; [apply Hanti; [by right..|done]| | |].
      * destruct (tanc_up m o SH a q b Hb Ht) as [?|Ht']; [done|]. rewrite (Hanti a q) in Ha; [done|by right|by left|done].
      * rewrite <- (Hanti q b) in Hb; [done|by left|by right|]. eapply tanc_trans; [by apply tanc_kid|done].
      * apply (kids_apart m o SH q a b b); [done..|apply tanc_refl].
    + intros x [Hx|Hx]%elem_of_app; [apply Hdom; by right|by destruct (kid_dom m o SH q x Hx)].
    + intros x [Hx|Hx]%elem_of_app; [|by apply Hkid]. rewrite Hx1; [apply Hgood; by right|]. intros Hx'. by apply (Hdis x).
    + intros x y [Hx|Hx]%elem_of_app Ht; [apply (Hsz x); [by right|done]|]. apply (Hsz q); [left|]. eapply tanc_trans; [by apply tanc_kid|done].
    + exists iv'. assert (Hk' : forall c, c ∈ K m q -> iv' c = iv1 c).
      { intros c Hc. apply Hx. intros q' [Hq'|Hq']%elem_of_app Ht; [|symmetry; apply (kids_apart m o SH q q' c c); [done..|apply tanc_refl]].
        destruct (tanc_up m o SH q' q c Hc Ht) as [?|Ht']; [done|]. rewrite (Hanti q' q) in Hq'; [done|by right|by left|done]. }
      assert (Hold : forall x, (forall q', q' ∈ q :: queue -> tanc m q' x -> x = q') -> iv' x = iv x).
      { intros x Hxq. assert (Hnk : forall c, c ∈ K m q -> ~ tanc m c x).
        { intros c Hc Ht. assert (x = q) as -> by (apply Hxq; [left|]; eapply tanc_trans; [by apply tanc_kid|done]).
          by apply (kid_not_above m o SH q c). }
        rewrite Hx; [|intros q' [Hq'|Hq']%elem_of_app Ht; [apply Hxq; [by right|done]|by destruct (Hnk q' Hq')]].
        apply Hx1. intros Hc. apply (Hnk x Hc), tanc_refl. }
      split_and!; [done|done|]. intros q' [->|Hq']%elem_of_cons; [|apply Hfit, elem_of_app; by left].
      apply fits_intro; [|intros c Hc; apply Hfit, elem_of_app; by right]. unfold ok_at. rewrite (Hold q).
      2: { intros q' Hq' Ht. symmetry. apply Hanti; [done|left|done]. }
      apply (chained_ext iv1); [done|]. apply (chained_weaken iv1 (sz m)); [intros c _; apply (sz_pos m o SH)|].
      eapply (chained_mono iv1 (sz m) (start (iv q))); [lia| |exact Hc1]. lia.
Qed.

(** ** Counting *)

(** Cached sizes are right, and those of the blocks below are cached as well. *)
Definition cache_ok (S : gmap Hash Z) : Prop :=
  (forall x n, S !! x = Some n -> n = sz m x) /\ (forall x c, is_Some (S !! x) -> c ∈ K m x -> is_Some (S !! c)).

Lemma cached_below S b x : cache_ok S -> is_Some (S !! b) -> tanc m b x -> S !! x = Some (sz m x).
Proof.
  intros [Hv Hk] Hb Hx. assert (Hs : is_Some (S !! x)) by (induction Hx as [|b c x Hc _ IH]; eauto).
  destruct Hs as [n Hn]. by rewrite Hn, (Hv x n Hn).
Qed.

Lemma cache_insert S b : cache_ok S -> (forall c, c ∈ K m b -> is_Some (S !! c)) -> cache_ok (<[b := sz m b]> S).
Proof.
  intros [Hv Hk] Hb. split.
  - intros x n. destruct (decide (x = b)) as [->|Hne]; [rewrite lookup_insert_eq; by intros [= <-]|rewrite lookup_insert_ne by done; apply Hv].
  - intros x c Hx Hc. destruct (decide (c = b)) as [->|Hne]; [rewrite lookup_insert_eq; eauto|rewrite lookup_insert_ne by done].
    destruct (decide (x = b)) as [->|Hne']; [by apply Hb|]. rewrite lookup_insert_ne in Hx by done. eauto.
Qed.

Lemma filter_add (D : gset Hash) x l : NoDup l -> x ∉ D ->
  length (filter (.∈ (D ∪ {[x]})) l) = (length (filter (.∈ D) l) + if decide (x ∈ l) then 1 else 0)%nat.
Proof.
  intros Hnd Hx. induction Hnd as [|y l Hy Hnd IH]; [done|]. rewrite !filter_cons.
  destruct (decide (x = y)) as [<-|Hne].
  - rewrite (decide_True (P := x ∈ D ∪ {[x]})) by (apply elem_of_union_r, elem_of_singleton; done). rewrite (decide_False (P := x ∈ D)) by done.
    rewrite (decide_True (P := x ∈ x :: l)) by left. cbn [length]. rewrite IH, (decide_False (P := x ∈ l)) by done. lia.
  - assert (Hi : (if decide (x ∈ y :: l) then 1 else 0)%nat = (if decide (x ∈ l) then 1 else 0)%nat).
    { destruct (decide (x ∈ l)); [rewrite decide_True; [done|by right]|]. rewrite decide_False; [done|]. intros [?|?]%elem_of_cons; done. }
    rewrite Hi. destruct (decide (y ∈ D)).
    + rewrite decide_True by (by apply elem_of_union_l). cbn [length]. lia.
    + rewrite decide_False; [lia|]. intros [?|?%elem_of_singleton]%elem_of_union; [done|]. by subst.
Qed.

Lemma filter_all (D : gset Hash) l : length (filter (.∈ D) l) = length l -> forall x, x ∈ l -> x ∈ D.
Proof.
  induction l as [|y l IH]; intros Hl x Hx; [by apply elem_of_nil in Hx|]. rewrite filter_cons in Hl.
  pose proof (length_filter (.∈ D) l) as Hle. destruct (decide (y ∈ D)); cbn [length] in Hl; [|lia].
  apply elem_of_cons in Hx as [->|Hx]; [done|]. apply IH; [lia|done].
Qed.

Lemma filter_full (D : gset Hash) (l : list Hash) : (forall x, x ∈ l -> x ∈ D) -> filter (.∈ D) l = l.
Proof.
  induction l as [|y l IH]; intros Hl; [done|]. rewrite filter_cons, decide_True by (apply Hl; left). f_equal. apply IH. intros x Hx. apply Hl. by right.
Qed.

Lemma filter_none (D : gset Hash) l : (forall x, x ∈ l -> x ∉ D) -> filter (.∈ D) l = [].
Proof.
  induction l as [|y l IH]; intros Hl; [done|]. rewrite filter_cons, decide_False by (apply Hl; left). apply IH. intros x Hx. apply Hl. by right.
Qed.

Section Count.
Context (iv : Hash -> Interval) (block : Hash) (Hblock : block ∈ dom m) (Hsmall : Z.of_nat (size m) < 2 ^ 63).

(** Blocks wait in the queue, are expanded, or are done; [pend] is the block that has
    not been told of its last child. *)
Record count_inv (pend : option Hash) (Q : list Hash) (E D : gset Hash) (S C : gmap Hash Z) : Prop := {
  ci_cache : cache_ok S;
  ci_nodup : NoDup Q;
  ci_queue x : x ∈ Q -> x ∉ E /\ x ∉ D;
  ci_apart x : x ∈ E -> x ∉ D;
  ci_sub x : x ∈ Q \/ x ∈ E \/ x ∈ D -> tanc m block x;
  ci_block : block ∈ Q \/ block ∈ E \/ block ∈ D;
  ci_kids x k : x ∈ E -> k ∈ K m x -> k ∈ Q \/ k ∈ E \/ k ∈ D;
  ci_count x : x ∈ E -> default 0 (C !! x) + (if decide (pend = Some x) then 1 else 0) = Z.of_nat (length (filter (.∈ D) (K m x))) /\
    default 0 (C !! x) < Z.of_nat (length (K m x));
  ci_fresh x : x ∉ E -> x ∉ D -> C !! x = None;
  ci_done x : x ∈ D -> is_Some (S !! x);
  ci_up x : x <> block -> x ∈ Q \/ x ∈ E -> P m x ∈ E;
  ci_up_done x : x <> block -> x ∈ D -> P m x ∈ E \/ P m x ∈ D }.

Definition pending (x : Hash) : option Hash := if decide (x = block) then None else Some (P m x).

Lemma below_kid x : tanc m block x -> x <> block -> x ∈ K m (P m x).
Proof.
  intros Ht Hne. apply (sh_par m o SH); [by apply (tanc_dom m o SH block)|]. intros ->. apply (root_top m o SH) in Ht. done.
Qed.

Lemma kid_parent x k : k ∈ K m x -> P m k = x.
Proof. intros Hk. by destruct (sh_kid m o SH x k Hk) as (_ & ? & _). Qed.

Lemma block_no_kid x : tanc m block x -> block ∉ K m x.
Proof. intros Ht Hk. by apply (kid_not_above m o SH x block). Qed.

(** A block is done: it leaves the queue or the expanded blocks. *)
Lemma count_move pend Q Q' E E' D S S' C C' cur : count_inv pend Q E D S C -> (forall x, x ∈ E' -> pend <> Some x) -> cur ∉ D -> tanc m block cur ->
  Q' ⊆ Q -> E' ⊆ E -> NoDup Q' -> (forall x, x ∈ Q -> x ∈ Q' \/ x = cur) -> (forall x, x ∈ E -> x ∈ E' \/ x = cur) -> cur ∉ Q' -> cur ∉ E' ->
  (cur <> block -> P m cur ∈ E) -> (forall x, x ∈ E' -> C' !! x = C !! x) -> (forall x, x <> cur -> C !! x = None -> C' !! x = None) ->
  (forall x, is_Some (S !! x) -> is_Some (S' !! x)) -> is_Some (S' !! cur) -> cache_ok S' -> (forall k, k ∈ K m cur -> k ∉ Q /\ k ∉ E) ->
  count_inv (pending cur) Q' E' (D ∪ {[cur]}) S' C'.
Proof.
  intros I Hpe Hcd Ht HQ HE Hnd HQ' HE' HcQ HcE Hup HC HCn HS Hc Hca Hkids. split.
  - done.
  - done.
  - intros x Hx. destruct (ci_queue _ _ _ _ _ _ I x (HQ x Hx)) as [? ?]. split; [intros Hx'; by apply HE in Hx'|].
    intros [?|Heq%elem_of_singleton]%elem_of_union; [done|]. by subst.
  - intros x Hx [?|Heq%elem_of_singleton]%elem_of_union; [|by subst]. by apply (ci_apart _ _ _ _ _ _ I x (HE x Hx)).
  - intros x [Hx|[Hx|[Hx|Heq%elem_of_singleton]%elem_of_union]]; [..|by subst]; apply (ci_sub _ _ _ _ _ _ I); auto.
  - destruct (ci_block _ _ _ _ _ _ I) as [Hb|[Hb|Hb]].
    + destruct (HQ' _ Hb) as [?| ->]; [by left|]. right; right. by apply elem_of_union_r, elem_of_singleton.
    + destruct (HE' _ Hb) as [?| ->]; [by right; left|]. right; right. by apply elem_of_union_r, elem_of_singleton.
    + right; right. by apply elem_of_union_l.
  - intros x k Hx Hk. destruct (ci_kids _ _ _ _ _ _ I x k (HE x Hx) Hk) as [Hb|[Hb|Hb]].
    + destruct (HQ' _ Hb) as [?| ->]; [by left|]. right; right. by apply elem_of_union_r, elem_of_singleton.
    + destruct (HE' _ Hb) as [?| ->]; [by right; left|]. right; right. by apply elem_of_union_r, elem_of_singleton.
    + right; right. by apply elem_of_union_l.
  - intros x Hx. destruct (ci_count _ _ _ _ _ _ I x (HE x Hx)) as [Hn Hlt]. rewrite decide_False in Hn by (by apply Hpe). rewrite (HC x Hx).
    split; [|done]. rewrite (filter_add D cur (K m x) (sh_nodup m o SH x) Hcd). unfold pending.
    destruct (decide (cur = block)) as [->|Hne].
    + rewrite (decide_False (P := None = Some x)) by done. rewrite decide_False; [lia|]. apply block_no_kid, (ci_sub _ _ _ _ _ _ I). auto.
    + destruct (decide (cur ∈ K m x)) as [Hk|Hk].
      * rewrite decide_True by (f_equal; by apply kid_parent). lia.
      * rewrite decide_False; [lia|]. intros [= Heq]. subst x. by apply Hk, below_kid.
  - intros x Hx Hx'. assert (x <> cur) by (intros ->; apply Hx'; by apply elem_of_union_r, elem_of_singleton).
    apply HCn; [done|]. apply (ci_fresh _ _ _ _ _ _ I); [intros [?|?]%HE'; done|]. intros ?. apply Hx'. by apply elem_of_union_l.
  - intros x [Hx|Heq%elem_of_singleton]%elem_of_union; [|by subst]. by apply HS, (ci_done _ _ _ _ _ _ I).
  - intros x Hne Hx. assert (Hx0 : x ∈ Q \/ x ∈ E) by (destruct Hx; auto). pose proof (ci_up _ _ _ _ _ _ I x Hne Hx0) as Hp.
    destruct (HE' _ Hp) as [?|Heq]; [done|]. exfalso. destruct (Hkids x); [|destruct Hx0; done].
    rewrite <- Heq. apply below_kid; [|done]. apply (ci_sub _ _ _ _ _ _ I). destruct Hx0; auto.
  - intros x Hne [Hx|Heq%elem_of_singleton]%elem_of_union.
    + destruct (ci_up_done _ _ _ _ _ _ I x Hne Hx) as [Hp|Hp]; [|right; by apply elem_of_union_l].
      destruct (HE' _ Hp) as [?|Heq]; [by left|]. right. rewrite Heq. by apply elem_of_union_r, elem_of_singleton.
    + subst x. left. destruct (HE' _ (Hup Hne)) as [?|Heq]; [done|]. exfalso.
      pose proof (below_kid cur Ht Hne) as Hk. rewrite Heq in Hk. apply (kid_not_above m o SH cur cur Hk), tanc_refl.
Qed.

Lemma length_kids x : Z.of_nat (length (K m x)) < sz m x.
Proof.
  rewrite (sz_unfold m o SH x). induction (K m x) as [|c l IH]; [cbn; lia|]. rewrite fmap_cons, zsum_cons. cbn [length].
  pose proof (sz_pos m o SH c). lia.
Qed.

Lemma push_up_ok Q n : forall cur E D S C, count_inv (pending cur) Q E D S C -> cur ∈ D -> (cur <> block -> P m cur ∈ E) ->
  ht m cur - ht m block <= Z.of_nat n ->
  exists S' C' E' D', push_up n (build m iv fc r) block cur S C = Done (S', C') /\ count_inv None Q E' D' S' C' /\ E ∪ D ⊆ E' ∪ D'.
Proof.
  induction n as [|n IH]; intros cur E D S C I Hcur Hup Hn; cbn [push_up]; (case_bool_decide as Hb; [exists S, C, E, D; subst; unfold pending in I; by rewrite decide_True in I|]).
  { pose proof (ci_sub _ _ _ _ _ _ I cur ltac:(auto)) as Ht. destruct (tanc_height m o SH _ _ Ht) as [?|?]; [done|lia]. }
  set (p := P m cur) in *. pose proof (ci_sub _ _ _ _ _ _ I cur ltac:(auto)) as Ht. pose proof (below_kid cur Ht Hb) as Hk. fold p in Hk.
  pose proof (tanc_dom m o SH _ _ Ht Hblock) as Hcd. destruct (kid_dom m o SH p cur Hk) as [Hpd _].
  rstep (get_parent_ok m iv fc r cur Hcd). fold p. rstep (get_children_ok m iv fc r p Hpd).
  specialize (Hup Hb). destruct (ci_count _ _ _ _ _ _ I p Hup) as [Hc Hlt]. unfold pending in Hc. rewrite (decide_False (P := cur = block)) in Hc by done.
  fold p in Hc. rewrite decide_True in Hc by done. pose proof (length_kids p) as Hlk. pose proof (sz_bound m o SH p Hpd) as Hsb.
  assert (0 <= default 0 (C !! p) + 1) by lia. assert (Hch : 0 <= default 0 (C !! p) + 1 < 2 ^ 64) by (split; [done|lia]). rstep (chk_ok _ Hch). rewrite Hc. destruct (Z.ltb_spec (Z.of_nat (length (filter (.∈ D) (K m p)))) (Z.of_nat (length (K m p)))) as [Hl|Hl].
  - exists S, (<[p := Z.of_nat (length (filter (.∈ D) (K m p)))]> C), E, D. split_and!; [done| |done]. destruct I. split; try done.
    + intros x Hx. rewrite decide_False by done. destruct (decide (x = p)) as [->|Hne]; [rewrite lookup_insert_eq; cbn; lia|].
      rewrite lookup_insert_ne by done. destruct (ci_count0 x Hx) as [Hc' ?]. split; [|done]. unfold pending in Hc'. rewrite decide_False in Hc'; [done|].
      rewrite (decide_False (P := cur = block)) by done. by intros [= ?].
    + intros x Hx Hx'. rewrite lookup_insert_ne; [by apply ci_fresh0|]. by intros <-.
  - assert (Hall : forall k, k ∈ K m p -> k ∈ D) by (apply filter_all; lia).
    assert (Hks : forall k, k ∈ K m p -> is_Some (S !! k)) by (intros k Hkk; by apply (ci_done _ _ _ _ _ _ I), Hall).
    pose proof (ci_cache _ _ _ _ _ _ I) as Hca. pose proof (sz_unfold m o SH p) as Hsp.
    rstep (mapM_sizes S (K m p) ltac:(intros k Hkk; apply (cached_below S k); [done|by apply Hks|apply tanc_refl])).
    pose proof (sum_sz_nonneg m o SH (K m p)). rstep (sum_r_ok (sz m <$> K m p) 0 (sizes_nonneg _) ltac:(lia) ltac:(lia)). rewrite Z.add_0_l.
    assert (Hch2 : 0 <= zsum (sz m <$> K m p) + 1 < 2 ^ 64) by lia. rstep (chk_ok _ Hch2). replace (zsum (sz m <$> K m p) + 1) with (sz m p) by lia.
    destruct (IH p (E ∖ {[p]}) (D ∪ {[p]}) (<[p := sz m p]> S) (<[p := Z.of_nat (length (filter (.∈ D) (K m p)))]> C)) as (S' & C' & E' & D' & HE & HI & Hsub).
    + apply (count_move (pending cur) Q Q E _ D S _ C _ p); try done.
      * intros x [Hx Hxp]%elem_of_difference. unfold pending. rewrite decide_False by done. intros [= Heq]. apply Hxp, elem_of_singleton. by symmetry.
      * by apply (ci_apart _ _ _ _ _ _ I).
      * apply (ci_sub _ _ _ _ _ _ I). auto.
      * intros x Hx%elem_of_difference. apply Hx.
      * by apply (ci_nodup _ _ _ _ _ _ I).
      * by left.
      * intros x Hx. destruct (decide (x = p)) as [?|Hne]; [by right|left]. apply elem_of_difference. split; [done|]. by intros ?%elem_of_singleton.
      * intros Hx. by destruct (ci_queue _ _ _ _ _ _ I p Hx).
      * intros [_ Hx]%elem_of_difference. by apply Hx, elem_of_singleton.
      * intros Hne. apply (ci_up _ _ _ _ _ _ I p Hne). auto.
      * intros x [_ Hx]%elem_of_difference. apply lookup_insert_ne. intros <-. by apply Hx, elem_of_singleton.
      * intros x Hne. by rewrite lookup_insert_ne.
      * intros x Hx. destruct (decide (x = p)) as [->|Hne]; [rewrite lookup_insert_eq; eauto|by rewrite lookup_insert_ne].
      * rewrite lookup_insert_eq. eauto.
      * by apply cache_insert.
      * intros k Hkk. pose proof (Hall k Hkk) as HkD. split; [intros Hx; by destruct (ci_queue _ _ _ _ _ _ I k Hx)|]. intros Hx. by apply (ci_apart _ _ _ _ _ _ I k).
    + by apply elem_of_union_r, elem_of_singleton.
    + intros Hne. apply elem_of_difference. split; [apply (ci_up _ _ _ _ _ _ I p Hne); auto|]. intros Heq%elem_of_singleton.
      pose proof (below_kid p ltac:(apply (ci_sub _ _ _ _ _ _ I); auto) Hne) as Hkp. rewrite Heq in Hkp. apply (kid_not_above m o SH p p Hkp), tanc_refl.
    + destruct (sh_kid m o SH p cur Hk) as (_ & _ & ?). lia.
    + exists S', C', E', D'. split_and!; [done|done|]. intros x Hx. apply Hsub. apply elem_of_union in Hx as [Hx|Hx].
      * destruct (decide (x = p)) as [->|Hne]; [by apply elem_of_union_r, elem_of_union_r, elem_of_singleton|].
        apply elem_of_union_l, elem_of_difference. split; [done|]. by intros ?%elem_of_singleton.
      * by apply elem_of_union_r, elem_of_union_l.
Qed.

Lemma count_end E D S C : count_inv None [] E D S C -> is_Some (S !! block).
Proof.
  intros I. assert (HE : forall x, x ∉ E).
  { refine (tree_up m o SH _ _). intros x IHx Hx. destruct (ci_count _ _ _ _ _ _ I x Hx) as [Hc Hlt]. rewrite decide_False in Hc by done.
    assert (Hk : exists k, k ∈ K m x /\ k ∉ D).
    { apply (Exists_exists (.∉ D)), not_Forall_Exists; [apply _|]. intros Hall. rewrite Forall_forall in Hall.
      rewrite (filter_full D _ Hall) in Hc. lia. }
    destruct Hk as (k & Hk & Hkd). destruct (ci_kids _ _ _ _ _ _ I x k Hx Hk) as [Hq|[He|Hd]]; [by apply elem_of_nil in Hq|by apply (IHx k)|done]. }
  destruct (ci_block _ _ _ _ _ _ I) as [Hq|[He|Hd]]; [by apply elem_of_nil in Hq|by destruct (HE block)|by apply (ci_done _ _ _ _ _ _ I)].
Qed.

Lemma count_loop_ok fuel n : max_height m <= Z.of_nat fuel -> forall Q E D S C, count_inv None Q E D S C -> sz m block - Z.of_nat (size (E ∪ D)) <= Z.of_nat n ->
  exists S', count_loop n fuel (build m iv fc r) block Q S C = Done S' /\ cache_ok S' /\ is_Some (S' !! block).
Proof.
  intros Hfuel. induction n as [|n IH]; intros Q E D S C I Hn; (destruct Q as [|cur Q]; [exists S; split_and!; [done|by apply (ci_cache _ _ _ _ _ _ I)|by eapply count_end]|]).
  all: pose proof (ci_queue _ _ _ _ _ _ I cur ltac:(left)) as [HcE HcD]; pose proof (ci_sub _ _ _ _ _ _ I cur ltac:(left; left)) as Ht.
  all: assert (Hgrow : forall F : gset Hash, cur ∈ F -> E ∪ D ⊆ F -> (size (E ∪ D) < size F)%nat)
    by (intros F HF Hsub; apply subset_size; split; [done|]; intros Hs; apply Hs, elem_of_union in HF as [?|?]; done).
  { pose proof (Hgrow (list_to_set (desc m block))) as Hg.
    rewrite (size_list_to_set (desc m block) (desc_nodup m o SH block)) in Hg. unfold sz in Hn.
    assert (size (E ∪ D) < length (desc m block))%nat; [|lia]. apply Hg; [by apply elem_of_list_to_set, (elem_of_desc m o SH)|].
    intros x [Hx|Hx]%elem_of_union; apply elem_of_list_to_set, (elem_of_desc m o SH), (ci_sub _ _ _ _ _ _ I); auto. }
  pose proof (ci_nodup _ _ _ _ _ _ I) as [HcQ HnQ]%NoDup_cons. pose proof (tanc_dom m o SH _ _ Ht Hblock) as Hcd.
  assert (Hkids : forall k, k ∈ K m cur -> k ∉ cur :: Q /\ k ∉ E /\ k ∉ D).
  { intros k Hk. assert (Hkb : k <> block) by (intros ->; by apply (block_no_kid cur)). pose proof (kid_parent cur k Hk) as Hp.
    split_and!; intros Hx.
    - pose proof (ci_up _ _ _ _ _ _ I k Hkb (or_introl Hx)) as Hy. by rewrite Hp in Hy.
    - pose proof (ci_up _ _ _ _ _ _ I k Hkb (or_intror Hx)) as Hy. by rewrite Hp in Hy.
    - destruct (ci_up_done _ _ _ _ _ _ I k Hkb Hx) as [Hy|Hy]; by rewrite Hp in Hy. }
  cbn [count_loop]. rstep (get_children_ok m iv fc r cur Hcd).
  destruct (bool_decide (K m cur = []) || bool_decide (is_Some (S !! cur))) eqn:Eb.
  - set (S1 := if bool_decide (K m cur = []) then <[cur := 1]> S else S).
    assert (HS1 : cache_ok S1 /\ is_Some (S1 !! cur) /\ forall x, is_Some (S !! x) -> is_Some (S1 !! x)).
    { pose proof (ci_cache _ _ _ _ _ _ I) as Hca. unfold S1. case_bool_decide as Hk; cbn in Eb.
      - assert (Hsz : sz m cur = 1) by (rewrite (sz_unfold m o SH cur), Hk; done). rewrite <- Hsz.
        split_and!; [apply cache_insert; [done|]; rewrite Hk; by intros c Hc%elem_of_nil|rewrite lookup_insert_eq; eauto|].
        intros x Hx. destruct (decide (x = cur)) as [->|Hne]; [rewrite lookup_insert_eq; eauto|by rewrite lookup_insert_ne].
      - apply bool_decide_eq_true in Eb. done. }
    destruct HS1 as (Hca & Hsc & Hmono).
    destruct (push_up_ok Q fuel cur E (D ∪ {[cur]}) S1 C) as (S' & C' & E' & D' & HE & HI & Hsub).
    + apply (count_move None (cur :: Q) Q E E D S _ C _ cur); try done.
      * by right.
      * by intros x [->|?]%elem_of_cons; [right|left].
      * by left.
      * intros Hne. apply (ci_up _ _ _ _ _ _ I cur Hne). left. by left.
      * intros k Hk. destruct (Hkids k Hk) as (? & ? & _). done.
    + by apply elem_of_union_r, elem_of_singleton.
    + intros Hne. apply (ci_up _ _ _ _ _ _ I cur Hne). left. by left.
    + pose proof (max_height_ge m cur Hcd). pose proof (sh_height m o SH block). lia.
    + rstep HE. destruct (IH Q E' D' S' C' HI) as (S2 & H1 & H2); [|by exists S2].
      pose proof (Hgrow (E' ∪ D')) as Hg. assert (size (E ∪ D) < size (E' ∪ D'))%nat; [|lia]. apply Hg.
      * apply Hsub, elem_of_union_r, elem_of_union_r. by apply elem_of_singleton.
      * intros x [Hx|Hx]%elem_of_union; apply Hsub; [by apply elem_of_union_l|by apply elem_of_union_r, elem_of_union_l].
  - apply orb_false_iff in Eb as [Ek Es]. apply bool_decide_eq_false in Ek, Es.
    destruct (IH (Q ++ K m cur) (E ∪ {[cur]}) D S C) as (S2 & H1 & H2); [| |by exists S2].
    + destruct I as [i1 i2 i3 i4 i5 i6 i7 i8 i9 i10 i11 i12]. split; try done.
      * apply NoDup_app. split_and!; [done| |apply (sh_nodup m o SH)]. intros x Hx Hx'. destruct (Hkids x Hx') as (Hn' & _). apply Hn'. by right.
      * intros x [Hx|Hx]%elem_of_app.
        -- destruct (i3 x ltac:(by right)) as [? ?]. split; [|done]. intros [?|Heq%elem_of_singleton]%elem_of_union; [done|]. by subst.
        -- destruct (Hkids x Hx) as (Hn1 & ? & ?). split; [|done]. intros [?|Heq%elem_of_singleton]%elem_of_union; [done|]. subst. apply Hn1. by left.
      * intros x [?|Heq%elem_of_singleton]%elem_of_union; [by apply i4|by subst].
      * intros x [[Hx|Hx]%elem_of_app|[[Hx|Hx%elem_of_singleton]%elem_of_union|Hx]]; [apply i5; left; by right| |apply i5; auto|by subst|apply i5; auto].
        eapply tanc_trans; [exact Ht|by apply tanc_kid].
      * destruct i6 as [[->|Hb]%elem_of_cons|[Hb|Hb]]; [right; left; by apply elem_of_union_r, elem_of_singleton|left; apply elem_of_app; by left|
          right; left; by apply elem_of_union_l|by right; right].
      * intros x k [Hx|Hx%elem_of_singleton]%elem_of_union Hk; [|subst; left; apply elem_of_app; by right].
        destruct (i7 x k Hx Hk) as [[->|Hb]%elem_of_cons|[Hb|Hb]]; [right; left; by apply elem_of_union_r, elem_of_singleton|left; apply elem_of_app; by left|
          right; left; by apply elem_of_union_l|by right; right].
      * intros x [Hx|Hx%elem_of_singleton]%elem_of_union; [by apply i8|]. subst x. rewrite (i9 cur HcE HcD), decide_False by done. cbn [default].
        rewrite filter_none by (intros k Hk; by destruct (Hkids k Hk) as (_ & _ & ?)). cbn. split; [done|]. destruct (K m cur); [done|cbn; lia].
      * intros x Hx. apply i9. intros ?. apply Hx. by apply elem_of_union_l.
      * intros x Hne [[Hx|Hx]%elem_of_app|[Hx|Hx%elem_of_singleton]%elem_of_union].
        -- apply elem_of_union_l, i11; [done|]. left. by right.
        -- rewrite (kid_parent cur x Hx). by apply elem_of_union_r, elem_of_singleton.
        -- apply elem_of_union_l, i11; auto.
        -- subst x. apply elem_of_union_l, i11; [done|]. left. by left.
      * intros x Hne Hx. destruct (i12 x Hne Hx); [left; by apply elem_of_union_l|by right].
    + pose proof (Hgrow (E ∪ {[cur]} ∪ D)) as Hg. assert (size (E ∪ D) < size (E ∪ {[cur]} ∪ D))%nat; [|lia]. apply Hg.
      * apply elem_of_union_l, elem_of_union_r. by apply elem_of_singleton.
      * intros x [Hx|Hx]%elem_of_union; [by apply elem_of_union_l, elem_of_union_l|by apply elem_of_union_r].
Qed.

Lemma count_subtrees_ok fuel sizes : cache_ok sizes -> max_height m <= Z.of_nat fuel -> sz m block <= Z.of_nat fuel ->
  exists sizes', count_subtrees fuel (mk_ctx (build m iv fc r) sizes) block = Done (mk_ctx (build m iv fc r) sizes') /\ cache_ok sizes' /\
    is_Some (sizes' !! block).
Proof.
  intros Hca Hh Hs. unfold count_subtrees. cbn [subtree_sizes cstore]. destruct (sizes !! block) eqn:E; [exists sizes; by rewrite E|].
  destruct (count_loop_ok fuel fuel Hh [block] ∅ ∅ sizes ∅) as (S' & HE & ? & ?).
  - split; try done.
    + apply NoDup_singleton.
    + intros x [Hx%list_elem_of_singleton|[Hx|Hx]]; [subst; apply tanc_refl|done|done].
    + left. by left.
    + intros x Hne [Hx%list_elem_of_singleton|Hx]; done.
  - rewrite union_empty_l_L, size_empty. lia.
  - rstep HE. by exists S'.
Qed.

Lemma propagate_interval_ok fuel sizes : cache_ok sizes -> max_height m <= Z.of_nat fuel -> (size m <= fuel)%nat -> good (iv block) -> sz m block <= isz (iv block) ->
  exists iv' sizes', propagate_interval powf fuel (mk_ctx (build m iv fc r) sizes) block = Done (mk_ctx (build m iv' fc r) sizes') /\ cache_ok sizes' /\
    (forall x, (tanc m block x -> x = block) -> iv' x = iv x) /\ fits m iv' block.
Proof.
  intros Hca Hh Hf Hg Hs. pose proof (sz_bound m o SH block Hblock) as Hb. unfold propagate_interval.
  destruct (count_subtrees_ok fuel sizes Hca Hh ltac:(lia)) as (S' & E1 & Hca' & Hin). rstep E1. cbn [cstore subtree_sizes].
  destruct (propagate_loop_ok S' fuel [block] iv) as (iv' & E2 & Hx & Hfit).
  - cbn. lia.
  - apply NoDup_singleton.
  - intros a b ->%list_elem_of_singleton ->%list_elem_of_singleton. done.
  - by intros q ->%list_elem_of_singleton.
  - by intros q ->%list_elem_of_singleton.
  - intros q x ->%list_elem_of_singleton Ht. by apply (cached_below S' block).
  - rstep E2. exists iv', S'. split_and!; [done|done| |apply Hfit; by left]. intros x Hxb. apply Hx. by intros q ->%list_elem_of_singleton.
Qed.

End Count.

(** ** Search *)

Section Search.
Context (iv : Hash -> Interval).

Definition ascending (l : list Hash) : Prop := forall i j a b, (i < j)%nat -> l !! i = Some a -> l !! j = Some b -> start (iv a) < start (iv b).

Lemma binary_search_ok l point fuel : ascending l -> (forall h, h ∈ l -> h ∈ dom m) -> forall left right,
  (right - left <= fuel)%nat -> (left <= right <= length l)%nat ->
  (forall i a, (i < left)%nat -> l !! i = Some a -> start (iv a) < point) -> (forall i a, (right <= i)%nat -> l !! i = Some a -> point < start (iv a)) ->
  exists res, binary_search fuel (build m iv fc r) l point left right = Done res /\
    match res with
    | inl i => exists a, l !! i = Some a /\ start (iv a) = point
    | inr i => (i <= length l)%nat /\ (forall j a, (j < i)%nat -> l !! j = Some a -> start (iv a) < point) /\
        (forall j a, (i <= j)%nat -> l !! j = Some a -> point < start (iv a))
    end.
Proof.
  intros Hasc Hdom. induction fuel as [|fuel IH]; intros left right Hf Hlr Hlo Hhi; cbn [binary_search].
  { destruct (Nat.ltb_spec left right); [lia|]. exists (inr left). split; [done|]. split_and!; [lia|done|]. intros j a Hj. apply Hhi. lia. }
  destruct (Nat.ltb_spec left right) as [Hlt|Hge].
  2: { exists (inr left). split; [done|]. split_and!; [lia|done|]. intros j a Hj. apply Hhi. lia. }
  set (mid := (left + (right - left) / 2)%nat). pose proof (Nat.div_lt (right - left) 2 ltac:(lia) ltac:(lia)) as Hdiv.
  assert (Hmid : (left <= mid < right)%nat) by (unfold mid; lia).
  destruct (lookup_lt_is_Some_2 l mid ltac:(lia)) as [a Ha]. unfold index. rewrite Ha. cbn [mbind R_bind].
  rstep (get_interval_ok m iv fc r a (Hdom a ltac:(by eapply list_elem_of_lookup_2))). cbn [unwrap_r]. cbn [mbind R_bind].
  destruct (Z.compare_spec (start (iv a)) point) as [He|Hl|Hg].
  - exists (inl mid). eauto.
  - apply IH; [lia|lia| |done]. intros i b Hi Hb. destruct (decide (i = mid)) as [->|Hne]; [congruence|].
    pose proof (Hasc i mid b a ltac:(lia) Hb Ha). lia.
  - apply IH; [lia|lia|done|]. intros i b Hi Hb. destruct (decide (i = mid)) as [->|Hne]; [congruence|].
    pose proof (Hasc mid i a b ltac:(lia) Ha Hb). lia.
Qed.

Section Descendant.
Context (l : list Hash) (Hasc : ascending l) (Hdom : forall h, h ∈ l -> h ∈ dom m) (x : Hash) (Hx : x ∈ dom m).

Lemma search_start : exists res, binary_search (length l) (build m iv fc r) l (iend (iv x)) 0 (length l) = Done res /\
    match res with
    | inl i => exists a, l !! i = Some a /\ start (iv a) = iend (iv x)
    | inr i => (i <= length l)%nat /\ (forall j a, (j < i)%nat -> l !! j = Some a -> start (iv a) < iend (iv x)) /\
        (forall j a, (i <= j)%nat -> l !! j = Some a -> iend (iv x) < start (iv a))
    end.
Proof. apply binary_search_ok; [done..|lia|lia|lia|]. intros i a Hi Ha. apply lookup_lt_Some in Ha. lia. Qed.

Lemma search_found i a : l !! i = Some a -> start (iv a) <= iend (iv x) -> contains (iv a) (iv x) = true ->
  (forall j b, (i < j)%nat -> l !! j = Some b -> iend (iv x) < start (iv b)) ->
  binary_search_descendant (build m iv fc r) l x = Done (Found a i).
Proof.
  intros Ha Hs Hc Hafter. unfold binary_search_descendant. rstep (get_interval_ok m iv fc r x Hx).
  destruct search_start as ([k|k] & E & Hk); rstep E.
  - destruct Hk as (b & Hb & Hbs). assert (k = i) as ->.
    { destruct (decide (k = i)) as [|Hne]; [done|]. destruct (decide (k < i)%nat); [pose proof (Hasc k i b a ltac:(lia) Hb Ha); lia|].
      pose proof (Hafter k b ltac:(lia) Hb). lia. }
    assert (b = a) as -> by congruence. unfold index. rewrite Ha. done.
  - destruct Hk as (Hk & Hlo & Hhi). assert (Hki : k = S i).
    { destruct (decide (k <= i)%nat); [pose proof (Hhi i a ltac:(lia) Ha); lia|]. destruct (decide (k = S i)) as [|Hne]; [done|].
      destruct (lookup_lt_is_Some_2 l (S i) ltac:(lia)) as [b Hb]. pose proof (Hlo (S i) b ltac:(lia) Hb). pose proof (Hafter (S i) b ltac:(lia) Hb). lia. }
    subst k. unfold index. rewrite Ha. cbn [mbind R_bind]. unfold is_chain_ancestor_of.
    rstep (get_interval_ok m iv fc r a (Hdom a ltac:(by eapply list_elem_of_lookup_2))). rstep (get_interval_ok m iv fc r x Hx). by rewrite Hc.
Qed.

Lemma search_none : (forall a, a ∈ l -> start (iv a) <= iend (iv a)) -> (forall a, a ∈ l -> iend (iv a) < iend (iv x) \/ iend (iv x) < start (iv a)) ->
  exists i, binary_search_descendant (build m iv fc r) l x = Done (NotFound i) /\ (i <= length l)%nat /\
    (forall j a, (j < i)%nat -> l !! j = Some a -> iend (iv a) < iend (iv x)) /\ (forall j a, (i <= j)%nat -> l !! j = Some a -> iend (iv x) < start (iv a)).
Proof.
  intros Hne Hno. unfold binary_search_descendant. rstep (get_interval_ok m iv fc r x Hx).
  destruct search_start as ([k|k] & E & Hk); rstep E.
  - destruct Hk as (b & Hb & Hbs). apply list_elem_of_lookup_2 in Hb. pose proof (Hne b Hb). destruct (Hno b Hb); lia.
  - destruct Hk as (Hk & Hlo & Hhi). exists k. destruct k as [|k].
    { split_and!; [done|lia| |done]. intros j a Hj. lia. }
    destruct (lookup_lt_is_Some_2 l k ltac:(lia)) as [b Hb]. pose proof (Hlo k b ltac:(lia) Hb) as Hbs. pose proof (list_elem_of_lookup_2 _ _ _ Hb) as Hbl.
    unfold index. rewrite Hb. cbn [mbind R_bind]. unfold is_chain_ancestor_of. rstep (get_interval_ok m iv fc r b (Hdom b Hbl)). rstep (get_interval_ok m iv fc r x Hx).
    assert (Hend : forall j a, (j < S k)%nat -> l !! j = Some a -> iend (iv a) < iend (iv x)).
    { intros j a Hj Ha. pose proof (Hlo j a Hj Ha). destruct (Hno a ltac:(by eapply list_elem_of_lookup_2)); lia. }
    split_and!; [|lia|done|done]. pose proof (Hend k b ltac:(lia) Hb). unfold contains. destruct (Z.leb_spec (iend (iv x)) (iend (iv b))); [lia|].
    by rewrite andb_false_r.
Qed.

End Descendant.

Lemma chained_after need lo l hi i j a b : (forall c, 0 <= need c) -> chained iv need lo l hi -> (i < j)%nat -> l !! i = Some a -> l !! j = Some b ->
  iend (iv a) < start (iv b).
Proof.
  intros Hneed. revert lo i j. induction l as [|c l IH]; intros lo i j Hc Hij Ha Hb; [done|]. destruct j as [|j]; [lia|]. cbn in Hb. destruct Hc as (_ & _ & Hc).
  destruct i as [|i]; [|by apply (IH (iend (iv c) + 1) i j); [done|lia|..]]. injection Ha as ->.
  destruct (chained_elem iv need Hneed _ _ _ b Hc ltac:(by eapply list_elem_of_lookup_2)) as (? & _ & _). lia.
Qed.

Lemma chained_ascending lo l hi : chained iv (fun _ => 1) lo l hi -> ascending l.
Proof.
  intros Hc i j a b Hij Ha Hb. pose proof (chained_after (fun _ => 1) lo l hi i j a b (fun _ => Z.le_0_1) Hc Hij Ha Hb).
  destruct (chained_elem iv (fun _ => 1) (fun _ => Z.le_0_1) _ _ _ a Hc ltac:(by eapply list_elem_of_lookup_2)) as (_ & Hs & _). unfold isz in Hs. lia.
Qed.

(** The child towards a descendant *)
Lemma next_chain_ok a c d : ascending (K m a) -> d ∈ dom m -> c ∈ K m a -> start (iv c) <= start (iv d) -> start (iv d) <= iend (iv d) -> iend (iv d) <= iend (iv c) ->
  (forall i j b, K m a !! i = Some c -> (i < j)%nat -> K m a !! j = Some b -> iend (iv c) < start (iv b)) ->
  get_next_chain_ancestor_unchecked (build m iv fc r) d a = Done c.
Proof.
  intros Hasc Hd Hc H1 H2 H3 Hafter. unfold get_next_chain_ancestor_unchecked. destruct (kid_dom m o SH a c Hc) as [Ha _].
  rstep (get_children_ok m iv fc r a Ha). apply list_elem_of_lookup_1 in Hc as [i Hi].
  rstep (search_found (K m a) Hasc ltac:(intros h Hh; by destruct (kid_dom m o SH a h Hh)) d Hd i c Hi ltac:(lia)
    ltac:(unfold contains; apply andb_true_iff; rewrite !Z.leb_le; lia) ltac:(intros j b Hj Hb; pose proof (Hafter i j b Hi Hj Hb); lia)).
  done.
Qed.

End Search.

End Below.

End Powf.

End ReachabilityOps.
