(* ===== verification/ReachabilityReindex.v ===== *)
(** * Reindexing of the reachability tree

    Space for a block outside the subtree of the reindex root is taken from the chain to
    the root, and handed down it; the intervals nest again afterwards. *)
From Stdlib Require Import ZArith Lia.
From stdpp Require Import base numbers list gmap.
From S2P Require Import Prelude Float64 Ghostdag Reachability ReachabilityTree ReachabilityOps.
Import Ghostdag.Ghostdag Reachability.Reachability ReachabilityTree.ReachabilityTree ReachabilityOps.ReachabilityOps.
Open Scope Z_scope.

Module ReachabilityReindex.

Section Tree.
Context (powf : Z -> Z -> Z) (m : tree) (o : Hash) (SH : shape m o) (fc : Hash -> list Hash) (r : option Hash).
Context (fuel : nat) (Hheight : max_height m < Z.of_nat fuel) (Hsize : (size m <= fuel)%nat) (Hsmall : Z.of_nat (size m) < 2 ^ 62) (Hhigh : max_height m < 2 ^ 62).

(** ** Moving siblings *)

Lemma apply_propagate_ok iv sizes b off (f : op) i : b ∈ dom m -> cache_ok m sizes -> f (iv b) off = Done i -> good i -> sz m b <= isz i ->
  exists iv' sizes', apply_interval_op_and_propagate powf fuel (mk_ctx (build m iv fc r) sizes) b off f = Done (mk_ctx (build m iv' fc r) sizes') /\
    cache_ok m sizes' /\ iv' b = i /\ (forall x, ~ tanc m b x -> iv' x = iv x) /\ fits m iv' b.
Proof.
  intros Hb Hca Hf Hg Hs. unfold apply_interval_op_and_propagate, apply_interval_op. cbn [cstore subtree_sizes].
  rstep (get_interval_ok m iv fc r b Hb). rstep Hf. rstep (set_interval_ok m iv fc r b Hb i).
  destruct (propagate_interval_ok powf m o SH fc r (upd iv b i) b Hb ltac:(lia) fuel sizes Hca ltac:(lia) Hsize) as (iv' & S' & E & Hca' & Hx & Hfit);
    [by rewrite upd_at|by rewrite upd_at|].
  exists iv', S'. split_and!; [done|done| | |done].
  - rewrite Hx by done. apply upd_at.
  - intros x Hbx. rewrite Hx by done. apply upd_ne. intros ->. by apply Hbx, tanc_refl.
Qed.

Lemma apply_op_ok iv sizes b off (f : op) i : b ∈ dom m -> f (iv b) off = Done i ->
  apply_interval_op (mk_ctx (build m iv fc r) sizes) b off f = Done (mk_ctx (build m (upd iv b i) fc r) sizes).
Proof.
  intros Hb Hf. unfold apply_interval_op. cbn [cstore subtree_sizes].
  rstep (get_interval_ok m iv fc r b Hb). rstep Hf. rstep (set_interval_ok m iv fc r b Hb i). done.
Qed.

(** Blocks none of which is below another *)
Definition apart (l : list Hash) : Prop := NoDup l /\ (forall a b, a ∈ l -> b ∈ l -> tanc m a b -> a = b) /\ forall b, b ∈ l -> b ∈ dom m.

Lemma apart_cons b l : apart (b :: l) -> apart l /\ b ∈ dom m /\ (forall c, c ∈ l -> ~ tanc m b c /\ ~ tanc m c b).
Proof.
  intros (Hnd & Ha & Hd). apply NoDup_cons in Hnd as [Hb Hnd]. split_and!; [split_and!; [done| |]| |].
  - intros a c Hin Hin'. apply Ha; by right.
  - intros c Hc. apply Hd. by right.
  - apply Hd. by left.
  - intros c Hc. split; intros Ht; apply Hb.
    + rewrite (Ha b c); [done|by left|by right|done].
    + rewrite <- (Ha c b); [done|by right|by left|done].
Qed.

Lemma siblings_apart p l : (forall x, x ∈ l -> x ∈ K m p) -> NoDup l -> apart l.
Proof.
  intros Hl Hnd. split_and!; [done| |].
  - intros a b Ha Hb Ht. apply (kids_apart m o SH p a b b); [by apply Hl..|done|apply tanc_refl].
  - intros b Hb. by destruct (kid_dom m o SH p b (Hl b Hb)).
Qed.

Lemma apart_sub l l' : apart l' -> (forall x, x ∈ l -> x ∈ l') -> NoDup l -> apart l.
Proof. intros (_ & Ha & Hd) Hl Hnd. split_and!; [done|intros a b Hin Hin'; by apply Ha; apply Hl|intros b Hb; by apply Hd, Hl]. Qed.

(** What setting intervals of blocks and propagating them does *)
Definition placed (iv iv' tgt : Hash -> Interval) (l : list Hash) : Prop :=
  (forall b, b ∈ l -> iv' b = tgt b /\ fits m iv' b) /\ (forall x, (forall b, b ∈ l -> ~ tanc m b x) -> iv' x = iv x).

Lemma placed_nil iv tgt : placed iv iv tgt [].
Proof. split; [intros b Hb; by apply elem_of_nil in Hb|done]. Qed.

Lemma placed_cons iv iv1 iv2 tgt b l : apart (b :: l) -> iv1 b = tgt b -> fits m iv1 b -> (forall x, ~ tanc m b x -> iv1 x = iv x) -> placed iv1 iv2 tgt l ->
  placed iv iv2 tgt (b :: l).
Proof.
  intros Ha Hb Hf Hx [H1 H2]. apply apart_cons in Ha as (Hl & Hd & Hbl).
  assert (Hkeep : forall x, tanc m b x -> iv2 x = iv1 x).
  { intros x Hbx. apply H2. intros c Hc Hcx. destruct (tanc_linear m o SH b c x Hbx Hcx); by destruct (Hbl c Hc). }
  split.
  - intros c [->|Hc]%elem_of_cons; [|by apply H1]. split; [rewrite Hkeep by apply tanc_refl; done|]. by apply (fits_ext m iv1).
  - intros x Hxl. rewrite H2 by (intros c Hc; apply Hxl; by right). apply Hx, Hxl. by left.
Qed.

Lemma placed_app iv iv1 iv2 tgt l1 l2 : apart (l1 ++ l2) -> placed iv iv1 tgt l1 -> placed iv1 iv2 tgt l2 -> placed iv iv2 tgt (l1 ++ l2).
Proof.
  intros (Hnd & Ha & Hd) [H1 H2] [H3 H4]. apply NoDup_app in Hnd as (_ & Hdis & _).
  assert (Hkeep : forall b x, b ∈ l1 -> tanc m b x -> iv2 x = iv1 x).
  { intros b x Hb Hbx. apply H4. intros c Hc Hcx. apply (Hdis b Hb).
    destruct (tanc_linear m o SH b c x Hbx Hcx) as [Ht|Ht]; [rewrite (Ha b c); [done|..]|rewrite <- (Ha c b); [done|..]]; (apply elem_of_app; auto) || done. }
  split.
  - intros b [Hb|Hb]%elem_of_app; [|by apply H3]. destruct (H1 b Hb) as [E F]. split; [rewrite (Hkeep b b Hb) by apply tanc_refl; done|].
    apply (fits_ext m iv1); [|done]. intros x. by apply Hkeep.
  - intros x Hx. rewrite H4 by (intros b Hb; apply Hx, elem_of_app; by right). apply H2. intros b Hb. apply Hx, elem_of_app. by left.
Qed.

(** The loop over siblings that all move, and then others *)
Lemma offset_moves A mv gr off tgt l : forall iv sizes rest, apart l -> A ∉ l -> cache_ok m sizes ->
  (forall b, b ∈ l -> mv (iv b) off = Done (tgt b) /\ good (tgt b) /\ sz m b <= isz (tgt b)) ->
  exists iv' sizes', offset_loop powf fuel A mv gr off (l ++ rest) (mk_ctx (build m iv fc r) sizes) =
      offset_loop powf fuel A mv gr off rest (mk_ctx (build m iv' fc r) sizes') /\ cache_ok m sizes' /\ placed iv iv' tgt l.
Proof.
  induction l as [|b l IH]; intros iv sizes rest Hap HA Hca Hl; [exists iv, sizes; split_and!; [done|done|apply placed_nil]|].
  destruct (apart_cons b l Hap) as (Hal & Hd & Hbl). destruct (Hl b ltac:(left)) as (Hm & Hg & Hs). cbn [app offset_loop].
  rewrite bool_decide_eq_false_2 by (intros ->; apply HA; by left).
  destruct (apply_propagate_ok iv sizes b off mv (tgt b) Hd Hca Hm Hg Hs) as (iv1 & S1 & E & Hca1 & Hb1 & Hx1 & Hf1). rstep E.
  destruct (IH iv1 S1 rest Hal ltac:(intros ?; apply HA; by right) Hca1) as (iv2 & S2 & E2 & Hca2 & Hpl).
  { intros c Hc. rewrite Hx1 by (by apply Hbl). apply Hl. by right. }
  exists iv2, S2. split_and!; [done|done|]. by apply (placed_cons iv iv1).
Qed.

Lemma offset_all A mv gr off tgt l iv sizes : apart l -> A ∉ l -> cache_ok m sizes ->
  (forall b, b ∈ l -> mv (iv b) off = Done (tgt b) /\ good (tgt b) /\ sz m b <= isz (tgt b)) ->
  exists iv' sizes', offset_loop powf fuel A mv gr off l (mk_ctx (build m iv fc r) sizes) = Done (mk_ctx (build m iv' fc r) sizes') /\
    cache_ok m sizes' /\ placed iv iv' tgt l.
Proof.
  intros Hap HA Hca Hl. destruct (offset_moves A mv gr off tgt l iv sizes [] Hap HA Hca Hl) as (iv' & S' & E & ? & ?).
  rewrite app_nil_r in E. by exists iv', S'.
Qed.

Lemma offset_until A mv gr off tgt l l' iv sizes : apart (l ++ [A]) -> cache_ok m sizes ->
  (forall b, b ∈ l -> mv (iv b) off = Done (tgt b) /\ good (tgt b) /\ sz m b <= isz (tgt b)) ->
  gr (iv A) off = Done (tgt A) -> good (tgt A) -> sz m A <= isz (tgt A) ->
  exists iv' sizes', offset_loop powf fuel A mv gr off (l ++ A :: l') (mk_ctx (build m iv fc r) sizes) = Done (mk_ctx (build m iv' fc r) sizes') /\
    cache_ok m sizes' /\ placed iv iv' tgt (l ++ [A]).
Proof.
  intros Hap Hca Hl HgA HgoodA HsA. pose proof Hap as (Hnd & Han & Hd).
  assert (HA : A ∉ l) by (apply NoDup_app in Hnd as (_ & Hdis & _); intros HA; apply (Hdis A HA); by left).
  assert (Hal : apart l) by (apply (apart_sub l _ Hap); [intros x Hx; apply elem_of_app; by left|by apply NoDup_app in Hnd as (? & _ & _)]).
  destruct (offset_moves A mv gr off tgt l iv sizes (A :: l') Hal HA Hca Hl) as (iv1 & S1 & E & Hca1 & Hpl). rewrite E. cbn [offset_loop].
  rewrite bool_decide_eq_true_2 by done.
  assert (HiA : iv1 A = iv A).
  { apply Hpl. intros b Hb Ht. apply HA. rewrite <- (Han b A); [done|apply elem_of_app; by left|apply elem_of_app; right; by left|done]. }
  destruct (apply_propagate_ok iv1 S1 A off gr (tgt A) ltac:(apply Hd, elem_of_app; right; by left) Hca1 ltac:(by rewrite HiA) HgoodA HsA) as (iv2 & S2 & E2 & Hca2 & HA2 & Hx2 & Hf2).
  exists iv2, S2. split_and!; [done|done|]. apply (placed_app iv iv1); [done|done|].
  apply (placed_cons iv1 iv2); [|done|done|done|apply placed_nil].
  apply (apart_sub _ _ Hap); [|apply NoDup_singleton]. intros x Hx. apply elem_of_app. by right.
Qed.

(** ** A hop *)

Lemma chained_shift iv tgt need l k : forall lo hi, chained iv need lo l hi -> (forall b, b ∈ l -> tgt b = mk_interval (start (iv b) + k) (iend (iv b) + k)) ->
  chained tgt need (lo + k) l (hi + k).
Proof.
  induction l as [|b l IH]; intros lo hi Hc Hl; cbn [chained] in *; [lia|]. destruct Hc as (? & Hs & Hc). rewrite (Hl b) by left. unfold isz in *. cbn [start iend].
  split_and!; [lia|lia|]. replace (iend (iv b) + k + 1) with (iend (iv b) + 1 + k) by lia. apply IH; [done|]. intros c Hc'. apply Hl. by right.
Qed.

Lemma split_children_ok l1 v l2 : NoDup (l1 ++ v :: l2) -> split_children (l1 ++ v :: l2) v = Done (l1, l2).
Proof.
  induction l1 as [|c l1 IH]; intros Hnd; cbn [app split_children]; [by rewrite bool_decide_eq_true_2|].
  apply NoDup_cons in Hnd as [Hc Hnd]. rewrite bool_decide_eq_false_2 by (intros ->; apply Hc, elem_of_app; right; by left).
  by rewrite (IH Hnd).
Qed.

Section Side.
(** Whether the blocks in front of the chain move, or those behind it *)
Context (before : bool).

Definition shr (i : Interval) (off : Z) : Interval := if before then mk_interval (start i + off) (iend i) else mk_interval (start i) (iend i - off).
Definition mov (i : Interval) (off : Z) : Interval :=
  if before then mk_interval (start i + off) (iend i + off) else mk_interval (start i - off) (iend i - off).
Definition gro (i : Interval) (off : Z) : Interval := if before then mk_interval (start i) (iend i + off) else mk_interval (start i - off) (iend i).
Definition shr_op : op := if before then increase_start else decrease_end.
Definition mov_op : op := if before then increase else decrease.
Definition gro_op : op := if before then increase_end else decrease_start.

Lemma shr_ok i off : good (shr i off) -> shr_op i off = Done (shr i off).
Proof.
  unfold shr, shr_op, good. destruct before; cbn [start iend]; intros (? & ? & ?); unfold increase_start, decrease_end.
  - rstep (chk_ok (start i + off) ltac:(lia)). done.
  - rstep (chk_ok (iend i - off) ltac:(lia)). done.
Qed.
Lemma mov_ok i off : good (mov i off) -> mov_op i off = Done (mov i off).
Proof.
  unfold mov, mov_op, good. destruct before; cbn [start iend]; intros (? & ? & ?); unfold increase, decrease.
  - rstep (chk_ok (start i + off) ltac:(lia)). rstep (chk_ok (iend i + off) ltac:(lia)). done.
  - rstep (chk_ok (start i - off) ltac:(lia)). rstep (chk_ok (iend i - off) ltac:(lia)). done.
Qed.
Lemma gro_ok i off : good (gro i off) -> gro_op i off = Done (gro i off).
Proof.
  unfold gro, gro_op, good. destruct before; cbn [start iend]; intros (? & ? & ?); unfold increase_end, decrease_start.
  - rstep (chk_ok (iend i + off) ltac:(lia)). done.
  - rstep (chk_ok (start i - off) ltac:(lia)). done.
Qed.

Lemma isz_mov i off : isz (mov i off) = isz i.
Proof. unfold mov, isz. destruct before; cbn; lia. Qed.
Lemma isz_gro i off : isz (gro i off) = isz i + off.
Proof. unfold gro, isz. destruct before; cbn; lia. Qed.
Lemma isz_shr i off : isz (shr i off) = isz i - off.
Proof. unfold shr, isz. destruct before; cbn; lia. Qed.

Definition remaining : rstore -> Hash -> R Interval := if before then interval_remaining_before else interval_remaining_after.
Definition offset_siblings : ctx -> Hash -> Hash -> Z -> R ctx := if before then offset_siblings_before powf fuel else offset_siblings_after powf fuel.

(** The free space of a block on this side *)
Definition rem (iv : Hash -> Interval) (p : Hash) : Z :=
  if before then (match head (K m p) with Some c => start (iv c) | None => iend (iv p) end) - start (iv p)
  else iend (iv p) - 1 - match last (K m p) with Some c => iend (iv c) | None => start (iv p) - 1 end.

Lemma remaining_ok iv p need : p ∈ dom m -> good (iv p) -> K m p <> [] -> (forall c, 0 <= need c) -> chained iv need (start (iv p)) (K m p) (iend (iv p) - 1) ->
  0 <= rem iv p /\ exists i, remaining (build m iv fc r) p = Done i /\ isize i = Done (rem iv p).
Proof.
  intros Hp (Hg1 & Hg2 & Hg3) Hk Hneed Hc. pose proof (chained_bounds iv need Hneed _ _ _ Hc) as Hb. unfold remaining, rem.
  assert (Hcap : interval_children_capacity (build m iv fc r) p = Done (mk_interval (start (iv p)) (iend (iv p) - 1))).
  { unfold interval_children_capacity. rstep (get_interval_ok m iv fc r p Hp). apply decrease_end_ok; [done|lia]. }
  destruct before.
  - destruct (K m p) as [|c l] eqn:E; [done|]. destruct (kid_dom m o SH p c ltac:(rewrite E; left)) as [_ Hcd].
    destruct (chained_elem iv need Hneed _ _ _ c Hc ltac:(left)) as (H1 & H2 & H3). specialize (Hneed c). unfold isz in H2. cbn [head].
    split; [lia|]. unfold interval_remaining_before. rstep Hcap. rstep (get_children_ok m iv fc r p Hp). rewrite E. cbn [head].
    rstep (get_interval_ok m iv fc r c Hcd). rstep (chk_ok (start (iv c) - 1) ltac:(lia)). eexists. split; [done|].
    rewrite isize_ok by (unfold good; cbn; lia). unfold isz. cbn. f_equal. lia.
  - destruct (last (K m p)) as [c|] eqn:E; [|by apply last_None in E]. apply last_Some in E as [l E].
    assert (Hck : c ∈ K m p) by (rewrite E; apply elem_of_app; right; by left). destruct (kid_dom m o SH p c Hck) as [_ Hcd].
    destruct (chained_elem iv need Hneed _ _ _ c Hc Hck) as (H1 & H2 & H3). specialize (Hneed c). unfold isz in H2.
    split; [lia|]. unfold interval_remaining_after. rstep Hcap. rstep (get_children_ok m iv fc r p Hp). rewrite E, last_snoc.
    rstep (get_interval_ok m iv fc r c Hcd). rstep (chk_ok (iend (iv c) + 1) ltac:(lia)). eexists. split; [done|]. cbn [iend].
    rewrite isize_ok by (unfold good; cbn; lia). unfold isz. cbn. f_equal. lia.
Qed.

(** A block can give up its free space. *)
Lemma shr_fits iv v off : fits m iv v -> K m v <> [] -> 0 <= off <= rem iv v -> fits m (upd iv v (shr (iv v) off)) v.
Proof.
  intros Hf Hk Hoff x Hx. destruct (decide (x = v)) as [->|Hne].
  - pose proof (fits_here m iv v Hf) as Hok. unfold ok_at in *. rewrite upd_at.
    apply (chained_ext iv); [intros c Hc; apply upd_ne; intros ->; by apply (kid_not_above m o SH v v Hc), tanc_refl|].
    unfold rem, shr in *. destruct before; cbn [start iend].
    + destruct (K m v) as [|c l]; [done|]. cbn [head chained] in *. destruct Hok as (? & ? & ?). split_and!; [lia|done|done].
    + destruct (last (K m v)) as [c|] eqn:E; [|by apply last_None in E]. apply last_Some in E as [l E]. rewrite E in Hok |- *.
      apply chained_app in Hok as (md & H1 & H2). apply chained_app. exists md. split; [done|]. cbn [chained] in *. destruct H2 as (? & ? & ?). split_and!; [done|done|lia].
  - apply (ok_at_ext m iv); [by apply upd_ne| |by apply Hf]. intros c Hc. apply upd_ne. intros ->.
    apply (kid_not_above m o SH x v Hc). done.
Qed.

Definition zero : Hash -> Z := fun _ => 0.

Lemma chained_strengthen iv need need' l : forall lo hi, chained iv need lo l hi -> (forall c, c ∈ l -> need' c <= isz (iv c)) -> chained iv need' lo l hi.
Proof.
  induction l as [|c l IH]; intros lo hi Hc Hl; cbn [chained] in *; [done|]. destruct Hc as (? & ? & Hc). split_and!; [done|apply Hl; by left|].
  apply IH; [done|]. intros d Hd. apply Hl. by right.
Qed.

(** Room moves past the blocks of a list up to [v]. *)
Lemma chain_mid iv tgt lo hi l1 v l2 off : chained iv zero lo (l1 ++ v :: l2) hi -> tgt v = shr (iv v) off -> 0 <= isz (tgt v) -> 0 <= off ->
  (forall b, b ∈ l1 -> tgt b = if before then mov (iv b) off else iv b) -> (forall b, b ∈ l2 -> tgt b = if before then iv b else mov (iv b) off) ->
  chained tgt zero (lo + if before then off else 0) (l1 ++ v :: l2) (hi - if before then 0 else off).
Proof.
  intros (md & H1 & H2)%chained_app Hv Hs Hoff Hl1 Hl2. cbn [chained] in H2. destruct H2 as (Hm & _ & H2). apply chained_app.
  unfold shr, mov in *. destruct before.
  - exists (md + off). split; [replace (md + off - 1) with (md - 1 + off) by lia; by apply (chained_shift iv)|]. cbn [chained].
    split_and!; [rewrite Hv; cbn; lia|done|]. apply (chained_ext iv); [done|]. rewrite Hv. cbn [iend]. by rewrite Z.sub_0_r.
  - exists md. split; [rewrite Z.add_0_r; by apply (chained_ext iv)|]. cbn [chained]. split_and!; [rewrite Hv; cbn; lia|done|].
    rewrite Hv. cbn [iend]. replace (iend (iv v) - off + 1) with (iend (iv v) + 1 + - off) by lia. replace (hi - off) with (hi + - off) by lia.
    by apply (chained_shift iv).
Qed.

(** Room reaches the block [A] in front of or behind [v]. *)
Lemma chain_end iv tgt lo hi l1 v l2 A k1 k2 off : chained iv zero lo (l1 ++ v :: l2) hi -> tgt v = shr (iv v) off -> 0 <= isz (tgt v) -> 0 <= off ->
  (if before then l1 else l2) = k1 ++ A :: k2 -> tgt A = gro (iv A) off ->
  (forall b, b ∈ (if before then l2 else l1) -> tgt b = iv b) ->
  (forall b, b ∈ k1 -> tgt b = if before then iv b else mov (iv b) off) -> (forall b, b ∈ k2 -> tgt b = if before then mov (iv b) off else iv b) ->
  0 <= isz (iv A) -> chained tgt zero lo (l1 ++ v :: l2) hi.
Proof.
  intros Hc Hv Hs Hoff E HA Hother Hk1 Hk2 HsA. pose proof chain_mid as CM. unfold zero, gro, mov in *. destruct before.
  - subst l1. rewrite <- app_assoc in Hc |- *. cbn [app] in Hc |- *. apply chained_app in Hc as (md & H1 & H2). apply chained_app. exists md.
    cbn [chained] in H2 |- *. destruct H2 as (Hm & _ & H2). split; [by apply (chained_ext iv)|].
    pose proof (CM iv tgt _ _ k2 v l2 off H2 Hv Hs Hoff Hk2 Hother) as H3. rewrite HA. unfold isz in *. cbn [start iend]. split_and!; [lia|lia|].
    eapply chained_mono; [..|exact H3]; lia.
  - subst l2. replace (l1 ++ v :: k1 ++ A :: k2) with ((l1 ++ v :: k1) ++ A :: k2) in * by (by rewrite <- app_assoc).
    apply chained_app in Hc as (md & H1 & H2). apply chained_app. exists (md - off).
    cbn [chained] in H2 |- *. destruct H2 as (Hm & _ & H2).
    pose proof (CM iv tgt _ _ l1 v k1 off H1 Hv Hs Hoff Hother Hk1) as H3. rewrite HA. unfold isz in *. cbn [start iend]. split.
    + eapply chained_mono; [..|exact H3]; lia.
    + split_and!; [lia|lia|]. by apply (chained_ext iv).
Qed.

Section Hop.
Context (iv iv1 : Hash -> Interval) (sizes : gmap Hash Z) (A v p : Hash) (l1 l2 : list Hash) (off : Z).
Context (Hca : cache_ok m sizes) (HK : K m p = l1 ++ v :: l2) (Hoff : 0 <= off) (Hg : good (iv p)).
Context (Hv1 : iv1 v = shr (iv v) off) (Hf1 : fits m iv1 v) (Hx1 : forall x, ~ tanc m v x -> iv1 x = iv x).

Lemma hop_kid : v ∈ K m p.
Proof. rewrite HK. apply elem_of_app. right. by left. Qed.

Lemma hop_siblings s : offset_siblings (mk_ctx (build m iv1 fc r) s) A v off =
  offset_loop powf fuel A mov_op gro_op off (if before then rev l1 else l2) (mk_ctx (build m iv1 fc r) s).
Proof.
  pose proof hop_kid as Hk. destruct (kid_dom m o SH p v Hk) as [Hp Hv]. destruct (sh_kid m o SH p v Hk) as (_ & HP & _).
  pose proof (sh_nodup m o SH p) as Hnd. rewrite HK in Hnd. unfold offset_siblings, offset_siblings_before, offset_siblings_after, mov_op, gro_op.
  destruct before; cbn [cstore]; rstep (get_parent_ok m iv1 fc r v Hv); rewrite HP; rstep (get_children_ok m iv1 fc r p Hp); rewrite HK; rstep (split_children_ok l1 v l2 Hnd); done.
Qed.

(** The blocks that move, all of [moved], and where the children end up *)
Lemma hop_fits tgt moved iv2 : (forall b, b ∈ moved -> b ∈ l1 \/ b ∈ l2) -> placed iv1 iv2 tgt moved -> tgt v = shr (iv v) off ->
  (forall b, b ∈ K m p -> b <> v -> b ∉ moved -> tgt b = iv b /\ fits m iv b) -> chained tgt (fun _ => 1) (start (iv p)) (K m p) (iend (iv p) - 1) ->
  fits m iv2 p /\ (forall b, b ∈ K m p -> iv2 b = tgt b) /\ (forall x, tanc m v x -> iv2 x = iv1 x) /\ (forall x, (tanc m p x -> x = p) -> iv2 x = iv x).
Proof.
  intros Hmv [Hp1 Hp2] Htv Hst Hc. pose proof hop_kid as Hk. pose proof (sh_nodup m o SH p) as Hnd.
  assert (Hmk : forall b, b ∈ moved -> b ∈ K m p /\ b <> v).
  { intros b Hb. rewrite HK in Hnd |- *. apply NoDup_app in Hnd as (_ & Hd & [Hv _]%NoDup_cons). destruct (Hmv b Hb) as [Hb'|Hb'].
    - split; [apply elem_of_app; by left|]. intros ->. apply (Hd v Hb'). by left.
    - split; [apply elem_of_app; right; by right|]. by intros ->. }
  assert (Hsep : forall b c x, b ∈ K m p -> c ∈ K m p -> tanc m b x -> tanc m c x -> b = c) by (intros b c x; apply (kids_apart m o SH)).
  assert (Hvx : forall x, tanc m v x -> iv2 x = iv1 x).
  { intros x Hx. apply Hp2. intros b Hb Hbx. destruct (Hmk b Hb) as [Hbk Hne]. apply Hne. by apply (Hsep b v x). }
  assert (Hout : forall x, (forall c, c ∈ K m p -> ~ tanc m c x) -> iv2 x = iv x).
  { intros x Hx. rewrite Hp2 by (intros b Hb; by apply Hx, Hmk). by apply Hx1, Hx. }
  assert (Hrest : forall b x, b ∈ K m p -> b <> v -> b ∉ moved -> tanc m b x -> iv2 x = iv x).
  { intros b x Hb Hne Hbm Hbx. rewrite Hp2 by (intros c Hc' Hcx; apply Hbm; rewrite (Hsep b c x); [done|done|by apply Hmk|done|done]).
    apply Hx1. intros Hvx'. apply Hne. by apply (Hsep b v x). }
  assert (Hkids : forall b, b ∈ K m p -> iv2 b = tgt b /\ fits m iv2 b).
  { intros b Hb. destruct (decide (b = v)) as [->|Hne].
    - split; [rewrite (Hvx v (tanc_refl m v)), Hv1, Htv; done|by apply (fits_ext m iv1)].
    - destruct (decide (b ∈ moved)) as [Hbm|Hbm]; [by apply Hp1|]. destruct (Hst b Hb Hne Hbm) as [Ht Hf].
      split; [rewrite (Hrest b b Hb Hne Hbm (tanc_refl m b)), Ht; done|]. apply (fits_ext m iv); [|done]. intros x. by apply (Hrest b). }
  assert (Hp : iv2 p = iv p) by (apply Hout; intros c Hc' Ht; by apply (kid_not_above m o SH p c)).
  split_and!; [|by apply Hkids|done|].
  - apply fits_intro; [|intros c Hc'; by apply Hkids]. unfold ok_at. rewrite Hp. apply (chained_ext tgt); [|done]. intros c Hc'. by apply Hkids.
  - intros x Hx. apply Hout. intros c Hc' Ht. assert (x = p) as -> by (apply Hx; eapply tanc_trans; [by apply tanc_kid|done]).
    by apply (kid_not_above m o SH p c).
Qed.

Definition side : list Hash := if before then rev l1 else l2.

Lemma side_in b : b ∈ side <-> b ∈ (if before then l1 else l2).
Proof. unfold side. destruct before; [|done]. by rewrite !list_elem_of_In, <- in_rev. Qed.

Lemma good_target tgt b : chained tgt zero (start (iv p)) (K m p) (iend (iv p) - 1) -> b ∈ K m p -> good (tgt b).
Proof.
  intros Hc Hb. destruct (chained_elem tgt zero (fun _ => Z.le_refl 0) _ _ _ b Hc Hb) as (? & Hs & ?). unfold zero, isz in Hs.
  destruct Hg as (? & ? & ?). unfold good. lia.
Qed.

Lemma sibling_same b : b ∈ K m p -> b <> v -> iv1 b = iv b.
Proof.
  intros Hb Hne. apply Hx1. intros Ht. apply Hne. symmetry. apply (kids_apart m o SH p v b b); [apply hop_kid|done|done|apply tanc_refl].
Qed.

Lemma shr_size : 1 <= isz (shr (iv v) off).
Proof. pose proof (ok_nonempty m iv1 v (fits_here m iv1 v Hf1)) as Hn. rewrite Hv1 in Hn. unfold isz. lia. Qed.

Lemma fits_sizes b : fits m iv b -> sz m b <= isz (iv b).
Proof. intros Hb. pose proof (fits_room m o SH iv b Hb). unfold room in *. lia. Qed.

(** Above the block that gets the space: everything on the side moves. *)
Lemma hop_mid : A ∉ K m p -> ok_at m iv p -> (forall b, b ∈ K m p -> b <> v -> fits m iv b) ->
  exists iv2 sizes', offset_siblings (mk_ctx (build m iv1 fc r) sizes) A v off = Done (mk_ctx (build m iv2 fc r) sizes') /\ cache_ok m sizes' /\
    fits m iv2 p /\ rem iv2 p = rem iv p + off /\ (forall x, tanc m v x -> iv2 x = iv1 x) /\ (forall x, (tanc m p x -> x = p) -> iv2 x = iv x).
Proof.
  intros HA Hok Hfit. pose proof (sh_nodup m o SH p) as Hnd. pose proof Hnd as Hnd'. rewrite HK in Hnd'.
  assert (Hside : forall b, b ∈ side -> b ∈ K m p /\ b <> v).
  { intros b Hb%side_in. rewrite HK. apply NoDup_app in Hnd' as (_ & Hd & [Hv _]%NoDup_cons). destruct before.
    - split; [apply elem_of_app; by left|]. intros ->. apply (Hd v Hb). by left.
    - split; [apply elem_of_app; right; by right|]. by intros ->. }
  set (tgt := fun b => if decide (b = v) then shr (iv v) off else if decide (b ∈ side) then mov (iv b) off else iv b).
  assert (Htv : tgt v = shr (iv v) off) by (unfold tgt; by rewrite decide_True).
  assert (Hts : forall b, b ∈ side -> tgt b = mov (iv b) off) by (intros b Hb; unfold tgt; rewrite decide_False by (by apply Hside); by rewrite decide_True).
  assert (Hto : forall b, b <> v -> b ∉ side -> tgt b = iv b) by (intros b Hb Hb'; unfold tgt; by rewrite !decide_False).
  assert (Hc : chained tgt zero (start (iv p)) (K m p) (iend (iv p) - 1)).
  { pose proof shr_size. eapply chained_mono; [| |rewrite HK; apply (chain_mid iv); [rewrite <- HK; eapply chained_weaken; [|exact Hok]; done|done|rewrite Htv; lia|done| |]].
    - destruct before; lia.
    - destruct before; lia.
    - intros b Hb. destruct before eqn:Eb; [apply Hts, side_in; by rewrite Eb|]. apply Hto.
      + intros ->. apply NoDup_app in Hnd' as (_ & Hd & _). apply (Hd v Hb). by left.
      + rewrite side_in, Eb. intros Hb'. apply NoDup_app in Hnd' as (_ & Hd & _). apply (Hd b Hb). by right.
    - intros b Hb. destruct before eqn:Eb; [|apply Hts, side_in; by rewrite Eb]. apply Hto.
      + intros ->. by apply NoDup_app in Hnd' as (_ & _ & [? _]%NoDup_cons).
      + rewrite side_in, Eb. intros Hb'. apply NoDup_app in Hnd' as (_ & Hd & _). apply (Hd b Hb'). by right. }
  assert (Hc1 : chained tgt (fun _ => 1) (start (iv p)) (K m p) (iend (iv p) - 1)).
  { apply (chained_strengthen tgt zero); [done|]. intros b Hb. destruct (decide (b = v)) as [->|Hne]; [rewrite Htv; apply shr_size|].
    pose proof (fits_sizes b (Hfit b Hb Hne)). pose proof (sz_pos m o SH b). destruct (decide (b ∈ side)) as [Hbs|Hbs]; [rewrite Hts, isz_mov by done|rewrite Hto by done]; lia. }
  assert (Hnds : NoDup side) by (unfold side; apply NoDup_app in Hnd' as (? & _ & [_ ?]%NoDup_cons); destruct before; [by apply NoDup_ListNoDup, List.NoDup_rev, NoDup_ListNoDup|done]).
  destruct (offset_all A mov_op gro_op off tgt side iv1 sizes) as (iv2 & S2 & E & Hca2 & Hpl).
  { apply (siblings_apart p); [apply Hside|done]. } { intros HAs. by apply HA, Hside. } { done. }
  { intros b Hb. destruct (Hside b Hb) as [Hbk Hne]. rewrite sibling_same by done. rewrite (Hts b Hb).
    pose proof (good_target tgt b Hc Hbk) as Hgb. rewrite (Hts b Hb) in Hgb. split_and!; [by apply mov_ok|done|]. rewrite isz_mov. by apply fits_sizes, Hfit. }
  destruct (hop_fits tgt side iv2) as (Hf2 & Hk2 & Hv2 & Ho2); [intros b Hb%side_in; destruct before; auto|done|done|intros b Hb Hne Hbs; split; [by apply Hto|by apply Hfit]|done|].
  exists iv2, S2. rewrite hop_siblings. split_and!; [done|done|done| |done|done].
  unfold rem. rewrite (Ho2 p) by done.
  assert (Hsame : forall b, b ∈ K m p -> b <> v -> b ∉ side -> iv2 b = iv b) by (intros b Hb Hne Hbs; rewrite Hk2 by done; by apply Hto).
  pose proof (Hk2 v hop_kid) as Ev. rewrite Htv in Ev. assert (Em : forall b, b ∈ side -> iv2 b = mov (iv b) off) by (intros b Hb; rewrite Hk2 by (by apply Hside); by apply Hts).
  unfold shr, mov in Ev, Em. pose proof side_in as Hsi. destruct before.
  - rewrite HK. destruct l1 as [|c l]; cbn [app head]; [rewrite Ev; cbn; lia|]. rewrite (Em c) by (apply Hsi; left). cbn. lia.
  - rewrite HK. destruct l2 as [|c l _] using rev_ind; [rewrite last_snoc, Ev; cbn; lia|].
    rewrite app_comm_cons, app_assoc, last_snoc. rewrite (Em c) by (apply Hsi, elem_of_app; right; by left). cbn. lia.
Qed.

(** Where the block that gets the space is: the blocks up to it move. *)
Lemma hop_end : A ∈ side -> 0 <= isz (iv A) -> chained iv zero (start (iv p)) (K m p) (iend (iv p) - 1) ->
  (forall b, b ∈ K m p -> b <> v -> b <> A -> fits m iv b) -> sz m A <= isz (iv A) + off ->
  exists iv2 sizes', offset_siblings (mk_ctx (build m iv1 fc r) sizes) A v off = Done (mk_ctx (build m iv2 fc r) sizes') /\ cache_ok m sizes' /\
    fits m iv2 p /\ (forall x, tanc m v x -> iv2 x = iv1 x) /\ (forall x, (tanc m p x -> x = p) -> iv2 x = iv x).
Proof.
  intros HA HsA Hch Hfit Hneed. pose proof (sh_nodup m o SH p) as Hnd. rewrite HK in Hnd. apply side_in, list_elem_of_split in HA as (k1 & k2 & Ek).
  apply NoDup_app in Hnd as (Hn1 & Hd & [Hv2 Hn2]%NoDup_cons).
  assert (Hnk : NoDup (k1 ++ A :: k2)) by (rewrite <- Ek; by destruct before).
  assert (Hsk : forall b, b ∈ k1 ++ A :: k2 -> b ∈ K m p /\ b <> v).
  { intros b. rewrite <- Ek, HK. intros Hb. destruct before.
    - split; [apply elem_of_app; by left|]. intros ->. apply (Hd v Hb). by left.
    - split; [apply elem_of_app; right; by right|]. by intros ->. }
  apply NoDup_app in Hnk as (Hnk1 & Hkd & [HAk Hnk2]%NoDup_cons).
  set (lm := if before then rev k2 else k1). assert (Hlm : forall b, b ∈ lm <-> b ∈ (if before then k2 else k1)).
  { intros b. unfold lm. destruct before; [|done]. by rewrite !list_elem_of_In, <- in_rev. }
  assert (Hlmk : forall b, b ∈ lm -> b ∈ K m p /\ b <> v /\ b <> A).
  { intros b Hb%Hlm. destruct (Hsk b) as [? ?]; [apply elem_of_app; destruct before; [right; by right|by left]|]. split_and!; [done..|].
    intros ->. destruct before; [done|]. apply (Hkd A Hb). by left. }
  assert (HAkp : A ∈ K m p /\ A <> v) by (apply Hsk, elem_of_app; right; by left).
  set (tgt := fun b => if decide (b = v) then shr (iv v) off else if decide (b = A) then gro (iv A) off else if decide (b ∈ lm) then mov (iv b) off else iv b).
  assert (Htv : tgt v = shr (iv v) off) by (unfold tgt; by rewrite decide_True).
  assert (HtA : tgt A = gro (iv A) off) by (unfold tgt; rewrite decide_False by apply HAkp; by rewrite decide_True).
  assert (Htm : forall b, b ∈ lm -> tgt b = mov (iv b) off).
  { intros b Hb. destruct (Hlmk b Hb) as (_ & ? & ?). unfold tgt. rewrite !(decide_False (P := b = _)) by done. by rewrite decide_True. }
  assert (Hto : forall b, b <> v -> b <> A -> b ∉ lm -> tgt b = iv b) by (intros b Hb Hb' Hb''; unfold tgt; by rewrite !decide_False).
  assert (Hc : chained tgt zero (start (iv p)) (K m p) (iend (iv p) - 1)).
  { pose proof shr_size. rewrite HK in Hch |- *. apply (chain_end iv tgt _ _ l1 v l2 A k1 k2 off); [done|done|rewrite Htv; lia|done|done|done| | | |done].
    - intros b Hb. apply Hto.
      + intros ->. destruct before; [done|]. apply (Hd v Hb). by left.
      + intros ->. assert (HA' : A ∈ (if before then l1 else l2)) by (rewrite Ek; apply elem_of_app; right; by left). destruct before; [apply (Hd A HA')|apply (Hd A Hb)]; by right.
      + intros Hb'%Hlm. assert (HA' : b ∈ (if before then l1 else l2)) by (rewrite Ek; apply elem_of_app; destruct before; [right; by right|by left]).
        destruct before; [apply (Hd b HA')|apply (Hd b Hb)]; by right.
    - intros b Hb. destruct before eqn:Eb; [|by apply Htm, Hlm]. apply Hto; [apply Hsk, elem_of_app; by left|intros ->; apply (Hkd A Hb); by left|].
      rewrite Hlm. intros Hb'. apply (Hkd b Hb). by right.
    - intros b Hb. destruct before eqn:Eb; [by apply Htm, Hlm|]. apply Hto; [apply Hsk, elem_of_app; right; by right|by intros ->|].
      rewrite Hlm. intros Hb'. apply (Hkd b Hb'). by right. }
  assert (Hrest : forall b, b ∈ K m p -> b <> v -> b ∉ lm ++ [A] -> tgt b = iv b /\ fits m iv b).
  { intros b Hb Hne Hbm. assert (b <> A) by (intros ->; apply Hbm, elem_of_app; right; by left).
    split; [apply Hto; [done..|intros ?; apply Hbm, elem_of_app; by left]|by apply Hfit]. }
  assert (Hc1 : chained tgt (fun _ => 1) (start (iv p)) (K m p) (iend (iv p) - 1)).
  { apply (chained_strengthen tgt zero); [done|]. intros b Hb. pose proof (sz_pos m o SH b). destruct (decide (b = v)) as [->|Hne]; [rewrite Htv; apply shr_size|].
    destruct (decide (b = A)) as [->|HneA]; [rewrite HtA, isz_gro; lia|]. pose proof (fits_sizes b (Hfit b Hb Hne HneA)).
    destruct (decide (b ∈ lm)) as [Hbs|Hbs]; [rewrite Htm, isz_mov by done|rewrite Hto by done]; lia. }
  assert (Hlmn : NoDup (lm ++ [A])).
  { apply NoDup_app. split_and!; [unfold lm; destruct before; [by apply NoDup_ListNoDup, List.NoDup_rev, NoDup_ListNoDup|done]| |apply NoDup_singleton].
    intros b Hb ->%list_elem_of_singleton. by destruct (Hlmk A Hb) as (_ & _ & ?). }
  destruct (offset_until A mov_op gro_op off tgt lm (if before then rev k1 else k2) iv1 sizes) as (iv2 & S2 & E & Hca2 & Hpl).
  { apply (siblings_apart p); [|done]. intros b [Hb| ->%list_elem_of_singleton]%elem_of_app; [by apply Hlmk|apply HAkp]. } { done. }
  { intros b Hb. destruct (Hlmk b Hb) as (Hbk & Hne & HneA). rewrite sibling_same by done. pose proof (good_target tgt b Hc Hbk) as Hgb. rewrite (Htm b Hb) in *.
    split_and!; [by apply mov_ok|done|]. rewrite isz_mov. by apply fits_sizes, Hfit. }
  { rewrite sibling_same by apply HAkp. rewrite HtA. apply gro_ok. rewrite <- HtA. apply good_target; [done|apply HAkp]. }
  { apply good_target; [done|apply HAkp]. } { rewrite HtA, isz_gro. lia. }
  destruct (hop_fits tgt (lm ++ [A]) iv2) as (Hf2 & Hk2 & Hv2' & Ho2).
  { intros b Hb. assert (Hb' : b ∈ k1 ++ A :: k2).
    { apply elem_of_app in Hb as [Hb%Hlm| ->%list_elem_of_singleton]; apply elem_of_app; [destruct before; [right; by right|by left]|right; by left]. }
    rewrite <- Ek in Hb'. destruct before; auto. }
  { done. } { done. } { done. } { done. }
  exists iv2, S2. rewrite hop_siblings. split_and!; [|done|done|done|done].
  assert (Es : (if before then rev l1 else l2) = lm ++ A :: (if before then rev k1 else k2)).
  { unfold lm. destruct before; [|done]. subst l1. rewrite rev_app_distr. cbn [rev]. by rewrite <- app_assoc. }
  rewrite Es. done.
Qed.

End Hop.
(** ** Space for a block [A] next to the chain from [D] to the root *)

Section Reclaim.
Context (A C D root : Hash) (HAC : A ∈ K m C) (HDC : D ∈ K m C) (HAD : A <> D) (HDroot : tanc m D root).

(** The intervals nest except below [A], which may be empty itself. *)
Definition need_but (c : Hash) : Z := if decide (c = A) then 0 else 1.
Definition almost (iv : Hash -> Interval) : Prop :=
  forall x, x ∈ dom m -> ~ tanc m A x -> chained iv need_but (start (iv x)) (K m x) (iend (iv x) - 1).

Lemma need_but_nonneg c : 0 <= need_but c.
Proof. unfold need_but. case_decide; lia. Qed.

Lemma off_chain v : tanc m D v -> ~ tanc m A v /\ ~ tanc m v A.
Proof.
  intros Hv. split; intros Ht.
  - apply HAD. by apply (kids_apart m o SH C A D v).
  - assert (Hd : tanc m D A) by (by eapply tanc_trans). apply HAD. symmetry. apply (kids_apart m o SH C D A A); [done..|apply tanc_refl].
Qed.

Lemma chain_kids v : tanc m D v -> A ∉ K m v.
Proof. intros Hv HA. destruct (off_chain v Hv) as [_ Hn]. apply Hn. by apply tanc_kid. Qed.

Lemma almost_inside iv x : almost iv -> tanc m o x -> ~ tanc m A x -> start (iv o) <= start (iv x) /\ start (iv x) <= iend (iv x) /\ iend (iv x) <= iend (iv o).
Proof.
  intros Hal. revert x. pose proof (sh_root m o SH) as Ho.
  refine (rtc_ind_r (fun x => ~ tanc m A x -> start (iv o) <= start (iv x) /\ start (iv x) <= iend (iv x) /\ iend (iv x) <= iend (iv o)) o _ _);
    [intros HA|intros y x Hy Hk IH HA].
  - pose proof (chained_bounds iv need_but need_but_nonneg _ _ _ (Hal o Ho HA)). lia.
  - assert (HAy : ~ tanc m A y) by (intros ?; apply HA; eapply tanc_trans; [done|by apply tanc_kid]). destruct (IH HAy) as (? & ? & ?).
    destruct (kid_dom m o SH y x Hk) as [Hyd _].
    destruct (chained_elem iv need_but need_but_nonneg _ _ _ x (Hal y Hyd HAy) Hk) as (? & Hs & ?). unfold need_but in Hs.
    rewrite decide_False in Hs by (intros ->; by apply HA, tanc_refl). unfold isz in Hs. lia.
Qed.

Lemma almost_good iv x : almost iv -> good (iv o) -> x ∈ dom m -> ~ tanc m A x -> good (iv x).
Proof. intros Hal (? & ? & ?) Hx HA. pose proof (almost_inside iv x Hal (tanc_root m o SH x Hx) HA). unfold good. lia. Qed.

Lemma almost_fits iv b : almost iv -> b ∈ dom m -> ~ tanc m A b -> ~ tanc m b A -> fits m iv b.
Proof.
  intros Hal Hb HAb HbA x Hx. assert (HAx : ~ tanc m A x) by (intros Ht; by destruct (tanc_linear m o SH A b x Ht Hx)).
  eapply chained_weaken; [|apply Hal; [by apply (tanc_dom m o SH b)|done]]. intros c Hc. unfold need_but. rewrite decide_False; [done|].
  intros ->. apply HbA. eapply tanc_trans; [done|by apply tanc_kid].
Qed.

Lemma almost_replace iv iv2 p : almost iv -> fits m iv2 p -> (forall x, (tanc m p x -> x = p) -> iv2 x = iv x) -> almost iv2.
Proof.
  intros Hal Hf Hx x Hd HA. destruct (tanc_dec m o SH p x Hd) as [Hp|Hp].
  - eapply chained_weaken; [|exact (Hf x Hp)]. intros c _. unfold need_but. case_decide; lia.
  - rewrite (Hx x) by done. apply (chained_ext iv); [|by apply Hal]. intros c Hc. apply Hx. intros Ht.
    destruct (tanc_up m o SH p x c Hc Ht) as [?|?]; [by symmetry|by destruct Hp].
Qed.

(** With [A] in place they all do. *)
Lemma almost_done iv iv2 : almost iv -> fits m iv2 C -> (forall x, (tanc m C x -> x = C) -> iv2 x = iv x) -> fits m iv2 o.
Proof.
  intros Hal Hf Hx x Ho. pose proof (tanc_dom m o SH o x Ho (sh_root m o SH)) as Hd. destruct (tanc_dec m o SH C x Hd) as [Hp|Hp]; [by apply Hf|].
  assert (HA : ~ tanc m A x) by (intros HA; apply Hp; apply (tanc_trans m C A x); [by apply tanc_kid|exact HA]).
  unfold ok_at. rewrite (Hx x) by done. apply (chained_ext iv).
  - intros c Hc. apply Hx. intros Ht. destruct (tanc_up m o SH C x c Hc Ht) as [?|?]; [by symmetry|by destruct Hp].
  - eapply chained_weaken; [|by apply Hal]. intros c Hc. unfold need_but. rewrite decide_False; [done|]. intros ->. apply Hp.
    destruct (sh_kid m o SH x A Hc) as (_ & HP & _). destruct (sh_kid m o SH C A HAC) as (_ & HP' & _). rewrite HP' in HP. subst. apply tanc_refl.
Qed.

(** The chain from [D] up to a block, its length, and the free space on it *)
Inductive path (iv : Hash -> Interval) : Hash -> Z -> Z -> Prop :=
| path_start : path iv D 0 0
| path_next v w j S : path iv v j S -> w ∈ K m v -> path iv w (j + 1) (S + rem iv v).

Lemma path_tanc iv v j S : path iv v j S -> tanc m D v /\ 0 <= j <= ht m v - ht m D.
Proof.
  induction 1 as [|v w j S _ [Ht Hj] Hw]; [split; [apply tanc_refl|lia]|]. destruct (sh_kid m o SH v w Hw) as (_ & _ & ?).
  split; [|lia]. eapply tanc_trans; [done|by apply tanc_kid].
Qed.

Lemma rem_ext iv iv' p : iv' p = iv p -> (forall c, c ∈ K m p -> iv' c = iv c) -> rem iv' p = rem iv p.
Proof.
  intros Hp Hc. unfold rem. rewrite Hp. destruct before.
  - destruct (K m p) as [|c l] eqn:E; [done|]. cbn [head]. by rewrite (Hc c) by left.
  - destruct (last (K m p)) as [c|] eqn:E; [|done]. rewrite (Hc c); [done|]. apply last_Some in E as [l ->]. apply elem_of_app. right. by left.
Qed.

Lemma path_ext iv iv' v j S : path iv v j S -> (forall x, (tanc m v x -> x = v) -> iv' x = iv x) -> path iv' v j S.
Proof.
  induction 1 as [|v w j S _ IH Hw]; intros Hx; [constructor|]. assert (Hwv : ~ tanc m w v) by (by apply (kid_not_above m o SH)).
  rewrite <- (rem_ext iv iv' v).
  - constructor; [|done]. apply IH. intros x Hvx. apply Hx. intros Hwx.
    assert (x = v) as -> by (apply Hvx; eapply tanc_trans; [by apply tanc_kid|done]). done.
  - by apply Hx.
  - intros c Hc. apply Hx. intros Ht. symmetry. apply (kids_apart m o SH v w c c); [done..|apply tanc_refl].
Qed.

Lemma rem_kid iv v w : ok_at m iv v -> w ∈ K m v -> 0 <= rem iv v /\ rem iv v + isz (iv w) <= isz (iv v).
Proof.
  intros Hok Hw. unfold ok_at in Hok. unfold rem, isz. destruct (ok_kid m iv v w Hok Hw) as (? & ? & ?). destruct before.
  - destruct (K m v) as [|c l] eqn:E; [by apply elem_of_nil in Hw|]. cbn [head]. cbn [chained] in Hok. destruct Hok as (? & Hs & Hok).
    apply elem_of_cons in Hw as [->|Hw]; [lia|]. destruct (chained_elem iv _ (fun _ => Z.le_0_1) _ _ _ w Hok Hw) as (? & _ & _). unfold isz in Hs. lia.
  - destruct (last (K m v)) as [c|] eqn:E; [|apply last_None in E; rewrite E in Hw; by apply elem_of_nil in Hw]. apply last_Some in E as [l E].
    rewrite E in Hok, Hw. apply chained_app in Hok as (md & Hc1 & Hc2). cbn [chained] in Hc2. destruct Hc2 as (? & Hs & ?). unfold isz in Hs.
    apply elem_of_app in Hw as [Hw| ->%list_elem_of_singleton]; [|lia]. destruct (chained_elem iv _ (fun _ => Z.le_0_1) _ _ _ w Hc1 Hw) as (_ & _ & ?). lia.
Qed.

Lemma path_room iv v j S : almost iv -> path iv v j S -> 0 <= S /\ S + isz (iv v) <= isz (iv D).
Proof.
  intros Hal. induction 1 as [|v w j S Hp IH Hw]; [lia|]. destruct (path_tanc iv v j S Hp) as [Ht _]. destruct (off_chain v Ht) as [H1 H2].
  destruct (kid_dom m o SH v w Hw) as [Hv _]. destruct (rem_kid iv v w (fits_here m iv v (almost_fits iv v Hal Hv H1 H2)) Hw). lia.
Qed.

Context (required slack : Z) (Hreq : sz m A <= required) (Hslack : 0 <= slack).
Context (Hside : forall l1 l2, K m C = l1 ++ D :: l2 -> A ∈ (if before then l1 else l2)).

Let down n c current alloc := reclaim_down remaining shr_op offset_siblings A C n c current alloc.

(** What the interval of a block on the chain was made smaller by goes down the chain. *)
Lemma reclaim_finish k : forall iv v j S iv1 sizes n alloc off, Z.of_nat k = j -> path iv v j S -> almost iv -> good (iv o) -> 0 <= isz (iv A) -> cache_ok m sizes ->
  off = required + alloc * j - S -> S <= required -> 0 <= alloc -> iv1 v = shr (iv v) off -> fits m iv1 v -> (forall x, ~ tanc m v x -> iv1 x = iv x) -> j < Z.of_nat n ->
  exists iv' sizes', (c ← offset_siblings (mk_ctx (build m iv1 fc r) sizes) A v off; down n c v alloc) = Done (mk_ctx (build m iv' fc r) sizes') /\
    fits m iv' o /\ iv' o = iv o /\ (forall x, tanc m v x -> iv' x = iv1 x).
Proof.
  assert (HCA : ~ tanc m A C) by (by apply (kid_not_above m o SH)). destruct (kid_dom m o SH C D HDC) as [HC HDd].
  induction k as [|k IH]; intros iv v j S iv1 sizes n alloc off Hk Hp Hal Hgo HsA Hca Hoff HS Halloc Hv1 Hf1 Hx1 Hn; (destruct n as [|n]; [lia|]).
  - destruct Hp as [|v w j S Hp Hw]; [|destruct (path_tanc iv v j S Hp) as [_ ?]; lia].
    pose proof HDC as (l1 & l2 & E)%list_elem_of_split.
    destruct (hop_end iv iv1 sizes A D C l1 l2 off) as (iv2 & S2 & E2 & Hca2 & Hf2 & Hv2 & Ho2); try done.
    + lia.
    + by apply almost_good.
    + by apply side_in, Hside.
    + eapply chained_weaken; [|by apply Hal]. intros c _. unfold need_but, zero. case_decide; lia.
    + intros b Hb HbD HbA. apply almost_fits; [done|by destruct (kid_dom m o SH C b Hb)| |]; intros Ht; apply HbA.
      * symmetry. apply (kids_apart m o SH C A b b); [done..|apply tanc_refl].
      * apply (kids_apart m o SH C b A A); [done..|apply tanc_refl].
    + lia.
    + rstep E2. unfold down. cbn [reclaim_down cstore]. rstep (get_parent_ok m iv2 fc r D HDd). destruct (sh_kid m o SH C D HDC) as (_ & -> & _).
      rewrite bool_decide_eq_true_2 by done. exists iv2, S2. split_and!; [done|by apply (almost_done iv)| |done].
      apply Ho2. intros Ht. symmetry. by apply (root_top m o SH).
  - destruct Hp as [|u v j S Hp Hw]; [lia|]. destruct (path_tanc iv u j S Hp) as [Htu Hj]. destruct (off_chain u Htu) as [HAu HuA].
    destruct (kid_dom m o SH u v Hw) as [Hud Hvd]. pose proof (almost_fits iv u Hal Hud HAu HuA) as Hfu.
    pose proof Hw as (l1 & l2 & E)%list_elem_of_split. destruct (path_room iv u j S Hal Hp) as [HS0 _].
    pose proof (fits_here m iv u Hfu) as Hoku. destruct (rem_kid iv u v Hoku Hw) as [Hrem _].
    destruct (hop_mid iv iv1 sizes A v u l1 l2 off) as (iv2 & S2 & E2 & Hca2 & Hf2 & Hr2 & Hv2 & Ho2); try done.
    + nia.
    + by apply almost_good.
    + by apply chain_kids.
    + intros b Hb _. by apply (fits_below m iv u), tanc_kid.
    + rstep E2. unfold down. cbn [reclaim_down cstore]. rstep (get_parent_ok m iv2 fc r v Hvd). destruct (sh_kid m o SH u v Hw) as (_ & -> & _).
      assert (HuC : u <> C) by (intros ->; by apply (kid_not_above m o SH C D)). rewrite bool_decide_eq_false_2 by done.
      assert (Hal2 : almost iv2) by (by apply (almost_replace iv iv2 u)).
      assert (Ho : iv2 o = iv o) by (apply Ho2; intros Ht; symmetry; by apply (root_top m o SH)).
      assert (Hg2 : good (iv2 u)) by (apply almost_good; [done|by rewrite Ho|done|done]).
      destruct (remaining_ok iv2 u (fun _ => 1)) as (Hr0 & i & Ei & Esz); [done|done|by rewrite E; destruct l1|done|by apply fits_here|]. rstep Ei. rstep Esz.
      destruct (rem_kid iv2 u v (fits_here m iv2 u Hf2) Hw) as [_ Hrk]. pose proof (ok_nonempty m iv2 v (fits_here m iv2 v (fits_below m iv2 u v Hf2 (tanc_kid m u v Hw)))) as Hne.
      assert (Hlim : isz (iv2 u) < 2 ^ 64) by (destruct Hg2 as (? & ? & ?); unfold isz; lia). unfold isz in Hrk.
      assert (Hoff' : 0 <= rem iv2 u - alloc <= rem iv2 u) by (rewrite Hr2; nia).
      rstep (chk_ok (rem iv2 u - alloc) ltac:(unfold isz in Hlim; lia)).
      pose proof (shr_fits iv2 u (rem iv2 u - alloc) Hf2 ltac:(by rewrite E; destruct l1) Hoff') as Hf3.
      assert (Hg3 : good (shr (iv2 u) (rem iv2 u - alloc))).
      { pose proof (ok_nonempty m _ u (fits_here m _ u Hf3)) as Hn3. rewrite upd_at in Hn3. destruct Hg2 as (? & ? & ?). unfold shr, good in *. destruct before; cbn [start iend] in *; lia. }
      rstep (apply_op_ok iv2 S2 u (rem iv2 u - alloc) shr_op _ Hud (shr_ok _ _ Hg3)).
      destruct (IH iv2 u j S (upd iv2 u (shr (iv2 u) (rem iv2 u - alloc))) S2 n alloc (rem iv2 u - alloc) ltac:(lia) (path_ext iv iv2 u j S Hp Ho2)) as (iv' & S' & E' & Hf' & Ho' & Hx'); try done.
      * by rewrite Ho.
      * rewrite Ho2; [done|]. intros Ht. done.
      * rewrite Hr2. nia.
      * lia.
      * by rewrite upd_at.
      * intros x Hx. apply upd_ne. intros ->. by apply Hx, tanc_refl.
      * lia.
      * exists iv', S'. split_and!; [exact E'|done|by rewrite Ho'|]. intros x Hx. rewrite Hx' by (eapply tanc_trans; [by apply tanc_kid|done]).
        rewrite upd_ne by (intros ->; by apply (kid_not_above m o SH u v)). by apply Hv2.
Qed.

Lemma reclaim_ok iv : almost iv -> good (iv o) -> 0 <= isz (iv A) -> 0 < required -> sz m root + required + slack * ht m root <= isz (iv root) ->
  forall n v j S sizes, path iv v j S -> tanc m v root -> S < required -> ht m root - ht m v < Z.of_nat n -> cache_ok m sizes ->
  exists iv' sizes', ('(c, current, alloc) ← reclaim_up powf fuel remaining shr_op offset_siblings slack A root required n (mk_ctx (build m iv fc r) sizes) v S j;
      down fuel c current alloc) = Done (mk_ctx (build m iv' fc r) sizes') /\
    fits m iv' o /\ iv' o = iv o /\ isz (iv root) - (required + slack * ht m root) <= isz (iv' root).
Proof.
  intros Hal Hgo HsA Hreq0 Hroom. destruct (kid_dom m o SH C D HDC) as [HC HDd]. pose proof (tanc_dom m o SH D root HDroot HDd) as Hrd.
  pose proof (sh_height m o SH D) as HhD. pose proof (max_height_ge m root Hrd) as Hmh.
  induction n as [|n IH]; intros v j S sizes Hp Hvr HS Hn Hca;
    destruct (path_tanc iv v j S Hp) as [Htv Hj]; destruct (off_chain v Htv) as [HAv HvA]; pose proof (tanc_dom m o SH D v Htv HDd) as Hvd;
    pose proof (almost_good iv v Hal Hgo Hvd HAv) as Hgv; pose proof (almost_fits iv v Hal Hvd HAv HvA) as Hfv; destruct (path_room iv v j S Hal Hp) as [HS0 HSr];
    assert (Hvh : ht m v <= ht m root) by (destruct (tanc_height m o SH v root Hvr) as [->|?]; lia).
  { destruct (tanc_height m o SH v root Hvr) as [->|?]; lia. }
  pose proof (almost_good iv D Hal Hgo HDd ltac:(apply off_chain, tanc_refl)) as HgD.
  assert (HszD : isz (iv D) < 2 ^ 64) by (destruct HgD as (? & ? & ?); unfold isz; lia).
  cbn [reclaim_up]. case_bool_decide as Hroot.
  - subst v. assert (Hjs : 0 <= slack * j <= slack * ht m root) by nia. pose proof (sz_pos m o SH root).
    assert (HszR : isz (iv root) < 2 ^ 64) by (destruct Hgv as (? & ? & ?); unfold isz; lia).
    rstep (chk_ok (slack * j) ltac:(lia)). rstep (chk_ok (required + slack * j) ltac:(lia)). rstep (chk_ok (required + slack * j - S) ltac:(lia)).
    set (off := required + slack * j - S).
    assert (Hg : good (shr (iv root) off)) by (unfold isz in Hroom; destruct Hgv as (? & ? & ?); unfold shr, good, off; destruct before; cbn [start iend]; lia).
    destruct (apply_propagate_ok iv sizes root off shr_op (shr (iv root) off) Hrd Hca (shr_ok _ _ Hg) Hg) as (iv1 & S1 & E1 & Hca1 & Hv1 & Hx1 & Hf1); [rewrite isz_shr; lia|].
    rstep E1. destruct (reclaim_finish (Z.to_nat j) iv root j S iv1 S1 fuel slack off) as (iv' & S' & E & Hf & Ho & Hx); try done; [lia..|].
    exists iv', S'. split_and!; [|done|done|].
    + destruct (offset_siblings (mk_ctx (build m iv1 fc r) S1) A root off); done.
    + rewrite (Hx root (tanc_refl m root)), Hv1, isz_shr. unfold off. lia.
  - destruct (tanc_down m v root Hvr ltac:(congruence)) as (w & Hw & Hwr).
    assert (Hkne : K m v <> []) by (intros E; rewrite E in Hw; by apply elem_of_nil in Hw).
    destruct (remaining_ok iv v (fun _ => 1) Hvd Hgv Hkne (fun _ => Z.le_0_1) (fits_here m iv v Hfv)) as (Hr0 & i & Ei & Esz). cbn [cstore]. rstep Ei. rstep Esz.
    destruct (rem_kid iv v w (fits_here m iv v Hfv) Hw) as [_ Hrk].
    pose proof (ok_nonempty m iv w (fits_here m iv w (fits_below m iv v w Hfv (tanc_kid m v w Hw)))) as Hnw. unfold isz in Hrk at 1.
    rstep (chk_ok (S + rem iv v) ltac:(lia)). destruct (Z.leb_spec required (S + rem iv v)) as [Hle|Hgt].
    + rstep (chk_ok (S + rem iv v - required) ltac:(lia)). rstep (chk_ok (rem iv v - (S + rem iv v - required)) ltac:(lia)).
      replace (rem iv v - (S + rem iv v - required)) with (required - S) by lia.
      pose proof (shr_fits iv v (required - S) Hfv Hkne ltac:(lia)) as Hf1.
      assert (Hg : good (shr (iv v) (required - S))).
      { pose proof (ok_nonempty m _ v (fits_here m _ v Hf1)) as Hn1. rewrite upd_at in Hn1. destruct Hgv as (? & ? & ?). unfold shr, good in *. destruct before; cbn [start iend] in *; lia. }
      rstep (apply_op_ok iv sizes v (required - S) shr_op _ Hvd (shr_ok _ _ Hg)).
      destruct (reclaim_finish (Z.to_nat j) iv v j S (upd iv v (shr (iv v) (required - S))) sizes fuel 0 (required - S)) as (iv' & S' & E & Hf & Ho & Hx); try done; [lia|lia|lia|by rewrite upd_at| | |].
      * intros x Hx. apply upd_ne. intros ->. by apply Hx, tanc_refl.
      * lia.
      * exists iv', S'. split_and!; [|done|done|].
        -- destruct (offset_siblings (mk_ctx (build m (upd iv v (shr (iv v) (required - S))) fc r) sizes) A v (required - S)); done.
        -- rewrite (Hx root Hvr), upd_ne by congruence. pose proof (sh_height m o SH root). nia.
    + rewrite (next_chain_ok m o SH fc r iv v w root).
      * cbn [mbind R_bind]. rstep (chk_ok (j + 1) ltac:(lia)). destruct (sh_kid m o SH v w Hw) as (_ & _ & ?).
        apply IH; [by constructor|done|lia|lia|done].
      * eapply chained_ascending. by apply (fits_here m iv v).
      * done.
      * done.
      * apply (fits_inside m iv w root); [by apply (fits_below m iv v), tanc_kid|done].
      * apply (fits_inside m iv w root); [by apply (fits_below m iv v), tanc_kid|done].
      * apply (fits_inside m iv w root); [by apply (fits_below m iv v), tanc_kid|done].
      * intros a b c Ha Hab Hb. apply (chained_after iv (fun _ => 1) _ _ _ a b w c (fun _ => Z.le_0_1) (fits_here m iv v Hfv) Hab Ha Hb).
Qed.

End Reclaim.
End Side.

Lemma earlier_ok iv sizes A C D root required slack : A ∈ K m C -> D ∈ K m C -> A <> D -> tanc m D root -> almost A iv -> good (iv o) -> 0 <= isz (iv A) ->
  ascending iv (K m C) -> sz m A <= required -> 0 <= slack -> sz m root + required + slack * ht m root <= isz (iv root) -> cache_ok m sizes ->
  exists iv' sizes', reindex_intervals_earlier_than_root powf fuel slack (mk_ctx (build m iv fc r) sizes) A root C required = Done (mk_ctx (build m iv' fc r) sizes') /\
    fits m iv' o /\ iv' o = iv o /\ isz (iv root) - (required + slack * ht m root) <= isz (iv' root).
Proof.
  intros HAC HDC HAD HDr Hal Hgo HsA Hasc Hreq Hsl Hroom Hca. destruct (kid_dom m o SH C D HDC) as [HC HDd]. destruct (kid_dom m o SH C A HAC) as [_ HAd].
  pose proof (tanc_dom m o SH D root HDr HDd) as Hrd. pose proof (sz_pos m o SH A). unfold reindex_intervals_earlier_than_root. cbn [cstore].
  destruct (off_chain A C D HAC HDC HAD D (tanc_refl m D)) as [HnAD HnDA]. pose proof (almost_fits A iv D Hal HDd HnAD HnDA) as HfD.
  destruct (fits_inside m iv D root HfD HDr) as (? & ? & ?).
  rewrite (next_chain_ok m o SH fc r iv C D root Hasc Hrd HDC); [|done|done|done|].
  2: { intros i j b Hi Hij Hb. apply (chained_after iv (need_but A) (start (iv C)) (K m C) (iend (iv C) - 1) i j D b); [apply need_but_nonneg| |done|done|done].
       apply Hal; [done|]. by apply (kid_not_above m o SH). }
  cbn [mbind R_bind]. rstep (get_interval_ok m iv fc r A HAd). rstep (get_interval_ok m iv fc r D HDd).
  assert (Hside : forall l1 l2, K m C = l1 ++ D :: l2 -> A ∈ (if start (iv A) <? start (iv D) then l1 else l2)).
  { intros l1 l2 E. pose proof HAC as HA. rewrite E in HA. apply elem_of_app in HA as [HA|[->|HA]%elem_of_cons]; [|done|].
    - apply list_elem_of_lookup in HA as [i Hi]. pose proof (Hasc i (length l1) A D ltac:(by eapply lookup_lt_Some)) as Hlt. rewrite E in Hlt.
      specialize (Hlt ltac:(by apply lookup_app_l_Some) ltac:(by apply list_lookup_middle)). apply Z.ltb_lt in Hlt. rewrite Hlt. by eapply list_elem_of_lookup_2.
    - apply list_elem_of_lookup in HA as [i Hi]. pose proof (Hasc (length l1) (length l1 + S i)%nat D A ltac:(lia)) as Hlt. rewrite E in Hlt.
      specialize (Hlt ltac:(by apply list_lookup_middle) ltac:(by rewrite lookup_app_r, Nat.add_comm, Nat.add_sub by lia)). destruct (Z.ltb_spec (start (iv A)) (start (iv D))); [lia|]. by eapply list_elem_of_lookup_2. }
  destruct (reclaim_ok (start (iv A) <? start (iv D)) A C D root HAC HDC HAD HDr required slack Hreq Hsl Hside iv Hal Hgo HsA ltac:(lia) Hroom fuel D 0 0 sizes)
    as (iv' & S' & E & Hres); [constructor|done|lia| |done|].
  { pose proof (max_height_ge m root Hrd). pose proof (sh_height m o SH D). lia. }
  exists iv', S'. split; [|done]. unfold remaining, shr_op, offset_siblings in E. destruct (start (iv A) <? start (iv D)); exact E.
Qed.

End Tree.

End ReachabilityReindex.
