(* ===== verification/ReachabilityRoot.v ===== *)
(** * Moving the reindex root

    When the root follows the selected chain, the siblings of the chain are packed
    tightly and the chain gets the rest; the intervals nest again when the new root is
    reached, with little space lost. *)
From Stdlib Require Import ZArith Lia.
From stdpp Require Import base numbers list gmap.
From S2P Require Import Prelude Float64 Ghostdag Reachability ReachabilityTree ReachabilityOps ReachabilityReindex.
Import Ghostdag.Ghostdag Reachability.Reachability ReachabilityTree.ReachabilityTree ReachabilityOps.ReachabilityOps ReachabilityReindex.ReachabilityReindex.
Open Scope Z_scope.

Module ReachabilityRoot.

(** ** Where the root goes *)

Section Spec.
Context (chain : Hash -> Hash -> Prop) (stored : Hash -> Prop) (hgt : Hash -> Z) (depth slack : Z) (hint : Hash).

(** From [from] down to the last block that is [depth] above the hint, if there is one *)
Definition towards (from root' : Hash) : Prop :=
  chain from root' /\ chain root' hint /\ (root' = from \/ depth <= hgt hint - hgt root') /\
  forall x, stored x -> chain from x -> chain x hint -> depth <= hgt hint - hgt x -> chain x root'.

(** A root on the chain of the hint goes down that chain. One off the chain stays unless
    the hint is [slack] higher, and then the way starts at the last common block. *)
Definition root_after (root root' : Hash) : Prop :=
  (chain root hint -> towards root root') /\
  (~ chain root hint -> hgt hint < hgt root + slack -> root' = root) /\
  (~ chain root hint -> hgt root + slack <= hgt hint ->
    exists common, stored common /\ chain common hint /\ chain common root /\ (forall x, stored x -> chain x hint -> chain x root -> chain x common) /\ towards common root').

End Spec.

Lemma root_after_ext (c1 c2 : Hash -> Hash -> Prop) (stored : Hash -> Prop) h1 h2 depth slack hint root root' :
  (forall x y, stored x -> stored y -> c1 x y <-> c2 x y) -> (forall x, stored x -> h1 x = h2 x) -> stored hint -> stored root -> stored root' ->
  root_after c1 stored h1 depth slack hint root root' -> root_after c2 stored h2 depth slack hint root root'.
Proof.
  intros Hc Hh Hsh Hsr Hsr' (R1 & R2 & R3).
  assert (Hto : forall from, stored from -> towards c1 stored h1 depth hint from root' -> towards c2 stored h2 depth hint from root').
  { intros from Hf (T1 & T2 & T3 & T4). rewrite !Hh in T3 by done. split_and!; [by apply Hc|by apply Hc|done|]. intros x Hx Hfx Hxh Hd.
    apply Hc; [done..|]. apply T4; [done|by apply Hc..|by rewrite !Hh by done]. }
  rewrite !Hh in R2, R3 by done. split_and!.
  - intros H. apply Hto; [done|]. by apply R1, Hc.
  - intros H. apply R2. by rewrite Hc.
  - intros H Hle. destruct R3 as (c & Hsc & H1 & H2 & H3 & H4); [by rewrite Hc|done|]. exists c. split_and!; [done|by apply Hc..| |by apply Hto].
    intros x Hx Hxh Hxr. apply Hc; [done..|]. apply H3; [done|by apply Hc..].
Qed.

Section Tree.
Context (powf : Z -> Z -> Z) (m : tree) (o : Hash) (SH : shape m o) (fc : Hash -> list Hash) (r : option Hash).
Context (fuel : nat) (Hheight : max_height m < Z.of_nat fuel) (Hsize : (size m <= fuel)%nat) (Hsmall : Z.of_nat (size m) < 2 ^ 62).

(** ** Packing siblings *)

Lemma sizes_of_ok iv cs : forall sizes, (forall c, c ∈ cs -> c ∈ dom m) -> cache_ok m sizes ->
  exists sizes', sizes_of fuel (mk_ctx (build m iv fc r) sizes) cs = Done (mk_ctx (build m iv fc r) sizes', sz m <$> cs) /\ cache_ok m sizes'.
Proof.
  induction cs as [|c cs IH]; intros sizes Hd Hca; [by exists sizes|]. cbn [sizes_of]. pose proof (Hd c ltac:(left)) as Hcd. pose proof (sz_bound m o SH c Hcd).
  destruct (count_subtrees_ok m o SH fc r iv c Hcd ltac:(lia) fuel sizes Hca ltac:(lia) ltac:(lia)) as (S1 & E1 & Hca1 & Hin). rstep E1. cbn [subtree_sizes].
  unfold size_of_subtree. rewrite (cached_below m S1 c c Hca1 Hin (tanc_refl m c)). cbn [mbind R_bind].
  destruct (IH S1 ltac:(intros d Hdd; apply Hd; by right) Hca1) as (S2 & E2 & Hca2). rstep E2. by exists S2.
Qed.

Lemma tighten_ok cs : forall iv sizes s bs, apart m cs -> cache_ok m sizes -> Forall2 (fun c b => sz m c <= b) cs bs -> 1 <= s -> s + zsum bs < 2 ^ 64 ->
  exists iv' sizes', tighten powf fuel (mk_ctx (build m iv fc r) sizes) cs (parts s bs) = Done (mk_ctx (build m iv' fc r) sizes') /\ cache_ok m sizes' /\
    placed m iv iv' iv' cs /\ chained iv' (sz m) s cs (s + zsum bs - 1).
Proof.
  induction cs as [|c cs IH]; intros iv sizes s bs Hap Hca HF Hs Hb.
  { inversion HF; subst. exists iv, sizes. split_and!; [done|done|apply placed_nil|]. cbn. lia. }
  inversion HF as [|? b ? bs' Hcb HF']; subst. destruct (apart_cons m c cs Hap) as (Hap' & Hcd & Hsep). rewrite zsum_cons in Hb |- *.
  assert (Hnn : 0 <= zsum bs') by (apply zsum_nonneg; clear -HF' SH; induction HF'; constructor; [pose proof (sz_pos m o SH x); lia|done]).
  pose proof (sz_pos m o SH c). cbn [parts tighten cstore subtree_sizes]. set (i := mk_interval s (s + b - 1)). rstep (set_interval_ok m iv fc r c Hcd i).
  destruct (propagate_interval_ok powf m o SH fc r (upd iv c i) c Hcd ltac:(lia) fuel sizes Hca ltac:(lia) Hsize) as (iv1 & S1 & E1 & Hca1 & Hx1 & Hf1).
  { rewrite upd_at. unfold i, good. cbn. lia. } { rewrite upd_at. unfold i, isz. cbn. lia. }
  rstep E1. assert (Hc1 : iv1 c = i) by (rewrite Hx1 by done; apply upd_at).
  assert (Ho1 : forall x, ~ tanc m c x -> iv1 x = iv x) by (intros x Hx; rewrite Hx1 by done; apply upd_ne; intros ->; by apply Hx, tanc_refl).
  destruct (IH iv1 S1 (s + b) bs' Hap' Hca1 HF' ltac:(lia) ltac:(lia)) as (iv2 & S2 & E2 & Hca2 & Hpl & Hch).
  assert (Hc2 : iv2 c = iv1 c) by (apply Hpl; intros d Hd; by apply Hsep).
  exists iv2, S2. split_and!; [done|done|apply (placed_cons m o SH iv iv1); [done|by symmetry|done|done|done]|].
  cbn [chained]. rewrite Hc2, Hc1. unfold i, isz. cbn [start iend]. split_and!; [lia|lia|]. eapply chained_mono; [..|exact Hch]; lia.
Qed.

Section Concentrate.
Context (iv : Hash -> Interval) (a child : Hash) (l1 l2 : list Hash) (slack : Z).
Context (HK : K m a = l1 ++ child :: l2) (Hstale : forall x, x ∈ dom m -> x <> a -> ok_at m iv x) (Hg : good (iv a)).
Context (Hslack : 0 <= slack) (Hroom : 4 * slack <= room m iv a).

Lemma child_kid : child ∈ K m a.
Proof. rewrite HK. apply elem_of_app. right. by left. Qed.

Lemma sibling_kid b : b ∈ l1 ++ l2 -> b ∈ K m a /\ b <> child.
Proof.
  pose proof (sh_nodup m o SH a) as Hnd. rewrite HK in Hnd |- *. apply NoDup_app in Hnd as (_ & Hd & [Hv _]%NoDup_cons).
  intros [Hb|Hb]%elem_of_app.
  - split; [apply elem_of_app; by left|]. intros ->. apply (Hd child Hb). by left.
  - split; [apply elem_of_app; right; by right|]. by intros ->.
Qed.

Lemma siblings_separate : apart m (l1 ++ l2).
Proof.
  apply (siblings_apart m o SH a); [intros b Hb; by apply sibling_kid|]. pose proof (sh_nodup m o SH a) as Hnd. rewrite HK in Hnd.
  apply NoDup_app in Hnd as (Hn1 & Hd & [_ Hn2]%NoDup_cons). apply NoDup_app. split_and!; [done| |done]. intros b Hb Hb'. apply (Hd b Hb). by right.
Qed.

Lemma stale_fits x : x ∈ dom m -> ~ tanc m x a -> fits m iv x.
Proof. intros Hx Hxa y Hy. apply Hstale; [by apply (tanc_dom m o SH x)|]. by intros ->. Qed.

Definition sum_before : Z := zsum (sz m <$> l1).
Definition sum_after : Z := zsum (sz m <$> l2).
Definition allocation : Interval := mk_interval (start (iv a) + sum_before + slack) (iend (iv a) - sum_after - slack - 1).

Lemma sums : 0 <= sum_before /\ 0 <= sum_after /\ sz m a = 1 + sum_before + sz m child + sum_after.
Proof.
  split_and!; [apply (sum_sz_nonneg m o SH)..|]. rewrite (sz_unfold m o SH a), HK, fmap_app, fmap_cons, zsum_app, zsum_cons. unfold sum_before, sum_after. lia.
Qed.

Lemma allocation_size : isz allocation - sz m child = room m iv a - 2 * slack.
Proof. pose proof sums as (_ & _ & E). unfold allocation, room, isz in *. cbn [start iend]. lia. Qed.

Lemma Forall2_sizes (cs : list Hash) : Forall2 (fun c b => sz m c <= b) cs (sz m <$> cs).
Proof. induction cs; constructor; [done|]. done. Qed.

(** The siblings after packing *)
Definition packed (iv2 : Hash -> Interval) : Prop :=
  placed m iv iv2 iv2 (l1 ++ l2) /\ chained iv2 (sz m) (start (iv a) + slack) l1 (start (iv a) + slack + sum_before - 1) /\
  chained iv2 (sz m) (iend (iv a) - slack - sum_after) l2 (iend (iv a) - slack - 1).

Lemma pack_ok : exists iv2 sizes, cache_ok m sizes /\ packed iv2 /\
  ('(c, sb) ← tighten_intervals_before powf fuel slack (mk_ctx (build m iv fc r) ∅) a l1;
   '(c, sa) ← tighten_intervals_after powf fuel slack c a l2; Done (c, sb, sa)) = Done (mk_ctx (build m iv2 fc r) sizes, sum_before, sum_after).
Proof.
  destruct (kid_dom m o SH a child child_kid) as [Had Hcd]. pose proof sums as (Hb0 & Ha0 & Esz). pose proof (sz_pos m o SH child). unfold room, isz in Hroom.
  destruct Hg as (Hg1 & Hg2 & Hg3). pose proof siblings_separate as Hsep. pose proof Hsep as (Hnd & _ & Hdom). apply NoDup_app in Hnd as (Hn1 & Hdis & Hn2).
  assert (Hap1 : apart m l1) by (apply (apart_sub m l1 _ Hsep); [intros x Hx; apply elem_of_app; by left|done]).
  assert (Hap2 : apart m l2) by (apply (apart_sub m l2 _ Hsep); [intros x Hx; apply elem_of_app; by right|done]).
  assert (Hnk : forall b, b ∈ l1 ++ l2 -> ~ tanc m b a) by (intros b Hb; apply (kid_not_above m o SH); by apply sibling_kid).
  unfold tighten_intervals_before, tighten_intervals_after.
  destruct (sizes_of_ok iv l1 ∅ ltac:(intros c Hc; apply Hap1, Hc)) as (S1 & E1 & Hca1); [split; [intros x k Hx; by rewrite lookup_empty in Hx|intros x c [k Hx]; by rewrite lookup_empty in Hx]|].
  rstep E1. rstep (sum_r_ok (sz m <$> l1) 0 (sizes_nonneg m l1) ltac:(lia) ltac:(fold sum_before; lia)). rewrite Z.add_0_l. fold sum_before. cbn [cstore].
  rstep (get_interval_ok m iv fc r a Had). rstep (chk_ok (start (iv a) + slack) ltac:(lia)). rstep (chk_ok (start (iv a) + slack + sum_before) ltac:(lia)).
  rstep (chk_ok (start (iv a) + slack + sum_before - 1) ltac:(lia)).
  rstep (split_exact_ok (mk_interval (start (iv a) + slack) (start (iv a) + slack + sum_before - 1)) (sz m <$> l1) ltac:(unfold good; cbn; lia) (sizes_nonneg m l1)
    ltac:(unfold isz; cbn; fold sum_before; lia)). cbn [start].
  destruct (tighten_ok l1 iv S1 (start (iv a) + slack) (sz m <$> l1) Hap1 Hca1 (Forall2_sizes l1) ltac:(lia) ltac:(fold sum_before; lia)) as (iv1 & S2 & E2 & Hca2 & Hp1 & Hc1).
  rstep E2. destruct (sizes_of_ok iv1 l2 S2 ltac:(intros c Hc; apply Hap2, Hc) Hca2) as (S3 & E3 & Hca3).
  rstep E3. rstep (sum_r_ok (sz m <$> l2) 0 (sizes_nonneg m l2) ltac:(lia) ltac:(fold sum_after; lia)). rewrite Z.add_0_l. fold sum_after. cbn [cstore].
  rstep (get_interval_ok m iv1 fc r a Had). assert (Ea : iv1 a = iv a) by (apply Hp1; intros b Hb; apply Hnk, elem_of_app; by left). rewrite Ea.
  rstep (chk_ok (iend (iv a) - slack) ltac:(lia)). rstep (chk_ok (iend (iv a) - slack - sum_after) ltac:(lia)). rstep (chk_ok (iend (iv a) - slack - 1) ltac:(lia)).
  rstep (split_exact_ok (mk_interval (iend (iv a) - slack - sum_after) (iend (iv a) - slack - 1)) (sz m <$> l2) ltac:(unfold good; cbn; lia) (sizes_nonneg m l2)
    ltac:(unfold isz; cbn; fold sum_after; lia)). cbn [start].
  destruct (tighten_ok l2 iv1 S3 (iend (iv a) - slack - sum_after) (sz m <$> l2) Hap2 Hca3 (Forall2_sizes l2) ltac:(lia) ltac:(fold sum_after; lia)) as (iv2 & S4 & E4 & Hca4 & Hp2 & Hc2).
  rstep E4. assert (Hkeep : forall b, b ∈ l1 -> iv2 b = iv1 b).
  { intros b Hb. apply Hp2. intros c Hc Hcb. destruct Hsep as (_ & Hsep & _). apply (Hdis b Hb). rewrite <- (Hsep c b); [done|apply elem_of_app; by right|apply elem_of_app; by left|done]. }
  exists iv2, S4. split_and!; [done| |done]. split_and!.
  - apply (placed_app m o SH iv iv1); [done| |done]. destruct Hp1 as [Hq1 Hq2]. split; [|done]. intros b Hb. destruct (Hq1 b Hb) as [_ ?]. split; [by symmetry; apply Hkeep|done].
  - apply (chained_ext iv1); [done|]. unfold sum_before. done.
  - eapply chained_mono; [..|exact Hc2]; fold sum_after; lia.
Qed.

(** The chosen child gets the rest. *)
Lemma chosen_ok iv2 iv3 : packed iv2 -> iv3 child = allocation -> (forall x, ~ tanc m child x -> iv3 x = iv2 x) -> (forall x, tanc m child x -> x <> child -> ok_at m iv3 x) ->
  (forall x, x ∈ dom m -> x <> child -> ok_at m iv3 x) /\ (forall x, (tanc m a x -> x = a) -> iv3 x = iv x).
Proof.
  intros ([Hf Hx] & Hc1 & Hc2) Hch Hout Hin. pose proof child_kid as Hk. destruct Hg as (Hg1 & Hg2 & Hg3). pose proof (sz_pos m o SH child). pose proof allocation_size as Has.
  assert (Hsib : forall b x, b ∈ l1 ++ l2 -> tanc m b x -> iv3 x = iv2 x).
  { intros b x Hb Hbx. apply Hout. intros Hcx. destruct (sibling_kid b Hb) as [Hbk Hne]. apply Hne. by apply (kids_apart m o SH a b child x). }
  assert (Hold : forall x, (forall c, c ∈ K m a -> ~ tanc m c x) -> iv3 x = iv x).
  { intros x Hxa. rewrite Hout by (by apply Hxa). apply Hx. intros b Hb. by apply Hxa, sibling_kid. }
  assert (Ha : iv3 a = iv a) by (apply Hold; intros c Hc; by apply (kid_not_above m o SH)). split.
  - intros x Hxd Hne. destruct (decide (x = a)) as [->|Hxa].
    + unfold ok_at. rewrite Ha, HK. pose proof sums as (? & ? & ?). apply chained_app. exists (start (iv a) + slack + sum_before). split.
      * apply (chained_ext iv2); [intros b Hb; apply (Hsib b); [apply elem_of_app; by left|apply tanc_refl]|].
        eapply (chained_weaken iv2 (sz m)); [intros c _; apply (sz_pos m o SH)|]. eapply chained_mono; [..|exact Hc1]; lia.
      * cbn [chained]. rewrite Hch. unfold allocation, isz in *. cbn [start iend] in *. split_and!; [lia|lia|].
        apply (chained_ext iv2); [intros b Hb; apply (Hsib b); [apply elem_of_app; by right|apply tanc_refl]|].
        eapply (chained_weaken iv2 (sz m)); [intros c _; apply (sz_pos m o SH)|]. eapply chained_mono; [..|exact Hc2]; lia.
    + destruct (tanc_dec m o SH child x Hxd) as [Ht|Ht]; [by apply Hin|].
      destruct (tanc_dec m o SH a x Hxd) as [Hax|Hax].
      * destruct (tanc_down m a x Hax ltac:(congruence)) as (c & Hc & Hcx). assert (Hcb : c ∈ l1 ++ l2).
        { rewrite HK in Hc. apply elem_of_app in Hc as [?|[->|?]%elem_of_cons]; [apply elem_of_app; by left|done|apply elem_of_app; by right]. }
        apply (fits_ext m iv2 iv3 c); [intros y; by apply Hsib|by apply Hf|done].
      * assert (Hn : forall y, ~ tanc m a y -> iv3 y = iv y) by (intros y Hy; apply Hold; intros c Hc Hcy; apply Hy; eapply tanc_trans; [by apply tanc_kid|done]).
        apply (ok_at_ext m iv); [by apply Hn| |by apply Hstale]. intros c Hc. destruct (decide (c = a)) as [->|Hca]; [done|]. apply Hn. intros Hac.
        destruct (tanc_up m o SH a x c Hc Hac) as [?|?]; [by apply Hca|done].
  - intros x Hxa. apply Hold. intros c Hc Hcx. assert (x = a) as -> by (apply Hxa; eapply tanc_trans; [by apply tanc_kid|done]). by apply (kid_not_above m o SH a c).
Qed.

Lemma concentrate_ok final : exists iv', concentrate_interval powf fuel slack (build m iv fc r) a child final = Done (build m iv' fc r) /\
  (forall x, x ∈ dom m -> x <> child -> ok_at m iv' x) /\ (final = true -> ok_at m iv' child) /\ (exists lo hi, chained iv' (fun _ => 1) lo (K m child) hi) /\
  room m iv' child = room m iv a - 2 * slack /\ good (iv' child) /\ (forall x, (tanc m a x -> x = a) -> iv' x = iv x).
Proof.
  pose proof child_kid as Hk. destruct (kid_dom m o SH a child Hk) as [Had Hcd]. pose proof sums as (Hb0 & Ha0 & Esz). pose proof (sz_pos m o SH child).
  pose proof Hg as (Hg1 & Hg2 & Hg3). pose proof allocation_size as Has. pose proof (sh_nodup m o SH a) as Hnd. rewrite HK in Hnd.
  destruct pack_ok as (iv2 & S2 & Hca & Hpk & E). pose proof Hpk as ([Hf Hx] & _ & _).
  assert (Hca' : ~ tanc m child a) by (by apply (kid_not_above m o SH)).
  assert (Hsub : forall x, tanc m child x -> iv2 x = iv x).
  { intros x Hcx. apply Hx. intros b Hb Hbx. destruct (sibling_kid b Hb) as [Hbk Hne]. apply Hne. by apply (kids_apart m o SH a b child x). }
  assert (Ea : iv2 a = iv a) by (apply Hx; intros b Hb; apply (kid_not_above m o SH); by apply sibling_kid).
  assert (Hokc : ok_at m iv child) by (apply Hstale; [done|intros ->; apply Hca', tanc_refl]).
  assert (Hroomc : forall iv', iv' child = allocation -> room m iv' child = room m iv a - 2 * slack) by (intros iv' E'; unfold room at 1; by rewrite E').
  assert (Hgc : good allocation) by (unfold allocation, good, room, isz in *; cbn [start iend] in *; lia).
  assert (Hkc : forall x, x ∈ K m child -> x <> child) by (intros x Hxk ->; apply (kid_not_above m o SH child child Hxk), tanc_refl).
  unfold concentrate_interval. rstep (get_children_ok m iv fc r a Had). rewrite HK. rstep (split_children_ok l1 child l2 Hnd).
  destruct (tighten_intervals_before powf fuel slack (mk_ctx (build m iv fc r) ∅) a l1) as [[c1 sb]|e| |] eqn:E1; try done. cbn [mbind R_bind] in E |- *.
  destruct (tighten_intervals_after powf fuel slack c1 a l2) as [[c2 sa]|e| |] eqn:E2; try done. cbn [mbind R_bind] in E |- *. injection E as -> -> ->.
  unfold expand_interval_to_chosen. cbn [cstore subtree_sizes]. rstep (get_interval_ok m iv2 fc r a Had). rewrite Ea. unfold room, isz in Hroom.
  rstep (chk_ok (start (iv a) + sum_before) ltac:(lia)). rstep (chk_ok (start (iv a) + sum_before + slack) ltac:(lia)).
  rstep (chk_ok (iend (iv a) - sum_after) ltac:(lia)). rstep (chk_ok (iend (iv a) - sum_after - slack) ltac:(lia)). rstep (chk_ok (iend (iv a) - sum_after - slack - 1) ltac:(lia)).
  fold allocation. rstep (get_interval_ok m iv2 fc r child Hcd). rewrite (Hsub child (tanc_refl m child)).
  destruct (final && negb (contains allocation (iv child))) eqn:Ef.
  - rstep (chk_ok (start (iv a) + sum_before + slack + slack) ltac:(lia)). rstep (chk_ok (iend (iv a) - sum_after - slack - 1 - slack) ltac:(lia)).
    set (narrowed := mk_interval (start (iv a) + sum_before + slack + slack) (iend (iv a) - sum_after - slack - 1 - slack)).
    rstep (set_interval_ok m iv2 fc r child Hcd narrowed).
    destruct (propagate_interval_ok powf m o SH fc r (upd iv2 child narrowed) child Hcd ltac:(lia) fuel S2 Hca ltac:(lia) Hsize) as (iv3 & S3 & E3 & _ & Hx3 & Hf3).
    { rewrite upd_at. unfold narrowed, good. cbn. lia. } { rewrite upd_at. unfold narrowed, isz. cbn. lia. }
    rstep E3. cbn [cstore]. rstep (set_interval_ok m iv3 fc r child Hcd allocation). set (iv4 := upd iv3 child allocation).
    assert (Hc3 : iv3 child = narrowed) by (rewrite Hx3 by done; apply upd_at). assert (Hc4 : iv4 child = allocation) by apply upd_at.
    assert (Hch : chained iv4 (fun _ => 1) (start narrowed) (K m child) (iend narrowed - 1)).
    { apply (chained_ext iv3); [intros x Hxk; by apply upd_ne, Hkc|]. rewrite <- Hc3. by apply (fits_here m iv3 child). }
    destruct (chosen_ok iv2 iv4 Hpk Hc4) as [Hok Hframe].
    { intros x Hxc. unfold iv4. rewrite upd_ne by (intros ->; by apply Hxc, tanc_refl). rewrite Hx3 by done. apply upd_ne. intros ->. by apply Hxc, tanc_refl. }
    { intros x Hxc Hne. apply (ok_at_ext m iv3); [by apply upd_ne| |by apply Hf3]. intros y Hy. apply upd_ne. intros ->. by apply (kid_not_above m o SH x child). }
    exists iv4. split_and!; [done|done| |by eexists _, _|by apply Hroomc|by rewrite Hc4|done].
    intros _. unfold ok_at. rewrite Hc4. eapply chained_mono; [..|exact Hch]; unfold narrowed, allocation; cbn; lia.
  - cbn [mbind R_bind cstore]. rstep (set_interval_ok m iv2 fc r child Hcd allocation). set (iv3 := upd iv2 child allocation). assert (Hc3 : iv3 child = allocation) by apply upd_at.
    assert (Hin : forall x, tanc m child x -> x <> child -> iv3 x = iv x) by (intros x Hxc Hne; unfold iv3; rewrite upd_ne by done; by apply Hsub).
    assert (Hch : chained iv3 (fun _ => 1) (start (iv child)) (K m child) (iend (iv child) - 1)).
    { apply (chained_ext iv); [|done]. intros x Hxk. apply Hin; [by apply tanc_kid|by apply Hkc]. }
    destruct (chosen_ok iv2 iv3 Hpk Hc3) as [Hok Hframe].
    { intros x Hxc. apply upd_ne. intros ->. by apply Hxc, tanc_refl. }
    { intros x Hxc Hne. apply (ok_at_ext m iv); [by apply Hin| |].
      - intros y Hy. apply Hin; [eapply tanc_trans; [done|by apply tanc_kid]|]. intros ->. by apply (kid_not_above m o SH x child).
      - apply Hstale; [by apply (tanc_dom m o SH child)|]. by intros ->. }
    exists iv3. split_and!; [done|done| |by eexists _, _|by apply Hroomc|by rewrite Hc3|done].
    intros ->. cbn [andb] in Ef. apply negb_false_iff in Ef. unfold contains in Ef. apply andb_true_iff in Ef as [?%Z.leb_le ?%Z.leb_le].
    unfold ok_at. rewrite Hc3. eapply chained_mono; [..|exact Hch]; lia.
Qed.

End Concentrate.
(** ** The way to the new root *)

Lemma advance_ok slack next k : 0 <= slack -> next ∈ dom m -> forall iv a, tanc m a next -> ht m next - ht m a <= Z.of_nat k ->
  (forall x, x ∈ dom m -> x <> a -> ok_at m iv x) -> (a = next -> ok_at m iv a) -> (exists lo hi, chained iv (fun _ => 1) lo (K m a) hi) -> good (iv a) ->
  2 * slack * (ht m next - ht m a) + 4 * slack <= room m iv a ->
  exists iv', advance_loop powf k fuel slack (build m iv fc r) a next = Done (build m iv' fc r) /\ fits m iv' o /\ iv' o = iv o /\
    room m iv a - 2 * slack * (ht m next - ht m a) <= room m iv' next.
Proof.
  intros Hsl Hnd. induction k as [|k IH]; intros iv a Ht Hk Hok Hlast Hch Hg Hroom; cbn [advance_loop].
  all: case_bool_decide as Hb; [subst next; exists iv; split_and!; [done| |done|lia]; intros x Hx; destruct (decide (x = a)) as [->|Hne]; [by apply Hlast|];
    apply Hok; [by apply (tanc_dom m o SH o x Hx), (sh_root m o SH)|done]|].
  { destruct (tanc_height m o SH a next Ht) as [?|?]; [done|lia]. }
  destruct (tanc_down m a next Ht Hb) as (c & Hc & Hcn). destruct (kid_dom m o SH a c Hc) as [Had Hcd]. destruct (sh_kid m o SH a c Hc) as (_ & _ & Hh).
  assert (Hfc : fits m iv c).
  { intros x Hx. apply Hok; [by apply (tanc_dom m o SH c)|]. intros ->. by apply (kid_not_above m o SH a c). }
  destruct (fits_inside m iv c next Hfc Hcn) as (? & ? & ?). destruct Hch as (lo & hi & Hch).
  rewrite (next_chain_ok m o SH fc r iv a c next (chained_ascending iv _ _ _ Hch) Hnd Hc); [|done|done|done|].
  2: { intros i j b Hi Hij Hbj. by apply (chained_after iv (fun _ => 1) lo (K m a) hi i j c b (fun _ => Z.le_0_1)). }
  cbn [mbind R_bind]. pose proof Hc as (l1 & l2 & E)%list_elem_of_split.
  assert (Hcn' : ht m c <= ht m next) by (destruct (tanc_height m o SH c next Hcn) as [->|?]; lia).
  destruct (concentrate_ok iv a c l1 l2 slack E Hok Hg Hsl ltac:(nia) (bool_decide (c = next))) as (iv1 & E1 & Hok1 & Hfin & Hch1 & Hr1 & Hg1 & Hfr). rstep E1.
  destruct (IH iv1 c Hcn ltac:(lia) Hok1 ltac:(intros ->; apply Hfin; by apply bool_decide_eq_true_2) Hch1 Hg1 ltac:(rewrite Hr1; nia)) as (iv' & E' & Hf & Ho & Hr).
  exists iv'. split_and!; [done|done| |].
  - rewrite Ho. apply Hfr. intros Hao. symmetry. by apply (root_top m o SH).
  - rewrite Hr1 in Hr. nia.
Qed.

(** ** The choice of the new root *)

Section Choose.
Context (iv : Hash -> Interval) (Hfit : fits m iv o).

Lemma chain_query_ok a b : a ∈ dom m -> b ∈ dom m ->
  exists res : bool, is_chain_ancestor_of (build m iv fc r) a b = Done res /\ (res = true <-> tanc m a b).
Proof.
  intros Ha Hb. unfold is_chain_ancestor_of. rstep (get_interval_ok m iv fc r a Ha). rstep (get_interval_ok m iv fc r b Hb). eexists. split; [done|].
  apply (contains_tanc m o SH iv o); [done|by apply (tanc_root m o SH)..].
Qed.

Lemma common_ancestor_ok root k : root ∈ dom m -> forall b, b ∈ dom m -> ht m b < Z.of_nat k ->
  exists c, find_common_tree_ancestor k (build m iv fc r) b root = Done c /\ tanc m c b /\ tanc m c root /\ (forall x, tanc m x b -> tanc m x root -> tanc m x c).
Proof.
  intros Hroot. induction k as [|k IH]; intros b Hb Hk; [pose proof (sh_height m o SH b); lia|]. cbn [find_common_tree_ancestor].
  destruct (chain_query_ok b root Hb Hroot) as (res & E & Hres). rstep E. destruct res; [exists b; split_and!; [done|apply tanc_refl|by apply Hres|done]|].
  assert (Hbo : b <> o) by (intros ->; assert (false = true) by (by apply Hres, (tanc_root m o SH)); done).
  pose proof (sh_par m o SH b Hb Hbo) as Hk'. destruct (kid_dom m o SH _ _ Hk') as [Hp _]. destruct (sh_kid m o SH _ _ Hk') as (_ & _ & ?).
  rstep (get_parent_ok m iv fc r b Hb). destruct (IH (P m b) Hp ltac:(lia)) as (c & E' & Hcb & Hcr & Hlast). exists c. split_and!; [done| |done|].
  - apply (tanc_trans m c (P m b) b); [done|by apply tanc_kid].
  - intros x Hxb Hxr. apply Hlast; [|done]. apply (tanc_parent m o SH); [done..|]. intros ->. by apply Hres in Hxr.
Qed.

Lemma next_ok a c d : c ∈ K m a -> tanc m c d -> a ∈ dom m -> d ∈ dom m -> get_next_chain_ancestor_unchecked (build m iv fc r) d a = Done c.
Proof.
  intros Hc Hcd Ha Hd. assert (Hok : ok_at m iv a) by (by apply Hfit, (tanc_root m o SH)).
  destruct (fits_inside m iv c d) as (? & ? & ?); [apply (fits_below m iv o); [done|]; apply (tanc_root m o SH); by destruct (kid_dom m o SH a c Hc)|done|].
  apply (next_chain_ok m o SH fc r iv a c d (chained_ascending iv _ _ _ Hok) Hd Hc); [done|done|done|].
  intros i j b Hi Hij Hb. by apply (chained_after iv (fun _ => 1) _ _ _ i j c b (fun _ => Z.le_0_1) Hok).
Qed.

Lemma next_root_ok hint depth k : 0 < depth -> hint ∈ dom m -> forall next, tanc m next hint -> next <> hint -> ht m hint - ht m next <= Z.of_nat k ->
  exists root, next_root_loop k (build m iv fc r) hint next (ht m hint) depth = Done root /\ towards (tanc m) (fun x => x ∈ dom m) (ht m) depth hint next root.
Proof.
  intros Hdep Hh. induction k as [|k IH]; intros next Ht Hne Hk; [destruct (tanc_height m o SH next hint Ht); [done|lia]|]. cbn [next_root_loop].
  destruct (tanc_down m next hint Ht Hne) as (c & Hc & Hch). destruct (kid_dom m o SH next c Hc) as [Hnd Hcd]. destruct (sh_kid m o SH next c Hc) as (_ & _ & ?).
  rstep (next_ok next c hint Hc Hch Hnd Hh). rstep (get_height_ok m iv fc r c Hcd).
  assert (Hle : c = hint \/ ht m c < ht m hint) by (by apply (tanc_height m o SH)).
  assert (Hway : forall x, tanc m next x -> tanc m x hint -> x = next \/ tanc m c x).
  { intros x Hnx Hxh. destruct (tanc_linear m o SH x c hint Hxh Hch) as [Hxc|?]; [|by right]. destruct (tanc_up m o SH x next c Hc Hxc) as [->|Hxn]; [right; apply tanc_refl|].
    left. by apply (tanc_antisym m o SH). }
  destruct (Z.ltb_spec (ht m hint) (ht m c)) as [Hlt|_]; [destruct Hle as [->|?]; lia|].
  destruct (Z.ltb_spec (ht m hint - ht m c) depth) as [Hlt|Hge].
  - exists next. split; [done|]. split_and!; [apply tanc_refl|done|by left|]. intros x Hx Hnx Hxh Hd. destruct (Hway x Hnx Hxh) as [->|Hcx]; [apply tanc_refl|].
    destruct (tanc_height m o SH c x Hcx) as [->|?]; lia.
  - destruct (IH c Hch) as (root & E & Hcr & Hrh & Hd & Hlast); [intros ->; lia|lia|]. pose proof (tanc_trans m next c root (tanc_kid m next c Hc) Hcr) as Hnr.
    exists root. split; [done|]. split_and!; [done|done|right; destruct Hd as [->|?]; lia|].
    intros x Hx Hnx Hxh Hxd. destruct (Hway x Hnx Hxh) as [->|Hcx]; [done|by apply Hlast].
Qed.

Lemma find_next_ok current hint depth slack : 0 < depth -> 0 < slack -> current ∈ dom m -> hint ∈ dom m -> current <> hint ->
  exists ancestor next, find_next_reindex_root fuel (build m iv fc r) current hint depth slack = Done (ancestor, next) /\
    tanc m ancestor next /\ next ∈ dom m /\ tanc m ancestor current /\ root_after (tanc m) (fun x => x ∈ dom m) (ht m) depth slack hint current next.
Proof.
  intros Hdep Hsl Hc Hh Hne. unfold find_next_reindex_root. rstep (get_height_ok m iv fc r hint Hh). pose proof (max_height_ge m hint Hh) as Hmh. pose proof (sh_height m o SH) as Hh0.
  destruct (chain_query_ok current hint Hc Hh) as (res & E & Hres). rstep E. destruct res.
  - destruct (next_root_ok hint depth fuel Hdep Hh current ltac:(by apply Hres) Hne ltac:(specialize (Hh0 current); lia)) as (root & E' & Hto). cbn [mbind R_bind]. rstep E'.
    pose proof Hto as (Hr1 & Hr2 & _). exists current, root. split_and!; [done|done|by apply (tanc_dom_l m o SH root hint)|apply tanc_refl|].
    split_and!; [done|intros []; by apply Hres..].
  - assert (Hnt : ~ tanc m current hint) by (intros Ht; by apply Hres in Ht). rstep (get_height_ok m iv fc r current Hc). destruct (_ || _) eqn:Eh.
    + exists current, current. split_and!; [done|apply tanc_refl|done|apply tanc_refl|]. split_and!; [done|done|]. intros _ Hge.
      apply orb_true_iff in Eh as [?%Z.ltb_lt|?%Z.ltb_lt]; lia.
    + apply orb_false_iff in Eh as [?%Z.ltb_ge ?%Z.ltb_ge].
      destruct (common_ancestor_ok current fuel Hc hint Hh ltac:(lia)) as (c & E' & Hch & Hcc & Hlast). rstep E'. cbn [mbind R_bind].
      assert (c <> hint) by (intros ->; destruct (tanc_height m o SH _ _ Hcc) as [->|?]; [done|lia]).
      destruct (next_root_ok hint depth fuel Hdep Hh c Hch ltac:(done) ltac:(specialize (Hh0 c); lia)) as (root & E2 & Hto). rstep E2. pose proof Hto as (Hr1 & Hr2 & _).
      exists c, root. split_and!; [done|done|by apply (tanc_dom_l m o SH root hint)|done|]. split_and!; [done|lia|]. intros _ _.
      exists c. split_and!; [by apply (tanc_dom_l m o SH c hint)|done|done|intros x _; apply Hlast|done].
Qed.

(** A hint that is the root itself has no child on the way to it. *)
Lemma next_self a : a ∈ dom m -> get_next_chain_ancestor_unchecked (build m iv fc r) a a = Err BadQuery.
Proof.
  intros Ha. unfold get_next_chain_ancestor_unchecked. rstep (get_children_ok m iv fc r a Ha).
  assert (Hok : ok_at m iv a) by (by apply Hfit, (tanc_root m o SH)).
  destruct (search_none m fc r iv (K m a) (chained_ascending iv _ _ _ Hok) ltac:(intros h Hk; by destruct (kid_dom m o SH a h Hk)) a Ha) as (i & E & _).
  - intros c Hc. destruct (chained_elem iv _ (fun _ => Z.le_0_1) _ _ _ c Hok Hc) as (_ & Hs & _). unfold isz in Hs. lia.
  - intros c Hc. destruct (chained_elem iv _ (fun _ => Z.le_0_1) _ _ _ c Hok Hc) as (_ & _ & ?). lia.
  - by rstep E.
Qed.

Lemma next_root_self a k hh depth : a ∈ dom m -> (0 < k)%nat -> next_root_loop k (build m iv fc r) a a hh depth = Err BadQuery.
Proof. intros Ha Hk. destruct k as [|k]; [lia|]. cbn [next_root_loop]. by rstep (next_self a Ha). Qed.

Lemma find_next_self current depth slack : current ∈ dom m -> find_next_reindex_root fuel (build m iv fc r) current current depth slack = Err BadQuery.
Proof.
  intros Hc. unfold find_next_reindex_root. rstep (get_height_ok m iv fc r current Hc). destruct (chain_query_ok current current Hc Hc) as (res & E & Hres). rstep E.
  destruct res; [|by pose proof (proj2 Hres (tanc_refl m current))]. cbn [mbind R_bind]. pose proof (max_height_ge m current Hc). pose proof (sh_height m o SH current).
  by rewrite next_root_self by (done || lia).
Qed.

End Choose.
End Tree.

(** Moving the root keeps the intervals nested and costs it little room. *)
Lemma try_advancing_ok powf m o fc root fuel iv hint depth slack : shape m o -> max_height m < Z.of_nat fuel -> (size m <= fuel)%nat -> Z.of_nat (size m) < 2 ^ 62 ->
  fits m iv o -> good (iv o) -> root ∈ dom m -> hint ∈ dom m -> root <> hint -> 0 < depth -> 0 < slack -> 2 * slack * max_height m + 4 * slack <= room m iv root ->
  exists iv' root', try_advancing_reindex_root powf fuel (build m iv fc (Some root)) hint depth slack = Done (build m iv' fc (Some root')) /\
    fits m iv' o /\ iv' o = iv o /\ root' ∈ dom m /\ room m iv root - 2 * slack * max_height m <= room m iv' root' /\
    root_after (tanc m) (fun x => x ∈ dom m) (ht m) depth slack hint root root'.
Proof.
  intros SH Hheight Hsize Hsmall Hfit Hgo Hroot Hhint Hne Hdep Hsl Hroom. unfold try_advancing_reindex_root. unfold get_reindex_root. cbn [build reindex_root of_option mbind R_bind].
  destruct (find_next_ok m o SH fc (Some root) fuel Hheight Hsize iv Hfit root hint depth slack) as (a & next & E & Han & Hnd & Har & Hafter); [done..|]. rstep E.
  pose proof (sh_height m o SH) as Hh0. pose proof (max_height_ge m next Hnd) as Hmn. pose proof (Hh0 a). pose proof (Hh0 next).
  case_bool_decide as Hb; [subst next; exists iv, root; split_and!; [done..|nia|done]|].
  assert (Had : a ∈ dom m) by (by apply (tanc_dom_l m o SH a next)). pose proof (tanc_root m o SH a Had) as Hoa. pose proof (fits_below m iv o a Hfit Hoa) as Hfa.
  pose proof (room_below m o SH iv a root Hfa Har) as Hra. destruct (fits_inside m iv o a Hfit Hoa) as (? & ? & ?). destruct Hgo as (? & ? & ?).
  destruct (advance_ok powf m o SH fc (Some root) fuel Hheight Hsize Hsmall slack next fuel ltac:(lia) Hnd iv a Han) as (iv' & E' & Hf' & Ho' & Hr').
  - lia.
  - intros x Hx _. by apply Hfit, (tanc_root m o SH).
  - intros _. by apply fits_here.
  - eexists _, _. by apply (fits_here m iv a).
  - unfold good. lia.
  - nia.
  - rstep E'. exists iv', next. split_and!; [done|done|done|done|nia|done].
Qed.

(** The root as a hint: the query for the next block fails, and nothing is written. *)
Lemma try_advancing_self powf m o fc root fuel iv depth slack : shape m o -> max_height m < Z.of_nat fuel -> (size m <= fuel)%nat -> fits m iv o -> root ∈ dom m ->
  try_advancing_reindex_root powf fuel (build m iv fc (Some root)) root depth slack = Err BadQuery.
Proof.
  intros SH Hheight Hsize Hfit Hroot. unfold try_advancing_reindex_root, get_reindex_root. cbn [build reindex_root of_option mbind R_bind].
  by rstep (find_next_self m o SH fc (Some root) fuel Hheight Hsize iv Hfit root depth slack Hroot).
Qed.

End ReachabilityRoot.
