(* ===== verification/ReachabilityProofs.v ===== *)
(** * The reachability service answers for the DAG

    Adding a block, moving the reindex root and deleting a block keep the intervals and
    the covering sets right, so that the queries decide ancestry. *)
From Stdlib Require Import ZArith Lia.
From stdpp Require Import base numbers list gmap.
From S2P Require Import Prelude Float64 Ghostdag Reachability ReachabilityTree ReachabilityOps ReachabilityReindex ReachabilityRoot.
Import Ghostdag.Ghostdag Reachability.Reachability ReachabilityTree.ReachabilityTree ReachabilityOps.ReachabilityOps ReachabilityReindex.ReachabilityReindex
  ReachabilityRoot.ReachabilityRoot.
Open Scope Z_scope.

Module ReachabilityProofs.

(** ** A new leaf *)

Section Leaf.
Context (m0 : tree) (o : Hash) (SH0 : shape m0 o) (p n : Hash) (Hp : p ∈ dom m0) (Hn : n ∉ dom m0) (Hnone : n <> NONE).

Definition add_leaf : tree := <[n := mk_node [] p (ht m0 p + 1)]> (<[p := mk_node (K m0 p ++ [n]) (P m0 p) (ht m0 p)]> m0).
Let m := add_leaf.

Lemma leaf_ne x : x ∈ dom m0 -> x <> n.
Proof. by intros Hx ->. Qed.

Lemma leaf_dom x : x ∈ dom m <-> x = n \/ x ∈ dom m0.
Proof. unfold m, add_leaf. rewrite !dom_insert, !elem_of_union, !elem_of_singleton. split; [|tauto]. intros [?|[->|?]]; auto. Qed.

Lemma leaf_K x : K m x = if decide (x = n) then [] else if decide (x = p) then K m0 p ++ [n] else K m0 x.
Proof.
  unfold K at 1, m, add_leaf. destruct (decide (x = n)) as [->|H1]; [by rewrite lookup_insert_eq|]. rewrite lookup_insert_ne by done.
  destruct (decide (x = p)) as [->|H2]; [by rewrite lookup_insert_eq|]. by rewrite lookup_insert_ne.
Qed.
Lemma leaf_P x : P m x = if decide (x = n) then p else P m0 x.
Proof.
  unfold P at 1, m, add_leaf. destruct (decide (x = n)) as [->|H1]; [by rewrite lookup_insert_eq|]. rewrite lookup_insert_ne by done.
  destruct (decide (x = p)) as [->|H2]; [by rewrite lookup_insert_eq|]. by rewrite lookup_insert_ne.
Qed.
Lemma leaf_ht x : ht m x = if decide (x = n) then ht m0 p + 1 else ht m0 x.
Proof.
  unfold ht at 1, m, add_leaf. destruct (decide (x = n)) as [->|H1]; [by rewrite lookup_insert_eq|]. rewrite lookup_insert_ne by done.
  destruct (decide (x = p)) as [->|H2]; [by rewrite lookup_insert_eq|]. by rewrite lookup_insert_ne.
Qed.

Lemma leaf_kid x c : c ∈ K m x <-> c ∈ K m0 x \/ (x = p /\ c = n).
Proof.
  rewrite leaf_K. pose proof (leaf_ne p Hp). destruct (decide (x = n)) as [->|H1].
  - split; [by intros ?%elem_of_nil|]. intros [Hc|[? _]]; [|done]. by destruct (kid_dom m0 o SH0 n c Hc).
  - destruct (decide (x = p)) as [->|H2]; [|tauto]. rewrite elem_of_app, list_elem_of_singleton. tauto.
Qed.

Lemma leaf_shape : shape m o.
Proof.
  pose proof (leaf_ne p Hp) as Hpn. pose proof (sh_root m0 o SH0) as Ho. pose proof (leaf_ne o Ho) as Hon. split.
  - apply leaf_dom. auto.
  - rewrite leaf_dom. intros [?|?]; [done|]. by apply (sh_none m0 o SH0).
  - rewrite leaf_P, decide_False by done. apply (sh_top m0 o SH0).
  - intros x c [Hc|[-> ->]]%leaf_kid.
    + destruct (sh_kid m0 o SH0 x c Hc) as (Hd & HP & Hh). destruct (kid_dom m0 o SH0 x c Hc) as [Hx _].
      rewrite leaf_dom, leaf_P, !leaf_ht, !decide_False by (by apply leaf_ne). auto.
    + rewrite leaf_dom, leaf_P, !leaf_ht. rewrite (decide_False (P := p = n)), !(decide_True (P := n = n)) by done. split_and!; [by left|done|lia].
  - intros c [->|Hc]%leaf_dom Hco; apply leaf_kid.
    + right. by rewrite leaf_P, decide_True.
    + left. rewrite leaf_P, decide_False by (by apply leaf_ne). by apply (sh_par m0 o SH0).
  - intros x. rewrite leaf_K. destruct (decide (x = n)); [constructor|]. destruct (decide (x = p)); [|apply (sh_nodup m0 o SH0)].
    apply NoDup_app. split_and!; [apply (sh_nodup m0 o SH0)| |apply NoDup_singleton]. intros c Hc ->%list_elem_of_singleton.
    by destruct (kid_dom m0 o SH0 p n Hc).
  - intros h. rewrite leaf_ht. pose proof (sh_height m0 o SH0 p). pose proof (sh_height m0 o SH0 h). destruct (decide (h = n)); lia.
Qed.

Lemma leaf_below x : tanc m n x -> x = n.
Proof. intros Hx. inversion Hx as [|? c ? Hc]; subst; [done|]. rewrite leaf_K, decide_True in Hc by done. by apply elem_of_nil in Hc. Qed.

Lemma leaf_tanc a b : b <> n -> tanc m a b <-> tanc m0 a b.
Proof.
  intros Hb. split.
  - intros Ht. induction Ht as [|a c b Hc Ht IH]; [apply tanc_refl|]. apply leaf_kid in Hc as [Hc|[-> ->]]; [|by apply leaf_below in Ht].
    eapply tanc_trans; [by apply tanc_kid|by apply IH].
  - intros Ht. induction Ht as [|a c b Hc Ht IH]; [apply tanc_refl|]. eapply tanc_trans; [apply tanc_kid, leaf_kid; by left|by apply IH].
Qed.

Lemma leaf_above a : tanc m a n <-> a = n \/ tanc m0 a p.
Proof.
  assert (Hk : n ∈ K m p) by (apply leaf_kid; auto). rewrite <- (leaf_tanc a p) by (by apply leaf_ne). split.
  - intros Ht. apply (tanc_up m o leaf_shape a p n Hk Ht).
  - intros [->|Ht]; [apply tanc_refl|]. eapply tanc_trans; [done|by apply tanc_kid].
Qed.

Lemma leaf_sz x : x <> n -> sz m x <= sz m0 x + 1.
Proof.
  intros Hx. unfold sz. assert (Hl : (length (desc m x) <= length (n :: desc m0 x))%nat); [|cbn in Hl; lia].
  apply submseteq_length, NoDup_submseteq; [apply (desc_nodup m o leaf_shape)|]. intros y Hy%(elem_of_desc m o leaf_shape).
  destruct (decide (y = n)) as [->|Hne]; [by left|]. right. apply (elem_of_desc m0 o SH0). by apply leaf_tanc.
Qed.

Lemma leaf_size : size m = S (size m0).
Proof.
  unfold m, add_leaf. rewrite map_size_insert_None, map_size_insert_Some; [done|by apply elem_of_dom|].
  rewrite lookup_insert_ne by (by apply leaf_ne). by apply not_elem_of_dom.
Qed.

Lemma leaf_max_height h : max_height m0 <= h -> ht m0 p < h -> max_height m <= h.
Proof.
  intros Hm Hph. pose proof (max_height_ge m0 p Hp). pose proof (sh_height m0 o SH0 p). apply max_height_le; [lia|]. intros x Hx. rewrite leaf_ht.
  destruct (decide (x = n)) as [->|Hne]; [lia|]. apply leaf_dom in Hx as [?|Hx]; [done|]. pose proof (max_height_ge m0 x Hx). lia.
Qed.

End Leaf.

(** ** Adding a block to the tree *)

Section AddTree.
Context (powf : Z -> Z -> Z) (m0 : tree) (o : Hash) (SH0 : shape m0 o) (p n : Hash) (Hp : p ∈ dom m0) (Hn : n ∉ dom m0) (Hnone : n <> NONE).
Context (root : Hash) (Hroot : root ∈ dom m0) (fuel : nat) (slack : Z) (Hslack : 0 <= slack).
Let m := add_leaf m0 p n.
Let SH : shape m o := leaf_shape m0 o SH0 p n Hp Hn Hnone.
Context (Hheight : max_height m < Z.of_nat fuel) (Hsize : (size m <= fuel)%nat) (Hsmall : Z.of_nat (size m) < 2 ^ 62) (Hhigh : max_height m < 2 ^ 62).

Lemma new_kid : n ∈ K m p.
Proof. apply (leaf_kid m0 o SH0); auto. Qed.

(** While a block [n] without space waits *)
Section Reindex.
Context (fc : Hash -> list Hash) (iv : Hash -> Interval) (Hfit : fits m0 iv o) (Hgo : good (iv o)) (Hempty : iv n = mk_interval (iend (iv p)) (iend (iv p) - 1)).
Context (Hroom : sz m root + Z.of_nat (size m) + slack * ht m root <= isz (iv root)).

Lemma old_ok x : x ∈ dom m0 -> ok_at m0 iv x.
Proof. intros Hx. by apply Hfit, (tanc_root m0 o SH0). Qed.

Lemma old_good x : x ∈ dom m0 -> good (iv x).
Proof.
  intros Hx. destruct (fits_inside m0 iv o x Hfit (tanc_root m0 o SH0 x Hx)) as (? & ? & ?). destruct Hgo as (? & ? & ?). unfold good. lia.
Qed.

Lemma old_nonempty x : x ∈ dom m0 -> start (iv x) <= iend (iv x).
Proof. intros Hx. apply (ok_nonempty m0), old_ok, Hx. Qed.

Lemma waiting_almost : almost m n iv.
Proof.
  intros x Hx HA. apply (leaf_dom m0 p n Hp) in Hx as [->|Hx]; [destruct HA; apply tanc_refl|]. unfold m. rewrite (leaf_K m0 p n).
  rewrite (decide_False (P := x = n)) by (by apply (leaf_ne m0 n Hn)).
  assert (Hw : chained iv (need_but n) (start (iv x)) (K m0 x) (iend (iv x) - 1)).
  { eapply chained_weaken; [|exact (old_ok x Hx)]. intros c _. unfold need_but. case_decide; lia. }
  destruct (decide (x = p)) as [->|Hne]; [|done]. apply chained_app. exists (iend (iv p)). split; [done|]. cbn [chained]. rewrite Hempty. unfold need_but, isz.
  rewrite decide_True by done. cbn. lia.
Qed.

(** So does every block above it. *)
Lemma waiting_above A : tanc m A n -> almost m A iv.
Proof.
  intros HA x Hx HAx. assert (Hnx : ~ tanc m n x) by (intros Ht; apply (leaf_below m0 p n) in Ht as ->; done).
  eapply chained_weaken; [|exact (waiting_almost x Hx Hnx)]. intros c Hc. unfold need_but. destruct (decide (c = n)) as [->|Hne]; [|case_decide; lia].
  rewrite decide_True; [done|]. symmetry. destruct (tanc_up m o SH A x n Hc HA) as [?|?]; [done|]. by destruct HAx.
Qed.

Lemma waiting_good x : x ∈ dom m -> good (iv x).
Proof.
  intros [->|Hx]%(leaf_dom m0 p n Hp); [|by apply old_good]. rewrite Hempty. pose proof (old_good p Hp) as (? & ? & ?). pose proof (old_nonempty p Hp).
  unfold good. cbn. lia.
Qed.

Lemma waiting_ascending x : x ∈ dom m0 -> ascending iv (K m x).
Proof.
  intros Hx. unfold m. rewrite (leaf_K m0 p n), decide_False by (by apply (leaf_ne m0 n Hn)).
  pose proof (chained_ascending iv _ _ _ (old_ok x Hx)) as Hasc. destruct (decide (x = p)) as [->|Hne]; [|done].
  intros i j a b Hij Ha Hb. destruct (decide (j < length (K m0 p))%nat) as [Hj|Hj].
  - rewrite lookup_app_l in Ha, Hb by lia. by apply (Hasc i j).
  - assert (Hjl : j = length (K m0 p)) by (apply lookup_lt_Some in Hb; rewrite length_app in Hb; cbn in Hb; lia). subst j.
    rewrite list_lookup_middle in Hb by done. injection Hb as <-. rewrite lookup_app_l in Ha by done.
    destruct (ok_kid m0 iv p a (old_ok p Hp) ltac:(by eapply list_elem_of_lookup_2)) as (? & ? & ?). rewrite Hempty. cbn. lia.
Qed.

(** A block with enough space is propagated. *)
Lemma waiting_propagate cur sizes : tanc m cur n -> cur <> n -> ~ (tanc m cur root /\ cur <> root) -> cache_ok m sizes -> sz m cur <= isz (iv cur) ->
  exists iv' sizes', propagate_interval powf fuel (mk_ctx (build m iv fc (Some root)) sizes) cur = Done (mk_ctx (build m iv' fc (Some root)) sizes') /\
    fits m iv' o /\ iv' o = iv o /\ iv' root = iv root.
Proof.
  intros Hcur Hne Hnr Hca Hs. assert (Hcd : cur ∈ dom m) by (apply (tanc_dom_l m o SH cur n Hcur), (leaf_dom m0 p n Hp); auto).
  destruct (propagate_interval_ok powf m o SH fc (Some root) iv cur Hcd ltac:(lia) fuel sizes Hca ltac:(lia) Hsize (waiting_good cur Hcd) Hs) as (iv' & S' & E & _ & Hx & Hf).
  exists iv', S'. split_and!; [done| | |].
  - intros x Ho. pose proof (tanc_dom m o SH o x Ho (sh_root m o SH)) as Hd. destruct (tanc_dec m o SH cur x Hd) as [Ht|Ht]; [by apply Hf|].
    unfold ok_at. rewrite (Hx x) by done. apply (chained_ext iv).
    + intros c Hc. apply Hx. intros Hcc. destruct (tanc_up m o SH cur x c Hc Hcc) as [?|?]; [done|]. by destruct Ht.
    + eapply chained_weaken; [|apply waiting_almost; [done|]].
      * intros c Hc. unfold need_but. rewrite decide_False; [done|]. intros ->. by destruct (tanc_up m o SH cur x n Hc Hcur).
      * intros Hnx. apply (leaf_below m0 p n) in Hnx as ->. done.
  - apply Hx. intros Ht. symmetry. by apply (root_top m o SH).
  - apply Hx. intros Ht. destruct (decide (root = cur)) as [|Hne']; [done|]. destruct Hnr. auto.
Qed.

Lemma reindex_loop_ok k : forall cur sizes, tanc m cur n -> ~ (tanc m cur root /\ cur <> root) -> cache_ok m sizes -> ht m cur < Z.of_nat k ->
  exists iv' sizes', reindex_loop powf k fuel slack (mk_ctx (build m iv fc (Some root)) sizes) cur root = Done (mk_ctx (build m iv' fc (Some root)) sizes') /\
    fits m iv' o /\ iv' o = iv o /\ isz (iv root) - (Z.of_nat (size m) + slack * ht m root) <= isz (iv' root).
Proof.
  pose proof (sh_height m o SH root) as Hhr. induction k as [|k IH]; intros cur sizes Hcur Hnr Hca Hk; [pose proof (sh_height m o SH cur); lia|].
  assert (Hcd : cur ∈ dom m) by (apply (tanc_dom_l m o SH cur n Hcur), (leaf_dom m0 p n Hp); auto). pose proof (sz_bound m o SH cur Hcd) as Hsb.
  assert (Hrd : root ∈ dom m) by (apply (leaf_dom m0 p n Hp); auto). cbn [reindex_loop cstore]. rstep (get_interval_ok m iv fc (Some root) cur Hcd).
  destruct (count_subtrees_ok m o SH fc (Some root) iv cur Hcd ltac:(lia) fuel sizes Hca ltac:(lia) ltac:(lia)) as (S1 & E1 & Hca1 & Hin). rstep E1.
  rstep (isize_ok (iv cur) (waiting_good cur Hcd)). cbn [subtree_sizes]. unfold size_of_subtree. rewrite (cached_below m S1 cur cur Hca1 Hin (tanc_refl m cur)). cbn [mbind R_bind].
  destruct (Z.leb_spec (sz m cur) (isz (iv cur))) as [Hle|Hgt].
  - assert (Hne : cur <> n) by (intros ->; rewrite Hempty in Hle; unfold isz in Hle; cbn in Hle; pose proof (sz_pos m o SH n); lia).
    destruct (waiting_propagate cur S1 Hcur Hne Hnr Hca1 Hle) as (iv' & S' & E & ? & ? & Hr). exists iv', S'. split_and!; [done|done|done|]. rewrite Hr. nia.
  - assert (Hcr : cur <> root) by (intros ->; nia).
    assert (Hco : cur <> o) by (intros ->; apply Hnr; split; [by apply (tanc_root m o SH)|done]).
    set (q := P m cur). pose proof (sh_par m o SH cur Hcd Hco) as Hqk. fold q in Hqk. destruct (kid_dom m o SH q cur Hqk) as [Hqd _].
    assert (Hqn : q <> n) by (intros Hq; rewrite Hq in Hqk; unfold m in Hqk; rewrite (leaf_K m0 p n), decide_True in Hqk by done; by apply elem_of_nil in Hqk).
    assert (Hq0 : q ∈ dom m0) by (apply (leaf_dom m0 p n Hp) in Hqd as [?|?]; done).
    assert (Hqt : tanc m q n) by (eapply tanc_trans; [by apply tanc_kid|done]).
    cbn [cstore]. rstep (get_parent_ok m iv fc (Some root) cur Hcd). fold q. rewrite bool_decide_eq_false_2 by (intros Hq; apply (sh_none m o SH); by rewrite <- Hq).
    rewrite bool_decide_eq_false_2 by done. unfold is_strict_chain_ancestor_of.
    rstep (get_interval_ok m iv fc (Some root) q Hqd). rstep (get_interval_ok m iv fc (Some root) root Hrd).
    pose proof (strictly_contains_tanc m0 o SH0 iv o q root Hfit (tanc_root m0 o SH0 q Hq0) (tanc_root m0 o SH0 root Hroot)) as Hsc.
    rewrite <- (leaf_tanc m0 o SH0 p n Hp Hn q root) in Hsc by (by apply (leaf_ne m0 n Hn)). fold m in Hsc.
    destruct (strictly_contains (iv q) (iv root)) eqn:Es.
    + destruct (proj1 Hsc eq_refl) as [Hqr Hqne]. destruct (tanc_down m q root Hqr Hqne) as (D & HD & HDr).
      assert (HcD : cur <> D) by (intros ->; by apply Hnr).
      destruct (earlier_ok powf m o SH fc (Some root) fuel Hheight Hsize Hsmall Hhigh iv S1 cur q D root (sz m cur) slack) as (iv' & S' & E & ? & ? & Hr); try done.
      * by apply waiting_above.
      * destruct (waiting_good cur Hcd) as (? & ? & ?). unfold isz. lia.
      * by apply waiting_ascending.
      * lia.
      * exists iv', S'. split_and!; [done|done|done|lia].
    + destruct (sh_kid m o SH q cur Hqk) as (_ & _ & ?). destruct (IH q S1 Hqt) as (iv' & S' & E & ?); [|done|lia|by exists iv', S'].
      intros Hq. apply Hsc in Hq. done.
Qed.

End Reindex.
Lemma build_leaf iv fc i : build (<[n := mk_node [] p (ht m0 p + 1)]> (<[p := mk_node (K m0 p ++ [n]) (P m0 p) (ht m0 p)]> m0)) (upd iv n i) (upd fc n []) (Some root) =
  build m (upd iv n i) (upd fc n []) (Some root).
Proof. done. Qed.

Lemma fits_upd iv i : fits m0 iv o -> fits m0 (upd iv n i) o.
Proof.
  intros Hf. apply (fits_ext m0 iv); [|done]. intros x Hx. apply upd_ne, (leaf_ne m0 n Hn). by apply (tanc_dom m0 o SH0 o x Hx), (sh_root m0 o SH0).
Qed.

Lemma add_tree_ok iv fc : fits m0 iv o -> good (iv o) -> sz m0 root + 1 + Z.of_nat (size m) + slack * ht m0 root <= isz (iv root) ->
  exists iv', add_tree_block powf fuel (build m0 iv fc (Some root)) n p slack = Done (build m iv' (upd fc n []) (Some root)) /\
    fits m iv' o /\ iv' o = iv o /\ isz (iv root) - (Z.of_nat (size m) + slack * ht m0 root) <= isz (iv' root).
Proof.
  intros Hfit Hgo Hroom. pose proof (leaf_ne m0 n Hn) as Hne. pose proof (sh_height m0 o SH0 root) as Hhr. pose proof (sh_height m0 o SH0 p) as Hhp.
  pose proof (old_ok iv Hfit p Hp) as Hok. pose proof (old_good iv Hfit Hgo p Hp) as Hg. pose proof (old_nonempty iv Hfit p Hp) as Hnep. pose proof Hg as (Hg1 & _ & Hg3).
  set (lo := match last (K m0 p) with Some c => iend (iv c) + 1 | None => start (iv p) end).
  assert (Hlo : start (iv p) <= lo <= iend (iv p) /\ chained iv (fun _ => 1) (start (iv p)) (K m0 p) (lo - 1)).
  { unfold lo, ok_at in *. destruct (last (K m0 p)) as [c|] eqn:E.
    - apply last_Some in E as [l E]. rewrite E in Hok |- *. apply chained_app in Hok as (md & Hc1 & Hc2). cbn [chained] in Hc2. destruct Hc2 as (? & Hs & ?).
      apply chained_bounds in Hc1 as Hb; [|done]. unfold isz in Hs. split; [lia|]. apply chained_app. exists md. split; [done|]. cbn [chained]. unfold isz. lia.
    - apply last_None in E. rewrite E. cbn. lia. }
  destruct Hlo as [Hlo Hch].
  assert (Hrem : interval_remaining_after (build m0 iv fc (Some root)) p = Done (mk_interval lo (iend (iv p) - 1))).
  { unfold interval_remaining_after, interval_children_capacity. rstep (get_interval_ok m0 iv fc (Some root) p Hp). rstep (decrease_end_ok (iv p) Hg Hnep).
    rstep (get_children_ok m0 iv fc (Some root) p Hp). unfold lo. destruct (last (K m0 p)) as [c|] eqn:E; [|done].
    assert (Hc : c ∈ K m0 p) by (apply last_Some in E as [l ->]; apply elem_of_app; right; by left). destruct (kid_dom m0 o SH0 p c Hc) as [_ Hcd].
    rstep (get_interval_ok m0 iv fc (Some root) c Hcd). destruct (ok_kid m0 iv p c Hok Hc) as (? & ? & ?). rstep (chk_ok (iend (iv c) + 1) ltac:(lia)). done. }
  unfold add_tree_block. rstep Hrem. rstep (append_child_ok m0 iv fc (Some root) p Hp n).
  set (m1 := <[p := mk_node (K m0 p ++ [n]) (P m0 p) (ht m0 p)]> m0).
  assert (Hm1 : forall x, x ∈ dom m1 <-> x ∈ dom m0) by (intros x; unfold m1; rewrite dom_insert, elem_of_union, elem_of_singleton; split; [intros [->|?]; done|auto]).
  rstep (get_height_ok m1 iv fc (Some root) p (proj2 (Hm1 p) Hp)). assert (Hht : ht m1 p = ht m0 p) by (unfold ht at 1, m1; by rewrite lookup_insert_eq). rewrite Hht.
  unfold is_empty. rstep (isize_ok (mk_interval lo (iend (iv p) - 1)) ltac:(unfold good; cbn; lia)). unfold isz at 1. cbn [start iend].
  pose proof (max_height_ge m n ltac:(apply (leaf_dom m0 p n Hp); auto)) as Hmh. unfold m in Hmh at 1. rewrite (leaf_ht m0 p n), decide_True in Hmh by done.
  assert (Hn1 : n ∉ dom m1) by (by rewrite Hm1).
  destruct (Z.eqb_spec (iend (iv p) - 1 + 1 - lo) 0) as [He|He].
  - rstep (chk_ok (ht m0 p + 1) ltac:(lia)). rstep (insert_data_ok m1 iv fc (Some root) n p (mk_interval lo (iend (iv p) - 1)) (ht m0 p + 1) Hn1).
    unfold get_reindex_root. cbn [reindex_root of_option mbind R_bind build]. unfold reindex_intervals. unfold m1. rewrite build_leaf.
    set (iv1 := upd iv n (mk_interval lo (iend (iv p) - 1))). assert (Ep : iv1 p = iv p) by (by apply upd_ne, Hne). assert (Eo : iv1 o = iv o) by (apply upd_ne, Hne, (sh_root m0 o SH0)).
    assert (Er : iv1 root = iv root) by (by apply upd_ne, Hne).
    assert (Ehr : ht m root = ht m0 root) by (unfold m; rewrite (leaf_ht m0 p n), decide_False by (by apply Hne); done).
    pose proof (leaf_sz m0 o SH0 p n Hp Hn Hnone root (Hne root Hroot)) as Hlz. fold m in Hlz.
    destruct (reindex_loop_ok (upd fc n []) iv1 (fits_upd iv _ Hfit) ltac:(by rewrite Eo) ltac:(rewrite Ep; unfold iv1; rewrite upd_at; f_equal; lia)
      ltac:(rewrite Er, Ehr; lia) fuel n ∅) as (iv' & S' & E & Hf' & Ho' & Hr').
    + apply tanc_refl.
    + intros [Ht ?]. by apply (leaf_below m0 p n) in Ht.
    + split; [intros x k Hx; by rewrite lookup_empty in Hx|intros x c [k Hx]; by rewrite lookup_empty in Hx].
    + unfold m at 1. rewrite (leaf_ht m0 p n), decide_True by done. lia.
    + rstep E. exists iv'. rewrite Ho', Eo. rewrite Er, Ehr in Hr'. done.
  - destruct (split_half_ok (mk_interval lo (iend (iv p) - 1)) ltac:(unfold good; cbn; lia) ltac:(cbn; lia)) as (l & Hl & j & E). rstep E. cbn [fst start].
    unfold isz in Hl. cbn [start iend] in Hl. rstep (chk_ok (ht m0 p + 1) ltac:(lia)).
    rewrite (insert_data_ok m1 iv fc (Some root) n p (mk_interval lo (lo + l - 1)) (ht m0 p + 1) Hn1). unfold m1. rewrite build_leaf.
    exists (upd iv n (mk_interval lo (lo + l - 1))). split_and!; [done| |apply upd_ne, Hne, (sh_root m0 o SH0)|rewrite upd_ne by (by apply Hne); nia].
    intros x Ho. pose proof (tanc_dom m o SH o x Ho (sh_root m o SH)) as Hx. unfold ok_at, m. rewrite (leaf_K m0 p n).
    apply (leaf_dom m0 p n Hp) in Hx as [->|Hx]; [rewrite decide_True, upd_at by done; cbn; lia|]. rewrite (decide_False (P := x = n)) by (by apply Hne).
    rewrite (upd_ne _ n _ x) by (by apply Hne).
    assert (Hold : forall c, c ∈ K m0 x -> upd iv n (mk_interval lo (lo + l - 1)) c = iv c) by (intros c Hc; apply upd_ne, Hne; by destruct (kid_dom m0 o SH0 x c Hc)).
    destruct (decide (x = p)) as [->|Hxp]; [|apply (chained_ext iv); [done|by apply (old_ok iv Hfit)]].
    apply chained_app. exists lo. split; [by apply (chained_ext iv)|]. cbn [chained]. rewrite upd_at. unfold isz. cbn. lia.
Qed.

End AddTree.

(** ** Covering sets *)

(** [past] says which blocks are in the past of which, each in its own.  The future of a
    block is its subtree and the subtrees of its covering set, whose blocks are in order. *)
Record covers (m : tree) (o : Hash) (fc : Hash -> list Hash) (past : Hash -> Hash -> Prop) : Prop := {
  cv_item x y : x ∈ dom m -> y ∈ fc x -> y ∈ dom m /\ past x y /\ ~ tanc m x y;
  cv_order x i j a b : x ∈ dom m -> (i < j)%nat -> fc x !! i = Some a -> fc x !! j = Some b -> left_in m o a b;
  cv_complete x z : x ∈ dom m -> z ∈ dom m -> past x z -> tanc m x z \/ exists y, y ∈ fc x /\ tanc m y z;
  cv_chain x z : x ∈ dom m -> tanc m x z -> past x z;
  cv_trans x y z : past x y -> past y z -> past x z;
  cv_antisym x y : x ∈ dom m -> y ∈ dom m -> past x y -> past y x -> x = y }.

Section Query.
Context (m : tree) (o : Hash) (SH : shape m o) (fc : Hash -> list Hash) (r : option Hash) (iv : Hash -> Interval) (Hfit : fits m iv o).

Lemma ordered_ascending l : (forall x, x ∈ l -> x ∈ dom m) -> (forall i j a b, (i < j)%nat -> l !! i = Some a -> l !! j = Some b -> left_in m o a b) -> ascending iv l.
Proof.
  intros Hd Hl i j a b Hij Ha Hb. pose proof (left_lt m o SH iv o a b Hfit (Hl i j a b Hij Ha Hb)).
  pose proof (fits_inside m iv o a Hfit (tanc_root m o SH a (Hd a ltac:(by eapply list_elem_of_lookup_2)))). lia.
Qed.

Lemma covered_dec (l : list Hash) b : (exists y, y ∈ l /\ tanc m y b) \/ (forall y, y ∈ l -> ~ tanc m y b).
Proof.
  destruct (decide (Exists (fun y => b ∈ desc m y) l)) as [He|He].
  - left. apply Exists_exists in He as (y & Hy & Hd). exists y. split; [done|]. by apply (elem_of_desc m o SH).
  - right. intros y Hy Ht. apply He, Exists_exists. exists y. split; [done|]. by apply (elem_of_desc m o SH).
Qed.

(** The search in an ordered list finds the block above another one, or the place for it. *)
Lemma search_cases l b : b ∈ dom m -> (forall x, x ∈ l -> x ∈ dom m) ->
  (forall i j a c, (i < j)%nat -> l !! i = Some a -> l !! j = Some c -> left_in m o a c) ->
  (exists i y, l !! i = Some y /\ tanc m y b /\ binary_search_descendant (build m iv fc r) l b = Done (Found y i)) \/
  (exists i, binary_search_descendant (build m iv fc r) l b = Done (NotFound i) /\ (i <= length l)%nat /\ (forall y, y ∈ l -> ~ tanc m y b) /\
    (forall j a, (j < i)%nat -> l !! j = Some a -> iend (iv a) < iend (iv b)) /\ (forall j a, (i <= j)%nat -> l !! j = Some a -> iend (iv b) < start (iv a))).
Proof.
  intros Hb Hd Hl. pose proof (ordered_ascending l Hd Hl) as Hasc. pose proof (tanc_root m o SH b Hb) as Hob. pose proof (fits_inside m iv o b Hfit Hob) as (_ & Hnb & _).
  destruct (covered_dec l b) as [(y & Hy & Ht)|Hno].
  - left. pose proof Hy as [i Hi]%list_elem_of_lookup. pose proof (tanc_root m o SH y (Hd y Hy)) as Hoy.
    destruct (fits_inside m iv y b (fits_below m iv o y Hfit Hoy) Ht) as (? & ? & ?). exists i, y. split_and!; [done|done|].
    apply search_found; [done|done|done|done|lia|unfold contains; apply andb_true_iff; rewrite !Z.leb_le; lia|].
    intros j c Hj Hc. pose proof (left_lt m o SH iv o y c Hfit (Hl i j y c Hj Hi Hc)). lia.
  - right. destruct (search_none m fc r iv l Hasc Hd b Hb) as (i & E & Hi & Hlo & Hhi).
    + intros a Ha. apply (fits_inside m iv o a Hfit (tanc_root m o SH a (Hd a Ha))).
    + intros a Ha. pose proof (tanc_root m o SH a (Hd a Ha)) as Hoa. destruct (fits_inside m iv o a Hfit Hoa) as (_ & ? & _).
      destruct (trichotomy m o SH o a b Hoa Hob) as [?|[Hba|[Hlt|Hlt]]]; [by destruct (Hno a Ha)| | |].
      * left. apply (fits_strict m iv b a); [by apply (fits_below m iv o)|done|]. intros ->. apply (Hno a Ha), tanc_refl.
      * left. apply (left_lt m o SH iv o) in Hlt; [lia|done].
      * right. by apply (left_lt m o SH iv o) in Hlt.
    + exists i. by split_and!.
Qed.

Lemma dag_query_ok past a b : covers m o fc past -> a ∈ dom m -> b ∈ dom m ->
  exists res : bool, is_dag_ancestor_of (build m iv fc r) a b = Done res /\ (res = true <-> past a b).
Proof.
  intros Hcv Ha Hb. unfold is_dag_ancestor_of. destruct (chain_query_ok m o SH fc r iv Hfit a b Ha Hb) as (res & E & Hres). rstep E.
  destruct res; [exists true; split; [done|]; split; [intros _|done]; by apply (cv_chain m o fc past Hcv), Hres|].
  assert (Hnt : ~ tanc m a b) by (intros Ht; by apply Hres in Ht). rstep (get_fcs_ok m iv fc r a Ha).
  destruct (search_cases (fc a) b Hb) as [(i & y & Hi & Ht & E')|(i & E' & _ & Hno & _)].
  - intros x Hx. by apply (cv_item m o fc past Hcv a x Ha Hx).
  - intros i j x c. by apply (cv_order m o fc past Hcv a).
  - rstep E'. exists true. split; [done|]. split; [intros _|done].
    destruct (cv_item m o fc past Hcv a y Ha ltac:(by eapply list_elem_of_lookup_2)) as (Hyd & Hay & _).
    apply (cv_trans m o fc past Hcv a y b Hay). by apply (cv_chain m o fc past Hcv).
  - rstep E'. exists false. split; [done|]. split; [done|]. intros Hp.
    destruct (cv_complete m o fc past Hcv a b Ha Hb Hp) as [?|(y & Hy & Ht)]; [done|]. by destruct (Hno y Hy).
Qed.

End Query.

(** ** Adding a block to the DAG *)

Section AddDag.
Context (m0 : tree) (o : Hash) (SH0 : shape m0 o) (p n : Hash) (Hp : p ∈ dom m0) (Hn : n ∉ dom m0) (Hnone : n <> NONE).
Let m := add_leaf m0 p n.
Let SH : shape m o := leaf_shape m0 o SH0 p n Hp Hn Hnone.
Context (iv : Hash -> Interval) (Hfit : fits m iv o) (r : option Hash).

Lemma leaf_left a b : a <> n -> b <> n -> left_in m0 o a b -> left_in m o a b.
Proof.
  intros Ha Hb (q & l1 & c1 & l2 & c2 & l3 & Hq & E & T1 & T2). pose proof (tanc_dom m0 o SH0 o q Hq (sh_root m0 o SH0)) as Hqd. pose proof (leaf_ne m0 n Hn q Hqd) as Hqn.
  exists q, l1, c1, l2, c2, (if decide (q = p) then l3 ++ [n] else l3). split_and!.
  - by apply (leaf_tanc m0 o SH0 p n Hp Hn).
  - unfold m. rewrite (leaf_K m0 p n), decide_False by done. destruct (decide (q = p)) as [->|?]; [|done]. rewrite E. by repeat (rewrite <- ?app_assoc; cbn).
  - by apply (leaf_tanc m0 o SH0 p n Hp Hn).
  - by apply (leaf_tanc m0 o SH0 p n Hp Hn).
Qed.

(** One insertion: no item is above or below the new block. *)
Lemma insert_ok fc x : x ∈ dom m -> (forall y, y ∈ fc x -> y ∈ dom m0 /\ ~ tanc m y n) ->
  (forall i j a b, (i < j)%nat -> fc x !! i = Some a -> fc x !! j = Some b -> left_in m o a b) ->
  exists l, insert_to_future_covering_set (build m iv fc r) x n = Done (build m iv (upd fc x l) r) /\ (forall y, y ∈ l <-> y = n \/ y ∈ fc x) /\
    (forall i j a b, (i < j)%nat -> l !! i = Some a -> l !! j = Some b -> left_in m o a b).
Proof.
  intros Hx Hit Hord. unfold insert_to_future_covering_set. rstep (get_fcs_ok m iv fc r x Hx).
  assert (Hnd : n ∈ dom m) by (apply (leaf_dom m0 p n Hp); auto). pose proof (tanc_root m o SH n Hnd) as Hon.
  assert (Hdm : forall y, y ∈ fc x -> y ∈ dom m) by (intros y Hy; apply (leaf_dom m0 p n Hp); right; by apply Hit).
  destruct (search_cases m o SH fc r iv Hfit (fc x) n Hnd Hdm Hord) as [(i & y & Hi & Ht & _)|(i & E & Hi & Hno & Hlo & Hhi)].
  { destruct (Hit y ltac:(by eapply list_elem_of_lookup_2)). done. }
  rstep E. exists (take i (fc x) ++ n :: drop i (fc x)). split_and!.
  - by apply insert_fci_ok.
  - intros y. rewrite <- (take_drop i (fc x)) at 3. rewrite !elem_of_app, elem_of_cons. tauto.
  - assert (Hcmp : forall a, a ∈ fc x -> ~ tanc m a n /\ ~ tanc m n a /\ tanc m o a).
    { intros a Ha. split_and!; [by apply Hit| |by apply (tanc_root m o SH), Hdm]. intros Ht. apply (leaf_below m0 p n) in Ht as ->. by apply Hn, (Hit n). }
    assert (Hbefore : forall j a, (j < i)%nat -> fc x !! j = Some a -> left_in m o a n).
    { intros j a Hj Ha. destruct (Hcmp a ltac:(by eapply list_elem_of_lookup_2)) as (Han & Hna & Hoa). pose proof (Hlo j a Hj Ha).
      destruct (trichotomy m o SH o a n Hoa Hon) as [?|[?|[?|Hl]]]; [done|done|done|]. apply (left_lt m o SH iv o) in Hl; [|done].
      destruct (fits_inside m iv o a Hfit Hoa) as (_ & ? & _). lia. }
    assert (Hafter : forall j a, (i <= j)%nat -> fc x !! j = Some a -> left_in m o n a).
    { intros j a Hj Ha. destruct (Hcmp a ltac:(by eapply list_elem_of_lookup_2)) as (Han & Hna & Hoa). apply (fits_left m o SH iv o); [done..|]. by apply (Hhi j). }
    assert (Hlk : forall j a, (take i (fc x) ++ n :: drop i (fc x)) !! j = Some a ->
      (j < i)%nat /\ fc x !! j = Some a \/ j = i /\ a = n \/ (i < j)%nat /\ fc x !! (j - 1)%nat = Some a).
    { intros j a Ha. assert (Hlen : length (take i (fc x)) = i) by (rewrite length_take; lia). destruct (decide (j < i)%nat) as [Hj|Hj].
      - left. rewrite lookup_app_l in Ha by lia. rewrite lookup_take_lt in Ha by done. auto.
      - right. rewrite lookup_app_r in Ha by lia. rewrite Hlen in Ha. destruct (j - i)%nat as [|k] eqn:Ek; [left; cbn in Ha; split; [lia|congruence]|].
        right. change (drop i (fc x) !! k = Some a) in Ha. rewrite lookup_drop in Ha. split; [lia|]. rewrite <- Ha. f_equal. lia. }
    intros j k a b Hjk Ha Hb. apply Hlk in Ha, Hb. destruct Ha as [[? Ha]|[[? ->]|[? Ha]]], Hb as [[? Hb]|[[? ->]|[? Hb]]]; try lia.
    + by apply (Hord j k).
    + by apply (Hbefore j).
    + apply (Hord j (k - 1)%nat); [lia|done|done].
    + apply (Hafter (k - 1)%nat); [lia|done].
    + apply (Hord (j - 1)%nat (k - 1)%nat); [lia|done|done].
Qed.

Lemma add_dag_ok M : forall fc, NoDup M -> (forall x, x ∈ M -> x ∈ dom m) -> (forall x y, x ∈ M -> y ∈ fc x -> y ∈ dom m0 /\ ~ tanc m y n) ->
  (forall x i j a b, x ∈ M -> (i < j)%nat -> fc x !! i = Some a -> fc x !! j = Some b -> left_in m o a b) ->
  exists fc', add_dag_block (build m iv fc r) n M = Done (build m iv fc' r) /\ (forall x, x ∉ M -> fc' x = fc x) /\
    (forall x y, x ∈ M -> y ∈ fc' x <-> y = n \/ y ∈ fc x) /\
    (forall x i j a b, x ∈ M -> (i < j)%nat -> fc' x !! i = Some a -> fc' x !! j = Some b -> left_in m o a b).
Proof.
  induction M as [|x M IH]; intros fc Hnd Hd Hit Hord; cbn [add_dag_block].
  { exists fc. split_and!; [done|done|intros x y Hx; by apply elem_of_nil in Hx|intros x i j a b Hx; by apply elem_of_nil in Hx]. }
  apply NoDup_cons in Hnd as [HxM Hnd].
  destruct (insert_ok fc x (Hd x ltac:(left)) (fun y => Hit x y ltac:(left)) (fun i j a b => Hord x i j a b ltac:(left))) as (l & E & Hl & Hlo). rstep E.
  assert (Hne : forall y, y ∈ M -> upd fc x l y = fc y) by (intros y Hy; apply upd_ne; by intros ->).
  destruct (IH (upd fc x l)) as (fc' & E' & Hout & Hin & Hord'); [done|intros y Hy; apply Hd; by right|intros y z Hy; rewrite Hne by done; apply Hit; by right|
    intros y i j a b Hy; rewrite Hne by done; apply Hord; by right|].
  exists fc'. split_and!; [done| | |].
  - intros y Hy. rewrite Hout by (intros ?; apply Hy; by right). apply upd_ne. intros ->. apply Hy. by left.
  - intros y z [->|Hy]%elem_of_cons; [rewrite Hout by done; rewrite upd_at; apply Hl|]. rewrite Hin by done. by rewrite Hne.
  - intros y i j a b [->|Hy]%elem_of_cons; [rewrite Hout by done; rewrite upd_at; apply Hlo|]. by apply Hord'.
Qed.

(** What the new block and its mergeset mean *)
Context (fc : Hash -> list Hash) (past past' : Hash -> Hash -> Prop) (M : list Hash) (Hcv : covers m0 o fc past).
Context (Hold : forall x y, x ∈ dom m0 -> y ∈ dom m0 -> past' x y <-> past x y) (Hpar : past' p n) (Hnew : forall y, past' n y -> y = n).
Context (Hself : past' n n) (Htrans : forall x y z, past' x y -> past' y z -> past' x z).
Context (HM : NoDup M) (HMin : forall x, x ∈ M <-> x ∈ dom m0 /\ past' x n /\ ~ past x p) (Hdec : forall x, x ∈ dom m0 -> past x p \/ ~ past x p).

Lemma add_covers_ok : exists fc', add_dag_block (build m iv (upd fc n []) r) n M = Done (build m iv fc' r) /\ covers m o fc' past'.
Proof.
  pose proof (leaf_ne m0 n Hn) as Hne. destruct Hcv as [Hit Hord Hcomp Hch Htr Hanti].
  assert (HnM : n ∉ M) by (intros [? _]%HMin; done).
  assert (Hfc : forall x, x ∈ dom m0 -> upd fc n [] x = fc x) by (intros x Hx; by apply upd_ne, Hne).
  assert (Hpast : forall x, x ∈ dom m0 -> past x p -> past' x n) by (intros x Hx Hxp; apply (Htrans x p n); [by apply Hold|done]).
  destruct (add_dag_ok M (upd fc n []) HM) as (fc' & E & Hout & Hin & Hord').
  - intros x [Hx _]%HMin. apply (leaf_dom m0 p n Hp). auto.
  - intros x y [Hx [_ Hxp]]%HMin. rewrite Hfc by done. intros Hy. destruct (Hit x y Hx Hy) as (Hyd & Hxy & _). split; [done|].
    intros [->|Ht]%(leaf_above m0 o SH0 p n Hp Hn Hnone); [done|]. apply Hxp, (Htr x y p Hxy). by apply Hch.
  - intros x i j a b [Hx _]%HMin. rewrite Hfc by done. intros Hij Ha Hb.
    apply leaf_left; [apply Hne, (Hit x a Hx); by eapply list_elem_of_lookup_2|apply Hne, (Hit x b Hx); by eapply list_elem_of_lookup_2|by apply (Hord x i j)].
  - exists fc'. split; [done|].
    assert (Hsub : forall x y, x ∈ dom m0 -> y ∈ fc x -> y ∈ fc' x).
    { intros x y Hx Hy. destruct (decide (x ∈ M)) as [HxM|HxM]; [apply Hin; [done|]; right; by rewrite Hfc|]. by rewrite Hout, Hfc. }
    assert (Hn' : fc' n = []) by (rewrite Hout by done; apply upd_at).
    assert (Hitem : forall x y, x ∈ dom m0 -> y ∈ fc' x -> y ∈ fc x \/ (y = n /\ x ∈ M)).
    { intros x y Hx Hy. destruct (decide (x ∈ M)) as [HxM|HxM]; [apply Hin in Hy as [?|Hy]; [by right|left; by rewrite Hfc in Hy|done]|]. left. by rewrite Hout, Hfc in Hy. }
    split.
    + intros x y Hx Hy. apply (leaf_dom m0 p n Hp) in Hx as [->|Hx]; [rewrite Hn' in Hy; by apply elem_of_nil in Hy|].
      destruct (Hitem x y Hx Hy) as [Hyf|[-> HxM]].
      * destruct (Hit x y Hx Hyf) as (Hyd & Hxy & Hnt). split_and!; [apply (leaf_dom m0 p n Hp); auto|by apply Hold|]. intros Ht%(leaf_tanc m0 o SH0 p n Hp Hn x y (Hne y Hyd)). done.
      * apply HMin in HxM as (_ & Hxn & Hxp). split_and!; [apply (leaf_dom m0 p n Hp); auto|done|].
        intros [->|Ht]%(leaf_above m0 o SH0 p n Hp Hn Hnone); [done|]. by apply Hxp, Hch.
    + intros x i j a b Hx Hij Ha Hb. apply (leaf_dom m0 p n Hp) in Hx as [->|Hx]; [by rewrite Hn' in Ha|].
      destruct (decide (x ∈ M)) as [HxM|HxM]; [by apply (Hord' x i j)|]. rewrite Hout, Hfc in Ha, Hb by done.
      apply leaf_left; [apply Hne, (Hit x a Hx); by eapply list_elem_of_lookup_2|apply Hne, (Hit x b Hx); by eapply list_elem_of_lookup_2|by apply (Hord x i j)].
    + intros x z Hx Hz Hxz. apply (leaf_dom m0 p n Hp) in Hz as [->|Hz].
      * apply (leaf_dom m0 p n Hp) in Hx as [->|Hx]; [left; apply tanc_refl|]. destruct (Hdec x Hx) as [Hxp|Hxp].
        -- destruct (Hcomp x p Hx Hp Hxp) as [Ht|(y & Hy & Ht)]; [left|right; exists y; split; [by apply Hsub|]]; apply (leaf_above m0 o SH0 p n Hp Hn Hnone); auto.
        -- right. exists n. split; [apply Hin; [by apply HMin|by left]|apply tanc_refl].
      * apply (leaf_dom m0 p n Hp) in Hx as [->|Hx]; [apply Hnew in Hxz; by subst|]. apply Hold in Hxz; [|done|done].
        destruct (Hcomp x z Hx Hz Hxz) as [Ht|(y & Hy & Ht)]; [left|right; exists y; split; [by apply Hsub|]]; by apply (leaf_tanc m0 o SH0 p n Hp Hn _ z (Hne z Hz)).
    + intros x z Hx Hxz. apply (leaf_dom m0 p n Hp) in Hx as [->|Hx]; [apply (leaf_below m0 p n) in Hxz as ->; done|].
      destruct (decide (z = n)) as [->|Hzn].
      * apply (leaf_above m0 o SH0 p n Hp Hn Hnone) in Hxz as [->|Ht]; [done|]. by apply Hpast, Hch.
      * apply (leaf_tanc m0 o SH0 p n Hp Hn x z Hzn) in Hxz. apply Hold; [done|by apply (tanc_dom m0 o SH0 x)|by apply Hch].
    + done.
    + intros x y [->|Hx]%(leaf_dom m0 p n Hp) [->|Hy]%(leaf_dom m0 p n Hp) H1 H2; [done|symmetry; by apply Hnew|by apply Hnew|].
      apply Hanti; [done|done|by apply Hold..].
Qed.

End AddDag.

(** ** The service *)

(** The blocks of a store *)
Definition blocks (s : rstore) : gset Hash := dom (rmap s).

Lemma blocks_build m iv fc r : blocks (build m iv fc r) = dom m.
Proof.
  unfold blocks. apply set_eq. intros x. rewrite !elem_of_dom. rewrite lookup_build. by rewrite fmap_is_Some.
Qed.

(** How many operations are shown to succeed, and what one may cost the reindex root *)
Definition max_ops : Z := 2 ^ 23.
Definition op_cost : Z := 2 ^ 39.

(** After [k] operations the store answers for the relations [chain] and [past]. *)
Definition serves (k : Z) (s : rstore) (chain past : Hash -> Hash -> Prop) : Prop :=
  exists m iv fc root, s = build m iv fc (Some root) /\ shape m ORIGIN /\ fits m iv ORIGIN /\ iv ORIGIN = maximal /\ root ∈ dom m /\
    covers m ORIGIN fc past /\ (forall x y, x ∈ dom m -> y ∈ dom m -> tanc m x y <-> chain x y) /\
    Z.of_nat (size m) <= k + 1 /\ max_height m <= k /\ 2 ^ 63 - k * op_cost <= room m iv root.

Lemma good_maximal : good maximal.
Proof. unfold good, maximal. cbn. lia. Qed.

Lemma room_maximal iv m o : iv o = maximal -> room m iv o = 2 ^ 64 - 2 - sz m o.
Proof. intros E. unfold room. rewrite E. unfold isz, maximal. cbn. lia. Qed.

Definition origin_tree : tree := {[ORIGIN := mk_node [] NONE 0]}.

Lemma origin_K x : K origin_tree x = [].
Proof. unfold K, origin_tree. destruct (decide (x = ORIGIN)) as [->|Hne]; [by rewrite lookup_singleton_eq|by rewrite lookup_singleton_ne]. Qed.

Lemma origin_ht x : ht origin_tree x = 0.
Proof. unfold ht, origin_tree. destruct (decide (x = ORIGIN)) as [->|Hne]; [by rewrite lookup_singleton_eq|by rewrite lookup_singleton_ne]. Qed.

Lemma origin_tanc x y : tanc origin_tree x y <-> x = y.
Proof. split; [|intros ->; apply tanc_refl]. intros Ht. inversion Ht as [|? c ? Hc]; subst; [done|]. rewrite origin_K in Hc. by apply elem_of_nil in Hc. Qed.

Lemma origin_shape : shape origin_tree ORIGIN.
Proof.
  split.
  - unfold origin_tree. rewrite dom_singleton. by apply elem_of_singleton.
  - unfold origin_tree. rewrite dom_singleton. by intros ?%elem_of_singleton.
  - unfold P, origin_tree. by rewrite lookup_singleton_eq.
  - intros p c Hc. rewrite origin_K in Hc. by apply elem_of_nil in Hc.
  - intros c Hc. unfold origin_tree in Hc. rewrite dom_singleton in Hc. by apply elem_of_singleton in Hc.
  - intros p. rewrite origin_K. constructor.
  - intros h. by rewrite origin_ht.
Qed.

Lemma serves_init chain past : (forall x y, chain x y <-> x = y) -> (forall x y, past x y <-> x = y) ->
  exists s, init_reachability (mk_rstore ∅ None) = Done s /\ serves 0 s chain past /\ blocks s = {[ORIGIN]} /\ reindex_root s = Some ORIGIN.
Proof.
  intros Hchain Hpast. pose proof origin_shape as SH. exists (build origin_tree (fun _ => maximal) (fun _ => []) (Some ORIGIN)). split_and!.
  - unfold init_reachability, init_with_params, has. cbn [rmap]. rewrite bool_decide_eq_false_2 by (rewrite lookup_empty; by intros [? ?]).
    unfold insert_data. cbn [rmap]. rewrite lookup_empty. cbn [mbind R_bind]. unfold set_reindex_root, build, origin_tree. done.
  - exists origin_tree, (fun _ => maximal), (fun _ => []), ORIGIN.
    assert (Hs : sz origin_tree ORIGIN = 1) by (rewrite (sz_unfold _ _ SH), origin_K; done).
    split_and!; [done|done| |done|by apply SH| | | | |].
    + intros x _. unfold ok_at. rewrite origin_K. unfold maximal. cbn [chained start iend]. lia.
    + split.
      * intros x y _ Hy. destruct (not_elem_of_nil y Hy).
      * intros x i j a b _ _ Ha. discriminate Ha.
      * intros x z _ _ <-%Hpast. left. apply tanc_refl.
      * intros x z _ Ht. by apply Hpast, origin_tanc.
      * by intros x y z ->%Hpast ->%Hpast; apply Hpast.
      * by intros x y _ _ ->%Hpast.
    + intros x y _ _. rewrite Hchain. apply origin_tanc.
    + unfold origin_tree. by rewrite map_size_singleton.
    + unfold max_height, origin_tree. rewrite map_to_list_singleton. done.
    + rewrite room_maximal by done. rewrite Hs. lia.
  - rewrite blocks_build. unfold origin_tree. apply dom_singleton_L.
  - done.
Qed.

Section Service.
Context (powf : Z -> Z -> Z).

Lemma serves_query k s chain past a b : serves k s chain past -> a ∈ blocks s -> b ∈ blocks s ->
  (exists res : bool, is_dag_ancestor_of s a b = Done res /\ (res = true <-> past a b)) /\
  (exists res : bool, is_chain_ancestor_of s a b = Done res /\ (res = true <-> chain a b)).
Proof.
  intros (m & iv & fc & root & -> & SH & Hfit & _ & _ & Hcv & Hch & _). rewrite blocks_build. intros Ha Hb. split.
  - by apply (dag_query_ok m ORIGIN SH).
  - destruct (chain_query_ok m ORIGIN SH fc (Some root) iv Hfit a b Ha Hb) as (res & E & Hres). exists res. split; [done|]. by rewrite Hres, Hch.
Qed.

Lemma serves_add k s chain chain' past past' n p M fuel : serves k s chain past -> 0 <= k < max_ops -> k + 3 <= Z.of_nat fuel -> n ∉ blocks s -> n <> NONE -> p ∈ blocks s ->
  (forall x y, x ∈ blocks s -> y ∈ blocks s -> past' x y <-> past x y) -> past' p n -> (forall y, past' n y -> y = n) -> past' n n ->
  (forall x y z, past' x y -> past' y z -> past' x z) -> NoDup M -> (forall x, x ∈ M <-> x ∈ blocks s /\ past' x n /\ ~ past x p) ->
  (forall x y, x ∈ blocks s -> y ∈ blocks s -> chain' x y <-> chain x y) -> (forall x, x ∈ blocks s -> chain' x n <-> chain x p) -> (forall y, chain' n y <-> y = n) ->
  exists s', add_block powf fuel s n p M = Done s' /\ serves (k + 1) s' chain' past' /\ blocks s' = {[n]} ∪ blocks s /\ reindex_root s' = reindex_root s.
Proof.
  intros Hs Hk Hfuel Hn Hnone Hp Hold Hpar Hnew Hself Htrans HM HMin Hch1 Hch2 Hch3. pose proof Hs as Hs0. unfold max_ops, op_cost in *.
  destruct Hs as (m0 & iv & fc & root & -> & SH & Hfit & Hmax & Hroot & Hcv & Hch & Hsz & Hmh & Hroom). rewrite blocks_build in *. unfold op_cost in *.
  pose proof (leaf_size m0 p n Hp Hn) as Hls. pose proof (max_height_ge m0 p Hp) as Hhp. pose proof (sh_height m0 ORIGIN SH root) as Hhr0. pose proof (max_height_ge m0 root Hroot) as Hhr.
  pose proof (leaf_max_height m0 ORIGIN SH p n Hp (k + 1) ltac:(lia) ltac:(lia)) as Hlh. unfold room in Hroom.
  unfold add_block. unfold DEFAULT_REINDEX_SLACK.
  destruct (add_tree_ok powf m0 ORIGIN SH p n Hp Hn Hnone root Hroot fuel (2 ^ 14) ltac:(lia) ltac:(lia) ltac:(lia) ltac:(lia) ltac:(lia) iv fc Hfit
    ltac:(rewrite Hmax; apply good_maximal) ltac:(lia)) as (iv' & E & Hf' & Ho' & Hr'). rstep E.
  destruct (add_covers_ok m0 ORIGIN SH p n Hp Hn Hnone iv' Hf' (Some root) fc past past' M) as (fc' & E' & Hcv'); try done.
  { intros x Hx. destruct (serves_query _ _ _ _ x p Hs0) as [([|] & _ & Hres) _]; [by rewrite blocks_build..|left; by apply Hres|right]. intros Hxp. by apply Hres in Hxp. }
  rewrite E'. eexists. split; [done|]. pose proof (leaf_ne m0 n Hn) as Hne. split_and!.
  - exists (add_leaf m0 p n), iv', fc', root. split_and!; [done|by apply (leaf_shape m0 ORIGIN SH)|done|by rewrite Ho'|apply (leaf_dom m0 p n Hp); auto|done| |lia|lia|].
    + intros x y [->|Hx]%(leaf_dom m0 p n Hp) [->|Hy]%(leaf_dom m0 p n Hp).
      * split; [intros _; by apply Hch3|intros _; apply tanc_refl].
      * split; [intros ->%(leaf_below m0 p n); done|]. intros ->%Hch3. done.
      * rewrite (leaf_above m0 ORIGIN SH p n Hp Hn Hnone), Hch2 by done. rewrite <- Hch by done. split; [intros [->|?]; done|by right].
      * rewrite (leaf_tanc m0 ORIGIN SH p n Hp Hn x y (Hne y Hy)), Hch1 by done. by apply Hch.
    + pose proof (leaf_sz m0 ORIGIN SH p n Hp Hn Hnone root (Hne root Hroot)) as Hlz. unfold room, op_cost. lia.
  - rewrite blocks_build. apply set_eq. intros x. rewrite elem_of_union, elem_of_singleton. apply (leaf_dom m0 p n Hp).
  - done.
Qed.

Definition height_of (s : rstore) (h : Hash) : Z := match rmap s !! h with Some d => height d | None => 0 end.

Lemma height_of_build m iv fc r h : height_of (build m iv fc r) h = ht m h.
Proof. unfold height_of, ht. rewrite lookup_build. by destruct (m !! h). Qed.

(** The root moves from one block to another after a hint. *)
Definition root_moves (s : rstore) (chain : Hash -> Hash -> Prop) (hint : Hash) (s' : rstore) : Prop :=
  exists root root', reindex_root s = Some root /\ reindex_root s' = Some root' /\ root' ∈ blocks s /\
    root_after chain (fun x => x ∈ blocks s) (height_of s) DEFAULT_REINDEX_DEPTH DEFAULT_REINDEX_SLACK hint root root'.

Lemma serves_hint k s chain past hint fuel : serves k s chain past -> 0 <= k < max_ops -> k + 3 <= Z.of_nat fuel -> hint ∈ blocks s -> reindex_root s <> Some hint ->
  exists s', hint_virtual_selected_parent powf fuel s hint = Done s' /\ serves (k + 1) s' chain past /\ blocks s' = blocks s /\ root_moves s chain hint s'.
Proof.
  intros (m & iv & fc & root & -> & SH & Hfit & Hmax & Hroot & Hcv & Hch & Hsz & Hmh & Hroom) Hk Hfuel Hh Hne. rewrite blocks_build in *. cbn in Hne. unfold max_ops, op_cost in *.
  unfold hint_virtual_selected_parent. pose proof (max_height_ge m root Hroot). pose proof (sh_height m ORIGIN SH root).
  destruct (try_advancing_ok powf m ORIGIN fc root fuel iv hint DEFAULT_REINDEX_DEPTH DEFAULT_REINDEX_SLACK) as (iv' & root' & E & Hf' & Ho' & Hr' & Hroom' & Hafter); try done.
  1-3: lia. 2: congruence. 2: unfold DEFAULT_REINDEX_SLACK; lia.
  { rewrite Hmax. apply good_maximal. }
  rewrite E. eexists. split; [done|]. rewrite blocks_build. split_and!; [|done|].
  - exists m, iv', fc, root'. rewrite Ho'. unfold op_cost, DEFAULT_REINDEX_SLACK in *. split_and!; try done; lia.
  - exists root, root'. rewrite blocks_build. split_and!; [done..|].
    apply (root_after_ext (tanc m) chain (fun x => x ∈ dom m) (ht m)); try done. intros x _. by rewrite height_of_build.
Qed.

Lemma serves_hint_root k s chain past hint fuel : serves k s chain past -> k + 3 <= Z.of_nat fuel -> reindex_root s = Some hint ->
  hint_virtual_selected_parent powf fuel s hint = Err BadQuery.
Proof.
  intros (m & iv & fc & root & -> & SH & Hfit & Hmax & Hroot & Hcv & Hch & Hsz & Hmh & Hroom) Hfuel Hr. cbn in Hr. injection Hr as ->.
  apply (try_advancing_self powf m ORIGIN); try done; lia.
Qed.

End Service.

End ReachabilityProofs.
