(* ===== verification/ReachabilityDelete.v ===== *)
(** * Deleting a block from the reachability store

    A pruned block gives its place to its children, in the tree and in the covering
    sets; the answers about all other blocks stay the same. *)
From Stdlib Require Import ZArith Lia.
From stdpp Require Import base numbers list gmap.
From S2P Require Import Prelude Float64 Ghostdag Reachability ReachabilityTree ReachabilityOps ReachabilityReindex ReachabilityRoot ReachabilityProofs.
Import Ghostdag.Ghostdag Reachability.Reachability ReachabilityTree.ReachabilityTree ReachabilityOps.ReachabilityOps ReachabilityReindex.ReachabilityReindex
  ReachabilityRoot.ReachabilityRoot ReachabilityProofs.ReachabilityProofs.
Open Scope Z_scope.

Module ReachabilityDelete.

(** ** Lists in order *)

Definition pairwise (Rel : Hash -> Hash -> Prop) (l : list Hash) : Prop := forall i j a c, (i < j)%nat -> l !! i = Some a -> l !! j = Some c -> Rel a c.

Lemma pairwise_app Rel l1 l2 : pairwise Rel (l1 ++ l2) <-> pairwise Rel l1 /\ pairwise Rel l2 /\ forall a c, a ∈ l1 -> c ∈ l2 -> Rel a c.
Proof.
  split.
  - intros Hp. split_and!.
    + intros i j a c Hij Ha Hc. apply (Hp i j); [done|by apply lookup_app_l_Some..].
    + intros i j a c Hij Ha Hc. apply (Hp (length l1 + i) (length l1 + j))%nat; [lia| |]; rewrite lookup_app_r by lia; by rewrite Nat.add_comm, Nat.add_sub.
    + intros a c [i Hi]%list_elem_of_lookup [j Hj]%list_elem_of_lookup. apply (Hp i (length l1 + j))%nat; [apply lookup_lt_Some in Hi; lia|by apply lookup_app_l_Some|].
      rewrite lookup_app_r by lia. by rewrite Nat.add_comm, Nat.add_sub.
  - intros (H1 & H2 & H3) i j a c Hij Ha Hc. apply lookup_app_Some in Ha, Hc. destruct Ha as [Ha|[Hi Ha]], Hc as [Hc|[Hj Hc]].
    + by apply (H1 i j).
    + apply H3; by eapply list_elem_of_lookup_2.
    + apply lookup_lt_Some in Hc. lia.
    + apply (H2 (i - length l1) (j - length l1))%nat; [lia|done|done].
Qed.

(** ** More operations on stores *)

Section Store.
Context (m : tree) (iv : Hash -> Interval) (fc : Hash -> list Hash) (r : option Hash) (h : Hash) (Hh : h ∈ dom m).

Lemma relink_build n d : d = mk_rdata (kids n) (par n) (iv h) (hgt n) (fc h) ->
  mk_rstore (<[h := d]> (rmap (build m iv fc r))) r = build (<[h := n]> m) iv fc r.
Proof.
  intros ->. unfold build. cbn. f_equal. apply map_eq. intros x. rewrite map_lookup_imap. destruct (decide (x = h)) as [->|Hne]; [by rewrite !lookup_insert_eq|].
  by rewrite !lookup_insert_ne, map_lookup_imap by done.
Qed.

Lemma set_parent_ok q : set_parent (build m iv fc r) h q = Done (build (<[h := mk_node (K m h) q (ht m h)]> m) iv fc r).
Proof. unfold set_parent, update. rstep (get_rdata_ok m iv fc r h Hh). f_equal. by apply relink_build. Qed.

Lemma replace_child_ok i w : (i < length (K m h))%nat ->
  replace_child (build m iv fc r) h i w = Done (build (<[h := mk_node (take i (K m h) ++ w ++ drop (i + 1) (K m h)) (P m h) (ht m h)]> m) iv fc r).
Proof.
  intros Hi. unfold replace_child. rstep (get_rdata_ok m iv fc r h Hh). unfold vec_splice. cbn [children]. destruct (Nat.ltb_spec i (length (K m h))); [|lia].
  cbn [mbind R_bind]. unfold update. rstep (get_rdata_ok m iv fc r h Hh). f_equal. by apply relink_build.
Qed.

Lemma replace_fci_ok i w : (i < length (fc h))%nat ->
  replace_future_covering_item (build m iv fc r) h i w = Done (build m iv (upd fc h (take i (fc h) ++ w ++ drop (i + 1) (fc h))) r).
Proof.
  intros Hi. unfold replace_future_covering_item. rstep (get_rdata_ok m iv fc r h Hh). unfold vec_splice. cbn [future_covering_set].
  destruct (Nat.ltb_spec i (length (fc h))); [|lia]. cbn [mbind R_bind]. apply (update_ok m iv fc r h Hh); [done|intros; by rewrite upd_ne|]. by rewrite upd_at.
Qed.

Lemma delete_data_ok : delete_data (build m iv fc r) h = build (delete h m) iv fc r.
Proof.
  unfold delete_data, build. cbn. f_equal. apply map_eq. intros x. rewrite map_lookup_imap. destruct (decide (x = h)) as [->|Hne]; [by rewrite !lookup_delete_eq|].
  by rewrite !lookup_delete_ne, map_lookup_imap by done.
Qed.

End Store.

(** ** The tree without a block *)

Section Tree.
Context (m : tree) (o : Hash) (SH : shape m o) (b p : Hash) (l1 l2 : list Hash) (HK : K m p = l1 ++ b :: l2).

(** Some children have their new parent. *)
Definition relinked (cs : list Hash) : tree :=
  map_imap (fun h n => Some (mk_node (if decide (h = p) then l1 ++ K m b ++ l2 else kids n) (if decide (h ∈ cs) then p else par n) (hgt n))) m.
Definition without : tree := delete b (relinked (K m b)).
Let m' := without.

Lemma del_kid : b ∈ K m p.
Proof. rewrite HK. apply elem_of_app. right. by left. Qed.
Lemma del_ne : p <> b.
Proof. pose proof del_kid as Hk. intros E. rewrite E in Hk. apply (kid_not_above m o SH b b Hk), tanc_refl. Qed.

Lemma without_dom x : x ∈ dom m' <-> x ∈ dom m /\ x <> b.
Proof.
  unfold m', without, relinked. rewrite !elem_of_dom. destruct (decide (x = b)) as [->|Hne]; [rewrite lookup_delete_eq; split; [by intros [? ?]|by intros [_ ?]]|].
  rewrite lookup_delete_ne, map_lookup_imap by done. destruct (m !! x); cbn; split; intros; try done; naive_solver.
Qed.
Lemma without_K x : K m' x = if decide (x = b) then [] else if decide (x = p) then l1 ++ K m b ++ l2 else K m x.
Proof.
  unfold K at 1, m', without, relinked. destruct (decide (x = b)) as [->|Hne]; [by rewrite lookup_delete_eq|]. rewrite lookup_delete_ne, map_lookup_imap by done.
  destruct (kid_dom m o SH p b del_kid) as [[n Hn]%elem_of_dom _]. destruct (decide (x = p)) as [->|Hxp]; [by rewrite Hn|]. unfold K. by destruct (m !! x).
Qed.
Lemma without_P x : x ∈ dom m' -> P m' x = if decide (x ∈ K m b) then p else P m x.
Proof.
  intros [Hx Hne]%without_dom. unfold P, m', without, relinked. rewrite lookup_delete_ne, map_lookup_imap by done. apply elem_of_dom in Hx as [n Hn]. by rewrite Hn.
Qed.
Lemma without_ht x : x <> b -> ht m' x = ht m x.
Proof. intros Hne. unfold ht, m', without, relinked. rewrite lookup_delete_ne, map_lookup_imap by done. by destruct (m !! x). Qed.

Lemma without_kid x c : x <> b -> c ∈ K m' x <-> c <> b /\ (c ∈ K m x \/ (x = p /\ c ∈ K m b)).
Proof.
  intros Hx. rewrite without_K, decide_False by done. pose proof (sh_nodup m o SH p) as Hnd. rewrite HK in Hnd. apply NoDup_app in Hnd as (_ & Hd & [Hb2 _]%NoDup_cons).
  assert (Hcb : b ∉ K m b) by (intros Hc; apply (kid_not_above m o SH b b Hc), tanc_refl). destruct (decide (x = p)) as [->|Hne].
  - rewrite HK, !elem_of_app, elem_of_cons. split.
    + intros [Hc|[Hc|Hc]]; (split; [by intros ->; try (apply (Hd b Hc); left)|tauto]).
    + intros [Hcb' [[?|[?|?]]|[_ ?]]]; tauto.
  - split; [|intros [_ [?|[? _]]]; done]. intros Hc. split; [|by left]. intros ->. apply Hne. destruct (sh_kid m o SH x b Hc) as (_ & <- & _). by destruct (sh_kid m o SH p b del_kid) as (_ & -> & _).
Qed.

Lemma without_shape : b <> o -> shape m' o.
Proof.
  intros Hbo. destruct (kid_dom m o SH p b del_kid) as [Hpd Hbd]. destruct (sh_kid m o SH p b del_kid) as (_ & HPb & Hhb). split.
  - apply without_dom. split; [apply (sh_root m o SH)|done].
  - rewrite without_dom. intros [? _]. by apply (sh_none m o SH).
  - rewrite without_P by (apply without_dom; split; [apply (sh_root m o SH)|done]). rewrite decide_False; [apply (sh_top m o SH)|].
    intros Ho. by apply (not_root m o SH b o).
  - intros x c Hc. destruct (decide (x = b)) as [->|Hxb]; [rewrite without_K, decide_True in Hc by done; by apply elem_of_nil in Hc|].
    apply without_kid in Hc as [Hcb Hc]; [|done]. assert (Hcd : c ∈ dom m) by (destruct Hc as [Hc|[_ Hc]]; by destruct (kid_dom m o SH _ c Hc)).
    assert (Hcd' : c ∈ dom m') by (by apply without_dom). split_and!; [done| |].
    + rewrite without_P by done. destruct Hc as [Hc|[-> Hc]]; [|by rewrite decide_True]. rewrite decide_False; [by destruct (sh_kid m o SH x c Hc) as (_ & ? & _)|].
      intros Hc'. destruct (sh_kid m o SH x c Hc) as (_ & E1 & _). destruct (sh_kid m o SH b c Hc') as (_ & E2 & _). congruence.
    + rewrite !without_ht by done. destruct Hc as [Hc|[-> Hc]]; [by destruct (sh_kid m o SH x c Hc) as (_ & _ & ?)|]. destruct (sh_kid m o SH b c Hc) as (_ & _ & ?). lia.
  - intros c Hc Hco. rewrite without_P by done. apply without_dom in Hc as [Hc Hcb]. destruct (decide (c ∈ K m b)) as [Hk|Hk].
    + apply without_kid; [apply del_ne|]. auto.
    + pose proof (sh_par m o SH c Hc Hco) as Hpk. apply without_kid; [|auto]. intros E. rewrite E in Hpk. done.
  - intros x. rewrite without_K. destruct (decide (x = b)); [constructor|]. destruct (decide (x = p)); [|apply (sh_nodup m o SH)].
    pose proof (sh_nodup m o SH p) as Hnd. rewrite HK in Hnd. apply NoDup_app in Hnd as (Hn1 & Hd & [Hb2 Hn2]%NoDup_cons).
    assert (Hdis : forall c, c ∈ K m b -> c ∉ l1 ++ b :: l2).
    { intros c Hc Hc'. rewrite <- HK in Hc'. destruct (sh_kid m o SH p c Hc') as (_ & E1 & _). destruct (sh_kid m o SH b c Hc) as (_ & E2 & _). apply del_ne. congruence. }
    apply NoDup_app. split_and!; [done| |].
    + intros c Hc [Hc'|Hc']%elem_of_app; [apply (Hdis c Hc'), elem_of_app; by left|]. apply (Hd c Hc). by right.
    + apply NoDup_app. split_and!; [apply (sh_nodup m o SH)| |done]. intros c Hc Hc'. apply (Hdis c Hc), elem_of_app. right. by right.
  - intros h. destruct (decide (h = b)) as [->|Hne]; [unfold ht, m', without, relinked; by rewrite lookup_delete_eq|]. rewrite without_ht by done. apply (sh_height m o SH).
Qed.

Lemma without_tanc x y : x <> b -> y <> b -> tanc m' x y <-> tanc m x y.
Proof.
  intros Hx Hy. split.
  - intros Ht. induction Ht as [|x c y Hc Ht IH]; [apply tanc_refl|]. apply without_kid in Hc as [Hcb Hc]; [|done].
    assert (Hxc : tanc m x c) by (destruct Hc as [Hc|[-> Hc]]; [by apply tanc_kid|eapply tanc_trans; [apply tanc_kid, del_kid|by apply tanc_kid]]).
    eapply tanc_trans; [exact Hxc|by apply IH].
  - intros Ht. assert (Hgen : (x <> b -> tanc m' x y) /\ (x = b -> exists c, c ∈ K m b /\ tanc m' c y)); [|by apply Hgen].
    clear Hx. induction Ht as [x|x c y Hc Ht IH]; [split; [intros; apply tanc_refl|done]|]. destruct (IH Hy) as [IH1 IH2]. split.
    + intros Hx. destruct (decide (c = b)) as [->|Hcb].
      * destruct (IH2 eq_refl) as (d & Hd & Hdy). assert (Hdb : d <> b) by (intros ->; apply (kid_not_above m o SH b b Hd), tanc_refl).
        assert (x = p) as -> by (destruct (sh_kid m o SH x b Hc) as (_ & <- & _); by destruct (sh_kid m o SH p b del_kid) as (_ & -> & _)).
        eapply tanc_trans; [|exact Hdy]. apply tanc_kid, without_kid; auto.
      * eapply tanc_trans; [|by apply IH1]. apply tanc_kid, without_kid; auto.
    + intros ->. exists c. split; [done|]. apply IH1. intros ->. apply (kid_not_above m o SH b b Hc), tanc_refl.
Qed.

(** ** Its interval goes to its children, or to its neighbour *)

Context (iv : Hash -> Interval) (Hfit : fits m iv o).

Definition widened : Hash -> Interval :=
  match K m b with
  | [] => match last l1 with Some s => upd iv s (mk_interval (start (iv s)) (iend (iv b))) | None => iv end
  | [c] => upd iv c (iv b)
  | c :: cs => match last cs with
               | Some l => upd (upd iv c (mk_interval (start (iv b)) (iend (iv c)))) l (mk_interval (start (iv l)) (iend (iv b)))
               | None => iv
               end
  end.

Lemma del_ok x : x ∈ dom m -> ok_at m iv x.
Proof. intros Hx. by apply Hfit, (tanc_root m o SH). Qed.

Lemma del_nodup : NoDup (l1 ++ b :: l2).
Proof. rewrite <- HK. apply (sh_nodup m o SH). Qed.

Lemma kids_disjoint c : c ∈ K m b -> c ∉ K m p.
Proof.
  intros Hc Hc'. destruct (sh_kid m o SH p c Hc') as (_ & E1 & _). destruct (sh_kid m o SH b c Hc) as (_ & E2 & _). apply del_ne. congruence.
Qed.

Lemma widened_same x : x ∉ l1 -> x ∉ K m b -> widened x = iv x.
Proof.
  intros H1 H2. unfold widened. destruct (K m b) as [|c [|d cs]].
  - destruct (last l1) as [s|] eqn:E; [|done]. apply upd_ne. intros ->. apply H1. apply last_Some in E as [l ->]. apply elem_of_app. right. by left.
  - apply upd_ne. intros ->. apply H2. by left.
  - destruct (last (d :: cs)) as [l|] eqn:E; [|done]. rewrite upd_ne; [apply upd_ne|]; intros ->; apply H2; [by left|].
    apply last_Some in E as [l' ->]. right. apply elem_of_app. right. by left.
Qed.

(** Nothing gets smaller. *)
Lemma widened_wider x : x ∈ dom m -> start (widened x) <= start (iv x) /\ iend (iv x) <= iend (widened x).
Proof.
  intros Hx. destruct (kid_dom m o SH p b del_kid) as [Hpd Hbd]. pose proof (del_ok p Hpd) as Hokp. pose proof (del_ok b Hbd) as Hokb. unfold widened.
  destruct (K m b) as [|c [|d cs]] eqn:E.
  - destruct (last l1) as [s|] eqn:El; [|lia]. unfold upd. destruct (decide (x = s)) as [->|]; [|lia]. cbn. split; [lia|]. apply last_Some in El as [l' El].
    unfold ok_at in Hokp. rewrite HK in Hokp. apply chained_app in Hokp as (md & Hc1 & Hc2). cbn [chained] in Hc2. destruct Hc2 as (? & Hs & _). unfold isz in Hs.
    destruct (chained_elem iv _ (fun _ => Z.le_0_1) _ _ _ s Hc1 ltac:(rewrite El; apply elem_of_app; right; by left)) as (_ & _ & ?). lia.
  - unfold upd. destruct (decide (x = c)) as [->|]; [|lia]. pose proof (ok_kid m iv b c Hokb ltac:(rewrite E; left)). lia.
  - destruct (last (d :: cs)) as [l|] eqn:El; [|lia]. apply last_Some in El as [l' El].
    pose proof (ok_kid m iv b c Hokb ltac:(rewrite E; left)). pose proof (ok_kid m iv b l Hokb ltac:(rewrite E, El; right; apply elem_of_app; right; by left)).
    unfold upd. destruct (decide (x = l)) as [->|]; [cbn; lia|]. destruct (decide (x = c)) as [->|]; cbn; lia.
Qed.

Lemma widened_chain : chained widened (fun _ => 1) (start (iv p)) (l1 ++ K m b ++ l2) (iend (iv p) - 1).
Proof.
  destruct (kid_dom m o SH p b del_kid) as [Hpd Hbd]. pose proof (del_ok p Hpd) as Hokp. pose proof (del_ok b Hbd) as Hokb. pose proof del_nodup as Hnd. pose proof widened_same as Hsame.
  unfold ok_at in Hokp. rewrite HK in Hokp. apply chained_app in Hokp as (md & Hc1 & Hc2). cbn [chained] in Hc2. destruct Hc2 as (Hmd & Hs & Hc2). unfold isz in Hs.
  apply NoDup_app in Hnd as (Hn1 & Hd & [Hb2 Hn2]%NoDup_cons).
  assert (Hkp : forall c, c ∈ K m b -> c ∉ l1 /\ c ∉ l2).
  { intros c Hc. pose proof (kids_disjoint c Hc) as Hcp. rewrite HK in Hcp. split; intros Hc'; apply Hcp, elem_of_app; [by left|right; by right]. }
  assert (Hl2 : chained widened (fun _ => 1) (iend (iv b) + 1) l2 (iend (iv p) - 1)).
  { apply (chained_ext iv); [|done]. intros c Hc. apply Hsame; [intros Hc'; apply (Hd c Hc'); by right|]. intros Hc'. by destruct (Hkp c Hc'). }
  apply chained_app. assert (Hl1 : K m b <> [] -> chained widened (fun _ => 1) (start (iv p)) l1 (md - 1)).
  { intros Hne. apply (chained_ext iv); [|done]. intros c Hc. unfold widened. destruct (K m b) as [|d [|e cs]]; [done| |].
    - apply upd_ne. intros ->. by destruct (Hkp d ltac:(left)).
    - destruct (last (e :: cs)) as [l|] eqn:El; [|done]. apply last_Some in El as [l' El]. rewrite upd_ne; [apply upd_ne|]; intros ->.
      + by destruct (Hkp d ltac:(left)).
      + by destruct (Hkp l ltac:(right; rewrite El; apply elem_of_app; right; by left)). }
  unfold widened in *. destruct (K m b) as [|c [|d cs]] eqn:E.
  - destruct (last l1) as [s|] eqn:El; [|apply last_None in El; rewrite El in Hc1 |- *; exists (iend (iv b) + 1); cbn in Hc1 |- *; split; [lia|done]].
    apply last_Some in El as [l' El]. exists (iend (iv b) + 1). split; [|done]. rewrite El in Hc1, Hn1 |- *. apply NoDup_app in Hn1 as (_ & Hd1 & _).
    apply chained_app in Hc1 as (md' & Hc1 & Hc3). cbn [chained] in Hc3. destruct Hc3 as (? & Hs3 & ?). unfold isz in Hs3. apply chained_app. exists md'. split.
    + apply (chained_ext iv); [|done]. intros x Hx. apply upd_ne. intros ->. apply (Hd1 s Hx). by left.
    + cbn [chained]. rewrite upd_at. unfold isz. cbn. lia.
  - exists md. split; [by apply Hl1|]. cbn [app chained]. rewrite upd_at. unfold isz. split_and!; [lia|lia|done].
  - destruct (last (d :: cs)) as [l|] eqn:El; [|by apply last_None in El]. apply last_Some in El as [l' El]. rewrite El in E |- *. exists md. split; [by apply Hl1|].
    unfold ok_at in Hokb. rewrite E in Hokb. cbn [chained] in Hokb. destruct Hokb as (? & Hsc & Hc3). apply chained_app in Hc3 as (md' & Hc3 & Hc4). cbn [chained] in Hc4.
    destruct Hc4 as (? & Hsl & ?). pose proof (sh_nodup m o SH b) as Hnb. rewrite E in Hnb. apply NoDup_cons in Hnb as [Hcl Hnb]. apply NoDup_app in Hnb as (_ & Hdl & _).
    assert (Hcl' : c <> l) by (intros ->; apply Hcl, elem_of_app; right; by left). cbn [app chained]. rewrite (upd_ne _ l _ c) by done. rewrite upd_at. unfold isz in *. cbn [start iend].
    split_and!; [lia|lia|]. rewrite <- app_assoc. apply chained_app. exists md'. split.
    + apply (chained_ext iv); [|done]. intros x Hx. rewrite upd_ne; [apply upd_ne|]; intros ->; [apply Hcl, elem_of_app; by left|]. apply (Hdl l Hx). by left.
    + cbn [app chained]. rewrite upd_at. unfold isz. cbn. split_and!; [lia|lia|done].
Qed.

Lemma widened_fits : b <> o -> fits m' widened o.
Proof.
  intros Hbo x Ho. pose proof (without_shape Hbo) as SH'. pose proof (tanc_dom m' o SH' o x Ho (sh_root m' o SH')) as [Hx Hxb]%without_dom.
  unfold ok_at, m'. rewrite without_K, decide_False by done. destruct (decide (x = p)) as [->|Hxp].
  - rewrite (widened_same p); [apply widened_chain| |].
    + intros Hp. apply (kid_not_above m o SH p p); [rewrite HK; apply elem_of_app; by left|apply tanc_refl].
    + intros Hp. apply (kid_not_above m o SH b p Hp), tanc_kid, del_kid.
  - destruct (widened_wider x Hx) as [? ?]. eapply chained_mono; [| |apply (chained_ext iv); [|exact (del_ok x Hx)]]; [lia|lia|].
    intros c Hc. destruct (sh_kid m o SH x c Hc) as (_ & HP & _). apply widened_same; intros Hc'.
    + apply Hxp. rewrite <- HP. destruct (sh_kid m o SH p c) as (_ & -> & _); [rewrite HK; apply elem_of_app; by left|done].
    + apply Hxb. rewrite <- HP. by destruct (sh_kid m o SH b c Hc') as (_ & -> & _).
Qed.

(** Blocks that were before others still are. *)
Lemma widened_left a c : b <> o -> a ∈ dom m -> c ∈ dom m -> a <> b -> c <> b -> iend (iv a) < start (iv c) -> left_in m' o a c.
Proof.
  intros Hbo Ha Hc Hab Hcb Hlt. pose proof (without_shape Hbo) as SH'. pose proof (widened_fits Hbo) as Hf'.
  assert (Hin : forall x, x ∈ dom m -> x <> b -> tanc m' o x) by (intros x Hx Hxb; apply (tanc_root m' o SH'); by apply without_dom).
  pose proof (ok_nonempty m iv a (del_ok a Ha)). pose proof (ok_nonempty m iv c (del_ok c Hc)). destruct (widened_wider a Ha). destruct (widened_wider c Hc).
  destruct (trichotomy m' o SH' o a c (Hin a Ha Hab) (Hin c Hc Hcb)) as [Ht|[Ht|[Hl|Hl]]]; [| |done|].
  - apply without_tanc in Ht; [|done|done]. pose proof (fits_inside m iv a c (fits_below m iv o a Hfit (tanc_root m o SH a Ha)) Ht). lia.
  - apply without_tanc in Ht; [|done|done]. pose proof (fits_inside m iv c a (fits_below m iv o c Hfit (tanc_root m o SH c Hc)) Ht). lia.
  - apply (left_lt m' o SH' widened o) in Hl; [lia|done].
Qed.

(** ** Covering sets *)

Context (fc : Hash -> list Hash) (past : Hash -> Hash -> Prop) (Hcv : covers m o fc past) (r : option Hash).

Lemma covers_item_ascending x : x ∈ dom m -> ascending iv (fc x).
Proof.
  intros Hx. apply (ordered_ascending m o SH iv Hfit); [intros y Hy; by apply (cv_item m o fc past Hcv x y Hx)|]. intros i j a c. by apply (cv_order m o fc past Hcv x).
Qed.

(** The blocks that have [b] in their covering set are those of its mergeset. *)
Lemma covered_by x : x ∈ dom m -> b ∈ fc x <-> x <> b /\ past x b /\ ~ past x p.
Proof.
  intros Hx. destruct (kid_dom m o SH p b del_kid) as [Hpd Hbd]. destruct Hcv as [Hit Hord Hcomp Hch Htr Hanti]. split.
  - intros Hb. destruct (Hit x b Hx Hb) as (_ & Hxb & Hnt). split_and!; [intros ->; apply Hnt, tanc_refl|done|]. intros Hxp.
    destruct (Hcomp x p Hx Hpd Hxp) as [Ht|(y & Hy & Ht)]; [apply Hnt; eapply tanc_trans; [done|apply tanc_kid, del_kid]|].
    assert (Hyb : tanc m y b) by (eapply tanc_trans; [done|apply tanc_kid, del_kid]).
    assert (Hyne : y <> b) by (intros ->; by apply (kid_not_above m o SH p b del_kid)).
    apply list_elem_of_lookup in Hb as [i Hi]. apply list_elem_of_lookup in Hy as [j Hj].
    pose proof (fits_inside m iv y b (fits_below m iv o y Hfit (tanc_root m o SH y (tanc_dom_l m o SH y b Hyb Hbd))) Hyb) as (? & ? & ?).
    destruct (Nat.lt_trichotomy i j) as [Hl|[->|Hl]]; [|congruence|].
    + pose proof (left_lt m o SH iv o b y Hfit (Hord x i j b y Hx Hl Hi Hj)). lia.
    + pose proof (left_lt m o SH iv o y b Hfit (Hord x j i y b Hx Hl Hj Hi)). lia.
  - intros (Hne & Hxb & Hxp). destruct (Hcomp x b Hx Hbd Hxb) as [Ht|(y & Hy & Ht)].
    + destruct (tanc_up m o SH x p b del_kid Ht) as [?|Ht']; [done|]. destruct Hxp. by apply Hch.
    + destruct (tanc_up m o SH y p b del_kid Ht) as [->|Ht']; [done|]. destruct Hxp. destruct (Hit x y Hx Hy) as (Hyd & Hxy & _). apply (Htr x y p Hxy). by apply Hch.
Qed.

(** Its place in a list goes to its children. *)
Definition swapped (l l' : list Hash) : Prop := exists k1 k2, l = k1 ++ b :: k2 /\ l' = k1 ++ K m b ++ k2.

Lemma replace_cov_ok m1 L : dom m1 = dom m -> forall fc1, NoDup L -> (forall x, x ∈ L -> x ∈ dom m /\ b ∈ fc x /\ fc1 x = fc x) ->
  exists fc2, replace_in_covering_sets (build m1 iv fc1 r) b (K m b) L = Done (build m1 iv fc2 r) /\ (forall x, x ∉ L -> fc2 x = fc1 x) /\
    (forall x, x ∈ L -> swapped (fc x) (fc2 x)).
Proof.
  intros Hdom. destruct (kid_dom m o SH p b del_kid) as [_ Hbd]. induction L as [|x L IH]; intros fc1 Hnd HL; cbn [replace_in_covering_sets].
  { exists fc1. split_and!; [done|done|]. intros x Hx. by apply elem_of_nil in Hx. }
  apply NoDup_cons in Hnd as [HxL Hnd]. destruct (HL x ltac:(left)) as (Hx & Hbx & E1). rstep (get_fcs_ok m1 iv fc1 r x ltac:(by rewrite Hdom)). rewrite E1.
  pose proof Hbx as (k1 & k2 & Ek)%list_elem_of_split. pose proof (ok_nonempty m iv b (del_ok b Hbd)) as Hne.
  assert (Hi : fc x !! length k1 = Some b) by (rewrite Ek; by apply list_lookup_middle).
  rewrite (search_found m1 fc1 r iv (fc x) (covers_item_ascending x Hx) ltac:(intros y Hy; rewrite Hdom; by apply (cv_item m o fc past Hcv x y Hx)) b ltac:(by rewrite Hdom)
    (length k1) b Hi Hne).
  2: { unfold contains. apply andb_true_iff. rewrite !Z.leb_le. lia. }
  2: { intros j c Hj Hc. apply (left_lt m o SH iv o b c Hfit). by apply (cv_order m o fc past Hcv x (length k1) j). }
  cbn [mbind R_bind]. rewrite (replace_fci_ok m1 iv fc1 r x ltac:(by rewrite Hdom)) by (rewrite E1; by eapply lookup_lt_Some). cbn [mbind R_bind]. rewrite E1.
  destruct (IH (upd fc1 x (take (length k1) (fc x) ++ K m b ++ drop (length k1 + 1) (fc x))) Hnd) as (fc2 & E2 & Hout & Hin).
  { intros y Hy. destruct (HL y ltac:(by right)) as (? & ? & ?). split_and!; [done|done|]. rewrite upd_ne; [done|]. by intros ->. }
  exists fc2. split_and!; [done| |].
  - intros y Hy. rewrite Hout by (intros ?; apply Hy; by right). apply upd_ne. intros ->. apply Hy. by left.
  - intros y [->|Hy]%elem_of_cons; [|by apply Hin]. rewrite Hout by done. rewrite upd_at. exists k1, k2. split; [done|]. rewrite Ek, take_app_length.
    rewrite <- drop_drop, drop_app_length. done.
Qed.

Lemma swapped_elem l l' y : NoDup l -> swapped l l' -> y ∈ l' <-> (y <> b /\ y ∈ l) \/ y ∈ K m b.
Proof.
  intros Hnd (k1 & k2 & -> & ->). apply NoDup_app in Hnd as (_ & Hd & [Hb2 _]%NoDup_cons). rewrite !elem_of_app, elem_of_cons. split.
  - intros [Hy|[Hy|Hy]]; [left|by right|left]; (split; [intros ->|tauto]); [apply (Hd b Hy); by left|done].
  - intros [[Hne [?|[?|?]]]|?]; tauto.
Qed.

Lemma covers_nodup x : x ∈ dom m -> NoDup (fc x).
Proof.
  intros Hx. apply NoDup_alt. intros i j a Hi Hj. pose proof (covers_item_ascending x Hx) as Hasc.
  destruct (Nat.lt_trichotomy i j) as [Hl|[->|Hl]]; [pose proof (Hasc i j a a Hl Hi Hj); lia|done|pose proof (Hasc j i a a Hl Hj Hi); lia].
Qed.

Lemma without_covers fc' : b <> o -> (forall x, x ∈ dom m -> b ∉ fc x -> fc' x = fc x) -> (forall x, x ∈ dom m -> b ∈ fc x -> swapped (fc x) (fc' x)) -> covers m' o fc' past.
Proof.
  intros Hbo Hsame Hsw. destruct (kid_dom m o SH p b del_kid) as [Hpd Hbd]. destruct Hcv as [Hit Hord Hcomp Hch Htr Hanti].
  assert (Hkb : forall c, c ∈ K m b -> c ∈ dom m /\ c <> b /\ past b c).
  { intros c Hc. destruct (kid_dom m o SH b c Hc) as [_ Hcd]. split_and!; [done| |apply Hch; [done|by apply tanc_kid]]. intros ->. apply (kid_not_above m o SH b b Hc), tanc_refl. }
  assert (Hel : forall x y, x ∈ dom m -> y ∈ fc' x <-> (y <> b /\ y ∈ fc x) \/ (b ∈ fc x /\ y ∈ K m b)).
  { intros x y Hx. destruct (decide (b ∈ fc x)) as [Hb|Hb]; [rewrite (swapped_elem (fc x) (fc' x) y (covers_nodup x Hx) (Hsw x Hx Hb)); tauto|].
    rewrite Hsame by done. split; [intros Hy; left; split; [by intros ->|done]|]. intros [[_ ?]|[? _]]; done. }
  split.
  - intros x y [Hx Hxb]%without_dom [[Hyb Hy]|[Hb Hy]]%Hel; [| |done].
    + destruct (Hit x y Hx Hy) as (Hyd & Hxy & Hnt). split_and!; [by apply without_dom|done|]. by rewrite without_tanc.
    + destruct (Hkb y Hy) as (Hyd & Hyb & Hby). destruct (Hit x b Hx Hb) as (_ & Hxb' & Hnt). split_and!; [by apply without_dom|by apply (Htr x b y)|].
      rewrite without_tanc by done. intros Ht. destruct (tanc_up m o SH x b y Hy Ht) as [->|?]; [|done]. apply Hxb. by apply Hanti.
  - intros x i j a c [Hx Hxb]%without_dom Hij Ha Hc.
    assert (Hlt : pairwise (fun a c => iend (iv a) < start (iv c)) (fc x)).
    { intros i' j' a' c' Hl Hi' Hj'. apply (left_lt m o SH iv o a' c' Hfit). by apply (Hord x i' j'). }
    assert (Hda : forall y, y ∈ fc' x -> y ∈ dom m /\ y <> b).
    { intros y [[Hyb Hy]|[_ Hy]]%Hel; [split; [by apply (Hit x y)|done]|split; by apply Hkb|done]. }
    destruct (Hda a ltac:(by eapply list_elem_of_lookup_2)) as [Had Hab]. destruct (Hda c ltac:(by eapply list_elem_of_lookup_2)) as [Hcd Hcb].
    apply widened_left; [done..|]. revert i j a c Hij Ha Hc Had Hab Hcd Hcb. enough (Hpw : pairwise (fun a c => iend (iv a) < start (iv c)) (fc' x)) by (intros i j a c Hij Ha Hc _ _ _ _; by apply (Hpw i j)).
    destruct (decide (b ∈ fc x)) as [Hb|Hb]; [|by rewrite Hsame].
    destruct (Hsw x Hx Hb) as (k1 & k2 & E & E'). rewrite E in Hlt. rewrite E'.
    apply pairwise_app in Hlt as (Hp1 & Hp2 & Hp3). change (b :: k2) with ([b] ++ k2) in Hp2. apply pairwise_app in Hp2 as (_ & Hp4 & Hp5).
    assert (Hin : forall y, y ∈ K m b -> start (iv b) <= start (iv y) /\ iend (iv y) < iend (iv b)) by (intros y Hy; pose proof (ok_kid m iv b y (del_ok b Hbd) Hy); lia).
    apply pairwise_app. split_and!; [done|apply pairwise_app; split_and!; [|done|]|].
    + intros i j a c Hij Ha Hc. apply (chained_after iv (fun _ => 1) _ _ _ i j a c (fun _ => Z.le_0_1) (del_ok b Hbd)); done.
    + intros a c Ha Hc. pose proof (Hp5 b c ltac:(left) Hc). pose proof (Hin a Ha). cbn in *. lia.
    + intros a c Ha [Hc|Hc]%elem_of_app; [pose proof (Hp3 a b Ha ltac:(left)); pose proof (Hin c Hc); cbn in *; lia|]. apply Hp3; [done|by right].
  - intros x z [Hx Hxb]%without_dom [Hz Hzb]%without_dom Hxz. destruct (Hcomp x z Hx Hz Hxz) as [Ht|(y & Hy & Ht)]; [left; by apply without_tanc|].
    right. destruct (decide (y = b)) as [->|Hyb]; [|exists y; split; [apply Hel; auto|by apply without_tanc]].
    destruct (tanc_down m b z Ht ltac:(congruence)) as (c & Hc & Hcz). exists c. split; [apply Hel; auto|]. apply without_tanc; [by apply Hkb|done|done].
  - intros x z [Hx Hxb]%without_dom Ht. assert (Hzb : z <> b).
    { assert (SH' := without_shape Hbo). pose proof (tanc_dom m' o SH' x z Ht ltac:(by apply without_dom)) as [_ ?]%without_dom. done. }
    apply Hch; [done|]. by apply without_tanc.
  - done.
  - intros x y [Hx _]%without_dom [Hy _]%without_dom. by apply Hanti.
Qed.

(** ** The whole operation *)

Lemma relinked_lookup cs x : relinked cs !! x = (fun n => mk_node (if decide (x = p) then l1 ++ K m b ++ l2 else kids n) (if decide (x ∈ cs) then p else par n) (hgt n)) <$> m !! x.
Proof. unfold relinked. rewrite map_lookup_imap. by destruct (m !! x). Qed.

Lemma relinked_dom cs : dom (relinked cs) = dom m.
Proof. apply set_eq. intros x. rewrite !elem_of_dom, relinked_lookup. by rewrite fmap_is_Some. Qed.

Lemma relinked_start : <[p := mk_node (l1 ++ K m b ++ l2) (P m p) (ht m p)]> m = relinked [].
Proof.
  apply map_eq. intros x. rewrite relinked_lookup. destruct (kid_dom m o SH p b del_kid) as [[n Hn]%elem_of_dom _].
  destruct (decide (x = p)) as [->|Hne]; [rewrite lookup_insert_eq, Hn; unfold P, ht; by rewrite Hn|].
  rewrite lookup_insert_ne by done. by destruct (m !! x) as [[]|].
Qed.

Lemma relinked_next cs c : c ∈ dom m -> <[c := mk_node (K (relinked cs) c) p (ht (relinked cs) c)]> (relinked cs) = relinked (cs ++ [c]).
Proof.
  intros Hc. apply map_eq. intros x. rewrite relinked_lookup. apply elem_of_dom in Hc as [n Hn]. destruct (decide (x = c)) as [->|Hne].
  - rewrite lookup_insert_eq, Hn. unfold K at 1, ht. rewrite relinked_lookup, Hn. cbn. f_equal. rewrite (decide_True (P := c ∈ cs ++ [c])); [done|]. apply elem_of_app. right. by left.
  - rewrite lookup_insert_ne, relinked_lookup by done. destruct (m !! x) as [n'|]; [|done]. cbn. f_equal. f_equal.
    destruct (decide (x ∈ cs)) as [Hx|Hx]; [rewrite decide_True; [done|]; apply elem_of_app; by left|]. rewrite decide_False; [done|].
    intros [?| ?%list_elem_of_singleton]%elem_of_app; done.
Qed.

Lemma set_parents_ok cs : forall cs0, (forall c, c ∈ cs -> c ∈ dom m) -> set_parents (build (relinked cs0) iv fc r) cs p = Done (build (relinked (cs0 ++ cs)) iv fc r).
Proof.
  induction cs as [|c cs IH]; intros cs0 Hd; cbn [set_parents]; [by rewrite app_nil_r|]. pose proof (Hd c ltac:(left)) as Hc.
  rstep (set_parent_ok (relinked cs0) iv fc r c ltac:(by rewrite relinked_dom) p). rewrite relinked_next by done.
  rewrite IH by (intros d Hdd; apply Hd; by right). by rewrite <- app_assoc.
Qed.

Lemma delete_ok M : b <> o -> NoDup M -> (forall x, x ∈ M <-> x ∈ dom m /\ x <> b /\ past x b /\ ~ past x p) ->
  exists fc', delete_block (build m iv fc r) b M = Done (build m' widened fc' r) /\ covers m' o fc' past.
Proof.
  intros Hbo HM HMin. destruct (kid_dom m o SH p b del_kid) as [Hpd Hbd]. destruct (sh_kid m o SH p b del_kid) as (_ & HPb & _). pose proof (del_ok b Hbd) as Hokb. pose proof (del_ok p Hpd) as Hokp.
  assert (HMx : forall x, x ∈ dom m -> x ∈ M <-> b ∈ fc x) by (intros x Hx; rewrite HMin, covered_by by done; tauto).
  destruct (replace_cov_ok (relinked (K m b)) M (relinked_dom _) fc HM) as (fc2 & Ecov & Hout & Hin).
  { intros x Hx. pose proof Hx as [Hxd _]%HMin. split_and!; [done|by apply HMx|done]. }
  exists fc2. split; [|apply without_covers; [done|intros x Hx Hb; apply Hout; by rewrite HMx|intros x Hx Hb; apply Hin; by apply HMx]].
  unfold delete_block. rstep (get_interval_ok m iv fc r b Hbd). rstep (get_parent_ok m iv fc r b Hbd). rewrite HPb. rstep (get_children_ok m iv fc r b Hbd).
  rstep (get_children_ok m iv fc r p Hpd). assert (Hi : K m p !! length l1 = Some b) by (rewrite HK; by apply list_lookup_middle).
  rewrite (search_found m fc r iv (K m p) (chained_ascending iv _ _ _ Hokp) ltac:(intros h Hh; by destruct (kid_dom m o SH p h Hh)) b Hbd (length l1) b Hi (ok_nonempty m iv b Hokb)).
  2: { unfold contains. apply andb_true_iff. rewrite !Z.leb_le. lia. }
  2: { intros j c Hj Hc. by apply (chained_after iv (fun _ => 1) _ _ _ (length l1) j b c (fun _ => Z.le_0_1) Hokp). }
  cbn [mbind R_bind]. rewrite (replace_child_ok m iv fc r p Hpd) by (by eapply lookup_lt_Some). cbn [mbind R_bind].
  assert (Hnk : take (length l1) (K m p) ++ K m b ++ drop (length l1 + 1) (K m p) = l1 ++ K m b ++ l2).
  { rewrite HK, take_app_length. do 2 f_equal. by rewrite <- drop_drop, drop_app_length. }
  rewrite Hnk, relinked_start.
  rewrite (set_parents_ok (K m b) [] ltac:(intros c Hc; by destruct (kid_dom m o SH b c Hc))). cbn [app mbind R_bind]. rstep Ecov.
  set (m1 := relinked (K m b)). assert (Hm1 : forall x, x ∈ dom m -> x ∈ dom m1) by (intros x; by rewrite <- (relinked_dom (K m b))).
  assert (Hfin : forall iv', delete_data (build m1 iv' fc2 r) b = build m' iv' fc2 r) by (intros iv'; apply delete_data_ok).
  assert (HKp : K m1 p = l1 ++ K m b ++ l2).
  { unfold K at 1. unfold m1. rewrite relinked_lookup. apply elem_of_dom in Hpd as [n Hn]. rewrite Hn. cbn. by rewrite decide_True. }
  assert (Hkd : forall c, c ∈ K m b -> c ∈ dom m1) by (intros c Hc; apply Hm1; by destruct (kid_dom m o SH b c Hc)).
  unfold widened. destruct (K m b) as [|c [|d cs]] eqn:E.
  - destruct (last l1) as [s|] eqn:El; [|apply last_None in El; rewrite El; cbn [length mbind R_bind]; by rewrite Hfin].
    apply last_Some in El as [l0 El]. rewrite El in HKp |- *. rewrite length_app, Nat.add_comm. cbn [length Nat.add].
    rstep (get_children_ok m1 iv fc2 r p (Hm1 p Hpd)). rewrite HKp. unfold index. cbn [app]. rewrite <- app_assoc. cbn [app]. rewrite list_lookup_middle by done. cbn [mbind R_bind].
    assert (Hs : s ∈ dom m1) by (apply Hm1; destruct (kid_dom m o SH p s); [rewrite HK, El; apply elem_of_app; left; apply elem_of_app; right; by left|done]).
    rstep (get_interval_ok m1 iv fc2 r s Hs). rstep (set_interval_ok m1 iv fc2 r s Hs (mk_interval (start (iv s)) (iend (iv b)))). by rewrite Hfin.
  - rstep (set_interval_ok m1 iv fc2 r c (Hkd c ltac:(left)) (iv b)). by rewrite Hfin.
  - destruct (last (d :: cs)) as [l|] eqn:El; [|by apply last_None in El]. apply last_Some in El as [l0 El].
    pose proof (Hkd c ltac:(left)) as Hcd. pose proof (Hkd l ltac:(right; rewrite El; apply elem_of_app; right; by left)) as Hld.
    assert (Hne : l <> c).
    { intros ->. pose proof (sh_nodup m o SH b) as Hnb. rewrite E, El in Hnb. apply NoDup_cons in Hnb as [Hn _]. apply Hn, elem_of_app. right. by left. }
    rstep (get_interval_ok m1 iv fc2 r c Hcd). rstep (set_interval_ok m1 iv fc2 r c Hcd (mk_interval (start (iv b)) (iend (iv c)))).
    assert (Hlast : (c :: d :: cs) !! (length (c :: d :: cs) - 1)%nat = Some l).
    { rewrite El. rewrite app_comm_cons, length_app. cbn [length]. rewrite Nat.add_sub. by apply list_lookup_middle. }
    unfold index. rewrite Hlast. cbn [mbind R_bind]. set (iv1 := upd iv c (mk_interval (start (iv b)) (iend (iv c)))).
    rstep (get_interval_ok m1 iv1 fc2 r l Hld). assert (El1 : iv1 l = iv l) by (by apply upd_ne). rewrite El1.
    rstep (set_interval_ok m1 iv1 fc2 r l Hld (mk_interval (start (iv l)) (iend (iv b)))). by rewrite Hfin.
Qed.

End Tree.

(** The store without the block answers for the same relations. *)
Lemma serves_delete k s chain past b p M : serves k s chain past -> b ∈ blocks s -> b <> ORIGIN -> reindex_root s <> Some b -> get_parent s b = Done p ->
  NoDup M -> (forall x, x ∈ M <-> x ∈ blocks s /\ x <> b /\ past x b /\ ~ past x p) ->
  exists s', delete_block s b M = Done s' /\ serves k s' chain past /\ blocks s' = blocks s ∖ {[b]} /\ reindex_root s' = reindex_root s.
Proof.
  intros (m & iv & fc & root & -> & SH & Hfit & Hmax & Hroot & Hcv & Hch & Hsz & Hmh & Hroom) Hb Hbo Hbr Hp HM HMin. rewrite blocks_build in *. cbn in Hbr.
  rewrite (get_parent_ok m iv fc (Some root) b Hb) in Hp. injection Hp as <-. pose proof (sh_par m ORIGIN SH b Hb Hbo) as Hk.
  pose proof Hk as (l1 & l2 & HK)%list_elem_of_split.
  destruct (delete_ok m ORIGIN SH b (P m b) l1 l2 HK iv Hfit fc past Hcv (Some root) M Hbo HM HMin) as (fc' & E & Hcv').
  pose proof (without_shape m ORIGIN SH b (P m b) l1 l2 HK Hbo) as SH'. pose proof (without_dom m b (P m b) l1 l2) as Hdom.
  exists (build (without m b (P m b) l1 l2) (widened m b l1 iv) fc' (Some root)). split_and!; [done| | |done].
  - exists (without m b (P m b) l1 l2), (widened m b l1 iv), fc', root. split_and!.
    + done.
    + done.
    + by apply (widened_fits m ORIGIN SH b (P m b) l1 l2 HK).
    + rewrite (widened_same m b (P m b) l1 l2 HK); [done|intros Ho; apply (not_root m ORIGIN SH (P m b) ORIGIN); [rewrite HK; apply elem_of_app; by left|done]|].
      intros Ho. by apply (not_root m ORIGIN SH b ORIGIN).
    + apply Hdom. split; [done|congruence].
    + done.
    + intros x y [Hx Hxb]%Hdom [Hy Hyb]%Hdom. rewrite (without_tanc m ORIGIN SH b (P m b) l1 l2 HK x y Hxb Hyb). by apply Hch.
    + assert (Hle : (size (without m b (P m b) l1 l2) <= size m)%nat); [|lia]. rewrite <- !size_dom. apply subseteq_size. intros x [Hx _]%Hdom. done.
    + pose proof (max_height_ge m root Hroot). pose proof (sh_height m ORIGIN SH root). apply max_height_le; [lia|]. intros x [Hx Hne]%Hdom.
      rewrite (without_ht m b (P m b) l1 l2 x Hne). pose proof (max_height_ge m x Hx). lia.
    + assert (Hrb : root <> b) by congruence. destruct (widened_wider m ORIGIN SH b (P m b) l1 l2 HK iv Hfit root Hroot) as [Hw1 Hw2].
      assert (Hs : sz (without m b (P m b) l1 l2) root <= sz m root).
      { unfold sz. apply Nat2Z.inj_le, submseteq_length, NoDup_submseteq; [apply (desc_nodup _ ORIGIN SH')|]. intros y Hy%(elem_of_desc _ ORIGIN SH').
        pose proof (tanc_dom _ ORIGIN SH' root y Hy ltac:(by apply Hdom)) as [_ Hyb]%Hdom. apply (elem_of_desc m ORIGIN SH). by apply (without_tanc m ORIGIN SH b (P m b) l1 l2 HK) in Hy. }
      unfold room, isz in *. lia.
  - rewrite blocks_build. apply set_eq. intros x. rewrite Hdom, elem_of_difference, elem_of_singleton. done.
Qed.

End ReachabilityDelete.
