(* ===== verification/ReachabilityTrace.v ===== *)
(** * Reachability of growing and pruned DAGs

    Blocks are added to the store, deleted from it, and the reindex root moves, in any
    order: the operations return, the store stays well formed, and its answers are those
    of the DAG. *)
From Stdlib Require Import ZArith Lia.
From stdpp Require Import base numbers list gmap.
From S2P Require Import Prelude Float64 Ghostdag Reachability ReachabilityTree ReachabilityOps ReachabilityReindex ReachabilityRoot ReachabilityProofs ReachabilityDelete.
Import Ghostdag.Ghostdag Reachability.Reachability ReachabilityTree.ReachabilityTree ReachabilityOps.ReachabilityOps ReachabilityProofs.ReachabilityProofs
  ReachabilityDelete.ReachabilityDelete.
Open Scope Z_scope.

Module ReachabilityTrace.

(** ** DAGs *)

(** The selected parent and the parents of each block but the origin *)
Abbreviation dag := (gmap Hash (Hash * list Hash)).

Definition parent_in (G : dag) (b q : Hash) : Prop := exists sp ps, G !! b = Some (sp, ps) /\ q ∈ ps.
Definition selected_in (G : dag) (b q : Hash) : Prop := exists ps, G !! b = Some (q, ps).
(** [a] is [b] or in its past; on its selected chain. *)
Definition dag_past (G : dag) (a b : Hash) : Prop := rtc (parent_in G) b a.
Definition dag_chain (G : dag) (a b : Hash) : Prop := rtc (selected_in G) b a.

(** Parents are known, and the selected parent is one of them. *)
Definition dag_closed (G : dag) : Prop :=
  forall b sp ps, G !! b = Some (sp, ps) -> sp ∈ ps /\ forall q, q ∈ ps -> q = ORIGIN \/ q ∈ dom G.

Lemma dag_past_trans G x y z : dag_past G x y -> dag_past G y z -> dag_past G x z.
Proof. intros H1 H2. unfold dag_past in *. by etrans. Qed.

Lemma chain_in_past G a b : dag_closed G -> dag_chain G a b -> dag_past G a b.
Proof.
  intros HG Ht. unfold dag_chain, dag_past in *. induction Ht as [|b q a (ps & Hb) _ IH]; [constructor|]. econstructor; [|exact IH]. exists q, ps. split; [done|]. by apply (HG b q ps).
Qed.

Section Extend.
Context (G : dag) (HG : dag_closed G) (b sp : Hash) (ps : list Hash) (Hb : G !! b = None) (Hbo : b <> ORIGIN) (Hsp : sp ∈ ps).
Context (Hps : forall q, q ∈ ps -> q = ORIGIN \/ q ∈ dom G).
Let G' : dag := <[b := (sp, ps)]> G.

Definition known (x : Hash) : Prop := x = ORIGIN \/ x ∈ dom G.

Lemma known_ne x : known x -> x <> b.
Proof. intros [?|Hx] He; [congruence|]. rewrite He in Hx. by apply not_elem_of_dom in Hb. Qed.

Lemma extend_closed : dag_closed G'.
Proof.
  intros x q qs Hx. assert (Hdom : forall y, y ∈ dom G -> y ∈ dom G') by (intros y Hy; unfold G'; rewrite dom_insert; by apply elem_of_union_r).
  destruct (decide (x = b)) as [->|Hne].
  - unfold G' in Hx. rewrite lookup_insert_eq in Hx. injection Hx as <- <-. split; [done|]. intros y Hy. destruct (Hps y Hy); auto.
  - unfold G' in Hx. rewrite lookup_insert_ne in Hx by done. destruct (HG x q qs Hx) as [? Hq]. split; [done|]. intros y Hy. destruct (Hq y Hy); auto.
Qed.

Lemma parent_known x q : known x -> parent_in G' x q <-> parent_in G x q.
Proof. intros Hx. unfold parent_in, G'. by rewrite lookup_insert_ne by (by apply not_eq_sym, known_ne). Qed.
Lemma selected_known x q : known x -> selected_in G' x q <-> selected_in G x q.
Proof. intros Hx. unfold selected_in, G'. by rewrite lookup_insert_ne by (by apply not_eq_sym, known_ne). Qed.

Lemma known_parent x q : parent_in G x q -> known q.
Proof. intros (s & qs & Hx & Hq). by apply (HG x s qs). Qed.
Lemma known_selected x q : selected_in G x q -> known q.
Proof. intros (qs & Hx). destruct (HG x q qs Hx) as [Hq Hall]. by apply Hall. Qed.

Lemma extend_past x y : known y -> dag_past G' x y <-> dag_past G x y.
Proof.
  intros Hy. unfold dag_past. split; intros Ht.
  - induction Ht as [|y q x Hq _ IH]; [constructor|]. apply parent_known in Hq; [|done]. econstructor; [exact Hq|]. by apply IH, (known_parent y).
  - induction Ht as [|y q x Hq _ IH]; [constructor|]. econstructor; [by apply parent_known|]. by apply IH, (known_parent y).
Qed.

Lemma extend_chain x y : known y -> dag_chain G' x y <-> dag_chain G x y.
Proof.
  intros Hy. unfold dag_chain. split; intros Ht.
  - induction Ht as [|y q x Hq _ IH]; [constructor|]. apply selected_known in Hq; [|done]. econstructor; [exact Hq|]. by apply IH, (known_selected y).
  - induction Ht as [|y q x Hq _ IH]; [constructor|]. econstructor; [by apply selected_known|]. by apply IH, (known_selected y).
Qed.

Lemma extend_new x : x <> b -> dag_past G' x b <-> exists q, q ∈ ps /\ dag_past G x q.
Proof.
  intros Hne. split.
  - intros Ht. inversion Ht as [|? q ? (s & qs & Eq & Hq) Hqx]; subst; [done|]. unfold G' in Eq. rewrite lookup_insert_eq in Eq. injection Eq as <- <-.
    exists q. split; [done|]. apply extend_past; [by apply Hps|done].
  - intros (q & Hq & Hqx). eapply rtc_l; [exists sp, ps; split; [apply lookup_insert_eq|exact Hq]|]. apply extend_past; [by apply Hps|done].
Qed.

Lemma extend_new_chain x : x <> b -> dag_chain G' x b <-> dag_chain G x sp.
Proof.
  intros Hne. split.
  - intros Ht. inversion Ht as [|? q ? (qs & Eq) Hqx]; subst; [done|]. unfold G' in Eq. rewrite lookup_insert_eq in Eq. injection Eq as <- <-.
    apply extend_chain; [by apply Hps|done].
  - intros Hx. eapply rtc_l; [exists ps; apply lookup_insert_eq|]. apply extend_chain; [by apply Hps|done].
Qed.

Lemma known_past x y : dag_past G x y -> known y -> known x.
Proof. intros Ht. unfold dag_past in Ht. induction Ht as [|y q x Hq _ IH]; [done|]. intros _. by apply IH, (known_parent y). Qed.

(** The new block is in no other past. *)
Lemma extend_first y : dag_past G' b y -> y = b.
Proof.
  intros Ht. destruct (decide (y = b)) as [|Hne]; [done|]. exfalso. assert (Hk : known y).
  - inversion Ht as [|? q ? (s & qs & Eq & Hq) Hqx]; [congruence|]. unfold G' in Eq. rewrite lookup_insert_ne in Eq by congruence. right. by apply elem_of_dom_2 in Eq.
  - apply extend_past in Ht; [|done]. apply (known_ne b); [|done]. by apply (known_past b y).
Qed.

End Extend.

(** ** Well-formed stores *)

(** The intervals of the children of [h], in their order, are apart and within the bounds. *)
Fixpoint children_fit (s : rstore) (h : Hash) (lo : Z) (l : list Hash) (hi : Z) : bool :=
  match l with
  | [] => lo <=? hi + 1
  | c :: l =>
      match rmap s !! c with
      | Some d => bool_decide (parent d = h) && (lo <=? start (interval d)) && (start (interval d) <=? iend (interval d)) && children_fit s h (iend (interval d) + 1) l hi
      | None => false
      end
  end.

(** Those of a covering set too, and none is below [h]. *)
Fixpoint covering_fit (s : rstore) (i : Interval) (lo : Z) (l : list Hash) : bool :=
  match l with
  | [] => true
  | y :: l =>
      match rmap s !! y with
      | Some d => (lo <? start (interval d)) && negb (contains i (interval d)) && covering_fit s i (iend (interval d)) l
      | None => false
      end
  end.

Definition parent_fit (s : rstore) (h : Hash) (d : ReachabilityData) : bool :=
  if bool_decide (h = ORIGIN) then bool_decide (parent d = NONE)
  else match rmap s !! parent d with
       | Some p => bool_decide (h ∈ children p) && (height p <? height d)
       | None => false
       end.

Definition entry_fit (s : rstore) (h : Hash) (d : ReachabilityData) : bool :=
  (1 <=? start (interval d)) && (start (interval d) <=? iend (interval d)) && (iend (interval d) <=? 2 ^ 64 - 2) && (0 <=? height d) &&
  children_fit s h (start (interval d)) (children d) (iend (interval d) - 1) && parent_fit s h d && covering_fit s (interval d) 0 (future_covering_set d).

Definition well_formed (s : rstore) : bool :=
  forallb (fun '(h, d) => entry_fit s h d) (map_to_list (rmap s)) && match reindex_root s with Some r => has s r | None => false end.

Section WellFormed.
Context (m : tree) (SH : shape m ORIGIN) (iv : Hash -> Interval) (fc : Hash -> list Hash) (r : option Hash) (Hfit : fits m iv ORIGIN).
Let s := build m iv fc r.

Lemma entry_at h : h ∈ dom m -> rmap s !! h = Some (mk_rdata (K m h) (P m h) (iv h) (ht m h) (fc h)).
Proof. intros [n Hn]%elem_of_dom. unfold s, K, P, ht. rewrite lookup_build, Hn. done. Qed.

Lemma children_fit_ok h l : (forall c, c ∈ l -> c ∈ dom m /\ P m c = h) -> forall lo hi, chained iv (fun _ => 1) lo l hi -> children_fit s h lo l hi = true.
Proof.
  induction l as [|c l IH]; intros Hl lo hi Hc; cbn [children_fit chained] in *; [lia|]. destruct (Hl c ltac:(left)) as [Hd HP]. rewrite (entry_at c Hd). cbn [interval parent].
  destruct Hc as (? & Hn & Hc). unfold isz in Hn. rewrite bool_decide_eq_true_2 by done. rewrite (IH ltac:(intros x Hx; apply Hl; by right) _ _ Hc). lia.
Qed.

Lemma covering_fit_ok x l : x ∈ dom m -> (forall y, y ∈ l -> y ∈ dom m /\ ~ tanc m x y) ->
  (forall i j a b, (i < j)%nat -> l !! i = Some a -> l !! j = Some b -> left_in m ORIGIN a b) ->
  forall lo, (forall y, y ∈ l -> lo < start (iv y)) -> covering_fit s (iv x) lo l = true.
Proof.
  intros Hx. induction l as [|y l IH]; intros Hl Ho lo Hlo; cbn [covering_fit]; [done|]. destruct (Hl y ltac:(left)) as [Hd Hn]. rewrite (entry_at y Hd). cbn [interval].
  pose proof (Hlo y ltac:(left)). assert (Hc : contains (iv x) (iv y) = false).
  - apply not_true_is_false. intros Hc. apply Hn. apply (contains_tanc m ORIGIN SH iv ORIGIN); [done|by apply (tanc_root m ORIGIN SH)..|done].
  - rewrite Hc, IH; [lia|intros z Hz; apply Hl; by right|intros i j a b Hij Ha Hb; by apply (Ho (S i) (S j)); [lia|..]|].
    intros z [j Hj]%list_elem_of_lookup. by apply (left_lt m ORIGIN SH iv ORIGIN y z Hfit), (Ho O (S j)); [lia|..].
Qed.

Lemma entry_fit_ok past : iv ORIGIN = maximal -> covers m ORIGIN fc past -> forall h, h ∈ dom m -> entry_fit s h (mk_rdata (K m h) (P m h) (iv h) (ht m h) (fc h)) = true.
Proof.
  intros Hmax Hcv h Hh. pose proof (tanc_root m ORIGIN SH h Hh) as Hth. destruct (fits_inside m iv ORIGIN h Hfit Hth) as (H1 & H2 & H3).
  rewrite Hmax in H1, H3. cbn in H1, H3. unfold entry_fit. cbn [interval height children future_covering_set].
  rewrite children_fit_ok; [|intros c Hc; destruct (sh_kid m ORIGIN SH h c Hc) as (? & ? & _); done|by apply Hfit].
  rewrite covering_fit_ok; [|done| | |].
  - pose proof (sh_height m ORIGIN SH h). assert (Hp : parent_fit s h (mk_rdata (K m h) (P m h) (iv h) (ht m h) (fc h)) = true); [|rewrite Hp; lia].
    unfold parent_fit. cbn [parent height]. case_bool_decide as Ho; [rewrite Ho; by apply bool_decide_eq_true_2, SH|]. pose proof (sh_par m ORIGIN SH h Hh Ho) as Hk.
    destruct (kid_dom m ORIGIN SH _ _ Hk) as [Hp _]. destruct (sh_kid m ORIGIN SH _ _ Hk) as (_ & _ & ?). rewrite (entry_at _ Hp). cbn [children height].
    rewrite bool_decide_eq_true_2 by done. lia.
  - intros y Hy. destruct (cv_item _ _ _ _ Hcv h y Hh Hy) as (? & _ & ?). done.
  - intros i j a b. by apply (cv_order _ _ _ _ Hcv h).
  - intros y Hy. destruct (cv_item _ _ _ _ Hcv h y Hh Hy) as (Hd & _). destruct (fits_inside m iv ORIGIN y Hfit (tanc_root m ORIGIN SH y Hd)) as (H4 & _).
    rewrite Hmax in H4. cbn in H4. lia.
Qed.

End WellFormed.

Lemma serves_well_formed k s chain past : serves k s chain past -> well_formed s = true.
Proof.
  intros (m & iv & fc & root & -> & SH & Hfit & Hmax & Hroot & Hcv & _). unfold well_formed. apply andb_true_intro. split.
  - apply forallb_forall. intros [h d] Hin. apply list_elem_of_In, elem_of_map_to_list in Hin.
    assert (Hh : h ∈ dom m) by (rewrite <- (blocks_build m iv fc (Some root)); by apply elem_of_dom_2 in Hin).
    rewrite (entry_at m iv fc (Some root) h Hh) in Hin. injection Hin as <-. by apply (entry_fit_ok m SH iv fc (Some root) Hfit past).
  - cbn [reindex_root build]. unfold has. by rewrite (entry_at m iv fc (Some root) root Hroot).
Qed.

(** ** Operations in any order *)

Section Trace.
Context (powf : Z -> Z -> Z) (fuel : nat).

(** The mergeset of a new block: what is stored of the past of its parents, but not of
    that of the selected one *)
Definition mergeset_of (G : dag) (s : rstore) (sp : Hash) (ps M : list Hash) : Prop :=
  NoDup M /\ forall x, x ∈ M <-> x ∈ blocks s /\ (exists q, q ∈ ps /\ dag_past G x q) /\ ~ dag_past G x sp.

(** The mergeset of a stored block with respect to its parent in the tree *)
Definition mergeset_in (G : dag) (s : rstore) (b p : Hash) (M : list Hash) : Prop :=
  NoDup M /\ forall x, x ∈ M <-> x ∈ blocks s /\ x <> b /\ dag_past G x b /\ ~ dag_past G x p.

(** [k] blocks and hints *)
Inductive indexed : nat -> dag -> rstore -> Prop :=
| ix_init s : init_reachability (mk_rstore ∅ None) = Done s -> indexed 0 ∅ s
| ix_add k G s b sp ps M s' : indexed k G s -> G !! b = None -> b <> ORIGIN -> b <> NONE -> sp ∈ ps -> (forall q, q ∈ ps -> q ∈ blocks s) ->
    mergeset_of G s sp ps M -> add_block powf fuel s b sp M = Done s' -> indexed (S k) (<[b := (sp, ps)]> G) s'
| ix_hint k G s h s' : indexed k G s -> h ∈ blocks s -> reindex_root s <> Some h -> hint_virtual_selected_parent powf fuel s h = Done s' -> indexed (S k) G s'
| ix_delete k G s b p M s' : indexed k G s -> b ∈ blocks s -> b <> ORIGIN -> reindex_root s <> Some b -> get_parent s b = Done p -> mergeset_in G s b p M ->
    delete_block s b M = Done s' -> indexed k G s'.

Definition within (k : nat) : Prop := Z.of_nat k < max_ops /\ Z.of_nat k + 3 <= Z.of_nat fuel.

(** What holds of a DAG and its store *)
Definition good_state (k : Z) (G : dag) (s : rstore) : Prop :=
  serves k s (dag_chain G) (dag_past G) /\ dag_closed G /\ forall x, x ∈ blocks s -> x = ORIGIN \/ x ∈ dom G.

Lemma add_good k G s b sp ps M : good_state k G s -> 0 <= k < max_ops -> k + 3 <= Z.of_nat fuel -> G !! b = None -> b <> ORIGIN -> b <> NONE -> sp ∈ ps ->
  (forall q, q ∈ ps -> q ∈ blocks s) -> mergeset_of G s sp ps M ->
  exists s', add_block powf fuel s b sp M = Done s' /\ good_state (k + 1) (<[b := (sp, ps)]> G) s' /\ blocks s' = {[b]} ∪ blocks s /\ reindex_root s' = reindex_root s.
Proof.
  intros (Hs & HG & Hbl) Hk Hf Hb Hbo Hbn Hsp Hps [HM HMin]. assert (Hkn : forall q, q ∈ ps -> q = ORIGIN \/ q ∈ dom G) by (intros q Hq; by apply Hbl, Hps).
  assert (Hne : forall x, x ∈ blocks s -> x <> b) by (intros x Hx; by apply (known_ne G b Hb Hbo), Hbl).
  assert (Hold : forall x y, y ∈ blocks s -> dag_past (<[b := (sp, ps)]> G) x y <-> dag_past G x y) by (intros x y Hy; by apply (extend_past G HG b sp ps Hb Hbo), Hbl).
  destruct (serves_add powf k s (dag_chain G) (dag_chain (<[b := (sp, ps)]> G)) (dag_past G) (dag_past (<[b := (sp, ps)]> G)) b sp M fuel) as (s' & E & Hs' & Hbl' & Hr'); try done.
  - intros Hx. by apply (Hne b).
  - by apply Hps.
  - intros x y _. apply Hold.
  - apply (extend_new G HG b sp ps Hb Hbo Hkn); [by apply Hne, Hps|]. exists sp. split; [done|constructor].
  - apply (extend_first G HG b sp ps Hb Hbo).
  - constructor.
  - apply dag_past_trans.
  - intros x. rewrite HMin. split; (intros (Hx & H1 & H2); split_and!; [done| |done]); by apply (extend_new G HG b sp ps Hb Hbo Hkn x (Hne x Hx)).
  - intros x y _ Hy. by apply (extend_chain G HG b sp ps Hb Hbo), Hbl.
  - intros x Hx. by apply (extend_new_chain G HG b sp ps Hb Hbo Hsp Hkn), Hne.
  - intros y. split; [|intros ->; constructor]. intros Ht. apply (extend_first G HG b sp ps Hb Hbo). by apply chain_in_past; [apply extend_closed|].
  - exists s'. split_and!; [done| |done|done]. split_and!; [done|by apply extend_closed|]. intros x. rewrite Hbl', elem_of_union, elem_of_singleton, dom_insert, elem_of_union, elem_of_singleton.
    intros [->|Hx]; [auto|]. destruct (Hbl x Hx); auto.
Qed.

Lemma indexed_good k G s : indexed k G s -> within k -> good_state (Z.of_nat k) G s.
Proof.
  intros Hi. induction Hi as [s E|k G s b sp ps M s' _ IH Hb Hbo Hbn Hsp Hps HM E|k G s h s' _ IH Hh Hr E|k G s b p M s' _ IH Hb Hbo Hr Hp [HM HMin] E]; intros [Hk Hf].
  - destruct (serves_init (dag_chain ∅) (dag_past ∅)) as (s0 & E0 & Hs & Hbl & _).
    + intros x y. split; [|intros ->; constructor]. intros Ht. inversion Ht as [|? ? ? (? & Hl)]; [done|]. by rewrite lookup_empty in Hl.
    + intros x y. split; [|intros ->; constructor]. intros Ht. inversion Ht as [|? ? ? (? & ? & Hl & _)]; [done|]. by rewrite lookup_empty in Hl.
    + assert (s0 = s) as -> by congruence. split_and!; [done| |]; [by intros ? ? ?; rewrite lookup_empty|]. intros x. rewrite Hbl, elem_of_singleton. auto.
  - destruct (add_good (Z.of_nat k) G s b sp ps M) as (s0 & E0 & Hs0 & _); try done; [apply IH; split; lia|lia..|]. replace (Z.of_nat (S k)) with (Z.of_nat k + 1) by lia. congruence.
  - destruct IH as (Hs & HG & Hbl); [split; lia|]. destruct (serves_hint powf (Z.of_nat k) s _ _ h fuel Hs) as (s0 & E0 & Hs0 & Hbl0 & _); [lia|lia|done|done|].
    assert (s0 = s') as -> by congruence. replace (Z.of_nat (S k)) with (Z.of_nat k + 1) by lia. split_and!; [done|done|]. by rewrite Hbl0.
  - destruct IH as (Hs & HG & Hbl); [split; lia|]. destruct (serves_delete (Z.of_nat k) s _ _ b p M Hs) as (s0 & E0 & Hs0 & Hbl0 & _); [done..|].
    assert (s0 = s') as -> by congruence. split_and!; [done|done|]. intros x. rewrite Hbl0. intros [Hx _]%elem_of_difference. by apply Hbl.
Qed.

(** C29: in a store that blocks were added to and deleted from, with the reindex root
    moving in between (up to 2^23 blocks and hints, any number of deletions), a query
    for stored blocks returns and says whether the first is in the past of the second,
    or on its selected chain, in the DAG. *)
Theorem reachability_correct k G s : indexed k G s -> within k -> forall a b, a ∈ blocks s -> b ∈ blocks s ->
  (exists res : bool, is_dag_ancestor_of s a b = Done res /\ (res = true <-> dag_past G a b)) /\
  (exists res : bool, is_chain_ancestor_of s a b = Done res /\ (res = true <-> dag_chain G a b)).
Proof. intros Hi Hk a b Ha Hb. destruct (indexed_good k G s Hi Hk) as (Hs & _ & _). by apply (serves_query (Z.of_nat k)). Qed.

(** C31: the store stays well formed, over up to 2^23 blocks and hints: intervals are
    non-empty, in the range of 64 bits, those of children apart, in order, and within that of their parent with one value
    to spare, links between parents and children agree, heights grow, and covering sets
    are in order and of blocks that are not below. *)
Theorem store_well_formed k G s : indexed k G s -> within k -> well_formed s = true.
Proof. intros Hi Hk. destruct (indexed_good k G s Hi Hk) as (Hs & _ & _). by apply (serves_well_formed _ _ _ _ Hs). Qed.

(** C30: after up to 2^23 blocks and hints no operation fails, with an error, an overflow, a
    failed assertion or for lack of fuel. A new block with stored parents is added,
    whatever space is left around its parent. A stored block other than the origin and
    the reindex root is deleted. A hint for a stored block other than the reindex root
    is followed: a root on the selected chain of the hint goes down that chain to the
    last block that is [DEFAULT_REINDEX_DEPTH] above the hint; a root off the chain
    stays while the hint is less than [DEFAULT_REINDEX_SLACK] higher, and else starts
    from the last block the two chains share. The reindex root itself as a hint is the
    exception, it is answered with [BadQuery]. *)
Theorem reachability_never_fails k G s : indexed k G s -> within k ->
  (forall b sp ps M, G !! b = None -> b <> ORIGIN -> b <> NONE -> sp ∈ ps -> (forall q, q ∈ ps -> q ∈ blocks s) -> mergeset_of G s sp ps M ->
    exists s', add_block powf fuel s b sp M = Done s' /\ blocks s' = {[b]} ∪ blocks s) /\
  (forall h, h ∈ blocks s -> reindex_root s <> Some h ->
    exists s', hint_virtual_selected_parent powf fuel s h = Done s' /\ blocks s' = blocks s /\ root_moves s (dag_chain G) h s') /\
  (forall h, reindex_root s = Some h -> hint_virtual_selected_parent powf fuel s h = Err BadQuery) /\
  (forall b p M, b ∈ blocks s -> b <> ORIGIN -> reindex_root s <> Some b -> get_parent s b = Done p -> mergeset_in G s b p M ->
    exists s', delete_block s b M = Done s' /\ blocks s' = blocks s ∖ {[b]}).
Proof.
  intros Hi Hk. pose proof (indexed_good k G s Hi Hk) as Hg. destruct Hk as [Hk Hf]. pose proof Hg as (Hs & _ & _). split_and!.
  - intros b sp ps M Hb Hbo Hbn Hsp Hps HM. destruct (add_good (Z.of_nat k) G s b sp ps M) as (s' & E & _ & Hbl & _); try done; [lia|]. by exists s'.
  - intros h Hh Hr. destruct (serves_hint powf (Z.of_nat k) s _ _ h fuel Hs) as (s' & E & _ & Hbl & Hmv); [lia|lia|done|done|]. by exists s'.
  - intros h Hr. by apply (serves_hint_root powf (Z.of_nat k) s (dag_chain G) (dag_past G)); [|lia|].
  - intros b p M Hb Hbo Hr Hp [HM HMin]. destruct (serves_delete (Z.of_nat k) s _ _ b p M Hs) as (s' & E & _ & Hbl & _); [done..|]. by exists s'.
Qed.

End Trace.

(** ** A run *)

Definition done_or {A} (a : A) (r : R A) : A := match r with Done x => x | _ => a end.
Definition no_powf (_ _ : Z) : Z := 0.
Definition run0 : rstore := done_or (mk_rstore ∅ None) (init_reachability (mk_rstore ∅ None)).
Definition run1 : rstore := done_or run0 (add_block no_powf 20 run0 1 ORIGIN []).
Definition run2 : rstore := done_or run0 (add_block no_powf 20 run1 2 ORIGIN []).
Definition run3 : rstore := done_or run0 (add_block no_powf 20 run2 3 1 [2]).
Definition run4 : rstore := done_or run0 (hint_virtual_selected_parent no_powf 20 run3 3).
Definition run_dag (n : nat) : dag :=
  list_to_map (take n [(1, (ORIGIN, [ORIGIN])); (2, (ORIGIN, [ORIGIN])); (3, (1, [1; 2]))]).

Lemma past_nothing (G : dag) a b : G !! b = None -> dag_past G a b -> a = b.
Proof. intros Hb Ht. inversion Ht as [|? q ? (s & ps & Hq & _)]; [done|]. congruence. Qed.

Lemma past_single (G : dag) a b : G !! b = Some (ORIGIN, [ORIGIN]) -> G !! ORIGIN = None -> dag_past G a b <-> a = b \/ a = ORIGIN.
Proof.
  intros Hb Ho. split.
  - intros Ht. inversion Ht as [|? q ? (s & ps & Hq & Hin) Hr]; [auto|]. rewrite Hb in Hq. injection Hq as <- <-. apply list_elem_of_singleton in Hin as ->.
    right. by apply (past_nothing G).
  - intros [->| ->]; [constructor|]. eapply rtc_l; [|constructor]. exists ORIGIN, [ORIGIN]. split; [done|left].
Qed.

Lemma mergeset_single G s : mergeset_of G s ORIGIN [ORIGIN] [].
Proof.
  split; [constructor|]. intros x. split; [intros Hx; by apply elem_of_nil in Hx|]. intros (_ & (q & Hq & Hp) & Hn). apply list_elem_of_singleton in Hq as ->. done.
Qed.

Lemma mergeset_run : mergeset_of (run_dag 2) run2 1 [1; 2] [2].
Proof.
  assert (P1 : forall x, dag_past (run_dag 2) x 1 <-> x = 1 \/ x = ORIGIN) by (intros x; by apply past_single).
  assert (P2 : forall x, dag_past (run_dag 2) x 2 <-> x = 2 \/ x = ORIGIN) by (intros x; by apply past_single).
  split; [apply NoDup_singleton|]. intros x. rewrite list_elem_of_singleton, P1. split.
  - intros ->. split_and!; [unfold blocks; apply elem_of_dom; vm_compute; by eexists|exists 2; rewrite P2; split; [by right; left|by left]|]. intros [?|?]; done.
  - intros (_ & (q & Hq & Hx) & Hn). apply elem_of_cons in Hq as [->|Hq%list_elem_of_singleton]; [by apply P1 in Hx|]. subst q. apply P2 in Hx as [?|?]; [done|]. exfalso. auto.
Qed.

Lemma run_indexed : indexed no_powf 20 4 (run_dag 3) run4.
Proof.
  apply (ix_hint no_powf 20 3 _ run3 3); [|unfold blocks; apply elem_of_dom; vm_compute; by eexists|by vm_compute|by vm_compute].
  refine (ix_add no_powf 20 2 (run_dag 2) run2 3 1 [1; 2] [2] run3 _ _ _ _ _ _ _ _); [|done|done|done|by left| |apply mergeset_run|by vm_compute].
  { refine (ix_add no_powf 20 1 (run_dag 1) run1 2 ORIGIN [ORIGIN] [] run2 _ _ _ _ _ _ _ _); [|done|done|done|by left| |apply mergeset_single|by vm_compute].
    - apply (ix_add no_powf 20 0 ∅ run0 1 ORIGIN [ORIGIN] [] run1); [by constructor|done|done|done|by left| |apply mergeset_single|by vm_compute].
      intros q ->%list_elem_of_singleton. unfold blocks. apply elem_of_dom. vm_compute. by eexists.
    - intros q ->%list_elem_of_singleton. unfold blocks. apply elem_of_dom. vm_compute. by eexists. }
  intros q [->|Hq%list_elem_of_singleton]%elem_of_cons; [|subst q]; unfold blocks; apply elem_of_dom; vm_compute; by eexists.
Qed.

Lemma reachability_correct_witness : is_dag_ancestor_of run4 2 3 = Done true /\ exists res : bool, is_dag_ancestor_of run4 2 3 = Done res /\ (res = true <-> dag_past (run_dag 3) 2 3).
Proof.
  split; [by vm_compute|]. refine (proj1 (reachability_correct no_powf 20 4 (run_dag 3) run4 run_indexed _ 2 3 _ _)); [by vm_compute|..]; unfold blocks; apply elem_of_dom; vm_compute; by eexists.
Defined.

Lemma store_well_formed_witness : size (rmap run4) = 4%nat /\ well_formed run4 = true.
Proof. split; [by vm_compute|]. apply (store_well_formed no_powf 20 4 (run_dag 3) run4 run_indexed). by vm_compute. Defined.

Lemma reachability_never_fails_witness : exists s', hint_virtual_selected_parent no_powf 20 run4 2 = Done s' /\ blocks s' = blocks run4 /\ root_moves run4 (dag_chain (run_dag 3)) 2 s'.
Proof.
  refine (proj1 (proj2 (reachability_never_fails no_powf 20 4 (run_dag 3) run4 run_indexed _)) 2 _ _); [by vm_compute| |by vm_compute].
  unfold blocks. apply elem_of_dom. vm_compute. by eexists.
Defined.

End ReachabilityTrace.
