(* ===== verification/ReachabilityService.v ===== *)
(** * The reachability service (consensus/src/model/services/reachability.rs)

    The queries that the other parts of the node make, and the iterators over the
    selected chain. *)
From Stdlib Require Import ZArith Lia Sorting.Sorted.
From stdpp Require Import base numbers list gmap.
From S2P Require Import Prelude Float64 Ghostdag Reachability ReachabilityTree ReachabilityOps ReachabilityReindex ReachabilityRoot ReachabilityProofs ReachabilityDelete ReachabilityTrace.
Import Ghostdag.Ghostdag Reachability.Reachability ReachabilityTree.ReachabilityTree ReachabilityOps.ReachabilityOps ReachabilityReindex.ReachabilityReindex
  ReachabilityRoot.ReachabilityRoot ReachabilityProofs.ReachabilityProofs ReachabilityTrace.ReachabilityTrace.
Open Scope Z_scope.

Module ReachabilityService.

(** ** Queries *)

(** [Iterator::any] with a predicate that may panic *)
Fixpoint any_r {A} (f : A -> R bool) (l : list A) : R bool :=
  match l with
  | [] => Done false
  | a :: l => b ← f a; if b : bool then Done true else any_r f l
  end.

Definition service_is_chain_ancestor_of (s : rstore) (this queried : Hash) : R bool := unwrap_r (is_chain_ancestor_of s this queried).
Definition service_is_dag_ancestor_of (s : rstore) (this queried : Hash) : R bool := unwrap_r (is_dag_ancestor_of s this queried).
Definition is_dag_ancestor_of_any (s : rstore) (this : Hash) (queried : list Hash) : R bool := any_r (fun hash => unwrap_r (is_dag_ancestor_of s this hash)) queried.
Definition is_any_dag_ancestor (s : rstore) (l : list Hash) (queried : Hash) : R bool := any_r (fun hash => unwrap_r (is_dag_ancestor_of s hash queried)) l.
Definition is_any_dag_ancestor_result (s : rstore) (l : list Hash) (queried : Hash) : R bool := any_r (fun hash => is_dag_ancestor_of s hash queried) l.
Definition service_get_next_chain_ancestor (s : rstore) (descendant ancestor : Hash) : R Hash := unwrap_r (get_next_chain_ancestor s descendant ancestor).
Definition get_chain_parent (s : rstore) (this : Hash) : R Hash := unwrap_r (get_parent s this).

(** ** Iterators *)

(** [ancestor] or [descendant] is where it ends *)
Record ChainIterator := mk_iter { current : option Hash; goal : Hash; inclusive : bool }.

Definition backward_next (s : rstore) (it : ChainIterator) : R (option Hash * ChainIterator) :=
  match current it with
  | Some c =>
      if bool_decide (c = goal it) then
        if inclusive it then Done (Some c, mk_iter None (goal it) (inclusive it)) else Done (None, mk_iter None (goal it) (inclusive it))
      else
        next ← unwrap_r (get_parent s c);
        Done (Some c, mk_iter (Some next) (goal it) (inclusive it))
  | None => Done (None, it)
  end.

Definition forward_next (s : rstore) (it : ChainIterator) : R (option Hash * ChainIterator) :=
  match current it with
  | Some c =>
      if bool_decide (c = goal it) then
        if inclusive it then Done (Some c, mk_iter None (goal it) (inclusive it)) else Done (None, mk_iter None (goal it) (inclusive it))
      else
        next ← unwrap_r (get_next_chain_ancestor s (goal it) c);
        Done (Some c, mk_iter (Some next) (goal it) (inclusive it))
  | None => Done (None, it)
  end.

(** [Iterator::collect] *)
Fixpoint collect (next : ChainIterator -> R (option Hash * ChainIterator)) (fuel : nat) (it : ChainIterator) : R (list Hash) :=
  match fuel with
  | O => Stuck
  | S fuel =>
      '(o, it) ← next it;
      match o with
      | Some h => l ← collect next fuel it; Done (h :: l)
      | None => Done []
      end
  end.

Definition forward_chain_iterator (fuel : nat) (s : rstore) (from_ancestor to_descendant : Hash) (inclusive : bool) : R (list Hash) :=
  collect (forward_next s) fuel (mk_iter (Some from_ancestor) to_descendant inclusive).
Definition backward_chain_iterator (fuel : nat) (s : rstore) (from_descendant to_ancestor : Hash) (inclusive : bool) : R (list Hash) :=
  collect (backward_next s) fuel (mk_iter (Some from_descendant) to_ancestor inclusive).
Definition default_backward_chain_iterator (fuel : nat) (s : rstore) (from : Hash) : R (list Hash) :=
  backward_chain_iterator fuel s from ORIGIN false.

(** ** Paths *)

Inductive kid_path (m : tree) : Hash -> list Hash -> Hash -> Prop :=
| kp_one a : kid_path m a [a] a
| kp_cons a c l d : c ∈ K m a -> kid_path m c l d -> kid_path m a (a :: l) d.

Section Paths.
Context (m : tree) (SH : shape m ORIGIN).

Lemma kid_path_tanc a l d : kid_path m a l d -> tanc m a d.
Proof. intros Hp. induction Hp as [|a c l d Hc _ IH]; [apply tanc_refl|]. by eapply tanc_trans; [apply tanc_kid|]. Qed.

Lemma tanc_path a d : tanc m a d -> exists l, kid_path m a l d.
Proof. intros Ht. induction Ht as [a|a c d Hc _ [l Hl]]; [eexists; constructor|]. eexists. by econstructor. Qed.

Lemma path_members a l d : kid_path m a l d -> forall x, x ∈ l <-> tanc m a x /\ tanc m x d.
Proof.
  intros Hp. induction Hp as [a|a c l d Hc Hp IH]; intros x.
  - rewrite list_elem_of_singleton. split; [intros ->; split; apply tanc_refl|]. intros [H1 H2]. by apply (tanc_antisym m ORIGIN SH).
  - rewrite elem_of_cons, IH. pose proof (kid_path_tanc _ _ _ Hp) as Hcd. split.
    + intros [->|[H1 H2]]; [split; [apply tanc_refl|by apply (tanc_trans m a c d); [apply tanc_kid|]]|]. split; [|done]. by apply (tanc_trans m a c x); [apply tanc_kid|].
    + intros [H1 H2]. destruct (decide (x = a)) as [|Hne]; [by left|]. right. split; [|done].
      destruct (tanc_down m a x H1 ltac:(congruence)) as (c' & Hc' & Hx). assert (c' = c) as <-; [|done].
      apply (kids_apart m ORIGIN SH a c' c d Hc' Hc); [by apply (tanc_trans m c' x d)|done].
Qed.

Lemma path_sorted a l d : kid_path m a l d -> StronglySorted (fun x y => tanc m x y /\ x <> y) l.
Proof.
  intros Hp. induction Hp as [a|a c l d Hc Hp IH]; [repeat constructor|]. constructor; [done|]. apply Forall_forall. intros x [Hx _]%(path_members _ _ _ Hp). split.
  - by apply (tanc_trans m a c x); [apply tanc_kid|].
  - intros <-. destruct (sh_kid m ORIGIN SH a c Hc) as (_ & _ & ?). destruct (tanc_height m ORIGIN SH c a Hx) as [->|?]; lia.
Qed.

Lemma path_last a l d : kid_path m a l d -> l = [a] /\ a = d \/ exists l' p, l = l' ++ [d] /\ kid_path m a l' p /\ d ∈ K m p.
Proof.
  intros Hp. induction Hp as [a|a c l d Hc Hp IH]; [by left|]. right. destruct IH as [[-> ->]|(l' & p & -> & Hp' & Hd)].
  - exists [a], a. split_and!; [done|constructor|done].
  - exists (a :: l'), p. split_and!; [done|by econstructor|done].
Qed.

Context (iv : Hash -> Interval) (fc : Hash -> list Hash) (r : option Hash) (Hfit : fits m iv ORIGIN).
Let s := build m iv fc r.

Lemma next_ancestor_ok a c d : c ∈ K m a -> tanc m c d -> get_next_chain_ancestor s d a = Done c.
Proof.
  intros Hc Hcd. destruct (kid_dom m ORIGIN SH a c Hc) as [Ha Hcm]. pose proof (tanc_dom m ORIGIN SH c d Hcd Hcm) as Hd.
  pose proof (kid_not_above m ORIGIN SH a c Hc). unfold get_next_chain_ancestor. rewrite bool_decide_eq_false_2 by (intros ->; done).
  unfold is_strict_chain_ancestor_of, s. rstep (get_interval_ok m iv fc r a Ha). rstep (get_interval_ok m iv fc r d Hd).
  assert (Hs : strictly_contains (iv a) (iv d) = true); [|rewrite Hs; by apply (next_ok m ORIGIN SH fc r iv Hfit)].
  apply (strictly_contains_tanc m ORIGIN SH iv ORIGIN); [done|by apply (tanc_root m ORIGIN SH)..|]. split; [by apply (tanc_trans m a c d); [apply tanc_kid|]|].
  intros ->. done.
Qed.

Lemma collect_end next fuel d (incl : bool) : (forall it, next it = Done (if bool_decide (current it = Some (goal it)) then
    if inclusive it then (Some (goal it), mk_iter None (goal it) (inclusive it)) else (None, mk_iter None (goal it) (inclusive it)) else (None, it)) \/
    exists c, current it = Some c /\ c <> goal it) ->
  (2 <= fuel)%nat -> collect next fuel (mk_iter (Some d) d incl) = Done (if incl then [d] else []).
Proof.
  intros Hn Hf. destruct fuel as [|[|fuel]]; [lia|lia|]. cbn [collect]. destruct (Hn (mk_iter (Some d) d incl)) as [->|(c & Hc & Hne)]; [|cbn in *; congruence].
  cbn. rewrite bool_decide_eq_true_2 by done. destruct incl; cbn; [|done]. destruct (Hn (mk_iter None d true)) as [->|(c & Hc & _)]; [|done]. done.
Qed.

Lemma forward_ok fuel l d (incl : bool) : forall a, kid_path m a l d -> (length l < fuel)%nat ->
  forward_chain_iterator fuel s a d incl = Done (if incl then l else removelast l).
Proof.
  revert fuel. induction l as [|b l IH]; intros fuel a Hp Hf; inversion Hp as [|? c ? ? Hc Hp']; subst.
  - unfold forward_chain_iterator. apply collect_end; [|done]. intros [[c|] g i]; [|by left]. unfold forward_next. cbn. destruct (decide (c = g)) as [->|Hne]; [|right; by exists c].
    left. rewrite !bool_decide_eq_true_2 by done. by destruct i.
  - destruct fuel as [|fuel]; [cbn in Hf; lia|]. pose proof (kid_path_tanc c l d Hp') as Hcd. assert (E : forward_next s (mk_iter (Some b) d incl) = Done (Some b, mk_iter (Some c) d incl)).
    + unfold forward_next. cbn [current goal inclusive]. rewrite bool_decide_eq_false_2 by (intros ->; by apply (kid_not_above m ORIGIN SH d c)).
      by rewrite (next_ancestor_ok b c d Hc Hcd).
    + unfold forward_chain_iterator. cbn [collect]. rstep E. specialize (IH fuel c Hp' ltac:(cbn in Hf; lia)). unfold forward_chain_iterator in IH. rstep IH.
      destruct incl; [done|]. by destruct l; [inversion Hp'|].
Qed.

Lemma backward_ok fuel a (incl : bool) : forall l d, kid_path m a l d -> (length l < fuel)%nat ->
  backward_chain_iterator fuel s d a incl = Done (rev (if incl then l else tail l)).
Proof.
  revert fuel. induction fuel as [|fuel IH]; intros l d Hp Hf; [lia|]. destruct (path_last a l d Hp) as [[-> ->]|(l' & p & -> & Hp' & Hd)].
  - unfold backward_chain_iterator. rewrite collect_end; [by destruct incl| |cbn in Hf; lia]. intros [[c|] g i]; [|by left]. unfold backward_next. cbn.
    destruct (decide (c = g)) as [->|Hne]; [|right; by exists c]. left. rewrite !bool_decide_eq_true_2 by done. by destruct i.
  - destruct (sh_kid m ORIGIN SH p d Hd) as (Hdm & HP & _). assert (E : backward_next s (mk_iter (Some d) a incl) = Done (Some d, mk_iter (Some p) a incl)).
    + unfold backward_next. cbn [current goal inclusive].
      rewrite bool_decide_eq_false_2 by (intros ->; apply (kid_not_above m ORIGIN SH p a Hd), (kid_path_tanc _ _ _ Hp')).
      unfold s. rewrite (get_parent_ok m iv fc r d Hdm), HP. done.
    + rewrite length_app in Hf. cbn in Hf. specialize (IH l' p Hp' ltac:(lia)). unfold backward_chain_iterator in *. cbn [collect]. rstep E. rstep IH.
      f_equal. destruct incl; [by rewrite rev_app_distr|]. destruct l'; [inversion Hp'|]. cbn [tail app]. by rewrite rev_app_distr.
Qed.

End Paths.

(** C32: the iterators between two stored blocks of a chain give the stored blocks of it:
    forwards in the order of the chain, backwards in the opposite order, with or
    without the last one. *)
Theorem chain_iterators_correct powf fuel k G s a d n : indexed powf fuel k G s -> within fuel k -> a ∈ blocks s -> d ∈ blocks s -> dag_chain G a d -> (k + 1 < n)%nat ->
  exists l, (forall x, x ∈ l <-> x ∈ blocks s /\ dag_chain G a x /\ dag_chain G x d) /\ StronglySorted (fun x y => dag_chain G x y /\ x <> y) l /\
    forward_chain_iterator n s a d true = Done l /\ forward_chain_iterator n s a d false = Done (removelast l) /\
    backward_chain_iterator n s d a true = Done (rev l) /\ backward_chain_iterator n s d a false = Done (rev (tail l)).
Proof.
  intros Hi Hk Ha Hd Hch Hn. destruct (indexed_good powf fuel k G s Hi Hk) as ((m & iv & fc & root & -> & SH & Hfit & _ & _ & _ & Hc & Hsz & _) & _ & _).
  rewrite blocks_build in *. apply Hc in Hch; [|done|done]. destruct (tanc_path m a d Hch) as [l Hl]. pose proof (path_members m SH a l d Hl) as Hin.
  assert (Hdom : forall x, x ∈ l -> x ∈ dom m) by (intros x [Hx _]%Hin; by apply (tanc_dom m ORIGIN SH a)).
  pose proof (path_sorted m SH a l d Hl) as Hso. assert (Hlen : (length l < n)%nat).
  - assert (Hnd : NoDup l) by (clear -Hso; induction Hso as [|x l _ IH Hx]; constructor; [|done]; intros Hin; rewrite Forall_forall in Hx; by destruct (Hx x Hin)).
    apply (Nat.le_lt_trans _ (size (dom m))); [|rewrite size_dom; lia]. rewrite <- (size_list_to_set (C := gset Hash) l Hnd). apply subseteq_size. intros x Hx. apply Hdom. by apply elem_of_list_to_set in Hx.
  - exists l. split_and!.
    + intros x. rewrite Hin. split; [intros [H1 H2]|intros (Hx & H1 & H2)]; [assert (Hx : x ∈ dom m) by (by apply Hdom, Hin)|]; rewrite <- !Hc in * by done; done.
    + clear -Hso Hdom Hc. induction Hso as [|x l _ IH Hx]; constructor; [apply IH; intros y Hy; apply Hdom; by right|]. rewrite Forall_forall in Hx |- *.
      intros y Hy. destruct (Hx y Hy) as [Ht Hne]. split; [|done]. apply Hc; [apply Hdom; left|apply Hdom; by right|done].
    + by apply (forward_ok m SH iv fc (Some root) Hfit n l d true).
    + by apply (forward_ok m SH iv fc (Some root) Hfit n l d false).
    + by apply (backward_ok m SH iv fc (Some root) n a true).
    + by apply (backward_ok m SH iv fc (Some root) n a false).
Qed.

Lemma chain_iterators_correct_witness : forward_chain_iterator 6 run4 ORIGIN 3 true = Done [ORIGIN; 1; 3] /\
  exists l, (forall x, x ∈ l <-> x ∈ blocks run4 /\ dag_chain (run_dag 3) ORIGIN x /\ dag_chain (run_dag 3) x 3) /\ StronglySorted (fun x y => dag_chain (run_dag 3) x y /\ x <> y) l /\
    forward_chain_iterator 6 run4 ORIGIN 3 true = Done l /\ forward_chain_iterator 6 run4 ORIGIN 3 false = Done (removelast l) /\
    backward_chain_iterator 6 run4 3 ORIGIN true = Done (rev l) /\ backward_chain_iterator 6 run4 3 ORIGIN false = Done (rev (tail l)).
Proof.
  split; [by vm_compute|].
  refine (chain_iterators_correct no_powf 20 4 (run_dag 3) run4 ORIGIN 3 6 run_indexed _ _ _ _ _);
    [by vm_compute|unfold blocks; apply elem_of_dom; vm_compute; by eexists|unfold blocks; apply elem_of_dom; vm_compute; by eexists| |lia].
  apply (rtc_l _ _ 1); [by exists [1; 2]|]. apply (rtc_l _ _ ORIGIN); [by exists [ORIGIN]|constructor].
Defined.

End ReachabilityService.
