(* ===== verification/HeaderProcessor.v ===== *)
(** * Header processing (consensus/src/pipeline/header_processor, processes/block_depth.rs)

    A header is validated in isolation and against its parents, gets its GHOSTDAG data,
    is checked against them, and is committed to the stores and to the reachability
    structure.  The stores are maps.  Other parts of the node that the checks ask, the
    proof of work, the windows of blocks and the parents of the higher levels, are a
    record of functions. *)
From Stdlib Require Import ZArith Lia.
From stdpp Require Import base numbers list gmap.
From S2P Require Import Prelude Ghostdag Reachability ReachabilityService.
Import Ghostdag.Ghostdag Reachability.Reachability ReachabilityService.ReachabilityService.
Open Scope Z_scope.

Module HeaderProcessor.

(** ** Data *)

Inductive RuleError :=
| KnownInvalid | WrongBlockVersion (v : Z) | TimeTooFarIntoTheFuture (t max : Z) | NoParents | TooManyParents (n max : Z) | OriginParent | InvalidPoW
| InvalidParent (h : Hash) | MissingParents (l : list Hash) | InvalidParentsRelation (a b : Hash) | PruningViolation (h : Hash)
| UnexpectedHeaderDaaScore (expected daa : Z) | UnexpectedDifficulty (h : Hash) (bits expected : Z) | InsufficientDaaWindowSize (n : Z)
| UnexpectedHeaderBlueScore (expected score : Z) | UnexpectedHeaderBlueWork (expected work : Z) | TimeTooOld (t median : Z) | MergeSetTooBig (n max : Z)
| ViolatingBoundedMergeDepth | WrongHeaderPruningPoint (expected p : Hash) | UnexpectedIndirectParents (expected parents : list (list Hash)).

Inductive BlockStatus := StatusInvalid | StatusUTXOValid | StatusUTXOPendingVerification | StatusDisqualifiedFromChain | StatusHeaderOnly.

(** The fields of a header that are looked at *)
Record Header := mk_header {
  h_hash : Hash; h_version : Z; h_parents_by_level : list (list Hash); h_timestamp : Z; h_bits : Z; h_nonce : Z; h_daa_score : Z;
  h_blue_work : Z; h_blue_score : Z; h_pruning_point : Hash }.

Definition direct_parents (h : Header) : list Hash := match h_parents_by_level h with [] => [] | ps :: _ => ps end.

(** Headers are stored with their levels, and depths as merge depth root and finality
    point. *)
Record node := mk_node {
  ghostdag_store : gmap Hash GhostdagData; relations_store : gmap Hash (list Hash); headers_store : gmap Hash (Header * Z); reachability : rstore;
  statuses : gmap Hash BlockStatus; depth_store : gmap Hash (Hash * Hash); headers_selected_tip : SortableBlock; pruning_point : Hash }.

Definition db (n : node) : stores :=
  mk_stores (ghostdag_store n) (relations_store n) ((fun '(h, _) => h_daa_score h) <$> headers_store n) ((fun '(h, _) => h_bits h) <$> headers_store n).

Definition set_status (n : node) (h : Hash) (s : BlockStatus) : node :=
  mk_node (ghostdag_store n) (relations_store n) (headers_store n) (reachability n) (<[h := s]> (statuses n)) (depth_store n) (headers_selected_tip n) (pruning_point n).

(** ** Computations *)

(** A value, a rule that a header violates, a panic, or a loop that was stopped *)
Inductive Proc (A : Type) : Type := Ret (a : A) | Rule (e : RuleError) | Crash | Hang.
Arguments Ret {A} a.
Arguments Rule {A} e.
Arguments Crash {A}.
Arguments Hang {A}.

#[global] Instance Proc_ret : MRet Proc := fun A a => Ret a.
#[global] Instance Proc_bind : MBind Proc := fun A B f m => match m with Ret a => f a | Rule e => Rule e | Crash => Crash | Hang => Hang end.

(** [unwrap] of what the stores and the reachability service return *)
Definition get {A} (m : gmap Hash A) (h : Hash) : Proc A := match m !! h with Some a => Ret a | None => Crash end.
Definition of_R {A} (m : R A) : Proc A := match m with Done a => Ret a | Err _ | Panic => Crash | Stuck => Hang end.
Definition of_result {A} (m : result A) : Proc A := match m with Ok a => Ret a | Fault => Crash | OutOfFuel => Hang end.
Definition check (b : bool) (e : RuleError) : Proc unit := if b then Ret () else Rule e.
Definition of_sum {A} (m : RuleError + A) : Proc A := match m with inl e => Rule e | inr a => Ret a end.
Definition catch {A} (m : Proc A) : Proc (RuleError + A) := match m with Ret a => Ret (inr a) | Rule e => Ret (inl e) | Crash => Crash | Hang => Hang end.

(** An append-only store takes a hash once. *)
Definition insert_new {A} (m : gmap Hash A) (h : Hash) (a : A) : Proc (gmap Hash A) := match m !! h with Some _ => Crash | None => Ret (<[h := a]> m) end.

Fixpoint block_unique (l : list Hash) : list Hash := match l with [] => [] | x :: l => x :: filter (fun y => y <> x) (block_unique l) end.

Definition insert_relations (m : gmap Hash (list Hash)) (h : Hash) (parents : list Hash) : Proc (gmap Hash (list Hash)) := insert_new m h (block_unique parents).

(** ** Parameters and other parts of the node *)

Record Params := mk_params {
  genesis_hash : Hash; ghostdag_k : ForkedParam; max_block_parents : ForkedParam; mergeset_size_limit : ForkedParam; merge_depth : ForkedParam;
  finality_depth : ForkedParam; timestamp_deviation_tolerance : Z; max_block_level : Z; crescendo_activation : Z; skip_proof_of_work : bool }.

Definition upper_bound (p : ForkedParam) : Z := Z.max (pre p) (post p).

Record Services := mk_services {
  (** whether the proof of work is below the target, and the level *)
  check_pow : Header -> bool * Z;
  (** the DAA score and the bits by the difficulty window, and the median time *)
  block_daa_window : node -> GhostdagData -> RuleError + Z;
  calculate_difficulty_bits : node -> GhostdagData -> Z;
  calc_past_median_time : node -> GhostdagData -> RuleError + Z;
  expected_header_pruning_point_v1 : node -> GhostdagData -> Hash;
  calc_block_parents : node -> Hash -> list Hash -> list (list Hash) }.

(** [mergeset_size] and the iterator of the mergeset without the selected parent *)
Definition mergeset_size (d : GhostdagData) : Z := Z.of_nat (length (mergeset_blues d) + length (mergeset_reds d)).
Definition mergeset_without_selected_parent (d : GhostdagData) : list Hash := drop 1 (mergeset_blues d) ++ mergeset_reds d.

Record HeaderProcessingContext := mk_context {
  c_hash : Hash; c_block_level : Z; c_pruning_point : Hash; c_known_parents : list Hash; c_ghostdag_data : GhostdagData; c_selected_parent_daa_score : Z;
  c_merge_depth_root : option Hash; c_finality_point : option Hash }.

Section Processor.
Context (P : Params) (V : Services) (powf : Z -> Z -> Z) (fuel : nat).

(** ** In isolation *)

Definition check_header_version (h : Header) : Proc unit := check (h_version h =? 1) (WrongBlockVersion (h_version h)).

Definition check_block_timestamp_in_isolation (now : Z) (h : Header) : Proc unit :=
  tolerance ← of_result (checked 64 (timestamp_deviation_tolerance P * 1000));
  max_block_time ← of_result (checked 64 (now + tolerance));
  check (h_timestamp h <=? max_block_time) (TimeTooFarIntoTheFuture (h_timestamp h) max_block_time).

Definition check_parents_count (h : Header) (limit : Z) : Proc unit :=
  _ ← check (negb (bool_decide (direct_parents h = []))) NoParents;
  check (Z.of_nat (length (direct_parents h)) <=? limit) (TooManyParents (Z.of_nat (length (direct_parents h))) limit).

Definition check_parents_limit_upper_bound (h : Header) : Proc unit := check_parents_count h (upper_bound (max_block_parents P)).

Definition check_parents_not_origin (h : Header) : Proc unit := check (negb (existsb (fun p => bool_decide (p = ORIGIN)) (direct_parents h))) OriginParent.

Definition check_pow_and_calc_block_level (h : Header) : Proc Z :=
  let '(passed, level) := check_pow V h in
  if passed || skip_proof_of_work P then Ret level else Rule InvalidPoW.

Definition validate_header_in_isolation (now : Z) (h : Header) : Proc Z :=
  _ ← check_header_version h;
  _ ← check_block_timestamp_in_isolation now h;
  _ ← check_parents_limit_upper_bound h;
  _ ← check_parents_not_origin h;
  check_pow_and_calc_block_level h.

(** ** Parents *)

(** The loop of [check_parents_exist]; [missing] is in reverse. *)
Fixpoint find_missing (st : gmap Hash BlockStatus) (parents missing : list Hash) : Proc (list Hash) :=
  match parents with
  | [] => Ret (rev missing)
  | p :: parents =>
      match st !! p with
      | None => find_missing st parents (p :: missing)
      | Some StatusInvalid => Rule (InvalidParent p)
      | Some _ => find_missing st parents missing
      end
  end.

Definition check_parents_exist (n : node) (h : Header) : Proc unit :=
  missing ← find_missing (statuses n) (direct_parents h) [];
  check (bool_decide (missing = [])) (MissingParents missing).

(** [for parent_b in parents] *)
Fixpoint check_incest_with (n : node) (parent_a : Hash) (parents : list Hash) : Proc unit :=
  match parents with
  | [] => Ret ()
  | parent_b :: parents =>
      if bool_decide (parent_a = parent_b) then check_incest_with n parent_a parents
      else
        b ← of_R (service_is_dag_ancestor_of (reachability n) parent_a parent_b);
        if b : bool then Rule (InvalidParentsRelation parent_a parent_b) else check_incest_with n parent_a parents
  end.

Fixpoint check_incest (n : node) (all parents : list Hash) : Proc unit :=
  match parents with
  | [] => Ret ()
  | parent_a :: parents => _ ← check_incest_with n parent_a all; check_incest n all parents
  end.

Definition check_parents_incest (n : node) (h : Header) : Proc unit := check_incest n (direct_parents h) (direct_parents h).

Definition validate_parent_relations (n : node) (h : Header) : Proc unit :=
  _ ← check_parents_exist n h;
  check_parents_incest n h.

(** The parents of level 0 *)
Definition parents_at_level_0 (h : Header) : list Hash := direct_parents h.
Definition collect_known_parents (n : node) (h : Header) : list Hash :=
  match filter (fun p => is_Some (relations_store n !! p)) (parents_at_level_0 h) with [] => [ORIGIN] | ps => ps end.

(** ** GHOSTDAG *)

(** The reachability service as GHOSTDAG asks it, which unwraps the answers.  A query that
    fails reads as no here; in the states a node reaches all queries about stored
    blocks are answered. *)
Definition oracle (r : rstore) (a b : Hash) : bool := match service_is_dag_ancestor_of r a b with Done b => b | _ => false end.

Definition run_ghostdag (n : node) (h : Hash) (known_parents : list Hash) : Proc GhostdagData :=
  match ghostdag_store n !! h with
  | Some d => Ret d
  | None => of_result (ghostdag (genesis_hash P) (ghostdag_k P) 0 (db n) (oracle (reachability n)) fuel known_parents)
  end.

(** ** Against the GHOSTDAG data *)

Definition check_parents_limit (c : HeaderProcessingContext) (h : Header) : Proc unit :=
  check_parents_count h (get_param (max_block_parents P) (c_selected_parent_daa_score c)).

Definition check_pruning_violation (n : node) (c : HeaderProcessingContext) : Proc unit :=
  b ← of_R (is_dag_ancestor_of_any (reachability n) (c_pruning_point c) (c_known_parents c));
  check b (PruningViolation (c_pruning_point c)).

Definition check_difficulty_and_daa_score (n : node) (c : HeaderProcessingContext) (h : Header) : Proc unit :=
  daa ← of_sum (block_daa_window V n (c_ghostdag_data c));
  _ ← check (daa =? h_daa_score h) (UnexpectedHeaderDaaScore daa (h_daa_score h));
  let expected_bits := calculate_difficulty_bits V n (c_ghostdag_data c) in
  check (h_bits h =? expected_bits) (UnexpectedDifficulty (h_hash h) (h_bits h) expected_bits).

Definition pre_pow_validation (n : node) (c : HeaderProcessingContext) (h : Header) : Proc unit :=
  _ ← check_parents_limit c h;
  _ ← check_pruning_violation n c;
  check_difficulty_and_daa_score n c h.

Definition check_blue_score (c : HeaderProcessingContext) (h : Header) : Proc unit :=
  let gd_blue_score := blue_score (c_ghostdag_data c) in
  check (gd_blue_score =? h_blue_score h) (UnexpectedHeaderBlueScore gd_blue_score (h_blue_score h)).

Definition check_blue_work (c : HeaderProcessingContext) (h : Header) : Proc unit :=
  let gd_blue_work := blue_work (c_ghostdag_data c) in
  check (gd_blue_work =? h_blue_work h) (UnexpectedHeaderBlueWork gd_blue_work (h_blue_work h)).

Definition check_median_timestamp (n : node) (c : HeaderProcessingContext) (h : Header) : Proc unit :=
  past_median_time ← of_sum (calc_past_median_time V n (c_ghostdag_data c));
  check (past_median_time <? h_timestamp h) (TimeTooOld (h_timestamp h) past_median_time).

Definition check_mergeset_size_limit (c : HeaderProcessingContext) : Proc unit :=
  let size := mergeset_size (c_ghostdag_data c) in
  let limit := get_param (mergeset_size_limit P) (c_selected_parent_daa_score c) in
  check (size <=? limit) (MergeSetTooBig size limit).

(** ** Depth *)

(** [for chain_block in forward_chain_iterator] *)
Fixpoint depth_loop (k : nat) (n : node) (it : ChainIterator) (required_blue_score : Z) (at_depth : Hash) : Proc Hash :=
  match k with
  | O => Hang
  | S k =>
      '(o, it) ← of_R (forward_next (reachability n) it);
      match o with
      | None => Ret at_depth
      | Some chain_block =>
          d ← get (ghostdag_store n) chain_block;
          if required_blue_score <=? blue_score d then Ret at_depth else depth_loop k n it required_blue_score chain_block
      end
  end.

Definition calculate_block_at_depth (n : node) (d : GhostdagData) (param : ForkedParam) (point : Hash * Hash -> Hash) (pp : Hash) : Proc Hash :=
  if bool_decide (selected_parent d = ORIGIN) then Ret ORIGIN
  else
    '(sp_header, _) ← get (headers_store n) (selected_parent d);
    let depth := get_param param (h_daa_score sp_header) in
    if blue_score d <? depth then Ret (genesis_hash P)
    else
      pp_data ← get (ghostdag_store n) pp;
      lowest ← of_result (checked 64 (blue_score pp_data + depth));
      if blue_score d <? lowest then Ret ORIGIN
      else
        b ← of_R (service_is_chain_ancestor_of (reachability n) pp (selected_parent d));
        if negb b then Ret ORIGIN
        else
          entry ← get (depth_store n) (selected_parent d);
          let from := if bool_decide (point entry = ORIGIN) then pp else point entry in
          required_blue_score ← of_result (checked 64 (blue_score d - depth));
          depth_loop fuel n (mk_iter (Some from) (selected_parent d) true) required_blue_score from.

Definition calc_merge_depth_root (n : node) (d : GhostdagData) (pp : Hash) : Proc Hash := calculate_block_at_depth n d (merge_depth P) fst pp.
Definition calc_finality_point (n : node) (d : GhostdagData) (pp : Hash) : Proc Hash := calculate_block_at_depth n d (finality_depth P) snd pp.

Fixpoint kosherizing_blues (n : node) (blues : list Hash) (root : Hash) : Proc (list Hash) :=
  match blues with
  | [] => Ret []
  | blue :: blues =>
      b ← of_R (service_is_chain_ancestor_of (reachability n) root blue);
      l ← kosherizing_blues n blues root;
      Ret (if b : bool then blue :: l else l)
  end.

(** [for red in mergeset_reds]; the kosherizing blues are loaded once. *)
Fixpoint check_reds (n : node) (d : GhostdagData) (root : Hash) (reds : list Hash) (kosher : option (list Hash)) : Proc unit :=
  match reds with
  | [] => Ret ()
  | red :: reds =>
      b ← of_R (service_is_dag_ancestor_of (reachability n) root red);
      if b : bool then check_reds n d root reds kosher
      else
        l ← match kosher with Some l => Ret l | None => kosherizing_blues n (mergeset_blues d) root end;
        b ← of_R (is_dag_ancestor_of_any (reachability n) red l);
        if b : bool then check_reds n d root reds (Some l) else Rule ViolatingBoundedMergeDepth
  end.

Definition check_bounded_merge_depth (n : node) (c : HeaderProcessingContext) : Proc HeaderProcessingContext :=
  let d := c_ghostdag_data c in
  root ← calc_merge_depth_root n d (c_pruning_point c);
  finality_point ← calc_finality_point n d (c_pruning_point c);
  _ ← check_reds n d root (mergeset_reds d) None;
  Ret (mk_context (c_hash c) (c_block_level c) (c_pruning_point c) (c_known_parents c) d (c_selected_parent_daa_score c) (Some root) (Some finality_point)).

(** ** The pruning point and the parents of all levels *)

Definition check_pruning_point (n : node) (c : HeaderProcessingContext) (h : Header) : Proc unit :=
  if negb (is_active (crescendo_activation P) (c_selected_parent_daa_score c)) then
    let expected := expected_header_pruning_point_v1 V n (c_ghostdag_data c) in
    check (bool_decide (expected = h_pruning_point h)) (WrongHeaderPruningPoint expected (h_pruning_point h))
  else Ret ().

Definition same_level_parents (crescendo_activated : bool) (parents expected : list Hash) : bool :=
  bool_decide (length parents = length expected) &&
  (bool_decide (parents = expected) ||
   if crescendo_activated then bool_decide ((list_to_set parents : gset Hash) = list_to_set expected)
   else forallb (fun p => bool_decide (p ∈ (list_to_set expected : gset Hash))) parents).

Definition check_indirect_parents (n : node) (c : HeaderProcessingContext) (h : Header) : Proc unit :=
  let expected := calc_block_parents V n (c_pruning_point c) (direct_parents h) in
  let activated := is_active (crescendo_activation P) (c_selected_parent_daa_score c) in
  check (bool_decide (length (h_parents_by_level h) = length expected) &&
         forallb (fun '(ps, es) => same_level_parents activated ps es) (zip (h_parents_by_level h) expected))
    (UnexpectedIndirectParents expected (h_parents_by_level h)).

Definition post_pow_validation (n : node) (c : HeaderProcessingContext) (h : Header) : Proc HeaderProcessingContext :=
  _ ← check_blue_score c h;
  _ ← check_blue_work c h;
  _ ← check_median_timestamp n c h;
  _ ← check_mergeset_size_limit c;
  c ← check_bounded_merge_depth n c;
  _ ← check_pruning_point n c h;
  _ ← check_indirect_parents n c h;
  Ret c.

(** ** Validation *)

(** Up to [pre_pow_validation] *)
Definition build_context (n : node) (now : Z) (h : Header) : Proc HeaderProcessingContext :=
  block_level ← validate_header_in_isolation now h;
  _ ← validate_parent_relations n h;
  let known_parents := collect_known_parents n h in
  d ← run_ghostdag n (h_hash h) known_parents;
  '(sp_header, _) ← get (headers_store n) (selected_parent d);
  let c := mk_context (h_hash h) block_level (pruning_point n) known_parents d (h_daa_score sp_header) None None in
  _ ← pre_pow_validation n c h;
  Ret c.

Definition validate_header (n : node) (now : Z) (h : Header) : Proc (node * (RuleError + HeaderProcessingContext)) :=
  r ← catch (build_context n now h);
  match r with
  | inl e => Ret (n, inl e)
  | inr c =>
      r ← catch (post_pow_validation n c h);
      match r with
      | inl e => Ret (set_status n (h_hash h) StatusInvalid, inl e)
      | inr c => Ret (n, inr c)
      end
  end.

(** ** Commit *)

Definition option_get {A} (o : option A) : Proc A := match o with Some a => Ret a | None => Crash end.

Definition commit_header (n : node) (c : HeaderProcessingContext) (h : Header) : Proc node :=
  let d := c_ghostdag_data c in
  gds ← insert_new (ghostdag_store n) (c_hash c) d;
  hs ← insert_new (headers_store n) (c_hash c) (h, c_block_level c);
  root ← option_get (c_merge_depth_root c);
  finality_point ← option_get (c_finality_point c);
  ds ← insert_new (depth_store n) (c_hash c) (root, finality_point);
  staging ← of_R (add_block powf fuel (reachability n) (c_hash c) (selected_parent d) (mergeset_without_selected_parent d));
  let tip := mk_sortable (c_hash c) (h_blue_work h) in
  '(staging, hst) ←
    (if match sortable_cmp tip (headers_selected_tip n) with Gt => true | _ => false end then
       b ← of_R (is_chain_ancestor_of staging (c_pruning_point c) (c_hash c));
       if b : bool then
         staging ← of_R (hint_virtual_selected_parent powf fuel staging (c_hash c));
         Ret (staging, tip)
       else Ret (staging, headers_selected_tip n)
     else Ret (staging, headers_selected_tip n));
  rs ← insert_relations (relations_store n) (h_hash h) (c_known_parents c);
  Ret (mk_node gds rs hs staging (<[c_hash c := StatusHeaderOnly]> (statuses n)) ds hst (pruning_point n)).

Definition process_header (n : node) (now : Z) (h : Header) : Proc (node * (RuleError + BlockStatus)) :=
  match statuses n !! h_hash h with
  | Some StatusInvalid => Ret (n, inl KnownInvalid)
  | Some status => Ret (n, inr status)
  | None =>
      '(n, r) ← validate_header n now h;
      match r with
      | inl e => Ret (n, inl e)
      | inr c => n ← commit_header n c h; Ret (n, inr StatusHeaderOnly)
      end
  end.

(** ** Start *)

Definition init_node : Proc node :=
  r ← of_R (init_reachability (mk_rstore ∅ None));
  Ret (mk_node ∅ {[ ORIGIN := [] ]} ∅ r ∅ ∅ (mk_sortable ORIGIN 0) (genesis_hash P)).

Definition process_genesis (n : node) (genesis_header : Header) : Proc node :=
  let n := mk_node (ghostdag_store n) (relations_store n) (headers_store n) (reachability n) (statuses n) (depth_store n) (mk_sortable (genesis_hash P) 0) (pruning_point n) in
  let c := mk_context (genesis_hash P) (max_block_level P) (genesis_hash P) [ORIGIN] genesis_ghostdag_data 0 (Some ORIGIN) (Some ORIGIN) in
  commit_header n c genesis_header.

End Processor.

End HeaderProcessor.
