(* ===== verification/HeaderPipeline.v ===== *)
(** * Headers that are processed concurrently

    Headers are validated and committed in any interleaving: while one is validated,
    others are committed.  No validation or commit fails other than by a rule, and the
    GHOSTDAG data, the reachability structure and the selected tip stay right. *)
From Stdlib Require Import ZArith Lia.
From stdpp Require Import base numbers list gmap.
From S2P Require Import Prelude Ghostdag GhostdagProofs GhostdagGrowth Reachability ReachabilityTree ReachabilityOps ReachabilityProofs ReachabilityTrace ReachabilityService HeaderProcessor.
Import Ghostdag.Ghostdag Reachability.Reachability ReachabilityTree.ReachabilityTree ReachabilityOps.ReachabilityOps ReachabilityProofs.ReachabilityProofs
  ReachabilityTrace.ReachabilityTrace ReachabilityService.ReachabilityService GhostdagProofs.GhostdagProofs GhostdagGrowth.GhostdagGrowth HeaderProcessor.HeaderProcessor.
Open Scope Z_scope.

Module HeaderPipeline.

(** ** The DAG of the stores *)

Definition dag_of (n : node) : dag := map_imap (fun b d => (fun ps => (selected_parent d, ps)) <$> (relations_store n !! b)) (ghostdag_store n).

Lemma dag_of_lookup n b d ps : ghostdag_store n !! b = Some d -> relations_store n !! b = Some ps -> dag_of n !! b = Some (selected_parent d, ps).
Proof. intros Hd Hp. unfold dag_of. by rewrite map_lookup_imap, Hd, Hp. Qed.

Lemma dag_of_inv n b sp ps : dag_of n !! b = Some (sp, ps) -> exists d, ghostdag_store n !! b = Some d /\ selected_parent d = sp /\ relations_store n !! b = Some ps.
Proof.
  unfold dag_of. rewrite map_lookup_imap. destruct (ghostdag_store n !! b) as [d|]; [|done]. cbn. destruct (relations_store n !! b) as [qs|]; [|done]. cbn.
  intros [= <- <-]. by exists d.
Qed.

Lemma dag_of_dom n : dom (relations_store n) = {[ORIGIN]} ∪ dom (ghostdag_store n) -> dom (dag_of n) = dom (ghostdag_store n).
Proof.
  intros Hd. apply set_eq. intros b. rewrite !elem_of_dom. split.
  - intros [[sp ps] H]. destruct (dag_of_inv n b sp ps H) as (d & Hb & _). by exists d.
  - intros [d Hb]. assert (b ∈ dom (relations_store n)) as [ps Hp]%elem_of_dom by (rewrite Hd; apply elem_of_union_r; by apply elem_of_dom_2 in Hb).
    eexists. by apply dag_of_lookup.
Qed.

Lemma past_anc gen kp n a b : dag_ok gen kp 0 (db n) -> dag_past (dag_of n) a b <-> anc (db n) a b.
Proof.
  intros OK. assert (Hp : forall x q, parent_in (dag_of n) x q <-> parent_of (db n) x q).
  - intros x q. split.
    + intros (sp & ps & Hx & Hq). destruct (dag_of_inv n x sp ps Hx) as (d & _ & _ & Hr). by exists ps.
    + intros (ps & Hx & Hq). cbn in Hx. destruct (decide (x = ORIGIN)) as [->|Hne].
      * pose proof (dg_origin _ _ _ _ OK) as Ho. cbn in Ho. rewrite Ho in Hx. injection Hx as <-. by apply elem_of_nil in Hq.
      * pose proof (elem_of_dom_2 _ _ _ Hx) as Hd. pose proof (dg_dom _ _ _ _ OK) as Hdd. cbn in Hdd. rewrite Hdd in Hd. apply elem_of_union in Hd as [Hd%elem_of_singleton|Hd]; [done|].
        apply elem_of_dom in Hd as [d Hd]. exists (selected_parent d), ps. split; [by apply dag_of_lookup|done].
  - unfold dag_past, anc. split; intros Ht; (induction Ht as [|x q y Hq _ IH]; [constructor|econstructor; [by apply Hp|done]]).
Qed.

(** ** Computations that do not fail *)

(** A value with a property, or a rule *)
Definition safe {A} (m : Proc A) (Q : A -> Prop) : Prop := match m with Ret a => Q a | Rule _ => True | _ => False end.

Lemma proc_bind {A B} (m : Proc A) (f : A -> Proc B) Q Q' : safe m Q -> (forall a, Q a -> safe (f a) Q') -> safe (m ≫= f) Q'.
Proof. destruct m; cbn; auto. Qed.

Ltac pstep := cbn [mbind Proc_bind of_result of_R of_sum]; cbv zeta beta.

Lemma proc_mono {A} (m : Proc A) (Q Q' : A -> Prop) : safe m Q -> (forall a, Q a -> Q' a) -> safe m Q'.
Proof. destruct m; cbn; auto. Qed.

Lemma safe_check b e (Q : unit -> Prop) : (b = true -> Q ()) -> safe (check b e) Q.
Proof. destruct b; cbn; auto. Qed.

Lemma filter_everything {A} (Q : A -> Prop) `{!forall x, Decision (Q x)} (l : list A) : (forall x, x ∈ l -> Q x) -> filter Q l = l.
Proof.
  induction l as [|x l IH]; intros Hq; [done|]. rewrite filter_cons_True by (apply Hq; left). f_equal. apply IH. intros y Hy. apply Hq. by right.
Qed.

Lemma block_unique_in l x : x ∈ block_unique l <-> x ∈ l.
Proof.
  induction l as [|y l IH]; [done|]. cbn. rewrite !elem_of_cons, list_elem_of_filter, IH. destruct (decide (x = y)) as [->|Hne]; [naive_solver|]. naive_solver.
Qed.

Lemma serves_mono k k' s chain past : serves k s chain past -> k <= k' -> serves k' s chain past.
Proof.
  intros (m & iv & fc & root & H1 & H2 & H3 & H4 & H5 & H6 & H7 & H8 & H9 & H10) Hk. exists m, iv, fc, root. unfold op_cost in *. split_and!; try done; lia.
Qed.

Lemma serves_root k s chain past : serves k s chain past -> exists r, reindex_root s = Some r /\ r ∈ blocks s.
Proof. intros (m & iv & fc & root & -> & _ & _ & _ & Hr & _). exists root. by rewrite blocks_build. Qed.

Lemma mergeset_of_same G s sp ps qs M : (forall x, x ∈ qs <-> x ∈ ps) -> mergeset_of G s sp ps M -> mergeset_of G s sp qs M.
Proof. intros Hq [Hn Hin]. split; [done|]. intros x. rewrite Hin. by setoid_rewrite Hq. Qed.

Lemma sortable_le_gt a b : sortable_cmp a b <> Gt -> sortable_le a b = true.
Proof. unfold sortable_le. by destruct (sortable_cmp a b). Qed.

Lemma sortable_gt_le a b x : sortable_cmp a b = Gt -> sortable_le x b = true -> sortable_le x a = true.
Proof.
  intros Hg Hx. apply sortable_le_spec in Hx. apply sortable_le_spec. unfold sortable_cmp in Hg. destruct (Z.compare_spec (sb_work a) (sb_work b)) as [He|He|He]; [|done|lia].
  apply Z.compare_gt_iff in Hg. lia.
Qed.

(** ** What holds of a node *)

Definition max_headers : Z := 2 ^ 22 - 2.
Definition work_bound : Z := 2 ^ 169.

Section Pipeline.
Context (C : Params) (V : Services) (powf : Z -> Z -> Z) (fuel : nat).
Abbreviation gen := (genesis_hash C).
Abbreviation kp := (ghostdag_k C).

(** Parameters of a network *)
Record params_ok : Prop := {
  pm_k : pre kp <= post kp /\ 0 <= pre kp /\ post kp < 2 ^ 16 - 1;
  pm_depth p : p = merge_depth C \/ p = finality_depth C -> 0 <= pre p < 2 ^ 63 /\ 0 <= post p < 2 ^ 63;
  pm_tolerance : 0 <= timestamp_deviation_tolerance C < 2 ^ 32;
  pm_parents : 0 <= upper_bound (max_block_parents C) }.

(** What is expected of the difficulty window: scores do not decrease along the chain,
    and the difficulty stays in bounds. *)
Record services_ok : Prop := {
  sv_daa n d daa h l : block_daa_window V n d = inr daa -> headers_store n !! selected_parent d = Some (h, l) -> h_daa_score h <= daa;
  sv_bits n d : exists w, calc_work (calculate_difficulty_bits V n d) = Ok w /\ 0 < w <= work_bound }.

Definition stored (n : node) (b : Hash) : Prop := b ∈ dom (ghostdag_store n).
Lemma stored_data n b : stored n b -> exists d, ghostdag_store n !! b = Some d.
Proof. intros [d Hd]%elem_of_dom. by exists d. Qed.

Definition key_of (n : node) (b : Hash) : SortableBlock := mk_sortable b (wk (db n) b).

(** The origin, or a block on the chain *)
Definition on_chain (n : node) (x b : Hash) : Prop := x = ORIGIN \/ dag_chain (dag_of n) x b.

Record node_ok (c : nat) (n : node) : Prop := {
  nk_grown : grown gen kp 0 (db n);
  nk_size : size (dom (ghostdag_store n)) = c;
  nk_reach : good_state (2 * Z.of_nat c) (dag_of n) (reachability n) /\ blocks (reachability n) = {[ORIGIN]} ∪ dom (ghostdag_store n);
  nk_status b : stored n b <-> exists s, statuses n !! b = Some s /\ s <> StatusInvalid;
  nk_headers : dom (headers_store n) = dom (ghostdag_store n);
  nk_depths : dom (depth_store n) = dom (ghostdag_store n);
  nk_depth b r f : depth_store n !! b = Some (r, f) -> on_chain n r b /\ on_chain n f b;
  nk_chain b : stored n b -> dag_chain (dag_of n) gen b;
  nk_work b : stored n b -> exists w, work 0 (db n) b w /\ 0 < w <= work_bound;
  nk_data b d : ghostdag_store n !! b = Some d -> b <> gen -> exists ps, (forall q, q ∈ ps <-> parent_of (db n) b q) /\
    ghostdag gen kp 0 (db n) (oracle (reachability n)) fuel ps = Ok d;
  nk_pruning : stored n (pruning_point n);
  nk_tip : stored n (sb_hash (headers_selected_tip n)) /\ headers_selected_tip n = key_of n (sb_hash (headers_selected_tip n)) /\
    forall b, stored n b -> dag_chain (dag_of n) (pruning_point n) b -> sortable_le (key_of n b) (headers_selected_tip n) = true }.

(** What a validated header knows when it waits to be committed *)
Record context_ok (n : node) (h : Header) (c : HeaderProcessingContext) : Prop := {
  cx_hash : c_hash c = h_hash h /\ h_hash h <> ORIGIN /\ h_hash h <> NONE;
  cx_new : statuses n !! h_hash h = None;
  cx_point : c_pruning_point c = pruning_point n;
  cx_parents : parents_ok (db n) (c_known_parents c) /\ Z.of_nat (length (c_known_parents c)) <= upper_bound (max_block_parents C);
  cx_ghostdag : ghostdag gen kp 0 (db n) (oracle (reachability n)) fuel (c_known_parents c) = Ok (c_ghostdag_data c);
  cx_daa : exists x, daa_score (db n) !! selected_parent (c_ghostdag_data c) = Some x /\ x <= h_daa_score h;
  cx_work : exists w, calc_work (h_bits h) = Ok w /\ 0 < w <= work_bound;
  cx_blue : blue_work (c_ghostdag_data c) = h_blue_work h;
  cx_depth : exists r f, c_merge_depth_root c = Some r /\ c_finality_point c = Some f /\
    on_chain n r (selected_parent (c_ghostdag_data c)) /\ on_chain n f (selected_parent (c_ghostdag_data c)) }.

(** The headers that fit *)
Definition within_headers (c : nat) : Prop := Z.of_nat c < max_headers /\ upper_bound (max_block_parents C) + 2 * Z.of_nat c + 10 <= Z.of_nat fuel.

Context (HP : params_ok) (HV : services_ok).

(** The service answers for the DAG of the stores. *)
Lemma oracle_right k n a b : dag_ok gen kp 0 (db n) -> good_state k (dag_of n) (reachability n) -> blocks (reachability n) = {[ORIGIN]} ∪ dom (ghostdag_store n) ->
  a = ORIGIN \/ stored n a -> b = ORIGIN \/ stored n b ->
  exists res : bool, service_is_dag_ancestor_of (reachability n) a b = Done res /\ (res = true <-> anc (db n) a b).
Proof.
  intros OK (Hs & _) Hbl Ha Hb. destruct (serves_query _ _ _ _ a b Hs) as [(res & E & Hres) _]; [rewrite Hbl, elem_of_union, elem_of_singleton; done..|].
  exists res. unfold service_is_dag_ancestor_of. rewrite E. split; [done|]. by rewrite Hres, (past_anc gen kp).
Qed.

Section Node.
Context (c : nat) (n : node) (HN : node_ok c n) (Hc : within_headers c).

Lemma node_dag : dag_ok gen kp 0 (db n).
Proof. destruct (pm_k HP) as (? & ? & ?). apply grown_ok; [done..|]. apply (nk_grown c n HN). Qed.

Lemma node_relations : dom (relations_store n) = {[ORIGIN]} ∪ dom (ghostdag_store n).
Proof. apply (dg_dom _ _ _ _ node_dag). Qed.

Lemma node_past a b : dag_past (dag_of n) a b <-> anc (db n) a b.
Proof. apply (past_anc gen kp), node_dag. Qed.

Lemma in_blocks b : b ∈ blocks (reachability n) <-> b = ORIGIN \/ stored n b.
Proof. destruct (nk_reach c n HN) as [_ ->]. rewrite elem_of_union, elem_of_singleton. done. Qed.

Lemma dag_query a b : b = ORIGIN \/ stored n b -> a = ORIGIN \/ stored n a ->
  exists res : bool, service_is_dag_ancestor_of (reachability n) a b = Done res /\ (res = true <-> anc (db n) a b).
Proof.
  intros Hb Ha. destruct (nk_reach c n HN) as [Hs Hbl]. by apply (oracle_right (2 * Z.of_nat c) n a b node_dag Hs Hbl).
Qed.

Lemma chain_query a b : a = ORIGIN \/ stored n a -> b = ORIGIN \/ stored n b ->
  exists res : bool, service_is_chain_ancestor_of (reachability n) a b = Done res /\ (res = true <-> dag_chain (dag_of n) a b).
Proof.
  intros Ha Hb. destruct (nk_reach c n HN) as [(Hs & _) _]. destruct (serves_query _ _ _ _ a b Hs) as [_ (res & E & Hres)]; [by apply in_blocks..|].
  exists res. unfold service_is_chain_ancestor_of. by rewrite E.
Qed.

Lemma oracle_answers a b : a = ORIGIN \/ stored n a -> b = ORIGIN \/ stored n b -> oracle (reachability n) a b = true <-> anc (db n) a b.
Proof. intros Ha Hb. destruct (dag_query a b Hb Ha) as (res & E & Hres). unfold oracle. by rewrite E. Qed.

Lemma node_oracle : oracle_ok (db n) (oracle (reachability n)).
Proof. intros a b Ha Hb. apply oracle_answers; by right. Qed.

Lemma works_sum l ws : (forall x, x ∈ l -> stored n x) -> Forall2 (work 0 (db n)) l ws -> foldr Z.add 0 ws <= Z.of_nat (length l) * work_bound.
Proof.
  intros Hl H. induction H as [|x w l ws Hw H IH]; cbn [foldr length]; [lia|]. destruct (nk_work c n HN x (Hl x ltac:(left))) as (w' & Hw' & ?).
  assert (w = w') as -> by (unfold work in *; congruence). specialize (IH ltac:(intros y Hy; apply Hl; by right)). lia.
Qed.

Lemma node_bounded : bounded 0 (db n).
Proof.
  destruct Hc as [Hc' _]. unfold max_headers in Hc'. pose proof (nk_size c n HN) as Hs. split; [cbn; rewrite Hs; lia|]. intros l ws Hnd Hl Hw.
  pose proof (works_sum l ws ltac:(intros x Hx; by destruct (Hl x Hx)) Hw) as Hsum.
  assert (length l <= c)%nat as Hlen.
  { rewrite <- Hs, <- (size_list_to_set (C := gset Hash) l Hnd). apply subseteq_size. intros x Hx%elem_of_list_to_set. by destruct (Hl x Hx). }
  unfold work_bound in Hsum. assert (Z.of_nat (length l) * 2 ^ 169 <= 2 ^ 22 * 2 ^ 169) by nia. lia.
Qed.

(** ** Validation *)

Lemma find_missing_safe st ps acc : safe (find_missing st ps acc) (fun l => l = [] -> acc = [] /\ forall p, p ∈ ps -> exists s, st !! p = Some s /\ s <> StatusInvalid).
Proof.
  revert acc. induction ps as [|p ps IH]; intros acc; cbn [find_missing].
  - cbn. intros Hr. split; [by destruct acc as [|x acc]; [|apply (f_equal length) in Hr; rewrite length_rev in Hr]|]. intros p Hp. by apply elem_of_nil in Hp.
  - destruct (st !! p) as [s|] eqn:E.
    + assert (Hgo : s <> StatusInvalid -> safe (find_missing st ps acc)
        (fun l => l = [] -> acc = [] /\ forall q, q ∈ p :: ps -> exists s, st !! q = Some s /\ s <> StatusInvalid)).
      { intros Hs. eapply proc_mono; [apply IH|]. intros l Hl He. destruct (Hl He) as [? Hps]. split; [done|]. intros q [->|Hq]%elem_of_cons; [by exists s|by apply Hps]. }
      destruct s; try (by apply Hgo). done.
    + eapply proc_mono; [apply IH|]. intros l Hl He. destruct (Hl He) as [? _]. done.
Qed.

Lemma parents_exist_safe h : safe (check_parents_exist n h) (fun _ => forall p, p ∈ direct_parents h -> stored n p).
Proof.
  unfold check_parents_exist. eapply proc_bind; [apply find_missing_safe|]. intros l Hl. apply safe_check. intros E%bool_decide_eq_true_1. destruct (Hl E) as [_ Hp].
  intros p Hq. apply (nk_status c n HN). by apply Hp.
Qed.

Lemma incest_with_safe a ps : stored n a -> (forall p, p ∈ ps -> stored n p) -> safe (check_incest_with n a ps) (fun _ => forall p, p ∈ ps -> anc (db n) a p -> a = p).
Proof.
  intros Ha. induction ps as [|p ps IH]; intros Hps; cbn [check_incest_with]; [intros p Hp; by apply elem_of_nil in Hp|].
  assert (Hps' : forall q, q ∈ ps -> stored n q) by (intros q Hq; apply Hps; by right). case_bool_decide as E.
  - eapply proc_mono; [by apply IH|]. intros ? H q [Hq|Hq]%elem_of_cons; [by rewrite Hq, E|by apply H].
  - destruct (dag_query a p) as (res & -> & Hres); [right; apply Hps; left|by right|]. cbn. destruct res; [done|].
    eapply proc_mono; [by apply IH|]. intros ? H q [Hq|Hq]%elem_of_cons; [|by apply H]. rewrite Hq. intros Hap. by apply Hres in Hap.
Qed.

Lemma incest_safe all ps : (forall p, p ∈ all -> stored n p) -> (forall p, p ∈ ps -> stored n p) ->
  safe (check_incest n all ps) (fun _ => forall p q, p ∈ ps -> q ∈ all -> anc (db n) p q -> p = q).
Proof.
  intros Hall. induction ps as [|a ps IH]; intros Hps; cbn [check_incest]; [intros p q Hp; by apply elem_of_nil in Hp|].
  eapply proc_bind; [apply incest_with_safe; [apply Hps; left|done]|]. intros ? Ha. eapply proc_mono; [apply IH; intros p Hp; apply Hps; by right|].
  intros ? H p q [Hp|Hp]%elem_of_cons Hq; [rewrite Hp; by apply Ha|by apply H].
Qed.

Definition header_parents_ok (h : Header) : Prop := parents_ok (db n) (direct_parents h) /\ Z.of_nat (length (direct_parents h)) <= upper_bound (max_block_parents C).

Lemma isolation_safe now h : 0 <= now < 2 ^ 63 ->
  safe (validate_header_in_isolation C V now h) (fun _ => direct_parents h <> [] /\ (forall p, p ∈ direct_parents h -> p <> ORIGIN) /\
    Z.of_nat (length (direct_parents h)) <= upper_bound (max_block_parents C)).
Proof.
  intros Hnow. unfold validate_header_in_isolation. pose proof (pm_tolerance HP) as Ht. eapply proc_bind; [by apply (safe_check _ _ (fun _ => True))|]. intros _ _.
  eapply proc_bind; [|intros _ _].
  - unfold check_block_timestamp_in_isolation. rewrite checked_ok by lia. cbn. rewrite checked_ok by lia. cbn. by apply (safe_check _ _ (fun _ => True)).
  - eapply proc_bind; [unfold check_parents_limit_upper_bound, check_parents_count|].
    + eapply proc_bind; [apply (safe_check _ _ (fun _ => direct_parents h <> []))|].
      { intros E%negb_true_iff%bool_decide_eq_false_1. done. }
      intros ? Hne. apply (safe_check _ _ (fun _ => direct_parents h <> [] /\ Z.of_nat (length (direct_parents h)) <= upper_bound (max_block_parents C))).
      intros E%Z.leb_le. done.
    + intros ? [Hne Hlen]. eapply proc_bind; [apply (safe_check _ _ (fun _ => forall p, p ∈ direct_parents h -> p <> ORIGIN))|].
      * intros E%negb_true_iff p Hp ->. assert (Ht' : existsb (fun p => bool_decide (p = ORIGIN)) (direct_parents h) = true); [|congruence].
        apply existsb_exists. exists ORIGIN. split; [by apply list_elem_of_In|by apply bool_decide_eq_true_2].
      * intros ? Ho. unfold check_pow_and_calc_block_level. destruct (check_pow V h) as [p l]. destruct (p || skip_proof_of_work C); done.
Qed.

Lemma relations_safe h : direct_parents h <> [] -> (forall p, p ∈ direct_parents h -> p <> ORIGIN) -> safe (validate_parent_relations n h) (fun _ => parents_ok (db n) (direct_parents h)).
Proof.
  intros Hne Ho. unfold validate_parent_relations. eapply proc_bind; [apply parents_exist_safe|]. intros ? Hst. eapply proc_mono; [by apply incest_safe|]. intros ? Hi.
  split; [done| |done]. intros p Hp. split; [by apply Hst|by apply Ho].
Qed.

Lemma known_parents h : parents_ok (db n) (direct_parents h) -> collect_known_parents n h = direct_parents h.
Proof.
  intros [Hne Hr _]. unfold collect_known_parents, parents_at_level_0. assert (E : filter (fun p => is_Some (relations_store n !! p)) (direct_parents h) = direct_parents h).
  - apply filter_everything. intros p Hp. apply elem_of_dom. rewrite node_relations. apply elem_of_union_r. by apply Hr.
  - rewrite E. by destruct (direct_parents h).
Qed.

Lemma ghostdag_runs ps : parents_ok (db n) ps -> Z.of_nat (length ps) <= upper_bound (max_block_parents C) ->
  exists D sp daa l0 cs bl ws, ghostdag gen kp 0 (db n) (oracle (reachability n)) fuel ps = Ok D /\ ghostdag_spec gen kp 0 (db n) ps D sp daa l0 cs bl ws.
Proof.
  intros Hps Hlen. destruct (pm_k HP) as (? & ? & ?). destruct Hc as [_ Hf]. pose proof (nk_size c n HN) as Hs.
  apply (ghostdag_ok gen kp 0 (db n) node_dag); [apply node_oracle|done|done|done|done|apply node_bounded|]. cbn [gd db]. lia.
Qed.

(** Blue sets are sets of stored blocks. *)
Lemma blue_list_bound l : NoDup l -> (forall x, x ∈ l -> stored n x) -> Z.of_nat (length l) <= Z.of_nat c.
Proof.
  intros Hnd Hl. rewrite <- (nk_size c n HN), <- (size_list_to_set (C := gset Hash) l Hnd). apply Nat2Z.inj_le, subseteq_size. intros x Hx%elem_of_list_to_set. by apply Hl.
Qed.

Lemma score_bound b d : ghostdag_store n !! b = Some d -> 0 <= blue_score d <= Z.of_nat c.
Proof.
  intros Hb. assert (Hd : stored n b) by (by apply elem_of_dom_2 in Hb). assert (Hbo : b <> ORIGIN).
  { intros ->. pose proof (dg_no_origin _ _ _ _ node_dag) as Ho. cbn in Ho. congruence. }
  destruct (decide (b = gen)) as [->|Hg].
  - destruct (dg_genesis _ _ _ _ node_dag) as [_ Hg]. cbn in Hg. rewrite Hg in Hb. injection Hb as <-. cbn. lia.
  - destruct (dg_block _ _ _ _ node_dag b d Hb Hbo Hg) as [_ _ (l & ws & _ & Hnd & Hall & _ & _ & -> & _)]. split; [lia|]. apply blue_list_bound; [done|].
    intros x Hx. destruct (Hall x Hx) as (_ & Hxo & Ht). by apply (anc_real gen kp 0 (db n) node_dag x b).
Qed.

Lemma spec_score ps D sp daa l0 cs bl ws : parents_ok (db n) ps -> ghostdag_spec gen kp 0 (db n) ps D sp daa l0 cs bl ws -> 0 <= blue_score D <= Z.of_nat c.
Proof.
  intros Hps HD. destruct (pm_k HP) as (? & ? & ?). pose proof (new_blues gen kp 0 (db n) node_dag ps D ltac:(done) Hps sp daa l0 cs bl ws HD) as Hnew.
  rewrite (gs_score _ _ _ _ _ _ _ _ _ _ _ _ HD). split; [lia|]. apply blue_list_bound; [apply HD|]. intros x Hx. by destruct (Hnew x Hx).
Qed.

(** ** Depth *)

Lemma depth_loop_ok req m iv fc root l sp : shape m ORIGIN -> fits m iv ORIGIN -> reachability n = build m iv fc (Some root) -> (forall x, x ∈ l -> stored n x) ->
  forall from k at_depth, kid_path m from l sp -> (length l < k)%nat ->
  exists x, depth_loop k n (mk_iter (Some from) sp true) req at_depth = Ret x /\ (x = at_depth \/ x ∈ l).
Proof.
  intros SH Hfit Er. induction l as [|b l IH]; intros Hl from k at_depth Hp Hk; inversion Hp as [|? q ? ? Hq Hp']; subst; (destruct k as [|k]; [lia|]); cbn [depth_loop].
  - unfold forward_next. cbn [current goal inclusive]. rewrite bool_decide_eq_true_2 by done. cbn. destruct (stored_data n _ (Hl _ (list_elem_of_here _ _))) as [d Hd].
    unfold get. rewrite Hd. cbn. destruct (req <=? blue_score d); [exists at_depth; auto|]. destruct k; [cbn in Hk; lia|]. cbn. eexists. split; [done|]. right. left.
  - pose proof (kid_path_tanc m q l sp Hp') as Ht. assert (E : forward_next (reachability n) (mk_iter (Some b) sp true) = Done (Some b, mk_iter (Some q) sp true)).
    { unfold forward_next. cbn [current goal inclusive]. rewrite bool_decide_eq_false_2 by (intros ->; by apply (kid_not_above m ORIGIN SH sp q)).
      rewrite Er, (next_ancestor_ok m SH iv fc (Some root) Hfit b q sp Hq Ht). done. }
    rewrite E. cbn. destruct (stored_data n b (Hl b ltac:(left))) as [d Hd]. unfold get. rewrite Hd. cbn. destruct (req <=? blue_score d); [exists at_depth; auto|].
    destruct (IH ltac:(intros x Hx; apply Hl; by right) q k b Hp' ltac:(cbn in Hk; lia)) as (x & Ex & Hx). exists x. split; [done|].
    destruct Hx as [->|Hx]; right; [left|by right].
Qed.

Lemma chain_to sp from : stored n sp -> stored n from -> dag_chain (dag_of n) from sp -> forall req at_depth,
  exists x, depth_loop fuel n (mk_iter (Some from) sp true) req at_depth = Ret x /\ (x = at_depth \/ dag_chain (dag_of n) x sp).
Proof.
  intros Hsp Hfrom Hch req at_depth. destruct (nk_reach c n HN) as [((m & iv & fc & root & Er & SH & Hfit & _ & _ & _ & Hchn & Hsz & _) & _) Hbl].
  assert (Hdom : forall x, x ∈ dom m <-> x = ORIGIN \/ stored n x) by (intros x; rewrite <- (blocks_build m iv fc (Some root)), <- Er; apply in_blocks).
  apply Hchn in Hch; [|apply Hdom; by right|apply Hdom; by right]. destruct (tanc_path m from sp Hch) as [l Hl]. pose proof (path_members m SH from l sp Hl) as Hin.
  assert (Hst : forall x, x ∈ l -> x ∈ dom m) by (intros x [Hx _]%Hin; apply (tanc_dom m ORIGIN SH from x Hx), Hdom; by right).
  assert (Hno : forall x, x ∈ l -> stored n x).
  { intros x Hx. destruct (proj1 (Hdom x) (Hst x Hx)) as [->|]; [|done]. apply Hin in Hx as [Hx _]. apply (root_top m ORIGIN SH) in Hx as ->. done. }
  assert (Hnd : NoDup l).
  { pose proof (path_sorted m SH from l sp Hl) as Hso. clear -Hso. induction Hso as [|x l _ IH Hx]; constructor; [|done]. intros Hin. rewrite Forall_forall in Hx. by destruct (Hx x Hin). }
  pose proof (blue_list_bound l Hnd Hno). destruct Hc as [_ Hf]. pose proof (pm_parents HP).
  destruct (depth_loop_ok req m iv fc root l sp SH Hfit Er Hno from fuel at_depth Hl ltac:(lia)) as (x & E & Hx). exists x. split; [done|]. destruct Hx as [|Hx]; [by left|right].
  apply Hchn; [by apply Hst|apply Hdom; by right|]. by apply Hin in Hx as [_ ?].
Qed.

Lemma on_chain_stored x b : stored n b -> on_chain n x b -> x = ORIGIN \/ stored n x.
Proof.
  intros Hb [->|Hx]; [by left|]. destruct (nk_reach c n HN) as [(_ & Hcl & _) _]. apply chain_in_past in Hx; [|done]. apply node_past in Hx.
  assert (b <> ORIGIN) as Hbo. { intros ->. pose proof (dg_no_origin _ _ _ _ node_dag) as Ho. cbn in Ho. apply elem_of_dom in Hb as [? Hb]. congruence. }
  destruct (decide (x = ORIGIN)) as [|Hxo]; [by left|right]. by apply (anc_real gen kp 0 (db n) node_dag x b).
Qed.

Lemma depth_safe D param point : param = merge_depth C \/ param = finality_depth C -> (point = fst \/ point = snd) -> stored n (selected_parent D) -> 0 <= blue_score D <= Z.of_nat c ->
  safe (calculate_block_at_depth C fuel n D param point (pruning_point n)) (fun r => on_chain n r (selected_parent D)).
Proof.
  intros Hparam Hpoint Hsp Hsc. destruct Hc as [Hc' _]. unfold max_headers in Hc'. unfold calculate_block_at_depth. case_bool_decide; [by cbn; left|].
  pose proof Hsp as Hh. unfold stored in Hh. rewrite <- (nk_headers c n HN) in Hh. apply elem_of_dom in Hh as [[hd lv] Hh]. unfold get. rewrite Hh. pstep.
  destruct (pm_depth HP param Hparam) as [Hpre Hpost]. assert (Hdep : 0 <= get_param param (h_daa_score hd) < 2 ^ 63) by (unfold get_param; destruct (is_active _ _); lia).
  destruct (Z.ltb_spec (blue_score D) (get_param param (h_daa_score hd))); [right; by apply (nk_chain c n HN)|].
  pose proof (nk_pruning c n HN) as Hpp. pose proof Hpp as [dp Hdp]%elem_of_dom. rewrite Hdp. pstep. pose proof (score_bound _ _ Hdp). rewrite (checked_ok 64 (blue_score dp + get_param param (h_daa_score hd))) by lia. pstep.
  destruct (blue_score D <? blue_score dp + get_param param (h_daa_score hd)); [by cbn; left|]. destruct (chain_query (pruning_point n) (selected_parent D)) as (res & -> & Hres); [by right..|]. pstep. destruct res; cbn [negb]; [|by cbn; left].
  pose proof Hsp as Hd. unfold stored in Hd. rewrite <- (nk_depths c n HN) in Hd. apply elem_of_dom in Hd as [[r f] Hd]. rewrite Hd. pstep. destruct (nk_depth c n HN _ r f Hd) as [Hr Hf].
  rewrite checked_ok by lia. pstep. set (from := if bool_decide (point (r, f) = ORIGIN) then pruning_point n else point (r, f)).
  assert (Hfrom : dag_chain (dag_of n) from (selected_parent D) /\ stored n from).
  { unfold from. case_bool_decide as Ho; [split; [by apply Hres|done]|]. assert (on_chain n (point (r, f)) (selected_parent D)) as Hon by (destruct Hpoint as [->| ->]; done).
    split; [by destruct Hon|]. by destruct (on_chain_stored _ _ Hsp Hon). }
  destruct (chain_to (selected_parent D) from Hsp (proj2 Hfrom) (proj1 Hfrom) (blue_score D - get_param param (h_daa_score hd)) from) as (x & -> & Hx). right.
  destruct Hx as [->|]; [apply Hfrom|done].
Qed.

(** ** Mergesets *)

Lemma any_safe a l : (a = ORIGIN \/ stored n a) -> (forall x, x ∈ l -> stored n x) -> exists b : bool, is_dag_ancestor_of_any (reachability n) a l = Done b.
Proof.
  intros Ha. unfold is_dag_ancestor_of_any. induction l as [|x l IH]; intros Hl; cbn [any_r]; [by exists false|].
  destruct (dag_query a x (or_intror (Hl x ltac:(left))) Ha) as (res & E & _). unfold service_is_dag_ancestor_of in E. rewrite E. cbn [mbind R_bind].
  destruct res; [by exists true|]. apply IH. intros y Hy. apply Hl. by right.
Qed.

Lemma kosher_safe root l : (root = ORIGIN \/ stored n root) -> (forall x, x ∈ l -> stored n x) -> safe (kosherizing_blues n l root) (fun k => forall x, x ∈ k -> stored n x).
Proof.
  intros Hr. induction l as [|b l IH]; intros Hl; cbn [kosherizing_blues]; [intros x Hx; by apply elem_of_nil in Hx|].
  destruct (chain_query root b Hr (or_intror (Hl b ltac:(left)))) as (res & -> & _). pstep. eapply proc_bind; [apply IH; intros x Hx; apply Hl; by right|]. intros k Hk.
  destruct res; [|exact Hk]. intros x [->|Hx]%elem_of_cons; [apply Hl; left|by apply Hk].
Qed.

Lemma reds_safe D root reds : (root = ORIGIN \/ stored n root) -> (forall x, x ∈ mergeset_blues D -> stored n x) -> (forall x, x ∈ reds -> stored n x) ->
  forall kosher, (forall k, kosher = Some k -> forall x, x ∈ k -> stored n x) -> safe (check_reds n D root reds kosher) (fun _ => True).
Proof.
  intros Hr Hb. induction reds as [|red reds IH]; intros Hreds kosher Hk; cbn [check_reds]; [done|].
  destruct (dag_query root red (or_intror (Hreds red ltac:(left))) Hr) as (res & -> & _). pstep. assert (Hreds' : forall x, x ∈ reds -> stored n x) by (intros x Hx; apply Hreds; by right).
  destruct res; [by apply IH|]. eapply (proc_bind _ _ (fun k => forall x, x ∈ k -> stored n x)); [destruct kosher as [k|]; [exact (Hk k eq_refl)|by apply kosher_safe]|].
  intros k Hk'. destruct (any_safe red k (or_intror (Hreds red ltac:(left))) Hk') as (b & ->). pstep. destruct b; [|done]. apply IH; [done|]. by intros k' [= <-].
Qed.

Lemma greedy_cover s k B cs bl rd : greedy s k B cs bl rd -> cs ≡ₚ bl ++ rd.
Proof.
  intros H. induction H as [B|B x cs bl rd _ _ IH|B x cs bl rd _ _ IH]; [done|cbn; by constructor|]. rewrite IH. apply Permutation_middle.
Qed.

(** The mergeset of a header that passed, as the reachability structure takes it *)
Lemma spec_mergeset ps D sp daa l0 cs bl ws : parents_ok (db n) ps -> ghostdag_spec gen kp 0 (db n) ps D sp daa l0 cs bl ws ->
  selected_parent D = sp /\ sp ∈ ps /\ (forall x, x ∈ mergeset_blues D -> stored n x) /\ (forall x, x ∈ mergeset_reds D -> stored n x) /\
  mergeset_of (dag_of n) (reachability n) sp ps (mergeset_without_selected_parent D).
Proof.
  intros Hps HD. destruct (pm_k HP) as (? & ? & ?). pose proof (new_blues gen kp 0 (db n) node_dag ps D ltac:(done) Hps sp daa l0 cs bl ws HD) as Hnew.
  destruct HD as [(Esp & Hsp & _) _ (Hnd & Hcs & _) (_ & Hm) Hg _ _ _ _ _]. pose proof (greedy_cover _ _ _ _ _ _ Hg) as Hp. pose proof (po_real _ _ Hps) as Hreal.
  assert (Hst : forall x, x ∈ cs -> stored n x) by (intros x Hx; apply Hcs in Hx as ((? & _) & _); done).
  assert (EM : mergeset_without_selected_parent D = bl ++ mergeset_reds D) by (unfold mergeset_without_selected_parent; by rewrite Hm).
  split_and!; [done|done| | |].
  - intros x Hx. destruct (Hnew x) as (? & _); [apply elem_of_app; by left|done].
  - intros x Hx. apply Hst. rewrite Hp. apply elem_of_app. by right.
  - split; [by rewrite EM, <- Hp|]. intros x. rewrite EM, <- Hp, Hcs, in_blocks. setoid_rewrite node_past. unfold in_mergeset. split.
    + intros ((Hx & Hxo) & Hn & p & Hpp & _ & Hxp). split; [by right|]. split; [by exists p|done].
    + intros (Hx & (p & Hpp & Hxp) & Hn). assert (Hxo : x <> ORIGIN).
      { intros ->. apply Hn. assert (Hch : dag_chain (dag_of n) gen sp) by (apply (nk_chain c n HN), (Hreal sp Hsp)). destruct (nk_reach c n HN) as [(_ & Hcl & _) _].
        apply chain_in_past in Hch; [|done]. apply node_past in Hch. eapply anc_trans; [|exact Hch]. eapply anc_parent; [|apply anc_refl].
        exists [ORIGIN]. split; [apply (dg_genesis _ _ _ _ node_dag)|left]. }
      destruct Hx as [|Hx]; [done|]. split; [done|]. split; [done|]. exists p. split; [done|]. split; [by intros ->|done].
Qed.

(** ** The context of a header *)

Record prepared (h : Header) (x : HeaderProcessingContext) : Prop := {
  pr_hash : c_hash x = h_hash h;
  pr_point : c_pruning_point x = pruning_point n;
  pr_parents : parents_ok (db n) (c_known_parents x) /\ Z.of_nat (length (c_known_parents x)) <= upper_bound (max_block_parents C);
  pr_ghostdag : ghostdag gen kp 0 (db n) (oracle (reachability n)) fuel (c_known_parents x) = Ok (c_ghostdag_data x);
  pr_daa : exists y, daa_score (db n) !! selected_parent (c_ghostdag_data x) = Some y /\ y <= h_daa_score h;
  pr_work : exists w, calc_work (h_bits h) = Ok w /\ 0 < w <= work_bound }.

Lemma not_stored h : statuses n !! h = None -> ghostdag_store n !! h = None.
Proof. intros Hs. destruct (ghostdag_store n !! h) eqn:E; [|done]. apply elem_of_dom_2, (nk_status c n HN) in E as (s & Hs' & _). congruence. Qed.

Lemma pre_pow_safe h x l lv : headers_store n !! selected_parent (c_ghostdag_data x) = Some (l, lv) -> c_pruning_point x = pruning_point n ->
  (forall p, p ∈ c_known_parents x -> stored n p) ->
  safe (pre_pow_validation C V n x h) (fun _ => h_daa_score l <= h_daa_score h /\ exists w, calc_work (h_bits h) = Ok w /\ 0 < w <= work_bound).
Proof.
  intros Hl Hpp Hps. unfold pre_pow_validation. eapply (proc_bind _ _ (fun _ => True)).
  - unfold check_parents_limit, check_parents_count. eapply (proc_bind _ _ (fun _ => True)); [by apply safe_check|]. intros _ _. by apply safe_check.
  - intros _ _. eapply (proc_bind _ _ (fun _ => True)).
    + unfold check_pruning_violation. rewrite Hpp. destruct (any_safe (pruning_point n) (c_known_parents x)) as (b & ->); [right; apply (nk_pruning c n HN)|done|]. pstep. by apply safe_check.
    + intros _ _. unfold check_difficulty_and_daa_score. destruct (block_daa_window V n (c_ghostdag_data x)) as [e|daa] eqn:Ew; [done|]. pstep.
      eapply (proc_bind _ _ (fun _ => daa = h_daa_score h)); [apply safe_check; by intros ->%Z.eqb_eq|]. intros _ Hdaa. apply safe_check. intros Hb%Z.eqb_eq. split.
      * rewrite <- Hdaa. by apply (sv_daa HV n _ daa l lv Ew).
      * rewrite Hb. apply (sv_bits HV).
Qed.

Lemma build_context_safe now h : 0 <= now < 2 ^ 63 -> statuses n !! h_hash h = None -> safe (build_context C V fuel n now h) (prepared h).
Proof.
  intros Hnow Hs. unfold build_context. eapply proc_bind; [by apply isolation_safe|]. intros lv (Hne & Ho & Hlen). eapply proc_bind; [by apply relations_safe|]. intros ? Hps. cbv zeta.
  rewrite (known_parents h Hps). unfold run_ghostdag. rewrite (not_stored _ Hs). destruct (ghostdag_runs _ Hps Hlen) as (D & sp & daa & l0 & cs & bl & ws & E & HD). rewrite E. pstep.
  destruct (spec_mergeset _ _ _ _ _ _ _ _ Hps HD) as (Esp & Hsp & _). pose proof (po_real _ _ Hps) as Hreal. destruct (Hreal sp Hsp) as [Hst _].
  pose proof Hst as Hh. change (gd (db n)) with (ghostdag_store n) in Hh. rewrite <- (nk_headers c n HN) in Hh. apply elem_of_dom in Hh as [[hd l] Hh]. unfold get. rewrite Esp, Hh. pstep.
  eapply proc_bind; [apply (pre_pow_safe h _ hd l); cbn; [by rewrite Esp|done|intros p Hp; apply (Hreal p Hp)]|]. intros ? [Hdaa Hw]. split; cbn; try done.
  exists (h_daa_score hd). split; [|done]. by rewrite Esp, lookup_fmap, Hh.
Qed.

Lemma post_pow_safe h x : prepared h x -> h_hash h <> ORIGIN -> h_hash h <> NONE -> statuses n !! h_hash h = None -> safe (post_pow_validation C V fuel n x h) (context_ok n h).
Proof.
  intros [Ph Ppp [Pps Plen] Pg Pd Pw] Ho Hno Hs. destruct (ghostdag_runs _ Pps Plen) as (D & sp & daa & l0 & cs & bl & ws & E & HD). assert (D = c_ghostdag_data x) as -> by congruence.
  destruct (spec_mergeset _ _ _ _ _ _ _ _ Pps HD) as (Esp & Hsp & Hblues & Hreds & _). pose proof (spec_score _ _ _ _ _ _ _ _ Pps HD) as Hsc.
  destruct (po_real _ _ Pps sp Hsp) as [Hst _]. change (gd (db n)) with (ghostdag_store n) in Hst. rewrite <- Esp in Hst. unfold post_pow_validation.
  eapply (proc_bind _ _ (fun _ => True)); [by apply safe_check|]. intros _ _. eapply (proc_bind _ _ (fun _ => blue_work (c_ghostdag_data x) = h_blue_work h)); [apply safe_check; by intros ?%Z.eqb_eq|].
  intros ? Hbw. eapply (proc_bind _ _ (fun _ => True)); [unfold check_median_timestamp; destruct (calc_past_median_time V n (c_ghostdag_data x)); [done|by apply safe_check]|].
  intros _ _. eapply (proc_bind _ _ (fun _ => True)); [by apply safe_check|]. intros _ _. eapply (proc_bind _ _ (context_ok n h)).
  - unfold check_bounded_merge_depth, calc_merge_depth_root, calc_finality_point. rewrite Ppp. cbv zeta.
    eapply proc_bind; [by apply depth_safe; [left|left|..]|]. intros r Hr. eapply proc_bind; [by apply depth_safe; [right|right|..]|]. intros f Hf.
    eapply proc_bind; [apply reds_safe; [by apply (on_chain_stored _ _ Hst)|done|done|done]|]. intros _ _. split; cbn; try done. exists r, f. done.
  - intros y Hy. eapply (proc_bind _ _ (fun _ => True)); [unfold check_pruning_point; destruct (negb _); [by apply safe_check|done]|]. intros _ _.
    eapply (proc_bind _ _ (fun _ => True)); [by apply safe_check|]. by intros _ _.
Qed.

(** A validation returns: a rule, or a header to commit. *)
Lemma validate_ok now h : 0 <= now < 2 ^ 63 -> h_hash h <> ORIGIN -> h_hash h <> NONE -> statuses n !! h_hash h = None ->
  exists n' r, validate_header C V fuel n now h = Ret (n', r) /\
    match r with inl _ => n' = n \/ n' = set_status n (h_hash h) StatusInvalid | inr x => n' = n /\ context_ok n h x end.
Proof.
  intros Hnow Ho Hno Hs. unfold validate_header. pose proof (build_context_safe now h Hnow Hs) as Hb. destruct (build_context C V fuel n now h) as [x|e| |]; cbn in Hb; [|exists n, (inl e); split; [done|by left]|done..].
  cbn [catch mbind Proc_bind]. pose proof (post_pow_safe h x Hb Ho Hno Hs) as Hp. destruct (post_pow_validation C V fuel n x h) as [y|e| |]; cbn in Hp;
    [exists n, (inr y); done|eexists _, (inl e); split; [done|by right]|done..].
Qed.

(** ** Commits *)

Section Commit.
Context (h : Header) (x : HeaderProcessingContext) (HX : context_ok n h x).
Abbreviation b := (h_hash h).
Abbreviation D := (c_ghostdag_data x).
Abbreviation sp := (selected_parent D).
Abbreviation qs := (block_unique (c_known_parents x)).

(** The node with a new reachability structure and tip *)
Definition grown_node (r f : Hash) (s : rstore) (t : SortableBlock) : node :=
  mk_node (<[b := D]> (ghostdag_store n)) (<[b := qs]> (relations_store n)) (<[b := (h, c_block_level x)]> (headers_store n)) s
    (<[b := StatusHeaderOnly]> (statuses n)) (<[b := (r, f)]> (depth_store n)) t (pruning_point n).

Lemma new_hash : b ∉ dom (ghostdag_store n) /\ b <> ORIGIN /\ b <> NONE.
Proof. destruct HX as [(_ & Ho & Hn) Hs _ _ _ _ _ _ _]. split; [|done]. apply not_elem_of_dom. by apply not_stored. Qed.

Lemma new_stored y : stored n y -> y <> b.
Proof. intros Hy ->. by apply new_hash in Hy. Qed.

Lemma db_grown r f s t : db (grown_node r f s t) = GhostdagProofs.add_block (db n) b qs D (h_daa_score h) (h_bits h).
Proof. unfold db, grown_node, GhostdagProofs.add_block. cbn. by rewrite !fmap_insert. Qed.

Lemma dag_grown r f s t : dag_of (grown_node r f s t) = <[b := (sp, qs)]> (dag_of n).
Proof.
  apply map_eq. intros y. unfold dag_of, grown_node. cbn. rewrite map_lookup_imap. destruct (decide (y = b)) as [->|Hne]; [by rewrite !lookup_insert_eq|].
  rewrite !lookup_insert_ne by done. by rewrite map_lookup_imap.
Qed.

Lemma context_spec : exists daa l0 cs bl ws, ghostdag_spec gen kp 0 (db n) (c_known_parents x) D sp daa l0 cs bl ws.
Proof.
  destruct HX as [_ _ _ [Hps Hlen] Hg _ _ _ _]. destruct (ghostdag_runs _ Hps Hlen) as (D' & sp' & daa & l0 & cs & bl & ws & E & HD). assert (D' = D) as -> by congruence.
  destruct (spec_mergeset _ _ _ _ _ _ _ _ Hps HD) as (Esp & _). rewrite <- Esp in HD. by exists daa, l0, cs, bl, ws.
Qed.

Lemma context_parent : sp ∈ qs /\ (forall q, q ∈ qs -> stored n q) /\ mergeset_of (dag_of n) (reachability n) sp qs (mergeset_without_selected_parent D).
Proof.
  destruct context_spec as (daa & l0 & cs & bl & ws & HD). destruct HX as [_ _ _ [Hps _] _ _ _ _ _]. destruct (spec_mergeset _ _ _ _ _ _ _ _ Hps HD) as (_ & Hsp & _ & _ & HM). split_and!.
  - by apply block_unique_in.
  - intros q Hq. apply (po_real _ _ Hps). by apply block_unique_in.
  - eapply mergeset_of_same; [apply block_unique_in|done].
Qed.

Lemma new_dag : dag_of n !! b = None.
Proof. apply not_elem_of_dom. rewrite dag_of_dom by apply node_relations. apply new_hash. Qed.

Lemma stored_known y : stored n y -> known (dag_of n) y.
Proof. intros Hy. right. by rewrite dag_of_dom by apply node_relations. Qed.

Lemma closed : dag_closed (dag_of n).
Proof. by destruct (nk_reach c n HN) as [(_ & Hcl & _) _]. Qed.

Lemma chain_grown r f s t y z : stored n z -> dag_chain (dag_of (grown_node r f s t)) y z <-> dag_chain (dag_of n) y z.
Proof. intros Hz. rewrite dag_grown. apply (extend_chain (dag_of n) closed b sp qs new_dag); [apply new_hash|by apply stored_known]. Qed.

Lemma chain_new r f s t y : y <> b -> dag_chain (dag_of (grown_node r f s t)) y b <-> dag_chain (dag_of n) y sp.
Proof.
  intros Hy. rewrite dag_grown. destruct context_parent as (Hsp & Hq & _). apply (extend_new_chain (dag_of n) closed b sp qs new_dag); [apply new_hash|done| |done].
  intros q Hqs. by apply stored_known, Hq.
Qed.

(** The tip after the commit *)
Definition tip_ok (s : rstore) (t : SortableBlock) : Prop :=
  let k := mk_sortable b (h_blue_work h) in
  (t = k /\ sortable_cmp k (headers_selected_tip n) = Gt /\ dag_chain (dag_of n) (pruning_point n) sp) \/
  (t = headers_selected_tip n /\ (sortable_cmp k (headers_selected_tip n) <> Gt \/ ~ dag_chain (dag_of n) (pruning_point n) sp)).

Lemma commit_returns : exists r f s t, commit_header powf fuel n x h = Ret (grown_node r f s t) /\ on_chain n r sp /\ on_chain n f sp /\
  good_state (2 * Z.of_nat (S c)) (<[b := (sp, qs)]> (dag_of n)) s /\ blocks s = {[ORIGIN]} ∪ ({[b]} ∪ dom (ghostdag_store n)) /\ tip_ok s t.
Proof.
  destruct HX as [(Eh & Ho & Hno) Hs Hpp [Hps Hlen] Hg Hdaa Hw Hbw (r & f & Er & Ef & Hr & Hf)]. destruct context_parent as (Hsp & Hq & HM). destruct (nk_reach c n HN) as [HG Hbl].
  destruct Hc as [Hc1 Hc2]. unfold max_headers in Hc1. pose proof (pm_parents HP). pose proof HG as (Hserve & _ & _). pose proof (not_stored _ Hs) as Hgd.
  assert (Hqb : forall q, q ∈ qs -> q ∈ blocks (reachability n)) by (intros q Hqq; apply in_blocks; right; by apply Hq).
  destruct (add_good powf fuel (2 * Z.of_nat c) (dag_of n) (reachability n) b sp qs (mergeset_without_selected_parent D) HG) as (s1 & E1 & HG1 & Hbl1 & Hr1);
    [unfold max_ops; lia|lia|apply new_dag|done|done|done|done|done|].
  unfold commit_header, insert_relations, insert_new. rewrite Eh, Er, Ef, Hgd.
  assert (E : headers_store n !! b = None) by (apply not_elem_of_dom; rewrite (nk_headers c n HN); apply new_hash). rewrite E.
  assert (E' : depth_store n !! b = None) by (apply not_elem_of_dom; rewrite (nk_depths c n HN); apply new_hash). cbn [mbind Proc_bind option_get]. rewrite E', E1. cbn [mbind Proc_bind of_R].
  assert (E'' : relations_store n !! b = None).
  { apply not_elem_of_dom. rewrite node_relations. intros [H1%elem_of_singleton|H1]%elem_of_union; [done|]. by apply new_hash in H1. }
  rewrite E''. assert (Hbl' : blocks s1 = {[ORIGIN]} ∪ ({[b]} ∪ dom (ghostdag_store n))) by (rewrite Hbl1, Hbl, !(assoc_L (∪)); by rewrite (comm_L (∪) {[b]})).
  assert (HG2 : good_state (2 * Z.of_nat (S c)) (<[b := (sp, qs)]> (dag_of n)) s1) by (destruct HG1 as (H1 & H2 & H3); split_and!; [eapply serves_mono; [exact H1|lia]|done|done]).
  assert (Hplain : forall A : Prop, A -> (sortable_cmp (mk_sortable b (h_blue_work h)) (headers_selected_tip n) <> Gt \/ ~ dag_chain (dag_of n) (pruning_point n) sp) ->
    tip_ok s1 (headers_selected_tip n)) by (intros A _ HA; by right).
  destruct (sortable_cmp (mk_sortable b (h_blue_work h)) (headers_selected_tip n)) eqn:Ecmp.
  1,2: exists r, f, s1, (headers_selected_tip n); split_and!; try done; apply (Hplain True I); by left.
  rewrite Hpp. destruct HG1 as (Hs1 & Hcl1 & Hkn1). destruct (serves_query _ _ _ _ (pruning_point n) b Hs1) as [_ (res & Eq & Hres)].
  { rewrite Hbl1. apply elem_of_union_r, in_blocks. right. apply (nk_pruning c n HN). }
  { rewrite Hbl1. by apply elem_of_union_l, elem_of_singleton. }
  rewrite Eq. cbn [mbind Proc_bind of_R]. rewrite <- (dag_grown r f s1 (headers_selected_tip n)), chain_new in Hres by (apply new_stored, (nk_pruning c n HN)). destruct res.
  - destruct (serves_root _ _ _ _ Hserve) as (rt & Hrt & Hrtb). destruct (serves_hint powf (2 * Z.of_nat c + 1) s1 _ _ b fuel Hs1) as (s2 & E2 & Hs2 & Hbl2 & _).
    { unfold max_ops. lia. } { lia. } { rewrite Hbl1. by apply elem_of_union_l, elem_of_singleton. }
    { rewrite Hr1, Hrt. intros [= ->]. apply in_blocks in Hrtb as [|Hb]; [done|]. by apply new_hash in Hb. }
    rewrite E2. cbn [mbind Proc_bind of_R]. exists r, f, s2, (mk_sortable b (h_blue_work h)). split_and!; [done|done|done| |by rewrite Hbl2|].
    + split_and!; [eapply serves_mono; [exact Hs2|lia]|done|]. intros y. rewrite Hbl2. apply Hkn1.
    + left. split_and!; [done|done|by apply Hres].
  - exists r, f, s1, (headers_selected_tip n). split_and!; try done. apply (Hplain True I). right. intros Hch. by apply Hres in Hch.
Qed.

Section After.
Context (r f : Hash) (s : rstore) (t : SortableBlock) (Hr : on_chain n r sp) (Hf : on_chain n f sp).
Context (HG : good_state (2 * Z.of_nat (S c)) (<[b := (sp, qs)]> (dag_of n)) s) (Hbl : blocks s = {[ORIGIN]} ∪ ({[b]} ∪ dom (ghostdag_store n))) (Ht : tip_ok s t).
Abbreviation n' := (grown_node r f s t).

Lemma stored_grown y : stored n' y <-> y = b \/ stored n y.
Proof. unfold stored, grown_node. cbn. rewrite dom_insert_L, elem_of_union, elem_of_singleton. done. Qed.

Lemma sp_stored : stored n sp.
Proof. destruct context_parent as (Hsp & Hq & _). by apply Hq. Qed.

Lemma on_chain_grown y z : stored n z -> on_chain n y z -> on_chain n' y z.
Proof. intros Hz [->|Hy]; [by left|right]. by apply chain_grown. Qed.

Lemma on_chain_new y : on_chain n y sp -> on_chain n' y b.
Proof.
  intros Hy. destruct (on_chain_stored y sp sp_stored Hy) as [->|Hs]; [by left|]. right. apply chain_new; [by apply new_stored|]. destruct Hy as [->|]; [|done].
  pose proof (dg_no_origin _ _ _ _ node_dag) as Ho. cbn in Ho. apply elem_of_dom in Hs as [? Hs]. congruence.
Qed.

Lemma wk_grown y : y <> b -> key_of n' y = key_of n y.
Proof. intros Hy. unfold key_of, wk, db, grown_node. cbn. by rewrite lookup_insert_ne. Qed.

Lemma wk_new : key_of n' b = mk_sortable b (h_blue_work h).
Proof. unfold key_of, wk, db, grown_node. cbn. rewrite lookup_insert_eq. destruct HX as [_ _ _ _ _ _ _ -> _]. done. Qed.

Lemma grown_stores : grown gen kp 0 (db n').
Proof.
  destruct HX as [_ _ _ [Hps Hlen] Hg (y & Hy & Hle) (w & Hw & Hpos & _) _ _]. destruct Hc as [_ Hfu]. rewrite db_grown.
  apply (grown_block gen kp 0 (db n) (oracle (reachability n)) fuel b (c_known_parents x) qs D y (h_daa_score h) (h_bits h) w); try done.
  - apply (nk_grown c n HN).
  - apply node_oracle.
  - apply node_bounded.
  - pose proof (nk_size c n HN). cbn [gd db]. lia.
  - apply new_hash.
  - apply new_hash.
  - lia.
  - apply block_unique_in.
Qed.

(** Nor is the past of any block. *)
Lemma ghostdag_grown ps d : ghostdag gen kp 0 (db n) (oracle (reachability n)) fuel ps = Ok d -> ghostdag gen kp 0 (db n') (oracle (reachability n')) fuel ps = Ok d.
Proof.
  destruct new_hash as (Hb & Hbo & Hbn). destruct (pm_k HP) as (Hk & _).
  assert (Hsub : forall A (m : gmap Hash A) a, m !! b = None -> m ⊆ <[b := a]> m) by (intros A m a; apply insert_subseteq).
  apply (ghostdag_stable gen kp 0 (db n) (db n') node_dag (oracle (reachability n)) (oracle (reachability n'))); try done.
  + apply Hsub. by apply not_elem_of_dom.
  + apply Hsub. apply not_elem_of_dom. rewrite node_relations. intros [H1%elem_of_singleton|H1]%elem_of_union; done.
  + rewrite db_grown. apply Hsub. cbn. rewrite lookup_fmap. assert (headers_store n !! b = None) as -> by (apply not_elem_of_dom; by rewrite (nk_headers c n HN)). done.
  + rewrite db_grown. apply Hsub. cbn. rewrite lookup_fmap. assert (headers_store n !! b = None) as -> by (apply not_elem_of_dom; by rewrite (nk_headers c n HN)). done.
  + intros a z Ha Hz. change (relations (db n)) with (relations_store n) in Ha, Hz. pose proof Hz as Hz'. rewrite node_relations, elem_of_union, elem_of_singleton in Ha, Hz'.
    apply eq_true_iff_eq. rewrite (oracle_answers a z Ha Hz'). destruct (oracle_right (2 * Z.of_nat (S c)) n' a z) as (res & E & Hres).
    { destruct (pm_k HP) as (? & ? & ?). apply grown_ok; [done..|]. apply grown_stores. } { rewrite dag_grown. exact HG. } { cbn [reachability grown_node ghostdag_store]. by rewrite dom_insert_L. }
    { rewrite stored_grown. destruct Ha; auto. } { rewrite stored_grown. destruct Hz'; auto. }
    unfold oracle. rewrite E, Hres, db_grown. symmetry. apply (anc_related_ext gen kp 0 (db n) node_dag b qs D (h_daa_score h) (h_bits h) Hb Hbo a z). done.
Qed.

Lemma tip_grown u : u = t -> stored n' (sb_hash u) /\ u = key_of n' (sb_hash u) /\
  forall y, stored n' y -> dag_chain (dag_of n') (pruning_point n) y -> sortable_le (key_of n' y) u = true.
Proof.
  intros Hu. destruct (nk_tip c n HN) as (Ts & Tk & Tm). pose proof (new_stored _ (nk_pruning c n HN)) as Hpn. destruct Ht as [(Et & Hcmp & Hch)|(Et & Hcmp)]; rewrite Et in Hu; rewrite Hu.
  - cbn [sb_hash]. split; [apply stored_grown; by left|]. split; [by rewrite wk_new|]. intros y [->|Hy]%stored_grown Hyc.
    + rewrite wk_new. apply sortable_le_spec. cbn. lia.
    + rewrite wk_grown by (by apply new_stored). apply (sortable_gt_le _ _ _ Hcmp), Tm; [done|]. by apply chain_grown in Hyc.
  - split; [apply stored_grown; by right|]. split; [by rewrite wk_grown by (by apply new_stored)|]. intros y [->|Hy]%stored_grown Hyc.
    + apply chain_new in Hyc; [|done]. rewrite wk_new. destruct Hcmp; [|done]. by apply sortable_le_gt.
    + rewrite wk_grown by (by apply new_stored). apply Tm; [done|]. by apply chain_grown in Hyc.
Qed.

Lemma commit_node_ok : node_ok (S c) n'.
Proof.
  destruct new_hash as (Hb & Hbo & Hbn). split.
  - apply grown_stores.
  - unfold grown_node. cbn [ghostdag_store]. rewrite dom_insert_L, size_union, size_singleton, (nk_size c n HN); [done|]. intros y ->%elem_of_singleton. done.
  - rewrite dag_grown. cbn [reachability grown_node ghostdag_store]. rewrite dom_insert_L. done.
  - intros y. rewrite stored_grown, (nk_status c n HN). unfold grown_node. cbn [statuses]. destruct (decide (y = b)) as [->|Hne].
    + rewrite lookup_insert_eq. split; [intros _; by exists StatusHeaderOnly|by left].
    + rewrite lookup_insert_ne by done. split; [intros [?|?]; done|by right].
  - unfold grown_node. cbn. by rewrite !dom_insert_L, (nk_headers c n HN).
  - unfold grown_node. cbn. by rewrite !dom_insert_L, (nk_depths c n HN).
  - intros y u v. unfold grown_node at 1. cbn [depth_store]. destruct (decide (y = b)) as [->|Hne].
    + rewrite lookup_insert_eq. intros [= <- <-]. split; by apply on_chain_new.
    + rewrite lookup_insert_ne by done. intros Hy. destruct (nk_depth c n HN y u v Hy). assert (stored n y) by (unfold stored; rewrite <- (nk_depths c n HN); by apply elem_of_dom_2 in Hy).
      split; by apply on_chain_grown.
  - intros y [->|Hy]%stored_grown.
    + apply chain_new; [|by apply (nk_chain c n HN), sp_stored]. apply new_stored. destruct (dg_genesis _ _ _ _ node_dag) as [_ Hg]. by apply elem_of_dom_2 in Hg.
    + by apply chain_grown, (nk_chain c n HN).
  - intros y [->|Hy]%stored_grown.
    + destruct HX as [_ _ _ _ _ _ (w & Hw & Hpos & Hle) _ _]. exists w. split; [|done]. rewrite db_grown. unfold work, block_work, GhostdagProofs.add_block. cbn [header_bits].
      rewrite lookup_insert_eq. cbn [unwrap mbind result_bind]. rewrite Hw, ok_bind. f_equal. lia.
    + destruct (nk_work c n HN y Hy) as (w & Hw & ?). exists w. split; [|done]. rewrite db_grown. by apply work_ext.
  - intros y d Hd Hyg. unfold grown_node at 1 in Hd. cbn [ghostdag_store] in Hd. unfold parent_of. rewrite db_grown. unfold GhostdagProofs.add_block at 1. cbn [relations].
    destruct (decide (y = b)) as [->|Hne].
    + rewrite lookup_insert_eq in Hd. injection Hd as <-. exists (c_known_parents x). rewrite <- db_grown with (r := r) (f := f) (s := s) (t := t).
      split; [|apply ghostdag_grown, HX]. intros q. rewrite lookup_insert_eq, <- block_unique_in. split; [by exists qs|]. by intros (? & [= <-] & ?).
    + rewrite lookup_insert_ne in Hd by done. destruct (nk_data c n HN y d Hd Hyg) as (ps & Hps & E). exists ps. rewrite <- db_grown with (r := r) (f := f) (s := s) (t := t).
      split; [|by apply ghostdag_grown]. intros q. rewrite lookup_insert_ne by done. apply Hps.
  - apply stored_grown. right. apply (nk_pruning c n HN).
  - by apply tip_grown.
Qed.

(** Other headers that wait are not disturbed. *)
Lemma context_stable h2 x2 : context_ok n h2 x2 -> h_hash h2 <> b -> context_ok n' h2 x2.
Proof.
  intros HX2 Hne. pose proof HX2 as [Eh Hs Hpp [Hps Hlen] Hg (y & Hy & Hle) Hw Hbw (r2 & f2 & Er & Ef & Hr2 & Hf2)]. destruct new_hash as (Hb & Hbo & Hbn). split; try done.
  - unfold grown_node. cbn [statuses]. by rewrite lookup_insert_ne.
  - split; [|done]. destruct Hps as [Hn0 Hreal Hanti]. rewrite db_grown. split; [done| |].
    + intros p Hp. destruct (Hreal p Hp). split; [|done]. unfold GhostdagProofs.add_block. cbn [gd]. rewrite dom_insert_L. by apply elem_of_union_r.
    + intros p q Hp Hq Hpq. apply Hanti; [done|done|]. apply (anc_ext gen kp 0 (db n) node_dag b qs D (h_daa_score h) (h_bits h) Hb Hbo); [|done]. by apply Hreal.
  - by apply ghostdag_grown.
  - exists y. split; [|done]. rewrite db_grown. unfold GhostdagProofs.add_block. cbn [daa_score]. rewrite lookup_insert_ne; [done|]. intros E. cbn in Hy. rewrite lookup_fmap in Hy.
    destruct (headers_store n !! selected_parent (c_ghostdag_data x2)) eqn:E2; [|done]. apply elem_of_dom_2 in E2. rewrite (nk_headers c n HN), <- E in E2. done.
  - exists r2, f2. assert (stored n (selected_parent (c_ghostdag_data x2))).
    { cbn in Hy. rewrite lookup_fmap in Hy. unfold stored. rewrite <- (nk_headers c n HN). apply elem_of_dom. by destruct (headers_store n !! _). }
    split_and!; [done|done|by apply on_chain_grown..].
Qed.

End After.

End Commit.

End Node.

(** A rejected header leaves a mark only. *)
Lemma set_status_ok c n h : node_ok c n -> statuses n !! h = None -> node_ok c (set_status n h StatusInvalid).
Proof.
  intros HN Hs. pose proof HN as [H1 H2 H3 H4 H5 H6 H7 H8 H9 H10 H11 H12]. split; try done. intros y. cbn [statuses set_status]. change (stored (set_status n h StatusInvalid) y) with (stored n y).
  rewrite H4. destruct (decide (y = h)) as [->|Hne]; [|by rewrite lookup_insert_ne]. rewrite lookup_insert_eq, Hs. split; [by intros (? & ? & _)|]. by intros (? & [= <-] & ?).
Qed.

Lemma context_set_status n h h2 x2 : context_ok n h2 x2 -> h_hash h2 <> h -> context_ok (set_status n h StatusInvalid) h2 x2.
Proof. intros [H1 H2 H3 H4 H5 H6 H7 H8 H9] Hne. split; try done. cbn [statuses set_status]. by rewrite lookup_insert_ne. Qed.

(** ** The genesis block *)

Definition genesis_header_ok (h : Header) : Prop :=
  h_hash h = gen /\ gen <> ORIGIN /\ gen <> NONE /\ h_blue_work h = 0 /\ exists w, calc_work (h_bits h) = Ok w /\ 0 < w <= work_bound.

Lemma genesis_ok gh : genesis_header_ok gh -> within_headers 1 -> exists n0 n1, init_node C = Ret n0 /\ process_genesis C powf fuel n0 gh = Ret n1 /\ node_ok 1 n1.
Proof.
  intros (Eh & Ho & Hn & Hbw & w & Hw & Hpos) [Hc Hf]. unfold max_headers in Hc. pose proof (pm_parents HP) as Hpp.
  assert (Hin : exists r0, init_reachability (mk_rstore ∅ None) = Done r0 /\ good_state 0 ∅ r0 /\ blocks r0 = {[ORIGIN]}).
  { destruct (serves_init eq eq ltac:(done) ltac:(done)) as (r0 & E0 & _ & Hbl & _). exists r0. split_and!; [done| |done].
    apply (indexed_good powf fuel 0 ∅ r0); [by constructor|]. split; [by vm_compute|lia]. }
  destruct Hin as (r0 & E0 & HG & Hbl). unfold init_node. rewrite E0. exists (mk_node ∅ {[ ORIGIN := [] ]} ∅ r0 ∅ ∅ (mk_sortable ORIGIN 0) gen). pstep.
  destruct (add_good powf fuel 0 ∅ r0 gen ORIGIN [ORIGIN] [] HG) as (s1 & E1 & HG1 & Hbl1 & _); [unfold max_ops; lia|lia|done|done|done|left| |apply mergeset_single|].
  { intros q ->%list_elem_of_singleton. rewrite Hbl. by apply elem_of_singleton. }
  unfold process_genesis, commit_header, insert_relations, insert_new. cbn [ghostdag_store relations_store headers_store reachability statuses depth_store headers_selected_tip pruning_point
    c_ghostdag_data c_hash c_merge_depth_root c_finality_point c_known_parents c_block_level c_pruning_point option_get mbind Proc_bind genesis_ghostdag_data selected_parent].
  rewrite !lookup_empty. change (mergeset_without_selected_parent genesis_ghostdag_data) with (@nil Hash). rewrite Eh, E1. pstep. rewrite Hbw.
  assert (Ecmp : sortable_cmp (mk_sortable gen 0) (mk_sortable gen 0) = Eq) by (unfold sortable_cmp; cbn; apply Z.compare_refl). rewrite Ecmp, lookup_singleton_ne by done. pstep.
  eexists. split; [done|]. split; [done|].
  match goal with |- node_ok 1 ?m => set (n1 := m) end.
  assert (Est : forall y, stored n1 y <-> y = gen) by (intros y; unfold stored, n1; cbn; rewrite insert_empty, dom_singleton_L, elem_of_singleton; done).
  assert (Edb : db n1 = GhostdagProofs.init gen (h_daa_score gh) (h_bits gh)).
  { unfold db, n1, GhostdagProofs.init. cbn. rewrite !insert_empty, !map_fmap_singleton. f_equal.
    apply map_eq. intros y. destruct (decide (y = gen)) as [->|H1]; [by rewrite lookup_insert_eq, lookup_insert_ne, lookup_singleton_eq by done|]. rewrite lookup_insert_ne by done.
    destruct (decide (y = ORIGIN)) as [->|H2]; [by rewrite lookup_insert_eq, lookup_singleton_eq|]. by rewrite lookup_insert_ne, !lookup_singleton_ne by done. }
  assert (Edag : dag_of n1 = <[gen := (ORIGIN, [ORIGIN])]> ∅).
  { apply map_eq. intros y. unfold dag_of, n1. cbn. rewrite map_lookup_imap, !insert_empty. destruct (decide (y = gen)) as [->|Hne]; [by rewrite !lookup_singleton_eq, lookup_insert_eq|].
    by rewrite !lookup_singleton_ne by done. }
  assert (Ekey : key_of n1 gen = mk_sortable gen 0) by (unfold key_of, wk; rewrite Edb; cbn; by rewrite lookup_singleton_eq).
  split.
  - rewrite Edb. apply (grown_init gen kp 0 _ _ w); [done|done|lia].
  - unfold n1. cbn. by rewrite insert_empty, dom_singleton_L, size_singleton.
  - split; [rewrite Edag|unfold n1; cbn [reachability ghostdag_store]; by rewrite insert_empty, dom_singleton_L, Hbl1, Hbl, (comm_L (∪))].
    destruct HG1 as (Hs & Hcl & Hkn). split_and!; [|done|done]. eapply serves_mono; [exact Hs|lia].
  - intros y. rewrite Est. unfold n1. cbn [statuses]. rewrite insert_empty. destruct (decide (y = gen)) as [->|Hne]; [rewrite lookup_singleton_eq|rewrite lookup_singleton_ne by done].
    + split; [intros _; by exists StatusHeaderOnly|done].
    + split; [done|]. by intros (? & ? & _).
  - unfold n1. cbn. by rewrite !insert_empty, !dom_singleton_L.
  - unfold n1. cbn. by rewrite !insert_empty, !dom_singleton_L.
  - intros y r f. unfold n1. cbn [depth_store]. rewrite insert_empty. intros [<- [= <- <-]]%lookup_singleton_Some. split; by left.
  - intros y ->%Est. constructor.
  - intros y ->%Est. exists w. split; [|done]. rewrite Edb. unfold work, block_work. cbn. rewrite lookup_singleton_eq. cbn. rewrite Hw, ok_bind. f_equal. lia.
  - intros y d Hd Hy. apply elem_of_dom_2, Est in Hd. done.
  - by apply Est.
  - cbn [headers_selected_tip n1 sb_hash]. split; [by apply Est|]. split; [done|]. intros y ->%Est _. rewrite Ekey. apply sortable_le_spec. cbn. lia.
Qed.

(** ** Interleavings *)

Definition admissible (now : Z) (h : Header) : Prop := 0 <= now < 2 ^ 63 /\ h_hash h <> ORIGIN /\ h_hash h <> NONE.
Definition not_pending (h : Header) (l : list (Header * HeaderProcessingContext)) : Prop := forall y, y ∈ l -> h_hash y.1 <> h_hash h.

(** Headers that are validated wait in a list until they are committed, in any order.
    The same header is not processed twice at a time. *)
Inductive pipeline : nat -> node -> list (Header * HeaderProcessingContext) -> Prop :=
| pl_start n0 n1 gh : genesis_header_ok gh -> init_node C = Ret n0 -> process_genesis C powf fuel n0 gh = Ret n1 -> pipeline 1 n1 []
| pl_reject c n l now h n' e : pipeline c n l -> admissible now h -> statuses n !! h_hash h = None -> not_pending h l ->
    validate_header C V fuel n now h = Ret (n', inl e) -> pipeline c n' l
| pl_validate c n l now h n' x : pipeline c n l -> admissible now h -> statuses n !! h_hash h = None -> not_pending h l ->
    validate_header C V fuel n now h = Ret (n', inr x) -> pipeline c n' ((h, x) :: l)
| pl_commit c n l1 h x l2 n' : pipeline c n (l1 ++ (h, x) :: l2) -> commit_header powf fuel n x h = Ret n' -> pipeline (S c) n' (l1 ++ l2).

Definition pending_ok (n : node) (l : list (Header * HeaderProcessingContext)) : Prop :=
  (forall h x, (h, x) ∈ l -> context_ok n h x) /\ NoDup ((fun y => h_hash y.1) <$> l).

Lemma commit_ok c n h x : node_ok c n -> within_headers c -> context_ok n h x -> exists n', commit_header powf fuel n x h = Ret n' /\ node_ok (S c) n' /\
  forall h2 x2, context_ok n h2 x2 -> h_hash h2 <> h_hash h -> context_ok n' h2 x2.
Proof.
  intros HN Hc HX. destruct (commit_returns c n HN Hc h x HX) as (r & f & s & t & E & Hr & Hf & HG & Hbl & Ht). eexists. split; [exact E|]. split.
  - by apply commit_node_ok.
  - intros h2 x2. by apply (context_stable c n HN Hc h x HX r f s t).
Qed.

Lemma pending_remove n n' l1 h x l2 : pending_ok n (l1 ++ (h, x) :: l2) -> (forall h2 x2, context_ok n h2 x2 -> h_hash h2 <> h_hash h -> context_ok n' h2 x2) -> pending_ok n' (l1 ++ l2).
Proof.
  intros [Hctx Hnd] Hst. rewrite fmap_app, fmap_cons in Hnd. cbn in Hnd. apply NoDup_app in Hnd as (Hn1 & Hn2 & [Hn3 Hn4]%NoDup_cons). split.
  - intros h2 x2 Hin. apply Hst; [apply Hctx; rewrite elem_of_app, elem_of_cons; apply elem_of_app in Hin as [|]; auto|]. intros E. apply elem_of_app in Hin as [Hin|Hin].
    + apply (Hn2 (h_hash h2)); [apply list_elem_of_fmap; by exists (h2, x2)|]. rewrite E. left.
    + apply Hn3. rewrite <- E. apply list_elem_of_fmap. by exists (h2, x2).
  - rewrite fmap_app. apply NoDup_app. split_and!; [done| |done]. intros y Hy Hy'. apply (Hn2 y Hy). by right.
Qed.

Lemma pipeline_ok c n l : pipeline c n l -> within_headers c -> node_ok c n /\ pending_ok n l.
Proof.
  intros Hp. induction Hp as [n0 n1 gh Hg E0 E1|c n l now h n' e _ IH (Hnow & Ho & Hn) Hs Hnp E|c n l now h n' x _ IH (Hnow & Ho & Hn) Hs Hnp E|c n l1 h x l2 n' _ IH E]; intros Hc.
  - destruct (genesis_ok gh Hg Hc) as (m0 & m1 & F0 & F1 & HN). assert (m0 = n0) as -> by congruence. assert (m1 = n1) as -> by congruence. split; [done|].
    split; [intros h x Hx; by apply elem_of_nil in Hx|constructor].
  - destruct (IH Hc) as [HN [Hctx Hnd]]. destruct (validate_ok c n HN Hc now h Hnow Ho Hn Hs) as (m & r & F & Hr). rewrite E in F. injection F as <- <-. destruct Hr as [->| ->]; [done|].
    split; [by apply set_status_ok|]. split; [|done]. intros h2 x2 Hin. apply context_set_status; [by apply Hctx|]. apply (Hnp (h2, x2) Hin).
  - destruct (IH Hc) as [HN [Hctx Hnd]]. destruct (validate_ok c n HN Hc now h Hnow Ho Hn Hs) as (m & r & F & Hr). rewrite E in F. injection F as <- <-. destruct Hr as [-> Hx].
    split; [done|]. split; [intros h2 x2 [[= -> ->]|Hin]%elem_of_cons; [done|by apply Hctx]|]. rewrite fmap_cons. constructor; [|done].
    intros (y & Ey & Hin)%list_elem_of_fmap. by apply (Hnp y Hin).
  - assert (Hc' : within_headers c) by (destruct Hc; split; lia). destruct (IH Hc') as [HN Hpend]. assert (HX : context_ok n h x) by (apply Hpend; rewrite elem_of_app, elem_of_cons; auto).
    destruct (commit_ok c n h x HN Hc' HX) as (m & F & HN' & Hst). assert (m = n') as -> by congruence. split; [done|]. by apply (pending_remove n n' l1 h x l2).
Qed.

(** C8: whatever headers arrive, fewer than 2^22 of them, and however their validations (each
    one step) and commits interleave, with the pruning point at genesis, validation
    returns, with a rule that the header violates or with data to commit, and the commit
    of every validated header succeeds: no panic, no query for a block that is not
    there, no overflow.  The services that the processor asks are bounded as
    [services_ok] says, and the work of a block with them. *)
Theorem headers_never_crash c n l : pipeline c n l -> within_headers c ->
  (forall now h, admissible now h -> statuses n !! h_hash h = None -> exists n' r, validate_header C V fuel n now h = Ret (n', r)) /\
  (forall h x, (h, x) ∈ l -> exists n', commit_header powf fuel n x h = Ret n') /\
  (forall now h, admissible now h -> exists n' r, process_header C V powf fuel n now h = Ret (n', r)).
Proof.
  intros Hp Hc. destruct (pipeline_ok c n l Hp Hc) as [HN [Hctx _]]. split_and!.
  - intros now h (Hnow & Ho & Hn) Hs. destruct (validate_ok c n HN Hc now h Hnow Ho Hn Hs) as (n' & r & E & _). eauto.
  - intros h x Hin. destruct (commit_ok c n h x HN Hc (Hctx h x Hin)) as (n' & E & _). eauto.
  - intros now h (Hnow & Ho & Hn). unfold process_header. destruct (statuses n !! h_hash h) as [s|] eqn:Hs; [destruct s; eauto|].
    destruct (validate_ok c n HN Hc now h Hnow Ho Hn Hs) as (n' & r & -> & Hr). cbn [mbind Proc_bind]. destruct r as [e|x]; [eauto|]. destruct Hr as [-> HX].
    destruct (commit_ok c n h x HN Hc HX) as (n' & -> & _). cbn [mbind Proc_bind]. eauto.
Qed.

(** C7: after any interleaving of validations (each one step) and commits of fewer than 2^22
    headers, with the pruning point at genesis, the data of every block are what GHOSTDAG
    computes for its parents in the DAG of all blocks, queries of the reachability
    structure answer for that DAG, and the selected tip is the heaviest block above the
    pruning point.  The services that the processor asks are bounded as [services_ok]
    says. *)
Theorem headers_correct c n l : pipeline c n l -> within_headers c ->
  grown gen kp 0 (db n) /\ size (dom (ghostdag_store n)) = c /\
  (forall b d, ghostdag_store n !! b = Some d -> b <> gen -> exists ps, (forall q, q ∈ ps <-> parent_of (db n) b q) /\
     ghostdag gen kp 0 (db n) (oracle (reachability n)) fuel ps = Ok d) /\
  (forall a b, stored n a -> stored n b -> exists res : bool, service_is_dag_ancestor_of (reachability n) a b = Done res /\ (res = true <-> anc (db n) a b)) /\
  headers_selected_tip n = key_of n (sb_hash (headers_selected_tip n)) /\
  forall b, stored n b -> dag_chain (dag_of n) (pruning_point n) b -> sortable_le (key_of n b) (headers_selected_tip n) = true.
Proof.
  intros Hp Hc. destruct (pipeline_ok c n l Hp Hc) as [HN _]. split_and!.
  - apply (nk_grown c n HN).
  - apply (nk_size c n HN).
  - apply (nk_data c n HN).
  - intros a b Ha Hb. apply (dag_query c n HN); by right.
  - apply (nk_tip c n HN).
  - apply (nk_tip c n HN).
Qed.

End Pipeline.

(** ** A run: two blocks on the genesis block and one that merges them *)

Definition run_params : Params :=
  mk_params 1 small_k (mk_forked 10 10 0) (mk_forked 180 180 0) (mk_forked 36000 36000 0) (mk_forked 43200 43200 0) 132 0 0 false.

Definition run_services : Services :=
  mk_services (fun _ => (true, 0))
    (fun n d => inr (match headers_store n !! selected_parent d with Some (h, _) => h_daa_score h + mergeset_size d | None => 0 end))
    (fun _ _ => 0x207fffff) (fun _ _ => inr 0) (fun _ _ => 1) (fun _ _ ps => [ps]).

Definition run_header (hash : Hash) (parents : list Hash) (daa work score : Z) : Header := mk_header hash 1 [parents] 5 0x207fffff 0 daa work score 1.
Definition header1 : Header := mk_header 1 1 [] 0 0x207fffff 0 0 0 0 1.
Definition header2 : Header := run_header 2 [1] 1 2 1.
Definition header3 : Header := run_header 3 [1] 1 2 1.
Definition header4 : Header := run_header 4 [2; 3] 3 6 3.

Definition ret_or {A} (a : A) (m : Proc A) : A := match m with Ret x => x | _ => a end.
Definition no_context : HeaderProcessingContext := mk_context 0 0 0 [] genesis_ghostdag_data 0 None None.
Definition no_node : node := mk_node ∅ ∅ ∅ (mk_rstore ∅ None) ∅ ∅ (mk_sortable 0 0) 0.
Definition context_of (m : Proc (node * (RuleError + HeaderProcessingContext))) : HeaderProcessingContext := match m with Ret (_, inr x) => x | _ => no_context end.

Definition node0 : node := Eval vm_compute in ret_or no_node (init_node run_params).
Definition node1 : node := Eval vm_compute in ret_or no_node (process_genesis run_params no_powf 40 node0 header1).
Definition context2 : HeaderProcessingContext := Eval vm_compute in context_of (validate_header run_params run_services 40 node1 9 header2).
Definition context3 : HeaderProcessingContext := Eval vm_compute in context_of (validate_header run_params run_services 40 node1 9 header3).
Definition node2 : node := Eval vm_compute in ret_or no_node (commit_header no_powf 40 node1 context2 header2).
Definition node3 : node := Eval vm_compute in ret_or no_node (commit_header no_powf 40 node2 context3 header3).
Definition context4 : HeaderProcessingContext := Eval vm_compute in context_of (validate_header run_params run_services 40 node3 9 header4).
Definition node4 : node := Eval vm_compute in ret_or no_node (commit_header no_powf 40 node3 context4 header4).

Lemma run_params_ok : params_ok run_params.
Proof. split; cbn; [lia| |lia|done]. intros p [->| ->]; cbn; lia. Qed.

Lemma run_services_ok : services_ok run_services.
Proof.
  split.
  - intros n d daa h l. cbn. intros [= <-] ->. unfold mergeset_size. lia.
  - intros n d. exists 2. split; [apply small_work|]. by vm_compute.
Qed.

Lemma run_pipeline : pipeline run_params run_services no_powf 40 4 node4 [].
Proof.
  apply (pl_commit _ _ _ _ 3 node3 [] header4 context4 []); [|by vm_compute].
  apply (pl_validate _ _ _ _ 3 node3 [] 9 header4); [|by vm_compute|by vm_compute|intros y Hy; by apply elem_of_nil in Hy|by vm_compute].
  apply (pl_commit _ _ _ _ 2 node2 [] header3 context3 []); [|by vm_compute].
  apply (pl_commit _ _ _ _ 1 node1 [(header3, context3)] header2 context2 []); [|by vm_compute].
  apply (pl_validate _ _ _ _ 1 node1 [(header2, context2)] 9 header3); [|by vm_compute|by vm_compute|by intros y ->%list_elem_of_singleton|by vm_compute].
  apply (pl_validate _ _ _ _ 1 node1 [] 9 header2); [|by vm_compute|by vm_compute|intros y Hy; by apply elem_of_nil in Hy|by vm_compute].
  apply (pl_start _ _ _ _ node0 node1 header1); [|by vm_compute|by vm_compute].
  split_and!; try done. exists 2. split; [apply small_work|by vm_compute].
Qed.

Lemma headers_never_crash_witness : exists n' r, process_header run_params run_services no_powf 40 node4 9 (run_header 5 [4] 4 8 4) = Ret (n', r).
Proof.
  refine (proj2 (proj2 (headers_never_crash run_params run_services no_powf 40 run_params_ok run_services_ok 4 node4 [] run_pipeline _)) 9 (run_header 5 [4] 4 8 4) _); [|done].
  split; by vm_compute.
Defined.

Lemma headers_correct_witness : headers_selected_tip node4 = mk_sortable 4 6 /\ size (dom (ghostdag_store node4)) = 4%nat.
Proof.
  split; [done|]. refine (proj1 (proj2 (headers_correct run_params run_services no_powf 40 run_params_ok run_services_ok 4 node4 [] run_pipeline _))).
  split; by vm_compute.
Defined.

End HeaderPipeline.
