(* ===== verification/Tx.v ===== *)
(** * Transactions of the node (consensus/core/src/tx.rs, hashing/tx.rs, merkle.rs)

    What is hashed for the id and for the hash of a transaction, and the Merkle root of
    the transactions of a block (crypto/merkle).  The hash function is BLAKE2b with a key,
    from the package blake2b_simd: an argument here. *)
From Stdlib Require Import Ascii String ZArith Lia.
From stdpp Require Import base numbers list list_numbers.
From S2P Require Import Prelude Memory Json Header.
Import Header.Header.
Open Scope list_scope.
Open Scope Z_scope.

Module Tx.

Record ScriptPublicKey := mk_spk { spk_version : Z; script : mem }.
Record TransactionOutpoint := mk_outpoint { transaction_id : mem; index : Z }.
Record TransactionInput := mk_input { previous_outpoint : TransactionOutpoint; signature_script : mem; sequence : Z; sig_op_count : Z }.
Record TransactionOutput := mk_output { value : Z; script_public_key : ScriptPublicKey }.
(** A subnetwork is its 20 bytes; the id is a cache. *)
Record Transaction := mk_tx {
  tx_version : Z; inputs : list TransactionInput; outputs : list TransactionOutput; lock_time : Z; subnetwork_id : mem; gas : Z;
  payload : mem; mass : Z; id_cache : mem }.

Definition from_byte (b : Z) : mem := b :: replicate 19 0.
Definition SUBNETWORK_ID_NATIVE : mem := from_byte 0.
Definition SUBNETWORK_ID_COINBASE : mem := from_byte 1.
Definition ZERO_HASH : mem := replicate 32 0.

Definition is_coinbase (tx : Transaction) : bool := bool_decide (subnetwork_id tx = SUBNETWORK_ID_COINBASE).

(** ** What is written to the hasher *)

Definition TX_ENCODING_FULL : Z := 0.
Definition TX_ENCODING_EXCLUDE_SIGNATURE_SCRIPT : Z := 1.

Definition write_outpoint (o : TransactionOutpoint) : mem := transaction_id o ++ store_le 4 (index o).

Definition write_input (encoding_flags : Z) (i : TransactionInput) : mem :=
  write_outpoint (previous_outpoint i) ++
  (if Z.land encoding_flags TX_ENCODING_EXCLUDE_SIGNATURE_SCRIPT =? TX_ENCODING_EXCLUDE_SIGNATURE_SCRIPT then write_var_bytes []
   else write_var_bytes (signature_script i) ++ [sig_op_count i]) ++
  store_le 8 (sequence i).

Definition write_output (o : TransactionOutput) : mem :=
  store_le 8 (value o) ++ store_le 2 (spk_version (script_public_key o)) ++ write_var_bytes (script (script_public_key o)).

Definition write_transaction (tx : Transaction) (encoding_flags : Z) (include_mass_field : bool) : mem :=
  store_le 2 (tx_version tx) ++ write_len (length (inputs tx)) ++ concat (write_input encoding_flags <$> inputs tx) ++
  write_len (length (outputs tx)) ++ concat (write_output <$> outputs tx) ++
  store_le 8 (lock_time tx) ++ subnetwork_id tx ++ store_le 8 (gas tx) ++ write_var_bytes (payload tx) ++
  (if include_mass_field && (0 <? mass tx) then store_le 8 (mass tx) else []).

Definition id_flags (tx : Transaction) : Z := if is_coinbase tx then TX_ENCODING_FULL else TX_ENCODING_EXCLUDE_SIGNATURE_SCRIPT.

(** ** The Merkle tree *)

(** [usize::next_power_of_two] *)
Definition next_power_of_two (n : Z) : result Z := checked 64 (if n =? 0 then 1 else 2 ^ Z.log2_up n).

Definition get_at (merkles : list (option mem)) (i : nat) : result (option mem) :=
  match merkles !! i with Some h => Ok h | None => Fault end.
Definition set_at (merkles : list (option mem)) (i : nat) (h : option mem) : result (list (option mem)) :=
  match merkles !! i with Some _ => Ok (<[i := h]> merkles) | None => Fault end.

Section Hashing.
Context (blake2b : mem -> mem -> mem).

Definition tx_hash (tx : Transaction) (include_mass_field : bool) : mem :=
  blake2b (Json.Json.lit "TransactionHash") (write_transaction tx TX_ENCODING_FULL include_mass_field).
Definition tx_id (tx : Transaction) : mem := blake2b (Json.Json.lit "TransactionID") (write_transaction tx (id_flags tx) false).

Definition tx_finalize (tx : Transaction) : Transaction :=
  mk_tx (tx_version tx) (inputs tx) (outputs tx) (lock_time tx) (subnetwork_id tx) (gas tx) (payload tx) (mass tx) (tx_id tx).
Definition tx_new (version : Z) (inputs : list TransactionInput) (outputs : list TransactionOutput) (lock_time : Z) (subnetwork_id : mem)
  (gas : Z) (payload : mem) : Transaction :=
  tx_finalize (mk_tx version inputs outputs lock_time subnetwork_id gas payload 0 ZERO_HASH).

Definition merkle_hash (left right : mem) : mem := blake2b (Json.Json.lit "MerkleBranchHash") (left ++ right).

(** [for i in (0..vec_len - 1).step_by(2)], [n] times *)
Fixpoint merkle_loop (n : nat) (i offset : nat) (merkles : list (option mem)) : result (list (option mem)) :=
  match n with
  | O => Ok merkles
  | S n =>
      l ← get_at merkles i;
      merkles ← match l with
                | None => set_at merkles offset None
                | Some l => r ← get_at merkles (i + 1); set_at merkles offset (Some (merkle_hash l (default ZERO_HASH r)))
                end;
      merkle_loop n (i + 2) (offset + 1) merkles
  end.

Definition calc_merkle_root (hashes : list mem) : result mem :=
  match hashes with
  | [] => Ok ZERO_HASH
  | _ =>
      next_pot ← next_power_of_two (Z.of_nat (length hashes));
      double ← checked 64 (2 * next_pot);
      let vec_len := Z.to_nat (double - 1) in
      let merkles := (Some <$> hashes) ++ replicate (vec_len - length hashes) None in
      merkles ← merkle_loop (Z.to_nat next_pot - 1) 0 (Z.to_nat next_pot) merkles;
      match last merkles with Some (Some root) => Ok root | _ => Fault end
  end.

Definition calc_hash_merkle_root (txs : list Transaction) (include_mass_field : bool) : result mem :=
  calc_merkle_root ((fun tx => tx_hash tx include_mass_field) <$> txs).

End Hashing.

End Tx.
