(* ===== verification/TxProofs.v ===== *)
(** * Theorems on transactions

    The bytes that are hashed determine the transaction: all of it for the hash, all but
    the signatures for the id.  The Merkle root is that of the tree over the hashes, and
    two lists of the same length with one root are equal or show a collision. *)
From Stdlib Require Import Ascii String ZArith Lia.
From stdpp Require Import base numbers list list_numbers.
From S2P Require Import Prelude Memory Json Header Tx.
Import Header.Header Tx.Tx.
Open Scope list_scope.
Open Scope Z_scope.

Module TxProofs.

(** ** Preimages *)

Record input_ok (i : TransactionInput) : Prop := {
  io_id : length (transaction_id (previous_outpoint i)) = 32%nat; io_index : is_u32 (index (previous_outpoint i));
  io_script : Z.of_nat (length (signature_script i)) < 2 ^ 64; io_sequence : is_u64 (sequence i) }.
Record output_ok (o : TransactionOutput) : Prop := {
  oo_value : is_u64 (value o); oo_version : 0 <= spk_version (script_public_key o) < 2 ^ 16;
  oo_script : Z.of_nat (length (script (script_public_key o))) < 2 ^ 64 }.
Record tx_ok (tx : Transaction) : Prop := {
  to_version : 0 <= tx_version tx < 2 ^ 16; to_inputs : Z.of_nat (length (inputs tx)) < 2 ^ 64; to_input : Forall input_ok (inputs tx);
  to_outputs : Z.of_nat (length (outputs tx)) < 2 ^ 64; to_output : Forall output_ok (outputs tx); to_lock : is_u64 (lock_time tx);
  to_subnet : length (subnetwork_id tx) = 20%nat; to_gas : is_u64 (gas tx); to_payload : Z.of_nat (length (payload tx)) < 2 ^ 64;
  to_mass : is_u64 (mass tx) }.

(** An input without its signature *)
Definition unsigned_input (i : TransactionInput) : TransactionInput := mk_input (previous_outpoint i) [] (sequence i) 0.
(** What an encoding commits to: never the cached id, and the signature scripts, the
    operation counts and the mass only if they are included *)
Definition committed (signatures mass_field : bool) (tx : Transaction) : Transaction :=
  mk_tx (tx_version tx) (if signatures then inputs tx else unsigned_input <$> inputs tx) (outputs tx) (lock_time tx) (subnetwork_id tx) (gas tx) (payload tx)
    (if mass_field then mass tx else 0) [].

Lemma write_var_bytes_inj a b r s : Z.of_nat (length a) < 2 ^ 64 -> Z.of_nat (length b) < 2 ^ 64 ->
  write_var_bytes a ++ r = write_var_bytes b ++ s -> a = b /\ r = s.
Proof.
  intros Ha Hb E. unfold write_var_bytes in E. rewrite <- !app_assoc in E. apply write_len_inj in E as [El E]; [|done|done].
  by apply app_inj_1 in E.
Qed.

(** Lists of things that are written one after the other *)
Lemma written_inj {A B} (w : A -> mem) (ok : A -> Prop) (f : A -> B) : (forall x y r s, ok x -> ok y -> w x ++ r = w y ++ s -> f x = f y /\ r = s) ->
  forall a b r s, Forall ok a -> Forall ok b -> length a = length b -> concat (w <$> a) ++ r = concat (w <$> b) ++ s -> f <$> a = f <$> b /\ r = s.
Proof.
  intros Hw a. induction a as [|x a IH]; intros [|y b] r s Ha Hb Hl E; try done.
  apply Forall_cons in Ha as [Hx Ha]. apply Forall_cons in Hb as [Hy Hb]. cbn [fmap list_fmap concat] in E. rewrite <- !app_assoc in E.
  apply Hw in E as [Ef E]; [|done|done]. apply IH in E as [Ea ->]; [|done|done|by injection Hl]. cbn [fmap list_fmap]. by rewrite Ef, Ea.
Qed.

Lemma write_outpoint_inj a b r s : length (transaction_id a) = 32%nat -> length (transaction_id b) = 32%nat -> is_u32 (index a) -> is_u32 (index b) ->
  write_outpoint a ++ r = write_outpoint b ++ s -> a = b /\ r = s.
Proof.
  intros Ha Hb Ia Ib E. unfold write_outpoint in E. rewrite <- !app_assoc in E. apply app_inj_1 in E as [Et E]; [|lia].
  unfold is_u32 in *. apply store_le_inj in E as [Ei ->]; [|lia|lia|lia]. split; [|done]. destruct a, b. cbn in *. by subst.
Qed.

Lemma write_input_full_inj x y r s : input_ok x -> input_ok y ->
  write_input TX_ENCODING_FULL x ++ r = write_input TX_ENCODING_FULL y ++ s -> x = y /\ r = s.
Proof.
  intros [] [] E. unfold write_input in E. change (Z.land TX_ENCODING_FULL _ =? _) with false in E. cbn [app] in E.
  rewrite <- !app_assoc in E. apply write_outpoint_inj in E as [Eo E]; [|done..]. apply write_var_bytes_inj in E as [Es E]; [|done..].
  apply (app_inj_1 [sig_op_count x] [sig_op_count y]) in E as [Ec E]; [|done]. injection Ec as Ec. unfold is_u64 in *. apply store_le_inj in E as [Eq ->]; [|lia|lia|lia].
  split; [|done]. destruct x, y. cbn in *. by subst.
Qed.

Lemma write_input_unsigned_inj x y r s : input_ok x -> input_ok y ->
  write_input TX_ENCODING_EXCLUDE_SIGNATURE_SCRIPT x ++ r = write_input TX_ENCODING_EXCLUDE_SIGNATURE_SCRIPT y ++ s ->
  unsigned_input x = unsigned_input y /\ r = s.
Proof.
  intros [] [] E. unfold write_input in E. change (Z.land _ _ =? _) with true in E. cbn match in E.
  rewrite <- !app_assoc in E. apply write_outpoint_inj in E as [Eo E]; [|done..]. apply app_inv_head in E.
  unfold is_u64 in *. apply store_le_inj in E as [Eq ->]; [|lia|lia|lia]. split; [|done]. unfold unsigned_input. by rewrite Eo, Eq.
Qed.

Lemma write_output_inj x y r s : output_ok x -> output_ok y -> write_output x ++ r = write_output y ++ s -> x = y /\ r = s.
Proof.
  intros [] [] E. unfold write_output in E. rewrite <- !app_assoc in E. unfold is_u64 in *. apply store_le_inj in E as [Ev E]; [|lia|lia|lia].
  apply store_le_inj in E as [Es E]; [|lia|lia|lia]. apply write_var_bytes_inj in E as [Ec ->]; [|done..]. split; [|done].
  destruct x as [vx [kx sx]], y as [vy [ky sy]]. cbn in *. by subst.
Qed.

(** The part that all encodings share, given what the inputs determine *)
Lemma write_transaction_inj {B} flags (f : TransactionInput -> B) m a b :
  (forall x y r s, input_ok x -> input_ok y -> write_input flags x ++ r = write_input flags y ++ s -> f x = f y /\ r = s) -> tx_ok a -> tx_ok b ->
  write_transaction a flags m = write_transaction b flags m ->
  tx_version a = tx_version b /\ f <$> inputs a = f <$> inputs b /\ outputs a = outputs b /\ lock_time a = lock_time b /\
  subnetwork_id a = subnetwork_id b /\ gas a = gas b /\ payload a = payload b /\ (m = true -> mass a = mass b).
Proof.
  intros Hf [] [] E. unfold write_transaction in E. unfold is_u64 in *. apply store_le_inj in E as [Ev E]; [|lia|lia|lia].
  apply write_len_inj in E as [Eli E]; [|done..]. apply (written_inj _ input_ok f Hf) in E as [Ei E]; [|done..].
  apply write_len_inj in E as [Elo E]; [|done..]. apply (written_inj write_output output_ok id write_output_inj) in E as [Eo E]; [|done..].
  rewrite !list_fmap_id in Eo. apply store_le_inj in E as [El E]; [|lia|lia|lia]. apply app_inj_1 in E as [Es E]; [|lia].
  apply store_le_inj in E as [Eg E]; [|lia|lia|lia]. apply write_var_bytes_inj in E as [Ep E]; [|done..]. do 7 (split; [done|]). intros ->.
  cbn [andb] in E. destruct (Z.ltb_spec 0 (mass a)), (Z.ltb_spec 0 (mass b)); [|by apply (f_equal length) in E; rewrite length_store_le in E..|lia].
  rewrite <- (app_nil_r (store_le 8 (mass a))), <- (app_nil_r (store_le 8 (mass b))) in E. by apply store_le_inj in E as [? _]; [|lia|lia|lia].
Qed.

Lemma write_committed (signatures m : bool) tx : let flags := if signatures then TX_ENCODING_FULL else TX_ENCODING_EXCLUDE_SIGNATURE_SCRIPT in
  write_transaction (committed signatures m tx) flags m = write_transaction tx flags m.
Proof.
  destruct signatures; unfold write_transaction; cbn [committed tx_version inputs outputs lock_time subnetwork_id gas payload mass].
  - by destruct m.
  - rewrite length_fmap, <- list_fmap_compose. by destruct m.
Qed.

Lemma write_committed_inj (signatures m : bool) a b : let flags := if signatures then TX_ENCODING_FULL else TX_ENCODING_EXCLUDE_SIGNATURE_SCRIPT in
  tx_ok a -> tx_ok b -> write_transaction a flags m = write_transaction b flags m <-> committed signatures m a = committed signatures m b.
Proof.
  intros flags Ha Hb. split; intros E; [|unfold flags; rewrite <- (write_committed signatures m a), <- (write_committed signatures m b); by rewrite E].
  unfold committed. destruct signatures.
  - apply (write_transaction_inj _ id) in E as (E1 & E2 & E3 & E4 & E5 & E6 & E7 & E8); [|apply write_input_full_inj|done|done].
    rewrite !list_fmap_id in E2. rewrite E1, E2, E3, E4, E5, E6, E7. destruct m; [by rewrite E8|done].
  - apply (write_transaction_inj _ unsigned_input) in E as (E1 & E2 & E3 & E4 & E5 & E6 & E7 & E8); [|apply write_input_unsigned_inj|done|done].
    rewrite E1, E2, E3, E4, E5, E6, E7. destruct m; [by rewrite E8|done].
Qed.

Lemma id_flags_if tx : id_flags tx = if is_coinbase tx then TX_ENCODING_FULL else TX_ENCODING_EXCLUDE_SIGNATURE_SCRIPT.
Proof. done. Qed.

(** Without inputs the two encodings are one. *)
Lemma no_inputs_flags tx m : inputs tx = [] -> write_transaction tx TX_ENCODING_FULL m = write_transaction tx TX_ENCODING_EXCLUDE_SIGNATURE_SCRIPT m.
Proof. intros H. unfold write_transaction. by rewrite H. Qed.

Definition no_coinbase_inputs (tx : Transaction) : Prop := is_coinbase tx = true -> inputs tx = [].

Lemma id_kinds a b : tx_ok a -> tx_ok b -> is_coinbase a = true -> is_coinbase b = false -> inputs a = [] ->
  write_transaction a (id_flags a) false <> write_transaction b (id_flags b) false.
Proof.
  intros Ha Hb Ca Cb Ia E. rewrite !id_flags_if, Ca, Cb, (no_inputs_flags a) in E by done.
  apply (write_transaction_inj _ unsigned_input) in E as (_ & _ & _ & _ & E5 & _); [|apply write_input_unsigned_inj|done|done].
  unfold is_coinbase in Ca, Cb. rewrite E5 in Ca. congruence.
Qed.

(** C35: The bytes that are hashed bind the transaction.  With the mass field two
    transactions have the same preimage of the hash exactly if all fields but the cached
    id are equal, and without it exactly if all fields but the id and the mass are.  The
    preimages of the id are the same exactly if all but the mass is equal, and for
    transactions other than coinbases but the signature scripts and operation counts
    too.  For two coinbases, or two transactions that are none, this holds whatever
    inputs they have; a coinbase and another transaction differ in their preimages if the
    coinbase has no inputs, which the rules for transactions in isolation require.  The
    two preimages of a coinbase without mass are the same bytes. *)
Theorem tx_preimage_correct a b : tx_ok a -> tx_ok b ->
  (forall m, write_transaction a TX_ENCODING_FULL m = write_transaction b TX_ENCODING_FULL m <-> committed true m a = committed true m b) /\
  (is_coinbase a = is_coinbase b \/ no_coinbase_inputs a /\ no_coinbase_inputs b ->
   write_transaction a (id_flags a) false = write_transaction b (id_flags b) false <->
   is_coinbase a = is_coinbase b /\ committed (is_coinbase a) false a = committed (is_coinbase b) false b) /\
  (is_coinbase a = true -> mass a = 0 -> forall m, write_transaction a (id_flags a) false = write_transaction a TX_ENCODING_FULL m).
Proof.
  intros Ha Hb. split_and!.
  - intros m. by apply (write_committed_inj true).
  - intros Hk. destruct (decide (is_coinbase a = is_coinbase b)) as [Ec|Hne].
    + rewrite !id_flags_if, Ec. rewrite (write_committed_inj (is_coinbase b) false a b Ha Hb). split; [by split|by intros []].
    + split; [intros E|by intros []]. exfalso. destruct Hk as [?|[Ca Cb]]; [done|].
      destruct (is_coinbase a) eqn:Ka, (is_coinbase b) eqn:Kb; [done| | |done].
      * by apply (id_kinds a b Ha Hb Ka Kb (Ca Ka)).
      * by apply (id_kinds b a Hb Ha Kb Ka (Cb Kb)).
  - intros Ca Hm m. rewrite id_flags_if, Ca. unfold write_transaction. rewrite Hm. by destruct m.
Qed.

(** A coinbase with an input can have the preimage of the id in common with another
    transaction, so the condition on coinbases is needed. *)
Definition crossed_outpoint : TransactionOutpoint := mk_outpoint (replicate 32 0) 0.
Definition crossed_coinbase : Transaction := mk_tx 0 [mk_input crossed_outpoint [] 0 0] [] 0 SUBNETWORK_ID_COINBASE (2 ^ 56) [] 0 [].
Definition crossed_other : Transaction := mk_tx 0 [mk_input crossed_outpoint [] 0 0] [] 0 (0 :: 1 :: replicate 18 0) 0 [0] 0 [].

Lemma crossed_preimages : is_coinbase crossed_coinbase = true /\ is_coinbase crossed_other = false /\
  write_transaction crossed_coinbase (id_flags crossed_coinbase) false = write_transaction crossed_other (id_flags crossed_other) false.
Proof. split_and!; by vm_compute. Qed.

(** ** The Merkle root *)

Section Merkle.
Context (blake2b : mem -> mem -> mem).
Abbreviation H := (merkle_hash blake2b).

(** A node without a left child is missing, and a right child that is missing counts as
    zero. *)
Definition node (l r : option mem) : option mem := match l with Some a => Some (H a (default ZERO_HASH r)) | None => None end.

(** The tree of depth [d] over at most 2^d hashes *)
Fixpoint tree (d : nat) (l : list mem) : option mem :=
  match d with
  | O => head l
  | S d => node (tree d (take (2 ^ d) l)) (tree d (drop (2 ^ d) l))
  end.

(** *** Layers *)

Fixpoint pair_up (l : list (option mem)) : list (option mem) :=
  match l with x :: y :: l => node x y :: pair_up l | _ => [] end.

Fixpoint layers (d : nat) (l : list (option mem)) : list (option mem) :=
  match d with O => l | S d => l ++ layers d (pair_up l) end.

Lemma even_ind {A} (P : list A -> Prop) : P [] -> (forall x y l, P l -> P (x :: y :: l)) -> forall n l, length l = (2 * n)%nat -> P l.
Proof.
  intros H0 H2 n. induction n as [|n IH]; intros [|x [|y l]] Hl; cbn in Hl; try lia; [done|]. apply H2, IH. lia.
Qed.

Lemma length_pair_up n l : length l = (2 * n)%nat -> length (pair_up l) = n.
Proof. revert l. induction n as [|n IH]; intros [|x [|y l]] Hl; cbn in *; try lia. rewrite IH; lia. Qed.

Lemma get_at_app A x R i : i = length A -> get_at (A ++ x :: R) i = Ok x.
Proof. intros ->. unfold get_at. by rewrite lookup_app_r, Nat.sub_diag by lia. Qed.

Lemma set_at_app A x R i y : i = length A -> set_at (A ++ x :: R) i y = Ok (A ++ y :: R).
Proof. intros ->. unfold set_at. rewrite lookup_app_r, Nat.sub_diag by lia. cbn. by rewrite insert_app_r_alt, Nat.sub_diag by lia. Qed.

Lemma merkle_step n A x y l B r R : let M := A ++ x :: y :: l ++ B in
  merkle_loop blake2b (S n) (length A) (length M) (M ++ r :: R) =
  merkle_loop blake2b n (length A + 2) (length M + 1) (M ++ node x y :: R).
Proof.
  intros M. cbn [merkle_loop]. assert (get_at (M ++ r :: R) (length A) = Ok x) as ->.
  { unfold M. rewrite <- app_assoc. by apply get_at_app. }
  rewrite ok_bind. destruct x as [a|]; cbn [node].
  - assert (get_at (M ++ r :: R) (length A + 1) = Ok y) as ->.
    { unfold M. replace (A ++ Some a :: y :: l ++ B) with ((A ++ [Some a]) ++ y :: l ++ B) by by rewrite <- app_assoc.
      rewrite <- app_assoc. apply get_at_app. rewrite length_app. cbn. lia. }
    by rewrite ok_bind, set_at_app, ok_bind.
  - by rewrite set_at_app, ok_bind.
Qed.

(** One layer *)
Lemma merkle_layer m : forall n A l B R, length l = (2 * m)%nat -> (m <= length R)%nat ->
  merkle_loop blake2b (m + n) (length A) (length (A ++ l ++ B)) (A ++ l ++ B ++ R) =
  merkle_loop blake2b n (length A + 2 * m) (length (A ++ l ++ B) + m) (A ++ l ++ B ++ pair_up l ++ drop m R).
Proof.
  induction m as [|m IH]; intros n A l B R Hl HR.
  { destruct l; [|done]. by rewrite Nat.mul_0_r, !Nat.add_0_r. }
  destruct l as [|x [|y l]]; cbn in Hl; try lia. destruct R as [|r R]; [cbn in HR; lia|]. cbn [length] in HR.
  pose proof (merkle_step (m + n) A x y l B r R) as E. cbn zeta in E. rewrite <- !app_assoc in E. cbn [app] in E |- *.
  rewrite <- !app_assoc in E. rewrite Nat.add_succ_l. rewrite E. clear E.
  assert (forall T : Type, forall u v : list T, length (u ++ v) = (length u + length v)%nat) as La by (intros; apply length_app).
  specialize (IH n (A ++ [x; y]) l (B ++ [node x y]) R ltac:(lia) ltac:(lia)).
  etransitivity; [|etransitivity; [exact IH|]]; cbn [pair_up drop].
  - f_equal; [by rewrite La|repeat (rewrite La; cbn [length app]); lia|by rewrite <- !app_assoc].
  - f_equal; [repeat (rewrite La; cbn [length app]); lia|repeat (rewrite La; cbn [length app]); lia|by rewrite <- !app_assoc].
Qed.

Lemma merkle_layers d : forall A l R, length l = (2 ^ d)%nat -> length R = (2 ^ d - 1)%nat ->
  merkle_loop blake2b (2 ^ d - 1) (length A) (length (A ++ l)) (A ++ l ++ R) = Ok (A ++ layers d l).
Proof.
  induction d as [|d IH]; intros A l R Hl HR.
  { destruct R; [|cbn in HR; lia]. by rewrite app_nil_r. }
  assert (2 ^ S d - 1 = 2 ^ d + (2 ^ d - 1))%nat as E by (cbn; lia). rewrite E in *.
  pose proof (merkle_layer (2 ^ d) (2 ^ d - 1) A l [] R) as L. rewrite !app_nil_r in L. cbn [app] in L. rewrite L; [|cbn in Hl; lia|lia]. clear L.
  assert (length l = 2 * 2 ^ d)%nat as Hl' by (cbn in Hl; lia).
  replace (length A + 2 * 2 ^ d)%nat with (length (A ++ l)) by (rewrite length_app; lia).
  specialize (IH (A ++ l) (pair_up l) (drop (2 ^ d) R) (length_pair_up _ _ Hl') ltac:(rewrite length_drop; lia)).
  rewrite (length_app (A ++ l)), (length_pair_up _ _ Hl'), <- !app_assoc in IH. rewrite IH. cbn [layers]. done.
Qed.

(** *** From layers to the tree *)

Fixpoint root (d : nat) (l : list (option mem)) : option mem :=
  match d with O => default None (head l) | S d => root d (pair_up l) end.

Lemma last_layers d : forall l, length l = (2 ^ d)%nat -> last (layers d l) = Some (root d l).
Proof.
  induction d as [|d IH]; intros l Hl; cbn [layers root].
  - destruct l as [|x [|]]; try (cbn in Hl; lia). done.
  - assert (length l = 2 * 2 ^ d)%nat as Hl' by (cbn in Hl; lia). pose proof (length_pair_up _ _ Hl') as Hp.
    rewrite last_app, (IH _ Hp). done.
Qed.

Lemma pair_up_app n l1 l2 : length l1 = (2 * n)%nat -> pair_up (l1 ++ l2) = pair_up l1 ++ pair_up l2.
Proof. apply (even_ind (fun l1 => pair_up (l1 ++ l2) = pair_up l1 ++ pair_up l2)); [done|]. intros x y l IH. cbn. by rewrite IH. Qed.

Lemma root_split d : forall l1 l2, length l1 = (2 ^ d)%nat -> length l2 = (2 ^ d)%nat -> root (S d) (l1 ++ l2) = node (root d l1) (root d l2).
Proof.
  induction d as [|d IH]; intros l1 l2 H1 H2.
  - destruct l1 as [|x [|]], l2 as [|y [|]]; try (cbn in *; lia). done.
  - cbn [root]. rewrite (pair_up_app (2 ^ d)) by (cbn in H1; lia). apply (IH (pair_up l1) (pair_up l2)); apply length_pair_up; cbn in *; lia.
Qed.

Definition pad (d : nat) (l : list mem) : list (option mem) := (Some <$> l) ++ replicate (2 ^ d - length l) None.

Lemma length_pad_leaves d l : (length l <= 2 ^ d)%nat -> length (pad d l) = (2 ^ d)%nat.
Proof. intros Hl. unfold pad. rewrite length_app, length_fmap, length_replicate. lia. Qed.

Lemma root_tree d : forall l, (length l <= 2 ^ d)%nat -> root d (pad d l) = tree d l.
Proof.
  induction d as [|d IH]; intros l Hl.
  - destruct l as [|x [|]]; [done|done|cbn in Hl; lia].
  - assert (pad (S d) l = pad d (take (2 ^ d) l) ++ pad d (drop (2 ^ d) l)) as ->.
    { unfold pad. rewrite fmap_take, fmap_drop, length_take, length_drop. cbn [Nat.pow]. destruct (Nat.le_gt_cases (length l) (2 ^ d)) as [Hle|Hgt].
      - rewrite (take_ge (Some <$> l)), (drop_ge (Some <$> l)) by (rewrite length_fmap; lia). cbn [app]. rewrite <- app_assoc, <- replicate_add. do 2 f_equal. lia.
      - replace (2 ^ d - (2 ^ d `min` length l))%nat with 0%nat by lia. cbn [replicate]. rewrite app_nil_r, app_assoc, take_drop. do 2 f_equal. lia. }
    cbn [tree Nat.pow] in *. rewrite root_split, !IH; [done|..]; rewrite ?length_pad_leaves; rewrite ?length_take, ?length_drop; lia.
Qed.

Lemma tree_some d l : l <> [] -> exists r, tree d l = Some r.
Proof.
  revert l. induction d as [|d IH]; intros l Hl; cbn [tree]; [destruct l; [done|by eexists]|].
  destruct (IH (take (2 ^ d) l)) as [r ->]; [|by eexists]. destruct l as [|x l]; [done|].
  pose proof (Nat.pow_nonzero 2 d). destruct (2 ^ d)%nat; [lia|done].
Qed.

Lemma calc_merkle_root_tree l : l <> [] -> Z.of_nat (length l) <= 2 ^ 62 ->
  exists d r, (length l <= 2 ^ d)%nat /\ calc_merkle_root blake2b l = Ok r /\ tree d l = Some r /\ d = Z.to_nat (Z.log2_up (Z.of_nat (length l))).
Proof.
  intros Hne Hl. set (n := Z.of_nat (length l)) in *. assert (0 < n) as Hn by (destruct l; [done|unfold n; cbn; lia]).
  pose proof (Z.log2_up_nonneg n). set (d := Z.to_nat (Z.log2_up n)).
  assert (Z.of_nat (2 ^ d) = 2 ^ Z.log2_up n) as Hp by (rewrite Nat2Z.inj_pow; unfold d; rewrite Z2Nat.id; [done|lia]).
  assert (n <= 2 ^ Z.log2_up n) as Hle by (destruct (Z.eq_dec n 1) as [->|]; [done|apply Z.log2_up_spec; lia]).
  assert (2 ^ Z.log2_up n <= 2 ^ 62) as Hb.
  { apply Z.pow_le_mono_r; [lia|]. rewrite <- (Z.log2_up_pow2 62) by lia. by apply Z.log2_up_le_mono. }
  destruct (tree_some d l Hne) as [r Hr]. exists d, r. assert (length l <= 2 ^ d)%nat as Hd by lia. split; [done|]. split; [|done].
  unfold calc_merkle_root, next_power_of_two. destruct l as [|x l']; [done|]. set (l := x :: l') in *.
  fold n. replace (n =? 0) with false by (symmetry; apply Z.eqb_neq; lia). rewrite checked_ok, ok_bind by lia. rewrite checked_ok, ok_bind by lia.
  assert (Z.to_nat (2 ^ Z.log2_up n) = 2 ^ d)%nat as -> by lia.
  replace (Z.to_nat (2 * 2 ^ Z.log2_up n - 1) - length l)%nat with ((2 ^ d - length l) + (2 ^ d - 1))%nat by (unfold l in *; lia).
  rewrite replicate_add, app_assoc. fold (pad d l).
  pose proof (merkle_layers d [] (pad d l) (replicate (2 ^ d - 1) None) (length_pad_leaves d l Hd) (length_replicate _ _)) as E.
  cbn [app length] in E. rewrite (length_pad_leaves d l Hd) in E. rewrite E, ok_bind, last_layers, root_tree, Hr by (done || by apply length_pad_leaves). done.
Qed.

(** *** Collisions *)

Context (digest : forall key data, length (blake2b key data) = 32%nat).

(** The strings that are hashed for the nodes of a tree, in a fixed order *)
Fixpoint branches (d : nat) (l : list mem) : list mem :=
  match d with
  | O => []
  | S d =>
      branches d (take (2 ^ d) l) ++ branches d (drop (2 ^ d) l) ++
      match tree d (take (2 ^ d) l) with Some x => [x ++ default ZERO_HASH (tree d (drop (2 ^ d) l))] | None => [] end
  end.

(** Different strings at the same place of two lists, hashed to the same *)
Definition collide (key : mem) (us vs : list mem) : Prop := exists i u v, us !! i = Some u /\ vs !! i = Some v /\ u <> v /\ blake2b key u = blake2b key v.

Lemma collide_app_l key us vs us' vs' : collide key us vs -> collide key (us ++ us') (vs ++ vs').
Proof. intros (i & u & v & Hu & Hv & ?). exists i, u, v. split_and!; [by apply lookup_app_l_Some..|apply H|apply H]. Qed.

Lemma collide_app_r key us vs us' vs' : length us = length vs -> collide key us' vs' -> collide key (us ++ us') (vs ++ vs').
Proof.
  intros Hl (i & u & v & Hu & Hv & Hne & E). exists (length us + i)%nat, u, v. split_and!; [| |done|done]; [|rewrite Hl]; rewrite lookup_app_r by lia.
  - by replace (length us + i - length us)%nat with i by lia.
  - by replace (length vs + i - length vs)%nat with i by lia.
Qed.

Lemma take_pow_nonempty d (l : list mem) : l <> [] -> take (2 ^ d) l <> [].
Proof. pose proof (Nat.pow_nonzero 2 d). destruct l; [done|]. destruct (2 ^ d)%nat; [lia|done]. Qed.

Lemma length_branches d : forall a b, length a = length b -> length (branches d a) = length (branches d b).
Proof.
  induction d as [|d IH]; intros a b Hl; [done|]. cbn [branches]. rewrite !length_app. f_equal; [apply IH; rewrite !length_take; lia|].
  f_equal; [apply IH; rewrite !length_drop; lia|]. destruct a as [|x a]; [by destruct b|]. destruct b as [|y b]; [done|].
  destruct (tree_some d (take (2 ^ d) (x :: a))) as [r ->]; [by apply take_pow_nonempty|].
  destruct (tree_some d (take (2 ^ d) (y :: b))) as [r' ->]; [by apply take_pow_nonempty|]. done.
Qed.

Lemma tree_length d : forall l r, Forall (fun h => length h = 32%nat) l -> tree d l = Some r -> length r = 32%nat.
Proof.
  destruct d as [|d]; intros l r Hl E; cbn [tree] in E.
  - destruct Hl; [done|]. by injection E as <-.
  - unfold node in E. destruct (tree d (take (2 ^ d) l)); [|done]. injection E as <-. apply digest.
Qed.

(** Two trees of the same shape with the same root *)
Lemma tree_binding d : forall a b, length a = length b -> (length a <= 2 ^ d)%nat -> Forall (fun h => length h = 32%nat) a -> Forall (fun h => length h = 32%nat) b ->
  tree d a = tree d b -> a = b \/ collide (Json.Json.lit "MerkleBranchHash") (branches d a) (branches d b).
Proof.
  induction d as [|d IH]; intros a b Hl Hd Fa Fb E; cbn [tree] in E.
  - destruct a as [|x [|]], b as [|y [|]]; cbn in *; try lia; [by left|]. left. by injection E as <-.
  - destruct (decide (a = [])) as [->|Ha]; [destruct b; [by left|done]|]. assert (Hb : b <> []) by (destruct a, b; done).
    destruct (tree_some d (take (2 ^ d) a)) as [r Er]; [by apply take_pow_nonempty|]. destruct (tree_some d (take (2 ^ d) b)) as [r' Er']; [by apply take_pow_nonempty|].
    assert (Hlt : length (branches d (take (2 ^ d) a)) = length (branches d (take (2 ^ d) b))) by (apply length_branches; rewrite !length_take; lia).
    assert (Hld : length (branches d (drop (2 ^ d) a)) = length (branches d (drop (2 ^ d) b))) by (apply length_branches; rewrite !length_drop; lia).
    cbn [branches]. rewrite Er, Er' in E |- *. cbn [node] in E. injection E as E. unfold merkle_hash in E. cbn [Nat.pow] in Hd.
    destruct (decide (r ++ default ZERO_HASH (tree d (drop (2 ^ d) a)) = r' ++ default ZERO_HASH (tree d (drop (2 ^ d) b)))) as [Ep|Hne].
    2: { right. do 2 (apply collide_app_r; [done|]). by exists 0%nat, (r ++ default ZERO_HASH (tree d (drop (2 ^ d) a))), (r' ++ default ZERO_HASH (tree d (drop (2 ^ d) b))). }
    apply app_inj_1 in Ep as [-> Ed]; [|by rewrite (tree_length d (take (2 ^ d) a) r), (tree_length d (take (2 ^ d) b) r') by (done || by apply Forall_take)].
    destruct (IH (take (2 ^ d) a) (take (2 ^ d) b)) as [E1|Hc]; [rewrite !length_take; lia|rewrite length_take; lia|by apply Forall_take..|by rewrite Er, Er'| |].
    2: { right. by apply collide_app_l. }
    assert (tree d (drop (2 ^ d) a) = tree d (drop (2 ^ d) b)) as E2.
    { assert (Hdl : length (drop (2 ^ d) a) = length (drop (2 ^ d) b)) by (rewrite !length_drop; lia).
      destruct (decide (drop (2 ^ d) a = [])) as [Ea|Na]; [rewrite Ea in Hdl |- *; by destruct (drop (2 ^ d) b)|].
      assert (Nb : drop (2 ^ d) b <> []) by (destruct (drop (2 ^ d) a), (drop (2 ^ d) b); done).
      destruct (tree_some d _ Na) as [t Et], (tree_some d _ Nb) as [t' Et']. rewrite Et, Et' in *. cbn in Ed. by subst. }
    destruct (IH (drop (2 ^ d) a) (drop (2 ^ d) b)) as [E3|Hc]; [rewrite !length_drop; lia|rewrite length_drop; lia|by apply Forall_drop..|done| |].
    + left. by rewrite <- (take_drop (2 ^ d) a), <- (take_drop (2 ^ d) b), E1, E3.
    + right. apply collide_app_r; [done|]. by apply collide_app_l.
Qed.

(** Hashes of the same transactions, or two preimages with the same hash *)
Lemma hashes_binding m : forall txs txs', length txs = length txs' -> Forall tx_ok txs -> Forall tx_ok txs' ->
  (fun tx => tx_hash blake2b tx m) <$> txs = (fun tx => tx_hash blake2b tx m) <$> txs' ->
  committed true m <$> txs = committed true m <$> txs' \/
  collide (Json.Json.lit "TransactionHash") ((fun tx => write_transaction tx TX_ENCODING_FULL m) <$> txs) ((fun tx => write_transaction tx TX_ENCODING_FULL m) <$> txs').
Proof.
  intros txs. induction txs as [|x txs IH]; intros [|y txs'] Hl Hx Hy E; try done; [by left|].
  apply Forall_cons in Hx as [Hx Fx]. apply Forall_cons in Hy as [Hy Fy]. cbn [fmap list_fmap] in E |- *. injection E as E1 E2.
  destruct (decide (write_transaction x TX_ENCODING_FULL m = write_transaction y TX_ENCODING_FULL m)) as [Ep|Hne].
  - destruct (IH txs') as [Ec|(i & u & v & Hu & Hv & Hc)]; [by injection Hl|done|done|done| |].
    + left. f_equal; [|done]. by apply (write_committed_inj true m x y Hx Hy).
    + right. by exists (S i), u, v.
  - right. by exists 0%nat, (write_transaction x TX_ENCODING_FULL m), (write_transaction y TX_ENCODING_FULL m).
Qed.

End Merkle.

(** The depth of the tree over the hashes of [n] transactions *)
Definition merkle_depth (n : nat) : nat := Z.to_nat (Z.log2_up (Z.of_nat n)).

(** C36: The Merkle root of the transactions of a block never fails; that of none is zero,
    and otherwise it is the root of the tree of the least depth that holds their hashes,
    in which subtrees without leaves count as zero.  With a hash function of 32 bytes the
    root binds a list of given length: for two lists with the same root, the transactions
    are the same (up to their masses, if these are not included), or at one place of the
    two lists different transactions are written that BLAKE2b does not tell apart, or at
    one place of the two trees it hashes different pairs of children to the same. *)
Theorem merkle_root_correct blake2b m txs txs' : (forall key data, length (blake2b key data) = 32%nat) -> Z.of_nat (length txs) <= 2 ^ 62 ->
  Forall tx_ok txs -> Forall tx_ok txs' ->
  let hash := fun tx => tx_hash blake2b tx m in let write := fun tx => write_transaction tx TX_ENCODING_FULL m in let d := merkle_depth (length txs) in
  exists r, calc_hash_merkle_root blake2b txs m = Ok r /\
    (if decide (txs = []) then r = ZERO_HASH else tree blake2b d (hash <$> txs) = Some r) /\
    (length txs' = length txs -> calc_hash_merkle_root blake2b txs' m = Ok r ->
     committed true m <$> txs = committed true m <$> txs' \/
     collide blake2b (Json.Json.lit "TransactionHash") (write <$> txs) (write <$> txs') \/
     collide blake2b (Json.Json.lit "MerkleBranchHash") (branches blake2b d (hash <$> txs)) (branches blake2b d (hash <$> txs'))).
Proof.
  intros Hdig Hl Fx Fy hash write d. unfold calc_hash_merkle_root. fold hash. set (hashes := hash <$> txs). assert (length hashes = length txs) as Hh by apply length_fmap.
  destruct (decide (txs = [])) as [->|Hne].
  { exists ZERO_HASH. split; [done|]. split; [done|]. intros Hl' _. destruct txs'; [by left|done]. }
  assert (hashes <> []) as Hne' by (intros E; apply fmap_nil_inv in E; done).
  destruct (calc_merkle_root_tree blake2b hashes Hne') as (d0 & r & Hd & E & Ht & ->); [by rewrite Hh|]. rewrite Hh in Hd, Ht. change (tree blake2b d hashes = Some r) in Ht.
  exists r. split; [done|]. split; [done|]. intros Hl' E'. set (hashes' := hash <$> txs') in *.
  assert (length hashes' = length txs) as Hh' by (unfold hashes'; rewrite length_fmap; lia).
  destruct (calc_merkle_root_tree blake2b hashes') as (d' & r' & _ & E'' & Ht' & ->); [intros Eh; rewrite Eh in Hh'; cbn in Hh'; destruct txs; done|lia|].
  rewrite Hh' in Ht'. change (tree blake2b d hashes' = Some r') in Ht'. assert (r' = r) as -> by congruence.
  assert (Hf : forall l, Forall (fun h => length h = 32%nat) (hash <$> l)) by (intros l; apply Forall_fmap, Forall_true; intros x; apply Hdig).
  destruct (tree_binding blake2b Hdig d hashes hashes' ltac:(lia) ltac:(by rewrite Hh) (Hf txs) (Hf txs') (eq_trans Ht (eq_sym Ht'))) as [Eh|?]; [|by right; right].
  destruct (hashes_binding blake2b m txs txs' ltac:(lia) Fx Fy Eh) as [?|?]; [by left|by right; left].
Qed.

(** ** Examples *)

Definition small_tx (amount : Z) : Transaction := mk_tx 0 [] [mk_output amount (mk_spk 0 [1])] 0 SUBNETWORK_ID_NATIVE 0 [] 0 [].
Definition small_coinbase (amount : Z) : Transaction := mk_tx 0 [mk_input crossed_outpoint [5] 7 1] [mk_output amount (mk_spk 0 [1])] 0 SUBNETWORK_ID_COINBASE 0 [] 0 [].
(** A hash function of 32 bytes *)
Definition small_hash (key data : mem) : mem := take 32 (data ++ replicate 32 0).

Lemma small_tx_ok amount : is_u64 amount -> tx_ok (small_tx amount).
Proof. intros Ha. unfold is_u64 in *. split; unfold is_u64; cbn; try lia; repeat constructor; unfold is_u64; cbn; lia. Qed.

Lemma small_coinbase_ok amount : is_u64 amount -> tx_ok (small_coinbase amount).
Proof. intros Ha. unfold is_u64 in *. split; unfold is_u64; cbn; try lia; repeat constructor; unfold is_u64, is_u32; cbn; lia. Qed.

Lemma small_hash_length key data : length (small_hash key data) = 32%nat.
Proof. unfold small_hash. rewrite length_take, length_app, length_replicate. lia. Qed.

(** Two coinbases with an input *)
Lemma tx_preimage_correct_witness :
  write_transaction (small_coinbase 1) (id_flags (small_coinbase 1)) false = write_transaction (small_coinbase 2) (id_flags (small_coinbase 2)) false <->
  is_coinbase (small_coinbase 1) = is_coinbase (small_coinbase 2) /\
  committed (is_coinbase (small_coinbase 1)) false (small_coinbase 1) = committed (is_coinbase (small_coinbase 2)) false (small_coinbase 2).
Proof. apply tx_preimage_correct; [apply small_coinbase_ok; unfold is_u64; lia..|]. by left. Defined.

Lemma merkle_root_correct_witness : exists r, calc_hash_merkle_root small_hash [small_tx 1; small_tx 2; small_tx 3] false = Ok r /\
  tree small_hash 2 ((fun tx => tx_hash small_hash tx false) <$> [small_tx 1; small_tx 2; small_tx 3]) = Some r.
Proof.
  destruct (merkle_root_correct small_hash false [small_tx 1; small_tx 2; small_tx 3] [] small_hash_length) as (r & E & Ht & _).
  - cbn. lia.
  - repeat apply Forall_cons_2; [apply small_tx_ok; unfold is_u64; lia..|constructor].
  - constructor.
  - exists r. split; [exact E|exact Ht].
Defined.

End TxProofs.
