(* ===== verification/Coinbase.v ===== *)
(** * Coinbase transactions (consensus/src/processes/coinbase.rs)

    The subsidy of a block as a function of its DAA score, the payload of the coinbase
    transaction, and the outputs that pay the blocks of a mergeset. *)
From Stdlib Require Import ZArith Lia.
From stdpp Require Import base numbers list list_numbers gmap.
From S2P Require Import Prelude Memory Tx Ghostdag.
Import Tx.Tx.
Import Ghostdag.Ghostdag.
Open Scope Z_scope.

Module Coinbase.

Definition LENGTH_OF_BLUE_SCORE : Z := 8.
Definition LENGTH_OF_SUBSIDY : Z := 8.
Definition LENGTH_OF_SCRIPT_PUB_KEY_VERSION : Z := 2.
Definition LENGTH_OF_SCRIPT_PUB_KEY_LENGTH : Z := 1.
Definition MIN_PAYLOAD_LENGTH : Z :=
  LENGTH_OF_BLUE_SCORE + LENGTH_OF_SUBSIDY + LENGTH_OF_SCRIPT_PUB_KEY_VERSION + LENGTH_OF_SCRIPT_PUB_KEY_LENGTH.
Definition SECONDS_PER_MONTH : Z := 556920.
Definition SOMPI_PER_KASPA : Z := 100000000.
Definition MAX_SOMPI : Z := 100000000 * SOMPI_PER_KASPA.
Definition TX_VERSION : Z := 0.

Definition SUBSIDY_BY_MONTH_TABLE : list Z :=
  [44000000000; 41530469757; 39199543598; 36999442271; 34922823143; 32962755691; 31112698372; 29366476791; 27718263097; 26162556530; 24694165062;
   23308188075; 22000000000; 20765234878; 19599771799; 18499721135; 17461411571; 16481377845; 15556349186; 14683238395; 13859131548; 13081278265;
   12347082531; 11654094037; 11000000000; 10382617439; 9799885899; 9249860567; 8730705785; 8240688922; 7778174593; 7341619197; 6929565774; 6540639132;
   6173541265; 5827047018; 5500000000; 5191308719; 4899942949; 4624930283; 4365352892; 4120344461; 3889087296; 3670809598; 3464782887; 3270319566;
   3086770632; 2913523509; 2750000000; 2595654359; 2449971474; 2312465141; 2182676446; 2060172230; 1944543648; 1835404799; 1732391443; 1635159783;
   1543385316; 1456761754; 1375000000; 1297827179; 1224985737; 1156232570; 1091338223; 1030086115; 972271824; 917702399; 866195721; 817579891;
   771692658; 728380877; 687500000; 648913589; 612492868; 578116285; 545669111; 515043057; 486135912; 458851199; 433097860; 408789945; 385846329;
   364190438; 343750000; 324456794; 306246434; 289058142; 272834555; 257521528; 243067956; 229425599; 216548930; 204394972; 192923164; 182095219;
   171875000; 162228397; 153123217; 144529071; 136417277; 128760764; 121533978; 114712799; 108274465; 102197486; 96461582; 91047609; 85937500; 81114198;
   76561608; 72264535; 68208638; 64380382; 60766989; 57356399; 54137232; 51098743; 48230791; 45523804; 42968750; 40557099; 38280804; 36132267; 34104319;
   32190191; 30383494; 28678199; 27068616; 25549371; 24115395; 22761902; 21484375; 20278549; 19140402; 18066133; 17052159; 16095095; 15191747; 14339099;
   13534308; 12774685; 12057697; 11380951; 10742187; 10139274; 9570201; 9033066; 8526079; 8047547; 7595873; 7169549; 6767154; 6387342; 6028848; 5690475;
   5371093; 5069637; 4785100; 4516533; 4263039; 4023773; 3797936; 3584774; 3383577; 3193671; 3014424; 2845237; 2685546; 2534818; 2392550; 2258266;
   2131519; 2011886; 1898968; 1792387; 1691788; 1596835; 1507212; 1422618; 1342773; 1267409; 1196275; 1129133; 1065759; 1005943; 949484; 896193; 845894;
   798417; 753606; 711309; 671386; 633704; 598137; 564566; 532879; 502971; 474742; 448096; 422947; 399208; 376803; 355654; 335693; 316852; 299068;
   282283; 266439; 251485; 237371; 224048; 211473; 199604; 188401; 177827; 167846; 158426; 149534; 141141; 133219; 125742; 118685; 112024; 105736;
   99802; 94200; 88913; 83923; 79213; 74767; 70570; 66609; 62871; 59342; 56012; 52868; 49901; 47100; 44456; 41961; 39606; 37383; 35285; 33304; 31435;
   29671; 28006; 26434; 24950; 23550; 22228; 20980; 19803; 18691; 17642; 16652; 15717; 14835; 14003; 13217; 12475; 11775; 11114; 10490; 9901; 9345;
   8821; 8326; 7858; 7417; 7001; 6608; 6237; 5887; 5557; 5245; 4950; 4672; 4410; 4163; 3929; 3708; 3500; 3304; 3118; 2943; 2778; 2622; 2475; 2336; 2205;
   2081; 1964; 1854; 1750; 1652; 1559; 1471; 1389; 1311; 1237; 1168; 1102; 1040; 982; 927; 875; 826; 779; 735; 694; 655; 618; 584; 551; 520; 491; 463;
   437; 413; 389; 367; 347; 327; 309; 292; 275; 260; 245; 231; 218; 206; 194; 183; 173; 163; 154; 146; 137; 130; 122; 115; 109; 103; 97; 91; 86; 81; 77;
   73; 68; 65; 61; 57; 54; 51; 48; 45; 43; 40; 38; 36; 34; 32; 30; 28; 27; 25; 24; 22; 21; 20; 19; 18; 17; 16; 15; 14; 13; 12; 12; 11; 10; 10; 9; 9; 8;
   8; 7; 7; 6; 6; 6; 5; 5; 5; 4; 4; 4; 4; 3; 3; 3; 3; 3; 2; 2; 2; 2; 2; 2; 2; 1; 1; 1; 1; 1; 1; 1; 1; 1; 1; 1; 1; 0].

(** ** Subsidy *)

(** [ForkedParam::before] and [after], with the marks for forks that are always or never
    active *)
Definition before (p : ForkedParam) : Z := if activation p =? 0 then post p else pre p.
Definition after (p : ForkedParam) : Z := if activation p =? 2 ^ 64 - 1 then pre p else post p.

Record CoinbaseManager := mk_manager {
  coinbase_payload_script_public_key_max_len : Z; max_coinbase_payload_len : Z; deflationary_phase_daa_score : Z;
  pre_deflationary_phase_base_subsidy : Z; bps : ForkedParam; subsidy_by_month_table_before : list Z; subsidy_by_month_table_after : list Z;
  crescendo_activation_daa_score : Z }.

Definition div (a b : Z) : result Z := if b =? 0 then Fault else Ok (a / b).
Definition div_ceil (a b : Z) : result Z := q ← div a b; Ok (if 0 <? a mod b then q + 1 else q).

(** [iter().map(|v| v * SECONDS_PER_MONTH).sum()] in 128 bits *)
Fixpoint sum128 (acc : Z) (l : list Z) : result Z :=
  match l with
  | [] => Ok acc
  | v :: l => x ← checked 128 (v * SECONDS_PER_MONTH); acc ← checked 128 (acc + x); sum128 acc l
  end.

Definition new_emission_divisor (deflationary_phase_daa_score pre_deflationary_phase_base_subsidy : Z) : result Z :=
  let target_total_sompi := 100000000 * SOMPI_PER_KASPA in
  pre_deflation_total ← checked 128 (pre_deflationary_phase_base_subsidy * deflationary_phase_daa_score);
  deflation_total ← sum128 0 SUBSIDY_BY_MONTH_TABLE;
  scheduled_total ← checked 128 (pre_deflation_total + deflation_total);
  if scheduled_total <=? target_total_sompi then Ok 1 else q ← div_ceil scheduled_total target_total_sompi; Ok (u64 q).

Definition scaled_table (emission_divisor rate : Z) : result (list Z) :=
  mapM (fun v => x ← div_ceil v emission_divisor; div_ceil x rate) SUBSIDY_BY_MONTH_TABLE.

Definition new (script_max_len payload_max_len deflationary_phase_daa_score pre_deflationary_phase_base_subsidy : Z) (bps : ForkedParam) :
  result CoinbaseManager :=
  emission_divisor ← new_emission_divisor deflationary_phase_daa_score pre_deflationary_phase_base_subsidy;
  scaled_pre_deflationary_base ← div_ceil pre_deflationary_phase_base_subsidy emission_divisor;
  table_before ← scaled_table emission_divisor (before bps);
  table_after ← scaled_table emission_divisor (after bps);
  Ok (mk_manager script_max_len payload_max_len deflationary_phase_daa_score scaled_pre_deflationary_base bps table_before table_after (activation bps)).

(** [Params::bps] and the parameters of the main network *)
Definition params_bps (prior_target_time_per_block target_time_per_block crescendo_activation : Z) : result ForkedParam :=
  a ← div 1000 prior_target_time_per_block; b ← div 1000 target_time_per_block; Ok (mk_forked a b crescendo_activation).

Definition mainnet_manager : result CoinbaseManager :=
  bps ← params_bps 1000 100 110165000;
  new 150 204 (15778800 - 259200) 50000000000 bps.

Definition subsidy_month (m : CoinbaseManager) (daa_score : Z) : result Z :=
  let deflation := deflationary_phase_daa_score m in let crescendo := crescendo_activation_daa_score m in
  seconds ←
    (if crescendo <? deflation then d ← checked 64 (daa_score - deflation); div d (after (bps m))
     else if daa_score <? crescendo then d ← checked 64 (daa_score - deflation); div d (before (bps m))
     else d1 ← checked 64 (crescendo - deflation); x ← div d1 (before (bps m));
          d2 ← checked 64 (daa_score - crescendo); y ← div d2 (after (bps m));
          checked 64 (x + y));
  Ok (seconds / SECONDS_PER_MONTH).

Definition calc_block_subsidy (m : CoinbaseManager) (daa_score : Z) : result Z :=
  if daa_score <? deflationary_phase_daa_score m then Ok (pre_deflationary_phase_base_subsidy m)
  else
    month ← subsidy_month m daa_score;
    let table := if is_active (activation (bps m)) daa_score then subsidy_by_month_table_after m else subsidy_by_month_table_before m in
    unwrap (table !! Z.to_nat (Z.min month (Z.of_nat (length table) - 1))).

(** The schedule for one block per second that the tests compare with *)
Definition legacy_calc_block_subsidy (m : CoinbaseManager) (daa_score : Z) : result Z :=
  if daa_score <? deflationary_phase_daa_score m then Ok (pre_deflationary_phase_base_subsidy m)
  else
    d ← checked 64 (daa_score - deflationary_phase_daa_score m);
    let months := d / SECONDS_PER_MONTH in
    if Z.of_nat (length SUBSIDY_BY_MONTH_TABLE) <=? months then unwrap (last SUBSIDY_BY_MONTH_TABLE)
    else unwrap (SUBSIDY_BY_MONTH_TABLE !! Z.to_nat months).

(** ** Payload *)

Record MinerData := mk_miner { miner_script_public_key : ScriptPublicKey; extra_data : mem }.
Record CoinbaseData := mk_data { cb_blue_score : Z; cb_subsidy : Z; miner_data : MinerData }.
Record BlockRewardData := mk_reward { reward_subsidy : Z; total_fees : Z; reward_script_public_key : ScriptPublicKey }.
Record CoinbaseTransactionTemplate := mk_template { template_tx : Transaction; has_red_reward : bool }.

Inductive CoinbaseError :=
| PayloadLenBelowMin (len min : Z)
| PayloadLenAboveMax (len max : Z)
| PayloadScriptPublicKeyLenAboveMax (len max : Z)
| PayloadCantContainScriptPublicKey (len min : Z).

(** Version, length and script, and what the miner adds *)
Definition write_miner_data (d : MinerData) : mem :=
  store_le 2 (spk_version (miner_script_public_key d)) ++ store_le 1 (u8 (Z.of_nat (length (script (miner_script_public_key d))))) ++
  script (miner_script_public_key d) ++ extra_data d.

Definition serialize_coinbase_payload (m : CoinbaseManager) (data : CoinbaseData) : CoinbaseError + mem :=
  let script_pub_key_len := Z.of_nat (length (script (miner_script_public_key (miner_data data)))) in
  if coinbase_payload_script_public_key_max_len m <? script_pub_key_len then
    inl (PayloadScriptPublicKeyLenAboveMax script_pub_key_len (coinbase_payload_script_public_key_max_len m))
  else inr (store_le 8 (cb_blue_score data) ++ store_le 8 (cb_subsidy data) ++ write_miner_data (miner_data data)).

Definition modify_coinbase_payload (m : CoinbaseManager) (payload : mem) (miner_data : MinerData) : CoinbaseError + mem :=
  let script_pub_key_len := Z.of_nat (length (script (miner_script_public_key miner_data))) in
  if coinbase_payload_script_public_key_max_len m <? script_pub_key_len then
    inl (PayloadScriptPublicKeyLenAboveMax script_pub_key_len (coinbase_payload_script_public_key_max_len m))
  else inr (take (Z.to_nat (LENGTH_OF_BLUE_SCORE + LENGTH_OF_SUBSIDY)) payload ++ write_miner_data miner_data).

(** [PayloadParser::take]: the segment and what remains *)
Definition parser_take (remaining : mem) (n : Z) : result (mem * mem) :=
  if n <=? Z.of_nat (length remaining) then Ok (take (Z.to_nat n) remaining, drop (Z.to_nat n) remaining) else Fault.

Definition deserialize_coinbase_payload (m : CoinbaseManager) (payload : mem) : result (CoinbaseError + CoinbaseData) :=
  let len := Z.of_nat (length payload) in
  if len <? MIN_PAYLOAD_LENGTH then Ok (inl (PayloadLenBelowMin len MIN_PAYLOAD_LENGTH))
  else if max_coinbase_payload_len m <? len then Ok (inl (PayloadLenAboveMax len (max_coinbase_payload_len m)))
  else
    '(blue_score, r) ← parser_take payload LENGTH_OF_BLUE_SCORE;
    '(subsidy, r) ← parser_take r LENGTH_OF_SUBSIDY;
    '(version, r) ← parser_take r LENGTH_OF_SCRIPT_PUB_KEY_VERSION;
    '(script_len, r) ← parser_take r LENGTH_OF_SCRIPT_PUB_KEY_LENGTH;
    let script_pub_key_len := load_le script_len in
    if coinbase_payload_script_public_key_max_len m <? script_pub_key_len then
      Ok (inl (PayloadScriptPublicKeyLenAboveMax script_pub_key_len (coinbase_payload_script_public_key_max_len m)))
    else if Z.of_nat (length r) <? script_pub_key_len then
      Ok (inl (PayloadCantContainScriptPublicKey len (MIN_PAYLOAD_LENGTH + script_pub_key_len)))
    else
      '(script, r) ← parser_take r script_pub_key_len;
      Ok (inr (mk_data (load_le blue_score) (load_le subsidy) (mk_miner (mk_spk (load_le version) script) r))).

(** ** The transaction *)

Section Expected.
Context (m : CoinbaseManager) (mergeset_rewards : gmap Hash BlockRewardData) (mergeset_non_daa : gset Hash).

Definition reward (h : Hash) : result BlockRewardData := unwrap (mergeset_rewards !! h).

Fixpoint blue_outputs (blues : list Hash) : result (list TransactionOutput) :=
  match blues with
  | [] => Ok []
  | blue :: blues =>
      reward_data ← reward blue;
      v ← checked 64 (reward_subsidy reward_data + total_fees reward_data);
      outputs ← blue_outputs blues;
      Ok (if 0 <? v then mk_output v (reward_script_public_key reward_data) :: outputs else outputs)
  end.

(** The two loops over the red blocks *)
Fixpoint red_rewards_after (reds : list Hash) (red_reward : Z) : result Z :=
  match reds with
  | [] => Ok red_reward
  | red :: reds =>
      reward_data ← reward red;
      v ← (if bool_decide (red ∈ mergeset_non_daa) then Ok (total_fees reward_data)
           else checked 64 (reward_subsidy reward_data + total_fees reward_data));
      red_reward ← checked 64 (red_reward + v);
      red_rewards_after reds red_reward
  end.
Fixpoint red_rewards_before (reds : list Hash) (red_reward : Z) : result Z :=
  match reds with
  | [] => Ok red_reward
  | red :: reds =>
      reward_data ← reward red;
      v ← checked 64 (reward_subsidy reward_data + total_fees reward_data);
      red_reward ← checked 64 (red_reward + v);
      red_rewards_before reds red_reward
  end.

Context (blake2b : mem -> mem -> mem).

Definition expected_coinbase_transaction (daa_score : Z) (miner : MinerData) (ghostdag_data : GhostdagData) :
  result (CoinbaseError + CoinbaseTransactionTemplate) :=
  outputs ← blue_outputs (filter (fun h => h ∉ mergeset_non_daa) (mergeset_blues ghostdag_data));
  red_reward ← (if is_active (activation (bps m)) daa_score then red_rewards_after (mergeset_reds ghostdag_data) 0
                else red_rewards_before (filter (fun h => h ∉ mergeset_non_daa) (mergeset_reds ghostdag_data)) 0);
  let outputs := if 0 <? red_reward then outputs ++ [mk_output red_reward (miner_script_public_key miner)] else outputs in
  subsidy ← calc_block_subsidy m daa_score;
  match serialize_coinbase_payload m (mk_data (blue_score ghostdag_data) subsidy miner) with
  | inl e => Ok (inl e)
  | inr payload => Ok (inr (mk_template (tx_new blake2b TX_VERSION [] outputs 0 SUBNETWORK_ID_COINBASE 0 payload) (0 <? red_reward)))
  end.

End Expected.

End Coinbase.
