(* ===== verification/CoinbaseProofs.v ===== *)
(** * Theorems on coinbase transactions

    Payloads survive a round trip; the transaction pays the blocks of the mergeset what
    they earned and nothing else; and the schedule of the main network stays below the
    supply of 100,000,000 coins. *)
From Stdlib Require Import ZArith Lia.
From stdpp Require Import base numbers list list_numbers gmap.
From S2P Require Import Prelude Memory Header Tx Ghostdag Coinbase.
Import Tx.Tx Ghostdag.Ghostdag Coinbase.Coinbase.
Open Scope Z_scope.

Module CoinbaseProofs.

(** ** Payload *)

Record miner_ok (d : MinerData) : Prop := {
  mo_version : 0 <= spk_version (miner_script_public_key d) < 2 ^ 16 }.
Record data_ok (d : CoinbaseData) : Prop := {
  do_score : is_u64 (cb_blue_score d); do_subsidy : is_u64 (cb_subsidy d); do_miner : miner_ok (miner_data d) }.

Lemma parser_take_app a r n : Z.of_nat (length a) = n -> parser_take (a ++ r) n = Ok (a, r).
Proof.
  intros <-. unfold parser_take. rewrite length_app, (proj2 (Z.leb_le _ _)) by lia. by rewrite Nat2Z.id, take_app_length, drop_app_length.
Qed.

Lemma parser_take_ok r n : 0 <= n <= Z.of_nat (length r) -> exists a b, parser_take r n = Ok (a, b) /\ r = a ++ b /\ Z.of_nat (length a) = n.
Proof.
  intros Hn. exists (take (Z.to_nat n) r), (drop (Z.to_nat n) r). unfold parser_take. rewrite (proj2 (Z.leb_le _ _)) by lia.
  rewrite take_drop, length_take. split_and!; [done|done|lia].
Qed.

Lemma u8_small x : 0 <= x < 256 -> u8 x = x.
Proof. intros Hx. unfold u8. change 0xFF with (Z.ones 8). rewrite Z.land_ones, Z.mod_small; lia. Qed.

Section Payload.
Context (m : CoinbaseManager) (Hmax : 0 <= coinbase_payload_script_public_key_max_len m < 256).

Definition script_len (d : MinerData) : Z := Z.of_nat (length (script (miner_script_public_key d))).

Lemma length_write_miner_data d : script_len d < 256 -> Z.of_nat (length (write_miner_data d)) = 3 + script_len d + Z.of_nat (length (extra_data d)).
Proof. intros H. unfold write_miner_data, script_len in *. rewrite !length_app, !length_store_le by lia. lia. Qed.

Lemma deserialize_serialized data p : data_ok data -> serialize_coinbase_payload m data = inr p ->
  Z.of_nat (length p) <= max_coinbase_payload_len m -> deserialize_coinbase_payload m p = Ok (inr data).
Proof.
  intros [Hs Hb [Hv]]. unfold serialize_coinbase_payload. destruct (Z.ltb_spec (coinbase_payload_script_public_key_max_len m)
    (Z.of_nat (length (script (miner_script_public_key (miner_data data)))))) as [|Hl]; [done|].
  intros E Hp. apply (f_equal (fun x => match x with inr y => y | inl _ => [] end)) in E. cbn match beta in E. subst p.
  fold (script_len (miner_data data)) in Hl. unfold is_u64 in *. unfold deserialize_coinbase_payload. cbn zeta.
  assert (MIN_PAYLOAD_LENGTH <= Z.of_nat (length (store_le 8 (cb_blue_score data) ++ store_le 8 (cb_subsidy data) ++ write_miner_data (miner_data data)))) as Hm.
  { rewrite !length_app, !length_store_le, !Nat2Z.inj_add, length_write_miner_data by lia. unfold script_len. change MIN_PAYLOAD_LENGTH with 19. lia. }
  rewrite (proj2 (Z.ltb_ge _ _) Hm), (proj2 (Z.ltb_ge _ _) Hp). clear Hp Hm.
  rewrite parser_take_app, ok_bind by (rewrite length_store_le; done). rewrite parser_take_app, ok_bind by (rewrite length_store_le; done).
  unfold write_miner_data. rewrite parser_take_app, ok_bind by (rewrite length_store_le; done). rewrite parser_take_app, ok_bind by (rewrite length_store_le; done).
  fold (script_len (miner_data data)). assert (0 <= script_len (miner_data data)) by (unfold script_len; lia).
  rewrite u8_small, load_store_le, Z.mod_small by (cbn; lia). rewrite (proj2 (Z.ltb_ge _ _) Hl).
  rewrite length_app, (proj2 (Z.ltb_ge _ _)) by (unfold script_len; lia). rewrite parser_take_app, ok_bind by done.
  rewrite !load_store_le, !Z.mod_small by (cbn; lia). by destruct data as [a b [[]]].
Qed.

Lemma modify_serialized data p d : serialize_coinbase_payload m data = inr p ->
  modify_coinbase_payload m p d = serialize_coinbase_payload m (mk_data (cb_blue_score data) (cb_subsidy data) d).
Proof.
  unfold serialize_coinbase_payload, modify_coinbase_payload. cbn [miner_data cb_blue_score cb_subsidy].
  destruct (_ <? Z.of_nat (length (script (miner_script_public_key (miner_data data))))); [done|].
  intros E. apply (f_equal (fun x => match x with inr y => y | inl _ => [] end)) in E. cbn match beta in E. subst p.
  destruct (_ <? _); [done|]. done.
Qed.

Lemma deserialize_total p : Forall is_u8 p -> exists r, deserialize_coinbase_payload m p = Ok r /\
  match r with
  | inr d => data_ok d /\ serialize_coinbase_payload m d = inr p
  | inl (PayloadLenBelowMin len min) => len = Z.of_nat (length p) /\ len < min
  | inl (PayloadLenAboveMax len max) => len = Z.of_nat (length p) /\ max = max_coinbase_payload_len m /\ max < len
  | inl (PayloadScriptPublicKeyLenAboveMax len max) => max = coinbase_payload_script_public_key_max_len m /\ max < len
  | inl (PayloadCantContainScriptPublicKey len min) => len = Z.of_nat (length p) /\ len < min
  end.
Proof.
  intros Hp. unfold deserialize_coinbase_payload, LENGTH_OF_BLUE_SCORE, LENGTH_OF_SUBSIDY, LENGTH_OF_SCRIPT_PUB_KEY_VERSION, LENGTH_OF_SCRIPT_PUB_KEY_LENGTH.
  destruct (Z.ltb_spec (Z.of_nat (length p)) MIN_PAYLOAD_LENGTH) as [|Hmin]; [by eexists|].
  destruct (Z.ltb_spec (max_coinbase_payload_len m) (Z.of_nat (length p))); [by eexists|]. change MIN_PAYLOAD_LENGTH with 19 in Hmin.
  destruct (parser_take_ok p 8) as (a & r & E & -> & Ha); [lia|]. rewrite E, ok_bind. clear E. rewrite length_app in Hmin.
  destruct (parser_take_ok r 8) as (b & r2 & E & -> & Hb); [lia|]. rewrite E, ok_bind. clear E. rewrite length_app in Hmin.
  destruct (parser_take_ok r2 2) as (v & r3 & E & -> & Hv); [lia|]. rewrite E, ok_bind. clear E. rewrite length_app in Hmin.
  destruct (parser_take_ok r3 1) as (l & r4 & E & -> & Hl); [lia|]. rewrite E, ok_bind. clear E. rewrite length_app in Hmin.
  rewrite !Forall_app in Hp. destruct Hp as (Pa & Pb & Pv & Pl & Pr).
  pose proof (load_le_bound a Pa) as Ba. pose proof (load_le_bound b Pb) as Bb. pose proof (load_le_bound v Pv) as Bv. pose proof (load_le_bound l Pl) as Bl.
  rewrite Ha in Ba. rewrite Hb in Bb. rewrite Hv in Bv. rewrite Hl in Bl. cbn in Ba, Bb, Bv, Bl.
  destruct (Z.ltb_spec (coinbase_payload_script_public_key_max_len m) (load_le l)) as [|Hk]; [by eexists|].
  destruct (Z.ltb_spec (Z.of_nat (length r4)) (load_le l)) as [Hc|Hc].
  { eexists. split; [done|]. split; [done|]. rewrite !length_app. change MIN_PAYLOAD_LENGTH with 19. lia. }
  destruct (parser_take_ok r4 (load_le l)) as (s & x & E & -> & Hs); [lia|]. rewrite E, ok_bind. eexists. split; [done|]. clear E. split.
  - split; unfold is_u64; cbn; [lia|lia|split; cbn; lia].
  - unfold serialize_coinbase_payload, write_miner_data. cbn [miner_data miner_script_public_key script extra_data spk_version cb_blue_score cb_subsidy].
    rewrite Hs, (proj2 (Z.ltb_ge _ _) Hk), u8_small, !store_load_le by (done || lia). done.
Qed.

End Payload.

(** Coinbase payloads: what is written is read back; a payload that is changed for
    another miner is the one that would be written for that miner; every string of bytes
    is either refused with the error that fits or is the payload of the data that are
    returned, and parsing never panics. *)
Theorem coinbase_payload_roundtrip m data p d q : 0 <= coinbase_payload_script_public_key_max_len m < 256 -> data_ok data -> Forall is_u8 q ->
  serialize_coinbase_payload m data = inr p ->
  (Z.of_nat (length p) <= max_coinbase_payload_len m -> deserialize_coinbase_payload m p = Ok (inr data)) /\
  modify_coinbase_payload m p d = serialize_coinbase_payload m (mk_data (cb_blue_score data) (cb_subsidy data) d) /\
  exists r, deserialize_coinbase_payload m q = Ok r /\
    match r with
    | inr d => data_ok d /\ serialize_coinbase_payload m d = inr q
    | inl (PayloadLenBelowMin len min) => len = Z.of_nat (length q) /\ len < min
    | inl (PayloadLenAboveMax len max) => len = Z.of_nat (length q) /\ max = max_coinbase_payload_len m /\ max < len
    | inl (PayloadScriptPublicKeyLenAboveMax len max) => max = coinbase_payload_script_public_key_max_len m /\ max < len
    | inl (PayloadCantContainScriptPublicKey len min) => len = Z.of_nat (length q) /\ len < min
    end.
Proof.
  intros Hmax Hd Hq Hp. split; [by apply deserialize_serialized|]. split; [by apply modify_serialized|]. by apply deserialize_total.
Qed.

(** ** The schedule *)

(** What blocks with the DAA scores below [n] are paid, one block for each score *)
Fixpoint emission (m : CoinbaseManager) (n : nat) : result Z :=
  match n with
  | O => Ok 0
  | S n => total ← emission m n; subsidy ← calc_block_subsidy m (Z.of_nat n); Ok (total + subsidy)
  end.

Lemma emission_add m c k : forall a e, emission m a = Ok e -> (forall d, Z.of_nat a <= d < Z.of_nat a + Z.of_nat k -> calc_block_subsidy m d = Ok c) ->
  emission m (a + k) = Ok (e + Z.of_nat k * c).
Proof.
  induction k as [|k IH]; intros a e He Hc; [rewrite Nat.add_0_r, He; f_equal; lia|].
  rewrite Nat.add_succ_r. cbn [emission]. rewrite (IH a e He), ok_bind by (intros; apply Hc; lia). rewrite Hc, ok_bind by lia. f_equal. lia.
Qed.

Definition mainnet : CoinbaseManager :=
  mk_manager 150 204 15519600 409836066 (mk_forked 1 10 110165000)
    (default [] (match scaled_table 122 1 with Ok t => Some t | _ => None end))
    (default [] (match scaled_table 122 10 with Ok t => Some t | _ => None end)) 110165000.

Lemma mainnet_ok : mainnet_manager = Ok mainnet.
Proof. vm_compute. done. Qed.

(** The month of a DAA score, and what a subsidy depends on *)
Definition month (d : Z) : Z := (if d <? 110165000 then (d - 15519600) / 1 else (110165000 - 15519600) / 1 + (d - 110165000) / 10) / SECONDS_PER_MONTH.

Lemma month_ok d : 15519600 <= d < 2 ^ 64 -> subsidy_month mainnet d = Ok (month d).
Proof.
  intros Hd. unfold subsidy_month, month, mainnet. cbn [deflationary_phase_daa_score crescendo_activation_daa_score bps].
  change (after (mk_forked 1 10 110165000)) with 10. change (before (mk_forked 1 10 110165000)) with 1. change (110165000 <? 15519600) with false.
  cbn match. destruct (Z.ltb_spec d 110165000).
  - rewrite checked_ok, ok_bind by lia. done.
  - rewrite (checked_ok 64 (110165000 - 15519600)), ok_bind by lia. change (div (110165000 - 15519600) 1) with (Ok 94645400 : result Z). rewrite ok_bind, checked_ok, ok_bind by lia.
    change (div (d - 110165000) 10) with (Ok ((d - 110165000) / 10)). rewrite ok_bind, checked_ok, ok_bind; [done|].
    pose proof (Z.div_pos (d - 110165000) 10). assert ((d - 110165000) / 10 <= d - 110165000) by (apply Z.div_le_upper_bound; lia). lia.
Qed.

Definition phase (d : Z) : bool * bool * Z := (d <? 15519600, 110165000 <=? d, month (Z.max d 15519600)).

Lemma month_mono c d : 15519600 <= c <= d -> (110165000 <=? c) = (110165000 <=? d) -> month c <= month d.
Proof.
  intros Hcd E. unfold month. apply Z.div_le_mono; [done|]. destruct (Z.ltb_spec c 110165000), (Z.ltb_spec d 110165000).
  - apply Z.div_le_mono; lia.
  - destruct (Z.leb_spec 110165000 c), (Z.leb_spec 110165000 d); try lia; done.
  - lia.
  - apply Z.add_le_mono_l, Z.div_le_mono; lia.
Qed.

Lemma phase_const a b d : phase a = phase b -> a <= d <= b -> phase d = phase a.
Proof.
  unfold phase. intros [= E1 E2 E3] Hd.
  assert ((d <? 15519600) = (a <? 15519600)) as F1 by (destruct (Z.ltb_spec a 15519600), (Z.ltb_spec b 15519600), (Z.ltb_spec d 15519600); try lia; done).
  assert ((110165000 <=? d) = (110165000 <=? a)) as F2 by (destruct (Z.leb_spec 110165000 a), (Z.leb_spec 110165000 b), (Z.leb_spec 110165000 d); try lia; done).
  rewrite F1, F2. f_equal.
  assert (forall x y, (110165000 <=? x) = (110165000 <=? y) -> (110165000 <=? Z.max x 15519600) = (110165000 <=? Z.max y 15519600)) as Fm.
  { intros x y. destruct (Z.leb_spec 110165000 x), (Z.leb_spec 110165000 y), (Z.leb_spec 110165000 (Z.max x 15519600)), (Z.leb_spec 110165000 (Z.max y 15519600)); try lia; done. }
  pose proof (month_mono (Z.max a 15519600) (Z.max d 15519600) ltac:(lia) (Fm _ _ (eq_sym F2))).
  pose proof (month_mono (Z.max d 15519600) (Z.max b 15519600) ltac:(lia) (Fm _ _ (eq_trans F2 E2))). lia.
Qed.

Lemma subsidy_phase c d : c < 2 ^ 64 -> d < 2 ^ 64 -> phase c = phase d -> calc_block_subsidy mainnet c = calc_block_subsidy mainnet d.
Proof.
  intros Hc Hd [= E1 E2 E3]. unfold calc_block_subsidy. change (deflationary_phase_daa_score mainnet) with 15519600. rewrite E1.
  destruct (Z.ltb_spec d 15519600) as [|Hd']; [done|]. destruct (Z.ltb_spec c 15519600) as [|Hc']; [done|].
  rewrite !month_ok, !ok_bind by lia. rewrite !Z.max_l in E3 by lia. rewrite E3. unfold is_active. change (activation (bps mainnet)) with 110165000. by rewrite E2.
Qed.

(** Lengths of the stretches with one subsidy, from the score [a] on *)
Fixpoint stretches (a : Z) (l : list Z) : option (Z * Z) :=
  match l with
  | [] => Some (a, 0)
  | n :: l =>
      if (0 <? n) && bool_decide (phase a = phase (a + n - 1)) then
        match calc_block_subsidy mainnet a, stretches (a + n) l with
        | Ok c, Some (b, t) => Some (b, n * c + t)
        | _, _ => None
        end
      else None
  end.

Lemma stretches_ok l : forall a b t e, 0 <= a -> b <= 2 ^ 64 -> emission mainnet (Z.to_nat a) = Ok e -> stretches a l = Some (b, t) ->
  a <= b /\ emission mainnet (Z.to_nat b) = Ok (e + t).
Proof.
  induction l as [|n l IH]; intros a b t e Ha Hb He E; cbn [stretches] in E.
  { injection E as <- <-. rewrite He. split; [lia|f_equal; lia]. }
  destruct (Z.ltb_spec 0 n) as [Hn|]; [|done]. cbn [andb] in E. destruct (bool_decide_reflect (phase a = phase (a + n - 1))) as [Hp|]; [|done].
  destruct (calc_block_subsidy mainnet a) as [c| |] eqn:Ec; [|done|done]. destruct (stretches (a + n) l) as [[b' t']|] eqn:El; [|done]. injection E as -> <-.
  assert (a + n <= b) as Hab.
  { destruct (Z_le_gt_dec (a + n) b); [done|]. exfalso. clear - El g Hn. revert El g. generalize (a + n). clear a Hn.
    revert t'. induction l as [|k l IH]; intros t' a E H; cbn [stretches] in E; [injection E as -> _; lia|].
    destruct (Z.ltb_spec 0 k); [|done]. cbn [andb] in E. destruct (bool_decide _); [|done]. destruct (calc_block_subsidy mainnet a); [|done|done].
    destruct (stretches (a + k) l) as [[b'' t'']|] eqn:El; [|done]. injection E as -> _. eapply IH; [exact El|lia]. }
  destruct (IH (a + n) b t' (e + n * c)) as [H1 H2]; [lia|done| |done|].
  - replace (Z.to_nat (a + n)) with (Z.to_nat a + Z.to_nat n)%nat by lia. replace n with (Z.of_nat (Z.to_nat n)) at 2 by lia.
    apply emission_add; [done|]. intros d Hd. rewrite <- Ec. apply subsidy_phase; [lia|lia|]. apply (phase_const a (a + n - 1)); [done|lia].
  - split; [lia|]. rewrite H2. f_equal. lia.
Qed.

(** Half a year, 169 months of one block per second, the month of the change, and 255
    months of ten *)
Definition mainnet_stretches : list Z := 15519600 :: replicate 169 556920 ++ [525920; 310000] ++ replicate 255 5569200.
Definition mainnet_end : Z := 1530621000.
Definition mainnet_supply : Z := 9939182079156920.

Lemma mainnet_stretches_ok : stretches 0 mainnet_stretches = Some (mainnet_end, mainnet_supply).
Proof. vm_compute. done. Qed.

Lemma subsidy_ended d : mainnet_end <= d < 2 ^ 64 -> calc_block_subsidy mainnet d = Ok 0.
Proof.
  unfold mainnet_end. intros Hd. unfold calc_block_subsidy. change (deflationary_phase_daa_score mainnet) with 15519600.
  rewrite (proj2 (Z.ltb_ge _ _)), month_ok, ok_bind by lia. unfold is_active. change (activation (bps mainnet)) with 110165000.
  rewrite (proj2 (Z.leb_le 110165000 d)) by lia. assert (425 <= month d).
  { unfold month. rewrite (proj2 (Z.ltb_ge d 110165000)) by lia. apply Z.div_le_lower_bound; [done|]. rewrite Z.div_1_r.
    assert (142045600 <= (d - 110165000) / 10) by (apply Z.div_le_lower_bound; lia). unfold SECONDS_PER_MONTH. lia. }
  assert (Z.of_nat (length (subsidy_by_month_table_after mainnet)) = 426) as -> by by vm_compute. rewrite Z.min_r by lia. by vm_compute.
Qed.

Lemma subsidy_nonneg d s : calc_block_subsidy mainnet d = Ok s -> 0 <= s.
Proof.
  assert (Forall (fun x => 0 <= x) (subsidy_by_month_table_before mainnet) /\ Forall (fun x => 0 <= x) (subsidy_by_month_table_after mainnet)) as [Hb Ha].
  { split; apply (bool_decide_unpack _); by vm_compute. }
  unfold calc_block_subsidy. destruct (_ <? _); [intros [= <-]; done|]. destruct (subsidy_month mainnet d) as [mo| |]; [|done|done]. rewrite ok_bind.
  unfold unwrap. destruct (is_active _ _); destruct (_ !! _) as [x|] eqn:Ex; intros [= <-]; [by apply (Forall_lookup_1 _ _ _ _ Ha Ex)|by apply (Forall_lookup_1 _ _ _ _ Hb Ex)].
Qed.

Lemma emission_mono a : forall k e, emission mainnet (a + k) = Ok e -> exists e', emission mainnet a = Ok e' /\ e' <= e.
Proof.
  induction k as [|k IH]; intros e He; [rewrite Nat.add_0_r in He; by exists e|]. rewrite Nat.add_succ_r in He. cbn [emission] in He.
  apply bind_Ok in He as (e1 & H1 & He). apply bind_Ok in He as (c & Hc & [= <-]). destruct (IH e1 H1) as (e' & H' & Hle).
  exists e'. split; [done|]. pose proof (subsidy_nonneg _ _ Hc). lia.
Qed.

Lemma mainnet_total : exists k, Z.of_nat k = mainnet_end /\ emission mainnet k = Ok mainnet_supply.
Proof.
  destruct (stretches_ok mainnet_stretches 0 mainnet_end mainnet_supply 0 (Z.le_refl 0) ltac:(unfold mainnet_end; lia) (eq_refl (Ok 0)) mainnet_stretches_ok) as [_ He].
  exists (Z.to_nat mainnet_end). split; [apply Z2Nat.id; unfold mainnet_end; lia|exact He].
Qed.

(** Before the change of the block rate the tables agree up to the divisor. *)
Definition months_agree : bool :=
  forallb (fun i => match SUBSIDY_BY_MONTH_TABLE !! i, subsidy_by_month_table_before mainnet !! i with
    | Some s, Some t => (1 <? s) && match div_ceil s 122 with Ok q => q =? t | _ => false end
    | _, _ => false
    end) (seq 0 170).

Lemma div_ceil_less s : 1 < s -> div_ceil s 122 <> Ok s.
Proof.
  intros Hs. unfold div_ceil. change (div s 122) with (Ok (s / 122)). rewrite ok_bind. intros [= E]. pose proof (Z.div_mod s 122 ltac:(lia)). pose proof (Z.mod_pos_bound s 122 ltac:(lia)).
  destruct (Z.ltb_spec 0 (s mod 122)); lia.
Qed.

Lemma legacy_scaled d : 15519600 <= d < 110165000 ->
  exists s, legacy_calc_block_subsidy mainnet d = Ok s /\ calc_block_subsidy mainnet d = div_ceil s 122 /\ 1 < s.
Proof.
  intros Hd. unfold legacy_calc_block_subsidy, calc_block_subsidy. change (deflationary_phase_daa_score mainnet) with 15519600.
  rewrite (proj2 (Z.ltb_ge d 15519600)), month_ok, checked_ok, !ok_bind by lia. unfold month. rewrite (proj2 (Z.ltb_lt d 110165000)), Z.div_1_r by lia.
  unfold is_active. change (activation (bps mainnet)) with 110165000. rewrite (proj2 (Z.leb_gt 110165000 d)) by lia.
  assert (0 <= (d - 15519600) / SECONDS_PER_MONTH < 170) as Hm by (unfold SECONDS_PER_MONTH; split; [apply Z.div_pos|apply Z.div_lt_upper_bound]; lia).
  assert (Z.of_nat (length (subsidy_by_month_table_before mainnet)) = 426) as -> by by vm_compute. change (Z.of_nat (length SUBSIDY_BY_MONTH_TABLE)) with 426.
  rewrite (proj2 (Z.leb_gt 426 _)), Z.min_l by lia. assert (Hag : months_agree = true) by by vm_compute.
  unfold months_agree in Hag. rewrite forallb_forall in Hag. specialize (Hag (Z.to_nat ((d - 15519600) / SECONDS_PER_MONTH)) ltac:(apply in_seq; lia)).
  destruct (SUBSIDY_BY_MONTH_TABLE !! _) as [x|]; [|done]. destruct (subsidy_by_month_table_before mainnet !! _) as [t|]; [|done].
  apply andb_true_iff in Hag as [Hpos%Z.ltb_lt Hq]. exists x. destruct (div_ceil x 122) as [q| |]; [|done..]. apply Z.eqb_eq in Hq as ->. done.
Qed.

(** C34: The schedule of the main network, with one block for each DAA score. The subsidy
    is defined for every score. The sum over the scores below any number never exceeds
    99,391,820.79 coins and is exactly that from DAA score 1,530,621,000 on. So it stays
    608,179.20 coins short of the 100,000,000 the constructor's comment says it equals,
    which is also the largest amount a transaction may have. Between the start of the
    deflationary phase and the change of the block rate the subsidy is that of the
    legacy table divided by 122 and rounded up, and so never the legacy value itself,
    which a test of the emission expects. *)
Theorem emission_bounded : exists m, mainnet_manager = Ok m /\
  (forall n, Z.of_nat n <= 2 ^ 64 -> exists e, emission m n = Ok e /\ 0 <= e <= mainnet_supply /\ (mainnet_end <= Z.of_nat n -> e = mainnet_supply)) /\
  mainnet_supply + 60817920843080 = MAX_SOMPI /\
  (forall d, deflationary_phase_daa_score m <= d < crescendo_activation_daa_score m ->
    exists s, legacy_calc_block_subsidy m d = Ok s /\ calc_block_subsidy m d = div_ceil s 122 /\ calc_block_subsidy m d <> legacy_calc_block_subsidy m d).
Proof.
  exists mainnet. split; [apply mainnet_ok|]. split_and!; [|done|].
  - intros n Hn. destruct (mainnet_total) as (k & Hk & He).
    destruct (Z_le_gt_dec mainnet_end (Z.of_nat n)) as [Hle|Hgt].
    + exists mainnet_supply. split; [|done]. replace n with (k + (n - k))%nat by lia.
      rewrite (emission_add mainnet 0 _ _ mainnet_supply He); [f_equal; lia|]. intros d Hd. apply subsidy_ended. lia.
    + replace k with (n + (k - n))%nat in He by lia. destruct (emission_mono n (k - n) mainnet_supply He) as (e & Hen & Hle).
      destruct (emission_mono 0 n e Hen) as (e' & [= <-] & Hpos). exists e. split; [done|]. split; [lia|]. lia.
  - intros d Hd. destruct (legacy_scaled d Hd) as (s & E1 & E2 & Hs). exists s. split_and!; [done|done|]. rewrite E1, E2. by apply div_ceil_less.
Qed.

(** ** The transaction *)

Section Transaction.
Context (rewards : gmap Hash BlockRewardData) (non_daa : gset Hash).

Definition earned (h : Hash) : Z := match rewards !! h with Some r => reward_subsidy r + total_fees r | None => 0 end.
(** A red block outside the window earns only its fees, once the fork is active. *)
Definition red_earned (active : bool) (h : Hash) : Z :=
  if decide (h ∈ non_daa) then if active then match rewards !! h with Some r => total_fees r | None => 0 end else 0 else earned h.
Definition reward_output (h : Hash) : option TransactionOutput :=
  match rewards !! h with
  | Some r => if 0 <? reward_subsidy r + total_fees r then Some (mk_output (reward_subsidy r + total_fees r) (reward_script_public_key r)) else None
  | None => None
  end.

Definition rewards_ok (l : list Hash) : Prop := forall h, h ∈ l -> exists r, rewards !! h = Some r /\ 0 <= reward_subsidy r /\ 0 <= total_fees r /\
  reward_subsidy r + total_fees r < 2 ^ 64.

Definition total (l : list Z) : Z := foldr Z.add 0 l.

Lemma total_nonneg l : Forall (fun x => 0 <= x) l -> 0 <= total l.
Proof. induction 1; cbn; [done|]. unfold total in *. lia. Qed.

Lemma total_app l k : total (l ++ k) = total l + total k.
Proof. induction l as [|x l IH]; cbn; [done|]. unfold total in *. rewrite IH. lia. Qed.

Lemma blue_outputs_ok l : rewards_ok l -> blue_outputs rewards l = Ok (omap reward_output l).
Proof.
  induction l as [|h l IH]; intros Hl; [done|]. cbn [blue_outputs omap list_omap]. destruct (Hl h ltac:(left)) as (r & Hr & H1 & H2 & H3).
  unfold reward, reward_output. rewrite Hr. cbn [unwrap mbind result_bind]. rewrite checked_ok, ok_bind by lia.
  rewrite IH, ok_bind by (intros h' Hh; apply Hl; by right). by destruct (0 <? _).
Qed.

Lemma outputs_total l : rewards_ok l -> total (value <$> omap reward_output l) = total (earned <$> l) /\
  Forall (fun o => 0 < value o) (omap reward_output l).
Proof.
  induction l as [|h l IH]; intros Hl; [done|]. destruct IH as [E1 E2]; [intros h' Hh; apply Hl; by right|].
  destruct (Hl h ltac:(left)) as (r & Hr & H1 & H2 & H3). cbn [omap list_omap fmap list_fmap]. unfold earned at 1.
  assert (reward_output h = if 0 <? reward_subsidy r + total_fees r then Some (mk_output (reward_subsidy r + total_fees r) (reward_script_public_key r)) else None)
    as -> by (unfold reward_output; by rewrite Hr). rewrite Hr.
  destruct (Z.ltb_spec 0 (reward_subsidy r + total_fees r)).
  - split; [|by constructor]. change (reward_subsidy r + total_fees r + total (value <$> omap reward_output l) = reward_subsidy r + total_fees r + total (earned <$> l)).
    by rewrite E1.
  - split; [|done]. change (total (value <$> omap reward_output l) = reward_subsidy r + total_fees r + total (earned <$> l)). rewrite E1. lia.
Qed.

Lemma red_earned_nonneg active l : rewards_ok l -> Forall (fun x => 0 <= x) (red_earned active <$> l).
Proof.
  intros Hl. apply Forall_fmap, Forall_forall. intros h Hh. destruct (Hl h Hh) as (r & Hr & H1 & H2 & H3). unfold compose, red_earned, earned. rewrite Hr.
  destruct (decide _), active; lia.
Qed.

Lemma red_after_ok l : forall acc, rewards_ok l -> 0 <= acc -> acc + total (red_earned true <$> l) < 2 ^ 64 ->
  red_rewards_after rewards non_daa l acc = Ok (acc + total (red_earned true <$> l)).
Proof.
  induction l as [|h l IH]; intros acc Hl Ha Hb; cbn [red_rewards_after]; [f_equal; cbn; lia|].
  destruct (Hl h ltac:(left)) as (r & Hr & H1 & H2 & H3). assert (rewards_ok l) as Hl' by (intros h' Hh; apply Hl; by right).
  pose proof (total_nonneg _ (red_earned_nonneg true l Hl')) as Hn. cbn [fmap list_fmap total foldr] in Hb |- *. fold (total (red_earned true <$> l)) in *.
  unfold red_earned at 1 in Hb. unfold red_earned at 1. unfold earned in *. rewrite Hr in Hb |- *. unfold reward. rewrite Hr. cbn [unwrap mbind result_bind].
  destruct (decide (h ∈ non_daa)) as [Hd|Hd].
  - rewrite bool_decide_eq_true_2, ok_bind by done. rewrite checked_ok, ok_bind by lia. rewrite IH; [f_equal; lia|done|lia|lia].
  - rewrite bool_decide_eq_false_2 by done. rewrite (checked_ok 64 (reward_subsidy r + total_fees r)), ok_bind by lia.
    rewrite checked_ok, ok_bind by lia. rewrite IH; [f_equal; lia|done|lia|lia].
Qed.

Lemma red_before_ok l : forall acc, rewards_ok l -> 0 <= acc -> acc + total (earned <$> l) < 2 ^ 64 ->
  red_rewards_before rewards l acc = Ok (acc + total (earned <$> l)).
Proof.
  induction l as [|h l IH]; intros acc Hl Ha Hb; cbn [red_rewards_before]; [f_equal; cbn; lia|].
  destruct (Hl h ltac:(left)) as (r & Hr & H1 & H2 & H3). assert (rewards_ok l) as Hl' by (intros h' Hh; apply Hl; by right).
  assert (0 <= total (earned <$> l)) as Hn.
  { apply total_nonneg, Forall_fmap, Forall_forall. intros h' Hh. destruct (Hl' h' Hh) as (r' & Hr' & ? & ? & ?). unfold compose, earned. rewrite Hr'. lia. }
  cbn [fmap list_fmap total foldr] in Hb |- *. fold (total (earned <$> l)) in *. unfold earned at 1 in Hb. unfold earned at 1. rewrite Hr in Hb |- *.
  unfold reward. rewrite Hr. cbn [unwrap mbind result_bind]. rewrite (checked_ok 64 (reward_subsidy r + total_fees r)), ok_bind by lia.
  rewrite checked_ok, ok_bind by lia. rewrite IH; [f_equal; lia|done|lia|lia].
Qed.

Lemma red_before_total l : total (earned <$> filter (fun h => h ∉ non_daa) l) = total (red_earned false <$> l).
Proof.
  induction l as [|h l IH]; [done|]. rewrite filter_cons. change (total (red_earned false <$> h :: l)) with (red_earned false h + total (red_earned false <$> l)).
  unfold red_earned at 1. destruct (decide (h ∉ non_daa)), (decide (h ∈ non_daa)); try done; rewrite <- IH; done.
Qed.

Lemma rewards_ok_filter l : rewards_ok l -> rewards_ok (filter (fun h => h ∉ non_daa) l).
Proof. intros H h [_ Hh]%list_elem_of_filter. by apply H. Qed.

End Transaction.

(** C33: The coinbase transaction of a block: if the rewards of the merged blocks are known
    and no sum overflows, it is built, with one output for each blue block of the window
    that earned something, in order and to its script, and one for the miner with what the
    red blocks earned; no output is empty, and the outputs add up to exactly what the
    merged blocks earned.  The payload, if it is not longer than the limit for payloads,
    gives blue score, subsidy and miner back, and the transaction is recognised as a
    coinbase.  A script that is too long is refused. *)
Theorem coinbase_transaction_correct m rewards non_daa blake2b daa miner d subsidy : let active := is_active (activation (bps m)) daa in
  let blues := filter (fun h => h ∉ non_daa) (mergeset_blues d) in
  0 <= coinbase_payload_script_public_key_max_len m < 256 -> is_u64 (blue_score d) -> is_u64 subsidy -> miner_ok miner ->
  rewards_ok rewards (mergeset_blues d) -> rewards_ok rewards (mergeset_reds d) -> calc_block_subsidy m daa = Ok subsidy ->
  total (red_earned rewards non_daa active <$> mergeset_reds d) < 2 ^ 64 ->
  exists r, expected_coinbase_transaction m rewards non_daa blake2b daa miner d = Ok r /\
  match r with
  | inl e => e = PayloadScriptPublicKeyLenAboveMax (script_len miner) (coinbase_payload_script_public_key_max_len m) /\
      coinbase_payload_script_public_key_max_len m < script_len miner
  | inr t =>
      let tx := template_tx t in let reds := total (red_earned rewards non_daa active <$> mergeset_reds d) in
      is_coinbase tx = true /\ inputs tx = [] /\ id_cache tx = tx_id blake2b tx /\ has_red_reward t = (0 <? reds) /\
      outputs tx = omap (reward_output rewards) blues ++ (if 0 <? reds then [mk_output reds (miner_script_public_key miner)] else []) /\
      Forall (fun o => 0 < value o) (outputs tx) /\
      total (value <$> outputs tx) = total (earned rewards <$> blues) + reds /\
      (Z.of_nat (length (payload tx)) <= max_coinbase_payload_len m ->
       deserialize_coinbase_payload m (payload tx) = Ok (inr (mk_data (blue_score d) subsidy miner)))
  end.
Proof.
  intros active blues Hmax Hsc Hsub Hmi Hb Hr Hcalc Hred. unfold expected_coinbase_transaction. fold blues.
  pose proof (rewards_ok_filter rewards non_daa _ Hb) as Hb'. fold blues in Hb'. rewrite blue_outputs_ok, ok_bind by done.
  set (reds := total (red_earned rewards non_daa active <$> mergeset_reds d)) in *.
  assert (0 <= reds) as Hpos by (apply total_nonneg; by apply red_earned_nonneg).
  match goal with |- context [(if ?c then red_rewards_after ?a ?b ?l 0 else _) ≫= _] =>
    assert ((if c then red_rewards_after a b l 0 else red_rewards_before rewards (filter (fun h => h ∉ non_daa) l) 0) = Ok reds) as -> end.
  { fold active. unfold reds in *. destruct active; [rewrite red_after_ok by (done || lia); done|].
    rewrite red_before_ok; [by rewrite red_before_total|by apply rewards_ok_filter|done|rewrite red_before_total; lia]. }
  rewrite ok_bind, Hcalc, ok_bind. destruct (outputs_total rewards blues Hb') as [Etot Hall].
  destruct (serialize_coinbase_payload m (mk_data (blue_score d) subsidy miner)) as [e|p] eqn:Es.
  - eexists. split; [done|]. unfold serialize_coinbase_payload in Es. cbn [miner_data] in Es. fold (script_len miner) in Es.
    destruct (Z.ltb_spec (coinbase_payload_script_public_key_max_len m) (script_len miner)); [|done]. by injection Es as <-.
  - eexists. split; [done|]. cbn [template_tx has_red_reward tx_new tx_finalize inputs outputs id_cache payload].
    split; [by apply bool_decide_eq_true_2|]. do 3 (split; [done|]). split; [by destruct (0 <? reds); [|rewrite app_nil_r]|].
    split_and!.
    + destruct (Z.ltb_spec 0 reds); [|done]. apply Forall_app. split; [done|]. by constructor.
    + destruct (Z.ltb_spec 0 reds); [|rewrite Etot; lia]. rewrite fmap_app, total_app, Etot. cbn. lia.
    + intros Hl. by apply deserialize_serialized.
Qed.

(** ** Examples *)

Definition small_miner : MinerData := mk_miner (mk_spk 0 [1; 2]) [7].
Definition small_rewards : gmap Hash BlockRewardData := {[ 1 := mk_reward 100 5 (mk_spk 0 [9]); 2 := mk_reward 100 3 (mk_spk 0 [8]) ]}.
Definition small_ghostdag : GhostdagData := Ghostdag.Ghostdag.mk_data 7 9 1 [1] [2] ∅.

Lemma coinbase_payload_roundtrip_witness : exists p, serialize_coinbase_payload mainnet (mk_data 56 44000000000 small_miner) = inr p /\
  deserialize_coinbase_payload mainnet p = Ok (inr (mk_data 56 44000000000 small_miner)).
Proof.
  eexists. split; [reflexivity|]. apply (coinbase_payload_roundtrip mainnet (mk_data 56 44000000000 small_miner) _ small_miner []).
  - cbn. lia.
  - split; unfold is_u64; cbn; [lia|lia|split; cbn; lia].
  - constructor.
  - reflexivity.
  - by vm_compute.
Defined.

Lemma small_rewards_ok l : (forall h, h ∈ l -> h = 1 \/ h = 2) -> rewards_ok small_rewards l.
Proof. intros H h Hh. destruct (H h Hh) as [-> | ->]; eexists; (split; [reflexivity|]); cbn; lia. Qed.

Lemma coinbase_transaction_correct_witness : exists r,
  expected_coinbase_transaction mainnet small_rewards ∅ (fun _ d => take 32 d) 200000000 small_miner small_ghostdag = Ok r.
Proof.
  destruct (coinbase_transaction_correct mainnet small_rewards ∅ (fun _ d => take 32 d) 200000000 small_miner small_ghostdag 779)
    as (r & E & _); [cbn; lia|unfold is_u64; cbn; lia|unfold is_u64; lia|split; cbn; lia| | |by vm_compute|by vm_compute|by exists r].
  - apply small_rewards_ok. intros h ->%list_elem_of_singleton. by left.
  - apply small_rewards_ok. intros h ->%list_elem_of_singleton. by right.
Defined.

End CoinbaseProofs.
